(* ===== verification/_CoqProject ===== *)
-Q . S2P
Prelude.v
Wire.v
Features.v
WireMessages.v
WireTlv.v
WireGossip.v
WireModels.v
WireFrame.v
OnionError.v
Amounts.v
OpReturn.v
UpdateLog.v
CommitTx.v
Signature.v
CoinSelect.v
Kvdb.v
FwdPkg.v
FwdPkgTheorems.v
ChannelState.v
CloseTx.v
ChanCloser.v
CloseTheorems.v
CloserSafety.v
CloserLiveness.v
ChannelModel.v
ChannelView.v
ViewLemmas.v
ViewConservation.v
ChannelOps.v
ChannelInv.v
ChannelReach.v
ChannelFunds.v
ChannelHistory.v
ChannelTheorems.v
ChannelSync.v
SyncProtocol.v
SyncRefine.v
SyncAnswer.v
SyncNet.v
SyncTheorems.v
CircuitMap.v
CircuitMapInv.v
CircuitMapSim.v
CircuitMapStart.v
CircuitMapTheorems.v
GoText.v
Bech32.v
PayAmount.v
PayInvoice.v
PayCodec.v
PayFields.v
PayRequest.v
PayTheorems.v
FeatureDeps.v
Sequencer.v
DecayedLog.v
Links.v
NetworkResult.v
Switch.v
SwitchForward.v
SwitchPayments.v
HopRecords.v
Amp.v
Route.v
HopPayload.v
ResultInterpretation.v
KeyDerivation.v
ScriptUtils.v
ScriptPaths.v
WitnessGen.v
Resolutions.v
ResolveTheorems.v
ForceClose.v
CommitOutputs.v
SweepInputs.v
ScriptModel.v
FundingIntents.v
Reservation.v
Wallet.v
FundingTheorems.v
