(* ===== verification/Prelude.v ===== *)
(** * Verification of obd-go-bindings

    The repository is a fork of a Lightning node in Go whose channels hold bitcoin
    or an Omni-layer asset.  Its own logic is: the wire protocol (lnwire), the
    channel state machine (lnwallet/channel.go with its update logs, commitments
    and transactions), the database of a channel and of its forwarding packages
    (channeldb), the switch (htlcswitch), the funding and
    closing code of the wallet (lnwallet/chanfunding, lnwallet/chancloser), the
    payment requests that are handed to a payer (zpay32), and the advertised features
    (feature), and what is spent when a channel ends on chain (input, lnwallet).  A
    message is decoded by lnwire and handed to the channel, which records it in an
    update log; the logs are evaluated into a commitment, which becomes a
    transaction; a revocation locks the updates in, stores them as a forwarding
    package and hands them to the switch, which keeps a circuit for each HTLC it
    forwards.

    ** How code is modelled

    Functions of the source are Rocq functions of the same name.  An integer of
    fixed width is a [Z] in range, with wrap-around written out ([u16], [u32],
    [u64], [i64]).  A fallible function returns an [outcome]: a value, an error or
    [Panic], the Go runtime error (index out of range, nil dereference).  A writer
    appends to a byte buffer and a reader consumes one (Wire.v); state is passed
    explicitly, in the channel through a state monad (ChannelState.v).  A pointer
    that the code shares is an element of a store (the log elements of
    UpdateLog.v, the circuits of CircuitMap.v).  A Go map is a [gmap]; where a loop
    over it can be observed the order is an argument or shown not to matter.  Code
    of other repositories is a parameter: a class of operations with a second class
    of the laws relied on ([Btcec], [Tlv], [Zlib], [Tor], [VarInt], [Scripts],
    [ChanEnv], [SyncEnv], [Sphinx], [ReplaySets], [TxLib], [CloseLib], [PayLib],
    [TlvValues], [SphinxPath], [LndRecord], [Secp256k1], [TxScript], [TxSign], [Signer],
    [VarBytes]); WireModels.v, ChannelModel.v, ScriptModel.v and the last parts of
    CloseTx.v, HopPayload.v, SwitchPayments.v, the first of SyncTheorems.v and
    PayTheorems.v instantiate them by concrete functions, at which the witnesses are
    evaluated.  A database transaction commits or not by an argument ([dbOk]).

    ** The files

    - Prelude: integers, bytes, outcomes, the hint databases and shared lemmas.
    - Wire (lnwire/lnwire.go, writer.go, short_channel_id.go): element codecs and
      the classes that relate a writer to its reader.  Features
      (lnwire/features.go).  WireMessages, WireTlv, WireGossip: one module per
      message with [Encode], [Decode] and its well-formedness.  WireFrame
      (lnwire/message.go): [WriteMessage], [ReadMessage].  OnionError
      (lnwire/onion_error.go): the failures sent back through the onion.
    - Amounts (lnwire/msat.go, chainfee, input/size.go): conversions, fee rates,
      dust.  OpReturn (lnwallet/omnicore/op): Omni payloads and their scripts.
    - UpdateLog (lnwallet/channel.go): [updateLog], [commitmentChain],
      [compactLogs].  CommitTx (commitment.go, commit_sort.go, transactions.go).
      ChannelState, ChannelView, ChannelOps: the channel record and its bucket, the
      evaluation of the logs, and the operations.  ViewLemmas and ViewConservation
      prove the evaluation; ChannelInv, ChannelReach,
      ChannelFunds, ChannelHistory and ChannelTheorems prove the state machine.
    - Kvdb: buckets visited in key order.  FwdPkg, FwdPkgTheorems
      (channeldb/forwarding_package.go).
    - CircuitMap (htlcswitch/circuit.go, circuit_map.go, error_encryptor.go);
      CircuitMapInv, CircuitMapSim, CircuitMapStart and
      CircuitMapTheorems prove that the map implements an abstract machine.
    - CoinSelect (lnwallet/chanfunding/coin_select.go, input/size.go).  Signature
      (lnwire/signature.go).  CloseTx (the closing part of lnwallet/channel.go),
      ChanCloser (lnwallet/chancloser/chancloser.go); CloseTheorems, CloserSafety and
      CloserLiveness prove them.
    - ChannelSync (lnwallet/channel.go): [NewLightningChannel] and
      [restoreStateLogs] load a channel from its bucket; [ChanSyncMsg] and
      [ProcessChanSyncMsg] are the handshake of a new connection.
      SyncProtocol is the abstract protocol of two peers, SyncRefine shows that a
      channel implements a peer, SyncAnswer what the handshake answers, SyncNet
      connects two channels over queues and lost connections, SyncTheorems
      has concrete ones and the theorems.
    - GoText: the parts of the packages strings, strconv and time that are used.
      Bech32 (zpay32/bech32.go), PayAmount (amountunits.go), PayInvoice (invoice.go,
      hophint.go), PayCodec (encode.go, decode.go); PayFields and PayRequest prove what
      each field and a whole request decode to and that encoding returns, PayTheorems
      has the theorems.
    - FeatureDeps (feature/deps.go, manager.go, required.go, default_sets.go): the
      dependencies of features and the sets a node advertises.
    - Sequencer, DecayedLog (htlcswitch/sequencer.go, decayedlog.go): identifiers of
      payments and the log that refuses replayed packets.  Links (the link indexes of
      htlcswitch/switch.go), NetworkResult (payment_result.go), Switch (switch.go,
      packet.go, failure.go): packets through the switch.  SwitchForward proves what a
      batch becomes, SwitchPayments that results of payments are kept.
    - HopRecords (record/), Route (routing/route/route.go), HopPayload
      (htlcswitch/hop/payload.go, iterator.go): what a sender packs for a hop and what
      the hop reads.  Amp (amp/, routing/shards/): the
      shards of a payment.  ResultInterpretation (routing/result_interpretation.go,
      nodepair.go): which pairs the outcome of an attempt blames.
    - KeyDerivation (the keys of input/script_utils.go, the key ring of
      lnwallet/commitment.go).  ScriptUtils: scripts as calls of btcd's builder,
      the behaviour of its engine, and with WitnessGen (input/script_utils.go,
      signer.go, witnessgen.go, lnwallet/btcwallet/signer.go): the scripts of a channel
      and the witnesses that spend them.  ScriptPaths proves who can spend an output.
      Resolutions (lnwallet/commitment.go, transactions.go, channel.go): the scripts of
      a commitment, as the instance [channel_scripts] of [Scripts], second-level
      transactions, and what is prepared when a commitment is on chain.
      ResolveTheorems, ForceClose and CommitOutputs prove punishing a breach, closing
      with one's own commitment and what a commitment pays.  SweepInputs (input/input.go,
      size.go, signdescriptor.go): inputs of a sweep, their sizes, descriptors on disk.
      ScriptModel has a concrete curve, engine and signer.

    ** What the theorems show

    - Wire: every message round-trips through a frame, writing is all or nothing,
      reading is total and canonical, unknown types are refused; feature vectors,
      onion failures and Omni payloads round-trip; [AddOpReturnToTx] pays the right
      outputs.
    - Commitments: the canonical sort is one both parties agree on, state hints
      round-trip, a commitment transaction never creates money, [compactLogs]
      removes exactly the dead entries.
    - Evaluation: computing a view conserves funds and implements a ledger.
    - State machine: over every sequence of operations, failing ones included, the
      invariant holds, assets and bitcoins are conserved on both chains, the
      database agrees with memory, revoking is safe, refused updates change
      nothing, an HTLC is removed once, settles carry preimages and updates are
      forwarded once.
    - Switch and database: circuits round-trip, the circuit map refines its machine
      and restarts faithfully, forwarding packages are tracked exactly.
    - Funding and closing: coin selection returns the cheapest prefix of the coins
      and accounts for every satoshi; signatures convert losslessly; both ends build
      the same closing transactions, which pay out the channel; a closer broadcasts
      only what it stored and agreed to; two honest nodes finish.
    - Re-establishment: over any number of lost connections exactly the lost
      messages are sent again, in order; a channel loaded from an old copy of the
      database stops.
    - Payment requests: what is encoded is decoded to the same request, amounts keep
      their value in the fewest characters, damaged strings are noticed, only signed
      requests are accepted; four lemmas show strings on which the decoder crashes,
      refuses its own encoder or takes another network's request.
    - Features: the dependency check accepts exactly the closed vectors, and the
      manager advertises closed sets for every configuration it accepts.
    - Switch: a batch is routed as its circuits say, the link indexes refine a registry,
      replayed packets are refused until they expire, payment identifiers are unique
      over restarts, and no result of a payment is lost under any interleaving.
    - Payments: the payload a hop reads is the one packed for it, its size in the onion
      is exact, fees of a route add up; a batch of packets gets one answer each; an
      atomic payment is claimed as a whole or not at all; blame stays on the route, on
      the near side of the node that reports.  A lemma shows that multi-path records
      of this repository are not understood by its own hops.
    - On chain: both ends derive the same keys for a commitment; its outputs are the ones
      the channel means, each spent exactly by the paths of its script; a revoked
      commitment is punished whatever its owner publishes next; a forced close gets
      the delayed output and every HTLC; witnesses keep to their sizes but for a stated
      excess; sign descriptors round-trip.

    ** Bounds and fuel

    Loops over a list or a map recurse on it, so most definitions need no fuel.
    The loops of coin selection have none in the code: one round per coin and one
    more is shown to be enough.  The exchange of closing messages takes fuel for its
    length, which is bounded by the difference of the two ideal fees.
    A number of 64 bits has at most 20 decimal digits and 13 groups of five bits, which
    bound the loops that print it; reading tagged fields takes at least three groups
    per field, so their number of groups is enough ([parse_fields_fuel]).
    The check of dependencies recurses along the table of dependencies, whose chains
    have at most three features ([rank_lt_3], [deps_rank]).
    Bounds in the theorems are those of the integer types and the protocol; where the
    code wraps around beyond one, the bound says so at the theorem.

    ** Not modelled

    The goroutine loop, links, mailboxes and notifications of the switch; wallet backends and
    the Omni node (I/O); the funding workflow, which drives them; the channel graph, invoices
    and payments of the database; path finding
    (commented out in the sources); the generated RPC code. *)

From Stdlib Require Import ZArith Lia.
From Stdlib Require Export Strings.Byte.
From stdpp Require Export base countable gmap sets list strings numbers fin_maps.

Declare Scope go_scope.
Delimit Scope go_scope with go.

(** ** Machine integers

    A Go integer of a fixed width is a [Z] in the range of its type; every
    arithmetic operation and every conversion of the source that can leave the
    range is followed by the wrap-around written here. *)

Definition u8 (z : Z) : Z := z mod 2 ^ 8.
Definition u16 (z : Z) : Z := z mod 2 ^ 16.
Definition u32 (z : Z) : Z := z mod 2 ^ 32.
Definition u64 (z : Z) : Z := z mod 2 ^ 64.

(** Two's complement reinterpretation, [int64(x)]. *)
Definition i64 (z : Z) : Z := (z + 2 ^ 63) mod 2 ^ 64 - 2 ^ 63.

Definition in_u (w z : Z) : Prop := (0 <= z < 2 ^ w)%Z.
Definition in_i64 (z : Z) : Prop := (- 2 ^ 63 <= z < 2 ^ 63)%Z.

Lemma u64_in z : in_u 64 (u64 z).
Proof. unfold in_u, u64. apply Z.mod_pos_bound. lia. Qed.

Lemma i64_in z : in_i64 (i64 z).
Proof. unfold in_i64, i64. pose proof (Z.mod_pos_bound (z + 2 ^ 63) (2 ^ 64)). lia. Qed.

Lemma u64_id z : in_u 64 z -> u64 z = z.
Proof. unfold in_u, u64. intros. by apply Z.mod_small. Qed.

Lemma i64_id z : in_i64 z -> i64 z = z.
Proof. unfold in_i64, i64. intros. rewrite Z.mod_small; lia. Qed.

Lemma i64_u64 z : in_i64 z -> i64 (u64 z) = z.
Proof.
  unfold in_i64, i64, u64. intros H.
  rewrite Z.add_mod_idemp_l by lia. rewrite Z.mod_small; lia.
Qed.

Lemma u64_i64 z : in_u 64 z -> u64 (i64 z) = z.
Proof.
  unfold in_u, i64, u64. intros H.
  rewrite Zminus_mod, Z.mod_mod by lia. rewrite <- Zminus_mod.
  rewrite Z.add_simpl_r. by apply Z.mod_small.
Qed.

(** ** Outcomes of Go functions

    [Ok] is a return with a nil error, [Err] a return with an error value, and
    [Panic] a run-time panic (nil dereference, index out of range). *)

Inductive outcome (E A : Type) : Type :=
  | Ok (a : A)
  | Err (e : E)
  | Panic.
Arguments Ok {E A} a.
Arguments Err {E A} e.
Arguments Panic {E A}.

Definition obind {E A B} (m : outcome E A) (k : A -> outcome E B) : outcome E B :=
  match m with
  | Ok a => k a
  | Err e => Err e
  | Panic => Panic
  end.

Definition is_ok {E A} (m : outcome E A) : bool :=
  match m with Ok _ => true | _ => false end.

Notation "x <~ m ; k" := (obind m (fun x => k))
  (at level 20, m at level 100, k at level 200, only parsing) : go_scope.
Notation "' x <~ m ; k" := (obind m (fun x => k))
  (at level 20, x pattern, m at level 100, k at level 200, only parsing) : go_scope.

Lemma obind_ok_inv {E A B} (m : outcome E A) (k : A -> outcome E B) b :
  obind m k = Ok b -> exists a, m = Ok a /\ k a = Ok b.
Proof. destruct m; simpl; naive_solver. Qed.

Lemma obind_assoc {E A B C} (m : outcome E A) (k : A -> outcome E B) (h : B -> outcome E C) :
  obind (obind m k) h = obind m (fun a => obind (k a) h).
Proof. by destruct m. Qed.

(** Splits a hypothesis [obind m k = Ok b] into its two steps. *)
Ltac obind_inv H :=
  let a := fresh "a" in let Ha := fresh "Hstep" in
  apply obind_ok_inv in H as (a & Ha & H).

(** ** Bytes and big-endian integers *)

#[global] Instance byte_eq_decision : EqDecision byte := Byte.byte_eq_dec.

Definition byte_Z (b : byte) : Z := Z.of_N (Byte.to_N b).

(** The conversion [byte(z)]: truncation to the low eight bits. *)
Definition byte_of_Z (z : Z) : byte :=
  match Byte.of_N (Z.to_N (u8 z)) with Some b => b | None => x00 end.

Lemma byte_Z_range b : (0 <= byte_Z b < 256)%Z.
Proof. unfold byte_Z. pose proof (Byte.to_N_bounded b). lia. Qed.

Lemma byte_Z_of_Z z : byte_Z (byte_of_Z z) = u8 z.
Proof.
  unfold byte_of_Z, byte_Z.
  assert (0 <= u8 z < 256)%Z as Hr by (unfold u8; apply Z.mod_pos_bound; lia).
  destruct (Byte.of_N (Z.to_N (u8 z))) as [b|] eqn:E.
  - apply Byte.to_of_N in E. rewrite E. lia.
  - apply Byte.of_N_None_iff in E. lia.
Qed.

Lemma byte_of_Z_byte b : byte_of_Z (byte_Z b) = b.
Proof.
  unfold byte_of_Z, byte_Z, u8.
  rewrite Z.mod_small by (pose proof (Byte.to_N_bounded b); lia).
  by rewrite N2Z.id, Byte.of_to_N.
Qed.

#[global] Instance byte_Z_inj : Inj (=) (=) byte_Z.
Proof. intros a b H. by rewrite <- (byte_of_Z_byte a), H, byte_of_Z_byte. Qed.

#[global] Instance byte_countable : Countable byte.
Proof. apply (inj_countable' byte_Z byte_of_Z). apply byte_of_Z_byte. Defined.

(** [binary.BigEndian.PutUint<8n>]: the low [n] bytes, most significant first. *)
Fixpoint be_put (n : nat) (z : Z) : list byte :=
  match n with
  | O => []
  | S n' => byte_of_Z (Z.shiftr z (8 * Z.of_nat n')) :: be_put n' z
  end.

(** [binary.BigEndian.Uint<8n>] of a slice. *)
Definition be_get (bs : list byte) : Z :=
  fold_left (fun acc b => acc * 256 + byte_Z b)%Z bs 0%Z.

Lemma length_be_put n z : length (be_put n z) = n.
Proof. induction n as [|n IH]; simpl; [done|by rewrite IH]. Qed.

Lemma be_get_acc bs acc :
  fold_left (fun acc b => acc * 256 + byte_Z b)%Z bs acc
  = (acc * 256 ^ Z.of_nat (length bs) + be_get bs)%Z.
Proof.
  unfold be_get. revert acc. induction bs as [|b bs IH]; intros acc; simpl fold_left.
  - simpl. lia.
  - rewrite IH, (IH (0 * 256 + byte_Z b)%Z). simpl length.
    rewrite Nat2Z.inj_succ, Z.pow_succ_r by lia. lia.
Qed.

Lemma be_get_cons b bs :
  be_get (b :: bs) = (byte_Z b * 256 ^ Z.of_nat (length bs) + be_get bs)%Z.
Proof. unfold be_get at 1. simpl. by rewrite be_get_acc. Qed.

Lemma be_get_range bs : (0 <= be_get bs < 256 ^ Z.of_nat (length bs))%Z.
Proof.
  induction bs as [|b bs IH]; [by cbv|].
  rewrite be_get_cons. simpl length. rewrite Nat2Z.inj_succ, Z.pow_succ_r by lia.
  pose proof (byte_Z_range b). nia.
Qed.

Lemma be_get_put n z : be_get (be_put n z) = (z mod 256 ^ Z.of_nat n)%Z.
Proof.
  induction n as [|n IH].
  - simpl. by rewrite Z.mod_1_r.
  - simpl be_put. rewrite be_get_cons, length_be_put, IH, byte_Z_of_Z.
    unfold u8. rewrite Z.shiftr_div_pow2 by lia.
    rewrite Nat2Z.inj_succ, Z.pow_succ_r by lia.
    change (2 ^ 8)%Z with 256%Z.
    replace (2 ^ (8 * Z.of_nat n))%Z with (256 ^ Z.of_nat n)%Z
      by (rewrite Z.pow_mul_r by lia; done).
    rewrite (Z.mul_comm 256), Z.rem_mul_r by lia. lia.
Qed.

Lemma be_put_mod n z : be_put n (z mod 256 ^ Z.of_nat n) = be_put n z.
Proof.
  assert (forall m, (m <= n)%nat -> be_put m (z mod 256 ^ Z.of_nat n) = be_put m z) as H;
    [|by apply H].
  induction m as [|m IH]; intros Hm; [done|]. simpl. rewrite IH by lia. f_equal.
  apply (inj byte_Z). rewrite !byte_Z_of_Z. unfold u8.
  apply Z.bits_inj'. intros i Hi.
  replace (256 ^ Z.of_nat n)%Z with (2 ^ (8 * Z.of_nat n))%Z
    by (rewrite Z.pow_mul_r by lia; done).
  destruct (decide (i < 8)%Z).
  - rewrite !Z.mod_pow2_bits_low, !Z.shiftr_spec, Z.mod_pow2_bits_low by lia. done.
  - by rewrite !Z.mod_pow2_bits_high by lia.
Qed.

Lemma be_put_get bs n : length bs = n -> be_put n (be_get bs) = bs.
Proof.
  intros <-. induction bs as [|b bs IH]; [done|].
  cbn [be_put length]. rewrite be_get_cons. f_equal.
  - pose proof (be_get_range bs). rewrite Z.shiftr_div_pow2 by lia.
    replace (2 ^ (8 * Z.of_nat (length bs)))%Z with (256 ^ Z.of_nat (length bs))%Z
      by (rewrite Z.pow_mul_r by lia; done).
    rewrite Z.div_add_l, Z.div_small, Z.add_0_r by lia. apply byte_of_Z_byte.
  - rewrite <- be_put_mod, Z.add_comm, Z.mod_add by lia.
    rewrite be_put_mod. apply IH.
Qed.

Lemma be_get_put_id n z :
  (0 <= z < 256 ^ Z.of_nat n)%Z -> be_get (be_put n z) = z.
Proof. intros. rewrite be_get_put. by apply Z.mod_small. Qed.

Arguments be_put : simpl never.
Arguments be_get : simpl never.

(** ** Lists *)

Lemma filter_ext_in {A} (P Q : A -> Prop) `{!forall x, Decision (P x), !forall x, Decision (Q x)} (l : list A) :
  (forall x, x ∈ l -> P x <-> Q x) -> filter P l = filter Q l.
Proof.
  induction l as [|x l IH]; intros Hext; [done|]. rewrite !filter_cons.
  rewrite IH by (intros; apply Hext; set_solver).
  pose proof (Hext x (list_elem_of_here _ _)) as Hx. repeat case_decide; naive_solver.
Qed.

Lemma filter_filter {A} (P Q : A -> Prop) `{!forall x, Decision (P x), !forall x, Decision (Q x)} (l : list A) :
  filter P (filter Q l) = filter (fun x => P x /\ Q x) l.
Proof.
  induction l as [|x l IH]; [done|]. rewrite !filter_cons.
  repeat case_decide; rewrite ?filter_cons; repeat case_decide; rewrite ?IH; naive_solver.
Qed.

Lemma filter_all {A} (P : A -> Prop) `{!forall x, Decision (P x)} (l : list A) :
  (forall x, x ∈ l -> P x) -> filter P l = l.
Proof.
  induction l as [|x l IH]; intros HP; [done|]. rewrite filter_cons, decide_True.
  - rewrite IH; [done|]. intros y Hy. apply HP. by right.
  - apply HP. by left.
Qed.
