(* ===== verification/Wire.v ===== *)
(** * lnwire: the element codec

    Models lnwire/writer.go (the typed [Write*] functions), the [ReadElement]
    cases of lnwire/lnwire.go, and the small data types of the wire protocol
    (lnwire/short_channel_id.go, lnwire/typed_delivery_addr.go,
    lnwire/extra_bytes.go).  A [bytes.Buffer] is the list of bytes written so
    far; an [io.Reader] over a received message is the list of bytes left.  Nil
    and empty slices are the same list. *)

From Stdlib Require Import ZArith Lia.
From S2P Require Import Prelude.

Local Open Scope Z_scope.
Local Open Scope go_scope.

(** ** Errors of the package *)

Inductive wire_err : Type :=
  | EOF
  | ErrUnexpectedEOF
  | ErrNilFeatureVector
  | ErrNilTCPAddress
  | ErrNilOnionAddress
  | ErrNilNetAddress
  | ErrNilPublicKey
  | ErrUnknownServiceLength
  | ErrBase32
  | ErrOutpointIndexTooBig (index : Z)
  | ErrBlockHeightTooBig
  | ErrTxIndexTooBig
  | ErrParsePubKey
  | ErrAliasTooLarge (n : nat)
  | ErrInvalidNodeAlias
  | ErrUnknownAddrType (t : Z)
  | ErrDeliveryAddressTooLong (n : Z)
  | ErrMaxPongBytesExceeded
  | ErrUnknownMessage (t : Z)
  | ErrTlv
  | ErrWholeShortChanIDs (n : nat)
  | ErrUnsortedSIDs (prev cur : Z)
  | ErrUnknownShortChanIDEncoding (t : Z)
  | ErrZlib
  | ErrorEncodeMessage (e : wire_err)
  | ErrorPayloadTooLarge (size : nat).

(** ** Writers and readers *)

(** A write appends to the buffer and may fail (or panic) half way: the bytes
    already appended stay in the buffer. *)
Definition writer : Type := list byte -> list byte * outcome wire_err unit.

Definition reader (A : Type) : Type := list byte -> outcome wire_err (A * list byte).

Definition wseq (a b : writer) : writer := fun buf =>
  match a buf with
  | (buf', Ok _) => b buf'
  | r => r
  end.

Definition wnil : writer := fun buf => (buf, Ok tt).

Definition werror (e : wire_err) : writer := fun buf => (buf, Err e).

Definition rret {A} (a : A) : reader A := fun r => Ok (a, r).

Definition rerr {A} (e : wire_err) : reader A := fun _ => Err e.

Definition rbind {A B} (m : reader A) (k : A -> reader B) : reader B := fun r =>
  match m r with
  | Ok (a, r') => k a r'
  | Err e => Err e
  | Panic => Panic
  end.

Notation "a ;;> b" := (wseq a b) (at level 62, right associativity) : go_scope.
Notation "x <-- m ; k" := (rbind m (fun x => k))
  (at level 20, m at level 100, k at level 200, only parsing) : go_scope.

(** ** Primitive writes (lnwire/writer.go) *)

Definition WriteBytes (b : list byte) : writer := fun buf => (buf ++ b, Ok tt).

Definition WriteUint8 (n : Z) : writer := WriteBytes (be_put 1 n).

Definition WriteUint16 (n : Z) : writer := WriteBytes (be_put 2 n).

Definition WriteUint32 (n : Z) : writer := WriteBytes (be_put 4 n).

Definition WriteUint64 (n : Z) : writer := WriteBytes (be_put 8 n).

(** [btcutil.Amount] and [omnicore.Amount] are signed: [uint64(amount)]. *)
Definition WriteSatoshi (amount : Z) : writer := WriteUint64 (u64 amount).

Definition WriteAssetMinUnit (amount : Z) : writer := WriteUint64 (u64 amount).

Definition WriteMilliSatoshi (amount : Z) : writer := WriteUint64 amount.

Definition WriteChannelID (channelID : list byte) : writer := WriteBytes channelID.

Definition WriteNodeAlias (alias : list byte) : writer := WriteBytes alias.

Definition WriteSig (sig : list byte) : writer := WriteBytes sig.

Definition WriteSigs (sigs : list (list byte)) : writer :=
  WriteUint16 (u16 (Z.of_nat (length sigs))) ;;>
  foldr (fun sig k => WriteSig sig ;;> k) wnil sigs.

Definition WriteFailCode (e : Z) : writer := WriteUint16 e.

Definition WriteShortChanIDEncoding (e : Z) : writer := WriteUint8 e.

Definition WriteFundingFlag (flag : Z) : writer := WriteUint8 flag.

Definition WriteChanUpdateMsgFlags (f : Z) : writer := WriteUint8 f.

Definition WriteChanUpdateChanFlags (f : Z) : writer := WriteUint8 f.

Definition WriteBool (b : bool) : writer :=
  if b then WriteBytes [x01] else WriteBytes [x00].

Definition writeDataWithLength (data : list byte) : writer :=
  WriteBytes (be_put 2 (u16 (Z.of_nat (length data)))) ;;> WriteBytes data.

Definition WriteDeliveryAddress (addr : list byte) : writer := writeDataWithLength addr.

Definition WritePingPayload (payload : list byte) : writer := writeDataWithLength payload.

Definition WritePongPayload (payload : list byte) : writer := writeDataWithLength payload.

Definition WriteErrorData (data : list byte) : writer := writeDataWithLength data.

Definition WriteOpaqueReason (reason : list byte) : writer := writeDataWithLength reason.

(** *** Short channel ids *)

Record ShortChannelID := mkShortChannelID {
  BlockHeight : Z;
  TxIndex : Z;
  TxPosition : Z;
}.

#[global] Instance ShortChannelID_eq_dec : EqDecision ShortChannelID.
Proof. solve_decision. Defined.

Definition NewShortChanIDFromInt (chanID : Z) : ShortChannelID :=
  {| BlockHeight := u32 (Z.shiftr chanID 40);
     TxIndex := Z.land (u32 (Z.shiftr chanID 16)) 0xFFFFFF;
     TxPosition := u16 chanID |}.

Definition ToUint64 (c : ShortChannelID) : Z :=
  Z.lor (u64 (Z.shiftl (BlockHeight c) 40))
    (Z.lor (u64 (Z.shiftl (TxIndex c) 16)) (TxPosition c)).

(** The first three bytes are appended before the transaction index is
    checked. *)
Definition WriteShortChannelID (c : ShortChannelID) : writer :=
  if bool_decide (BlockHeight c > Z.shiftl 1 24 - 1)
  then werror ErrBlockHeightTooBig
  else WriteBytes (drop 1 (be_put 4 (BlockHeight c))) ;;>
    (if bool_decide (TxIndex c > Z.shiftl 1 24 - 1)
     then werror ErrTxIndexTooBig
     else WriteBytes (drop 1 (be_put 4 (TxIndex c))) ;;>
          WriteUint16 (TxPosition c)).

(** *** Outpoints *)

Record OutPoint := mkOutPoint {
  Hash : list byte;
  Index : Z;
}.

#[global] Instance OutPoint_eq_dec : EqDecision OutPoint.
Proof. solve_decision. Defined.

Definition WriteOutPoint (p : OutPoint) : writer :=
  if bool_decide (Index p > 65535)
  then werror (ErrOutpointIndexTooBig (Index p))
  else WriteBytes (Hash p) ;;> WriteUint16 (u16 (Index p)).

(** *** Colors *)

Record RGBA := mkRGBA { R : Z; G : Z; B : Z }.

#[global] Instance RGBA_eq_dec : EqDecision RGBA.
Proof. solve_decision. Defined.

Definition WriteColorRGBA (e : RGBA) : writer :=
  WriteUint8 (R e) ;;> WriteUint8 (G e) ;;> WriteUint8 (B e).

(** *** Public keys

    [btcec.PublicKey] is a third-party type: only its compressed serialisation
    and its parser are used here. *)

Class Btcec := {
  pubkey : Type;
  SerializeCompressed : pubkey -> list byte;
  ParsePubKey : list byte -> option pubkey;
}.

(** What the package documents: a compressed key has 33 bytes, and parsing and
    serialising 33-byte compressed keys are inverse to each other. *)
Class BtcecLaws `{!Btcec} : Prop := {
  serialize_length : forall k, length (SerializeCompressed k) = 33%nat;
  parse_serialize : forall k, ParsePubKey (SerializeCompressed k) = Some k;
  serialize_parse : forall bs k,
    length bs = 33%nat -> ParsePubKey bs = Some k -> SerializeCompressed k = bs;
}.

Definition WritePublicKey `{!Btcec} (pub : option pubkey) : writer :=
  match pub with
  | None => werror ErrNilPublicKey
  | Some k => WriteBytes (SerializeCompressed k)
  end.

(** ** Reads (lnwire/lnwire.go, [ReadElement]) *)

(** [io.ReadFull]: [EOF] when nothing could be read, [ErrUnexpectedEOF] when
    only some of the bytes could. *)
Definition ReadFull (n : nat) : reader (list byte) := fun r =>
  if bool_decide (n = 0%nat) then Ok ([], r)
  else if bool_decide (length r = 0%nat) then Err EOF
  else if bool_decide (length r < n)%nat then Err ErrUnexpectedEOF
  else Ok (take n r, drop n r).

Definition ReadUint8 : reader Z := b <-- ReadFull 1 ; rret (be_get b).

Definition ReadUint16 : reader Z := b <-- ReadFull 2 ; rret (be_get b).

Definition ReadUint32 : reader Z := b <-- ReadFull 4 ; rret (be_get b).

Definition ReadUint64 : reader Z := b <-- ReadFull 8 ; rret (be_get b).

(** [UnitPrec8(int64(v))], [UnitPrec11(int64(v))] and [MilliSatoshi(int64(v))]
    go through a signed integer and back to an unsigned one. *)
Definition ReadUnitPrec8 : reader Z := b <-- ReadFull 8 ; rret (u64 (i64 (be_get b))).

Definition ReadUnitPrec11 : reader Z := b <-- ReadFull 8 ; rret (u64 (i64 (be_get b))).

Definition ReadMilliSatoshi : reader Z := b <-- ReadFull 8 ; rret (u64 (i64 (be_get b))).

Definition ReadSatoshi : reader Z := b <-- ReadFull 8 ; rret (i64 (be_get b)).

Definition ReadAssetMinUnit : reader Z := b <-- ReadFull 8 ; rret (i64 (be_get b)).

Definition ReadFailCode : reader Z := ReadUint16.

Definition ReadFundingFlag : reader Z := b <-- ReadFull 1 ; rret (be_get b).

Definition ReadChanUpdateMsgFlags : reader Z := b <-- ReadFull 1 ; rret (be_get b).

Definition ReadChanUpdateChanFlags : reader Z := b <-- ReadFull 1 ; rret (be_get b).

(** The target is only assigned when the byte is one; it starts out false. *)
Definition ReadBool : reader bool :=
  b <-- ReadFull 1 ; rret (bool_decide (be_get b = 1)).

Definition ReadChannelID : reader (list byte) := ReadFull 32.

Definition ReadArray33 : reader (list byte) := ReadFull 33.

Definition ReadSig : reader (list byte) := ReadFull 64.

(** The loop over the announced number of signatures. *)
Fixpoint ReadSigsLoop (n : nat) : reader (list (list byte)) :=
  match n with
  | O => rret []
  | S n' => sig <-- ReadSig ; sigs <-- ReadSigsLoop n' ; rret (sig :: sigs)
  end.

Definition ReadSigs : reader (list (list byte)) :=
  l <-- ReadFull 2 ; ReadSigsLoop (Z.to_nat (be_get l)).

Definition ReadOpaqueReason : reader (list byte) :=
  l <-- ReadFull 2 ; ReadFull (Z.to_nat (be_get l)).

Definition ReadErrorData : reader (list byte) :=
  l <-- ReadFull 2 ; ReadFull (Z.to_nat (be_get l)).

Definition ReadPingPayload : reader (list byte) :=
  l <-- ReadFull 2 ; ReadFull (Z.to_nat (be_get l)).

Definition ReadPongPayload : reader (list byte) :=
  l <-- ReadFull 2 ; ReadFull (Z.to_nat (be_get l)).

Definition deliveryAddressMaxSize : Z := 34.

Definition ReadDeliveryAddress : reader (list byte) :=
  addrLen <-- ReadFull 2 ;
  let length := be_get addrLen in
  if bool_decide (length > deliveryAddressMaxSize)
  then rerr (ErrDeliveryAddressTooLong length)
  else ReadFull (Z.to_nat length).

Definition ReadPublicKey `{!Btcec} : reader (option pubkey) :=
  b <-- ReadFull 33 ;
  match ParsePubKey b with
  | Some k => rret (Some k)
  | None => rerr ErrParsePubKey
  end.

Definition ReadOutPoint : reader OutPoint :=
  h <-- ReadFull 32 ;
  idxBytes <-- ReadFull 2 ;
  rret {| Hash := h; Index := u32 (be_get idxBytes) |}.

Definition ReadShortChannelID : reader ShortChannelID :=
  blockHeight <-- ReadFull 3 ;
  txIndex <-- ReadFull 3 ;
  txPosition <-- ReadFull 2 ;
  rret {| BlockHeight := be_get (x00 :: blockHeight);
          TxIndex := be_get (x00 :: txIndex);
          TxPosition := be_get txPosition |}.

Definition ReadColorRGBA : reader RGBA :=
  r <-- ReadUint8 ; g <-- ReadUint8 ; b <-- ReadUint8 ;
  rret {| R := r; G := g; B := b |}.

(** [ExtraOpaqueData.Decode]: everything that is left. *)
Definition ReadExtraOpaqueData : reader (list byte) := fun r => Ok (r, []).

(** ** Laws of a codec

    [writes w bs]: [w] appends exactly [bs] and succeeds.  [rt w r a]: what [w]
    appends is read back by [r] as [a], whatever follows it on the wire.
    [rt_end] is the same for a reader that consumes the whole message. *)

Definition writes (w : writer) (bs : list byte) : Prop :=
  forall buf, w buf = (buf ++ bs, Ok tt).

Definition rt {A} (w : writer) (r : reader A) (a : A) : Prop :=
  exists bs, writes w bs /\ forall rest, r (bs ++ rest) = Ok (a, rest).

Definition rt_end {A} (w : writer) (r : reader A) (a : A) : Prop :=
  exists bs, writes w bs /\ r bs = Ok (a, []).

(** The contract between a [Write] function and the [ReadElement] case for the
    same type: values of the Go type survive the wire, and the reader only
    produces values of the Go type. *)
Class Codec {A} (wf : A -> Prop) (w : A -> writer) (r : reader A) : Prop := {
  codec_rt : forall a, wf a -> rt (w a) r a;
  codec_wf : forall bs a rest, r bs = Ok (a, rest) -> wf a;
}.

(** The encoding is canonical: writing what was read restores the bytes read. *)
Class CodecCanon {A} (w : A -> writer) (r : reader A) : Prop :=
  codec_canon : forall bs a rest,
    r bs = Ok (a, rest) -> exists bs0, writes (w a) bs0 /\ bs = bs0 ++ rest.

Lemma rbind_ok_inv {A B} (m : reader A) (k : A -> reader B) bs b rest :
  rbind m k bs = Ok (b, rest) ->
  exists a bs', m bs = Ok (a, bs') /\ k a bs' = Ok (b, rest).
Proof. unfold rbind. destruct (m bs) as [[a bs']| |]; naive_solver. Qed.

Lemma writes_bytes bs : writes (WriteBytes bs) bs.
Proof. by intros buf. Qed.

Lemma writes_nil : writes wnil [].
Proof. intros buf. unfold wnil. by rewrite app_nil_r. Qed.

Lemma writes_seq w1 w2 bs1 bs2 :
  writes w1 bs1 -> writes w2 bs2 -> writes (w1 ;;> w2) (bs1 ++ bs2).
Proof. intros H1 H2 buf. unfold wseq. by rewrite H1, H2, app_assoc. Qed.

Lemma writes_inj w bs1 bs2 : writes w bs1 -> writes w bs2 -> bs1 = bs2.
Proof. intros H1 H2. specialize (H1 []). specialize (H2 []). simpl in *. congruence. Qed.

Lemma rt_seq {A B} w1 w2 (r1 : reader A) (k : A -> reader B) a b :
  rt w1 r1 a -> rt w2 (k a) b -> rt (w1 ;;> w2) (rbind r1 k) b.
Proof.
  intros (bs1 & Hw1 & Hr1) (bs2 & Hw2 & Hr2). exists (bs1 ++ bs2).
  split; [by apply writes_seq|]. intros rest.
  unfold rbind. by rewrite <- app_assoc, Hr1, Hr2.
Qed.

Lemma rt_end_seq {A B} w1 w2 (r1 : reader A) (k : A -> reader B) a b :
  rt w1 r1 a -> rt_end w2 (k a) b -> rt_end (w1 ;;> w2) (rbind r1 k) b.
Proof.
  intros (bs1 & Hw1 & Hr1) (bs2 & Hw2 & Hr2). exists (bs1 ++ bs2).
  split; [by apply writes_seq|]. unfold rbind. by rewrite Hr1, Hr2.
Qed.

Lemma rt_last {A B} w (r : reader A) a (f : A -> B) :
  rt w r a -> rt w (rbind r (fun x => rret (f x))) (f a).
Proof.
  intros (bs & Hw & Hr). exists bs. split; [done|].
  intros rest. unfold rbind. by rewrite Hr.
Qed.

Lemma rt_end_of_rt {A} w (r : reader A) a : rt w r a -> rt_end w r a.
Proof.
  intros (bs & Hw & Hr). exists bs. split; [done|].
  specialize (Hr []). by rewrite app_nil_r in Hr.
Qed.

Lemma rt_end_extra {B} d (f : list byte -> B) :
  rt_end (WriteBytes d) (rbind ReadExtraOpaqueData (fun x => rret (f x))) (f d).
Proof. by exists d. Qed.

Lemma rt_nil {B} (b : B) : rt wnil (rret b) b.
Proof. exists []. split; [apply writes_nil|done]. Qed.

(** *** Fixed-length blocks *)

Lemma ReadFull_ok_inv n bs a rest :
  ReadFull n bs = Ok (a, rest) -> length a = n /\ bs = a ++ rest.
Proof.
  unfold ReadFull. repeat case_bool_decide; intros Heq; simplify_eq/=; try done.
  rewrite length_take, take_drop. split; [lia|done].
Qed.

Lemma ReadFull_app a rest : ReadFull (length a) (a ++ rest) = Ok (a, rest).
Proof.
  unfold ReadFull. case_bool_decide as H0.
  { by destruct a. }
  rewrite !bool_decide_eq_false_2 by (rewrite length_app; lia).
  by rewrite take_app_length, drop_app_length.
Qed.

#[global] Instance codec_block n :
  Codec (fun l => length l = n) WriteBytes (ReadFull n).
Proof.
  split.
  - intros a <-. exists a. split; [apply writes_bytes|]. intros rest. apply ReadFull_app.
  - intros bs a rest H. by apply ReadFull_ok_inv in H as [? ?].
Qed.

#[global] Instance canon_block n : CodecCanon WriteBytes (ReadFull n).
Proof.
  intros bs a rest H. apply ReadFull_ok_inv in H as [_ ->].
  exists a. split; [apply writes_bytes|done].
Qed.

(** *** Changing the type of the value *)

Section conv.
Context {A B : Type} {wfA : A -> Prop} {wfB : B -> Prop}.
Context {w : A -> writer} {r : reader A} (f : A -> B) (g : B -> A).
Context {C : Codec wfA w r}.
Context (Hg : forall b, wfB b -> wfA (g b) /\ f (g b) = b).
Context (Hf : forall a, wfA a -> wfB (f a) /\ g (f a) = a).

Lemma codec_conv : Codec wfB (fun b => w (g b)) (rbind r (fun a => rret (f a))).
Proof.
  split.
  - intros b Hb. destruct (Hg b Hb) as [Ha <-]. rewrite (proj2 (Hf _ Ha)).
    by apply rt_last, codec_rt.
  - intros bs b rest H. apply rbind_ok_inv in H as (a & bs' & Ha & H).
    inversion H; subst. by apply Hf, (codec_wf _ _ _ Ha).
Qed.

End conv.

Lemma canon_conv {A B} {wfA : A -> Prop} {w : A -> writer} {r : reader A}
    {C : Codec wfA w r} {K : CodecCanon w r} (f : A -> B) (g : B -> A) :
  (forall a, wfA a -> g (f a) = a) ->
  CodecCanon (fun b => w (g b)) (rbind r (fun a => rret (f a))).
Proof.
  intros Hf bs b rest H. apply rbind_ok_inv in H as (a & bs' & Ha & H).
  inversion H; subst. rewrite (Hf a (codec_wf _ _ _ Ha)). by apply codec_canon.
Qed.

(** *** Integers *)

Lemma be_conv_g n b :
  0 <= b < 256 ^ Z.of_nat n -> length (be_put n b) = n /\ be_get (be_put n b) = b.
Proof. intros H. split; [apply length_be_put|by apply be_get_put_id]. Qed.

Lemma be_conv_f n a :
  length a = n -> 0 <= be_get a < 256 ^ Z.of_nat n /\ be_put n (be_get a) = a.
Proof. intros H. split; [rewrite <- H; apply be_get_range|by apply be_put_get]. Qed.

Lemma sat_conv_g b :
  in_i64 b -> length (be_put 8 (u64 b)) = 8%nat /\ i64 (be_get (be_put 8 (u64 b))) = b.
Proof.
  intros H. split; [apply length_be_put|].
  rewrite be_get_put_id by apply u64_in. by apply i64_u64.
Qed.

Lemma sat_conv_f a :
  length a = 8%nat -> in_i64 (i64 (be_get a)) /\ be_put 8 (u64 (i64 (be_get a))) = a.
Proof.
  intros H. split; [apply i64_in|]. destruct (be_conv_f 8 a H) as [Hr Hp].
  rewrite u64_i64 by done. done.
Qed.

Lemma msat_conv_g b :
  in_u 64 b -> length (be_put 8 b) = 8%nat /\ u64 (i64 (be_get (be_put 8 b))) = b.
Proof.
  intros H. split; [apply length_be_put|]. rewrite be_get_put_id by done. by apply u64_i64.
Qed.

Lemma msat_conv_f a :
  length a = 8%nat -> in_u 64 (u64 (i64 (be_get a))) /\ be_put 8 (u64 (i64 (be_get a))) = a.
Proof.
  intros H. split; [apply u64_in|]. destruct (be_conv_f 8 a H) as [Hr Hp].
  by rewrite u64_i64 by done.
Qed.

#[global] Instance codec_u8 : Codec (in_u 8) WriteUint8 ReadUint8.
Proof. apply (codec_conv be_get (be_put 1) (be_conv_g 1) (be_conv_f 1)). Qed.
#[global] Instance codec_u16 : Codec (in_u 16) WriteUint16 ReadUint16.
Proof. apply (codec_conv be_get (be_put 2) (be_conv_g 2) (be_conv_f 2)). Qed.
#[global] Instance codec_u32 : Codec (in_u 32) WriteUint32 ReadUint32.
Proof. apply (codec_conv be_get (be_put 4) (be_conv_g 4) (be_conv_f 4)). Qed.
#[global] Instance codec_u64 : Codec (in_u 64) WriteUint64 ReadUint64.
Proof. apply (codec_conv be_get (be_put 8) (be_conv_g 8) (be_conv_f 8)). Qed.
#[global] Instance codec_sat : Codec in_i64 WriteSatoshi ReadSatoshi.
Proof. apply (codec_conv (fun a => i64 (be_get a)) (fun b => be_put 8 (u64 b)) sat_conv_g sat_conv_f). Qed.
#[global] Instance codec_asset : Codec in_i64 WriteAssetMinUnit ReadAssetMinUnit.
Proof. apply (codec_conv (fun a => i64 (be_get a)) (fun b => be_put 8 (u64 b)) sat_conv_g sat_conv_f). Qed.
#[global] Instance codec_msat : Codec (in_u 64) WriteMilliSatoshi ReadMilliSatoshi.
Proof. apply (codec_conv (fun a => u64 (i64 (be_get a))) (be_put 8) msat_conv_g msat_conv_f). Qed.
#[global] Instance codec_prec11 : Codec (in_u 64) WriteUint64 ReadUnitPrec11.
Proof. apply (codec_conv (fun a => u64 (i64 (be_get a))) (be_put 8) msat_conv_g msat_conv_f). Qed.
#[global] Instance codec_prec8 : Codec (in_u 64) WriteUint64 ReadUnitPrec8.
Proof. apply (codec_conv (fun a => u64 (i64 (be_get a))) (be_put 8) msat_conv_g msat_conv_f). Qed.

#[global] Instance canon_u8 : CodecCanon WriteUint8 ReadUint8.
Proof. apply (canon_conv be_get (be_put 1) (fun a H => proj2 (be_conv_f 1 a H))). Qed.
#[global] Instance canon_u16 : CodecCanon WriteUint16 ReadUint16.
Proof. apply (canon_conv be_get (be_put 2) (fun a H => proj2 (be_conv_f 2 a H))). Qed.
#[global] Instance canon_u32 : CodecCanon WriteUint32 ReadUint32.
Proof. apply (canon_conv be_get (be_put 4) (fun a H => proj2 (be_conv_f 4 a H))). Qed.
#[global] Instance canon_u64 : CodecCanon WriteUint64 ReadUint64.
Proof. apply (canon_conv be_get (be_put 8) (fun a H => proj2 (be_conv_f 8 a H))). Qed.
#[global] Instance canon_sat : CodecCanon WriteSatoshi ReadSatoshi.
Proof. apply (canon_conv (fun a => i64 (be_get a)) (fun b => be_put 8 (u64 b)) (fun a H => proj2 (sat_conv_f a H))). Qed.
#[global] Instance canon_asset : CodecCanon WriteAssetMinUnit ReadAssetMinUnit.
Proof. apply (canon_conv (fun a => i64 (be_get a)) (fun b => be_put 8 (u64 b)) (fun a H => proj2 (sat_conv_f a H))). Qed.
#[global] Instance canon_msat : CodecCanon WriteMilliSatoshi ReadMilliSatoshi.
Proof. apply (canon_conv (fun a => u64 (i64 (be_get a))) (be_put 8) (fun a H => proj2 (msat_conv_f a H))). Qed.
#[global] Instance canon_prec11 : CodecCanon WriteUint64 ReadUnitPrec11.
Proof. apply (canon_conv (fun a => u64 (i64 (be_get a))) (be_put 8) (fun a H => proj2 (msat_conv_f a H))). Qed.
#[global] Instance canon_prec8 : CodecCanon WriteUint64 ReadUnitPrec8.
Proof. apply (canon_conv (fun a => u64 (i64 (be_get a))) (be_put 8) (fun a H => proj2 (msat_conv_f a H))). Qed.

#[global] Instance codec_failcode : Codec (in_u 16) WriteFailCode ReadFailCode.
Proof. exact codec_u16. Qed.
#[global] Instance canon_failcode : CodecCanon WriteFailCode ReadFailCode.
Proof. exact canon_u16. Qed.
#[global] Instance codec_fundingflag : Codec (in_u 8) WriteFundingFlag ReadFundingFlag.
Proof. exact codec_u8. Qed.
#[global] Instance canon_fundingflag : CodecCanon WriteFundingFlag ReadFundingFlag.
Proof. exact canon_u8. Qed.
#[global] Instance codec_msgflags :
  Codec (in_u 8) WriteChanUpdateMsgFlags ReadChanUpdateMsgFlags.
Proof. exact codec_u8. Qed.
#[global] Instance canon_msgflags : CodecCanon WriteChanUpdateMsgFlags ReadChanUpdateMsgFlags.
Proof. exact canon_u8. Qed.
#[global] Instance codec_chanflags :
  Codec (in_u 8) WriteChanUpdateChanFlags ReadChanUpdateChanFlags.
Proof. exact codec_u8. Qed.
#[global] Instance canon_chanflags : CodecCanon WriteChanUpdateChanFlags ReadChanUpdateChanFlags.
Proof. exact canon_u8. Qed.
#[global] Instance codec_chanid : Codec (fun l => length l = 32%nat) WriteChannelID ReadChannelID.
Proof. exact (codec_block 32). Qed.
#[global] Instance canon_chanid : CodecCanon WriteChannelID ReadChannelID.
Proof. exact (canon_block 32). Qed.
#[global] Instance codec_array33 : Codec (fun l => length l = 33%nat) WriteBytes ReadArray33.
Proof. exact (codec_block 33). Qed.
#[global] Instance canon_array33 : CodecCanon WriteBytes ReadArray33.
Proof. exact (canon_block 33). Qed.
#[global] Instance codec_sig : Codec (fun l => length l = 64%nat) WriteSig ReadSig.
Proof. exact (codec_block 64). Qed.
#[global] Instance canon_sig : CodecCanon WriteSig ReadSig.
Proof. exact (canon_block 64). Qed.

(** *** Booleans: every byte but one reads as false, so the encoding is not
    canonical. *)

#[global] Instance codec_bool : Codec (fun _ => True) WriteBool ReadBool.
Proof.
  split; [|done]. intros b _. exists [if b then x01 else x00].
  split; [by destruct b|]. intros rest.
  unfold ReadBool, rbind. rewrite (ReadFull_app [_]). by destruct b.
Qed.

(** *** Length-prefixed data *)

Definition wf_var (data : list byte) : Prop := Z.of_nat (length data) < 65536.

Lemma u16_length (n : nat) : Z.of_nat n < 65536 -> u16 (Z.of_nat n) = Z.of_nat n.
Proof. intros. unfold u16. apply Z.mod_small. lia. Qed.

Lemma len_prefix n rest :
  Z.of_nat n < 65536 ->
  ReadFull 2 (be_put 2 (u16 (Z.of_nat n)) ++ rest) = Ok (be_put 2 (u16 (Z.of_nat n)), rest)
  /\ Z.to_nat (be_get (be_put 2 (u16 (Z.of_nat n)))) = n.
Proof.
  intros H. split; [by apply (ReadFull_app (be_put 2 _))|].
  rewrite u16_length, be_get_put_id by lia. lia.
Qed.

Lemma len_prefix_inv bs l rest :
  ReadFull 2 bs = Ok (l, rest) ->
  bs = be_put 2 (be_get l) ++ rest /\ 0 <= be_get l < 65536.
Proof.
  intros H. apply ReadFull_ok_inv in H as [Hl ->].
  split; [by rewrite be_put_get|]. pose proof (be_get_range l). by rewrite Hl in *.
Qed.

Lemma codec_var_data :
  Codec wf_var writeDataWithLength (rbind (ReadFull 2) (fun l => ReadFull (Z.to_nat (be_get l)))).
Proof.
  split.
  - intros a Ha. exists (be_put 2 (u16 (Z.of_nat (length a))) ++ a).
    split; [by apply writes_seq; apply writes_bytes|]. intros rest.
    unfold rbind. destruct (len_prefix (length a) (a ++ rest) Ha) as [E1 E2].
    by rewrite <- app_assoc, E1, E2, ReadFull_app.
  - intros bs a rest H. apply rbind_ok_inv in H as (l & bs' & Hl & H).
    apply len_prefix_inv in Hl as [_ Hr]. apply ReadFull_ok_inv in H as [Hlen _].
    unfold wf_var. lia.
Qed.

Lemma canon_var_data :
  CodecCanon writeDataWithLength (rbind (ReadFull 2) (fun l => ReadFull (Z.to_nat (be_get l)))).
Proof.
  intros bs a rest H. apply rbind_ok_inv in H as (l & bs' & Hl & H).
  apply len_prefix_inv in Hl as [-> Hr]. apply ReadFull_ok_inv in H as [Hlen ->].
  eexists. split; [apply writes_seq; apply writes_bytes|].
  rewrite <- app_assoc. f_equal. f_equal. rewrite u16_length; lia.
Qed.

#[global] Instance codec_reason : Codec wf_var WriteOpaqueReason ReadOpaqueReason.
Proof. exact codec_var_data. Qed.
#[global] Instance canon_reason : CodecCanon WriteOpaqueReason ReadOpaqueReason.
Proof. exact canon_var_data. Qed.
#[global] Instance codec_errordata : Codec wf_var WriteErrorData ReadErrorData.
Proof. exact codec_var_data. Qed.
#[global] Instance canon_errordata : CodecCanon WriteErrorData ReadErrorData.
Proof. exact canon_var_data. Qed.
#[global] Instance codec_ping : Codec wf_var WritePingPayload ReadPingPayload.
Proof. exact codec_var_data. Qed.
#[global] Instance canon_ping : CodecCanon WritePingPayload ReadPingPayload.
Proof. exact canon_var_data. Qed.
#[global] Instance codec_pong : Codec wf_var WritePongPayload ReadPongPayload.
Proof. exact codec_var_data. Qed.
#[global] Instance canon_pong : CodecCanon WritePongPayload ReadPongPayload.
Proof. exact canon_var_data. Qed.

(** A delivery address is read back only up to 34 bytes. *)
Definition wf_delivery (addr : list byte) : Prop := (length addr <= 34)%nat.

Lemma ReadDeliveryAddress_var bs a rest :
  ReadDeliveryAddress bs = Ok (a, rest) <->
  wf_delivery a /\ rbind (ReadFull 2) (fun l => ReadFull (Z.to_nat (be_get l))) bs = Ok (a, rest).
Proof.
  unfold ReadDeliveryAddress, wf_delivery, deliveryAddressMaxSize, rbind.
  destruct (ReadFull 2 bs) as [[l bs']| |] eqn:E; [|split; [done|by intros [_ ?]]..].
  apply len_prefix_inv in E as [_ Hr].
  case_bool_decide; split.
  - done.
  - intros [? H']. apply ReadFull_ok_inv in H' as [? _]. lia.
  - intros H'. split; [|done]. apply ReadFull_ok_inv in H' as [? _]. lia.
  - by intros [_ ?].
Qed.

#[global] Instance codec_delivery : Codec wf_delivery WriteDeliveryAddress ReadDeliveryAddress.
Proof.
  split.
  - intros a Ha. assert (wf_var a) as Hv by (unfold wf_var, wf_delivery in *; lia).
    destruct (codec_rt (Codec := codec_var_data) a Hv) as (bs & Hw & Hr).
    exists bs. split; [done|]. intros rest. by apply ReadDeliveryAddress_var.
  - intros bs a rest H. by apply ReadDeliveryAddress_var in H as [? _].
Qed.

#[global] Instance canon_delivery : CodecCanon WriteDeliveryAddress ReadDeliveryAddress.
Proof. intros bs a rest H. apply ReadDeliveryAddress_var in H as [_ H]. by apply canon_var_data. Qed.

(** *** Signature lists *)

Definition wf_sigs (sigs : list (list byte)) : Prop :=
  Z.of_nat (length sigs) < 65536 /\ Forall (fun s => length s = 64%nat) sigs.

Lemma writes_sigs sigs :
  writes (foldr (fun sig k => WriteSig sig ;;> k) wnil sigs) (mjoin sigs).
Proof.
  induction sigs as [|s sigs IH]; simpl; [apply writes_nil|].
  apply writes_seq; [apply writes_bytes|done].
Qed.

Lemma ReadSigsLoop_app sigs rest :
  Forall (fun s => length s = 64%nat) sigs ->
  ReadSigsLoop (length sigs) (mjoin sigs ++ rest) = Ok (sigs, rest).
Proof.
  induction 1 as [|s sigs Hs _ IH]; [done|]. simpl.
  unfold rbind, ReadSig. rewrite <- app_assoc, <- Hs, ReadFull_app, IH. done.
Qed.

Lemma ReadSigsLoop_inv n bs sigs rest :
  ReadSigsLoop n bs = Ok (sigs, rest) ->
  length sigs = n /\ Forall (fun s => length s = 64%nat) sigs /\ bs = mjoin sigs ++ rest.
Proof.
  revert bs sigs. induction n as [|n IH]; intros bs sigs H; simpl in H.
  - inversion H; subst. split; [done|]. split; [constructor|done].
  - apply rbind_ok_inv in H as (s & bs1 & Hs & H).
    apply rbind_ok_inv in H as (ss & bs2 & Hss & H).
    inversion H; subst. apply ReadFull_ok_inv in Hs as [Hs ->].
    apply IH in Hss as (Hlen & HF & ->). simpl.
    split; [lia|]. split; [by constructor|by rewrite app_assoc].
Qed.

#[global] Instance codec_sigs : Codec wf_sigs WriteSigs ReadSigs.
Proof.
  split.
  - intros sigs [Hlen HF]. eexists. split.
    { apply writes_seq; [apply writes_bytes|apply writes_sigs]. }
    intros rest. unfold ReadSigs, rbind.
    destruct (len_prefix (length sigs) (mjoin sigs ++ rest) Hlen) as [E1 E2].
    by rewrite <- app_assoc, E1, E2, ReadSigsLoop_app.
  - intros bs sigs rest H. apply rbind_ok_inv in H as (l & bs' & Hl & H).
    apply len_prefix_inv in Hl as [_ Hr].
    apply ReadSigsLoop_inv in H as (Hlen & HF & _). split; [lia|done].
Qed.

#[global] Instance canon_sigs : CodecCanon WriteSigs ReadSigs.
Proof.
  intros bs sigs rest H. apply rbind_ok_inv in H as (l & bs' & Hl & H).
  apply len_prefix_inv in Hl as [-> Hr].
  apply ReadSigsLoop_inv in H as (Hlen & HF & ->).
  eexists. split; [apply writes_seq; [apply writes_bytes|apply writes_sigs]|].
  rewrite <- app_assoc. f_equal. f_equal. rewrite u16_length; lia.
Qed.

(** *** Short channel ids, outpoints, colors, keys *)

Definition wf_scid (c : ShortChannelID) : Prop :=
  in_u 24 (BlockHeight c) /\ in_u 24 (TxIndex c) /\ in_u 16 (TxPosition c).

Lemma be_drop_1 z : in_u 24 z -> drop 1 (be_put 4 z) = be_put 3 z.
Proof. done. Qed.

Lemma be_get_pad bs : be_get (x00 :: bs) = be_get bs.
Proof. rewrite be_get_cons. done. Qed.

Lemma writes_scid c :
  wf_scid c ->
  writes (WriteShortChannelID c)
    (be_put 3 (BlockHeight c) ++ be_put 3 (TxIndex c) ++ be_put 2 (TxPosition c)).
Proof.
  intros (H1 & H2 & H3). unfold in_u in *. unfold WriteShortChannelID.
  rewrite !bool_decide_eq_false_2 by (change (Z.shiftl 1 24) with (2 ^ 24); lia).
  repeat apply writes_seq; apply writes_bytes.
Qed.

#[global] Instance codec_scid : Codec wf_scid WriteShortChannelID ReadShortChannelID.
Proof.
  split.
  - intros c Hc. eexists. split; [by apply writes_scid|]. intros rest.
    destruct Hc as (H1 & H2 & H3). unfold ReadShortChannelID, rbind, rret.
    rewrite <- !app_assoc.
    rewrite (ReadFull_app (be_put 3 _)), (ReadFull_app (be_put 3 _)), (ReadFull_app (be_put 2 _)).
    rewrite !be_get_pad, !be_get_put_id by done. by destruct c.
  - intros bs c rest H. unfold ReadShortChannelID in H.
    do 3 apply rbind_ok_inv in H as (? & ? & ?%ReadFull_ok_inv & H).
    destruct_and!. inversion H; subst. unfold wf_scid, in_u; simpl. rewrite !be_get_pad.
    repeat match goal with Hl : length ?x = _ |- _ =>
      pose proof (be_get_range x); rewrite Hl in *; clear Hl end.
    done.
Qed.

#[global] Instance canon_scid : CodecCanon WriteShortChannelID ReadShortChannelID.
Proof.
  intros bs c rest H. pose proof (codec_wf _ _ _ H) as Hwf. eexists.
  split; [by apply writes_scid|]. unfold ReadShortChannelID in H.
  do 3 apply rbind_ok_inv in H as (? & ? & ?%ReadFull_ok_inv & H).
  destruct_and!. inversion H; subst; cbn [BlockHeight TxIndex TxPosition].
  rewrite !be_get_pad, !be_put_get by done. by rewrite <- !app_assoc.
Qed.

Definition wf_outpoint (p : OutPoint) : Prop :=
  length (Hash p) = 32%nat /\ in_u 16 (Index p).

Lemma u16_id z : in_u 16 z -> u16 z = z.
Proof. intros H. by apply Z.mod_small. Qed.

Lemma u32_id z : in_u 32 z -> u32 z = z.
Proof. intros H. by apply Z.mod_small. Qed.

#[global] Instance codec_outpoint : Codec wf_outpoint WriteOutPoint ReadOutPoint.
Proof.
  split.
  - intros p [Hh Hi]. unfold WriteOutPoint.
    rewrite bool_decide_eq_false_2 by (unfold in_u in *; lia).
    eapply rt_seq; [by apply (codec_rt (Codec := codec_block 32))|].
    destruct p as [h i]; simpl in *. rewrite u16_id by done.
    replace {| Hash := h; Index := i |}
      with {| Hash := h; Index := u32 (be_get (be_put 2 i)) |}.
    2: { rewrite be_get_put_id, u32_id by (unfold in_u in *; lia). done. }
    apply (rt_last (WriteUint16 i) (ReadFull 2) (be_put 2 i)
             (fun b => {| Hash := h; Index := u32 (be_get b) |})).
    apply (codec_rt (Codec := codec_block 2)), length_be_put.
  - intros bs p rest H. unfold ReadOutPoint in H.
    do 2 apply rbind_ok_inv in H as (? & ? & ?%ReadFull_ok_inv & H).
    destruct_and!. inversion H; subst. split; [done|]. simpl.
    repeat match goal with Hl : length ?x = 2%nat |- _ =>
      pose proof (be_get_range x); rewrite Hl in *; clear Hl end.
    rewrite u32_id; unfold in_u; lia.
Qed.

#[global] Instance canon_outpoint : CodecCanon WriteOutPoint ReadOutPoint.
Proof.
  intros bs p rest H. unfold ReadOutPoint in H.
  apply rbind_ok_inv in H as (h & ? & [Hh ->]%ReadFull_ok_inv & H).
  apply rbind_ok_inv in H as (i & ? & [Hi ->]%ReadFull_ok_inv & H).
  inversion H; subst. pose proof (be_get_range i) as Hr. rewrite Hi in Hr.
  unfold WriteOutPoint; simpl. rewrite u32_id by (unfold in_u; lia).
  rewrite bool_decide_eq_false_2 by lia. eexists.
  split; [apply writes_seq; apply writes_bytes|].
  rewrite u16_id, be_put_get by (unfold in_u; lia || done). by rewrite <- app_assoc.
Qed.

Definition wf_rgba (c : RGBA) : Prop := in_u 8 (R c) /\ in_u 8 (G c) /\ in_u 8 (B c).

#[global] Instance codec_rgba : Codec wf_rgba WriteColorRGBA ReadColorRGBA.
Proof.
  split.
  - intros [r g b] (Hr & Hg & Hb). simpl in *. unfold WriteColorRGBA, ReadColorRGBA; simpl.
    eapply rt_seq; [by apply codec_rt|]. eapply rt_seq; [by apply codec_rt|].
    by apply (rt_last _ ReadUint8 b), codec_rt.
  - intros bs c rest H. unfold ReadColorRGBA in H.
    do 3 apply rbind_ok_inv in H as (? & ? & ?%(codec_wf (r := ReadUint8)) & H).
    by inversion H; subst.
Qed.

#[global] Instance canon_rgba : CodecCanon WriteColorRGBA ReadColorRGBA.
Proof.
  intros bs c rest H. unfold ReadColorRGBA in H.
  apply rbind_ok_inv in H as (r & ? & (b1 & W1 & ->)%(codec_canon (r := ReadUint8)) & H).
  apply rbind_ok_inv in H as (g & ? & (b2 & W2 & ->)%(codec_canon (r := ReadUint8)) & H).
  apply rbind_ok_inv in H as (b & ? & (b3 & W3 & ->)%(codec_canon (r := ReadUint8)) & H).
  inversion H; subst. eexists. split; [by repeat apply writes_seq|]. by rewrite <- !app_assoc.
Qed.

Section pubkeys.
Context {BT : Btcec} {BL : BtcecLaws}.

#[global] Instance codec_pubkey : Codec is_Some WritePublicKey ReadPublicKey.
Proof.
  split.
  - intros a [k ->]. exists (SerializeCompressed k). split; [apply writes_bytes|].
    intros rest. unfold ReadPublicKey, rbind.
    rewrite <- (serialize_length k), ReadFull_app, parse_serialize. done.
  - intros bs a rest H. unfold ReadPublicKey in H.
    apply rbind_ok_inv in H as (b & ? & _ & H).
    destruct (ParsePubKey b); inversion H; subst. eauto.
Qed.

#[global] Instance canon_pubkey : CodecCanon WritePublicKey ReadPublicKey.
Proof.
  intros bs a rest H. unfold ReadPublicKey in H.
  apply rbind_ok_inv in H as (b & ? & [Hb ->]%ReadFull_ok_inv & H).
  destruct (ParsePubKey b) as [k|] eqn:E; inversion H; subst.
  exists b. split; [|done]. simpl. rewrite (serialize_parse b k) by done. apply writes_bytes.
Qed.
End pubkeys.
