(* ===== verification/Features.v ===== *)
(** * lnwire/features.go: feature vectors

    A [RawFeatureVector] is a Go map used as a set of feature bits: a [gset] of
    16-bit numbers.  A [range] over the map visits the bits in an unspecified
    order, so every loop over a map takes the order as an argument; the theorems
    quantify over all orders. *)

From Stdlib Require Import ZArith Lia.
From S2P Require Import Prelude Wire.

Local Open Scope Z_scope.
Local Open Scope go_scope.

(** ** Feature bits *)

Definition DataLossProtectRequired : Z := 0.
Definition DataLossProtectOptional : Z := 1.
Definition InitialRoutingSync : Z := 3.
Definition UpfrontShutdownScriptRequired : Z := 4.
Definition UpfrontShutdownScriptOptional : Z := 5.
Definition GossipQueriesRequired : Z := 6.
Definition GossipQueriesOptional : Z := 7.
Definition TLVOnionPayloadRequired : Z := 8.
Definition TLVOnionPayloadOptional : Z := 9.
Definition StaticRemoteKeyRequired : Z := 12.
Definition StaticRemoteKeyOptional : Z := 13.
Definition PaymentAddrRequired : Z := 14.
Definition PaymentAddrOptional : Z := 15.
Definition MPPRequired : Z := 16.
Definition MPPOptional : Z := 17.
Definition WumboChannelsRequired : Z := 18.
Definition WumboChannelsOptional : Z := 19.
Definition AnchorsRequired : Z := 20.
Definition AnchorsOptional : Z := 21.
Definition AnchorsZeroFeeHtlcTxRequired : Z := 22.
Definition AnchorsZeroFeeHtlcTxOptional : Z := 23.
Definition AMPRequired : Z := 30.
Definition AMPOptional : Z := 31.
Definition ExplicitChannelTypeRequired : Z := 44.
Definition ExplicitChannelTypeOptional : Z := 45.
Definition ScriptEnforcedLeaseRequired : Z := 2022.
Definition ScriptEnforcedLeaseOptional : Z := 2023.

Definition IsRequired (b : Z) : bool := bool_decide (Z.land b 1 = 0).

Definition Features : gmap Z string := list_to_map [
  (DataLossProtectRequired, "data-loss-protect"%string);
  (DataLossProtectOptional, "data-loss-protect"%string);
  (InitialRoutingSync, "initial-routing-sync"%string);
  (UpfrontShutdownScriptRequired, "upfront-shutdown-script"%string);
  (UpfrontShutdownScriptOptional, "upfront-shutdown-script"%string);
  (GossipQueriesRequired, "gossip-queries"%string);
  (GossipQueriesOptional, "gossip-queries"%string);
  (TLVOnionPayloadRequired, "tlv-onion"%string);
  (TLVOnionPayloadOptional, "tlv-onion"%string);
  (StaticRemoteKeyOptional, "static-remote-key"%string);
  (StaticRemoteKeyRequired, "static-remote-key"%string);
  (PaymentAddrOptional, "payment-addr"%string);
  (PaymentAddrRequired, "payment-addr"%string);
  (MPPOptional, "multi-path-payments"%string);
  (MPPRequired, "multi-path-payments"%string);
  (AnchorsRequired, "anchor-commitments"%string);
  (AnchorsOptional, "anchor-commitments"%string);
  (AnchorsZeroFeeHtlcTxRequired, "anchors-zero-fee-htlc-tx"%string);
  (AnchorsZeroFeeHtlcTxOptional, "anchors-zero-fee-htlc-tx"%string);
  (WumboChannelsRequired, "wumbo-channels"%string);
  (WumboChannelsOptional, "wumbo-channels"%string);
  (AMPRequired, "amp"%string);
  (AMPOptional, "amp"%string);
  (ExplicitChannelTypeOptional, "explicit-commitment-type"%string);
  (ExplicitChannelTypeRequired, "explicit-commitment-type"%string);
  (ScriptEnforcedLeaseRequired, "script-enforced-lease"%string);
  (ScriptEnforcedLeaseOptional, "script-enforced-lease"%string) ].

(** ** Raw feature vectors *)

Module Raw.

Abbreviation vector := (gset Z).

Definition IsSet (fv : vector) (feature : Z) : bool := bool_decide (feature ∈ fv).

Definition Set_ (fv : vector) (feature : Z) : vector := {[feature]} ∪ fv.

Definition Unset (fv : vector) (feature : Z) : vector := fv ∖ {[feature]}.

Definition New (bits : list Z) : vector := foldl Set_ ∅ bits.

Definition IsEmpty (fv : vector) : bool := bool_decide (size fv = 0%nat).

Definition OnlyContains (fv : vector) (bits : list Z) : bool :=
  if bool_decide (length bits <> size fv) then false
  else forallb (IsSet fv) bits.

(** [order] is the order in which the map of the receiver is visited. *)
Definition Equals (order : list Z) (fv other : vector) : bool :=
  if bool_decide (size fv <> size other) then false
  else forallb (fun bit => bool_decide (bit ∈ other)) order.

Inductive feature_err : Type := ErrFeaturePairExists.

(** The vector is returned with the error: it has been mutated in place. *)
Definition SafeSet (fv : vector) (feature : Z) : vector * option feature_err :=
  if bool_decide (Z.lxor feature 1 ∈ fv) then (fv, Some ErrFeaturePairExists)
  else (Set_ fv feature, None).

(** [order] is the order in which the map of [other] is visited. *)
Fixpoint Merge (fv : vector) (order : list Z) : vector * option feature_err :=
  match order with
  | [] => (fv, None)
  | bit :: rest =>
      match SafeSet fv bit with
      | (fv', None) => Merge fv' rest
      | (fv', Some e) => (fv', Some e)
      end
  end.

Definition Clone (order : list Z) : vector := foldl Set_ (New []) order.

Definition serializeSize (order : list Z) (width : Z) : Z :=
  let max := foldl (fun max index => if bool_decide (index > max) then index else max)
               (-1) order in
  if bool_decide (max = -1) then 0 else Z.quot max width + 1.

Definition SerializeSize (order : list Z) : Z := serializeSize order 8.

Definition SerializeSize32 (order : list Z) : Z := serializeSize order 5.

(** One iteration of the loop of [encode]: [data[length-byteIndex-1] |= 1 << bitIndex]. *)
Definition encode_bit (length width : Z) (data : list byte) (feature : Z)
    : outcome wire_err (list byte) :=
  let byteIndex := Z.quot feature width in
  let bitIndex := Z.rem feature width in
  let i := length - byteIndex - 1 in
  if bool_decide (i < 0) then Panic
  else match data !! Z.to_nat i with
       | None => Panic
       | Some b => Ok (<[Z.to_nat i := byte_of_Z (Z.lor (byte_Z b) (Z.shiftl 1 bitIndex))]> data)
       end.

Fixpoint encode_bits (length width : Z) (data : list byte) (order : list Z)
    : outcome wire_err (list byte) :=
  match order with
  | [] => Ok data
  | feature :: rest =>
      data' <~ encode_bit length width data feature ;
      encode_bits length width data' rest
  end.

(** The byte string written by [encode]. *)
Definition encode (order : list Z) (length width : Z) : outcome wire_err (list byte) :=
  encode_bits length width (replicate (Z.to_nat length) x00) order.

Definition EncodeBase256 (order : list Z) : outcome wire_err (list byte) :=
  encode order (SerializeSize order) 8.

Definition EncodeBase32 (order : list Z) : outcome wire_err (list byte) :=
  encode order (SerializeSize32 order) 5.

(** [Encode]: the two length bytes are written before the bits. *)
Definition Encode (order : list Z) : outcome wire_err (list byte) :=
  let length := SerializeSize order in
  data <~ encode order length 8 ;
  Ok (be_put 2 (u16 length) ++ data).

(** The test [(data[length-byteIndex-1]>>bitIndex)&1 == 1] of [decode]. *)
Definition data_bit (width : Z) (data : list byte) (i : Z) : bool :=
  match data !! Z.to_nat (Z.of_nat (length data) - Z.quot i width - 1) with
  | Some b => bool_decide (Z.land (Z.shiftr (byte_Z b) (Z.rem i width)) 1 = 1)
  | None => false
  end.

(** [fv.Set(FeatureBit(i))] truncates the position to 16 bits. *)
Definition decode_bits (width : Z) (data : list byte) (fv : vector) : vector :=
  foldl (fun fv i => if data_bit width data i then Set_ fv (u16 i) else fv)
    fv (seqZ 0 (Z.of_nat (length data) * width)).

Definition decode (fv : vector) (length width : Z) : reader vector :=
  data <-- ReadFull (Z.to_nat length) ; rret (decode_bits width data fv).

Definition DecodeBase256 (fv : vector) (length : Z) : reader vector := decode fv length 8.

Definition DecodeBase32 (fv : vector) (length : Z) : reader vector := decode fv length 5.

Definition Decode (fv : vector) : reader vector :=
  l <-- ReadFull 2 ; decode fv (be_get l) 8.

End Raw.

(** ** Feature vectors with names *)

Module Vector.

Record t := mk {
  raw : gset Z;
  featureNames : gmap Z string;
}.

Definition NewFeatureVector (featureVector : option (gset Z)) (names : gmap Z string) : t :=
  {| raw := match featureVector with None => Raw.New [] | Some fv => fv end;
     featureNames := names |}.

Definition EmptyFeatureVector : t := NewFeatureVector None Features.

Definition IsKnown (fv : t) (bit : Z) : bool :=
  match featureNames fv !! bit with Some _ => true | None => false end.

Definition Name (fv : t) (bit : Z) : string :=
  match featureNames fv !! bit with Some name => name | None => "unknown"%string end.

Definition isFeatureBitPair (fv : t) (bit : Z) : bool :=
  match featureNames fv !! bit, featureNames fv !! Z.lxor bit 1 with
  | Some name1, Some name2 => bool_decide (name1 = name2)
  | _, _ => false
  end.

Definition HasFeature (fv : t) (feature : Z) : bool :=
  Raw.IsSet (raw fv) feature ||
  (isFeatureBitPair fv feature && Raw.IsSet (raw fv) (Z.lxor feature 1)).

Definition RequiresFeature (fv : t) (feature : Z) : bool :=
  let feature := if IsRequired feature then feature else Z.lxor feature 1 in
  Raw.IsSet (raw fv) feature.

(** [order] is the order in which the map is visited. *)
Definition UnknownRequiredFeatures (fv : t) (order : list Z) : list Z :=
  filter (fun feature => feature mod 2 = 0 /\ IsKnown fv feature = false) order.

End Vector.

Definition WriteRawFeatureVector (feature : option (gset Z)) : writer :=
  match feature with
  | None => werror ErrNilFeatureVector
  | Some fv => fun buf =>
      match Raw.Encode (elements fv) with
      | Ok bs => (buf ++ bs, Ok tt)
      | Err e => (buf, Err e)
      | Panic => (buf, Panic)
      end
  end.

Definition ReadRawFeatureVector : reader (option (gset Z)) :=
  fv <-- Raw.Decode (Raw.New []) ; rret (Some fv).

(** ** Lemmas *)

Module RawFacts.
Import Raw.

Lemma land_1_testbit b k : 0 <= k ->
  bool_decide (Z.land (Z.shiftr b k) 1 = 1) = Z.testbit b k.
Proof.
  intros Hk. rewrite Z.testbit_odd.
  assert (Z.land (Z.shiftr b k) 1 = Z.shiftr b k mod 2) as -> by (by apply (Z.land_ones _ 1)).
  rewrite Zmod_odd. by destruct (Z.odd _).
Qed.

Lemma testbit_set b k j : 0 <= k < 8 -> 0 <= j < 8 ->
  Z.testbit (byte_Z (byte_of_Z (Z.lor (byte_Z b) (Z.shiftl 1 k)))) j
  = Z.testbit (byte_Z b) j || bool_decide (j = k).
Proof.
  intros Hk Hj. rewrite byte_Z_of_Z. unfold u8.
  rewrite Z.mod_pow2_bits_low, Z.lor_spec by lia. f_equal.
  rewrite Z.shiftl_1_l, Z.pow2_bits_eqb by lia.
  case_bool_decide; [subst; apply Z.eqb_refl|apply Z.eqb_neq; lia].
Qed.

Section width.
Context (width : Z) (Hw : 0 < width <= 8).

Lemma data_bit_testbit data i : 0 <= i ->
  data_bit width data i =
  match data !! Z.to_nat (Z.of_nat (length data) - i / width - 1) with
  | Some b => Z.testbit (byte_Z b) (i mod width)
  | None => false
  end.
Proof using Hw.
  intros Hi. unfold data_bit. rewrite Z.quot_div_nonneg, Z.rem_mod_nonneg by lia.
  destruct (data !! _); [|done]. apply land_1_testbit.
  pose proof (Z.mod_pos_bound i width). lia.
Qed.

Lemma encode_bit_ok data f :
  0 <= f < Z.of_nat (length data) * width ->
  exists data', encode_bit (Z.of_nat (length data)) width data f = Ok data'
    /\ length data' = length data
    /\ forall i, 0 <= i < Z.of_nat (length data) * width ->
         data_bit width data' i = data_bit width data i || bool_decide (i = f).
Proof using Hw.
  intros Hf. unfold encode_bit.
  rewrite Z.quot_div_nonneg, Z.rem_mod_nonneg by lia.
  assert (0 <= f / width < Z.of_nat (length data)) as Hq.
  { split; [apply Z.div_pos; lia|]. apply Z.div_lt_upper_bound; lia. }
  rewrite bool_decide_eq_false_2 by lia.
  destruct (lookup_lt_is_Some_2 data (Z.to_nat (Z.of_nat (length data) - f / width - 1)))
    as [b Hb]; [lia|]. rewrite Hb.
  eexists. split; [done|]. split; [by rewrite length_insert|].
  intros i Hi. rewrite !data_bit_testbit by lia. rewrite length_insert.
  assert (0 <= i / width < Z.of_nat (length data)) as Hqi.
  { split; [apply Z.div_pos; lia|]. apply Z.div_lt_upper_bound; lia. }
  pose proof (Z.mod_pos_bound i width). pose proof (Z.mod_pos_bound f width).
  pose proof (Z.div_mod i width). pose proof (Z.div_mod f width).
  destruct (decide (i / width = f / width)) as [E|E].
  - rewrite E, Hb, list_lookup_insert_eq by lia. rewrite testbit_set by lia. f_equal.
    apply bool_decide_ext. split; intros; [|by subst]. lia.
  - rewrite list_lookup_insert_ne by lia.
    rewrite (bool_decide_eq_false_2 (i = f)) by congruence. by rewrite orb_false_r.
Qed.

Lemma encode_bits_ok order data :
  Forall (fun f => 0 <= f < Z.of_nat (length data) * width) order ->
  exists data', encode_bits (Z.of_nat (length data)) width data order = Ok data'
    /\ length data' = length data
    /\ forall i, 0 <= i < Z.of_nat (length data) * width ->
         data_bit width data' i = data_bit width data i || bool_decide (i ∈ order).
Proof using Hw.
  revert data. induction order as [|f order IH]; intros data HF; simpl.
  - exists data. split; [done|]. split; [done|]. intros i Hi.
    by rewrite orb_false_r.
  - apply Forall_cons in HF as [Hf HF].
    destruct (encode_bit_ok data f Hf) as (d1 & -> & Hl & Hb). simpl.
    rewrite <- Hl in HF |- *. destruct (IH d1 HF) as (d2 & -> & Hl2 & Hb2).
    exists d2. split; [done|]. split; [congruence|]. intros i Hi.
    rewrite Hb2 by done. rewrite Hb by (by rewrite <- Hl). rewrite <- orb_assoc. f_equal.
    repeat case_bool_decide; set_solver.
Qed.

Lemma data_bit_zero n i : 0 <= i -> data_bit width (replicate n x00) i = false.
Proof using Hw.
  intros Hi. rewrite data_bit_testbit by done.
  destruct (replicate n x00 !! _) as [b|] eqn:E; [|done].
  apply lookup_replicate in E as [-> _]. apply Z.bits_0.
Qed.

(** The bits written by [encode] are exactly the bits of the vector. *)
Lemma encode_ok order len :
  0 <= len -> Forall (fun f => 0 <= f < len * width) order ->
  exists data, encode order len width = Ok data
    /\ length data = Z.to_nat len
    /\ forall i, 0 <= i < len * width -> data_bit width data i = bool_decide (i ∈ order).
Proof using Hw.
  intros Hlen HF. unfold encode.
  assert (Z.of_nat (length (replicate (Z.to_nat len) x00)) = len) as Hl
    by (rewrite length_replicate; lia).
  destruct (encode_bits_ok order (replicate (Z.to_nat len) x00)) as (d & E & Hd & Hb).
  { by rewrite Hl. }
  rewrite Hl in *. exists d. split; [done|].
  split; [by rewrite Hd, length_replicate|].
  intros i Hi. rewrite Hb, data_bit_zero by lia. done.
Qed.

End width.

Lemma elem_of_decode_loop (P : Z -> bool) l (fv : gset Z) x :
  x ∈ foldl (fun fv i => if P i then Set_ fv (u16 i) else fv) fv l
  <-> x ∈ fv \/ exists i, i ∈ l /\ P i = true /\ x = u16 i.
Proof.
  revert fv. induction l as [|i l IH]; intros fv; simpl; [set_solver|].
  rewrite IH. unfold Set_. destruct (P i) eqn:E; [set_solver|].
  split; [set_solver|]. intros [?|(j & [->|?]%elem_of_cons & ? & ?)]; [set_solver|congruence|set_solver].
Qed.

Lemma elem_of_decode_bits width data fv x :
  x ∈ decode_bits width data fv <->
  x ∈ fv \/ exists i, 0 <= i < Z.of_nat (length data) * width
                      /\ data_bit width data i = true /\ x = u16 i.
Proof.
  unfold decode_bits. rewrite elem_of_decode_loop. setoid_rewrite elem_of_seqZ.
  split; (intros [?|(i & ? & ? & ?)]; [by left|right; exists i; split; [lia|done]]).
Qed.

(** The loop computing the largest bit. *)
Lemma foldl_max_spec l m0 :
  let m := foldl (fun max index => if bool_decide (index > max) then index else max) m0 l in
  (m0 <= m) /\ Forall (fun x => x <= m) l /\ (m = m0 \/ m ∈ l).
Proof.
  revert m0. induction l as [|x l IH]; intros m0; simpl; [split; [lia|auto]|].
  case_bool_decide as Hx.
  - destruct (IH x) as (H1 & H2 & H3). split; [lia|]. split; [by constructor|].
    right. set_solver.
  - destruct (IH m0) as (H1 & H2 & H3). split; [done|]. split; [constructor; [lia|done]|].
    set_solver.
Qed.

Lemma serializeSize_spec order width :
  0 < width -> Forall (fun f => 0 <= f) order ->
  0 <= serializeSize order width
  /\ Forall (fun f => 0 <= f < serializeSize order width * width) order
  /\ (forall n, 0 <= n -> Forall (fun f => 0 <= f < n * width) order -> serializeSize order width <= n).
Proof.
  intros Hw Hpos. unfold serializeSize.
  destruct (foldl_max_spec order (-1)) as (H1 & H2 & H3).
  set (m := foldl _ _ _) in *. clearbody m.
  case_bool_decide as Hm.
  - subst m. split; [lia|]. destruct order as [|f order]; [split; [constructor|intros; lia]|].
    exfalso. apply Forall_cons in Hpos as [? _], H2 as [? _]. lia.
  - destruct H3 as [?|Hin]; [lia|]. rewrite Z.quot_div_nonneg by lia.
    pose proof (Z.div_pos m width). pose proof (Z.div_mod m width).
    pose proof (Z.mod_pos_bound m width).
    split; [lia|]. split.
    + apply Forall_forall. intros f Hf. rewrite Forall_forall in H2, Hpos.
      specialize (H2 f Hf). specialize (Hpos f Hf). nia.
    + intros n Hn HF. rewrite Forall_forall in HF. specialize (HF m Hin). simpl in HF.
      assert (m / width < n) by (apply Z.div_lt_upper_bound; lia). lia.
Qed.

Definition wf (fv : gset Z) : Prop := forall b, b ∈ fv -> in_u 16 b.

Lemma serializeSize_bound order width n :
  0 < width -> Forall (fun f => 0 <= f < n * width) order -> 0 <= n ->
  serializeSize order width <= n.
Proof.
  intros Hw HF Hn. apply serializeSize_spec; [done| |done|done].
  eapply Forall_impl; [done|]. simpl. lia.
Qed.

(** The core of the round trip, for both packings. *)
Lemma decode_encode fv order width :
  0 < width <= 8 -> wf fv -> order ≡ₚ elements fv ->
  exists data, encode order (serializeSize order width) width = Ok data
    /\ Z.of_nat (length data) = serializeSize order width
    /\ decode_bits width data ∅ = fv.
Proof.
  intros Hw Hwf Hord.
  assert (forall b, b ∈ order <-> b ∈ fv) as Hin.
  { intros b. by rewrite Hord, elem_of_elements. }
  assert (Forall (fun f => 0 <= f) order) as Hpos.
  { apply Forall_forall. intros b Hb%Hin. apply Hwf in Hb. unfold in_u in Hb. lia. }
  destruct (serializeSize_spec order width) as (Hs & HF & _); [lia|done|].
  destruct (encode_ok width Hw order _ Hs HF) as (data & E & Hl & Hb).
  exists data. split; [done|]. split; [lia|].
  assert (Z.of_nat (length data) = serializeSize order width) as Hl' by lia.
  apply set_eq. intros x. rewrite elem_of_decode_bits, Hl'. split.
  - intros [?|(i & Hi & Hbit & ->)]; [set_solver|].
    rewrite Hb in Hbit by done. apply bool_decide_eq_true in Hbit.
    apply Hin in Hbit. pose proof (Hwf _ Hbit). by rewrite u16_id.
  - intros Hx. right. exists x. rewrite Forall_forall in HF.
    pose proof (HF x (proj2 (Hin x) Hx)) as Hxr. split; [done|].
    rewrite Hb by done. split; [apply bool_decide_eq_true; by apply Hin|].
    by rewrite u16_id by (by apply Hwf).
Qed.

(** *** The order in which the map is visited does not matter *)

Lemma byte_lor_assoc x y :
  byte_of_Z (Z.lor (byte_Z (byte_of_Z x)) y) = byte_of_Z (Z.lor x y).
Proof.
  apply (inj byte_Z). rewrite !byte_Z_of_Z. unfold u8. apply Z.bits_inj'. intros i Hi.
  destruct (decide (i < 8)).
  - by rewrite !Z.mod_pow2_bits_low, !Z.lor_spec, Z.mod_pow2_bits_low by lia.
  - by rewrite !Z.mod_pow2_bits_high by lia.
Qed.

Lemma encode_bit_comm len width data f g :
  obind (encode_bit len width data f) (fun d => encode_bit len width d g)
  = obind (encode_bit len width data g) (fun d => encode_bit len width d f).
Proof.
  unfold encode_bit.
  set (i := len - Z.quot f width - 1). set (j := len - Z.quot g width - 1).
  destruct (decide (i < 0)), (decide (j < 0));
    rewrite ?(bool_decide_eq_true_2 (i < 0)), ?(bool_decide_eq_true_2 (j < 0)),
      ?(bool_decide_eq_false_2 (i < 0)), ?(bool_decide_eq_false_2 (j < 0)) by done;
    simpl; [done|by destruct (data !! _)|by destruct (data !! _)|].
  destruct (decide (Z.to_nat i = Z.to_nat j)) as [E|E].
  - rewrite E. destruct (data !! Z.to_nat j) as [b|] eqn:Eb; simpl; [|done].
    pose proof (lookup_lt_Some _ _ _ Eb).
    rewrite !list_lookup_insert_eq by done. rewrite !list_insert_insert_eq.
    rewrite !byte_lor_assoc, <- !Z.lor_assoc, (Z.lor_comm (Z.shiftl 1 _)). done.
  - destruct (data !! Z.to_nat i) as [b|] eqn:Eb, (data !! Z.to_nat j) as [c|] eqn:Ec; simpl;
      rewrite ?list_lookup_insert_ne, ?Eb, ?Ec by done; try done.
    by rewrite list_insert_insert_ne.
Qed.

Lemma encode_bits_perm len width order1 order2 data :
  order1 ≡ₚ order2 ->
  encode_bits len width data order1 = encode_bits len width data order2.
Proof.
  intros Hp. revert data. induction Hp as [|f l1 l2 _ IH|f g l|l1 l2 l3 _ IH1 _ IH2];
    intros data; simpl.
  - done.
  - destruct (encode_bit len width data f); simpl; [apply IH|done..].
  - rewrite <- !obind_assoc. f_equal. apply encode_bit_comm.
  - by rewrite IH1.
Qed.

Lemma serializeSize_perm order1 order2 width :
  order1 ≡ₚ order2 -> serializeSize order1 width = serializeSize order2 width.
Proof.
  intros Hp. unfold serializeSize.
  assert (forall m0,
    foldl (fun max index => if bool_decide (index > max) then index else max) m0 order1
    = foldl (fun max index => if bool_decide (index > max) then index else max) m0 order2) as Hf.
  { induction Hp; intros m0; simpl; [done|done| |congruence].
    f_equal. repeat case_bool_decide; lia. }
  by rewrite Hf.
Qed.

Lemma Encode_perm order1 order2 : order1 ≡ₚ order2 -> Encode order1 = Encode order2.
Proof.
  intros Hp. unfold Encode, SerializeSize, encode.
  rewrite (serializeSize_perm _ _ _ Hp). by rewrite (encode_bits_perm _ _ _ _ _ Hp).
Qed.

(** *** Safe merging *)

Lemma SafeSet_ok fv f fv' :
  SafeSet fv f = (fv', None) <-> Z.lxor f 1 ∉ fv /\ fv' = {[f]} ∪ fv.
Proof. unfold SafeSet, Set_. case_bool_decide; naive_solver. Qed.

Lemma lxor_1_ne f : Z.lxor f 1 <> f.
Proof.
  intros H. apply (f_equal (fun z => Z.testbit z 0)) in H.
  rewrite Z.lxor_spec in H. change (Z.testbit 1 0) with true in H.
  by destruct (Z.testbit f 0).
Qed.

Lemma lxor_1_invol f : Z.lxor (Z.lxor f 1) 1 = f.
Proof. by rewrite Z.lxor_assoc, Z.lxor_nilpotent, Z.lxor_0_r. Qed.

(** No bit of [s] has its opposite bit in [t]. *)
Definition pair_free (s t : gset Z) : Prop := forall b, b ∈ s -> Z.lxor b 1 ∉ t.

Lemma Merge_ok fv order fv' :
  Merge fv order = (fv', None) <->
  pair_free (list_to_set order) (fv ∪ list_to_set order) /\ fv' = fv ∪ list_to_set order.
Proof.
  unfold pair_free.
  revert fv. induction order as [|b order IH]; intros fv; simpl.
  { split; [intros H; simplify_eq/=; set_solver|]. intros [_ ->]. f_equal. set_solver. }
  destruct (SafeSet fv b) as [fv1 [e|]] eqn:E.
  - split; [done|]. intros [Hp _]. exfalso. unfold SafeSet in E.
    case_bool_decide as Hin; [|done]. apply (Hp b); set_solver.
  - apply SafeSet_ok in E as [Hb ->]. rewrite IH. clear IH. split.
    + intros [Hp ->]. split; [|set_solver]. intros c Hc.
      apply elem_of_union in Hc as [->%elem_of_singleton|Hc].
      * pose proof (lxor_1_ne b). intros Hx.
        assert (Z.lxor b 1 ∈ (list_to_set order : gset Z)) as Hy by set_solver.
        specialize (Hp _ Hy). rewrite lxor_1_invol in Hp. set_solver.
      * specialize (Hp c Hc). set_solver.
    + intros [Hp ->]. split; [|set_solver]. intros c Hc. specialize (Hp c). set_solver.
Qed.

End RawFacts.

(** ** The wire codec of feature vectors *)

Definition wf_features (f : option (gset Z)) : Prop :=
  exists fv, f = Some fv /\ RawFacts.wf fv.

Lemma Encode_writes fv :
  RawFacts.wf fv ->
  exists data, writes (WriteRawFeatureVector (Some fv))
      (be_put 2 (u16 (Z.of_nat (length data))) ++ data)
    /\ Z.of_nat (length data) < 65536
    /\ Raw.decode_bits 8 data ∅ = fv.
Proof.
  intros Hwf.
  destruct (RawFacts.decode_encode fv (elements fv) 8) as (data & E & Hl & Hd); [lia|done|done|].
  exists data. split; [|split; [|done]].
  - intros buf. unfold WriteRawFeatureVector, Raw.Encode, Raw.SerializeSize.
    by rewrite E, <- Hl.
  - rewrite Hl. assert (Raw.serializeSize (elements fv) 8 <= 8192); [|lia].
    apply RawFacts.serializeSize_bound; [lia| |lia]. apply Forall_forall.
    intros f Hf%elem_of_elements. apply Hwf in Hf. unfold in_u in Hf. lia.
Qed.

#[global] Instance codec_features :
  Codec wf_features WriteRawFeatureVector ReadRawFeatureVector.
Proof.
  split.
  - intros a (fv & -> & Hwf). destruct (Encode_writes fv Hwf) as (data & Hw & Hl & Hd).
    eexists. split; [exact Hw|]. intros rest.
    unfold ReadRawFeatureVector, Raw.Decode, Raw.decode, rbind.
    destruct (len_prefix (length data) (data ++ rest) Hl) as [E1 E2].
    rewrite <- app_assoc, E1, E2, ReadFull_app. unfold rret. change (Raw.New []) with (∅ : gset Z). by rewrite Hd.
  - intros bs a rest H. unfold ReadRawFeatureVector, Raw.Decode, Raw.decode in H.
    apply rbind_ok_inv in H as (fv & bs1 & H1 & H2). inversion H2; subst.
    apply rbind_ok_inv in H1 as (l & bs2 & _ & H1).
    apply rbind_ok_inv in H1 as (data & bs3 & _ & H1). inversion H1; subst.
    eexists. split; [done|]. intros b Hb. apply RawFacts.elem_of_decode_bits in Hb.
    destruct Hb as [?|(i & _ & _ & ->)]; [set_solver|].
    unfold in_u, u16. apply Z.mod_pos_bound. lia.
Qed.

(** ** Theorem *)

(** Feature vectors on the wire.  Whatever order the bit map is visited in,
    both packings (eight bits a byte behind a length, and five bits a byte)
    write the same bytes, as few as hold the largest bit, and read back as the
    same set of bits; writing never indexes outside the byte array. *)
Theorem FeatureVector_roundtrip fv order :
  RawFacts.wf fv -> order ≡ₚ elements fv ->
  (exists bs, Raw.Encode order = Ok bs /\
    (forall order', order' ≡ₚ order -> Raw.Encode order' = Ok bs) /\
    forall rest, Raw.Decode (Raw.New []) (bs ++ rest) = Ok (fv, rest)) /\
  (exists bs, Raw.EncodeBase32 order = Ok bs /\
    Z.of_nat (length bs) = Raw.SerializeSize32 order /\
    (forall n, 0 <= n -> (forall b, b ∈ fv -> b < n * 5) -> Z.of_nat (length bs) <= n) /\
    forall rest, Raw.DecodeBase32 (Raw.New []) (Z.of_nat (length bs)) (bs ++ rest) = Ok (fv, rest)).
Proof.
  intros Hwf Hord. split.
  - destruct (Encode_writes fv Hwf) as (data & Hw & Hl & Hd).
    exists (be_put 2 (u16 (Z.of_nat (length data))) ++ data).
    assert (forall o, o ≡ₚ order ->
      Raw.Encode o = Ok (be_put 2 (u16 (Z.of_nat (length data))) ++ data)) as He.
    { intros o Ho. specialize (Hw []). cbn in Hw.
      rewrite (RawFacts.Encode_perm o (elements fv)) by (by rewrite Ho).
      by destruct (Raw.Encode (elements fv)); inversion Hw; subst. }
    split; [by apply He|]. split; [done|]. intros rest.
    unfold Raw.Decode, Raw.decode, rbind.
    destruct (len_prefix (length data) (data ++ rest) Hl) as [E1 E2].
    rewrite <- app_assoc, E1, E2, ReadFull_app. unfold rret.
      change (Raw.New []) with (∅ : gset Z). by rewrite Hd.
  - destruct (RawFacts.decode_encode fv order 5) as (data & E & Hl & Hd); [lia|done|done|].
    exists data. split; [exact E|]. split; [exact Hl|]. split.
    + intros n Hn Hb. rewrite Hl. apply RawFacts.serializeSize_bound; [lia| |done].
      apply Forall_forall. intros b Hin. rewrite Hord, elem_of_elements in Hin.
      pose proof (Hwf b Hin). unfold in_u in *. specialize (Hb b Hin). lia.
    + intros rest. unfold Raw.DecodeBase32, Raw.decode, rbind. rewrite Nat2Z.id, ReadFull_app.
      unfold rret.
      change (Raw.New []) with (∅ : gset Z). by rewrite Hd.
Qed.

Lemma FeatureVector_roundtrip_witness :
  exists bs, Raw.Encode [9; 0; 30] = Ok bs /\
    (forall order', order' ≡ₚ [9; 0; 30] -> Raw.Encode order' = Ok bs) /\
    forall rest, Raw.Decode (Raw.New []) (bs ++ rest) = Ok ({[0; 9; 30]}, rest).
Proof.
  apply (FeatureVector_roundtrip ({[0; 9; 30]} : gset Z) [9; 0; 30]).
  - intros b Hb. apply elem_of_union in Hb as [[->%elem_of_singleton| ->%elem_of_singleton]%elem_of_union
      | ->%elem_of_singleton]; split; lia.
  - apply (bool_decide_unpack _). by vm_compute.
Defined.
