(* ===== verification/WireMessages.v ===== *)
(** * lnwire: the peer messages

    One module per message of lnwire, with the fields of the Go struct, its
    [Encode] and [Decode] methods (a decode starts from the zero value of the
    struct, as [makeEmptyMessage] creates it) and its type invariant [wf]: every
    field is in the range of its Go type and short enough for its length prefix.
    For each message [M], [M_rt] is the round trip, [M_decode_wf] says that a decoded
    message satisfies the invariant, and [M_canon] that encoding a decoded message
    restores the bytes. *)

From Stdlib Require Import ZArith Lia.
From S2P Require Import Prelude Wire Features.

Local Open Scope Z_scope.
Local Open Scope go_scope.

(** ** Automation *)

(** Round trip: peel one element off the encoder and the decoder at a time. *)
Ltac msg_rt :=
  cbn in *; intros; destruct_and?;
  repeat (eapply rt_end_seq; [apply codec_rt; done|]);
  first [ apply (rt_end_extra _ _)
        | apply rt_end_of_rt, (rt_last _ _ _ _), codec_rt; done
        | idtac ].

(** Invert the chain of reads, collecting the type invariant of each element. *)
Ltac msg_wf :=
  intros;
  repeat match goal with
  | H : rbind ReadExtraOpaqueData _ _ = Ok _ |- _ =>
      apply rbind_ok_inv in H as (? & ? & ? & H)
  | H : rbind _ _ _ = Ok _ |- _ =>
      apply rbind_ok_inv in H as (? & ? & ?%codec_wf & H)
  end;
  match goal with H : rret _ _ = Ok _ |- _ => inversion H; subst; cbn end;
  split_and?; done.

(** Invert the chain of reads, collecting the bytes each element came from. *)
Ltac msg_canon :=
  intros;
  repeat match goal with
  | H : rbind ReadExtraOpaqueData _ _ = Ok _ |- _ =>
      let H' := fresh in
      apply rbind_ok_inv in H as (? & ? & H' & H); inversion H'; subst; clear H'
  | H : rbind _ _ _ = Ok _ |- _ =>
      let H' := fresh in
      apply rbind_ok_inv in H as (? & ? & H' & H); apply codec_canon in H' as (? & ? & ->)
  end;
  match goal with H : rret _ _ = Ok _ |- _ => inversion H; subst; cbn end;
  eexists; split;
  [ repeat (apply writes_seq; [eassumption|]); first [eassumption|apply writes_bytes]
  | by rewrite ?app_nil_r, <- ?app_assoc ].

(** ** Message types (lnwire/message.go) *)

Definition MsgInit : Z := 1016.
Definition MsgError : Z := 1017.
Definition MsgPing : Z := 1018.
Definition MsgPong : Z := 1019.
Definition MsgOpenChannel : Z := 1032.
Definition MsgAcceptChannel : Z := 1033.
Definition MsgFundingCreated : Z := 1034.
Definition MsgFundingSigned : Z := 1035.
Definition MsgFundingLocked : Z := 1036.
Definition MsgShutdown : Z := 1038.
Definition MsgObShutdownSimpleSend : Z := 10381.
Definition MsgClosingSigned : Z := 1039.
Definition MsgObClosingSignedSimpleSend : Z := 10391.
Definition MsgUpdateAddHTLC : Z := 1128.
Definition MsgUpdateFulfillHTLC : Z := 1130.
Definition MsgUpdateFailHTLC : Z := 1131.
Definition MsgCommitSig : Z := 1132.
Definition MsgRevokeAndAck : Z := 1133.
Definition MsgUpdateFee : Z := 1134.
Definition MsgUpdateFailMalformedHTLC : Z := 1135.
Definition MsgChannelReestablish : Z := 1136.
Definition MsgChannelAnnouncement : Z := 1256.
Definition MsgNodeAnnouncement : Z := 1257.
Definition MsgChannelUpdate : Z := 1258.
Definition MsgAnnounceSignatures : Z := 1259.
Definition MsgQueryShortChanIDs : Z := 1261.
Definition MsgReplyShortChanIDsEnd : Z := 1262.
Definition MsgQueryChannelRange : Z := 1263.
Definition MsgReplyChannelRange : Z := 1264.
Definition MsgGossipTimestampRange : Z := 1265.

(** The size of a serialized onion packet (lnwire/update_add_htlc.go). *)
Definition OnionPacketSize : nat := 1366.

(** ** [Init] (lnwire/init_message.go) *)

Module Init.

Record t := mk {
  GlobalFeatures : option (gset Z);
  Features : option (gset Z);
  ExtraData : list byte;
}.

Definition MsgType : Z := MsgInit.

Definition Encode (c : t) : writer :=
  WriteRawFeatureVector (GlobalFeatures c) ;;>
  WriteRawFeatureVector (Features c) ;;>
  WriteBytes (ExtraData c).

Definition Decode : reader t :=
  globalFeatures' <-- ReadRawFeatureVector ;
  features' <-- ReadRawFeatureVector ;
  extraData' <-- ReadExtraOpaqueData ;
  rret {| GlobalFeatures := globalFeatures';
          Features := features';
          ExtraData := extraData' |}.

Definition wf (c : t) : Prop :=
  wf_features (GlobalFeatures c) /\
  wf_features (Features c).

Lemma Init_rt c : wf c -> rt_end (Encode c) Decode c.
Proof. unfold wf, Encode, Decode. destruct c. msg_rt. Qed.

Lemma Init_decode_wf bs c rest : Decode bs = Ok (c, rest) -> wf c.
Proof. unfold wf, Decode. msg_wf. Qed.

End Init.

(** ** [Error] (lnwire/error.go) *)

Module Error.

Record t := mk {
  ChanID : list byte;
  Data : list byte;
}.

Definition MsgType : Z := MsgError.

Definition Encode (c : t) : writer :=
  WriteBytes (ChanID c) ;;>
  WriteErrorData (Data c).

Definition Decode : reader t :=
  chanID' <-- ReadChannelID ;
  data' <-- ReadErrorData ;
  rret {| ChanID := chanID';
          Data := data' |}.

Definition wf (c : t) : Prop :=
  length (ChanID c) = 32%nat /\
  wf_var (Data c).

Lemma Error_rt c : wf c -> rt_end (Encode c) Decode c.
Proof. unfold wf, Encode, Decode. destruct c. msg_rt. Qed.

Lemma Error_decode_wf bs c rest : Decode bs = Ok (c, rest) -> wf c.
Proof. unfold wf, Decode. msg_wf. Qed.

Lemma Error_canon bs c rest :
  Decode bs = Ok (c, rest) -> exists bs0, writes (Encode c) bs0 /\ bs = bs0 ++ rest.
Proof. unfold Encode, Decode. msg_canon. Qed.

End Error.

(** ** [Pong] (lnwire/pong.go) *)

Module Pong.

Record t := mk {
  PongBytes : list byte;
}.

Definition MsgType : Z := MsgPong.

Definition Encode (c : t) : writer :=
  WritePongPayload (PongBytes c).

Definition Decode : reader t :=
  pongBytes' <-- ReadPongPayload ;
  rret {| PongBytes := pongBytes' |}.

Definition wf (c : t) : Prop :=
  wf_var (PongBytes c).

Lemma Pong_rt c : wf c -> rt_end (Encode c) Decode c.
Proof. unfold wf, Encode, Decode. destruct c. msg_rt. Qed.

Lemma Pong_decode_wf bs c rest : Decode bs = Ok (c, rest) -> wf c.
Proof. unfold wf, Decode. msg_wf. Qed.

Lemma Pong_canon bs c rest :
  Decode bs = Ok (c, rest) -> exists bs0, writes (Encode c) bs0 /\ bs = bs0 ++ rest.
Proof. unfold Encode, Decode. msg_canon. Qed.

End Pong.

(** ** [FundingCreated] (lnwire/funding_created.go) *)

Module FundingCreated.

Record t := mk {
  PendingChannelID : list byte;
  FundingPoint : OutPoint;
  CommitSig : list byte;
  ExtraData : list byte;
}.

Definition MsgType : Z := MsgFundingCreated.

Definition Encode (c : t) : writer :=
  WriteBytes (PendingChannelID c) ;;>
  WriteOutPoint (FundingPoint c) ;;>
  WriteSig (CommitSig c) ;;>
  WriteBytes (ExtraData c).

Definition Decode : reader t :=
  pendingChannelID' <-- ReadFull 32 ;
  fundingPoint' <-- ReadOutPoint ;
  commitSig' <-- ReadSig ;
  extraData' <-- ReadExtraOpaqueData ;
  rret {| PendingChannelID := pendingChannelID';
          FundingPoint := fundingPoint';
          CommitSig := commitSig';
          ExtraData := extraData' |}.

Definition wf (c : t) : Prop :=
  length (PendingChannelID c) = 32%nat /\
  wf_outpoint (FundingPoint c) /\
  length (CommitSig c) = 64%nat.

Lemma FundingCreated_rt c : wf c -> rt_end (Encode c) Decode c.
Proof. unfold wf, Encode, Decode. destruct c. msg_rt. Qed.

Lemma FundingCreated_decode_wf bs c rest : Decode bs = Ok (c, rest) -> wf c.
Proof. unfold wf, Decode. msg_wf. Qed.

Lemma FundingCreated_canon bs c rest :
  Decode bs = Ok (c, rest) -> exists bs0, writes (Encode c) bs0 /\ bs = bs0 ++ rest.
Proof. unfold Encode, Decode. msg_canon. Qed.

End FundingCreated.

(** ** [FundingSigned] (lnwire/funding_signed.go) *)

Module FundingSigned.

Record t := mk {
  ChanID : list byte;
  CommitSig : list byte;
  ExtraData : list byte;
}.

Definition MsgType : Z := MsgFundingSigned.

Definition Encode (c : t) : writer :=
  WriteChannelID (ChanID c) ;;>
  WriteSig (CommitSig c) ;;>
  WriteBytes (ExtraData c).

Definition Decode : reader t :=
  chanID' <-- ReadChannelID ;
  commitSig' <-- ReadSig ;
  extraData' <-- ReadExtraOpaqueData ;
  rret {| ChanID := chanID';
          CommitSig := commitSig';
          ExtraData := extraData' |}.

Definition wf (c : t) : Prop :=
  length (ChanID c) = 32%nat /\
  length (CommitSig c) = 64%nat.

Lemma FundingSigned_rt c : wf c -> rt_end (Encode c) Decode c.
Proof. unfold wf, Encode, Decode. destruct c. msg_rt. Qed.

Lemma FundingSigned_decode_wf bs c rest : Decode bs = Ok (c, rest) -> wf c.
Proof. unfold wf, Decode. msg_wf. Qed.

Lemma FundingSigned_canon bs c rest :
  Decode bs = Ok (c, rest) -> exists bs0, writes (Encode c) bs0 /\ bs = bs0 ++ rest.
Proof. unfold Encode, Decode. msg_canon. Qed.

End FundingSigned.

(** ** [FundingLocked] (lnwire/funding_locked.go) *)

Module FundingLocked.

Section with_keys.
Context {BT : Btcec} {BL : BtcecLaws}.

Record t := mk {
  ChanID : list byte;
  NextPerCommitmentPoint : option pubkey;
  ExtraData : list byte;
}.

Definition MsgType : Z := MsgFundingLocked.

Definition Encode (c : t) : writer :=
  WriteChannelID (ChanID c) ;;>
  WritePublicKey (NextPerCommitmentPoint c) ;;>
  WriteBytes (ExtraData c).

Definition Decode : reader t :=
  chanID' <-- ReadChannelID ;
  nextPerCommitmentPoint' <-- ReadPublicKey ;
  extraData' <-- ReadExtraOpaqueData ;
  rret {| ChanID := chanID';
          NextPerCommitmentPoint := nextPerCommitmentPoint';
          ExtraData := extraData' |}.

Definition wf (c : t) : Prop :=
  length (ChanID c) = 32%nat /\
  is_Some (NextPerCommitmentPoint c).

Lemma FundingLocked_rt c : wf c -> rt_end (Encode c) Decode c.
Proof. unfold wf, Encode, Decode. destruct c. msg_rt. Qed.

Lemma FundingLocked_decode_wf bs c rest : Decode bs = Ok (c, rest) -> wf c.
Proof. unfold wf, Decode. msg_wf. Qed.

Lemma FundingLocked_canon bs c rest :
  Decode bs = Ok (c, rest) -> exists bs0, writes (Encode c) bs0 /\ bs = bs0 ++ rest.
Proof. unfold Encode, Decode. msg_canon. Qed.

End with_keys.
#[global] Arguments t : clear implicits.
#[global] Arguments t {BT}.
End FundingLocked.

(** ** [Shutdown] (lnwire/shutdown.go) *)

Module Shutdown.

Record t := mk {
  ChannelID : list byte;
  Address : list byte;
  ExtraData : list byte;
}.

Definition MsgType : Z := MsgShutdown.

Definition Encode (c : t) : writer :=
  WriteChannelID (ChannelID c) ;;>
  WriteDeliveryAddress (Address c) ;;>
  WriteBytes (ExtraData c).

Definition Decode : reader t :=
  channelID' <-- ReadChannelID ;
  address' <-- ReadDeliveryAddress ;
  extraData' <-- ReadExtraOpaqueData ;
  rret {| ChannelID := channelID';
          Address := address';
          ExtraData := extraData' |}.

Definition wf (c : t) : Prop :=
  length (ChannelID c) = 32%nat /\
  wf_delivery (Address c).

Lemma Shutdown_rt c : wf c -> rt_end (Encode c) Decode c.
Proof. unfold wf, Encode, Decode. destruct c. msg_rt. Qed.

Lemma Shutdown_decode_wf bs c rest : Decode bs = Ok (c, rest) -> wf c.
Proof. unfold wf, Decode. msg_wf. Qed.

Lemma Shutdown_canon bs c rest :
  Decode bs = Ok (c, rest) -> exists bs0, writes (Encode c) bs0 /\ bs = bs0 ++ rest.
Proof. unfold Encode, Decode. msg_canon. Qed.

End Shutdown.

(** ** [ObShutdownSimpleSend] (lnwire/shutdown_ob_simple_send.go) *)

Module ObShutdownSimpleSend.

Record t := mk {
  ChannelID : list byte;
  Address : list byte;
  ExtraData : list byte;
}.

Definition MsgType : Z := MsgObShutdownSimpleSend.

Definition Encode (c : t) : writer :=
  WriteChannelID (ChannelID c) ;;>
  WriteDeliveryAddress (Address c) ;;>
  WriteBytes (ExtraData c).

Definition Decode : reader t :=
  channelID' <-- ReadChannelID ;
  address' <-- ReadDeliveryAddress ;
  extraData' <-- ReadExtraOpaqueData ;
  rret {| ChannelID := channelID';
          Address := address';
          ExtraData := extraData' |}.

Definition wf (c : t) : Prop :=
  length (ChannelID c) = 32%nat /\
  wf_delivery (Address c).

Lemma ObShutdownSimpleSend_rt c : wf c -> rt_end (Encode c) Decode c.
Proof. unfold wf, Encode, Decode. destruct c. msg_rt. Qed.

Lemma ObShutdownSimpleSend_decode_wf bs c rest : Decode bs = Ok (c, rest) -> wf c.
Proof. unfold wf, Decode. msg_wf. Qed.

Lemma ObShutdownSimpleSend_canon bs c rest :
  Decode bs = Ok (c, rest) -> exists bs0, writes (Encode c) bs0 /\ bs = bs0 ++ rest.
Proof. unfold Encode, Decode. msg_canon. Qed.

End ObShutdownSimpleSend.

(** ** [ClosingSigned] (lnwire/closing_signed.go) *)

Module ClosingSigned.

Record t := mk {
  ChannelID : list byte;
  FeeSatoshis : Z;
  Signature : list byte;
  ExtraData : list byte;
}.

Definition MsgType : Z := MsgClosingSigned.

Definition Encode (c : t) : writer :=
  WriteChannelID (ChannelID c) ;;>
  WriteSatoshi (FeeSatoshis c) ;;>
  WriteSig (Signature c) ;;>
  WriteBytes (ExtraData c).

Definition Decode : reader t :=
  channelID' <-- ReadChannelID ;
  feeSatoshis' <-- ReadSatoshi ;
  signature' <-- ReadSig ;
  extraData' <-- ReadExtraOpaqueData ;
  rret {| ChannelID := channelID';
          FeeSatoshis := feeSatoshis';
          Signature := signature';
          ExtraData := extraData' |}.

Definition wf (c : t) : Prop :=
  length (ChannelID c) = 32%nat /\
  in_i64 (FeeSatoshis c) /\
  length (Signature c) = 64%nat.

Lemma ClosingSigned_rt c : wf c -> rt_end (Encode c) Decode c.
Proof. unfold wf, Encode, Decode. destruct c. msg_rt. Qed.

Lemma ClosingSigned_decode_wf bs c rest : Decode bs = Ok (c, rest) -> wf c.
Proof. unfold wf, Decode. msg_wf. Qed.

Lemma ClosingSigned_canon bs c rest :
  Decode bs = Ok (c, rest) -> exists bs0, writes (Encode c) bs0 /\ bs = bs0 ++ rest.
Proof. unfold Encode, Decode. msg_canon. Qed.

End ClosingSigned.

(** ** [ObClosingSignedSimpleSend] (lnwire/closing_signed_ob_simple_send.go) *)

Module ObClosingSignedSimpleSend.

Record t := mk {
  ChannelID : list byte;
  FeeSatoshis : Z;
  Signatures : list (list byte);
  SigEnd : bool;
  ExtraData : list byte;
}.

Definition MsgType : Z := MsgObClosingSignedSimpleSend.

Definition Encode (c : t) : writer :=
  WriteChannelID (ChannelID c) ;;>
  WriteSatoshi (FeeSatoshis c) ;;>
  WriteSigs (Signatures c) ;;>
  WriteBool (SigEnd c) ;;>
  WriteBytes (ExtraData c).

Definition Decode : reader t :=
  channelID' <-- ReadChannelID ;
  feeSatoshis' <-- ReadSatoshi ;
  signatures' <-- ReadSigs ;
  sigEnd' <-- ReadBool ;
  extraData' <-- ReadExtraOpaqueData ;
  rret {| ChannelID := channelID';
          FeeSatoshis := feeSatoshis';
          Signatures := signatures';
          SigEnd := sigEnd';
          ExtraData := extraData' |}.

Definition wf (c : t) : Prop :=
  length (ChannelID c) = 32%nat /\
  in_i64 (FeeSatoshis c) /\
  wf_sigs (Signatures c).

Lemma ObClosingSignedSimpleSend_rt c : wf c -> rt_end (Encode c) Decode c.
Proof. unfold wf, Encode, Decode. destruct c. msg_rt. Qed.

Lemma ObClosingSignedSimpleSend_decode_wf bs c rest : Decode bs = Ok (c, rest) -> wf c.
Proof. unfold wf, Decode. msg_wf. Qed.

End ObClosingSignedSimpleSend.

(** ** [UpdateAddHTLC] (lnwire/update_add_htlc.go) *)

Module UpdateAddHTLC.

Record t := mk {
  ChanID : list byte;
  ID : Z;
  AssetID : Z;
  Amount : Z;
  PaymentHash : list byte;
  Expiry : Z;
  OnionBlob : list byte;
  ExtraData : list byte;
}.

Definition MsgType : Z := MsgUpdateAddHTLC.

Definition Encode (c : t) : writer :=
  WriteChannelID (ChanID c) ;;>
  WriteUint64 (ID c) ;;>
  WriteUint32 (AssetID c) ;;>
  WriteUint64 (Amount c) ;;>
  WriteBytes (PaymentHash c) ;;>
  WriteUint32 (Expiry c) ;;>
  WriteBytes (OnionBlob c) ;;>
  WriteBytes (ExtraData c).

Definition Decode : reader t :=
  chanID' <-- ReadChannelID ;
  id' <-- ReadUint64 ;
  assetID' <-- ReadUint32 ;
  amount' <-- ReadUnitPrec11 ;
  paymentHash' <-- ReadFull 32 ;
  expiry' <-- ReadUint32 ;
  onionBlob' <-- ReadFull OnionPacketSize ;
  extraData' <-- ReadExtraOpaqueData ;
  rret {| ChanID := chanID';
          ID := id';
          AssetID := assetID';
          Amount := amount';
          PaymentHash := paymentHash';
          Expiry := expiry';
          OnionBlob := onionBlob';
          ExtraData := extraData' |}.

Definition wf (c : t) : Prop :=
  length (ChanID c) = 32%nat /\
  in_u 64 (ID c) /\
  in_u 32 (AssetID c) /\
  in_u 64 (Amount c) /\
  length (PaymentHash c) = 32%nat /\
  in_u 32 (Expiry c) /\
  length (OnionBlob c) = OnionPacketSize.

Lemma UpdateAddHTLC_rt c : wf c -> rt_end (Encode c) Decode c.
Proof. unfold wf, Encode, Decode. destruct c. msg_rt. Qed.

Lemma UpdateAddHTLC_decode_wf bs c rest : Decode bs = Ok (c, rest) -> wf c.
Proof. unfold wf, Decode. msg_wf. Qed.

Lemma UpdateAddHTLC_canon bs c rest :
  Decode bs = Ok (c, rest) -> exists bs0, writes (Encode c) bs0 /\ bs = bs0 ++ rest.
Proof. unfold Encode, Decode. msg_canon. Qed.

End UpdateAddHTLC.

(** ** [UpdateFulfillHTLC] (lnwire/update_fulfill_htlc.go) *)

Module UpdateFulfillHTLC.

Record t := mk {
  ChanID : list byte;
  ID : Z;
  PaymentPreimage : list byte;
  ExtraData : list byte;
}.

Definition MsgType : Z := MsgUpdateFulfillHTLC.

Definition Encode (c : t) : writer :=
  WriteChannelID (ChanID c) ;;>
  WriteUint64 (ID c) ;;>
  WriteBytes (PaymentPreimage c) ;;>
  WriteBytes (ExtraData c).

Definition Decode : reader t :=
  chanID' <-- ReadChannelID ;
  id' <-- ReadUint64 ;
  paymentPreimage' <-- ReadFull 32 ;
  extraData' <-- ReadExtraOpaqueData ;
  rret {| ChanID := chanID';
          ID := id';
          PaymentPreimage := paymentPreimage';
          ExtraData := extraData' |}.

Definition wf (c : t) : Prop :=
  length (ChanID c) = 32%nat /\
  in_u 64 (ID c) /\
  length (PaymentPreimage c) = 32%nat.

Lemma UpdateFulfillHTLC_rt c : wf c -> rt_end (Encode c) Decode c.
Proof. unfold wf, Encode, Decode. destruct c. msg_rt. Qed.

Lemma UpdateFulfillHTLC_decode_wf bs c rest : Decode bs = Ok (c, rest) -> wf c.
Proof. unfold wf, Decode. msg_wf. Qed.

Lemma UpdateFulfillHTLC_canon bs c rest :
  Decode bs = Ok (c, rest) -> exists bs0, writes (Encode c) bs0 /\ bs = bs0 ++ rest.
Proof. unfold Encode, Decode. msg_canon. Qed.

End UpdateFulfillHTLC.

(** ** [UpdateFailHTLC] (lnwire/update_fail_htlc.go) *)

Module UpdateFailHTLC.

Record t := mk {
  ChanID : list byte;
  ID : Z;
  Reason : list byte;
  ExtraData : list byte;
}.

Definition MsgType : Z := MsgUpdateFailHTLC.

Definition Encode (c : t) : writer :=
  WriteChannelID (ChanID c) ;;>
  WriteUint64 (ID c) ;;>
  WriteOpaqueReason (Reason c) ;;>
  WriteBytes (ExtraData c).

Definition Decode : reader t :=
  chanID' <-- ReadChannelID ;
  id' <-- ReadUint64 ;
  reason' <-- ReadOpaqueReason ;
  extraData' <-- ReadExtraOpaqueData ;
  rret {| ChanID := chanID';
          ID := id';
          Reason := reason';
          ExtraData := extraData' |}.

Definition wf (c : t) : Prop :=
  length (ChanID c) = 32%nat /\
  in_u 64 (ID c) /\
  wf_var (Reason c).

Lemma UpdateFailHTLC_rt c : wf c -> rt_end (Encode c) Decode c.
Proof. unfold wf, Encode, Decode. destruct c. msg_rt. Qed.

Lemma UpdateFailHTLC_decode_wf bs c rest : Decode bs = Ok (c, rest) -> wf c.
Proof. unfold wf, Decode. msg_wf. Qed.

Lemma UpdateFailHTLC_canon bs c rest :
  Decode bs = Ok (c, rest) -> exists bs0, writes (Encode c) bs0 /\ bs = bs0 ++ rest.
Proof. unfold Encode, Decode. msg_canon. Qed.

End UpdateFailHTLC.

(** ** [CommitSig] (lnwire/commit_sig.go) *)

Module CommitSig.

Record t := mk {
  ChanID : list byte;
  CommitSig_ : list byte;
  HtlcSigs : list (list byte);
  ExtraData : list byte;
}.

Definition MsgType : Z := MsgCommitSig.

Definition Encode (c : t) : writer :=
  WriteChannelID (ChanID c) ;;>
  WriteSig (CommitSig_ c) ;;>
  WriteSigs (HtlcSigs c) ;;>
  WriteBytes (ExtraData c).

Definition Decode : reader t :=
  chanID' <-- ReadChannelID ;
  commitSig' <-- ReadSig ;
  htlcSigs' <-- ReadSigs ;
  extraData' <-- ReadExtraOpaqueData ;
  rret {| ChanID := chanID';
          CommitSig_ := commitSig';
          HtlcSigs := htlcSigs';
          ExtraData := extraData' |}.

Definition wf (c : t) : Prop :=
  length (ChanID c) = 32%nat /\
  length (CommitSig_ c) = 64%nat /\
  wf_sigs (HtlcSigs c).

Lemma CommitSig_rt c : wf c -> rt_end (Encode c) Decode c.
Proof. unfold wf, Encode, Decode. destruct c. msg_rt. Qed.

Lemma CommitSig_decode_wf bs c rest : Decode bs = Ok (c, rest) -> wf c.
Proof. unfold wf, Decode. msg_wf. Qed.

Lemma CommitSig_canon bs c rest :
  Decode bs = Ok (c, rest) -> exists bs0, writes (Encode c) bs0 /\ bs = bs0 ++ rest.
Proof. unfold Encode, Decode. msg_canon. Qed.

End CommitSig.

(** ** [RevokeAndAck] (lnwire/revoke_and_ack.go) *)

Module RevokeAndAck.

Section with_keys.
Context {BT : Btcec} {BL : BtcecLaws}.

Record t := mk {
  ChanID : list byte;
  Revocation : list byte;
  NextRevocationKey : option pubkey;
  ExtraData : list byte;
}.

Definition MsgType : Z := MsgRevokeAndAck.

Definition Encode (c : t) : writer :=
  WriteChannelID (ChanID c) ;;>
  WriteBytes (Revocation c) ;;>
  WritePublicKey (NextRevocationKey c) ;;>
  WriteBytes (ExtraData c).

Definition Decode : reader t :=
  chanID' <-- ReadChannelID ;
  revocation' <-- ReadFull 32 ;
  nextRevocationKey' <-- ReadPublicKey ;
  extraData' <-- ReadExtraOpaqueData ;
  rret {| ChanID := chanID';
          Revocation := revocation';
          NextRevocationKey := nextRevocationKey';
          ExtraData := extraData' |}.

Definition wf (c : t) : Prop :=
  length (ChanID c) = 32%nat /\
  length (Revocation c) = 32%nat /\
  is_Some (NextRevocationKey c).

Lemma RevokeAndAck_rt c : wf c -> rt_end (Encode c) Decode c.
Proof. unfold wf, Encode, Decode. destruct c. msg_rt. Qed.

Lemma RevokeAndAck_decode_wf bs c rest : Decode bs = Ok (c, rest) -> wf c.
Proof. unfold wf, Decode. msg_wf. Qed.

Lemma RevokeAndAck_canon bs c rest :
  Decode bs = Ok (c, rest) -> exists bs0, writes (Encode c) bs0 /\ bs = bs0 ++ rest.
Proof. unfold Encode, Decode. msg_canon. Qed.

End with_keys.
#[global] Arguments t : clear implicits.
#[global] Arguments t {BT}.
End RevokeAndAck.

(** ** [UpdateFailMalformedHTLC] (lnwire/update_fail_malformed_htlc.go) *)

Module UpdateFailMalformedHTLC.

Record t := mk {
  ChanID : list byte;
  ID : Z;
  ShaOnionBlob : list byte;
  FailureCode : Z;
  ExtraData : list byte;
}.

Definition MsgType : Z := MsgUpdateFailMalformedHTLC.

Definition Encode (c : t) : writer :=
  WriteChannelID (ChanID c) ;;>
  WriteUint64 (ID c) ;;>
  WriteBytes (ShaOnionBlob c) ;;>
  WriteFailCode (FailureCode c) ;;>
  WriteBytes (ExtraData c).

Definition Decode : reader t :=
  chanID' <-- ReadChannelID ;
  id' <-- ReadUint64 ;
  shaOnionBlob' <-- ReadFull 32 ;
  failureCode' <-- ReadFailCode ;
  extraData' <-- ReadExtraOpaqueData ;
  rret {| ChanID := chanID';
          ID := id';
          ShaOnionBlob := shaOnionBlob';
          FailureCode := failureCode';
          ExtraData := extraData' |}.

Definition wf (c : t) : Prop :=
  length (ChanID c) = 32%nat /\
  in_u 64 (ID c) /\
  length (ShaOnionBlob c) = 32%nat /\
  in_u 16 (FailureCode c).

Lemma UpdateFailMalformedHTLC_rt c : wf c -> rt_end (Encode c) Decode c.
Proof. unfold wf, Encode, Decode. destruct c. msg_rt. Qed.

Lemma UpdateFailMalformedHTLC_decode_wf bs c rest : Decode bs = Ok (c, rest) -> wf c.
Proof. unfold wf, Decode. msg_wf. Qed.

Lemma UpdateFailMalformedHTLC_canon bs c rest :
  Decode bs = Ok (c, rest) -> exists bs0, writes (Encode c) bs0 /\ bs = bs0 ++ rest.
Proof. unfold Encode, Decode. msg_canon. Qed.

End UpdateFailMalformedHTLC.

(** ** [ChannelAnnouncement] (lnwire/channel_announcement.go) *)

Module ChannelAnnouncement.

Record t := mk {
  NodeSig1 : list byte;
  NodeSig2 : list byte;
  BitcoinSig1 : list byte;
  BitcoinSig2 : list byte;
  Features : option (gset Z);
  ChainHash : list byte;
  ShortChannelID_ : ShortChannelID;
  AssetID : Z;
  NodeID1 : list byte;
  NodeID2 : list byte;
  BitcoinKey1 : list byte;
  BitcoinKey2 : list byte;
  ExtraOpaqueData : list byte;
}.

Definition MsgType : Z := MsgChannelAnnouncement.

Definition Encode (c : t) : writer :=
  WriteSig (NodeSig1 c) ;;>
  WriteSig (NodeSig2 c) ;;>
  WriteSig (BitcoinSig1 c) ;;>
  WriteSig (BitcoinSig2 c) ;;>
  WriteRawFeatureVector (Features c) ;;>
  WriteBytes (ChainHash c) ;;>
  WriteShortChannelID (ShortChannelID_ c) ;;>
  WriteUint32 (AssetID c) ;;>
  WriteBytes (NodeID1 c) ;;>
  WriteBytes (NodeID2 c) ;;>
  WriteBytes (BitcoinKey1 c) ;;>
  WriteBytes (BitcoinKey2 c) ;;>
  WriteBytes (ExtraOpaqueData c).

Definition Decode : reader t :=
  nodeSig1' <-- ReadSig ;
  nodeSig2' <-- ReadSig ;
  bitcoinSig1' <-- ReadSig ;
  bitcoinSig2' <-- ReadSig ;
  features' <-- ReadRawFeatureVector ;
  chainHash' <-- ReadFull 32 ;
  shortChannelID' <-- ReadShortChannelID ;
  assetID' <-- ReadUint32 ;
  nodeID1' <-- ReadArray33 ;
  nodeID2' <-- ReadArray33 ;
  bitcoinKey1' <-- ReadArray33 ;
  bitcoinKey2' <-- ReadArray33 ;
  extraOpaqueData' <-- ReadExtraOpaqueData ;
  rret {| NodeSig1 := nodeSig1';
          NodeSig2 := nodeSig2';
          BitcoinSig1 := bitcoinSig1';
          BitcoinSig2 := bitcoinSig2';
          Features := features';
          ChainHash := chainHash';
          ShortChannelID_ := shortChannelID';
          AssetID := assetID';
          NodeID1 := nodeID1';
          NodeID2 := nodeID2';
          BitcoinKey1 := bitcoinKey1';
          BitcoinKey2 := bitcoinKey2';
          ExtraOpaqueData := extraOpaqueData' |}.

Definition wf (c : t) : Prop :=
  length (NodeSig1 c) = 64%nat /\
  length (NodeSig2 c) = 64%nat /\
  length (BitcoinSig1 c) = 64%nat /\
  length (BitcoinSig2 c) = 64%nat /\
  wf_features (Features c) /\
  length (ChainHash c) = 32%nat /\
  wf_scid (ShortChannelID_ c) /\
  in_u 32 (AssetID c) /\
  length (NodeID1 c) = 33%nat /\
  length (NodeID2 c) = 33%nat /\
  length (BitcoinKey1 c) = 33%nat /\
  length (BitcoinKey2 c) = 33%nat.

Lemma ChannelAnnouncement_rt c : wf c -> rt_end (Encode c) Decode c.
Proof. unfold wf, Encode, Decode. destruct c. msg_rt. Qed.

Lemma ChannelAnnouncement_decode_wf bs c rest : Decode bs = Ok (c, rest) -> wf c.
Proof. unfold wf, Decode. msg_wf. Qed.

End ChannelAnnouncement.

(** ** [AnnounceSignatures] (lnwire/announcement_signatures.go) *)

Module AnnounceSignatures.

Record t := mk {
  ChannelID : list byte;
  ShortChannelID_ : ShortChannelID;
  NodeSignature : list byte;
  BitcoinSignature : list byte;
  ExtraOpaqueData : list byte;
}.

Definition MsgType : Z := MsgAnnounceSignatures.

Definition Encode (c : t) : writer :=
  WriteChannelID (ChannelID c) ;;>
  WriteShortChannelID (ShortChannelID_ c) ;;>
  WriteSig (NodeSignature c) ;;>
  WriteSig (BitcoinSignature c) ;;>
  WriteBytes (ExtraOpaqueData c).

Definition Decode : reader t :=
  channelID' <-- ReadChannelID ;
  shortChannelID' <-- ReadShortChannelID ;
  nodeSignature' <-- ReadSig ;
  bitcoinSignature' <-- ReadSig ;
  extraOpaqueData' <-- ReadExtraOpaqueData ;
  rret {| ChannelID := channelID';
          ShortChannelID_ := shortChannelID';
          NodeSignature := nodeSignature';
          BitcoinSignature := bitcoinSignature';
          ExtraOpaqueData := extraOpaqueData' |}.

Definition wf (c : t) : Prop :=
  length (ChannelID c) = 32%nat /\
  wf_scid (ShortChannelID_ c) /\
  length (NodeSignature c) = 64%nat /\
  length (BitcoinSignature c) = 64%nat.

Lemma AnnounceSignatures_rt c : wf c -> rt_end (Encode c) Decode c.
Proof. unfold wf, Encode, Decode. destruct c. msg_rt. Qed.

Lemma AnnounceSignatures_decode_wf bs c rest : Decode bs = Ok (c, rest) -> wf c.
Proof. unfold wf, Decode. msg_wf. Qed.

Lemma AnnounceSignatures_canon bs c rest :
  Decode bs = Ok (c, rest) -> exists bs0, writes (Encode c) bs0 /\ bs = bs0 ++ rest.
Proof. unfold Encode, Decode. msg_canon. Qed.

End AnnounceSignatures.

(** ** [ReplyShortChanIDsEnd] (lnwire/reply_short_chan_ids_end.go) *)

Module ReplyShortChanIDsEnd.

Record t := mk {
  ChainHash : list byte;
  Complete : Z;
  ExtraData : list byte;
}.

Definition MsgType : Z := MsgReplyShortChanIDsEnd.

Definition Encode (c : t) : writer :=
  WriteBytes (ChainHash c) ;;>
  WriteUint8 (Complete c) ;;>
  WriteBytes (ExtraData c).

Definition Decode : reader t :=
  chainHash' <-- ReadFull 32 ;
  complete' <-- ReadUint8 ;
  extraData' <-- ReadExtraOpaqueData ;
  rret {| ChainHash := chainHash';
          Complete := complete';
          ExtraData := extraData' |}.

Definition wf (c : t) : Prop :=
  length (ChainHash c) = 32%nat /\
  in_u 8 (Complete c).

Lemma ReplyShortChanIDsEnd_rt c : wf c -> rt_end (Encode c) Decode c.
Proof. unfold wf, Encode, Decode. destruct c. msg_rt. Qed.

Lemma ReplyShortChanIDsEnd_decode_wf bs c rest : Decode bs = Ok (c, rest) -> wf c.
Proof. unfold wf, Decode. msg_wf. Qed.

Lemma ReplyShortChanIDsEnd_canon bs c rest :
  Decode bs = Ok (c, rest) -> exists bs0, writes (Encode c) bs0 /\ bs = bs0 ++ rest.
Proof. unfold Encode, Decode. msg_canon. Qed.

End ReplyShortChanIDsEnd.

(** ** [QueryChannelRange] (lnwire/query_channel_range.go) *)

Module QueryChannelRange.

Record t := mk {
  ChainHash : list byte;
  FirstBlockHeight : Z;
  NumBlocks : Z;
  ExtraData : list byte;
}.

Definition MsgType : Z := MsgQueryChannelRange.

Definition Encode (c : t) : writer :=
  WriteBytes (ChainHash c) ;;>
  WriteUint32 (FirstBlockHeight c) ;;>
  WriteUint32 (NumBlocks c) ;;>
  WriteBytes (ExtraData c).

Definition Decode : reader t :=
  chainHash' <-- ReadFull 32 ;
  firstBlockHeight' <-- ReadUint32 ;
  numBlocks' <-- ReadUint32 ;
  extraData' <-- ReadExtraOpaqueData ;
  rret {| ChainHash := chainHash';
          FirstBlockHeight := firstBlockHeight';
          NumBlocks := numBlocks';
          ExtraData := extraData' |}.

Definition wf (c : t) : Prop :=
  length (ChainHash c) = 32%nat /\
  in_u 32 (FirstBlockHeight c) /\
  in_u 32 (NumBlocks c).

Lemma QueryChannelRange_rt c : wf c -> rt_end (Encode c) Decode c.
Proof. unfold wf, Encode, Decode. destruct c. msg_rt. Qed.

Lemma QueryChannelRange_decode_wf bs c rest : Decode bs = Ok (c, rest) -> wf c.
Proof. unfold wf, Decode. msg_wf. Qed.

Lemma QueryChannelRange_canon bs c rest :
  Decode bs = Ok (c, rest) -> exists bs0, writes (Encode c) bs0 /\ bs = bs0 ++ rest.
Proof. unfold Encode, Decode. msg_canon. Qed.

End QueryChannelRange.

(** ** [GossipTimestampRange] (lnwire/gossip_timestamp_range.go) *)

Module GossipTimestampRange.

Record t := mk {
  ChainHash : list byte;
  FirstTimestamp : Z;
  TimestampRange : Z;
  ExtraData : list byte;
}.

Definition MsgType : Z := MsgGossipTimestampRange.

Definition Encode (c : t) : writer :=
  WriteBytes (ChainHash c) ;;>
  WriteUint32 (FirstTimestamp c) ;;>
  WriteUint32 (TimestampRange c) ;;>
  WriteBytes (ExtraData c).

Definition Decode : reader t :=
  chainHash' <-- ReadFull 32 ;
  firstTimestamp' <-- ReadUint32 ;
  timestampRange' <-- ReadUint32 ;
  extraData' <-- ReadExtraOpaqueData ;
  rret {| ChainHash := chainHash';
          FirstTimestamp := firstTimestamp';
          TimestampRange := timestampRange';
          ExtraData := extraData' |}.

Definition wf (c : t) : Prop :=
  length (ChainHash c) = 32%nat /\
  in_u 32 (FirstTimestamp c) /\
  in_u 32 (TimestampRange c).

Lemma GossipTimestampRange_rt c : wf c -> rt_end (Encode c) Decode c.
Proof. unfold wf, Encode, Decode. destruct c. msg_rt. Qed.

Lemma GossipTimestampRange_decode_wf bs c rest : Decode bs = Ok (c, rest) -> wf c.
Proof. unfold wf, Decode. msg_wf. Qed.

Lemma GossipTimestampRange_canon bs c rest :
  Decode bs = Ok (c, rest) -> exists bs0, writes (Encode c) bs0 /\ bs = bs0 ++ rest.
Proof. unfold Encode, Decode. msg_canon. Qed.

End GossipTimestampRange.

(** ** [Ping] (lnwire/ping.go, lnwire/pong.go) *)

Module Ping.

Definition MaxPongBytes : Z := 65531.

Record t := mk {
  NumPongBytes : Z;
  PaddingBytes : list byte;
}.

Definition MsgType : Z := MsgPing.

Definition Encode (p : t) : writer :=
  WriteUint16 (NumPongBytes p) ;;>
  WritePingPayload (PaddingBytes p).

Definition Decode : reader t :=
  numPongBytes' <-- ReadUint16 ;
  paddingBytes' <-- ReadPingPayload ;
  if bool_decide (numPongBytes' > MaxPongBytes) then rerr ErrMaxPongBytesExceeded
  else rret {| NumPongBytes := numPongBytes'; PaddingBytes := paddingBytes' |}.

Definition wf (p : t) : Prop :=
  in_u 16 (NumPongBytes p) /\ NumPongBytes p <= MaxPongBytes /\ wf_var (PaddingBytes p).

Lemma Ping_rt p : wf p -> rt_end (Encode p) Decode p.
Proof.
  unfold wf, Encode, Decode. destruct p as [n pad]; cbn. intros (Hn & Hmax & Hpad).
  eapply rt_end_seq; [by apply codec_rt|]. rewrite bool_decide_eq_false_2 by lia.
  by apply rt_end_of_rt, (rt_last _ ReadPingPayload pad), codec_rt.
Qed.

Lemma Ping_decode_wf bs p rest : Decode bs = Ok (p, rest) -> wf p.
Proof.
  unfold wf, Decode. intros H.
  do 2 apply rbind_ok_inv in H as (? & ? & ?%codec_wf & H).
  case_bool_decide; inversion H; subst; cbn. split_and!; [done|lia|done].
Qed.

Lemma Ping_canon bs p rest :
  Decode bs = Ok (p, rest) -> exists bs0, writes (Encode p) bs0 /\ bs = bs0 ++ rest.
Proof.
  unfold Encode, Decode. intros H.
  apply rbind_ok_inv in H as (? & ? & H1 & H). apply codec_canon in H1 as (? & ? & ->).
  apply rbind_ok_inv in H as (? & ? & H1 & H). apply codec_canon in H1 as (? & ? & ->).
  case_bool_decide; inversion H; subst; cbn.
  eexists. split; [by apply writes_seq|by rewrite <- app_assoc].
Qed.

End Ping.

(** ** [UpdateFee] (lnwire/update_fee.go)

    The asset id is a field of the struct but neither written nor read. *)

Module UpdateFee.

Record t := mk {
  ChanID : list byte;
  AssetID : Z;
  FeePerKw : Z;
  ExtraData : list byte;
}.

Definition MsgType : Z := MsgUpdateFee.

Definition Encode (c : t) : writer :=
  WriteChannelID (ChanID c) ;;>
  WriteUint32 (FeePerKw c) ;;>
  WriteBytes (ExtraData c).

Definition Decode : reader t :=
  chanID' <-- ReadChannelID ;
  feePerKw' <-- ReadUint32 ;
  extraData' <-- ReadExtraOpaqueData ;
  rret {| ChanID := chanID'; AssetID := 0; FeePerKw := feePerKw'; ExtraData := extraData' |}.

Definition wf (c : t) : Prop :=
  length (ChanID c) = 32%nat /\ in_u 32 (AssetID c) /\ in_u 32 (FeePerKw c).

(** The message with its asset id reset: what survives the wire. *)
Definition forget_asset (c : t) : t :=
  {| ChanID := ChanID c; AssetID := 0; FeePerKw := FeePerKw c; ExtraData := ExtraData c |}.

Lemma UpdateFee_rt c : wf c -> rt_end (Encode c) Decode (forget_asset c).
Proof. unfold wf, Encode, Decode, forget_asset. destruct c. msg_rt. Qed.

Lemma UpdateFee_decode_wf bs c rest : Decode bs = Ok (c, rest) -> wf c /\ AssetID c = 0.
Proof.
  unfold wf, Decode. intros H.
  do 2 apply rbind_ok_inv in H as (? & ? & ?%codec_wf & H).
  apply rbind_ok_inv in H as (? & ? & _ & H). inversion H; subst; cbn.
  split_and!; done.
Qed.

Lemma UpdateFee_canon bs c rest :
  Decode bs = Ok (c, rest) -> exists bs0, writes (Encode c) bs0 /\ bs = bs0 ++ rest.
Proof. unfold Encode, Decode. msg_canon. Qed.

End UpdateFee.

(** ** [ChannelReestablish] (lnwire/channel_reestablish.go) *)

Module ChannelReestablish.
Section with_keys.
Context {BT : Btcec} {BL : BtcecLaws}.

Record t := mk {
  ChanID : list byte;
  NextLocalCommitHeight : Z;
  RemoteCommitTailHeight : Z;
  LastRemoteCommitSecret : list byte;
  LocalUnrevokedCommitPoint : option pubkey;
  ExtraData : list byte;
}.

Definition MsgType : Z := MsgChannelReestablish.

Definition Encode (a : t) : writer :=
  WriteChannelID (ChanID a) ;;>
  WriteUint64 (NextLocalCommitHeight a) ;;>
  WriteUint64 (RemoteCommitTailHeight a) ;;>
  match LocalUnrevokedCommitPoint a with
  | None => WriteBytes (ExtraData a)
  | Some _ =>
      WriteBytes (LastRemoteCommitSecret a) ;;>
      WritePublicKey (LocalUnrevokedCommitPoint a) ;;>
      WriteBytes (ExtraData a)
  end.

(** The optional fields: a reader at [EOF] stands for a message without them. *)
Definition DecodeTail (chanID : list byte) (nextLocal remoteTail : Z) : reader t := fun r =>
  match ReadFull 32 r with
  | Err EOF =>
      Ok ({| ChanID := chanID; NextLocalCommitHeight := nextLocal;
             RemoteCommitTailHeight := remoteTail;
             LastRemoteCommitSecret := replicate 32 x00;
             LocalUnrevokedCommitPoint := None; ExtraData := [] |}, r)
  | Err e => Err e
  | Panic => Panic
  | Ok (buf, r') =>
      (point' <-- ReadPublicKey ;
       extraData' <-- ReadExtraOpaqueData ;
       rret {| ChanID := chanID; NextLocalCommitHeight := nextLocal;
               RemoteCommitTailHeight := remoteTail;
               LastRemoteCommitSecret := buf;
               LocalUnrevokedCommitPoint := point'; ExtraData := extraData' |}) r'
  end.

Definition Decode : reader t :=
  chanID' <-- ReadChannelID ;
  nextLocal' <-- ReadUint64 ;
  remoteTail' <-- ReadUint64 ;
  DecodeTail chanID' nextLocal' remoteTail'.

(** Without a commitment point, neither a secret nor extra data can follow. *)
Definition wf (a : t) : Prop :=
  length (ChanID a) = 32%nat /\
  in_u 64 (NextLocalCommitHeight a) /\
  in_u 64 (RemoteCommitTailHeight a) /\
  length (LastRemoteCommitSecret a) = 32%nat /\
  (LocalUnrevokedCommitPoint a = None ->
   LastRemoteCommitSecret a = replicate 32 x00 /\ ExtraData a = []).

Lemma ChannelReestablish_rt a : wf a -> rt_end (Encode a) Decode a.
Proof.
  unfold wf, Encode, Decode. destruct a as [cid nl rtl sec pt extra]; cbn.
  intros (Hc & Hn & Hr & Hs & Hp).
  repeat (eapply rt_end_seq; [by apply codec_rt|]).
  destruct pt as [k|].
  - assert (rt_end
      (WriteBytes sec ;;> WritePublicKey (Some k) ;;> WriteBytes extra)
      (rbind (ReadFull 32) (fun buf => rbind ReadPublicKey (fun point' =>
        rbind ReadExtraOpaqueData (fun extraData' => rret (mk cid nl rtl buf point' extraData')))))
      (mk cid nl rtl sec (Some k) extra)) as (bs & Hw & Hd).
    { eapply rt_end_seq; [by apply codec_rt|].
      eapply rt_end_seq; [apply codec_rt; by eexists|]. apply (rt_end_extra _ _). }
    exists bs. split; [done|]. unfold DecodeTail. unfold rbind at 1 in Hd.
    destruct (ReadFull 32 bs) as [[buf r']|[]|]; try done.
  - destruct Hp as [-> ->]; [done|]. exists []. split; [apply writes_bytes|done].
Qed.

Lemma ChannelReestablish_decode_wf bs a rest : Decode bs = Ok (a, rest) -> wf a.
Proof.
  unfold wf, Decode. intros H.
  do 3 apply rbind_ok_inv in H as (? & ? & ?%codec_wf & H). unfold DecodeTail in H.
  destruct (ReadFull 32 _) as [[buf r']|[]|] eqn:E; try done.
  - apply ReadFull_ok_inv in E as [E _].
    apply rbind_ok_inv in H as (pt & ? & Hpt & H).
    pose proof (codec_wf _ _ _ Hpt) as [k ->].
    apply rbind_ok_inv in H as (? & ? & _ & H). inversion H; subst; cbn.
    split_and!; done.
  - inversion H; subst; cbn. split_and!; done.
Qed.

End with_keys.
#[global] Arguments t : clear implicits.
#[global] Arguments t {BT}.
End ChannelReestablish.

(** ** [ChannelUpdate] (lnwire/channel_update.go) *)

Module ChannelUpdate.

Definition ChanUpdateOptionMaxHtlc : Z := 1.
Definition ChanUpdateDirection : Z := 1.
Definition ChanUpdateDisabled : Z := 2.

Definition HasMaxHtlc (c : Z) : bool := bool_decide (Z.land c ChanUpdateOptionMaxHtlc <> 0).

Definition IsDisabled (c : Z) : bool :=
  bool_decide (Z.land c ChanUpdateDisabled = ChanUpdateDisabled).

Record t := mk {
  Signature : list byte;
  ChainHash : list byte;
  ShortChannelID_ : ShortChannelID;
  Timestamp : Z;
  MessageFlags : Z;
  ChannelFlags : Z;
  TimeLockDelta : Z;
  HtlcMinimumMsat : Z;
  BaseFee : Z;
  FeeRate : Z;
  HtlcMaximumMsat : Z;
  AssetId : Z;
  ExtraOpaqueData : list byte;
}.

Definition MsgType : Z := MsgChannelUpdate.

(** The part covered by the signature. *)
Definition DataToSign (a : t) : writer :=
  WriteBytes (ChainHash a) ;;>
  WriteShortChannelID (ShortChannelID_ a) ;;>
  WriteUint32 (Timestamp a) ;;>
  WriteChanUpdateMsgFlags (MessageFlags a) ;;>
  WriteChanUpdateChanFlags (ChannelFlags a) ;;>
  WriteUint16 (TimeLockDelta a) ;;>
  WriteUint64 (HtlcMinimumMsat a) ;;>
  WriteUint32 (AssetId a) ;;>
  WriteUint32 (BaseFee a) ;;>
  WriteUint64 (FeeRate a) ;;>
  (if HasMaxHtlc (MessageFlags a) then WriteUint64 (HtlcMaximumMsat a) else wnil) ;;>
  WriteBytes (ExtraOpaqueData a).

Definition Encode (a : t) : writer :=
  WriteSig (Signature a) ;;>
  WriteBytes (ChainHash a) ;;>
  WriteShortChannelID (ShortChannelID_ a) ;;>
  WriteUint32 (Timestamp a) ;;>
  WriteChanUpdateMsgFlags (MessageFlags a) ;;>
  WriteChanUpdateChanFlags (ChannelFlags a) ;;>
  WriteUint16 (TimeLockDelta a) ;;>
  WriteUint64 (HtlcMinimumMsat a) ;;>
  WriteUint32 (AssetId a) ;;>
  WriteUint32 (BaseFee a) ;;>
  WriteUint64 (FeeRate a) ;;>
  (if HasMaxHtlc (MessageFlags a) then WriteUint64 (HtlcMaximumMsat a) else wnil) ;;>
  WriteBytes (ExtraOpaqueData a).

Definition Decode : reader t :=
  signature' <-- ReadSig ;
  chainHash' <-- ReadFull 32 ;
  scid' <-- ReadShortChannelID ;
  timestamp' <-- ReadUint32 ;
  messageFlags' <-- ReadChanUpdateMsgFlags ;
  channelFlags' <-- ReadChanUpdateChanFlags ;
  timeLockDelta' <-- ReadUint16 ;
  htlcMinimum' <-- ReadUnitPrec11 ;
  assetId' <-- ReadUint32 ;
  baseFee' <-- ReadUint32 ;
  feeRate' <-- ReadUnitPrec11 ;
  htlcMaximum' <-- (if HasMaxHtlc messageFlags' then ReadUnitPrec11 else rret 0) ;
  extra' <-- ReadExtraOpaqueData ;
  rret {| Signature := signature'; ChainHash := chainHash'; ShortChannelID_ := scid';
          Timestamp := timestamp'; MessageFlags := messageFlags';
          ChannelFlags := channelFlags'; TimeLockDelta := timeLockDelta';
          HtlcMinimumMsat := htlcMinimum'; BaseFee := baseFee'; FeeRate := feeRate';
          HtlcMaximumMsat := htlcMaximum'; AssetId := assetId'; ExtraOpaqueData := extra' |}.

Definition wf (a : t) : Prop :=
  length (Signature a) = 64%nat /\ length (ChainHash a) = 32%nat /\
  wf_scid (ShortChannelID_ a) /\ in_u 32 (Timestamp a) /\ in_u 8 (MessageFlags a) /\
  in_u 8 (ChannelFlags a) /\ in_u 16 (TimeLockDelta a) /\ in_u 64 (HtlcMinimumMsat a) /\
  in_u 32 (BaseFee a) /\ in_u 64 (FeeRate a) /\ in_u 64 (HtlcMaximumMsat a) /\
  in_u 32 (AssetId a) /\
  (HasMaxHtlc (MessageFlags a) = false -> HtlcMaximumMsat a = 0).

Lemma ChannelUpdate_rt a : wf a -> rt_end (Encode a) Decode a.
Proof.
  unfold wf, Encode, Decode. destruct a; cbn. intros. destruct_and!.
  repeat (eapply rt_end_seq; [apply codec_rt; done|]).
  eapply rt_end_seq.
  { destruct (HasMaxHtlc _) eqn:E; [by apply codec_rt|].
    match goal with H : _ = false -> _ |- _ => rewrite <- (H eq_refl) end. apply rt_nil. }
  apply (rt_end_extra _ _).
Qed.

Lemma ChannelUpdate_decode_wf bs a rest : Decode bs = Ok (a, rest) -> wf a.
Proof.
  unfold wf, Decode. intros H.
  do 11 apply rbind_ok_inv in H as (? & ? & ?%codec_wf & H).
  apply rbind_ok_inv in H as (mx & ? & Hm & H).
  apply rbind_ok_inv in H as (? & ? & _ & H). inversion H; subst; cbn.
  destruct (HasMaxHtlc _).
  - apply codec_wf in Hm. split_and!; done.
  - inversion Hm; subst. by split_and!.
Qed.

Lemma ChannelUpdate_canon bs a rest :
  Decode bs = Ok (a, rest) -> exists bs0, writes (Encode a) bs0 /\ bs = bs0 ++ rest.
Proof.
  unfold Encode, Decode. intros H.
  do 11 (let H1 := fresh in
         apply rbind_ok_inv in H as (? & ? & H1 & H); apply codec_canon in H1 as (? & ? & ->)).
  apply rbind_ok_inv in H as (mx & ? & Hm & H).
  apply rbind_ok_inv in H as (? & ? & He & H). inversion He; subst.
  inversion H; subst; cbn. destruct (HasMaxHtlc _).
  - apply codec_canon in Hm as (? & ? & ->). eexists. split.
    + repeat (apply writes_seq; [eassumption|]). apply writes_bytes.
    + by rewrite ?app_nil_r, <- ?app_assoc.
  - inversion Hm; subst. eexists. split.
    + repeat (apply writes_seq; [eassumption|]). apply writes_seq; [apply writes_nil|].
      apply writes_bytes.
    + by rewrite ?app_nil_r, <- ?app_assoc.
Qed.

End ChannelUpdate.

(** ** [Custom] (lnwire/custom.go) *)

Module Custom.

Definition CustomTypeStart : Z := 32768.

Record t := mk {
  Type_ : Z;
  Data : list byte;
}.

Inductive custom_err : Type := ErrNotInCustomRange.

Definition NewCustom (msgType : Z) (data : list byte) : outcome custom_err t :=
  if bool_decide (msgType < CustomTypeStart) then Err ErrNotInCustomRange
  else Ok {| Type_ := msgType; Data := data |}.

Definition Encode (c : t) : writer := WriteBytes (Data c).

(** The type is set by [makeEmptyMessage] before decoding. *)
Definition Decode (type : Z) : reader t :=
  data' <-- ReadExtraOpaqueData ; rret {| Type_ := type; Data := data' |}.

Definition wf (c : t) : Prop := in_u 16 (Type_ c) /\ CustomTypeStart <= Type_ c.

Lemma Custom_rt c : rt_end (Encode c) (Decode (Type_ c)) c.
Proof. destruct c. unfold Encode, Decode. cbn. apply (rt_end_extra _ _). Qed.

End Custom.
