(* ===== verification/WireTlv.v ===== *)
(** * lnwire: TLV extension records and the channel opening messages

    Models lnwire/extra_bytes.go ([PackRecords], [ExtractRecords],
    [EncodeMessageExtraData]), the records of lnwire/channel_type.go,
    lnwire/typed_lease_expiry.go and lnwire/typed_delivery_addr.go, and the two
    messages that carry them, lnwire/open_channel.go and
    lnwire/accept_channel.go.  The tlv package itself is third party: its stream
    encoder, its stream parser and its record sort are the class [Tlv], and the
    behaviour relied on is [TlvLaws]. *)

From Stdlib Require Import ZArith Lia Sorted.
From S2P Require Import Prelude Wire Features WireMessages.

Local Open Scope Z_scope.
Local Open Scope go_scope.

(** ** The tlv package *)

(** A record on the wire: its type and the bytes of its value. *)
Definition tlv_record : Type := Z * list byte.

Definition wf_record (r : tlv_record) : Prop :=
  in_u 64 r.1 /\ Z.of_nat (length r.2) <= 65535.

Class Tlv := {
  SortRecords : list tlv_record -> list tlv_record;
  StreamEncode : list tlv_record -> option (list byte);
  StreamParse : list byte -> option (list tlv_record);
}.

(** [SortRecords] sorts by type; a stream whose types strictly increase can be
    encoded, and parsing it gives its records back; parsed records are no longer
    than the package's maximal record size. *)
Class TlvLaws `{!Tlv} : Prop := {
  sort_perm : forall l, SortRecords l ≡ₚ l;
  sort_sorted : forall l, StronglySorted (fun a b => a.1 <= b.1) (SortRecords l);
  stream_rt : forall l,
    Forall wf_record l -> StronglySorted (fun a b => a.1 < b.1) l ->
    exists bs, StreamEncode l = Some bs /\ StreamParse bs = Some l;
  stream_wf : forall bs l, StreamParse bs = Some l -> Forall wf_record l;
}.

(** ** The records of the opening messages *)

Definition DeliveryAddrType : Z := 0.
Definition ChannelTypeRecordType : Z := 1.
Definition LeaseExpiryRecordType : Z := 2 ^ 16.

(** [channelTypeEncoder]: the feature bits without a length prefix. *)
Definition channelTypeEncoder (v : gset Z) : outcome wire_err (list byte) :=
  Raw.encode (elements v) (Raw.SerializeSize (elements v)) 8.

(** [channelTypeDecoder] on a value of [l] bytes. *)
Definition channelTypeDecoder (val : list byte) : outcome wire_err (gset Z) :=
  '(fv, _) <~ Raw.decode (Raw.New []) (Z.of_nat (length val)) 8 val ; Ok fv.

Definition leaseExpiryEncoder (v : Z) : outcome wire_err (list byte) := Ok (be_put 4 v).

(** [leaseExpiryDecoder]: [tlv.DUint32] rejects a value that is not 4 bytes long. *)
Definition leaseExpiryDecoder (val : list byte) : outcome wire_err Z :=
  if bool_decide (length val = 4%nat) then Ok (be_get val) else Err ErrTlv.

Arguments channelTypeEncoder : simpl never.
Arguments channelTypeDecoder : simpl never.
Arguments leaseExpiryDecoder : simpl never.

Section tlv.
Context `{!Tlv}.

Definition PackRecords (records : list tlv_record) : outcome wire_err (list byte) :=
  match StreamEncode (SortRecords records) with
  | Some bs => Ok bs
  | None => Err ErrTlv
  end.

(** The record producers of an opening message, in the order they are appended. *)
Definition recordProducers (script : list byte) (chanType : option (gset Z))
    (leaseExpiry : option Z) : outcome wire_err (list tlv_record) :=
  ct <~ match chanType with
        | None => Ok []
        | Some v => bs <~ channelTypeEncoder v ; Ok [(ChannelTypeRecordType, bs)]
        end ;
  le <~ match leaseExpiry with
        | None => Ok []
        | Some v => bs <~ leaseExpiryEncoder v ; Ok [(LeaseExpiryRecordType, bs)]
        end ;
  Ok ((DeliveryAddrType, script) :: ct ++ le).

Definition EncodeMessageExtraData (script : list byte) (chanType : option (gset Z))
    (leaseExpiry : option Z) : outcome wire_err (list byte) :=
  records <~ recordProducers script chanType leaseExpiry ; PackRecords records.

(** The value of the record of a type in a parsed stream. *)
Definition lookup_type (t : Z) (records : list tlv_record) : option (list byte) :=
  match list_find (fun r => r.1 = t) records with
  | Some (_, r) => Some r.2
  | None => None
  end.

Definition opt_decode {A} (dec : list byte -> outcome wire_err A) (v : option (list byte)) :
    outcome wire_err (option A) :=
  match v with
  | None => Ok None
  | Some bs => a <~ dec bs ; Ok (Some a)
  end.

(** [ExtractRecords] with the three known records: the script, and the channel
    type and lease expiry when the stream has them. *)
Definition ExtractRecords (tlvRecords : list byte) :
    outcome wire_err (list byte * option (gset Z) * option Z) :=
  match StreamParse tlvRecords with
  | None => Err ErrTlv
  | Some records =>
      chanType <~ opt_decode channelTypeDecoder (lookup_type ChannelTypeRecordType records) ;
      leaseExpiry <~ opt_decode leaseExpiryDecoder (lookup_type LeaseExpiryRecordType records) ;
      Ok (default [] (lookup_type DeliveryAddrType records), chanType, leaseExpiry)
  end.

Definition wf_ext (script : list byte) (chanType : option (gset Z)) (lease : option Z) : Prop :=
  Z.of_nat (length script) <= 65535 /\
  from_option RawFacts.wf True chanType /\
  from_option (in_u 32) True lease.

Context `{!TlvLaws}.

Lemma channelType_rt v :
  RawFacts.wf v ->
  exists bs, channelTypeEncoder v = Ok bs /\ Z.of_nat (length bs) <= 8192
    /\ channelTypeDecoder bs = Ok v.
Proof.
  intros Hwf.
  destruct (RawFacts.decode_encode v (elements v) 8) as (data & E & Hl & Hd); [lia|done|done|].
  exists data. split; [exact E|]. split.
  - assert (Raw.serializeSize (elements v) 8 <= 8192); [|lia].
    apply RawFacts.serializeSize_bound; [lia| |lia]. apply Forall_forall.
    intros f Hf%elem_of_elements. apply Hwf in Hf. unfold in_u in Hf. lia.
  - unfold channelTypeDecoder, Raw.decode, rbind. rewrite Nat2Z.id.
    pose proof (ReadFull_app data []) as Hr. rewrite app_nil_r in Hr. rewrite Hr.
    cbn. by rewrite Hd.
Qed.

(** Sorting records of distinct types gives a strictly increasing stream. *)
Lemma sort_strict l :
  NoDup l.*1 -> StronglySorted (fun a b => a.1 < b.1) (SortRecords l).
Proof.
  intros Hnd. pose proof (sort_sorted l) as Hs.
  assert (NoDup (SortRecords l).*1) as Hnd'.
  { rewrite (sort_perm l). done. }
  clear Hnd. induction Hs as [|r rs Hs IH Hall]; [constructor|].
  cbn in Hnd'. apply NoDup_cons in Hnd' as [Hr Hnd]. constructor; [by apply IH|].
  rewrite Forall_forall in Hall |- *. intros x Hx.
  specialize (Hall x Hx). cbn in Hall. assert (x.1 <> r.1); [|lia].
  intros E. apply Hr. rewrite <- E. by apply list_elem_of_fmap_2.
Qed.

Lemma lookup_type_perm l1 l2 t :
  NoDup l1.*1 -> l1 ≡ₚ l2 -> lookup_type t l1 = lookup_type t l2.
Proof.
  intros Hnd Hp. unfold lookup_type.
  assert (forall i r, list_find (fun r => r.1 = t) l1 = Some (i, r) -> forall j r',
    list_find (fun r => r.1 = t) l2 = Some (j, r') -> r = r') as Hsame.
  { intros i r (H1 & E1 & _)%list_find_Some j r' (H2 & E2 & _)%list_find_Some.
    apply list_elem_of_lookup_2 in H1, H2. rewrite <- Hp in H2.
    apply list_elem_of_lookup in H1 as [a Ha], H2 as [b Hb].
    assert (a = b) as ->; [|congruence].
    apply (NoDup_lookup l1.*1 a b t); [done| |]; rewrite list_lookup_fmap, ?Ha, ?Hb;
      cbn; congruence. }
  destruct (list_find _ l1) as [[i r]|] eqn:E1, (list_find _ l2) as [[j r']|] eqn:E2.
  - by rewrite (Hsame _ _ eq_refl _ _ eq_refl).
  - apply list_find_Some in E1 as (H1 & E1 & _). apply list_find_None in E2.
    rewrite <- Hp in E2. rewrite Forall_forall in E2.
    by destruct (E2 r (list_elem_of_lookup_2 _ _ _ H1)).
  - apply list_find_Some in E2 as (H2 & E2 & _). apply list_find_None in E1.
    rewrite Hp in E1. rewrite Forall_forall in E1.
    by destruct (E1 r' (list_elem_of_lookup_2 _ _ _ H2)).
  - done.
Qed.

Ltac rec_cases :=
  refine (conj _ (conj _ (conj _ (conj _ _))));
  [ apply (bool_decide_unpack _); by vm_compute
  | repeat (apply Forall_cons_2; [by auto|]); apply Forall_nil_2
  | try done.. ].

Lemma Extract_Pack_pre script chanType lease records :
  wf_ext script chanType lease ->
  recordProducers script chanType lease = Ok records ->
  NoDup records.*1 /\ Forall wf_record records /\
  lookup_type DeliveryAddrType records = Some script /\
  opt_decode channelTypeDecoder (lookup_type ChannelTypeRecordType records) = Ok chanType /\
  opt_decode leaseExpiryDecoder (lookup_type LeaseExpiryRecordType records) = Ok lease.
Proof.
  intros (Hs & Hc & Hl). unfold recordProducers.
  assert (wf_record (DeliveryAddrType, script)) as W0 by (split; [done|exact Hs]).
  assert (forall v, in_u 32 v -> leaseExpiryDecoder (be_put 4 v) = Ok v) as HL.
  { intros v Hv. unfold leaseExpiryDecoder. rewrite length_be_put, bool_decide_eq_true_2 by done.
    by rewrite be_get_put_id. }
  assert (forall v, wf_record (LeaseExpiryRecordType, be_put 4 v)) as W2.
  { intros v. split; [done|]. cbn. rewrite length_be_put. lia. }
  destruct chanType as [ct|].
  - destruct (channelType_rt ct Hc) as (bs & Ebs & Hlen & Hdec). rewrite Ebs.
    assert (wf_record (ChannelTypeRecordType, bs)) as W1 by (split; [done|cbn; lia]).
    destruct lease as [le|]; cbn; intros [= <-]; rec_cases;
      first [ transitivity (opt_decode channelTypeDecoder (Some bs)); [done|cbn; by rewrite Hdec]
            | transitivity (opt_decode leaseExpiryDecoder (Some (be_put 4 le)));
              [done|cbn; by rewrite HL] ].
  - destruct lease as [le|]; cbn; intros [= <-]; rec_cases.
    transitivity (opt_decode leaseExpiryDecoder (Some (be_put 4 le))); [done|cbn; by rewrite HL].
Qed.

Lemma recordProducers_ok script chanType lease :
  wf_ext script chanType lease -> exists records, recordProducers script chanType lease = Ok records.
Proof.
  intros (_ & Hc & _). unfold recordProducers. destruct chanType as [ct|].
  - destruct (channelType_rt ct Hc) as (bs & -> & _). destruct lease; by eexists.
  - destruct lease; by eexists.
Qed.

(** Packing and extracting the records of a message are inverse. *)
Lemma Extract_Pack script chanType lease :
  wf_ext script chanType lease ->
  exists bs, EncodeMessageExtraData script chanType lease = Ok bs
    /\ ExtractRecords bs = Ok (script, chanType, lease).
Proof.
  intros Hwf. destruct (recordProducers_ok _ _ _ Hwf) as [rs Hrs].
  destruct (Extract_Pack_pre _ _ _ _ Hwf Hrs) as (Hnd & Hw & E0 & E1 & E2).
  pose proof (sort_perm rs) as Hp.
  destruct (stream_rt (SortRecords rs)) as (bs & He & Hd); [by rewrite Hp|by apply sort_strict|].
  exists bs. unfold EncodeMessageExtraData, PackRecords, ExtractRecords.
  rewrite Hrs; cbn. rewrite He, Hd. split; [done|].
  assert (forall t, lookup_type t (SortRecords rs) = lookup_type t rs) as Hs.
  { intros t. symmetry. by apply lookup_type_perm. }
  rewrite !Hs, E1; cbn [obind]. rewrite E2; cbn [obind]. by rewrite E0.
Qed.

Lemma Extract_wf bs script chanType lease :
  ExtractRecords bs = Ok (script, chanType, lease) -> wf_ext script chanType lease.
Proof.
  unfold ExtractRecords. destruct (StreamParse bs) as [rs|] eqn:E; [|done].
  apply stream_wf in E. intros Hx. obind_inv Hx. obind_inv Hx. simplify_eq.
  assert (forall t v, lookup_type t rs = Some v -> Z.of_nat (length v) <= 65535) as Hlen.
  { intros t v. unfold lookup_type.
    destruct (list_find (fun r => r.1 = t) rs) as [[i r]|] eqn:Ef; [|done].
    intros [= <-]. apply list_find_Some in Ef as (Hi & _). rewrite Forall_forall in E.
    apply list_elem_of_lookup_2 in Hi. by destruct (E r Hi). }
  split; [|split].
  - destruct (lookup_type DeliveryAddrType rs) eqn:E0; cbn; [by eapply Hlen|lia].
  - destruct (lookup_type ChannelTypeRecordType rs) as [v|]; cbn in *; simplify_eq; [|done].
    obind_inv Hstep. simplify_eq. unfold channelTypeDecoder in Hstep1. obind_inv Hstep1.
    destruct a0 as [fv ?]. simplify_eq. cbn.
    apply rbind_ok_inv in Hstep as (data & ? & _ & Hd). inversion Hd; subst.
    intros b Hb. apply RawFacts.elem_of_decode_bits in Hb.
    destruct Hb as [?|(i & _ & _ & ->)]; [set_solver|]. apply Z.mod_pos_bound. lia.
  - destruct (lookup_type LeaseExpiryRecordType rs) as [v|]; cbn in *; simplify_eq; [|done].
    obind_inv Hstep0. simplify_eq. unfold leaseExpiryDecoder in Hstep1.
    case_bool_decide as Hv; simplify_eq. cbn. pose proof (be_get_range v) as Hr. by rewrite Hv in Hr.
Qed.

End tlv.

(** ** [OpenChannel] (lnwire/open_channel.go) *)

Module OpenChannel.
Section with_params.
Context {BT : Btcec} {BL : BtcecLaws} {TL : Tlv} {TLL : TlvLaws}.

Record t := mk {
  ChainHash : list byte;
  PendingChannelID : list byte;
  FundingBtcAmount : Z;
  PushBtcAmount : Z;
  FundingAssetAmount : Z;
  PushAssetAmount : Z;
  AssetId : Z;
  DustLimit : Z;
  MaxValueInFlight : Z;
  ChannelReserve : Z;
  HtlcMinimum : Z;
  FeePerKiloWeight : Z;
  CsvDelay : Z;
  MaxAcceptedHTLCs : Z;
  FundingKey : option pubkey;
  RevocationPoint : option pubkey;
  PaymentPoint : option pubkey;
  DelayedPaymentPoint : option pubkey;
  HtlcPoint : option pubkey;
  FirstCommitmentPoint : option pubkey;
  ChannelFlags : Z;
  UpfrontShutdownScript : list byte;
  ChannelType : option (gset Z);
  LeaseExpiry : option Z;
  ExtraData : list byte;
}.

Definition MsgType : Z := MsgOpenChannel.

(** The mutation [Encode] makes to the message: its extra data becomes the
    packed records, whatever it was. *)
Definition set_extra (o : t) (extra : list byte) : t :=
  {| ChainHash := ChainHash o;
     PendingChannelID := PendingChannelID o;
     FundingBtcAmount := FundingBtcAmount o;
     PushBtcAmount := PushBtcAmount o;
     FundingAssetAmount := FundingAssetAmount o;
     PushAssetAmount := PushAssetAmount o;
     AssetId := AssetId o;
     DustLimit := DustLimit o;
     MaxValueInFlight := MaxValueInFlight o;
     ChannelReserve := ChannelReserve o;
     HtlcMinimum := HtlcMinimum o;
     FeePerKiloWeight := FeePerKiloWeight o;
     CsvDelay := CsvDelay o;
     MaxAcceptedHTLCs := MaxAcceptedHTLCs o;
     FundingKey := FundingKey o;
     RevocationPoint := RevocationPoint o;
     PaymentPoint := PaymentPoint o;
     DelayedPaymentPoint := DelayedPaymentPoint o;
     HtlcPoint := HtlcPoint o;
     FirstCommitmentPoint := FirstCommitmentPoint o;
     ChannelFlags := ChannelFlags o;
     UpfrontShutdownScript := UpfrontShutdownScript o; ChannelType := ChannelType o;
     LeaseExpiry := LeaseExpiry o; ExtraData := extra |}.

Definition pack (o : t) : outcome wire_err t :=
  extra <~ EncodeMessageExtraData (UpfrontShutdownScript o) (ChannelType o) (LeaseExpiry o) ;
  Ok (set_extra o extra).

Definition EncodeFields (o : t) : writer :=
  WriteBytes (ChainHash o) ;;>
  WriteBytes (PendingChannelID o) ;;>
  WriteSatoshi (FundingBtcAmount o) ;;>
  WriteMilliSatoshi (PushBtcAmount o) ;;>
  WriteAssetMinUnit (FundingAssetAmount o) ;;>
  WriteAssetMinUnit (PushAssetAmount o) ;;>
  WriteUint32 (AssetId o) ;;>
  WriteSatoshi (DustLimit o) ;;>
  WriteUint64 (MaxValueInFlight o) ;;>
  WriteUint64 (ChannelReserve o) ;;>
  WriteUint64 (HtlcMinimum o) ;;>
  WriteUint32 (FeePerKiloWeight o) ;;>
  WriteUint16 (CsvDelay o) ;;>
  WriteUint16 (MaxAcceptedHTLCs o) ;;>
  WritePublicKey (FundingKey o) ;;>
  WritePublicKey (RevocationPoint o) ;;>
  WritePublicKey (PaymentPoint o) ;;>
  WritePublicKey (DelayedPaymentPoint o) ;;>
  WritePublicKey (HtlcPoint o) ;;>
  WritePublicKey (FirstCommitmentPoint o) ;;>
  WriteFundingFlag (ChannelFlags o) ;;>
  WriteBytes (ExtraData o).

Definition Encode (o : t) : writer :=
  match pack o with
  | Ok o' => EncodeFields o'
  | Err e => werror e
  | Panic => fun buf => (buf, Panic)
  end.

Definition Decode : reader t :=
  chainHash' <-- ReadFull 32 ;
  pendingChannelID' <-- ReadFull 32 ;
  fundingBtcAmount' <-- ReadSatoshi ;
  pushBtcAmount' <-- ReadMilliSatoshi ;
  fundingAssetAmount' <-- ReadAssetMinUnit ;
  pushAssetAmount' <-- ReadAssetMinUnit ;
  assetId' <-- ReadUint32 ;
  dustLimit' <-- ReadSatoshi ;
  maxValueInFlight' <-- ReadUnitPrec11 ;
  channelReserve' <-- ReadUnitPrec8 ;
  htlcMinimum' <-- ReadUnitPrec11 ;
  feePerKiloWeight' <-- ReadUint32 ;
  csvDelay' <-- ReadUint16 ;
  maxAcceptedHTLCs' <-- ReadUint16 ;
  fundingKey' <-- ReadPublicKey ;
  revocationPoint' <-- ReadPublicKey ;
  paymentPoint' <-- ReadPublicKey ;
  delayedPaymentPoint' <-- ReadPublicKey ;
  htlcPoint' <-- ReadPublicKey ;
  firstCommitmentPoint' <-- ReadPublicKey ;
  channelFlags' <-- ReadFundingFlag ;
  tlvRecords <-- ReadExtraOpaqueData ;
  match ExtractRecords tlvRecords with
  | Err e => rerr e
  | Panic => fun _ => Panic
  | Ok (script', chanType', leaseExpiry') =>
      rret {| ChainHash := chainHash';
              PendingChannelID := pendingChannelID';
              FundingBtcAmount := fundingBtcAmount';
              PushBtcAmount := pushBtcAmount';
              FundingAssetAmount := fundingAssetAmount';
              PushAssetAmount := pushAssetAmount';
              AssetId := assetId';
              DustLimit := dustLimit';
              MaxValueInFlight := maxValueInFlight';
              ChannelReserve := channelReserve';
              HtlcMinimum := htlcMinimum';
              FeePerKiloWeight := feePerKiloWeight';
              CsvDelay := csvDelay';
              MaxAcceptedHTLCs := maxAcceptedHTLCs';
              FundingKey := fundingKey';
              RevocationPoint := revocationPoint';
              PaymentPoint := paymentPoint';
              DelayedPaymentPoint := delayedPaymentPoint';
              HtlcPoint := htlcPoint';
              FirstCommitmentPoint := firstCommitmentPoint';
              ChannelFlags := channelFlags';
              UpfrontShutdownScript := script'; ChannelType := chanType';
              LeaseExpiry := leaseExpiry'; ExtraData := tlvRecords |}
  end.

Definition wf (o : t) : Prop :=
  length (ChainHash o) = 32%nat /\
  length (PendingChannelID o) = 32%nat /\
  in_i64 (FundingBtcAmount o) /\
  in_u 64 (PushBtcAmount o) /\
  in_i64 (FundingAssetAmount o) /\
  in_i64 (PushAssetAmount o) /\
  in_u 32 (AssetId o) /\
  in_i64 (DustLimit o) /\
  in_u 64 (MaxValueInFlight o) /\
  in_u 64 (ChannelReserve o) /\
  in_u 64 (HtlcMinimum o) /\
  in_u 32 (FeePerKiloWeight o) /\
  in_u 16 (CsvDelay o) /\
  in_u 16 (MaxAcceptedHTLCs o) /\
  is_Some (FundingKey o) /\
  is_Some (RevocationPoint o) /\
  is_Some (PaymentPoint o) /\
  is_Some (DelayedPaymentPoint o) /\
  is_Some (HtlcPoint o) /\
  is_Some (FirstCommitmentPoint o) /\
  in_u 8 (ChannelFlags o) /\
  wf_ext (UpfrontShutdownScript o) (ChannelType o) (LeaseExpiry o).

(** A well-formed message can be packed, and what is decoded is the packed
    message. *)
Lemma OpenChannel_rt o :
  wf o -> exists o', pack o = Ok o' /\ rt_end (Encode o) Decode o'.
Proof.
  unfold wf. intros Hwf. destruct_and!.
  match goal with H : wf_ext _ _ _ |- _ => destruct (Extract_Pack _ _ _ H) as (bs & E & D) end.
  exists (set_extra o bs). unfold Encode, pack. rewrite E. cbn [obind]. split; [done|].
  destruct o; unfold EncodeFields, Decode; cbn in *.
  repeat (eapply rt_end_seq; [apply codec_rt; done|]).
  exists bs. split; [apply writes_bytes|]. cbn. by rewrite D.
Qed.

Lemma OpenChannel_decode_wf bs o rest : Decode bs = Ok (o, rest) -> wf o.
Proof.
  unfold wf, Decode. intros H.
  do 21 apply rbind_ok_inv in H as (? & ? & ?%codec_wf & H).
  apply rbind_ok_inv in H as (tlvs & ? & _ & H).
  destruct (ExtractRecords tlvs) as [[[? ?] ?]| |] eqn:E; [|done..].
  apply Extract_wf in E. inversion H; subst; cbn. by split_and!.
Qed.

End with_params.
#[global] Arguments t : clear implicits.
#[global] Arguments t {BT}.
End OpenChannel.

(** ** [AcceptChannel] (lnwire/accept_channel.go) *)

Module AcceptChannel.
Section with_params.
Context {BT : Btcec} {BL : BtcecLaws} {TL : Tlv} {TLL : TlvLaws}.

Record t := mk {
  PendingChannelID : list byte;
  DustLimit : Z;
  MaxValueInFlight : Z;
  ChannelReserve : Z;
  HtlcMinimum : Z;
  MinAcceptDepth : Z;
  CsvDelay : Z;
  MaxAcceptedHTLCs : Z;
  FundingKey : option pubkey;
  RevocationPoint : option pubkey;
  PaymentPoint : option pubkey;
  DelayedPaymentPoint : option pubkey;
  HtlcPoint : option pubkey;
  FirstCommitmentPoint : option pubkey;
  UpfrontShutdownScript : list byte;
  ChannelType : option (gset Z);
  LeaseExpiry : option Z;
  ExtraData : list byte;
}.

Definition MsgType : Z := MsgAcceptChannel.

(** The mutation [Encode] makes to the message: its extra data becomes the
    packed records, whatever it was. *)
Definition set_extra (a : t) (extra : list byte) : t :=
  {| PendingChannelID := PendingChannelID a;
     DustLimit := DustLimit a;
     MaxValueInFlight := MaxValueInFlight a;
     ChannelReserve := ChannelReserve a;
     HtlcMinimum := HtlcMinimum a;
     MinAcceptDepth := MinAcceptDepth a;
     CsvDelay := CsvDelay a;
     MaxAcceptedHTLCs := MaxAcceptedHTLCs a;
     FundingKey := FundingKey a;
     RevocationPoint := RevocationPoint a;
     PaymentPoint := PaymentPoint a;
     DelayedPaymentPoint := DelayedPaymentPoint a;
     HtlcPoint := HtlcPoint a;
     FirstCommitmentPoint := FirstCommitmentPoint a;
     UpfrontShutdownScript := UpfrontShutdownScript a; ChannelType := ChannelType a;
     LeaseExpiry := LeaseExpiry a; ExtraData := extra |}.

Definition pack (a : t) : outcome wire_err t :=
  extra <~ EncodeMessageExtraData (UpfrontShutdownScript a) (ChannelType a) (LeaseExpiry a) ;
  Ok (set_extra a extra).

Definition EncodeFields (a : t) : writer :=
  WriteBytes (PendingChannelID a) ;;>
  WriteSatoshi (DustLimit a) ;;>
  WriteUint64 (MaxValueInFlight a) ;;>
  WriteUint64 (ChannelReserve a) ;;>
  WriteUint64 (HtlcMinimum a) ;;>
  WriteUint32 (MinAcceptDepth a) ;;>
  WriteUint16 (CsvDelay a) ;;>
  WriteUint16 (MaxAcceptedHTLCs a) ;;>
  WritePublicKey (FundingKey a) ;;>
  WritePublicKey (RevocationPoint a) ;;>
  WritePublicKey (PaymentPoint a) ;;>
  WritePublicKey (DelayedPaymentPoint a) ;;>
  WritePublicKey (HtlcPoint a) ;;>
  WritePublicKey (FirstCommitmentPoint a) ;;>
  WriteBytes (ExtraData a).

Definition Encode (a : t) : writer :=
  match pack a with
  | Ok a' => EncodeFields a'
  | Err e => werror e
  | Panic => fun buf => (buf, Panic)
  end.

Definition Decode : reader t :=
  pendingChannelID' <-- ReadFull 32 ;
  dustLimit' <-- ReadSatoshi ;
  maxValueInFlight' <-- ReadUnitPrec11 ;
  channelReserve' <-- ReadUnitPrec8 ;
  htlcMinimum' <-- ReadUnitPrec11 ;
  minAcceptDepth' <-- ReadUint32 ;
  csvDelay' <-- ReadUint16 ;
  maxAcceptedHTLCs' <-- ReadUint16 ;
  fundingKey' <-- ReadPublicKey ;
  revocationPoint' <-- ReadPublicKey ;
  paymentPoint' <-- ReadPublicKey ;
  delayedPaymentPoint' <-- ReadPublicKey ;
  htlcPoint' <-- ReadPublicKey ;
  firstCommitmentPoint' <-- ReadPublicKey ;
  tlvRecords <-- ReadExtraOpaqueData ;
  match ExtractRecords tlvRecords with
  | Err e => rerr e
  | Panic => fun _ => Panic
  | Ok (script', chanType', leaseExpiry') =>
      rret {| PendingChannelID := pendingChannelID';
              DustLimit := dustLimit';
              MaxValueInFlight := maxValueInFlight';
              ChannelReserve := channelReserve';
              HtlcMinimum := htlcMinimum';
              MinAcceptDepth := minAcceptDepth';
              CsvDelay := csvDelay';
              MaxAcceptedHTLCs := maxAcceptedHTLCs';
              FundingKey := fundingKey';
              RevocationPoint := revocationPoint';
              PaymentPoint := paymentPoint';
              DelayedPaymentPoint := delayedPaymentPoint';
              HtlcPoint := htlcPoint';
              FirstCommitmentPoint := firstCommitmentPoint';
              UpfrontShutdownScript := script'; ChannelType := chanType';
              LeaseExpiry := leaseExpiry'; ExtraData := tlvRecords |}
  end.

Definition wf (a : t) : Prop :=
  length (PendingChannelID a) = 32%nat /\
  in_i64 (DustLimit a) /\
  in_u 64 (MaxValueInFlight a) /\
  in_u 64 (ChannelReserve a) /\
  in_u 64 (HtlcMinimum a) /\
  in_u 32 (MinAcceptDepth a) /\
  in_u 16 (CsvDelay a) /\
  in_u 16 (MaxAcceptedHTLCs a) /\
  is_Some (FundingKey a) /\
  is_Some (RevocationPoint a) /\
  is_Some (PaymentPoint a) /\
  is_Some (DelayedPaymentPoint a) /\
  is_Some (HtlcPoint a) /\
  is_Some (FirstCommitmentPoint a) /\
  wf_ext (UpfrontShutdownScript a) (ChannelType a) (LeaseExpiry a).

(** A well-formed message can be packed, and what is decoded is the packed
    message. *)
Lemma AcceptChannel_rt a :
  wf a -> exists a', pack a = Ok a' /\ rt_end (Encode a) Decode a'.
Proof.
  unfold wf. intros Hwf. destruct_and!.
  match goal with H : wf_ext _ _ _ |- _ => destruct (Extract_Pack _ _ _ H) as (bs & E & D) end.
  exists (set_extra a bs). unfold Encode, pack. rewrite E. cbn [obind]. split; [done|].
  destruct a; unfold EncodeFields, Decode; cbn in *.
  repeat (eapply rt_end_seq; [apply codec_rt; done|]).
  exists bs. split; [apply writes_bytes|]. cbn. by rewrite D.
Qed.

Lemma AcceptChannel_decode_wf bs a rest : Decode bs = Ok (a, rest) -> wf a.
Proof.
  unfold wf, Decode. intros H.
  do 14 apply rbind_ok_inv in H as (? & ? & ?%codec_wf & H).
  apply rbind_ok_inv in H as (tlvs & ? & _ & H).
  destruct (ExtractRecords tlvs) as [[[? ?] ?]| |] eqn:E; [|done..].
  apply Extract_wf in E. inversion H; subst; cbn. by split_and!.
Qed.

End with_params.
#[global] Arguments t : clear implicits.
#[global] Arguments t {BT}.
End AcceptChannel.
