(* ===== verification/WireGossip.v ===== *)
(** * lnwire: gossip messages

    Models lnwire/query_short_chan_ids.go and lnwire/reply_channel_range.go with
    the two encodings of a set of short channel ids, the conversions of
    lnwire/short_channel_id.go, the address list of lnwire/writer.go and
    lnwire/lnwire.go, and lnwire/node_announcement.go.  The compressor (class
    [Zlib]) and the base-32 coder of the tor package (class [Tor]) are
    parameters; UTF-8 validation and the IP conversions of the Go library are
    written out. *)

From Stdlib Require Import ZArith Lia Sorted.
From stdpp Require Import sorting.
From S2P Require Import Prelude Wire Features WireMessages.

Local Open Scope Z_scope.
Local Open Scope go_scope.

(** ** Short channel ids as integers *)

Lemma lor_shiftl_add a b n :
  0 <= n -> 0 <= b < 2 ^ n -> Z.lor (Z.shiftl a n) b = a * 2 ^ n + b.
Proof.
  intros Hn Hb. rewrite <- Z.shiftl_mul_pow2 by done.
  assert (Z.land (Z.shiftl a n) b = 0) as Hl.
  { apply Z.bits_inj'. intros i Hi. rewrite Z.land_spec, Z.bits_0.
    destruct (decide (i < n)).
    - by rewrite Z.shiftl_spec_low.
    - assert (Z.testbit b i = false) as ->; [|by rewrite andb_false_r].
      apply Z.testbit_false; [done|]. rewrite Z.div_small; [done|].
      split; [lia|]. apply Z.lt_le_trans with (2 ^ n); [lia|]. apply Z.pow_le_mono_r; lia. }
  pose proof (Z.add_lor_land (Z.shiftl a n) b). lia.
Qed.

Lemma ToUint64_val c :
  wf_scid c -> ToUint64 c = BlockHeight c * 2 ^ 40 + TxIndex c * 2 ^ 16 + TxPosition c.
Proof.
  intros (H1 & H2 & H3). unfold in_u in *. unfold ToUint64, u64.
  rewrite !Z.mod_small by (rewrite Z.shiftl_mul_pow2; lia).
  rewrite (lor_shiftl_add (TxIndex c)) by lia. rewrite lor_shiftl_add by lia. lia.
Qed.

Lemma ToUint64_NewShortChanIDFromInt z :
  in_u 64 z -> ToUint64 (NewShortChanIDFromInt z) = z /\ wf_scid (NewShortChanIDFromInt z).
Proof.
  unfold in_u. intros Hz.
  assert (NewShortChanIDFromInt z
    = {| BlockHeight := z / 2 ^ 40; TxIndex := (z / 2 ^ 16) mod 2 ^ 24;
         TxPosition := z mod 2 ^ 16 |}) as ->.
  { unfold NewShortChanIDFromInt, u32, u16. f_equal.
    - rewrite Z.shiftr_div_pow2 by lia. apply Z.mod_small. split; [apply Z.div_pos; lia|].
      apply Z.div_lt_upper_bound; lia.
    - change 0xFFFFFF with (Z.ones 24). rewrite Z.land_ones, Z.shiftr_div_pow2 by lia.
      apply Z.mod_mod_divide. by exists 256. }
  assert (wf_scid {| BlockHeight := z / 2 ^ 40; TxIndex := (z / 2 ^ 16) mod 2 ^ 24;
         TxPosition := z mod 2 ^ 16 |}) as Hwf.
  { unfold wf_scid, in_u; cbn [BlockHeight TxIndex TxPosition].
    pose proof (Z.mod_pos_bound (z / 2 ^ 16) (2 ^ 24)). pose proof (Z.mod_pos_bound z (2 ^ 16)).
    pose proof (Z.div_pos z (2 ^ 40)). pose proof (Z.div_lt_upper_bound z (2 ^ 40) (2 ^ 24)).
    lia. }
  split; [|done]. rewrite ToUint64_val by done. cbn [BlockHeight TxIndex TxPosition].
  pose proof (Z.div_mod z (2 ^ 16)). pose proof (Z.div_mod (z / 2 ^ 16) (2 ^ 24)).
  assert (z / 2 ^ 40 = z / 2 ^ 16 / 2 ^ 24) by (rewrite Z.div_div by lia; done). lia.
Qed.

Lemma ToUint64_inj c d : wf_scid c -> wf_scid d -> ToUint64 c = ToUint64 d -> c = d.
Proof.
  intros Hc Hd. rewrite !ToUint64_val by done.
  destruct c as [b1 t1 p1], d as [b2 t2 p2], Hc as (?&?&?), Hd as (?&?&?).
  unfold in_u in *. cbn [BlockHeight TxIndex TxPosition] in *. intros E.
  assert (b1 = b2) as -> by lia. assert (t1 = t2) as -> by lia. f_equal; lia.
Qed.

(** ** Sets of short channel ids (lnwire/query_short_chan_ids.go) *)

(** The compressor: [decompress] is [None] when the reader cannot be created;
    otherwise the bytes it delivers, and whether the stream then ends with an
    [EOF] (expected or not) instead of a data error. *)
Class Zlib := {
  compress : list byte -> list byte;
  decompress : list byte -> option (list byte * bool);
}.

Class ZlibLaws `{!Zlib} : Prop := {
  decompress_compress : forall bs, decompress (compress bs) = Some (bs, true);
  compress_nonempty : forall bs, compress bs <> [];
}.

Module ShortChanIDs.

Definition EncodingSortedPlain : Z := 0.
Definition EncodingSortedZlib : Z := 1.

Definition sid_le (a b : ShortChannelID) : Prop := ToUint64 a <= ToUint64 b.
Definition sid_lt (a b : ShortChannelID) : Prop := ToUint64 a < ToUint64 b.

#[global] Instance sid_le_dec a b : Decision (sid_le a b).
Proof. unfold sid_le. apply _. Defined.

(** [sort.Slice] by integer value. *)
Definition sortIDs (noSort : bool) (ids : list ShortChannelID) : list ShortChannelID :=
  if noSort then ids else merge_sort sid_le ids.

Definition writeIDs (ids : list ShortChannelID) : writer :=
  foldr (fun c w => WriteShortChannelID c ;;> w) wnil ids.

Section codec.
Context `{!Zlib}.

Definition encodeShortChanIDs (encodingType : Z) (shortChanIDs : list ShortChannelID)
    (noSort : bool) : writer :=
  let shortChanIDs := sortIDs noSort shortChanIDs in
  if bool_decide (encodingType = EncodingSortedPlain) then
    WriteUint16 (u16 (u16 (Z.of_nat (length shortChanIDs) * 8) + 1)) ;;>
    WriteShortChanIDEncoding encodingType ;;>
    writeIDs shortChanIDs
  else if bool_decide (encodingType = EncodingSortedZlib) then
    match (if bool_decide (shortChanIDs = []) then ([], Ok tt) else writeIDs shortChanIDs []) with
    | (wb, Ok tt) =>
        let compressedPayload := if bool_decide (shortChanIDs = []) then [] else compress wb in
        WriteUint16 (u16 (Z.of_nat (length compressedPayload) + 1)) ;;>
        WriteShortChanIDEncoding encodingType ;;>
        WriteBytes compressedPayload
    | (_, Err e) => werror e
    | (_, Panic) => fun buf => (buf, Panic)
    end
  else werror (ErrUnknownShortChanIDEncoding encodingType).

(** The check [i > 0 && cid <= lastChanID]; there is no last id when [i] is 0. *)
Definition unsorted (last : option ShortChannelID) (cid : ShortChannelID) : option wire_err :=
  match last with
  | None => None
  | Some l => if bool_decide (ToUint64 cid <= ToUint64 l)
              then Some (ErrUnsortedSIDs (ToUint64 l) (ToUint64 cid)) else None
  end.

Fixpoint readPlain (n : nat) (last : option ShortChannelID) : reader (list ShortChannelID) :=
  match n with
  | O => rret []
  | S n' =>
      cid <-- ReadShortChannelID ;
      match unsorted last cid with
      | Some e => rerr e
      | None => rest <-- readPlain n' (Some cid) ; rret (cid :: rest)
      end
  end.

(** The loop over the decompressed stream; each turn consumes eight bytes, so a
    fuel above the number of bytes is never used up. *)
Fixpoint readZlib (fuel : nat) (clean : bool) (last : option ShortChannelID) (data : list byte) :
    outcome wire_err (list ShortChannelID) :=
  match fuel with
  | O => Panic
  | S fuel' =>
      match ReadShortChannelID data with
      | Err ErrUnexpectedEOF | Err EOF => if clean then Ok [] else Err ErrZlib
      | Err _ => Err ErrZlib
      | Panic => Panic
      | Ok (cid, data') =>
          match unsorted last cid with
          | Some e => Err e
          | None => rest <~ readZlib fuel' clean (Some cid) data' ; Ok (cid :: rest)
          end
      end
  end.

(** The body after the length, split into the encoding byte and the payload. *)
Definition decodeBody (encodingType : Z) (queryBody : list byte) :
    outcome wire_err (Z * list ShortChannelID) :=
  if bool_decide (encodingType = EncodingSortedPlain) then
    if bool_decide (Nat.modulo (length queryBody) 8 <> 0%nat)
    then Err (ErrWholeShortChanIDs (length queryBody))
    else
      '(ids, _) <~ readPlain (Nat.div (length queryBody) 8) None queryBody ;
      Ok (encodingType, ids)
  else if bool_decide (encodingType = EncodingSortedZlib) then
    if bool_decide (queryBody = []) then Ok (encodingType, [])
    else match decompress queryBody with
         | None => Err ErrZlib
         | Some (data, clean) =>
             ids <~ readZlib (S (length data)) clean None data ; Ok (encodingType, ids)
         end
  else Err (ErrUnknownShortChanIDEncoding encodingType).

Definition decodeShortChanIDs : reader (Z * list ShortChannelID) :=
  numBytesResp <-- ReadUint16 ;
  if bool_decide (numBytesResp = 0) then rret (0, [])
  else
    queryBody <-- ReadFull (Z.to_nat numBytesResp) ;
    fun r =>
      match queryBody with
      | [] => Panic
      | enc :: body => res <~ decodeBody (byte_Z enc) body ; Ok (res, r)
      end.

End codec.

(** *** Round trip and order *)

Lemma writes_ids ids :
  Forall wf_scid ids ->
  exists bs, writes (writeIDs ids) bs /\ length bs = (8 * length ids)%nat.
Proof.
  induction 1 as [|c ids Hc _ (bs & Hw & Hl)]; [exists []; split; [apply writes_nil|done]|].
  eexists. split; [apply writes_seq; [by apply writes_scid|exact Hw]|].
  rewrite !length_app, !length_be_put, Hl. cbn. lia.
Qed.

(** [last] precedes the list. *)
Definition above (last : option ShortChannelID) (ids : list ShortChannelID) : Prop :=
  match last with None => True | Some l => Forall (sid_lt l) ids end.

Lemma above_nil last : above last [].
Proof. destruct last; [apply Forall_nil_2|done]. Qed.

Lemma unsorted_None last cid ids :
  StronglySorted sid_lt (cid :: ids) -> above last (cid :: ids) ->
  unsorted last cid = None /\ above (Some cid) ids.
Proof.
  intros [Hs Hc]%StronglySorted_inv Hl. split; [|done].
  destruct last as [l|]; [|done]. cbn. apply Forall_cons in Hl as [Hl _].
  unfold sid_lt in Hl. by rewrite bool_decide_eq_false_2 by lia.
Qed.

Lemma unsorted_inv last cid ids :
  unsorted last cid = None -> StronglySorted sid_lt ids -> above (Some cid) ids ->
  StronglySorted sid_lt (cid :: ids) /\ above last (cid :: ids).
Proof.
  intros Hu Hs Hc. split; [by constructor|]. destruct last as [l|]; [|done]. cbn in *.
  case_bool_decide; [done|]. assert (sid_lt l cid) by (unfold sid_lt; lia).
  constructor; [done|]. eapply Forall_impl; [exact Hc|]. unfold sid_lt in *. cbn. lia.
Qed.

Lemma readPlain_rt ids last bs rest :
  Forall wf_scid ids -> StronglySorted sid_lt ids -> above last ids ->
  writes (writeIDs ids) bs -> readPlain (length ids) last (bs ++ rest) = Ok (ids, rest).
Proof.
  intros Hwf. revert last bs. induction Hwf as [|c ids Hc Hwf IH]; intros last bs Hs Hab Hw.
  - by rewrite (writes_inj _ _ _ Hw writes_nil).
  - destruct (unsorted_None _ _ _ Hs Hab) as [Hu Hab'].
    apply StronglySorted_inv in Hs as [Hs _].
    destruct (writes_ids ids Hwf) as (bs2 & Hw2 & _).
    destruct (codec_rt c Hc) as (bs1 & Hw1 & Hr1).
    rewrite (writes_inj _ _ _ Hw (writes_seq _ _ _ _ Hw1 Hw2)).
    cbn [readPlain length]. unfold rbind at 1.
    rewrite <- app_assoc, Hr1, Hu. unfold rbind. by rewrite (IH (Some c) bs2).
Qed.

Lemma readPlain_sorted n last bs ids rest :
  readPlain n last bs = Ok (ids, rest) ->
  StronglySorted sid_lt ids /\ above last ids /\ Forall wf_scid ids /\ length ids = n
  /\ exists bs0, writes (writeIDs ids) bs0 /\ bs = bs0 ++ rest.
Proof.
  revert last bs ids. induction n as [|n IH]; intros last bs ids H; cbn in H.
  - inversion H; subst. split_and!; [constructor|apply above_nil|constructor|done|].
    exists []. split; [apply writes_nil|done].
  - apply rbind_ok_inv in H as (cid & bs1 & Hc & H).
    destruct (unsorted last cid) eqn:Hu; [done|].
    apply rbind_ok_inv in H as (ids' & ? & H1 & H). inversion H; subst.
    destruct (IH _ _ _ H1) as (Hs & Hab & Hwf & <- & bs2 & Hw2 & ->).
    destruct (unsorted_inv _ _ _ Hu Hs Hab) as [Hs' Hab'].
    pose proof (codec_wf _ _ _ Hc). apply codec_canon in Hc as (bs0 & Hw0 & ->).
    split_and!; [done|done|by constructor|done|].
    eexists. split; [by apply writes_seq|by rewrite app_assoc].
Qed.

Lemma ReadShortChannelID_shrinks data cid data' :
  ReadShortChannelID data = Ok (cid, data') -> (length data' < length data)%nat.
Proof.
  unfold ReadShortChannelID. intros H.
  do 3 apply rbind_ok_inv in H as (? & ? & ?%ReadFull_ok_inv & H).
  destruct_and!. inversion H; subst. rewrite !length_app. lia.
Qed.

Lemma ReadShortChannelID_nopanic data : ReadShortChannelID data <> Panic.
Proof.
  assert (forall n bs, ReadFull n bs <> Panic) as HF.
  { intros n bs. unfold ReadFull. by repeat case_bool_decide. }
  unfold ReadShortChannelID, rbind, rret.
  repeat match goal with |- context [ReadFull ?n ?b] =>
    pose proof (HF n b); destruct (ReadFull n b) as [[? ?]| |]; try done end.
Qed.

(** The loop terminates: the fuel is never used up. *)
Lemma readZlib_total fuel clean last data :
  (length data < fuel)%nat -> readZlib fuel clean last data <> Panic.
Proof.
  revert last data. induction fuel as [|fuel IH]; intros last data Hf; [lia|]. cbn.
  pose proof (ReadShortChannelID_nopanic data).
  destruct (ReadShortChannelID data) as [[cid data']|[]|] eqn:E; try done; try by destruct clean.
  apply ReadShortChannelID_shrinks in E.
  destruct (unsorted last cid); [done|].
  pose proof (IH (Some cid) data'). destruct (readZlib fuel clean (Some cid) data'); try done.
  intros _. apply H0; [lia|done].
Qed.

Lemma readZlib_rt ids last bs fuel :
  Forall wf_scid ids -> StronglySorted sid_lt ids -> above last ids ->
  writes (writeIDs ids) bs -> (length bs < fuel)%nat ->
  readZlib fuel true last bs = Ok ids.
Proof.
  intros Hwf. revert last bs fuel.
  induction Hwf as [|c ids Hc Hwf IH]; intros last bs fuel Hs Hab Hw Hf.
  - rewrite (writes_inj _ _ _ Hw writes_nil) in *. by destruct fuel; [cbn in Hf; lia|].
  - destruct (unsorted_None _ _ _ Hs Hab) as [Hu Hab'].
    apply StronglySorted_inv in Hs as [Hs _].
    destruct (writes_ids ids Hwf) as (bs2 & Hw2 & _).
    destruct (codec_rt c Hc) as (bs1 & Hw1 & Hr1).
    rewrite (writes_inj _ _ _ Hw (writes_seq _ _ _ _ Hw1 Hw2)) in *.
    specialize (Hr1 bs2). pose proof (ReadShortChannelID_shrinks _ _ _ Hr1).
    destruct fuel; [lia|]. cbn. rewrite Hr1, Hu, (IH (Some c) bs2 fuel); [done..|lia].
Qed.

Lemma readZlib_sorted fuel clean last data ids :
  readZlib fuel clean last data = Ok ids ->
  StronglySorted sid_lt ids /\ above last ids /\ Forall wf_scid ids.
Proof.
  revert last data ids. induction fuel as [|fuel IH]; intros last data ids H; [done|]. cbn in H.
  destruct (ReadShortChannelID data) as [[cid data']|[]|] eqn:E; try done;
    try (destruct clean; [|done]; simplify_eq; split_and!; [constructor|apply above_nil|constructor]).
  destruct (unsorted last cid) eqn:Hu; [done|]. obind_inv H. simplify_eq.
  destruct (IH _ _ _ Hstep) as (Hs & Hab & Hwf).
  destruct (unsorted_inv _ _ _ Hu Hs Hab). apply codec_wf in E.
  split_and!; [done|done|by constructor].
Qed.

#[global] Instance sid_le_total : Total sid_le.
Proof. intros a b. unfold sid_le. lia. Qed.

#[global] Instance sid_le_trans : Transitive sid_le.
Proof. intros a b c. unfold sid_le. lia. Qed.

Lemma sortIDs_perm noSort ids : sortIDs noSort ids ≡ₚ ids.
Proof. destruct noSort; [done|apply merge_sort_Permutation]. Qed.

(** Distinct well-formed ids are strictly increasing once sorted. *)
Lemma sortIDs_strict ids :
  Forall wf_scid ids -> NoDup ids -> StronglySorted sid_lt (sortIDs false ids).
Proof.
  intros Hwf Hnd.
  assert (StronglySorted sid_le (sortIDs false ids)) as Hs
    by apply (StronglySorted_merge_sort sid_le).
  rewrite <- (sortIDs_perm false ids) in Hwf, Hnd.
  induction Hs as [|c l Hs IH Hall]; [constructor|].
  apply NoDup_cons in Hnd as [Hc Hnd]. apply Forall_cons in Hwf as [Hwc Hwf].
  constructor; [by apply IH|]. rewrite Forall_forall in Hall, Hwf |- *. intros d Hd.
  specialize (Hall d Hd). unfold sid_le, sid_lt in *.
  destruct (decide (ToUint64 c = ToUint64 d)) as [E|]; [|lia].
  apply ToUint64_inj in E; [by subst|done|by apply Hwf].
Qed.

Section laws.
Context {ZL : Zlib} {ZLL : ZlibLaws}.

(** The type invariant of a set to be sent: the ids are distinct (already in
    order when they are not sorted) and fit the 16-bit length of the body. *)
Definition wf_ids (encodingType : Z) (ids : list ShortChannelID) (noSort : bool) : Prop :=
  Forall wf_scid ids /\ NoDup ids /\ (noSort = true -> StronglySorted sid_lt ids) /\
  ((encodingType = EncodingSortedPlain /\ Z.of_nat (length ids) < 8192) \/
   (encodingType = EncodingSortedZlib /\
    forall bs, writes (writeIDs (sortIDs noSort ids)) bs ->
      Z.of_nat (length (compress bs)) < 65535)).

Lemma decode_framed enc body rest res :
  Z.of_nat (length body) < 65535 -> in_u 8 enc ->
  decodeBody enc body = Ok res ->
  decodeShortChanIDs (be_put 2 (Z.of_nat (length body) + 1) ++ be_put 1 enc ++ body ++ rest)
  = Ok (res, rest).
Proof.
  intros Hl He Hd. unfold decodeShortChanIDs, ReadUint16, rbind, rret.
  rewrite (ReadFull_app (be_put 2 _)).
  rewrite be_get_put_id by (change (256 ^ Z.of_nat 2) with 65536; lia).
  rewrite bool_decide_eq_false_2 by lia.
  replace (Z.to_nat (Z.of_nat (length body) + 1)) with (length (be_put 1 enc ++ body))
    by (rewrite length_app, length_be_put; lia).
  rewrite app_assoc, ReadFull_app.
  change (be_put 1 enc ++ body) with (byte_of_Z (Z.shiftr enc 0) :: body).
  rewrite Z.shiftr_0_r, byte_Z_of_Z. unfold u8. rewrite Z.mod_small by done.
  cbv beta iota. by rewrite Hd.
Qed.

Lemma ids_rt enc ids noSort :
  wf_ids enc ids noSort ->
  rt (encodeShortChanIDs enc ids noSort) decodeShortChanIDs (enc, sortIDs noSort ids).
Proof.
  intros (Hwf & Hnd & Hns & Henc).
  assert (StronglySorted sid_lt (sortIDs noSort ids)) as Hs.
  { destruct noSort; [by apply Hns|by apply sortIDs_strict]. }
  rewrite <- (sortIDs_perm noSort ids) in Hwf. unfold encodeShortChanIDs.
  assert (length (sortIDs noSort ids) = length ids) as Hlen
    by (by rewrite (sortIDs_perm noSort ids)).
  revert Hs Hwf Hlen Henc. generalize (sortIDs noSort ids) as l. intros l Hs Hwf Hlen Henc.
  destruct (writes_ids l Hwf) as (bs & Hw & Hl).
  destruct Henc as [[-> Hn]|[-> Hn]].
  - exists (be_put 2 (Z.of_nat (length bs) + 1) ++ be_put 1 EncodingSortedPlain ++ bs). split.
    + rewrite bool_decide_eq_true_2 by done. rewrite (u16_id (_ * 8)) by (unfold in_u; lia).
      rewrite u16_id by (unfold in_u; lia).
      replace (Z.of_nat (length l) * 8 + 1) with (Z.of_nat (length bs) + 1) by lia.
      apply writes_seq; [apply writes_bytes|]. apply writes_seq; [apply writes_bytes|done].
    + intros rest. rewrite <- !app_assoc. apply decode_framed; [lia|done|].
      unfold decodeBody. rewrite bool_decide_eq_true_2 by done.
      rewrite Hl, (Nat.mul_comm 8), Nat.Div0.mod_mul, Nat.div_mul by lia.
      rewrite bool_decide_eq_false_2 by lia.
      pose proof (readPlain_rt l None bs [] Hwf Hs I Hw) as Hr. rewrite app_nil_r in Hr.
      by rewrite Hr.
  - specialize (Hn bs Hw).
    assert (forall body, Z.of_nat (length body) < 65535 ->
      decodeBody EncodingSortedZlib body = Ok (EncodingSortedZlib, l) ->
      rt (WriteUint16 (u16 (Z.of_nat (length body) + 1)) ;;>
          WriteShortChanIDEncoding EncodingSortedZlib ;;> WriteBytes body)
        decodeShortChanIDs (EncodingSortedZlib, l)) as Hbody.
    { intros body Hb Hd.
      exists (be_put 2 (Z.of_nat (length body) + 1) ++ be_put 1 EncodingSortedZlib ++ body). split.
      - rewrite u16_id by (unfold in_u; lia). repeat (apply writes_seq; [apply writes_bytes|]).
        apply writes_bytes.
      - intros rest. rewrite <- !app_assoc. by apply decode_framed. }
    rewrite bool_decide_eq_false_2, bool_decide_eq_true_2 by done.
    destruct l as [|c l]; [by apply Hbody|].
    rewrite bool_decide_eq_false_2 by done. rewrite (Hw []). cbn [app]. cbv zeta.
    apply Hbody; [done|]. unfold decodeBody.
    rewrite bool_decide_eq_false_2, bool_decide_eq_true_2 by done.
    rewrite bool_decide_eq_false_2 by apply compress_nonempty.
    rewrite decompress_compress. rewrite (readZlib_rt (c :: l)); [done|done|done|done|done|lia].
Qed.

(** Whatever bytes a peer sends, the ids accepted are well formed and strictly
    increasing. *)
Lemma decode_sorted bs enc ids rest :
  decodeShortChanIDs bs = Ok (enc, ids, rest) ->
  StronglySorted sid_lt ids /\ Forall wf_scid ids /\ in_u 8 enc.
Proof.
  unfold decodeShortChanIDs. intros H. apply rbind_ok_inv in H as (n & bs1 & _ & H).
  case_bool_decide; [inversion H; subst; split_and!; [constructor|constructor|done]|].
  apply rbind_ok_inv in H as ([|e body] & bs2 & _ & H); [done|].
  obind_inv H. simplify_eq. pose proof (byte_Z_range e). unfold decodeBody in Hstep.
  case_bool_decide.
  - case_bool_decide; [done|]. obind_inv Hstep. destruct a as [l r]. simplify_eq.
    by apply readPlain_sorted in Hstep0 as (? & _ & ? & _).
  - case_bool_decide; [|done]. case_bool_decide; simplify_eq.
    { split_and!; [constructor|constructor|done]. }
    destruct (decompress body) as [[data clean]|]; [|done]. obind_inv Hstep. simplify_eq.
    by apply readZlib_sorted in Hstep0 as (? & _ & ?).
Qed.

Lemma ReadFull_nopanic n bs : ReadFull n bs <> Panic.
Proof. unfold ReadFull. by repeat case_bool_decide. Qed.

Lemma readPlain_nopanic n last bs : readPlain n last bs <> Panic.
Proof.
  revert last bs. induction n as [|n IH]; intros last bs; [done|]. cbn. unfold rbind at 1.
  pose proof (ReadShortChannelID_nopanic bs).
  destruct (ReadShortChannelID bs) as [[cid bs']| |]; [|done..].
  destruct (unsorted last cid); [done|]. unfold rbind.
  pose proof (IH (Some cid) bs'). by destruct (readPlain n (Some cid) bs') as [[? ?]| |].
Qed.

(** Decoding any bytes ends in a value or an error. *)
Lemma decode_nopanic bs : decodeShortChanIDs bs <> Panic.
Proof.
  unfold decodeShortChanIDs, ReadUint16, rbind, rret.
  pose proof (ReadFull_nopanic 2 bs). destruct (ReadFull 2 bs) as [[nb bs1]| |]; [|done..].
  case_bool_decide; [done|].
  pose proof (ReadFull_nopanic (Z.to_nat (be_get nb)) bs1).
  destruct (ReadFull _ bs1) as [[body bs2]| |] eqn:E; [|done..].
  apply ReadFull_ok_inv in E as [El _]. destruct body as [|e body].
  { cbn in El. pose proof (be_get_range nb). lia. }
  enough (decodeBody (byte_Z e) body <> Panic) as Hb.
  { by destruct (decodeBody (byte_Z e) body). }
  unfold decodeBody. repeat case_bool_decide; try done.
  - pose proof (readPlain_nopanic (Nat.div (length body) 8) None body).
    by destruct (readPlain _ _ _) as [[? ?]| |].
  - destruct (decompress body) as [[data clean]|]; [|done].
    pose proof (readZlib_total (S (length data)) clean None data (Nat.lt_succ_diag_r _)).
    by destruct (readZlib _ _ _ _).
Qed.

End laws.
End ShortChanIDs.

(** ** [QueryShortChanIDs] (lnwire/query_short_chan_ids.go) *)

Module QueryShortChanIDs.
Section with_params.
Context {ZL : Zlib} {ZLL : ZlibLaws}.

Record t := mk {
  ChainHash : list byte;
  EncodingType : Z;
  ShortChanIDs : list ShortChannelID;
  ExtraData : list byte;
  noSort : bool;
}.

Definition MsgType : Z := MsgQueryShortChanIDs.

Definition NewQueryShortChanIDs (h : list byte) (e : Z) (s : list ShortChannelID) : t :=
  {| ChainHash := h; EncodingType := e; ShortChanIDs := s; ExtraData := []; noSort := false |}.

Definition Encode (q : t) : writer :=
  WriteBytes (ChainHash q) ;;>
  ShortChanIDs.encodeShortChanIDs (EncodingType q) (ShortChanIDs q) (noSort q) ;;>
  WriteBytes (ExtraData q).

Definition Decode : reader t :=
  chainHash' <-- ReadFull 32 ;
  ids' <-- ShortChanIDs.decodeShortChanIDs ;
  extraData' <-- ReadExtraOpaqueData ;
  rret {| ChainHash := chainHash'; EncodingType := ids'.1; ShortChanIDs := ids'.2;
          ExtraData := extraData'; noSort := false |}.

Definition wf (q : t) : Prop :=
  length (ChainHash q) = 32%nat /\
  ShortChanIDs.wf_ids (EncodingType q) (ShortChanIDs q) (noSort q).

(** The message as it is received: sorted, and with the test-only flag reset. *)
Definition sorted (q : t) : t :=
  {| ChainHash := ChainHash q; EncodingType := EncodingType q;
     ShortChanIDs := ShortChanIDs.sortIDs (noSort q) (ShortChanIDs q);
     ExtraData := ExtraData q; noSort := false |}.

Lemma QueryShortChanIDs_rt q : wf q -> rt_end (Encode q) Decode (sorted q).
Proof.
  intros [H1 H2]. unfold Encode, Decode, sorted.
  eapply rt_end_seq; [by apply codec_rt|].
  eapply rt_end_seq; [by apply ShortChanIDs.ids_rt|]. eexists. by split.
Qed.

Lemma QueryShortChanIDs_decode_sorted bs q rest :
  Decode bs = Ok (q, rest) ->
  length (ChainHash q) = 32%nat /\ StronglySorted ShortChanIDs.sid_lt (ShortChanIDs q)
  /\ Forall wf_scid (ShortChanIDs q).
Proof.
  unfold Decode. intros H. apply rbind_ok_inv in H as (? & ? & Hc%codec_wf & H).
  apply rbind_ok_inv in H as ([enc ids] & ? & Hi & H).
  apply ShortChanIDs.decode_sorted in Hi as (? & ? & _).
  apply rbind_ok_inv in H as (? & ? & _ & H). by inversion H; subst.
Qed.

End with_params.
End QueryShortChanIDs.

(** ** [ReplyChannelRange] (lnwire/reply_channel_range.go) *)

Module ReplyChannelRange.
Section with_params.
Context {ZL : Zlib} {ZLL : ZlibLaws}.

Record t := mk {
  ChainHash : list byte;
  FirstBlockHeight : Z;
  NumBlocks : Z;
  Complete : Z;
  EncodingType : Z;
  ShortChanIDs : list ShortChannelID;
  ExtraData : list byte;
  noSort : bool;
}.

Definition MsgType : Z := MsgReplyChannelRange.

Definition Encode (c : t) : writer :=
  WriteBytes (ChainHash c) ;;>
  WriteUint32 (FirstBlockHeight c) ;;>
  WriteUint32 (NumBlocks c) ;;>
  WriteUint8 (Complete c) ;;>
  ShortChanIDs.encodeShortChanIDs (EncodingType c) (ShortChanIDs c) (noSort c) ;;>
  WriteBytes (ExtraData c).

Definition Decode : reader t :=
  chainHash' <-- ReadFull 32 ;
  firstBlockHeight' <-- ReadUint32 ;
  numBlocks' <-- ReadUint32 ;
  complete' <-- ReadUint8 ;
  ids' <-- ShortChanIDs.decodeShortChanIDs ;
  extraData' <-- ReadExtraOpaqueData ;
  rret {| ChainHash := chainHash'; FirstBlockHeight := firstBlockHeight';
          NumBlocks := numBlocks'; Complete := complete';
          EncodingType := ids'.1; ShortChanIDs := ids'.2;
          ExtraData := extraData'; noSort := false |}.

Definition wf (c : t) : Prop :=
  length (ChainHash c) = 32%nat /\ in_u 32 (FirstBlockHeight c) /\ in_u 32 (NumBlocks c) /\
  in_u 8 (Complete c) /\
  ShortChanIDs.wf_ids (EncodingType c) (ShortChanIDs c) (noSort c).

Definition sorted (c : t) : t :=
  {| ChainHash := ChainHash c; FirstBlockHeight := FirstBlockHeight c;
     NumBlocks := NumBlocks c; Complete := Complete c; EncodingType := EncodingType c;
     ShortChanIDs := ShortChanIDs.sortIDs (noSort c) (ShortChanIDs c);
     ExtraData := ExtraData c; noSort := false |}.

(** The sum is taken in 64 bits, so that it saturates instead of wrapping. *)
Definition LastBlockHeight (c : t) : Z :=
  let lastBlockHeight := u64 (FirstBlockHeight c + NumBlocks c - 1) in
  if bool_decide (lastBlockHeight > 2 ^ 32 - 1) then 2 ^ 32 - 1 else u32 lastBlockHeight.

Lemma ReplyChannelRange_rt c : wf c -> rt_end (Encode c) Decode (sorted c).
Proof.
  intros (H1 & H2 & H3 & H4 & H5). unfold Encode, Decode, sorted.
  do 4 (eapply rt_end_seq; [by apply codec_rt|]).
  eapply rt_end_seq; [by apply ShortChanIDs.ids_rt|]. eexists. by split.
Qed.

Lemma ReplyChannelRange_decode_sorted bs c rest :
  Decode bs = Ok (c, rest) ->
  length (ChainHash c) = 32%nat /\ in_u 32 (FirstBlockHeight c) /\ in_u 32 (NumBlocks c) /\
  in_u 8 (Complete c) /\ StronglySorted ShortChanIDs.sid_lt (ShortChanIDs c)
  /\ Forall wf_scid (ShortChanIDs c).
Proof.
  unfold Decode. intros H. do 4 apply rbind_ok_inv in H as (? & ? & ?%codec_wf & H).
  apply rbind_ok_inv in H as ([enc ids] & ? & Hi & H).
  apply ShortChanIDs.decode_sorted in Hi as (? & ? & _).
  apply rbind_ok_inv in H as (? & ? & _ & H). by inversion H; subst.
Qed.

End with_params.
End ReplyChannelRange.

(** ** Network addresses (lnwire/writer.go, lnwire/lnwire.go) *)

(** The [tor] package: its base-32 coder. *)
Class Tor := {
  Base32Encode : list byte -> list byte;
  Base32Decode : list byte -> option (list byte);
}.

Class TorLaws `{!Tor} : Prop := {
  base32_decode_encode : forall bs, Base32Decode (Base32Encode bs) = Some bs;
  base32_length : forall bs n, length bs = (5 * n)%nat -> length (Base32Encode bs) = (8 * n)%nat;
}.

(** [net.IP] of the Go library: four or sixteen bytes. *)
Definition v4InV6Prefix : list byte := replicate 10 x00 ++ [xff; xff].

Definition To4 (ip : list byte) : option (list byte) :=
  if bool_decide (length ip = 4%nat) then Some ip
  else if bool_decide (length ip = 16%nat /\ take 12 ip = v4InV6Prefix) then Some (drop 12 ip)
  else None.

Definition To16 (ip : list byte) : list byte :=
  if bool_decide (length ip = 4%nat) then v4InV6Prefix ++ ip
  else if bool_decide (length ip = 16%nat) then ip
  else [].

Record TCPAddr := mkTCPAddr { IP : list byte; TCPPort : Z }.
Record OnionAddr := mkOnionAddr { OnionService : list byte; OnionPort : Z }.

(** A [net.Addr] of the list: a pointer of one of the two known types, possibly
    nil, or a value of another type. *)
Inductive net_addr : Type :=
  | ATcp (a : option TCPAddr)
  | AOnion (a : option OnionAddr)
  | AOther.

Definition noAddr : Z := 0.
Definition tcp4Addr : Z := 1.
Definition tcp6Addr : Z := 2.
Definition v2OnionAddr : Z := 3.
Definition v3OnionAddr : Z := 4.

Definition AddrLen (a : Z) : Z :=
  if bool_decide (a = noAddr) then 0
  else if bool_decide (a = tcp4Addr) then 6
  else if bool_decide (a = tcp6Addr) then 18
  else if bool_decide (a = v2OnionAddr) then 12
  else if bool_decide (a = v3OnionAddr) then 37
  else 0.

(** Constants of the [tor] package. *)
Definition OnionSuffix : list byte := [x2e; x6f; x6e; x69; x6f; x6e].
Definition V2Len : nat := 22.
Definition V3Len : nat := 62.
Definition V2DecodedLen : nat := 10.
Definition V3DecodedLen : nat := 35.

Section addrs.
Context {TR : Tor}.

Definition WriteTCPAddr (addr : option TCPAddr) : writer :=
  match addr with
  | None => werror ErrNilTCPAddress
  | Some a =>
      WriteBytes
        match To4 (IP a) with
        | Some ip4 => byte_of_Z tcp4Addr :: ip4
        | None => byte_of_Z tcp6Addr :: To16 (IP a)
        end ;;>
      WriteUint16 (u16 (TCPPort a))
  end.

Definition WriteOnionAddr (addr : option OnionAddr) : writer :=
  match addr with
  | None => werror ErrNilOnionAddress
  | Some a =>
      let write descriptor suffixIndex :=
        match Base32Decode (take suffixIndex (OnionService a)) with
        | None => werror ErrBase32
        | Some host =>
            WriteBytes [byte_of_Z descriptor] ;;> WriteBytes host ;;>
            WriteUint16 (u16 (OnionPort a))
        end in
      if bool_decide (length (OnionService a) = V2Len) then
        write v2OnionAddr (V2Len - length OnionSuffix)%nat
      else if bool_decide (length (OnionService a) = V3Len) then
        write v3OnionAddr (V3Len - length OnionSuffix)%nat
      else werror ErrUnknownServiceLength
  end.

Definition WriteNetAddr (a : net_addr) : writer :=
  match a with
  | ATcp a => WriteTCPAddr a
  | AOnion a => WriteOnionAddr a
  | AOther => werror ErrNilNetAddress
  end.

(** The addresses go to an intermediate buffer first. *)
Definition WriteNetAddrs (addresses : list net_addr) : writer := fun buf =>
  match foldr (fun a w => WriteNetAddr a ;;> w) wnil addresses [] with
  | (addrBuf, Ok tt) => writeDataWithLength addrBuf buf
  | (_, Err e) => (buf, Err e)
  | (_, Panic) => (buf, Panic)
  end.

Definition readTCP (n : nat) : reader net_addr :=
  ip <-- ReadFull n ; port <-- ReadFull 2 ;
  rret (ATcp (Some {| IP := ip; TCPPort := be_get port |})).

Definition readOnion (n : nat) : reader net_addr :=
  h <-- ReadFull n ; p <-- ReadFull 2 ;
  rret (AOnion (Some {| OnionService := Base32Encode h ++ OnionSuffix; OnionPort := be_get p |})).

(** The body of the loop for one descriptor; [None] is the blank address. *)
Definition readAddr (aType : Z) : reader (option net_addr) :=
  if bool_decide (aType = noAddr) then rret None
  else if bool_decide (aType = tcp4Addr) then a <-- readTCP 4 ; rret (Some a)
  else if bool_decide (aType = tcp6Addr) then a <-- readTCP 16 ; rret (Some a)
  else if bool_decide (aType = v2OnionAddr) then a <-- readOnion V2DecodedLen ; rret (Some a)
  else if bool_decide (aType = v3OnionAddr) then a <-- readOnion V3DecodedLen ; rret (Some a)
  else rerr (ErrUnknownAddrType aType).

(** The loop [for addrBytesRead < addrsLen]; every turn consumes a byte, so a
    fuel above the number of bytes is never used up. *)
Fixpoint readAddrs (fuel : nat) (addrBytesRead addrsLen : Z) (addrBuf : list byte) :
    outcome wire_err (list net_addr) :=
  match fuel with
  | O => Panic
  | S fuel' =>
      if bool_decide (addrBytesRead < addrsLen) then
        '(descriptor, addrBuf) <~ ReadFull 1 addrBuf ;
        let aType := be_get descriptor in
        '(a, addrBuf) <~ readAddr aType addrBuf ;
        rest <~ readAddrs fuel' (u16 (u16 (addrBytesRead + 1) + AddrLen aType)) addrsLen addrBuf ;
        Ok (match a with None => rest | Some a => a :: rest end)
      else Ok []
  end.

Definition ReadNetAddrs : reader (list net_addr) :=
  numAddrsBytes <-- ReadFull 2 ;
  addrs <-- ReadFull (Z.to_nat (be_get numAddrsBytes)) ;
  fun r =>
    l <~ readAddrs (S (length addrs)) 0 (be_get numAddrsBytes) addrs ; Ok (l, r).

End addrs.

(** ** Node aliases (lnwire/node_announcement.go) *)

(** [utf8.ValidString] of the Go library: the well-formed byte sequences of the
    Unicode standard, table 3-7. *)
Definition in_range (lo hi : Z) (b : byte) : bool :=
  bool_decide (lo <= byte_Z b) && bool_decide (byte_Z b <= hi).

Definition tail_byte : byte -> bool := in_range 0x80 0xBF.

Fixpoint utf8_valid (s : list byte) : bool :=
  match s with
  | [] => true
  | b :: s1 =>
      if in_range 0x00 0x7F b then utf8_valid s1
      else match s1 with
      | [] => false
      | c :: s2 =>
          if in_range 0xC2 0xDF b && tail_byte c then utf8_valid s2
          else match s2 with
          | [] => false
          | d :: s3 =>
              if tail_byte d &&
                 (in_range 0xE0 0xE0 b && in_range 0xA0 0xBF c ||
                  in_range 0xE1 0xEC b && tail_byte c ||
                  in_range 0xED 0xED b && in_range 0x80 0x9F c ||
                  in_range 0xEE 0xEF b && tail_byte c)
              then utf8_valid s3
              else match s3 with
              | [] => false
              | e :: s4 =>
                  tail_byte d && tail_byte e &&
                  (in_range 0xF0 0xF0 b && in_range 0x90 0xBF c ||
                   in_range 0xF1 0xF3 b && tail_byte c ||
                   in_range 0xF4 0xF4 b && in_range 0x80 0x8F c) &&
                  utf8_valid s4
              end
          end
      end
  end.

Definition NewNodeAlias (s : list byte) : outcome wire_err (list byte) :=
  if bool_decide (32 < length s)%nat then Err (ErrAliasTooLarge (length s))
  else if utf8_valid s then Ok (s ++ replicate (32 - length s) x00)
  else Err ErrInvalidNodeAlias.

Definition ReadNodeAlias : reader (list byte) :=
  a <-- ReadFull 32 ; fun r => alias <~ NewNodeAlias a ; Ok (alias, r).

Definition wf_alias (a : list byte) : Prop := length a = 32%nat /\ utf8_valid a = true.

#[global] Instance codec_alias : Codec wf_alias WriteNodeAlias ReadNodeAlias.
Proof.
  assert (forall a, wf_alias a -> NewNodeAlias a = Ok a) as Hid.
  { intros a [Hl Hv]. unfold NewNodeAlias. rewrite bool_decide_eq_false_2 by lia.
    rewrite Hv, Hl. cbn [replicate Nat.sub]. by rewrite app_nil_r. }
  split.
  - intros a Ha. exists a. split; [apply writes_bytes|]. intros rest.
    unfold ReadNodeAlias, rbind. rewrite <- (proj1 Ha), ReadFull_app, Hid by done. done.
  - intros bs a rest H. unfold ReadNodeAlias in H.
    apply rbind_ok_inv in H as (a' & ? & [Hl _]%ReadFull_ok_inv & H). obind_inv H.
    unfold NewNodeAlias in Hstep. case_bool_decide; [done|].
    destruct (utf8_valid a') eqn:E; [|done]. simplify_eq.
    rewrite Hl. cbn [replicate Nat.sub]. by rewrite app_nil_r.
Qed.

(** *** Round trip of address lists *)

Section addr_laws.
Context {TR : Tor} {TRL : TorLaws}.

(** An address that survives the wire: an IPv4 address in its short form, an
    IPv6 address that is not an IPv4-mapped one, or an onion service of one of
    the two lengths. *)
Definition wf_addr (a : net_addr) : Prop :=
  match a with
  | ATcp (Some a) =>
      in_u 16 (TCPPort a) /\
      (length (IP a) = 4%nat \/ (length (IP a) = 16%nat /\ To4 (IP a) = None))
  | AOnion (Some a) =>
      in_u 16 (OnionPort a) /\
      exists h, OnionService a = Base32Encode h ++ OnionSuffix /\
        (length h = V2DecodedLen \/ length h = V3DecodedLen)
  | _ => False
  end.

Lemma read_ip_port n ip port rest :
  length ip = n -> in_u 16 port ->
  readTCP n (ip ++ be_put 2 (u16 port) ++ rest)
  = Ok (ATcp (Some {| IP := ip; TCPPort := port |}), rest).
Proof.
  intros <- Hp. unfold readTCP, rbind. rewrite ReadFull_app, (ReadFull_app (be_put 2 _)).
  unfold rret. by rewrite (u16_id port), be_get_put_id by done.
Qed.

Lemma read_onion_port n h port rest :
  length h = n -> in_u 16 port ->
  readOnion n (h ++ be_put 2 (u16 port) ++ rest)
  = Ok (AOnion (Some {| OnionService := Base32Encode h ++ OnionSuffix; OnionPort := port |}), rest).
Proof.
  intros <- Hp. unfold readOnion, rbind. rewrite ReadFull_app, (ReadFull_app (be_put 2 _)).
  unfold rret. by rewrite (u16_id port), be_get_put_id by done.
Qed.

Lemma addr_rt a :
  wf_addr a ->
  exists d body, writes (WriteNetAddr a) (byte_of_Z d :: body) /\ in_u 8 d /\
    Z.of_nat (length body) = AddrLen d /\
    forall rest, readAddr d (body ++ rest) = Ok (Some a, rest).
Proof.
  destruct a as [[[ip port]|]|[[svc port]|]|]; try done; cbn.
  - intros (Hp & [H4|[H16 Hno]]).
    + exists tcp4Addr, (ip ++ be_put 2 (u16 port)). unfold To4. rewrite bool_decide_eq_true_2 by done.
      split; [apply (writes_seq _ _ (byte_of_Z tcp4Addr :: ip)); apply writes_bytes|].
      split; [done|]. rewrite length_app, length_be_put. split; [by rewrite H4|].
      intros rest. rewrite <- app_assoc. change (readAddr tcp4Addr) with (rbind (readTCP 4) (fun a => rret (Some a))).
      unfold rbind. by rewrite read_ip_port.
    + exists tcp6Addr, (ip ++ be_put 2 (u16 port)). rewrite Hno. unfold To16.
      rewrite bool_decide_eq_false_2, bool_decide_eq_true_2 by lia.
      split; [apply (writes_seq _ _ (byte_of_Z tcp6Addr :: ip)); apply writes_bytes|].
      split; [done|]. rewrite length_app, length_be_put. split; [by rewrite H16|].
      intros rest. rewrite <- app_assoc. change (readAddr tcp6Addr) with (rbind (readTCP 16) (fun a => rret (Some a))).
      unfold rbind. by rewrite read_ip_port.
  - intros (Hp & h & -> & [Hl|Hl]).
    + assert (length (Base32Encode h) = 16%nat) as He by (by apply (base32_length h 2)).
      exists v2OnionAddr, (h ++ be_put 2 (u16 port)).
      rewrite length_app, He, bool_decide_eq_true_2 by done.
      change (V2Len - length OnionSuffix)%nat with 16%nat.
      rewrite <- He, take_app_length, base32_decode_encode.
      split; [apply (writes_seq _ _ [byte_of_Z v2OnionAddr]); [apply writes_bytes|];
              apply writes_seq; apply writes_bytes|].
      split; [done|]. rewrite length_app, length_be_put. split; [by rewrite Hl|].
      intros rest. rewrite <- app_assoc. change (readAddr v2OnionAddr) with
        (rbind (readOnion V2DecodedLen) (fun a => rret (Some a))).
      unfold rbind. by rewrite read_onion_port.
    + assert (length (Base32Encode h) = 56%nat) as He by (by apply (base32_length h 7)).
      exists v3OnionAddr, (h ++ be_put 2 (u16 port)).
      rewrite length_app, He, bool_decide_eq_false_2, bool_decide_eq_true_2 by done.
      change (V3Len - length OnionSuffix)%nat with 56%nat.
      rewrite <- He, take_app_length, base32_decode_encode.
      split; [apply (writes_seq _ _ [byte_of_Z v3OnionAddr]); [apply writes_bytes|];
              apply writes_seq; apply writes_bytes|].
      split; [done|]. rewrite length_app, length_be_put. split; [by rewrite Hl|].
      intros rest. rewrite <- app_assoc. change (readAddr v3OnionAddr) with
        (rbind (readOnion V3DecodedLen) (fun a => rret (Some a))).
      unfold rbind. by rewrite read_onion_port.
Qed.

Definition writeAddrs (addresses : list net_addr) : writer :=
  foldr (fun a w => WriteNetAddr a ;;> w) wnil addresses.

Lemma writes_addrs addresses :
  Forall wf_addr addresses -> exists bs, writes (writeAddrs addresses) bs.
Proof.
  induction 1 as [|a l Ha _ (bs & Hw)]; [exists []; apply writes_nil|].
  destruct (addr_rt a Ha) as (d & body & Hwa & _). eexists. by apply writes_seq.
Qed.

Lemma readAddrs_rt addresses bs fuel read total :
  Forall wf_addr addresses -> writes (writeAddrs addresses) bs ->
  (length bs < fuel)%nat -> 0 <= read -> read + Z.of_nat (length bs) = total -> total < 65536 ->
  readAddrs fuel read total bs = Ok addresses.
Proof.
  intros Hwf. revert bs fuel read.
  induction Hwf as [|a l Ha Hwf IH]; intros bs fuel read Hw Hf H0 Ht Hmax;
    (destruct fuel as [|fuel]; [lia|]).
  - rewrite (writes_inj _ _ _ Hw writes_nil) in *. cbn in *.
    by rewrite bool_decide_eq_false_2 by lia.
  - destruct (addr_rt a Ha) as (d & body & Hwa & Hd & Hlen & Hr).
    destruct (writes_addrs l Hwf) as (bs2 & Hw2).
    rewrite (writes_inj _ _ _ Hw (writes_seq _ _ _ _ Hwa Hw2)) in *.
    cbn [app length] in Hf, Ht. rewrite length_app in Hf, Ht.
    cbn [readAddrs]. rewrite bool_decide_eq_true_2 by lia.
    pose proof (ReadFull_app [byte_of_Z d] (body ++ bs2)) as E1. cbn [app length] in E1 |- *.
    rewrite E1; cbn [obind]. rewrite be_get_cons, byte_Z_of_Z. unfold u8.
    rewrite Z.mod_small by done. cbn [length].
    change (256 ^ Z.of_nat 0) with 1. change (be_get []) with 0.
    rewrite Z.mul_1_r, Z.add_0_r, Hr; cbn [obind].
    rewrite <- Hlen, u16_id, u16_id by (unfold in_u; rewrite ?u16_id; unfold in_u; lia).
    rewrite (IH bs2); [done|done|lia..].
Qed.

(** The list of addresses fits its 16-bit length. *)
Definition wf_addrs (addresses : list net_addr) : Prop :=
  Forall wf_addr addresses /\
  forall bs, writes (writeAddrs addresses) bs -> Z.of_nat (length bs) < 65536.

Lemma addrs_rt addresses :
  wf_addrs addresses -> rt (WriteNetAddrs addresses) ReadNetAddrs addresses.
Proof.
  intros [Hwf Hlen]. destruct (writes_addrs addresses Hwf) as (bs & Hw).
  specialize (Hlen bs Hw). exists (be_put 2 (u16 (Z.of_nat (length bs))) ++ bs). split.
  - intros buf. unfold WriteNetAddrs. fold (writeAddrs addresses). rewrite (Hw []). cbn [app].
    unfold writeDataWithLength. apply (writes_seq _ _ _ _ (writes_bytes _) (writes_bytes _)).
  - intros rest. unfold ReadNetAddrs, rbind.
    destruct (len_prefix (length bs) (bs ++ rest) Hlen) as [E1 E2].
    rewrite <- app_assoc, E1, E2, ReadFull_app.
    assert (be_get (be_put 2 (u16 (Z.of_nat (length bs)))) = Z.of_nat (length bs)) as Eg.
    { rewrite u16_length by done. apply be_get_put_id. lia. }
    rewrite Eg, (readAddrs_rt addresses); [done|done|done|lia..].
Qed.

End addr_laws.

(** ** [NodeAnnouncement] (lnwire/node_announcement.go) *)

Module NodeAnnouncement.
Section with_params.
Context {TR : Tor} {TRL : TorLaws}.

Record t := mk {
  Signature : list byte;
  Features : option (gset Z);
  Timestamp : Z;
  NodeID : list byte;
  RGBColor : RGBA;
  Alias : list byte;
  Addresses : list net_addr;
  ExtraOpaqueData : list byte;
}.

Definition MsgType : Z := MsgNodeAnnouncement.

(** The part of the message covered by the signature. *)
Definition DataToSign (a : t) : writer :=
  WriteRawFeatureVector (Features a) ;;>
  WriteUint32 (Timestamp a) ;;>
  WriteBytes (NodeID a) ;;>
  WriteColorRGBA (RGBColor a) ;;>
  WriteNodeAlias (Alias a) ;;>
  WriteNetAddrs (Addresses a) ;;>
  WriteBytes (ExtraOpaqueData a).

Definition Encode (a : t) : writer :=
  WriteSig (Signature a) ;;>
  WriteRawFeatureVector (Features a) ;;>
  WriteUint32 (Timestamp a) ;;>
  WriteBytes (NodeID a) ;;>
  WriteColorRGBA (RGBColor a) ;;>
  WriteNodeAlias (Alias a) ;;>
  WriteNetAddrs (Addresses a) ;;>
  WriteBytes (ExtraOpaqueData a).

Definition Decode : reader t :=
  signature' <-- ReadSig ;
  features' <-- ReadRawFeatureVector ;
  timestamp' <-- ReadUint32 ;
  nodeID' <-- ReadArray33 ;
  rgbColor' <-- ReadColorRGBA ;
  alias' <-- ReadNodeAlias ;
  addresses' <-- ReadNetAddrs ;
  extra' <-- ReadExtraOpaqueData ;
  rret {| Signature := signature'; Features := features'; Timestamp := timestamp';
          NodeID := nodeID'; RGBColor := rgbColor'; Alias := alias';
          Addresses := addresses'; ExtraOpaqueData := extra' |}.

Definition wf (a : t) : Prop :=
  length (Signature a) = 64%nat /\ wf_features (Features a) /\ in_u 32 (Timestamp a) /\
  length (NodeID a) = 33%nat /\ wf_rgba (RGBColor a) /\ wf_alias (Alias a) /\
  wf_addrs (Addresses a).

Lemma NodeAnnouncement_rt a : wf a -> rt_end (Encode a) Decode a.
Proof.
  unfold wf, Encode, Decode. destruct a; cbn. intros. destruct_and!.
  do 6 (eapply rt_end_seq; [apply codec_rt; done|]).
  eapply rt_end_seq; [by apply addrs_rt|]. apply (rt_end_extra _ _).
Qed.

End with_params.
End NodeAnnouncement.
