(* ===== verification/WireModels.v ===== *)
(** * Models of the third-party packages used by lnwire

    The wire theorems hold for every implementation of the classes [Btcec],
    [Tlv], [Zlib] and [Tor] that satisfies their laws.  Here is one
    implementation of each, which shows that the laws are satisfiable and lets
    the witnesses run: compressed keys are the 33-byte strings, TLV streams are
    written with the BigSize integers of the protocol, the compressor stores its
    input behind a header byte, and the base-32 coder pads five bytes to eight. *)

From Stdlib Require Import ZArith Lia Sorted.
From stdpp Require Import sorting.
From S2P Require Import Prelude Wire Features WireMessages WireTlv WireGossip.

Local Open Scope Z_scope.
Local Open Scope go_scope.

(** ** Keys *)

Definition key33 : Type := dsig (fun bs : list byte => length bs = 33%nat).

Definition btcec_model : Btcec := {|
  pubkey := key33;
  SerializeCompressed := fun k => `k;
  ParsePubKey := fun bs =>
    match decide (length bs = 33%nat) with
    | left H => Some (dexist bs H)
    | right _ => None
    end;
|}.

Lemma btcec_model_laws : @BtcecLaws btcec_model.
Proof.
  split; cbn.
  - intros k. apply (proj2_dsig k).
  - intros k. case_decide as H; [|destruct (H (proj2_dsig k))].
    f_equal. by apply dsig_eq.
  - intros bs k Hl. case_decide; [|done]. by intros [= <-].
Qed.

(** ** TLV streams *)

Definition bigsize (n : Z) : list byte :=
  if bool_decide (n < 0xfd) then be_put 1 n
  else if bool_decide (n < 2 ^ 16) then xfd :: be_put 2 n
  else if bool_decide (n < 2 ^ 32) then xfe :: be_put 4 n
  else xff :: be_put 8 n.

Definition read_bigsize : reader Z :=
  d <-- ReadFull 1 ;
  if bool_decide (d = [xfd]) then ReadUint16
  else if bool_decide (d = [xfe]) then ReadUint32
  else if bool_decide (d = [xff]) then ReadUint64
  else rret (be_get d).

Definition increasing (l : list tlv_record) : bool :=
  match l with
  | [] => true
  | r :: rs => (fix go t rs := match rs with
                | [] => true
                | r :: rs => bool_decide (t < r.1) && go r.1 rs
                end) r.1 rs
  end.

Definition encode_record (r : tlv_record) : list byte :=
  bigsize r.1 ++ bigsize (Z.of_nat (length r.2)) ++ r.2.

Fixpoint parse_records (fuel : nat) (bs : list byte) : option (list tlv_record) :=
  match fuel, bs with
  | _, [] => Some []
  | O, _ => None
  | S fuel', _ =>
      match read_bigsize bs with
      | Ok (t, bs1) =>
          match read_bigsize bs1 with
          | Ok (l, bs2) =>
              if bool_decide (in_u 64 t /\ l <= 65535) then
                match ReadFull (Z.to_nat l) bs2 with
                | Ok (v, bs3) => rs ← parse_records fuel' bs3; Some ((t, v) :: rs)
                | _ => None
                end
              else None
          | _ => None
          end
      | _ => None
      end
  end.

#[global] Instance in_u_dec w z : Decision (in_u w z).
Proof. unfold in_u. apply _. Defined.

Definition rec_le (a b : tlv_record) : Prop := a.1 <= b.1.
#[local] Instance rec_le_dec a b : Decision (rec_le a b).
Proof. unfold rec_le. apply _. Defined.
#[local] Instance rec_le_total : Total rec_le.
Proof. intros a b. unfold rec_le. lia. Qed.
#[local] Instance rec_le_trans : Transitive rec_le.
Proof. intros a b c. unfold rec_le. lia. Qed.

Definition tlv_model : Tlv := {|
  SortRecords := merge_sort rec_le;
  StreamEncode := fun l => if increasing l then Some (concat (encode_record <$> l)) else None;
  StreamParse := fun bs => parse_records (length bs) bs;
|}.

Lemma bigsize_rt n : in_u 64 n -> forall rest, read_bigsize (bigsize n ++ rest) = Ok (n, rest).
Proof.
  intros Hn rest. unfold in_u in Hn. unfold bigsize.
  assert (forall d k (r : reader Z) m, (forall rest, r (be_put k m ++ rest) = Ok (m, rest)) ->
    (d = xfd /\ r = ReadUint16 \/ d = xfe /\ r = ReadUint32 \/ d = xff /\ r = ReadUint64) ->
    read_bigsize (d :: be_put k m ++ rest) = Ok (m, rest)) as Hgo.
  { intros d k r m Hr Hd. unfold read_bigsize, rbind.
    pose proof (ReadFull_app [d] (be_put k m ++ rest)) as E. cbn [app length] in E. rewrite E.
    destruct Hd as [[-> ->]|[[-> ->]|[-> ->]]]; cbn [bool_decide decide]; apply Hr. }
  assert (forall k m rest, 0 <= m < 256 ^ Z.of_nat k ->
    rbind (ReadFull k) (fun b => rret (be_get b)) (be_put k m ++ rest) = Ok (m, rest)) as Hrd.
  { intros k m r Hm. unfold rbind. pose proof (ReadFull_app (be_put k m) r) as E.
    rewrite length_be_put in E. rewrite E. unfold rret. by rewrite be_get_put_id. }
  repeat case_bool_decide.
  - unfold read_bigsize, rbind. rewrite (ReadFull_app (be_put 1 n)).
    assert (forall b, 0xfd <= byte_Z b -> be_put 1 n <> [b]) as Hne.
    { intros b Hb E. apply (f_equal be_get) in E. rewrite be_get_put_id in E by lia.
      rewrite be_get_cons in E. change (be_get []) with 0 in E. cbn [length] in E.
      change (256 ^ Z.of_nat 0) with 1 in E. lia. }
    rewrite !bool_decide_eq_false_2 by (by apply Hne). unfold rret.
    by rewrite be_get_put_id by lia.
  - cbn [app]. apply (Hgo _ _ ReadUint16); [|by auto]. intros. apply Hrd. lia.
  - cbn [app]. apply (Hgo _ _ ReadUint32); [|by auto]. intros. apply Hrd. lia.
  - cbn [app]. apply (Hgo _ _ ReadUint64); [|by auto]. intros. apply Hrd. lia.
Qed.

Lemma length_bigsize n : (0 < length (bigsize n))%nat.
Proof. unfold bigsize. repeat case_bool_decide; cbn [length]; rewrite ?length_be_put; lia. Qed.

Lemma parse_records_rt l fuel :
  Forall wf_record l -> (length (concat (encode_record <$> l)) <= fuel)%nat ->
  parse_records fuel (concat (encode_record <$> l)) = Some l.
Proof.
  intros Hwf. revert fuel. induction Hwf as [|[t v] l [Ht Hv] Hwf IH]; intros fuel Hf.
  - by destruct fuel.
  - cbn [fmap list_fmap concat] in *. unfold encode_record at 1. unfold encode_record at 1 in Hf.
    cbn [fst snd] in *. rewrite <- !app_assoc.
    set (tail := concat (encode_record <$> l)) in *.
    pose proof (length_bigsize t). rewrite !length_app in Hf.
    destruct fuel as [|fuel]; [lia|].
    destruct (bigsize t) as [|b bt] eqn:Eb; [cbn in *; lia|].
    cbn [parse_records app].
    change (b :: bt ++ bigsize (Z.of_nat (length v)) ++ v ++ tail)
      with ((b :: bt) ++ bigsize (Z.of_nat (length v)) ++ v ++ tail).
    rewrite <- Eb, bigsize_rt by done.
    rewrite bigsize_rt by (unfold in_u; lia).
    rewrite bool_decide_eq_true_2 by done. rewrite Nat2Z.id, ReadFull_app.
    rewrite IH; [done|]. cbn in Hf. lia.
Qed.

Lemma parse_records_wf fuel bs l : parse_records fuel bs = Some l -> Forall wf_record l.
Proof.
  revert bs l. induction fuel as [|fuel IH]; intros [|b bs] l H; cbn [parse_records] in H;
    simplify_eq; try apply Forall_nil_2.
  destruct (read_bigsize (b :: bs)) as [[t bs1]| |]; [|done..].
  destruct (read_bigsize bs1) as [[n bs2]| |]; [|done..].
  case_bool_decide as Hc; [|done].
  destruct (ReadFull (Z.to_nat n) bs2) as [[v bs3]| |] eqn:E; [|done..].
  apply bind_Some in H as (rs & Hrs & [= <-]). constructor; [|by eapply IH].
  apply ReadFull_ok_inv in E as [Hl _]. destruct Hc. split; [done|]. cbn. lia.
Qed.

Lemma increasing_sorted l : StronglySorted (fun a b => a.1 < b.1) l -> increasing l = true.
Proof.
  destruct l as [|r rs]; [done|]. cbn [increasing]. revert r.
  induction rs as [|r' rs IH]; intros r Hs; [done|].
  apply StronglySorted_inv in Hs as [Hs Hall]. apply Forall_cons in Hall as [Hr _].
  rewrite bool_decide_eq_true_2 by done. by apply IH.
Qed.

Lemma tlv_model_laws : @TlvLaws tlv_model.
Proof.
  split; cbn.
  - intros l. apply merge_sort_Permutation.
  - intros l. apply (StronglySorted_merge_sort rec_le).
  - intros l Hwf Hs. rewrite increasing_sorted by done. eexists. split; [done|].
    by apply parse_records_rt.
  - intros bs l. apply parse_records_wf.
Qed.

(** ** Compression *)

Definition zlib_model : Zlib := {|
  compress := fun bs => x78 :: bs;
  decompress := fun bs => match bs with x78 :: bs => Some (bs, true) | _ => None end;
|}.

Lemma zlib_model_laws : @ZlibLaws zlib_model.
Proof. by split. Qed.

(** ** Base-32 *)

Definition tor_model : Tor := {|
  Base32Encode := fun bs => bs ++ replicate (3 * (length bs / 5)) x00;
  Base32Decode := fun s =>
    if bool_decide (length s mod 8 < 5)%nat
    then Some (take (5 * (length s / 8) + length s mod 8) s) else None;
|}.

Lemma tor_model_laws : @TorLaws tor_model.
Proof.
  split; unfold tor_model; cbn [Base32Encode Base32Decode].
  - intros bs. rewrite length_app, length_replicate.
    pose proof (Nat.div_mod_eq (length bs) 5) as Hd.
    pose proof (Nat.mod_upper_bound (length bs) 5) as Hm.
    set (q := (length bs / 5)%nat) in *. set (r := (length bs mod 5)%nat) in *.
    assert (length bs + 3 * q = q * 8 + r)%nat as -> by lia.
    rewrite Nat.add_comm, Nat.Div0.mod_add, Nat.div_add, (Nat.mod_small r), (Nat.div_small r) by lia.
    rewrite bool_decide_eq_true_2 by lia. f_equal.
    replace (5 * (0 + q) + r)%nat with (length bs) by lia. apply take_app_length.
  - intros bs n Hl. rewrite length_app, length_replicate, Hl, (Nat.mul_comm 5), Nat.div_mul by lia.
    lia.
Qed.
