(* ===== verification/WireFrame.v ===== *)
(** * lnwire: messages on the wire

    Models lnwire/message.go: the message types, [makeEmptyMessage],
    [WriteMessage] with its clean-up of the buffer, and [ReadMessage].  The
    methods [MsgType], [Encode] and [Decode] of the [Message] interface are
    dispatched over the sum of all message structs. *)

From Stdlib Require Import ZArith Lia.
From S2P Require Import Prelude Wire Features WireMessages WireTlv WireGossip WireModels.

Local Open Scope Z_scope.
Local Open Scope go_scope.

(** The payload limit (lnwire/lnwire.go). *)
Definition MaxMsgBody : Z := 65533.

(** ** Writers append, readers do not panic

    A writer only appends to its buffer, whether it succeeds or fails; a reader
    returns a value or an error for every input.  Both are classes, so that the
    instance search walks through the structure of an [Encode] or [Decode]. *)

Class Appends (w : writer) : Prop :=
  appends : forall buf, exists bs, (w buf).1 = buf ++ bs.

Class Total {A} (r : reader A) : Prop :=
  total : forall bs, r bs <> Panic.

#[global] Instance appends_bytes bs : Appends (WriteBytes bs).
Proof. intros buf. by exists bs. Qed.

#[global] Instance appends_nil : Appends wnil.
Proof. intros buf. exists []. by rewrite app_nil_r. Qed.

#[global] Instance appends_error e : Appends (werror e).
Proof. intros buf. exists []. by rewrite app_nil_r. Qed.

#[global] Instance appends_panic : Appends (fun buf => (buf, Panic)).
Proof. intros buf. exists []. by rewrite app_nil_r. Qed.

#[global] Instance appends_seq a b : Appends a -> Appends b -> Appends (wseq a b).
Proof.
  intros Ha Hb buf. destruct (Ha buf) as [bs1 E1]. unfold wseq.
  destruct (a buf) as [buf1 [[]|e|]]; cbn in E1 |- *; subst; [|by exists bs1..].
  destruct (Hb (buf ++ bs1)) as [bs2 E2]. exists (bs1 ++ bs2). by rewrite E2, app_assoc.
Qed.

#[global] Instance appends_if (c : bool) a b : Appends a -> Appends b -> Appends (if c then a else b).
Proof. by destruct c. Qed.

#[global] Instance appends_foldr {A} (f : A -> writer) l :
  (forall a, Appends (f a)) -> Appends (foldr (fun a w => wseq (f a) w) wnil l).
Proof. intros Hf. induction l; cbn; apply _. Qed.

#[global] Instance appends_features f : Appends (WriteRawFeatureVector f).
Proof.
  destruct f as [fv|]; cbn; [|apply _]. intros buf.
  destruct (Raw.Encode (elements fv)) as [bs|e|]; [by exists bs|exists []..]; by rewrite app_nil_r.
Qed.

#[global] Instance total_readfull n : Total (ReadFull n).
Proof. intros bs. unfold ReadFull. by repeat case_bool_decide. Qed.

#[global] Instance total_ret {A} (a : A) : Total (rret a).
Proof. done. Qed.

#[global] Instance total_err {A} e : Total (@rerr A e).
Proof. done. Qed.

#[global] Instance total_extra : Total ReadExtraOpaqueData.
Proof. done. Qed.

#[global] Instance total_bind {A B} (m : reader A) (k : A -> reader B) :
  Total m -> (forall a, Total (k a)) -> Total (rbind m k).
Proof.
  intros Hm Hk bs. unfold rbind. pose proof (Hm bs). destruct (m bs) as [[a bs']| |]; [|done..].
  apply Hk.
Qed.

#[global] Instance total_if {A} (c : bool) (a b : reader A) :
  Total a -> Total b -> Total (if c then a else b).
Proof. by destruct c. Qed.

#[global] Instance total_sigs n : Total (ReadSigsLoop n).
Proof. induction n; cbn; unfold ReadSig; apply _. Qed.

#[global] Instance total_delivery : Total ReadDeliveryAddress.
Proof. apply total_bind; [apply _|]. intros a. cbv zeta. apply _. Qed.

(** ** The message interface *)

Section frame.
Context {BT : Btcec} {BL : BtcecLaws} {TL : Tlv} {TLL : TlvLaws}.
Context {ZL : Zlib} {ZLL : ZlibLaws} {TR : Tor} {TRL : TorLaws}.

Inductive message : Type :=
  | MInit (m : Init.t)
  | MOpenChannel (m : OpenChannel.t)
  | MAcceptChannel (m : AcceptChannel.t)
  | MFundingCreated (m : FundingCreated.t)
  | MFundingSigned (m : FundingSigned.t)
  | MFundingLocked (m : FundingLocked.t)
  | MShutdown (m : Shutdown.t)
  | MObShutdownSimpleSend (m : ObShutdownSimpleSend.t)
  | MClosingSigned (m : ClosingSigned.t)
  | MObClosingSignedSimpleSend (m : ObClosingSignedSimpleSend.t)
  | MUpdateAddHTLC (m : UpdateAddHTLC.t)
  | MUpdateFailHTLC (m : UpdateFailHTLC.t)
  | MUpdateFulfillHTLC (m : UpdateFulfillHTLC.t)
  | MCommitSig (m : CommitSig.t)
  | MRevokeAndAck (m : RevokeAndAck.t)
  | MUpdateFee (m : UpdateFee.t)
  | MUpdateFailMalformedHTLC (m : UpdateFailMalformedHTLC.t)
  | MChannelReestablish (m : ChannelReestablish.t)
  | MError (m : Error.t)
  | MChannelAnnouncement (m : ChannelAnnouncement.t)
  | MChannelUpdate (m : ChannelUpdate.t)
  | MNodeAnnouncement (m : NodeAnnouncement.t)
  | MPing (m : Ping.t)
  | MAnnounceSignatures (m : AnnounceSignatures.t)
  | MPong (m : Pong.t)
  | MQueryShortChanIDs (m : QueryShortChanIDs.t)
  | MReplyShortChanIDsEnd (m : ReplyShortChanIDsEnd.t)
  | MQueryChannelRange (m : QueryChannelRange.t)
  | MReplyChannelRange (m : ReplyChannelRange.t)
  | MGossipTimestampRange (m : GossipTimestampRange.t)
  | MCustom (m : Custom.t).

Definition MsgType (msg : message) : Z :=
  match msg with
  | MInit _ => Init.MsgType
  | MOpenChannel _ => OpenChannel.MsgType
  | MAcceptChannel _ => AcceptChannel.MsgType
  | MFundingCreated _ => FundingCreated.MsgType
  | MFundingSigned _ => FundingSigned.MsgType
  | MFundingLocked _ => FundingLocked.MsgType
  | MShutdown _ => Shutdown.MsgType
  | MObShutdownSimpleSend _ => ObShutdownSimpleSend.MsgType
  | MClosingSigned _ => ClosingSigned.MsgType
  | MObClosingSignedSimpleSend _ => ObClosingSignedSimpleSend.MsgType
  | MUpdateAddHTLC _ => UpdateAddHTLC.MsgType
  | MUpdateFailHTLC _ => UpdateFailHTLC.MsgType
  | MUpdateFulfillHTLC _ => UpdateFulfillHTLC.MsgType
  | MCommitSig _ => CommitSig.MsgType
  | MRevokeAndAck _ => RevokeAndAck.MsgType
  | MUpdateFee _ => UpdateFee.MsgType
  | MUpdateFailMalformedHTLC _ => UpdateFailMalformedHTLC.MsgType
  | MChannelReestablish _ => ChannelReestablish.MsgType
  | MError _ => Error.MsgType
  | MChannelAnnouncement _ => ChannelAnnouncement.MsgType
  | MChannelUpdate _ => ChannelUpdate.MsgType
  | MNodeAnnouncement _ => NodeAnnouncement.MsgType
  | MPing _ => Ping.MsgType
  | MAnnounceSignatures _ => AnnounceSignatures.MsgType
  | MPong _ => Pong.MsgType
  | MQueryShortChanIDs _ => QueryShortChanIDs.MsgType
  | MReplyShortChanIDsEnd _ => ReplyShortChanIDsEnd.MsgType
  | MQueryChannelRange _ => QueryChannelRange.MsgType
  | MReplyChannelRange _ => ReplyChannelRange.MsgType
  | MGossipTimestampRange _ => GossipTimestampRange.MsgType
  | MCustom m => Custom.Type_ m
  end.

Definition Encode (msg : message) : writer :=
  match msg with
  | MInit m => Init.Encode m
  | MOpenChannel m => OpenChannel.Encode m
  | MAcceptChannel m => AcceptChannel.Encode m
  | MFundingCreated m => FundingCreated.Encode m
  | MFundingSigned m => FundingSigned.Encode m
  | MFundingLocked m => FundingLocked.Encode m
  | MShutdown m => Shutdown.Encode m
  | MObShutdownSimpleSend m => ObShutdownSimpleSend.Encode m
  | MClosingSigned m => ClosingSigned.Encode m
  | MObClosingSignedSimpleSend m => ObClosingSignedSimpleSend.Encode m
  | MUpdateAddHTLC m => UpdateAddHTLC.Encode m
  | MUpdateFailHTLC m => UpdateFailHTLC.Encode m
  | MUpdateFulfillHTLC m => UpdateFulfillHTLC.Encode m
  | MCommitSig m => CommitSig.Encode m
  | MRevokeAndAck m => RevokeAndAck.Encode m
  | MUpdateFee m => UpdateFee.Encode m
  | MUpdateFailMalformedHTLC m => UpdateFailMalformedHTLC.Encode m
  | MChannelReestablish m => ChannelReestablish.Encode m
  | MError m => Error.Encode m
  | MChannelAnnouncement m => ChannelAnnouncement.Encode m
  | MChannelUpdate m => ChannelUpdate.Encode m
  | MNodeAnnouncement m => NodeAnnouncement.Encode m
  | MPing m => Ping.Encode m
  | MAnnounceSignatures m => AnnounceSignatures.Encode m
  | MPong m => Pong.Encode m
  | MQueryShortChanIDs m => QueryShortChanIDs.Encode m
  | MReplyShortChanIDsEnd m => ReplyShortChanIDsEnd.Encode m
  | MQueryChannelRange m => QueryChannelRange.Encode m
  | MReplyChannelRange m => ReplyChannelRange.Encode m
  | MGossipTimestampRange m => GossipTimestampRange.Encode m
  | MCustom m => Custom.Encode m
  end.

(** The [Decode] method of the empty message created for a type. *)
Definition makeEmptyMessage (msgType : Z) : outcome wire_err (reader message) :=
  if bool_decide (msgType = MsgInit) then
    Ok (m <-- Init.Decode ; rret (MInit m))
  else if bool_decide (msgType = MsgOpenChannel) then
    Ok (m <-- OpenChannel.Decode ; rret (MOpenChannel m))
  else if bool_decide (msgType = MsgAcceptChannel) then
    Ok (m <-- AcceptChannel.Decode ; rret (MAcceptChannel m))
  else if bool_decide (msgType = MsgFundingCreated) then
    Ok (m <-- FundingCreated.Decode ; rret (MFundingCreated m))
  else if bool_decide (msgType = MsgFundingSigned) then
    Ok (m <-- FundingSigned.Decode ; rret (MFundingSigned m))
  else if bool_decide (msgType = MsgFundingLocked) then
    Ok (m <-- FundingLocked.Decode ; rret (MFundingLocked m))
  else if bool_decide (msgType = MsgShutdown) then
    Ok (m <-- Shutdown.Decode ; rret (MShutdown m))
  else if bool_decide (msgType = MsgObShutdownSimpleSend) then
    Ok (m <-- ObShutdownSimpleSend.Decode ; rret (MObShutdownSimpleSend m))
  else if bool_decide (msgType = MsgClosingSigned) then
    Ok (m <-- ClosingSigned.Decode ; rret (MClosingSigned m))
  else if bool_decide (msgType = MsgObClosingSignedSimpleSend) then
    Ok (m <-- ObClosingSignedSimpleSend.Decode ; rret (MObClosingSignedSimpleSend m))
  else if bool_decide (msgType = MsgUpdateAddHTLC) then
    Ok (m <-- UpdateAddHTLC.Decode ; rret (MUpdateAddHTLC m))
  else if bool_decide (msgType = MsgUpdateFailHTLC) then
    Ok (m <-- UpdateFailHTLC.Decode ; rret (MUpdateFailHTLC m))
  else if bool_decide (msgType = MsgUpdateFulfillHTLC) then
    Ok (m <-- UpdateFulfillHTLC.Decode ; rret (MUpdateFulfillHTLC m))
  else if bool_decide (msgType = MsgCommitSig) then
    Ok (m <-- CommitSig.Decode ; rret (MCommitSig m))
  else if bool_decide (msgType = MsgRevokeAndAck) then
    Ok (m <-- RevokeAndAck.Decode ; rret (MRevokeAndAck m))
  else if bool_decide (msgType = MsgUpdateFee) then
    Ok (m <-- UpdateFee.Decode ; rret (MUpdateFee m))
  else if bool_decide (msgType = MsgUpdateFailMalformedHTLC) then
    Ok (m <-- UpdateFailMalformedHTLC.Decode ; rret (MUpdateFailMalformedHTLC m))
  else if bool_decide (msgType = MsgChannelReestablish) then
    Ok (m <-- ChannelReestablish.Decode ; rret (MChannelReestablish m))
  else if bool_decide (msgType = MsgError) then
    Ok (m <-- Error.Decode ; rret (MError m))
  else if bool_decide (msgType = MsgChannelAnnouncement) then
    Ok (m <-- ChannelAnnouncement.Decode ; rret (MChannelAnnouncement m))
  else if bool_decide (msgType = MsgChannelUpdate) then
    Ok (m <-- ChannelUpdate.Decode ; rret (MChannelUpdate m))
  else if bool_decide (msgType = MsgNodeAnnouncement) then
    Ok (m <-- NodeAnnouncement.Decode ; rret (MNodeAnnouncement m))
  else if bool_decide (msgType = MsgPing) then
    Ok (m <-- Ping.Decode ; rret (MPing m))
  else if bool_decide (msgType = MsgAnnounceSignatures) then
    Ok (m <-- AnnounceSignatures.Decode ; rret (MAnnounceSignatures m))
  else if bool_decide (msgType = MsgPong) then
    Ok (m <-- Pong.Decode ; rret (MPong m))
  else if bool_decide (msgType = MsgQueryShortChanIDs) then
    Ok (m <-- QueryShortChanIDs.Decode ; rret (MQueryShortChanIDs m))
  else if bool_decide (msgType = MsgReplyShortChanIDsEnd) then
    Ok (m <-- ReplyShortChanIDsEnd.Decode ; rret (MReplyShortChanIDsEnd m))
  else if bool_decide (msgType = MsgQueryChannelRange) then
    Ok (m <-- QueryChannelRange.Decode ; rret (MQueryChannelRange m))
  else if bool_decide (msgType = MsgReplyChannelRange) then
    Ok (m <-- ReplyChannelRange.Decode ; rret (MReplyChannelRange m))
  else if bool_decide (msgType = MsgGossipTimestampRange) then
    Ok (m <-- GossipTimestampRange.Decode ; rret (MGossipTimestampRange m))
  else if bool_decide (msgType < Custom.CustomTypeStart) then Err (ErrUnknownMessage msgType)
  else Ok (m <-- Custom.Decode msgType ; rret (MCustom m)).

(** The types of the protocol, the cases of the switch. *)
Definition known_types : list Z :=
  [MsgInit; MsgOpenChannel; MsgAcceptChannel; MsgFundingCreated; MsgFundingSigned;
   MsgFundingLocked; MsgShutdown; MsgObShutdownSimpleSend; MsgClosingSigned;
   MsgObClosingSignedSimpleSend; MsgUpdateAddHTLC; MsgUpdateFailHTLC; MsgUpdateFulfillHTLC;
   MsgCommitSig; MsgRevokeAndAck; MsgUpdateFee; MsgUpdateFailMalformedHTLC; MsgChannelReestablish;
   MsgError; MsgChannelAnnouncement; MsgChannelUpdate; MsgNodeAnnouncement; MsgPing;
   MsgAnnounceSignatures; MsgPong; MsgQueryShortChanIDs; MsgReplyShortChanIDsEnd;
   MsgQueryChannelRange; MsgReplyChannelRange; MsgGossipTimestampRange].

(** [b.Truncate(oldByteSize)]. *)
Definition cleanBrokenBytes (oldByteSize : nat) (b : list byte) : list byte := take oldByteSize b.

Definition WriteMessage (buf : list byte) (msg : message) : list byte * outcome wire_err nat :=
  let oldByteSize := length buf in
  match Encode msg (buf ++ be_put 2 (u16 (MsgType msg))) with
  | (buf', Err e) => (cleanBrokenBytes oldByteSize buf', Err (ErrorEncodeMessage e))
  | (buf', Panic) => (buf', Panic)
  | (buf', Ok _) =>
      let lenp := (length buf' - oldByteSize - 2)%nat in
      if bool_decide (Z.of_nat lenp > MaxMsgBody)
      then (cleanBrokenBytes oldByteSize buf', Err (ErrorPayloadTooLarge lenp))
      else (buf', Ok (length buf' - oldByteSize)%nat)
  end.

Definition ReadMessage : reader message :=
  mType <-- ReadFull 2 ;
  match makeEmptyMessage (be_get mType) with
  | Err e => rerr e
  | Panic => fun _ => Panic
  | Ok decode => decode
  end.

(** The type invariant of a message, and the message its receiver decodes: the
    sender's [Encode] replaces the extra data of the opening messages, sorts the
    ids of the gossip queries, and leaves the asset id of a fee update out. *)
Definition wf (msg : message) : Prop :=
  match msg with
  | MInit m => Init.wf m
  | MOpenChannel m => OpenChannel.wf m
  | MAcceptChannel m => AcceptChannel.wf m
  | MFundingCreated m => FundingCreated.wf m
  | MFundingSigned m => FundingSigned.wf m
  | MFundingLocked m => FundingLocked.wf m
  | MShutdown m => Shutdown.wf m
  | MObShutdownSimpleSend m => ObShutdownSimpleSend.wf m
  | MClosingSigned m => ClosingSigned.wf m
  | MObClosingSignedSimpleSend m => ObClosingSignedSimpleSend.wf m
  | MUpdateAddHTLC m => UpdateAddHTLC.wf m
  | MUpdateFailHTLC m => UpdateFailHTLC.wf m
  | MUpdateFulfillHTLC m => UpdateFulfillHTLC.wf m
  | MCommitSig m => CommitSig.wf m
  | MRevokeAndAck m => RevokeAndAck.wf m
  | MUpdateFee m => UpdateFee.wf m
  | MUpdateFailMalformedHTLC m => UpdateFailMalformedHTLC.wf m
  | MChannelReestablish m => ChannelReestablish.wf m
  | MError m => Error.wf m
  | MChannelAnnouncement m => ChannelAnnouncement.wf m
  | MChannelUpdate m => ChannelUpdate.wf m
  | MNodeAnnouncement m => NodeAnnouncement.wf m
  | MPing m => Ping.wf m
  | MAnnounceSignatures m => AnnounceSignatures.wf m
  | MPong m => Pong.wf m
  | MQueryShortChanIDs m => QueryShortChanIDs.wf m
  | MReplyShortChanIDsEnd m => ReplyShortChanIDsEnd.wf m
  | MQueryChannelRange m => QueryChannelRange.wf m
  | MReplyChannelRange m => ReplyChannelRange.wf m
  | MGossipTimestampRange m => GossipTimestampRange.wf m
  | MCustom m => Custom.wf m
  end.

Definition delivered (msg : message) : outcome wire_err message :=
  match msg with
  | MOpenChannel m => m' <~ OpenChannel.pack m ; Ok (MOpenChannel m')
  | MAcceptChannel m => m' <~ AcceptChannel.pack m ; Ok (MAcceptChannel m')
  | MUpdateFee m => Ok (MUpdateFee (UpdateFee.forget_asset m))
  | MQueryShortChanIDs m => Ok (MQueryShortChanIDs (QueryShortChanIDs.sorted m))
  | MReplyChannelRange m => Ok (MReplyChannelRange (ReplyChannelRange.sorted m))
  | _ => Ok msg
  end.

(** Messages whose encoding is canonical. *)
Definition canonical (msg : message) : bool :=
  match msg with
  | MError _
  | MPong _
  | MFundingCreated _
  | MFundingSigned _
  | MFundingLocked _
  | MShutdown _
  | MObShutdownSimpleSend _
  | MClosingSigned _
  | MUpdateAddHTLC _
  | MUpdateFulfillHTLC _
  | MUpdateFailHTLC _
  | MCommitSig _
  | MRevokeAndAck _
  | MUpdateFailMalformedHTLC _
  | MAnnounceSignatures _
  | MReplyShortChanIDsEnd _
  | MQueryChannelRange _
  | MGossipTimestampRange _
  | MPing _
  | MUpdateFee _
  | MChannelUpdate _
  | MCustom _ => true
  | _ => false
  end.

(** *** Every encoder appends *)

#[local] Instance appends_scid c : Appends (WriteShortChannelID c).
Proof. unfold WriteShortChannelID. apply _. Qed.

#[local] Instance appends_sids enc ids ns : Appends (ShortChanIDs.encodeShortChanIDs enc ids ns).
Proof.
  unfold ShortChanIDs.encodeShortChanIDs, ShortChanIDs.writeIDs. apply appends_if; [apply _|].
  apply appends_if; [|apply _].
  match goal with |- Appends (let (_, _) := ?x in _) => destruct x as [wb [[]|e|]] end; apply _.
Qed.

#[local] Instance appends_netaddrs l : Appends (WriteNetAddrs l).
Proof.
  intros buf. unfold WriteNetAddrs.
  match goal with |- context [foldr ?f wnil l []] => destruct (foldr f wnil l []) as [b [[]|e|]] end;
    [apply (appends_seq _ _ _ _)|exists []; by rewrite app_nil_r..].
Qed.

#[local] Instance appends_pubkey k : Appends (WritePublicKey k).
Proof. destruct k; cbn; apply _. Qed.

#[local] Instance appends_outpoint p : Appends (WriteOutPoint p).
Proof. unfold WriteOutPoint. apply _. Qed.

#[local] Instance appends_encode msg : Appends (Encode msg).
Proof.
  destruct msg as [m|m|m|m|m|m|m|m|m|m|m|m|m|m|m|m|m|m|m|m|m|m|m|m|m|m|m|m|m|m|m]; cbn [Encode].
  all: try apply _.
  - unfold OpenChannel.Encode. destruct (OpenChannel.pack m); apply _.
  - unfold AcceptChannel.Encode. destruct (AcceptChannel.pack m); apply _.
  - unfold ChannelReestablish.Encode. destruct (ChannelReestablish.LocalUnrevokedCommitPoint m); apply _.
Qed.

(** *** Every decoder is total *)

#[local] Instance total_pubkey : Total ReadPublicKey.
Proof. unfold ReadPublicKey. apply total_bind; [apply _|]. intros b. destruct (ParsePubKey b); apply _. Qed.

#[local] Instance total_sids : Total ShortChanIDs.decodeShortChanIDs.
Proof. intros bs. apply ShortChanIDs.decode_nopanic. Qed.

#[local] Instance total_alias : Total ReadNodeAlias.
Proof.
  apply total_bind; [apply _|]. intros a bs. unfold NewNodeAlias.
  case_bool_decide; [done|]. by destruct (utf8_valid a).
Qed.

Lemma Extract_nopanic bs : ExtractRecords bs <> Panic.
Proof.
  unfold ExtractRecords. destruct (StreamParse bs) as [rs|]; [|done].
  assert (forall v, opt_decode channelTypeDecoder v <> Panic) as H1.
  { intros [v|]; [|done]. cbn. unfold channelTypeDecoder.
    assert (Total (Raw.decode (Raw.New []) (Z.of_nat (length v)) 8)) as Ht
      by (unfold Raw.decode; apply _).
    pose proof (Ht v). by destruct (Raw.decode _ _ _ v) as [[? ?]| |]. }
  assert (forall v, opt_decode leaseExpiryDecoder v <> Panic) as H2.
  { intros [v|]; [|done]. cbn. unfold leaseExpiryDecoder. by case_bool_decide. }
  pose proof (H1 (lookup_type ChannelTypeRecordType rs)).
  destruct (opt_decode channelTypeDecoder _); [|done..].
  pose proof (H2 (lookup_type LeaseExpiryRecordType rs)). cbn [obind].
  by destruct (opt_decode leaseExpiryDecoder _).
Qed.

(** The loop over the addresses consumes a byte per turn. *)
Lemma readAddr_total d : Total (readAddr d).
Proof. unfold readAddr, readTCP, readOnion. apply _. Qed.

Lemma readAddr_shrinks d bs a bs' :
  readAddr d bs = Ok (a, bs') -> (length bs' <= length bs)%nat.
Proof.
  unfold readAddr, readTCP, readOnion.
  assert (forall n (f : list byte -> list byte -> net_addr) bs a bs',
    (x <-- (ip <-- ReadFull n ; port <-- ReadFull 2 ; rret (f ip port)) ; rret (Some x)) bs
    = Ok (a, bs') -> (length bs' <= length bs)%nat) as Hr.
  { intros n f b x b' H. apply rbind_ok_inv in H as (y & ? & H & Hy). inversion Hy; subst.
    do 2 apply rbind_ok_inv in H as (? & ? & ?%ReadFull_ok_inv & H). destruct_and!.
    inversion H; subst. rewrite !length_app. lia. }
  intros Hx. repeat case_bool_decide;
    first [ exact (Hr _ (fun ip port => ATcp (Some (mkTCPAddr ip (be_get port)))) _ _ _ Hx)
          | exact (Hr _ (fun h p => AOnion (Some (mkOnionAddr (Base32Encode h ++ OnionSuffix)
                                                    (be_get p)))) _ _ _ Hx)
          | inversion Hx; subst; done ].
Qed.

Lemma readAddrs_total fuel read tot bs :
  (length bs < fuel)%nat -> readAddrs fuel read tot bs <> Panic.
Proof.
  revert read bs. induction fuel as [|fuel IH]; intros read bs Hf; [lia|]. cbn [readAddrs].
  case_bool_decide; [|done].
  destruct (ReadFull 1 bs) as [[d bs1]|e|] eqn:E1; [|done|by destruct (total_readfull 1 bs)].
  apply ReadFull_ok_inv in E1 as [Hd ->]. rewrite length_app in Hf. cbn [obind].
  destruct (readAddr (be_get d) bs1) as [[a bs2]|e|] eqn:E2; [|done|by destruct (readAddr_total (be_get d) bs1)].
  apply readAddr_shrinks in E2. cbn [obind].
  match goal with |- context [readAddrs fuel ?r tot bs2] => pose proof (IH r bs2 ltac:(lia)) end.
  by destruct (readAddrs fuel _ tot bs2).
Qed.

#[local] Instance total_netaddrs : Total ReadNetAddrs.
Proof.
  apply total_bind; [apply _|]. intros nb. apply total_bind; [apply _|]. intros addrs bs.
  pose proof (readAddrs_total (S (length addrs)) 0 (be_get nb) addrs (Nat.lt_succ_diag_r _)).
  by destruct (readAddrs _ _ _ _).
Qed.

#[local] Instance total_open : Total OpenChannel.Decode.
Proof.
  unfold OpenChannel.Decode. repeat (apply total_bind; [apply _|]; intros ?).
  match goal with |- context [ExtractRecords ?b] => pose proof (Extract_nopanic b) end.
  by destruct (ExtractRecords _) as [[[? ?] ?]| |].
Qed.

#[local] Instance total_accept : Total AcceptChannel.Decode.
Proof.
  unfold AcceptChannel.Decode. repeat (apply total_bind; [apply _|]; intros ?).
  match goal with |- context [ExtractRecords ?b] => pose proof (Extract_nopanic b) end.
  by destruct (ExtractRecords _) as [[[? ?] ?]| |].
Qed.

#[local] Instance total_reestablish : Total ChannelReestablish.Decode.
Proof.
  unfold ChannelReestablish.Decode. repeat (apply total_bind; [apply _|]; intros ?).
  intros bs. unfold ChannelReestablish.DecodeTail.
  pose proof (total_readfull 32 bs). destruct (ReadFull 32 bs) as [[buf r']|[]|]; try done.
  eapply (total (r := rbind _ _)).
Qed.

Lemma makeEmptyMessage_total t decode : makeEmptyMessage t = Ok decode -> Total decode.
Proof.
  unfold makeEmptyMessage.
  repeat (case_bool_decide; [intros [= <-]; apply _|]).
  intros [= <-]. apply _.
Qed.

(** *** Encoders against decoders *)

(** Dispatch: the type of a message selects its own decoder. *)
Lemma rt_frame {A} (w : writer) (r : reader A) (f : A -> message) a t :
  rt_end w r a -> makeEmptyMessage t = Ok (m <-- r ; rret (f m)) ->
  exists bs decode, writes w bs /\ makeEmptyMessage t = Ok decode /\ decode bs = Ok (f a, []).
Proof.
  intros (bs & Hw & Hr) ->. exists bs. eexists. split; [done|]. split; [done|].
  unfold rbind. by rewrite Hr.
Qed.

(** Custom types start above every type of the protocol. *)
Lemma makeEmptyMessage_custom t :
  Custom.CustomTypeStart <= t ->
  makeEmptyMessage t = Ok (m <-- Custom.Decode t ; rret (MCustom m)).
Proof.
  intros Ht. unfold Custom.CustomTypeStart in Ht. unfold makeEmptyMessage.
  repeat (rewrite bool_decide_eq_false_2; [|intros ->; by vm_compute in Ht]).
  rewrite bool_decide_eq_false_2; [done|]. unfold Custom.CustomTypeStart. lia.
Qed.

Lemma message_rt msg :
  wf msg ->
  exists msg' bs decode, delivered msg = Ok msg' /\ writes (Encode msg) bs
    /\ makeEmptyMessage (MsgType msg) = Ok decode /\ decode bs = Ok (msg', [])
    /\ in_u 16 (MsgType msg).
Proof.
  assert (forall A (w : writer) (r : reader A) (f : A -> message) a t m,
    rt_end w r a -> makeEmptyMessage t = Ok (m <-- r ; rret (f m)) -> in_u 16 t -> m = f a ->
    exists msg' bs decode, Ok (E := wire_err) m = Ok msg' /\ writes w bs
    /\ makeEmptyMessage t = Ok decode /\ decode bs = Ok (msg', []) /\ in_u 16 t) as Hgo.
  { intros A w r f a t m Hrt Ht Hu ->. destruct (rt_frame w r f a t Hrt Ht) as (bs & d & ?).
    exists (f a), bs, d. naive_solver. }
  destruct msg as [m|m|m|m|m|m|m|m|m|m|m|m|m|m|m|m|m|m|m|m|m|m|m|m|m|m|m|m|m|m|m];
    cbn [wf delivered Encode MsgType]; intros Hwf.
  - by eapply (Hgo _ _ _ _ _ _ _ (Init.Init_rt m Hwf)).
  - destruct (OpenChannel.OpenChannel_rt m Hwf) as (m' & -> & Hrt).
    by eapply (Hgo _ _ _ _ _ _ _ Hrt).
  - destruct (AcceptChannel.AcceptChannel_rt m Hwf) as (m' & -> & Hrt).
    by eapply (Hgo _ _ _ _ _ _ _ Hrt).
  - by eapply (Hgo _ _ _ _ _ _ _ (FundingCreated.FundingCreated_rt m Hwf)).
  - by eapply (Hgo _ _ _ _ _ _ _ (FundingSigned.FundingSigned_rt m Hwf)).
  - by eapply (Hgo _ _ _ _ _ _ _ (FundingLocked.FundingLocked_rt m Hwf)).
  - by eapply (Hgo _ _ _ _ _ _ _ (Shutdown.Shutdown_rt m Hwf)).
  - by eapply (Hgo _ _ _ _ _ _ _ (ObShutdownSimpleSend.ObShutdownSimpleSend_rt m Hwf)).
  - by eapply (Hgo _ _ _ _ _ _ _ (ClosingSigned.ClosingSigned_rt m Hwf)).
  - by eapply (Hgo _ _ _ _ _ _ _ (ObClosingSignedSimpleSend.ObClosingSignedSimpleSend_rt m Hwf)).
  - by eapply (Hgo _ _ _ _ _ _ _ (UpdateAddHTLC.UpdateAddHTLC_rt m Hwf)).
  - by eapply (Hgo _ _ _ _ _ _ _ (UpdateFailHTLC.UpdateFailHTLC_rt m Hwf)).
  - by eapply (Hgo _ _ _ _ _ _ _ (UpdateFulfillHTLC.UpdateFulfillHTLC_rt m Hwf)).
  - by eapply (Hgo _ _ _ _ _ _ _ (CommitSig.CommitSig_rt m Hwf)).
  - by eapply (Hgo _ _ _ _ _ _ _ (RevokeAndAck.RevokeAndAck_rt m Hwf)).
  - by eapply (Hgo _ _ _ _ _ _ _ (UpdateFee.UpdateFee_rt m Hwf)).
  - by eapply (Hgo _ _ _ _ _ _ _ (UpdateFailMalformedHTLC.UpdateFailMalformedHTLC_rt m Hwf)).
  - by eapply (Hgo _ _ _ _ _ _ _ (ChannelReestablish.ChannelReestablish_rt m Hwf)).
  - by eapply (Hgo _ _ _ _ _ _ _ (Error.Error_rt m Hwf)).
  - by eapply (Hgo _ _ _ _ _ _ _ (ChannelAnnouncement.ChannelAnnouncement_rt m Hwf)).
  - by eapply (Hgo _ _ _ _ _ _ _ (ChannelUpdate.ChannelUpdate_rt m Hwf)).
  - by eapply (Hgo _ _ _ _ _ _ _ (NodeAnnouncement.NodeAnnouncement_rt m Hwf)).
  - by eapply (Hgo _ _ _ _ _ _ _ (Ping.Ping_rt m Hwf)).
  - by eapply (Hgo _ _ _ _ _ _ _ (AnnounceSignatures.AnnounceSignatures_rt m Hwf)).
  - by eapply (Hgo _ _ _ _ _ _ _ (Pong.Pong_rt m Hwf)).
  - by eapply (Hgo _ _ _ _ _ _ _ (QueryShortChanIDs.QueryShortChanIDs_rt m Hwf)).
  - by eapply (Hgo _ _ _ _ _ _ _ (ReplyShortChanIDsEnd.ReplyShortChanIDsEnd_rt m Hwf)).
  - by eapply (Hgo _ _ _ _ _ _ _ (QueryChannelRange.QueryChannelRange_rt m Hwf)).
  - by eapply (Hgo _ _ _ _ _ _ _ (ReplyChannelRange.ReplyChannelRange_rt m Hwf)).
  - by eapply (Hgo _ _ _ _ _ _ _ (GossipTimestampRange.GossipTimestampRange_rt m Hwf)).
  - destruct Hwf as [Hu Ht]. eapply Hgo; [apply Custom.Custom_rt|by apply makeEmptyMessage_custom|done|done].
Qed.

(** *** Canonical encodings *)

Ltac canon_case lem :=
  intros [= <-] Hd; apply rbind_ok_inv in Hd as (? & ? & Hm & Hr); inversion Hr; subst;
  split; [done|]; intros _; apply (lem _ _ _ Hm).

Ltac noncanon_case :=
  intros [= <-] Hd; apply rbind_ok_inv in Hd as (? & ? & Hm & Hr); inversion Hr; subst;
  split; [done|discriminate].

Lemma message_canon t decode bs msg rest :
  makeEmptyMessage t = Ok decode -> decode bs = Ok (msg, rest) ->
  MsgType msg = t /\
  (canonical msg = true -> exists bs0, writes (Encode msg) bs0 /\ bs = bs0 ++ rest).
Proof.
  unfold makeEmptyMessage.
  case_bool_decide; [by noncanon_case|].
  case_bool_decide; [by noncanon_case|].
  case_bool_decide; [by noncanon_case|].
  case_bool_decide; [by canon_case FundingCreated.FundingCreated_canon|].
  case_bool_decide; [by canon_case FundingSigned.FundingSigned_canon|].
  case_bool_decide; [by canon_case FundingLocked.FundingLocked_canon|].
  case_bool_decide; [by canon_case Shutdown.Shutdown_canon|].
  case_bool_decide; [by canon_case ObShutdownSimpleSend.ObShutdownSimpleSend_canon|].
  case_bool_decide; [by canon_case ClosingSigned.ClosingSigned_canon|].
  case_bool_decide; [by noncanon_case|].
  case_bool_decide; [by canon_case UpdateAddHTLC.UpdateAddHTLC_canon|].
  case_bool_decide; [by canon_case UpdateFailHTLC.UpdateFailHTLC_canon|].
  case_bool_decide; [by canon_case UpdateFulfillHTLC.UpdateFulfillHTLC_canon|].
  case_bool_decide; [by canon_case CommitSig.CommitSig_canon|].
  case_bool_decide; [by canon_case RevokeAndAck.RevokeAndAck_canon|].
  case_bool_decide; [by canon_case UpdateFee.UpdateFee_canon|].
  case_bool_decide; [by canon_case UpdateFailMalformedHTLC.UpdateFailMalformedHTLC_canon|].
  case_bool_decide; [by noncanon_case|].
  case_bool_decide; [by canon_case Error.Error_canon|].
  case_bool_decide; [by noncanon_case|].
  case_bool_decide; [by canon_case ChannelUpdate.ChannelUpdate_canon|].
  case_bool_decide; [by noncanon_case|].
  case_bool_decide; [by canon_case Ping.Ping_canon|].
  case_bool_decide; [by canon_case AnnounceSignatures.AnnounceSignatures_canon|].
  case_bool_decide; [by canon_case Pong.Pong_canon|].
  case_bool_decide; [by noncanon_case|].
  case_bool_decide; [by canon_case ReplyShortChanIDsEnd.ReplyShortChanIDsEnd_canon|].
  case_bool_decide; [by canon_case QueryChannelRange.QueryChannelRange_canon|].
  case_bool_decide; [by noncanon_case|].
  case_bool_decide; [by canon_case GossipTimestampRange.GossipTimestampRange_canon|].
  case_bool_decide; [done|]. intros [= <-] Hd.
  apply rbind_ok_inv in Hd as (m & ? & Hm & Hr). inversion Hr; subst. inversion Hm; subst.
  split; [done|]. intros _. exists bs. cbn. rewrite app_nil_r. split; [apply writes_bytes|done].
Qed.

Lemma WriteMessage_rt msg :
  wf msg ->
  exists msg' bs, delivered msg = Ok msg' /\ ReadMessage bs = Ok (msg', []) /\
    forall buf, WriteMessage buf msg =
      if bool_decide (Z.of_nat (length bs) - 2 > MaxMsgBody)
      then (buf, Err (ErrorPayloadTooLarge (length bs - 2)))
      else (buf ++ bs, Ok (length bs)).
Proof.
  intros Hwf. destruct (message_rt msg Hwf) as (msg' & bs & decode & Hd & Hw & Hm & Hr & Hu).
  exists msg', (be_put 2 (MsgType msg) ++ bs). split; [done|].
  rewrite length_app, length_be_put. split.
  - unfold ReadMessage, rbind. rewrite (ReadFull_app (be_put 2 _)).
    by rewrite be_get_put_id, Hm.
  - intros buf. unfold WriteMessage. rewrite Hw. rewrite !length_app, length_be_put, u16_id by done.
    replace (length buf + 2 + length bs - length buf - 2)%nat with (length bs) by lia.
    replace (length buf + 2 + length bs - length buf)%nat with (2 + length bs)%nat by lia.
    replace (2 + length bs - 2)%nat with (length bs) by lia.
    rewrite (bool_decide_ext (Z.of_nat (2 + length bs) - 2 > MaxMsgBody)
      (Z.of_nat (length bs) > MaxMsgBody)) by lia.
    unfold cleanBrokenBytes. case_bool_decide.
    + by rewrite <- !app_assoc, take_app_length.
    + by rewrite <- app_assoc.
Qed.

(** ** Theorems *)


(** All or nothing.  Whatever the message, a failed [WriteMessage] leaves the
    buffer as it was, and a successful one appends between 2 and 65535 bytes,
    starting with the type, and returns their number. *)
Theorem WriteMessage_all_or_nothing buf msg :
  match WriteMessage buf msg with
  | (buf', Ok n) => exists bs, buf' = buf ++ be_put 2 (u16 (MsgType msg)) ++ bs /\
      n = (2 + length bs)%nat /\ Z.of_nat n <= 65535
  | (buf', Err _) => buf' = buf
  | (_, Panic) => exists b, snd (Encode msg b) = Panic
  end.
Proof.
  unfold WriteMessage. set (hdr := be_put 2 _).
  assert (length hdr = 2%nat) as Hh by apply length_be_put.
  destruct (appends (w := Encode msg) (buf ++ hdr)) as [bs E].
  destruct (Encode msg (buf ++ hdr)) as [buf' [[]|e|]] eqn:He; cbn in E; subst buf'.
  - rewrite !length_app, Hh.
    replace (length buf + 2 + length bs - length buf - 2)%nat with (length bs) by lia.
    case_bool_decide as Hc.
    + unfold cleanBrokenBytes. by rewrite <- app_assoc, take_app_length.
    + exists bs. unfold MaxMsgBody in Hc. rewrite <- app_assoc. split; [done|]. lia.
  - unfold cleanBrokenBytes. by rewrite <- app_assoc, take_app_length.
  - eexists. by rewrite He.
Qed.

(** Decoding is total.  For every byte string, [ReadMessage] returns a message
    or an error: no loop runs on, and nothing a peer can send makes it panic. *)
Theorem ReadMessage_total bs : ReadMessage bs <> Panic.
Proof.
  enough (Total ReadMessage) as Ht by apply Ht. apply total_bind; [apply _|]. intros t.
  destruct (makeEmptyMessage (be_get t)) as [decode|e|] eqn:E; [|apply _|].
  - by eapply makeEmptyMessage_total.
  - exfalso. revert E. unfold makeEmptyMessage. by repeat case_bool_decide.
Qed.

(** Canonical encodings.  A decoded message has the type of its header, and
    for every message type without optional parts, writing it again restores the
    bytes that were read (so that signatures over the received bytes can be
    checked against the decoded message). *)
Theorem ReadMessage_canonical bs msg rest :
  ReadMessage bs = Ok (msg, rest) -> Z.of_nat (length bs) <= 65535 ->
  take 2 bs = be_put 2 (MsgType msg) /\
  (canonical msg = true -> WriteMessage [] msg = (take (length bs - length rest) bs,
                                                  Ok (length bs - length rest)%nat)).
Proof.
  unfold ReadMessage. intros H Hlen. apply rbind_ok_inv in H as (hdr & bs1 & Hh & H).
  apply ReadFull_ok_inv in Hh as [Hl ->].
  destruct (makeEmptyMessage (be_get hdr)) as [decode|e|] eqn:E; [|done..].
  destruct (message_canon _ _ _ _ _ E H) as [Ht Hc]. rewrite Ht. split.
  { rewrite be_put_get by done. by rewrite <- Hl, take_app_length. }
  intros Hcan. destruct (Hc Hcan) as (bs0 & Hw & ->). unfold WriteMessage. rewrite Hw, Ht.
  assert (in_u 16 (be_get hdr)) as Hu.
  { unfold in_u. pose proof (be_get_range hdr) as Hr. by rewrite Hl in Hr. }
  rewrite u16_id, be_put_get by done. cbn [app length] in Hlen |- *.
  rewrite !length_app in *. rewrite Hl in *.
  rewrite bool_decide_eq_false_2 by (unfold MaxMsgBody; lia).
  replace (2 + (length bs0 + length rest) - length rest)%nat with (length (hdr ++ bs0))
    by (rewrite length_app; lia).
  rewrite app_assoc, take_app_length. by rewrite length_app, Hl, Nat.sub_0_r.
Qed.

Lemma makeEmptyMessage_err t e :
  makeEmptyMessage t = Err e <->
  e = ErrUnknownMessage t /\ t < Custom.CustomTypeStart /\ t ∉ known_types.
Proof.
  split.
  - unfold makeEmptyMessage. repeat (case_bool_decide; [done|]).
    case_bool_decide; [|done]. intros [= <-]. split; [done|]. split; [done|].
    unfold known_types. set_solver.
  - intros (-> & Ht & Hk). unfold makeEmptyMessage.
    repeat (rewrite bool_decide_eq_false_2;
            [|intros ->; apply Hk; apply (bool_decide_unpack _); by vm_compute]).
    by rewrite bool_decide_eq_true_2.
Qed.

(** Unknown types.  No message is created exactly when the header is neither
    a type of the protocol nor in the custom range; reading then fails without
    looking at the body.  A custom type is carried verbatim. *)
Theorem ReadMessage_unknown_custom t body :
  in_u 16 t ->
  (forall e, makeEmptyMessage t = Err e <->
     e = ErrUnknownMessage t /\ t < Custom.CustomTypeStart /\ t ∉ known_types) /\
  (t < Custom.CustomTypeStart -> t ∉ known_types ->
     ReadMessage (be_put 2 t ++ body) = Err (ErrUnknownMessage t)) /\
  (Custom.CustomTypeStart <= t ->
     ReadMessage (be_put 2 t ++ body) = Ok (MCustom (Custom.mk t body), [])).
Proof.
  intros Hu. split; [apply makeEmptyMessage_err|].
  unfold ReadMessage, rbind. rewrite (ReadFull_app (be_put 2 _)), be_get_put_id by done. split.
  - intros Ht Hk. by rewrite (proj2 (makeEmptyMessage_err t (ErrUnknownMessage t))).
  - intros Ht. by rewrite makeEmptyMessage_custom.
Qed.

End frame.

(** ** Witnesses *)

Section witnesses.
#[local] Existing Instances btcec_model btcec_model_laws tlv_model tlv_model_laws
  zlib_model zlib_model_laws tor_model tor_model_laws.

Definition ping_example : message := MPing (Ping.mk 7 [x01; x02]).


Lemma ReadMessage_canonical_witness :
  take 2 [x03; xfa; x00; x07; x00; x01; xff] = be_put 2 (MsgType (MPing (Ping.mk 7 [xff]))) /\
  (canonical (MPing (Ping.mk 7 [xff])) = true ->
   WriteMessage [] (MPing (Ping.mk 7 [xff])) = ([x03; xfa; x00; x07; x00; x01; xff], Ok 7%nat)).
Proof.
  apply (ReadMessage_canonical [x03; xfa; x00; x07; x00; x01; xff] (MPing (Ping.mk 7 [xff])) []);
    [by vm_compute|cbn; lia].
Defined.

Lemma ReadMessage_unknown_custom_witness :
  ReadMessage (be_put 2 99 ++ [x01]) = Err (ErrUnknownMessage 99).
Proof.
  apply (ReadMessage_unknown_custom 99 [x01]); [split; lia|by vm_compute|].
  apply (bool_decide_unpack _). by vm_compute.
Defined.

End witnesses.
