(* ===== verification/OnionError.v ===== *)
(** * lnwire: onion failures

    Models lnwire/onion_error.go: the failure messages a hop sends back through
    the onion, their codes and payloads, the padded form [EncodeFailure] writes and
    [DecodeFailure] reads.  [tlv.WriteVarInt] and [tlv.ReadVarInt] are functions of
    the TLV library (class [VarInt]). *)

From Stdlib Require Import ZArith Lia.
From S2P Require Import Prelude Wire WireMessages WireModels WireFrame.

Local Open Scope Z_scope.
Local Open Scope go_scope.

(** ** Codes *)

Definition FailureMessageLength : nat := 256.

Definition FlagBadOnion : Z := 0x8000.
Definition FlagPerm : Z := 0x4000.
Definition FlagNode : Z := 0x2000.
Definition FlagUpdate : Z := 0x1000.

Definition CodeInvalidRealm : Z := Z.lor FlagBadOnion 1.
Definition CodeTemporaryNodeFailure : Z := Z.lor FlagNode 2.
Definition CodePermanentNodeFailure : Z := Z.lor (Z.lor FlagPerm FlagNode) 2.
Definition CodeRequiredNodeFeatureMissing : Z := Z.lor (Z.lor FlagPerm FlagNode) 3.
Definition CodeInvalidOnionVersion : Z := Z.lor (Z.lor FlagBadOnion FlagPerm) 4.
Definition CodeInvalidOnionHmac : Z := Z.lor (Z.lor FlagBadOnion FlagPerm) 5.
Definition CodeInvalidOnionKey : Z := Z.lor (Z.lor FlagBadOnion FlagPerm) 6.
Definition CodeTemporaryChannelFailure : Z := Z.lor FlagUpdate 7.
Definition CodePermanentChannelFailure : Z := Z.lor FlagPerm 8.
Definition CodeRequiredChannelFeatureMissing : Z := Z.lor FlagPerm 9.
Definition CodeUnknownNextPeer : Z := Z.lor FlagPerm 10.
Definition CodeAmountBelowMinimum : Z := Z.lor FlagUpdate 11.
Definition CodeFeeInsufficient : Z := Z.lor FlagUpdate 12.
Definition CodeIncorrectCltvExpiry : Z := Z.lor FlagUpdate 13.
Definition CodeExpiryTooSoon : Z := Z.lor FlagUpdate 14.
Definition CodeChannelDisabled : Z := Z.lor FlagUpdate 20.
Definition CodeIncorrectOrUnknownPaymentDetails : Z := Z.lor FlagPerm 15.
Definition CodeIncorrectPaymentAmount : Z := Z.lor FlagPerm 16.
Definition CodeFinalExpiryTooSoon : Z := 17.
Definition CodeFinalIncorrectCltvExpiry : Z := 18.
Definition CodeFinalIncorrectHtlcAmount : Z := 19.
Definition CodeExpiryTooFar : Z := 21.
Definition CodeInvalidOnionPayload : Z := Z.lor FlagPerm 22.
Definition CodeMPPTimeout : Z := 23.

(** ** The failures *)

Class VarInt := {
  WriteVarInt : Z -> writer;
  ReadVarInt : reader Z;
}.

(** A 64-bit integer survives the variable-length encoding, which takes at most
    nine bytes; reading returns a value or an error. *)
Class VarIntLaws `{!VarInt} : Prop := {
  varint_rt : forall n, in_u 64 n -> rt (WriteVarInt n) ReadVarInt n;
  varint_size : forall n bs, writes (WriteVarInt n) bs -> (length bs <= 9)%nat;
  varint_total : forall bs, ReadVarInt bs <> Panic;
}.

Inductive FailureMessage : Type :=
  | FailInvalidRealm
  | FailTemporaryNodeFailure
  | FailPermanentNodeFailure
  | FailRequiredNodeFeatureMissing
  | FailPermanentChannelFailure
  | FailRequiredChannelFeatureMissing
  | FailUnknownNextPeer
  | FailIncorrectPaymentAmount
  | FailIncorrectDetails (amount height : Z)
  | FailFinalExpiryTooSoon
  | FailInvalidOnionVersion (OnionSHA256 : list byte)
  | FailInvalidOnionHmac (OnionSHA256 : list byte)
  | FailInvalidOnionKey (OnionSHA256 : list byte)
  | FailTemporaryChannelFailure (Update : option ChannelUpdate.t)
  | FailAmountBelowMinimum (HtlcMsat : Z) (Update : ChannelUpdate.t)
  | FailFeeInsufficient (HtlcMsat : Z) (Update : ChannelUpdate.t)
  | FailIncorrectCltvExpiry (CltvExpiry : Z) (Update : ChannelUpdate.t)
  | FailExpiryTooSoon (Update : ChannelUpdate.t)
  | FailChannelDisabled (Flags : Z) (Update : ChannelUpdate.t)
  | FailFinalIncorrectCltvExpiry (CltvExpiry : Z)
  | FailFinalIncorrectHtlcAmount (IncomingHTLCAmount : Z)
  | FailExpiryTooFar
  | InvalidOnionPayload (Type_ Offset : Z)
  | FailMPPTimeout.

Definition Code (f : FailureMessage) : Z :=
  match f with
  | FailInvalidRealm => CodeInvalidRealm
  | FailTemporaryNodeFailure => CodeTemporaryNodeFailure
  | FailPermanentNodeFailure => CodePermanentNodeFailure
  | FailRequiredNodeFeatureMissing => CodeRequiredNodeFeatureMissing
  | FailPermanentChannelFailure => CodePermanentChannelFailure
  | FailRequiredChannelFeatureMissing => CodeRequiredChannelFeatureMissing
  | FailUnknownNextPeer => CodeUnknownNextPeer
  | FailIncorrectPaymentAmount => CodeIncorrectPaymentAmount
  | FailIncorrectDetails _ _ => CodeIncorrectOrUnknownPaymentDetails
  | FailFinalExpiryTooSoon => CodeFinalExpiryTooSoon
  | FailInvalidOnionVersion _ => CodeInvalidOnionVersion
  | FailInvalidOnionHmac _ => CodeInvalidOnionHmac
  | FailInvalidOnionKey _ => CodeInvalidOnionKey
  | FailTemporaryChannelFailure _ => CodeTemporaryChannelFailure
  | FailAmountBelowMinimum _ _ => CodeAmountBelowMinimum
  | FailFeeInsufficient _ _ => CodeFeeInsufficient
  | FailIncorrectCltvExpiry _ _ => CodeIncorrectCltvExpiry
  | FailExpiryTooSoon _ => CodeExpiryTooSoon
  | FailChannelDisabled _ _ => CodeChannelDisabled
  | FailFinalIncorrectCltvExpiry _ => CodeFinalIncorrectCltvExpiry
  | FailFinalIncorrectHtlcAmount _ => CodeFinalIncorrectHtlcAmount
  | FailExpiryTooFar => CodeExpiryTooFar
  | InvalidOnionPayload _ _ => CodeInvalidOnionPayload
  | FailMPPTimeout => CodeMPPTimeout
  end.

(** What decoding can fail with. *)
Inductive onion_err : Type :=
  | ErrReadErrorLen (e : wire_err)
  | ErrFailureTooLong (n : Z)
  | ErrReadPayload (e : wire_err)
  | ErrReadFailCode (e : wire_err)
  | ErrUnknownErrorCode (code : Z)
  | ErrDecodeErrorUpdate (e : wire_err).

(** ** Channel updates inside a failure *)

(** The channel update, after its serialised length. *)
Definition writeOnionErrorChanUpdate (chanUpdate : ChannelUpdate.t) : writer := fun buf =>
  match ChannelUpdate.Encode chanUpdate [] with
  | (b, Ok _) => (WriteUint16 (u16 (Z.of_nat (length b))) ;;> WriteBytes b) buf
  | (_, Err e) => (buf, Err e)
  | (_, Panic) => (buf, Panic)
  end.

(** [Peek] does not consume; it fails with EOF when fewer bytes are left. *)
Definition Peek (n : nat) : reader (list byte) := fun r =>
  if bool_decide (length r < n)%nat then Err EOF else Ok (take n r, r).

(** Older nodes put the message type before the update: it is skipped when the
    first two bytes look like it. *)
Definition parseChannelUpdateCompatabilityMode : reader ChannelUpdate.t :=
  maybeTypeBytes <-- Peek 2 ;
  if bool_decide (be_get maybeTypeBytes = MsgChannelUpdate)
  then _ <-- ReadFull 2 ; ChannelUpdate.Decode
  else ChannelUpdate.Decode.

(** ** Payloads *)

Module IncorrectDetails.

Definition Encode (amount height : Z) : writer := WriteUint64 amount ;;> WriteUint32 height.

(** The amount, and then the height, may be missing. *)
Definition Decode : reader FailureMessage := fun r =>
  match ReadUnitPrec11 r with
  | Err EOF => Ok (FailIncorrectDetails 0 0, r)
  | Err e => Err e
  | Panic => Panic
  | Ok (amount, r) =>
      match ReadUint32 r with
      | Err EOF => Ok (FailIncorrectDetails amount 0, r)
      | Err e => Err e
      | Panic => Panic
      | Ok (height, r) => Ok (FailIncorrectDetails amount height, r)
      end
  end.

End IncorrectDetails.

Module OnionSha.

Definition Encode (sha : list byte) : writer := WriteBytes sha.
Definition Decode (mk : list byte -> FailureMessage) : reader FailureMessage :=
  sha <-- ReadFull 32 ; rret (mk sha).

End OnionSha.

Module TemporaryChannelFailure.

Definition Encode (update : option ChannelUpdate.t) : writer := fun buf =>
  match update with
  | None => (WriteUint16 0 ;;> WriteBytes []) buf
  | Some u =>
      match ChannelUpdate.Encode u [] with
      | (payload, Ok _) => (WriteUint16 (u16 (Z.of_nat (length payload))) ;;> WriteBytes payload) buf
      | (_, Err e) => (buf, Err e)
      | (_, Panic) => (buf, Panic)
      end
  end.

Definition Decode : reader FailureMessage :=
  length <-- ReadUint16 ;
  if bool_decide (length <> 0)
  then u <-- parseChannelUpdateCompatabilityMode ; rret (FailTemporaryChannelFailure (Some u))
  else rret (FailTemporaryChannelFailure None).

End TemporaryChannelFailure.

Module AmountBelowMinimum.
Definition Encode (htlcMsat : Z) (u : ChannelUpdate.t) : writer :=
  WriteUint64 htlcMsat ;;> writeOnionErrorChanUpdate u.
Definition Decode : reader FailureMessage :=
  htlcMsat <-- ReadUnitPrec11 ; _ <-- ReadUint16 ;
  u <-- parseChannelUpdateCompatabilityMode ; rret (FailAmountBelowMinimum htlcMsat u).
End AmountBelowMinimum.

Module FeeInsufficient.
Definition Encode (htlcMsat : Z) (u : ChannelUpdate.t) : writer :=
  WriteUint64 htlcMsat ;;> writeOnionErrorChanUpdate u.
Definition Decode : reader FailureMessage :=
  htlcMsat <-- ReadUnitPrec11 ; _ <-- ReadUint16 ;
  u <-- parseChannelUpdateCompatabilityMode ; rret (FailFeeInsufficient htlcMsat u).
End FeeInsufficient.

Module IncorrectCltvExpiry.
Definition Encode (cltvExpiry : Z) (u : ChannelUpdate.t) : writer :=
  WriteUint32 cltvExpiry ;;> writeOnionErrorChanUpdate u.
Definition Decode : reader FailureMessage :=
  cltvExpiry <-- ReadUint32 ; _ <-- ReadUint16 ;
  u <-- parseChannelUpdateCompatabilityMode ; rret (FailIncorrectCltvExpiry cltvExpiry u).
End IncorrectCltvExpiry.

Module ExpiryTooSoon.
Definition Encode (u : ChannelUpdate.t) : writer := writeOnionErrorChanUpdate u.
Definition Decode : reader FailureMessage :=
  _ <-- ReadUint16 ; u <-- parseChannelUpdateCompatabilityMode ; rret (FailExpiryTooSoon u).
End ExpiryTooSoon.

Module ChannelDisabled.
Definition Encode (flags : Z) (u : ChannelUpdate.t) : writer :=
  WriteUint16 flags ;;> writeOnionErrorChanUpdate u.
Definition Decode : reader FailureMessage :=
  flags <-- ReadUint16 ; _ <-- ReadUint16 ;
  u <-- parseChannelUpdateCompatabilityMode ; rret (FailChannelDisabled flags u).
End ChannelDisabled.

Module FinalIncorrectCltvExpiry.
Definition Encode (cltvExpiry : Z) : writer := WriteUint32 cltvExpiry.
Definition Decode : reader FailureMessage := e <-- ReadUint32 ; rret (FailFinalIncorrectCltvExpiry e).
End FinalIncorrectCltvExpiry.

Module FinalIncorrectHtlcAmount.
Definition Encode (amt : Z) : writer := WriteUint64 amt.
Definition Decode : reader FailureMessage := a <-- ReadUnitPrec11 ; rret (FailFinalIncorrectHtlcAmount a).
End FinalIncorrectHtlcAmount.

Module OnionPayload.
Definition Encode `{!VarInt} (typ offset : Z) : writer := WriteVarInt typ ;;> WriteUint16 offset.
Definition Decode `{!VarInt} : reader FailureMessage :=
  typ <-- ReadVarInt ; offset <-- ReadUint16 ; rret (InvalidOnionPayload typ offset).
End OnionPayload.

Section onion.
Context {VI : VarInt}.

(** The payload of a failure that has one. *)
Definition encodePayload (f : FailureMessage) : writer :=
  match f with
  | FailIncorrectDetails amount height => IncorrectDetails.Encode amount height
  | FailInvalidOnionVersion sha | FailInvalidOnionHmac sha | FailInvalidOnionKey sha => OnionSha.Encode sha
  | FailTemporaryChannelFailure u => TemporaryChannelFailure.Encode u
  | FailAmountBelowMinimum amt u => AmountBelowMinimum.Encode amt u
  | FailFeeInsufficient amt u => FeeInsufficient.Encode amt u
  | FailIncorrectCltvExpiry e u => IncorrectCltvExpiry.Encode e u
  | FailExpiryTooSoon u => ExpiryTooSoon.Encode u
  | FailChannelDisabled fl u => ChannelDisabled.Encode fl u
  | FailFinalIncorrectCltvExpiry e => FinalIncorrectCltvExpiry.Encode e
  | FailFinalIncorrectHtlcAmount a => FinalIncorrectHtlcAmount.Encode a
  | InvalidOnionPayload t o => OnionPayload.Encode t o
  | _ => wnil
  end.

(** The decoder of the failure of a code: the empty failure, filled in when it
    has a payload. *)
Definition makeEmptyOnionError (code : Z) : option (reader FailureMessage) :=
  if bool_decide (code = CodeInvalidRealm) then Some (rret FailInvalidRealm)
  else if bool_decide (code = CodeTemporaryNodeFailure) then Some (rret FailTemporaryNodeFailure)
  else if bool_decide (code = CodePermanentNodeFailure) then Some (rret FailPermanentNodeFailure)
  else if bool_decide (code = CodeRequiredNodeFeatureMissing) then Some (rret FailRequiredNodeFeatureMissing)
  else if bool_decide (code = CodePermanentChannelFailure) then Some (rret FailPermanentChannelFailure)
  else if bool_decide (code = CodeRequiredChannelFeatureMissing) then Some (rret FailRequiredChannelFeatureMissing)
  else if bool_decide (code = CodeUnknownNextPeer) then Some (rret FailUnknownNextPeer)
  else if bool_decide (code = CodeIncorrectOrUnknownPaymentDetails) then Some IncorrectDetails.Decode
  else if bool_decide (code = CodeIncorrectPaymentAmount) then Some (rret FailIncorrectPaymentAmount)
  else if bool_decide (code = CodeFinalExpiryTooSoon) then Some (rret FailFinalExpiryTooSoon)
  else if bool_decide (code = CodeInvalidOnionVersion) then Some (OnionSha.Decode FailInvalidOnionVersion)
  else if bool_decide (code = CodeInvalidOnionHmac) then Some (OnionSha.Decode FailInvalidOnionHmac)
  else if bool_decide (code = CodeInvalidOnionKey) then Some (OnionSha.Decode FailInvalidOnionKey)
  else if bool_decide (code = CodeTemporaryChannelFailure) then Some TemporaryChannelFailure.Decode
  else if bool_decide (code = CodeAmountBelowMinimum) then Some AmountBelowMinimum.Decode
  else if bool_decide (code = CodeFeeInsufficient) then Some FeeInsufficient.Decode
  else if bool_decide (code = CodeIncorrectCltvExpiry) then Some IncorrectCltvExpiry.Decode
  else if bool_decide (code = CodeExpiryTooSoon) then Some ExpiryTooSoon.Decode
  else if bool_decide (code = CodeChannelDisabled) then Some ChannelDisabled.Decode
  else if bool_decide (code = CodeFinalIncorrectCltvExpiry) then Some FinalIncorrectCltvExpiry.Decode
  else if bool_decide (code = CodeFinalIncorrectHtlcAmount) then Some FinalIncorrectHtlcAmount.Decode
  else if bool_decide (code = CodeExpiryTooFar) then Some (rret FailExpiryTooFar)
  else if bool_decide (code = CodeInvalidOnionPayload) then Some OnionPayload.Decode
  else if bool_decide (code = CodeMPPTimeout) then Some (rret FailMPPTimeout)
  else None.

(** ** Messages *)

Definition EncodeFailureMessage (f : FailureMessage) : writer :=
  WriteBytes (be_put 2 (Code f)) ;;> encodePayload f.

Definition DecodeFailureMessage (bs : list byte) : outcome onion_err FailureMessage :=
  match ReadFull 2 bs with
  | Err e => Err (ErrReadFailCode e)
  | Panic => Panic
  | Ok (codeBytes, r) =>
      match makeEmptyOnionError (be_get codeBytes) with
      | None => Err (ErrUnknownErrorCode (be_get codeBytes))
      | Some dec =>
          match dec r with
          | Ok (f, _) => Ok f
          | Err e => Err (ErrDecodeErrorUpdate e)
          | Panic => Panic
          end
      end
  end.

(** The message and its padding to a fixed size, each with its length.  The
    message is written to a buffer of its own first. *)
Definition EncodeFailure (f : FailureMessage) (w : list byte) : list byte * outcome wire_err unit :=
  match EncodeFailureMessage f [] with
  | (_, Err e) => (w, Err e)
  | (_, Panic) => (w, Panic)
  | (failureMessage, Ok _) =>
      if bool_decide (FailureMessageLength < length failureMessage)%nat
      then (w, Err (ErrorPayloadTooLarge (length failureMessage)))
      else
        let pad := replicate (FailureMessageLength - length failureMessage) x00 in
        (WriteUint16 (u16 (Z.of_nat (length failureMessage))) ;;> WriteBytes failureMessage ;;>
         WriteUint16 (u16 (Z.of_nat (length pad))) ;;> WriteBytes pad) w
  end.

Definition DecodeFailure (bs : list byte) : outcome onion_err FailureMessage :=
  match ReadUint16 bs with
  | Err e => Err (ErrReadErrorLen e)
  | Panic => Panic
  | Ok (failureLength, r) =>
      if bool_decide (Z.of_nat FailureMessageLength < failureLength) then Err (ErrFailureTooLong failureLength)
      else
        match ReadFull (Z.to_nat failureLength) r with
        | Err e => Err (ErrReadPayload e)
        | Panic => Panic
        | Ok (failureData, _) => DecodeFailureMessage failureData
        end
  end.

(** ** Lemmas *)

(** The channel update of a failure. *)
Definition updateOf (f : FailureMessage) : option ChannelUpdate.t :=
  match f with
  | FailTemporaryChannelFailure u => u
  | FailAmountBelowMinimum _ u | FailFeeInsufficient _ u | FailIncorrectCltvExpiry _ u
  | FailExpiryTooSoon u | FailChannelDisabled _ u => Some u
  | _ => None
  end.

(** Values of the Go types; a signature that starts like a message type is excluded. *)
Definition wf_failure (f : FailureMessage) : Prop :=
  match f with
  | FailIncorrectDetails amount height => in_u 64 amount /\ in_u 32 height
  | FailInvalidOnionVersion sha | FailInvalidOnionHmac sha | FailInvalidOnionKey sha => length sha = 32%nat
  | FailAmountBelowMinimum amt _ | FailFeeInsufficient amt _ => in_u 64 amt
  | FailIncorrectCltvExpiry e _ => in_u 32 e
  | FailChannelDisabled fl _ => in_u 16 fl
  | FailFinalIncorrectCltvExpiry e => in_u 32 e
  | FailFinalIncorrectHtlcAmount a => in_u 64 a
  | InvalidOnionPayload t o => in_u 64 t /\ in_u 16 o
  | _ => True
  end /\
  match updateOf f with
  | Some u => ChannelUpdate.wf u /\ be_get (take 2 (ChannelUpdate.Signature u)) <> MsgChannelUpdate
  | None => True
  end.

Lemma update_starts bs u rest :
  ChannelUpdate.Decode bs = Ok (u, rest) -> exists t, bs = ChannelUpdate.Signature u ++ t.
Proof.
  intros H. unfold ChannelUpdate.Decode in H. apply rbind_ok_inv in H as (sig & r & Hs & H).
  apply codec_canon in Hs as (b0 & Hw & ->). pose proof (writes_inj _ _ _ Hw (writes_bytes sig)) as ->.
  exists r. f_equal. do 12 apply rbind_ok_inv in H as (? & ? & _ & H). by injection H as <- _.
Qed.

(** An update survives its place inside a failure. *)
Lemma update_roundtrip u :
  ChannelUpdate.wf u -> be_get (take 2 (ChannelUpdate.Signature u)) <> MsgChannelUpdate ->
  exists bs, writes (ChannelUpdate.Encode u) bs /\ parseChannelUpdateCompatabilityMode bs = Ok (u, []) /\
    (64 <= length bs <= 144 + length (ChannelUpdate.ExtraOpaqueData u))%nat.
Proof.
  intros Hw Hs. destruct (ChannelUpdate.ChannelUpdate_rt u Hw) as (bs & Hb & Hd). exists bs. split; [done|].
  destruct (update_starts _ _ _ Hd) as [t ->]. pose proof Hw as (Hl & Hc & Hscid & _). split.
  - unfold parseChannelUpdateCompatabilityMode, rbind at 1, Peek.
    rewrite bool_decide_eq_false_2 by (rewrite length_app; lia). rewrite take_app_le by lia.
    by rewrite bool_decide_eq_false_2.
  - split; [rewrite length_app; lia|].
    assert (exists b, writes (ChannelUpdate.Encode u) b /\
      (length b <= 144 + length (ChannelUpdate.ExtraOpaqueData u))%nat) as (b & Hb' & Hlb).
    { eexists. split.
      - unfold ChannelUpdate.Encode. do 2 (apply writes_seq; [apply writes_bytes|]).
        apply writes_seq; [by apply writes_scid|]. do 8 (apply writes_seq; [apply writes_bytes|]).
        apply writes_seq; [|apply writes_bytes].
        instantiate (1 := if ChannelUpdate.HasMaxHtlc (ChannelUpdate.MessageFlags u) then
          be_put 8 (ChannelUpdate.HtlcMaximumMsat u) else []).
        destruct (ChannelUpdate.HasMaxHtlc _); [apply writes_bytes|apply writes_nil].
      - rewrite !length_app, !length_be_put. destruct (ChannelUpdate.HasMaxHtlc _); rewrite ?length_be_put; simpl; lia. }
    by rewrite (writes_inj _ _ _ Hb Hb').
Qed.

(** The bytes and the length before them. *)
Lemma writes_chan_update u bs :
  writes (ChannelUpdate.Encode u) bs ->
  writes (writeOnionErrorChanUpdate u) (be_put 2 (u16 (Z.of_nat (length bs))) ++ bs).
Proof.
  intros H buf. unfold writeOnionErrorChanUpdate. rewrite (H []), app_nil_l.
  exact (writes_seq _ _ _ _ (writes_bytes _) (writes_bytes _) buf).
Qed.

Context {VL : VarIntLaws}.

(** A payload with an update: two length bytes that are skipped, then the update. *)
Lemma parse_after_length {B} (k : ChannelUpdate.t -> B) n u bs :
  parseChannelUpdateCompatabilityMode bs = Ok (u, []) ->
  (_ <-- ReadUint16 ; u <-- parseChannelUpdateCompatabilityMode ; rret (k u)) (be_put 2 n ++ bs) = Ok (k u, []).
Proof.
  intros H. unfold rbind at 1, ReadUint16. unfold rbind at 1.
  rewrite <- (length_be_put 2 n) at 1. rewrite ReadFull_app. unfold rret at 1. unfold rbind. by rewrite H.
Qed.

(** The same after a field of the failure. *)
Lemma field_then_update {A B} (w : writer) (r : reader A) (a : A) (k : A -> ChannelUpdate.t -> B) u :
  rt w r a -> ChannelUpdate.wf u -> be_get (take 2 (ChannelUpdate.Signature u)) <> MsgChannelUpdate ->
  exists bs, writes (w ;;> writeOnionErrorChanUpdate u) bs /\
    (a <-- r ; _ <-- ReadUint16 ; u <-- parseChannelUpdateCompatabilityMode ; rret (k a u)) bs = Ok (k a u, []) /\
    forall b0, writes w b0 -> (length bs <= length b0 + 146 + length (ChannelUpdate.ExtraOpaqueData u))%nat.
Proof.
  intros (b & Hb & Hr) Hw Hs. destruct (update_roundtrip u Hw Hs) as (bs & Hbs & Hp & Hl).
  eexists. split; [apply writes_seq; [exact Hb|by apply writes_chan_update]|]. split.
  - unfold rbind at 1. rewrite Hr. by apply (parse_after_length (k a)).
  - intros b0 Hb0. rewrite (writes_inj _ _ _ Hb0 Hb), !length_app, length_be_put. lia.
Qed.

Definition extraLength (f : FailureMessage) : nat :=
  match updateOf f with Some u => length (ChannelUpdate.ExtraOpaqueData u) | None => 0 end.

Definition decodes (f : FailureMessage) (bs : list byte) : Prop :=
  exists dec r, makeEmptyOnionError (Code f) = Some dec /\ dec bs = Ok (f, r).

Lemma payload_plain f bs :
  writes (encodePayload f) bs -> (length bs <= 40)%nat -> decodes f bs ->
  exists bs, writes (encodePayload f) bs /\ (length bs <= 154 + extraLength f)%nat /\
    ((length bs <= 256)%nat -> decodes f bs).
Proof. intros H1 H2 H3. exists bs. split_and!; [done|lia|done]. Qed.

(** A failure whose payload is one codec. *)
Lemma payload_codec {A} f (w : writer) (r : reader A) (a : A) (k : A -> FailureMessage) :
  rt w r a -> (forall bs, writes w bs -> (length bs <= 40)%nat) -> encodePayload f = w -> k a = f ->
  makeEmptyOnionError (Code f) = Some (a <-- r ; rret (k a)) ->
  exists bs, writes (encodePayload f) bs /\ (length bs <= 154 + extraLength f)%nat /\
    ((length bs <= 256)%nat -> decodes f bs).
Proof.
  intros (bs & Hw & Hr) Hl He Hk Hm. apply (payload_plain f bs); [by rewrite He|by apply Hl|].
  exists (a <-- r ; rret (k a)), []. split; [done|]. specialize (Hr []). rewrite app_nil_r in Hr.
  unfold rbind. rewrite Hr. unfold rret. by rewrite Hk.
Qed.

Lemma bytes_short b bs n : writes (WriteBytes b) bs -> (length b <= n)%nat -> (length bs <= n)%nat.
Proof. intros H. by rewrite (writes_inj _ _ _ H (writes_bytes b)). Qed.

(** A failure made of one field and an update. *)
Lemma payload_update {A} f (w : writer) (r : reader A) (a : A) (k : A -> ChannelUpdate.t -> FailureMessage) u :
  rt w r a -> (forall bs, writes w bs -> (length bs <= 8)%nat) ->
  ChannelUpdate.wf u -> be_get (take 2 (ChannelUpdate.Signature u)) <> MsgChannelUpdate ->
  encodePayload f = (w ;;> writeOnionErrorChanUpdate u) -> k a u = f -> updateOf f = Some u ->
  makeEmptyOnionError (Code f) =
    Some (a <-- r ; _ <-- ReadUint16 ; u <-- parseChannelUpdateCompatabilityMode ; rret (k a u)) ->
  exists bs, writes (encodePayload f) bs /\ (length bs <= 154 + extraLength f)%nat /\
    ((length bs <= 256)%nat -> decodes f bs).
Proof.
  intros Hr Hl Hw Hs He Hk Hu Hm. destruct (field_then_update w r a k u Hr Hw Hs) as (bs & Hb & Hd & Hn).
  exists bs. rewrite He. split; [done|]. split.
  - destruct Hr as (b0 & Hb0 & _). specialize (Hn _ Hb0). specialize (Hl _ Hb0). unfold extraLength. rewrite Hu. lia.
  - intros _. eexists _, []. rewrite Hm. split; [done|]. by rewrite Hd, Hk.
Qed.

Lemma payload_temporary u :
  ChannelUpdate.wf u -> be_get (take 2 (ChannelUpdate.Signature u)) <> MsgChannelUpdate ->
  let f := FailTemporaryChannelFailure (Some u) in
  exists bs, writes (encodePayload f) bs /\ (length bs <= 154 + extraLength f)%nat /\
    ((length bs <= 256)%nat -> decodes f bs).
Proof.
  intros Hw Hs f. destruct (update_roundtrip u Hw Hs) as (bs & Hb & Hp & Hl).
  exists (be_put 2 (u16 (Z.of_nat (length bs))) ++ bs). split; [exact (writes_chan_update u bs Hb)|].
  rewrite length_app, length_be_put. unfold extraLength. simpl updateOf. cbn iota. split; [lia|]. intros Hle.
  exists TemporaryChannelFailure.Decode, []. split; [done|].
  unfold TemporaryChannelFailure.Decode. unfold rbind at 1, ReadUint16. unfold rbind at 1.
  rewrite <- (length_be_put 2 (u16 (Z.of_nat (length bs)))) at 1. rewrite ReadFull_app. unfold rret at 1.
  assert (in_u 16 (u16 (Z.of_nat (length bs)))) by (unfold in_u, u16; apply Z.mod_pos_bound; lia).
  rewrite be_get_put_id by done. rewrite u16_length by lia.
  rewrite bool_decide_eq_true_2 by lia. unfold rbind. by rewrite Hp.
Qed.

Lemma payload_details amount height :
  in_u 64 amount -> in_u 32 height ->
  let f := FailIncorrectDetails amount height in
  exists bs, writes (encodePayload f) bs /\ (length bs <= 154 + extraLength f)%nat /\
    ((length bs <= 256)%nat -> decodes f bs).
Proof.
  intros Ha Hh f. apply (payload_plain f (be_put 8 amount ++ be_put 4 height)).
  - apply writes_seq; apply writes_bytes.
  - rewrite length_app, !length_be_put. lia.
  - exists IncorrectDetails.Decode, []. split; [done|]. unfold IncorrectDetails.Decode.
    destruct (codec_rt (w := WriteUint64) (r := ReadUnitPrec11) amount Ha) as (b & Hb & Hr).
    rewrite <- (writes_inj _ _ _ Hb (writes_bytes _)), Hr.
    destruct (codec_rt (w := WriteUint32) (r := ReadUint32) height Hh) as (b' & Hb' & Hr').
    specialize (Hr' []). rewrite app_nil_r in Hr'. by rewrite <- (writes_inj _ _ _ Hb' (writes_bytes _)), Hr'.
Qed.

(** Every failure is read back from its payload, as long as it fits. *)
Lemma payload_roundtrip f :
  wf_failure f ->
  exists bs, writes (encodePayload f) bs /\ (length bs <= 154 + extraLength f)%nat /\
    ((length bs <= 256)%nat -> decodes f bs).
Proof.
  assert (forall n z k, (n <= k)%nat -> forall bs, writes (WriteBytes (be_put n z)) bs -> (length bs <= k)%nat) as Hbe.
  { intros n z k Hk bs H. eapply bytes_short; [exact H|]. by rewrite length_be_put. }
  intros [H1 H2]. destruct f; try (apply (payload_plain _ []); [apply writes_nil|simpl; lia|by repeat eexists]);
    simpl in H1, H2; destruct_and?.
  - by apply payload_details.
  - apply (payload_codec _ (WriteBytes OnionSHA256) (ReadFull 32) OnionSHA256 FailInvalidOnionVersion); try done.
    + by apply codec_rt.
    + intros bs Hb. eapply bytes_short; [exact Hb|lia].
  - apply (payload_codec _ (WriteBytes OnionSHA256) (ReadFull 32) OnionSHA256 FailInvalidOnionHmac); try done.
    + by apply codec_rt.
    + intros bs Hb. eapply bytes_short; [exact Hb|lia].
  - apply (payload_codec _ (WriteBytes OnionSHA256) (ReadFull 32) OnionSHA256 FailInvalidOnionKey); try done.
    + by apply codec_rt.
    + intros bs Hb. eapply bytes_short; [exact Hb|lia].
  - destruct Update as [u|]; [destruct H2; by apply payload_temporary|].
    apply (payload_plain _ (be_put 2 0 ++ [])).
    + apply writes_seq; apply writes_bytes.
    + simpl. lia.
    + by exists TemporaryChannelFailure.Decode, [].
  - apply (payload_update _ (WriteUint64 HtlcMsat) ReadUnitPrec11 HtlcMsat FailAmountBelowMinimum Update);
      try done; [by apply codec_rt|apply Hbe; lia].
  - apply (payload_update _ (WriteUint64 HtlcMsat) ReadUnitPrec11 HtlcMsat FailFeeInsufficient Update);
      try done; [by apply codec_rt|apply Hbe; lia].
  - apply (payload_update _ (WriteUint32 CltvExpiry) ReadUint32 CltvExpiry FailIncorrectCltvExpiry Update);
      try done; [by apply codec_rt|apply Hbe; lia].
  - destruct (update_roundtrip Update) as (bs & Hb & Hp & Hl); [done..|].
    exists (be_put 2 (u16 (Z.of_nat (length bs))) ++ bs). split; [by apply writes_chan_update|].
    rewrite length_app, length_be_put. unfold extraLength. simpl. split; [lia|]. intros _.
    exists ExpiryTooSoon.Decode, []. split; [done|]. by apply (parse_after_length FailExpiryTooSoon).
  - apply (payload_update _ (WriteUint16 Flags) ReadUint16 Flags FailChannelDisabled Update);
      try done; [by apply codec_rt|apply Hbe; lia].
  - apply (payload_codec _ (WriteUint32 CltvExpiry) ReadUint32 CltvExpiry FailFinalIncorrectCltvExpiry); try done.
    + by apply codec_rt.
    + apply Hbe. lia.
  - apply (payload_codec _ (WriteUint64 IncomingHTLCAmount) ReadUnitPrec11 IncomingHTLCAmount
      FailFinalIncorrectHtlcAmount); try done.
    + by apply codec_rt.
    + apply Hbe. lia.
  - destruct (varint_rt Type_) as (bt & Hbt & Hrt); [tauto|].
    apply (payload_plain _ (bt ++ be_put 2 Offset)).
    + apply writes_seq; [done|apply writes_bytes].
    + rewrite length_app, length_be_put. pose proof (varint_size _ _ Hbt). lia.
    + exists OnionPayload.Decode, []. split; [done|]. unfold OnionPayload.Decode, rbind. rewrite Hrt.
      destruct (codec_rt (w := WriteUint16) (r := ReadUint16) Offset) as (b & Hb & Hr); [tauto|].
      specialize (Hr []). rewrite app_nil_r in Hr. by rewrite <- (writes_inj _ _ _ Hb (writes_bytes _)), Hr.
Qed.

Lemma code_range f : in_u 16 (Code f).
Proof. destruct f; vm_compute; split; congruence. Qed.

Lemma message_roundtrip f :
  wf_failure f ->
  exists bs, writes (EncodeFailureMessage f) bs /\ (length bs <= 156 + extraLength f)%nat /\
    ((length bs <= 256)%nat -> DecodeFailureMessage bs = Ok f).
Proof.
  intros Hw. destruct (payload_roundtrip f Hw) as (bs & Hb & Hl & Hd).
  exists (be_put 2 (Code f) ++ bs). split; [apply writes_seq; [apply writes_bytes|done]|].
  rewrite length_app, length_be_put. split; [lia|]. intros Hle. destruct Hd as (dec & r & Hm & Hr); [lia|].
  unfold DecodeFailureMessage. rewrite <- (length_be_put 2 (Code f)) at 1. rewrite ReadFull_app.
  rewrite be_get_put_id by apply code_range. by rewrite Hm, Hr.
Qed.

(** ** Every input is decoded or refused *)

#[local] Instance total_varint : Total ReadVarInt := varint_total.

#[local] Instance total_update : Total ChannelUpdate.Decode.
Proof. unfold ChannelUpdate.Decode. apply _. Qed.

#[local] Instance total_compat : Total parseChannelUpdateCompatabilityMode.
Proof.
  intros bs. unfold parseChannelUpdateCompatabilityMode, rbind at 1, Peek. case_bool_decide; [done|].
  case_bool_decide; [|apply total]. unfold rbind. pose proof (total (r := ReadFull 2) bs).
  destruct (ReadFull 2 bs) as [[? ?]| |]; [apply total|done..].
Qed.

#[local] Instance total_details : Total IncorrectDetails.Decode.
Proof.
  intros bs. unfold IncorrectDetails.Decode. pose proof (total (r := ReadUnitPrec11) bs) as H1.
  destruct (ReadUnitPrec11 bs) as [[a bs1]|[]|]; try done. pose proof (total (r := ReadUint32) bs1) as H2.
  by destruct (ReadUint32 bs1) as [[h bs2]|[]|].
Qed.

Lemma makeEmpty_total code dec bs : makeEmptyOnionError code = Some dec -> dec bs <> Panic.
Proof.
  unfold makeEmptyOnionError. intros H.
  repeat (case_bool_decide; [injection H as <-; apply total|]). done.
Qed.

Lemma DecodeFailureMessage_nopanic bs : DecodeFailureMessage bs <> Panic.
Proof.
  unfold DecodeFailureMessage. pose proof (total (r := ReadFull 2) bs).
  destruct (ReadFull 2 bs) as [[c r]| |]; [|done..]. destruct (makeEmptyOnionError _) as [dec|] eqn:E; [|done].
  pose proof (makeEmpty_total _ _ r E). by destruct (dec r) as [[? ?]| |].
Qed.

(** Decoding returns a failure or an error on every byte string. *)
Lemma DecodeFailure_total bs : DecodeFailure bs <> Panic.
Proof.
  unfold DecodeFailure. pose proof (total (r := ReadUint16) bs).
  destruct (ReadUint16 bs) as [[n r]| |]; [|done..]. case_bool_decide; [done|].
  pose proof (total (r := ReadFull (Z.to_nat n)) r).
  destruct (ReadFull (Z.to_nat n) r) as [[d ?]| |]; [apply DecodeFailureMessage_nopanic|done..].
Qed.

(** A failure is either read back or refused before anything is written.
    Every well-formed failure is encoded to exactly 260 bytes, whatever its kind, and
    decoded to itself; the only failures refused are those with a channel update of
    more than 100 bytes of extra data, and then the buffer is unchanged.  Decoding
    never panics, whatever the bytes. *)
Theorem EncodeFailure_roundtrip f w :
  wf_failure f ->
  (forall bs, DecodeFailure bs <> Panic) /\
  ((exists bs, EncodeFailure f w = (w ++ bs, Ok tt) /\ length bs = 260%nat /\ DecodeFailure bs = Ok f) \/
  ((100 < extraLength f)%nat /\ exists n, EncodeFailure f w = (w, Err (ErrorPayloadTooLarge n)) /\ (256 < n)%nat)).
Proof.
  intros Hw. split; [apply DecodeFailure_total|]. destruct (message_roundtrip f Hw) as (bs & Hb & Hl & Hd). unfold EncodeFailure, FailureMessageLength.
  rewrite (Hb []), app_nil_l. case_bool_decide as Hsz; [right; split; [lia|]; by exists (length bs)|]. left.
  eexists. split; [apply writes_seq; [apply writes_bytes|]; apply writes_seq; [apply writes_bytes|];
    apply writes_seq; apply writes_bytes|]. split; [rewrite !length_app, !length_be_put, length_replicate; lia|].
  unfold DecodeFailure. set (rest := bs ++ _).
  destruct (codec_rt (w := WriteUint16) (r := ReadUint16) (u16 (Z.of_nat (length bs)))) as (b & Hb' & Hr).
  { unfold in_u, u16. apply Z.mod_pos_bound. lia. }
  rewrite <- (writes_inj _ _ _ Hb' (writes_bytes _)), Hr. rewrite u16_length by lia. unfold FailureMessageLength.
  rewrite bool_decide_eq_false_2 by lia. rewrite Nat2Z.id. unfold rest. rewrite ReadFull_app. apply Hd. lia.
Qed.

End onion.

(** ** Concrete failures *)

#[local] Instance varint_model : VarInt := {| WriteVarInt n := WriteBytes (bigsize n); ReadVarInt := read_bigsize |}.

#[local] Instance varint_model_laws : VarIntLaws.
Proof.
  split.
  - intros n Hn. exists (bigsize n). split; [apply writes_bytes|by apply bigsize_rt].
  - intros n bs H. rewrite (writes_inj _ _ _ H (writes_bytes _)). unfold bigsize.
    repeat case_bool_decide; simpl; lia.
  - change (Total read_bigsize). unfold read_bigsize. apply _.
Qed.

(** An update whose signature starts with the given bytes. *)
Definition example_update (b1 b2 : byte) : ChannelUpdate.t :=
  ChannelUpdate.mk (b1 :: b2 :: replicate 62 x07) (replicate 32 x01) (mkShortChannelID 5 1 0) 1600000000 1 0 40 1000
    1 10 5000000 0 [].

Lemma EncodeFailure_roundtrip_witness :
  let f := FailFeeInsufficient 1500 (example_update x30 x44) in
  (forall bs, DecodeFailure bs <> Panic) /\
  ((exists bs, EncodeFailure f [xff] = ([xff] ++ bs, Ok tt) /\ length bs = 260%nat /\ DecodeFailure bs = Ok f) \/
  ((100 < extraLength f)%nat /\ exists n, EncodeFailure f [xff] = ([xff], Err (ErrorPayloadTooLarge n)) /\ (256 < n)%nat)).
Proof.
  intros f. apply (EncodeFailure_roundtrip f [xff]). repeat split; vm_compute; congruence.
Defined.

(** An update whose signature happens to start with the two bytes of the type of a
    channel update is read two bytes too late. *)
Example ambiguous_update :
  let f := FailExpiryTooSoon (example_update x04 xea) in
  match EncodeFailure f [] with (bs, Ok _) => DecodeFailure bs <> Ok f | _ => False end.
Proof. vm_compute. discriminate. Qed.
