(* ===== verification/Amounts.v ===== *)
(** * Amounts, fee rates, channel types and transaction weights

    Models lnwire/msat.go, lnwallet/chainfee/rates.go, the [ChannelType] flags of
    channeldb/channel.go, the weight constants of input/size.go that the channel
    state machine uses, the fee functions of lnwallet/commitment.go and
    [HtlcIsDust] of lnwallet/channel.go.  [btcutil.Amount], [omnicore.Amount] and
    the fee rates are signed 64-bit integers; [MilliSatoshi], [UnitPrec8] and
    [UnitPrec11] are unsigned ones. *)

From Stdlib Require Import ZArith Lia.
From S2P Require Import Prelude.

Local Open Scope Z_scope.

(** ** Units (lnwire/msat.go) *)

Definition mSatScale : Z := 1000.
Definition MaxMilliSatoshi : Z := 2 ^ 64 - 1.

Definition NewMSatFromSatoshis (sat : Z) : Z := u64 (u64 sat * mSatScale).

Definition ToSatoshis (m : Z) : Z := i64 (m / mSatScale).

Module UnitPrec8.

Definition ToMsat (i : Z) : Z := NewMSatFromSatoshis (i64 i).
Definition ToSat (i : Z) : Z := i64 i.

End UnitPrec8.

Module UnitPrec11.

Definition ToMsat (i : Z) : Z := i.
Definition ToSat (i : Z) : Z := i64 (i / 1000).

End UnitPrec11.

Definition OmniGas : Z := 546.
Definition BtcAssetId : Z := 0.
Definition AssetMinHtlc : Z := 10000.

Definition LoadDefaultMinHtlc (assetId minHtlc : Z) : Z :=
  if bool_decide (assetId = BtcAssetId) then minHtlc else AssetMinHtlc.

(** ** Fee rates (lnwallet/chainfee/rates.go) *)

Definition FeePerKwFloor : Z := 253.
Definition AbsoluteFeePerKwFloor : Z := 250.
Definition WitnessScaleFactor : Z := 4.

Module SatPerKVByte.

Definition FeeForVSize (s vbytes : Z) : Z := Z.quot (i64 (s * vbytes)) 1000.
Definition FeePerKWeight (s : Z) : Z := Z.quot s WitnessScaleFactor.

End SatPerKVByte.

Module SatPerKWeight.

Definition FeeForWeight (s wu : Z) : Z := Z.quot (i64 (s * wu)) 1000.
Definition FeePerKVByte (s : Z) : Z := i64 (s * WitnessScaleFactor).

End SatPerKWeight.

(** ** Channel types (channeldb/channel.go) *)

Module ChannelType.

Definition DualFunderBit : Z := Z.shiftl 1 0.
Definition SingleFunderTweaklessBit : Z := Z.shiftl 1 1.
Definition NoFundingTxBit : Z := Z.shiftl 1 2.
Definition AnchorOutputsBit : Z := Z.shiftl 1 3.
Definition FrozenBit : Z := Z.shiftl 1 4.
Definition ZeroHtlcTxFeeBit : Z := Z.shiftl 1 5.
Definition LeaseExpirationBit : Z := Z.shiftl 1 6.

Definition has (c bit : Z) : bool := bool_decide (Z.land c bit = bit).

Definition IsSingleFunder (c : Z) : bool := bool_decide (Z.land c DualFunderBit = 0).
Definition IsDualFunder (c : Z) : bool := has c DualFunderBit.
Definition IsTweakless (c : Z) : bool := has c SingleFunderTweaklessBit.
Definition HasFundingTx (c : Z) : bool := bool_decide (Z.land c NoFundingTxBit = 0).
Definition HasAnchors (c : Z) : bool := has c AnchorOutputsBit.
Definition ZeroHtlcTxFee (c : Z) : bool := has c ZeroHtlcTxFeeBit.
Definition IsFrozen (c : Z) : bool := has c FrozenBit.
Definition HasLeaseExpiration (c : Z) : bool := has c LeaseExpirationBit.

End ChannelType.

(** ** Weights (input/size.go) *)

Definition P2WPKHSize : Z := 22.
Definition P2WSHSize : Z := 34.
Definition MultiSigSize : Z := 1 + 1 + 33 + 1 + 33 + 1 + 1.
Definition MultiSigWitnessSize : Z := 1 + 1 + 1 + 73 + 1 + 73 + 1 + MultiSigSize.
Definition InputSize : Z := 32 + 4 + 1 + 4.
Definition FundingInputSize : Z := InputSize.
Definition CommitmentDelayOutput : Z := 8 + 1 + P2WSHSize.
Definition CommitmentKeyHashOutput : Z := 8 + 1 + P2WPKHSize.
Definition CommitmentAnchorOutput : Z := 8 + 1 + P2WSHSize.
Definition HTLCSize : Z := 8 + 1 + P2WSHSize.
Definition WitnessHeaderSize : Z := 1 + 1.
Definition BaseCommitmentTxSize : Z :=
  4 + 1 + FundingInputSize + 1 + CommitmentDelayOutput + CommitmentKeyHashOutput + 4.
Definition BaseCommitmentTxWeight : Z := WitnessScaleFactor * BaseCommitmentTxSize.
Definition WitnessCommitmentTxWeight : Z := WitnessHeaderSize + MultiSigWitnessSize.
Definition BaseAnchorCommitmentTxSize : Z :=
  4 + 1 + FundingInputSize + 3 + 2 * CommitmentDelayOutput + 2 * CommitmentAnchorOutput + 4.
Definition BaseAnchorCommitmentTxWeight : Z := WitnessScaleFactor * BaseAnchorCommitmentTxSize.
Definition CommitWeightPlain : Z := BaseCommitmentTxWeight + WitnessCommitmentTxWeight.
Definition AnchorCommitWeight : Z := BaseAnchorCommitmentTxWeight + WitnessCommitmentTxWeight.
Definition HTLCWeight : Z := WitnessScaleFactor * HTLCSize.
Definition HtlcTimeoutWeight : Z := 663.
Definition HtlcSuccessWeight : Z := 703.
Definition HtlcConfirmedScriptOverhead : Z := 3.
Definition HtlcTimeoutWeightConfirmed : Z := HtlcTimeoutWeight + HtlcConfirmedScriptOverhead.
Definition HtlcSuccessWeightConfirmed : Z := HtlcSuccessWeight + HtlcConfirmedScriptOverhead.

(** ** Commitment fees (lnwallet/commitment.go) *)

Definition CommitWeight (chanType : Z) : Z :=
  if ChannelType.HasAnchors chanType then AnchorCommitWeight else CommitWeightPlain.

Definition HtlcTimeoutFee (chanType feePerKw : Z) : Z :=
  if ChannelType.ZeroHtlcTxFee chanType then 0
  else if ChannelType.HasAnchors chanType
  then SatPerKWeight.FeeForWeight feePerKw HtlcTimeoutWeightConfirmed
  else SatPerKWeight.FeeForWeight feePerKw HtlcTimeoutWeight.

Definition HtlcSuccessFee (chanType feePerKw : Z) : Z :=
  if ChannelType.ZeroHtlcTxFee chanType then 0
  else if ChannelType.HasAnchors chanType
  then SatPerKWeight.FeeForWeight feePerKw HtlcSuccessWeightConfirmed
  else SatPerKWeight.FeeForWeight feePerKw HtlcSuccessWeight.

(** ** Dust (lnwallet/channel.go) *)

Definition HtlcIsDust (chanType : Z) (incoming ourCommit : bool)
    (feePerKw htlcAmt dustLimit assetId : Z) : bool :=
  let htlcAmt := if bool_decide (assetId <> BtcAssetId) then OmniGas * 3 else htlcAmt in
  let htlcFee :=
    match incoming, ourCommit with
    | true, true => HtlcSuccessFee chanType feePerKw
    | true, false => HtlcTimeoutFee chanType feePerKw
    | false, true => HtlcTimeoutFee chanType feePerKw
    | false, false => HtlcSuccessFee chanType feePerKw
    end in
  bool_decide (i64 (htlcAmt - htlcFee) < dustLimit).

(** ** Lemmas *)

(** Satoshis survive the conversion to milli-satoshis and back as long as the
    product does not leave 64 bits. *)
Lemma ToSatoshis_NewMSat sat :
  0 <= sat <= MaxMilliSatoshi / 1000 -> ToSatoshis (NewMSatFromSatoshis sat) = sat.
Proof.
  unfold ToSatoshis, NewMSatFromSatoshis, mSatScale. intros H.
  change (MaxMilliSatoshi / 1000) with 18446744073709551 in H.
  rewrite (u64_id sat) by (unfold in_u; lia). rewrite u64_id by (unfold in_u; lia).
  rewrite Z.div_mul by lia. apply i64_id. unfold in_i64. lia.
Qed.

Lemma NewMSat_exact sat :
  0 <= sat <= MaxMilliSatoshi / 1000 -> NewMSatFromSatoshis sat = sat * 1000.
Proof.
  unfold NewMSatFromSatoshis, mSatScale. intros H.
  change (MaxMilliSatoshi / 1000) with 18446744073709551 in H.
  rewrite (u64_id sat) by (unfold in_u; lia). apply u64_id. unfold in_u. lia.
Qed.

Lemma NewMSat_in sat : in_u 64 (NewMSatFromSatoshis sat).
Proof. apply u64_in. Qed.

(** The fee grows with the rate and the weight, inside the range of [int64]. *)
Lemma FeeForWeight_mono s1 s2 wu1 wu2 :
  0 <= s1 <= s2 -> 0 <= wu1 <= wu2 -> s2 * wu2 < 2 ^ 63 ->
  0 <= SatPerKWeight.FeeForWeight s1 wu1 <= SatPerKWeight.FeeForWeight s2 wu2.
Proof.
  intros Hs Hw Hb. unfold SatPerKWeight.FeeForWeight.
  assert (0 <= s1 * wu1 <= s2 * wu2) as Hm by nia.
  rewrite !i64_id by (unfold in_i64; lia).
  rewrite !Z.quot_div_nonneg by lia. split; [apply Z.div_pos; lia|apply Z.div_le_mono; lia].
Qed.
