(* ===== verification/OpReturn.v ===== *)
(** * lnwallet/omnicore/op: Omni payloads

    Models lnwallet/omnicore/op/opreturn.go: the send-to-many and simple-send
    payloads of the Omni layer, their OP_RETURN scripts, and the collection of
    asset amounts per output script that [AddOpReturnToTx] turns into the first
    output of a transaction; and [FindScriptOutputIndex] of
    input/script_utils.go.  Printing is not modelled. *)

From Stdlib Require Import ZArith Lia Sorted.
From stdpp Require Import sorting.
From S2P Require Import Prelude Wire Amounts.

Local Open Scope Z_scope.
Local Open Scope go_scope.

(** ** Transactions

    Only what the wallet writes: the inputs' outpoints and sequences, the outputs
    and the lock time. *)

Record TxOut := mkTxOut { Value : Z; PkScript : list byte }.

#[global] Instance TxOut_eq_dec : EqDecision TxOut.
Proof. solve_decision. Defined.

Record TxIn := mkTxIn { PreviousOutPoint : OutPoint; Sequence : Z }.

Record MsgTx := mkMsgTx {
  TxIns : list TxIn;
  TxOuts : list TxOut;
  LockTime : Z;
}.

Definition set_outs (tx : MsgTx) (outs : list TxOut) : MsgTx :=
  {| TxIns := TxIns tx; TxOuts := outs; LockTime := LockTime tx |}.

(** [FindScriptOutputIndex]: the first output with the script. *)
Definition FindScriptOutputIndex (tx : MsgTx) (script : list byte) : bool * Z :=
  match list_find (fun o => PkScript o = script) (TxOuts tx) with
  | Some (i, _) => (true, u32 (Z.of_nat i))
  | None => (false, 0)
  end.

(** ** Payloads *)

Inductive op_err : Type :=
  | ErrMissAssetId
  | ErrTooManyReceivers
  | ErrPayloadTooLong
  | ErrScriptNotFound (pks : list byte) (amount : Z)
  | ErrWire (e : wire_err).

Record Output := mkOutput { Index : Z; Amount : Z }.

Record Opreturn := mkOpreturn {
  Ver : Z;
  TranType : Z;
  Outputs : list Output;
  PropertyId : Z;
}.

Definition max_receivers : nat := 7.

Definition WriteOutput (out : Output) : writer :=
  WriteUint8 (Index out) ;;> WriteUint64 (Amount out).

(** The version and the type written are constants, whatever the struct holds. *)
Definition Encode (p : Opreturn) : outcome op_err writer :=
  if bool_decide (PropertyId p = 0) then Err ErrMissAssetId
  else if bool_decide (max_receivers < length (Outputs p))%nat then Err ErrTooManyReceivers
  else Ok (
    WriteUint16 0 ;;> WriteUint16 7 ;;> WriteUint32 (PropertyId p) ;;>
    WriteUint8 (u8 (Z.of_nat (length (Outputs p)))) ;;>
    foldr (fun out w => WriteOutput out ;;> w) wnil (Outputs p)).

Definition ReadOutput : reader Output :=
  index' <-- ReadUint8 ; amount' <-- ReadUint64 ; rret {| Index := index'; Amount := amount' |}.

Fixpoint ReadOutputs (n : nat) : reader (list Output) :=
  match n with
  | O => rret []
  | S n' => out <-- ReadOutput ; outs <-- ReadOutputs n' ; rret (out :: outs)
  end.

Definition Decode : reader Opreturn :=
  ver' <-- ReadUint16 ;
  tranType' <-- ReadUint16 ;
  propertyId' <-- ReadUint32 ;
  outputs_count <-- ReadUint8 ;
  outs <-- ReadOutputs (Z.to_nat outputs_count) ;
  rret {| Ver := ver'; TranType := tranType'; Outputs := outs; PropertyId := propertyId' |}.

(** The bytes of a writer on a fresh buffer. *)
Definition run_writer (w : writer) : outcome op_err (list byte) :=
  match w [] with
  | (bs, Ok _) => Ok bs
  | (_, Err e) => Err (ErrWire e)
  | (_, Panic) => Panic
  end.

(** ** Scripts *)

Definition OP_RETURN : byte := x6a.
Definition OP_PUSHDATA1 : Z := 76.
Definition omni_marker : list byte := [x6f; x6d; x6e; x69].

Definition addOpCodeData (data : list byte) : list byte :=
  let length := Z.of_nat (length data) in
  if bool_decide (length < OP_PUSHDATA1) then byte_of_Z length :: data
  else if bool_decide (length <= 0xff) then byte_of_Z OP_PUSHDATA1 :: byte_of_Z length :: data
  else [].

Definition getOpPKs (data : list byte) : outcome op_err (list byte) :=
  let payload := omni_marker ++ data in
  if bool_decide (83 < length payload)%nat then Err ErrPayloadTooLong
  else Ok (OP_RETURN :: addOpCodeData payload).

Definition GetOpReturnOut (assetID : Z) (outs : list Output) : outcome op_err TxOut :=
  w <~ Encode {| Ver := 0; TranType := 0; Outputs := outs; PropertyId := u32 assetID |} ;
  data <~ run_writer w ;
  opPks <~ getOpPKs data ;
  Ok {| Value := 0; PkScript := opPks |}.

(** ** Simple send *)

Module OpreturnSimple.

Record t := mk { Ver : Z; TranType : Z; PropertyId : Z; Amount : Z }.

Definition Encode (p : t) : outcome op_err (list byte) :=
  if bool_decide (PropertyId p = 0) then Err ErrMissAssetId
  else
    data <~ run_writer (WriteUint16 0 ;;> WriteUint16 0 ;;> WriteUint32 (PropertyId p) ;;>
                        WriteUint64 (Amount p)) ;
    getOpPKs data.

Definition AddOpReturnToTx (op : t) (tx : MsgTx) : outcome op_err MsgTx :=
  bs <~ Encode op ;
  Ok (set_outs tx ({| Value := 0; PkScript := bs |} :: TxOuts tx)).

(** [pkScript[6:]] panics when the script is shorter than that. *)
Definition Decode (pkScript : list byte) : outcome op_err t :=
  if bool_decide (length pkScript < 6)%nat then Panic
  else
    match (ver' <-- ReadUint16 ; tranType' <-- ReadUint16 ; propertyId' <-- ReadUint32 ;
           amount' <-- ReadUint64 ;
           rret {| Ver := ver'; TranType := tranType'; PropertyId := propertyId';
                   Amount := amount' |}) (drop 6 pkScript) with
    | Ok (p, _) => Ok p
    | Err e => Err (ErrWire e)
    | Panic => Panic
    end.

End OpreturnSimple.

(** ** Asset amounts per script *)

Record PksAmounts := mkPksAmounts {
  AssetID : Z;
  pksAmounts : list (list byte * Z);
}.

Definition NewPksAmounts (assetId : Z) : PksAmounts :=
  {| AssetID := assetId; pksAmounts := [] |}.

Definition PksAdd (p : PksAmounts) (pks : list byte) (amount : Z) : PksAmounts :=
  if bool_decide (AssetID p = BtcAssetId) then p
  else if bool_decide (amount = 0) then p
  else {| AssetID := AssetID p; pksAmounts := pksAmounts p ++ [(pks, amount)] |}.

Definition out_le (a b : Output) : Prop := Index a <= Index b.
#[global] Instance out_le_dec a b : Decision (out_le a b).
Proof. unfold out_le. apply _. Defined.
#[global] Instance out_le_total : Total out_le.
Proof. intros a b. unfold out_le. lia. Qed.
#[global] Instance out_le_trans : Transitive out_le.
Proof. intros a b c. unfold out_le. lia. Qed.

(** The outputs of the payload: the first output with the script, shifted by one
    because the OP_RETURN output is put in front. *)
Fixpoint opOutputs (tx : MsgTx) (l : list (list byte * Z)) : outcome op_err (list Output) :=
  match l with
  | [] => Ok []
  | (pks, amount) :: l' =>
      let '(found, assetOutIndex) := FindScriptOutputIndex tx pks in
      if found then
        rest <~ opOutputs tx l' ;
        Ok ({| Index := u8 (u8 assetOutIndex + 1); Amount := u64 amount |} :: rest)
      else Err (ErrScriptNotFound pks amount)
  end.

Definition AddOpReturnToTx (tx : MsgTx) (p : PksAmounts) : outcome op_err MsgTx :=
  if bool_decide (AssetID p = BtcAssetId) then Ok tx
  else if bool_decide (pksAmounts p = []) then Ok tx
  else
    outs <~ opOutputs tx (pksAmounts p) ;
    txOut <~ GetOpReturnOut (AssetID p) (merge_sort out_le outs) ;
    Ok (set_outs tx (txOut :: TxOuts tx)).

(** ** Lemmas *)

Definition wf_output (o : Output) : Prop := in_u 8 (Index o) /\ in_u 64 (Amount o).

#[global] Instance codec_output : Codec wf_output WriteOutput ReadOutput.
Proof.
  split.
  - intros [i a] [Hi Ha]. unfold WriteOutput, ReadOutput. cbn in *.
    eapply rt_seq; [by apply codec_rt|].
    exact (rt_last _ _ _ (fun x => mkOutput i x) (codec_rt a Ha)).
  - intros bs o rest H. unfold ReadOutput in H.
    apply rbind_ok_inv in H as (? & ? & ?%codec_wf & H).
    apply rbind_ok_inv in H as (? & ? & ?%codec_wf & H). by inversion H; subst.
Qed.

Lemma outputs_rt outs :
  Forall wf_output outs ->
  exists bs, writes (foldr (fun out w => WriteOutput out ;;> w) wnil outs) bs /\
    length bs = (9 * length outs)%nat /\
    forall rest, ReadOutputs (length outs) (bs ++ rest) = Ok (outs, rest).
Proof.
  induction 1 as [|o outs Ho _ (bs & Hw & Hl & Hr)].
  - exists []. split; [apply writes_nil|]. by split.
  - destruct (codec_rt o Ho) as (bs1 & Hw1 & Hr1).
    exists (bs1 ++ bs). split; [by apply writes_seq|]. split.
    + assert (bs1 = be_put 1 (Index o) ++ be_put 8 (Amount o)) as ->.
      { apply (writes_inj _ _ _ Hw1). apply writes_seq; apply writes_bytes. }
      rewrite !length_app, !length_be_put, Hl. cbn. lia.
    + intros rest. cbn [ReadOutputs length]. unfold rbind at 1.
      rewrite <- app_assoc, Hr1. unfold rbind. by rewrite Hr.
Qed.

(** The script of a payload: what follows the marker is the payload. *)
Lemma getOpPKs_ok data :
  (length data <= 79)%nat ->
  exists pre, getOpPKs data = Ok (pre ++ data) /\
    (length pre = 6 \/ length pre = 7)%nat /\ drop (length pre - 4) pre = omni_marker.
Proof.
  intros Hl. unfold getOpPKs. rewrite bool_decide_eq_false_2 by (cbn; lia).
  unfold addOpCodeData. case_bool_decide as H1.
  - exists (OP_RETURN :: byte_of_Z (Z.of_nat (length (omni_marker ++ data))) :: omni_marker).
    split; [done|]. by split; [left|].
  - rewrite bool_decide_eq_true_2 by (cbn; lia).
    exists (OP_RETURN :: byte_of_Z OP_PUSHDATA1 ::
            byte_of_Z (Z.of_nat (length (omni_marker ++ data))) :: omni_marker).
    split; [done|]. by split; [right|].
Qed.

(** ** Theorems *)

Lemma Encode_ok ver tt outs pid :
  in_u 32 pid -> pid <> 0 -> Forall wf_output outs -> (length outs <= 7)%nat ->
  exists w bs, Encode (mkOpreturn ver tt outs pid) = Ok w /\ writes w bs /\
    length bs = (9 + 9 * length outs)%nat /\
    forall rest, Decode (bs ++ rest) = Ok (mkOpreturn 0 7 outs pid, rest).
Proof.
  intros Hp Hp0 Hwf Hl. unfold Encode; cbn [PropertyId Outputs].
  rewrite !bool_decide_eq_false_2 by (unfold max_receivers; lia || done).
  destruct (outputs_rt outs Hwf) as (bs & Hw & Hlen & Hr).
  eexists. exists (be_put 2 0 ++ be_put 2 7 ++ be_put 4 pid ++
    be_put 1 (Z.of_nat (length outs)) ++ bs). split; [done|]. split.
  { unfold u8. rewrite Z.mod_small by lia.
    repeat (apply writes_seq; [apply writes_bytes|]). exact Hw. }
  rewrite !length_app, !length_be_put. split; [lia|]. intros rest.
  unfold Decode, ReadUint16, ReadUint32, ReadUint8, rbind, rret. rewrite <- !app_assoc.
  rewrite (ReadFull_app (be_put 2 0)), (ReadFull_app (be_put 2 7)), (ReadFull_app (be_put 4 pid)),
    (ReadFull_app (be_put 1 _)).
  rewrite !be_get_put_id by (done || lia). rewrite Nat2Z.id. fold ReadOutputs. by rewrite Hr.
Qed.

(** The Omni payload.  A send-to-many payload is accepted exactly when it
    names an asset and has at most seven receivers; its OP_RETURN script is then
    always short enough, carries the marker, and decodes to the same receivers,
    amounts and asset. *)
Theorem Opreturn_roundtrip outs pid :
  in_u 32 pid -> Forall wf_output outs ->
  match GetOpReturnOut pid outs with
  | Ok out => pid <> 0 /\ (length outs <= 7)%nat /\ Value out = 0 /\
      exists pre data, PkScript out = pre ++ data /\
        head pre = Some OP_RETURN /\ drop (length pre - 4) pre = omni_marker /\
        Decode data = Ok (mkOpreturn 0 7 outs pid, [])
  | Err e => (pid = 0 /\ e = ErrMissAssetId) \/ ((7 < length outs)%nat /\ e = ErrTooManyReceivers)
  | Panic => False
  end.
Proof.
  intros Hp Hwf. unfold GetOpReturnOut. rewrite u32_id by done.
  destruct (decide (pid = 0)) as [->|Hp0]; [by left|].
  destruct (decide (7 < length outs)%nat) as [Hl|Hl].
  { unfold Encode; cbn [PropertyId Outputs]. rewrite bool_decide_eq_false_2 by done.
    rewrite bool_decide_eq_true_2 by done. by right. }
  destruct (Encode_ok 0 0 outs pid) as (w & bs & -> & Hw & Hlen & Hd); [done..|lia|].
  cbn [obind]. unfold run_writer. rewrite (Hw []). cbn [app obind].
  destruct (getOpPKs_ok bs) as (pre & Hg & Hpre & Hm); [lia|]. rewrite Hg. cbn.
  split; [done|]. split; [lia|]. split; [done|]. exists pre, bs. split; [done|].
  split; [|split; [done|by rewrite <- (app_nil_r bs), Hd]].
  unfold getOpPKs in Hg. case_bool_decide; [done|]. inversion Hg as [E].
  destruct pre; [cbn in Hpre; lia|]. cbn in E |- *. congruence.
Qed.

Lemma Opreturn_roundtrip_witness :
  match GetOpReturnOut 31 [mkOutput 2 1050000000; mkOutput 3 50000000] with
  | Ok out => 31 <> 0 /\ (2 <= 7)%nat /\ Value out = 0 /\
      exists pre data, PkScript out = pre ++ data /\
        head pre = Some OP_RETURN /\ drop (length pre - 4) pre = omni_marker /\
        Decode data = Ok (mkOpreturn 0 7 [mkOutput 2 1050000000; mkOutput 3 50000000] 31, [])
  | Err e => (31 = 0 /\ e = ErrMissAssetId) \/ ((7 < 2)%nat /\ e = ErrTooManyReceivers)
  | Panic => False
  end.
Proof.
  apply (Opreturn_roundtrip [mkOutput 2 1050000000; mkOutput 3 50000000] 31);
    repeat constructor; cbn; lia.
Defined.

Lemma opOutputs_ok tx l outs :
  opOutputs tx l = Ok outs -> (length (TxOuts tx) < 255)%nat ->
  Forall (fun x => 0 < x.2 < 2 ^ 63) l ->
  Forall2 (fun out x => wf_output out /\ Amount out = x.2 /\ 0 < Index out /\
    exists o, TxOuts tx !! Z.to_nat (Index out - 1) = Some o /\ PkScript o = x.1) outs l.
Proof.
  intros H Hlen Hamt. revert outs H.
  induction Hamt as [|[pks amt] l Ha Hamt IH]; intros outs H; cbn in H.
  { simplify_eq. constructor. }
  unfold FindScriptOutputIndex in H.
  destruct (list_find _ _) as [[i o]|] eqn:Hf; [|done].
  obind_inv H. simplify_eq. constructor; [|by apply IH].
  apply list_find_Some in Hf as (Hi & Hs & _).
  pose proof (lookup_lt_Some _ _ _ Hi) as Hlt. cbn in Ha |- *.
  assert (u8 (u8 (u32 (Z.of_nat i)) + 1) = Z.of_nat i + 1) as ->.
  { rewrite u32_id by (unfold in_u; lia). unfold u8. rewrite (Z.mod_small (Z.of_nat i)) by lia.
    apply Z.mod_small. lia. }
  rewrite u64_id by (unfold in_u; lia). split; [split; unfold in_u; cbn; lia|].
  split; [done|]. split; [lia|]. exists o. split; [|done].
  by replace (Z.to_nat (Z.of_nat i + 1 - 1)) with i by lia.
Qed.

(** C8: Assets follow their outputs.  When [AddOpReturnToTx] succeeds for an asset
    channel, the transaction only gains one first output, and its payload decodes
    to a permutation of the collected amounts, each attached to an output of the
    new transaction that has the script the amount was collected for. *)
Theorem AddOpReturnToTx_faithful tx p tx' :
  AssetID p <> BtcAssetId -> in_u 32 (AssetID p) -> pksAmounts p <> [] ->
  Forall (fun x => 0 < x.2 < 2 ^ 63) (pksAmounts p) -> (length (TxOuts tx) < 255)%nat ->
  AddOpReturnToTx tx p = Ok tx' ->
  exists script data outs,
    tx' = set_outs tx (mkTxOut 0 script :: TxOuts tx) /\
    (exists pre, script = pre ++ data) /\
    Decode data = Ok (mkOpreturn 0 7 (merge_sort out_le outs) (AssetID p), []) /\
    Forall2 (fun out x => Amount out = x.2 /\
      exists o, TxOuts tx' !! Z.to_nat (Index out) = Some o /\ PkScript o = x.1)
      outs (pksAmounts p).
Proof.
  intros Ha Hu Hne Hamt Hlen. unfold AddOpReturnToTx.
  rewrite !bool_decide_eq_false_2 by done. intros H. obind_inv H. rename a into outs.
  pose proof (opOutputs_ok _ _ _ Hstep Hlen Hamt) as HF. obind_inv H. simplify_eq.
  assert (Forall wf_output (merge_sort out_le outs)) as Hwf.
  { rewrite (merge_sort_Permutation out_le outs).
    apply Forall_forall. intros o Ho. apply list_elem_of_lookup in Ho as [i Hi].
    destruct (Forall2_lookup_l _ _ _ _ _ HF Hi) as (x & _ & Hw & _). done. }
  unfold GetOpReturnOut in Hstep0. rewrite u32_id in Hstep0 by done.
  obind_inv Hstep0. rename a0 into w. obind_inv Hstep0. obind_inv Hstep0. simplify_eq.
  assert (length (merge_sort out_le outs) <= 7)%nat as Hl7.
  { unfold Encode in Hstep1; cbn [PropertyId Outputs] in Hstep1.
    repeat case_bool_decide; try done. unfold max_receivers in *. lia. }
  destruct (Encode_ok 0 0 (merge_sort out_le outs) (AssetID p)) as (w' & bs & E & Hw & Hlb & Hd);
    [done..|]. rewrite E in Hstep1. injection Hstep1 as <-.
  unfold run_writer in Hstep2. rewrite (Hw []) in Hstep2. cbn [app] in Hstep2.
  injection Hstep2 as <-.
  destruct (getOpPKs_ok bs) as (pre & Hg & _); [lia|]. rewrite Hg in Hstep3.
  injection Hstep3 as <-.
  exists (pre ++ bs), bs, outs. split; [done|]. split; [by exists pre|].
  split; [by rewrite <- (app_nil_r bs), Hd|].
  eapply Forall2_impl; [exact HF|]. cbn. intros out x (Hwo & Hx & Hpos & o & Ho & Hs).
  split; [done|]. exists o. split; [|done].
  replace (Z.to_nat (Index out)) with (S (Z.to_nat (Index out - 1))) by lia. exact Ho.
Qed.

Lemma AddOpReturnToTx_faithful_witness :
  let tx := mkMsgTx [] [mkTxOut 600 [x01]; mkTxOut 700 [x02]] 0 in
  let p := mkPksAmounts 31 [([x02], 5); ([x01], 9)] in
  exists tx', AddOpReturnToTx tx p = Ok tx' /\ exists script data outs,
    tx' = set_outs tx (mkTxOut 0 script :: TxOuts tx) /\
    (exists pre, script = pre ++ data) /\
    Decode data = Ok (mkOpreturn 0 7 (merge_sort out_le outs) 31, []) /\
    Forall2 (fun out x => Amount out = x.2 /\
      exists o, TxOuts tx' !! Z.to_nat (Index out) = Some o /\ PkScript o = x.1)
      outs (pksAmounts p).
Proof.
  cbv zeta.
  destruct (AddOpReturnToTx (mkMsgTx [] [mkTxOut 600 [x01]; mkTxOut 700 [x02]] 0)
    (mkPksAmounts 31 [([x02], 5); ([x01], 9)])) as [tx'|e|] eqn:E; [|discriminate E..].
  exists tx'. split; [reflexivity|].
  apply (AddOpReturnToTx_faithful _ (mkPksAmounts 31 [([x02], 5); ([x01], 9)]) tx');
    [done|split; cbn; lia|done|repeat constructor; cbn; lia|cbn; lia|exact E].
Defined.
