(* ===== verification/UpdateLog.v ===== *)
(** * lnwallet: update logs and commitment chains

    Models the [PaymentDescriptor], [updateLog] and [commitmentChain] types of
    lnwallet/channel.go with all their operations, and [compactLogs].

    The list of a log is a linked list of pointers in the source; here every
    element carries the identity of its list element, the two index maps point
    to identities, and a descriptor mutated through one pointer is mutated in
    the log ([alter_entry]).  Removing a nil element panics, removing an element
    that has left the list does nothing, as in container/list.  The witness
    scripts and the signature of a descriptor are not modelled: no operation of
    the state machine reads them. *)

From Stdlib Require Import ZArith Lia.
From S2P Require Import Prelude Wire Amounts.

Local Open Scope Z_scope.
Local Open Scope go_scope.

(** ** Payment descriptors *)

Inductive updateType : Type := Add | Fail | MalformedFail | Settle | FeeUpdate.

#[global] Instance updateType_eq_dec : EqDecision updateType.
Proof. solve_decision. Defined.

Record AddRef := mkAddRef { AddRef_Height : Z; AddRef_Index : Z }.

Record SettleFailRef := mkSettleFailRef {
  SettleFailRef_Source : ShortChannelID;
  SettleFailRef_Height : Z;
  SettleFailRef_Index : Z;
}.

Record CircuitKey := mkCircuitKey { ChanID : ShortChannelID; HtlcID : Z }.

(** The heights at which a descriptor entered and left the two chains; zero
    stands for not yet. *)
Record commitHeights := mkHeights {
  addCommitHeightRemote : Z;
  addCommitHeightLocal : Z;
  removeCommitHeightRemote : Z;
  removeCommitHeightLocal : Z;
}.

Definition noHeights : commitHeights := mkHeights 0 0 0 0.

(** The HTLC's output on the two commitment transactions, filled in while a
    commitment is built. *)
Record htlcOutput := mkHtlcOutput {
  ourPkScript : list byte;
  theirPkScript : list byte;
  localOutputIndex : Z;
  remoteOutputIndex : Z;
}.

Definition noOutput : htlcOutput := mkHtlcOutput [] [] 0 0.

Record PaymentDescriptor := mkPD {
  RHash : list byte;
  RPreimage : list byte;
  Timeout : Z;
  BtcAmount : Z;
  AssetAmount : Z;
  AssetID : Z;
  LogIndex : Z;
  HtlcIndex : Z;
  ParentIndex : Z;
  SourceRef : option AddRef;
  DestRef : option SettleFailRef;
  OpenCircuitKey : option CircuitKey;
  ClosedCircuitKey : option CircuitKey;
  OnionBlob : list byte;
  ShaOnionBlob : list byte;
  FailReason : list byte;
  FailCode : Z;
  EntryType : updateType;
  heights : commitHeights;
  output : htlcOutput;
  isForwarded : bool;
}.

(** The zero value of the struct, with the entry type given. *)
Definition zeroPD (t : updateType) : PaymentDescriptor :=
  {| RHash := replicate 32 x00; RPreimage := replicate 32 x00; Timeout := 0;
     BtcAmount := 0; AssetAmount := 0; AssetID := 0; LogIndex := 0; HtlcIndex := 0;
     ParentIndex := 0; SourceRef := None; DestRef := None; OpenCircuitKey := None;
     ClosedCircuitKey := None; OnionBlob := []; ShaOnionBlob := replicate 32 x00;
     FailReason := []; FailCode := 0; EntryType := t; heights := noHeights;
     output := noOutput; isForwarded := false |}.

(** The three mutations the state machine makes to a descriptor in a log. *)
Definition alter_heights (f : commitHeights -> commitHeights) (pd : PaymentDescriptor) :
    PaymentDescriptor :=
  {| RHash := RHash pd; RPreimage := RPreimage pd; Timeout := Timeout pd;
     BtcAmount := BtcAmount pd; AssetAmount := AssetAmount pd; AssetID := AssetID pd;
     LogIndex := LogIndex pd; HtlcIndex := HtlcIndex pd; ParentIndex := ParentIndex pd;
     SourceRef := SourceRef pd; DestRef := DestRef pd; OpenCircuitKey := OpenCircuitKey pd;
     ClosedCircuitKey := ClosedCircuitKey pd; OnionBlob := OnionBlob pd;
     ShaOnionBlob := ShaOnionBlob pd; FailReason := FailReason pd; FailCode := FailCode pd;
     EntryType := EntryType pd; heights := f (heights pd); output := output pd;
     isForwarded := isForwarded pd |}.

Definition alter_output (f : htlcOutput -> htlcOutput) (pd : PaymentDescriptor) :
    PaymentDescriptor :=
  {| RHash := RHash pd; RPreimage := RPreimage pd; Timeout := Timeout pd;
     BtcAmount := BtcAmount pd; AssetAmount := AssetAmount pd; AssetID := AssetID pd;
     LogIndex := LogIndex pd; HtlcIndex := HtlcIndex pd; ParentIndex := ParentIndex pd;
     SourceRef := SourceRef pd; DestRef := DestRef pd; OpenCircuitKey := OpenCircuitKey pd;
     ClosedCircuitKey := ClosedCircuitKey pd; OnionBlob := OnionBlob pd;
     ShaOnionBlob := ShaOnionBlob pd; FailReason := FailReason pd; FailCode := FailCode pd;
     EntryType := EntryType pd; heights := heights pd; output := f (output pd);
     isForwarded := isForwarded pd |}.

Definition set_forwarded (source : option AddRef) (dest : option SettleFailRef)
    (pd : PaymentDescriptor) : PaymentDescriptor :=
  {| RHash := RHash pd; RPreimage := RPreimage pd; Timeout := Timeout pd;
     BtcAmount := BtcAmount pd; AssetAmount := AssetAmount pd; AssetID := AssetID pd;
     LogIndex := LogIndex pd; HtlcIndex := HtlcIndex pd; ParentIndex := ParentIndex pd;
     SourceRef := source; DestRef := dest; OpenCircuitKey := OpenCircuitKey pd;
     ClosedCircuitKey := ClosedCircuitKey pd; OnionBlob := OnionBlob pd;
     ShaOnionBlob := ShaOnionBlob pd; FailReason := FailReason pd; FailCode := FailCode pd;
     EntryType := EntryType pd; heights := heights pd; output := output pd; isForwarded := true |}.

(** [GetMsgAmt] and [GetHtlcAmt]: the amount in the unit of the HTLC's asset. *)
Definition GetMsgAmt (pd : PaymentDescriptor) : Z :=
  if bool_decide (AssetID pd = BtcAssetId) then BtcAmount pd else u64 (AssetAmount pd).

Definition GetHtlcAmt (pd : PaymentDescriptor) : Z :=
  if bool_decide (AssetID pd = BtcAssetId) then BtcAmount pd else u64 (AssetAmount pd).

(** ** Update logs *)

Record updateLog := mkLog {
  logIndex : Z;
  htlcCounter : Z;
  entries : list (nat * PaymentDescriptor);
  nextElem : nat;
  updateIndex : gmap Z nat;
  htlcIndex : gmap Z nat;
  modifiedHtlcs : gset Z;
}.

Definition newUpdateLog (logIndex htlcCounter : Z) : updateLog :=
  {| logIndex := logIndex; htlcCounter := htlcCounter; entries := []; nextElem := 0;
     updateIndex := ∅; htlcIndex := ∅; modifiedHtlcs := ∅ |}.

(** [PushBack]: a new element at the end; its identity is [nextElem]. *)
Definition restoreHtlc (u : updateLog) (pd : PaymentDescriptor) : updateLog :=
  match htlcIndex u !! HtlcIndex pd with
  | Some _ => u
  | None =>
      {| logIndex := logIndex u; htlcCounter := htlcCounter u;
         entries := entries u ++ [(nextElem u, pd)]; nextElem := S (nextElem u);
         updateIndex := updateIndex u;
         htlcIndex := <[HtlcIndex pd := nextElem u]> (htlcIndex u);
         modifiedHtlcs := modifiedHtlcs u |}
  end.

Definition appendUpdate (u : updateLog) (pd : PaymentDescriptor) : updateLog :=
  {| logIndex := u64 (logIndex u + 1); htlcCounter := htlcCounter u;
     entries := entries u ++ [(nextElem u, pd)]; nextElem := S (nextElem u);
     updateIndex := <[logIndex u := nextElem u]> (updateIndex u);
     htlcIndex := htlcIndex u; modifiedHtlcs := modifiedHtlcs u |}.

Definition restoreUpdate (u : updateLog) (pd : PaymentDescriptor) : updateLog :=
  {| logIndex := logIndex u; htlcCounter := htlcCounter u;
     entries := entries u ++ [(nextElem u, pd)]; nextElem := S (nextElem u);
     updateIndex := <[LogIndex pd := nextElem u]> (updateIndex u);
     htlcIndex := htlcIndex u; modifiedHtlcs := modifiedHtlcs u |}.

Definition appendHtlc (u : updateLog) (pd : PaymentDescriptor) : updateLog :=
  {| logIndex := u64 (logIndex u + 1); htlcCounter := u64 (htlcCounter u + 1);
     entries := entries u ++ [(nextElem u, pd)]; nextElem := S (nextElem u);
     updateIndex := updateIndex u;
     htlcIndex := <[htlcCounter u := nextElem u]> (htlcIndex u);
     modifiedHtlcs := modifiedHtlcs u |}.

(** The descriptor an element points to. *)
Fixpoint elem_value (l : list (nat * PaymentDescriptor)) (e : nat) : option PaymentDescriptor :=
  match l with
  | [] => None
  | (e', pd) :: l => if bool_decide (e' = e) then Some pd else elem_value l e
  end.

Definition lookupHtlc (u : updateLog) (i : Z) : option PaymentDescriptor :=
  htlcIndex u !! i ≫= elem_value (entries u).

Definition list_remove (l : list (nat * PaymentDescriptor)) (e : nat) :
    list (nat * PaymentDescriptor) :=
  filter (fun x => x.1 <> e) l.

Definition removeUpdate (u : updateLog) (i : Z) : outcome unit updateLog :=
  match updateIndex u !! i with
  | None => Panic
  | Some e =>
      Ok {| logIndex := logIndex u; htlcCounter := htlcCounter u;
            entries := list_remove (entries u) e; nextElem := nextElem u;
            updateIndex := delete i (updateIndex u);
            htlcIndex := htlcIndex u; modifiedHtlcs := modifiedHtlcs u |}
  end.

Definition removeHtlc (u : updateLog) (i : Z) : outcome unit updateLog :=
  match htlcIndex u !! i with
  | None => Panic
  | Some e =>
      Ok {| logIndex := logIndex u; htlcCounter := htlcCounter u;
            entries := list_remove (entries u) e; nextElem := nextElem u;
            updateIndex := updateIndex u;
            htlcIndex := delete i (htlcIndex u);
            modifiedHtlcs := modifiedHtlcs u ∖ {[i]} |}
  end.

Definition htlcHasModification (u : updateLog) (i : Z) : bool :=
  bool_decide (i ∈ modifiedHtlcs u).

Definition markHtlcModified (u : updateLog) (i : Z) : updateLog :=
  {| logIndex := logIndex u; htlcCounter := htlcCounter u; entries := entries u;
     nextElem := nextElem u; updateIndex := updateIndex u; htlcIndex := htlcIndex u;
     modifiedHtlcs := {[i]} ∪ modifiedHtlcs u |}.

(** A write through a pointer to the descriptor of element [e]. *)
Definition alter_entry (u : updateLog) (e : nat) (f : PaymentDescriptor -> PaymentDescriptor) :
    updateLog :=
  {| logIndex := logIndex u; htlcCounter := htlcCounter u;
     entries := (fun x => if bool_decide (x.1 = e) then (x.1, f x.2) else x) <$> entries u;
     nextElem := nextElem u; updateIndex := updateIndex u; htlcIndex := htlcIndex u;
     modifiedHtlcs := modifiedHtlcs u |}.

(** ** Garbage collection *)

(** [e.Next()]: the element behind [e], nil when [e] is the last one or is no
    longer in the list. *)
Fixpoint next_elem (l : list (nat * PaymentDescriptor)) (e : nat) :
    option (nat * PaymentDescriptor) :=
  match l with
  | [] => None
  | (e', _) :: l' => if bool_decide (e' = e) then head l' else next_elem l' e
  end.

(** What [compactLog] removes: entries other than adds that have left both
    chains at or below the tails. *)
Definition removable (localChainTail remoteChainTail : Z) (htlc : PaymentDescriptor) : bool :=
  let h := heights htlc in
  bool_decide (EntryType htlc <> Add) &&
  negb (bool_decide (removeCommitHeightRemote h = 0) || bool_decide (removeCommitHeightLocal h = 0)) &&
  (bool_decide (removeCommitHeightRemote h <= remoteChainTail) &&
   bool_decide (removeCommitHeightLocal h <= localChainTail)).

(** The loop body for one element. *)
Definition compactEntry (localChainTail remoteChainTail : Z) (htlc : PaymentDescriptor)
    (logs : updateLog * updateLog) : outcome unit (updateLog * updateLog) :=
  let '(logA, logB) := logs in
  if removable localChainTail remoteChainTail htlc then
    logA <~ removeUpdate logA (LogIndex htlc) ;
    if bool_decide (EntryType htlc = FeeUpdate) then Ok (logA, logB)
    else logB <~ removeHtlc logB (ParentIndex htlc) ; Ok (logA, logB)
  else Ok (logA, logB).

(** The loop: the next element is fetched before the current one is processed.
    Every turn moves on in the list, so a fuel of its length is enough. *)
Fixpoint compactLoop (localChainTail remoteChainTail : Z) (fuel : nat)
    (cur : option (nat * PaymentDescriptor)) (logs : updateLog * updateLog) :
    outcome unit (updateLog * updateLog) :=
  match cur with
  | None => Ok logs
  | Some (e, htlc) =>
      match fuel with
      | O => Panic
      | S fuel' =>
          let nextA := next_elem (entries logs.1) e in
          logs' <~ compactEntry localChainTail remoteChainTail htlc logs ;
          compactLoop localChainTail remoteChainTail fuel' nextA logs'
      end
  end.

Definition compactLog (localChainTail remoteChainTail : Z) (logA logB : updateLog) :
    outcome unit (updateLog * updateLog) :=
  compactLoop localChainTail remoteChainTail (length (entries logA)) (head (entries logA))
    (logA, logB).

Definition compactLogs (ourLog theirLog : updateLog) (localChainTail remoteChainTail : Z) :
    outcome unit (updateLog * updateLog) :=
  '(ourLog, theirLog) <~ compactLog localChainTail remoteChainTail ourLog theirLog ;
  '(theirLog, ourLog) <~ compactLog localChainTail remoteChainTail theirLog ourLog ;
  Ok (ourLog, theirLog).

(** ** Commitment chains *)

Module CommitmentChain.
Section chain.
Context {commitment : Type}.

Definition t : Type := list commitment.

Definition newCommitmentChain : t := [].

Definition addCommitment (s : t) (c : commitment) : t := s ++ [c].

(** [Remove(Front())]: panics on an empty chain. *)
Definition advanceTail (s : t) : outcome unit t :=
  match s with [] => Panic | _ :: s' => Ok s' end.

Definition tip (s : t) : outcome unit commitment :=
  match last s with Some c => Ok c | None => Panic end.

Definition tail (s : t) : outcome unit commitment :=
  match s with c :: _ => Ok c | [] => Panic end.

(** [Front() != Back()]. *)
Definition hasUnackedCommitment (s : t) : bool := bool_decide (1 < length s)%nat.

End chain.
#[global] Arguments t : clear implicits.
End CommitmentChain.

(** ** Invariants *)

(** The entries that consume an HTLC of the other log. *)
Definition is_removal (pd : PaymentDescriptor) : bool :=
  match EntryType pd with Fail | MalformedFail | Settle => true | Add | FeeUpdate => false end.

Definition is_add (pd : PaymentDescriptor) : bool := bool_decide (EntryType pd = Add).

(** A log on its own: the elements are distinct, the two maps index exactly the
    elements of their kind, and the counters are above everything indexed. *)
Record log_wf (u : updateLog) : Prop := {
  lw_ids : NoDup (entries u).*1;
  lw_fresh : forall e pd, (e, pd) ∈ entries u -> (e < nextElem u)%nat;
  lw_upd : forall i e, updateIndex u !! i = Some e <->
    exists pd, (e, pd) ∈ entries u /\ EntryType pd <> Add /\ LogIndex pd = i;
  lw_htlc : forall i e, htlcIndex u !! i = Some e <->
    exists pd, (e, pd) ∈ entries u /\ EntryType pd = Add /\ HtlcIndex pd = i;
  lw_log : forall e pd, (e, pd) ∈ entries u -> 0 <= LogIndex pd < logIndex u;
  lw_ctr : forall e pd, (e, pd) ∈ entries u -> EntryType pd = Add ->
    0 <= HtlcIndex pd < htlcCounter u;
  lw_mod : forall i, i ∈ modifiedHtlcs u -> is_Some (htlcIndex u !! i);
  lw_range : in_u 64 (logIndex u) /\ in_u 64 (htlcCounter u);
}.

(** Two logs: every removal of [A] consumes an HTLC that is in [B], marked as
    modified there, and of the same amount; no HTLC is consumed twice; and every
    mark has its removal. *)
Record linked (A B : updateLog) : Prop := {
  lk_parent : forall e pd, (e, pd) ∈ entries A -> is_removal pd = true ->
    exists e' add, (e', add) ∈ entries B /\ EntryType add = Add /\
      HtlcIndex add = ParentIndex pd /\ ParentIndex pd ∈ modifiedHtlcs B /\
      BtcAmount pd = BtcAmount add /\ AssetAmount pd = AssetAmount add;
  lk_once : forall e1 pd1 e2 pd2, (e1, pd1) ∈ entries A -> (e2, pd2) ∈ entries A ->
    is_removal pd1 = true -> is_removal pd2 = true -> ParentIndex pd1 = ParentIndex pd2 -> e1 = e2;
  lk_mod : forall i, i ∈ modifiedHtlcs B ->
    exists e pd, (e, pd) ∈ entries A /\ is_removal pd = true /\ ParentIndex pd = i;
}.

Definition logs_wf (A B : updateLog) : Prop :=
  log_wf A /\ log_wf B /\ linked A B /\ linked B A.

Lemma logs_wf_sym A B : logs_wf A B -> logs_wf B A.
Proof. unfold logs_wf. naive_solver. Qed.

Lemma elem_value_Some l e pd : NoDup l.*1 -> elem_value l e = Some pd <-> (e, pd) ∈ l.
Proof.
  induction l as [|[e' pd'] l IH]; cbn; intros Hnd; [set_solver|].
  apply NoDup_cons in Hnd as [Hn Hnd]. case_bool_decide as He.
  - subst. split; [intros [= ->]; set_solver|].
    intros [[= ->]|Hin]%elem_of_cons; [done|].
    destruct Hn. apply list_elem_of_fmap. by exists (e, pd).
  - rewrite IH by done. set_solver.
Qed.

Lemma entries_inj u e pd1 pd2 :
  log_wf u -> (e, pd1) ∈ entries u -> (e, pd2) ∈ entries u -> pd1 = pd2.
Proof.
  intros Hwf H1 H2. apply (elem_value_Some _ _ _ (lw_ids _ Hwf)) in H1, H2. congruence.
Qed.

Lemma lookupHtlc_Some u i pd :
  log_wf u -> lookupHtlc u i = Some pd <->
  exists e, (e, pd) ∈ entries u /\ EntryType pd = Add /\ HtlcIndex pd = i.
Proof.
  intros Hwf. unfold lookupHtlc. rewrite bind_Some. split.
  - intros (e & (pd' & Hin & Ha & Hi)%lw_htlc & Hv); [|done].
    apply elem_value_Some in Hv; [|by apply lw_ids].
    rewrite (entries_inj u e pd pd') in * by done. by exists e.
  - intros (e & Hin & Ha & Hi). exists e. split; [apply lw_htlc; [done|by exists pd]|].
    apply elem_value_Some; [by apply lw_ids|done].
Qed.

(** *** The operations preserve the invariant of a log *)

Lemma newUpdateLog_wf i c : in_u 64 i -> in_u 64 c -> log_wf (newUpdateLog i c).
Proof. intros Hi Hc. split; cbn; try set_solver. constructor. Qed.

Lemma elem_of_push (l : list (nat * PaymentDescriptor)) n pd0 e pd :
  (e, pd) ∈ l ++ [(n, pd0)] <-> (e, pd) ∈ l \/ e = n /\ pd = pd0.
Proof. rewrite elem_of_app, list_elem_of_singleton. naive_solver. Qed.

Lemma nodup_push (u : updateLog) pd : log_wf u -> NoDup (entries u ++ [(nextElem u, pd)]).*1.
Proof.
  intros Hwf. rewrite fmap_app. apply NoDup_app. split; [by apply lw_ids|].
  split; [|apply NoDup_singleton]. cbn. intros e He%list_elem_of_fmap.
  destruct He as ([e' pd'] & -> & He). apply (lw_fresh _ Hwf) in He. cbn. set_solver by lia.
Qed.

Lemma appendHtlc_wf u pd :
  log_wf u -> EntryType pd = Add -> LogIndex pd = logIndex u -> HtlcIndex pd = htlcCounter u ->
  logIndex u + 1 < 2 ^ 64 -> htlcCounter u + 1 < 2 ^ 64 -> log_wf (appendHtlc u pd).
Proof.
  intros Hwf Ha Hl Hh Hb1 Hb2. pose proof (lw_range _ Hwf) as [[? ?] [? ?]].
  assert (u64 (logIndex u + 1) = logIndex u + 1) as E1 by (apply u64_id; unfold in_u; lia).
  assert (u64 (htlcCounter u + 1) = htlcCounter u + 1) as E2 by (apply u64_id; unfold in_u; lia).
  split; cbn; rewrite ?E1, ?E2.
  - by apply nodup_push.
  - intros e p [Hin|[-> ->]]%elem_of_push; [|lia]. apply (lw_fresh _ Hwf) in Hin. lia.
  - intros i e. rewrite lw_upd by done. split.
    + intros (p & ? & ? & ?). exists p. rewrite elem_of_push. naive_solver.
    + intros (p & [Hin|[-> ->]]%elem_of_push & ? & ?); [by exists p|done].
  - intros i e. destruct (decide (i = htlcCounter u)) as [->|Hne].
    + rewrite lookup_insert_eq. split.
      * intros [= <-]. exists pd. rewrite elem_of_push. naive_solver.
      * intros (p & [Hin|[-> ->]]%elem_of_push & Hp & Hi); [|done].
        pose proof (lw_ctr _ Hwf _ _ Hin Hp). lia.
    + rewrite lookup_insert_ne by done. rewrite lw_htlc by done. split.
      * intros (p & ? & ? & ?). exists p. rewrite elem_of_push. naive_solver.
      * intros (p & [Hin|[-> ->]]%elem_of_push & ? & ?); [by exists p|congruence].
  - intros e p [Hin|[-> ->]]%elem_of_push; [|lia]. apply (lw_log _ Hwf) in Hin. lia.
  - intros e p [Hin|[-> ->]]%elem_of_push Hp; [|lia]. pose proof (lw_ctr _ Hwf _ _ Hin Hp). lia.
  - intros i Hi. apply lookup_insert_is_Some'. right. by apply lw_mod.
  - unfold in_u. lia.
Qed.

Lemma appendUpdate_wf u pd :
  log_wf u -> EntryType pd <> Add -> LogIndex pd = logIndex u ->
  logIndex u + 1 < 2 ^ 64 -> log_wf (appendUpdate u pd).
Proof.
  intros Hwf Ha Hl Hb1. pose proof (lw_range _ Hwf) as [[? ?] ?].
  assert (u64 (logIndex u + 1) = logIndex u + 1) as E1 by (apply u64_id; unfold in_u; lia).
  split; cbn; rewrite ?E1.
  - by apply nodup_push.
  - intros e p [Hin|[-> ->]]%elem_of_push; [|lia]. apply (lw_fresh _ Hwf) in Hin. lia.
  - intros i e. destruct (decide (i = logIndex u)) as [->|Hne].
    + rewrite lookup_insert_eq. split.
      * intros [= <-]. exists pd. rewrite elem_of_push. naive_solver.
      * intros (p & [Hin|[-> ->]]%elem_of_push & Hp & Hi); [|done].
        pose proof (lw_log _ Hwf _ _ Hin). lia.
    + rewrite lookup_insert_ne by done. rewrite lw_upd by done. split.
      * intros (p & ? & ? & ?). exists p. rewrite elem_of_push. naive_solver.
      * intros (p & [Hin|[-> ->]]%elem_of_push & ? & ?); [by exists p|congruence].
  - intros i e. rewrite lw_htlc by done. split.
    + intros (p & ? & ? & ?). exists p. rewrite elem_of_push. naive_solver.
    + intros (p & [Hin|[-> ->]]%elem_of_push & ? & ?); [by exists p|done].
  - intros e p [Hin|[-> ->]]%elem_of_push; [|lia]. apply (lw_log _ Hwf) in Hin. lia.
  - intros e p [Hin|[-> ->]]%elem_of_push Hp; [by apply (lw_ctr _ Hwf _ _ Hin)|done].
  - intros i Hi. by apply lw_mod.
  - unfold in_u. split; [lia|done].
Qed.

Lemma elem_of_list_remove l e0 e (pd : PaymentDescriptor) :
  (e, pd) ∈ list_remove l e0 <-> (e, pd) ∈ l /\ e <> e0.
Proof. unfold list_remove. rewrite list_elem_of_filter. cbn. naive_solver. Qed.

Lemma nodup_list_remove l e0 : NoDup l.*1 -> NoDup (list_remove l e0).*1.
Proof. intros H. eapply sublist_NoDup; [exact H|]. apply fmap_sublist, sublist_filter. Qed.

Lemma removeUpdate_ok u e pd :
  log_wf u -> (e, pd) ∈ entries u -> EntryType pd <> Add ->
  exists u', removeUpdate u (LogIndex pd) = Ok u' /\ log_wf u' /\
    entries u' = list_remove (entries u) e /\ modifiedHtlcs u' = modifiedHtlcs u /\
    logIndex u' = logIndex u /\ htlcCounter u' = htlcCounter u /\ nextElem u' = nextElem u.
Proof.
  intros Hwf Hin Ha. unfold removeUpdate.
  assert (updateIndex u !! LogIndex pd = Some e) as Hi by (apply lw_upd; [done|by exists pd]).
  rewrite Hi. eexists. split; [done|]. split; [|done]. split; cbn.
  - apply nodup_list_remove, lw_ids, Hwf.
  - intros e' p [? _]%elem_of_list_remove. by eapply lw_fresh.
  - intros i e'. destruct (decide (i = LogIndex pd)) as [->|Hne].
    + rewrite lookup_delete_eq. split; [done|]. intros (p & [Hp Hn]%elem_of_list_remove & ? & ?).
      assert (updateIndex u !! LogIndex pd = Some e') by (apply lw_upd; [done|by exists p]).
      congruence.
    + rewrite lookup_delete_ne, lw_upd by done. split.
      * intros (p & ? & ? & <-). exists p. split; [|done]. apply elem_of_list_remove.
        split; [done|]. intros ->. by rewrite (entries_inj u e p pd) in Hne.
      * intros (p & [? _]%elem_of_list_remove & ? & ?). by exists p.
  - intros i e'. rewrite lw_htlc by done. split.
    + intros (p & ? & ? & ?). exists p. split; [|done]. apply elem_of_list_remove.
      split; [done|]. intros ->. by rewrite (entries_inj u e p pd) in * by done.
    + intros (p & [? _]%elem_of_list_remove & ? & ?). by exists p.
  - intros e' p [? _]%elem_of_list_remove. by eapply lw_log.
  - intros e' p [? _]%elem_of_list_remove. by eapply lw_ctr.
  - intros i. by apply lw_mod.
  - by apply lw_range.
Qed.

Lemma removeHtlc_ok u e pd :
  log_wf u -> (e, pd) ∈ entries u -> EntryType pd = Add ->
  exists u', removeHtlc u (HtlcIndex pd) = Ok u' /\ log_wf u' /\
    entries u' = list_remove (entries u) e /\
    modifiedHtlcs u' = modifiedHtlcs u ∖ {[HtlcIndex pd]} /\
    logIndex u' = logIndex u /\ htlcCounter u' = htlcCounter u /\ nextElem u' = nextElem u.
Proof.
  intros Hwf Hin Ha. unfold removeHtlc.
  assert (htlcIndex u !! HtlcIndex pd = Some e) as Hi by (apply lw_htlc; [done|by exists pd]).
  rewrite Hi. eexists. split; [done|]. split; [|done]. split; cbn.
  - apply nodup_list_remove, lw_ids, Hwf.
  - intros e' p [? _]%elem_of_list_remove. by eapply lw_fresh.
  - intros i e'. rewrite lw_upd by done. split.
    + intros (p & ? & ? & ?). exists p. split; [|done]. apply elem_of_list_remove.
      split; [done|]. intros ->. by rewrite (entries_inj u e p pd) in * by done.
    + intros (p & [? _]%elem_of_list_remove & ? & ?). by exists p.
  - intros i e'. destruct (decide (i = HtlcIndex pd)) as [->|Hne].
    + rewrite lookup_delete_eq. split; [done|]. intros (p & [Hp Hn]%elem_of_list_remove & ? & ?).
      assert (htlcIndex u !! HtlcIndex pd = Some e') by (apply lw_htlc; [done|by exists p]).
      congruence.
    + rewrite lookup_delete_ne, lw_htlc by done. split.
      * intros (p & ? & ? & <-). exists p. split; [|done]. apply elem_of_list_remove.
        split; [done|]. intros ->. by rewrite (entries_inj u e p pd) in Hne.
      * intros (p & [? _]%elem_of_list_remove & ? & ?). by exists p.
  - intros e' p [? _]%elem_of_list_remove. by eapply lw_log.
  - intros e' p [? _]%elem_of_list_remove. by eapply lw_ctr.
  - intros i [Hi' Hne]%elem_of_difference. rewrite lookup_delete_ne by set_solver.
    by apply lw_mod.
  - by apply lw_range.
Qed.

(** *** What the other log sees of a removal *)

(** Removing an entry that is no add leaves the HTLCs of the log alone. *)
Lemma linked_remove_update_r A B B' e pd :
  linked A B -> log_wf B -> (e, pd) ∈ entries B -> EntryType pd <> Add ->
  entries B' = list_remove (entries B) e -> modifiedHtlcs B' = modifiedHtlcs B -> linked A B'.
Proof.
  intros Hl Hwf Hin Ha He Hm. split.
  - intros e1 p Hp Hr. destruct (lk_parent _ _ Hl _ _ Hp Hr) as (e' & add & H1 & H2 & ?).
    exists e', add. rewrite He, Hm, elem_of_list_remove. split; [split; [done|]|done].
    intros ->. by rewrite (entries_inj B e add pd) in H2.
  - apply Hl.
  - rewrite Hm. apply Hl.
Qed.

(** Removing an add leaves the removals of the log alone. *)
Lemma linked_remove_add_l A A' B e pd :
  linked A B -> log_wf A -> (e, pd) ∈ entries A -> EntryType pd = Add ->
  entries A' = list_remove (entries A) e -> linked A' B.
Proof.
  intros Hl Hwf Hin Ha He. split.
  - intros e1 p. rewrite He, elem_of_list_remove. intros [Hp _]. by eapply (lk_parent _ _ Hl).
  - intros e1 p1 e2 p2. rewrite He, !elem_of_list_remove. intros [? _] [? _]. by eapply (lk_once _ _ Hl).
  - intros i Hi. destruct (lk_mod _ _ Hl i Hi) as (e1 & p & Hp & Hr & ?). exists e1, p.
    split; [|done]. rewrite He, elem_of_list_remove. split; [done|]. intros ->.
    rewrite (entries_inj A e p pd) in Hr by done. unfold is_removal in Hr. by rewrite Ha in Hr.
Qed.

Lemma linked_remove_fee_l A A' B e pd :
  linked A B -> log_wf A -> (e, pd) ∈ entries A -> is_removal pd = false ->
  entries A' = list_remove (entries A) e -> linked A' B.
Proof.
  intros Hl Hwf Hin Ha He. split.
  - intros e1 p. rewrite He, elem_of_list_remove. intros [Hp _]. by eapply (lk_parent _ _ Hl).
  - intros e1 p1 e2 p2. rewrite He, !elem_of_list_remove. intros [? _] [? _]. by eapply (lk_once _ _ Hl).
  - intros i Hi. destruct (lk_mod _ _ Hl i Hi) as (e1 & p & Hp & Hr & ?). exists e1, p.
    split; [|done]. rewrite He, elem_of_list_remove. split; [done|]. intros ->.
    rewrite (entries_inj A e p pd) in Hr by done. congruence.
Qed.

(** Removing a removal together with its parent. *)
Lemma linked_remove_both A A' B B' e pd e' add :
  linked A B -> log_wf A -> log_wf B ->
  (e, pd) ∈ entries A -> is_removal pd = true ->
  (e', add) ∈ entries B -> EntryType add = Add -> HtlcIndex add = ParentIndex pd ->
  entries A' = list_remove (entries A) e -> entries B' = list_remove (entries B) e' ->
  modifiedHtlcs B' = modifiedHtlcs B ∖ {[HtlcIndex add]} -> linked A' B'.
Proof.
  intros Hl HwA HwB Hin Hr Hin' Ha Hi HeA HeB Hm. split.
  - intros e1 p1. rewrite HeA, elem_of_list_remove. intros [Hp1 Hne] Hr1.
    destruct (lk_parent _ _ Hl _ _ Hp1 Hr1) as (e2 & add2 & H1 & H2 & H3 & H4 & ?).
    assert (ParentIndex p1 <> ParentIndex pd) as Hne'.
    { intros E. apply Hne. by apply (lk_once _ _ Hl _ p1 _ pd). }
    exists e2, add2. rewrite HeB, Hm, elem_of_list_remove. split_and!; [done| |done|done| |naive_solver..].
    + intros ->. rewrite (entries_inj B e' add2 add) in H3 by done. congruence.
    + apply elem_of_difference. by rewrite elem_of_singleton, Hi.
  - intros e1 p1 e2 p2. rewrite HeA, !elem_of_list_remove. intros [? _] [? _]. by eapply (lk_once _ _ Hl).
  - intros i. rewrite Hm. intros [Hmod Hni]%elem_of_difference.
    destruct (lk_mod _ _ Hl i Hmod) as (e1 & p & Hp & Hrp & <-). exists e1, p. split; [|done].
    rewrite HeA, elem_of_list_remove. split; [done|]. intros ->.
    rewrite (entries_inj A e p pd), elem_of_singleton in Hni by done. congruence.
Qed.

(** *** One turn of the loop *)

Section compact.
Context (localChainTail remoteChainTail : Z).

#[local] Abbreviation rem := (removable localChainTail remoteChainTail).

(** The HTLCs consumed by the removals of a list that [compactLog] evicts. *)
Definition dead (l : list (nat * PaymentDescriptor)) : list Z :=
  (fun x => ParentIndex x.2) <$> filter (fun x => rem x.2 = true /\ is_removal x.2 = true) l.

Definition dead_add (ps : list Z) (x : nat * PaymentDescriptor) : Prop :=
  EntryType x.2 = Add /\ HtlcIndex x.2 ∈ ps.

#[local] Instance dead_add_dec ps x : Decision (dead_add ps x).
Proof. unfold dead_add. apply _. Defined.

Lemma removable_not_add pd : rem pd = true -> EntryType pd <> Add.
Proof.
  unfold removable. rewrite !andb_true_iff. intros [[H _] _].
  by apply bool_decide_eq_true in H.
Qed.

(** Evicting one entry, or keeping it. *)
Lemma compactEntry_ok A B e pd :
  logs_wf A B -> (e, pd) ∈ entries A ->
  exists A' B', compactEntry localChainTail remoteChainTail pd (A, B) = Ok (A', B') /\
    logs_wf A' B' /\
    entries A' = (if rem pd then list_remove (entries A) e else entries A) /\
    entries B' = filter (fun x => ~ dead_add (dead [(e, pd)]) x) (entries B) /\
    logIndex A' = logIndex A /\ htlcCounter A' = htlcCounter A /\
    logIndex B' = logIndex B /\ htlcCounter B' = htlcCounter B.
Proof.
  intros (HwA & HwB & Hl & Hl') Hin. unfold compactEntry.
  assert (forall l, dead l = [] -> filter (fun x => ~ dead_add (dead l) x) (entries B) = entries B)
    as Hnil.
  { intros l ->. apply filter_all. intros x _ [_ Hx]. by apply elem_of_nil in Hx. }
  destruct (rem pd) eqn:Hr.
  2: { exists A, B. rewrite Hnil; [done|]. unfold dead.
       by rewrite filter_cons, decide_False by (cbn; rewrite Hr; by intros []). }
  pose proof (removable_not_add pd Hr) as Ha.
  destruct (removeUpdate_ok A e pd HwA Hin Ha) as (A' & -> & HwA' & HeA & HmA & H1 & H2 & _).
  cbn [obind]. case_bool_decide as Hfee.
  - assert (is_removal pd = false) as Hnr by (unfold is_removal; by rewrite Hfee).
    exists A', B. split; [done|]. split.
    { split; [done|]. split; [done|]. split; [by eapply linked_remove_fee_l|].
      by eapply linked_remove_update_r. }
    split; [done|]. rewrite Hnil; [done|]. unfold dead.
    by rewrite filter_cons, decide_False by (cbn; rewrite Hnr; by intros []).
  - assert (is_removal pd = true) as Hrem by (unfold is_removal; by destruct (EntryType pd)).
    destruct (lk_parent _ _ Hl _ _ Hin Hrem) as (e' & add & Hin' & Hadd & Hpar & _).
    destruct (removeHtlc_ok B e' add HwB Hin' Hadd) as (B' & HB & HwB' & HeB & HmB & H3 & H4 & _).
    rewrite <- Hpar, HB. exists A', B'. split; [done|]. split.
    { split; [done|]. split; [done|]. split; [by eapply (linked_remove_both A)|].
      apply (linked_remove_add_l B B' A' e' add); [|done..]. by eapply linked_remove_update_r. }
    split; [done|]. split; [|done]. rewrite HeB. unfold list_remove.
    apply filter_ext_in. intros [e1 p1] Hin1. unfold dead. rewrite filter_cons, decide_True by done.
    cbn. unfold dead_add; cbn. rewrite list_elem_of_singleton.
    rewrite <- Hpar. split.
    + intros Hne [Ha1 Hi1]. apply Hne.
      assert (htlcIndex B !! HtlcIndex add = Some e1) by (apply lw_htlc; [done|by exists p1]).
      assert (htlcIndex B !! HtlcIndex add = Some e') by (apply lw_htlc; [done|by exists add]).
      congruence.
    + intros Hn ->. apply Hn. by rewrite (entries_inj B e' p1 add).
Qed.

(** *** The whole pass *)

Lemma next_elem_mid l1 e pd l2 :
  NoDup (l1 ++ (e, pd) :: l2).*1 -> next_elem (l1 ++ (e, pd) :: l2) e = head l2.
Proof.
  induction l1 as [|[e' pd'] l1 IH]; cbn; intros Hnd.
  - by rewrite bool_decide_eq_true_2.
  - apply NoDup_cons in Hnd as [Hn Hnd]. rewrite bool_decide_eq_false_2; [by apply IH|].
    intros ->. apply Hn. rewrite fmap_app. apply elem_of_app. right. by left.
Qed.

Lemma list_remove_mid l1 e pd l2 :
  NoDup (l1 ++ (e, pd) :: l2).*1 -> list_remove (l1 ++ (e, pd) :: l2) e = l1 ++ l2.
Proof.
  intros Hnd. unfold list_remove. rewrite filter_app, filter_cons. cbn.
  rewrite decide_False by (intros Hx; by apply Hx).
  rewrite fmap_app in Hnd. apply NoDup_app in Hnd as (_ & Hd & [Hn _]%NoDup_cons).
  rewrite !filter_all; [done|..].
  - intros [e' p'] Hx E. cbn in E. subst. apply Hn, list_elem_of_fmap. by exists (e, p').
  - intros [e' p'] Hx E. cbn in E. subst. apply (Hd e); [|by left].
    apply list_elem_of_fmap. by exists (e, p').
Qed.

Lemma dead_cons x l : dead (x :: l) = dead [x] ++ dead l.
Proof. unfold dead. rewrite <- fmap_app. f_equal. by rewrite <- filter_app. Qed.

Lemma dead_add_app ps qs x : dead_add (ps ++ qs) x <-> dead_add ps x \/ dead_add qs x.
Proof. unfold dead_add. rewrite elem_of_app. tauto. Qed.

Definition kept (x : nat * PaymentDescriptor) : Prop := rem x.2 = false.

Lemma compactLoop_ok suffix : forall fuel done_ A B,
  logs_wf A B -> entries A = done_ ++ suffix -> (length suffix <= fuel)%nat ->
  exists A' B', compactLoop localChainTail remoteChainTail fuel (head suffix) (A, B) = Ok (A', B') /\
    logs_wf A' B' /\ entries A' = done_ ++ filter kept suffix /\
    entries B' = filter (fun x => ~ dead_add (dead suffix) x) (entries B) /\
    logIndex A' = logIndex A /\ htlcCounter A' = htlcCounter A /\
    logIndex B' = logIndex B /\ htlcCounter B' = htlcCounter B.
Proof.
  induction suffix as [|[e pd] suffix IH]; intros fuel done_ A B Hwf He Hf.
  - exists A, B. destruct fuel; cbn; rewrite He, !app_nil_r, filter_all; try done;
      intros x _ [_ Hx]; by apply elem_of_nil in Hx.
  - destruct fuel as [|fuel]; [cbn in Hf; lia|].
    pose proof (lw_ids _ (proj1 Hwf)) as Hnd. rewrite He in Hnd.
    cbn [head compactLoop fst]. rewrite He, next_elem_mid by done.
    destruct (compactEntry_ok A B e pd Hwf) as (A1 & B1 & -> & Hwf1 & HeA & HeB & H1 & H2 & H3 & H4).
    { rewrite He. apply elem_of_app. right. by left. }
    cbn [obind].
    assert (entries A1 = (done_ ++ filter kept [(e, pd)]) ++ suffix) as HeA1.
    { rewrite HeA, He, filter_cons. case_decide as Hk; unfold kept in Hk; cbn [snd] in Hk.
      - rewrite Hk. cbn. by rewrite <- app_assoc.
      - apply not_false_is_true in Hk. rewrite Hk. cbn. rewrite app_nil_r.
        by apply list_remove_mid. }
    destruct (IH fuel _ A1 B1 Hwf1 HeA1) as (A' & B' & -> & Hwf' & HA & HB & H1' & H2' & H3' & H4').
    { cbn in Hf. lia. }
    exists A', B'. split; [done|]. split; [done|]. split.
    { rewrite HA, <- app_assoc. f_equal. by rewrite <- filter_app. }
    split; [|naive_solver congruence]. rewrite HB, HeB, filter_filter, (dead_cons (e, pd) suffix).
    apply filter_ext_in. intros x _. rewrite dead_add_app. tauto.
Qed.

(** The entries that stay when [other] is the log across. *)
Definition compacted (other l : list (nat * PaymentDescriptor)) : list (nat * PaymentDescriptor) :=
  filter (fun x => kept x /\ ~ dead_add (dead other) x) l.

Lemma dead_filter_adds ps l : dead (filter (fun x => ~ dead_add ps x) l) = dead l.
Proof.
  unfold dead. f_equal. rewrite filter_filter. apply filter_ext_in. intros x _.
  split; [tauto|]. intros [Hr Hrem]. split; [done|]. intros [Ha _].
  by apply removable_not_add in Hr.
Qed.

Lemma compactLogs_ok A B :
  logs_wf A B ->
  exists A' B', compactLogs A B localChainTail remoteChainTail = Ok (A', B') /\
    logs_wf A' B' /\
    entries A' = compacted (entries B) (entries A) /\
    entries B' = compacted (entries A) (entries B) /\
    logIndex A' = logIndex A /\ htlcCounter A' = htlcCounter A /\
    logIndex B' = logIndex B /\ htlcCounter B' = htlcCounter B.
Proof.
  intros Hwf. unfold compactLogs, compactLog.
  destruct (compactLoop_ok (entries A) (length (entries A)) [] A B Hwf eq_refl (le_n _))
    as (A1 & B1 & -> & Hwf1 & HA1 & HB1 & H1 & H2 & H3 & H4). cbn [obind fst snd].
  destruct (compactLoop_ok (entries B1) (length (entries B1)) [] B1 A1 (logs_wf_sym _ _ Hwf1)
    eq_refl (le_n _)) as (B2 & A2 & -> & Hwf2 & HB2 & HA2 & H5 & H6 & H7 & H8). cbn [obind].
  exists A2, B2. split; [done|]. split; [by apply logs_wf_sym|].
  rewrite HA2, HB2, HA1, HB1, dead_filter_adds. cbn [app]. rewrite !filter_filter.
  split; [apply filter_ext_in; intros x _; tauto|]. split; [done|]. naive_solver congruence.
Qed.

End compact.

(** *** Updates to a pair of logs *)

(** Room for one more entry: the counters do not wrap. *)
Definition has_room (u : updateLog) : Prop :=
  logIndex u + 1 < 2 ^ 64 /\ htlcCounter u + 1 < 2 ^ 64.

Lemma add_logs_wf A B pd :
  logs_wf A B -> has_room A -> EntryType pd = Add -> LogIndex pd = logIndex A ->
  HtlcIndex pd = htlcCounter A -> logs_wf (appendHtlc A pd) B.
Proof.
  intros (HwA & HwB & Hl & Hl') [Hr1 Hr2] Ha Hli Hhi.
  split; [by apply appendHtlc_wf|]. split; [done|].
  assert (is_removal pd = false) as Hnr by (unfold is_removal; by rewrite Ha).
  split; split; cbn.
  - intros e p [Hin|[-> ->]]%elem_of_push Hr; [by eapply (lk_parent _ _ Hl)|congruence].
  - intros e1 p1 e2 p2 [H1|[-> ->]]%elem_of_push [H2|[-> ->]]%elem_of_push R1 R2 E; try congruence.
    by eapply (lk_once _ _ Hl e1 p1 e2 p2).
  - intros i Hi. destruct (lk_mod _ _ Hl i Hi) as (e & p & ? & ?). exists e, p.
    rewrite elem_of_push. by auto.
  - intros e p Hin Hr. destruct (lk_parent _ _ Hl' _ _ Hin Hr) as (e' & add & ? & ?).
    exists e', add. rewrite elem_of_push. by auto.
  - apply (lk_once _ _ Hl').
  - apply (lk_mod _ _ Hl').
Qed.

Lemma fee_logs_wf A B pd :
  logs_wf A B -> has_room A -> EntryType pd = FeeUpdate -> LogIndex pd = logIndex A ->
  logs_wf (appendUpdate A pd) B.
Proof.
  intros (HwA & HwB & Hl & Hl') [Hr1 Hr2] Ha Hli.
  split; [apply appendUpdate_wf; by rewrite ?Ha|]. split; [done|].
  assert (is_removal pd = false) as Hnr by (unfold is_removal; by rewrite Ha).
  split; split; cbn.
  - intros e p [Hin|[-> ->]]%elem_of_push Hr; [by eapply (lk_parent _ _ Hl)|congruence].
  - intros e1 p1 e2 p2 [H1|[-> ->]]%elem_of_push [H2|[-> ->]]%elem_of_push R1 R2 E; try congruence.
    by eapply (lk_once _ _ Hl e1 p1 e2 p2).
  - intros i Hi. destruct (lk_mod _ _ Hl i Hi) as (e & p & ? & ?). exists e, p.
    rewrite elem_of_push. by auto.
  - intros e p Hin Hr. destruct (lk_parent _ _ Hl' _ _ Hin Hr) as (e' & add & ? & ?).
    exists e', add. rewrite elem_of_push. by auto.
  - apply (lk_once _ _ Hl').
  - apply (lk_mod _ _ Hl').
Qed.

Lemma markHtlcModified_wf u i :
  log_wf u -> is_Some (htlcIndex u !! i) -> log_wf (markHtlcModified u i).
Proof.
  intros Hwf Hi. split; cbn; try apply Hwf. intros j. set_unfold. intros [->|Hj]; [done|].
  by apply lw_mod.
Qed.

(** A settle or a fail: appended to one log, marked in the other. *)
Lemma removal_logs_wf A B pd e' add :
  logs_wf A B -> has_room A -> is_removal pd = true -> LogIndex pd = logIndex A ->
  (e', add) ∈ entries B -> EntryType add = Add -> HtlcIndex add = ParentIndex pd ->
  ParentIndex pd ∉ modifiedHtlcs B ->
  BtcAmount pd = BtcAmount add -> AssetAmount pd = AssetAmount add ->
  logs_wf (appendUpdate A pd) (markHtlcModified B (ParentIndex pd)).
Proof.
  intros (HwA & HwB & Hl & Hl') [Hr1 Hr2] Hrem Hli Hin' Ha Hpar Hnm Hb Has.
  assert (EntryType pd <> Add) as Hna.
  { intros E. unfold is_removal in Hrem. by rewrite E in Hrem. }
  split; [by apply appendUpdate_wf|]. split.
  { apply markHtlcModified_wf; [done|]. exists e'. apply lw_htlc; [done|by exists add]. }
  assert (forall e p, (e, p) ∈ entries A -> is_removal p = true -> ParentIndex p <> ParentIndex pd)
    as Hfresh.
  { intros e p Hin Hr E. destruct (lk_parent _ _ Hl _ _ Hin Hr) as (? & ? & _ & _ & _ & Hm & _).
    congruence. }
  split; split; cbn.
  - intros e p [Hin|[-> ->]]%elem_of_push Hr.
    + destruct (lk_parent _ _ Hl _ _ Hin Hr) as (e1 & a1 & ? & ? & ? & Hm & ? & ?).
      exists e1, a1. split_and!; try done. apply elem_of_union. by right.
    + exists e', add. split_and!; try done. apply elem_of_union. left. by apply elem_of_singleton.
  - intros e1 p1 e2 p2 [H1|[-> ->]]%elem_of_push [H2|[-> ->]]%elem_of_push R1 R2 E; try done.
    + by eapply (lk_once _ _ Hl e1 p1 e2 p2).
    + by destruct (Hfresh _ _ H1 R1).
    + by destruct (Hfresh _ _ H2 R2).
  - intros i [->%elem_of_singleton|Hi]%elem_of_union.
    + exists (nextElem A), pd. rewrite elem_of_push. by auto.
    + destruct (lk_mod _ _ Hl i Hi) as (e & p & ? & ?). exists e, p. rewrite elem_of_push. by auto.
  - intros e p Hin Hr. destruct (lk_parent _ _ Hl' _ _ Hin Hr) as (e1 & a1 & ? & ?).
    exists e1, a1. rewrite elem_of_push. by auto.
  - apply (lk_once _ _ Hl').
  - apply (lk_mod _ _ Hl').
Qed.

(** Writing heights or the forwarding flag through a pointer changes nothing the
    invariant looks at. *)
Definition same_static (p q : PaymentDescriptor) : Prop :=
  EntryType p = EntryType q /\ LogIndex p = LogIndex q /\ HtlcIndex p = HtlcIndex q /\
  ParentIndex p = ParentIndex q /\ BtcAmount p = BtcAmount q /\ AssetAmount p = AssetAmount q /\
  AssetID p = AssetID q /\ RHash p = RHash q /\ RPreimage p = RPreimage q.

Definition same_log (u v : updateLog) : Prop :=
  logIndex u = logIndex v /\ htlcCounter u = htlcCounter v /\ nextElem u = nextElem v /\
  updateIndex u = updateIndex v /\ htlcIndex u = htlcIndex v /\
  modifiedHtlcs u = modifiedHtlcs v /\
  Forall2 (fun x y => x.1 = y.1 /\ same_static x.2 y.2) (entries u) (entries v).

#[global] Instance same_static_equiv : Equivalence same_static.
Proof.
  unfold same_static. split.
  - intros p. done.
  - intros p q ?. destruct_and!. by split_and!.
  - intros p q r ? ?. destruct_and!. split_and!; congruence.
Qed.

#[global] Instance same_log_equiv : Equivalence same_log.
Proof.
  unfold same_log. split.
  - intros u. split_and!; try done.
  - intros u v ?. destruct_and!. split_and!; try congruence. apply Forall2_flip.
    eapply Forall2_impl; [done|]. cbn. intros x y [? ?]. split; [done|by symmetry].
  - intros u v w ? ?. destruct_and!. split_and!; try congruence.
    eapply Forall2_trans; [|done|done]. cbn. intros x y z [? ?] [? ?].
    split; [congruence|by etrans].
Qed.

Lemma same_log_in u v e p :
  same_log u v -> (e, p) ∈ entries u -> exists q, (e, q) ∈ entries v /\ same_static p q.
Proof.
  intros (_ & _ & _ & _ & _ & _ & HF) Hin. apply list_elem_of_lookup in Hin as [i Hi].
  destruct (Forall2_lookup_l _ _ _ _ _ HF Hi) as ([e' q] & Hq & Heq & Hs). cbn in *. subst e'.
  exists q. split; [by eapply list_elem_of_lookup_2|done].
Qed.

Lemma same_log_ids u v : same_log u v -> (entries u).*1 = (entries v).*1.
Proof.
  intros (_ & _ & _ & _ & _ & _ & HF). induction HF as [|x y l k [E _] _ IH]; [done|].
  cbn. by rewrite E, IH.
Qed.

Lemma same_static_removal p q : same_static p q -> is_removal p = is_removal q.
Proof. intros (E & _). unfold is_removal. by rewrite E. Qed.

(** An existential over the entries of one kind transports. *)
Lemma same_log_ex u v e (P : PaymentDescriptor -> Prop) :
  same_log u v -> (forall p q, same_static p q -> P p <-> P q) ->
  (exists p, (e, p) ∈ entries u /\ P p) <-> (exists p, (e, p) ∈ entries v /\ P p).
Proof.
  intros Hs HP. split; intros (p & Hin & Hp).
  - destruct (same_log_in _ _ _ _ Hs Hin) as (q & Hq & Hst). exists q. split; [done|].
    by apply (HP p q).
  - destruct (same_log_in v u e p) as (q & Hq & Hst); [by symmetry|done|].
    exists q. split; [done|]. by apply (HP p q).
Qed.

Lemma same_log_wf u v : same_log u v -> log_wf u -> log_wf v.
Proof.
  intros Hs Hwf. pose proof Hs as (E1 & E2 & E3 & E4 & E5 & E6 & _).
  assert (same_log v u) as Hs' by (by symmetry). split.
  - rewrite <- (same_log_ids u v Hs). by apply lw_ids.
  - intros e p Hin. destruct (same_log_in _ _ _ _ Hs' Hin) as (q & Hq & _).
    rewrite <- E3. by eapply lw_fresh.
  - intros i e. rewrite <- E4, lw_upd by done. apply same_log_ex; [done|].
    intros p q (-> & -> & _). done.
  - intros i e. rewrite <- E5, lw_htlc by done. apply same_log_ex; [done|].
    intros p q (-> & _ & -> & _). done.
  - intros e p Hin. destruct (same_log_in _ _ _ _ Hs' Hin) as (q & Hq & _ & -> & _).
    rewrite <- E1. by eapply lw_log.
  - intros e p Hin. destruct (same_log_in _ _ _ _ Hs' Hin) as (q & Hq & -> & _ & -> & _).
    rewrite <- E2. by eapply lw_ctr.
  - intros i. rewrite <- E5, <- E6. by apply lw_mod.
  - rewrite <- E1, <- E2. by apply lw_range.
Qed.

Lemma same_log_linked A A' B B' : same_log A A' -> same_log B B' -> linked A B -> linked A' B'.
Proof.
  intros HA HB Hl. pose proof HB as (_ & _ & _ & _ & _ & EM & _).
  assert (same_log A' A) as HA' by (by symmetry). split.
  - intros e p Hin Hr. destruct (same_log_in _ _ _ _ HA' Hin) as (q & Hq & Hst).
    rewrite (same_static_removal _ _ Hst) in Hr.
    destruct (lk_parent _ _ Hl _ _ Hq Hr) as (e' & add & H1 & H2 & H3 & H4 & H5 & H6).
    destruct (same_log_in _ _ _ _ HB H1) as (add' & ? & Hst').
    exists e', add'. rewrite <- EM.
    destruct Hst as (_ & _ & _ & -> & -> & -> & _), Hst' as (<- & _ & <- & _ & <- & <- & _).
    by split_and!.
  - intros e1 p1 e2 p2 H1 H2 R1 R2 E.
    destruct (same_log_in _ _ _ _ HA' H1) as (q1 & Hq1 & S1).
    destruct (same_log_in _ _ _ _ HA' H2) as (q2 & Hq2 & S2).
    rewrite (same_static_removal _ _ S1) in R1. rewrite (same_static_removal _ _ S2) in R2.
    apply (lk_once _ _ Hl e1 q1 e2 q2); try done.
    destruct S1 as (_ & _ & _ & <- & _), S2 as (_ & _ & _ & <- & _). done.
  - intros i. rewrite <- EM. intros Hi. destruct (lk_mod _ _ Hl i Hi) as (e & p & Hin & Hr & Hp).
    destruct (same_log_in _ _ _ _ HA Hin) as (q & Hq & Hst). exists e, q.
    rewrite <- (same_static_removal _ _ Hst). destruct Hst as (_ & _ & _ & <- & _). done.
Qed.

Lemma same_logs_wf A A' B B' : same_log A A' -> same_log B B' -> logs_wf A B -> logs_wf A' B'.
Proof.
  intros HA HB (H1 & H2 & H3 & H4). split; [by eapply same_log_wf|]. split; [by eapply same_log_wf|].
  split; by eapply same_log_linked.
Qed.

Lemma alter_entry_same u e f :
  (forall p, same_static p (f p)) -> same_log u (alter_entry u e f).
Proof.
  intros Hf. unfold same_log; cbn. split_and!; try done.
  induction (entries u) as [|[e' p] l IH]; cbn; constructor; [|done].
  case_bool_decide; cbn; split; try done. 
Qed.

Lemma alter_heights_static f p : same_static p (alter_heights f p).
Proof. by destruct p. Qed.

Lemma alter_output_static f p : same_static p (alter_output f p).
Proof. by destruct p. Qed.

Lemma set_forwarded_static r d p : same_static p (set_forwarded r d p).
Proof. by destruct p. Qed.

(** ** Theorems *)

#[local] Existing Instance dead_add_dec.

(** Garbage collection.  On well-formed, linked logs [compactLogs] never
    removes a missing element (which would panic): it returns logs that are again
    well-formed and linked, from which exactly the removals and fee updates that
    have left both chains at or below the tails are gone, together with the HTLCs
    those removals consumed; everything else stays in its order, and the
    counters do not move. *)
Theorem compactLogs_spec localTail remoteTail A B :
  logs_wf A B ->
  exists A' B', compactLogs A B localTail remoteTail = Ok (A', B') /\ logs_wf A' B' /\
    entries A' = filter (fun x => removable localTail remoteTail x.2 = false /\
      ~ dead_add (dead localTail remoteTail (entries B)) x) (entries A) /\
    entries B' = filter (fun x => removable localTail remoteTail x.2 = false /\
      ~ dead_add (dead localTail remoteTail (entries A)) x) (entries B) /\
    logIndex A' = logIndex A /\ htlcCounter A' = htlcCounter A /\
    logIndex B' = logIndex B /\ htlcCounter B' = htlcCounter B.
Proof. apply compactLogs_ok. Qed.

(** Two logs with an HTLC of 5000 and the settle that consumes it, both out of
    the chains at height 3. *)
Definition example_add : PaymentDescriptor :=
  {| RHash := replicate 32 x00; RPreimage := replicate 32 x00; Timeout := 0;
     BtcAmount := 5000; AssetAmount := 0; AssetID := 0; LogIndex := 0; HtlcIndex := 0;
     ParentIndex := 0; SourceRef := None; DestRef := None; OpenCircuitKey := None;
     ClosedCircuitKey := None; OnionBlob := []; ShaOnionBlob := replicate 32 x00;
     FailReason := []; FailCode := 0; EntryType := Add; heights := mkHeights 1 1 0 0;
     output := noOutput; isForwarded := false |}.

Definition example_settle : PaymentDescriptor :=
  {| RHash := replicate 32 x00; RPreimage := replicate 32 x00; Timeout := 0;
     BtcAmount := 5000; AssetAmount := 0; AssetID := 0; LogIndex := 0; HtlcIndex := 0;
     ParentIndex := 0; SourceRef := None; DestRef := None; OpenCircuitKey := None;
     ClosedCircuitKey := None; OnionBlob := []; ShaOnionBlob := replicate 32 x00;
     FailReason := []; FailCode := 0; EntryType := Settle; heights := mkHeights 0 0 3 3;
     output := noOutput; isForwarded := false |}.

Definition example_ours : updateLog := markHtlcModified (appendHtlc (newUpdateLog 0 0) example_add) 0.
Definition example_theirs : updateLog := appendUpdate (newUpdateLog 0 0) example_settle.

Lemma new_logs_wf i1 c1 i2 c2 :
  in_u 64 i1 -> in_u 64 c1 -> in_u 64 i2 -> in_u 64 c2 ->
  logs_wf (newUpdateLog i1 c1) (newUpdateLog i2 c2).
Proof.
  intros. split; [by apply newUpdateLog_wf|]. split; [by apply newUpdateLog_wf|].
  split; split; cbn; set_solver.
Qed.

Lemma example_logs_wf : logs_wf example_theirs example_ours.
Proof.
  apply (removal_logs_wf (newUpdateLog 0 0) _ example_settle 0%nat example_add); try done.
  - apply logs_wf_sym, add_logs_wf; try done. by apply new_logs_wf.
  - cbn. by left.
Qed.

Lemma compactLogs_spec_witness :
  exists A' B', compactLogs example_theirs example_ours 3 3 = Ok (A', B') /\ logs_wf A' B' /\
    entries A' = [] /\ entries B' = [] /\ htlcCounter B' = 1.
Proof.
  destruct (compactLogs_spec 3 3 example_theirs example_ours example_logs_wf)
    as (A' & B' & HR & Hwf & HA & HB & _ & _ & _ & Hc).
  exists A', B'. split_and!; [exact HR|exact Hwf|rewrite HA; reflexivity| |rewrite Hc; reflexivity].
  rewrite HB. vm_compute. reflexivity.
Defined.
