(* ===== verification/CommitTx.v ===== *)
(** * lnwallet: commitment transactions

    Models lnwallet/commit_sort.go, the state hints of lnwallet/transactions.go,
    and the construction of a commitment transaction in lnwallet/commitment.go
    ([createUnsignedCommitmentTx], [CreateCommitTx], [addHTLC],
    [CoopCloseBalance]).  The scripts of the outputs are built by the script
    templates of the input package on top of btcd's script builder and are
    parameters (class [Scripts]), as is btcd's transaction sanity check. *)

From Stdlib Require Import ZArith Lia Sorted.
From stdpp Require Import sorting.
From S2P Require Import Prelude Wire Amounts OpReturn UpdateLog.

Local Open Scope Z_scope.
Local Open Scope go_scope.

(** ** Errors of the channel state machine *)

Inductive chan_err : Type :=
  | ErrScript
  | ErrLocalOutputDust
  | ErrRemoteOutputDust
  | ErrStateHintTooBig
  | ErrNotOneInput
  | ErrTxSanity
  | ErrAboveCapacity
  | ErrOp (e : op_err)
  | ErrCoopCloseFee
  | ErrParentNotFound (i : Z)
  | ErrZeroRemoteAddHeight
  | ErrZeroLocalAddHeight
  | ErrMissingAssetID
  | ErrBelowChanReserve
  | ErrFeeBelowFloor
  | ErrInvalidHTLCAmt
  | ErrBelowMinHTLC
  | ErrMaxPendingAmount
  | ErrMaxHTLCNumber
  | ErrFeeRateTooLow
  | ErrUnknownHtlcIndex (i : Z)
  | ErrHtlcIndexAlreadySettled (i : Z)
  | ErrHtlcIndexAlreadyFailed (i : Z)
  | ErrInvalidSettlePreimage
  | ErrHtlcIDMismatch
  | ErrNoWindow
  | ErrNotInitiator
  | ErrInitiator
  | ErrSign
  | ErrInvalidCommitSig
  | ErrRevocation
  | ErrRevocationKeyMismatch
  | ErrHtlcIndexNotLocated
  | ErrDB
  | ErrNoRestoredChannelMutation
  | ErrChanBorked
  | ErrNoPendingCommit
  | ErrFeeTooHigh.

(** ** Canonical order of outputs (lnwallet/commit_sort.go) *)

(** [bytes.Compare] as a decidable order. *)
Fixpoint bytes_compare (a b : list byte) : comparison :=
  match a, b with
  | [], [] => Eq
  | [], _ => Lt
  | _, [] => Gt
  | x :: a', y :: b' =>
      match byte_Z x ?= byte_Z y with
      | Eq => bytes_compare a' b'
      | c => c
      end
  end.

Module CommitSort.

(** [sortableInputSlice.Less]. *)
Definition input_less (a b : TxIn) : bool :=
  let ha := Hash (PreviousOutPoint a) in
  let hb := Hash (PreviousOutPoint b) in
  if bool_decide (ha = hb)
  then bool_decide (Wire.Index (PreviousOutPoint a) < Wire.Index (PreviousOutPoint b))
  else match bytes_compare (reverse ha) (reverse hb) with Lt => true | _ => false end.

Definition input_le (a b : TxIn) : Prop := input_less b a = false.
#[global] Instance input_le_dec a b : Decision (input_le a b).
Proof. unfold input_le. apply _. Defined.

(** [sortableCommitOutputSlice.Less] on an output with its CLTV. *)
Definition output_less (a b : TxOut * Z) : bool :=
  if bool_decide (Value a.1 <> Value b.1) then bool_decide (Value a.1 < Value b.1)
  else match bytes_compare (PkScript a.1) (PkScript b.1) with
       | Lt => true
       | Gt => false
       | Eq => bool_decide (a.2 < b.2)
       end.

Definition output_le (a b : TxOut * Z) : Prop := output_less b a = false.
#[global] Instance output_le_dec a b : Decision (output_le a b).
Proof. unfold output_le. apply _. Defined.

(** The outputs and their CLTVs are swapped together. *)
Definition InPlaceCommitSort (tx : MsgTx) (cltvs : list Z) : outcome chan_err (MsgTx * list Z) :=
  if bool_decide (length (TxOuts tx) <> length cltvs) then Panic
  else
    let sorted := merge_sort output_le (zip (TxOuts tx) cltvs) in
    Ok ({| TxIns := merge_sort input_le (TxIns tx); TxOuts := sorted.*1;
           LockTime := LockTime tx |}, sorted.*2).

(** *** The order is total and antisymmetric *)

Lemma bytes_compare_refl a : bytes_compare a a = Eq.
Proof. induction a as [|x a IH]; [done|]. cbn. by rewrite Z.compare_refl. Qed.

Lemma bytes_compare_eq a b : bytes_compare a b = Eq <-> a = b.
Proof.
  split; [|intros ->; apply bytes_compare_refl]. revert b.
  induction a as [|x a IH]; intros [|y b]; cbn; try done.
  destruct (byte_Z x ?= byte_Z y) eqn:E; try done. intros H.
  apply Z.compare_eq in E. apply (inj byte_Z) in E. by rewrite E, (IH b H).
Qed.

Lemma bytes_compare_antisym a b : bytes_compare b a = CompOpp (bytes_compare a b).
Proof.
  revert b. induction a as [|x a IH]; intros [|y b]; cbn; try done.
  rewrite (Z.compare_antisym (byte_Z x)). by destruct (byte_Z x ?= byte_Z y); cbn.
Qed.

Lemma bytes_compare_trans a b c :
  bytes_compare a b = Lt -> bytes_compare b c = Lt -> bytes_compare a c = Lt.
Proof.
  revert b c. induction a as [|x a IH]; intros [|y b] [|z c]; cbn; try done.
  destruct (byte_Z x ?= byte_Z y) eqn:E1, (byte_Z y ?= byte_Z z) eqn:E2; try done.
  - apply Z.compare_eq in E1, E2. rewrite E1, E2, Z.compare_refl. apply IH.
  - apply Z.compare_eq in E1. by rewrite E1, E2.
  - apply Z.compare_eq in E2. by rewrite <- E2, E1.
  - rewrite Z.compare_lt_iff in E1, E2. intros _ _.
    assert (byte_Z x ?= byte_Z z = Lt)%Z as -> by (apply Z.compare_lt_iff; lia). done.
Qed.

(** The output order, as a comparison of value, script and CLTV in turn. *)
Lemma output_less_spec a b :
  output_less a b = true <->
  Value a.1 < Value b.1 \/ (Value a.1 = Value b.1 /\
    (bytes_compare (PkScript a.1) (PkScript b.1) = Lt \/
     (PkScript a.1 = PkScript b.1 /\ a.2 < b.2))).
Proof.
  unfold output_less. case_bool_decide as Hv.
  - rewrite bool_decide_eq_true. lia.
  - destruct (bytes_compare _ _) eqn:E.
    + apply bytes_compare_eq in E. rewrite bool_decide_eq_true. naive_solver lia.
    + naive_solver lia.
    + split; [done|]. intros [?|(_ & [?|[E' _]])]; [lia|done|].
      apply bytes_compare_eq in E'. congruence.
Qed.

#[global] Instance output_le_total : Total output_le.
Proof.
  intros a b. unfold output_le.
  destruct (output_less b a) eqn:E1; [|by left]. right.
  apply not_true_is_false. intros E2. apply output_less_spec in E1, E2.
  pose proof (bytes_compare_antisym (PkScript a.1) (PkScript b.1)) as Ha.
  destruct E1 as [?|(? & [H1|[H1 ?]])], E2 as [?|(? & [H2|[H2 ?]])]; try lia;
    try (rewrite H1, H2 in Ha; discriminate);
    try (rewrite H1, bytes_compare_refl in H2; discriminate);
    try (rewrite H2, bytes_compare_refl in H1; discriminate).
Qed.

Lemma output_le_iff a b : output_le a b <-> output_less a b = true \/ a = b.
Proof.
  unfold output_le. split.
  - intros H. destruct (output_less a b) eqn:E; [by left|]. right.
    destruct a as [[v1 s1] c1], b as [[v2 s2] c2].
    assert (~ output_less (mkTxOut v1 s1, c1) (mkTxOut v2 s2, c2) = true) as N1 by congruence.
    assert (~ output_less (mkTxOut v2 s2, c2) (mkTxOut v1 s1, c1) = true) as N2 by congruence.
    rewrite output_less_spec in N1, N2. cbn in N1, N2.
    assert (v1 = v2) as -> by lia.
    pose proof (bytes_compare_antisym s1 s2) as Ha.
    destruct (bytes_compare s1 s2) eqn:Es; cbn in Ha.
    + apply bytes_compare_eq in Es as ->.
      destruct (Z.lt_trichotomy c1 c2) as [?|[->|?]]; [destruct N1; by auto 6|done|destruct N2; by auto 6].
    + destruct N1. by auto.
    + destruct N2. by auto.
  - intros [H| ->].
    + apply not_true_is_false. intros E. destruct (output_le_total a b) as [Ht|Ht];
        unfold output_le in Ht; congruence.
    + apply not_true_is_false. rewrite output_less_spec, bytes_compare_refl.
      intros [?|(_ & [?|[_ ?]])]; lia || done.
Qed.

Lemma output_less_trans a b c :
  output_less a b = true -> output_less b c = true -> output_less a c = true.
Proof.
  rewrite !output_less_spec. intros [?|(E1 & H1)] [?|(E2 & H2)]; [left; lia..|].
  right. split; [lia|]. destruct H1 as [H1|[H1 ?]], H2 as [H2|[H2 ?]].
  - left. by eapply bytes_compare_trans.
  - left. by rewrite <- H2.
  - left. by rewrite H1.
  - right. split; [congruence|lia].
Qed.

#[global] Instance output_le_trans : Transitive output_le.
Proof.
  intros a b c. rewrite !output_le_iff. intros [H1| ->] [H2| ->]; auto.
  left. by eapply output_less_trans.
Qed.

#[global] Instance output_le_antisym : AntiSymm (=) output_le.
Proof.
  intros a b. rewrite !output_le_iff. intros [H1|?] [H2|?]; try done.
  exfalso. assert (output_less a a = true) as H by (by eapply output_less_trans).
  rewrite output_less_spec, bytes_compare_refl in H.
  destruct H as [?|(_ & [?|[_ ?]])]; lia || done.
Qed.

End CommitSort.

(** ** State hints (lnwallet/transactions.go) *)

Definition StateHintSize : nat := 6.
Definition maxStateHint : Z := Z.shiftl 1 48 - 1.
Definition TimelockShift : Z := u32 (Z.shiftl 1 29).
Definition SequenceLockTimeDisabled : Z := Z.shiftl 1 31.

(** The obfuscator as an integer: six bytes behind two zero bytes. *)
Definition obfs (obfuscator : list byte) : Z := be_get ([x00; x00] ++ obfuscator).

Definition SetStateNumHint (commitTx : MsgTx) (stateNum : Z) (obfuscator : list byte) :
    outcome chan_err MsgTx :=
  if bool_decide (stateNum > maxStateHint) then Err ErrStateHintTooBig
  else match TxIns commitTx with
  | [txin] =>
      let stateNum := Z.lxor stateNum (obfs obfuscator) in
      Ok {| TxIns := [{| PreviousOutPoint := PreviousOutPoint txin;
                         Sequence := Z.lor (u32 (Z.shiftr stateNum 24)) SequenceLockTimeDisabled |}];
            TxOuts := TxOuts commitTx;
            LockTime := Z.lor (u32 (Z.land stateNum 0xFFFFFF)) TimelockShift |}
  | _ => Err ErrNotOneInput
  end.

Definition GetStateNumHint (commitTx : MsgTx) (obfuscator : list byte) : outcome chan_err Z :=
  match TxIns commitTx with
  | [] => Panic
  | txin :: _ =>
      let stateNumXor := Z.lor (u64 (Z.shiftl (Z.land (Sequence txin) 0xFFFFFF) 24))
                               (Z.land (LockTime commitTx) 0xFFFFFF) in
      Ok (Z.lxor stateNumXor (obfs obfuscator))
  end.

(** ** The static state of a channel *)

(** [channeldb.ChannelConstraints]. *)
Record ChannelConstraints := mkConstraints {
  DustLimit : Z;
  ChanReserve : Z;
  MaxPendingAmount : Z;
  MinHTLC : Z;
  MaxAcceptedHtlcs : Z;
  CsvDelay : Z;
}.

(** The part of [channeldb.OpenChannel] that the state machine reads and never
    writes. *)
Record ChanCfg := mkChanCfg {
  ChanType : Z;
  ChanAssetID : Z;
  IsInitiator : bool;
  BtcCapacity : Z;
  LocalChanCfg : ChannelConstraints;
  RemoteChanCfg : ChannelConstraints;
  LocalShutdownScript : list byte;
  RemoteShutdownScript : list byte;
  ThawHeight : Z;
  FundingOutpoint : OutPoint;
  obfuscator : list byte;
}.

(** A pointer to a descriptor together with the value it points to; [None] is a
    descriptor that is in no log. *)
Definition view_entry : Type := option nat * PaymentDescriptor.

Record htlcView := mkView {
  ourUpdates : list view_entry;
  theirUpdates : list view_entry;
  feePerKw : Z;
}.

(** ** Construction (lnwallet/commitment.go) *)

(** The script templates of the input package and btcd's sanity check. *)
Class Scripts := {
  keyRing : Type;
  CommitScriptToSelf : Z -> bool -> keyRing -> Z -> Z -> option (list byte);
  genHtlcScript : Z -> bool -> bool -> Z -> list byte -> keyRing -> option (list byte);
  CheckTransactionSanity : MsgTx -> bool;
}.

Definition entryIsDust (cfg : ChanCfg) (incoming isOurs : bool) (feePerKw dustLimit : Z)
    (x : view_entry) : bool :=
  HtlcIsDust (ChanType cfg) incoming isOurs feePerKw (ToSatoshis (BtcAmount x.2)) dustLimit
    (UpdateLog.AssetID x.2).

Definition nonDust (cfg : ChanCfg) (incoming isOurs : bool) (feePerKw dustLimit : Z)
    (l : list view_entry) : list view_entry :=
  filter (fun x => entryIsDust cfg incoming isOurs feePerKw dustLimit x = false) l.

Definition commitDustLimit (cfg : ChanCfg) (isOurs : bool) : Z :=
  if isOurs then DustLimit (LocalChanCfg cfg) else DustLimit (RemoteChanCfg cfg).

Definition numHTLCs (cfg : ChanCfg) (isOurs : bool) (fee : Z) (view : htlcView) : Z :=
  let dust := commitDustLimit cfg isOurs in
  Z.of_nat (length (nonDust cfg false isOurs fee dust (ourUpdates view)) +
            length (nonDust cfg true isOurs fee dust (theirUpdates view))).

Definition commitFeeFor (cfg : ChanCfg) (isOurs : bool) (fee : Z) (view : htlcView) : Z :=
  SatPerKWeight.FeeForWeight fee
    (i64 (CommitWeight (ChanType cfg) + i64 (HTLCWeight * numHTLCs cfg isOurs fee view))).

(** The balances after the fee.  In an asset channel the party that did not open
    the channel gets enough to move its asset, and the rest pays the fees; in a
    bitcoin channel the initiator pays, with all it has if that is not enough.
    The tests for a negative balance of an unsigned integer never hold. *)
Definition commitBalances (cfg : ChanCfg) (isOurs : bool) (n commitFee : Z)
    (ourBtc theirBtc ourAsset theirAsset : Z) : Z * Z :=
  let commitFeeMSat := NewMSatFromSatoshis commitFee in
  if bool_decide (ChanAssetID cfg > BtcAssetId) then
    if IsInitiator cfg then
      let theirBtc :=
        if bool_decide (theirAsset > 0)
        then if isOurs then NewMSatFromSatoshis OmniGas
             else NewMSatFromSatoshis (OmniGas + 1106 + 100)
        else 0 in
      let ourBtc := u64 (NewMSatFromSatoshis (BtcCapacity cfg) - theirBtc) in
      let ourBtc := u64 (ourBtc - commitFeeMSat) in
      let ourBtc := u64 (ourBtc - NewMSatFromSatoshis (i64 (OmniGas * 3 * n))) in
      (ourBtc, theirBtc)
    else
      let ourBtc :=
        if bool_decide (ourAsset > 0)
        then if isOurs then NewMSatFromSatoshis (OmniGas + 1106 + 100)
             else NewMSatFromSatoshis OmniGas
        else 0 in
      let theirBtc := u64 (NewMSatFromSatoshis (BtcCapacity cfg) - ourBtc) in
      let theirBtc := u64 (theirBtc - commitFeeMSat) in
      let theirBtc := u64 (theirBtc - NewMSatFromSatoshis (i64 (OmniGas * 3 * n))) in
      (ourBtc, theirBtc)
  else if IsInitiator cfg then
    if bool_decide (commitFee > ToSatoshis ourBtc) then (0, theirBtc)
    else (u64 (ourBtc - commitFeeMSat), theirBtc)
  else
    if bool_decide (commitFee > ToSatoshis theirBtc) then (ourBtc, 0)
    else (ourBtc, u64 (theirBtc - commitFeeMSat)).

Record unsignedCommitmentTx := mkUnsigned {
  txn : MsgTx;
  fee : Z;
  ourBtcBalance : Z;
  theirBtcBalance : Z;
  ourAssetBalance : Z;
  theirAssetBalance : Z;
  cltvs : list Z;
}.

Section build.
Context {SC : Scripts}.

Definition CreateCommitTx (cfg : ChanCfg) (keys : keyRing)
    (localChanCfg remoteChanCfg : ChannelConstraints)
    (btcAmountToLocal btcAmountToRemote assetAmountToLocal assetAmountToRemote : Z)
    (initiator : bool) (leaseExpiry : Z) (opAmounts : PksAmounts)
    (remoteShutdownScript : list byte) : outcome chan_err (MsgTx * PksAmounts) :=
  match CommitScriptToSelf (ChanType cfg) initiator keys (CsvDelay localChanCfg) leaseExpiry with
  | None => Err ErrScript
  | Some toLocalScript =>
      let localOutput := bool_decide (btcAmountToLocal >= DustLimit localChanCfg) in
      if negb localOutput && bool_decide (assetAmountToLocal > 0) then Err ErrLocalOutputDust
      else
        let outs := if localOutput then [mkTxOut btcAmountToLocal toLocalScript] else [] in
        let opAmounts :=
          if localOutput then PksAdd opAmounts toLocalScript assetAmountToLocal else opAmounts in
        let remoteOutput := bool_decide (btcAmountToRemote >= DustLimit localChanCfg) in
        if negb remoteOutput && bool_decide (assetAmountToRemote > 0) then Err ErrRemoteOutputDust
        else
          let outs :=
            if remoteOutput then outs ++ [mkTxOut btcAmountToRemote remoteShutdownScript]
            else outs in
          let opAmounts :=
            if remoteOutput then PksAdd opAmounts remoteShutdownScript assetAmountToRemote
            else opAmounts in
          Ok ({| TxIns := [{| PreviousOutPoint := FundingOutpoint cfg; Sequence := 2 ^ 32 - 1 |}];
                 TxOuts := outs; LockTime := 0 |}, opAmounts)
  end.

(** The output, the asset amount, and the script recorded in the descriptor. *)
Definition addHTLC (cfg : ChanCfg) (keys : keyRing) (ourCommit isIncoming : bool)
    (paymentDesc : PaymentDescriptor) (st : MsgTx * PksAmounts) :
    outcome chan_err (MsgTx * PksAmounts * PaymentDescriptor) :=
  match genHtlcScript (ChanType cfg) isIncoming ourCommit (Timeout paymentDesc)
          (RHash paymentDesc) keys with
  | None => Err ErrScript
  | Some p2wsh =>
      let amountPending := ToSatoshis (BtcAmount paymentDesc) in
      Ok (set_outs st.1 (TxOuts st.1 ++ [mkTxOut amountPending p2wsh]),
          PksAdd st.2 p2wsh (AssetAmount paymentDesc),
          alter_output (fun o =>
            if ourCommit
            then mkHtlcOutput p2wsh (theirPkScript o) (localOutputIndex o) (remoteOutputIndex o)
            else mkHtlcOutput (ourPkScript o) p2wsh (localOutputIndex o) (remoteOutputIndex o))
            paymentDesc)
  end.

(** The loop over one side's HTLCs, dust left out; also returns the entries with
    their scripts recorded. *)
Fixpoint addHTLCs (cfg : ChanCfg) (keys : keyRing) (ourCommit isIncoming : bool)
    (feePerKw dustLimit : Z) (l : list view_entry) (st : MsgTx * PksAmounts) (cltvs : list Z) :
    outcome chan_err (MsgTx * PksAmounts * list Z * list view_entry) :=
  match l with
  | [] => Ok (st, cltvs, [])
  | x :: l' =>
      if entryIsDust cfg isIncoming ourCommit feePerKw dustLimit x then
        '(st, cltvs, l') <~ addHTLCs cfg keys ourCommit isIncoming feePerKw dustLimit l' st cltvs ;
        Ok (st, cltvs, x :: l')
      else
        '(st, pd) <~ addHTLC cfg keys ourCommit isIncoming x.2 st ;
        '(st, cltvs, l') <~ addHTLCs cfg keys ourCommit isIncoming feePerKw dustLimit l' st
                              (cltvs ++ [Timeout x.2]) ;
        Ok (st, cltvs, (x.1, pd) :: l')
  end.

Definition lift_op {A} (m : outcome op_err A) : outcome chan_err A :=
  match m with Ok a => Ok a | Err e => Err (ErrOp e) | Panic => Panic end.

Definition totalOut (tx : MsgTx) : Z :=
  fold_left (fun acc o => i64 (acc + Value o)) (TxOuts tx) 0.

(** The transaction, and the view with the scripts recorded in its entries. *)
Definition createUnsignedCommitmentTx (cfg : ChanCfg)
    (ourBtc theirBtc ourAsset theirAsset : Z) (isOurs : bool) (feePerKw height : Z)
    (filteredHTLCView : htlcView) (keys : keyRing) :
    outcome chan_err (unsignedCommitmentTx * htlcView) :=
  let dustLimit := commitDustLimit cfg isOurs in
  let n := numHTLCs cfg isOurs feePerKw filteredHTLCView in
  let commitFee := commitFeeFor cfg isOurs feePerKw filteredHTLCView in
  let '(ourBtc, theirBtc) :=
    commitBalances cfg isOurs n commitFee ourBtc theirBtc ourAsset theirAsset in
  let leaseExpiry :=
    if ChannelType.HasLeaseExpiration (ChanType cfg) then ThawHeight cfg else 0 in
  let opAmounts := NewPksAmounts (ChanAssetID cfg) in
  st <~
    (if isOurs then
       CreateCommitTx cfg keys (LocalChanCfg cfg) (RemoteChanCfg cfg)
         (ToSatoshis ourBtc) (ToSatoshis theirBtc) ourAsset theirAsset
         (IsInitiator cfg) leaseExpiry opAmounts (RemoteShutdownScript cfg)
     else
       CreateCommitTx cfg keys (RemoteChanCfg cfg) (LocalChanCfg cfg)
         (ToSatoshis theirBtc) (ToSatoshis ourBtc) theirAsset ourAsset
         (negb (IsInitiator cfg)) leaseExpiry opAmounts (LocalShutdownScript cfg)) ;
  let cltvs := replicate (length (TxOuts st.1)) 0 in
  '(st, cltvs, ours) <~ addHTLCs cfg keys isOurs false feePerKw dustLimit
                          (ourUpdates filteredHTLCView) st cltvs ;
  '(st, cltvs, theirs) <~ addHTLCs cfg keys isOurs true feePerKw dustLimit
                            (theirUpdates filteredHTLCView) st cltvs ;
  tx <~ SetStateNumHint st.1 height (obfuscator cfg) ;
  '(tx, cltvs) <~ CommitSort.InPlaceCommitSort tx cltvs ;
  tx <~ lift_op (AddOpReturnToTx tx st.2) ;
  if negb (CheckTransactionSanity tx) then Err ErrTxSanity
  else if bool_decide (i64 (totalOut tx + commitFee) > BtcCapacity cfg) then Err ErrAboveCapacity
  else Ok ({| txn := tx; fee := commitFee; ourBtcBalance := ourBtc; theirBtcBalance := theirBtc;
              ourAssetBalance := ourAsset; theirAssetBalance := theirAsset; cltvs := cltvs |},
           mkView ours theirs (CommitTx.feePerKw filteredHTLCView)).

End build.

(** [CoopCloseBalance], with the balances and the fee of the latest commitment. *)
Definition CoopCloseBalance (isInitiator : bool) (coopCloseFee : Z)
    (localBtc remoteBtc localAsset remoteAsset commitFee : Z) :
    outcome chan_err (Z * Z * Z * Z) :=
  let ourBalance := ToSatoshis localBtc in
  let theirBalance := ToSatoshis remoteBtc in
  let initiatorDelta := i64 (commitFee - coopCloseFee) in
  let ourBalance := if isInitiator then i64 (ourBalance + initiatorDelta) else ourBalance in
  let theirBalance := if isInitiator then theirBalance else i64 (theirBalance + initiatorDelta) in
  if bool_decide (ourBalance < 0) || bool_decide (theirBalance < 0) then Err ErrCoopCloseFee
  else Ok (ourBalance, theirBalance, localAsset, remoteAsset).

(** ** Lemmas *)

Definition valueOf (outs : list TxOut) : Z := foldr (fun o acc => Value o + acc) 0 outs.

Lemma valueOf_app l k : valueOf (l ++ k) = valueOf l + valueOf k.
Proof. unfold valueOf. induction l as [|o l IH]; cbn in *; lia. Qed.

#[global] Instance valueOf_perm : Proper ((≡ₚ) ==> (=)) valueOf.
Proof. unfold valueOf. induction 1; cbn in *; lia. Qed.

Lemma valueOf_nonneg l : Forall (fun o => 0 <= Value o) l -> 0 <= valueOf l.
Proof. unfold valueOf. induction 1; cbn in *; lia. Qed.

(** The milli-satoshis locked in a list of descriptors, such as one side of a
    view or the entries of a log. *)
Definition htlcValue {K} (l : list (K * PaymentDescriptor)) : Z :=
  foldr (fun x acc => BtcAmount x.2 + acc) 0 l.

Definition amounts_ok {K} (l : list (K * PaymentDescriptor)) : Prop :=
  Forall (fun x => in_u 64 (BtcAmount x.2)) l.

Lemma htlcValue_nonneg {K} (l : list (K * PaymentDescriptor)) : amounts_ok l -> 0 <= htlcValue l.
Proof. unfold htlcValue, amounts_ok, in_u. induction 1; cbn in *; lia. Qed.

(** Summing in wrapped 64-bit arithmetic is summing when the total fits. *)
Lemma totalOut_exact tx :
  Forall (fun o => 0 <= Value o) (TxOuts tx) -> valueOf (TxOuts tx) < 2 ^ 63 ->
  totalOut tx = valueOf (TxOuts tx).
Proof.
  unfold totalOut. intros Hnn.
  assert (forall acc, 0 <= acc -> acc + valueOf (TxOuts tx) < 2 ^ 63 ->
    fold_left (fun acc o => i64 (acc + Value o)) (TxOuts tx) acc = acc + valueOf (TxOuts tx)) as Hgen.
  { induction Hnn as [|o l Ho Hl IH]; intros acc Ha Hb; cbn in *; [lia|].
    apply valueOf_nonneg in Hl. unfold valueOf in *.
    rewrite (i64_id (acc + Value o)) by (unfold in_i64; lia). rewrite IH; lia. }
  intros Hb. rewrite Hgen; lia.
Qed.

Lemma PksAdd_asset p pks a : OpReturn.AssetID (PksAdd p pks a) = OpReturn.AssetID p.
Proof. unfold PksAdd. by repeat case_bool_decide. Qed.

Section build_lemmas.
Context {SC : Scripts}.

(** What the construction keeps between its steps. *)
Record building (st : MsgTx * PksAmounts) (cltvs : list Z) (asset value : Z) : Prop := {
  bd_in : exists i, TxIns st.1 = [i];
  bd_len : length cltvs = length (TxOuts st.1);
  bd_asset : OpReturn.AssetID st.2 = asset;
  bd_nonneg : Forall (fun o => 0 <= Value o) (TxOuts st.1);
  bd_value : valueOf (TxOuts st.1) <= value;
}.

Lemma CreateCommitTx_ok cfg keys lc rc toLocal toRemote aLocal aRemote ini lease script :
  0 <= toLocal -> 0 <= toRemote ->
  match CreateCommitTx cfg keys lc rc toLocal toRemote aLocal aRemote ini lease
          (NewPksAmounts (ChanAssetID cfg)) script with
  | Ok st => building st (replicate (length (TxOuts st.1)) 0) (ChanAssetID cfg) (toLocal + toRemote)
  | Err e => e <> ErrAboveCapacity
  | Panic => False
  end.
Proof.
  intros Hl Hr. unfold CreateCommitTx.
  destruct (CommitScriptToSelf _ _ _ _ _) as [ls|]; [|done].
  destruct (bool_decide (toLocal >= _)), (bool_decide (toRemote >= _)),
    (bool_decide (aLocal > 0)), (bool_decide (aRemote > 0)); cbn [negb andb]; try discriminate;
    (split; [by eexists|by rewrite length_replicate|cbn [snd]; by rewrite ?PksAdd_asset|
      repeat constructor; cbn; lia|cbn; lia]).
Qed.

Lemma ToSatoshis_bound m : in_u 64 m -> 0 <= ToSatoshis m /\ 1000 * ToSatoshis m <= m.
Proof.
  unfold in_u, ToSatoshis, mSatScale. intros H. pose proof (Z.div_mod m 1000 ltac:(lia)).
  pose proof (Z.mod_pos_bound m 1000 ltac:(lia)).
  rewrite i64_id by (unfold in_i64; lia). lia.
Qed.

Lemma addHTLCs_ok cfg keys ourCommit incoming fee dust l : forall st cltvs asset value,
  amounts_ok l -> building st cltvs asset value ->
  match addHTLCs cfg keys ourCommit incoming fee dust l st cltvs with
  | Ok (st', cltvs', _) => exists value', building st' cltvs' asset value' /\
      1000 * value' <= 1000 * value + htlcValue l
  | Err e => e <> ErrAboveCapacity
  | Panic => False
  end.
Proof.
  induction l as [|x l IH]; intros st cltvs asset value Ha Hb; cbn [addHTLCs].
  - exists value. split; [done|]. cbn. lia.
  - apply Forall_cons in Ha as [Hx Ha]. pose proof (ToSatoshis_bound _ Hx) as [Hs1 Hs2].
    unfold in_u in Hx. destruct (entryIsDust _ _ _ _ _ _).
    { specialize (IH st cltvs asset value Ha Hb).
      destruct (addHTLCs _ _ _ _ _ _ l _ _) as [[[st' cltvs'] l']|e|]; [|done..]. cbn [obind].
      destruct IH as (value' & ? & ?). exists value'. split; [done|]. unfold htlcValue in *. cbn. lia. }
    unfold addHTLC. destruct (genHtlcScript _ _ _ _ _ _) as [s|]; [|done]. cbn [obind].
    specialize (IH (set_outs st.1 (TxOuts st.1 ++ [mkTxOut (ToSatoshis (BtcAmount x.2)) s]),
          PksAdd st.2 s (AssetAmount x.2)) (cltvs ++ [Timeout x.2]) asset
          (value + ToSatoshis (BtcAmount x.2)) Ha).
    destruct (addHTLCs _ _ _ _ _ _ l _ _) as [[[st' cltvs'] l']|e|]; cbn [obind];
      (destruct IH as (value' & ? & ?) || apply IH);
      try (destruct Hb as [Hb1 Hb2 Hb3 Hb4 Hb5]; split; cbn; [done| |by rewrite PksAdd_asset| |];
        [rewrite !length_app, Hb2; done|by apply Forall_app; repeat constructor|
         rewrite valueOf_app; cbn; lia]).
    exists value'. split; [done|]. unfold htlcValue in *. cbn. lia.
Qed.

End build_lemmas.

(** Bits: a disjunction of a small number and a multiple of a power of two. *)
Lemma lor_disjoint a b k : 0 <= k -> 0 <= a < 2 ^ k -> Z.lor a (b * 2 ^ k) = a + b * 2 ^ k.
Proof.
  intros Hk Ha. assert (Z.land a (b * 2 ^ k) = 0) as Hz.
  { apply Z.bits_inj'. intros i Hi. rewrite Z.land_spec, Z.bits_0.
    destruct (Z.lt_ge_cases i k) as [Hlt|Hge].
    - by rewrite (Z.mul_pow2_bits_low b k i), andb_false_r.
    - rewrite <- (Z.mod_small a (2 ^ k)) by done. by rewrite Z.mod_pow2_bits_high. }
  by rewrite Z.add_nocarry_lxor, Z.lxor_lor.
Qed.

Lemma lxor_range a b k : 0 <= k -> 0 <= a < 2 ^ k -> 0 <= b < 2 ^ k -> 0 <= Z.lxor a b < 2 ^ k.
Proof.
  intros Hk Ha Hb. assert (Z.lxor a b = Z.lxor a b mod 2 ^ k) as ->.
  { apply Z.bits_inj'. intros i Hi. destruct (Z.lt_ge_cases i k) as [Hlt|Hge].
    - by rewrite Z.mod_pow2_bits_low.
    - rewrite Z.mod_pow2_bits_high, Z.lxor_spec by lia.
      rewrite <- (Z.mod_small a (2 ^ k)), <- (Z.mod_small b (2 ^ k)) by done.
      by rewrite !Z.mod_pow2_bits_high. }
  apply Z.mod_pos_bound. lia.
Qed.

Lemma land_low24 z : Z.land z 0xFFFFFF = z mod 2 ^ 24.
Proof. change 0xFFFFFF with (Z.ones 24). by rewrite Z.land_ones. Qed.

Lemma obfs_range ob : length ob = StateHintSize -> 0 <= obfs ob < 2 ^ 48.
Proof.
  intros Hl. unfold obfs. cbn [app]. rewrite !be_get_cons. pose proof (be_get_range ob) as H.
  rewrite Hl in H. change (byte_Z x00) with 0. change (256 ^ Z.of_nat StateHintSize) with (2 ^ 48) in H.
  lia.
Qed.

(** The two halves of an obfuscated number, as they are written and read. *)
Lemma hint_halves x :
  0 <= x < 2 ^ 48 ->
  Z.lor (u32 (Z.shiftr x 24)) SequenceLockTimeDisabled = SequenceLockTimeDisabled + x / 2 ^ 24 /\
  Z.lor (u32 (Z.land x 0xFFFFFF)) TimelockShift = TimelockShift + x mod 2 ^ 24.
Proof.
  intros Hx. rewrite land_low24, Z.shiftr_div_pow2 by lia. unfold u32.
  pose proof (Z.div_mod x (2 ^ 24) ltac:(lia)). pose proof (Z.mod_pos_bound x (2 ^ 24) ltac:(lia)).
  change SequenceLockTimeDisabled with (2 ^ 7 * 2 ^ 24). change TimelockShift with (2 ^ 5 * 2 ^ 24).
  rewrite !Z.mod_small by lia. rewrite !lor_disjoint by lia. lia.
Qed.

(** ** Theorems *)

(** C10: The canonical order.  Two parties that list the same outputs with the
    same CLTVs in any two orders build the same sequence: the result is a sorted
    permutation of the input, and it is the only one. *)
Theorem InPlaceCommitSort_canonical tx1 cltvs1 tx2 cltvs2 :
  length (TxOuts tx1) = length cltvs1 -> length (TxOuts tx2) = length cltvs2 ->
  TxIns tx1 = TxIns tx2 -> LockTime tx1 = LockTime tx2 ->
  zip (TxOuts tx1) cltvs1 ≡ₚ zip (TxOuts tx2) cltvs2 ->
  exists tx cltvs,
    CommitSort.InPlaceCommitSort tx1 cltvs1 = Ok (tx, cltvs) /\
    CommitSort.InPlaceCommitSort tx2 cltvs2 = Ok (tx, cltvs) /\
    zip (TxOuts tx) cltvs ≡ₚ zip (TxOuts tx1) cltvs1 /\
    Sorted CommitSort.output_le (zip (TxOuts tx) cltvs) /\
    (forall l, l ≡ₚ zip (TxOuts tx1) cltvs1 -> Sorted CommitSort.output_le l ->
       l = zip (TxOuts tx) cltvs).
Proof.
  intros H1 H2 Hin Hlt HP. unfold CommitSort.InPlaceCommitSort.
  rewrite !bool_decide_eq_false_2 by lia.
  assert (forall l k, l ≡ₚ k -> Sorted CommitSort.output_le l ->
    l = merge_sort CommitSort.output_le k) as Huniq.
  { intros l k Hlk Hs. apply (Sorted_unique CommitSort.output_le); [done| |].
    - apply (Sorted_merge_sort CommitSort.output_le).
    - by rewrite merge_sort_Permutation. }
  eexists _, _. split; [done|]. split.
  { rewrite (Huniq (merge_sort CommitSort.output_le (zip (TxOuts tx2) cltvs2))
                   (zip (TxOuts tx1) cltvs1)), Hin, Hlt.
    - done.
    - by rewrite merge_sort_Permutation, HP.
    - apply (Sorted_merge_sort CommitSort.output_le). }
  cbn [TxOuts]. rewrite zip_fst_snd. split; [apply merge_sort_Permutation|].
  split; [apply (Sorted_merge_sort CommitSort.output_le)|]. intros l. apply Huniq.
Qed.

Lemma InPlaceCommitSort_canonical_witness :
  exists tx cltvs,
    CommitSort.InPlaceCommitSort
      (mkMsgTx [] [mkTxOut 7 [x02]; mkTxOut 3 [x01]; mkTxOut 7 [x02]] 0) [9; 0; 5] = Ok (tx, cltvs) /\
    TxOuts tx = [mkTxOut 3 [x01]; mkTxOut 7 [x02]; mkTxOut 7 [x02]] /\ cltvs = [0; 5; 9] /\
    CommitSort.InPlaceCommitSort
      (mkMsgTx [] [mkTxOut 3 [x01]; mkTxOut 7 [x02]; mkTxOut 7 [x02]] 0) [0; 9; 5] = Ok (tx, cltvs).
Proof.
  destruct (InPlaceCommitSort_canonical
    (mkMsgTx [] [mkTxOut 7 [x02]; mkTxOut 3 [x01]; mkTxOut 7 [x02]] 0) [9; 0; 5]
    (mkMsgTx [] [mkTxOut 3 [x01]; mkTxOut 7 [x02]; mkTxOut 7 [x02]] 0) [0; 9; 5]
    eq_refl eq_refl eq_refl eq_refl) as (tx & cltvs & H1 & H2 & _).
  { apply Permutation_swap. }
  exists tx, cltvs. split; [exact H1|]. split; [|split; [|exact H2]];
    vm_compute in H1; injection H1 as <- <-; reflexivity.
Defined.

(** The state hint.  A state number of at most 48 bits written into a
    commitment transaction is read back by whoever knows the obfuscator, the
    outputs are untouched, and the lock time and the sequence keep their fixed
    high bits (so the lock time is a past timestamp and the relative lock is
    disabled); a larger number and any transaction without exactly one input are
    refused. *)
Theorem StateNumHint_roundtrip tx n ob :
  0 <= n -> length ob = StateHintSize ->
  match SetStateNumHint tx n ob with
  | Ok tx' => n <= maxStateHint /\ GetStateNumHint tx' ob = Ok n /\ TxOuts tx' = TxOuts tx /\
      TimelockShift <= LockTime tx' < TimelockShift + 2 ^ 24 /\
      exists i i', TxIns tx = [i] /\ TxIns tx' = [i'] /\
        PreviousOutPoint i' = PreviousOutPoint i /\
        SequenceLockTimeDisabled <= Sequence i' < SequenceLockTimeDisabled + 2 ^ 24
  | Err e => (maxStateHint < n /\ e = ErrStateHintTooBig) \/
             (length (TxIns tx) <> 1%nat /\ e = ErrNotOneInput)
  | Panic => False
  end.
Proof.
  intros Hn Hob. unfold SetStateNumHint. case_bool_decide as Hm; [left; split; [lia|done]|].
  destruct (TxIns tx) as [|i [|]] eqn:Ein; [by right| |by right].
  pose proof (obfs_range ob Hob) as Ho. set (o := obfs ob) in *.
  assert (maxStateHint = 2 ^ 48 - 1) as Hmax by done.
  pose proof (lxor_range n o 48 ltac:(lia) ltac:(lia) Ho) as Hx. set (x := Z.lxor n o) in *.
  destruct (hint_halves x Hx) as [E1 E2]. rewrite E1, E2. split; [lia|].
  pose proof (Z.div_mod x (2 ^ 24) ltac:(lia)). pose proof (Z.mod_pos_bound x (2 ^ 24) ltac:(lia)).
  split.
  - unfold GetStateNumHint; cbn [TxIns Sequence LockTime]. fold o. rewrite !land_low24.
    rewrite Z.shiftl_mul_pow2 by lia.
    change SequenceLockTimeDisabled with (2 ^ 7 * 2 ^ 24). change TimelockShift with (2 ^ 5 * 2 ^ 24).
    rewrite !(Z.add_comm (_ * 2 ^ 24)), !Z.mod_add by lia. rewrite !(Z.mod_small (x / 2 ^ 24)) by lia.
    rewrite Z.mod_mod, u64_id, Z.lor_comm, lor_disjoint by (unfold in_u; lia).
    replace (x mod 2 ^ 24 + x / 2 ^ 24 * 2 ^ 24) with x by lia. unfold x.
    by rewrite Z.lxor_assoc, Z.lxor_nilpotent, Z.lxor_0_r.
  - cbn [TxOuts LockTime]. split; [done|]. split; [lia|]. eexists i, _. split_and!; try done; cbn; lia.
Qed.

Lemma StateNumHint_roundtrip_witness :
  exists tx', SetStateNumHint (mkMsgTx [mkTxIn (mkOutPoint [] 0) 0] [] 0) 42 (replicate 6 xaa) = Ok tx' /\
    GetStateNumHint tx' (replicate 6 xaa) = Ok 42.
Proof.
  pose proof (StateNumHint_roundtrip (mkMsgTx [mkTxIn (mkOutPoint [] 0) 0] [] 0) 42 (replicate 6 xaa)
    ltac:(lia) eq_refl) as H.
  destruct (SetStateNumHint _ _ _) as [tx'|e|] eqn:E; [|vm_compute in E; discriminate..].
  exists tx'. split; [reflexivity|]. apply H.
Defined.

Section capacity.
Context {SC : Scripts}.

(** The balances of a bitcoin channel whose initiator affords the fee: the fee
    comes off the initiator's side and nothing wraps. *)
Lemma commitBalances_btc cfg isOurs n commitFee our their ourA theirA :
  ChanAssetID cfg = BtcAssetId -> in_u 64 our -> in_u 64 their ->
  0 <= commitFee <= ToSatoshis (if IsInitiator cfg then our else their) ->
  exists our' their', commitBalances cfg isOurs n commitFee our their ourA theirA = (our', their') /\
    in_u 64 our' /\ in_u 64 their' /\ our' + their' + 1000 * commitFee = our + their.
Proof.
  intros HA Ho Ht Hf. unfold commitBalances. rewrite HA.
  rewrite (bool_decide_eq_false_2 (BtcAssetId > BtcAssetId)) by (unfold BtcAssetId; lia).
  pose proof (ToSatoshis_bound our Ho). pose proof (ToSatoshis_bound their Ht). unfold in_u in *.
  assert (0 <= commitFee <= MaxMilliSatoshi / 1000) as Hr.
  { change (MaxMilliSatoshi / 1000) with 18446744073709551. destruct (IsInitiator cfg); lia. }
  rewrite (NewMSat_exact commitFee Hr).
  destruct (IsInitiator cfg); rewrite bool_decide_eq_false_2 by lia;
    rewrite u64_id by (unfold in_u; lia); eexists _, _; split; try done; lia.
Qed.

(** The tail of the construction of a bitcoin transaction: the hint and the sort
    keep the outputs, no payload is added, and the capacity check passes. *)
Lemma finish_btc cfg st cltvs value height commitFee :
  building st cltvs BtcAssetId value -> value + commitFee <= BtcCapacity cfg -> 0 <= commitFee ->
  BtcCapacity cfg < 2 ^ 63 ->
  (exists e, SetStateNumHint st.1 height (obfuscator cfg) = Err e /\ e <> ErrAboveCapacity) \/
  exists tx tx' cltvs', SetStateNumHint st.1 height (obfuscator cfg) = Ok tx /\
    CommitSort.InPlaceCommitSort tx cltvs = Ok (tx', cltvs') /\
    AddOpReturnToTx tx' st.2 = Ok tx' /\ valueOf (TxOuts tx') <= value /\
    i64 (totalOut tx' + commitFee) <= BtcCapacity cfg.
Proof.
  intros [(i & Hi) Hlen Has Hnn Hval] Hc Hf Hc63. unfold SetStateNumHint. rewrite Hi.
  case_bool_decide; [left; by eexists|right]. eexists _, _, _. split; [done|].
  unfold CommitSort.InPlaceCommitSort. cbn [TxOuts TxIns LockTime].
  rewrite bool_decide_eq_false_2 by lia. split; [done|].
  unfold AddOpReturnToTx. rewrite Has, bool_decide_eq_true_2 by done. split; [done|].
  set (tx := mkMsgTx _ _ _).
  assert (TxOuts tx ≡ₚ TxOuts st.1) as HP.
  { cbn [tx TxOuts]. rewrite merge_sort_Permutation. by rewrite fst_zip by lia. }
  assert (0 <= valueOf (TxOuts tx) <= value) as Hv.
  { rewrite HP. split; [by apply valueOf_nonneg|done]. }
  split; [lia|]. rewrite totalOut_exact; [|by rewrite HP|lia]. rewrite i64_id; [lia|unfold in_i64; lia].
Qed.


End capacity.

(** A concrete set of templates, and a channel of 100,000 satoshis with one HTLC
    of 5,000 satoshis, opened by us. *)
Definition example_scripts : Scripts :=
  {| keyRing := unit;
     CommitScriptToSelf := fun _ _ _ _ _ => Some [x51];
     genHtlcScript := fun _ incoming _ _ _ _ => Some (if incoming then [x52] else [x53]);
     CheckTransactionSanity := fun tx => bool_decide (TxOuts tx <> []) |}.

Definition example_constraints : ChannelConstraints := mkConstraints 573 1000 100000000 1000 483 144.

Definition example_cfg : ChanCfg :=
  {| ChanType := 2; ChanAssetID := 0; IsInitiator := true; BtcCapacity := 100000;
     LocalChanCfg := example_constraints; RemoteChanCfg := example_constraints;
     LocalShutdownScript := [x54]; RemoteShutdownScript := [x55]; ThawHeight := 0;
     FundingOutpoint := mkOutPoint (replicate 32 x07) 0; obfuscator := replicate 6 xaa |}.

Definition example_htlc : PaymentDescriptor :=
  {| RHash := replicate 32 x00; RPreimage := replicate 32 x00; Timeout := 500;
     BtcAmount := 5000000; AssetAmount := 0; UpdateLog.AssetID := 0; LogIndex := 0; HtlcIndex := 0;
     ParentIndex := 0; SourceRef := None; DestRef := None; OpenCircuitKey := None;
     ClosedCircuitKey := None; OnionBlob := []; ShaOnionBlob := replicate 32 x00;
     FailReason := []; FailCode := 0; EntryType := Add; heights := noHeights;
     output := noOutput; isForwarded := false |}.

