(* ===== verification/Signature.v ===== *)
(** * lnwire/signature.go: signatures on the wire

    A signature is 64 bytes on the wire, two numbers of 32 bytes, and a DER encoding
    elsewhere.  The lengths inside the encoding are Go [uint8]s, as are the indexes
    computed from them. *)

From Stdlib Require Import ZArith Lia.
From S2P Require Import Prelude Wire.

Local Open Scope Z_scope.
Local Open Scope go_scope.

Inductive sig_err : Type := ErrEmptySignature | ErrSOverLong | ErrROverLong.

(** [copy(dst[off:], src)]: as many bytes as fit. *)
Definition copy_at (dst : list byte) (off : nat) (src : list byte) : list byte :=
  let n := Nat.min (length dst - off) (length src) in
  take off dst ++ take n src ++ drop (off + n) dst.

(** The canonical padding of a big-endian integer. *)
Fixpoint extractCanonicalPadding (b : list byte) : list byte :=
  match b with
  | [] => [x00]
  | x :: b' =>
      if bool_decide (0 < byte_Z x) then
        if bool_decide (Z.land (byte_Z x) 0x80 = 0x80) then x00 :: b else b
      else extractCanonicalPadding b'
  end.

(** The encoding takes at most 6 + 33 + 33 bytes, so every index is in range. *)
Definition ToSignatureBytes (b : list byte) : list byte :=
  let r := extractCanonicalPadding (take 32 b) in
  let s := extractCanonicalPadding (drop 32 b) in
  let rLen := u8 (Z.of_nat (length r)) in
  let sLen := u8 (Z.of_nat (length s)) in
  let sigBytes := replicate (Z.to_nat (u8 (6 + rLen + sLen))) x00 in
  let sigBytes := <[0%nat := x30]> sigBytes in
  let sigBytes := <[1%nat := byte_of_Z (u8 (4 + rLen + sLen))]> sigBytes in
  let sigBytes := <[2%nat := x02]> sigBytes in
  let sigBytes := <[3%nat := byte_of_Z rLen]> sigBytes in
  let sigBytes := <[Z.to_nat (u8 (rLen + 4)) := x02]> sigBytes in
  let sigBytes := <[Z.to_nat (u8 (rLen + 5)) := byte_of_Z sLen]> sigBytes in
  let sigBytes := copy_at sigBytes 4 r in
  copy_at sigBytes (Z.to_nat (u8 (rLen + 6))) s.

(** Reading a byte or a suffix out of range panics. *)
Definition byte_at (sig : list byte) (i : Z) : outcome sig_err Z :=
  match sig !! Z.to_nat i with Some b => Ok (byte_Z b) | None => Panic end.
Definition slice (sig : list byte) (low high : Z) : outcome sig_err (list byte) :=
  if bool_decide (low <= high <= Z.of_nat (length sig))
  then Ok (take (Z.to_nat (high - low)) (drop (Z.to_nat low) sig)) else Panic.

(** S goes to the second half of the buffer, right-aligned, without the byte that
    pads it to 33. *)
Definition placeS (sig b : list byte) (rLen sLen : Z) : outcome sig_err (list byte) :=
  if bool_decide (32 < sLen) then
    pad <~ (if bool_decide (33 < sLen) then Ok 1 else byte_at sig (u8 (6 + rLen))) ;
    if bool_decide (pad <> 0) then Err ErrSOverLong
    else
      src <~ slice sig (u8 (7 + rLen)) (Z.of_nat (length sig)) ;
      Ok (copy_at b (Z.to_nat (u8 (64 - u8 (sLen - 1)))) src)
  else
    src <~ slice sig (u8 (6 + rLen)) (Z.of_nat (length sig)) ;
    Ok (copy_at b (Z.to_nat (u8 (64 - sLen))) src).

(** R goes to the first half. *)
Definition placeR (sig b : list byte) (rLen : Z) : outcome sig_err (list byte) :=
  if bool_decide (32 < rLen) then
    pad <~ (if bool_decide (33 < rLen) then Ok 1 else byte_at sig 4) ;
    if bool_decide (pad <> 0) then Err ErrROverLong
    else
      src <~ slice sig 5 (u8 (5 + u8 (rLen - 1))) ;
      Ok (copy_at b (Z.to_nat (u8 (32 - u8 (rLen - 1)))) src)
  else
    src <~ slice sig 4 (u8 (4 + rLen)) ;
    Ok (copy_at b (Z.to_nat (u8 (32 - rLen))) src).

Definition NewSigFromRawSignature (sig : list byte) : outcome sig_err (list byte) :=
  if bool_decide (length sig = 0%nat) then Err ErrEmptySignature
  else
    rLen <~ byte_at sig 3 ;
    sLen <~ byte_at sig (u8 (5 + rLen)) ;
    b <~ placeS sig (replicate 64 x00) rLen sLen ;
    placeR sig b rLen.

(** ** What the encoding is *)

(** A canonical positive integer of at most 256 bits: no leading zero but the one
    that keeps the sign bit clear. *)
Definition canonical (r : list byte) : Prop :=
  match r with
  | [] => False
  | [x] => byte_Z x < 128
  | x :: y :: r => (0 < byte_Z x < 128 /\ (length (x :: y :: r) <= 32)%nat) \/
                   (x = x00 /\ 128 <= byte_Z y /\ (length (x :: y :: r) <= 33)%nat)
  end.

Definition der (r s : list byte) : list byte :=
  [x30; byte_of_Z (4 + Z.of_nat (length r) + Z.of_nat (length s)); x02; byte_of_Z (Z.of_nat (length r))] ++ r ++
  [x02; byte_of_Z (Z.of_nat (length s))] ++ s.

(** The 32 bytes of a canonical integer. *)
Definition fixed (r : list byte) : list byte :=
  replicate (32 - length r) x00 ++ drop (length r - 32) r.

(** ** Lemmas *)

Lemma sign_bit x : Z.land (byte_Z x) 0x80 = 0x80 <-> 128 <= byte_Z x.
Proof. destruct x; vm_compute; split; congruence. Qed.

Lemma copy_at_exact a x c src off :
  off = length a -> length x = length src -> copy_at (a ++ x ++ c) off src = a ++ src ++ c.
Proof.
  intros -> Hl. unfold copy_at. rewrite !length_app, Nat.min_r by lia.
  rewrite take_app_length, drop_app_add', firstn_all by lia. by rewrite <- Hl, drop_app_length.
Qed.

Lemma canonical_length r : canonical r -> (1 <= length r <= 33)%nat.
Proof. destruct r as [|x [|y r]]; cbn; [done|lia|]. intros [[_ H]|(_ & _ & H)]; lia. Qed.

(** Padding to a fixed width and removing the padding are inverse. *)
Lemma padding_spec l :
  (length l <= 32)%nat ->
  let e := extractCanonicalPadding l in
  canonical e /\ (length e <= S (length l))%nat /\ (length e = S (length l) -> head e = Some x00) /\
  replicate (length l - length e) x00 ++ drop (length e - length l) e = l.
Proof.
  induction l as [|x l IH]; intros Hl; cbn [extractCanonicalPadding].
  - repeat split; cbn; lia || done.
  - cbn [length] in *. pose proof (byte_Z_range x). case_bool_decide as Hx.
    + case_bool_decide as Hs; rewrite sign_bit in Hs.
      * split; [cbn; right; repeat split; lia|]. split; [cbn; lia|]. split; [done|]. cbn [length].
        replace (S (length l) - S (S (length l)))%nat with 0%nat by lia.
        by replace (S (S (length l)) - S (length l))%nat with 1%nat by lia.
      * rewrite !Nat.sub_diag. split; [|by split_and!; cbn; lia || done].
        destruct l; cbn in *; [lia|]. left. lia.
    + assert (x = x00) as -> by (apply (inj byte_Z); cbn; lia). destruct IH as (Hc & Hle & Hh & He); [lia|].
      set (e := extractCanonicalPadding l) in *. split; [done|]. split; [lia|]. split; [lia|].
      destruct (decide (length e = S (length l))) as [Heq|Hne].
      * destruct e as [|y e]; [done|]. injection (Hh Heq) as ->. rewrite Heq.
        cbn [length] in *. injection Heq as Heq. rewrite Heq in He.
        replace (S (length l) - length l)%nat with 1%nat in He by lia.
        replace (length l - S (length l))%nat with 0%nat in He by lia. rewrite !Nat.sub_diag. cbn in *.
        by rewrite drop_0 in He; subst l.
      * replace (S (length l) - length e)%nat with (S (length l - length e)) by lia. cbn.
        replace (length e - S (length l))%nat with 0%nat by lia. replace (length e - length l)%nat with 0%nat in He by lia.
        by rewrite He.
Qed.

Lemma padding_fixed l :
  length l = 32%nat -> canonical (extractCanonicalPadding l) /\ fixed (extractCanonicalPadding l) = l.
Proof. intros Hl. destruct (padding_spec l) as (? & ? & ? & H); [lia|]. rewrite Hl in H. by split. Qed.

Lemma padding_zeros n l : extractCanonicalPadding (replicate n x00 ++ l) = extractCanonicalPadding l.
Proof. induction n; cbn; [done|]. by rewrite bool_decide_eq_false_2 by (cbn; lia). Qed.

Lemma fixed_padding r : canonical r -> extractCanonicalPadding (fixed r) = r.
Proof.
  intros Hr. unfold fixed. rewrite padding_zeros. destruct r as [|x [|y r]]; [done| |].
  - cbn in *. case_bool_decide as Hx; [rewrite bool_decide_eq_false_2; [done|]; rewrite sign_bit; lia|].
    f_equal. apply (inj byte_Z). pose proof (byte_Z_range x). cbn in *. lia.
  - destruct Hr as [[Hx Hl]|(-> & Hy & Hl)].
    + replace (length (x :: y :: r) - 32)%nat with 0%nat by lia. cbn [drop extractCanonicalPadding].
      rewrite bool_decide_eq_true_2 by lia. by rewrite bool_decide_eq_false_2 by (rewrite sign_bit; lia).
    + destruct (decide (length (x00 :: y :: r) = 33)%nat) as [H33|].
      * rewrite H33. cbn [drop Nat.sub extractCanonicalPadding]. rewrite !bool_decide_eq_true_2; [done|by apply sign_bit|lia].
      * replace (length (x00 :: y :: r) - 32)%nat with 0%nat by lia. cbn [drop extractCanonicalPadding].
        rewrite bool_decide_eq_false_2 by (cbn; lia). rewrite !bool_decide_eq_true_2; [done|by apply sign_bit|lia].
Qed.

Lemma fixed_length r : canonical r -> length (fixed r) = 32%nat.
Proof.
  intros Hr%canonical_length. unfold fixed. rewrite length_app, length_replicate, length_drop. lia.
Qed.

Lemma ToSignatureBytes_der b :
  length b = 64%nat ->
  ToSignatureBytes b = der (extractCanonicalPadding (take 32 b)) (extractCanonicalPadding (drop 32 b)).
Proof.
  intros Hb. unfold ToSignatureBytes. set (r := extractCanonicalPadding (take 32 b)). set (s := extractCanonicalPadding (drop 32 b)).
  assert (Hr : (1 <= length r <= 33)%nat) by (apply canonical_length, padding_fixed; rewrite length_take; lia).
  assert (Hs : (1 <= length s <= 33)%nat) by (apply canonical_length, padding_fixed; rewrite length_drop; lia).
  unfold u8. rewrite !(Z.mod_small) by (rewrite ?Z.mod_small; lia). rewrite !Z2Nat.inj_add, !Nat2Z.id by lia.
  change (Z.to_nat 6) with 6%nat. change (Z.to_nat 5) with 5%nat. change (Z.to_nat 4) with 4%nat.
  replace (replicate (6 + length r + length s) x00)
    with (replicate 4 x00 ++ replicate (length r) x00 ++ replicate 2 x00 ++ replicate (length s) x00)
    by (rewrite <- !replicate_add; f_equal; lia).
  cbn [replicate app]. cbn [insert list_insert]. unfold der.
  set (h := [x30; _; x02; _]).
  match goal with |- context [copy_at ?l 4 r] =>
    replace l with (h ++ replicate (length r) x00 ++ [x02; byte_of_Z (Z.of_nat (length s))] ++ replicate (length s) x00) end.
  - rewrite copy_at_exact by (done || by rewrite length_replicate).
    rewrite (app_assoc h r), (app_assoc (h ++ r)), <- (app_nil_r (replicate _ _)).
    rewrite copy_at_exact by (rewrite ?length_replicate, ?length_app; cbn; lia || done). by rewrite app_nil_r, <- !app_assoc.
  - change (x30 :: ?a :: x02 :: ?b :: ?l) with (h ++ l). rewrite !app_assoc.
    assert (length (h ++ replicate (length r) x00) = (length r + 4)%nat) by (rewrite length_app, length_replicate; cbn; lia).
    rewrite !insert_app_r_alt by lia.
    replace (length r + 4 - _)%nat with 0%nat by lia. replace (length r + 5 - _)%nat with 1%nat by lia.
    by rewrite <- !app_assoc.
Qed.

Lemma byte_at_app (a b : list byte) x i :
  Z.to_nat i = length a -> byte_at (a ++ x :: b) i = Ok (byte_Z x).
Proof. intros Hi. unfold byte_at. by rewrite Hi, list_lookup_middle. Qed.

Lemma slice_suffix (a b : list byte) low :
  low = Z.of_nat (length a) -> slice (a ++ b) low (Z.of_nat (length (a ++ b))) = Ok b.
Proof.
  intros ->. unfold slice. rewrite bool_decide_eq_true_2 by (rewrite length_app; lia).
  rewrite Nat2Z.id, drop_app_length, take_ge; [done|]. rewrite length_app. lia.
Qed.

Lemma slice_middle (a b c : list byte) low high :
  low = Z.of_nat (length a) -> high = low + Z.of_nat (length b) -> slice (a ++ b ++ c) low high = Ok b.
Proof.
  intros -> ->. unfold slice. rewrite bool_decide_eq_true_2 by (rewrite !length_app; lia).
  rewrite Nat2Z.id, drop_app_length. replace (Z.to_nat _) with (length b) by lia. by rewrite take_app_length.
Qed.

(** Placing a number in its half of the buffer. *)
Lemma copy_fixed a c r off n :
  canonical r -> n = (length a + 32)%nat -> off = (n - Nat.min 32 (length r))%nat ->
  copy_at (a ++ replicate 32 x00 ++ c) off (drop (length r - 32) r) = a ++ fixed r ++ c.
Proof.
  intros Hr%canonical_length -> ->. unfold fixed.
  replace (replicate 32 x00) with (replicate (32 - length r) x00 ++ replicate (Nat.min 32 (length r)) x00)
    by (rewrite <- replicate_add; f_equal; lia).
  rewrite <- app_assoc, (app_assoc a). rewrite copy_at_exact; [by rewrite <- !app_assoc| |].
  - rewrite length_app, length_replicate. lia.
  - rewrite length_replicate, length_drop. lia.
Qed.

Lemma canonical_33 r : canonical r -> (32 < length r)%nat -> exists r', r = x00 :: r' /\ length r' = 32%nat.
Proof.
  destruct r as [|x [|y r]]; cbn; [done|lia|]. intros [[_ Hl]|(-> & _ & Hl)] Hlt; [lia|]. exists (y :: r). cbn. split; [done|lia].
Qed.

Lemma drop_short (l : list byte) n : (length l <= n)%nat -> drop (length l - n) l = l.
Proof. intros H. by replace (length l - n)%nat with 0%nat by lia. Qed.

Lemma placeS_der p n s :
  canonical s -> Z.of_nat (length p) = 6 + n -> 0 <= n <= 33 ->
  placeS (p ++ s) (replicate 64 x00) n (Z.of_nat (length s)) = Ok (replicate 32 x00 ++ fixed s).
Proof.
  intros Hs Hp Hn. pose proof (canonical_length s Hs). unfold placeS, u8.
  assert (Hcopy : forall off, off = (64 - Nat.min 32 (length s))%nat ->
    copy_at (replicate 64 x00) off (drop (length s - 32) s) = replicate 32 x00 ++ fixed s).
  { intros off Ho. change (replicate 64 x00) with (replicate 32 x00 ++ replicate 32 x00 ++ []).
    rewrite (copy_fixed _ [] s off 64) by done. by rewrite app_nil_r. }
  case_bool_decide.
  - destruct (canonical_33 s Hs ltac:(lia)) as (s' & -> & Hl'). cbn [length] in *.
    rewrite bool_decide_eq_false_2, (Z.mod_small (6 + _)), (Z.mod_small (7 + _)) by lia.
    rewrite byte_at_app by lia. cbn [obind]. rewrite bool_decide_eq_false_2 by (cbn; lia).
    rewrite (cons_middle x00), app_assoc, slice_suffix by (rewrite !length_app; cbn; lia). cbn [obind].
    rewrite <- Hcopy with (off := 32%nat) by lia. rewrite (Z.mod_small (_ - 1)), Z.mod_small by (rewrite ?Z.mod_small; lia).
    do 2 f_equal; [lia|]. by replace (S (length s') - 32)%nat with 1%nat by lia.
  - rewrite (Z.mod_small (6 + _)), slice_suffix by lia. cbn [obind]. rewrite Z.mod_small by lia.
    rewrite <- (Hcopy (Z.to_nat (64 - Z.of_nat (length s)))) by lia. by rewrite drop_short by lia.
Qed.

Lemma placeR_der h r rest half :
  canonical r -> length h = 4%nat ->
  placeR (h ++ r ++ rest) (replicate 32 x00 ++ half) (Z.of_nat (length r)) = Ok (fixed r ++ half).
Proof.
  intros Hr Hh. pose proof (canonical_length r Hr). unfold placeR, u8.
  assert (Hcopy : forall off, off = (32 - Nat.min 32 (length r))%nat ->
    copy_at (replicate 32 x00 ++ half) off (drop (length r - 32) r) = fixed r ++ half).
  { intros off Ho. by apply (copy_fixed [] half r off 32). }
  case_bool_decide.
  - destruct (canonical_33 r Hr ltac:(lia)) as (r' & -> & Hl'). cbn [length app] in *.
    rewrite bool_decide_eq_false_2 by lia. rewrite byte_at_app by (by rewrite Hh). cbn [obind].
    rewrite bool_decide_eq_false_2 by (cbn; lia). rewrite !(Z.mod_small (_ - 1)), !Z.mod_small by (rewrite ?Z.mod_small; lia).
    rewrite (cons_middle x00), app_assoc, slice_middle by (rewrite ?length_app; cbn; lia). cbn [obind].
    rewrite <- Hcopy with (off := 0%nat) by lia. do 2 f_equal; [lia|]. by replace (S (length r') - 32)%nat with 1%nat by lia.
  - rewrite !Z.mod_small, slice_middle by lia. cbn [obind].
    rewrite <- (Hcopy (Z.to_nat (32 - Z.of_nat (length r)))) by lia. by rewrite drop_short by lia.
Qed.

Lemma NewSig_der r s : canonical r -> canonical s -> NewSigFromRawSignature (der r s) = Ok (fixed r ++ fixed s).
Proof.
  intros Hr Hs. pose proof (canonical_length r Hr). pose proof (canonical_length s Hs). unfold NewSigFromRawSignature.
  rewrite bool_decide_eq_false_2 by done.
  assert (Hlen : forall l : list byte, (length l <= 33)%nat -> byte_Z (byte_of_Z (Z.of_nat (length l))) = Z.of_nat (length l)).
  { intros l Hl. rewrite byte_Z_of_Z. unfold u8. apply Z.mod_small. lia. }
  set (h := [x30; byte_of_Z (4 + Z.of_nat (length r) + Z.of_nat (length s)); x02; byte_of_Z (Z.of_nat (length r))]).
  assert (H3 : byte_at (der r s) 3 = Ok (Z.of_nat (length r))).
  { rewrite <- (Hlen r) by lia. by apply (byte_at_app (take 3 h)). }
  assert (H5 : byte_at (der r s) (u8 (5 + Z.of_nat (length r))) = Ok (Z.of_nat (length s))).
  { rewrite <- (Hlen s) by lia. unfold u8. rewrite Z.mod_small by lia.
    replace (der r s) with ((h ++ r ++ [x02]) ++ byte_of_Z (Z.of_nat (length s)) :: s) by by rewrite <- !app_assoc.
    apply byte_at_app. rewrite !length_app. cbn. lia. }
  rewrite H3. cbn [obind]. rewrite H5. cbn [obind].
  assert (Hsuf : der r s = (h ++ r ++ [x02; byte_of_Z (Z.of_nat (length s))]) ++ s) by by rewrite <- !app_assoc.
  rewrite Hsuf, placeS_der by (done || lia || (rewrite !length_app; cbn; lia)). cbn [obind]. rewrite <- !app_assoc.
  by apply placeR_der.
Qed.

(** The wire form of a signature and its canonical DER encoding determine each
    other.  Every 64 bytes have a canonical encoding, which is read back as the same
    bytes; and every canonical encoding of two integers of at most 256 bits is read,
    and written back as it was.  The index arithmetic on bytes never overflows on
    them. *)
Theorem Sig_roundtrip b r s :
  length b = 64%nat -> canonical r -> canonical s ->
  (exists r' s', ToSignatureBytes b = der r' s' /\ canonical r' /\ canonical s') /\
  NewSigFromRawSignature (ToSignatureBytes b) = Ok b /\
  exists b', NewSigFromRawSignature (der r s) = Ok b' /\ length b' = 64%nat /\ ToSignatureBytes b' = der r s.
Proof.
  intros Hb Hr Hs. destruct (padding_fixed (take 32 b)) as [Hc1 Hf1]; [rewrite length_take; lia|].
  destruct (padding_fixed (drop 32 b)) as [Hc2 Hf2]; [rewrite length_drop; lia|]. split; [|split].
  - eexists _, _. by rewrite ToSignatureBytes_der.
  - rewrite ToSignatureBytes_der, NewSig_der, Hf1, Hf2 by done. by rewrite take_drop.
  - pose proof (fixed_length r Hr) as Hlr. pose proof (fixed_length s Hs) as Hls. exists (fixed r ++ fixed s).
    assert (length (fixed r ++ fixed s) = 64%nat) by (rewrite length_app; lia).
    rewrite NewSig_der, ToSignatureBytes_der by done. rewrite take_app_length', drop_app_length', !fixed_padding by done. done.
Qed.

(** A signature whose S has its top bit set, and the encoding of the numbers 1 and 128. *)
Lemma Sig_roundtrip_witness :
  let b := replicate 32 x01 ++ replicate 32 xff in
  length (ToSignatureBytes b) = 71%nat /\ NewSigFromRawSignature (ToSignatureBytes b) = Ok b /\
  exists b', NewSigFromRawSignature (der [x01] [x00; x80]) = Ok b' /\ ToSignatureBytes b' = der [x01] [x00; x80].
Proof.
  intros b. destruct (Sig_roundtrip b [x01] [x00; x80]) as (_ & H1 & b' & H2 & _ & H3).
  - done.
  - vm_compute. done.
  - right. split_and!; [done|vm_compute; done|cbn; lia].
  - split; [vm_compute; done|]. split; [done|]. by exists b'.
Defined.

(** A non-empty string too short to be an encoding makes the reader panic. *)
Example short_signature_panics : NewSigFromRawSignature [x30; x00] = Panic.
Proof. done. Qed.
