(* ===== verification/CoinSelect.v ===== *)
(** * lnwallet/chanfunding: coin selection

    Models the weight estimator of input/size.go and coin selection
    (lnwallet/chanfunding/coin_select.go): which coins of a wallet fund an output,
    and what is left as change after the fee.

    Amounts, sizes and weights are Go's 64-bit signed integers.  The class of a
    script, the script of an address, the size of a variable-length integer and the
    fee of a weight are functions of btcd and lnd (class [TxLib]).  The two
    selection loops have no bound in the code: here they carry fuel, and one round
    per coin, and one more, is always enough. *)

From Stdlib Require Import ZArith Lia.
From S2P Require Import Prelude Wire Amounts.

Local Open Scope Z_scope.
Local Open Scope go_scope.

(** ** Library code *)

Class TxLib := {
  Address : Type;
  isPubKeyHashTy : list byte -> bool;
  PayToAddrScript : Address -> option (list byte);
  VarIntSerializeSize : Z -> Z;
  FeeForWeight : Z -> Z -> Z;
}.

(** A longer integer does not take fewer bytes, and at most nine; a fee rate is in
    satoshis per 1000 units of weight, rounded down. *)
Class TxLibLaws {TX : TxLib} : Prop := {
  varint_size_mono a b : 0 <= a <= b -> VarIntSerializeSize a <= VarIntSerializeSize b;
  varint_size_range a : 0 <= a -> 1 <= VarIntSerializeSize a <= 9;
  FeeForWeight_spec r w : 0 <= r -> 0 <= w -> r * w < 2 ^ 63 -> FeeForWeight r w = r * w / 1000;
}.

(** ** Transaction weights (input/size.go) *)

Definition NestedP2WPKHSize : Z := 1 + P2WPKHSize.
Definition NestedP2WSHSize : Z := 1 + P2WSHSize.
Definition P2PKHSize : Z := 25.
Definition P2PKHOutputSize : Z := 8 + 1 + P2PKHSize.
Definition P2WKHOutputSize : Z := 8 + 1 + P2WPKHSize.
Definition P2WSHOutputSize : Z := 8 + 1 + P2WSHSize.
Definition P2SHSize : Z := 23.
Definition P2SHOutputSize : Z := 8 + 1 + P2SHSize.
Definition P2PKHScriptSigSize : Z := 1 + 73 + 1 + 33.
Definition P2WKHWitnessSize : Z := 1 + 1 + 73 + 1 + 33.
Definition BaseTxSize : Z := 4 + 4.

Module TxWeightEstimator.

Record t := mk {
  hasWitness : bool;
  inputCount : Z;
  outputCount : Z;
  inputSize : Z;
  inputWitnessSize : Z;
  outputSize : Z;
}.

Definition zero : t := mk false 0 0 0 0 0.

(** One more input, with a witness or without, and one more output. *)
Definition addInput (witness : bool) (size witnessSize : Z) (e : t) : t :=
  mk (hasWitness e || witness) (u32 (inputCount e + 1)) (outputCount e) (i64 (inputSize e + size))
     (i64 (inputWitnessSize e + witnessSize)) (outputSize e).
Definition addOutput (size : Z) (e : t) : t :=
  mk (hasWitness e) (inputCount e) (u32 (outputCount e + 1)) (inputSize e) (inputWitnessSize e) (i64 (outputSize e + size)).

Definition AddP2PKHInput : t -> t := addInput false (InputSize + P2PKHScriptSigSize) 1.
Definition AddWitnessInput (witnessSize : Z) : t -> t := addInput true InputSize witnessSize.
Definition AddP2WKHInput : t -> t := AddWitnessInput P2WKHWitnessSize.
Definition AddNestedP2WKHInput : t -> t := addInput true (InputSize + NestedP2WPKHSize) P2WKHWitnessSize.
Definition AddNestedP2WSHInput (witnessSize : Z) : t -> t := addInput true (InputSize + NestedP2WSHSize) witnessSize.
Definition AddP2PKHOutput : t -> t := addOutput P2PKHOutputSize.
Definition AddP2WKHOutput : t -> t := addOutput P2WKHOutputSize.
Definition AddP2WSHOutput : t -> t := addOutput P2WSHOutputSize.
Definition AddOpreturnSize : t -> t := addOutput 30.
Definition AddP2SHOutput : t -> t := addOutput P2SHOutputSize.

Definition Weight {TX : TxLib} (e : t) : Z :=
  let txSizeStripped := i64 (BaseTxSize + VarIntSerializeSize (inputCount e) + inputSize e +
                             VarIntSerializeSize (outputCount e) + outputSize e) in
  let weight := i64 (txSizeStripped * WitnessScaleFactor) in
  if hasWitness e then i64 (weight + WitnessHeaderSize + inputWitnessSize e) else weight.

Definition VSize {TX : TxLib} (e : t) : Z :=
  Z.quot (i64 (Weight e + WitnessScaleFactor - 1)) WitnessScaleFactor.

End TxWeightEstimator.

Section select.
Context {TX : TxLib}.

(** ** Coins *)

Record Coin := mkCoin { Value : Z; PkScript : list byte; Coin_OutPoint : list byte * Z }.

Inductive select_err : Type :=
  | ErrInsufficientFunds (amountAvailable amountSelected : Z) (address : option Address)
  | ErrBadAddress
  | ErrUnsupportedScript
  | ErrFeeTooLarge (fee totalOut : Z)
  | ErrOutputBelowDust (outputAmt fee dustLimit : Z).

(** The shortest non-empty prefix worth at least [amt]; [satSelected] and
    [selected] are what the loop has passed over. *)
Fixpoint selectLoop (address : option Address) (amt satSelected : Z) (selected coins : list Coin) :
    outcome select_err (Z * list Coin) :=
  match coins with
  | [] => Err (ErrInsufficientFunds amt satSelected address)
  | coin :: coins =>
      let satSelected := i64 (satSelected + Value coin) in
      let selected := selected ++ [coin] in
      if bool_decide (amt <= satSelected) then Ok (satSelected, selected)
      else selectLoop address amt satSelected selected coins
  end.

Definition selectInputs (amt : Z) (coins : list Coin) : outcome select_err (Z * list Coin) :=
  selectLoop None amt 0 [] coins.

(** The same over the coins of one script; the others are skipped. *)
Fixpoint selectLoopByAddress (ownerAddress : Address) (payToScript : list byte) (amt satSelected : Z)
    (coinSelected coins : list Coin) : outcome select_err (Z * list Coin) :=
  match coins with
  | [] => Err (ErrInsufficientFunds amt satSelected (Some ownerAddress))
  | coin :: coins =>
      if bool_decide (PkScript coin = payToScript) then
        let satSelected := i64 (satSelected + Value coin) in
        let coinSelected := coinSelected ++ [coin] in
        if bool_decide (amt <= satSelected) then Ok (satSelected, coinSelected)
        else selectLoopByAddress ownerAddress payToScript amt satSelected coinSelected coins
      else selectLoopByAddress ownerAddress payToScript amt satSelected coinSelected coins
  end.

Definition selectInputsByAddress (amt : Z) (ownerAddress : Address) (coins : list Coin) :
    outcome select_err (Z * list Coin) :=
  match PayToAddrScript ownerAddress with
  | None => Err ErrBadAddress
  | Some payToScript => selectLoopByAddress ownerAddress payToScript amt 0 [] coins
  end.

(** ** Fees *)

Fixpoint addInputs (e : TxWeightEstimator.t) (utxos : list Coin) : outcome select_err TxWeightEstimator.t :=
  match utxos with
  | [] => Ok e
  | utxo :: utxos =>
      if isPubKeyHashTy (PkScript utxo) then addInputs (TxWeightEstimator.AddP2PKHInput e) utxos
      else Err ErrUnsupportedScript
  end.

(** The fee without and with a change output.  The asset is not used: the output
    that carries an asset transfer is not counted. *)
Definition calculateFees (assetId : Z) (utxos : list Coin) (feeRate : Z) : outcome select_err (Z * Z) :=
  e <~ addInputs TxWeightEstimator.zero utxos ;
  let e := TxWeightEstimator.AddP2SHOutput e in
  let requiredFeeNoChange := FeeForWeight feeRate (TxWeightEstimator.Weight e) in
  let e := TxWeightEstimator.AddP2PKHOutput e in
  let requiredFeeWithChange := FeeForWeight feeRate (TxWeightEstimator.Weight e) in
  Ok (requiredFeeNoChange, requiredFeeWithChange).

(** At most a fifth of the outputs may go to fees. *)
Definition sanityCheckFee (totalOut fee : Z) : outcome select_err unit :=
  if bool_decide (Z.quot totalOut 5 < fee) then Err (ErrFeeTooLarge fee totalOut) else Ok tt.

(** ** Selection *)

(** What follows in both loops once the fee is covered: the change, and the check
    of the fee. *)
Definition finishSelect (amt dustLimit totalSat : Z) (selectedUtxos : list Coin) (requiredFeeWithChange : Z) :
    outcome select_err (list Coin * Z) :=
  let overShootAmt := i64 (totalSat - amt) in
  let changeAmt :=
    if bool_decide (requiredFeeWithChange < overShootAmt) then i64 (overShootAmt - requiredFeeWithChange) else 0 in
  let changeAmt := if bool_decide (changeAmt < dustLimit) then 0 else changeAmt in
  let totalOut := i64 (amt + changeAmt) in
  _ <~ sanityCheckFee totalOut (i64 (totalSat - totalOut)) ;
  Ok (selectedUtxos, changeAmt).

(** Select for the amount; when what is left does not pay the fee, select again
    for the amount and that fee.  [None] is a loop that has not returned yet. *)
Fixpoint coinSelectLoop (select : Z -> outcome select_err (Z * list Coin)) (fuel : nat)
    (assetId feeRate amt dustLimit amtNeeded : Z) : option (outcome select_err (list Coin * Z)) :=
  match fuel with
  | O => None
  | S fuel =>
      match select amtNeeded with
      | Err e => Some (Err e)
      | Panic => Some Panic
      | Ok (totalSat, selectedUtxos) =>
          match calculateFees assetId selectedUtxos feeRate with
          | Err e => Some (Err e)
          | Panic => Some Panic
          | Ok (requiredFeeNoChange, requiredFeeWithChange) =>
              if bool_decide (i64 (totalSat - amt) < requiredFeeNoChange)
              then coinSelectLoop select fuel assetId feeRate amt dustLimit (i64 (amt + requiredFeeNoChange))
              else Some (finishSelect amt dustLimit totalSat selectedUtxos requiredFeeWithChange)
          end
      end
  end.

Definition CoinSelect (fuel : nat) (assetId feeRate amt dustLimit : Z) (coins : list Coin) :
    option (outcome select_err (list Coin * Z)) :=
  coinSelectLoop (fun needed => selectInputs needed coins) fuel assetId feeRate amt dustLimit amt.

Definition CoinSelectByAddress (fuel : nat) (assetId feeRate amt dustLimit : Z) (fromAddress : Address)
    (coins : list Coin) : option (outcome select_err (list Coin * Z)) :=
  coinSelectLoop (fun needed => selectInputsByAddress needed fromAddress coins) fuel assetId feeRate amt dustLimit amt.

(** The coins, the output and the change, when the fee is taken out of [amt]. *)
Definition CoinSelectSubtractFees (assetId feeRate amt dustLimit : Z) (coins : list Coin) :
    outcome select_err (list Coin * Z * Z) :=
  s <~ selectInputs amt coins ;
  let (totalSat, selectedUtxos) := s in
  fees <~ calculateFees assetId selectedUtxos feeRate ;
  let (requiredFeeNoChange, requiredFeeWithChange) := fees in
  let outputAmt := i64 (totalSat - requiredFeeNoChange) in
  if bool_decide (outputAmt < dustLimit) then Err (ErrOutputBelowDust outputAmt requiredFeeNoChange dustLimit)
  else
    let newOutput := i64 (amt - requiredFeeWithChange) in
    let newChange := i64 (totalSat - amt) in
    let (outputAmt, changeAmt) :=
      if bool_decide (dustLimit <= newChange) && bool_decide (dustLimit <= newOutput)
      then (newOutput, newChange) else (outputAmt, 0) in
    let totalOut := i64 (outputAmt + changeAmt) in
    _ <~ sanityCheckFee totalOut (i64 (totalSat - totalOut)) ;
    Ok (selectedUtxos, outputAmt, changeAmt).

End select.

(** ** What the wallet promises *)

Section spec.
Context {TX : TxLib}.

Definition worth (coins : list Coin) : Z := foldr (fun c s => Value c + s) 0 coins.

Definition supported (c : Coin) : Prop := isPubKeyHashTy (PkScript c) = true.

(** The weight of a transaction with [n] inputs, and one or two outputs. *)
Definition weightNoChange (n : Z) : Z :=
  4 * (8 + VarIntSerializeSize n + 149 * n + VarIntSerializeSize 1 + 32).
Definition weightWithChange (n : Z) : Z :=
  4 * (8 + VarIntSerializeSize n + 149 * n + VarIntSerializeSize 2 + 66).
Definition feeNoChange (rate n : Z) : Z := rate * weightNoChange n / 1000.
Definition feeWithChange (rate n : Z) : Z := rate * weightWithChange n / 1000.

(** The first [k] coins pay for the amount and for their own fee, and no shorter
    selection does. *)
Definition pays (rate amt : Z) (coins : list Coin) (k : nat) : Prop :=
  amt + feeNoChange rate (Z.of_nat k) <= worth (take k coins).
Definition shortest (rate amt : Z) (coins : list Coin) (k : nat) : Prop :=
  (0 < k <= length coins)%nat /\ pays rate amt coins k /\
  forall j, (0 < j < k)%nat -> ~ pays rate amt coins j.

(** What selecting [amt] out of [coins] may return. *)
Definition selection (rate amt dust : Z) (coins : list Coin) (r : outcome select_err (list Coin * Z)) : Prop :=
  match r with
  | Ok (sel, change) =>
      exists k, sel = take k coins /\ Forall supported sel /\ shortest rate amt coins k /\
        let fee := worth sel - amt - change in
        (change = 0 \/ dust <= change) /\ feeNoChange rate (Z.of_nat k) <= fee <= (amt + change) / 5 /\
        (0 < change -> fee = feeWithChange rate (Z.of_nat k)) /\
        (change = 0 -> fee <= feeWithChange rate (Z.of_nat k) \/ fee < feeWithChange rate (Z.of_nat k) + dust)
  | Err (ErrInsufficientFunds _ _ _) => forall k, (0 < k <= length coins)%nat -> ~ pays rate amt coins k
  | Err ErrUnsupportedScript =>
      forall k, (0 < k <= length coins)%nat -> Forall supported (take k coins) -> ~ pays rate amt coins k
  | Err (ErrFeeTooLarge fee totalOut) =>
      totalOut / 5 < fee /\ exists k, shortest rate amt coins k /\ worth (take k coins) = totalOut + fee
  | _ => False
  end.

(** Amounts far below the width of an integer: all the bitcoins there can be are
    less than [2 ^ 51] satoshis. *)
Definition sane (rate amt dust : Z) (coins : list Coin) : Prop :=
  0 <= rate < 2 ^ 32 /\ 0 <= amt < 2 ^ 60 /\ 0 <= dust < 2 ^ 60 /\ Z.of_nat (length coins) <= 65536 /\
  Forall (fun c => 0 <= Value c) coins /\ worth coins < 2 ^ 60.

End spec.

(** ** Lemmas *)

Ltac small := rewrite ?i64_id by (unfold in_i64; lia).

Section lemmas.
Context {TX : TxLib} {TXL : TxLibLaws}.

Lemma worth_cons c l : worth (c :: l) = Value c + worth l.
Proof. done. Qed.

Lemma worth_app l1 l2 : worth (l1 ++ l2) = worth l1 + worth l2.
Proof. unfold worth. induction l1 as [|c l IH]; simpl; [done|]. rewrite IH. lia. Qed.

Lemma worth_nonneg l : Forall (fun c => 0 <= Value c) l -> 0 <= worth l.
Proof. unfold worth. induction 1; simpl; lia. Qed.

Lemma worth_take_mono l j k :
  Forall (fun c => 0 <= Value c) l -> (j <= k)%nat -> worth (take j l) <= worth (take k l).
Proof.
  intros Hl Hjk. rewrite <- (take_drop j (take k l)), take_take, Nat.min_l, worth_app by done.
  pose proof (worth_nonneg (drop j (take k l)) (Forall_drop _ _ _ (Forall_take _ _ _ Hl))). lia.
Qed.

Lemma worth_take_range l k :
  Forall (fun c => 0 <= Value c) l -> 0 <= worth (take k l) <= worth l.
Proof.
  intros Hl. split; [by apply worth_nonneg, Forall_take|].
  etrans; [apply (worth_take_mono l k (k + length l)); [done|lia]|]. by rewrite take_ge by lia.
Qed.

(** *** Weights and fees *)

Lemma addInputs_spec l e :
  0 <= TxWeightEstimator.inputCount e -> 0 <= TxWeightEstimator.inputSize e -> 0 <= TxWeightEstimator.inputWitnessSize e ->
  TxWeightEstimator.inputCount e + Z.of_nat (length l) < 2 ^ 32 ->
  TxWeightEstimator.inputSize e + 149 * Z.of_nat (length l) < 2 ^ 62 ->
  TxWeightEstimator.inputWitnessSize e + Z.of_nat (length l) < 2 ^ 62 -> Forall supported l ->
  addInputs e l = Ok (TxWeightEstimator.mk (TxWeightEstimator.hasWitness e)
    (TxWeightEstimator.inputCount e + Z.of_nat (length l)) (TxWeightEstimator.outputCount e)
    (TxWeightEstimator.inputSize e + 149 * Z.of_nat (length l))
    (TxWeightEstimator.inputWitnessSize e + Z.of_nat (length l)) (TxWeightEstimator.outputSize e)).
Proof.
  revert e. induction l as [|c l IH]; intros [w ic oc isz iw os] Hc His Hiw Hn Hs Hw Hl; cbn in *.
  - do 2 f_equal; lia.
  - apply Forall_cons in Hl as [Hc' Hl]. rewrite Hc'. rewrite IH; cbn; try done.
    all: change (InputSize + P2PKHScriptSigSize) with 149; unfold u32; rewrite ?Z.mod_small by lia; small; try lia.
    rewrite orb_false_r. do 2 f_equal; lia.
Qed.

Lemma addInputs_unsupported l e : ~ Forall supported l -> addInputs e l = Err ErrUnsupportedScript.
Proof.
  revert e. induction l as [|c l IH]; intros e Hl; cbn; [by destruct Hl|].
  destruct (isPubKeyHashTy (PkScript c)) eqn:Hc; [|done]. apply IH. intros Hf. apply Hl. by constructor.
Qed.

Lemma weightNoChange_range n : 0 <= n <= 65536 -> 0 < weightNoChange n < 2 ^ 26.
Proof.
  intros Hn. unfold weightNoChange. pose proof (varint_size_range n ltac:(lia)).
  pose proof (varint_size_range 1 ltac:(lia)). lia.
Qed.

Lemma weightWithChange_range n : 0 <= n <= 65536 -> weightNoChange n < weightWithChange n < 2 ^ 26.
Proof.
  intros Hn. unfold weightWithChange, weightNoChange. pose proof (varint_size_range n ltac:(lia)).
  pose proof (varint_size_range 2 ltac:(lia)). pose proof (varint_size_mono 1 2 ltac:(lia)). lia.
Qed.

Lemma selection_fee_range rate n :
  0 <= rate < 2 ^ 32 -> 0 <= n <= 65536 -> 0 <= feeNoChange rate n <= feeWithChange rate n /\ feeWithChange rate n < 2 ^ 58.
Proof.
  intros Hr Hn. pose proof (weightNoChange_range n Hn). pose proof (weightWithChange_range n Hn).
  unfold feeNoChange, feeWithChange. repeat split.
  - apply Z.div_pos; nia.
  - apply Z.div_le_mono; nia.
  - apply Z.div_lt_upper_bound; nia.
Qed.

Lemma feeNoChange_mono rate m n : 0 <= rate -> 0 <= m <= n -> feeNoChange rate m <= feeNoChange rate n.
Proof.
  intros Hr Hmn. unfold feeNoChange, weightNoChange. pose proof (varint_size_mono m n Hmn).
  apply Z.div_le_mono; [lia|]. apply Z.mul_le_mono_nonneg_l; lia.
Qed.

Lemma calculateFees_spec asset l rate :
  0 <= rate < 2 ^ 32 -> Z.of_nat (length l) <= 65536 -> Forall supported l ->
  calculateFees asset l rate = Ok (feeNoChange rate (Z.of_nat (length l)), feeWithChange rate (Z.of_nat (length l))).
Proof.
  intros Hr Hn Hl. unfold calculateFees. rewrite addInputs_spec by (cbn; done || lia). cbn [obind].
  pose proof (weightNoChange_range (Z.of_nat (length l)) ltac:(lia)).
  pose proof (weightWithChange_range (Z.of_nat (length l)) ltac:(lia)).
  pose proof (varint_size_range (Z.of_nat (length l)) ltac:(lia)).
  pose proof (varint_size_range 1 ltac:(lia)). pose proof (varint_size_range 2 ltac:(lia)).
  unfold TxWeightEstimator.Weight. cbn. change (u32 (0 + 1)) with 1. change (u32 (1 + 1)) with 2.
  rewrite !Z.add_0_l.
  unfold P2SHOutputSize, P2PKHOutputSize, P2SHSize, P2PKHSize, BaseTxSize, WitnessScaleFactor.
  change (i64 (8 + 1 + 23)) with 32. change (i64 (32 + (8 + 1 + 25))) with 66.
  rewrite !(i64_id (_ + _)) by (unfold in_i64; lia). rewrite !(i64_id (_ * 4)) by (unfold in_i64; lia).
  match goal with |- Ok (FeeForWeight _ ?a, FeeForWeight _ ?b) = _ =>
    replace a with (weightNoChange (Z.of_nat (length l))) by (unfold weightNoChange; lia);
    replace b with (weightWithChange (Z.of_nat (length l))) by (unfold weightWithChange; lia) end.
  by rewrite !FeeForWeight_spec by nia.
Qed.

Lemma calculateFees_unsupported asset l rate :
  ~ Forall supported l -> calculateFees asset l rate = Err ErrUnsupportedScript.
Proof. intros Hl. unfold calculateFees. by rewrite addInputs_unsupported. Qed.

End lemmas.

(** *** Selecting inputs *)

(** A selection function over the coins of a list: the shortest non-empty prefix
    worth the amount. *)
Definition selects {TX : TxLib} (coins : list Coin) (select : Z -> outcome select_err (Z * list Coin)) : Prop :=
  forall need, (exists k, select need = Ok (worth (take k coins), take k coins) /\ (0 < k <= length coins)%nat /\
                  need <= worth (take k coins) /\ forall j, (0 < j < k)%nat -> worth (take j coins) < need) \/
               (exists a s adr, select need = Err (ErrInsufficientFunds a s adr)) /\
                 forall j, (0 < j <= length coins)%nat -> worth (take j coins) < need.

Section selecting.
Context {TX : TxLib} {TXL : TxLibLaws}.

Lemma selectLoop_spec adr need pre l :
  Forall (fun c => 0 <= Value c) (pre ++ l) -> worth (pre ++ l) < 2 ^ 60 ->
  (exists k, selectLoop adr need (worth pre) pre l = Ok (worth (pre ++ take k l), pre ++ take k l) /\ (0 < k <= length l)%nat /\
     need <= worth (pre ++ take k l) /\ forall j, (0 < j < k)%nat -> worth (pre ++ take j l) < need) \/
  (exists a s, selectLoop adr need (worth pre) pre l = Err (ErrInsufficientFunds a s adr)) /\
     forall j, (0 < j <= length l)%nat -> worth (pre ++ take j l) < need.
Proof.
  revert pre. induction l as [|c l IH]; intros pre Hnn Hw; cbn [selectLoop].
  - right. split; [eauto|]. cbn. lia.
  - assert (Hp : worth (pre ++ [c]) = worth pre + Value c) by (rewrite worth_app; cbn; lia).
    assert (Hcons : forall j, pre ++ take (S j) (c :: l) = (pre ++ [c]) ++ take j l) by (intros; by rewrite <- app_assoc).
    assert (Hpl : pre ++ c :: l = (pre ++ [c]) ++ l) by by rewrite <- app_assoc.
    rewrite Hpl in Hnn, Hw. pose proof (worth_nonneg _ Hnn). rewrite worth_app in Hw.
    apply Forall_app in Hnn as Hnn'. destruct Hnn' as [Hn1 Hn2]. pose proof (worth_nonneg _ Hn1). pose proof (worth_nonneg _ Hn2).
    rewrite i64_id, <- Hp by (unfold in_i64; lia). case_bool_decide as Hle.
    + left. exists 1%nat. rewrite Hcons, take_0, app_nil_r. cbn [length]. repeat split; [lia|lia|done|lia].
    + destruct (IH (pre ++ [c])) as [(k & -> & Hk & Hn & Hj)|[He Hj]]; [done|by rewrite worth_app| |].
      * left. exists (S k). rewrite Hcons. cbn [length]. repeat split; [lia|lia|done|].
        intros [|j] Hjk; [lia|]. rewrite Hcons. destruct j as [|j]; [rewrite take_0, app_nil_r; lia|]. apply Hj. lia.
      * right. split; [done|]. cbn [length]. intros [|j] Hjk; [lia|]. rewrite Hcons.
        destruct j as [|j]; [rewrite take_0, app_nil_r; lia|]. apply Hj. lia.
Qed.

Lemma selectInputs_selects coins :
  Forall (fun c => 0 <= Value c) coins -> worth coins < 2 ^ 60 -> selects coins (fun need => selectInputs need coins).
Proof.
  intros Hnn Hw need. destruct (selectLoop_spec None need [] coins Hnn Hw) as [H|[(a & s & H) Hj]]; [by left|].
  right. split; [by exists a, s, None|done].
Qed.

(** Selecting by address is selecting among the coins of its script. *)
Lemma selectByAddress_filter adr script need sat sel l :
  selectLoopByAddress adr script need sat sel l =
  selectLoop (Some adr) need sat sel (filter (fun c => PkScript c = script) l).
Proof.
  revert sat sel. induction l as [|c l IH]; intros sat sel; cbn [selectLoopByAddress]; [done|].
  rewrite filter_cons. case_bool_decide as Hs; [rewrite decide_True by done; cbn|rewrite decide_False by done; apply IH].
  case_bool_decide; [done|apply IH].
Qed.

Lemma worth_filter (P : Coin -> Prop) `{!forall c, Decision (P c)} l :
  Forall (fun c => 0 <= Value c) l -> worth (filter P l) <= worth l.
Proof.
  induction 1 as [|c l Hc Hl IH]; [done|]. rewrite filter_cons. destruct (decide (P c)); rewrite !worth_cons; lia.
Qed.

Lemma selectByAddress_selects adr script coins :
  PayToAddrScript adr = Some script -> Forall (fun c => 0 <= Value c) coins -> worth coins < 2 ^ 60 ->
  selects (filter (fun c => PkScript c = script) coins) (fun need => selectInputsByAddress need adr coins).
Proof.
  intros Ha Hnn Hw need. unfold selectInputsByAddress. rewrite Ha, selectByAddress_filter.
  set (l := filter _ coins). assert (worth l < 2 ^ 60) by (eapply Z.le_lt_trans; [by apply worth_filter|done]).
  assert (Forall (fun c => 0 <= Value c) l) by (apply Forall_forall; intros c [_ Hc]%list_elem_of_filter; by eapply Forall_forall in Hnn).
  destruct (selectLoop_spec (Some adr) need [] l) as [?|[(a & s & ?) Hj]]; [done|done|by left|].
  right. split; [by exists a, s, (Some adr)|done].
Qed.

(** *** The loop *)

Lemma finishSelect_ok rate amt dust coins k :
  sane rate amt dust coins -> shortest rate amt coins k -> Forall supported (take k coins) ->
  selection rate amt dust coins
    (finishSelect amt dust (worth (take k coins)) (take k coins) (feeWithChange rate (Z.of_nat k))).
Proof.
  intros (Hr & Ha & Hd & Hl & Hnn & Hw) Hk Hs. pose proof Hk as (Hk1 & Hp & _). unfold pays in Hp.
  pose proof (worth_take_range coins k Hnn). pose proof (selection_fee_range rate (Z.of_nat k) Hr ltac:(lia)).
  unfold finishSelect, sanityCheckFee. rewrite (i64_id (worth (take k coins) - amt)) by (unfold in_i64; lia).
  set (change := if bool_decide (_ < dust) then 0 else _).
  assert (Hc : (change = 0 /\ worth (take k coins) - amt <= feeWithChange rate (Z.of_nat k) \/
                change = 0 /\ worth (take k coins) - amt < feeWithChange rate (Z.of_nat k) + dust) \/
               (0 <= change /\ dust <= change /\ change = worth (take k coins) - amt - feeWithChange rate (Z.of_nat k))).
  { subst change. set (o := worth _ - amt) in *. destruct (bool_decide_reflect (feeWithChange rate (Z.of_nat k) < o)); small;
      case_bool_decide; lia. }
  clearbody change. rewrite (i64_id (amt + change)) by (unfold in_i64; lia). small. rewrite Z.quot_div_nonneg by lia. case_bool_decide; cbn.
  - split; [done|]. exists k. split; [done|lia].
  - exists k. split_and!; [done|done|done|lia|lia|lia|lia|lia].
Qed.

Lemma coinSelectLoop_spec select asset rate amt dust coins fuel m need :
  sane rate amt dust coins -> selects coins select ->
  (length coins < fuel + m)%nat -> (m <= length coins)%nat -> (forall j, (0 < j <= m)%nat -> worth (take j coins) < need) ->
  (forall j, (0 < j <= length coins)%nat -> worth (take j coins) < need -> ~ pays rate amt coins j) ->
  exists r, coinSelectLoop select fuel asset rate amt dust need = Some r /\ selection rate amt dust coins r.
Proof.
  intros Hsane Hsel. pose proof Hsane as (Hr & Ha & Hd & Hl & Hnn & Hw). revert m need.
  induction fuel as [|fuel IH]; intros m need Hf Hm Hlow Hnp; [lia|]. cbn [coinSelectLoop].
  destruct (Hsel need) as [(k & -> & Hk & Hneed & Hj)|[(a & s & adr & ->) Hj]].
  2: { eexists. split; [done|]. intros k Hk. by apply Hnp, Hj. }
  assert (Hlen : length (take k coins) = k) by (rewrite length_take; lia).
  assert (Hshort : forall j, (0 < j < k)%nat -> ~ pays rate amt coins j) by (intros j Hjk; apply Hnp; [lia|by apply Hj]).
  destruct (decide (Forall (fun c => isPubKeyHashTy (PkScript c) = true) (take k coins))) as [Hs|Hs].
  2: { rewrite calculateFees_unsupported by done. eexists. split; [done|]. intros i Hi Hsi.
       destruct (decide (i < k)%nat); [apply Hshort; lia|]. destruct Hs. 
       rewrite <- (Nat.min_l k i), <- take_take by lia. by apply Forall_take. }
  rewrite calculateFees_spec, Hlen by (done || lia). pose proof (worth_take_range coins k Hnn).
  pose proof (selection_fee_range rate (Z.of_nat k) Hr ltac:(lia)). small. case_bool_decide as Hfee.
  - assert (m < k)%nat by (destruct (decide (m < k)%nat); [done|]; specialize (Hlow k); lia).
    apply (IH k); [lia|lia|intros j Hjk; pose proof (worth_take_mono coins j k Hnn ltac:(lia)); lia|].
    intros j Hjl Hjw. destruct (decide (j < k)%nat); [apply Hshort; lia|]. unfold pays.
    pose proof (feeNoChange_mono rate (Z.of_nat k) (Z.of_nat j) ltac:(lia) ltac:(lia)). lia.
  - eexists. split; [done|]. apply finishSelect_ok; [done| |done]. split; [done|]. split; [unfold pays; lia|done].
Qed.

(** A loop that has returned returns the same with more fuel. *)
Lemma coinSelectLoop_more select f1 f2 asset rate amt dust need r :
  coinSelectLoop select f1 asset rate amt dust need = Some r -> (f1 <= f2)%nat ->
  coinSelectLoop select f2 asset rate amt dust need = Some r.
Proof.
  revert f2 need. induction f1 as [|f1 IH]; intros [|f2] need; cbn; [done|done|lia|].
  destruct (select need) as [[t sel]| |]; [|done..]. destruct (calculateFees _ _ _) as [[f0 fc]| |]; [|done..].
  case_bool_decide; [intros; apply IH; [done|lia]|done].
Qed.

Lemma coinSelectLoop_total select asset rate amt dust coins :
  sane rate amt dust coins -> selects coins select ->
  exists r, (forall fuel, (length coins < fuel)%nat -> coinSelectLoop select fuel asset rate amt dust amt = Some r) /\
    selection rate amt dust coins r.
Proof.
  intros Hsane Hsel. pose proof Hsane as (Hr & Ha & Hd & Hl & Hnn & Hw).
  assert (Hrun : forall fuel, (length coins < fuel)%nat -> exists r,
    coinSelectLoop select fuel asset rate amt dust amt = Some r /\ selection rate amt dust coins r).
  { intros fuel Hf. apply (coinSelectLoop_spec _ _ _ _ _ _ _ 0); [done|done|lia|lia|lia|]. intros j Hj Hlt Hp.
    unfold pays in Hp. pose proof (selection_fee_range rate (Z.of_nat j) Hr ltac:(lia)). lia. }
  destruct (Hrun (S (length coins)) ltac:(lia)) as (r & Hr1 & Hsel1). exists r. split; [|done].
  intros fuel Hf. by apply (coinSelectLoop_more select (S (length coins))).
Qed.

End selecting.

(** What selecting with the fee taken out of the amount may return. *)
Definition subtracted {TX : TxLib} (rate amt dust : Z) (coins : list Coin) (r : outcome select_err (list Coin * Z * Z)) : Prop :=
  let covers k := (0 < k <= length coins)%nat /\ amt <= worth (take k coins) /\
    forall j, (0 < j < k)%nat -> worth (take j coins) < amt in
  match r with
  | Ok (sel, out, change) =>
      exists k, sel = take k coins /\ Forall supported sel /\ covers k /\ dust <= out /\
        let fee := worth sel - out - change in
        fee <= (out + change) / 5 /\
        (change = worth sel - amt /\ dust <= change /\ out + fee = amt /\ fee = feeWithChange rate (Z.of_nat k) \/
         change = 0 /\ fee = feeNoChange rate (Z.of_nat k) /\
           (worth sel - amt < dust \/ amt - feeWithChange rate (Z.of_nat k) < dust))
  | Err (ErrInsufficientFunds _ _ _) => forall k, ~ covers k
  | Err ErrUnsupportedScript => exists k, covers k /\ ~ Forall supported (take k coins)
  | Err (ErrOutputBelowDust out fee _) =>
      out < dust /\ exists k, covers k /\ fee = feeNoChange rate (Z.of_nat k) /\ worth (take k coins) = out + fee
  | Err (ErrFeeTooLarge fee totalOut) =>
      totalOut / 5 < fee /\ exists k, covers k /\ worth (take k coins) = totalOut + fee
  | _ => False
  end.

Section theorems.
Context {TX : TxLib} {TXL : TxLibLaws}.

(** C32: coin selection always returns, and returns the best answer there is.  The
    coins are tried in order: the shortest prefix that pays for the amount and for
    the fee of spending it is selected, or the error says that no prefix does, that
    a coin on the way cannot be spent, or that more than a fifth would go to fees.
    What is selected is the amount, the fee and the change; the fee covers the
    transaction; the change is the exact rest, or none where it would be dust.
    Selecting by address does the same among the coins of that address. *)
Theorem CoinSelect_shortest asset rate amt dust coins :
  sane rate amt dust coins ->
  (exists r, (forall fuel, (length coins < fuel)%nat -> CoinSelect fuel asset rate amt dust coins = Some r) /\
     selection rate amt dust coins r) /\
  (forall adr, exists r,
     (forall fuel, (length coins < fuel)%nat -> CoinSelectByAddress fuel asset rate amt dust adr coins = Some r) /\
     match PayToAddrScript adr with
     | None => r = Err ErrBadAddress
     | Some script => selection rate amt dust (filter (fun c => PkScript c = script) coins) r
     end).
Proof.
  intros Hs. pose proof Hs as (Hr & Ha & Hd & Hl & Hnn & Hw). split.
  - apply coinSelectLoop_total; [done|]. by apply selectInputs_selects.
  - intros adr. unfold CoinSelectByAddress. destruct (PayToAddrScript adr) as [script|] eqn:Hadr.
    + assert (Hlen : (length (filter (fun c => PkScript c = script) coins) <= length coins)%nat) by apply length_filter.
      destruct (coinSelectLoop_total (fun need => selectInputsByAddress need adr coins) asset rate amt dust
        (filter (fun c => PkScript c = script) coins)) as (r & Hf & Hsel); [|by apply selectByAddress_selects|].
      { repeat split; try lia; [|eapply Z.le_lt_trans; [by apply worth_filter|done]].
        apply Forall_forall. intros c [_ Hc]%list_elem_of_filter. by eapply Forall_forall in Hnn. }
      exists r. split; [|done]. intros fuel Hfu. apply Hf. lia.
    + exists (Err ErrBadAddress). split; [|done]. intros [|fuel] Hfu; [lia|]. cbn. unfold selectInputsByAddress.
      by rewrite Hadr.
Qed.

(** With the fee taken out of the amount, the selected coins are the shortest
    prefix worth the amount, and they are split exactly into output, change and fee:
    either the output and the fee are the amount and the rest is change, or there is
    no change and the output takes everything but the fee.  No output is dust, and
    at most a fifth of the outputs goes to fees. *)
Theorem CoinSelectSubtractFees_exact asset rate amt dust coins :
  sane rate amt dust coins ->
  subtracted rate amt dust coins (CoinSelectSubtractFees asset rate amt dust coins).
Proof.
  intros (Hr & Ha & Hd & Hl & Hnn & Hw). unfold CoinSelectSubtractFees.
  destruct (selectInputs_selects coins Hnn Hw amt) as [(k & -> & Hk)|[(a & s & adr & ->) Hj]]; cbn [obind].
  2: { intros k (Hk & Hc & _). specialize (Hj k Hk). lia. }
  pose proof Hk as (Hk1 & Hk2 & _). assert (Hlen : length (take k coins) = k) by (rewrite length_take; lia).
  destruct (decide (Forall (fun c => isPubKeyHashTy (PkScript c) = true) (take k coins))) as [Hs|Hs].
  2: { rewrite calculateFees_unsupported by done. by exists k. }
  rewrite calculateFees_spec, Hlen by (done || lia). cbn [obind]. pose proof (worth_take_range coins k Hnn).
  pose proof (selection_fee_range rate (Z.of_nat k) Hr ltac:(lia)).
  small. case_bool_decide; [cbn; split; [done|]; exists k; split; [done|lia]|].
  unfold sanityCheckFee. destruct (bool_decide (dust <= worth _ - amt)) eqn:E1, (bool_decide (dust <= amt - _)) eqn:E2;
    cbn [andb]; apply bool_decide_eq_true in E1 || apply bool_decide_eq_false in E1;
    apply bool_decide_eq_true in E2 || apply bool_decide_eq_false in E2.
  all: match goal with |- context [i64 (?a + ?b)] => rewrite (i64_id (a + b)) by (unfold in_i64; lia) end; small.
  all: rewrite Z.quot_div_nonneg by lia; case_bool_decide; cbn.
  all: try (split; [done|]; exists k; split; [done|lia]).
  all: exists k; do 3 (split; [done|]); lia.
Qed.

End theorems.

(** ** A concrete wallet *)

#[local] Instance txlib_model : TxLib := {|
  Address := list byte;
  isPubKeyHashTy s := bool_decide (head s = Some x76);
  PayToAddrScript a := if bool_decide (length a = 2%nat) then Some ([x76; xa9] ++ a) else None;
  VarIntSerializeSize n := if Z.ltb n 0xfd then 1 else if Z.leb n 0xffff then 3 else if Z.leb n 0xffffffff then 5 else 9;
  FeeForWeight r w := r * w / 1000;
|}.

#[local] Instance txlib_model_laws : TxLibLaws.
Proof.
  split; cbn.
  - intros a b H. destruct (Z.ltb_spec a 0xfd), (Z.ltb_spec b 0xfd), (Z.leb_spec a 0xffff), (Z.leb_spec b 0xffff),
      (Z.leb_spec a 0xffffffff), (Z.leb_spec b 0xffffffff); lia.
  - intros a H. destruct (Z.ltb a 0xfd), (Z.leb a 0xffff), (Z.leb a 0xffffffff); lia.
  - done.
Qed.

Definition example_coins : list Coin :=
  [mkCoin 10000 [x76; xa9; x01; x02] ([], 0); mkCoin 15100 [x76; xa9; x03; x04] ([], 1);
   mkCoin 30000 [x76; xa9; x01; x02] ([], 0)].

Lemma example_sane : sane 253 25000 546 example_coins.
Proof. repeat split; try (vm_compute; done). repeat constructor; cbn; lia. Qed.

(** The first round selects two coins, which do not pay their fee: the second takes
    the third coin and leaves change.  From one address, two coins are enough. *)
Lemma CoinSelect_shortest_witness :
  CoinSelect 4 0 253 25000 546 example_coins = Some (Ok (example_coins, 29571)) /\
  selection 253 25000 546 example_coins (Ok (example_coins, 29571)) /\
  exists sel change, CoinSelectByAddress 4 0 253 25000 546 [x01; x02] example_coins = Some (Ok (sel, change)) /\
    length sel = 2%nat /\ selection 253 25000 546 (filter (fun c => PkScript c = [x76; xa9; x01; x02]) example_coins) (Ok (sel, change)).
Proof.
  split; [reflexivity|].
  destruct (CoinSelect_shortest 0 253 25000 546 example_coins example_sane) as [(r & Hf & Hs) Hadr].
  specialize (Hf 4%nat ltac:(cbn; lia)). split.
  - assert (Some r = Some (Ok (example_coins, 29571))) as [= <-] by (rewrite <- Hf; reflexivity). done.
  - destruct (Hadr [x01; x02]) as (r2 & Hf2 & Hs2). specialize (Hf2 4%nat ltac:(cbn; lia)).
    
    assert (Some r2 = Some (Ok ([mkCoin 10000 [x76; xa9; x01; x02] ([], 0); mkCoin 30000 [x76; xa9; x01; x02] ([], 0)], 14622)))
      as [= ->] by (rewrite <- Hf2; reflexivity). eexists _, _. split; [reflexivity|]. split; [done|]. exact Hs2.
Defined.

Lemma CoinSelectSubtractFees_exact_witness :
  exists sel, CoinSelectSubtractFees 0 253 25000 546 example_coins = Ok (sel, 24756, 0) /\
    subtracted 253 25000 546 example_coins (Ok (sel, 24756, 0)).
Proof.
  exists (take 2 example_coins). split; [reflexivity|].
  pose proof (CoinSelectSubtractFees_exact 0 253 25000 546 example_coins example_sane) as H.
  assert (CoinSelectSubtractFees 0 253 25000 546 example_coins = Ok (take 2 example_coins, 24756, 0)) as E
    by (reflexivity). rewrite E in H. exact H.
Defined.
