(* ===== verification/Kvdb.v ===== *)
(** * Key-value buckets

    A bucket of the key-value store is a finite map from byte strings; [ForEach]
    goes through its keys in byte order.  Shared by the components that keep
    their state on disk. *)

From Stdlib Require Import ZArith Lia.
From stdpp Require Import sorting.
From S2P Require Import Prelude CommitTx.

Section bucket.
Context {A : Type}.

Definition key_le (x y : list byte * A) : Prop := bytes_compare x.1 y.1 <> Gt.

#[global] Instance key_le_dec : RelDecision key_le.
Proof. intros x y. unfold key_le. destruct (bytes_compare x.1 y.1); [left|left|right]; congruence. Defined.

Definition ForEach (b : gmap (list byte) A) : list (list byte * A) := merge_sort key_le (map_to_list b).

Lemma ForEach_elem b k v : (k, v) ∈ ForEach b <-> b !! k = Some v.
Proof. unfold ForEach. rewrite merge_sort_Permutation. apply elem_of_map_to_list. Qed.

(** Deleting a list of keys. *)
Lemma delete_keys_lookup (ks : list (list byte)) (b : gmap (list byte) A) (h : list byte) :
  foldl (fun b k => delete k b) b ks !! h = if bool_decide (h ∈ ks) then None else b !! h.
Proof.
  revert b. induction ks as [|k ks IH]; intros b; cbn [foldl]; [done|]. rewrite IH.
  rewrite (bool_decide_ext (h ∈ k :: ks) (h = k \/ h ∈ ks)) by apply elem_of_cons.
  destruct (decide (h = k)) as [->|Hne].
  - rewrite (bool_decide_eq_true_2 (_ \/ _)) by auto. case_bool_decide; [done|by rewrite lookup_delete_eq].
  - rewrite (bool_decide_ext (h = k \/ h ∈ ks) (h ∈ ks)) by tauto. by rewrite lookup_delete_ne.
Qed.

Lemma ForEach_keys b : NoDup (ForEach b).*1.
Proof. unfold ForEach. rewrite merge_sort_Permutation. apply NoDup_fst_map_to_list. Qed.

#[local] Instance key_le_trans : Transitive key_le.
Proof.
  intros [x ?] [y ?] [z ?]. unfold key_le. simpl. intros H1 H2.
  destruct (bytes_compare x y) eqn:E1; [| |done].
  - apply CommitSort.bytes_compare_eq in E1 as ->. done.
  - destruct (bytes_compare y z) eqn:E2; [| |done].
    + apply CommitSort.bytes_compare_eq in E2 as ->. congruence.
    + rewrite (CommitSort.bytes_compare_trans _ _ _ E1 E2). done.
Qed.

#[local] Instance key_le_total : Total key_le.
Proof.
  intros [x ?] [y ?]. unfold key_le. simpl. rewrite (CommitSort.bytes_compare_antisym x y).
  destruct (bytes_compare x y); simpl; [left|left|right]; done.
Qed.

(** A bucket is iterated in the order of any list of its entries with increasing keys. *)
Lemma ForEach_increasing (l : list (list byte * A)) :
  StronglySorted (fun x y => bytes_compare x.1 y.1 = Lt) l -> ForEach (list_to_map l) = l.
Proof.
  intros Hs.
  assert (NoDup l.*1) as Hnd.
  { induction Hs as [|x l _ IH Hx]; simpl; [constructor|]. constructor; [|done].
    intros (y & He & Hin)%list_elem_of_fmap. rewrite Forall_forall in Hx. specialize (Hx y Hin).
    rewrite He, CommitSort.bytes_compare_refl in Hx. done. }
  assert (ForEach (list_to_map l) ≡ₚ l) as Hp.
  { unfold ForEach. by rewrite merge_sort_Permutation, map_to_list_to_map. }
  apply (StronglySorted_unique_strong key_le); [| |clear Hnd Hp|done].
  - intros [k1 v1] [k2 v2] H1 H2 Hle1 Hle2. unfold key_le in *. simpl in *.
    rewrite (CommitSort.bytes_compare_antisym k1 k2) in Hle2.
    assert (k1 = k2) as ->.
    { apply CommitSort.bytes_compare_eq. by destruct (bytes_compare k1 k2). }
    rewrite Hp in H1. f_equal. apply (elem_of_list_to_map l) in H1, H2; [|done..]. congruence.
  - apply StronglySorted_merge_sort; apply _.
  - induction Hs as [|x l _ IH Hx]; constructor; [done|].
    eapply Forall_impl; [exact Hx|]. intros y Hy. unfold key_le. by rewrite Hy.
Qed.

End bucket.

(** Byte strings of one length compare as the numbers they are. *)
Lemma bytes_compare_be a b : length a = length b -> bytes_compare a b = (be_get a ?= be_get b)%Z.
Proof.
  revert b. induction a as [|x a IH]; intros [|y b] Hl; try done. simpl in Hl. injection Hl as Hl.
  rewrite !be_get_cons. simpl. rewrite Hl. pose proof (be_get_range a) as Ha. pose proof (be_get_range b) as Hb.
  rewrite Hl in Ha. unfold in_u in *. set (n := (256 ^ Z.of_nat (length b))%Z) in *.
  assert (0 < n)%Z by (unfold n; lia).
  destruct (Z.compare_spec (byte_Z x) (byte_Z y)) as [->|Hlt|Hgt].
  - rewrite IH by done. symmetry. destruct (Z.compare_spec (be_get a) (be_get b)) as [->|?|?].
    + apply Z.compare_refl.
    + apply Z.compare_lt_iff. lia.
    + apply Z.compare_gt_iff. lia.
  - symmetry. apply Z.compare_lt_iff. nia.
  - symmetry. apply Z.compare_gt_iff. nia.
Qed.
