(* ===== verification/FwdPkg.v ===== *)
(** * channeldb: forwarding packages

    Models channeldb/forwarding_package.go: the bit filters of a package, and the
    store that remembers, for every channel and commitment height, which HTLCs were
    locked in, which were forwarded and which are acknowledged.  The nested buckets
    of the store are finite maps under the bytes of their keys; log updates are
    stored as the wire messages they are. *)

From Stdlib Require Import ZArith Lia.
From stdpp Require Import sorting.
From S2P Require Import Prelude Wire WireTlv WireGossip WireFrame UpdateLog CommitTx Kvdb.

Local Open Scope Z_scope.
Local Open Scope go_scope.

(** ** Filters *)

Module PkgFilter.

Record t := mk { Count : Z; Filter : list byte }.

Definition NewPkgFilter (count : Z) : t := mk count (replicate (Z.to_nat (u16 (count + 7) / 8)) x00).

(** Out of the filter's bytes the index panics. *)
Definition Set_ (f : t) (i : Z) : outcome unit t :=
  let byt := Z.to_nat (i / 8) in
  let bit := i mod 8 in
  match Filter f !! byt with
  | None => Panic
  | Some b => Ok (mk (Count f) (<[byt := byte_of_Z (Z.lor (byte_Z b) (Z.shiftl 1 (7 - bit)))]> (Filter f)))
  end.

Definition Contains (f : t) (i : Z) : outcome unit bool :=
  let byt := Z.to_nat (i / 8) in
  let bit := i mod 8 in
  match Filter f !! byt with
  | None => Panic
  | Some b => Ok (bool_decide (Z.land (byte_Z b) (Z.shiftl 1 (7 - bit)) <> 0))
  end.

Definition Equal (f f2 : t) : bool :=
  if bool_decide (Count f <> Count f2) then false else bool_decide (Filter f = Filter f2).

(** The whole bytes first, then the bits of the last one. *)
Fixpoint fullBytes (f : t) (n : nat) (i : nat) : outcome unit bool :=
  match n with
  | O => Ok true
  | S n =>
      match Filter f !! i with
      | None => Panic
      | Some b => if bool_decide (byte_Z b <> 255) then Ok false else fullBytes f n (S i)
      end
  end.

Fixpoint fullBits (f : t) (n : nat) (idx : Z) : outcome unit bool :=
  match n with
  | O => Ok true
  | S n => c <~ Contains f idx ; if c then fullBits f n (idx + 1) else Ok false
  end.

Definition IsFull (f : t) : outcome unit bool :=
  c <~ fullBytes f (Z.to_nat (Count f / 8)) 0 ;
  if c then
    let rem := Count f mod 8 in fullBits f (Z.to_nat rem) (Count f - rem)
  else Ok false.

Definition Size (f : t) : Z := u16 (2 + u16 (Count f + 7) / 8).

Definition Encode (f : t) : writer := WriteUint16 (Count f) ;;> WriteBytes (Filter f).

Definition Decode : reader t :=
  count <-- ReadUint16 ;
  filter <-- ReadFull (Z.to_nat (u16 (Size (mk count []) - 2))) ;
  rret (mk count filter).

End PkgFilter.

(** ** Packages *)

Inductive FwdState : Type := FwdStateLockedIn | FwdStateProcessed | FwdStateCompleted.

Inductive fwd_err : Type :=
  | ErrCorruptedFwdPkg
  | ErrFwdBucketNotFound
  | ErrFwdWire (e : wire_err).

Section store.
Context {BT : Btcec} {TL : Tlv} {ZL : Zlib} {TR : Tor}.

Record LogUpdate := mkUpdate { LogIndex : Z; UpdateMsg : message }.

Record FwdPkg := mkPkg {
  Pkg_Source : ShortChannelID;
  Pkg_Height : Z;
  State : FwdState;
  Adds : list LogUpdate;
  FwdFilter : PkgFilter.t;
  AckFilter : PkgFilter.t;
  SettleFails : list LogUpdate;
  SettleFailFilter : PkgFilter.t;
}.

Definition NewFwdPkg (source : ShortChannelID) (height : Z) (addUpdates settleFailUpdates : list LogUpdate) : FwdPkg :=
  let nAddUpdates := u16 (Z.of_nat (length addUpdates)) in
  let nSettleFailUpdates := u16 (Z.of_nat (length settleFailUpdates)) in
  {| Pkg_Source := source; Pkg_Height := height; State := FwdStateLockedIn; Adds := addUpdates;
     FwdFilter := PkgFilter.NewPkgFilter nAddUpdates; AckFilter := PkgFilter.NewPkgFilter nAddUpdates;
     SettleFails := settleFailUpdates; SettleFailFilter := PkgFilter.NewPkgFilter nSettleFailUpdates |}.

(** ** Log updates on disk (channeldb/channel.go, channeldb/codec.go) *)

(** The index, then the message after its length. *)
Definition serializeLogUpdate (u : LogUpdate) : writer := fun buf =>
  match WriteMessage [] (UpdateMsg u) with
  | (msgBuf, Ok _) =>
      (WriteUint64 (LogIndex u) ;;> WriteUint16 (u16 (Z.of_nat (length msgBuf))) ;;> WriteBytes msgBuf) buf
  | (_, Err e) => (buf ++ be_put 8 (LogIndex u), Err e)
  | (_, Panic) => (buf, Panic)
  end.

(** The message is read from at most as many bytes as its length says. *)
Definition deserializeLogUpdate (bs : list byte) : outcome fwd_err LogUpdate :=
  match (i <-- ReadUint64 ; n <-- ReadUint16 ; rret (i, n)) bs with
  | Err e => Err (ErrFwdWire e)
  | Panic => Panic
  | Ok ((i, n), r) =>
      match ReadMessage (take (Z.to_nat n) r) with
      | Err e => Err (ErrFwdWire e)
      | Panic => Panic
      | Ok (msg, _) => Ok (mkUpdate i msg)
      end
  end.

(** ** The store *)

(** The bucket of a height. *)
Record heightBkt := mkHeightBkt {
  addBkt : gmap (list byte) (list byte);
  failSettleBkt : gmap (list byte) (list byte);
  fwdFilterVal : option (list byte);
  ackFilterVal : option (list byte);
  settleFailFilterVal : option (list byte);
}.

(** The top-level bucket, absent until the first package. *)
Definition fwdStore : Type := option (gmap (list byte) (gmap (list byte) heightBkt)).

Definition makeLogKey (n : Z) : list byte := be_put 8 n.
Definition uint16Key (i : Z) : list byte := be_put 2 i.
Arguments makeLogKey : simpl never.
Arguments uint16Key : simpl never.

(** What a filter puts in its buffer. *)
Definition filterBytes (f : PkgFilter.t) : list byte := (PkgFilter.Encode f []).1.
Arguments filterBytes : simpl never.

Fixpoint putLogUpdates (b : gmap (list byte) (list byte)) (i : Z) (l : list LogUpdate) :
    outcome fwd_err (gmap (list byte) (list byte)) :=
  match l with
  | [] => Ok b
  | u :: l =>
      match serializeLogUpdate u [] with
      | (bs, Ok _) => putLogUpdates (<[uint16Key (u16 i) := bs]> b) (i + 1) l
      | (_, Err e) => Err (ErrFwdWire e)
      | (_, Panic) => Panic
      end
  end.

Definition AddFwdPkg (fwdPkg : FwdPkg) (s : fwdStore) : outcome fwd_err fwdStore :=
  let fwdPkgBkt := default ∅ s in
  let source := makeLogKey (ToUint64 (Pkg_Source fwdPkg)) in
  let srcBkt := default ∅ (fwdPkgBkt !! source) in
  let heightKey := makeLogKey (Pkg_Height fwdPkg) in
  let hb := default (mkHeightBkt ∅ ∅ None None None) (srcBkt !! heightKey) in
  adds <~ putLogUpdates (addBkt hb) 0 (Adds fwdPkg) ;
  fails <~ putLogUpdates (failSettleBkt hb) 0 (SettleFails fwdPkg) ;
  let hb := mkHeightBkt adds fails (fwdFilterVal hb) (Some (filterBytes (AckFilter fwdPkg)))
              (Some (filterBytes (SettleFailFilter fwdPkg))) in
  Ok (Some (<[source := <[heightKey := hb]> srcBkt]> fwdPkgBkt)).

Fixpoint loadHtlcs (l : list (list byte * list byte)) : outcome fwd_err (list LogUpdate) :=
  match l with
  | [] => Ok []
  | kv :: l =>
      htlc <~ deserializeLogUpdate kv.2 ;
      htlcs <~ loadHtlcs l ;
      Ok (htlc :: htlcs)
  end.

Definition decodeFilter (bs : list byte) : outcome fwd_err PkgFilter.t :=
  match PkgFilter.Decode bs with
  | Ok (f, _) => Ok f
  | Err e => Err (ErrFwdWire e)
  | Panic => Panic
  end.

Definition lift_panic {A} (m : outcome unit A) : outcome fwd_err A :=
  match m with Ok a => Ok a | Err _ => Panic | Panic => Panic end.

Definition loadFwdPkg (fwdPkgBkt : gmap (list byte) (gmap (list byte) heightBkt)) (source : ShortChannelID) (height : Z) :
    outcome fwd_err FwdPkg :=
  match fwdPkgBkt !! makeLogKey (ToUint64 source) with
  | None => Err ErrCorruptedFwdPkg
  | Some srcBkt =>
      match srcBkt !! makeLogKey height with
      | None => Err ErrCorruptedFwdPkg
      | Some hb =>
          adds <~ loadHtlcs (ForEach (addBkt hb)) ;
          match ackFilterVal hb with
          | None => Err ErrCorruptedFwdPkg
          | Some ackFilterBytes =>
              ackFilter <~ decodeFilter ackFilterBytes ;
              failSettles <~ loadHtlcs (ForEach (failSettleBkt hb)) ;
              match settleFailFilterVal hb with
              | None => Err ErrCorruptedFwdPkg
              | Some settleFailFilterBytes =>
                  settleFailFilter <~ decodeFilter settleFailFilterBytes ;
                  match fwdFilterVal hb with
                  | None =>
                      Ok (mkPkg source height FwdStateLockedIn adds
                            (PkgFilter.NewPkgFilter (u16 (Z.of_nat (length adds)))) ackFilter
                            failSettles settleFailFilter)
                  | Some fwdFilterBytes =>
                      fwdFilter <~ decodeFilter fwdFilterBytes ;
                      ackFull <~ lift_panic (PkgFilter.IsFull ackFilter) ;
                      if ackFull then
                        sfFull <~ lift_panic (PkgFilter.IsFull settleFailFilter) ;
                        Ok (mkPkg source height (if sfFull then FwdStateCompleted else FwdStateProcessed) adds fwdFilter
                              ackFilter failSettles settleFailFilter)
                      else
                        Ok (mkPkg source height FwdStateProcessed adds fwdFilter ackFilter failSettles settleFailFilter)
                  end
              end
          end
      end
  end.

Fixpoint loadAll (fwdPkgBkt : gmap (list byte) (gmap (list byte) heightBkt)) (source : ShortChannelID) (heights : list Z) :
    outcome fwd_err (list FwdPkg) :=
  match heights with
  | [] => Ok []
  | h :: hs =>
      fwdPkg <~ loadFwdPkg fwdPkgBkt source h ;
      fwdPkgs <~ loadAll fwdPkgBkt source hs ;
      Ok (fwdPkg :: fwdPkgs)
  end.

(** [LoadFwdPkgs] of a channel and [LoadChannelFwdPkgs] of the switch. *)
Definition loadChannelFwdPkgs (source : ShortChannelID) (s : fwdStore) : outcome fwd_err (list FwdPkg) :=
  match s with
  | None => Ok []
  | Some fwdPkgBkt =>
      match fwdPkgBkt !! makeLogKey (ToUint64 source) with
      | None => Ok []
      | Some srcBkt =>
          let keys := (ForEach srcBkt).*1 in
          if bool_decide (Forall (fun k => length k = 8%nat) keys)
          then loadAll fwdPkgBkt source (be_get <$> keys)
          else Err ErrCorruptedFwdPkg
      end
  end.

(** The bucket of a channel, for the operations that need it. *)
Definition SetFwdFilter (source : ShortChannelID) (height : Z) (fwdFilter : PkgFilter.t) (s : fwdStore) :
    outcome fwd_err fwdStore :=
  match s with
  | None => Err ErrCorruptedFwdPkg
  | Some fwdPkgBkt =>
      match fwdPkgBkt !! makeLogKey (ToUint64 source) with
      | None => Err ErrCorruptedFwdPkg
      | Some srcBkt =>
          match srcBkt !! makeLogKey height with
          | None => Err ErrCorruptedFwdPkg
          | Some hb =>
              match fwdFilterVal hb with
              | Some _ => Ok s
              | None =>
                  let hb := mkHeightBkt (addBkt hb) (failSettleBkt hb) (Some (filterBytes fwdFilter))
                              (ackFilterVal hb) (settleFailFilterVal hb) in
                  Ok (Some (<[makeLogKey (ToUint64 source) := <[makeLogKey height := hb]> srcBkt]> fwdPkgBkt))
              end
          end
      end
  end.

Fixpoint setAll (f : PkgFilter.t) (indexes : list Z) : outcome unit PkgFilter.t :=
  match indexes with
  | [] => Ok f
  | i :: indexes => f <~ PkgFilter.Set_ f i ; setAll f indexes
  end.

Definition ackAddHtlcsAtHeight (srcBkt : gmap (list byte) heightBkt) (height : Z) (indexes : list Z) :
    outcome fwd_err (gmap (list byte) heightBkt) :=
  match srcBkt !! makeLogKey height with
  | None => Ok srcBkt
  | Some hb =>
      match ackFilterVal hb with
      | None => Err ErrCorruptedFwdPkg
      | Some ackFilterBytes =>
          ackFilter <~ decodeFilter ackFilterBytes ;
          ackFilter <~ lift_panic (setAll ackFilter indexes) ;
          Ok (<[makeLogKey height := mkHeightBkt (addBkt hb) (failSettleBkt hb) (fwdFilterVal hb)
                  (Some (filterBytes ackFilter)) (settleFailFilterVal hb)]> srcBkt)
      end
  end.

(** The indexes by height. *)
Definition group_step (m : gmap Z (list Z)) (hi : Z * Z) : gmap Z (list Z) :=
  <[hi.1 := default [] (m !! hi.1) ++ [hi.2]]> m.
Definition group (refs : list (Z * Z)) : gmap Z (list Z) := foldl group_step ∅ refs.

Fixpoint ackAtHeights
    (ackAt : gmap (list byte) heightBkt -> Z -> list Z -> outcome fwd_err (gmap (list byte) heightBkt)) (srcBkt : gmap (list byte) heightBkt)
    (diffs : list (Z * list Z)) : outcome fwd_err (gmap (list byte) heightBkt) :=
  match diffs with
  | [] => Ok srcBkt
  | (height, indexes) :: ds => srcBkt <~ ackAt srcBkt height indexes ; ackAtHeights ackAt srcBkt ds
  end.

(** The heights are visited in the order of a Go map. *)
Definition AckAddHtlcs (source : ShortChannelID) (addRefs : list AddRef) (s : fwdStore) : outcome fwd_err fwdStore :=
  if bool_decide (length addRefs = 0%nat) then Ok s
  else
    match s with
    | None => Err ErrCorruptedFwdPkg
    | Some fwdPkgBkt =>
        match fwdPkgBkt !! makeLogKey (ToUint64 source) with
        | None => Err ErrCorruptedFwdPkg
        | Some srcBkt =>
            let heightDiffs := group ((fun a => (AddRef_Height a, AddRef_Index a)) <$> addRefs) in
            srcBkt <~ ackAtHeights ackAddHtlcsAtHeight srcBkt (map_to_list heightDiffs) ;
            Ok (Some (<[makeLogKey (ToUint64 source) := srcBkt]> fwdPkgBkt))
        end
    end.

Definition ackSettleFailsAtHeight (destBkt : gmap (list byte) heightBkt) (height : Z) (indexes : list Z) :
    outcome fwd_err (gmap (list byte) heightBkt) :=
  match destBkt !! makeLogKey height with
  | None => Ok destBkt
  | Some hb =>
      match settleFailFilterVal hb with
      | None => Err ErrCorruptedFwdPkg
      | Some settleFailFilterBytes =>
          settleFailFilter <~ decodeFilter settleFailFilterBytes ;
          settleFailFilter <~ lift_panic (setAll settleFailFilter indexes) ;
          Ok (<[makeLogKey height := mkHeightBkt (addBkt hb) (failSettleBkt hb) (fwdFilterVal hb)
                  (ackFilterVal hb) (Some (filterBytes settleFailFilter))]> destBkt)
      end
  end.

Fixpoint ackAtDests (fwdPkgBkt : gmap (list byte) (gmap (list byte) heightBkt))
    (refs : list SettleFailRef) (dests : list ShortChannelID) :
    outcome fwd_err (gmap (list byte) (gmap (list byte) heightBkt)) :=
  match dests with
  | [] => Ok fwdPkgBkt
  | dest :: ds =>
      match fwdPkgBkt !! makeLogKey (ToUint64 dest) with
      | None => ackAtDests fwdPkgBkt refs ds
      | Some destBkt =>
          let heights := group ((fun r => (SettleFailRef_Height r, SettleFailRef_Index r)) <$>
                                filter (fun r => SettleFailRef_Source r = dest) refs) in
          destBkt <~ ackAtHeights ackSettleFailsAtHeight destBkt (map_to_list heights) ;
          ackAtDests (<[makeLogKey (ToUint64 dest) := destBkt]> fwdPkgBkt) refs ds
      end
  end.

(** The destinations, each once, are visited in the order of a Go map. *)
Definition ackSettleFails (settleFailRefs : list SettleFailRef) (s : fwdStore) : outcome fwd_err fwdStore :=
  if bool_decide (length settleFailRefs = 0%nat) then Ok s
  else
    match s with
    | None => Err ErrCorruptedFwdPkg
    | Some fwdPkgBkt =>
        fwdPkgBkt <~ ackAtDests fwdPkgBkt settleFailRefs (remove_dups (SettleFailRef_Source <$> settleFailRefs)) ;
        Ok (Some fwdPkgBkt)
    end.

Definition RemovePkg (source : ShortChannelID) (height : Z) (s : fwdStore) : outcome fwd_err fwdStore :=
  match s with
  | None => Ok s
  | Some fwdPkgBkt =>
      match fwdPkgBkt !! makeLogKey (ToUint64 source) with
      | None => Err ErrCorruptedFwdPkg
      | Some srcBkt =>
          match srcBkt !! makeLogKey height with
          | None => Err ErrFwdBucketNotFound
          | Some _ =>
              Ok (Some (<[makeLogKey (ToUint64 source) := delete (makeLogKey height) srcBkt]> fwdPkgBkt))
          end
      end
  end.

Definition Wipe (source : ShortChannelID) (s : fwdStore) : outcome fwd_err fwdStore :=
  match s with
  | None => Ok s
  | Some fwdPkgBkt =>
      match fwdPkgBkt !! makeLogKey (ToUint64 source) with
      | None => Ok s
      | Some _ => Ok (Some (delete (makeLogKey (ToUint64 source)) fwdPkgBkt))
      end
  end.

End store.
