(* ===== verification/FwdPkgTheorems.v ===== *)
(** * channeldb: forwarding packages are tracked faithfully

    A filter is the set of the indexes put in it; a package stays as it was added,
    and its filters record exactly the acknowledgements of the operations that
    succeeded, whatever happens to other packages in between. *)

From Stdlib Require Import ZArith Lia.
From stdpp Require Import sorting.
From S2P Require Import Prelude Wire Features WireMessages WireTlv WireGossip WireModels WireFrame UpdateLog CommitTx.
From S2P Require Import Kvdb FwdPkg.

Local Open Scope Z_scope.

(** ** Filters *)

(** The bit of an index. *)
Definition has (f : PkgFilter.t) (i : Z) : bool :=
  match PkgFilter.Filter f !! Z.to_nat (i / 8) with
  | Some b => Z.testbit (byte_Z b) (7 - i mod 8)
  | None => false
  end.

(** As many bytes as the count needs; the count does not wrap when it is rounded up. *)
Definition wf_filter (f : PkgFilter.t) : Prop :=
  0 <= PkgFilter.Count f <= 65528 /\
  Z.of_nat (length (PkgFilter.Filter f)) = (PkgFilter.Count f + 7) / 8.

Definition valid (f : PkgFilter.t) (i : Z) : Prop := 0 <= i < PkgFilter.Count f.

Lemma land_shiftl_testbit b k : 0 <= k -> bool_decide (Z.land b (Z.shiftl 1 k) <> 0) = Z.testbit b k.
Proof.
  intros Hk. destruct (Z.testbit b k) eqn:E.
  - apply bool_decide_eq_true. intros H. assert (Z.testbit (Z.land b (Z.shiftl 1 k)) k = false) as Hf.
    { rewrite H. apply Z.bits_0. }
    rewrite Z.land_spec, E, Z.shiftl_1_l, Z.pow2_bits_true in Hf by done. done.
  - apply bool_decide_eq_false. intros H. apply H. apply Z.bits_inj'. intros j Hj.
    rewrite Z.land_spec, Z.bits_0, Z.shiftl_1_l, Z.pow2_bits_eqb by done.
    destruct (Z.eqb_spec k j) as [->|]; [by rewrite E|apply andb_false_r].
Qed.

Lemma valid_byte f i : wf_filter f -> valid f i -> exists b, PkgFilter.Filter f !! Z.to_nat (i / 8) = Some b.
Proof.
  intros [Hc Hl] [H0 H1]. apply lookup_lt_is_Some. apply Nat2Z.inj_lt.
  rewrite Z2Nat.id, Hl by (apply Z.div_pos; lia). pose proof (Z.div_mod i 8). pose proof (Z.mod_pos_bound i 8).
  pose proof (Z.div_mod (PkgFilter.Count f + 7) 8). pose proof (Z.mod_pos_bound (PkgFilter.Count f + 7) 8). lia.
Qed.

Lemma Contains_has f i : wf_filter f -> valid f i -> PkgFilter.Contains f i = Ok (has f i).
Proof.
  intros Hw Hi. destruct (valid_byte f i Hw Hi) as [b Hb]. unfold PkgFilter.Contains, has. rewrite Hb. f_equal.
  apply land_shiftl_testbit. pose proof (Z.mod_pos_bound i 8). lia.
Qed.

Lemma Set_spec f i :
  wf_filter f -> valid f i ->
  exists f', PkgFilter.Set_ f i = Ok f' /\ wf_filter f' /\ PkgFilter.Count f' = PkgFilter.Count f /\
    forall j, 0 <= j -> has f' j = has f j || bool_decide (j = i).
Proof.
  intros Hw Hi. destruct (valid_byte f i Hw Hi) as [b Hb]. unfold PkgFilter.Set_. rewrite Hb. eexists. split; [done|].
  split; [|split; [done|]].
  - destruct Hw as [Hc Hl]. split; simpl; [done|]. by rewrite length_insert.
  - intros j Hj. unfold has. simpl. destruct Hi as [Hi0 _].
    destruct (decide (j / 8 = i / 8)) as [Hd|Hd].
    + rewrite Hd, list_lookup_insert_eq by (by eapply lookup_lt_Some). rewrite Hb.
      pose proof (Z.mod_pos_bound i 8). pose proof (Z.mod_pos_bound j 8).
      rewrite RawFacts.testbit_set by lia. f_equal. apply bool_decide_ext.
      pose proof (Z.div_mod i 8). pose proof (Z.div_mod j 8). lia.
    + rewrite list_lookup_insert_ne.
      2: { intros He. apply Hd. apply Z2Nat.inj in He; try (apply Z.div_pos; lia). done. }
      rewrite bool_decide_eq_false_2 by congruence. by rewrite orb_false_r.
Qed.

Lemma setAll_spec f is_ :
  wf_filter f -> Forall (valid f) is_ ->
  exists f', setAll f is_ = Ok f' /\ wf_filter f' /\ PkgFilter.Count f' = PkgFilter.Count f /\
    forall j, 0 <= j -> has f' j = has f j || bool_decide (j ∈ is_).
Proof.
  revert f. induction is_ as [|i is_ IH]; intros f Hw Hv; simpl.
  { exists f. split_and!; try done. intros j _. by rewrite orb_false_r. }
  apply Forall_cons in Hv as [Hi Hv]. destruct (Set_spec f i Hw Hi) as (f1 & -> & Hw1 & Hc1 & Hh1). simpl.
  destruct (IH f1 Hw1) as (f2 & -> & Hw2 & Hc2 & Hh2).
  { eapply Forall_impl; [exact Hv|]. intros k. unfold valid. by rewrite Hc1. }
  exists f2. split_and!; [done|done|congruence|]. intros j Hj. rewrite Hh2, Hh1 by done.
  rewrite <- orb_assoc. f_equal. rewrite <- bool_decide_or. apply bool_decide_ext. set_solver.
Qed.

(** *** Full filters *)

Lemma byte_full b : byte_Z b = 255 <-> forall k, 0 <= k < 8 -> Z.testbit (byte_Z b) k = true.
Proof.
  split.
  - intros ->. intros k Hk. assert (k = 0 \/ k = 1 \/ k = 2 \/ k = 3 \/ k = 4 \/ k = 5 \/ k = 6 \/ k = 7) by lia.
    intuition subst; done.
  - intros H. apply Z.bits_inj'. intros k Hk. destruct (decide (k < 8)).
    + rewrite H by lia. change 255 with (Z.ones 8). by rewrite Z.ones_spec_low by lia.
    + change 255 with (Z.ones 8). rewrite Z.ones_spec_high by lia. pose proof (byte_Z_range b).
      rewrite <- (Z.mod_small (byte_Z b) (2 ^ 8)) by lia. apply Z.mod_pow2_bits_high. lia.
Qed.

(** All indexes of a range are in the filter. *)
Definition covers (f : PkgFilter.t) (a b : Z) : Prop := forall j, a <= j < b -> has f j = true.

Lemma has_byte f (i : nat) b k :
  PkgFilter.Filter f !! i = Some b -> 0 <= k < 8 -> has f (8 * Z.of_nat i + k) = Z.testbit (byte_Z b) (7 - k).
Proof.
  intros Hb Hk. unfold has.
  rewrite (Z.mul_comm 8), Z.div_add_l, (Z.div_small k 8), Z.add_0_r, Nat2Z.id, Hb by lia.
  by rewrite Z.add_comm, Z.mod_add, Z.mod_small by lia.
Qed.

Lemma fullBytes_spec f n i :
  (i + n <= length (PkgFilter.Filter f))%nat ->
  exists b, PkgFilter.fullBytes f n i = Ok b /\
    (b = true <-> covers f (8 * Z.of_nat i) (8 * Z.of_nat (i + n))).
Proof.
  revert i. induction n as [|n IH]; intros i Hle; simpl.
  { exists true. split; [done|]. split; [|done]. intros _ j Hj. lia. }
  destruct (lookup_lt_is_Some_2 (PkgFilter.Filter f) i) as [b Hb]; [lia|]. rewrite Hb.
  destruct (IH (S i)) as (r & Hr & Hcov); [lia|].
  assert (byte_Z b = 255 <-> covers f (8 * Z.of_nat i) (8 * Z.of_nat (S i))) as Hbyte.
  { rewrite byte_full. split.
    - intros Hk j Hj. replace j with (8 * Z.of_nat i + (j - 8 * Z.of_nat i)) by lia.
      rewrite (has_byte f i b) by (done || lia). apply Hk. lia.
    - intros Hc k Hk. rewrite <- (Hc (8 * Z.of_nat i + (7 - k))) by lia. rewrite (has_byte f i b) by (done || lia).
      f_equal. lia. }
  case_bool_decide as Hff.
  - exists false. split; [done|]. split; [done|]. intros Hc. destruct Hff. apply Hbyte. intros j Hj. apply Hc. lia.
  - exists r. split; [done|]. rewrite Hcov. assert (byte_Z b = 255) as Hb2 by (destruct (decide (byte_Z b = 255)); done).
    apply Hbyte in Hb2. split.
    + intros Hc j Hj. destruct (decide (j < 8 * Z.of_nat (S i))); [apply Hb2; lia|apply Hc; lia].
    + intros Hc j Hj. apply Hc. lia.
Qed.

Lemma fullBits_spec f n idx :
  wf_filter f -> 0 <= idx -> idx + Z.of_nat n <= PkgFilter.Count f ->
  exists b, PkgFilter.fullBits f n idx = Ok b /\ (b = true <-> covers f idx (idx + Z.of_nat n)).
Proof.
  intros Hw. revert idx. induction n as [|n IH]; intros idx H0 Hle; simpl.
  { exists true. split; [done|]. split; [|done]. intros _ j Hj. lia. }
  rewrite Contains_has by (done || (unfold valid; lia)). simpl.
  destruct (IH (idx + 1)) as (r & Hr & Hcov); [lia..|]. destruct (has f idx) eqn:E.
  - exists r. split; [done|]. rewrite Hcov. split.
    + intros Hc j Hj. destruct (decide (j = idx)) as [->|]; [done|apply Hc; lia].
    + intros Hc j Hj. apply Hc. lia.
  - exists false. split; [done|]. split; [done|]. intros Hc. rewrite Hc in E by lia. done.
Qed.

Lemma IsFull_spec f :
  wf_filter f -> exists b, PkgFilter.IsFull f = Ok b /\ (b = true <-> covers f 0 (PkgFilter.Count f)).
Proof.
  intros Hw. pose proof Hw as [Hc Hl]. unfold PkgFilter.IsFull.
  pose proof (Z.div_mod (PkgFilter.Count f) 8) as Hdm. pose proof (Z.mod_pos_bound (PkgFilter.Count f) 8) as Hmb.
  assert (0 <= PkgFilter.Count f / 8) as Hdp by (apply Z.div_pos; lia).
  destruct (fullBytes_spec f (Z.to_nat (PkgFilter.Count f / 8)) 0) as (b1 & -> & H1).
  { apply Nat2Z.inj_le. rewrite Nat2Z.inj_add, Z2Nat.id, Hl by done. simpl. apply Z.div_le_mono; lia. }
  simpl. destruct (fullBits_spec f (Z.to_nat (PkgFilter.Count f mod 8))
    (PkgFilter.Count f - PkgFilter.Count f mod 8) Hw) as (b2 & H2 & H3); [lia..|].
  rewrite Z2Nat.id in H3 by lia. simpl in H1. rewrite Z2Nat.id in H1 by lia. destruct b1.
  - exists b2. split; [done|]. rewrite H3. split.
    + intros Hc2 j Hj. destruct (decide (j < 8 * (PkgFilter.Count f / 8))); [apply H1; [done|lia]|apply Hc2; lia].
    + intros Hcov j Hj. apply Hcov. lia.
  - exists false. split; [done|]. split; [done|]. intros Hcov. apply H1. intros j Hj. apply Hcov. lia.
Qed.

(** *** The stored form *)

Lemma filter_size n : 0 <= n <= 65528 -> u16 (n + 7) / 8 = (n + 7) / 8.
Proof. intros H. unfold u16. by rewrite Z.mod_small by lia. Qed.

Lemma NewPkgFilter_wf n : 0 <= n <= 65528 -> wf_filter (PkgFilter.NewPkgFilter n).
Proof.
  intros Hn. split; simpl; [done|]. rewrite length_replicate, filter_size by done.
  rewrite Z2Nat.id; [done|]. apply Z.div_pos; lia.
Qed.

Lemma NewPkgFilter_has n j : has (PkgFilter.NewPkgFilter n) j = false.
Proof.
  unfold has. simpl. destruct (replicate _ _ !! _) as [b|] eqn:E; [|done].
  apply lookup_replicate in E as [-> _]. apply Z.bits_0.
Qed.

Lemma filter_rt f : wf_filter f -> rt (PkgFilter.Encode f) PkgFilter.Decode f.
Proof.
  intros [Hc Hl]. unfold PkgFilter.Encode, PkgFilter.Decode. eapply rt_seq; [apply codec_rt; unfold in_u; lia|].
  assert (Z.to_nat (u16 (PkgFilter.Size (PkgFilter.mk (PkgFilter.Count f) []) - 2)) = length (PkgFilter.Filter f)) as Hsz.
  { unfold PkgFilter.Size. simpl. rewrite filter_size by done.
    assert (0 <= (PkgFilter.Count f + 7) / 8 < 65536 - 2).
    { split; [apply Z.div_pos; lia|]. apply Z.div_lt_upper_bound; lia. }
    unfold u16. rewrite (Z.mod_small (2 + _)) by lia. rewrite Z.mod_small by lia. rewrite <- (Nat2Z.id (length _)), Hl.
    f_equal. lia. }
  exists (PkgFilter.Filter f). split; [apply writes_bytes|]. intros rest. unfold rbind. rewrite Hsz, ReadFull_app.
  unfold rret. by destruct f.
Qed.

Lemma decode_filterBytes f : wf_filter f -> decodeFilter (filterBytes f) = Ok f.
Proof.
  intros Hw. destruct (filter_rt f Hw) as (bs & Hb & Hd). unfold decodeFilter, filterBytes. rewrite (Hb []). simpl.
  specialize (Hd []). rewrite app_nil_r in Hd. by rewrite Hd.
Qed.

(** ** Log updates on disk *)

Section store.
Context {BT : Btcec} {BL : BtcecLaws} {TL : Tlv} {TLL : TlvLaws}.
Context {ZL : Zlib} {ZLL : ZlibLaws} {TR : Tor} {TRL : TorLaws}.

(** An update that the database can hold: its message is not above the limit, and
    it is one that arrives as it was sent. *)
Definition storable (u : LogUpdate) : Prop :=
  in_u 64 (LogIndex u) /\ wf (UpdateMsg u) /\ delivered (UpdateMsg u) = Ok (UpdateMsg u) /\
  is_ok (WriteMessage [] (UpdateMsg u)).2 = true.

Lemma logupdate_rt u :
  storable u -> exists bs, serializeLogUpdate u [] = (bs, Ok tt) /\ deserializeLogUpdate bs = Ok u.
Proof.
  intros (Hi & Hw & Hd & Hok). destruct (WriteMessage_rt (UpdateMsg u) Hw) as (msg' & bs & Hd' & Hr & Hwr).
  rewrite Hd in Hd'. injection Hd' as <-. rewrite Hwr in Hok. unfold serializeLogUpdate. rewrite Hwr.
  case_bool_decide as Hsz; [done|]. simpl in Hok. rewrite app_nil_l. eexists.
  split; [exact (writes_seq _ _ _ _ (writes_bytes _) (writes_seq _ _ _ _ (writes_bytes _) (writes_bytes _)) [])|].
  unfold deserializeLogUpdate. rewrite app_nil_l.
  assert (rt (WriteUint64 (LogIndex u) ;;> WriteUint16 (u16 (Z.of_nat (length bs))))%go
    (i <-- ReadUint64 ; n <-- ReadUint16 ; rret (i, n))%go (LogIndex u, u16 (Z.of_nat (length bs)))) as (b & Hb & Hrb).
  { eapply rt_seq; [by apply codec_rt|]. apply (rt_last _ _ _ (fun n => (LogIndex u, n))).
    apply codec_rt. unfold in_u, u16. apply Z.mod_pos_bound. lia. }
  pose proof (writes_inj _ _ _ Hb (writes_seq _ _ _ _ (writes_bytes _) (writes_bytes _))) as ->.
  rewrite app_assoc, Hrb. unfold MaxMsgBody in Hsz. rewrite u16_length by lia. rewrite Nat2Z.id, take_ge by lia.
  rewrite Hr. by destruct u.
Qed.

(** The entries of a bucket of updates, from an index on. *)
Fixpoint entries (i : Z) (sers : list (list byte)) : list (list byte * list byte) :=
  match sers with [] => [] | s :: sers => (uint16Key i, s) :: entries (i + 1) sers end.

Lemma uint16Key_lt i j : 0 <= i < j -> j < 65536 -> bytes_compare (uint16Key i) (uint16Key j) = Lt.
Proof.
  intros H1 H2. unfold uint16Key. rewrite bytes_compare_be by (by rewrite !length_be_put).
  rewrite !be_get_put_id by (unfold in_u; simpl; lia). apply Z.compare_lt_iff. lia.
Qed.

Lemma entries_keys i sers kv : 0 <= i -> kv ∈ entries i sers ->
  exists j, i <= j < i + Z.of_nat (length sers) /\ kv.1 = uint16Key j.
Proof.
  revert i. induction sers as [|s sers IH]; intros i Hi Hin; simpl in *; [by apply not_elem_of_nil in Hin|].
  apply elem_of_cons in Hin as [->|Hin]; [exists i; split; [lia|done]|].
  destruct (IH (i + 1)) as (j & Hj & Hk); [lia|done|]. exists j. split; [lia|done].
Qed.

Lemma entries_sorted i sers :
  0 <= i -> i + Z.of_nat (length sers) <= 65536 ->
  StronglySorted (fun x y => bytes_compare x.1 y.1 = Lt) (entries i sers).
Proof.
  revert i. induction sers as [|s sers IH]; intros i Hi Hl; simpl in *; constructor.
  - apply IH; lia.
  - apply Forall_forall. intros kv Hin. destruct (entries_keys (i + 1) sers kv) as (j & Hj & ->); [lia|done|].
    apply uint16Key_lt; lia.
Qed.

Lemma entries_fresh i j sers :
  0 <= i < j -> j + Z.of_nat (length sers) <= 65536 ->
  (list_to_map (entries j sers) : gmap (list byte) (list byte)) !! uint16Key i = None.
Proof.
  intros Hi Hl. apply not_elem_of_list_to_map_1. intros (kv & He & Hin)%list_elem_of_fmap.
  destruct (entries_keys j sers kv) as (k & Hk & He'); [lia|done|].
  assert (bytes_compare (uint16Key i) (uint16Key k) = Lt) as Hc by (apply uint16Key_lt; lia).
  rewrite <- He', <- He, CommitSort.bytes_compare_refl in Hc. done.
Qed.

Lemma putLogUpdates_spec l b i :
  Forall storable l -> 0 <= i -> i + Z.of_nat (length l) <= 65536 ->
  exists sers, Forall2 (fun u bs => deserializeLogUpdate bs = Ok u) l sers /\
    putLogUpdates b i l = Ok (list_to_map (entries i sers) ∪ b).
Proof.
  revert b i. induction l as [|u l IH]; intros b i Hs Hi Hl.
  { exists []. split; [constructor|]. simpl. by rewrite (left_id_L ∅ (∪)). }
  apply Forall_cons in Hs as [Hu Hs]. simpl in Hl. destruct (logupdate_rt u Hu) as (bs & Hb & Hd).
  destruct (IH (<[uint16Key i := bs]> b) (i + 1) Hs) as (sers & HF & Hp); [lia..|].
  exists (bs :: sers). split; [by constructor|]. simpl. rewrite Hb.
  assert (u16 i = i) as -> by (unfold u16; rewrite Z.mod_small; lia). rewrite Hp. f_equal.
  rewrite <- insert_union_l, insert_union_r; [done|]. apply entries_fresh; [lia|].
  apply Forall2_length in HF. lia.
Qed.

Lemma loadHtlcs_spec l sers i :
  Forall2 (fun u bs => deserializeLogUpdate bs = Ok u) l sers -> loadHtlcs (entries i sers) = Ok l.
Proof.
  intros HF. revert i. induction HF as [|u bs l sers Hd _ IH]; intros i; simpl; [done|]. by rewrite Hd, IH.
Qed.

(** What is put in a new bucket is loaded in the same order. *)
Lemma put_load l :
  Forall storable l -> Z.of_nat (length l) <= 65536 ->
  exists b, putLogUpdates ∅ 0 l = Ok b /\ loadHtlcs (ForEach b) = Ok l.
Proof.
  intros Hs Hl. destruct (putLogUpdates_spec l ∅ 0 Hs) as (sers & HF & Hp); [lia..|].
  eexists. split; [exact Hp|]. rewrite (right_id_L ∅ (∪)). rewrite ForEach_increasing.
  - by apply loadHtlcs_spec.
  - apply Forall2_length in HF. apply entries_sorted; lia.
Qed.

(** ** One package *)

(** A stored filter holds the given indexes. *)
Definition holds (v : option (list byte)) (n : nat) (l : list Z) : Prop :=
  exists f, v = Some (filterBytes f) /\ wf_filter f /\ PkgFilter.Count f = Z.of_nat n /\
    forall j, 0 <= j < Z.of_nat n -> has f j = bool_decide (j ∈ l).

Record tracked (hb : heightBkt) (adds fails : list LogUpdate) (fwd : option PkgFilter.t) (acks sfacks : list Z) :
    Prop := {
  t_adds : loadHtlcs (ForEach (addBkt hb)) = Ok adds;
  t_fails : loadHtlcs (ForEach (failSettleBkt hb)) = Ok fails;
  t_fwd : fwdFilterVal hb = filterBytes <$> fwd;
  t_fwd_wf : from_option wf_filter True fwd;
  t_ack : holds (ackFilterVal hb) (length adds) acks;
  t_sf : holds (settleFailFilterVal hb) (length fails) sfacks;
}.

Definition pkg_at (s : fwdStore) (source : ShortChannelID) (height : Z) : option heightBkt :=
  s ≫= fun b => b !! makeLogKey (ToUint64 source) ≫= fun sb => sb !! makeLogKey height.

Lemma holds_new n : Z.of_nat n <= 65528 -> holds (Some (filterBytes (PkgFilter.NewPkgFilter (u16 (Z.of_nat n))))) n [].
Proof.
  intros Hn. rewrite u16_length by lia. exists (PkgFilter.NewPkgFilter (Z.of_nat n)).
  split_and!; [done|apply NewPkgFilter_wf; lia|done|]. intros j Hj. by rewrite NewPkgFilter_has.
Qed.

Lemma holds_set v n l is_ :
  holds v n l -> Forall (fun i => 0 <= i < Z.of_nat n) is_ ->
  exists f f', v = Some (filterBytes f) /\ decodeFilter (filterBytes f) = Ok f /\ setAll f is_ = Ok f' /\
    holds (Some (filterBytes f')) n (l ++ is_).
Proof.
  intros (f & Hv & Hw & Hc & Hh) Hi. destruct (setAll_spec f is_ Hw) as (f' & Hs & Hw' & Hc' & Hh').
  { eapply Forall_impl; [exact Hi|]. intros i. unfold valid. by rewrite Hc. }
  exists f, f'. split_and!; [done|by apply decode_filterBytes|done|]. exists f'.
  split_and!; [done|done|congruence|]. intros j Hj. rewrite Hh', Hh by lia.
  rewrite <- bool_decide_or. apply bool_decide_ext. rewrite elem_of_app. done.
Qed.

Lemma holds_decode v n l :
  holds v n l -> exists f bs, v = Some bs /\ decodeFilter bs = Ok f /\
    (forall j, 0 <= j < Z.of_nat n -> PkgFilter.Contains f j = Ok (bool_decide (j ∈ l))) /\
    exists b, PkgFilter.IsFull f = Ok b /\ (b = true <-> forall j, 0 <= j < Z.of_nat n -> j ∈ l).
Proof.
  intros (f & Hv & Hw & Hc & Hh). exists f, (filterBytes f). split_and!; [done|by apply decode_filterBytes| |].
  - intros j Hj. rewrite Contains_has by (done || (unfold valid; lia)). by rewrite Hh.
  - destruct (IsFull_spec f Hw) as (b & Hb & Hcov). exists b. split; [done|]. rewrite Hcov, Hc. split.
    + intros H j Hj. specialize (H j Hj). rewrite Hh in H by done. by apply bool_decide_eq_true in H.
    + intros H j Hj. rewrite Hh by done. by apply bool_decide_eq_true, H.
Qed.

(** Loading a tracked package. *)
Lemma load_tracked m source height hb adds fails fwd acks sfacks :
  pkg_at (Some m) source height = Some hb -> tracked hb adds fails fwd acks sfacks ->
  exists p, loadFwdPkg m source height = Ok p /\ Pkg_Source p = source /\ Pkg_Height p = height /\
    Adds p = adds /\ SettleFails p = fails /\
    FwdFilter p = default (PkgFilter.NewPkgFilter (u16 (Z.of_nat (length adds)))) fwd /\
    (forall j, 0 <= j < Z.of_nat (length adds) ->
       PkgFilter.Contains (AckFilter p) j = Ok (bool_decide (j ∈ acks))) /\
    (forall j, 0 <= j < Z.of_nat (length fails) ->
       PkgFilter.Contains (SettleFailFilter p) j = Ok (bool_decide (j ∈ sfacks))) /\
    (State p = FwdStateLockedIn <-> fwd = None) /\
    (State p = FwdStateCompleted <-> is_Some fwd /\
       (forall j, 0 <= j < Z.of_nat (length adds) -> j ∈ acks) /\
       (forall j, 0 <= j < Z.of_nat (length fails) -> j ∈ sfacks)).
Proof.
  intros Hp [H1 H2 H3 H3w H4 H5].
  destruct (holds_decode _ _ _ H4) as (fa & ba & Ea & Da & Ca & ra & Fa & Ia).
  destruct (holds_decode _ _ _ H5) as (fs & bs & Es & Ds & Cs & rs & Fs & Is).
  unfold pkg_at in Hp. simpl in Hp. unfold loadFwdPkg.
  destruct (m !! makeLogKey (ToUint64 source)) as [sb|]; [|done]. simpl in Hp. rewrite Hp, H1. cbn [obind].
  rewrite Ea, Da. cbn [obind]. rewrite H2. cbn [obind]. rewrite Es, Ds. cbn [obind]. rewrite H3.
  destruct fwd as [ff|]; cbn [fmap option_fmap option_map default from_option] in *.
  - rewrite (decode_filterBytes ff H3w). cbn [obind]. rewrite Fa. cbn [obind lift_panic].
    destruct ra; [rewrite Fs; cbn [obind lift_panic]; destruct rs|];
      (eexists; split; [reflexivity|]); cbn [Pkg_Source Pkg_Height State Adds FwdFilter AckFilter SettleFails
        SettleFailFilter]; split_and!; try done; naive_solver.
  - eexists. split; [reflexivity|]. cbn [Pkg_Source Pkg_Height State Adds FwdFilter AckFilter SettleFails
      SettleFailFilter]. split_and!; try done. split; [done|]. by intros [[? ?] _].
Qed.

(** ** Operations *)

Inductive fop : Type :=
  | FAdd (p : FwdPkg)
  | FSetFilter (source : ShortChannelID) (height : Z) (f : PkgFilter.t)
  | FAckAdds (source : ShortChannelID) (refs : list AddRef)
  | FAckFails (refs : list SettleFailRef)
  | FRemove (source : ShortChannelID) (height : Z)
  | FWipe (source : ShortChannelID).

Definition run_fop (op : fop) (s : fwdStore) : outcome fwd_err fwdStore :=
  match op with
  | FAdd p => AddFwdPkg p s
  | FSetFilter source height f => SetFwdFilter source height f s
  | FAckAdds source refs => AckAddHtlcs source refs s
  | FAckFails refs => ackSettleFails refs s
  | FRemove source height => RemovePkg source height s
  | FWipe source => Wipe source s
  end.

(** An operation that fails aborts its transaction. *)
Definition exec_fop (op : fop) (s : fwdStore) : fwdStore :=
  match run_fop op s with Ok s' => s' | _ => s end.

(** Keys that fit in their type. *)
Definition op_keys (op : fop) : Prop :=
  match op with
  | FAdd p => wf_scid (Pkg_Source p) /\ in_u 64 (Pkg_Height p)
  | FSetFilter source height _ | FRemove source height => wf_scid source /\ in_u 64 height
  | FAckAdds source refs => wf_scid source /\ Forall (fun r => in_u 64 (AddRef_Height r)) refs
  | FAckFails refs => Forall (fun r => wf_scid (SettleFailRef_Source r) /\ in_u 64 (SettleFailRef_Height r)) refs
  | FWipe source => wf_scid source
  end.

(** What an operation acknowledges of a package. *)
Definition op_acks (source : ShortChannelID) (height : Z) (op : fop) : list Z :=
  match op with
  | FAckAdds src refs =>
      if bool_decide (src = source) then AddRef_Index <$> filter (fun r => AddRef_Height r = height) refs else []
  | _ => []
  end.

Definition op_sfacks (source : ShortChannelID) (height : Z) (op : fop) : list Z :=
  match op with
  | FAckFails refs =>
      SettleFailRef_Index <$> filter (fun r => SettleFailRef_Source r = source /\ SettleFailRef_Height r = height) refs
  | _ => []
  end.

Definition op_filter (source : ShortChannelID) (height : Z) (op : fop) : option PkgFilter.t :=
  match op with
  | FSetFilter src h f => if bool_decide (src = source /\ h = height) then Some f else None
  | _ => None
  end.

(** The operation neither removes nor replaces the package, and acknowledges only
    HTLCs that it has. *)
Definition op_keeps (source : ShortChannelID) (height : Z) (nAdds nFails : nat) (op : fop) : Prop :=
  op_keys op /\
  match op with
  | FAdd p => ~ (Pkg_Source p = source /\ Pkg_Height p = height)
  | FRemove src h => ~ (src = source /\ h = height)
  | FWipe src => src <> source
  | _ => True
  end /\
  Forall (fun i => 0 <= i < Z.of_nat nAdds) (op_acks source height op) /\
  Forall (fun i => 0 <= i < Z.of_nat nFails) (op_sfacks source height op) /\
  from_option wf_filter True (op_filter source height op).

(** *** Keys *)

Lemma makeLogKey_inj a b : in_u 64 a -> in_u 64 b -> makeLogKey a = makeLogKey b -> a = b.
Proof.
  intros Ha Hb H. unfold makeLogKey in H. rewrite <- (be_get_put_id 8 a), <- (be_get_put_id 8 b) by done. by rewrite H.
Qed.

Lemma sourceKey_inj a b :
  wf_scid a -> wf_scid b -> makeLogKey (ToUint64 a) = makeLogKey (ToUint64 b) -> a = b.
Proof.
  assert (forall c, wf_scid c -> in_u 64 (ToUint64 c)) as Hr.
  { intros c Hc. rewrite ToUint64_val by done. destruct Hc as (H1 & H2 & H3). unfold in_u in *. lia. }
  intros Ha Hb H. apply makeLogKey_inj in H; [|by apply Hr..]. by apply ToUint64_inj.
Qed.

(** Changing a package of another channel or height. *)
Lemma pkg_at_insert m src h hb sb source height :
  wf_scid src -> wf_scid source -> in_u 64 h -> in_u 64 height ->
  sb = default ∅ (m !! makeLogKey (ToUint64 src)) ->
  pkg_at (Some (<[makeLogKey (ToUint64 src) := <[makeLogKey h := hb]> sb]> m)) source height =
    if bool_decide (src = source /\ h = height) then Some hb else pkg_at (Some m) source height.
Proof.
  intros Hs Hs' Hh Hh' ->. unfold pkg_at. simpl. destruct (decide (src = source)) as [->|Hne].
  - rewrite lookup_insert_eq. simpl. destruct (decide (h = height)) as [->|Hne'].
    + by rewrite lookup_insert_eq, bool_decide_eq_true_2.
    + rewrite lookup_insert_ne by (intros He; by apply Hne', makeLogKey_inj).
      rewrite bool_decide_eq_false_2 by tauto. by destruct (m !! makeLogKey (ToUint64 source)).
  - rewrite lookup_insert_ne by (intros He; by apply Hne, sourceKey_inj).
    by rewrite bool_decide_eq_false_2 by tauto.
Qed.

(** *** Acknowledging by height *)

Lemma group_from m refs h :
  default [] (foldl group_step m refs !! h) =
  default [] (m !! h) ++ (filter (fun hi => hi.1 = h) refs).*2.
Proof.
  revert m. induction refs as [|[h' i] refs IH]; intros m; simpl; [by rewrite app_nil_r|].
  rewrite IH, filter_cons. unfold group_step. simpl. destruct (decide (h' = h)) as [->|Hne].
  - rewrite lookup_insert_eq. simpl. by rewrite <- app_assoc.
  - by rewrite lookup_insert_ne by done.
Qed.

Lemma group_heights refs h : is_Some (group refs !! h) -> h ∈ refs.*1.
Proof.
  assert (forall m, is_Some (foldl group_step m refs !! h) ->
    is_Some (m !! h) \/ h ∈ refs.*1) as H.
  { induction refs as [|[h' i] refs IH]; intros m Hm; simpl in *; [by left|].
    destruct (IH _ Hm) as [Hi|Hi]; [|right; set_solver].
    unfold group_step in Hi. apply lookup_insert_is_Some' in Hi as [<-|?]; [right; set_solver|by left]. }
  intros Hg. destruct (H ∅ Hg) as [Hi|]; [|done]. rewrite lookup_empty in Hi. by destruct Hi.
Qed.

(** An acknowledgement at one height changes the bucket of that height only. *)
Definition local_ack (ackAt : gmap (list byte) heightBkt -> Z -> list Z -> outcome fwd_err (gmap (list byte) heightBkt)) : Prop :=
  forall sb h is_ sb', ackAt sb h is_ = Ok sb' -> forall k, k <> makeLogKey h -> sb' !! k = sb !! k.

Lemma local_add : local_ack ackAddHtlcsAtHeight.
Proof.
  intros sb h is_ sb' H k Hk. unfold ackAddHtlcsAtHeight in H.
  destruct (sb !! makeLogKey h) as [hb|]; [|by injection H as <-]. destruct (ackFilterVal hb); [|done].
  destruct (decodeFilter _); try done. cbn [obind] in H. destruct (lift_panic _); try done. cbn [obind] in H.
  injection H as <-. by rewrite lookup_insert_ne.
Qed.

Lemma local_fails : local_ack ackSettleFailsAtHeight.
Proof.
  intros sb h is_ sb' H k Hk. unfold ackSettleFailsAtHeight in H.
  destruct (sb !! makeLogKey h) as [hb|]; [|by injection H as <-]. destruct (settleFailFilterVal hb); [|done].
  destruct (decodeFilter _); try done. cbn [obind] in H. destruct (lift_panic _); try done. cbn [obind] in H.
  injection H as <-. by rewrite lookup_insert_ne.
Qed.

Lemma ackAtHeights_other ackAt sb diffs sb' h :
  local_ack ackAt -> in_u 64 h -> Forall (fun d => in_u 64 d.1) diffs -> h ∉ diffs.*1 ->
  ackAtHeights ackAt sb diffs = Ok sb' -> sb' !! makeLogKey h = sb !! makeLogKey h.
Proof.
  intros Hl Hh. revert sb. induction diffs as [|[h' is_] diffs IH]; intros sb Hu Hn H; simpl in *; [by injection H as <-|].
  apply Forall_cons in Hu as [Hu1 Hu]. apply not_elem_of_cons in Hn as [Hne Hn].
  apply obind_ok_inv in H as (sb1 & H1 & H). rewrite (IH sb1 Hu Hn H). apply (Hl _ _ _ _ H1).
  intros He. by apply Hne, makeLogKey_inj.
Qed.

Lemma ackAtHeights_here ackAt sb diffs sb' h is_ :
  local_ack ackAt -> in_u 64 h -> Forall (fun d => in_u 64 d.1) diffs -> NoDup diffs.*1 -> (h, is_) ∈ diffs ->
  ackAtHeights ackAt sb diffs = Ok sb' ->
  exists sb1 sb2, sb1 !! makeLogKey h = sb !! makeLogKey h /\ ackAt sb1 h is_ = Ok sb2 /\
    sb' !! makeLogKey h = sb2 !! makeLogKey h.
Proof.
  intros Hl Hh. revert sb. induction diffs as [|[h' is'] diffs IH]; intros sb Hu Hnd Hin H; simpl in *.
  { by apply not_elem_of_nil in Hin. }
  apply Forall_cons in Hu as [Hu1 Hu]. apply NoDup_cons in Hnd as [Hnin Hnd].
  apply obind_ok_inv in H as (sb1 & H1 & H). apply elem_of_cons in Hin as [[= <- <-]|Hin].
  - exists sb, sb1. split_and!; [done|done|]. by eapply (ackAtHeights_other ackAt).
  - destruct (IH sb1 Hu Hnd Hin H) as (sb2 & sb3 & E1 & E2 & E3). exists sb2, sb3. split_and!; try done.
    rewrite E1. apply (Hl _ _ _ _ H1). intros He. apply Hnin.
    pose proof (makeLogKey_inj h h' Hh Hu1 He) as <-. apply list_elem_of_fmap. by exists (h, is_).
Qed.

(** The package of a height after a batch of acknowledgements of its channel. *)
Lemma ack_group ackAt sb refs sb' h hb :
  local_ack ackAt -> in_u 64 h -> Forall (fun hi => in_u 64 hi.1) refs ->
  ackAtHeights ackAt sb (map_to_list (group refs)) = Ok sb' -> sb !! makeLogKey h = Some hb ->
  let is_ := (filter (fun hi => hi.1 = h) refs).*2 in
  (is_ = [] /\ sb' !! makeLogKey h = Some hb) \/
  (exists sb1 sb2, sb1 !! makeLogKey h = Some hb /\ ackAt sb1 h is_ = Ok sb2 /\ sb' !! makeLogKey h = sb2 !! makeLogKey h).
Proof.
  intros Hl Hh Hu H Hb is_.
  assert (Forall (fun d => in_u 64 d.1) (map_to_list (group refs))) as Hu'.
  { apply Forall_forall. intros [h' i'] Hin%elem_of_map_to_list. simpl.
    assert (h' ∈ refs.*1) as (hi & -> & Hhi)%list_elem_of_fmap by (apply group_heights; eauto).
    rewrite Forall_forall in Hu. by apply Hu. }
  pose proof (group_from ∅ refs h) as Hg. rewrite lookup_empty in Hg. simpl in Hg. fold (group refs) in Hg.
  destruct (group refs !! h) as [is'|] eqn:E; simpl in Hg.
  - right. destruct (ackAtHeights_here ackAt sb (map_to_list (group refs)) sb' h is') as (sb1 & sb2 & E1 & E2 & E3); try done.
    + apply NoDup_fst_map_to_list.
    + by apply elem_of_map_to_list.
    + exists sb1, sb2. unfold is_. rewrite <- Hg, E1. done.
  - left. split; [done|]. rewrite <- Hb. eapply (ackAtHeights_other ackAt); try done.
    intros ([h' i'] & He & Hin%elem_of_map_to_list)%list_elem_of_fmap. simpl in He. congruence.
Qed.

Lemma filter_refs_snd {R} (fh fi : R -> Z) refs h :
  (filter (fun hi => hi.1 = h) ((fun r => (fh r, fi r)) <$> refs)).*2 = fi <$> filter (fun r => fh r = h) refs.
Proof.
  induction refs as [|r refs IH]; [done|]. rewrite fmap_cons, !filter_cons. cbn [fst].
  destruct (decide (fh r = h)); [cbn; f_equal|]; exact IH.
Qed.

(** *** One operation *)

Section one.
Context (source : ShortChannelID) (height : Z) (Hsrc : wf_scid source) (Hheight : in_u 64 height).

Lemma pkg_at_source m src sb :
  wf_scid src ->
  pkg_at (Some (<[makeLogKey (ToUint64 src) := sb]> m)) source height =
    if bool_decide (src = source) then sb !! makeLogKey height else pkg_at (Some m) source height.
Proof.
  intros Hs. unfold pkg_at. simpl. case_bool_decide as He; [subst; by rewrite lookup_insert_eq|].
  rewrite lookup_insert_ne; [done|]. intros Hk. by apply He, sourceKey_inj.
Qed.

Lemma step_add p s s' hb :
  op_keys (FAdd p) -> ~ (Pkg_Source p = source /\ Pkg_Height p = height) ->
  pkg_at s source height = Some hb -> AddFwdPkg p s = Ok s' -> pkg_at s' source height = Some hb.
Proof.
  intros [Hw Hh] Hne Hp H. unfold AddFwdPkg in H. apply obind_ok_inv in H as (adds & _ & H).
  apply obind_ok_inv in H as (fails & _ & H). injection H as <-. rewrite pkg_at_insert by done.
  rewrite bool_decide_eq_false_2 by done. by destruct s.
Qed.

Lemma tracked_filter hb adds fails acks sfacks f :
  tracked hb adds fails None acks sfacks -> wf_filter f ->
  tracked (mkHeightBkt (addBkt hb) (failSettleBkt hb) (Some (filterBytes f)) (ackFilterVal hb) (settleFailFilterVal hb))
    adds fails (Some f) acks sfacks.
Proof. intros [H1 H2 H3 H3w H4 H5] Hf. by split. Qed.

Lemma step_filter src h f s s' hb adds fails fwd acks sfacks :
  op_keys (FSetFilter src h f) -> from_option wf_filter True (op_filter source height (FSetFilter src h f)) ->
  pkg_at s source height = Some hb -> tracked hb adds fails fwd acks sfacks -> SetFwdFilter src h f s = Ok s' ->
  exists hb', pkg_at s' source height = Some hb' /\
    tracked hb' adds fails (match fwd with Some f => Some f | None => op_filter source height (FSetFilter src h f) end)
      acks sfacks.
Proof.
  intros [Hw Hh] Hf Hp Ht H. unfold SetFwdFilter in H. destruct s as [m|]; [|done].
  destruct (m !! makeLogKey (ToUint64 src)) as [sb|] eqn:Es; [|done].
  destruct (sb !! makeLogKey h) as [hb1|] eqn:Eh; [|done].
  assert (src = source /\ h = height -> hb1 = hb) as Hsame.
  { intros [-> ->]. unfold pkg_at in Hp. simpl in Hp. rewrite Es in Hp. simpl in Hp. congruence. }
  simpl in *. destruct (fwdFilterVal hb1) as [v|] eqn:Ev.
  - injection H as <-. exists hb. split; [done|]. destruct fwd as [g|]; [done|]. case_bool_decide as He; [|done].
    rewrite (Hsame He), (t_fwd _ _ _ _ _ _ Ht) in Ev. done.
  - injection H as <-. rewrite pkg_at_insert; try done; [|by rewrite Es]. case_bool_decide as He.
    + eexists. split; [done|]. rewrite (Hsame He) in *. rewrite (t_fwd _ _ _ _ _ _ Ht) in Ev.
      destruct fwd as [g|]; [done|]. by apply tracked_filter.
    + exists hb. split; [done|]. by destruct fwd.
Qed.

Lemma tracked_acks hb adds fails fwd acks sfacks is_ sb sb' :
  tracked hb adds fails fwd acks sfacks -> Forall (fun i => 0 <= i < Z.of_nat (length adds)) is_ ->
  sb !! makeLogKey height = Some hb -> ackAddHtlcsAtHeight sb height is_ = Ok sb' ->
  exists hb', sb' !! makeLogKey height = Some hb' /\ tracked hb' adds fails fwd (acks ++ is_) sfacks.
Proof.
  intros [H1 H2 H3 H3w H4 H5] Hi Hb H. unfold ackAddHtlcsAtHeight in H. rewrite Hb in H.
  destruct (holds_set _ _ _ is_ H4 Hi) as (f & f' & Ev & Ed & Es & Hh). rewrite Ev, Ed in H. cbn [obind] in H.
  rewrite Es in H. cbn [obind lift_panic] in H. injection H as <-. eexists. split; [apply lookup_insert_eq|].
  by split.
Qed.

Lemma tracked_sfacks hb adds fails fwd acks sfacks is_ sb sb' :
  tracked hb adds fails fwd acks sfacks -> Forall (fun i => 0 <= i < Z.of_nat (length fails)) is_ ->
  sb !! makeLogKey height = Some hb -> ackSettleFailsAtHeight sb height is_ = Ok sb' ->
  exists hb', sb' !! makeLogKey height = Some hb' /\ tracked hb' adds fails fwd acks (sfacks ++ is_).
Proof.
  intros [H1 H2 H3 H3w H4 H5] Hi Hb H. unfold ackSettleFailsAtHeight in H. rewrite Hb in H.
  destruct (holds_set _ _ _ is_ H5 Hi) as (f & f' & Ev & Ed & Es & Hh). rewrite Ev, Ed in H. cbn [obind] in H.
  rewrite Es in H. cbn [obind lift_panic] in H. injection H as <-. eexists. split; [apply lookup_insert_eq|].
  by split.
Qed.

Lemma step_acks src refs s s' hb adds fails fwd acks sfacks :
  op_keys (FAckAdds src refs) ->
  Forall (fun i => 0 <= i < Z.of_nat (length adds)) (op_acks source height (FAckAdds src refs)) ->
  pkg_at s source height = Some hb -> tracked hb adds fails fwd acks sfacks -> AckAddHtlcs src refs s = Ok s' ->
  exists hb', pkg_at s' source height = Some hb' /\
    tracked hb' adds fails fwd (acks ++ op_acks source height (FAckAdds src refs)) sfacks.
Proof.
  intros [Hw Hu] Hi Hp Ht H. unfold AckAddHtlcs in H. case_bool_decide as Hn.
  { injection H as <-. exists hb. split; [done|]. apply nil_length_inv in Hn as ->. simpl.
    case_bool_decide; by rewrite app_nil_r. }
  destruct s as [m|]; [|done]. destruct (m !! makeLogKey (ToUint64 src)) as [sb|] eqn:Es; [|done].
  apply obind_ok_inv in H as (sb' & Ha & H). injection H as <-. rewrite pkg_at_source by done.
  simpl in *. case_bool_decide as He; [subst src|exists hb; by rewrite app_nil_r].
  assert (sb !! makeLogKey height = Some hb) as Hb.
  { unfold pkg_at in Hp. simpl in Hp. by rewrite Es in Hp. }
  destruct (ack_group ackAddHtlcsAtHeight sb ((fun a => (AddRef_Height a, AddRef_Index a)) <$> refs) sb' height hb
    local_add Hheight) as [[E1 E2]|(sb1 & sb2 & E1 & E2 & E3)];
    [|exact Ha|done|rewrite filter_refs_snd in *..].
  - rewrite Forall_fmap. exact Hu.
  - exists hb. split; [done|]. by rewrite E1, app_nil_r.
  - rewrite E3. by eapply tracked_acks.
Qed.

Lemma ackAtDests_spec refs dests m m' :
  Forall wf_scid dests -> NoDup dests -> ackAtDests m refs dests = Ok m' ->
  (source ∉ dests -> m' !! makeLogKey (ToUint64 source) = m !! makeLogKey (ToUint64 source)) /\
  (source ∈ dests -> forall sb, m !! makeLogKey (ToUint64 source) = Some sb ->
     exists sb', ackAtHeights ackSettleFailsAtHeight sb
         (map_to_list (group ((fun r => (SettleFailRef_Height r, SettleFailRef_Index r)) <$>
            filter (fun r => SettleFailRef_Source r = source) refs))) = Ok sb' /\
       m' !! makeLogKey (ToUint64 source) = Some sb').
Proof.
  revert m. induction dests as [|d dests IH]; intros m Hw Hnd H; simpl in H.
  { injection H as <-. split; [done|]. by intros ?%not_elem_of_nil. }
  apply Forall_cons in Hw as [Hd Hw]. apply NoDup_cons in Hnd as [Hnin Hnd].
  destruct (m !! makeLogKey (ToUint64 d)) as [sbd|] eqn:Ed.
  - apply obind_ok_inv in H as (sbd' & Ha & H). destruct (IH _ Hw Hnd H) as [H1 H2].
    destruct (decide (d = source)) as [->|Hne].
    + split; [set_solver|]. intros _ sb Hsb. assert (sbd = sb) as -> by congruence. exists sbd'. split; [exact Ha|].
      rewrite (H1 Hnin). apply lookup_insert_eq.
    + assert (makeLogKey (ToUint64 d) <> makeLogKey (ToUint64 source)) as Hk by (intros He; by apply Hne, sourceKey_inj).
      rewrite lookup_insert_ne in H1, H2 by done. split; [intros; apply H1; set_solver|]. intros Hin.
      apply H2. set_solver.
  - destruct (IH _ Hw Hnd H) as [H1 H2]. split; [intros; apply H1; set_solver|]. intros Hin sb Hsb.
    apply H2; [|done]. destruct (decide (d = source)) as [->|]; [congruence|set_solver].
Qed.

Lemma step_sfacks refs s s' hb adds fails fwd acks sfacks :
  op_keys (FAckFails refs) ->
  Forall (fun i => 0 <= i < Z.of_nat (length fails)) (op_sfacks source height (FAckFails refs)) ->
  pkg_at s source height = Some hb -> tracked hb adds fails fwd acks sfacks -> ackSettleFails refs s = Ok s' ->
  exists hb', pkg_at s' source height = Some hb' /\
    tracked hb' adds fails fwd acks (sfacks ++ op_sfacks source height (FAckFails refs)).
Proof.
  intros Hu Hi Hp Ht H. simpl in Hu, Hi |- *. unfold ackSettleFails in H. case_bool_decide as Hn.
  { injection H as <-. exists hb. split; [done|]. apply nil_length_inv in Hn as ->. simpl. by rewrite app_nil_r. }
  destruct s as [m|]; [|done]. apply obind_ok_inv in H as (m' & Ha & H). injection H as <-.
  assert (filter (fun r => SettleFailRef_Source r = source /\ SettleFailRef_Height r = height) refs =
    filter (fun r => SettleFailRef_Height r = height) (filter (fun r => SettleFailRef_Source r = source) refs)) as Hff.
  { rewrite list_filter_filter. apply list_filter_iff. tauto. }
  rewrite Hff in *. destruct (ackAtDests_spec refs (remove_dups (SettleFailRef_Source <$> refs)) m m') as [H1 H2].
  - apply Forall_forall. intros d Hd. rewrite elem_of_remove_dups in Hd. apply list_elem_of_fmap in Hd as (r & -> & Hr).
    rewrite Forall_forall in Hu. by apply Hu.
  - apply NoDup_remove_dups.
  - done.
  - unfold pkg_at in *. simpl in *. destruct (m !! makeLogKey (ToUint64 source)) as [sb|] eqn:Es; [|done]. simpl in Hp.
    destruct (decide (source ∈ remove_dups (SettleFailRef_Source <$> refs))) as [Hin|Hnin].
    + destruct (H2 Hin sb eq_refl) as (sb' & Hsb & ->). simpl.
      destruct (ack_group ackSettleFailsAtHeight sb ((fun r => (SettleFailRef_Height r, SettleFailRef_Index r)) <$>
          filter (fun r => SettleFailRef_Source r = source) refs) sb' height hb local_fails Hheight)
        as [[E1 E2]|(sb1 & sb2 & E1 & E2 & E3)]; [|exact Hsb|done|rewrite filter_refs_snd in *..].
      * rewrite Forall_fmap. apply Forall_forall. intros r [_ Hr]%list_elem_of_filter. rewrite Forall_forall in Hu.
        by apply Hu.
      * exists hb. split; [done|]. by rewrite E1, app_nil_r.
      * rewrite E3. by eapply tracked_sfacks.
    + rewrite (H1 Hnin). simpl. exists hb. split; [done|].
      assert (filter (fun r => SettleFailRef_Source r = source) refs = []) as ->; [|simpl; by rewrite app_nil_r].
      destruct (filter _ refs) as [|r l] eqn:Er; [done|]. exfalso.
      assert (r ∈ filter (fun r => SettleFailRef_Source r = source) refs) as [He Hr]%list_elem_of_filter
        by (rewrite Er; by constructor).
      apply Hnin. rewrite elem_of_remove_dups, <- He. by apply list_elem_of_fmap_2.
Qed.

Lemma step_remove src h s s' hb :
  op_keys (FRemove src h) -> ~ (src = source /\ h = height) ->
  pkg_at s source height = Some hb -> RemovePkg src h s = Ok s' -> pkg_at s' source height = Some hb.
Proof.
  intros [Hw Hh] Hne Hp H. unfold RemovePkg in H. destruct s as [m|]; [|done].
  destruct (m !! makeLogKey (ToUint64 src)) as [sb|] eqn:Es; [|done].
  destruct (sb !! makeLogKey h) as [hb1|]; [|done]. injection H as <-. rewrite pkg_at_source by done.
  case_bool_decide as He; [subst src|done]. rewrite lookup_delete_ne.
  - unfold pkg_at in Hp. simpl in Hp. by rewrite Es in Hp.
  - intros Hk. apply Hne. split; [done|]. by apply makeLogKey_inj.
Qed.

Lemma step_wipe src s s' hb :
  wf_scid src -> src <> source ->
  pkg_at s source height = Some hb -> Wipe src s = Ok s' -> pkg_at s' source height = Some hb.
Proof.
  intros Hw Hne Hp H. unfold Wipe in H. destruct s as [m|]; [|done].
  destruct (m !! makeLogKey (ToUint64 src)) as [sb|] eqn:Es; [|by injection H as <-]. injection H as <-.
  unfold pkg_at in *. simpl in *. rewrite lookup_delete_ne; [done|]. intros Hk. by apply Hne, sourceKey_inj.
Qed.

Lemma step_tracked op s s' hb adds fails fwd acks sfacks :
  op_keeps source height (length adds) (length fails) op -> run_fop op s = Ok s' ->
  pkg_at s source height = Some hb -> tracked hb adds fails fwd acks sfacks ->
  exists hb', pkg_at s' source height = Some hb' /\
    tracked hb' adds fails (match fwd with Some f => Some f | None => op_filter source height op end)
      (acks ++ op_acks source height op) (sfacks ++ op_sfacks source height op).
Proof.
  intros (Hk & Hm & Ha & Hf & Hw) H Hp Ht.
  assert (tracked hb adds fails (match fwd with Some f => Some f | None => None end) (acks ++ []) (sfacks ++ [])) as Ht'.
  { rewrite !app_nil_r. by destruct fwd. }
  destruct op; cbn [run_fop] in H.
  - exists hb. split; [by eapply step_add|exact Ht'].
  - destruct (step_filter _ _ _ _ _ _ _ _ _ _ _ Hk Hw Hp Ht H) as (hb' & ? & Ht1). exists hb'. split; [done|].
    cbn [op_acks op_sfacks]. by rewrite !app_nil_r.
  - destruct (step_acks _ _ _ _ _ _ _ _ _ _ Hk Ha Hp Ht H) as (hb' & ? & Ht1). exists hb'. split; [done|].
    cbn [op_filter op_sfacks]. rewrite app_nil_r. by destruct fwd.
  - destruct (step_sfacks _ _ _ _ _ _ _ _ _ Hk Hf Hp Ht H) as (hb' & ? & Ht1). exists hb'. split; [done|].
    cbn [op_filter op_acks]. rewrite app_nil_r. by destruct fwd.
  - exists hb. split; [by eapply step_remove|exact Ht'].
  - exists hb. split; [by eapply step_wipe|exact Ht'].
Qed.

End one.

(** ** Sequences of operations *)

Definition run_fops (ops : list fop) (s : fwdStore) : fwdStore := foldl (fun s op => exec_fop op s) s ops.

(** The operations whose transaction committed. *)
Fixpoint succeeded (ops : list fop) (s : fwdStore) : list fop :=
  match ops with
  | [] => []
  | op :: ops => if is_ok (run_fop op s) then op :: succeeded ops (exec_fop op s) else succeeded ops (exec_fop op s)
  end.

(** The first filter that was set. *)
Definition first_filter (source : ShortChannelID) (height : Z) (ops : list fop) : option PkgFilter.t :=
  head (omap (op_filter source height) ops).

Lemma steps_tracked source height ops s hb adds fails fwd acks sfacks :
  wf_scid source -> in_u 64 height -> Forall (op_keeps source height (length adds) (length fails)) ops ->
  pkg_at s source height = Some hb -> tracked hb adds fails fwd acks sfacks ->
  exists hb', pkg_at (run_fops ops s) source height = Some hb' /\
    tracked hb' adds fails
      (match fwd with Some f => Some f | None => first_filter source height (succeeded ops s) end)
      (acks ++ (succeeded ops s ≫= op_acks source height)) (sfacks ++ (succeeded ops s ≫= op_sfacks source height)).
Proof.
  intros Hs Hh. revert s hb fwd acks sfacks. induction ops as [|op ops IH]; intros s hb fwd acks sfacks Hk Hp Ht.
  { exists hb. split; [done|]. simpl. rewrite !app_nil_r. by destruct fwd. }
  apply Forall_cons in Hk as [Hk1 Hk]. simpl. unfold exec_fop.
  destruct (run_fop op s) as [s1|e|] eqn:Er; [|by eapply IH..]. cbn [is_ok].
  destruct (step_tracked source height Hs Hh op s s1 hb adds fails fwd acks sfacks Hk1 Er Hp Ht) as (hb1 & Hp1 & Ht1).
  destruct (IH s1 hb1 _ _ _ Hk Hp1 Ht1) as (hb2 & Hp2 & Ht2). exists hb2. split; [exact Hp2|].
  cbn [mbind list_bind]. rewrite !app_assoc. destruct fwd as [f|]; [done|].
  unfold first_filter. simpl. by destruct (op_filter source height op).
Qed.

Lemma add_tracked source height adds fails s :
  wf_scid source -> in_u 64 height -> Forall storable adds -> Forall storable fails ->
  Z.of_nat (length adds) <= 65528 -> Z.of_nat (length fails) <= 65528 -> pkg_at s source height = None ->
  exists s1 hb, AddFwdPkg (NewFwdPkg source height adds fails) s = Ok s1 /\ pkg_at s1 source height = Some hb /\
    tracked hb adds fails None [] [].
Proof.
  intros Hs Hh Ha Hf Hla Hlf Hn. unfold AddFwdPkg. cbn [NewFwdPkg Pkg_Source Pkg_Height Adds SettleFails AckFilter SettleFailFilter].
  assert (default ∅ (default ∅ s !! makeLogKey (ToUint64 source)) !! makeLogKey height = None) as ->.
  { destruct s as [m|]; simpl; [|by rewrite lookup_empty; simpl; rewrite lookup_empty].
    unfold pkg_at in Hn. simpl in Hn.
    destruct (m !! makeLogKey (ToUint64 source)); simpl; [done|by rewrite lookup_empty]. }
  destruct (put_load adds Ha) as (b1 & Hp1 & Hl1); [lia|]. destruct (put_load fails Hf) as (b2 & Hp2 & Hl2); [lia|].
  cbn [default from_option addBkt failSettleBkt fwdFilterVal]. change (id ?x) with x.
  rewrite Hp1. cbn [obind]. rewrite Hp2. cbn [obind]. eexists _, _. split; [done|].
  split; [rewrite pkg_at_insert by done; by rewrite bool_decide_eq_true_2|].
  split; try done; simpl; by apply holds_new.
Qed.

(** A package filter is the set of the indexes put in it: it contains an
    index exactly if it was set, is full exactly if every index was, and is read
    back from its stored form.  Counts up to 65528, above which rounding up to whole
    bytes wraps around. *)
Theorem PkgFilter_set count indexes :
  0 <= count <= 65528 -> Forall (fun i => 0 <= i < count) indexes ->
  exists f, setAll (PkgFilter.NewPkgFilter count) indexes = Ok f /\
    (forall i, 0 <= i < count -> PkgFilter.Contains f i = Ok (bool_decide (i ∈ indexes))) /\
    (exists b, PkgFilter.IsFull f = Ok b /\ (b = true <-> forall i, 0 <= i < count -> i ∈ indexes)) /\
    decodeFilter (filterBytes f) = Ok f.
Proof.
  intros Hc Hi. destruct (setAll_spec (PkgFilter.NewPkgFilter count) indexes (NewPkgFilter_wf _ Hc) Hi)
    as (f & Hs & Hw & Hcf & Hh). simpl in Hcf.
  assert (holds (Some (filterBytes f)) (Z.to_nat count) indexes) as Hhold.
  { exists f. split_and!; [done|done|lia|]. intros j Hj. rewrite Hh, NewPkgFilter_has by lia. done. }
  destruct (holds_decode _ _ _ Hhold) as (f' & bs & [= <-] & Hd & Hcon & b & Hb & Hfull).
  rewrite (decode_filterBytes f Hw) in Hd. injection Hd as <-. rewrite Z2Nat.id in Hcon, Hfull by lia.
  exists f. split_and!; [done|done|by exists b|by apply decode_filterBytes].
Qed.

(** C31: a forwarding package is never lost or altered.  Once a package of a
    channel and height is added, and whatever operations on other packages, failing
    or not, and acknowledgements of its own HTLCs follow, it loads with the same
    HTLCs in the same order, the forwarding filter that was set first, and as
    acknowledged exactly the indexes that successful operations acknowledged; it is
    complete exactly when the filter is set and everything is acknowledged. *)
Theorem fwdpkg_tracked source height adds fails s ops :
  wf_scid source -> in_u 64 height -> Forall storable adds -> Forall storable fails ->
  Z.of_nat (length adds) <= 65528 -> Z.of_nat (length fails) <= 65528 -> pkg_at s source height = None ->
  Forall (op_keeps source height (length adds) (length fails)) ops ->
  exists s1 m p, AddFwdPkg (NewFwdPkg source height adds fails) s = Ok s1 /\ run_fops ops s1 = Some m /\
    loadFwdPkg m source height = Ok p /\ Adds p = adds /\ SettleFails p = fails /\
    let done := succeeded ops s1 in
    let fwd := first_filter source height done in
    let acks := done ≫= op_acks source height in
    let sfacks := done ≫= op_sfacks source height in
    FwdFilter p = default (PkgFilter.NewPkgFilter (Z.of_nat (length adds))) fwd /\
    (forall i, 0 <= i < Z.of_nat (length adds) ->
       PkgFilter.Contains (AckFilter p) i = Ok (bool_decide (i ∈ acks))) /\
    (forall i, 0 <= i < Z.of_nat (length fails) ->
       PkgFilter.Contains (SettleFailFilter p) i = Ok (bool_decide (i ∈ sfacks))) /\
    (State p = FwdStateCompleted <-> is_Some fwd /\
       (forall i, 0 <= i < Z.of_nat (length adds) -> i ∈ acks) /\
       (forall i, 0 <= i < Z.of_nat (length fails) -> i ∈ sfacks)).
Proof.
  intros Hs Hh Ha Hf Hla Hlf Hn Hk. destruct (add_tracked source height adds fails s) as (s1 & hb & Hadd & Hp & Ht); try done.
  destruct (steps_tracked source height ops s1 hb adds fails None [] [] Hs Hh Hk Hp Ht) as (hb' & Hp' & Ht').
  destruct (run_fops ops s1) as [m|] eqn:Em; [|done]. simpl in Ht'.
  destruct (load_tracked m source height hb' _ _ _ _ _ Hp' Ht') as (p & Hl & _ & _ & H1 & H2 & H3 & H4 & H5 & _ & H7).
  rewrite u16_length in H3 by lia. exists s1, m, p. split_and!; done.
Qed.

End store.

(** ** A concrete package *)

Section witnesses.
#[local] Existing Instances btcec_model btcec_model_laws tlv_model tlv_model_laws
  zlib_model zlib_model_laws tor_model tor_model_laws.

Lemma PkgFilter_set_witness :
  exists f, setAll (PkgFilter.NewPkgFilter 11) [10; 3; 3] = Ok f /\
    (forall i, 0 <= i < 11 -> PkgFilter.Contains f i = Ok (bool_decide (i ∈ [10; 3; 3]))) /\
    (exists b, PkgFilter.IsFull f = Ok b /\ (b = true <-> forall i, 0 <= i < 11 -> i ∈ [10; 3; 3])) /\
    decodeFilter (filterBytes f) = Ok f.
Proof. apply (PkgFilter_set 11 [10; 3; 3]); [lia|repeat constructor; lia]. Defined.

Definition example_source : ShortChannelID := mkShortChannelID 600000 12 1.

Definition example_settle (i : Z) : LogUpdate :=
  mkUpdate i (MUpdateFulfillHTLC (UpdateFulfillHTLC.mk (replicate 32 x05) i (replicate 32 x09) [])).

Lemma example_settle_storable i : 0 <= i < 100 -> storable (example_settle i).
Proof.
  intros Hi. unfold storable. simpl LogIndex. simpl UpdateMsg. split_and!.
  - unfold in_u. lia.
  - simpl. unfold UpdateFulfillHTLC.wf, in_u. simpl. split_and!; try done; lia.
  - done.
  - reflexivity.
Qed.

(** Two settles; one is acknowledged twice, the filter is set twice, another
    package is added and removed, and an acknowledgement fails. *)
Definition example_fops : list fop :=
  [FAckFails [mkSettleFailRef example_source 7 1; mkSettleFailRef example_source 8 4];
   FSetFilter example_source 7 (PkgFilter.NewPkgFilter 0);
   FAdd (NewFwdPkg example_source 8 [] [example_settle 3]);
   FAckFails [mkSettleFailRef example_source 7 0; mkSettleFailRef example_source 7 1];
   FSetFilter example_source 9 (PkgFilter.NewPkgFilter 5);
   FRemove example_source 8].

Lemma fwdpkg_tracked_witness :
  let adds := [] in
  let fails := [example_settle 1; example_settle 2] in
  exists s1 m p, AddFwdPkg (NewFwdPkg example_source 7 adds fails) None = Ok s1 /\ run_fops example_fops s1 = Some m /\
    loadFwdPkg m example_source 7 = Ok p /\ Adds p = adds /\ SettleFails p = fails /\
    let done := succeeded example_fops s1 in
    let fwd := first_filter example_source 7 done in
    let acks := done ≫= op_acks example_source 7 in
    let sfacks := done ≫= op_sfacks example_source 7 in
    FwdFilter p = default (PkgFilter.NewPkgFilter (Z.of_nat (length adds))) fwd /\
    (forall i, 0 <= i < Z.of_nat (length adds) ->
       PkgFilter.Contains (AckFilter p) i = Ok (bool_decide (i ∈ acks))) /\
    (forall i, 0 <= i < Z.of_nat (length fails) ->
       PkgFilter.Contains (SettleFailFilter p) i = Ok (bool_decide (i ∈ sfacks))) /\
    (State p = FwdStateCompleted <-> is_Some fwd /\
       (forall i, 0 <= i < Z.of_nat (length adds) -> i ∈ acks) /\
       (forall i, 0 <= i < Z.of_nat (length fails) -> i ∈ sfacks)).
Proof.
  assert (wf_scid example_source) as Hs by (unfold wf_scid, in_u; simpl; lia).
  intros adds fails. apply (fwdpkg_tracked example_source 7 adds fails None example_fops).
  - exact Hs.
  - unfold in_u. lia.
  - constructor.
  - repeat constructor; apply example_settle_storable; lia.
  - simpl. lia.
  - simpl. lia.
  - reflexivity.
  - repeat constructor; simpl; try exact Hs; try (unfold in_u; lia); try lia; try done.
Defined.

End witnesses.
