(* ===== verification/ChannelState.v ===== *)
(** * lnwallet: the state of a channel

    The data of the channel state machine of lnwallet/channel.go: the
    [commitment] type with [locateOutputIndex], [populateHtlcIndexes] and
    [toDiskCommit], the channel record [LightningChannel] with the parts of
    [channeldb.OpenChannel] it works on, the channel's bucket in the database
    (channeldb/channel.go), and the monad in which the operations are written.

    The database bucket of a channel holds structured values: the key-value store and the
    serialisation of a bucket are not modelled here.  The signer, the key
    derivation, the revocation producer and store, and the signature checks are
    parameters (class [ChanEnv]). *)

From Stdlib Require Import ZArith Lia.
From S2P Require Import Prelude Wire WireMessages Amounts OpReturn UpdateLog CommitTx.

Local Open Scope Z_scope.
Local Open Scope go_scope.

(** ** Channel identifiers (lnwire/channel_id.go) *)

(** [cid[30] ^= buf[0]; cid[31] ^= buf[1]]. *)
Definition xorTxid (cid : list byte) (outputIndex : Z) : list byte :=
  let buf := be_put 2 outputIndex in
  imap (fun i b =>
    match buf !! (i - 30)%nat with
    | Some x => if bool_decide (30 <= i)%nat
                then byte_of_Z (Z.lxor (byte_Z b) (byte_Z x)) else b
    | None => b
    end) cid.

Definition NewChanIDFromOutPoint (op : OutPoint) : list byte :=
  xorTxid (Hash op) (u16 (Wire.Index op)).

(** ** Commitments *)

Module Commitment.

Record commitment := mk {
  height : Z;
  isOurs : bool;
  ourMessageIndex : Z;
  theirMessageIndex : Z;
  ourHtlcIndex : Z;
  theirHtlcIndex : Z;
  txn : MsgTx;
  sig : list byte;
  ourBtcBalance : Z;
  theirBtcBalance : Z;
  ourAssetBalance : Z;
  theirAssetBalance : Z;
  fee : Z;
  feePerKw : Z;
  dustLimit : Z;
  outgoingHTLCs : list PaymentDescriptor;
  incomingHTLCs : list PaymentDescriptor;
  outgoingHTLCIndex : gmap Z nat;
  incomingHTLCIndex : gmap Z nat;
}.

Definition set_sig (c : commitment) (s : list byte) : commitment :=
  {| height := height c; isOurs := isOurs c; ourMessageIndex := ourMessageIndex c;
     theirMessageIndex := theirMessageIndex c; ourHtlcIndex := ourHtlcIndex c;
     theirHtlcIndex := theirHtlcIndex c; txn := txn c; sig := s;
     ourBtcBalance := ourBtcBalance c; theirBtcBalance := theirBtcBalance c;
     ourAssetBalance := ourAssetBalance c; theirAssetBalance := theirAssetBalance c;
     fee := fee c; feePerKw := feePerKw c; dustLimit := dustLimit c;
     outgoingHTLCs := outgoingHTLCs c; incomingHTLCs := incomingHTLCs c;
     outgoingHTLCIndex := outgoingHTLCIndex c; incomingHTLCIndex := incomingHTLCIndex c |}.

End Commitment.
#[global] Abbreviation commitment := Commitment.commitment.

(** *** Locating the HTLC outputs *)

(** The map from payment hashes to the indexes already taken, as a list of
    pairs. *)
Definition dupSet : Type := list (list byte * Z).

(** The loop over the outputs; [cltvs[i]] panics when the list is too short. *)
Fixpoint locateLoop (pkScript : list byte) (p : PaymentDescriptor) (dups : dupSet)
    (outs : list TxOut) (cltvs : list Z) (i : Z) : outcome chan_err Z :=
  match outs with
  | [] => Err ErrHtlcIndexNotLocated
  | txOut :: outs' =>
      match cltvs with
      | [] => Panic
      | cltv :: cltvs' =>
          if bool_decide (PkScript txOut = pkScript) &&
             bool_decide (Value txOut = ToSatoshis (BtcAmount p)) &&
             bool_decide (cltv = Timeout p)
          then if bool_decide ((RHash p, i) ∈ dups)
               then locateLoop pkScript p dups outs' cltvs' (i + 1)
               else Ok i
          else locateLoop pkScript p dups outs' cltvs' (i + 1)
      end
  end.

(** An OP_RETURN output at the front has value zero and no CLTV. *)
Definition locateOutputIndex (p : PaymentDescriptor) (tx : MsgTx) (ourCommit : bool)
    (dups : dupSet) (cltvs : list Z) : outcome chan_err (Z * dupSet) :=
  let pkScript := if ourCommit then ourPkScript (output p) else theirPkScript (output p) in
  match TxOuts tx with
  | [] => Panic
  | first :: _ =>
      let cltvs := if bool_decide (Value first = 0) then 0 :: cltvs else cltvs in
      idx <~ locateLoop pkScript p dups (TxOuts tx) cltvs 0 ;
      Ok (idx, (RHash p, idx) :: dups)
  end.

(** [populateIndex] over one of the two slices: the descriptors with their
    output index, the positions by output index (only for our own commitment),
    and the indexes taken. *)
Fixpoint populateIndexes (tx : MsgTx) (isOurs : bool) (cltvs : list Z) (pos : nat)
    (l : list PaymentDescriptor) (dups : dupSet) (index : gmap Z nat) :
    outcome chan_err (list PaymentDescriptor * dupSet * gmap Z nat) :=
  match l with
  | [] => Ok ([], dups, index)
  | htlc :: l' =>
      '(idx, dups) <~ locateOutputIndex htlc tx isOurs dups cltvs ;
      let htlc := alter_output (fun o =>
        if isOurs then mkHtlcOutput (ourPkScript o) (theirPkScript o) idx (remoteOutputIndex o)
        else mkHtlcOutput (ourPkScript o) (theirPkScript o) (localOutputIndex o) idx) htlc in
      let index := if isOurs then <[idx := pos]> index else index in
      '(l', dups, index) <~ populateIndexes tx isOurs cltvs (S pos) l' dups index ;
      Ok (htlc :: l', dups, index)
  end.

Definition populateHtlcIndexes (c : commitment) (cltvs : list Z) : outcome chan_err commitment :=
  '(outgoing, dups, outIndex) <~
    populateIndexes (Commitment.txn c) (Commitment.isOurs c) cltvs 0 (Commitment.outgoingHTLCs c) [] ∅ ;
  '(incoming, _, inIndex) <~
    populateIndexes (Commitment.txn c) (Commitment.isOurs c) cltvs 0 (Commitment.incomingHTLCs c) dups ∅ ;
  Ok {| Commitment.height := Commitment.height c; Commitment.isOurs := Commitment.isOurs c;
        Commitment.ourMessageIndex := Commitment.ourMessageIndex c;
        Commitment.theirMessageIndex := Commitment.theirMessageIndex c;
        Commitment.ourHtlcIndex := Commitment.ourHtlcIndex c;
        Commitment.theirHtlcIndex := Commitment.theirHtlcIndex c;
        Commitment.txn := Commitment.txn c; Commitment.sig := Commitment.sig c;
        Commitment.ourBtcBalance := Commitment.ourBtcBalance c;
        Commitment.theirBtcBalance := Commitment.theirBtcBalance c;
        Commitment.ourAssetBalance := Commitment.ourAssetBalance c;
        Commitment.theirAssetBalance := Commitment.theirAssetBalance c;
        Commitment.fee := Commitment.fee c; Commitment.feePerKw := Commitment.feePerKw c;
        Commitment.dustLimit := Commitment.dustLimit c;
        Commitment.outgoingHTLCs := outgoing; Commitment.incomingHTLCs := incoming;
        Commitment.outgoingHTLCIndex := outIndex; Commitment.incomingHTLCIndex := inIndex |}.

(** ** What is written to the database (channeldb/channel.go) *)

Record HTLC := mkHTLC {
  HTLC_RHash : list byte;
  HTLC_BtcAmt : Z;
  HTLC_AssetAmt : Z;
  HTLC_RefundTimeout : Z;
  HTLC_OutputIndex : Z;
  HTLC_Incoming : bool;
  HTLC_OnionBlob : list byte;
  HTLC_HtlcIndex : Z;
  HTLC_LogIndex : Z;
}.

Record ChannelCommitment := mkChannelCommitment {
  CommitHeight : Z;
  LocalLogIndex : Z;
  LocalHtlcIndex : Z;
  RemoteLogIndex : Z;
  RemoteHtlcIndex : Z;
  LocalBtcBalance : Z;
  RemoteBtcBalance : Z;
  LocalAssetBalance : Z;
  RemoteAssetBalance : Z;
  CommitFee : Z;
  FeePerKw : Z;
  CommitTx : MsgTx;
  CommitSig : list byte;
  Htlcs : list HTLC;
}.

Definition toDiskHtlc (ourCommit incoming : bool) (htlc : PaymentDescriptor) : HTLC :=
  {| HTLC_RHash := RHash htlc; HTLC_BtcAmt := BtcAmount htlc; HTLC_AssetAmt := AssetAmount htlc;
     HTLC_RefundTimeout := Timeout htlc;
     HTLC_OutputIndex := if ourCommit then localOutputIndex (output htlc)
                         else remoteOutputIndex (output htlc);
     HTLC_Incoming := incoming; HTLC_OnionBlob := OnionBlob htlc;
     HTLC_HtlcIndex := HtlcIndex htlc; HTLC_LogIndex := LogIndex htlc |}.

Definition toDiskCommit (ourCommit : bool) (c : commitment) : ChannelCommitment :=
  {| CommitHeight := Commitment.height c;
     LocalLogIndex := Commitment.ourMessageIndex c; LocalHtlcIndex := Commitment.ourHtlcIndex c;
     RemoteLogIndex := Commitment.theirMessageIndex c; RemoteHtlcIndex := Commitment.theirHtlcIndex c;
     LocalBtcBalance := Commitment.ourBtcBalance c; RemoteBtcBalance := Commitment.theirBtcBalance c;
     LocalAssetBalance := Commitment.ourAssetBalance c;
     RemoteAssetBalance := Commitment.theirAssetBalance c;
     CommitFee := Commitment.fee c; FeePerKw := Commitment.feePerKw c;
     CommitTx := Commitment.txn c; CommitSig := Commitment.sig c;
     Htlcs := (toDiskHtlc ourCommit false <$> Commitment.outgoingHTLCs c) ++
              (toDiskHtlc ourCommit true <$> Commitment.incomingHTLCs c) |}.

(** [channeldb.LogUpdate]: the wire message of an update with its log index. *)
Inductive updateMsg : Type :=
  | UAdd (m : UpdateAddHTLC.t)
  | UFulfill (m : UpdateFulfillHTLC.t)
  | UFail (m : UpdateFailHTLC.t)
  | UMalformed (m : UpdateFailMalformedHTLC.t)
  | UFee (m : UpdateFee.t).

Record LogUpdate := mkLogUpdate { LogUpdate_LogIndex : Z; UpdateMsg : updateMsg }.

Record CommitDiff := mkCommitDiff {
  Diff_Commitment : ChannelCommitment;
  Diff_CommitSig : list byte;
  Diff_HtlcSigs : list (list byte);
  LogUpdates : list LogUpdate;
  OpenedCircuitKeys : list CircuitKey;
  ClosedCircuitKeys : list CircuitKey;
  AddAcks : list AddRef;
  SettleFailAcks : list SettleFailRef;
}.

(** A forwarding package without its three filters, which start empty. *)
Record FwdPkg := mkFwdPkg {
  FwdPkg_Source : ShortChannelID;
  FwdPkg_Height : Z;
  Adds : list LogUpdate;
  SettleFails : list LogUpdate;
}.

(** ** The environment *)

Class ChanEnv {BT : Btcec} := {
  env_scripts :: Scripts;
  revStore : Type;
  IsEqual : pubkey -> pubkey -> bool;
  DeriveCommitmentKeys : pubkey -> bool -> keyRing;
  ComputeCommitmentPoint : list byte -> pubkey;
  AtIndex : Z -> option (list byte);
  AddNextEntry : revStore -> list byte -> option revStore;
  SignOutputRaw : MsgTx -> option (list byte);
  signHtlcs : keyRing -> commitment -> option (list (list byte));
  GetTransactionWeight : MsgTx -> Z;
  checkCommitSig : MsgTx -> list byte -> bool;
  checkHtlcSigs : keyRing -> commitment -> list (list byte) -> bool;
  sha256 : list byte -> list byte;
}.

(** The numbers of [OpenChannel] that only count. *)
Record chanTotals := mkTotals {
  TotalMSatSent : Z;
  TotalMSatReceived : Z;
  TotalAssetSent : Z;
  TotalAssetReceived : Z;
}.

Section state.
Context {BT : Btcec} {E : ChanEnv}.

(** The revocation state of [OpenChannel]; a nil key is [None]. *)
Record revocationState := mkRevState {
  RevocationStore : revStore;
  RemoteCurrentRevocation : option pubkey;
  RemoteNextRevocation : option pubkey;
}.

(** The channel's bucket in the database. *)
Record chanBucket := mkBucket {
  db_localCommitment : ChannelCommitment;
  db_remoteCommitment : ChannelCommitment;
  db_commitDiff : option CommitDiff;
  db_unsignedAckedUpdates : option (list LogUpdate);
  db_remoteUnsignedLocalUpdates : option (list LogUpdate);
  db_lastWasRevoke : bool;
  db_revocationLog : list ChannelCommitment;
  db_fwdPkgs : list FwdPkg;
  db_totals : chanTotals;
  db_revocation : revocationState;
  db_borked : bool;
}.

(** [LightningChannel] with the mutable fields of its [channelState]. *)
Record LightningChannel := mkChannel {
  cfg : ChanCfg;
  ShortChanID : ShortChannelID;
  isRestored : bool;
  currentHeight : Z;
  localCommitChain : list commitment;
  remoteCommitChain : list commitment;
  localUpdateLog : updateLog;
  remoteUpdateLog : updateLog;
  totals : chanTotals;
  revocation : revocationState;
  LocalCommitment : ChannelCommitment;
  RemoteCommitment : ChannelCommitment;
  bucket : chanBucket;
}.

Definition set_logs (lc : LightningChannel) (l r : updateLog) : LightningChannel :=
  {| cfg := cfg lc; ShortChanID := ShortChanID lc; isRestored := isRestored lc;
     currentHeight := currentHeight lc; localCommitChain := localCommitChain lc;
     remoteCommitChain := remoteCommitChain lc; localUpdateLog := l; remoteUpdateLog := r;
     totals := totals lc; revocation := revocation lc; LocalCommitment := LocalCommitment lc;
     RemoteCommitment := RemoteCommitment lc; bucket := bucket lc |}.

Definition set_chains (lc : LightningChannel) (l r : list commitment) (h : Z) : LightningChannel :=
  {| cfg := cfg lc; ShortChanID := ShortChanID lc; isRestored := isRestored lc;
     currentHeight := h; localCommitChain := l; remoteCommitChain := r;
     localUpdateLog := localUpdateLog lc; remoteUpdateLog := remoteUpdateLog lc;
     totals := totals lc; revocation := revocation lc; LocalCommitment := LocalCommitment lc;
     RemoteCommitment := RemoteCommitment lc; bucket := bucket lc |}.

Definition set_totals (lc : LightningChannel) (t : chanTotals) : LightningChannel :=
  {| cfg := cfg lc; ShortChanID := ShortChanID lc; isRestored := isRestored lc;
     currentHeight := currentHeight lc; localCommitChain := localCommitChain lc;
     remoteCommitChain := remoteCommitChain lc; localUpdateLog := localUpdateLog lc;
     remoteUpdateLog := remoteUpdateLog lc; totals := t; revocation := revocation lc;
     LocalCommitment := LocalCommitment lc; RemoteCommitment := RemoteCommitment lc;
     bucket := bucket lc |}.

Definition set_revocation (lc : LightningChannel) (r : revocationState) : LightningChannel :=
  {| cfg := cfg lc; ShortChanID := ShortChanID lc; isRestored := isRestored lc;
     currentHeight := currentHeight lc; localCommitChain := localCommitChain lc;
     remoteCommitChain := remoteCommitChain lc; localUpdateLog := localUpdateLog lc;
     remoteUpdateLog := remoteUpdateLog lc; totals := totals lc; revocation := r;
     LocalCommitment := LocalCommitment lc; RemoteCommitment := RemoteCommitment lc;
     bucket := bucket lc |}.

Definition set_db (lc : LightningChannel) (l r : ChannelCommitment) (b : chanBucket) :
    LightningChannel :=
  {| cfg := cfg lc; ShortChanID := ShortChanID lc; isRestored := isRestored lc;
     currentHeight := currentHeight lc; localCommitChain := localCommitChain lc;
     remoteCommitChain := remoteCommitChain lc; localUpdateLog := localUpdateLog lc;
     remoteUpdateLog := remoteUpdateLog lc; totals := totals lc; revocation := revocation lc;
     LocalCommitment := l; RemoteCommitment := r; bucket := b |}.

(** ** The monad of the operations

    An operation of the state machine mutates the channel in place: what it has
    changed before an error stays changed. *)

Definition M (A : Type) : Type := LightningChannel -> outcome chan_err A * LightningChannel.

Definition cret {A} (a : A) : M A := fun lc => (Ok a, lc).
Definition cfail {A} (e : chan_err) : M A := fun lc => (Err e, lc).
Definition clift {A} (o : outcome chan_err A) : M A := fun lc => (o, lc).
Definition cget : M LightningChannel := fun lc => (Ok lc, lc).
Definition cput (f : LightningChannel -> LightningChannel) : M unit := fun lc => (Ok tt, f lc).

Definition cbind {A B} (m : M A) (k : A -> M B) : M B := fun lc =>
  match m lc with
  | (Ok a, lc') => k a lc'
  | (Err e, lc') => (Err e, lc')
  | (Panic, lc') => (Panic, lc')
  end.

(** [unit]-outcomes of the log and chain operations, which can only panic. *)
Definition or_panic {A} (m : outcome unit A) : outcome chan_err A :=
  match m with Ok a => Ok a | _ => Panic end.

End state.

Notation "x <== m ; k" := (cbind m (fun x => k))
  (at level 20, m at level 100, k at level 200, only parsing) : go_scope.
Notation "' x <== m ; k" := (cbind m (fun x => k))
  (at level 20, x pattern, m at level 100, k at level 200, only parsing) : go_scope.
