(* ===== verification/CloseTx.v ===== *)
(** * lnwallet: cooperative close transactions

    Models the closing part of lnwallet/channel.go: the transactions that pay out a
    channel, in one piece ([CreateCooperativeCloseTx]) or, for an asset, as one or
    two simple sends ([OB_AssetCreateCooperativeCloseTx]); proposing and completing a
    close; and the marks that a close leaves in the database (channeldb/channel.go).

    Signing, the script engine, transaction hashes and the standard order of outputs
    are functions of btcd and of the wallet (class [CloseLib]); a signature script is
    the list of what it pushes.

    The last part instantiates the library by concrete functions. *)

From Stdlib Require Import ZArith Lia Sorted.
From stdpp Require Import sorting.
From S2P Require Import Prelude Wire Amounts OpReturn UpdateLog CommitTx Signature ChannelState.

Local Open Scope Z_scope.
Local Open Scope go_scope.

(** ** Library code *)

Class CloseLib := {
  ecSig : Type;
  Serialize : ecSig -> list byte;
  ParseDERSignature : list byte -> option ecSig;
  GenMultiSigScript : list byte -> list byte -> list byte;
  GenerateP2SH : list byte -> list byte;
  InPlaceSort : MsgTx -> MsgTx;
  CheckTxSanity : MsgTx -> bool;
  SignOutput : list byte -> list byte -> MsgTx -> option ecSig;
  Execute : list byte -> MsgTx -> list (list byte) -> Z -> bool;
  TxHash : MsgTx -> list (list byte) -> list byte;
}.

(** What the code relies on.  Signatures are serialised canonically and parsed
    back.  The script of a channel does not depend on whose key comes first.  Sorting
    reorders outputs and leaves nothing to the order they came in.  The engine accepts
    two signatures of the two keys of a channel, in the order of the keys. *)
Class CloseLaws {CL : CloseLib} : Prop := {
  serialize_canonical e : exists r s, Serialize e = der r s /\ canonical r /\ canonical s;
  parse_serialize e : ParseDERSignature (Serialize e) = Some e;
  multisig_sym a b : GenMultiSigScript a b = GenMultiSigScript b a;
  sort_canonical tx tx' : TxIns tx = TxIns tx' -> LockTime tx = LockTime tx' ->
    Permutation (TxOuts tx) (TxOuts tx') -> InPlaceSort tx = InPlaceSort tx';
  sort_perm tx : Permutation (TxOuts (InPlaceSort tx)) (TxOuts tx);
  execute_multisig a b tx sa sb v :
    bytes_compare a b <> Gt ->
    SignOutput a (GenMultiSigScript a b) tx = Some sa -> SignOutput b (GenMultiSigScript a b) tx = Some sb ->
    Execute (GenerateP2SH (GenMultiSigScript a b)) tx
      [[]; Serialize sa ++ [x01]; Serialize sb ++ [x01]; GenMultiSigScript a b] v = true;
}.

(** ** The state of a closing channel *)

Inductive channelStatus : Type :=
  channelPending | channelOpen | channelClosing | channelClosed | channelDispute | channelPendingPayment.
#[global] Instance channelStatus_eq_dec : EqDecision channelStatus.
Proof. solve_decision. Defined.

Definition ChanStatusCoopBroadcasted : Z := Z.shiftl 1 4.
Definition ChanStatusLocalCloseInitiator : Z := Z.shiftl 1 5.
Definition ChanStatusRemoteCloseInitiator : Z := Z.shiftl 1 6.
Definition AbsoluteThawHeightThreshold : Z := 500000.

(** A transaction with the script of its only input. *)
Record signedTx := mkSigned { unsigned : MsgTx; SignatureScript : list (list byte) }.

(** The fields of [LightningChannel] and of its [channelState] that closing reads
    and writes; [dbChanStatus] and [dbCloseTx] are in the channel's bucket. *)
Record closeChan := mkCloseChan {
  chanCfg : ChanCfg;
  localCommit : ChannelCommitment;
  scid : ShortChannelID;
  IsPending : bool;
  ourKey : list byte;
  theirKey : list byte;
  status : channelStatus;
  chanStatus : Z;
  dbChanStatus : Z;
  dbCloseTx : option signedTx;
}.

Definition set_status (c : closeChan) (s : channelStatus) : closeChan :=
  {| chanCfg := chanCfg c; localCommit := localCommit c; scid := scid c; IsPending := IsPending c; ourKey := ourKey c;
     theirKey := theirKey c; status := s; chanStatus := chanStatus c; dbChanStatus := dbChanStatus c;
     dbCloseTx := dbCloseTx c |}.
Definition set_broadcasted (c : closeChan) (st : Z) (tx : option signedTx) : closeChan :=
  {| chanCfg := chanCfg c; localCommit := localCommit c; scid := scid c; IsPending := IsPending c; ourKey := ourKey c;
     theirKey := theirKey c; status := status c; chanStatus := st; dbChanStatus := st; dbCloseTx := tx |}.

Inductive close_chan_err : Type :=
  | ErrChanClosing
  | ErrCloseBalance (e : chan_err)
  | ErrCloseSanity
  | ErrCloseSign
  | ErrCloseScript
  | ErrRelativeThawHeight
  | ErrCloseDB.

Section close.
Context {CL : CloseLib}.

(** ** The transactions *)

Definition fundingTxIn (c : closeChan) : TxIn := mkTxIn (FundingOutpoint (chanCfg c)) (2 ^ 32 - 1).

(** The outputs of the balances that are not dust; the amounts of the asset are
    collected beside them. *)
Definition CreateCooperativeCloseTx (amts : PksAmounts) (fundingTxIn : TxIn)
    (localDust remoteDust ourBalance theirBalance ourAssetBalance theirAssetBalance : Z)
    (ourDeliveryScript theirDeliveryScript : list byte) : MsgTx * PksAmounts :=
  let outs := if bool_decide (localDust <= ourBalance) then [mkTxOut ourBalance ourDeliveryScript] else [] in
  let amts := if bool_decide (localDust <= ourBalance) then PksAdd amts ourDeliveryScript ourAssetBalance else amts in
  let outs := if bool_decide (remoteDust <= theirBalance) then outs ++ [mkTxOut theirBalance theirDeliveryScript] else outs in
  let amts := if bool_decide (remoteDust <= theirBalance) then PksAdd amts theirDeliveryScript theirAssetBalance else amts in
  (InPlaceSort {| TxIns := [fundingTxIn]; TxOuts := outs; LockTime := 0 |}, amts).

(** The callers drop the error of attaching the payload. *)
Definition attach (m : outcome op_err MsgTx) (tx : MsgTx) : outcome close_chan_err MsgTx :=
  match m with Ok tx => Ok tx | Err _ => Ok tx | Panic => Panic end.

(** Who is paid by which transaction: a script, satoshis and an asset amount.  A party
    without the asset has no transaction, and the other one saves its fee. *)
Definition assetCloseParts (fee ourBalance theirBalance ourAssetBalance theirAssetBalance : Z)
    (ourDeliveryScript theirDeliveryScript : list byte) : (list byte * Z * Z) * (list byte * Z * Z) :=
  let '(tx1Pk, tx1Balance, tx1Asset, tx2Balance, tx2Asset) :=
    if bool_decide (ourAssetBalance = 0) then (theirDeliveryScript, theirBalance, theirAssetBalance, 0, 0)
    else (ourDeliveryScript, ourBalance, ourAssetBalance, theirBalance, theirAssetBalance) in
  let tx1Balance := if bool_decide (tx2Asset = 0) then i64 (tx1Balance + fee) else tx1Balance in
  if bool_decide (0 < tx1Asset) && bool_decide (0 < tx2Asset) &&
     bool_decide (bytes_compare ourDeliveryScript theirDeliveryScript = Gt)
  then ((theirDeliveryScript, theirBalance, theirAssetBalance), (ourDeliveryScript, ourBalance, ourAssetBalance))
  else ((tx1Pk, tx1Balance, tx1Asset), (theirDeliveryScript, tx2Balance, tx2Asset)).

(** Two simple sends: the first pays one party and puts the rest back to the
    funding script, the second spends that rest.  The second has no input when only
    one party holds the asset. *)
Definition assetSends (assetId cap fee : Z) (fundingPkScript : list byte) (fundingTxIn : TxIn)
    (part1 part2 : list byte * Z * Z) : outcome close_chan_err (MsgTx * MsgTx) :=
  let '(tx1Pk, tx1Balance, tx1Asset) := part1 in
  let '(tx2Pk, tx2Balance, tx2Asset) := part2 in
  let changeBalance := i64 (i64 (cap - tx1Balance) - fee) in
  let closeTx1 := {| TxIns := [fundingTxIn]; TxOuts := []; LockTime := 0 |} in
  closeTx1 <~ (if bool_decide (0 <= tx1Asset) then
                 tx <~ attach (OpreturnSimple.AddOpReturnToTx (OpreturnSimple.mk 0 0 assetId (u64 tx1Asset)) closeTx1) closeTx1 ;
                 let outs := TxOuts tx ++ [mkTxOut tx1Balance tx1Pk] in
                 Ok (set_outs tx (if bool_decide (0 < changeBalance) then outs ++ [mkTxOut changeBalance fundingPkScript] else outs))
               else Ok closeTx1) ;
  let closeTx2 := {| TxIns := []; TxOuts := []; LockTime := 0 |} in
  if bool_decide (0 < tx2Asset) then
    let closeTx2 := {| TxIns := [mkTxIn (mkOutPoint (TxHash closeTx1 []) 2) (2 ^ 32 - 1)]; TxOuts := []; LockTime := 0 |} in
    tx <~ attach (OpreturnSimple.AddOpReturnToTx (OpreturnSimple.mk 0 0 assetId (u64 tx2Asset)) closeTx2) closeTx2 ;
    Ok (closeTx1, set_outs tx (TxOuts tx ++ [mkTxOut tx2Balance tx2Pk]))
  else Ok (closeTx1, closeTx2).

Definition OB_AssetCreateCooperativeCloseTx (assetId cap fee : Z) (fundingPkScript : list byte) (fundingTxIn : TxIn)
    (ourBalance theirBalance ourAssetBalance theirAssetBalance : Z)
    (ourDeliveryScript theirDeliveryScript : list byte) : outcome close_chan_err (MsgTx * MsgTx) :=
  let (part1, part2) := assetCloseParts fee ourBalance theirBalance ourAssetBalance theirAssetBalance
                          ourDeliveryScript theirDeliveryScript in
  assetSends assetId cap fee fundingPkScript fundingTxIn part1 part2.

(** What the two signatures and the script push, in the order of the keys. *)
Definition SpendMultiSigWithoutW (witnessScript pubA : list byte) (sigA : ecSig) (pubB : list byte) (sigB : ecSig) :
    list (list byte) :=
  if bool_decide (bytes_compare pubA pubB = Gt)
  then [[]; Serialize sigB ++ [x01]; Serialize sigA ++ [x01]; witnessScript]
  else [[]; Serialize sigA ++ [x01]; Serialize sigB ++ [x01]; witnessScript].

(** [createSignDesc]: the script of the funding output. *)
Definition witnessScript (c : closeChan) : list byte := GenMultiSigScript (ourKey c) (theirKey c).
Definition fundingPkScript (c : closeChan) : list byte := GenerateP2SH (witnessScript c).

(** ** Proposing and completing a close *)

Definition closeBalance (c : closeChan) (fee : Z) : outcome close_chan_err (Z * Z * Z * Z) :=
  let lc := localCommit c in
  match CoopCloseBalance (IsInitiator (chanCfg c)) fee (LocalBtcBalance lc) (RemoteBtcBalance lc)
          (LocalAssetBalance lc) (RemoteAssetBalance lc) (CommitFee lc) with
  | Ok b => Ok b
  | Err e => Err (ErrCloseBalance e)
  | Panic => Panic
  end.

(** The transaction both functions build for a fee. *)
Definition coopCloseTx (c : closeChan) (fee : Z) (localDeliveryScript remoteDeliveryScript : list byte) :
    outcome close_chan_err MsgTx :=
  b <~ closeBalance c fee ;
  let '(ourBalance, theirBalance, ourAssetBalance, theirAssetBalance) := b in
  let amts := NewPksAmounts (ChanAssetID (chanCfg c)) in
  let '(closeTx, amts) :=
    CreateCooperativeCloseTx amts (fundingTxIn c) (DustLimit (LocalChanCfg (chanCfg c)))
      (DustLimit (RemoteChanCfg (chanCfg c))) ourBalance theirBalance ourAssetBalance theirAssetBalance
      localDeliveryScript remoteDeliveryScript in
  closeTx <~ attach (AddOpReturnToTx closeTx amts) closeTx ;
  if CheckTxSanity closeTx then Ok closeTx else Err ErrCloseSanity.

Definition CreateCloseProposal (c : closeChan) (proposedFee : Z) (localDeliveryScript remoteDeliveryScript : list byte) :
    outcome close_chan_err (ecSig * closeChan) :=
  if bool_decide (status c = channelClosed) then Err ErrChanClosing
  else
    closeTx <~ coopCloseTx c proposedFee localDeliveryScript remoteDeliveryScript ;
    match SignOutput (ourKey c) (witnessScript c) closeTx with
    | None => Err ErrCloseSign
    | Some sig => Ok (sig, set_status c channelClosing)
    end.

Definition CompleteCooperativeClose (c : closeChan) (localSig remoteSig : ecSig)
    (localDeliveryScript remoteDeliveryScript : list byte) (proposedFee : Z) :
    outcome close_chan_err (signedTx * closeChan) :=
  if bool_decide (status c = channelClosed) then Err ErrChanClosing
  else
    closeTx <~ coopCloseTx c proposedFee localDeliveryScript remoteDeliveryScript ;
    let sigScript := SpendMultiSigWithoutW (witnessScript c) (ourKey c) localSig (theirKey c) remoteSig in
    if Execute (fundingPkScript c) closeTx sigScript (BtcCapacity (chanCfg c))
    then Ok (mkSigned closeTx sigScript, set_status c channelClosed)
    else Err ErrCloseScript.

(** The two transactions of an asset close: twice the fee is taken, once for each. *)
Definition assetCloseTxs (c : closeChan) (fee : Z) (localDeliveryScript remoteDeliveryScript : list byte) :
    outcome close_chan_err (MsgTx * MsgTx) :=
  b <~ closeBalance c (i64 (fee * 2)) ;
  let '(ourBalance, theirBalance, ourAssetBalance, theirAssetBalance) := b in
  let lc := localCommit c in
  let cap := i64 (i64 (CommitFee lc + ToSatoshis (LocalBtcBalance lc)) + ToSatoshis (RemoteBtcBalance lc)) in
  OB_AssetCreateCooperativeCloseTx (ChanAssetID (chanCfg c)) cap fee (fundingPkScript c) (fundingTxIn c)
    ourBalance theirBalance ourAssetBalance theirAssetBalance localDeliveryScript remoteDeliveryScript.

Definition spendsFrom (tx : MsgTx) (hash : list byte) : MsgTx :=
  match TxIns tx with
  | i :: rest => {| TxIns := mkTxIn (mkOutPoint hash (Wire.Index (PreviousOutPoint i))) (Sequence i) :: rest; TxOuts := TxOuts tx; LockTime := LockTime tx |}
  | [] => tx
  end.

(** The first transaction is signed at once.  The second can be signed when the
    peer's signature of the first is known, because it spends from it: the returned
    flag says that nothing is left to sign. *)
Definition Ob_AssetCreateCloseProposal (c : closeChan) (proposedFee : Z)
    (localDeliveryScript remoteDeliveryScript : list byte) (remoteSigs : list ecSig) :
    outcome close_chan_err (list ecSig * bool * closeChan) :=
  if bool_decide (status c = channelClosed) then Err ErrChanClosing
  else
    txs <~ assetCloseTxs c proposedFee localDeliveryScript remoteDeliveryScript ;
    let (closeTx1, closeTx2) := txs in
    if negb (CheckTxSanity closeTx1) then Err ErrCloseSanity
    else if bool_decide (TxIns closeTx2 <> []) && negb (CheckTxSanity closeTx2) then Err ErrCloseSanity
    else
      match SignOutput (ourKey c) (witnessScript c) closeTx1 with
      | None => Err ErrCloseSign
      | Some sig1 =>
          match TxIns closeTx2, remoteSigs with
          | [], _ => Ok ([sig1], true, set_status c channelClosing)
          | _ :: _, [] => Ok ([sig1], false, set_status c channelClosing)
          | _ :: _, remoteSig :: _ =>
              let sigScript := SpendMultiSigWithoutW (witnessScript c) (ourKey c) sig1 (theirKey c) remoteSig in
              if Execute (fundingPkScript c) closeTx1 sigScript (BtcCapacity (chanCfg c)) then
                match SignOutput (ourKey c) (witnessScript c) (spendsFrom closeTx2 (TxHash closeTx1 sigScript)) with
                | None => Err ErrCloseSign
                | Some sig2 => Ok ([sig1; sig2], bool_decide (length remoteSigs = 2%nat), set_status c channelClosing)
                end
              else Err ErrCloseScript
          end
      end.

(** The signatures are indexed without a check of their number. *)
Definition OB_AssetCompleteCooperativeClose (c : closeChan) (localSig remoteSig : list ecSig)
    (localDeliveryScript remoteDeliveryScript : list byte) (proposedFee : Z) :
    outcome close_chan_err (signedTx * signedTx * closeChan) :=
  if bool_decide (status c = channelClosed) then Err ErrChanClosing
  else
    txs <~ assetCloseTxs c proposedFee localDeliveryScript remoteDeliveryScript ;
    let (closeTx1, closeTx2) := txs in
    if negb (CheckTxSanity closeTx1) then Err ErrCloseSanity
    else
      match localSig !! 0%nat, remoteSig !! 0%nat with
      | Some l1, Some r1 =>
          let script1 := SpendMultiSigWithoutW (witnessScript c) (ourKey c) l1 (theirKey c) r1 in
          if negb (Execute (fundingPkScript c) closeTx1 script1 (BtcCapacity (chanCfg c))) then Err ErrCloseScript
          else
            match TxIns closeTx2 with
            | [] => Ok (mkSigned closeTx1 script1, mkSigned closeTx2 [], set_status c channelClosed)
            | _ :: _ =>
                let closeTx2 := spendsFrom closeTx2 (TxHash closeTx1 script1) in
                match localSig !! 1%nat, remoteSig !! 1%nat, TxOuts closeTx1 !! 2%nat with
                | Some l2, Some r2, Some out =>
                    let script2 := SpendMultiSigWithoutW (witnessScript c) (ourKey c) l2 (theirKey c) r2 in
                    if Execute (fundingPkScript c) closeTx2 script2 (Value out)
                    then Ok (mkSigned closeTx1 script1, mkSigned closeTx2 script2, set_status c channelClosed)
                    else Err ErrCloseScript
                | _, _, _ => Panic
                end
            end
      | _, _ => Panic
      end.

(** ** Marks in the database *)

Definition putChanStatus (dbOk : bool) (c : closeChan) (st : Z) (tx : option signedTx) : outcome close_chan_err closeChan :=
  if dbOk then Ok (set_broadcasted c (Z.lor (dbChanStatus c) st) (match tx with Some _ => tx | None => dbCloseTx c end))
  else Err ErrCloseDB.

Definition MarkCoopBroadcasted (dbOk : bool) (c : closeChan) (closeTx : option signedTx) (locallyInitiated : bool) :
    outcome close_chan_err closeChan :=
  let st := Z.lor ChanStatusCoopBroadcasted
              (if locallyInitiated then ChanStatusLocalCloseInitiator else ChanStatusRemoteCloseInitiator) in
  putChanStatus dbOk c st closeTx.

Definition AbsoluteThawHeight (c : closeChan) : outcome close_chan_err Z :=
  let t := ChanType (chanCfg c) in
  let h := ThawHeight (chanCfg c) in
  if negb (ChannelType.IsFrozen t) && negb (ChannelType.HasLeaseExpiration t) then Ok 0
  else if ChannelType.IsFrozen t && bool_decide (h < AbsoluteThawHeightThreshold) then
    if IsPending c then Err ErrRelativeThawHeight else Ok (u32 (BlockHeight (scid c) + h))
  else Ok h.

Definition CalcFee (c : closeChan) (feeRate : Z) : Z := SatPerKWeight.FeeForWeight feeRate (CommitWeight (ChanType (chanCfg c))).

End close.

(** * lnwallet: a concrete channel to close

    An instance of the library of CloseTx.v by concrete functions, and the two ends of
    a bitcoin channel and of an asset channel over it: the inputs at which the theorems
    about closing are evaluated. *)

(** There are two signatures: by keys that start with 2, and by others. *)
Definition model_serialize (e : bool) : list byte := if e then der [x01] [x01] else der [x02] [x02].

Definition model_parse (b : list byte) : option bool :=
  if bool_decide (b = model_serialize true) then Some true
  else if bool_decide (b = model_serialize false) then Some false else None.

Definition model_multisig (a b : list byte) : list byte :=
  match bytes_compare a b with Gt => b ++ a | _ => a ++ b end.

Definition model_execute (pk : list byte) (script : list (list byte)) : bool :=
  match script with
  | [e; s1; s2; ws] =>
      bool_decide (e = [] /\ pk = x51 :: ws) &&
      bool_decide (s1 ∈ [model_serialize true ++ [x01]; model_serialize false ++ [x01]]) &&
      bool_decide (s2 ∈ [model_serialize true ++ [x01]; model_serialize false ++ [x01]])
  | _ => false
  end.

#[global] Instance closelib_model : CloseLib := {|
  ecSig := bool;
  Serialize := model_serialize;
  ParseDERSignature := model_parse;
  GenMultiSigScript := model_multisig;
  GenerateP2SH ws := x51 :: ws;
  InPlaceSort tx := set_outs tx (merge_sort CommitSort.output_le ((fun o => (o, 0)) <$> TxOuts tx)).*1;
  CheckTxSanity _ := true;
  SignOutput key _ _ := Some (bool_decide (head key = Some x02));
  Execute pk _ script _ := model_execute pk script;
  TxHash _ _ := replicate 32 x07;
|}.

Lemma model_serialize_in e : model_serialize e ++ [x01] ∈ [model_serialize true ++ [x01]; model_serialize false ++ [x01]].
Proof. destruct e; set_solver. Qed.

#[global] Instance closelib_model_laws : CloseLaws.
Proof.
  split; cbn.
  - intros []; [exists [x01], [x01]|exists [x02], [x02]]; split; [done| |done|]; vm_compute; done.
  - by intros [].
  - intros a b. unfold model_multisig. rewrite (CommitSort.bytes_compare_antisym a b).
    destruct (bytes_compare a b) eqn:E; [|done..]. by apply CommitSort.bytes_compare_eq in E as ->.
  - intros tx tx' Hi Hl Hp. unfold set_outs. rewrite Hi, Hl. do 2 f_equal.
    apply (Sorted_unique CommitSort.output_le); [apply (Sorted_merge_sort CommitSort.output_le)..|].
    rewrite !merge_sort_Permutation. by apply fmap_Permutation.
  - intros tx. rewrite merge_sort_Permutation. rewrite <- list_fmap_compose. by rewrite list_fmap_id.
  - intros a b _ sa sb _ _ _ _. unfold model_execute. rewrite !bool_decide_eq_true_2; [done|apply model_serialize_in..|done].
Qed.

(** ** The two ends of a channel *)

Definition close_constraints (dust : Z) : ChannelConstraints := mkConstraints dust 1000 1000000000 1000 483 144.

Definition close_cfg (asset : Z) (initiator : bool) : ChanCfg :=
  mkChanCfg 0 asset initiator 100000 (close_constraints 546) (close_constraints 546) [] [] 0
    (mkOutPoint (replicate 32 x05) 1) [].

Definition close_commit (lb rb la ra : Z) : ChannelCommitment :=
  mkChannelCommitment 5 0 0 0 0 lb rb la ra 1000 253 (mkMsgTx [] [] 0) [] [].

Definition alice_key : list byte := x02 :: replicate 32 x11.
Definition bob_key : list byte := x03 :: replicate 32 x22.
Definition alice_script : list byte := [x76; xa9; xaa].
Definition bob_script : list byte := [x76; xa9; xbb].

Definition alice (asset la ra : Z) : closeChan :=
  mkCloseChan (close_cfg asset true) (close_commit 60000000 39000000 la ra) (mkShortChannelID 500 1 0) false alice_key bob_key
    channelOpen 0 0 None.
Definition bob (asset la ra : Z) : closeChan :=
  mkCloseChan (close_cfg asset false) (close_commit 39000000 60000000 ra la) (mkShortChannelID 500 1 0) false bob_key alice_key
    channelOpen 0 0 None.
