(* ===== verification/ChanCloser.v ===== *)
(** * lnwallet/chancloser: the closing negotiation

    Models lnwallet/chancloser/chancloser.go: the state machine that shuts a channel
    down, negotiates the fee of the closing transaction with the peer and broadcasts
    it, for bitcoin channels ([ProcessCloseMsg]) and for asset channels whose two
    transactions are signed one after the other ([OB_ProcessCloseMsg]).

    The callbacks of the configuration are [io]: whether disconnecting, a database
    transaction and a broadcast succeed.  What was broadcast is recorded in the
    state.  A method that fails keeps the changes made before the failure, as in the
    code. *)

From Stdlib Require Import ZArith Lia.
From S2P Require Import Prelude Wire WireMessages WireFrame Signature Amounts OpReturn UpdateLog CommitTx ChannelState.
From S2P Require Import CloseTx.

Local Open Scope Z_scope.
Local Open Scope go_scope.

(** ** Fees *)

Definition feeInAcceptableRange (localFee remoteFee : Z) : bool :=
  if bool_decide (localFee < remoteFee)
  then bool_decide (remoteFee <= i64 (localFee + Z.quot (i64 (localFee * 3)) 10))
  else bool_decide (i64 (localFee - Z.quot (i64 (localFee * 3)) 10) <= remoteFee).

Definition ratchetFee (fee : Z) (up : bool) : Z :=
  if up then i64 (fee + Z.quot (i64 (fee * 1)) 10) else i64 (fee - Z.quot (i64 (fee * 1)) 10).

Definition calcCompromiseFee (ourIdealFee lastSentFee remoteFee : Z) : Z :=
  if bool_decide (ourIdealFee = remoteFee) || bool_decide (lastSentFee = 0) then ourIdealFee
  else if bool_decide (remoteFee = lastSentFee) then lastSentFee
  else if bool_decide (remoteFee < lastSentFee) then
    if feeInAcceptableRange lastSentFee remoteFee then remoteFee else ratchetFee lastSentFee false
  else if bool_decide (lastSentFee < remoteFee) then
    if feeInAcceptableRange lastSentFee remoteFee then remoteFee else ratchetFee lastSentFee true
  else remoteFee.

(** ** The state *)

Inductive closeState : Type := closeIdle | closeShutdownInitiated | closeFeeNegotiation | closeFinished.
#[global] Instance closeState_eq_dec : EqDecision closeState.
Proof. solve_decision. Defined.

Inductive closer_err : Type :=
  | ErrChanAlreadyClosing
  | ErrChanCloseNotFinished
  | ErrUpfrontShutdownScriptMismatch
  | ErrUnexpectedMsg
  | ErrFrozenChannel (height thaw : Z)
  | ErrDisconnect
  | ErrCloseChan (e : close_chan_err)
  | ErrWireSig (e : sig_err)
  | ErrParseSig
  | ErrBroadcast.

Record ChanCloser := mkCloser {
  state : closeState;
  channel : closeChan;
  cid : list byte;
  negotiationHeight : Z;
  closingTx : option signedTx;
  idealFeeSat : Z;
  lastFeeProposal : Z;
  priorFeeOffers : gmap Z ClosingSigned.t;
  obSimpleSendPriorFeeOffers : gmap Z ObClosingSignedSimpleSend.t;
  localDeliveryScript : list byte;
  remoteDeliveryScript : list byte;
  locallyInitiated : bool;
  broadcasts : list signedTx;
}.

Definition set_state (s : closeState) (c : ChanCloser) : ChanCloser :=
  {| state := s; channel := channel c; cid := cid c; negotiationHeight := negotiationHeight c; closingTx := closingTx c;
     idealFeeSat := idealFeeSat c; lastFeeProposal := lastFeeProposal c; priorFeeOffers := priorFeeOffers c;
     obSimpleSendPriorFeeOffers := obSimpleSendPriorFeeOffers c; localDeliveryScript := localDeliveryScript c;
     remoteDeliveryScript := remoteDeliveryScript c; locallyInitiated := locallyInitiated c; broadcasts := broadcasts c |}.
Definition set_channel (ch : closeChan) (c : ChanCloser) : ChanCloser :=
  {| state := state c; channel := ch; cid := cid c; negotiationHeight := negotiationHeight c; closingTx := closingTx c;
     idealFeeSat := idealFeeSat c; lastFeeProposal := lastFeeProposal c; priorFeeOffers := priorFeeOffers c;
     obSimpleSendPriorFeeOffers := obSimpleSendPriorFeeOffers c; localDeliveryScript := localDeliveryScript c;
     remoteDeliveryScript := remoteDeliveryScript c; locallyInitiated := locallyInitiated c; broadcasts := broadcasts c |}.
Definition set_remoteScript (s : list byte) (c : ChanCloser) : ChanCloser :=
  {| state := state c; channel := channel c; cid := cid c; negotiationHeight := negotiationHeight c; closingTx := closingTx c;
     idealFeeSat := idealFeeSat c; lastFeeProposal := lastFeeProposal c; priorFeeOffers := priorFeeOffers c;
     obSimpleSendPriorFeeOffers := obSimpleSendPriorFeeOffers c; localDeliveryScript := localDeliveryScript c;
     remoteDeliveryScript := s; locallyInitiated := locallyInitiated c; broadcasts := broadcasts c |}.
Definition set_lastFee (fee : Z) (c : ChanCloser) : ChanCloser :=
  {| state := state c; channel := channel c; cid := cid c; negotiationHeight := negotiationHeight c; closingTx := closingTx c;
     idealFeeSat := idealFeeSat c; lastFeeProposal := fee; priorFeeOffers := priorFeeOffers c;
     obSimpleSendPriorFeeOffers := obSimpleSendPriorFeeOffers c; localDeliveryScript := localDeliveryScript c;
     remoteDeliveryScript := remoteDeliveryScript c; locallyInitiated := locallyInitiated c; broadcasts := broadcasts c |}.
Definition add_offer (fee : Z) (m : ClosingSigned.t) (c : ChanCloser) : ChanCloser :=
  {| state := state c; channel := channel c; cid := cid c; negotiationHeight := negotiationHeight c; closingTx := closingTx c;
     idealFeeSat := idealFeeSat c; lastFeeProposal := lastFeeProposal c; priorFeeOffers := <[fee := m]> (priorFeeOffers c);
     obSimpleSendPriorFeeOffers := obSimpleSendPriorFeeOffers c; localDeliveryScript := localDeliveryScript c;
     remoteDeliveryScript := remoteDeliveryScript c; locallyInitiated := locallyInitiated c; broadcasts := broadcasts c |}.
Definition add_obOffer (fee : Z) (m : ObClosingSignedSimpleSend.t) (c : ChanCloser) : ChanCloser :=
  {| state := state c; channel := channel c; cid := cid c; negotiationHeight := negotiationHeight c; closingTx := closingTx c;
     idealFeeSat := idealFeeSat c; lastFeeProposal := lastFeeProposal c; priorFeeOffers := priorFeeOffers c;
     obSimpleSendPriorFeeOffers := <[fee := m]> (obSimpleSendPriorFeeOffers c); localDeliveryScript := localDeliveryScript c;
     remoteDeliveryScript := remoteDeliveryScript c; locallyInitiated := locallyInitiated c; broadcasts := broadcasts c |}.
Definition set_closingTx (tx : signedTx) (c : ChanCloser) : ChanCloser :=
  {| state := state c; channel := channel c; cid := cid c; negotiationHeight := negotiationHeight c; closingTx := Some tx;
     idealFeeSat := idealFeeSat c; lastFeeProposal := lastFeeProposal c; priorFeeOffers := priorFeeOffers c;
     obSimpleSendPriorFeeOffers := obSimpleSendPriorFeeOffers c; localDeliveryScript := localDeliveryScript c;
     remoteDeliveryScript := remoteDeliveryScript c; locallyInitiated := locallyInitiated c; broadcasts := broadcasts c |}.
Definition add_broadcast (tx : signedTx) (c : ChanCloser) : ChanCloser :=
  {| state := state c; channel := channel c; cid := cid c; negotiationHeight := negotiationHeight c; closingTx := closingTx c;
     idealFeeSat := idealFeeSat c; lastFeeProposal := lastFeeProposal c; priorFeeOffers := priorFeeOffers c;
     obSimpleSendPriorFeeOffers := obSimpleSendPriorFeeOffers c; localDeliveryScript := localDeliveryScript c;
     remoteDeliveryScript := remoteDeliveryScript c; locallyInitiated := locallyInitiated c;
     broadcasts := broadcasts c ++ [tx] |}.

(** The outside world during one call. *)
Record io := mkIo { disconnectOk : bool; dbOk : bool; broadcastOk : signedTx -> bool }.

(** ** The monad of the methods *)

Definition C (A : Type) : Type := ChanCloser -> outcome closer_err A * ChanCloser.
Definition ret {A} (a : A) : C A := fun c => (Ok a, c).
Definition fail {A} (e : closer_err) : C A := fun c => (Err e, c).
Definition get : C ChanCloser := fun c => (Ok c, c).
Definition put (f : ChanCloser -> ChanCloser) : C unit := fun c => (Ok tt, f c).
Definition bind {A B} (m : C A) (k : A -> C B) : C B := fun c =>
  match m c with
  | (Ok a, c) => k a c
  | (Err e, c) => (Err e, c)
  | (Panic, c) => (Panic, c)
  end.

Declare Scope closer_scope.
Delimit Scope closer_scope with closer.
Notation "'let!' x := m 'in' k" := (bind m (fun x => k)) (at level 10, x pattern, m at level 100, k at level 200) : closer_scope.
Notation "m ;! k" := (bind m (fun _ => k)) (at level 199, right associativity) : closer_scope.
Local Open Scope closer_scope.

(** A call of the channel that returns a value and the changed channel. *)
Definition call {A} (f : closeChan -> outcome close_chan_err (A * closeChan)) : C A := fun c =>
  match f (channel c) with
  | Ok (a, ch) => (Ok a, set_channel ch c)
  | Err e => (Err (ErrCloseChan e), c)
  | Panic => (Panic, c)
  end.

(** A call that panics has no value to return. *)
Definition lift {A} (o : outcome closer_err A) : C A := fun c => (o, c).

Section closer.
Context {BT : Btcec} {CL : CloseLib}.

(** ** Signatures on the wire (lnwire/signature.go) *)

Definition NewSigFromSignature (e : ecSig) : outcome closer_err (list byte) :=
  match NewSigFromRawSignature (Serialize e) with
  | Ok b => Ok b
  | Err e => Err (ErrWireSig e)
  | Panic => Panic
  end.

Definition ToSignature (b : list byte) : outcome closer_err ecSig :=
  match ParseDERSignature (ToSignatureBytes b) with Some e => Ok e | None => Err ErrParseSig end.

Fixpoint ToSignatures (l : list (list byte)) : outcome closer_err (list ecSig) :=
  match l with
  | [] => Ok []
  | b :: l => e <~ ToSignature b ; es <~ ToSignatures l ; Ok (e :: es)
  end.

Fixpoint NewSigs (l : list ecSig) : outcome closer_err (list (list byte)) :=
  match l with
  | [] => Ok []
  | e :: l => b <~ NewSigFromSignature e ; bs <~ NewSigs l ; Ok (b :: bs)
  end.

(** ** Construction *)

Definition NewChanCloser (ch : closeChan) (deliveryScript : list byte) (idealFeePerKw height : Z)
    (locally : bool) : ChanCloser :=
  let idealFeeSat := CalcFee ch idealFeePerKw in
  let channelCommitFee := CommitFee (localCommit ch) in
  {| state := closeIdle; channel := ch; cid := NewChanIDFromOutPoint (FundingOutpoint (chanCfg ch));
     negotiationHeight := height; closingTx := None;
     idealFeeSat := if bool_decide (channelCommitFee < idealFeeSat) then channelCommitFee else idealFeeSat;
     lastFeeProposal := 0; priorFeeOffers := ∅; obSimpleSendPriorFeeOffers := ∅;
     localDeliveryScript := deliveryScript; remoteDeliveryScript := []; locallyInitiated := locally; broadcasts := [] |}.

(** ** Shutting down *)

(** Marks the channel; a failure to disable it is only logged. *)
Definition markCoop (w : io) (tx : option signedTx) : C unit :=
  let! c := get in
  call (fun ch => match MarkCoopBroadcasted (dbOk w) ch tx (locallyInitiated c) with
                  | Ok ch => Ok (tt, ch)
                  | Err e => Err e
                  | Panic => Panic
                  end).

Definition initChanShutdown (w : io) : C Shutdown.t :=
  let! c := get in
  markCoop w None ;!
  ret (Shutdown.mk (cid c) (localDeliveryScript c) []).

Definition obSimpleSendInitChanShutdown (w : io) : C ObShutdownSimpleSend.t :=
  let! c := get in
  markCoop w None ;!
  ret (ObShutdownSimpleSend.mk (cid c) (localDeliveryScript c) []).

Definition ShutdownChan (w : io) : C Shutdown.t :=
  let! c := get in
  if bool_decide (state c = closeIdle) then
    let! shutdownMsg := initChanShutdown w in
    put (set_state closeShutdownInitiated) ;!
    ret shutdownMsg
  else fail ErrChanAlreadyClosing.

Definition ObSimpleSendShutdownChan (w : io) : C ObShutdownSimpleSend.t :=
  let! c := get in
  if bool_decide (state c = closeIdle) then
    let! shutdownMsg := obSimpleSendInitChanShutdown w in
    put (set_state closeShutdownInitiated) ;!
    ret shutdownMsg
  else fail ErrChanAlreadyClosing.

Definition ClosingTx (c : ChanCloser) : outcome closer_err (option signedTx) :=
  if bool_decide (state c = closeFinished) then Ok (closingTx c) else Err ErrChanCloseNotFinished.

Definition maybeMatchScript (w : io) (upfrontScript peerScript : list byte) : outcome closer_err unit :=
  if bool_decide (length upfrontScript = 0%nat) then Ok tt
  else if bool_decide (upfrontScript = peerScript) then Ok tt
  else if disconnectOk w then Err ErrUpfrontShutdownScriptMismatch else Err ErrDisconnect.

(** ** Proposals *)

Definition proposeCloseSigned (fee : Z) : C ClosingSigned.t :=
  let! c := get in
  let! rawSig := call (fun ch => CreateCloseProposal ch fee (localDeliveryScript c) (remoteDeliveryScript c)) in
  put (set_lastFee fee) ;!
  let! parsedSig := lift (NewSigFromSignature rawSig) in
  let closeSignedMsg := ClosingSigned.mk (cid c) fee parsedSig [] in
  put (add_offer fee closeSignedMsg) ;!
  ret closeSignedMsg.

Definition obSimpelSendProposeCloseSigned (fee : Z) (rSigs : list (list byte)) : C ObClosingSignedSimpleSend.t :=
  let! c := get in
  let! remoteSigs := lift (ToSignatures rSigs) in
  let! (rawSig, sigEnd) := call (fun ch =>
    match Ob_AssetCreateCloseProposal ch fee (localDeliveryScript c) (remoteDeliveryScript c) remoteSigs with
    | Ok (sigs, sigEnd, ch) => Ok ((sigs, sigEnd), ch)
    | Err e => Err e
    | Panic => Panic
    end) in
  put (set_lastFee fee) ;!
  let! sigs := lift (NewSigs rawSig) in
  let closeSignedMsg := ObClosingSignedSimpleSend.mk (cid c) fee sigs sigEnd [] in
  put (add_obOffer fee closeSignedMsg) ;!
  ret closeSignedMsg.

(** ** Handling messages *)

Definition checkThawed (c : ChanCloser) : outcome closer_err unit :=
  if IsInitiator (chanCfg (channel c)) then Ok tt
  else
    match AbsoluteThawHeight (channel c) with
    | Err e => Err (ErrCloseChan e)
    | Panic => Panic
    | Ok thaw => if bool_decide (negotiationHeight c < thaw) then Err (ErrFrozenChannel (negotiationHeight c) thaw) else Ok tt
    end.

Definition broadcastTx (w : io) (tx : signedTx) : C unit :=
  if broadcastOk w tx then put (add_broadcast tx) else fail ErrBroadcast.

(** The fee is agreed on: build the transaction, store it, and only then broadcast it. *)
Definition finishClose (w : io) (remote : ClosingSigned.t) : C (list message * bool) :=
  let! c := get in
  let remoteProposedFee := ClosingSigned.FeeSatoshis remote in
  match priorFeeOffers c !! remoteProposedFee with
  | None => lift Panic
  | Some matchingOffer =>
      let! localSig := lift (ToSignature (ClosingSigned.Signature matchingOffer)) in
      let! remoteSig := lift (ToSignature (ClosingSigned.Signature remote)) in
      let! closeTx := call (fun ch => CompleteCooperativeClose ch localSig remoteSig (localDeliveryScript c)
                                        (remoteDeliveryScript c) remoteProposedFee) in
      put (set_closingTx closeTx) ;!
      markCoop w (Some closeTx) ;!
      broadcastTx w closeTx ;!
      put (set_state closeFinished) ;!
      ret ([MClosingSigned matchingOffer], true)
  end.

Definition ProcessCloseMsg (w : io) (msg : message) : C (list message * bool) :=
  let! c := get in
  match state c with
  | closeIdle =>
      match msg with
      | MShutdown shutdownMsg =>
          lift (checkThawed c) ;!
          lift (maybeMatchScript w (RemoteShutdownScript (chanCfg (channel c))) (Shutdown.Address shutdownMsg)) ;!
          put (set_remoteScript (Shutdown.Address shutdownMsg)) ;!
          let! localShutdown := initChanShutdown w in
          put (set_state closeFeeNegotiation) ;!
          if IsInitiator (chanCfg (channel c)) then
            let! closeSigned := proposeCloseSigned (idealFeeSat c) in
            ret ([MShutdown localShutdown; MClosingSigned closeSigned], false)
          else ret ([MShutdown localShutdown], false)
      | _ => fail ErrUnexpectedMsg
      end
  | closeShutdownInitiated =>
      match msg with
      | MShutdown shutdownMsg =>
          lift (maybeMatchScript w (RemoteShutdownScript (chanCfg (channel c))) (Shutdown.Address shutdownMsg)) ;!
          put (set_remoteScript (Shutdown.Address shutdownMsg)) ;!
          put (set_state closeFeeNegotiation) ;!
          if IsInitiator (chanCfg (channel c)) then
            let! closeSigned := proposeCloseSigned (idealFeeSat c) in
            ret ([MClosingSigned closeSigned], false)
          else ret ([], false)
      | _ => fail ErrUnexpectedMsg
      end
  | closeFeeNegotiation =>
      match msg with
      | MClosingSigned closeSignedMsg =>
          let remoteProposedFee := ClosingSigned.FeeSatoshis closeSignedMsg in
          match priorFeeOffers c !! remoteProposedFee with
          | Some _ => finishClose w closeSignedMsg
          | None =>
              let feeProposal := calcCompromiseFee (idealFeeSat c) (lastFeeProposal c) remoteProposedFee in
              let! closeSigned := proposeCloseSigned feeProposal in
              if bool_decide (feeProposal = remoteProposedFee) then finishClose w closeSignedMsg
              else ret ([MClosingSigned closeSigned], false)
          end
      | _ => fail ErrUnexpectedMsg
      end
  | closeFinished =>
      match msg with
      | MClosingSigned _ => ret ([], true)
      | _ => fail ErrUnexpectedMsg
      end
  end.

Definition obFinishClose (w : io) (remote : ObClosingSignedSimpleSend.t) : C (list message * bool) :=
  let! c := get in
  let remoteProposedFee := ObClosingSignedSimpleSend.FeeSatoshis remote in
  match obSimpleSendPriorFeeOffers c !! remoteProposedFee with
  | None => lift Panic
  | Some matchingOffer =>
      let! localSigs := lift (ToSignatures (ObClosingSignedSimpleSend.Signatures matchingOffer)) in
      let! remoteSigs := lift (ToSignatures (ObClosingSignedSimpleSend.Signatures remote)) in
      let! (closeTx1, closeTx2) := call (fun ch => OB_AssetCompleteCooperativeClose ch localSigs remoteSigs
                                     (localDeliveryScript c) (remoteDeliveryScript c) remoteProposedFee) in
      put (set_closingTx closeTx1) ;!
      markCoop w (Some closeTx1) ;!
      broadcastTx w closeTx1 ;!
      (if bool_decide (TxIns (unsigned closeTx2) = []) then ret tt else broadcastTx w closeTx2) ;!
      put (set_state closeFinished) ;!
      ret ([MObClosingSignedSimpleSend matchingOffer], true)
  end.

Definition OB_ProcessCloseMsg (w : io) (msg : message) : C (list message * bool) :=
  let! c := get in
  match state c with
  | closeIdle =>
      match msg with
      | MObShutdownSimpleSend shutdownMsg =>
          lift (checkThawed c) ;!
          lift (maybeMatchScript w (RemoteShutdownScript (chanCfg (channel c))) (ObShutdownSimpleSend.Address shutdownMsg)) ;!
          put (set_remoteScript (ObShutdownSimpleSend.Address shutdownMsg)) ;!
          let! localShutdown := obSimpleSendInitChanShutdown w in
          put (set_state closeFeeNegotiation) ;!
          if IsInitiator (chanCfg (channel c)) then
            let! closeSigned := obSimpelSendProposeCloseSigned (idealFeeSat c) [] in
            ret ([MObShutdownSimpleSend localShutdown; MObClosingSignedSimpleSend closeSigned], false)
          else ret ([MObShutdownSimpleSend localShutdown], false)
      | _ => fail ErrUnexpectedMsg
      end
  | closeShutdownInitiated =>
      match msg with
      | MObShutdownSimpleSend shutdownMsg =>
          lift (maybeMatchScript w (RemoteShutdownScript (chanCfg (channel c))) (ObShutdownSimpleSend.Address shutdownMsg)) ;!
          put (set_remoteScript (ObShutdownSimpleSend.Address shutdownMsg)) ;!
          put (set_state closeFeeNegotiation) ;!
          if IsInitiator (chanCfg (channel c)) then
            let! closeSigned := obSimpelSendProposeCloseSigned (idealFeeSat c) [] in
            ret ([MObClosingSignedSimpleSend closeSigned], false)
          else ret ([], false)
      | _ => fail ErrUnexpectedMsg
      end
  | closeFeeNegotiation =>
      match msg with
      | MObClosingSignedSimpleSend closeSignedMsg =>
          let remoteProposedFee := ObClosingSignedSimpleSend.FeeSatoshis closeSignedMsg in
          let known := match obSimpleSendPriorFeeOffers c !! remoteProposedFee with
                       | Some prePropose => ObClosingSignedSimpleSend.SigEnd prePropose
                       | None => false
                       end in
          if known : bool then obFinishClose w closeSignedMsg
          else
            let feeProposal := calcCompromiseFee (idealFeeSat c) (lastFeeProposal c) remoteProposedFee in
            let! closeSigned := obSimpelSendProposeCloseSigned feeProposal (ObClosingSignedSimpleSend.Signatures closeSignedMsg) in
            if bool_decide (feeProposal <> remoteProposedFee) then ret ([MObClosingSignedSimpleSend closeSigned], false)
            else if negb (ObClosingSignedSimpleSend.SigEnd closeSigned) then ret ([MObClosingSignedSimpleSend closeSigned], false)
            else obFinishClose w closeSignedMsg
      | _ => fail ErrUnexpectedMsg
      end
  | closeFinished =>
      match msg with
      | MObClosingSignedSimpleSend _ => ret ([], true)
      | _ => fail ErrUnexpectedMsg
      end
  end.

End closer.
