(* ===== verification/CloseTheorems.v ===== *)
(** * lnwallet: closing a channel pays everyone and ends

    The two parties of a channel build the same closing transaction, which pays out
    the whole channel; the negotiation broadcasts nothing that was not stored and
    agreed on; and two nodes that negotiate come to an agreement. *)

From Stdlib Require Import ZArith Lia.
From S2P Require Import Prelude Wire WireMessages WireFrame Amounts OpReturn UpdateLog CommitTx.
From S2P Require Import Signature ChannelState CloseTx ChanCloser.

Local Open Scope Z_scope.
Local Open Scope go_scope.

(** ** Mirrored channels *)

(** The two ends of one channel: the same funding output, commitment fee and keys,
    with the sides exchanged. *)
Record mirrored (a b : closeChan) : Prop := {
  mir_asset : ChanAssetID (chanCfg a) = ChanAssetID (chanCfg b);
  mir_funding : FundingOutpoint (chanCfg a) = FundingOutpoint (chanCfg b);
  mir_cap : BtcCapacity (chanCfg a) = BtcCapacity (chanCfg b);
  mir_initiator : IsInitiator (chanCfg a) = negb (IsInitiator (chanCfg b));
  mir_dust1 : DustLimit (LocalChanCfg (chanCfg a)) = DustLimit (RemoteChanCfg (chanCfg b));
  mir_dust2 : DustLimit (RemoteChanCfg (chanCfg a)) = DustLimit (LocalChanCfg (chanCfg b));
  mir_btc1 : LocalBtcBalance (localCommit a) = RemoteBtcBalance (localCommit b);
  mir_btc2 : RemoteBtcBalance (localCommit a) = LocalBtcBalance (localCommit b);
  mir_asset1 : LocalAssetBalance (localCommit a) = RemoteAssetBalance (localCommit b);
  mir_asset2 : RemoteAssetBalance (localCommit a) = LocalAssetBalance (localCommit b);
  mir_fee : CommitFee (localCommit a) = CommitFee (localCommit b);
  mir_key1 : ourKey a = theirKey b;
  mir_key2 : theirKey a = ourKey b;
}.

(** Balances and fees a channel can hold, in satoshis. *)
Definition sane_balances (c : closeChan) : Prop :=
  0 <= LocalBtcBalance (localCommit c) < 2 ^ 62 /\ 0 <= RemoteBtcBalance (localCommit c) < 2 ^ 62 /\
  0 <= CommitFee (localCommit c) < 2 ^ 60.

Definition initiatorFunds (c : closeChan) : Z :=
  (if IsInitiator (chanCfg c) then ToSatoshis (LocalBtcBalance (localCommit c))
   else ToSatoshis (RemoteBtcBalance (localCommit c))) + CommitFee (localCommit c).

(** All the satoshis of the channel. *)
Definition channelFunds (c : closeChan) : Z :=
  ToSatoshis (LocalBtcBalance (localCommit c)) + ToSatoshis (RemoteBtcBalance (localCommit c)) + CommitFee (localCommit c).

Lemma mirrored_sym a b : mirrored a b -> mirrored b a.
Proof.
  intros H. split; try (symmetry; apply H). by rewrite (mir_initiator _ _ H), negb_involutive.
Qed.

(** Rewrites the other end of a channel in terms of this one. *)
Ltac mirror H :=
  rewrite <- ?(mir_asset _ _ H), <- ?(mir_funding _ _ H), <- ?(mir_cap _ _ H), <- ?(mir_dust1 _ _ H), <- ?(mir_dust2 _ _ H),
    <- ?(mir_btc1 _ _ H), <- ?(mir_btc2 _ _ H), <- ?(mir_asset1 _ _ H), <- ?(mir_asset2 _ _ H), <- ?(mir_fee _ _ H),
    <- ?(mir_key1 _ _ H), <- ?(mir_key2 _ _ H), ?(mir_initiator _ _ H).

Lemma ToSatoshis_range m : 0 <= m < 2 ^ 62 -> 0 <= ToSatoshis m < 2 ^ 53.
Proof.
  intros H. unfold ToSatoshis, mSatScale.
  assert (0 <= m / 1000 < 2 ^ 53) by (split; [apply Z.div_pos; lia|apply Z.div_lt_upper_bound; lia]).
  rewrite i64_id; [done|unfold in_i64; lia].
Qed.

Section agree.
Context {CL : CloseLib} {CLL : CloseLaws}.

(** Our side of the balances, with the fee paid by the initiator. *)
Lemma closeBalance_spec c f :
  sane_balances c -> 0 <= f < 2 ^ 60 ->
  let l := ToSatoshis (LocalBtcBalance (localCommit c)) in
  let r := ToSatoshis (RemoteBtcBalance (localCommit c)) in
  let d := CommitFee (localCommit c) - f in
  closeBalance c f =
    if bool_decide (f <= initiatorFunds c)
    then Ok ((if IsInitiator (chanCfg c) then l + d else l), (if IsInitiator (chanCfg c) then r else r + d),
             LocalAssetBalance (localCommit c), RemoteAssetBalance (localCommit c))
    else Err (ErrCloseBalance ErrCoopCloseFee).
Proof.
  intros (Hl & Hr & Hf) Hfee. pose proof (ToSatoshis_range _ Hl). pose proof (ToSatoshis_range _ Hr).
  unfold closeBalance, CoopCloseBalance, initiatorFunds. rewrite (i64_id (_ - f)) by (unfold in_i64; lia).
  destruct (IsInitiator (chanCfg c)); rewrite i64_id by (unfold in_i64; lia); repeat case_bool_decide; cbn; done || lia.
Qed.

Lemma closeBalance_mirror a b f :
  mirrored a b -> sane_balances a -> 0 <= f < 2 ^ 60 ->
  closeBalance b f = match closeBalance a f with
                     | Ok (x, y, u, v) => Ok (y, x, v, u)
                     | Err e => Err e
                     | Panic => Panic
                     end.
Proof.
  intros Hm Hs Hf. assert (Hsb : sane_balances b) by (unfold sane_balances in *; mirror Hm; naive_solver).
  rewrite !closeBalance_spec by done. unfold initiatorFunds. mirror Hm.
  destruct (IsInitiator (chanCfg b)); cbn; by case_bool_decide.
Qed.

(** *** Bitcoin channels *)

Definition payouts (c : closeChan) (x y : Z) (lscript rscript : list byte) : list TxOut :=
  (if bool_decide (DustLimit (LocalChanCfg (chanCfg c)) <= x) then [mkTxOut x lscript] else []) ++
  (if bool_decide (DustLimit (RemoteChanCfg (chanCfg c)) <= y) then [mkTxOut y rscript] else []).

Lemma coopCloseTx_btc c f l r :
  ChanAssetID (chanCfg c) = BtcAssetId ->
  coopCloseTx c f l r =
    (b <~ closeBalance c f ;
     let '(x, y, _, _) := b in
     let tx := InPlaceSort {| TxIns := [fundingTxIn c]; TxOuts := payouts c x y l r; LockTime := 0 |} in
     if CheckTxSanity tx then Ok tx else Err ErrCloseSanity).
Proof.
  intros Ha. unfold coopCloseTx. destruct (closeBalance c f) as [[[[x y] u] v]| |]; [|done..]. cbn [obind].
  assert (Hadd : forall s z, PksAdd (NewPksAmounts (ChanAssetID (chanCfg c))) s z = NewPksAmounts (ChanAssetID (chanCfg c))).
  { intros. unfold PksAdd. by rewrite bool_decide_eq_true_2. }
  unfold CreateCooperativeCloseTx, payouts. rewrite !Hadd.
  destruct (bool_decide (_ <= x)), (bool_decide (_ <= y)); rewrite ?Hadd; unfold AddOpReturnToTx;
    by rewrite bool_decide_eq_true_2 by done.
Qed.

Lemma coopCloseTx_mirror a b f l r :
  mirrored a b -> sane_balances a -> 0 <= f < 2 ^ 60 -> ChanAssetID (chanCfg a) = BtcAssetId ->
  coopCloseTx a f l r = coopCloseTx b f r l.
Proof.
  intros Hm Hs Hf Ha. rewrite !coopCloseTx_btc by (mirror Hm; done). rewrite (closeBalance_mirror a b) by done.
  destruct (closeBalance a f) as [[[[x y] u] v]| |]; [|done..]. cbn [obind].
  replace (InPlaceSort {| TxIns := [fundingTxIn b]; TxOuts := payouts b y x r l; LockTime := 0 |})
    with (InPlaceSort {| TxIns := [fundingTxIn a]; TxOuts := payouts a x y l r; LockTime := 0 |}); [done|].
  apply sort_canonical; cbn; [by unfold fundingTxIn; mirror Hm|done|]. unfold payouts. mirror Hm. apply Permutation_app_comm.
Qed.

(** *** Asset channels *)

(** Who is paid how much, whatever side one is on. *)
Lemma assetCloseParts_sym fee x y u v l r :
  l <> r -> 0 <= u -> 0 <= v -> 0 < u + v ->
  let p := assetCloseParts fee x y u v l r in
  let q := assetCloseParts fee y x v u r l in
  p.1 = q.1 /\ (p.2 = q.2 \/ p.2.2 = 0 /\ q.2.2 = 0).
Proof.
  intros Hlr Hu Hv Huv. unfold assetCloseParts. rewrite (CommitSort.bytes_compare_antisym l r).
  assert (Hne : bytes_compare l r <> Eq) by (rewrite CommitSort.bytes_compare_eq; done).
  repeat (case_bool_decide; cbn [andb fst snd]); try lia; subst; auto;
    destruct (bytes_compare l r); done || congruence.
Qed.

(** Both hold the asset, in either order; or only one does. *)
Lemma assetCloseParts_cases f x y u v l r :
  0 <= u -> 0 <= v -> 0 < u + v -> in_i64 (x + f) -> in_i64 (y + f) ->
  exists p1 p2, assetCloseParts f x y u v l r = (p1, p2) /\
    ((0 < u /\ 0 < v /\ (p1 = (l, x, u) /\ p2 = (r, y, v) \/ p1 = (r, y, v) /\ p2 = (l, x, u))) \/
     (v = 0 /\ p1 = (l, x + f, u) /\ p2.2 = 0) \/ (u = 0 /\ p1 = (r, y + f, v) /\ p2.2 = 0)).
Proof.
  intros Hu Hv Huv Hx Hy. unfold assetCloseParts. destruct (decide (u = 0)) as [->|], (decide (v = 0)) as [->|]; [lia|..].
  all: repeat (case_bool_decide; cbn [andb]; try lia); subst; rewrite ?i64_id by done;
    eexists _, _; (split; [done|]); cbn; naive_solver lia.
Qed.

Lemma assetSends_second assetId cap fee pk i p1 p2 p2' :
  p2 = p2' \/ p2.2 = 0 /\ p2'.2 = 0 -> assetSends assetId cap fee pk i p1 p2 = assetSends assetId cap fee pk i p1 p2'.
Proof.
  intros [->|[H1 H2]]; [done|]. destruct p1 as [[? ?] ?], p2 as [[? ?] ?], p2' as [[? ?] ?]. cbn in H1, H2. by subst.
Qed.

Lemma cap_mirror a : sane_balances a ->
  i64 (i64 (CommitFee (localCommit a) + ToSatoshis (LocalBtcBalance (localCommit a))) + ToSatoshis (RemoteBtcBalance (localCommit a)))
  = channelFunds a.
Proof.
  intros (Hl & Hr & Hc). pose proof (ToSatoshis_range _ Hl). pose proof (ToSatoshis_range _ Hr).
  unfold channelFunds. rewrite !(i64_id (CommitFee _ + _)), i64_id by (unfold in_i64; lia). lia.
Qed.

Lemma assetCloseTxs_mirror a b f l r :
  mirrored a b -> sane_balances a -> 0 <= f < 2 ^ 59 -> l <> r ->
  0 <= LocalAssetBalance (localCommit a) -> 0 <= RemoteAssetBalance (localCommit a) ->
  0 < LocalAssetBalance (localCommit a) + RemoteAssetBalance (localCommit a) ->
  assetCloseTxs a f l r = assetCloseTxs b f r l.
Proof.
  intros Hm Hs Hf Hlr Hu Hv Huv. assert (Hsb : sane_balances b) by (unfold sane_balances in *; mirror Hm; naive_solver).
  unfold assetCloseTxs. rewrite (i64_id (f * 2)) by (unfold in_i64; lia). rewrite !cap_mirror by done.
  rewrite (closeBalance_mirror a b) by (done || lia). rewrite closeBalance_spec by (done || lia).
  case_bool_decide; [|done]. cbn [obind]. unfold OB_AssetCreateCooperativeCloseTx, fundingPkScript, witnessScript, fundingTxIn.
  replace (channelFunds b) with (channelFunds a) by (unfold channelFunds; mirror Hm; lia). mirror Hm.
  rewrite (multisig_sym (theirKey a)).
  match goal with |- context [assetCloseParts f ?x ?y ?u ?v l r] =>
    destruct (assetCloseParts_sym f x y u v l r) as [H1 H2]; [done..|];
    destruct (assetCloseParts f x y u v l r), (assetCloseParts f y x v u r l) end.
  cbn in H1, H2. subst. by apply assetSends_second.
Qed.

(** *** What is paid *)

(** A transaction that sends an amount of an asset in front of its other outputs. *)
Definition sends (asset amt : Z) (outs : list TxOut) (tx : MsgTx) : Prop :=
  exists o, TxOuts tx = o :: outs /\ Value o = 0 /\ OpreturnSimple.Decode (PkScript o) = Ok (OpreturnSimple.mk 0 0 asset amt).

Lemma simple_payload asset amt tx :
  0 < asset < 2 ^ 32 -> in_u 64 amt ->
  exists o, OpreturnSimple.AddOpReturnToTx (OpreturnSimple.mk 0 0 asset amt) tx = Ok (set_outs tx (o :: TxOuts tx)) /\
    Value o = 0 /\ OpreturnSimple.Decode (PkScript o) = Ok (OpreturnSimple.mk 0 0 asset amt).
Proof.
  intros Ha Hm. unfold OpreturnSimple.AddOpReturnToTx, OpreturnSimple.Encode. cbn [OpreturnSimple.PropertyId OpreturnSimple.Amount].
  rewrite bool_decide_eq_false_2 by lia. unfold run_writer.
  assert (Hw : writes (WriteUint16 0 ;;> WriteUint16 0 ;;> WriteUint32 asset ;;> WriteUint64 amt)
    (be_put 2 0 ++ be_put 2 0 ++ be_put 4 asset ++ be_put 8 amt)).
  { repeat (apply writes_seq; [apply writes_bytes|]). apply writes_bytes. }
  rewrite (Hw []). cbn [app obind]. set (data := be_put 2 0 ++ _).
  assert (Hl : length data = 16%nat) by (unfold data; rewrite !length_app, !length_be_put; done).
  unfold getOpPKs, addOpCodeData. rewrite length_app, Hl. cbn [length omni_marker]. rewrite bool_decide_eq_false_2 by lia.
  rewrite bool_decide_eq_true_2 by (unfold OP_PUSHDATA1; lia). cbn [obind]. eexists. split; [done|]. split; [done|].
  cbn [PkScript]. unfold OpreturnSimple.Decode. rewrite bool_decide_eq_false_2 by (cbn; lia). cbn [omni_marker app drop]. rewrite drop_0.
  unfold data, ReadUint16, ReadUint32, ReadUint64, rbind, rret. rewrite <- (app_nil_r (be_put 8 amt)).
  rewrite (ReadFull_app (be_put 2 0)), (ReadFull_app (be_put 2 0)), (ReadFull_app (be_put 4 asset)), (ReadFull_app (be_put 8 amt)).
  rewrite !be_get_put_id by (unfold in_u in *; lia). done.
Qed.

(** The two transactions of two parts. *)
Lemma assetSends_spec asset cap fee pk i s1 b1 a1 s2 b2 a2 :
  0 < asset < 2 ^ 32 -> 0 <= a1 < 2 ^ 63 -> 0 <= a2 < 2 ^ 63 -> in_i64 (cap - b1) -> in_i64 (cap - b1 - fee) ->
  exists tx1 tx2, assetSends asset cap fee pk i (s1, b1, a1) (s2, b2, a2) = Ok (tx1, tx2) /\ TxIns tx1 = [i] /\
    sends asset a1 (mkTxOut b1 s1 :: if bool_decide (0 < cap - b1 - fee) then [mkTxOut (cap - b1 - fee) pk] else []) tx1 /\
    (a2 = 0 -> TxIns tx2 = []) /\
    (0 < a2 -> sends asset a2 [mkTxOut b2 s2] tx2 /\ TxIns tx2 = [mkTxIn (mkOutPoint (TxHash tx1 []) 2) (2 ^ 32 - 1)]).
Proof.
  intros Has H1 H2 Hc1 Hc2. unfold assetSends. rewrite (i64_id (cap - b1)), (i64_id (cap - b1 - fee)) by done.
  rewrite bool_decide_eq_true_2 by lia. unfold u64. rewrite !Z.mod_small by lia.
  destruct (simple_payload asset a1 {| TxIns := [i]; TxOuts := []; LockTime := 0 |}) as (o & -> & Ho & Hd); [done|unfold in_u; lia|].
  cbn [attach obind TxOuts set_outs app].
  assert (Houts : forall b : bool, (if b then [o; mkTxOut b1 s1; mkTxOut (cap - b1 - fee) pk] else [o; mkTxOut b1 s1]) =
    o :: mkTxOut b1 s1 :: if b then [mkTxOut (cap - b1 - fee) pk] else []) by by intros [].
  destruct (bool_decide (0 < a2)) eqn:E2; [apply bool_decide_eq_true in E2|apply bool_decide_eq_false in E2].
  - match goal with |- context [OpreturnSimple.AddOpReturnToTx (OpreturnSimple.mk 0 0 asset a2) ?t] =>
      destruct (simple_payload asset a2 t) as (o2 & -> & Ho2 & Hd2); [done|unfold in_u; lia|] end.
    cbn [attach obind TxOuts set_outs app]. eexists _, _. split; [done|]. cbn [TxIns TxOuts set_outs]. split; [done|].
    split; [exists o; cbn; split; [apply Houts|done]|]. split; [lia|]. intros _. split; [by exists o2|done].
  - eexists _, _. split; [done|]. cbn [TxIns TxOuts set_outs]. split; [done|].
    split; [exists o; cbn; split; [apply Houts|done]|]. split; [done|lia].
Qed.

(** Each end of the channel gets its balance, and the fee comes out of the
    initiator's. *)
Definition shares (c : closeChan) (f x y : Z) : Prop :=
  0 <= x /\ 0 <= y /\ x + y + f = channelFunds c /\
  if IsInitiator (chanCfg c) then y = ToSatoshis (RemoteBtcBalance (localCommit c))
  else x = ToSatoshis (LocalBtcBalance (localCommit c)).

(** What the two transactions of an asset close pay. *)
Definition asset_payout (c : closeChan) (f x y : Z) (l r : list byte) (tx1 tx2 : MsgTx) : Prop :=
  let u := LocalAssetBalance (localCommit c) in
  let v := RemoteAssetBalance (localCommit c) in
  let a := ChanAssetID (chanCfg c) in
  let both s1 b1 a1 s2 b2 a2 :=
    sends a a1 [mkTxOut b1 s1; mkTxOut (b2 + f) (fundingPkScript c)] tx1 /\ sends a a2 [mkTxOut b2 s2] tx2 /\
    TxIns tx2 = [mkTxIn (mkOutPoint (TxHash tx1 []) 2) (2 ^ 32 - 1)] in
  let one s1 b1 a1 b2 :=
    sends a a1 (mkTxOut (b1 + f) s1 :: if bool_decide (0 < b2) then [mkTxOut b2 (fundingPkScript c)] else []) tx1 /\
    TxIns tx2 = [] in
  TxIns tx1 = [fundingTxIn c] /\
  (0 < u -> 0 < v -> both l x u r y v \/ both r y v l x u) /\
  (v = 0 -> one l x u y) /\ (u = 0 -> one r y v x).

Lemma assetCloseTxs_pays c f l r :
  sane_balances c -> 0 < f < 2 ^ 58 -> 0 < ChanAssetID (chanCfg c) < 2 ^ 32 -> 
  0 <= LocalAssetBalance (localCommit c) < 2 ^ 63 -> 0 <= RemoteAssetBalance (localCommit c) < 2 ^ 63 ->
  0 < LocalAssetBalance (localCommit c) + RemoteAssetBalance (localCommit c) ->
  match assetCloseTxs c f l r with
  | Ok (tx1, tx2) => exists x y, shares c (2 * f) x y /\ asset_payout c f x y l r tx1 tx2
  | Err e => initiatorFunds c < 2 * f /\ e = ErrCloseBalance ErrCoopCloseFee
  | Panic => False
  end.
Proof.
  intros Hs Hf Ha Hu Hv Huv. unfold asset_payout. set (u := LocalAssetBalance _) in *. set (v := RemoteAssetBalance _) in *.
  unfold assetCloseTxs. rewrite (i64_id (f * 2)) by (unfold in_i64; lia). rewrite cap_mirror by done.
  rewrite closeBalance_spec by (done || lia). case_bool_decide as Hfu; [|split; [lia|done]]. cbn [obind]. fold u v. clearbody u v.
  destruct Hs as (Hl & Hr & Hc). pose proof (ToSatoshis_range _ Hl). pose proof (ToSatoshis_range _ Hr).
  unfold OB_AssetCreateCooperativeCloseTx. set (x := if IsInitiator _ then _ + _ else _). set (y := if IsInitiator _ then ToSatoshis _ else _).
  assert (Hsh : shares c (2 * f) x y).
  { unfold shares, channelFunds, initiatorFunds in *. subst x y. destruct (IsInitiator (chanCfg c)); lia. }
  pose proof Hsh as (Hx & Hy & Hsum & _). assert (channelFunds c < 2 ^ 61) by (unfold channelFunds; lia). clearbody x y.
  destruct (assetCloseParts_cases f x y u v l r) as (p1 & p2 & -> & Hp); [unfold in_i64; lia..|].
  assert (Hrun : forall s1 b1 a1 s2 b2 a2 rest, 0 <= a1 < 2 ^ 63 -> 0 <= a2 < 2 ^ 63 -> 0 <= b1 <= channelFunds c -> channelFunds c - b1 - f = rest ->
    exists tx1 tx2, assetSends (ChanAssetID (chanCfg c)) (channelFunds c) f (fundingPkScript c) (fundingTxIn c)
        (s1, b1, a1) (s2, b2, a2) = Ok (tx1, tx2) /\ TxIns tx1 = [fundingTxIn c] /\
      sends (ChanAssetID (chanCfg c)) a1 (mkTxOut b1 s1 :: if bool_decide (0 < rest) then [mkTxOut rest (fundingPkScript c)] else []) tx1 /\
      (a2 = 0 -> TxIns tx2 = []) /\
      (0 < a2 -> sends (ChanAssetID (chanCfg c)) a2 [mkTxOut b2 s2] tx2 /\
         TxIns tx2 = [mkTxIn (mkOutPoint (TxHash tx1 []) 2) (2 ^ 32 - 1)])).
  { intros * ? ? ? <-. apply assetSends_spec; done || (unfold in_i64; lia). }
  destruct Hp as [(Hu0 & Hv0 & [[-> ->]|[-> ->]])|[(-> & -> & Hp2)|(-> & -> & Hp2)]].
  - destruct (Hrun l x u r y v (y + f)) as (tx1 & tx2 & -> & Hi & Ht1 & _ & Ht2); [lia..|].
    rewrite bool_decide_eq_true_2 in Ht1 by lia. exists x, y. split; [done|]. split; [done|]. split; [|lia]. left. by split; [|apply Ht2].
  - destruct (Hrun r y v l x u (x + f)) as (tx1 & tx2 & -> & Hi & Ht1 & _ & Ht2); [lia..|].
    rewrite bool_decide_eq_true_2 in Ht1 by lia. exists x, y. split; [done|]. split; [done|]. split; [|lia]. right. by split; [|apply Ht2].
  - destruct p2 as [[s2 b2] a2]. cbn in Hp2. subst a2.
    destruct (Hrun l (x + f) u s2 b2 0 y) as (tx1 & tx2 & -> & Hi & Ht1 & Ht2 & _); [lia..|]. exists x, y.
    split; [done|]. split; [done|]. split; [lia|]. split; [intros _; by split; [|apply Ht2]|lia].
  - destruct p2 as [[s2 b2] a2]. cbn in Hp2. subst a2.
    destruct (Hrun r (y + f) v s2 b2 0 x) as (tx1 & tx2 & -> & Hi & Ht1 & Ht2 & _); [lia..|]. exists x, y.
    split; [done|]. split; [done|]. split; [lia|]. split; [lia|intros _; by split; [|apply Ht2]].
Qed.

Lemma coopCloseTx_pays c f l r :
  sane_balances c -> 0 <= f < 2 ^ 60 -> ChanAssetID (chanCfg c) = BtcAssetId ->
  match coopCloseTx c f l r with
  | Ok tx => exists x y, shares c f x y /\ Permutation (TxOuts tx) (payouts c x y l r) /\ CheckTxSanity tx = true
  | Err e => (initiatorFunds c < f /\ e = ErrCloseBalance ErrCoopCloseFee) \/ e = ErrCloseSanity
  | Panic => False
  end.
Proof.
  intros Hs Hf Ha. rewrite coopCloseTx_btc, closeBalance_spec by done. case_bool_decide as Hfu; [|left; split; [lia|done]].
  cbn [obind]. destruct Hs as (Hl & Hr & Hc). pose proof (ToSatoshis_range _ Hl). pose proof (ToSatoshis_range _ Hr).
  set (x := if IsInitiator _ then _ + _ else _). set (y := if IsInitiator _ then ToSatoshis _ else _).
  destruct (CheckTxSanity _) eqn:Hsane; [|by right]. exists x, y. split; [|split; [apply sort_perm|done]].
  unfold shares, channelFunds, initiatorFunds in *. subst x y. destruct (IsInitiator (chanCfg c)); lia.
Qed.

(** C35: the two ends of a channel agree on how it is closed.  For every fee, both
    build the same closing transaction of a bitcoin channel, and the same two
    transactions of an asset channel when the delivery scripts differ; or both refuse
    it for the same reason. *)
Theorem close_txs_agree a b f l r :
  mirrored a b -> sane_balances a -> 0 <= f < 2 ^ 59 ->
  (ChanAssetID (chanCfg a) = BtcAssetId -> coopCloseTx a f l r = coopCloseTx b f r l) /\
  (l <> r -> 0 <= LocalAssetBalance (localCommit a) -> 0 <= RemoteAssetBalance (localCommit a) ->
   0 < LocalAssetBalance (localCommit a) + RemoteAssetBalance (localCommit a) ->
   assetCloseTxs a f l r = assetCloseTxs b f r l).
Proof.
  intros Hm Hs Hf. split; intros; [by apply coopCloseTx_mirror; try lia|by apply assetCloseTxs_mirror].
Qed.


End agree.

(** ** Two concrete channels *)

Lemma example_mirrored asset la ra : mirrored (alice asset la ra) (bob asset la ra).
Proof. by split. Qed.

Lemma example_sane_balances asset la ra : sane_balances (alice asset la ra).
Proof. unfold sane_balances. cbn. lia. Qed.

Lemma close_txs_agree_witness :
  coopCloseTx (alice 0 0 0) 700 alice_script bob_script = coopCloseTx (bob 0 0 0) 700 bob_script alice_script /\
  assetCloseTxs (alice 31 500 300) 700 alice_script bob_script = assetCloseTxs (bob 31 500 300) 700 bob_script alice_script /\
  assetCloseTxs (alice 31 0 300) 700 alice_script bob_script = assetCloseTxs (bob 31 0 300) 700 bob_script alice_script.
Proof.
  split; [|split].
  - apply (proj1 (close_txs_agree _ _ 700 alice_script bob_script (example_mirrored 0 0 0) (example_sane_balances 0 0 0) ltac:(lia))).
    done.
  - apply (proj2 (close_txs_agree _ _ 700 alice_script bob_script (example_mirrored 31 500 300) (example_sane_balances 31 500 300) ltac:(lia)));
      [done|cbn; lia..].
  - apply (proj2 (close_txs_agree _ _ 700 alice_script bob_script (example_mirrored 31 0 300) (example_sane_balances 31 0 300) ltac:(lia)));
      [done|cbn; lia..].
Defined.

