(* ===== verification/CloserSafety.v ===== *)
(** * lnwallet/chancloser: what a closer broadcasts

    Over every sequence of calls, messages and failures: a closer completes at most one
    close, at a fee it proposed itself, and broadcasts it only after it is stored. *)

From Stdlib Require Import ZArith Lia.
From S2P Require Import Prelude Wire WireMessages WireFrame Signature Amounts OpReturn UpdateLog CommitTx ChannelState.
From S2P Require Import CloseTx ChanCloser.

Local Open Scope Z_scope.
Local Open Scope go_scope.
Local Open Scope closer_scope.

Section safety.
Context {BT : Btcec} {CL : CloseLib}.

(** ** Runs *)

Inductive closer_call : Type :=
  | CShutdown (w : io)
  | CObShutdown (w : io)
  | CProcess (w : io) (m : message)
  | CObProcess (w : io) (m : message).

Definition run_call (x : closer_call) (c : ChanCloser) : ChanCloser :=
  match x with
  | CShutdown w => (ShutdownChan w c).2
  | CObShutdown w => (ObSimpleSendShutdownChan w c).2
  | CProcess w m => (ProcessCloseMsg w m c).2
  | CObProcess w m => (OB_ProcessCloseMsg w m c).2
  end.

Definition run_calls (l : list closer_call) (c : ChanCloser) : ChanCloser := foldl (fun c x => run_call x c) c l.

(** ** The invariant *)

(** The second transaction spends from the first. *)
Definition spends (tx2 tx1 : signedTx) : Prop :=
  exists i rest, TxIns (unsigned tx2) = i :: rest /\
    Wire.Hash (PreviousOutPoint i) = TxHash (unsigned tx1) (SignatureScript tx1).

(** A complete closing transaction: built for a fee that we proposed, to the delivery
    scripts of both parties, with signatures that the script of the channel accepts. *)
Definition complete (c : ChanCloser) (tx : signedTx) : Prop :=
  exists fee,
    (is_Some (priorFeeOffers c !! fee) /\
       coopCloseTx (channel c) fee (localDeliveryScript c) (remoteDeliveryScript c) = Ok (unsigned tx) \/
     is_Some (obSimpleSendPriorFeeOffers c !! fee) /\
       exists tx2, assetCloseTxs (channel c) fee (localDeliveryScript c) (remoteDeliveryScript c) = Ok (unsigned tx, tx2)) /\
    Execute (fundingPkScript (channel c)) (unsigned tx) (SignatureScript tx) (BtcCapacity (chanCfg (channel c))) = true.

Record closer_inv (script : list byte) (c : ChanCloser) : Prop := {
  inv_tx tx : closingTx c = Some tx ->
    status (channel c) = channelClosed /\ (state c = closeFeeNegotiation \/ state c = closeFinished) /\ complete c tx;
  inv_bc : match broadcasts c with
           | [] => state c <> closeFinished
           | tx :: rest => closingTx c = Some tx /\ dbCloseTx (channel c) = Some tx /\
               (rest = [] \/ exists tx2, rest = [tx2] /\ spends tx2 tx)
           end;
  inv_script : localDeliveryScript c = script;
}.

(** Nothing is complete yet. *)
Record open_inv (script : list byte) (c : ChanCloser) : Prop := {
  open_tx : closingTx c = None;
  open_bc : broadcasts c = [];
  open_state : state c <> closeFinished;
  open_script : localDeliveryScript c = script;
}.

Lemma open_closer script c : open_inv script c -> closer_inv script c.
Proof. intros [H1 H2 H3 H4]. split; [by rewrite H1|by rewrite H2|done]. Qed.

Lemma not_closed_open script c : closer_inv script c -> status (channel c) <> channelClosed -> open_inv script c.
Proof.
  intros [H1 H2 H3] Hs. assert (Ht : closingTx c = None).
  { destruct (closingTx c) as [tx|] eqn:E; [|done]. by destruct (H1 tx eq_refl). }
  destruct (broadcasts c) eqn:E; [done|]. rewrite Ht in H2. by destruct H2.
Qed.

Lemma early_open script c :
  closer_inv script c -> state c = closeIdle \/ state c = closeShutdownInitiated -> open_inv script c.
Proof.
  intros [H1 H2 H3] Hs. assert (Ht : closingTx c = None).
  { destruct (closingTx c) as [tx|] eqn:E; [|done]. destruct (H1 tx eq_refl) as (_ & [?|?] & _), Hs; congruence. }
  destruct (broadcasts c) eqn:E; [|rewrite Ht in H2; by destruct H2]. split; [done..| |done]. destruct Hs; congruence.
Qed.

(** ** A logic for the methods: a method that fails leaves the invariant *)

Section logic.
Variable script : list byte.

Definition hoare {A} (P : ChanCloser -> Prop) (m : C A) (Q : A -> ChanCloser -> Prop) : Prop :=
  forall c, P c -> match m c with (Ok a, c') => Q a c' | (_, c') => closer_inv script c' end.

Lemma hoare_bind {A B} P (m : C A) (k : A -> C B) Q R :
  hoare P m Q -> (forall a, hoare (Q a) (k a) R) -> hoare P (bind m k) R.
Proof.
  intros Hm Hk c Hc. specialize (Hm c Hc). unfold bind. destruct (m c) as [[a|e|] c'] eqn:E; [by apply Hk|done|done].
Qed.

Lemma hoare_get P (R : ChanCloser -> ChanCloser -> Prop) : (forall c, P c -> R c c) -> hoare P get R.
Proof. intros H c Hc. by apply H. Qed.

Lemma hoare_put P f (Q : unit -> ChanCloser -> Prop) : (forall c, P c -> Q tt (f c)) -> hoare P (put f) Q.
Proof. intros H c Hc. by apply H. Qed.

Lemma hoare_ret {A} P (a : A) (Q : A -> ChanCloser -> Prop) : (forall c, P c -> Q a c) -> hoare P (ret a) Q.
Proof. intros H c Hc. by apply H. Qed.

Lemma hoare_fail {A} P e (Q : A -> ChanCloser -> Prop) : (forall c, P c -> closer_inv script c) -> hoare P (fail e) Q.
Proof. intros H c Hc. by apply H. Qed.

Lemma hoare_lift {A} P (o : outcome closer_err A) (Q : A -> ChanCloser -> Prop) :
  (forall c, P c -> closer_inv script c) -> (forall a c, o = Ok a -> P c -> Q a c) -> hoare P (lift o) Q.
Proof. intros Hi Hq c Hc. unfold lift. destruct o; [by apply Hq|by apply Hi..]. Qed.

Lemma hoare_call {A} P (f : closeChan -> outcome close_chan_err (A * closeChan)) (Q : A -> ChanCloser -> Prop) :
  (forall c, P c -> closer_inv script c) -> (forall a ch c, P c -> f (channel c) = Ok (a, ch) -> Q a (set_channel ch c)) ->
  hoare P (call f) Q.
Proof.
  intros Hi Hq c Hc. unfold call. destruct (f (channel c)) as [[a ch]|e|] eqn:E; [by apply Hq|by apply Hi..].
Qed.

Lemma hoare_weaken {A} P P' (m : C A) (Q Q' : A -> ChanCloser -> Prop) :
  hoare P m Q -> (forall c, P' c -> P c) -> (forall a c, Q a c -> Q' a c) -> hoare P' m Q'.
Proof. intros Hm HP HQ c Hc. specialize (Hm c (HP c Hc)). destruct (m c) as [[a|e|] c']; auto. Qed.

(** The rule of [let! c := get in k c]: the state read is the state at hand. *)
Lemma hoare_let {A} P (k : ChanCloser -> C A) Q : (forall c, P c -> hoare (eq c) (k c) Q) -> hoare P (bind get k) Q.
Proof. intros H c Hc. by apply (H c Hc c). Qed.

(** One step of a sequence whose value is not used. *)
Ltac hstep l := eapply hoare_bind; [apply l|intros []; cbv beta].

(** ** The methods *)

Lemma markCoop_open w :
  hoare (open_inv script) (markCoop w None) (fun _ => open_inv script).
Proof.
  apply hoare_let. intros c Hc. apply hoare_call; [intros ? <-; by apply open_closer|].
  intros [] ch ? <- H. unfold MarkCoopBroadcasted, putChanStatus in H. destruct (dbOk w); [|done]. injection H as <-.
  destruct Hc. by split.
Qed.

Lemma initShutdown_open w : hoare (open_inv script) (initChanShutdown w) (fun _ => open_inv script).
Proof.
  apply hoare_let. intros c Hc. apply (hoare_weaken (open_inv script) _ _ (fun _ => open_inv script)); [|by intros ? <-|done].
  eapply hoare_bind; [apply markCoop_open|]. intros []. by apply hoare_ret.
Qed.

Lemma obInitShutdown_open w : hoare (open_inv script) (obSimpleSendInitChanShutdown w) (fun _ => open_inv script).
Proof.
  apply hoare_let. intros c Hc. apply (hoare_weaken (open_inv script) _ _ (fun _ => open_inv script)); [|by intros ? <-|done].
  eapply hoare_bind; [apply markCoop_open|]. intros []. by apply hoare_ret.
Qed.

(** In the fee negotiation, with the invariant or before anything is complete. *)
Definition nego (I : ChanCloser -> Prop) (c : ChanCloser) : Prop := I c /\ state c = closeFeeNegotiation.

Lemma nego_inv c : nego (closer_inv script) c -> closer_inv script c.
Proof. by intros []. Qed.

Lemma nego_open c : nego (open_inv script) c -> closer_inv script c.
Proof. intros []. by apply open_closer. Qed.

Lemma CreateCloseProposal_ok ch fee l r sig ch' :
  CreateCloseProposal ch fee l r = Ok (sig, ch') -> status ch <> channelClosed /\ ch' = set_status ch channelClosing.
Proof.
  unfold CreateCloseProposal. case_bool_decide; [done|]. intros H'. apply obind_ok_inv in H' as (tx & _ & H').
  destruct (SignOutput _ _ _); [|done]. by injection H' as _ <-.
Qed.

Lemma propose_open fee :
  hoare (nego (closer_inv script)) (proposeCloseSigned fee) (fun _ => nego (open_inv script)).
Proof.
  apply hoare_let. intros c Hc. eapply (hoare_bind _ _ _ (fun _ => nego (open_inv script))).
  { apply hoare_call; [intros ? <-; by apply nego_inv|]. intros sig ch ? <- [Hs ->]%CreateCloseProposal_ok.
    destruct Hc as [Hi Hn]. apply (not_closed_open _ _ Hi) in Hs as []. by split. }
  intros sig. eapply (hoare_bind _ _ _ (fun _ => nego (open_inv script))).
  { apply hoare_put. intros c' [[] ?]. by split. }
  intros []. eapply (hoare_bind _ _ _ (fun _ => nego (open_inv script))).
  { apply hoare_lift; [apply nego_open|done]. }
  intros sg. eapply (hoare_bind _ _ _ (fun _ => nego (open_inv script))); [|intros []; by apply hoare_ret].
  apply hoare_put. intros c' [[] ?]. by split.
Qed.

Lemma ObProposal_ok ch fee l r rs sigs e ch' :
  Ob_AssetCreateCloseProposal ch fee l r rs = Ok (sigs, e, ch') -> status ch <> channelClosed /\ ch' = set_status ch channelClosing.
Proof.
  unfold Ob_AssetCreateCloseProposal. case_bool_decide; [done|]. intros H'. apply obind_ok_inv in H' as ([t1 t2] & _ & H').
  repeat case_match; simplify_eq; done.
Qed.

Lemma obPropose_open fee rs :
  hoare (nego (closer_inv script)) (obSimpelSendProposeCloseSigned fee rs) (fun _ => nego (open_inv script)).
Proof.
  apply hoare_let. intros c Hc. eapply (hoare_bind _ _ _ (fun _ => eq c)).
  { apply hoare_lift; [intros ? <-; by apply nego_inv|done]. }
  intros sigs. eapply (hoare_bind _ _ _ (fun _ => nego (open_inv script))).
  { apply hoare_call; [intros ? <-; by apply nego_inv|]. intros [rs' e] ch ? <- H.
    destruct (Ob_AssetCreateCloseProposal _ _ _ _ _) as [[[? ?] ?]| |] eqn:E; [|done..]. simplify_eq.
    apply ObProposal_ok in E as [Hs ->]. destruct Hc as [Hi Hn]. apply (not_closed_open _ _ Hi) in Hs as []. by split. }
  intros [rs' e]. eapply (hoare_bind _ _ _ (fun _ => nego (open_inv script))).
  { apply hoare_put. intros c' [[] ?]. by split. }
  intros []. eapply (hoare_bind _ _ _ (fun _ => nego (open_inv script))).
  { apply hoare_lift; [apply nego_open|done]. }
  intros sg. eapply (hoare_bind _ _ _ (fun _ => nego (open_inv script))); [|intros []; by apply hoare_ret].
  apply hoare_put. intros c' [[] ?]. by split.
Qed.

(** *** Completing *)

(** The transaction is built and signed, but not yet recorded. *)
Definition built (tx : signedTx) (c : ChanCloser) : Prop :=
  nego (open_inv script) c /\ status (channel c) = channelClosed /\ complete c tx.

(** It is recorded, and so far not broadcast. *)
Definition recorded (tx : signedTx) (c : ChanCloser) : Prop :=
  closer_inv script c /\ closingTx c = Some tx /\ broadcasts c = [] /\ state c = closeFeeNegotiation.

Lemma built_record tx : hoare (built tx) (put (set_closingTx tx)) (fun _ => recorded tx).
Proof.
  apply hoare_put. intros c [[[H1 H2 H3 H4] Hn] [Hs Hc]]. split; [|by split_and!].
  split; [|cbn; by rewrite H2|done]. intros tx' [= <-]. split; [done|]. split; [by left|done].
Qed.

(** Storing it, and only then broadcasting it. *)
Lemma record_store w tx :
  hoare (recorded tx) (markCoop w (Some tx)) (fun _ c => recorded tx c /\ dbCloseTx (channel c) = Some tx).
Proof.
  apply hoare_let. intros c (Hi & Ht & Hb & Hn). apply hoare_call; [by intros ? <-|]. intros [] ch ? <- H.
  unfold MarkCoopBroadcasted, putChanStatus in H. destruct (dbOk w); [|done]. injection H as <-. split; [|done].
  split; [|by split_and!]. destruct Hi as [H1 H2 H3]. split; [exact H1|cbn; by rewrite Hb in *|done].
Qed.

Lemma store_broadcast w tx :
  hoare (fun c => recorded tx c /\ dbCloseTx (channel c) = Some tx) (broadcastTx w tx)
    (fun _ c => closer_inv script c /\ broadcasts c = [tx] /\ state c = closeFeeNegotiation).
Proof.
  unfold broadcastTx. destruct (broadcastOk w tx); [|by apply hoare_fail; intros c [[] _]].
  apply hoare_put. intros c [([H1 H2 H3] & Ht & Hb & Hn) Hd]. split; [|cbn; by rewrite Hb].
  split; [exact H1|cbn; rewrite Hb; cbn; by auto|done].
Qed.

Lemma second_broadcast w tx tx2 :
  spends tx2 tx ->
  hoare (fun c => closer_inv script c /\ broadcasts c = [tx] /\ state c = closeFeeNegotiation) (broadcastTx w tx2)
    (fun _ c => closer_inv script c /\ broadcasts c <> []).
Proof.
  intros Hsp. unfold broadcastTx. destruct (broadcastOk w tx2); [|by apply hoare_fail; intros c []].
  apply hoare_put. intros c ([H1 H2 H3] & Hb & Hn). rewrite Hb in H2. destruct H2 as (Ht & Hd & _).
  split; [|cbn; rewrite Hb; done]. split; [exact H1|cbn; rewrite Hb; cbn; eauto 10|done].
Qed.

Lemma finished : hoare (fun c => closer_inv script c /\ broadcasts c <> []) (put (set_state closeFinished))
    (fun _ => closer_inv script).
Proof.
  apply hoare_put. intros c [[H1 H2 H3] Hb]. split; [|cbn; by destruct (broadcasts c)|done].
  intros tx Ht. destruct (H1 tx Ht) as (Hs & _ & Hc). split; [done|]. split; [by right|done].
Qed.

Lemma Complete_ok ch ls rs l r fee tx ch' :
  CompleteCooperativeClose ch ls rs l r fee = Ok (tx, ch') ->
  status ch <> channelClosed /\ ch' = set_status ch channelClosed /\ coopCloseTx ch fee l r = Ok (unsigned tx) /\
  Execute (fundingPkScript ch) (unsigned tx) (SignatureScript tx) (BtcCapacity (chanCfg ch)) = true.
Proof.
  unfold CompleteCooperativeClose. case_bool_decide; [done|]. intros H'. apply obind_ok_inv in H' as (t & Ht & H').
  destruct (Execute _ _ _ _) eqn:He; [|done]. by injection H' as <- <-.
Qed.

Lemma ObComplete_ok ch ls rs l r fee tx1 tx2 ch' :
  OB_AssetCompleteCooperativeClose ch ls rs l r fee = Ok (tx1, tx2, ch') ->
  status ch <> channelClosed /\ ch' = set_status ch channelClosed /\
  (exists t2, assetCloseTxs ch fee l r = Ok (unsigned tx1, t2)) /\
  Execute (fundingPkScript ch) (unsigned tx1) (SignatureScript tx1) (BtcCapacity (chanCfg ch)) = true /\
  (TxIns (unsigned tx2) = [] \/ spends tx2 tx1).
Proof.
  unfold OB_AssetCompleteCooperativeClose. case_bool_decide; [done|]. intros H'. apply obind_ok_inv in H' as ([t1 t2] & Ht & H').
  destruct (CheckTxSanity t1); [|done]. cbn [negb] in H'.
  destruct (ls !! 0%nat) as [l1|], (rs !! 0%nat) as [r1|]; [|done..].
  destruct (Execute _ t1 _ _) eqn:He; [|done]. cbn [negb] in H'. destruct (TxIns t2) as [|i rest] eqn:Hi.
  - simplify_eq. split_and!; [done|done|by exists t2|done|by left].
  - destruct (ls !! 1%nat), (rs !! 1%nat), (TxOuts t1 !! 2%nat); [|done..]. destruct (Execute _ (spendsFrom _ _) _ _); [|done].
    simplify_eq. split_and!; [done|done|by exists t2|done|]. right. unfold spends, spendsFrom. cbn. rewrite Hi. by eexists _, _.
Qed.

Lemma finishClose_inv w m : hoare (nego (closer_inv script)) (finishClose w m) (fun _ => closer_inv script).
Proof.
  apply hoare_let. intros c Hc. pose proof Hc as [Hi Hn]. cbv zeta.
  destruct (priorFeeOffers c !! _) as [offer|] eqn:Ho; [|by apply hoare_lift; [intros ? <-|done]].
  eapply (hoare_bind _ _ _ (fun _ => eq c)); [by apply hoare_lift; [intros ? <-|]|]. intros ls.
  eapply (hoare_bind _ _ _ (fun _ => eq c)); [by apply hoare_lift; [intros ? <-|]|]. intros rs.
  eapply (hoare_bind _ _ _ built).
  { apply hoare_call; [by intros ? <-|]. intros tx ch ? <- (Hs & -> & Ht & He)%Complete_ok.
    apply (not_closed_open _ _ Hi) in Hs as []. split; [by split|]. split; [done|].
    exists (ClosingSigned.FeeSatoshis m). split; [left; split; [by exists offer|exact Ht]|exact He]. }
  intros tx. hstep built_record. hstep record_store.
  hstep store_broadcast.
  eapply (hoare_bind _ _ _ (fun _ => closer_inv script)); [|intros []; by apply hoare_ret].
  eapply hoare_weaken; [apply finished|cbn; intros c' (? & Hb & _); rewrite Hb; by split|done].
Qed.

Lemma obFinishClose_inv w m : hoare (nego (closer_inv script)) (obFinishClose w m) (fun _ => closer_inv script).
Proof.
  apply hoare_let. intros c Hc. pose proof Hc as [Hi Hn]. cbv zeta.
  destruct (obSimpleSendPriorFeeOffers c !! _) as [offer|] eqn:Ho; [|by apply hoare_lift; [intros ? <-|done]].
  eapply (hoare_bind _ _ _ (fun _ => eq c)); [by apply hoare_lift; [intros ? <-|]|]. intros ls.
  eapply (hoare_bind _ _ _ (fun _ => eq c)); [by apply hoare_lift; [intros ? <-|]|]. intros rs.
  eapply (hoare_bind _ _ _ (fun txs c => built txs.1 c /\ (TxIns (unsigned txs.2) = [] \/ spends txs.2 txs.1))).
  { apply hoare_call; [by intros ? <-|]. intros [tx1 tx2] ch ? <- (Hs & -> & Ht & He & Hsp)%ObComplete_ok.
    apply (not_closed_open _ _ Hi) in Hs as []. split; [|done]. split; [by split|]. split; [done|].
    exists (ObClosingSignedSimpleSend.FeeSatoshis m). split; [right; split; [by exists offer|exact Ht]|exact He]. }
  intros [tx tx2]. cbn [fst snd]. intros c' [Hb Hsp]. revert c' Hb. change (hoare (built tx) (put (set_closingTx tx) ;! 
    markCoop w (Some tx) ;! broadcastTx w tx ;! (if bool_decide (TxIns (unsigned tx2) = []) then ret tt else broadcastTx w tx2) ;!
    put (set_state closeFinished) ;! ret ([MObClosingSignedSimpleSend offer], true)) (fun _ => closer_inv script)).
  hstep built_record. hstep record_store.
  hstep store_broadcast.
  eapply (hoare_bind _ _ _ (fun _ c => closer_inv script c /\ broadcasts c <> [])).
  { case_bool_decide as Hn2; [apply hoare_ret; intros c' (? & Hb & _); rewrite Hb; by split|].
    destruct Hsp as [?|Hsp]; [done|]. by apply second_broadcast. }
  intros []. eapply hoare_bind; [apply finished|intros []; by apply hoare_ret].
Qed.

Lemma shutdown_inv w : hoare (closer_inv script) (ShutdownChan w) (fun _ => closer_inv script).
Proof.
  apply hoare_let. intros c Hc. case_bool_decide as Hs; [|apply hoare_fail; by intros ? <-].
  eapply hoare_bind; [eapply hoare_weaken; [apply initShutdown_open|intros ? <-; apply early_open; auto|by intros ? ? H; exact H]|].
  intros m. eapply (hoare_bind _ _ _ (fun _ => open_inv script)).
  { apply hoare_put. intros c' []. by split. }
  intros []. apply hoare_ret. apply open_closer.
Qed.

Lemma obShutdown_inv w : hoare (closer_inv script) (ObSimpleSendShutdownChan w) (fun _ => closer_inv script).
Proof.
  apply hoare_let. intros c Hc. case_bool_decide as Hs; [|apply hoare_fail; by intros ? <-].
  eapply hoare_bind; [eapply hoare_weaken; [apply obInitShutdown_open|intros ? <-; apply early_open; auto|by intros ? ? H; exact H]|].
  intros m. eapply (hoare_bind _ _ _ (fun _ => open_inv script)).
  { apply hoare_put. intros c' []. by split. }
  intros []. apply hoare_ret. apply open_closer.
Qed.

(** Steps that keep a closer open. *)
Lemma lift_open {A} (o : outcome closer_err A) : hoare (open_inv script) (lift o) (fun _ => open_inv script).
Proof. apply hoare_lift; [apply open_closer|done]. Qed.

Lemma remoteScript_open s' : hoare (open_inv script) (put (set_remoteScript s')) (fun _ => open_inv script).
Proof. apply hoare_put. intros c []. by split. Qed.

Lemma start_nego : hoare (open_inv script) (put (set_state closeFeeNegotiation)) (fun _ => nego (open_inv script)).
Proof. apply hoare_put. intros c []. by split. Qed.

(** The first proposal, when the negotiation starts. *)
Lemma first_propose {A} fee (k : ClosingSigned.t -> A) :
  hoare (nego (open_inv script)) (let! m := proposeCloseSigned fee in ret (k m)) (fun _ => closer_inv script).
Proof.
  eapply hoare_bind; [eapply hoare_weaken; [apply propose_open|intros c []; split; [by apply open_closer|done]|by intros ? ? H; exact H]|].
  intros m. apply hoare_ret. apply nego_open.
Qed.

Lemma ob_first_propose {A} fee rs (k : ObClosingSignedSimpleSend.t -> A) :
  hoare (nego (open_inv script)) (let! m := obSimpelSendProposeCloseSigned fee rs in ret (k m)) (fun _ => closer_inv script).
Proof.
  eapply hoare_bind; [eapply hoare_weaken; [apply obPropose_open|intros c []; split; [by apply open_closer|done]|by intros ? ? H; exact H]|].
  intros m. apply hoare_ret. apply nego_open.
Qed.

Lemma open_start {A} c (m : C A) Q :
  closer_inv script c -> state c = closeIdle \/ state c = closeShutdownInitiated ->
  hoare (open_inv script) m Q -> hoare (eq c) m Q.
Proof. intros Hi Hs Hm. eapply hoare_weaken; [exact Hm|intros ? <-; by apply early_open|done]. Qed.

Lemma ProcessCloseMsg_inv w m : hoare (closer_inv script) (ProcessCloseMsg w m) (fun _ => closer_inv script).
Proof.
  apply hoare_let. intros c Hc. destruct (state c) eqn:Hs.
  - destruct m; try (apply hoare_fail; by intros ? <-). apply open_start; [done|by left|].
    hstep @lift_open. hstep @lift_open. hstep remoteScript_open. eapply hoare_bind; [apply initShutdown_open|].
    intros sd. cbv beta. hstep start_nego. destruct (IsInitiator _); [apply first_propose|apply hoare_ret; apply nego_open].
  - destruct m; try (apply hoare_fail; by intros ? <-). apply open_start; [done|by right|].
    hstep @lift_open. hstep remoteScript_open. hstep start_nego.
    destruct (IsInitiator _); [apply first_propose|apply hoare_ret; apply nego_open].
  - destruct m; try (apply hoare_fail; by intros ? <-). cbv zeta. destruct (priorFeeOffers c !! _).
    + eapply hoare_weaken; [apply finishClose_inv|by intros ? <-|done].
    + eapply hoare_bind; [eapply hoare_weaken; [apply propose_open|by intros ? <-|by intros ? ? H; exact H]|].
      intros offer. cbv beta. case_bool_decide; [|apply hoare_ret; apply nego_open].
      eapply hoare_weaken; [apply finishClose_inv|intros ? []; split; [by apply open_closer|done]|done].
  - destruct m; try (apply hoare_fail; by intros ? <-). apply hoare_ret. by intros ? <-.
Qed.

Lemma OB_ProcessCloseMsg_inv w m : hoare (closer_inv script) (OB_ProcessCloseMsg w m) (fun _ => closer_inv script).
Proof.
  apply hoare_let. intros c Hc. destruct (state c) eqn:Hs.
  - destruct m; try (apply hoare_fail; by intros ? <-). apply open_start; [done|by left|].
    hstep @lift_open. hstep @lift_open. hstep remoteScript_open. eapply hoare_bind; [apply obInitShutdown_open|].
    intros sd. cbv beta. hstep start_nego. destruct (IsInitiator _); [apply ob_first_propose|apply hoare_ret; apply nego_open].
  - destruct m; try (apply hoare_fail; by intros ? <-). apply open_start; [done|by right|].
    hstep @lift_open. hstep remoteScript_open. hstep start_nego.
    destruct (IsInitiator _); [apply ob_first_propose|apply hoare_ret; apply nego_open].
  - destruct m; try (apply hoare_fail; by intros ? <-). cbv zeta.
    destruct (match obSimpleSendPriorFeeOffers c !! _ with Some _ => _ | None => false end).
    + eapply hoare_weaken; [apply obFinishClose_inv|by intros ? <-|done].
    + eapply hoare_bind; [eapply hoare_weaken; [apply obPropose_open|by intros ? <-|by intros ? ? H; exact H]|].
      intros offer. cbv beta. case_bool_decide; [apply hoare_ret; apply nego_open|].
      destruct (ObClosingSignedSimpleSend.SigEnd offer); cbn [negb]; [|apply hoare_ret; apply nego_open].
      eapply hoare_weaken; [apply obFinishClose_inv|intros ? []; split; [by apply open_closer|done]|done].
  - destruct m; try (apply hoare_fail; by intros ? <-). apply hoare_ret. by intros ? <-.
Qed.

(** A method keeps the invariant, whether it succeeds or not. *)
Lemma hoare_run {A} (m : C A) c :
  hoare (closer_inv script) m (fun _ => closer_inv script) -> closer_inv script c -> closer_inv script (m c).2.
Proof. intros Hm Hc. specialize (Hm c Hc). by destruct (m c) as [[]]. Qed.

Lemma run_calls_inv l c : closer_inv script c -> closer_inv script (run_calls l c).
Proof.
  revert c. induction l as [|x l IH]; intros c Hc; [done|]. apply IH. destruct x; apply hoare_run; try done.
  - apply shutdown_inv.
  - apply obShutdown_inv.
  - apply ProcessCloseMsg_inv.
  - apply OB_ProcessCloseMsg_inv.
Qed.

End logic.

Lemma NewChanCloser_inv ch script rate height locally : closer_inv script (NewChanCloser ch script rate height locally).
Proof. by apply open_closer. Qed.


End safety.
