(* ===== verification/CloserLiveness.v ===== *)
(** * lnwallet/chancloser: the negotiation ends

    Two nodes that run the closing negotiation with each other agree on a fee between
    their ideal ones, and both broadcast the same transaction. *)

From Stdlib Require Import ZArith Lia.
From S2P Require Import Prelude Wire WireMessages WireModels WireFrame Amounts OpReturn.
From S2P Require Import UpdateLog CommitTx Signature ChannelState CloseTx ChanCloser CloseTheorems.

Local Open Scope Z_scope.
Local Open Scope go_scope.
Local Open Scope closer_scope.

(** ** Two nodes and the messages between them *)

(** Nothing outside fails. *)
Definition calm : io := mkIo true true (fun _ => true).

Section exchange.
Context {BT : Btcec} {CL : CloseLib}.

(** A node handles the messages in order; the replies are collected. *)
Fixpoint handle (msgs : list message) (c : ChanCloser) : option (list message * ChanCloser) :=
  match msgs with
  | [] => Some ([], c)
  | m :: ms =>
      match ProcessCloseMsg calm m c with
      | (Ok (out, _), c) => match handle ms c with Some (out', c) => Some (out ++ out', c) | None => None end
      | _ => None
      end
  end.

(** The messages [msgs] are on their way from [x] to [y]; the nodes take turns until
    nothing is left to send. *)
Fixpoint exchange (fuel : nat) (x y : ChanCloser) (msgs : list message) : option (ChanCloser * ChanCloser) :=
  match fuel with
  | O => None
  | S fuel =>
      match msgs with
      | [] => Some (x, y)
      | _ => match handle msgs y with Some (out, y) => exchange fuel y x out | None => None end
      end
  end.

(** One node starts a close. *)
Definition close (fuel : nat) (x y : ChanCloser) : option (ChanCloser * ChanCloser) :=
  match ShutdownChan calm x with
  | (Ok m, x) => exchange fuel x y [MShutdown m]
  | _ => None
  end.

End exchange.

(** ** Fees *)

Lemma ratchet_down last remote :
  10 <= last < 2 ^ 58 -> 0 <= remote < last -> feeInAcceptableRange last remote = false -> remote < ratchetFee last false < last.
Proof.
  intros Hl Hr. unfold feeInAcceptableRange, ratchetFee. rewrite bool_decide_eq_false_2 by lia.
  rewrite !(i64_id (last * _)) by (unfold in_i64; lia). rewrite !Z.quot_div_nonneg by lia.
  pose proof (Z.div_mod (last * 3) 10 ltac:(lia)). pose proof (Z.mod_pos_bound (last * 3) 10 ltac:(lia)).
  pose proof (Z.div_mod (last * 1) 10 ltac:(lia)). pose proof (Z.mod_pos_bound (last * 1) 10 ltac:(lia)).
  rewrite !i64_id by (unfold in_i64; lia). rewrite bool_decide_eq_false. lia.
Qed.

Lemma ratchet_up last remote :
  10 <= last < 2 ^ 58 -> last < remote -> feeInAcceptableRange last remote = false -> last < ratchetFee last true < remote.
Proof.
  intros Hl Hr. unfold feeInAcceptableRange, ratchetFee. rewrite bool_decide_eq_true_2 by lia.
  rewrite !(i64_id (last * _)) by (unfold in_i64; lia). rewrite !Z.quot_div_nonneg by lia.
  pose proof (Z.div_mod (last * 3) 10 ltac:(lia)). pose proof (Z.mod_pos_bound (last * 3) 10 ltac:(lia)).
  pose proof (Z.div_mod (last * 1) 10 ltac:(lia)). pose proof (Z.mod_pos_bound (last * 1) 10 ltac:(lia)).
  rewrite !i64_id by (unfold in_i64; lia). rewrite bool_decide_eq_false. lia.
Qed.

(** The counter-offer is the peer's fee, our first offer, or strictly between the two
    last offers. *)
Lemma compromise ideal last remote :
  10 <= last < 2 ^ 58 \/ last = 0 -> 10 <= remote < 2 ^ 58 ->
  let f := calcCompromiseFee ideal last remote in
  f = remote \/ (f = ideal /\ last = 0) \/ (10 <= last /\ (remote < f < last \/ last < f < remote)).
Proof.
  intros Hl Hr. unfold calcCompromiseFee. destruct (bool_decide_reflect (ideal = remote)); [by left|].
  destruct (bool_decide_reflect (last = 0)); [by right; left|]. cbn [orb]. assert (10 <= last < 2 ^ 58) by lia.
  case_bool_decide; [by left|]. case_bool_decide.
  - destruct (feeInAcceptableRange last remote) eqn:E; [by left|]. apply ratchet_down in E; lia.
  - rewrite bool_decide_eq_true_2 by lia. destruct (feeInAcceptableRange last remote) eqn:E; [by left|].
    apply ratchet_up in E; lia.
Qed.

Section live.
Context {BT : Btcec} {CL : CloseLib} {CLL : CloseLaws}.

(** ** Signatures *)

Lemma signature_roundtrip e :
  exists b, NewSigFromSignature e = Ok b /\ ToSignature b = Ok e.
Proof.
  destruct (serialize_canonical e) as (r & s & Hd & Hr & Hs). unfold NewSigFromSignature. rewrite Hd, NewSig_der by done.
  eexists. split; [done|]. unfold ToSignature. pose proof (fixed_length r Hr). pose proof (fixed_length s Hs).
  rewrite ToSignatureBytes_der by (rewrite length_app; lia).
  rewrite take_app_length', drop_app_length', !fixed_padding, <- Hd, parse_serialize by done. done.
Qed.

(** Two signatures of the two keys complete a transaction. *)
Lemma multisig_executes our their tx se te v :
  SignOutput our (GenMultiSigScript our their) tx = Some se -> SignOutput their (GenMultiSigScript our their) tx = Some te ->
  Execute (GenerateP2SH (GenMultiSigScript our their)) tx
    (SpendMultiSigWithoutW (GenMultiSigScript our their) our se their te) v = true.
Proof.
  intros Hs Ht. unfold SpendMultiSigWithoutW. case_bool_decide as Hc.
  - rewrite (multisig_sym our their) in *. apply execute_multisig; [|done|done].
    rewrite (CommitSort.bytes_compare_antisym our their), Hc. done.
  - by apply execute_multisig.
Qed.

(** ** Offers *)

(** A message that offers a fee, with our signature of the transaction for it. *)
Definition offer (c : ChanCloser) (f : Z) (m : ClosingSigned.t) : Prop :=
  ClosingSigned.FeeSatoshis m = f /\
  exists tx e, coopCloseTx (channel c) f (localDeliveryScript c) (remoteDeliveryScript c) = Ok tx /\
    SignOutput (ourKey (channel c)) (witnessScript (channel c)) tx = Some e /\ ToSignature (ClosingSigned.Signature m) = Ok e.

(** Every fee up to a bound can be offered. *)
Definition payable (hi : Z) (c : ChanCloser) : Prop :=
  (forall f, 0 <= f <= hi -> exists tx, coopCloseTx (channel c) f (localDeliveryScript c) (remoteDeliveryScript c) = Ok tx) /\
  (forall tx, SignOutput (ourKey (channel c)) (witnessScript (channel c)) tx <> None).

(** A node in the negotiation. *)
Record ready (lo hi : Z) (c : ChanCloser) : Prop := {
  rd_state : state c = closeFeeNegotiation;
  rd_status : status (channel c) <> channelClosed;
  rd_payable : payable hi c;
  rd_offers f m : priorFeeOffers c !! f = Some m -> offer c f m;
  rd_ideal : lo <= idealFeeSat c <= hi;
  rd_last : lastFeeProposal c = 0 \/ lo <= lastFeeProposal c <= hi;
}.

(** The state after offering a fee. *)
Definition offered (f : Z) (m : ClosingSigned.t) (c : ChanCloser) : ChanCloser :=
  add_offer f m (set_lastFee f (set_channel (set_status (channel c) channelClosing) c)).

Lemma propose_ok lo hi c f :
  status (channel c) <> channelClosed -> payable hi c -> 0 <= lo -> lo <= f <= hi ->
  exists m, proposeCloseSigned f c = (Ok m, offered f m c) /\ offer c f m.
Proof.
  intros Hs [Hp Hsig] Hlo Hf. destruct (Hp f ltac:(lia)) as (tx & Htx).
  destruct (SignOutput (ourKey (channel c)) (witnessScript (channel c)) tx) as [e|] eqn:He; [|by destruct (Hsig tx)].
  destruct (signature_roundtrip e) as (b & Hb & Ht).
  exists (ClosingSigned.mk (cid c) f b []). split; [|split; [done|by exists tx, e]].
  unfold proposeCloseSigned, bind, get, call, CreateCloseProposal. rewrite bool_decide_eq_false_2 by done.
  rewrite Htx. cbn [obind]. rewrite He. cbn. by rewrite Hb.
Qed.

(** The offers of a node that has made one more. *)
Lemma offered_ready lo hi c f m :
  ready lo hi c -> lo <= f <= hi -> offer c f m -> ready lo hi (offered f m c).
Proof.
  intros [H1 H2 [H3 H3'] H4 H5 H6] Hf Ho. split; cbn; try done; [|by right].
  intros f' m'. destruct (decide (f' = f)) as [->|Hne].
  - rewrite lookup_insert_eq. by intros [= <-].
  - rewrite lookup_insert_ne by done. apply H4.
Qed.

(** ** The two ends *)

Record paired (x y : ChanCloser) : Prop := {
  pr_mirror : mirrored (channel x) (channel y);
  pr_script1 : localDeliveryScript x = remoteDeliveryScript y;
  pr_script2 : remoteDeliveryScript x = localDeliveryScript y;
  pr_sane : sane_balances (channel x);
  pr_btc : ChanAssetID (chanCfg (channel x)) = BtcAssetId;
}.

(** What never changes in a negotiation. *)
Definition core (c : ChanCloser) :=
  (chanCfg (channel c), localCommit (channel c), ourKey (channel c), theirKey (channel c), localDeliveryScript c, remoteDeliveryScript c).

Lemma core_paired x y x' y' : paired x y -> core x' = core x -> core y' = core y -> paired x' y'.
Proof.
  intros [Hm H1 H2 H3 H4] Hx Hy. unfold core in *. injection Hx as E1 E2 E3 E4 E5 E6. injection Hy as F1 F2 F3 F4 F5 F6.
  split; [destruct Hm; split; congruence|congruence..| |congruence]. unfold sane_balances in *. by rewrite E2.
Qed.

Lemma paired_sym x y : paired x y -> paired y x.
Proof.
  intros [Hm H1 H2 H3 H4]. split; [by apply mirrored_sym|done|done| |by mirror Hm].
  unfold sane_balances in *. mirror Hm. naive_solver.
Qed.

Lemma core_coopCloseTx x x' f :
  core x' = core x -> coopCloseTx (channel x') f (localDeliveryScript x') (remoteDeliveryScript x') =
                      coopCloseTx (channel x) f (localDeliveryScript x) (remoteDeliveryScript x).
Proof.
  unfold core. intros [= E1 E2 E3 E4 E5 E6]. unfold coopCloseTx, closeBalance, fundingTxIn. by rewrite E1, E2, E5, E6.
Qed.

Lemma paired_tx x y f :
  paired x y -> 0 <= f < 2 ^ 58 ->
  coopCloseTx (channel x) f (localDeliveryScript x) (remoteDeliveryScript x) =
  coopCloseTx (channel y) f (localDeliveryScript y) (remoteDeliveryScript y).
Proof.
  intros [Hm -> -> H3 H4] Hf. apply coopCloseTx_mirror; done || lia.
Qed.

(** The closing transaction for a fee, broadcast. *)
Definition done_at (f : Z) (c : ChanCloser) : Prop :=
  state c = closeFinished /\ exists tx, closingTx c = Some tx /\ tx ∈ broadcasts c /\
    coopCloseTx (channel c) f (localDeliveryScript c) (remoteDeliveryScript c) = Ok (unsigned tx).

(** Both have offered the fee: the one that hears it last finishes. *)
Lemma finish_ok x y f mx my :
  paired x y -> 0 <= f < 2 ^ 58 -> status (channel y) <> channelClosed -> offer x f mx -> offer y f my ->
  priorFeeOffers y !! f = Some my ->
  exists y', finishClose calm mx y = (Ok ([MClosingSigned my], true), y') /\ core y' = core y /\ done_at f y'.
Proof.
  intros Hp Hf Hs (Hfx & tx & ex & Htx & Hex & Hsx) (_ & ty & ey & Hty & Hey & Hsy) Hl.
  rewrite (paired_tx x y) in Htx by done. rewrite Htx in Hty. injection Hty as <-.
  pose proof (pr_mirror _ _ Hp) as Hm. unfold witnessScript in *. rewrite (mir_key1 _ _ Hm), (mir_key2 _ _ Hm), multisig_sym in Hex.
  unfold finishClose, bind, get, lift. rewrite Hfx, Hl, Hsy, Hsx. unfold call at 1.
  unfold CompleteCooperativeClose. rewrite bool_decide_eq_false_2 by done. rewrite Htx. cbn [obind].
  unfold fundingPkScript, witnessScript. rewrite multisig_executes by done.
  eexists. split; [reflexivity|]. split; [done|]. split; [done|]. eexists. split; [done|].
  split; [cbn; set_solver|exact Htx].
Qed.

(** ** One message *)

Lemma receive lo hi x y f m :
  10 <= lo -> hi < 2 ^ 58 -> paired x y -> ready lo hi y -> lo <= f <= hi -> offer x f m ->
  (exists mo y', offer y f mo /\ ProcessCloseMsg calm (MClosingSigned m) y = (Ok ([MClosingSigned mo], true), y') /\
     core y' = core y /\ done_at f y') \/
  (exists g mo, ProcessCloseMsg calm (MClosingSigned m) y = (Ok ([MClosingSigned mo], false), offered g mo y) /\ offer y g mo /\
     lo <= g <= hi /\ (lastFeeProposal y = 0 \/ f < g < lastFeeProposal y \/ lastFeeProposal y < g < f)).
Proof.
  intros Hlo Hhi Hp Hr Hf Ho. pose proof Hr as [Hst Hss Hpay Hof Hid Hla]. pose proof Ho as [Hfm _].
  unfold ProcessCloseMsg, bind, get. rewrite Hst, Hfm.
  destruct (priorFeeOffers y !! f) as [my|] eqn:Hl.
  - left. destruct (finish_ok x y f m my) as (y' & -> & Hc & Hd); [done|lia|done|done|by apply Hof|done|].
    exists my, y'. split; [by apply Hof|]. by split.
  - set (g := calcCompromiseFee _ _ _).
    assert (Hg : g = f \/ (g = idealFeeSat y /\ lastFeeProposal y = 0) \/
      (10 <= lastFeeProposal y /\ (f < g < lastFeeProposal y \/ lastFeeProposal y < g < f))) by (apply compromise; lia).
    clearbody g. assert (Hgr : lo <= g <= hi) by lia.
    destruct (propose_ok lo hi y g) as (mo & -> & Hmo); [done|done|lia|done|]. cbn [fst snd]. case_bool_decide as Hgf.
    + left. subst g. pose proof (offered_ready _ _ _ _ _ Hr Hgr Hmo) as Hr1.
      destruct (finish_ok x (offered f mo y) f m mo) as (y' & -> & Hc & Hd).
      * by apply (core_paired x y).
      * lia.
      * done.
      * done.
      * done.
      * cbn. apply lookup_insert_eq.
      * exists mo, y'. split; [done|]. by split.
    + right. exists g, mo. split; [done|]. split; [done|]. split; [done|]. lia.
Qed.

(** The node that made the offer that was accepted finishes too, and the echo of its
    offer changes nothing. *)
Lemma close_out lo hi x y y' f mx my fuel :
  0 <= f < 2 ^ 58 -> ready lo hi x -> paired x y -> core y' = core y -> done_at f y' -> offer y f my ->
  priorFeeOffers x !! f = Some mx -> (3 <= fuel)%nat ->
  exists x', exchange fuel y' x [MClosingSigned my] = Some (y', x') /\ core x' = core x /\ done_at f x'.
Proof.
  intros Hf Hr Hp Hc Hd Hoy Hl Hfu. pose proof Hr as [Hst Hss Hpay Hof Hid Hla]. pose proof Hoy as [Hfy _].
  destruct (finish_ok y x f my mx) as (x' & Hfin & Hcx & Hdx); [by apply paired_sym|done|done|done|by apply Hof|done|].
  destruct fuel as [|[|[|fuel]]]; [lia..|]. exists x'. cbn [exchange handle].
  assert (Hx : ProcessCloseMsg calm (MClosingSigned my) x = (Ok ([MClosingSigned mx], true), x')).
  { unfold ProcessCloseMsg, bind, get. by rewrite Hst, Hfy, Hl, Hfin. }
  rewrite Hx. cbn [app]. destruct Hd as [Hs' _].
  assert (Hy : ProcessCloseMsg calm (MClosingSigned mx) y' = (Ok ([], true), y')).
  { unfold ProcessCloseMsg, bind, get. by rewrite Hs'. }
  cbn [exchange handle]. rewrite Hy. cbn [app exchange]. by split_and!.
Qed.

(** What is left to negotiate. *)
Definition gap (lo hi : Z) (f : Z) (y : ChanCloser) : Z :=
  if bool_decide (lastFeeProposal y = 0) then hi - lo + 1 else Z.abs (lastFeeProposal y - f).

Lemma gap_bound lo hi f y : ready lo hi y -> lo <= f <= hi -> gap lo hi f y <= hi - lo + 1.
Proof. intros [_ _ _ _ _ Hl] Hf. unfold gap. case_bool_decide; lia. Qed.

(** Both nodes are done at the same fee. *)
Definition agreed (lo hi : Z) (x y : ChanCloser) (r : option (ChanCloser * ChanCloser)) : Prop :=
  exists a b f, r = Some (a, b) /\ (core a = core x /\ core b = core y \/ core a = core y /\ core b = core x) /\
    lo <= f <= hi /\ done_at f a /\ done_at f b.

Lemma negotiate lo hi n x y f m fuel :
  10 <= lo -> hi < 2 ^ 58 -> gap lo hi f y <= Z.of_nat n -> (n + 4 <= fuel)%nat ->
  paired x y -> ready lo hi x -> ready lo hi y -> lastFeeProposal x = f -> lo <= f <= hi -> priorFeeOffers x !! f = Some m ->
  agreed lo hi x y (exchange fuel x y [MClosingSigned m]).
Proof.
  intros Hlo Hhi. revert x y f m fuel. induction n as [|n IH]; intros x y f m fuel Hgap Hfu Hp Hx Hy Hlast Hf Hl.
  all: pose proof (rd_offers _ _ _ Hx f m Hl) as Ho; destruct fuel as [|fuel]; [lia|]; cbn [exchange handle].
  all: destruct (receive lo hi x y f m) as [(mo & y' & Hoy & -> & Hc & Hd)|(g & mo & -> & Hoy & Hg & Hbt)]; [done..| |].
  1,3: cbn [app]; destruct (close_out lo hi x y y' f m mo fuel) as (x' & -> & Hcx & Hdx); [lia|done..|lia|];
    exists y', x', f; split_and!; [done|right; by split|lia|lia|done|done].
  - exfalso. unfold gap in Hgap. case_bool_decide; lia.
  - cbn [app].
    destruct (IH (offered g mo y) x g mo fuel) as (a & b & f' & -> & Hcore & Hrest).
    + unfold gap in *. rewrite Hlast. repeat case_bool_decide; lia.
    + lia.
    + apply (core_paired y x); [by apply paired_sym|done|done].
    + by apply offered_ready.
    + done.
    + done.
    + done.
    + cbn. apply lookup_insert_eq.
    + exists a, b, f'. split; [done|]. split; [|done]. destruct Hcore as [[H1 H2]|[H1 H2]]; [right|left]; by split.
Qed.

(** ** Shutting down *)

(** A node that has not entered the negotiation. *)
Record waiting (st : closeState) (lo hi : Z) (c : ChanCloser) : Prop := {
  wt_state : state c = st;
  wt_status : status (channel c) <> channelClosed;
  wt_offers : priorFeeOffers c = ∅;
  wt_last : lastFeeProposal c = 0;
  wt_ideal : lo <= idealFeeSat c <= hi;
}.

Lemma mark_ok c : exists st, markCoop calm None c = (Ok tt, set_channel (set_broadcasted (channel c) st (dbCloseTx (channel c))) c).
Proof. eexists. reflexivity. Qed.

Lemma shutdown_ok lo hi c :
  waiting closeIdle lo hi c ->
  exists c', ShutdownChan calm c = (Ok (Shutdown.mk (cid c) (localDeliveryScript c) []), c') /\
    waiting closeShutdownInitiated lo hi c' /\ core c' = core c.
Proof.
  intros [H1 H2 H3 H4 H5]. unfold ShutdownChan, bind, get. rewrite bool_decide_eq_true_2 by done.
  eexists. split; [reflexivity|]. split; [|done]. by split.
Qed.

(** The node with the other's script. *)
Definition with_script (s' : list byte) (c : ChanCloser) :=
  (chanCfg (channel c), localCommit (channel c), ourKey (channel c), theirKey (channel c), localDeliveryScript c, s').

Lemma waiting_ready st lo hi s' c c' :
  waiting st lo hi c -> core c' = with_script s' c -> state c' = closeFeeNegotiation -> status (channel c') <> channelClosed ->
  payable hi c' -> priorFeeOffers c' = priorFeeOffers c -> lastFeeProposal c' = lastFeeProposal c -> idealFeeSat c' = idealFeeSat c ->
  ready lo hi c'.
Proof.
  intros [H1 H2 H3 H4 H5] Hc Hs Hst Hp Ho Hl Hi. split; try done.
  - intros f m. rewrite Ho, H3. by rewrite lookup_empty.
  - by rewrite Hi.
  - left. congruence.
Qed.

(** The upfront shutdown script of the peer, if there is one, is the one it sends. *)
Definition script_ok (c : ChanCloser) (s' : list byte) : Prop :=
  RemoteShutdownScript (chanCfg (channel c)) = [] \/ RemoteShutdownScript (chanCfg (channel c)) = s'.

Lemma match_ok c s' : script_ok c s' -> maybeMatchScript calm (RemoteShutdownScript (chanCfg (channel c))) s' = Ok tt.
Proof. intros [->| ->]; [done|]. unfold maybeMatchScript. case_bool_decide; [done|]. by rewrite bool_decide_eq_true_2. Qed.

Lemma payable_core hi c c' : core c' = core c -> payable hi c -> payable hi c'.
Proof.
  intros Hc [H1 H2]. split.
  - intros f Hf. rewrite (core_coopCloseTx c c' f Hc). by apply H1.
  - unfold witnessScript in *. unfold core in Hc. injection Hc as _ _ -> -> _ _. exact H2.
Qed.

(** Answering a shutdown, or hearing the answer: the negotiation starts, and the node
    that opened the channel makes the first offer. *)
Lemma enter st lo hi c s' i :
  10 <= lo -> (st = closeShutdownInitiated \/ st = closeIdle /\ checkThawed c = Ok tt) ->
  waiting st lo hi c -> script_ok c s' -> payable hi (set_remoteScript s' c) ->
  exists c' out, ProcessCloseMsg calm (MShutdown (Shutdown.mk i s' [])) c = (Ok (out, false), c') /\
    core c' = with_script s' c /\ ready lo hi c' /\
    let first := if bool_decide (st = closeIdle) then [MShutdown (Shutdown.mk (cid c) (localDeliveryScript c) [])] else [] in
    if IsInitiator (chanCfg (channel c))
    then exists m, out = first ++ [MClosingSigned m] /\ lastFeeProposal c' = idealFeeSat c /\ priorFeeOffers c' !! idealFeeSat c = Some m
    else out = first.
Proof.
  intros Hlo Hst Hw Hsc Hp. pose proof Hw as [H1 H2 H3 H4 H5].
  assert (Hgo : exists c1, core c1 = with_script s' c /\ ready lo hi c1 /\ idealFeeSat c1 = idealFeeSat c /\
    ProcessCloseMsg calm (MShutdown (Shutdown.mk i s' [])) c =
      (let first := if bool_decide (st = closeIdle) then [MShutdown (Shutdown.mk (cid c) (localDeliveryScript c) [])] else [] in
       if IsInitiator (chanCfg (channel c))
       then (let! m := proposeCloseSigned (idealFeeSat c) in ret (first ++ [MClosingSigned m], false)) c1
       else (Ok (first, false), c1))).
  { destruct Hst as [->|[-> Hth]]; unfold ProcessCloseMsg, bind, get, lift; rewrite H1; cbn [Shutdown.Address]; rewrite ?Hth, (match_ok _ _ Hsc).
    - eexists. split; [|split; [|split; [|cbn; destruct (IsInitiator _); reflexivity]]]; [done| |done].
      by apply (waiting_ready closeShutdownInitiated lo hi s' c).
    - eexists. split; [|split; [|split; [|cbn; destruct (IsInitiator _); reflexivity]]]; [done| |done].
      apply (waiting_ready closeIdle lo hi s' c); try done. }
  destruct Hgo as (c1 & Hc1 & Hr1 & Hi1 & ->). cbv zeta. destruct (IsInitiator _).
  - destruct (propose_ok lo hi c1 (idealFeeSat c)) as (m & Hpr & Hm); [apply Hr1|apply Hr1|lia|done|].
    unfold bind. rewrite Hpr. eexists _, _. split; [reflexivity|]. split; [done|]. split; [by apply offered_ready|].
    exists m. split; [done|]. split; [done|]. cbn. apply lookup_insert_eq.
  - by eexists _, _.
Qed.

(** ** The whole close *)

(** The fee a node would like to pay: at most what the commitment pays. *)
Definition idealFee (ch : closeChan) (rate : Z) : Z := Z.min (CalcFee ch rate) (CommitFee (localCommit ch)).

Lemma NewChanCloser_waiting ch s' rate h b lo hi :
  status ch <> channelClosed -> lo <= idealFee ch rate <= hi -> waiting closeIdle lo hi (NewChanCloser ch s' rate h b).
Proof.
  intros Hs Hi. split; try done. cbn. unfold idealFee in Hi. case_bool_decide; lia.
Qed.

Lemma idealFee_closer ch s' rate h b : idealFeeSat (NewChanCloser ch s' rate h b) = idealFee ch rate.
Proof. cbn. unfold idealFee. case_bool_decide; lia. Qed.

(** What a close of the channel [cx] with the scripts [sx] and [sy] needs: fees that can
    be paid and signed for. *)
Definition closable (cx : closeChan) (sx sy : list byte) : Prop :=
  sane_balances cx /\ ChanAssetID (chanCfg cx) = BtcAssetId /\ 10 <= CommitFee (localCommit cx) < 2 ^ 58 /\
  (forall f, 0 <= f <= CommitFee (localCommit cx) -> exists tx, coopCloseTx cx f sx sy = Ok tx) /\
  (forall tx, SignOutput (ourKey cx) (witnessScript cx) tx <> None) /\
  (forall tx, SignOutput (theirKey cx) (witnessScript cx) tx <> None).

Lemma closable_payable cx sx sy hi c :
  closable cx sx sy -> hi <= CommitFee (localCommit cx) ->
  core c = (chanCfg cx, localCommit cx, ourKey cx, theirKey cx, sx, sy) -> payable hi c.
Proof.
  intros (Hs & Ha & Hf & Hp & Hsig & _) Hhi Hc. injection Hc as E1 E2 E3 E4 E5 E6. split.
  - intros f Hfr. destruct (Hp f ltac:(lia)) as (tx & Htx). exists tx. rewrite <- Htx, E5, E6.
    unfold coopCloseTx, closeBalance, fundingTxIn. by rewrite E1, E2.
  - unfold witnessScript. rewrite E3, E4. exact Hsig.
Qed.

Lemma closable_mirror cx cy sx sy : mirrored cx cy -> closable cx sx sy -> closable cy sy sx.
Proof.
  intros Hm (Hs & Ha & Hf & Hp & H1 & H2).
  assert (Hsb : sane_balances cy) by (unfold sane_balances in *; mirror Hm; naive_solver).
  split; [done|]. unfold witnessScript in *. rewrite <- (mir_key1 _ _ Hm), <- (mir_key2 _ _ Hm), (multisig_sym (theirKey cx)).
  rewrite <- (mir_asset _ _ Hm), <- (mir_fee _ _ Hm). split_and!; try done; try apply Hf.
  intros f Hfr. rewrite <- (coopCloseTx_mirror cx cy) by (done || lia). by apply Hp.
Qed.

Lemma close_runs cx cy sx sy rx ry hx hy fuel :
  let x := NewChanCloser cx sx rx hx true in
  let y := NewChanCloser cy sy ry hy false in
  let lo := Z.min (idealFee cx rx) (idealFee cy ry) in
  let hi := Z.max (idealFee cx rx) (idealFee cy ry) in
  mirrored cx cy -> closable cx sx sy -> 10 <= CalcFee cx rx -> 10 <= CalcFee cy ry ->
  status cx <> channelClosed -> status cy <> channelClosed -> script_ok x sy -> script_ok y sx -> checkThawed y = Ok tt ->
  hi - lo + 7 <= Z.of_nat fuel ->
  exists x2 y1, core x2 = with_script sy x /\ core y1 = with_script sx y /\
    (agreed lo hi x2 y1 (close fuel x y) \/ agreed lo hi y1 x2 (close fuel x y)).
Proof.
  intros x y lo hi Hm Hcl Hfx Hfy Hsx Hsy Hux Huy Hth Hfu. pose proof Hcl as (Hs & Ha & Hf & _).
  assert (Hix : 10 <= idealFee cx rx <= CommitFee (localCommit cx)) by (unfold idealFee; lia).
  assert (Hiy : 10 <= idealFee cy ry <= CommitFee (localCommit cx)) by (unfold idealFee; rewrite <- (mir_fee _ _ Hm); lia).
  pose proof (closable_mirror _ _ _ _ Hm Hcl) as Hcly. pose proof (mir_fee _ _ Hm) as Hfee.
  destruct (shutdown_ok lo hi x) as (x1 & Hsd & Hw1 & Hc1); [apply NewChanCloser_waiting; [done|lia]|].
  destruct (enter closeIdle lo hi y sx (cid x)) as (y1 & out1 & Hy1 & Hcy1 & Hry1 & Hout1);
    [lia|by right|apply NewChanCloser_waiting; [done|lia]|done|by apply (closable_payable cy sy sx); [|lia|]|].
  assert (Hc1' : core x1 = core x) by done. unfold core in Hc1'. cbn in Hc1'. injection Hc1' as E1 E2 E3 E4 E5 E6.
  assert (Hscx1 : script_ok x1 sy) by (unfold script_ok in *; rewrite E1; exact Hux).
  destruct (enter closeShutdownInitiated lo hi x1 sy (cid y)) as (x2 & out2 & Hx2 & Hcx2 & Hrx2 & Hout2);
    [lia|by left|done|done|apply (closable_payable cx sx sy); [done|lia|unfold core; cbn; by rewrite E1, E2, E3, E4, E5]|].
  assert (Hcx : core x2 = with_script sy x) by (rewrite Hcx2; unfold with_script; cbn; by rewrite E1, E2, E3, E4, E5).
  exists x2, y1. split; [done|]. split; [done|].
  assert (Hp : paired x2 y1).
  { unfold core, with_script in Hcx, Hcy1. cbn in Hcx, Hcy1. injection Hcx as A1 A2 A3 A4 A5 A6. injection Hcy1 as B1 B2 B3 B4 B5 B6.
    split; [destruct Hm; split; congruence|congruence|congruence| |congruence]. unfold sane_balances in *. by rewrite A2. }
  destruct fuel as [|[|fuel]]; [lia..|]. unfold close. rewrite Hsd.
  change (localDeliveryScript x) with sx. cbn [exchange handle]. rewrite Hy1. rewrite app_nil_r.
  rewrite bool_decide_eq_true_2 in Hout1 by done. rewrite bool_decide_eq_false_2 in Hout2 by done. cbv zeta in Hout1, Hout2.
  rewrite E1, (mir_initiator _ _ Hm) in Hout2. change (chanCfg (channel y)) with (chanCfg cy) in Hout1.
  change (localDeliveryScript y) with sy in Hout1.
  assert (Hgo : forall a b f m fuel', paired a b -> ready lo hi a -> ready lo hi b -> lastFeeProposal a = f ->
    lo <= f <= hi -> priorFeeOffers a !! f = Some m -> hi - lo + 5 <= Z.of_nat fuel' ->
    agreed lo hi a b (exchange fuel' a b [MClosingSigned m])).
  { intros a b f m fuel' Hpab Hra Hrb Hl Hfr Hpo Hfu'. apply (negotiate lo hi (Z.to_nat (hi - lo + 1)) a b f); try done; try lia.
    rewrite Z2Nat.id by lia. by apply gap_bound. }
  destruct (IsInitiator (chanCfg cy)); cbn [negb] in Hout2.
  - destruct Hout1 as (m & -> & Hl & Hpo). subst out2. right. cbn [app handle]. rewrite Hx2.
    specialize (Hgo y1 x2 _ m (S fuel) (paired_sym _ _ Hp) Hry1 Hrx2 Hl). cbn [exchange handle] in Hgo.
    assert (Hr : lo <= idealFeeSat y <= hi) by (unfold y; rewrite idealFee_closer; lia). specialize (Hgo Hr Hpo ltac:(lia)).
    by destruct (ProcessCloseMsg calm (MClosingSigned m) x2) as [[[out ?]| |] c'].
  - subst out1. destruct Hout2 as (m & -> & Hl & Hpo). left. cbn [app handle exchange]. rewrite Hx2. cbn [app].
    apply (Hgo x2 y1 _ m fuel Hp Hrx2 Hry1 Hl); [|done|lia]. apply Hw1.
Qed.


End live.

(** ** A concrete close *)

#[local] Existing Instance WireModels.btcec_model.


(** Below ten satoshis the nodes can disagree for ever. *)
Example ratchet_stuck :
  calcCompromiseFee 9 9 1 = 9 /\ calcCompromiseFee 1 1 9 = 1.
Proof. done. Qed.

(** A peer that answers our asset offer with its fee and no signature makes the node
    panic: the signatures are indexed before their number is known. *)
Example missing_signatures_panic :
  let c := (OB_ProcessCloseMsg calm (MObShutdownSimpleSend (ObShutdownSimpleSend.mk [] bob_script []))
              (NewChanCloser (alice 31 500 0) alice_script 253 600 false)).2 in
  (OB_ProcessCloseMsg calm
     (MObClosingSignedSimpleSend (ObClosingSignedSimpleSend.mk [] (idealFeeSat c) [] true [])) c).1 = Panic.
Proof. vm_compute. done. Qed.
