(* ===== verification/ChannelModel.v ===== *)
(** * lnwallet: a concrete channel

    An instance of the channel's environment by concrete functions, and a
    freshly opened channel over it: the inputs at which the theorems about the
    state machine are evaluated. *)

From Stdlib Require Import ZArith Lia.
From S2P Require Import Prelude Wire WireModels Amounts OpReturn UpdateLog CommitTx ChannelState.

Local Open Scope Z_scope.

Lemma secret_key_length (s : list byte) :
  length (x02 :: take 32 (s ++ replicate 32 x00)) = 33%nat.
Proof. cbn [length]. rewrite length_take, length_app, length_replicate. lia. Qed.

Definition secret_key (s : list byte) : key33 := dexist _ (secret_key_length s).

#[local] Existing Instance btcec_model.

Definition chan_model : @ChanEnv btcec_model := {|
  env_scripts := example_scripts;
  revStore := list (list byte);
  IsEqual := fun a b => bool_decide (SerializeCompressed a = SerializeCompressed b);
  DeriveCommitmentKeys := fun _ _ => tt;
  ComputeCommitmentPoint := secret_key;
  AtIndex := fun n => Some (be_put 32 n);
  AddNextEntry := fun store secret => Some (secret :: store);
  SignOutputRaw := fun _ => Some (replicate 64 x01);
  signHtlcs := fun _ c => Some ((fun _ => replicate 64 x02) <$> Commitment.outgoingHTLCs c);
  GetTransactionWeight := fun _ => 500;
  checkCommitSig := fun _ sig => bool_decide (length sig = 64%nat);
  checkHtlcSigs := fun _ _ _ => true;
  sha256 := fun s => rev s;
|}.

(** The first commitment of a channel, without HTLCs. *)
Definition first_commitment (isOurs : bool) (our their fee ourA theirA : Z) : commitment :=
  {| Commitment.height := 0; Commitment.isOurs := isOurs;
     Commitment.ourMessageIndex := 0; Commitment.theirMessageIndex := 0;
     Commitment.ourHtlcIndex := 0; Commitment.theirHtlcIndex := 0;
     Commitment.txn := mkMsgTx [] [] 0; Commitment.sig := [];
     Commitment.ourBtcBalance := our; Commitment.theirBtcBalance := their;
     Commitment.ourAssetBalance := ourA; Commitment.theirAssetBalance := theirA;
     Commitment.fee := fee; Commitment.feePerKw := 253; Commitment.dustLimit := 573;
     Commitment.outgoingHTLCs := []; Commitment.incomingHTLCs := [];
     Commitment.outgoingHTLCIndex := ∅; Commitment.incomingHTLCIndex := ∅ |}.

Definition open_channel (c : ChanCfg) (our their fee ourA theirA : Z) :
    @LightningChannel btcec_model chan_model :=
  let local := first_commitment true our their fee ourA theirA in
  let remote := first_commitment false our their fee ourA theirA in
  let rev := @mkRevState btcec_model chan_model [] (Some (secret_key (be_put 32 0)))
               (Some (secret_key (be_put 32 1))) in
  let t := mkTotals 0 0 0 0 in
  {| cfg := c; ShortChanID := mkShortChannelID 1 1 1; isRestored := false; currentHeight := 0;
     localCommitChain := [local]; remoteCommitChain := [remote];
     localUpdateLog := newUpdateLog 0 0; remoteUpdateLog := newUpdateLog 0 0;
     totals := t; revocation := rev;
     LocalCommitment := toDiskCommit true local; RemoteCommitment := toDiskCommit false remote;
     bucket :=
       {| db_localCommitment := toDiskCommit true local;
          db_remoteCommitment := toDiskCommit false remote;
          db_commitDiff := None; db_unsignedAckedUpdates := None;
          db_remoteUnsignedLocalUpdates := None; db_lastWasRevoke := false;
          db_revocationLog := []; db_fwdPkgs := []; db_totals := t; db_revocation := rev;
          db_borked := false |} |}.

(** A bitcoin channel of 100,000 satoshis, and a channel with 700 units of an
    asset, both opened by us. *)
Definition btc_channel : @LightningChannel btcec_model chan_model :=
  open_channel example_cfg 64817000 35000000 183 0 0.

Definition asset_cfg : ChanCfg :=
  {| ChanType := 2; ChanAssetID := 31; IsInitiator := true; BtcCapacity := 40000;
     LocalChanCfg := mkConstraints 354 0 100000000 1 483 144;
     RemoteChanCfg := mkConstraints 354 0 100000000 1 483 144;
     LocalShutdownScript := [x54]; RemoteShutdownScript := [x55]; ThawHeight := 0;
     FundingOutpoint := mkOutPoint (replicate 32 x07) 0; obfuscator := replicate 6 xaa |}.

Definition asset_channel : @LightningChannel btcec_model chan_model :=
  open_channel asset_cfg 20000000 20000000 183 500 200.
