(* ===== verification/ChannelView.v ===== *)
(** * lnwallet: evaluating the update logs

    Models [fetchHTLCView], [evaluateHTLCView] with its three entry handlers,
    [fetchParent], [computeView], [validateCommitmentSanity],
    [fetchCommitmentView] and the available balance of lnwallet/channel.go.

    An entry of a view is a pointer to a descriptor of a log: its element and the
    value behind it.  When the heights or the scripts of the descriptor are
    written, they are written to the log through the element. *)

From Stdlib Require Import ZArith Lia.
From S2P Require Import Prelude Wire Amounts OpReturn UpdateLog CommitTx ChannelState.

Local Open Scope Z_scope.
Local Open Scope go_scope.

(** ** The entry handlers *)

Record balances := mkBalances { ourBtc : Z; theirBtc : Z; ourAsset : Z; theirAsset : Z }.

Definition addHeight (remoteChain : bool) (pd : PaymentDescriptor) : Z :=
  if remoteChain then addCommitHeightRemote (heights pd) else addCommitHeightLocal (heights pd).

Definition removeHeight (remoteChain : bool) (pd : PaymentDescriptor) : Z :=
  if remoteChain then removeCommitHeightRemote (heights pd) else removeCommitHeightLocal (heights pd).

Definition set_addHeight (remoteChain : bool) (h : Z) : PaymentDescriptor -> PaymentDescriptor :=
  alter_heights (fun x =>
    if remoteChain
    then mkHeights h (addCommitHeightLocal x) (removeCommitHeightRemote x) (removeCommitHeightLocal x)
    else mkHeights (addCommitHeightRemote x) h (removeCommitHeightRemote x) (removeCommitHeightLocal x)).

Definition set_removeHeight (remoteChain : bool) (h : Z) : PaymentDescriptor -> PaymentDescriptor :=
  alter_heights (fun x =>
    if remoteChain
    then mkHeights (addCommitHeightRemote x) (addCommitHeightLocal x) h (removeCommitHeightLocal x)
    else mkHeights (addCommitHeightRemote x) (addCommitHeightLocal x) (removeCommitHeightRemote x) h).

Definition processAddEntry (htlc : PaymentDescriptor) (bal : balances) (nextHeight : Z)
    (remoteChain isIncoming mutateState : bool) : PaymentDescriptor * balances :=
  if bool_decide (addHeight remoteChain htlc <> 0) then (htlc, bal)
  else
    let bal :=
      if isIncoming
      then mkBalances (ourBtc bal) (u64 (theirBtc bal - BtcAmount htlc))
             (ourAsset bal) (i64 (theirAsset bal - AssetAmount htlc))
      else mkBalances (u64 (ourBtc bal - BtcAmount htlc)) (theirBtc bal)
             (i64 (ourAsset bal - AssetAmount htlc)) (theirAsset bal) in
    (if mutateState then set_addHeight remoteChain nextHeight htlc else htlc, bal).

Definition processRemoveEntry (htlc : PaymentDescriptor) (bal : balances) (nextHeight : Z)
    (remoteChain isIncoming mutateState : bool) : PaymentDescriptor * balances :=
  if bool_decide (removeHeight remoteChain htlc <> 0) then (htlc, bal)
  else
    let creditUs := mkBalances (u64 (ourBtc bal + BtcAmount htlc)) (theirBtc bal)
                      (i64 (ourAsset bal + AssetAmount htlc)) (theirAsset bal) in
    let creditThem := mkBalances (ourBtc bal) (u64 (theirBtc bal + BtcAmount htlc))
                        (ourAsset bal) (i64 (theirAsset bal + AssetAmount htlc)) in
    let bal :=
      match isIncoming, EntryType htlc with
      | true, Settle => creditUs
      | true, Fail | true, MalformedFail => creditThem
      | false, Settle => creditThem
      | false, Fail | false, MalformedFail => creditUs
      | _, _ => bal
      end in
    (if mutateState then set_removeHeight remoteChain nextHeight htlc else htlc, bal).

(** The descriptor and the fee rate of the view. *)
Definition processFeeUpdate (feeUpdate : PaymentDescriptor) (nextHeight : Z)
    (remoteChain mutateState : bool) (viewFee : Z) : PaymentDescriptor * Z :=
  if bool_decide (addHeight remoteChain feeUpdate <> 0) then (feeUpdate, viewFee)
  else
    (if mutateState
     then set_removeHeight remoteChain nextHeight (set_addHeight remoteChain nextHeight feeUpdate)
     else feeUpdate,
     ToSatoshis (BtcAmount feeUpdate)).

Section view.
Context {BT : Btcec} {E : ChanEnv}.

(** Which chain a view is evaluated for, whether the heights are written, and
    the height written. *)
Record evalMode := mkMode { remoteChain : bool; mutateState : bool; nextHeight : Z }.

Definition logOf (remote : bool) (lc : LightningChannel) : updateLog :=
  if remote then remoteUpdateLog lc else localUpdateLog lc.

Definition set_logOf (remote : bool) (lc : LightningChannel) (u : updateLog) : LightningChannel :=
  if remote then set_logs lc (localUpdateLog lc) u else set_logs lc u (remoteUpdateLog lc).

Definition chainOf (remote : bool) (lc : LightningChannel) : list commitment :=
  if remote then remoteCommitChain lc else localCommitChain lc.

Definition tipOf (remote : bool) (lc : LightningChannel) : outcome chan_err commitment :=
  or_panic (CommitmentChain.tip (chainOf remote lc)).

Definition tailOf (remote : bool) (lc : LightningChannel) : outcome chan_err commitment :=
  or_panic (CommitmentChain.tail (chainOf remote lc)).

(** Writes the heights of a descriptor through its pointer. *)
Definition writeHeights (remoteLog : bool) (x : view_entry) : M unit :=
  match x.1 with
  | None => cret tt
  | Some e => cput (fun lc =>
      set_logOf remoteLog lc (alter_entry (logOf remoteLog lc) e (alter_heights (fun _ => heights x.2))))
  end.

(** ** Views *)

Definition pointers (l : list (nat * PaymentDescriptor)) : list view_entry :=
  (fun x => (Some x.1, x.2)) <$> l.

Definition fetchHTLCView (lc : LightningChannel) (theirLogIndex ourLogIndex : Z) : htlcView :=
  {| ourUpdates := pointers (filter (fun x => LogIndex x.2 < ourLogIndex)
                               (entries (localUpdateLog lc)));
     theirUpdates := pointers (filter (fun x => LogIndex x.2 < theirLogIndex)
                                 (entries (remoteUpdateLog lc)));
     feePerKw := 0 |}.

Definition fetchParent (lc : LightningChannel) (entry : PaymentDescriptor)
    (remoteChain remoteLog : bool) : outcome chan_err PaymentDescriptor :=
  match lookupHtlc (logOf remoteLog lc) (ParentIndex entry) with
  | None => Err (ErrParentNotFound (ParentIndex entry))
  | Some addEntry =>
      if remoteChain && bool_decide (addCommitHeightRemote (heights addEntry) = 0)
      then Err ErrZeroRemoteAddHeight
      else if negb remoteChain && bool_decide (addCommitHeightLocal (heights addEntry) = 0)
      then Err ErrZeroLocalAddHeight
      else Ok addEntry
  end.

(** The counters of settled amounts: a settle in our log is a receive, one in
    theirs a send; the asset counter is the same in both cases. *)
Definition countSettle (mode : evalMode) (ours : bool) (entry : PaymentDescriptor) : M unit :=
  if mutateState mode && bool_decide (EntryType entry = Settle) && negb (remoteChain mode) &&
     bool_decide (removeCommitHeightLocal (heights entry) = 0)
  then cput (fun lc =>
    let t := totals lc in
    set_totals lc (
      if ours
      then mkTotals (TotalMSatSent t) (u64 (TotalMSatReceived t + BtcAmount entry))
             (TotalAssetSent t) (i64 (TotalAssetReceived t + AssetAmount entry))
      else mkTotals (u64 (TotalMSatSent t + BtcAmount entry)) (TotalMSatReceived t)
             (TotalAssetSent t) (i64 (TotalAssetReceived t + AssetAmount entry))))
  else cret tt.

(** The first pass over one log: everything but adds.  The removals of our log
    consume HTLCs of theirs, and the other way round. *)
Fixpoint removePass (mode : evalMode) (ours : bool) (l : list view_entry) (bal : balances)
    (fee : Z) (skip : gset Z) : M (balances * Z * gset Z) :=
  match l with
  | [] => cret (bal, fee, skip)
  | (e, entry) :: l' =>
      match EntryType entry with
      | Add => removePass mode ours l' bal fee skip
      | FeeUpdate =>
          let '(entry, fee) :=
            processFeeUpdate entry (nextHeight mode) (remoteChain mode) (mutateState mode) fee in
          _ <== writeHeights (negb ours) (e, entry) ;
          removePass mode ours l' bal fee skip
      | _ =>
          _ <== countSettle mode ours entry ;
          lc <== cget ;
          addEntry <== clift (fetchParent lc entry (remoteChain mode) ours) ;
          let '(entry, bal) :=
            processRemoveEntry entry bal (nextHeight mode) (remoteChain mode) ours (mutateState mode) in
          _ <== writeHeights (negb ours) (e, entry) ;
          removePass mode ours l' bal fee ({[HtlcIndex addEntry]} ∪ skip)
      end
  end.

(** The second pass over one log: the adds that were not consumed. *)
Fixpoint addPass (mode : evalMode) (ours : bool) (skip : gset Z) (l : list view_entry)
    (bal : balances) : M (balances * list view_entry) :=
  match l with
  | [] => cret (bal, [])
  | (e, entry) :: l' =>
      if bool_decide (EntryType entry <> Add) || bool_decide (HtlcIndex entry ∈ skip)
      then addPass mode ours skip l' bal
      else
        let '(entry, bal) :=
          processAddEntry entry bal (nextHeight mode) (remoteChain mode) (negb ours) (mutateState mode) in
        _ <== writeHeights (negb ours) (e, entry) ;
        '(bal, l') <== addPass mode ours skip l' bal ;
        cret (bal, (e, entry) :: l')
  end.

(** In an asset channel both bitcoin balances are set from the capacity. *)
Definition assetBalances (cfg : ChanCfg) (theirs : nat) (bal : balances) : balances :=
  if bool_decide (ChanAssetID cfg > BtcAssetId) then
    let cap := i64 (BtcCapacity cfg - i64 ((Z.of_nat theirs + Z.of_nat theirs) * (3 * OmniGas))) in
    mkBalances (NewMSatFromSatoshis cap) (NewMSatFromSatoshis cap) (ourAsset bal) (theirAsset bal)
  else bal.

Definition evaluateHTLCView (view : htlcView) (bal : balances) (mode : evalMode) :
    M (htlcView * balances) :=
  '(bal, fee, skipThem) <== removePass mode true (ourUpdates view) bal (feePerKw view) ∅ ;
  '(bal, fee, skipUs) <== removePass mode false (theirUpdates view) bal fee ∅ ;
  '(bal, ours) <== addPass mode true skipUs (ourUpdates view) bal ;
  '(bal, theirs) <== addPass mode false skipThem (theirUpdates view) bal ;
  lc <== cget ;
  cret (mkView ours theirs fee, assetBalances (cfg lc) (length theirs) bal).

(** ** The next commitment *)

Definition viewDustLimit (cfg : ChanCfg) (remoteChain : bool) : Z :=
  if remoteChain then DustLimit (RemoteChanCfg cfg) else DustLimit (LocalChanCfg cfg).

(** The balances of the tip with the fee given back to the initiator. *)
Definition tipBalances (cfg : ChanCfg) (tip : commitment) : balances :=
  if IsInitiator cfg
  then mkBalances (u64 (Commitment.ourBtcBalance tip + NewMSatFromSatoshis (Commitment.fee tip)))
         (Commitment.theirBtcBalance tip) (Commitment.ourAssetBalance tip)
         (Commitment.theirAssetBalance tip)
  else mkBalances (Commitment.ourBtcBalance tip)
         (u64 (Commitment.theirBtcBalance tip + NewMSatFromSatoshis (Commitment.fee tip)))
         (Commitment.ourAssetBalance tip) (Commitment.theirAssetBalance tip).

Definition htlcWeightOf (cfg : ChanCfg) (remoteChain : bool) (view : htlcView) : Z :=
  let dust := viewDustLimit cfg remoteChain in
  fold_left (fun w _ => i64 (w + HTLCWeight))
    (nonDust cfg false (negb remoteChain) (feePerKw view) dust (ourUpdates view) ++
     nonDust cfg true (negb remoteChain) (feePerKw view) dust (theirUpdates view)) 0.

Definition computeView (view : htlcView) (remoteChain updateState : bool) :
    M (balances * Z * htlcView) :=
  lc <== cget ;
  tip <== clift (tipOf remoteChain lc) ;
  '(filtered, bal) <==
    evaluateHTLCView
      (mkView (ourUpdates view) (theirUpdates view) (Commitment.feePerKw tip))
      (tipBalances (cfg lc) tip)
      (mkMode remoteChain updateState (u64 (Commitment.height tip + 1))) ;
  cret (bal, i64 (CommitWeight (ChanType (cfg lc)) + htlcWeightOf (cfg lc) remoteChain filtered),
        filtered).

(** *** Channel constraints *)

(** [validateUpdates]: the loop, and the two checks behind it. *)
Fixpoint validateUpdatesLoop (minHTLC : Z) (l : list view_entry) (numInFlight amtInFlight : Z) :
    outcome chan_err (Z * Z) :=
  match l with
  | [] => Ok (numInFlight, amtInFlight)
  | x :: l' =>
      if bool_decide (EntryType x.2 = Add) then
        let amtInFlight := u64 (amtInFlight + GetMsgAmt x.2) in
        let numInFlight := u16 (numInFlight + 1) in
        if bool_decide (GetMsgAmt x.2 = 0) then Err ErrInvalidHTLCAmt
        else if bool_decide (GetMsgAmt x.2 < minHTLC) then Err ErrBelowMinHTLC
        else validateUpdatesLoop minHTLC l' numInFlight amtInFlight
      else validateUpdatesLoop minHTLC l' numInFlight amtInFlight
  end.

Definition validateUpdates (constraints : ChannelConstraints) (l : list view_entry) :
    outcome chan_err unit :=
  '(numInFlight, amtInFlight) <~ validateUpdatesLoop (MinHTLC constraints) l 0 0 ;
  if bool_decide (amtInFlight > MaxPendingAmount constraints) then Err ErrMaxPendingAmount
  else if bool_decide (numInFlight > MaxAcceptedHtlcs constraints) then Err ErrMaxHTLCNumber
  else Ok tt.

(** The balance and reserve checks, on the balances after the commitment fee;
    [init] are the balances of the tip. *)
Definition checkBalances (cfg : ChanCfg) (feePerKw : Z) (init bal : balances) : outcome chan_err unit :=
  if bool_decide (i64 (ourBtc bal) < 0) then Err ErrBelowChanReserve
  else if bool_decide (i64 (theirBtc bal) < 0) then Err ErrBelowChanReserve
  else if bool_decide (feePerKw < FeePerKwFloor) then Err ErrFeeBelowFloor
  else
    let btc := bool_decide (ChanAssetID cfg = BtcAssetId) in
    let ourInitialBalance := if btc then ourBtc init else u64 (ourAsset init) in
    let theirInitialBalance := if btc then theirBtc init else u64 (theirAsset init) in
    let ourAmt := if btc then ourBtc bal else u64 (ourAsset bal) in
    let theirAmt := if btc then theirBtc bal else u64 (theirAsset bal) in
    let reserve c := if btc then UnitPrec8.ToMsat (ChanReserve c) else ChanReserve c in
    if bool_decide (ourAmt < ourInitialBalance) &&
       bool_decide (ourAmt < reserve (LocalChanCfg cfg)) then Err ErrBelowChanReserve
    else if bool_decide (theirAmt < theirInitialBalance) &&
       bool_decide (theirAmt < reserve (RemoteChanCfg cfg)) then Err ErrBelowChanReserve
    else Ok tt.

Definition subFee (cfg : ChanCfg) (commitFee : Z) (bal : balances) : balances :=
  let commitFeeMsat := NewMSatFromSatoshis commitFee in
  if IsInitiator cfg
  then mkBalances (u64 (ourBtc bal - commitFeeMsat)) (theirBtc bal) (ourAsset bal) (theirAsset bal)
  else mkBalances (ourBtc bal) (u64 (theirBtc bal - commitFeeMsat)) (ourAsset bal) (theirAsset bal).

Definition is_asset (pd : option PaymentDescriptor) : bool :=
  match pd with Some pd => bool_decide (UpdateLog.AssetID pd <> BtcAssetId) | None => false end.

Definition misses_assetID (pd : option PaymentDescriptor) : bool :=
  match pd with
  | Some pd => bool_decide (AssetAmount pd > 0) && bool_decide (UpdateLog.AssetID pd = BtcAssetId)
  | None => false
  end.

(** A predicted add is in no log: its entry has no element. *)
Definition predicted (pd : option PaymentDescriptor) : list view_entry :=
  match pd with Some pd => [(None, pd)] | None => [] end.

Definition validateCommitmentSanity (theirLogCounter ourLogCounter : Z) (remoteChain : bool)
    (predictOurAdd predictTheirAdd : option PaymentDescriptor) : M unit :=
  if misses_assetID predictOurAdd then cfail ErrMissingAssetID
  else if is_asset predictOurAdd then cret tt
  else if is_asset predictTheirAdd then cret tt
  else if misses_assetID predictTheirAdd then cfail ErrMissingAssetID
  else
    lc <== cget ;
    let view := fetchHTLCView lc theirLogCounter ourLogCounter in
    let view := mkView (ourUpdates view ++ predicted predictOurAdd)
                  (theirUpdates view ++ predicted predictTheirAdd) (feePerKw view) in
    tip <== clift (tipOf remoteChain lc) ;
    let init := mkBalances (Commitment.ourBtcBalance tip) (Commitment.theirBtcBalance tip)
                  (Commitment.ourAssetBalance tip) (Commitment.theirAssetBalance tip) in
    '(bal, commitWeight, filteredView) <== computeView view remoteChain false ;
    let commitFee := SatPerKWeight.FeeForWeight (feePerKw filteredView) commitWeight in
    _ <== clift (checkBalances (cfg lc) (feePerKw filteredView) init (subFee (cfg lc) commitFee bal)) ;
    _ <== clift (validateUpdates (RemoteChanCfg (cfg lc)) (theirUpdates filteredView)) ;
    clift (validateUpdates (LocalChanCfg (cfg lc)) (ourUpdates filteredView)).

(** *** Building the commitment *)

(** Writes the scripts recorded in a view back to the log. *)
Fixpoint writeScripts (remoteLog : bool) (l : list view_entry) : M unit :=
  match l with
  | [] => cret tt
  | (None, _) :: l' => writeScripts remoteLog l'
  | (Some e, pd) :: l' =>
      _ <== cput (fun lc =>
        set_logOf remoteLog lc (alter_entry (logOf remoteLog lc) e (alter_output (fun _ => output pd)))) ;
      writeScripts remoteLog l'
  end.

(** The scripts that a failing construction has recorded are not kept: only the
    next successful construction, which records them again, makes them matter. *)
Definition fetchCommitmentView (remoteChain : bool)
    (ourLogIndex ourHtlcIndex theirLogIndex theirHtlcIndex : Z) (keys : keyRing) : M commitment :=
  lc <== cget ;
  tip <== clift (tipOf remoteChain lc) ;
  let nextHeight := u64 (Commitment.height tip + 1) in
  let view := fetchHTLCView lc theirLogIndex ourLogIndex in
  '(bal, _, filtered) <== computeView view remoteChain true ;
  '(commitTx, filtered) <== clift (createUnsignedCommitmentTx (cfg lc)
     (ourBtc bal) (theirBtc bal) (ourAsset bal) (theirAsset bal)
     (negb remoteChain) (feePerKw filtered) nextHeight filtered keys) ;
  _ <== writeScripts false (ourUpdates filtered) ;
  _ <== writeScripts true (theirUpdates filtered) ;
  let fee := i64 (BtcCapacity (cfg lc) - totalOut (CommitTx.txn commitTx)) in
  let weight := i64 (GetTransactionWeight (CommitTx.txn commitTx) + WitnessCommitmentTxWeight) in
  if bool_decide (weight = 0) then clift Panic
  else if bool_decide (Z.quot (i64 (fee * 1000)) weight < AbsoluteFeePerKwFloor)
  then cfail ErrFeeBelowFloor
  else
    clift (populateHtlcIndexes
      {| Commitment.height := nextHeight; Commitment.isOurs := negb remoteChain;
         Commitment.ourMessageIndex := ourLogIndex; Commitment.theirMessageIndex := theirLogIndex;
         Commitment.ourHtlcIndex := ourHtlcIndex; Commitment.theirHtlcIndex := theirHtlcIndex;
         Commitment.txn := CommitTx.txn commitTx; Commitment.sig := [];
         Commitment.ourBtcBalance := CommitTx.ourBtcBalance commitTx;
         Commitment.theirBtcBalance := CommitTx.theirBtcBalance commitTx;
         Commitment.ourAssetBalance := CommitTx.ourAssetBalance commitTx;
         Commitment.theirAssetBalance := CommitTx.theirAssetBalance commitTx;
         Commitment.fee := CommitTx.fee commitTx; Commitment.feePerKw := feePerKw filtered;
         Commitment.dustLimit := viewDustLimit (cfg lc) remoteChain;
         Commitment.outgoingHTLCs := (ourUpdates filtered).*2;
         Commitment.incomingHTLCs := (theirUpdates filtered).*2;
         Commitment.outgoingHTLCIndex := ∅; Commitment.incomingHTLCIndex := ∅ |}
      (cltvs commitTx)).

(** ** The available balance *)

(** An error while computing the view is logged and counts as no balance. *)
Definition availableCommitmentBalance (lc : LightningChannel) (view : htlcView)
    (remoteChain : bool) : outcome chan_err (Z * Z) :=
  match (computeView view remoteChain false lc).1 with
  | Panic => Panic
  | Err _ => Ok (0, 0)
  | Ok (bal, commitWeight, filteredView) =>
      let c := cfg lc in
      let btc := bool_decide (ChanAssetID c = BtcAssetId) in
      let reserve r := if btc then UnitPrec8.ToMsat (ChanReserve r) else ChanReserve r in
      let ourAmt := if btc then ourBtc bal else u64 (ourAsset bal) in
      let theirAmt := if btc then theirBtc bal else u64 (theirAsset bal) in
      let ourReserve := reserve (LocalChanCfg c) in
      let ourAmt := if bool_decide (ourReserve <= ourAmt) then u64 (ourAmt - ourReserve) else 0 in
      let rate := feePerKw filteredView in
      let htlcCommitFee :=
        NewMSatFromSatoshis (SatPerKWeight.FeeForWeight rate (i64 (commitWeight + HTLCWeight))) in
      if IsInitiator c then
        if btc then
          if bool_decide (ourAmt < htlcCommitFee) then Ok (0, commitWeight)
          else Ok (u64 (ourAmt - htlcCommitFee), commitWeight)
        else Ok (ourAmt, commitWeight)
      else
        let theirReserve := reserve (RemoteChanCfg c) in
        let theirAmt :=
          if bool_decide (theirReserve <= theirAmt) then u64 (theirAmt - theirReserve) else 0 in
        let dustlimit := viewDustLimit c remoteChain in
        let htlcFee := NewMSatFromSatoshis
          (if remoteChain then HtlcSuccessFee (ChanType c) rate else HtlcTimeoutFee (ChanType c) rate) in
        if btc then
          let nonDustHtlcAmt := u64 (NewMSatFromSatoshis dustlimit + htlcFee) in
          if bool_decide (theirAmt < htlcCommitFee) && bool_decide (ourAmt >= nonDustHtlcAmt)
          then Ok (u64 (nonDustHtlcAmt - 1), commitWeight)
          else Ok (ourAmt, commitWeight)
        else Ok (ourAmt, commitWeight)
  end.

Definition availableBalance (lc : LightningChannel) : outcome chan_err (Z * Z) :=
  tip <~ tipOf false lc ;
  let view := fetchHTLCView lc (Commitment.theirMessageIndex tip) (logIndex (localUpdateLog lc)) in
  '(ourLocalCommitBalance, commitWeight) <~ availableCommitmentBalance lc view false ;
  '(ourRemoteCommitBalance, _) <~ availableCommitmentBalance lc view true ;
  if bool_decide (ourRemoteCommitBalance < ourLocalCommitBalance)
  then Ok (ourRemoteCommitBalance, commitWeight)
  else Ok (ourLocalCommitBalance, commitWeight).

End view.
