(* ===== verification/ViewLemmas.v ===== *)
(** * lnwallet: what evaluating the logs does

    The two passes of [evaluateHTLCView] as pure functions of the logs: the
    balances, the fee rate and the skipped HTLCs are folds over the entries of
    the view, and the heights are written to exactly those entries.  From this,
    evaluation without [mutateState] changes nothing, and evaluation with it
    leaves everything but heights and counters alone. *)

From Stdlib Require Import ZArith Lia.
From S2P Require Import Prelude Wire Amounts OpReturn UpdateLog CommitTx ChannelState ChannelView.

Local Open Scope Z_scope.
Local Open Scope go_scope.

(** ** Writing heights *)

(** The heights of all entries changed by a function of the element and the
    descriptor. *)
Definition mapLog (f : nat -> PaymentDescriptor -> PaymentDescriptor) (u : updateLog) : updateLog :=
  {| logIndex := logIndex u; htlcCounter := htlcCounter u;
     entries := (fun x => (x.1, f x.1 x.2)) <$> entries u;
     nextElem := nextElem u; updateIndex := updateIndex u; htlcIndex := htlcIndex u;
     modifiedHtlcs := modifiedHtlcs u |}.

(** A change of the elements of a list only. *)
Definition on (ids : list nat) (f : PaymentDescriptor -> PaymentDescriptor) (e : nat)
    (pd : PaymentDescriptor) : PaymentDescriptor :=
  if bool_decide (e ∈ ids) then f pd else pd.

(** Changes that write heights only. *)
Definition only_heights (f : PaymentDescriptor -> PaymentDescriptor) : Prop :=
  forall pd, f pd = alter_heights (fun _ => heights (f pd)) pd.

Lemma alter_heights_id pd : alter_heights (fun _ => heights pd) pd = pd.
Proof. by destruct pd. Qed.

Lemma alter_heights_twice f g pd :
  alter_heights f (alter_heights g pd) = alter_heights (fun h => f (g h)) pd.
Proof. by destruct pd. Qed.

Lemma only_heights_id : only_heights id.
Proof. intros pd. unfold id. by rewrite alter_heights_id. Qed.

Lemma only_heights_static f pd : only_heights f -> same_static pd (f pd).
Proof. intros Hf. rewrite Hf. apply alter_heights_static. Qed.

Lemma mapLog_ext f g u :
  (forall e pd, (e, pd) ∈ entries u -> f e pd = g e pd) -> mapLog f u = mapLog g u.
Proof.
  intros Hfg. unfold mapLog. f_equal. apply list_fmap_ext. intros i [e pd] Hi. cbn.
  f_equal. apply Hfg. by eapply list_elem_of_lookup_2.
Qed.

Lemma mapLog_id u : mapLog (fun _ => id) u = u.
Proof.
  destruct u. unfold mapLog; cbn. f_equal. rewrite <- (list_fmap_id entries) at 2.
  apply list_fmap_ext. by intros i [e pd] _.
Qed.

Lemma mapLog_compose f g u : mapLog f (mapLog g u) = mapLog (fun e pd => f e (g e pd)) u.
Proof. unfold mapLog; cbn. f_equal. by rewrite <- list_fmap_compose. Qed.

Lemma mapLog_same f u : (forall e, only_heights (f e)) -> same_log u (mapLog f u).
Proof.
  intros Hf. unfold same_log; cbn. split_and!; try done.
  induction (entries u) as [|[e p] l IH]; cbn; constructor; [|done].
  split; [done|]. cbn. by apply only_heights_static.
Qed.

Lemma mapLog_ids f u : (entries (mapLog f u)).*1 = (entries u).*1.
Proof. cbn. rewrite <- list_fmap_compose. by apply list_fmap_ext. Qed.

Lemma elem_of_mapLog f u e pd :
  (e, pd) ∈ entries (mapLog f u) <-> exists pd0, (e, pd0) ∈ entries u /\ pd = f e pd0.
Proof.
  cbn. rewrite list_elem_of_fmap. split.
  - intros ([e0 pd0] & [= -> ->] & ?). by exists pd0.
  - intros (pd0 & ? & ->). by exists (e, pd0).
Qed.

Lemma ids_inj (l : list (nat * PaymentDescriptor)) e p q :
  NoDup l.*1 -> (e, p) ∈ l -> (e, q) ∈ l -> p = q.
Proof. intros Hnd Hp Hq. apply (elem_value_Some _ _ _ Hnd) in Hp, Hq. congruence. Qed.

(** One write through a pointer. *)
Lemma alter_entry_mapLog u e pd f :
  NoDup (entries u).*1 -> (e, pd) ∈ entries u -> only_heights f ->
  alter_entry u e (alter_heights (fun _ => heights (f pd))) = mapLog (on [e] f) u.
Proof.
  intros Hnd Hin Hf. unfold alter_entry, mapLog. f_equal. apply list_fmap_ext.
  intros i [e' pd'] Hi. unfold on. cbn.
  case_bool_decide as He.
  - subst e'. rewrite bool_decide_eq_true_2 by set_solver. f_equal.
    rewrite (ids_inj _ e pd' pd Hnd) by (done || by eapply list_elem_of_lookup_2). by rewrite <- Hf.
  - by rewrite bool_decide_eq_false_2 by set_solver.
Qed.

Lemma on_compose ids ids' f e pd :
  ids ## ids' -> on ids' f e (on ids f e pd) = on (ids ++ ids') f e pd.
Proof.
  intros Hd. unfold on. destruct (bool_decide (e ∈ ids)) eqn:E1.
  - apply bool_decide_eq_true in E1. rewrite (bool_decide_eq_false_2 (e ∈ ids')) by set_solver.
    by rewrite bool_decide_eq_true_2 by set_solver.
  - apply bool_decide_eq_false in E1.
    rewrite (bool_decide_ext (e ∈ ids ++ ids') (e ∈ ids')); [done|set_solver].
Qed.

Lemma on_only_heights ids f e : only_heights f -> only_heights (on ids f e).
Proof. intros Hf pd. unfold on. case_bool_decide; [apply Hf|]. by rewrite alter_heights_id. Qed.

(** ** The handlers write heights only *)

Section lemmas.
Context {BT : Btcec} {E : ChanEnv}.

Definition zeroBal : balances := mkBalances 0 0 0 0.

(** What the first and the second pass do to a descriptor. *)
Definition removeUpd (mode : evalMode) (pd : PaymentDescriptor) : PaymentDescriptor :=
  match EntryType pd with
  | Add => pd
  | FeeUpdate => (processFeeUpdate pd (nextHeight mode) (remoteChain mode) (mutateState mode) 0).1
  | _ => (processRemoveEntry pd zeroBal (nextHeight mode) (remoteChain mode) true (mutateState mode)).1
  end.

Definition addUpd (mode : evalMode) (pd : PaymentDescriptor) : PaymentDescriptor :=
  (processAddEntry pd zeroBal (nextHeight mode) (remoteChain mode) true (mutateState mode)).1.

Lemma processRemoveEntry_fst pd bal bal' n rc inc inc' m :
  (processRemoveEntry pd bal n rc inc m).1 = (processRemoveEntry pd bal' n rc inc' m).1.
Proof. unfold processRemoveEntry. by case_bool_decide. Qed.

Lemma processAddEntry_fst pd bal bal' n rc inc inc' m :
  (processAddEntry pd bal n rc inc m).1 = (processAddEntry pd bal' n rc inc' m).1.
Proof. unfold processAddEntry. by case_bool_decide. Qed.

Lemma processFeeUpdate_fst pd n rc m f f' :
  (processFeeUpdate pd n rc m f).1 = (processFeeUpdate pd n rc m f').1.
Proof. unfold processFeeUpdate. by case_bool_decide. Qed.

Lemma set_heights_only f : only_heights (alter_heights f).
Proof. intros pd. by destruct pd. Qed.

Lemma removeUpd_only mode : only_heights (removeUpd mode).
Proof.
  intros pd. unfold removeUpd, processFeeUpdate, processRemoveEntry, set_removeHeight, set_addHeight.
  destruct (EntryType pd); repeat case_bool_decide; destruct (mutateState mode); cbn [fst];
    rewrite ?alter_heights_twice; by destruct pd.
Qed.

Lemma addUpd_only mode : only_heights (addUpd mode).
Proof.
  intros pd. unfold addUpd, processAddEntry, set_addHeight.
  repeat case_bool_decide; destruct (mutateState mode); by destruct pd.
Qed.

Lemma removeUpd_pure mode pd : mutateState mode = false -> removeUpd mode pd = pd.
Proof.
  intros Hm. unfold removeUpd, processFeeUpdate, processRemoveEntry. rewrite Hm.
  destruct (EntryType pd); by repeat case_bool_decide.
Qed.

Lemma addUpd_pure mode pd : mutateState mode = false -> addUpd mode pd = pd.
Proof. intros Hm. unfold addUpd, processAddEntry. rewrite Hm. by case_bool_decide. Qed.

(** ** Frames *)

(** A step that changes nothing but the logs and the counters. *)
Definition framed (lc lc' : LightningChannel) : Prop :=
  exists l r t, lc' = set_totals (set_logs lc l r) t.

#[global] Instance framed_preorder : PreOrder framed.
Proof.
  split.
  - intros lc. exists (localUpdateLog lc), (remoteUpdateLog lc), (totals lc). by destruct lc.
  - intros a b c (l & r & t & ->) (l' & r' & t' & ->). by exists l', r', t'.
Qed.

Lemma set_logOf_framed remote lc u : framed lc (set_logOf remote lc u).
Proof.
  destruct remote; [exists (localUpdateLog lc), u, (totals lc)|exists u, (remoteUpdateLog lc), (totals lc)];
    by destruct lc.
Qed.

Lemma set_totals_framed lc t : framed lc (set_totals lc t).
Proof. exists (localUpdateLog lc), (remoteUpdateLog lc), t. by destruct lc. Qed.

Lemma logOf_set_same remote lc u : logOf remote (set_logOf remote lc u) = u.
Proof. by destruct remote. Qed.

Lemma logOf_set_other remote lc u : logOf (negb remote) (set_logOf remote lc u) = logOf (negb remote) lc.
Proof. by destruct remote. Qed.

Lemma set_logOf_id remote lc : set_logOf remote lc (logOf remote lc) = lc.
Proof. by destruct lc, remote. Qed.

Lemma logOf_set_totals remote lc t : logOf remote (set_totals lc t) = logOf remote lc.
Proof. by destruct remote. Qed.

(** ** The passes *)

Definition ids (l : list view_entry) : list nat := omap fst l.

(** The pointers of a list point to the values they carry. *)
Definition covered (l : list view_entry) (u : updateLog) : Prop :=
  NoDup (entries u).*1 /\ NoDup (ids l) /\
  forall e pd, (Some e, pd) ∈ l -> (e, pd) ∈ entries u.

Lemma elem_of_ids e l : e ∈ ids l <-> exists pd, (Some e, pd) ∈ l.
Proof.
  unfold ids. rewrite list_elem_of_omap. split.
  - intros ([o pd] & Hin & Ho). cbn in Ho. subst. by exists pd.
  - intros (pd & Hin). by exists (Some e, pd).
Qed.

Lemma covered_cons_none pd l u : covered ((None, pd) :: l) u -> covered l u.
Proof. intros (H1 & H2 & H3). split; [done|]. split; [done|]. intros. apply H3. by right. Qed.

(** After writing the first entry, the rest still points to its values. *)
Lemma covered_cons e pd l u f :
  covered ((Some e, pd) :: l) u -> covered l (mapLog (on [e] f) u) /\ e ∉ ids l /\ (e, pd) ∈ entries u.
Proof.
  intros (H1 & H2 & H3). cbn in H2. apply NoDup_cons in H2 as [Hn H2]. fold (ids l) in *.
  split; [|split; [done|apply H3; by left]].
  split; [by rewrite mapLog_ids|]. split; [done|]. intros e' pd' Hin. apply elem_of_mapLog. exists pd'. split; [apply H3; by right|].
  unfold on. rewrite bool_decide_eq_false_2; [done|]. rewrite list_elem_of_singleton. intros ->.
  apply Hn, elem_of_ids. by exists pd'.
Qed.

Lemma covered_tail x l u : covered (x :: l) u -> covered l u.
Proof.
  destruct x as [[e|] pd]; [|apply covered_cons_none]. intros (H1 & H2 & H3).
  split; [done|]. split; [by apply NoDup_cons in H2 as [_ ?]|]. intros. apply H3. by right.
Qed.

Lemma ids_sublist l k : l `sublist_of` k -> ids l `sublist_of` ids k.
Proof.
  unfold ids. induction 1 as [|[[e|] pd] l k _ IH|[[e|] pd] l k _ IH]; cbn; by try constructor.
Qed.

Lemma filter_sub {A} (P : A -> Prop) `{!forall x, Decision (P x)} (l : list A) :
  filter P l `sublist_of` l.
Proof. induction l as [|x l IH]; [done|]. rewrite filter_cons. case_decide; by constructor. Qed.

Lemma covered_sublist l k u : l `sublist_of` k -> covered k u -> covered l u.
Proof.
  intros Hs (H1 & H2 & H3). split; [done|]. split; [eapply sublist_NoDup; [done|by apply ids_sublist]|].
  intros e pd Hin. apply H3. by eapply elem_of_submseteq, sublist_submseteq.
Qed.

Lemma writeHeights_spec remote e pd f lc :
  NoDup (entries (logOf remote lc)).*1 -> (e, pd) ∈ entries (logOf remote lc) -> only_heights f ->
  writeHeights remote (Some e, f pd) lc =
  (Ok tt, set_logOf remote lc (mapLog (on [e] f) (logOf remote lc))).
Proof. intros Hnd Hin Hf. unfold writeHeights, cput; cbn. by rewrite (alter_entry_mapLog _ _ pd). Qed.

(** The balances, the fee rate and the skipped HTLCs as folds. *)
Definition stepRemove (rc ours : bool) (bal : balances) (pd : PaymentDescriptor) : balances :=
  if is_removal pd then (processRemoveEntry pd bal 0 rc ours false).2 else bal.

Definition stepFee (rc : bool) (fee : Z) (pd : PaymentDescriptor) : Z :=
  if bool_decide (EntryType pd = FeeUpdate) then (processFeeUpdate pd 0 rc false fee).2 else fee.

Definition stepAdd (rc ours : bool) (bal : balances) (pd : PaymentDescriptor) : balances :=
  (processAddEntry pd bal 0 rc (negb ours) false).2.

Definition parents (l : list view_entry) : gset Z :=
  list_to_set ((fun x => ParentIndex x.2) <$> filter (fun x => is_removal x.2 = true) l).

Lemma processRemoveEntry_snd pd bal n rc inc m :
  (processRemoveEntry pd bal n rc inc m).2 = (processRemoveEntry pd bal 0 rc inc false).2.
Proof. unfold processRemoveEntry. by case_bool_decide. Qed.

Lemma processFeeUpdate_snd pd n rc m fee :
  (processFeeUpdate pd n rc m fee).2 = (processFeeUpdate pd 0 rc false fee).2.
Proof. unfold processFeeUpdate. by case_bool_decide. Qed.

Lemma processAddEntry_snd pd bal n rc inc m :
  (processAddEntry pd bal n rc inc m).2 = (processAddEntry pd bal 0 rc inc false).2.
Proof. unfold processAddEntry. by case_bool_decide. Qed.

(** The parents of the removals of a list are in the other log and committed. *)
Definition parents_ok (rc : bool) (other : updateLog) (l : list view_entry) : Prop :=
  forall x, x ∈ l -> is_removal x.2 = true ->
    exists add, lookupHtlc other (ParentIndex x.2) = Some add /\ addHeight rc add <> 0.

Lemma fetchParent_ok lc entry rc remoteLog add :
  fetchParent lc entry rc remoteLog = Ok add ->
  lookupHtlc (logOf remoteLog lc) (ParentIndex entry) = Some add /\ addHeight rc add <> 0.
Proof.
  unfold fetchParent, addHeight. destruct (lookupHtlc _ _) as [a|]; [|done].
  destruct rc; cbn; case_bool_decide; intros [= <-]; done.
Qed.

Lemma countSettle_run mode ours pd lc :
  exists t, countSettle mode ours pd lc = (Ok tt, set_totals lc t) /\
    (mutateState mode = false -> t = totals lc).
Proof.
  unfold countSettle. destruct (_ && _ && _ && _) eqn:C.
  - eexists. split; [done|]. intros Hm. by rewrite Hm in C.
  - exists (totals lc). split; [|done]. by destruct lc.
Qed.

Lemma removePass_removal mode ours e entry l bal fee skip :
  is_removal entry = true ->
  removePass mode ours ((e, entry) :: l) bal fee skip =
  (_ <== countSettle mode ours entry ;
   lc <== cget ;
   addEntry <== clift (fetchParent lc entry (remoteChain mode) ours) ;
   _ <== writeHeights (negb ours) (e, removeUpd mode entry) ;
   removePass mode ours l (stepRemove (remoteChain mode) ours bal entry) fee
     ({[HtlcIndex addEntry]} ∪ skip)).
Proof.
  intros Hr. unfold stepRemove. rewrite Hr.
  rewrite <- (processRemoveEntry_snd _ _ (nextHeight mode) _ _ (mutateState mode)).
  assert (removeUpd mode entry =
    (processRemoveEntry entry bal (nextHeight mode) (remoteChain mode) ours (mutateState mode)).1) as ->.
  { unfold is_removal in Hr. unfold removeUpd.
    destruct (EntryType entry); try done; apply processRemoveEntry_fst. }
  cbn [removePass]. unfold is_removal in Hr.
  destruct (EntryType entry); try done; by destruct (processRemoveEntry _ _ _ _ _ _).
Qed.

Lemma removePass_fee mode ours e entry l bal fee skip :
  EntryType entry = FeeUpdate ->
  removePass mode ours ((e, entry) :: l) bal fee skip =
  (_ <== writeHeights (negb ours) (e, removeUpd mode entry) ;
   removePass mode ours l bal (stepFee (remoteChain mode) fee entry) skip).
Proof.
  intros Hf. unfold stepFee, removeUpd. rewrite Hf, bool_decide_eq_true_2 by done.
  rewrite (processFeeUpdate_fst _ _ _ _ 0 fee).
  rewrite <- (processFeeUpdate_snd _ (nextHeight mode) _ (mutateState mode)).
  cbn [removePass]. rewrite Hf. by destruct (processFeeUpdate _ _ _ _ _).
Qed.

Lemma cbind_ok {A B} (m : M A) (k : A -> M B) lc b lc' :
  cbind m k lc = (Ok b, lc') -> exists a lc1, m lc = (Ok a, lc1) /\ k a lc1 = (Ok b, lc').
Proof. unfold cbind. destruct (m lc) as [[a|e|] lc1]; try done. intros H. by exists a, lc1. Qed.

Lemma clift_ok {A B} (o : outcome chan_err A) (k : A -> M B) lc b lc' :
  cbind (clift o) k lc = (Ok b, lc') -> exists a, o = Ok a /\ k a lc = (Ok b, lc').
Proof. unfold cbind, clift. destruct o as [a|e|]; try done. intros H. by exists a. Qed.

Lemma cbind_cget {B} (k : LightningChannel -> M B) lc : cbind cget k lc = k lc lc.
Proof. done. Qed.

(** The write of one entry followed by the writes of the rest. *)
Lemma mapLog_on_cons e l f u :
  e ∉ ids l -> mapLog (on (ids l) f) (mapLog (on [e] f) u) = mapLog (on (e :: ids l) f) u.
Proof.
  intros Hn. rewrite mapLog_compose. apply mapLog_ext. intros e' pd _.
  rewrite on_compose; [done|]. set_solver.
Qed.

(** An entry whose descriptor does not change need not be written. *)
Lemma mapLog_on_skip e pd l f u :
  covered ((Some e, pd) :: l) u -> f pd = pd ->
  mapLog (on (ids l) f) u = mapLog (on (e :: ids l) f) u.
Proof.
  intros Hc Hf. destruct (covered_cons e pd l u f Hc) as (_ & Hn & Hin).
  destruct Hc as (Hnd & _ & _). rewrite <- mapLog_on_cons by done. f_equal.
  rewrite <- (mapLog_id u) at 1. apply mapLog_ext. intros e' pd' Hin'. unfold on, id.
  case_bool_decide as He; [|done]. apply list_elem_of_singleton in He as ->.
  by rewrite (ids_inj _ _ _ _ Hnd Hin' Hin).
Qed.

(** Writing an entry of a view, whether or not it is in a log. *)
Lemma write_entry remote e entry l f lc lc1 :
  covered ((e, entry) :: l) (logOf remote lc) -> only_heights f ->
  writeHeights remote (e, f entry) lc = (Ok tt, lc1) ->
  framed lc lc1 /\ logOf (negb remote) lc1 = logOf (negb remote) lc /\
  totals lc1 = totals lc /\ covered l (logOf remote lc1) /\
  mapLog (on (ids l) f) (logOf remote lc1) = mapLog (on (ids ((e, entry) :: l)) f) (logOf remote lc).
Proof.
  intros Hc Hf Hw. destruct e as [e|].
  - destruct (covered_cons e entry l _ f Hc) as (Hc1 & Hn & Hin).
    rewrite writeHeights_spec in Hw by (done || apply Hc). injection Hw as <-.
    split; [apply set_logOf_framed|]. split; [apply logOf_set_other|].
    split; [by destruct remote|]. rewrite logOf_set_same. split; [done|].
    by rewrite mapLog_on_cons.
  - injection Hw as <-. split; [done|]. split; [done|]. split; [done|].
    split; [by eapply covered_cons_none|]. done.
Qed.

Lemma parents_cons_other e entry l : is_removal entry = false -> parents ((e, entry) :: l) = parents l.
Proof. intros Hr. unfold parents. by rewrite filter_cons, decide_False by (cbn; congruence). Qed.

Lemma parents_cons_removal e entry l :
  is_removal entry = true -> parents ((e, entry) :: l) = {[ParentIndex entry]} ∪ parents l.
Proof. intros Hr. unfold parents. by rewrite filter_cons, decide_True. Qed.

Lemma lookupHtlc_index u i pd : log_wf u -> lookupHtlc u i = Some pd -> HtlcIndex pd = i.
Proof. intros Hwf. rewrite lookupHtlc_Some by done. by intros (e & _ & _ & ?). Qed.

Lemma removePass_spec mode ours l : forall bal fee skip lc bal' fee' skip' lc',
  covered l (logOf (negb ours) lc) -> log_wf (logOf ours lc) ->
  removePass mode ours l bal fee skip lc = (Ok (bal', fee', skip'), lc') ->
  framed lc lc' /\ logOf ours lc' = logOf ours lc /\
  logOf (negb ours) lc' = mapLog (on (ids l) (removeUpd mode)) (logOf (negb ours) lc) /\
  bal' = foldl (stepRemove (remoteChain mode) ours) bal l.*2 /\
  fee' = foldl (stepFee (remoteChain mode)) fee l.*2 /\
  skip' = parents l ∪ skip /\ parents_ok (remoteChain mode) (logOf ours lc) l.
Proof.
  induction l as [|[e entry] l IH]; intros bal fee skip lc bal' fee' skip' lc' Hc Hwf Hrun.
  { injection Hrun as <- <- <- <-. split; [done|]. split; [done|]. split.
    - rewrite <- (mapLog_id (logOf _ lc)) at 1. by apply mapLog_ext.
    - split; [done|]. split; [done|]. split; [set_solver|]. intros x Hx. set_solver. }
  destruct (decide (is_removal entry = true)) as [Hr|Hr]; [|apply not_true_is_false in Hr].
  - rewrite removePass_removal in Hrun by done.
    apply cbind_ok in Hrun as (u1 & lc1 & Hcount & Hrun).
    destruct (countSettle_run mode ours entry lc) as (t & Ht & _). rewrite Ht in Hcount.
    injection Hcount as <- <-. rewrite cbind_cget in Hrun.
    apply clift_ok in Hrun as (add & Hp & Hrun).
    apply fetchParent_ok in Hp as [Hp1 Hp2]. rewrite logOf_set_totals in Hp1.
    apply cbind_ok in Hrun as ([] & lc2 & Hw & Hrun).
    apply (write_entry _ _ _ l) in Hw as (Hf & Ho & _ & Hc2 & Hm);
      [|by rewrite logOf_set_totals|apply removeUpd_only].
    rewrite negb_involutive, logOf_set_totals in Ho.
    apply IH in Hrun as (Hf' & Ho' & Hm' & -> & -> & -> & Hpo); [|done|by rewrite Ho].
    rewrite logOf_set_totals in Hm. rewrite Hm', Hm, Ho', Ho.
    split; [etrans; [apply set_totals_framed|by etrans]|]. split; [done|]. split; [done|].
    split; [done|]. split.
    { cbn. unfold stepFee at 3. unfold is_removal in Hr. by destruct (EntryType entry). }
    rewrite parents_cons_removal by done. rewrite (lookupHtlc_index _ _ _ Hwf Hp1).
    split; [set_solver|]. rewrite Ho in Hpo. intros x [->|Hx]%elem_of_cons Hrx; [by exists add|by apply Hpo].
  - rewrite parents_cons_other by done.
    assert (forall u, parents_ok (remoteChain mode) u l -> parents_ok (remoteChain mode) u ((e, entry) :: l))
      as Hpo_cons.
    { intros u Hu x [->|Hx]%elem_of_cons Hrx; [cbn in Hrx; congruence|by apply Hu]. }
    assert (stepRemove (remoteChain mode) ours bal entry = bal) as Hbal
      by (unfold stepRemove; by rewrite Hr).
    destruct (decide (EntryType entry = FeeUpdate)) as [Hfee|Hfee].
    + rewrite removePass_fee in Hrun by done.
      apply cbind_ok in Hrun as ([] & lc2 & Hw & Hrun).
      apply (write_entry _ _ _ l) in Hw as (Hf & Ho & _ & Hc2 & Hm); [|done|apply removeUpd_only].
      rewrite negb_involutive in Ho.
      apply IH in Hrun as (Hf' & Ho' & Hm' & -> & -> & -> & Hpo); [|done|by rewrite Ho].
      rewrite Hm', Hm, Ho', Ho. rewrite Ho in Hpo. cbn [fmap list_fmap foldl snd]. rewrite Hbal.
      split; [by etrans|]. split_and!; try done. by apply Hpo_cons.
    + assert (EntryType entry = Add) as Ha.
      { unfold is_removal in Hr. by destruct (EntryType entry). }
      assert (removeUpd mode entry = entry) as Hupd by (unfold removeUpd; by rewrite Ha).
      cbn [removePass] in Hrun. rewrite Ha in Hrun.
      apply IH in Hrun as (Hf' & Ho' & Hm' & -> & -> & -> & Hpo);
        [|by eapply covered_tail|done].
      rewrite Hm', Ho'. cbn [fmap list_fmap foldl snd]. rewrite Hbal. split; [done|]. split; [done|].
      split; [destruct e as [e|]; [by eapply mapLog_on_skip|done]|].
      split; [done|]. split; [unfold stepFee at 3; by rewrite bool_decide_eq_false_2|].
      split; [done|]. by apply Hpo_cons.
Qed.

(** The entries of a view that stay. *)
Definition survives (skip : gset Z) (x : view_entry) : Prop :=
  EntryType x.2 = Add /\ HtlcIndex x.2 ∉ skip.

#[global] Instance survives_dec skip x : Decision (survives skip x).
Proof. unfold survives. apply _. Defined.

Lemma addPass_skip mode ours skip e entry l bal :
  ~ survives skip (e, entry) ->
  addPass mode ours skip ((e, entry) :: l) bal = addPass mode ours skip l bal.
Proof.
  intros Hs. cbn [addPass]. destruct (bool_decide (EntryType entry <> Add)) eqn:E1; [done|].
  apply bool_decide_eq_false, dec_stable in E1.
  rewrite (bool_decide_eq_true_2 (HtlcIndex entry ∈ skip)); [done|].
  destruct (decide (HtlcIndex entry ∈ skip)); [done|]. by destruct Hs.
Qed.

Lemma addPass_add mode ours skip e entry l bal :
  survives skip (e, entry) ->
  addPass mode ours skip ((e, entry) :: l) bal =
  (_ <== writeHeights (negb ours) (e, addUpd mode entry) ;
   '(bal, l') <== addPass mode ours skip l (stepAdd (remoteChain mode) ours bal entry) ;
   cret (bal, (e, addUpd mode entry) :: l')).
Proof.
  intros [Ha Hs]. cbn in Ha, Hs. unfold stepAdd, addUpd.
  rewrite (processAddEntry_fst entry zeroBal bal _ _ true (negb ours)).
  rewrite <- (processAddEntry_snd entry bal (nextHeight mode) _ _ (mutateState mode)).
  cbn [addPass]. rewrite (bool_decide_eq_false_2 (EntryType entry <> Add)) by naive_solver.
  rewrite (bool_decide_eq_false_2 (_ ∈ skip)) by done. cbn [orb].
  by destruct (processAddEntry _ _ _ _ _ _).
Qed.

Lemma addPass_spec mode ours skip l : forall bal lc bal' l' lc',
  covered (filter (survives skip) l) (logOf (negb ours) lc) ->
  addPass mode ours skip l bal lc = (Ok (bal', l'), lc') ->
  framed lc lc' /\ totals lc' = totals lc /\ logOf ours lc' = logOf ours lc /\
  logOf (negb ours) lc' =
    mapLog (on (ids (filter (survives skip) l)) (addUpd mode)) (logOf (negb ours) lc) /\
  bal' = foldl (stepAdd (remoteChain mode) ours) bal (filter (survives skip) l).*2 /\
  l' = prod_map id (addUpd mode) <$> filter (survives skip) l.
Proof.
  induction l as [|[e entry] l IH]; intros bal lc bal' l' lc' Hc Hrun.
  { injection Hrun as <- <- <-. split; [done|]. split; [done|]. split; [done|]. split; [|done].
    rewrite <- (mapLog_id (logOf _ lc)) at 1. by apply mapLog_ext. }
  rewrite filter_cons in *. destruct (decide (survives skip (e, entry))) as [Hs|Hs].
  - rewrite addPass_add in Hrun by done.
    apply cbind_ok in Hrun as ([] & lc2 & Hw & Hrun).
    pose proof (write_entry _ _ _ _ _ _ _ Hc (addUpd_only mode) Hw) as (Hf & Ho & Ht & Hc2 & Hm).
    rewrite negb_involutive in Ho.
    apply cbind_ok in Hrun as ([bal1 l1] & lc3 & Hrun & Hret). injection Hret as <- <- <-.
    apply IH in Hrun as (Hf' & Ht' & Ho' & Hm' & -> & ->); [|done].
    rewrite Hm', Hm, Ho', Ho, Ht', Ht. split; [by etrans|]. by split_and!.
  - rewrite addPass_skip in Hrun by done. by apply IH in Hrun.
Qed.

(** ** The whole evaluation *)

Definition survivingOurs (view : htlcView) : list view_entry :=
  filter (survives (parents (theirUpdates view))) (ourUpdates view).

Definition survivingTheirs (view : htlcView) : list view_entry :=
  filter (survives (parents (ourUpdates view))) (theirUpdates view).

(** The balances before the asset adjustment, and the fee rate. *)
Definition evalBal (rc : bool) (view : htlcView) (bal : balances) : balances :=
  let bal := foldl (stepRemove rc true) bal (ourUpdates view).*2 in
  let bal := foldl (stepRemove rc false) bal (theirUpdates view).*2 in
  let bal := foldl (stepAdd rc true) bal (survivingOurs view).*2 in
  foldl (stepAdd rc false) bal (survivingTheirs view).*2.

Definition evalFee (rc : bool) (view : htlcView) : Z :=
  foldl (stepFee rc) (foldl (stepFee rc) (feePerKw view) (ourUpdates view).*2) (theirUpdates view).*2.

(** The heights written to a log. *)
Definition evalLog (mode : evalMode) (all surviving : list view_entry) (u : updateLog) : updateLog :=
  mapLog (on (ids surviving) (addUpd mode)) (mapLog (on (ids all) (removeUpd mode)) u).

Lemma removeUpd_add mode pd : EntryType pd = Add -> removeUpd mode pd = pd.
Proof. intros Ha. unfold removeUpd. by rewrite Ha. Qed.

Lemma on_removeUpd_type l mode e pd : EntryType (on l (removeUpd mode) e pd) = EntryType pd.
Proof. destruct (only_heights_static _ pd (on_only_heights l _ e (removeUpd_only mode))) as [<- _]. done. Qed.

(** The first pass leaves the HTLCs of a log alone. *)
Lemma lookupHtlc_removeUpd mode l u i :
  log_wf u -> lookupHtlc (mapLog (on l (removeUpd mode)) u) i = lookupHtlc u i.
Proof.
  intros Hwf. assert (log_wf (mapLog (on l (removeUpd mode)) u)) as Hwf'.
  { eapply same_log_wf; [|done]. apply mapLog_same. intros e. apply on_only_heights, removeUpd_only. }
  apply option_eq. intros pd. rewrite !lookupHtlc_Some by done. split.
  - intros (e & Hin & Ha & Hi). apply elem_of_mapLog in Hin as (pd0 & Hin & ->).
    rewrite on_removeUpd_type in Ha. unfold on in *.
    rewrite removeUpd_add in * by done. exists e. by destruct (bool_decide (e ∈ l)).
  - intros (e & Hin & Ha & Hi). exists e. split; [|done]. apply elem_of_mapLog. exists pd. split; [done|].
    unfold on. rewrite removeUpd_add by done. by case_bool_decide.
Qed.

(** The surviving entries are still what their pointers point to. *)
Lemma covered_surviving mode l skip u :
  covered l u -> covered (filter (survives skip) l) (mapLog (on (ids l) (removeUpd mode)) u).
Proof.
  intros Hc. pose proof (covered_sublist _ _ _ (filter_sub (survives skip) l) Hc) as (H1 & H2 & H3).
  split; [by rewrite mapLog_ids|]. split; [done|]. intros e pd Hin. apply elem_of_mapLog. exists pd.
  split; [by apply H3|]. apply list_elem_of_filter in Hin as [[Ha _] _]. cbn in Ha. unfold on.
  rewrite removeUpd_add by done. by case_bool_decide.
Qed.

Lemma parents_ok_lookup rc u v l :
  (forall i, lookupHtlc u i = lookupHtlc v i) -> parents_ok rc u l -> parents_ok rc v l.
Proof. intros Huv Hp x Hx Hr. destruct (Hp x Hx Hr) as (add & H1 & H2). exists add. by rewrite <- Huv. Qed.

Lemma framed_cfg lc lc' : framed lc lc' -> cfg lc' = cfg lc.
Proof. by intros (l & r & t & ->). Qed.

Lemma evaluateHTLCView_spec view bal mode lc view' bal' lc' :
  covered (ourUpdates view) (localUpdateLog lc) -> covered (theirUpdates view) (remoteUpdateLog lc) ->
  log_wf (localUpdateLog lc) -> log_wf (remoteUpdateLog lc) ->
  evaluateHTLCView view bal mode lc = (Ok (view', bal'), lc') ->
  framed lc lc' /\
  localUpdateLog lc' = evalLog mode (ourUpdates view) (survivingOurs view) (localUpdateLog lc) /\
  remoteUpdateLog lc' = evalLog mode (theirUpdates view) (survivingTheirs view) (remoteUpdateLog lc) /\
  view' = mkView (prod_map id (addUpd mode) <$> survivingOurs view)
            (prod_map id (addUpd mode) <$> survivingTheirs view) (evalFee (remoteChain mode) view) /\
  bal' = assetBalances (cfg lc) (length (survivingTheirs view)) (evalBal (remoteChain mode) view bal) /\
  parents_ok (remoteChain mode) (remoteUpdateLog lc) (ourUpdates view) /\
  parents_ok (remoteChain mode) (localUpdateLog lc) (theirUpdates view).
Proof.
  intros Hc1 Hc2 Hw1 Hw2 Hrun. unfold evaluateHTLCView in Hrun.
  apply cbind_ok in Hrun as ([[b1 f1] s1] & lc1 & H1 & Hrun).
  apply removePass_spec in H1 as (F1 & O1 & L1 & -> & -> & -> & P1); [|done..]. cbn [negb logOf] in *.
  apply cbind_ok in Hrun as ([[b2 f2] s2] & lc2 & H2 & Hrun).
  apply removePass_spec in H2 as (F2 & O2 & L2 & -> & -> & -> & P2); cbn [negb logOf] in *;
    [|by rewrite O1|rewrite L1; eapply same_log_wf, Hw1; apply mapLog_same; intros;
      apply on_only_heights, removeUpd_only].
  rewrite !union_empty_r_L in Hrun. rewrite O1 in L2.
  apply cbind_ok in Hrun as ([b3 l3] & lc3 & H3 & Hrun).
  apply addPass_spec in H3 as (F3 & _ & O3 & L3 & -> & ->); cbn [negb logOf] in *;
    [|rewrite O2, L1; by apply covered_surviving].
  apply cbind_ok in Hrun as ([b4 l4] & lc4 & H4 & Hrun).
  apply addPass_spec in H4 as (F4 & _ & O4 & L4 & -> & ->); cbn [negb logOf] in *;
    [|rewrite O3, L2; by apply covered_surviving].
  injection Hrun as <- <- <-. rewrite O2, L1 in L3. rewrite O3, L2 in L4.
  assert (framed lc lc4) as Hfr by (by repeat (etrans; [done|])).
  split; [done|]. rewrite O4. split; [exact L3|]. split; [exact L4|]. split; [done|].
  rewrite length_fmap, (framed_cfg _ _ Hfr). split; [done|]. split; [done|].
  eapply parents_ok_lookup, P2. intros i. rewrite L1. by apply lookupHtlc_removeUpd.
Qed.

(** ** Evaluation without [mutateState] changes nothing *)

Lemma write_pure remote e entry l lc :
  covered ((e, entry) :: l) (logOf remote lc) -> writeHeights remote (e, entry) lc = (Ok tt, lc).
Proof.
  intros Hc. destruct e as [e|]; [|done]. destruct (covered_cons e entry l _ id Hc) as (_ & _ & Hin).
  rewrite (writeHeights_spec remote e entry id) by (done || apply only_heights_id || apply Hc).
  rewrite (mapLog_ext _ (fun _ => id)) by (intros; unfold on; by case_bool_decide).
  by rewrite mapLog_id, set_logOf_id.
Qed.

Lemma removePass_pure mode ours l : forall bal fee skip lc,
  mutateState mode = false -> covered l (logOf (negb ours) lc) ->
  (removePass mode ours l bal fee skip lc).2 = lc.
Proof.
  induction l as [|[e entry] l IH]; intros bal fee skip lc Hm Hc; [done|].
  assert (covered l (logOf (negb ours) lc)) as Hc' by (by eapply covered_tail).
  destruct (decide (is_removal entry = true)) as [Hr|Hr]; [|apply not_true_is_false in Hr].
  - rewrite removePass_removal by done. unfold cbind, clift, cget.
    destruct (countSettle_run mode ours entry lc) as (t & -> & Ht). rewrite Ht by done.
    replace (set_totals lc (totals lc)) with lc by (by destruct lc).
    destruct (fetchParent _ _ _ _); [|done..]. rewrite removeUpd_pure by done.
    rewrite (write_pure _ _ _ _ _ Hc). by apply IH.
  - destruct (decide (EntryType entry = FeeUpdate)) as [Hf|Hf].
    + rewrite removePass_fee by done. unfold cbind. rewrite removeUpd_pure by done.
      rewrite (write_pure _ _ _ _ _ Hc). by apply IH.
    + cbn [removePass]. unfold is_removal in Hr. destruct (EntryType entry); try done. by apply IH.
Qed.

Lemma addPass_pure mode ours skip l : forall bal lc,
  mutateState mode = false -> covered l (logOf (negb ours) lc) ->
  (addPass mode ours skip l bal lc).2 = lc.
Proof.
  induction l as [|[e entry] l IH]; intros bal lc Hm Hc; [done|].
  assert (covered l (logOf (negb ours) lc)) as Hc' by (by eapply covered_tail).
  destruct (decide (survives skip (e, entry))) as [Hs|Hs].
  - rewrite addPass_add by done. unfold cbind. rewrite addUpd_pure by done.
    rewrite (write_pure _ _ _ _ _ Hc).
    specialize (IH (stepAdd (remoteChain mode) ours bal entry) lc Hm Hc').
    by destruct (addPass _ _ _ l _ lc) as [[[? ?]|?|] ?].
  - rewrite addPass_skip by done. by apply IH.
Qed.

(** Chaining steps that leave the state alone. *)
Lemma cbind_pure {A B} (m : M A) (k : A -> M B) lc :
  (m lc).2 = lc -> (forall a, (k a lc).2 = lc) -> (cbind m k lc).2 = lc.
Proof. unfold cbind. intros Hm Hk. destruct (m lc) as [[a|e|] lc']; cbn in *; subst; auto. Qed.

Lemma evaluateHTLCView_pure view bal mode lc :
  mutateState mode = false ->
  covered (ourUpdates view) (localUpdateLog lc) -> covered (theirUpdates view) (remoteUpdateLog lc) ->
  (evaluateHTLCView view bal mode lc).2 = lc.
Proof.
  intros Hm H1 H2. unfold evaluateHTLCView.
  apply cbind_pure; [by apply removePass_pure|]. intros [[b1 f1] s1].
  apply cbind_pure; [by apply removePass_pure|]. intros [[b2 f2] s2].
  apply cbind_pure; [by apply addPass_pure|]. intros [b3 l3].
  apply cbind_pure; [by apply addPass_pure|]. by intros [b4 l4].
Qed.

(** *** Views of the logs *)

Lemma ids_pointers l : ids (pointers l) = l.*1.
Proof. unfold ids, pointers. induction l as [|x l IH]; [done|]. cbn. by rewrite <- IH. Qed.

Lemma covered_pointers (P : nat * PaymentDescriptor -> Prop) `{!forall x, Decision (P x)} u p :
  log_wf u -> covered (pointers (filter P (entries u)) ++ predicted p) u.
Proof.
  intros Hwf. split; [by apply lw_ids|]. unfold ids. rewrite omap_app.
  assert (omap fst (predicted p) = []) as -> by (by destruct p).
  rewrite app_nil_r. fold (ids (pointers (filter P (entries u)))). rewrite ids_pointers. split.
  - eapply sublist_NoDup; [by apply lw_ids|]. apply fmap_sublist, filter_sub.
  - intros e pd [Hin|Hin]%elem_of_app; [|destruct p; set_solver].
    unfold pointers in Hin. apply list_elem_of_fmap in Hin as ([e' pd'] & [= -> ->] & Hin).
    by apply list_elem_of_filter in Hin as [_ ?].
Qed.

(** The view of the logs up to two indexes, with predicted adds. *)
Definition viewAt (lc : LightningChannel) (theirIdx ourIdx : Z)
    (pOur pTheir : option PaymentDescriptor) (fee : Z) : htlcView :=
  mkView (ourUpdates (fetchHTLCView lc theirIdx ourIdx) ++ predicted pOur)
         (theirUpdates (fetchHTLCView lc theirIdx ourIdx) ++ predicted pTheir) fee.

Lemma viewAt_covered lc theirIdx ourIdx pOur pTheir fee :
  log_wf (localUpdateLog lc) -> log_wf (remoteUpdateLog lc) ->
  covered (ourUpdates (viewAt lc theirIdx ourIdx pOur pTheir fee)) (localUpdateLog lc) /\
  covered (theirUpdates (viewAt lc theirIdx ourIdx pOur pTheir fee)) (remoteUpdateLog lc).
Proof. intros H1 H2. split; cbn; by apply covered_pointers. Qed.

Lemma computeView_pure lc theirIdx ourIdx pOur pTheir fee rc :
  log_wf (localUpdateLog lc) -> log_wf (remoteUpdateLog lc) ->
  (computeView (viewAt lc theirIdx ourIdx pOur pTheir fee) rc false lc).2 = lc.
Proof.
  intros H1 H2. unfold computeView. apply cbind_pure; [done|]. intros lc0.
  apply cbind_pure; [done|]. intros tip.
  apply cbind_pure; [|by intros [? ?]].
  destruct (viewAt_covered lc theirIdx ourIdx pOur pTheir fee H1 H2) as [C1 C2].
  by apply evaluateHTLCView_pure.
Qed.

Lemma validateCommitmentSanity_pure lc theirIdx ourIdx rc pOur pTheir :
  log_wf (localUpdateLog lc) -> log_wf (remoteUpdateLog lc) ->
  (validateCommitmentSanity theirIdx ourIdx rc pOur pTheir lc).2 = lc.
Proof.
  intros H1 H2. unfold validateCommitmentSanity.
  destruct (misses_assetID pOur), (is_asset pOur), (is_asset pTheir), (misses_assetID pTheir); try done.
  all: unfold cbind at 1, cget; unfold cbind at 1, clift at 1.
  all: destruct (tipOf rc lc) as [tip|e|]; try done.
  all: apply cbind_pure; [by apply (computeView_pure lc theirIdx ourIdx pOur pTheir 0 rc)|].
  all: intros [[bal w] fv]; apply cbind_pure; [done|]; intros []; by apply cbind_pure.
Qed.

End lemmas.
