(* ===== verification/ViewConservation.v ===== *)
(** * lnwallet: no funds are lost or created

    The HTLCs in flight on a chain are the adds committed there whose removal is
    not.  Evaluating a view keeps the sum of the two balances and of everything
    in flight, for milli-satoshis and for assets alike, modulo the width of the
    integers; and with [mutateState] exactly the HTLCs of the evaluated view are
    in flight afterwards.

    The last part follows single entries: whose balance each of them changes, and by how much. *)

From Stdlib Require Import ZArith Lia.
From S2P Require Import Prelude Wire WireModels Amounts OpReturn UpdateLog CommitTx.
From S2P Require Import ChannelState ChannelModel ChannelView ViewLemmas.

Local Open Scope Z_scope.
Local Open Scope go_scope.

(** ** Sums *)

Definition sumOf {K} (amt : PaymentDescriptor -> Z) (l : list (K * PaymentDescriptor)) : Z :=
  foldr (fun x acc => amt x.2 + acc) 0 l.

Lemma sumOf_cons {K} amt (x : K * PaymentDescriptor) l : sumOf amt (x :: l) = amt x.2 + sumOf amt l.
Proof. done. Qed.

Lemma sumOf_split {K} amt (P Q : K * PaymentDescriptor -> Prop)
    `{!forall x, Decision (P x), !forall x, Decision (Q x)} l :
  sumOf amt (filter P l) =
  sumOf amt (filter (fun x => P x /\ Q x) l) + sumOf amt (filter (fun x => P x /\ ~ Q x) l).
Proof.
  induction l as [|x l IH]; [done|]. rewrite !filter_cons.
  destruct (decide (P x)), (decide (Q x)); repeat case_decide; try tauto;
    rewrite ?sumOf_cons; lia.
Qed.

Lemma sumOf_map {K} amt (f : K * PaymentDescriptor -> K * PaymentDescriptor) l :
  (forall x, amt (f x).2 = amt x.2) -> sumOf amt (f <$> l) = sumOf amt l.
Proof. intros Hf. induction l as [|x l IH]; [done|]. cbn. unfold sumOf in IH. by rewrite Hf, IH. Qed.

Lemma sumOf_pointers amt l : sumOf amt (pointers l) = sumOf amt l.
Proof. unfold sumOf. induction l as [|x l IH]; [done|]. cbn. by rewrite <- IH. Qed.

Lemma pointers_snd l : (pointers l).*2 = l.*2.
Proof. induction l as [|x l IH]; [done|]. cbn. by rewrite <- IH. Qed.

Lemma filter_pointers (P : view_entry -> Prop) `{!forall x, Decision (P x)} l :
  filter P (pointers l) = pointers (filter (fun x => P (Some x.1, x.2)) l).
Proof.
  induction l as [|x l IH]; [done|]. cbn [pointers fmap list_fmap]. rewrite !filter_cons.
  fold (pointers l). rewrite IH. by case_decide.
Qed.

Lemma filter_map {A B} (f : A -> B) (P : B -> Prop) `{!forall x, Decision (P x)} (l : list A) :
  filter P (f <$> l) = f <$> filter (fun x => P (f x)) l.
Proof.
  induction l as [|x l IH]; [done|]. cbn [fmap list_fmap]. rewrite !filter_cons, IH. by case_decide.
Qed.

Lemma filter_unique {A} (P : A -> Prop) `{!forall x, Decision (P x)} l x :
  NoDup l -> x ∈ l -> P x -> (forall y, y ∈ l -> P y -> y = x) -> filter P l = [x].
Proof.
  induction l as [|y l IH]; intros Hnd Hin Hx Hu; [set_solver|].
  apply NoDup_cons in Hnd as [Hn Hnd]. rewrite filter_cons. case_decide as Hy.
  - assert (y = x) as -> by (apply Hu; [by left|done]). f_equal.
    destruct (filter P l) as [|z k] eqn:Ek; [done|].
    assert (z ∈ filter P l) as [Hz1 Hz2]%list_elem_of_filter by (rewrite Ek; by left).
    destruct Hn. rewrite <- (Hu z); [done|by right|done].
  - apply elem_of_cons in Hin as [->|Hin]; [done|]. apply IH; try done. intros z ? ?. apply Hu; [by right|done].
Qed.

(** ** HTLCs in flight *)

(** A committed removal of an HTLC. *)
Definition consumes (rc : bool) (add : PaymentDescriptor) (x : nat * PaymentDescriptor) : Prop :=
  is_removal x.2 = true /\ ParentIndex x.2 = HtlcIndex add /\ removeHeight rc x.2 <> 0.

#[global] Instance consumes_dec rc add x : Decision (consumes rc add x).
Proof. unfold consumes. apply _. Defined.

Definition inFlight (rc : bool) (other : updateLog) (x : nat * PaymentDescriptor) : Prop :=
  EntryType x.2 = Add /\ addHeight rc x.2 <> 0 /\ Forall (fun y => ~ consumes rc x.2 y) (entries other).

#[global] Instance inFlight_dec rc other x : Decision (inFlight rc other x).
Proof. unfold inFlight. apply _. Defined.

(** The HTLCs of a log in flight on a chain, given the log across. *)
Definition inFlightOf (rc : bool) (u other : updateLog) : list (nat * PaymentDescriptor) :=
  filter (inFlight rc other) (entries u).

(** Everything committed on a chain is below the index of a view. *)
Definition committedBelow (rc : bool) (u : updateLog) (idx : Z) : Prop :=
  forall e pd, (e, pd) ∈ entries u -> addHeight rc pd <> 0 \/ removeHeight rc pd <> 0 ->
    LogIndex pd < idx.

Definition below (idx : Z) (u : updateLog) : list (nat * PaymentDescriptor) :=
  filter (fun x => LogIndex x.2 < idx) (entries u).

(** The removals of a list that are not committed yet. *)
Definition newRemoval (rc : bool) (x : nat * PaymentDescriptor) : Prop :=
  is_removal x.2 = true /\ removeHeight rc x.2 = 0.

#[global] Instance newRemoval_dec rc x : Decision (newRemoval rc x).
Proof. unfold newRemoval. apply _. Defined.

Lemma elem_of_parents i l :
  i ∈ parents (pointers l) <-> exists e pd, (e, pd) ∈ l /\ is_removal pd = true /\ ParentIndex pd = i.
Proof.
  unfold parents. rewrite elem_of_list_to_set, list_elem_of_fmap. split.
  - intros ([o pd] & -> & [Hr Hin]%list_elem_of_filter). unfold pointers in Hin.
    apply list_elem_of_fmap in Hin as ([e pd'] & [= -> ->] & Hin). by exists e, pd'.
  - intros (e & pd & Hin & Hr & <-). exists (Some e, pd). split; [done|].
    apply list_elem_of_filter. split; [done|]. unfold pointers. apply list_elem_of_fmap. by exists (e, pd).
Qed.

Lemma nodup_entries u : log_wf u -> NoDup (entries u).
Proof. intros Hwf. by apply (NoDup_fmap_1 fst), lw_ids. Qed.

(** In a log an HTLC index names one element. *)
Lemma add_unique u e1 p1 e2 p2 :
  log_wf u -> (e1, p1) ∈ entries u -> (e2, p2) ∈ entries u -> EntryType p1 = Add ->
  EntryType p2 = Add -> HtlcIndex p1 = HtlcIndex p2 -> (e1, p1) = (e2, p2).
Proof.
  intros Hwf H1 H2 A1 A2 Hi.
  assert (htlcIndex u !! HtlcIndex p1 = Some e1) by (apply lw_htlc; [done|by exists p1]).
  assert (htlcIndex u !! HtlcIndex p1 = Some e2) by (apply lw_htlc; [done|by exists p2]).
  assert (e1 = e2) as -> by congruence. f_equal. by eapply entries_inj.
Qed.

(** ** Balances, modulo the width of the integers *)

Definition eqm (a b : Z) : Prop := exists k, a = b + k * 2 ^ 64.

#[global] Instance eqm_equiv : Equivalence eqm.
Proof.
  split.
  - intros a. exists 0. lia.
  - intros a b [k ->]. exists (- k). lia.
  - intros a b c [k ->] [j ->]. exists (k + j). lia.
Qed.

Lemma u64_eqm z : eqm (u64 z) z.
Proof.
  exists (- (z / 2 ^ 64)). unfold u64. pose proof (Z.div_mod z (2 ^ 64) ltac:(lia)). lia.
Qed.

Lemma i64_eqm z : eqm (i64 z) z.
Proof.
  exists (- ((z + 2 ^ 63) / 2 ^ 64)). unfold i64.
  pose proof (Z.div_mod (z + 2 ^ 63) (2 ^ 64) ltac:(lia)). lia.
Qed.

Lemma eqm_u64 a b : eqm a b -> in_u 64 a -> in_u 64 b -> a = b.
Proof. unfold in_u. intros [k ->] ? ?. assert (k = 0) by lia. lia. Qed.

(** Folding a step that changes a quantity by an amount per entry. *)
Lemma foldl_eqm {S} (tot : S -> Z) (f : S -> PaymentDescriptor -> S) (d : PaymentDescriptor -> Z) l :
  (forall s pd, eqm (tot (f s pd)) (tot s + d pd)) ->
  forall s, eqm (tot (foldl f s l)) (tot s + foldr (fun pd acc => d pd + acc) 0 l).
Proof.
  intros Hf. induction l as [|pd l IH]; intros s; cbn [foldl foldr]; [exists 0; lia|].
  rewrite (IH (f s pd)). destruct (Hf s pd) as [k ->]. exists k. lia.
Qed.

Lemma sumOf_filter_ind {K} amt (P : K * PaymentDescriptor -> Prop) `{!forall x, Decision (P x)}
    (d : PaymentDescriptor -> Z) l :
  (forall x, x ∈ l -> d x.2 = if decide (P x) then amt x.2 else 0) ->
  foldr (fun pd acc => d pd + acc) 0 l.*2 = sumOf amt (filter P l).
Proof.
  induction l as [|x l IH]; intros Hd; [done|]. cbn [fmap list_fmap foldr]. rewrite filter_cons.
  rewrite (Hd x) by (by left). rewrite IH by (intros; apply Hd; by right).
  case_decide; rewrite ?sumOf_cons; lia.
Qed.

Section amounts.
(** An amount that removals share with the HTLCs they consume. *)
Context (amt : PaymentDescriptor -> Z).
Context (amt_linked : forall A B e pd, linked A B -> (e, pd) ∈ entries A -> is_removal pd = true ->
  exists e' add, (e', add) ∈ entries B /\ EntryType add = Add /\ HtlcIndex add = ParentIndex pd /\
    amt pd = amt add).

(** A list of removals is worth the HTLCs it consumes. *)
Lemma sumOf_parents u N :
  log_wf u -> NoDup ((fun x : nat * PaymentDescriptor => ParentIndex x.2) <$> N) ->
  (forall x, x ∈ N -> exists e add, (e, add) ∈ entries u /\ EntryType add = Add /\
     HtlcIndex add = ParentIndex x.2 /\ amt x.2 = amt add) ->
  sumOf amt (filter (fun y => EntryType y.2 = Add /\
    HtlcIndex y.2 ∈ ((fun x : nat * PaymentDescriptor => ParentIndex x.2) <$> N)) (entries u)) =
  sumOf amt N.
Proof.
  intros Hwf. induction N as [|x N IH]; intros Hnd Hp.
  - replace (filter _ _) with (@nil (nat * PaymentDescriptor)); [done|]. symmetry.
    destruct (filter _ _) as [|y k] eqn:Ek; [done|].
    assert (y ∈ y :: k) as Hy by (by left). rewrite <- Ek in Hy.
    apply list_elem_of_filter in Hy as [[_ Hy] _]. by apply elem_of_nil in Hy.
  - cbn [fmap list_fmap] in *. apply NoDup_cons in Hnd as [Hn Hnd].
    rewrite (sumOf_split amt _ (fun y => HtlcIndex y.2 = ParentIndex x.2)), sumOf_cons.
    destruct (Hp x) as (e & add & Hin & Ha & Hi & ->); [by left|]. f_equal.
    + rewrite (filter_unique _ (entries u) (e, add)); [cbn; lia|by apply nodup_entries|done|..].
      * cbn. split; [|done]. split; [done|]. rewrite Hi. by left.
      * intros [e' p'] Hin' [[Ha' _] Hi']. cbn in *. apply (add_unique u); try done. congruence.
    + rewrite <- IH; [|done|intros y Hy; apply Hp; by right]. f_equal. apply filter_ext_in.
      intros [e' p'] _. cbn. rewrite elem_of_cons. split; [naive_solver|]. intros [? Hk].
      split; [auto|]. intros E. apply Hn. by rewrite <- E.
Qed.

(** What is in flight before the evaluation: the committed HTLCs that stay, and
    what the new removals consume. *)
Lemma inFlight_before rc u other idx oidx :
  logs_wf u other -> committedBelow rc u idx -> committedBelow rc other oidx ->
  parents_ok rc u (pointers (below oidx other)) ->
  sumOf amt (inFlightOf rc u other) =
  sumOf amt (filter (fun x => (EntryType x.2 = Add /\
      HtlcIndex x.2 ∉ parents (pointers (below oidx other))) /\ addHeight rc x.2 <> 0) (below idx u)) +
  sumOf amt (filter (newRemoval rc) (below oidx other)).
Proof.
  intros (Hwu & Hwo & _ & Hl) Hb Hbo Hpo. unfold inFlightOf.
  set (S := parents (pointers (below oidx other))) in *.
  rewrite (sumOf_split amt _ (fun x => HtlcIndex x.2 ∉ S)). f_equal.
  - f_equal. unfold below. rewrite filter_filter. apply filter_ext_in. intros [e p] Hin. cbn. split.
    + intros [(Ha & Hh & _) Hs]. split_and!; try done. apply (Hb e p); [done|by left].
    + intros [[[Ha Hs] Hh] Hidx]. split; [|done]. split; [done|]. split; [done|].
      apply Forall_forall. intros [e' r] Hr (Hr1 & Hr2 & Hr3). cbn in *. apply Hs.
      apply elem_of_parents. exists e', r. split; [|by rewrite Hr2].
      apply list_elem_of_filter. split; [|done]. apply (Hbo e' r); [done|by right].
  - rewrite <- (sumOf_parents u (filter (newRemoval rc) (below oidx other))); [|done|..].
    + f_equal. apply filter_ext_in. intros [e p] Hin. cbn. split.
      * intros [(Ha & Hh & Hc) Hs]. apply dec_stable in Hs. split; [done|].
        apply elem_of_parents in Hs as (e' & r & Hr & Hrr & Hp).
        rewrite <- Hp. apply list_elem_of_fmap. exists (e', r). split; [done|].
        apply list_elem_of_filter. split; [|done]. split; [done|]. cbn.
        destruct (decide (removeHeight rc r = 0)); [done|].
        apply list_elem_of_filter in Hr as [_ Hr]. rewrite Forall_forall in Hc.
        by destruct (Hc _ Hr).
      * intros [Ha Hk]. apply list_elem_of_fmap in Hk as ([e' r] & Hp & Hr). cbn in Hp.
        apply list_elem_of_filter in Hr as [[Hr1 Hr2] Hr]. cbn in *.
        assert (HtlcIndex p ∈ S) as Hs by (apply elem_of_parents; by exists e', r).
        split; [|intros Hns; by apply Hns]. split; [done|]. split.
        -- destruct (Hpo (Some e', r)) as (add & Hadd & Hh).
           { unfold pointers. apply list_elem_of_fmap. by exists (e', r). } { done. }
           cbn in Hadd. apply lookupHtlc_Some in Hadd as (e2 & Hin2 & Ha2 & Hi2); [|done].
           assert ((e, p) = (e2, add)) as [= -> ->] by (apply (add_unique u); try done; congruence). done.
        -- apply Forall_forall. intros [e2 r2] Hin2 (Hr21 & Hr22 & Hr23). cbn in *.
           apply list_elem_of_filter in Hr as [_ Hr].
           assert (e2 = e') as -> by (apply (lk_once _ _ Hl e2 r2 e' r); try done; congruence).
           by rewrite (entries_inj other e' r2 r) in Hr23.
    + apply NoDup_fmap_2_strong.
      * intros [e1 r1] [e2 r2] [[H1 _] H1']%list_elem_of_filter [[H2 _] H2']%list_elem_of_filter Hp.
        cbn in *. apply list_elem_of_filter in H1' as [_ H1'], H2' as [_ H2'].
        assert (e1 = e2) as -> by (by apply (lk_once _ _ Hl e1 r1 e2 r2)).
        f_equal. by eapply entries_inj.
      * unfold below. by apply NoDup_filter, NoDup_filter, nodup_entries.
    + intros [e r] [[Hr1 _] Hr]%list_elem_of_filter. apply list_elem_of_filter in Hr as [_ Hr].
      by apply (amt_linked other u e r).
Qed.

(** The total of two balances that the handlers credit and debit with it. *)
Context (tot : balances -> Z).
Context (tot_remove : forall rc ours bal pd, is_removal pd = true ->
  eqm (tot (processRemoveEntry pd bal 0 rc ours false).2)
      (tot bal + (if bool_decide (removeHeight rc pd = 0) then amt pd else 0))).
Context (tot_add : forall rc inc bal pd,
  eqm (tot (processAddEntry pd bal 0 rc inc false).2)
      (tot bal - (if bool_decide (addHeight rc pd = 0) then amt pd else 0))).

Lemma stepRemove_total rc ours l bal :
  eqm (tot (foldl (stepRemove rc ours) bal (pointers l).*2))
      (tot bal + sumOf amt (filter (newRemoval rc) l)).
Proof.
  rewrite pointers_snd.
  set (d := fun pd => if is_removal pd && bool_decide (removeHeight rc pd = 0) then amt pd else 0).
  rewrite (foldl_eqm tot _ d).
  - rewrite (sumOf_filter_ind amt (newRemoval rc)); [done|]. intros [e pd] _. unfold d; cbn.
    destruct (decide (newRemoval rc (e, pd))) as [[H1 H2]|Hn]; cbn in *.
    + by rewrite H1, bool_decide_eq_true_2.
    + destruct (is_removal pd) eqn:Hr; [|done]. cbn. rewrite bool_decide_eq_false_2; [done|].
      intros H0. by apply Hn.
  - intros b pd. unfold stepRemove, d. destruct (is_removal pd) eqn:Hr; cbn [andb].
    + by apply tot_remove.
    + exists 0. lia.
Qed.

Lemma stepAdd_total rc ours l bal :
  eqm (tot (foldl (stepAdd rc ours) bal (pointers l).*2))
      (tot bal - sumOf amt (filter (fun x => addHeight rc x.2 = 0) l)).
Proof.
  rewrite pointers_snd.
  set (d := fun pd => - (if bool_decide (addHeight rc pd = 0) then amt pd else 0)).
  rewrite (foldl_eqm tot _ d).
  - rewrite (sumOf_filter_ind (fun pd => - amt pd) (fun x => addHeight rc x.2 = 0)).
    + exists 0. unfold sumOf. induction (filter _ l) as [|x k IH]; [cbn; lia|]. cbn [foldr]. lia.
    + intros x _. unfold d. case_bool_decide; case_decide; lia || done.
  - intros b pd. unfold stepAdd, d. rewrite (tot_add rc (negb ours) b pd). exists 0. lia.
Qed.

(** *** The identity of the evaluation *)

(** A view of two logs up to two indexes. *)
Definition viewBelow (u v : updateLog) (ourIdx theirIdx fee : Z) : htlcView :=
  mkView (pointers (below ourIdx u)) (pointers (below theirIdx v)) fee.

Lemma evalBal_total rc u v ourIdx theirIdx fee bal :
  let view := viewBelow u v ourIdx theirIdx fee in
  logs_wf u v -> committedBelow rc u ourIdx -> committedBelow rc v theirIdx ->
  parents_ok rc v (ourUpdates view) -> parents_ok rc u (theirUpdates view) ->
  eqm (tot (evalBal rc view bal) + sumOf amt (survivingOurs view) + sumOf amt (survivingTheirs view))
      (tot bal + sumOf amt (inFlightOf rc u v) + sumOf amt (inFlightOf rc v u)).
Proof.
  intros view Hwf Hb1 Hb2 P1 P2. subst view. unfold viewBelow in *.
  unfold evalBal, survivingOurs, survivingTheirs. cbn [ourUpdates theirUpdates] in *.
  rewrite !filter_pointers, !sumOf_pointers.
  rewrite (inFlight_before rc _ _ ourIdx theirIdx Hwf Hb1 Hb2 P2).
  rewrite (inFlight_before rc _ _ theirIdx ourIdx (logs_wf_sym _ _ Hwf) Hb2 Hb1 P1).
  set (bo := below ourIdx u) in *. set (bt := below theirIdx v) in *.
  set (so := filter (fun x : nat * PaymentDescriptor => survives (parents (pointers bt)) (Some x.1, x.2)) bo).
  set (st := filter (fun x : nat * PaymentDescriptor => survives (parents (pointers bo)) (Some x.1, x.2)) bt).
  set (b1 := foldl (stepRemove rc true) bal (pointers bo).*2).
  set (b2 := foldl (stepRemove rc false) b1 (pointers bt).*2).
  set (b3 := foldl (stepAdd rc true) b2 (pointers so).*2).
  destruct (stepRemove_total rc true bo bal) as [k1 E1]. fold b1 in E1.
  destruct (stepRemove_total rc false bt b1) as [k2 E2]. fold b2 in E2.
  destruct (stepAdd_total rc true so b2) as [k3 E3]. fold b3 in E3.
  destruct (stepAdd_total rc false st b3) as [k4 E4].
  assert (forall l k, sumOf amt (filter (fun x : nat * PaymentDescriptor =>
      survives k (Some x.1, x.2)) l) =
    sumOf amt (filter (fun x => (EntryType x.2 = Add /\ HtlcIndex x.2 ∉ k) /\ addHeight rc x.2 <> 0) l) +
    sumOf amt (filter (fun x => addHeight rc x.2 = 0)
      (filter (fun x : nat * PaymentDescriptor => survives k (Some x.1, x.2)) l))) as Hsplit.
  { intros l k. rewrite (sumOf_split amt _ (fun x => addHeight rc x.2 <> 0)). f_equal.
    f_equal. rewrite filter_filter. apply filter_ext_in. intros x _. cbn.
    destruct (decide (addHeight rc x.2 = 0)); tauto. }
  pose proof (Hsplit bo (parents (pointers bt))) as S1. fold so in S1.
  pose proof (Hsplit bt (parents (pointers bo))) as S2. fold st in S2.
  exists (k1 + k2 + k3 + k4). lia.
Qed.

End amounts.

(** ** After the evaluation *)

Section after.
Context (mode : evalMode) (Hmut : mutateState mode = true) (Hnext : nextHeight mode <> 0).

#[local] Abbreviation rc := (remoteChain mode).

Lemma addUpd_height pd : addHeight rc (addUpd mode pd) <> 0.
Proof.
  unfold addUpd, processAddEntry. rewrite Hmut. case_bool_decide as Hh; [done|].
  unfold set_addHeight, addHeight in *. by destruct rc.
Qed.

Lemma removeUpd_height pd : is_removal pd = true -> removeHeight rc (removeUpd mode pd) <> 0.
Proof.
  intros Hr. unfold removeUpd, is_removal in *. rewrite Hmut.
  destruct (EntryType pd); try done; unfold processRemoveEntry; case_bool_decide as Hh; try done;
    unfold set_removeHeight, removeHeight in *; by destruct rc.
Qed.

Lemma ids_below u idx e pd :
  log_wf u -> (e, pd) ∈ entries u -> (e ∈ ids (pointers (below idx u)) <-> LogIndex pd < idx).
Proof.
  intros Hwf Hin. rewrite ids_pointers, list_elem_of_fmap. unfold below. split.
  - intros ([e' pd'] & -> & [Hi Hin']%list_elem_of_filter). by rewrite (entries_inj u e' pd pd').
  - intros Hi. exists (e, pd). split; [done|]. by apply list_elem_of_filter.
Qed.

Lemma ids_surviving u idx skip e pd :
  log_wf u -> (e, pd) ∈ entries u ->
  (e ∈ ids (filter (survives skip) (pointers (below idx u))) <->
   LogIndex pd < idx /\ EntryType pd = Add /\ HtlcIndex pd ∉ skip).
Proof.
  intros Hwf Hin. rewrite filter_pointers, ids_pointers, list_elem_of_fmap. split.
  - intros ([e' pd'] & -> & [[Ha Hs] Hin']%list_elem_of_filter). cbn in *.
    apply list_elem_of_filter in Hin' as [Hi Hin']. by rewrite (entries_inj u e' pd pd').
  - intros (Hi & Ha & Hs). exists (e, pd). split; [done|]. apply list_elem_of_filter.
    split; [done|]. by apply list_elem_of_filter.
Qed.

(** The descriptor of an element after the evaluation. *)
Definition evalPd (all surviving : list view_entry) (e : nat) (pd : PaymentDescriptor) :
    PaymentDescriptor :=
  on (ids surviving) (addUpd mode) e (on (ids all) (removeUpd mode) e pd).

Lemma evalLog_map all surviving u : evalLog mode all surviving u = mapLog (evalPd all surviving) u.
Proof. unfold evalLog. by rewrite mapLog_compose. Qed.

Lemma evalPd_only all surviving e : only_heights (evalPd all surviving e).
Proof.
  intros pd. unfold evalPd. rewrite (on_only_heights _ _ e (addUpd_only mode)).
  set (h := heights (on _ (addUpd mode) e _)). cbn.
  rewrite (on_only_heights _ _ e (removeUpd_only mode) pd). by rewrite alter_heights_twice.
Qed.

Lemma evalLog_same all surviving u : same_log u (evalLog mode all surviving u).
Proof. rewrite evalLog_map. apply mapLog_same. intros e. apply evalPd_only. Qed.

Lemma addHeight_evalPd u idx skip e pd :
  log_wf u -> (e, pd) ∈ entries u -> EntryType pd = Add -> committedBelow rc u idx ->
  HtlcIndex pd ∉ skip ->
  (addHeight rc (evalPd (pointers (below idx u)) (filter (survives skip) (pointers (below idx u))) e pd)
     <> 0 <-> LogIndex pd < idx).
Proof.
  intros Hwf Hin Ha Hb Hs. unfold evalPd.
  assert (on (ids (pointers (below idx u))) (removeUpd mode) e pd = pd) as ->.
  { unfold on. rewrite removeUpd_add by done. by case_bool_decide. }
  unfold on. case_bool_decide as Hi; rewrite (ids_surviving u idx skip e pd) in Hi by done.
  - split; [by intros _; apply Hi|]. intros _. apply addUpd_height.
  - split; [|by intros Hlt; destruct Hi]. intros Hh. apply (Hb e pd); [done|by left].
Qed.

Lemma removeHeight_evalPd u idx skip e pd :
  log_wf u -> (e, pd) ∈ entries u -> is_removal pd = true -> committedBelow rc u idx ->
  (removeHeight rc (evalPd (pointers (below idx u)) (filter (survives skip) (pointers (below idx u))) e pd)
     <> 0 <-> LogIndex pd < idx).
Proof.
  intros Hwf Hin Hr Hb. unfold evalPd.
  assert (e ∉ ids (filter (survives skip) (pointers (below idx u)))) as Hn.
  { rewrite (ids_surviving u idx skip e pd) by done. intros (_ & Ha & _).
    unfold is_removal in Hr. by rewrite Ha in Hr. }
  unfold on at 1. rewrite bool_decide_eq_false_2 by done.
  unfold on. case_bool_decide as Hi; rewrite (ids_below u idx e pd) in Hi by done.
  - split; [done|]. intros _. by apply removeUpd_height.
  - split; [|done]. intros Hh. apply (Hb e pd); [done|by right].
Qed.

(** Exactly the surviving HTLCs are in flight afterwards. *)
Lemma inFlight_after amt u v idx oidx :
  (forall f pd, only_heights f -> amt (f pd) = amt pd) ->
  logs_wf u v -> committedBelow rc u idx -> committedBelow rc v oidx ->
  sumOf amt (inFlightOf rc
    (evalLog mode (pointers (below idx u))
       (filter (survives (parents (pointers (below oidx v)))) (pointers (below idx u))) u)
    (evalLog mode (pointers (below oidx v))
       (filter (survives (parents (pointers (below idx u)))) (pointers (below oidx v))) v)) =
  sumOf amt (filter (survives (parents (pointers (below oidx v)))) (pointers (below idx u))).
Proof.
  intros Hamt (Hwu & Hwv & _ & _) Hbu Hbv. rewrite !evalLog_map. unfold inFlightOf, mapLog; cbn [entries].
  set (Fv := evalPd (pointers (below oidx v)) _). set (Fu := evalPd (pointers (below idx u)) _).
  rewrite filter_map, (sumOf_map amt); [|intros [e pd]; cbn; apply Hamt, evalPd_only].
  rewrite filter_pointers, sumOf_pointers. f_equal. unfold below. rewrite filter_filter.
  fold (below idx u). fold (below oidx v).
  apply filter_ext_in. intros [e pd] Hin. unfold inFlight, compose; cbn.
  destruct (only_heights_static (Fu e) pd (evalPd_only _ _ e)) as (Et & _ & Ei & _).
  rewrite <- Et. set (S := parents (pointers (below oidx v))) in *.
  assert (Forall (fun y => ~ consumes rc (Fu e pd) y) ((fun x => (x.1, Fv x.1 x.2)) <$> entries v) <->
    HtlcIndex pd ∉ S) as ->.
  { rewrite Forall_fmap, Forall_forall. split.
    - intros Hc Hs. apply elem_of_parents in Hs as (e' & r & [Hlt Hr]%list_elem_of_filter & Hrr & Hp).
      apply (Hc (e', r) Hr). unfold consumes; cbn.
      destruct (only_heights_static (Fv e') r (evalPd_only _ _ e')) as (E1 & _ & _ & E4 & _).
      split; [unfold is_removal in *; by rewrite <- E1|]. split; [congruence|].
      by apply (removeHeight_evalPd v oidx _ e' r).
    - intros Hs [e' r] Hr. unfold consumes, compose; cbn. intros (Hr1 & Hr2 & Hr3). apply Hs.
      destruct (only_heights_static (Fv e') r (evalPd_only _ _ e')) as (E1 & _ & _ & E4 & _).
      assert (is_removal r = true) as Hrr by (unfold is_removal in *; by rewrite E1).
      apply (removeHeight_evalPd v oidx _ e' r) in Hr3; try done.
      apply elem_of_parents. exists e', r. split; [by apply list_elem_of_filter|]. split; [done|congruence]. }
  unfold survives; cbn. split.
  - intros (Ha & Hh & Hs). split; [done|]. by apply (addHeight_evalPd u idx S e pd).
  - intros [[Ha Hs] Hlt]. split; [done|]. split; [|done]. by apply (addHeight_evalPd u idx S e pd).
Qed.

(** The heights written are below the indexes of the view. *)
Lemma committedBelow_after u idx skip :
  log_wf u -> committedBelow rc u idx ->
  committedBelow rc (evalLog mode (pointers (below idx u))
    (filter (survives skip) (pointers (below idx u))) u) idx.
Proof.
  intros Hwf Hb e pd Hin Hh. rewrite evalLog_map in Hin.
  apply elem_of_mapLog in Hin as (pd0 & Hin & ->).
  destruct (only_heights_static _ pd0 (evalPd_only (pointers (below idx u))
    (filter (survives skip) (pointers (below idx u))) e)) as (_ & El & _). rewrite <- El.
  destruct (decide (LogIndex pd0 < idx)) as [|Hn]; [done|]. apply (Hb e pd0); [done|].
  unfold evalPd, on in Hh. rewrite !bool_decide_eq_false_2 in Hh; [done|..].
  - by rewrite (ids_below u idx e pd0).
  - rewrite (ids_surviving u idx skip e pd0) by done. by intros [? _].
Qed.

End after.

(** ** The two currencies *)

Definition totalBtc (b : balances) : Z := ourBtc b + theirBtc b.
Definition totalAsset (b : balances) : Z := ourAsset b + theirAsset b.

Lemma btc_linked A B e pd :
  linked A B -> (e, pd) ∈ entries A -> is_removal pd = true ->
  exists e' add, (e', add) ∈ entries B /\ EntryType add = Add /\ HtlcIndex add = ParentIndex pd /\
    BtcAmount pd = BtcAmount add.
Proof. intros Hl Hin Hr. destruct (lk_parent _ _ Hl _ _ Hin Hr) as (e' & add & ?). exists e', add. tauto. Qed.

Lemma asset_linked A B e pd :
  linked A B -> (e, pd) ∈ entries A -> is_removal pd = true ->
  exists e' add, (e', add) ∈ entries B /\ EntryType add = Add /\ HtlcIndex add = ParentIndex pd /\
    AssetAmount pd = AssetAmount add.
Proof. intros Hl Hin Hr. destruct (lk_parent _ _ Hl _ _ Hin Hr) as (e' & add & ?). exists e', add. tauto. Qed.

Lemma btc_remove rc ours bal pd :
  is_removal pd = true ->
  eqm (totalBtc (processRemoveEntry pd bal 0 rc ours false).2)
      (totalBtc bal + (if bool_decide (removeHeight rc pd = 0) then BtcAmount pd else 0)).
Proof.
  unfold processRemoveEntry, is_removal, totalBtc. intros Hr.
  destruct (u64_eqm (ourBtc bal + BtcAmount pd)) as [k1 E1], (u64_eqm (theirBtc bal + BtcAmount pd)) as [k2 E2].
  case_bool_decide as Hh; [rewrite bool_decide_eq_false_2 by done; exists 0; cbn; lia|].
  rewrite bool_decide_eq_true_2 by lia.
  destruct ours, (EntryType pd); try done; cbn; (exists k1; lia) || (exists k2; lia).
Qed.

Lemma asset_remove rc ours bal pd :
  is_removal pd = true ->
  eqm (totalAsset (processRemoveEntry pd bal 0 rc ours false).2)
      (totalAsset bal + (if bool_decide (removeHeight rc pd = 0) then AssetAmount pd else 0)).
Proof.
  unfold processRemoveEntry, is_removal, totalAsset. intros Hr.
  destruct (i64_eqm (ourAsset bal + AssetAmount pd)) as [k1 E1],
    (i64_eqm (theirAsset bal + AssetAmount pd)) as [k2 E2].
  case_bool_decide as Hh; [rewrite bool_decide_eq_false_2 by done; exists 0; cbn; lia|].
  rewrite bool_decide_eq_true_2 by lia.
  destruct ours, (EntryType pd); try done; cbn; (exists k1; lia) || (exists k2; lia).
Qed.

Lemma btc_add rc inc bal pd :
  eqm (totalBtc (processAddEntry pd bal 0 rc inc false).2)
      (totalBtc bal - (if bool_decide (addHeight rc pd = 0) then BtcAmount pd else 0)).
Proof.
  unfold processAddEntry, totalBtc.
  destruct (u64_eqm (ourBtc bal - BtcAmount pd)) as [k1 E1], (u64_eqm (theirBtc bal - BtcAmount pd)) as [k2 E2].
  case_bool_decide as Hh; [rewrite bool_decide_eq_false_2 by done; exists 0; cbn; lia|].
  rewrite bool_decide_eq_true_2 by lia. destruct inc; cbn; [exists k2; lia|exists k1; lia].
Qed.

Lemma asset_add rc inc bal pd :
  eqm (totalAsset (processAddEntry pd bal 0 rc inc false).2)
      (totalAsset bal - (if bool_decide (addHeight rc pd = 0) then AssetAmount pd else 0)).
Proof.
  unfold processAddEntry, totalAsset.
  destruct (i64_eqm (ourAsset bal - AssetAmount pd)) as [k1 E1],
    (i64_eqm (theirAsset bal - AssetAmount pd)) as [k2 E2].
  case_bool_decide as Hh; [rewrite bool_decide_eq_false_2 by done; exists 0; cbn; lia|].
  rewrite bool_decide_eq_true_2 by lia. destruct inc; cbn; [exists k2; lia|exists k1; lia].
Qed.

Lemma btc_heights f pd : only_heights f -> BtcAmount (f pd) = BtcAmount pd.
Proof. intros Hf. destruct (only_heights_static f pd Hf) as (_ & _ & _ & _ & <- & _). done. Qed.

Lemma asset_heights f pd : only_heights f -> AssetAmount (f pd) = AssetAmount pd.
Proof. intros Hf. destruct (only_heights_static f pd Hf) as (_ & _ & _ & _ & _ & <- & _). done. Qed.

(** ** Computing a view *)

Section compute.
Context {BT : Btcec} {E : ChanEnv}.

Definition modeOf (rc mutate : bool) (tip : commitment) : evalMode :=
  mkMode rc mutate (u64 (Commitment.height tip + 1)).

(** The view a commitment is computed from: the logs below two indexes, with the
    fee rate of the tip. *)
Definition viewFor (lc : LightningChannel) (ourIdx theirIdx : Z) (tip : commitment) : htlcView :=
  viewBelow (localUpdateLog lc) (remoteUpdateLog lc) ourIdx theirIdx (Commitment.feePerKw tip).

(** Everything [computeView] returns and writes, as functions of the logs. *)
Lemma computeView_run lc ourIdx theirIdx rc mutate bal w view' lc' :
  log_wf (localUpdateLog lc) -> log_wf (remoteUpdateLog lc) ->
  computeView (fetchHTLCView lc theirIdx ourIdx) rc mutate lc = (Ok (bal, w, view'), lc') ->
  exists tip, tipOf rc lc = Ok tip /\
  let view := viewFor lc ourIdx theirIdx tip in
  let mode := modeOf rc mutate tip in
  framed lc lc' /\
  localUpdateLog lc' = evalLog mode (ourUpdates view) (survivingOurs view) (localUpdateLog lc) /\
  remoteUpdateLog lc' = evalLog mode (theirUpdates view) (survivingTheirs view) (remoteUpdateLog lc) /\
  view' = mkView (prod_map id (addUpd mode) <$> survivingOurs view)
            (prod_map id (addUpd mode) <$> survivingTheirs view) (evalFee rc view) /\
  bal = assetBalances (cfg lc) (length (survivingTheirs view)) (evalBal rc view (tipBalances (cfg lc) tip)) /\
  w = i64 (CommitWeight (ChanType (cfg lc)) + htlcWeightOf (cfg lc) rc view') /\
  parents_ok rc (remoteUpdateLog lc) (ourUpdates view) /\
  parents_ok rc (localUpdateLog lc) (theirUpdates view).
Proof.
  intros H1 H2 Hrun. unfold computeView in Hrun. rewrite cbind_cget in Hrun.
  apply clift_ok in Hrun as (tip & Htip & Hrun). exists tip. split; [done|].
  apply cbind_ok in Hrun as ([v b] & lc1 & Hev & Hret). injection Hret as <- <- <- <-.
  pose proof (covered_pointers (fun x => LogIndex x.2 < ourIdx) (localUpdateLog lc) None H1) as C1.
  pose proof (covered_pointers (fun x => LogIndex x.2 < theirIdx) (remoteUpdateLog lc) None H2) as C2.
  cbn [predicted] in C1, C2. rewrite app_nil_r in C1, C2.
  apply evaluateHTLCView_spec in Hev as (F & L1 & L2 & -> & -> & P1 & P2); [|done..].
  split; [done|]. split; [exact L1|]. split; [exact L2|]. split; [done|]. split; [done|].
  split; [done|]. split; [exact P1|exact P2].
Qed.

Lemma sumOf_updated {K} amt f (l : list (K * PaymentDescriptor)) :
  (forall pd, amt (f pd) = amt pd) -> sumOf amt (prod_map id f <$> l) = sumOf amt l.
Proof. intros Hf. apply sumOf_map. intros [k pd]. apply Hf. Qed.

(** Balances and HTLCs of the view, balances of the tip and HTLCs in flight. *)
Lemma computeView_total lc tip ourIdx theirIdx rc mutate bal w view' lc' :
  logs_wf (localUpdateLog lc) (remoteUpdateLog lc) ->
  committedBelow rc (localUpdateLog lc) ourIdx -> committedBelow rc (remoteUpdateLog lc) theirIdx ->
  tipOf rc lc = Ok tip ->
  computeView (fetchHTLCView lc theirIdx ourIdx) rc mutate lc = (Ok (bal, w, view'), lc') ->
  let inFlightSum amt c := sumOf amt (inFlightOf rc (localUpdateLog c) (remoteUpdateLog c)) +
                           sumOf amt (inFlightOf rc (remoteUpdateLog c) (localUpdateLog c)) in
  let viewSum amt := sumOf amt (ourUpdates view') + sumOf amt (theirUpdates view') in
  eqm (totalAsset bal + viewSum AssetAmount)
      (totalAsset (tipBalances (cfg lc) tip) + inFlightSum AssetAmount lc) /\
  (ChanAssetID (cfg lc) = BtcAssetId ->
   eqm (totalBtc bal + viewSum BtcAmount)
       (totalBtc (tipBalances (cfg lc) tip) + inFlightSum BtcAmount lc)) /\
  logs_wf (localUpdateLog lc') (remoteUpdateLog lc') /\
  (mutate = true -> u64 (Commitment.height tip + 1) <> 0 ->
   inFlightSum AssetAmount lc' = viewSum AssetAmount /\ inFlightSum BtcAmount lc' = viewSum BtcAmount).
Proof.
  intros Hwf Hb1 Hb2 Htip Hrun inFlightSum viewSum.
  pose proof Hwf as (Hw1 & Hw2 & _).
  apply computeView_run in Hrun as (tip' & Htip' & F & L1 & L2 & -> & -> & -> & P1 & P2); [|done..].
  rewrite Htip in Htip'. injection Htip' as <-.
  set (view := viewFor lc ourIdx theirIdx tip) in *. set (mode := modeOf rc mutate tip) in *.
  assert (forall amt, (forall f pd, only_heights f -> amt (f pd) = amt pd) ->
    viewSum amt = sumOf amt (survivingOurs view) + sumOf amt (survivingTheirs view)) as Hview.
  { intros amt Hamt. unfold viewSum. cbn [ourUpdates theirUpdates].
    rewrite !sumOf_updated; [done|intros; apply Hamt, addUpd_only..]. }
  rewrite !Hview by (apply asset_heights || apply btc_heights). split_and!.
  - assert (forall n b, totalAsset (assetBalances (cfg lc) n b) = totalAsset b) as ->.
    { intros n b. unfold assetBalances. by case_bool_decide. }
    unfold inFlightSum. rewrite !Z.add_assoc.
    apply (evalBal_total _ asset_linked totalAsset asset_remove asset_add); done.
  - intros HA. unfold assetBalances. rewrite HA, bool_decide_eq_false_2 by (unfold BtcAssetId; lia).
    unfold inFlightSum. rewrite !Z.add_assoc.
    apply (evalBal_total _ btc_linked totalBtc btc_remove btc_add); done.
  - rewrite L1, L2. eapply same_logs_wf, Hwf; apply evalLog_same.
  - intros -> Hh. unfold inFlightSum. rewrite L1, L2. unfold view, viewFor, survivingOurs, survivingTheirs.
    cbn [ourUpdates theirUpdates viewBelow].
    assert (mutateState mode = true) as Hm by done. assert (nextHeight mode <> 0) as Hn by done.
    split; f_equal; apply (inFlight_after mode Hm Hn); try done;
      (apply asset_heights || apply btc_heights || by apply logs_wf_sym).
Qed.

(** Conservation.  Whenever [computeView] succeeds on well-formed logs whose
    committed entries lie below the indexes of the view, the two balances it
    returns and the HTLCs of the view it returns add up to the balances it
    started from (those of the tip, the fee given back) and the HTLCs in flight
    on that chain: in asset units always, in milli-satoshis for bitcoin channels
    (in asset channels the bitcoin balances are set from the capacity).  If
    heights are written, then afterwards exactly the HTLCs of the returned view
    are in flight, and the logs are still well-formed.  The sums are modulo
    2^64, the width of the balances. *)
Theorem computeView_conserves lc tip ourIdx theirIdx rc mutate bal w view' lc' :
  logs_wf (localUpdateLog lc) (remoteUpdateLog lc) ->
  committedBelow rc (localUpdateLog lc) ourIdx -> committedBelow rc (remoteUpdateLog lc) theirIdx ->
  tipOf rc lc = Ok tip ->
  computeView (fetchHTLCView lc theirIdx ourIdx) rc mutate lc = (Ok (bal, w, view'), lc') ->
  let inFlightSum amt c := sumOf amt (inFlightOf rc (localUpdateLog c) (remoteUpdateLog c)) +
                           sumOf amt (inFlightOf rc (remoteUpdateLog c) (localUpdateLog c)) in
  let viewSum amt := sumOf amt (ourUpdates view') + sumOf amt (theirUpdates view') in
  eqm (totalAsset bal + viewSum AssetAmount)
      (totalAsset (tipBalances (cfg lc) tip) + inFlightSum AssetAmount lc) /\
  (ChanAssetID (cfg lc) = BtcAssetId ->
   eqm (totalBtc bal + viewSum BtcAmount)
       (totalBtc (tipBalances (cfg lc) tip) + inFlightSum BtcAmount lc)) /\
  logs_wf (localUpdateLog lc') (remoteUpdateLog lc') /\
  (mutate = true -> u64 (Commitment.height tip + 1) <> 0 ->
   inFlightSum AssetAmount lc' = viewSum AssetAmount /\ inFlightSum BtcAmount lc' = viewSum BtcAmount).
Proof. apply computeView_total. Qed.

End compute.

(** The channel with an HTLC of 5,000 satoshis added by us. *)
Definition pending_channel : @LightningChannel btcec_model chan_model :=
  set_logs btc_channel (appendHtlc (newUpdateLog 0 0) example_htlc) (newUpdateLog 0 0).

Lemma pending_logs_wf : logs_wf (localUpdateLog pending_channel) (remoteUpdateLog pending_channel).
Proof. apply add_logs_wf; try done. by apply new_logs_wf. Qed.

Lemma computeView_conserves_witness :
  exists bal w view' lc',
    computeView (fetchHTLCView pending_channel 0 1) true true pending_channel =
      (Ok (bal, w, view'), lc') /\
    ourBtc bal = 60000000 /\ theirBtc bal = 35000000 /\
    eqm (totalBtc bal + 5000000) 100000000 /\
    sumOf BtcAmount (inFlightOf true (localUpdateLog lc') (remoteUpdateLog lc')) +
    sumOf BtcAmount (inFlightOf true (remoteUpdateLog lc') (localUpdateLog lc')) = 5000000.
Proof.
  pose (run := computeView (fetchHTLCView pending_channel 0 1) true true pending_channel).
  assert (match run.1 with
    | Ok (bal, w, view') =>
        sumOf BtcAmount (ourUpdates view') + sumOf BtcAmount (theirUpdates view') = 5000000 /\
        ourBtc bal = 60000000 /\ theirBtc bal = 35000000
    | _ => False
    end) as Hrun by (vm_compute; auto).
  destruct run as [[[[bal w] view']|e|] lc'] eqn:E; [|destruct Hrun..].
  destruct Hrun as (Hv & Ho & Ht). exists bal, w, view', lc'.
  split; [exact E|]. split; [exact Ho|]. split; [exact Ht|].
  destruct (computeView_conserves pending_channel (first_commitment false 64817000 35000000 183 0 0)
    1 0 true true bal w view' lc' pending_logs_wf) as (_ & Hb & _ & Hf).
  - intros e' pd Hin Hh. cbn in Hin. apply list_elem_of_singleton in Hin. injection Hin as -> ->.
    cbn in *. lia.
  - intros e' pd Hin. cbn in Hin. by apply elem_of_nil in Hin.
  - reflexivity.
  - exact E.
  - specialize (Hb eq_refl). rewrite Hv in Hb. split; [exact Hb|].
    rewrite <- Hv. apply Hf; [reflexivity|vm_compute; discriminate].
Defined.

(** * lnwallet: who gets what

    The reference for the evaluation of a view: a party's balance grows by the
    HTLCs of the peer it settles and by its own HTLCs that fail, and shrinks by
    the HTLCs it adds, each at the moment the update enters the chain. *)

(** ** The ledger *)

(** Updates that are not on the chain yet. *)
Definition settledNow (rc : bool) (pd : PaymentDescriptor) : bool :=
  bool_decide (EntryType pd = Settle) && bool_decide (removeHeight rc pd = 0).

Definition failedNow (rc : bool) (pd : PaymentDescriptor) : bool :=
  (bool_decide (EntryType pd = Fail) || bool_decide (EntryType pd = MalformedFail)) &&
  bool_decide (removeHeight rc pd = 0).

Definition addedNow (rc : bool) (pd : PaymentDescriptor) : bool := bool_decide (addHeight rc pd = 0).

Definition sumWhen (amt : PaymentDescriptor -> Z) (P : PaymentDescriptor -> bool) (l : list view_entry) : Z :=
  foldr (fun pd acc => (if P pd then amt pd else 0) + acc) 0 l.*2.

(** The balance of one party: [mine] are the updates of its log, [others] those
    of the log across, [live] its HTLCs that nothing has removed. *)
Definition ledger (amt : PaymentDescriptor -> Z) (rc : bool) (mine others live : list view_entry)
    (balance : Z) : Z :=
  balance + sumWhen amt (settledNow rc) mine + sumWhen amt (failedNow rc) others -
  sumWhen amt (addedNow rc) live.

(** ** One balance at a time *)

Section side.
(** A balance, the amount it counts, and whether it is ours. *)
Context (bal : balances -> Z) (amt : PaymentDescriptor -> Z) (side : bool).

Hypothesis bal_remove : forall rc ours b pd, is_removal pd = true ->
  eqm (bal (processRemoveEntry pd b 0 rc ours false).2)
      (bal b + if (if eqb ours side then settledNow rc pd else failedNow rc pd) then amt pd else 0).

Hypothesis bal_add : forall rc inc b pd,
  eqm (bal (processAddEntry pd b 0 rc inc false).2)
      (bal b - if eqb (negb inc) side && addedNow rc pd then amt pd else 0).

Lemma fold_remove rc ours l b :
  eqm (bal (foldl (stepRemove rc ours) b l.*2))
      (bal b + sumWhen amt (if eqb ours side then settledNow rc else failedNow rc) l).
Proof.
  unfold sumWhen. rewrite (foldl_eqm bal _
    (fun pd => if (if eqb ours side then settledNow rc pd else failedNow rc pd) then amt pd else 0)).
  - by destruct (eqb ours side).
  - intros b0 pd. unfold stepRemove. destruct (is_removal pd) eqn:Hr; [by apply bal_remove|].
    assert (settledNow rc pd = false /\ failedNow rc pd = false) as [E1 E2].
    { unfold settledNow, failedNow, is_removal in *. by destruct (EntryType pd). }
    rewrite E1, E2. exists 0. destruct (eqb ours side); lia.
Qed.

Lemma fold_add rc ours l b :
  eqm (bal (foldl (stepAdd rc ours) b l.*2))
      (bal b - if eqb ours side then sumWhen amt (addedNow rc) l else 0).
Proof.
  unfold sumWhen. rewrite (foldl_eqm bal _
    (fun pd => - if eqb ours side && addedNow rc pd then amt pd else 0)).
  - exists 0. rewrite Z.mul_0_l, Z.add_0_r. unfold Z.sub. f_equal.
    destruct (eqb ours side); cbn; induction l.*2 as [|pd k IH]; cbn [foldr] in *; lia.
  - intros b0 pd. unfold stepAdd. rewrite (bal_add rc (negb ours) b0 pd), negb_involutive. done.
Qed.

Lemma evalBal_side rc v b :
  eqm (bal (evalBal rc v b))
      (if side then ledger amt rc (ourUpdates v) (theirUpdates v) (survivingOurs v) (bal b)
       else ledger amt rc (theirUpdates v) (ourUpdates v) (survivingTheirs v) (bal b)).
Proof.
  unfold evalBal, ledger. cbv zeta.
  rewrite fold_add. destruct (fold_add rc true (survivingOurs v) (foldl (stepRemove rc false)
    (foldl (stepRemove rc true) b (ourUpdates v).*2) (theirUpdates v).*2)) as [k1 ->].
  destruct (fold_remove rc false (theirUpdates v) (foldl (stepRemove rc true) b (ourUpdates v).*2)) as [k2 ->].
  destruct (fold_remove rc true (ourUpdates v) b) as [k3 ->].
  exists (k1 + k2 + k3). destruct side; cbn [eqb]; lia.
Qed.

End side.

Ltac side_tac lem :=
  unfold processRemoveEntry, processAddEntry, settledNow, failedNow, addedNow, is_removal;
  intros; case_bool_decide as Hh;
  [rewrite ?(bool_decide_eq_false_2 (_ = 0)) by done; exists 0;
   repeat (case_bool_decide || match goal with b : bool |- _ => destruct b end); cbn; lia|
   rewrite ?(bool_decide_eq_true_2 (_ = 0)) by lia];
  match goal with pd : PaymentDescriptor |- _ => destruct (EntryType pd) end; try done;
  repeat match goal with b : bool |- _ => destruct b end; repeat (case_bool_decide; try done); cbn;
  (exists 0; lia) || (match goal with |- eqm (?f ?x) _ => destruct (lem x) as [k ->]; exists k; lia end).

Lemma ourBtc_remove rc ours b pd : is_removal pd = true ->
  eqm (ourBtc (processRemoveEntry pd b 0 rc ours false).2)
      (ourBtc b + if (if eqb ours true then settledNow rc pd else failedNow rc pd) then BtcAmount pd else 0).
Proof. side_tac u64_eqm. Qed.

Lemma theirBtc_remove rc ours b pd : is_removal pd = true ->
  eqm (theirBtc (processRemoveEntry pd b 0 rc ours false).2)
      (theirBtc b + if (if eqb ours false then settledNow rc pd else failedNow rc pd) then BtcAmount pd else 0).
Proof. side_tac u64_eqm. Qed.

Lemma ourAsset_remove rc ours b pd : is_removal pd = true ->
  eqm (ourAsset (processRemoveEntry pd b 0 rc ours false).2)
      (ourAsset b + if (if eqb ours true then settledNow rc pd else failedNow rc pd) then AssetAmount pd else 0).
Proof. side_tac i64_eqm. Qed.

Lemma theirAsset_remove rc ours b pd : is_removal pd = true ->
  eqm (theirAsset (processRemoveEntry pd b 0 rc ours false).2)
      (theirAsset b + if (if eqb ours false then settledNow rc pd else failedNow rc pd) then AssetAmount pd else 0).
Proof. side_tac i64_eqm. Qed.

Lemma ourBtc_add rc inc b pd :
  eqm (ourBtc (processAddEntry pd b 0 rc inc false).2)
      (ourBtc b - if eqb (negb inc) true && addedNow rc pd then BtcAmount pd else 0).
Proof. side_tac u64_eqm. Qed.

Lemma theirBtc_add rc inc b pd :
  eqm (theirBtc (processAddEntry pd b 0 rc inc false).2)
      (theirBtc b - if eqb (negb inc) false && addedNow rc pd then BtcAmount pd else 0).
Proof. side_tac u64_eqm. Qed.

Lemma ourAsset_add rc inc b pd :
  eqm (ourAsset (processAddEntry pd b 0 rc inc false).2)
      (ourAsset b - if eqb (negb inc) true && addedNow rc pd then AssetAmount pd else 0).
Proof. side_tac i64_eqm. Qed.

Lemma theirAsset_add rc inc b pd :
  eqm (theirAsset (processAddEntry pd b 0 rc inc false).2)
      (theirAsset b - if eqb (negb inc) false && addedNow rc pd then AssetAmount pd else 0).
Proof. side_tac i64_eqm. Qed.

(** ** Theorem *)

(** C23: The ledger.  [computeView] implements the reference: from the balances of
    the tip (the fee given back to whoever opened the channel), each party gains
    the amounts of the HTLCs it settles and of its own HTLCs that fail and loses
    those of the HTLCs it adds, counting exactly the updates that are new on the
    chain; in milli-satoshis for bitcoin channels, in asset units always. *)
Theorem computeView_ledger {BT : Btcec} {E : ChanEnv} lc tip ourIdx theirIdx rc mutate bal w view' lc' :
  logs_wf (localUpdateLog lc) (remoteUpdateLog lc) -> tipOf rc lc = Ok tip ->
  computeView (fetchHTLCView lc theirIdx ourIdx) rc mutate lc = (Ok (bal, w, view'), lc') ->
  let v := fetchHTLCView lc theirIdx ourIdx in
  let init := tipBalances (cfg lc) tip in
  eqm (ourAsset bal)
      (ledger AssetAmount rc (ourUpdates v) (theirUpdates v) (survivingOurs v) (ourAsset init)) /\
  eqm (theirAsset bal)
      (ledger AssetAmount rc (theirUpdates v) (ourUpdates v) (survivingTheirs v) (theirAsset init)) /\
  (ChanAssetID (cfg lc) = BtcAssetId ->
   eqm (ourBtc bal)
       (ledger BtcAmount rc (ourUpdates v) (theirUpdates v) (survivingOurs v) (ourBtc init)) /\
   eqm (theirBtc bal)
       (ledger BtcAmount rc (theirUpdates v) (ourUpdates v) (survivingTheirs v) (theirBtc init))).
Proof.
  intros (W1 & W2 & _) Htip Hrun v init.
  apply computeView_run in Hrun as (tip' & Htip' & _ & _ & _ & _ & -> & _); [|done..].
  rewrite Htip in Htip'. injection Htip' as <-.
  set (view := viewFor lc ourIdx theirIdx tip). set (b := evalBal rc view _).
  assert (ourAsset (assetBalances (cfg lc) (length (survivingTheirs view)) b) = ourAsset b /\
    theirAsset (assetBalances (cfg lc) (length (survivingTheirs view)) b) = theirAsset b) as [-> ->]
    by (unfold assetBalances; by case_bool_decide).
  split; [exact (evalBal_side ourAsset AssetAmount true ourAsset_remove ourAsset_add rc view init)|].
  split; [exact (evalBal_side theirAsset AssetAmount false theirAsset_remove theirAsset_add rc view init)|].
  intros Hbtc. unfold assetBalances. rewrite bool_decide_eq_false_2 by (by rewrite Hbtc).
  split; [exact (evalBal_side ourBtc BtcAmount true ourBtc_remove ourBtc_add rc view init)|].
  exact (evalBal_side theirBtc BtcAmount false theirBtc_remove theirBtc_add rc view init).
Qed.

(** We added 5,000 satoshis that are not on the peer's chain yet. *)
Lemma computeView_ledger_witness :
  exists bal w view' lc',
    computeView (fetchHTLCView pending_channel 0 1) true false pending_channel =
      (Ok (bal, w, view'), lc') /\
    eqm (ourBtc bal) (65000000 + 0 + 0 - (5000000 + 0)) /\ eqm (theirBtc bal) (35000000 + 0 + 0 - 0).
Proof.
  assert (match (computeView (fetchHTLCView pending_channel 0 1) true false pending_channel).1 with
    | Ok _ => True | _ => False end) as Hok by (vm_compute; exact I).
  destruct (computeView (fetchHTLCView pending_channel 0 1) true false pending_channel)
    as [[[[bal w] view']|e|] lc'] eqn:E; [|destruct Hok..].
  exists bal, w, view', lc'. split; [reflexivity|].
  destruct (computeView_ledger pending_channel (first_commitment false 64817000 35000000 183 0 0)
    1 0 true false bal w view' lc' pending_logs_wf eq_refl E) as (_ & _ & H).
  exact (H eq_refl).
Defined.
