(* ===== verification/ChannelOps.v ===== *)
(** * lnwallet: the operations of a channel

    Models the update operations of lnwallet/channel.go ([AddHTLC],
    [ReceiveHTLC], settling and failing, fee updates), the commitment protocol
    ([SignNextCommitment], [ReceiveNewCommitment], [RevokeCurrentCommitment],
    [ReceiveRevocation]) and the queries, together with what the database methods
    of channeldb/channel.go that they call change.  Each operation holds the
    channel's lock for its whole duration and is one step here.  [dbOk] says
    whether the database transaction of an operation commits. *)

From Stdlib Require Import ZArith Lia.
From S2P Require Import Prelude Wire WireMessages Amounts OpReturn UpdateLog CommitTx ChannelState ChannelView.

Local Open Scope Z_scope.
Local Open Scope go_scope.

(** ** Descriptors of the updates *)

(** [SetAmtFromMsgHtlc]: the asset, the asset amount and the amount in
    milli-satoshis; an asset HTLC carries enough for its three outputs. *)
Definition SetAmtFromMsgHtlc (htlc : UpdateAddHTLC.t) (pd : PaymentDescriptor) : PaymentDescriptor :=
  let btc := bool_decide (UpdateAddHTLC.AssetID htlc = BtcAssetId) in
  {| RHash := RHash pd; RPreimage := RPreimage pd; Timeout := Timeout pd;
     BtcAmount := if btc then UpdateAddHTLC.Amount htlc else NewMSatFromSatoshis (OmniGas * 3);
     AssetAmount := if btc then AssetAmount pd else i64 (UpdateAddHTLC.Amount htlc);
     UpdateLog.AssetID := UpdateAddHTLC.AssetID htlc;
     LogIndex := LogIndex pd; HtlcIndex := HtlcIndex pd; ParentIndex := ParentIndex pd;
     SourceRef := SourceRef pd; DestRef := DestRef pd; OpenCircuitKey := OpenCircuitKey pd;
     ClosedCircuitKey := ClosedCircuitKey pd; OnionBlob := OnionBlob pd;
     ShaOnionBlob := ShaOnionBlob pd; FailReason := FailReason pd; FailCode := FailCode pd;
     EntryType := EntryType pd; heights := heights pd; output := output pd;
     isForwarded := isForwarded pd |}.

(** The descriptor of an add at the end of a log. *)
Definition addDescriptor (u : updateLog) (htlc : UpdateAddHTLC.t) (openKey : option CircuitKey) :
    PaymentDescriptor :=
  SetAmtFromMsgHtlc htlc
    {| RHash := UpdateAddHTLC.PaymentHash htlc; RPreimage := replicate 32 x00;
       Timeout := UpdateAddHTLC.Expiry htlc; BtcAmount := 0; AssetAmount := 0;
       UpdateLog.AssetID := UpdateAddHTLC.AssetID htlc;
       LogIndex := logIndex u; HtlcIndex := htlcCounter u; ParentIndex := 0;
       SourceRef := None; DestRef := None; OpenCircuitKey := openKey; ClosedCircuitKey := None;
       OnionBlob := UpdateAddHTLC.OnionBlob htlc; ShaOnionBlob := replicate 32 x00;
       FailReason := []; FailCode := 0; EntryType := Add; heights := noHeights;
       output := noOutput; isForwarded := false |}.

(** The descriptor of a removal at the end of a log, for the HTLC it consumes. *)
Definition removalDescriptor (u : updateLog) (htlc : PaymentDescriptor) (t : updateType)
    (parent : Z) (rhash preimage reason shaOnion : list byte) (failCode : Z)
    (sourceRef : option AddRef) (destRef : option SettleFailRef) (closeKey : option CircuitKey) :
    PaymentDescriptor :=
  {| RHash := rhash; RPreimage := preimage; Timeout := 0;
     BtcAmount := BtcAmount htlc; AssetAmount := AssetAmount htlc;
     UpdateLog.AssetID := UpdateLog.AssetID htlc;
     LogIndex := logIndex u; HtlcIndex := 0; ParentIndex := parent;
     SourceRef := sourceRef; DestRef := destRef; OpenCircuitKey := None; ClosedCircuitKey := closeKey;
     OnionBlob := []; ShaOnionBlob := shaOnion; FailReason := reason; FailCode := failCode;
     EntryType := t; heights := noHeights; output := noOutput; isForwarded := false |}.

Definition feeDescriptor (u : updateLog) (assetID feePerKw : Z) : PaymentDescriptor :=
  {| RHash := replicate 32 x00; RPreimage := replicate 32 x00; Timeout := 0;
     BtcAmount := NewMSatFromSatoshis feePerKw; AssetAmount := 0; UpdateLog.AssetID := assetID;
     LogIndex := logIndex u; HtlcIndex := 0; ParentIndex := 0;
     SourceRef := None; DestRef := None; OpenCircuitKey := None; ClosedCircuitKey := None;
     OnionBlob := []; ShaOnionBlob := replicate 32 x00; FailReason := []; FailCode := 0;
     EntryType := FeeUpdate; heights := noHeights; output := noOutput; isForwarded := false |}.

Definition zero32 : list byte := replicate 32 x00.

Section ops.
Context {BT : Btcec} {E : ChanEnv}.

(** ** Adding HTLCs *)

Definition htlcAddDescriptor (lc : LightningChannel) (htlc : UpdateAddHTLC.t)
    (openKey : option CircuitKey) : PaymentDescriptor :=
  addDescriptor (localUpdateLog lc) htlc openKey.

Definition validateAddHtlc (pd : PaymentDescriptor) : M unit :=
  if bool_decide (UpdateLog.AssetID pd > BtcAssetId) then cret tt
  else if bool_decide (AssetAmount pd > 0) && bool_decide (UpdateLog.AssetID pd = BtcAssetId)
  then cfail ErrMissingAssetID
  else
    lc <== cget ;
    tail <== clift (tailOf false lc) ;
    _ <== validateCommitmentSanity (Commitment.theirMessageIndex tail) (logIndex (localUpdateLog lc))
            true (Some pd) None ;
    validateCommitmentSanity (logIndex (remoteUpdateLog lc)) (logIndex (localUpdateLog lc))
      false (Some pd) None.

Definition AddHTLC (htlc : UpdateAddHTLC.t) (openKey : option CircuitKey) : M Z :=
  lc <== cget ;
  let pd := htlcAddDescriptor lc htlc openKey in
  _ <== validateAddHtlc pd ;
  _ <== cput (fun lc => set_logs lc (appendHtlc (localUpdateLog lc) pd) (remoteUpdateLog lc)) ;
  cret (HtlcIndex pd).

Definition ReceiveHTLC (htlc : UpdateAddHTLC.t) : M Z :=
  lc <== cget ;
  if bool_decide (UpdateAddHTLC.ID htlc <> htlcCounter (remoteUpdateLog lc)) then cfail ErrHtlcIDMismatch
  else
    let pd := addDescriptor (remoteUpdateLog lc) htlc None in
    tail <== clift (tailOf true lc) ;
    _ <== validateCommitmentSanity (logIndex (remoteUpdateLog lc)) (Commitment.ourMessageIndex tail)
            false None (Some pd) ;
    _ <== cput (fun lc => set_logs lc (localUpdateLog lc) (appendHtlc (remoteUpdateLog lc) pd)) ;
    cret (HtlcIndex pd).

(** A "mock" HTLC of the smallest amount tests for a free slot. *)
Definition MayAddOutgoingHtlc (amt : Z) : M unit :=
  lc <== cget ;
  let minHTLC := MinHTLC (LocalChanCfg (cfg lc)) in
  let mockHtlcAmt :=
    if bool_decide (amt <> 0) then amt
    else if bool_decide (minHTLC <> 0) then minHTLC
    else 1 in
  validateAddHtlc (htlcAddDescriptor lc
    {| UpdateAddHTLC.ChanID := zero32; UpdateAddHTLC.ID := 0;
       UpdateAddHTLC.AssetID := ChanAssetID (cfg lc); UpdateAddHTLC.Amount := mockHtlcAmt;
       UpdateAddHTLC.PaymentHash := zero32; UpdateAddHTLC.Expiry := 0;
       UpdateAddHTLC.OnionBlob := replicate 1366 x00; UpdateAddHTLC.ExtraData := [] |}
    (Some (mkCircuitKey (mkShortChannelID 0 0 0) 0))).

(** ** Settling and failing *)

(** The checks all five operations start with: the HTLC exists in the log across
    and nothing has consumed it yet. *)
Definition findHtlc (u : updateLog) (htlcIndex : Z) (already : Z -> chan_err) :
    outcome chan_err PaymentDescriptor :=
  match lookupHtlc u htlcIndex with
  | None => Err (ErrUnknownHtlcIndex htlcIndex)
  | Some htlc => if htlcHasModification u htlcIndex then Err (already htlcIndex) else Ok htlc
  end.

(** The removal goes into our log and the HTLC of theirs is marked, or the other
    way round. *)
Definition appendRemoval (ours : bool) (pd : PaymentDescriptor) (htlcIndex : Z) : M unit :=
  cput (fun lc =>
    if ours
    then set_logs lc (appendUpdate (localUpdateLog lc) pd)
           (markHtlcModified (remoteUpdateLog lc) htlcIndex)
    else set_logs lc (markHtlcModified (localUpdateLog lc) htlcIndex)
           (appendUpdate (remoteUpdateLog lc) pd)).

Definition SettleHTLC (preimage : list byte) (htlcIndex : Z) (sourceRef : option AddRef)
    (destRef : option SettleFailRef) (closeKey : option CircuitKey) : M unit :=
  lc <== cget ;
  htlc <== clift (findHtlc (remoteUpdateLog lc) htlcIndex ErrHtlcIndexAlreadySettled) ;
  if bool_decide (RHash htlc <> sha256 preimage) then cfail ErrInvalidSettlePreimage
  else appendRemoval true
    (removalDescriptor (localUpdateLog lc) htlc Settle htlcIndex zero32 preimage [] zero32 0
       sourceRef destRef closeKey) htlcIndex.

Definition ReceiveHTLCSettle (preimage : list byte) (htlcIndex : Z) : M unit :=
  lc <== cget ;
  htlc <== clift (findHtlc (localUpdateLog lc) htlcIndex ErrHtlcIndexAlreadySettled) ;
  if bool_decide (RHash htlc <> sha256 preimage) then cfail ErrInvalidSettlePreimage
  else appendRemoval false
    (removalDescriptor (remoteUpdateLog lc) htlc Settle (HtlcIndex htlc) (RHash htlc) preimage
       [] zero32 0 None None None) htlcIndex.

Definition FailHTLC (htlcIndex : Z) (reason : list byte) (sourceRef : option AddRef)
    (destRef : option SettleFailRef) (closeKey : option CircuitKey) : M unit :=
  lc <== cget ;
  htlc <== clift (findHtlc (remoteUpdateLog lc) htlcIndex ErrHtlcIndexAlreadyFailed) ;
  appendRemoval true
    (removalDescriptor (localUpdateLog lc) htlc Fail htlcIndex (RHash htlc) zero32 reason zero32 0
       sourceRef destRef closeKey) htlcIndex.

Definition MalformedFailHTLC (htlcIndex failCode : Z) (shaOnionBlob : list byte)
    (sourceRef : option AddRef) : M unit :=
  lc <== cget ;
  htlc <== clift (findHtlc (remoteUpdateLog lc) htlcIndex ErrHtlcIndexAlreadyFailed) ;
  appendRemoval true
    (removalDescriptor (localUpdateLog lc) htlc MalformedFail htlcIndex (RHash htlc) zero32 []
       shaOnionBlob failCode sourceRef None None) htlcIndex.

Definition ReceiveFailHTLC (htlcIndex : Z) (reason : list byte) : M unit :=
  lc <== cget ;
  htlc <== clift (findHtlc (localUpdateLog lc) htlcIndex ErrHtlcIndexAlreadyFailed) ;
  appendRemoval false
    (removalDescriptor (remoteUpdateLog lc) htlc Fail (HtlcIndex htlc) (RHash htlc) zero32 reason
       zero32 0 None None None) htlcIndex.

(** ** Fee updates *)

Definition validateFeeRate (lc : LightningChannel) (feePerKw : Z) : outcome chan_err unit :=
  if bool_decide (ChanAssetID (cfg lc) > BtcAssetId) then Ok tt
  else
    '(availableBalanceBtc, txWeight) <~ availableBalance lc ;
    tip <~ tipOf false lc ;
    let oldFee := NewMSatFromSatoshis (SatPerKWeight.FeeForWeight (Commitment.feePerKw tip) txWeight) in
    let baseBalance := u64 (availableBalanceBtc + oldFee) in
    let newFee := NewMSatFromSatoshis (SatPerKWeight.FeeForWeight feePerKw txWeight) in
    if bool_decide (newFee > baseBalance) then Err ErrFeeTooHigh else Ok tt.

Definition UpdateFee (feePerKw : Z) : M unit :=
  lc <== cget ;
  if negb (IsInitiator (cfg lc)) then cfail ErrNotInitiator
  else
    _ <== clift (validateFeeRate lc feePerKw) ;
    cput (fun lc => set_logs lc
      (appendUpdate (localUpdateLog lc)
         (feeDescriptor (localUpdateLog lc) (ChanAssetID (cfg lc)) feePerKw))
      (remoteUpdateLog lc)).

Definition ReceiveUpdateFee (feePerKw : Z) : M unit :=
  lc <== cget ;
  if IsInitiator (cfg lc) then cfail ErrInitiator
  else
    cput (fun lc => set_logs lc (localUpdateLog lc)
      (appendUpdate (remoteUpdateLog lc)
         (feeDescriptor (remoteUpdateLog lc) (ChanAssetID (cfg lc)) feePerKw))).

(** ** Queries *)

(** The sum of the dust HTLCs of a log on a commitment. *)
Definition dustOf (c : ChanCfg) (incoming remote : bool) (feeRate dustLimit : Z) (u : updateLog)
    (sum : Z) : Z :=
  fold_left (fun sum x =>
    if bool_decide (EntryType x.2 = Add) &&
       HtlcIsDust (ChanType c) incoming (negb remote) feeRate (ToSatoshis (BtcAmount x.2)) dustLimit
         (UpdateLog.AssetID x.2)
    then u64 (sum + BtcAmount x.2) else sum) (entries u) sum.

Definition GetDustSum (lc : LightningChannel) (remote : bool) : Z :=
  let c := cfg lc in
  let dustLimit := if remote then DustLimit (RemoteChanCfg c) else DustLimit (LocalChanCfg c) in
  let feeRate := if remote then ChannelState.FeePerKw (RemoteCommitment lc)
                 else ChannelState.FeePerKw (LocalCommitment lc) in
  dustOf c true remote feeRate dustLimit (remoteUpdateLog lc)
    (dustOf c false remote feeRate dustLimit (localUpdateLog lc) 0).

Definition oweCommitment (lc : LightningChannel) (local : bool) : outcome chan_err bool :=
  lastLocalCommit <~ tipOf false lc ;
  lastRemoteCommit <~ tipOf true lc ;
  if local then
    Ok (bool_decide (logIndex (localUpdateLog lc) <> Commitment.ourMessageIndex lastRemoteCommit) ||
        bool_decide (Commitment.theirMessageIndex lastLocalCommit <>
                     Commitment.theirMessageIndex lastRemoteCommit))
  else
    Ok (bool_decide (logIndex (remoteUpdateLog lc) <> Commitment.theirMessageIndex lastLocalCommit) ||
        bool_decide (Commitment.ourMessageIndex lastRemoteCommit <>
                     Commitment.ourMessageIndex lastLocalCommit)).

Definition PendingLocalUpdateCount (lc : LightningChannel) : outcome chan_err Z :=
  lastRemoteCommit <~ tipOf true lc ;
  Ok (u64 (logIndex (localUpdateLog lc) - Commitment.ourMessageIndex lastRemoteCommit)).

(** [OpenChannel.ActiveHtlcs]: the HTLCs of our commitment whose onion is also on
    theirs. *)
Definition ActiveHtlcs (lc : LightningChannel) : list HTLC :=
  filter (fun h => sha256 (HTLC_OnionBlob h) ∈
                   ((fun h => sha256 (HTLC_OnionBlob h)) <$> Htlcs (RemoteCommitment lc)))
    (Htlcs (LocalCommitment lc)).

Definition IsChannelClean (lc : LightningChannel) : outcome chan_err bool :=
  if CommitmentChain.hasUnackedCommitment (localCommitChain lc) then Ok false
  else if CommitmentChain.hasUnackedCommitment (remoteCommitChain lc) then Ok false
  else if bool_decide (ActiveHtlcs lc <> []) then Ok false
  else
    oweLocal <~ oweCommitment lc true ;
    if (oweLocal : bool) then Ok false
    else
      oweRemote <~ oweCommitment lc false ;
      if (oweRemote : bool) then Ok false else Ok true.

Definition NextLocalHtlcIndex (lc : LightningChannel) : Z :=
  match db_commitDiff (bucket lc) with
  | Some diff => LocalHtlcIndex (Diff_Commitment diff)
  | None => LocalHtlcIndex (RemoteCommitment lc)
  end.

(** ** The database methods *)

(** The guards in front of every write: restored channels are read-only, a
    transaction may fail, and a borked channel refuses updates. *)
Definition dbGuard (dbOk : bool) : M unit :=
  lc <== cget ;
  if isRestored lc then cfail ErrNoRestoredChannelMutation
  else if db_borked (bucket lc) then cfail ErrChanBorked
  else if negb dbOk then cfail ErrDB
  else cret tt.

Definition UpdateCommitment (dbOk : bool) (newCommitment : ChannelCommitment)
    (unsignedAckedUpdates : list LogUpdate) : M unit :=
  _ <== dbGuard dbOk ;
  cput (fun lc =>
    let b := bucket lc in
    set_db lc newCommitment (RemoteCommitment lc)
      {| db_localCommitment := newCommitment; db_remoteCommitment := db_remoteCommitment b;
         db_commitDiff := db_commitDiff b;
         db_unsignedAckedUpdates := Some unsignedAckedUpdates;
         db_remoteUnsignedLocalUpdates :=
           filter (fun upd => LogUpdate_LogIndex upd >= LocalLogIndex newCommitment) <$>
             db_remoteUnsignedLocalUpdates b;
         db_lastWasRevoke := true; db_revocationLog := db_revocationLog b;
         db_fwdPkgs := db_fwdPkgs b; db_totals := totals lc; db_revocation := db_revocation b;
         db_borked := db_borked b |}).

(** The forwarding packages' acknowledgement bits are not part of the bucket. *)
Definition AppendRemoteCommitChain (dbOk : bool) (diff : CommitDiff) : M unit :=
  _ <== dbGuard dbOk ;
  cput (fun lc =>
    let b := bucket lc in
    set_db lc (LocalCommitment lc) (RemoteCommitment lc)
      {| db_localCommitment := db_localCommitment b; db_remoteCommitment := db_remoteCommitment b;
         db_commitDiff := Some diff;
         db_unsignedAckedUpdates := db_unsignedAckedUpdates b;
         db_remoteUnsignedLocalUpdates := db_remoteUnsignedLocalUpdates b;
         db_lastWasRevoke := false; db_revocationLog := db_revocationLog b;
         db_fwdPkgs := db_fwdPkgs b; db_totals := db_totals b; db_revocation := db_revocation b;
         db_borked := db_borked b |}).

(** The pending commitment becomes the remote commitment, and the one it replaces
    goes to the revocation log.  When no unsigned updates were ever stored, the
    method returns before it stores the local ones. *)
Definition AdvanceCommitChainTail (dbOk : bool) (fwdPkg : FwdPkg) (updates : list LogUpdate) : M unit :=
  _ <== dbGuard dbOk ;
  lc <== cget ;
  match db_commitDiff (bucket lc) with
  | None => cfail ErrNoPendingCommit
  | Some newCommit =>
      cput (fun lc =>
        let b := bucket lc in
        set_db lc (LocalCommitment lc) (Diff_Commitment newCommit)
          {| db_localCommitment := db_localCommitment b;
             db_remoteCommitment := Diff_Commitment newCommit;
             db_commitDiff := None;
             db_unsignedAckedUpdates :=
               filter (fun upd => LogUpdate_LogIndex upd >= RemoteLogIndex (Diff_Commitment newCommit)) <$>
                 db_unsignedAckedUpdates b;
             db_remoteUnsignedLocalUpdates :=
               match db_unsignedAckedUpdates b with
               | None => db_remoteUnsignedLocalUpdates b
               | Some _ => Some updates
               end;
             db_lastWasRevoke := db_lastWasRevoke b;
             db_revocationLog := db_revocationLog b ++ [RemoteCommitment lc];
             db_fwdPkgs := db_fwdPkgs b ++ [fwdPkg]; db_totals := db_totals b;
             db_revocation := revocation lc; db_borked := db_borked b |})
  end.

(** Sets the key in memory first; the write may fail after that. *)
Definition InitNextRevocation (dbOk : bool) (revKey : pubkey) : M unit :=
  _ <== cput (fun lc => set_revocation lc
          (mkRevState (RevocationStore (revocation lc)) (RemoteCurrentRevocation (revocation lc))
             (Some revKey))) ;
  if negb dbOk then cfail ErrDB
  else cput (fun lc =>
    let b := bucket lc in
    set_db lc (LocalCommitment lc) (RemoteCommitment lc)
      {| db_localCommitment := db_localCommitment b; db_remoteCommitment := db_remoteCommitment b;
         db_commitDiff := db_commitDiff b; db_unsignedAckedUpdates := db_unsignedAckedUpdates b;
         db_remoteUnsignedLocalUpdates := db_remoteUnsignedLocalUpdates b;
         db_lastWasRevoke := db_lastWasRevoke b; db_revocationLog := db_revocationLog b;
         db_fwdPkgs := db_fwdPkgs b; db_totals := db_totals b; db_revocation := revocation lc;
         db_borked := db_borked b |}).

(** ** Log updates *)

(** [copy] into an array of [n] bytes. *)
Definition copyInto (n : nat) (src : list byte) : list byte :=
  take n src ++ replicate (n - length src) x00.

Definition toUpdateMsg (chanID : list byte) (pd : PaymentDescriptor) : updateMsg :=
  match EntryType pd with
  | Add => UAdd {| UpdateAddHTLC.ChanID := chanID; UpdateAddHTLC.ID := HtlcIndex pd;
                   UpdateAddHTLC.AssetID := UpdateLog.AssetID pd;
                   UpdateAddHTLC.Amount := GetHtlcAmt pd;
                   UpdateAddHTLC.PaymentHash := RHash pd; UpdateAddHTLC.Expiry := Timeout pd;
                   UpdateAddHTLC.OnionBlob := copyInto 1366 (OnionBlob pd);
                   UpdateAddHTLC.ExtraData := [] |}
  | Settle => UFulfill {| UpdateFulfillHTLC.ChanID := chanID; UpdateFulfillHTLC.ID := ParentIndex pd;
                          UpdateFulfillHTLC.PaymentPreimage := RPreimage pd;
                          UpdateFulfillHTLC.ExtraData := [] |}
  | Fail => UFail {| UpdateFailHTLC.ChanID := chanID; UpdateFailHTLC.ID := ParentIndex pd;
                     UpdateFailHTLC.Reason := FailReason pd; UpdateFailHTLC.ExtraData := [] |}
  | MalformedFail =>
      UMalformed {| UpdateFailMalformedHTLC.ChanID := chanID;
                    UpdateFailMalformedHTLC.ID := ParentIndex pd;
                    UpdateFailMalformedHTLC.ShaOnionBlob := ShaOnionBlob pd;
                    UpdateFailMalformedHTLC.FailureCode := FailCode pd;
                    UpdateFailMalformedHTLC.ExtraData := [] |}
  | FeeUpdate => UFee {| UpdateFee.ChanID := chanID; UpdateFee.AssetID := UpdateLog.AssetID pd;
                         UpdateFee.FeePerKw := u32 (ToSatoshis (BtcAmount pd));
                         UpdateFee.ExtraData := [] |}
  end.

Definition toLogUpdate (chanID : list byte) (pd : PaymentDescriptor) : LogUpdate :=
  mkLogUpdate (LogIndex pd) (toUpdateMsg chanID pd).

Definition chanIDOf (lc : LightningChannel) : list byte :=
  NewChanIDFromOutPoint (FundingOutpoint (cfg lc)).

(** The updates of our log that entered or left the remote chain at the height
    of the new commitment, with the references they carry. *)
Definition createCommitDiff (lc : LightningChannel) (newCommit : commitment) (commitSig : list byte)
    (htlcSigs : list (list byte)) : CommitDiff :=
  let committed := filter (fun pd =>
      addCommitHeightRemote (heights pd) = Commitment.height newCommit \/
      removeCommitHeightRemote (heights pd) = Commitment.height newCommit)
    (entries (localUpdateLog lc)).*2 in
  let adds := filter (fun pd => EntryType pd = Add) committed in
  let others := filter (fun pd => EntryType pd <> Add) committed in
  {| Diff_Commitment := toDiskCommit false newCommit;
     Diff_CommitSig := commitSig; Diff_HtlcSigs := htlcSigs;
     LogUpdates := toLogUpdate (chanIDOf lc) <$> committed;
     OpenedCircuitKeys := omap OpenCircuitKey adds;
     ClosedCircuitKeys := omap ClosedCircuitKey others;
     AddAcks := omap SourceRef others;
     SettleFailAcks := omap DestRef others |}.

Definition getUnsignedAckedUpdates (lc : LightningChannel) : outcome chan_err (list LogUpdate) :=
  remoteTail <~ tailOf true lc ;
  localTail <~ tailOf false lc ;
  Ok (toLogUpdate (chanIDOf lc) <$>
      filter (fun pd => LogIndex pd >= Commitment.theirMessageIndex remoteTail /\
                        LogIndex pd < Commitment.theirMessageIndex localTail)
        (entries (remoteUpdateLog lc)).*2).

Definition unsignedLocalUpdates (lc : LightningChannel) (remoteMessageIndex localMessageIndex : Z) :
    list LogUpdate :=
  toLogUpdate (chanIDOf lc) <$>
    filter (fun pd => EntryType pd <> Add /\ LogIndex pd < remoteMessageIndex /\
                      LogIndex pd >= localMessageIndex)
      (entries (localUpdateLog lc)).*2.

(** ** The commitment protocol *)

Definition SignNextCommitment (dbOk : bool) : M (list byte * list (list byte) * list HTLC) :=
  lc <== cget ;
  match RemoteNextRevocation (revocation lc) with
  | None => cfail ErrNoWindow
  | Some commitPoint =>
      if CommitmentChain.hasUnackedCommitment (remoteCommitChain lc) then cfail ErrNoWindow
      else
        localTail <== clift (tailOf false lc) ;
        let remoteACKedIndex := Commitment.theirMessageIndex localTail in
        let remoteHtlcIndex := Commitment.theirHtlcIndex localTail in
        _ <== validateCommitmentSanity remoteACKedIndex (logIndex (localUpdateLog lc)) true None None ;
        let keys := DeriveCommitmentKeys commitPoint false in
        newCommitView <== fetchCommitmentView true
          (logIndex (localUpdateLog lc)) (htlcCounter (localUpdateLog lc))
          remoteACKedIndex remoteHtlcIndex keys ;
        match SignOutputRaw (Commitment.txn newCommitView), signHtlcs keys newCommitView with
        | Some sig, Some htlcSigs =>
            lc <== cget ;
            let commitDiff := createCommitDiff lc newCommitView sig htlcSigs in
            _ <== AppendRemoteCommitChain dbOk commitDiff ;
            _ <== cput (fun lc => set_chains lc (localCommitChain lc)
                    (CommitmentChain.addCommitment (remoteCommitChain lc) newCommitView)
                    (currentHeight lc)) ;
            cret (sig, htlcSigs, Htlcs (Diff_Commitment commitDiff))
        | _, _ => cfail ErrSign
        end
  end.

Definition ReceiveNewCommitment (commitSig : list byte) (htlcSigs : list (list byte)) : M unit :=
  lc <== cget ;
  remoteTail <== clift (tailOf true lc) ;
  let localACKedIndex := Commitment.ourMessageIndex remoteTail in
  let localHtlcIndex := Commitment.ourHtlcIndex remoteTail in
  _ <== validateCommitmentSanity (logIndex (remoteUpdateLog lc)) localACKedIndex false None None ;
  match AtIndex (u64 (currentHeight lc + 1)) with
  | None => cfail ErrRevocation
  | Some commitSecret =>
      let keys := DeriveCommitmentKeys (ComputeCommitmentPoint commitSecret) true in
      localCommitmentView <== fetchCommitmentView false localACKedIndex localHtlcIndex
        (logIndex (remoteUpdateLog lc)) (htlcCounter (remoteUpdateLog lc)) keys ;
      if negb (checkCommitSig (Commitment.txn localCommitmentView) commitSig &&
               checkHtlcSigs keys localCommitmentView htlcSigs)
      then cfail ErrInvalidCommitSig
      else cput (fun lc => set_chains lc
             (CommitmentChain.addCommitment (localCommitChain lc)
                (Commitment.set_sig localCommitmentView commitSig))
             (remoteCommitChain lc) (currentHeight lc))
  end.

(** The secret of a height, and the commitment point two heights on. *)
Definition generateRevocation (lc : LightningChannel) (height : Z) :
    outcome chan_err (RevokeAndAck.t) :=
  match AtIndex height, AtIndex (u64 (height + 2)) with
  | Some commitSecret, Some nextCommitSecret =>
      Ok {| RevokeAndAck.ChanID := chanIDOf lc; RevokeAndAck.Revocation := copyInto 32 commitSecret;
            RevokeAndAck.NextRevocationKey := Some (ComputeCommitmentPoint nextCommitSecret);
            RevokeAndAck.ExtraData := [] |}
  | _, _ => Err ErrRevocation
  end.

Definition RevokeCurrentCommitment (dbOk : bool) : M (RevokeAndAck.t * list HTLC) :=
  lc <== cget ;
  revocationMsg <== clift (generateRevocation lc (currentHeight lc)) ;
  _ <== clift (tailOf false lc) ;
  chain <== clift (or_panic (CommitmentChain.advanceTail (localCommitChain lc))) ;
  _ <== cput (fun lc => set_chains lc chain (remoteCommitChain lc) (u64 (currentHeight lc + 1))) ;
  lc <== cget ;
  chainTail <== clift (tailOf false lc) ;
  let newCommitment := toDiskCommit true chainTail in
  unsignedAckedUpdates <== clift (getUnsignedAckedUpdates lc) ;
  _ <== UpdateCommitment dbOk newCommitment unsignedAckedUpdates ;
  cret (revocationMsg, Htlcs newCommitment).

(** What a revocation locks in: the loop over the remote log, with the running
    indexes into the forwarding package. *)
Record forwarding := mkForwarding {
  addIndex : Z;
  settleFailIndex : Z;
  addsToForward : list PaymentDescriptor;
  settleFailsToForward : list PaymentDescriptor;
}.

Definition forwardEntry (source : ShortChannelID) (remoteChainTail localChainTail : Z)
    (pd : PaymentDescriptor) (f : forwarding) : PaymentDescriptor * forwarding :=
  let h := heights pd in
  let committedAdd := bool_decide (addCommitHeightRemote h > 0) &&
                      bool_decide (addCommitHeightLocal h > 0) in
  let committedRmv := bool_decide (removeCommitHeightRemote h > 0) &&
                      bool_decide (removeCommitHeightLocal h > 0) in
  let shouldFwdAdd := bool_decide (remoteChainTail = addCommitHeightRemote h) &&
                      bool_decide (localChainTail >= addCommitHeightLocal h) in
  let shouldFwdRmv := bool_decide (remoteChainTail = removeCommitHeightRemote h) &&
                      bool_decide (localChainTail >= removeCommitHeightLocal h) in
  if bool_decide (EntryType pd = FeeUpdate) then (pd, f)
  else if isForwarded pd then (pd, f)
  else if bool_decide (EntryType pd = Add) && committedAdd && shouldFwdAdd then
    let pd := set_forwarded (Some (mkAddRef remoteChainTail (addIndex f))) (DestRef pd) pd in
    (pd, mkForwarding (u16 (addIndex f + 1)) (settleFailIndex f) (addsToForward f ++ [pd])
           (settleFailsToForward f))
  else if bool_decide (EntryType pd <> Add) && committedRmv && shouldFwdRmv then
    let pd := set_forwarded (SourceRef pd)
                (Some (mkSettleFailRef source remoteChainTail (settleFailIndex f))) pd in
    (pd, mkForwarding (addIndex f) (u16 (settleFailIndex f + 1)) (addsToForward f)
           (settleFailsToForward f ++ [pd]))
  else (pd, f).

Fixpoint forwardLoop (source : ShortChannelID) (remoteChainTail localChainTail : Z)
    (l : list (nat * PaymentDescriptor)) (f : forwarding) :
    list (nat * PaymentDescriptor) * forwarding :=
  match l with
  | [] => ([], f)
  | (e, pd) :: l' =>
      let '(pd, f) := forwardEntry source remoteChainTail localChainTail pd f in
      let '(l', f) := forwardLoop source remoteChainTail localChainTail l' f in
      ((e, pd) :: l', f)
  end.

Definition set_entries (u : updateLog) (l : list (nat * PaymentDescriptor)) : updateLog :=
  {| logIndex := logIndex u; htlcCounter := htlcCounter u; entries := l; nextElem := nextElem u;
     updateIndex := updateIndex u; htlcIndex := htlcIndex u; modifiedHtlcs := modifiedHtlcs u |}.

(** Comparing with a nil key dereferences it. *)
Definition ReceiveRevocation (dbOk : bool) (revMsg : RevokeAndAck.t) :
    M (FwdPkg * list PaymentDescriptor * list PaymentDescriptor * list HTLC) :=
  lc <== cget ;
  match AddNextEntry (RevocationStore (revocation lc)) (RevokeAndAck.Revocation revMsg) with
  | None => cfail ErrRevocation
  | Some store =>
      _ <== cput (fun lc => set_revocation lc
              (mkRevState store (RemoteCurrentRevocation (revocation lc))
                 (RemoteNextRevocation (revocation lc)))) ;
      match RemoteCurrentRevocation (revocation lc) with
      | None => clift Panic
      | Some currentCommitPoint =>
          if negb (IsEqual (ComputeCommitmentPoint (RevokeAndAck.Revocation revMsg)) currentCommitPoint)
          then cfail ErrRevocationKeyMismatch
          else
            _ <== cput (fun lc => set_revocation lc
                    (mkRevState store (RemoteNextRevocation (revocation lc))
                       (RevokeAndAck.NextRevocationKey revMsg))) ;
            remoteTail <== clift (tailOf true lc) ;
            localTail <== clift (tailOf false lc) ;
            let remoteChainTail := u64 (Commitment.height remoteTail + 1) in
            let localChainTail := Commitment.height localTail in
            let '(l, f) := forwardLoop (ShortChanID lc) remoteChainTail localChainTail
                             (entries (remoteUpdateLog lc)) (mkForwarding 0 0 [] []) in
            _ <== cput (fun lc => set_logs lc (localUpdateLog lc) (set_entries (remoteUpdateLog lc) l)) ;
            remoteTip <== clift (tipOf true lc) ;
            let localPeerUpdates :=
              unsignedLocalUpdates lc (Commitment.ourMessageIndex remoteTip)
                (Commitment.ourMessageIndex localTail) in
            let fwdPkg := mkFwdPkg (ShortChanID lc) remoteChainTail
              (toLogUpdate (chanIDOf lc) <$> addsToForward f)
              (toLogUpdate (chanIDOf lc) <$> settleFailsToForward f) in
            _ <== AdvanceCommitChainTail dbOk fwdPkg localPeerUpdates ;
            chain <== clift (or_panic (CommitmentChain.advanceTail (remoteCommitChain lc))) ;
            _ <== cput (fun lc => set_chains lc (localCommitChain lc) chain (currentHeight lc)) ;
            lc <== cget ;
            '(local, remote) <==
              clift (or_panic (compactLogs (localUpdateLog lc) (remoteUpdateLog lc)
                                 localChainTail remoteChainTail)) ;
            _ <== cput (fun lc => set_logs lc local remote) ;
            cret (fwdPkg, addsToForward f, settleFailsToForward f, Htlcs (RemoteCommitment lc))
      end
  end.

Definition NextRevocationKey (lc : LightningChannel) : outcome chan_err pubkey :=
  match AtIndex (u64 (currentHeight lc + 1)) with
  | None => Err ErrRevocation
  | Some revocation => Ok (ComputeCommitmentPoint revocation)
  end.

End ops.
