(* ===== verification/ChannelInv.v ===== *)
(** * lnwallet: the invariant of the channel state machine

    The operations of a channel as a transition system, and the invariant of its
    reachable states: well-formed linked logs, consecutive commitment heights,
    monotone message indexes, and the conservation of funds on both chains.

    The transition system whose steps keep the invariant follows. *)

From Stdlib Require Import ZArith Lia Sorted.
From S2P Require Import Prelude Wire WireMessages Amounts OpReturn UpdateLog CommitTx.
From S2P Require Import ChannelState ChannelView ViewLemmas ViewConservation ChannelOps.

Local Open Scope Z_scope.
Local Open Scope go_scope.

(** ** Changes of a log that the chains do not see *)

(** Everything but scripts, references and flags is the same, and a descriptor
    that was forwarded stays so. *)
Definition same_heights (p q : PaymentDescriptor) : Prop :=
  same_static p q /\ heights p = heights q /\ (isForwarded p = true -> isForwarded q = true).

Definition quiet (u v : updateLog) : Prop :=
  same_log u v /\ Forall2 (fun x y => x.1 = y.1 /\ same_heights x.2 y.2) (entries u) (entries v).

#[global] Instance quiet_preorder : PreOrder quiet.
Proof.
  split.
  - intros u. split; [done|]. induction (entries u); by constructor.
  - intros u v w [S1 F1] [S2 F2]. split; [by etrans|]. eapply Forall2_trans; [|done|done].
    cbn. intros x y z (? & ? & ? & ?) (? & ? & ? & ?). split; [congruence|]. split; [by etrans|].
    split; [congruence|auto].
Qed.

Lemma quiet_alter u e f :
  (forall p, same_heights p (f p)) -> quiet u (alter_entry u e f).
Proof.
  intros Hf. split; [apply alter_entry_same; intros p; apply Hf|]. cbn.
  induction (entries u) as [|[e' p] l IH]; cbn; constructor; [|done].
  case_bool_decide; cbn; by split.
Qed.

(** The same committed entries on one chain. *)
Definition same_on (rc : bool) (u v : updateLog) : Prop :=
  Forall2 (fun x y => x.1 = y.1 /\ same_static x.2 y.2 /\ addHeight rc x.2 = addHeight rc y.2 /\
    removeHeight rc x.2 = removeHeight rc y.2) (entries u) (entries v).

Lemma quiet_same_on rc u v : quiet u v -> same_on rc u v.
Proof.
  intros [_ HF]. eapply Forall2_impl; [done|]. cbn. intros x y (? & ? & Eh & _).
  unfold addHeight, removeHeight. by rewrite Eh.
Qed.

Lemma same_on_consumes rc add add' u v :
  same_on rc u v -> HtlcIndex add = HtlcIndex add' ->
  Forall (fun y => ~ consumes rc add y) (entries u) <-> Forall (fun y => ~ consumes rc add' y) (entries v).
Proof.
  intros HF Hi. unfold same_on in HF.
  induction HF as [|x y l k (_ & (Et & _ & _ & Ep & _) & _ & Er) _ IH]; [done|].
  rewrite !Forall_cons, IH. unfold consumes, is_removal. by rewrite Et, Ep, Hi, Er.
Qed.

Lemma same_on_inFlight amt rc u u' v v' :
  (forall p q, same_static p q -> amt p = amt q) -> same_on rc u u' -> same_on rc v v' ->
  sumOf amt (inFlightOf rc u v) = sumOf amt (inFlightOf rc u' v').
Proof.
  intros Hamt Hu Hv. unfold inFlightOf, same_on in *.
  induction Hu as [|x y l k (_ & Hst & Ea & _) _ IH]; [done|]. rewrite !filter_cons.
  assert (inFlight rc v x <-> inFlight rc v' y) as Hiff.
  { unfold inFlight. pose proof Hst as (Et & _ & Ei & _).
    by rewrite Et, Ea, (same_on_consumes rc x.2 y.2 _ _ Hv Ei). }
  repeat case_decide; rewrite ?sumOf_cons, ?(Hamt _ _ Hst); try (by rewrite IH); tauto.
Qed.

Lemma same_on_below rc u u' idx : same_on rc u u' -> committedBelow rc u idx -> committedBelow rc u' idx.
Proof.
  intros HF Hb e pd Hin Hh. apply list_elem_of_lookup in Hin as [i Hi].
  destruct (Forall2_lookup_r _ _ _ _ _ HF Hi) as ([e' p] & Hp & He & (_ & El & _) & Ea & Er).
  cbn in *. subst e'. rewrite <- El. apply (Hb e p); [by eapply list_elem_of_lookup_2|].
  by rewrite Ea, Er.
Qed.

(** Evaluating a view for one chain does not touch the heights of the other. *)
Lemma evalLog_other mode all surviving u :
  same_on (negb (remoteChain mode)) u (evalLog mode all surviving u).
Proof.
  assert (forall pd, addHeight (negb (remoteChain mode)) (removeUpd mode pd) =
      addHeight (negb (remoteChain mode)) pd /\
    removeHeight (negb (remoteChain mode)) (removeUpd mode pd) =
      removeHeight (negb (remoteChain mode)) pd) as Hr.
  { intros pd. unfold removeUpd, processFeeUpdate, processRemoveEntry, set_removeHeight, set_addHeight,
      addHeight, removeHeight.
    destruct (EntryType pd), (remoteChain mode), (mutateState mode); repeat case_bool_decide; done. }
  assert (forall pd, addHeight (negb (remoteChain mode)) (addUpd mode pd) =
      addHeight (negb (remoteChain mode)) pd /\
    removeHeight (negb (remoteChain mode)) (addUpd mode pd) =
      removeHeight (negb (remoteChain mode)) pd) as Ha.
  { intros pd. unfold addUpd, processAddEntry, set_addHeight, addHeight, removeHeight.
    destruct (remoteChain mode), (mutateState mode); repeat case_bool_decide; done. }
  rewrite evalLog_map. unfold same_on, mapLog; cbn [entries].
  induction (entries u) as [|[e pd] l IH]; cbn; constructor; [|done]. cbn.
  split; [done|]. split; [apply only_heights_static, evalPd_only|].
  unfold evalPd, on. repeat case_bool_decide; rewrite ?(proj1 (Ha _)), ?(proj2 (Ha _)),
    ?(proj1 (Hr _)), ?(proj2 (Hr _)); done.
Qed.

(** Entries appended with no heights. *)
Definition grows (u v : updateLog) : Prop :=
  (exists new, entries v = entries u ++ new /\ Forall (fun x => heights x.2 = noHeights) new) /\
  logIndex u <= logIndex v.

Lemma grows_refl u : grows u u.
Proof. split; [exists []; by rewrite app_nil_r|lia]. Qed.

Lemma noHeights_add rc p : heights p = noHeights -> addHeight rc p = 0.
Proof. unfold addHeight. intros ->. by destruct rc. Qed.

Lemma noHeights_remove rc p : heights p = noHeights -> removeHeight rc p = 0.
Proof. unfold removeHeight. intros ->. by destruct rc. Qed.

Lemma grows_inFlight rc u u' v v' :
  grows u u' -> grows v v' -> inFlightOf rc u' v' = inFlightOf rc u v.
Proof.
  intros [(nu & Eu & Hnu) _] [(nv & Ev & Hnv) _]. unfold inFlightOf. rewrite Eu, filter_app.
  replace (filter (inFlight rc v') nu) with (@nil (nat * PaymentDescriptor)).
  - rewrite app_nil_r. apply filter_ext_in. intros x _. unfold inFlight. rewrite Ev, Forall_app.
    assert (Forall (fun y => ~ consumes rc x.2 y) nv) as Hc; [|tauto].
    eapply Forall_impl; [done|]. cbn. intros y Hy (_ & _ & Hr). apply Hr. by apply noHeights_remove.
  - symmetry. clear Eu. induction Hnu as [|x l Hx _ IH]; [done|]. rewrite filter_cons, decide_False; [done|].
    intros (_ & Ha & _). apply Ha. by apply noHeights_add.
Qed.

Lemma grows_below rc u v idx : grows u v -> committedBelow rc u idx -> committedBelow rc v idx.
Proof.
  intros [(new & Ev & Hn) _] Hb e pd Hin Hh. rewrite Ev in Hin. apply elem_of_app in Hin as [Hin|Hin].
  - by apply (Hb e pd).
  - rewrite Forall_forall in Hn. specialize (Hn _ Hin). cbn in Hn.
    rewrite (noHeights_add rc pd Hn), (noHeights_remove rc pd Hn) in Hh. lia.
Qed.

(** Garbage collection removes nothing that is in flight. *)
Lemma removable_heights lt rt pd rc : removable lt rt pd = true -> removeHeight rc pd <> 0.
Proof.
  unfold removable, removeHeight. rewrite !andb_true_iff, negb_true_iff, orb_false_iff.
  intros [[_ [H1 H2]] _]. apply bool_decide_eq_false in H1, H2. by destruct rc.
Qed.

Lemma compacted_inFlight lt rt rc A B A' B' :
  entries A' = compacted lt rt (entries B) (entries A) ->
  entries B' = compacted lt rt (entries A) (entries B) ->
  inFlightOf rc A' B' = inFlightOf rc A B.
Proof.
  intros EA EB. unfold inFlightOf. rewrite EA. unfold compacted. rewrite filter_filter.
  apply filter_ext_in. intros x Hx. unfold inFlight, kept. rewrite EB. split.
  - intros [(Ha & Hh & Hc) [_ Hd]]. split_and!; try done. rewrite Forall_forall in *.
    intros y Hy Hcon. apply (Hc y); [|done]. apply list_elem_of_filter. split; [|done]. split.
    + unfold kept. apply not_true_is_false. intros Hr. apply Hd. split; [done|].
      destruct Hcon as (Hrem & Hp & _). rewrite <- Hp. unfold dead. apply list_elem_of_fmap.
      exists y. split; [done|]. by apply list_elem_of_filter.
    + intros [Hadd _]. destruct Hcon as (Hrem & _). unfold is_removal in Hrem. by rewrite Hadd in Hrem.
  - intros (Ha & Hh & Hc). rewrite Forall_forall in Hc. split; [split_and!; try done|split].
    + rewrite Forall_forall. intros y Hy. apply list_elem_of_filter in Hy as [_ Hy]. exact (Hc y Hy).
    + apply not_true_is_false. intros Hr. by destruct (removable_not_add lt rt x.2 Hr).
    + intros [_ Hd]. unfold dead in Hd. apply list_elem_of_fmap in Hd as (y & Hp & Hy).
      apply list_elem_of_filter in Hy as [[Hr Hrem] Hy]. apply (Hc y Hy). split; [done|].
      split; [congruence|]. by eapply removable_heights.
Qed.

Lemma compacted_below lt rt rc A B A' idx :
  entries A' = compacted lt rt (entries B) (entries A) ->
  committedBelow rc A idx -> committedBelow rc A' idx.
Proof.
  intros EA Hb e pd Hin. rewrite EA in Hin. apply list_elem_of_filter in Hin as [_ Hin]. exact (Hb e pd Hin).
Qed.

(** ** What building a commitment returns *)

Section build.
Context {BT : Btcec} {E : ChanEnv}.

Lemma populate_fields c cltvs c' :
  populateHtlcIndexes c cltvs = Ok c' ->
  Commitment.height c' = Commitment.height c /\
  Commitment.ourMessageIndex c' = Commitment.ourMessageIndex c /\
  Commitment.theirMessageIndex c' = Commitment.theirMessageIndex c /\
  Commitment.ourAssetBalance c' = Commitment.ourAssetBalance c /\
  Commitment.theirAssetBalance c' = Commitment.theirAssetBalance c /\
  Commitment.ourBtcBalance c' = Commitment.ourBtcBalance c /\
  Commitment.theirBtcBalance c' = Commitment.theirBtcBalance c /\
  Commitment.fee c' = Commitment.fee c /\ Commitment.feePerKw c' = Commitment.feePerKw c.
Proof.
  unfold populateHtlcIndexes. intros H. apply obind_ok_inv in H as ([[out dups] oi] & _ & H).
  apply obind_ok_inv in H as ([[inc dups'] ii] & _ & H). by injection H as <-.
Qed.

Lemma createUnsigned_fields c our their ourA theirA isOurs rate height view keys u v :
  createUnsignedCommitmentTx c our their ourA theirA isOurs rate height view keys = Ok (u, v) ->
  CommitTx.ourAssetBalance u = ourA /\ CommitTx.theirAssetBalance u = theirA /\
  CommitTx.fee u = commitFeeFor c isOurs rate view /\
  (CommitTx.ourBtcBalance u, CommitTx.theirBtcBalance u) =
    commitBalances c isOurs (numHTLCs c isOurs rate view) (commitFeeFor c isOurs rate view)
      our their ourA theirA /\
  feePerKw v = feePerKw view.
Proof.
  unfold createUnsignedCommitmentTx. destruct (commitBalances _ _ _ _ _ _ _ _) as [our' their'].
  cbv zeta. intros H.
  apply obind_ok_inv in H as (st & _ & H). apply obind_ok_inv in H as ([[st1 cl1] l1] & _ & H).
  apply obind_ok_inv in H as ([[st2 cl2] l2] & _ & H). apply obind_ok_inv in H as (tx & _ & H).
  apply obind_ok_inv in H as ([tx1 cl3] & _ & H). apply obind_ok_inv in H as (tx2 & _ & H).
  destruct (negb _); [done|]. case_bool_decide; [done|]. by injection H as <- <-.
Qed.

Lemma alter_output_heights f p : same_heights p (alter_output f p).
Proof. by destruct p. Qed.

Lemma writeScripts_run remote l : forall lc,
  exists lc', writeScripts remote l lc = (Ok tt, lc') /\ framed lc lc' /\
    quiet (logOf remote lc) (logOf remote lc') /\ logOf (negb remote) lc' = logOf (negb remote) lc.
Proof.
  induction l as [|[[e|] pd] l IH]; intros lc; cbn [writeScripts].
  - by exists lc.
  - unfold cbind, cput.
    destruct (IH (set_logOf remote lc (alter_entry (logOf remote lc) e (alter_output (fun _ => output pd)))))
      as (lc' & -> & Hf & Hq & Ho).
    exists lc'. split; [done|]. rewrite logOf_set_same in Hq. rewrite logOf_set_other in Ho.
    split; [etrans; [apply set_logOf_framed|done]|]. split; [|done].
    etrans; [|done]. apply quiet_alter, alter_output_heights.
  - apply IH.
Qed.

Lemma fetchCommitmentView_run rc oi oh ti th keys lc c lc' :
  fetchCommitmentView rc oi oh ti th keys lc = (Ok c, lc') ->
  exists tip bal w view lc1,
    tipOf rc lc = Ok tip /\
    computeView (fetchHTLCView lc ti oi) rc true lc = (Ok (bal, w, view), lc1) /\
    framed lc1 lc' /\ quiet (localUpdateLog lc1) (localUpdateLog lc') /\
    quiet (remoteUpdateLog lc1) (remoteUpdateLog lc') /\
    Commitment.height c = u64 (Commitment.height tip + 1) /\
    Commitment.ourMessageIndex c = oi /\ Commitment.theirMessageIndex c = ti /\
    Commitment.ourAssetBalance c = ourAsset bal /\ Commitment.theirAssetBalance c = theirAsset bal /\
    Commitment.feePerKw c = feePerKw view /\
    Commitment.fee c = commitFeeFor (cfg lc) (negb rc) (feePerKw view) view /\
    (Commitment.ourBtcBalance c, Commitment.theirBtcBalance c) =
      commitBalances (cfg lc) (negb rc) (numHTLCs (cfg lc) (negb rc) (feePerKw view) view)
        (commitFeeFor (cfg lc) (negb rc) (feePerKw view) view)
        (ourBtc bal) (theirBtc bal) (ourAsset bal) (theirAsset bal).
Proof.
  unfold fetchCommitmentView. rewrite cbind_cget. intros H.
  apply clift_ok in H as (tip & Htip & H). apply cbind_ok in H as ([[bal w] view] & lc1 & Hcv & H).
  apply clift_ok in H as ([u v] & Hcu & H).
  apply createUnsigned_fields in Hcu as (E1 & E2 & E3 & E4 & E5).
  destruct (writeScripts_run false (ourUpdates v) lc1) as (lc2 & W2 & F2 & Q2 & O2).
  destruct (writeScripts_run true (theirUpdates v) lc2) as (lc3 & W3 & F3 & Q3 & O3).
  unfold cbind in H. rewrite W2, W3 in H. cbn [logOf negb] in *.
  case_bool_decide; [done|]. case_bool_decide; [done|].
  unfold clift in H. injection H as H <-.
  apply populate_fields in H. cbn [Commitment.height Commitment.ourMessageIndex
    Commitment.theirMessageIndex Commitment.ourAssetBalance Commitment.theirAssetBalance
    Commitment.ourBtcBalance Commitment.theirBtcBalance Commitment.fee Commitment.feePerKw] in H.
  destruct H as (-> & -> & -> & -> & -> & -> & -> & -> & ->). rewrite E5.
  exists tip, bal, w, view, lc1. split; [done|]. split; [done|]. split; [by etrans|].
  rewrite O3, <- O2. split; [exact Q2|]. split; [exact Q3|]. by split_and!.
Qed.

End build.

(** ** The invariant *)

Section inv.
Context {BT : Btcec} {E : ChanEnv}.

(** Consecutive heights from [h] on. *)
Fixpoint chainHeights (h : Z) (l : list commitment) : Prop :=
  match l with
  | [] => True
  | c :: l' => Commitment.height c = h /\ chainHeights (h + 1) l'
  end.

Definition idx_le (a b : commitment) : Prop :=
  Commitment.ourMessageIndex a <= Commitment.ourMessageIndex b /\
  Commitment.theirMessageIndex a <= Commitment.theirMessageIndex b.

(** What is in flight on a chain, of both logs. *)
Definition inFlightAmt (amt : PaymentDescriptor -> Z) (rc : bool) (lc : LightningChannel) : Z :=
  sumOf amt (inFlightOf rc (localUpdateLog lc) (remoteUpdateLog lc)) +
  sumOf amt (inFlightOf rc (remoteUpdateLog lc) (localUpdateLog lc)).

(** The invariant, for a channel that holds [assets] units of its asset. *)
Record Inv (assets : Z) (lc : LightningChannel) : Prop := {
  iv_logs : logs_wf (localUpdateLog lc) (remoteUpdateLog lc);
  iv_local : localCommitChain lc <> [];
  iv_remote : remoteCommitChain lc <> [] /\ (length (remoteCommitChain lc) <= 2)%nat;
  iv_lheights : 0 <= currentHeight lc /\ chainHeights (currentHeight lc) (localCommitChain lc);
  iv_rheights : exists h, 0 <= h /\ chainHeights h (remoteCommitChain lc);
  iv_lsorted : StronglySorted idx_le (localCommitChain lc);
  iv_rsorted : StronglySorted idx_le (remoteCommitChain lc);
  iv_cross : forall c c', c ∈ localCommitChain lc -> c' ∈ remoteCommitChain lc ->
    Commitment.ourMessageIndex c <= Commitment.ourMessageIndex c' /\
    Commitment.theirMessageIndex c' <= Commitment.theirMessageIndex c;
  iv_lidx : forall c, c ∈ localCommitChain lc ->
    Commitment.theirMessageIndex c <= logIndex (remoteUpdateLog lc);
  iv_ridx : forall c, c ∈ remoteCommitChain lc ->
    Commitment.ourMessageIndex c <= logIndex (localUpdateLog lc);
  iv_below : forall rc tip, last (chainOf rc lc) = Some tip ->
    committedBelow rc (localUpdateLog lc) (Commitment.ourMessageIndex tip) /\
    committedBelow rc (remoteUpdateLog lc) (Commitment.theirMessageIndex tip);
  iv_asset : forall rc tip, last (chainOf rc lc) = Some tip ->
    eqm (Commitment.ourAssetBalance tip + Commitment.theirAssetBalance tip +
         inFlightAmt AssetAmount rc lc) assets;
}.

(** Room for one more step: no counter wraps, and the logs are short enough for
    the weight of a commitment not to. *)
Definition room (lc : LightningChannel) : Prop :=
  has_room (localUpdateLog lc) /\ has_room (remoteUpdateLog lc) /\
  (forall rc c, c ∈ chainOf rc lc -> Commitment.height c + 1 < 2 ^ 64) /\
  (forall rc, Z.of_nat (length (entries (logOf rc lc))) < 2 ^ 20).

Lemma static_asset p q : same_static p q -> AssetAmount p = AssetAmount q.
Proof. intros H. apply H. Qed.

Lemma static_btc p q : same_static p q -> BtcAmount p = BtcAmount q.
Proof. intros H. apply H. Qed.

(** *** Chains *)

Lemma last_elem {A} (l : list A) x : last l = Some x -> x ∈ l.
Proof. intros H. apply last_Some in H as [k ->]. apply elem_of_app. right. by left. Qed.

Lemma tipOf_last rc lc tip : tipOf rc lc = Ok tip -> last (chainOf rc lc) = Some tip.
Proof. unfold tipOf, CommitmentChain.tip. destruct (last _); [|done]. by intros [= ->]. Qed.

Lemma tailOf_head rc lc c : tailOf rc lc = Ok c -> exists l, chainOf rc lc = c :: l.
Proof. unfold tailOf, CommitmentChain.tail. destruct (chainOf rc lc) as [|x l]; [done|]. intros [= ->]. by exists l. Qed.

Lemma chainHeights_snoc h l c :
  chainHeights h l -> Commitment.height c = h + Z.of_nat (length l) -> chainHeights h (l ++ [c]).
Proof.
  revert h. induction l as [|x l IH]; intros h; cbn [chainHeights app length].
  - intros _ ->. cbn. split; [lia|done].
  - intros [Hx Hl] Hc. split; [done|]. apply IH; [done|]. lia.
Qed.

Lemma chainHeights_last h l c :
  chainHeights h l -> last l = Some c -> Commitment.height c + 1 = h + Z.of_nat (length l).
Proof.
  revert h. induction l as [|x l IH]; intros h; [done|]. cbn [chainHeights]. intros [Hx Hl].
  destruct l as [|y l]; [intros [= <-]; cbn; lia|]. intros Hlast.
  rewrite (IH _ Hl Hlast). cbn [length]. lia.
Qed.

Lemma sorted_snoc l c :
  StronglySorted idx_le l -> (forall x, x ∈ l -> idx_le x c) -> StronglySorted idx_le (l ++ [c]).
Proof.
  induction 1 as [|x l Hl IH Hx]; intros Hc; cbn; constructor.
  - constructor.
  - constructor.
  - apply IH. intros y Hy. apply Hc. by right.
  - apply Forall_app. split; [done|]. constructor; [apply Hc; by left|constructor].
Qed.

Lemma sorted_head l c x : StronglySorted idx_le (c :: l) -> x ∈ c :: l -> idx_le c x.
Proof.
  intros Hs Hx. apply StronglySorted_inv in Hs as [_ Hf].
  apply elem_of_cons in Hx as [->|Hx]; [split; lia|]. rewrite Forall_forall in Hf. by apply Hf.
Qed.

(** *** A new commitment *)

Lemma committedBelow_le rc u i j : committedBelow rc u i -> i <= j -> committedBelow rc u j.
Proof. intros Hb Hij e pd Hin Hh. specialize (Hb e pd Hin Hh). lia. Qed.

Lemma framed_chain rc lc lc' : framed lc lc' -> chainOf rc lc' = chainOf rc lc.
Proof. intros (l & r & t & ->). by destruct rc. Qed.

Lemma framed_height lc lc' : framed lc lc' -> currentHeight lc' = currentHeight lc.
Proof. by intros (l & r & t & ->). Qed.

Lemma inv_height assets lc rc tip :
  Inv assets lc -> last (chainOf rc lc) = Some tip -> 0 <= Commitment.height tip.
Proof.
  intros HI Hlast. destruct rc; cbn in Hlast.
  - destruct (iv_rheights _ _ HI) as (h & Hh0 & Hch). pose proof (chainHeights_last _ _ _ Hch Hlast).
    destruct (remoteCommitChain lc); [done|]. cbn [length] in *. lia.
  - destruct (iv_lheights _ _ HI) as (Hh0 & Hch). pose proof (chainHeights_last _ _ _ Hch Hlast).
    destruct (localCommitChain lc); [done|]. cbn [length] in *. lia.
Qed.

(** What a successful [fetchCommitmentView] does to the logs, and how the new
    commitment relates to them. *)
Lemma fetch_logs assets rc oi oh ti th keys lc c lc1 :
  Inv assets lc -> room lc ->
  committedBelow rc (localUpdateLog lc) oi -> committedBelow rc (remoteUpdateLog lc) ti ->
  fetchCommitmentView rc oi oh ti th keys lc = (Ok c, lc1) ->
  framed lc lc1 /\
  logs_wf (localUpdateLog lc1) (remoteUpdateLog lc1) /\
  logIndex (localUpdateLog lc1) = logIndex (localUpdateLog lc) /\
  logIndex (remoteUpdateLog lc1) = logIndex (remoteUpdateLog lc) /\
  committedBelow rc (localUpdateLog lc1) oi /\ committedBelow rc (remoteUpdateLog lc1) ti /\
  same_on (negb rc) (localUpdateLog lc) (localUpdateLog lc1) /\
  same_on (negb rc) (remoteUpdateLog lc) (remoteUpdateLog lc1) /\
  eqm (Commitment.ourAssetBalance c + Commitment.theirAssetBalance c + inFlightAmt AssetAmount rc lc1)
      assets /\
  Commitment.ourMessageIndex c = oi /\ Commitment.theirMessageIndex c = ti /\
  exists tip, last (chainOf rc lc) = Some tip /\ Commitment.height c = Commitment.height tip + 1.
Proof.
  intros HI (HrL & HrR & Hrh & _) Hb1 Hb2 Hrun.
  apply fetchCommitmentView_run in Hrun as (tip & bal & w & view & lc0 & Htip & Hcv & F & Q1 & Q2 & Hh &
    Ho & Ht & HA1 & HA2 & _).
  pose proof (tipOf_last _ _ _ Htip) as Hlast.
  pose proof (inv_height _ _ _ _ HI Hlast) as Hpos.
  assert (u64 (Commitment.height tip + 1) = Commitment.height tip + 1) as Hu.
  { apply u64_id. specialize (Hrh rc tip (last_elem _ _ Hlast)). unfold in_u. lia. }
  pose proof (iv_logs _ _ HI) as Hwf. pose proof Hwf as (Hw1 & Hw2 & _).
  pose proof (computeView_total lc tip oi ti rc true bal w view lc0 Hwf Hb1 Hb2 Htip Hcv)
    as (Hasset & _ & Hwf0 & Hfl). destruct (Hfl eq_refl ltac:(lia)) as [Hfl1 _].
  apply computeView_run in Hcv as (tip' & Htip' & F0 & L1 & L2 & _); [|done..].
  rewrite Htip in Htip'. injection Htip' as <-.
  set (mode := modeOf rc true tip) in *.
  assert (same_log (localUpdateLog lc) (localUpdateLog lc1)) as S1.
  { etrans; [|apply Q1]. rewrite L1. apply evalLog_same. }
  assert (same_log (remoteUpdateLog lc) (remoteUpdateLog lc1)) as S2.
  { etrans; [|apply Q2]. rewrite L2. apply evalLog_same. }
  split; [by etrans|]. split; [by eapply same_logs_wf|].
  split; [symmetry; apply S1|]. split; [symmetry; apply S2|].
  split; [eapply same_on_below; [by apply quiet_same_on|]; rewrite L1;
    by apply (committedBelow_after mode)|].
  split; [eapply same_on_below; [by apply quiet_same_on|]; rewrite L2;
    by apply (committedBelow_after mode)|].
  assert (forall u v w : updateLog, same_on (negb rc) u v -> quiet v w -> same_on (negb rc) u w) as Htr.
  { intros u v w' H1 H2%(quiet_same_on (negb rc)). eapply Forall2_trans; [|exact H1|exact H2].
    cbn. intros x y z (? & ? & ? & ?) (? & ? & ? & ?). split_and!; try congruence. by etrans. }
  split; [eapply Htr, Q1; rewrite L1; apply (evalLog_other mode)|].
  split; [eapply Htr, Q2; rewrite L2; apply (evalLog_other mode)|].
  split; [|split; [done|split; [done|exists tip; split; [done|lia]]]].
  rewrite HA1, HA2. unfold inFlightAmt.
  rewrite <- (same_on_inFlight AssetAmount rc _ _ _ _ static_asset
    (quiet_same_on rc _ _ Q1) (quiet_same_on rc _ _ Q2)).
  rewrite <- (same_on_inFlight AssetAmount rc _ _ _ _ static_asset
    (quiet_same_on rc _ _ Q2) (quiet_same_on rc _ _ Q1)).
  unfold totalAsset in Hasset. rewrite Hfl1. rewrite Hasset.
  assert (ourAsset (tipBalances (cfg lc) tip) + theirAsset (tipBalances (cfg lc) tip) =
    Commitment.ourAssetBalance tip + Commitment.theirAssetBalance tip) as ->.
  { unfold tipBalances. by destruct (IsInitiator (cfg lc)). }
  by apply (iv_asset _ _ HI).
Qed.

Lemma below_logIndex rc u : log_wf u -> committedBelow rc u (logIndex u).
Proof. intros Hwf e pd Hin _. by apply (lw_log _ Hwf e pd). Qed.

(** What a commitment signed or received now covers. *)
Lemma sign_below assets lc localTail :
  Inv assets lc -> tailOf false lc = Ok localTail ->
  committedBelow true (localUpdateLog lc) (logIndex (localUpdateLog lc)) /\
  committedBelow true (remoteUpdateLog lc) (Commitment.theirMessageIndex localTail).
Proof.
  intros HI Htail. pose proof (iv_logs _ _ HI) as (Hw1 & _). split; [by apply below_logIndex|].
  destruct (tailOf_head _ _ _ Htail) as [lrest Hl]. cbn in Hl. destruct (iv_remote _ _ HI) as [Hrne _].
  destruct (last (remoteCommitChain lc)) as [rtip|] eqn:Hrtip; [|by apply last_None in Hrtip].
  destruct (iv_below _ _ HI true rtip Hrtip) as [_ Hb2]. eapply committedBelow_le; [done|].
  apply (iv_cross _ _ HI); [rewrite Hl; by left|by apply last_elem].
Qed.

Lemma receive_below assets lc remoteTail :
  Inv assets lc -> tailOf true lc = Ok remoteTail ->
  committedBelow false (localUpdateLog lc) (Commitment.ourMessageIndex remoteTail) /\
  committedBelow false (remoteUpdateLog lc) (logIndex (remoteUpdateLog lc)).
Proof.
  intros HI Htail. pose proof (iv_logs _ _ HI) as (_ & Hw2 & _). split; [|by apply below_logIndex].
  destruct (tailOf_head _ _ _ Htail) as [rrest Hr]. cbn in Hr. pose proof (iv_local _ _ HI) as Hlne.
  destruct (last (localCommitChain lc)) as [ltip|] eqn:Hltip; [|by apply last_None in Hltip].
  destruct (iv_below _ _ HI false ltip Hltip) as [Hb1 _]. eapply committedBelow_le; [done|].
  apply (iv_cross _ _ HI); [by apply last_elem|rewrite Hr; by left].
Qed.

(** The remote chain is extended by a commitment that covers our whole log and
    what is below our tail of theirs. *)
Lemma extend_remote assets lc localTail oh th keys c lc1 lc2 :
  Inv assets lc -> room lc -> tailOf false lc = Ok localTail ->
  CommitmentChain.hasUnackedCommitment (remoteCommitChain lc) = false ->
  fetchCommitmentView true (logIndex (localUpdateLog lc)) oh (Commitment.theirMessageIndex localTail) th
    keys lc = (Ok c, lc1) ->
  localUpdateLog lc2 = localUpdateLog lc1 -> remoteUpdateLog lc2 = remoteUpdateLog lc1 ->
  localCommitChain lc2 = localCommitChain lc -> remoteCommitChain lc2 = remoteCommitChain lc ++ [c] ->
  currentHeight lc2 = currentHeight lc -> Inv assets lc2.
Proof.
  intros HI Hroom Htail Hun Hrun EL ER ECl ECr Eh.
  pose proof (iv_logs _ _ HI) as (Hw1 & Hw2 & _).
  destruct (tailOf_head _ _ _ Htail) as [lrest Hl]. cbn in Hl.
  destruct (iv_remote _ _ HI) as [Hrne _].
  destruct (last (remoteCommitChain lc)) as [rtip|] eqn:Hrtip; [|by apply last_None in Hrtip].
  assert (localTail ∈ localCommitChain lc) as Hlt by (rewrite Hl; by left).
  destruct (sign_below _ _ _ HI Htail) as [_ Hb2'].
  destruct (fetch_logs assets true _ _ _ _ _ _ _ _ HI Hroom (below_logIndex true _ Hw1) Hb2' Hrun)
    as (F & Hwf & Ei1 & Ei2 & Hb3 & Hb4 & So1 & So2 & Has & Ho & Ht & tip & Htip & Hh).
  cbn in Htip. rewrite Hrtip in Htip. injection Htip as <-.
  assert ((length (remoteCommitChain lc) = 1)%nat) as Hlen.
  { unfold CommitmentChain.hasUnackedCommitment in Hun. apply bool_decide_eq_false in Hun.
    destruct (remoteCommitChain lc); [done|]. cbn in *. lia. }
  assert (forall c0, c0 ∈ remoteCommitChain lc -> idx_le c0 c) as Hle.
  { intros c0 Hc0. unfold idx_le. rewrite Ho, Ht. split; [by apply (iv_ridx _ _ HI)|].
    by apply (iv_cross _ _ HI). }
  split; rewrite ?EL, ?ER, ?ECl, ?ECr, ?Eh, ?Ei1, ?Ei2; try apply HI; try done.
  - split; [by destruct (remoteCommitChain lc)|]. rewrite length_app. cbn. lia.
  - destruct (iv_rheights _ _ HI) as (h & H0 & Hch). exists h. split; [done|].
    apply chainHeights_snoc; [done|]. pose proof (chainHeights_last _ _ _ Hch Hrtip). lia.
  - apply sorted_snoc; [apply (iv_rsorted _ _ HI)|done].
  - intros c1 c2 Hc1 [Hc2|Hc2]%elem_of_app; [by apply (iv_cross _ _ HI)|].
    apply list_elem_of_singleton in Hc2 as ->. rewrite Ho, Ht. split.
    + etrans; [by apply (iv_cross _ _ HI c1 rtip); [|apply last_elem]|].
      apply (iv_ridx _ _ HI). by apply last_elem.
    + pose proof (iv_lsorted _ _ HI) as Hs. rewrite Hl in Hs, Hc1. by apply (sorted_head _ _ c1 Hs Hc1).
  - intros c0 [Hc0|Hc0]%elem_of_app; [by apply (iv_ridx _ _ HI)|].
    apply list_elem_of_singleton in Hc0 as ->. lia.
  - intros [] tip; cbn; rewrite ?ECl, ?ECr.
    + rewrite last_snoc. intros [= <-]. by rewrite Ho, Ht.
    + intros Hl0. destruct (iv_below _ _ HI false tip Hl0).
      split; (eapply same_on_below; [|done]; done).
  - intros [] tip; cbn; rewrite ?ECl, ?ECr; unfold inFlightAmt; rewrite EL, ER.
    + rewrite last_snoc. intros [= <-]. exact Has.
    + intros Hl0. rewrite <- (same_on_inFlight AssetAmount false _ _ _ _ static_asset So1 So2).
      rewrite <- (same_on_inFlight AssetAmount false _ _ _ _ static_asset So2 So1).
      by apply (iv_asset _ _ HI).
Qed.

(** The local chain is extended by a commitment that covers their whole log and
    what is below their tail of ours. *)
Lemma extend_local assets lc remoteTail oh th keys c lc1 c' lc2 :
  Inv assets lc -> room lc -> tailOf true lc = Ok remoteTail ->
  fetchCommitmentView false (Commitment.ourMessageIndex remoteTail) oh (logIndex (remoteUpdateLog lc)) th
    keys lc = (Ok c, lc1) ->
  Commitment.height c' = Commitment.height c ->
  Commitment.ourMessageIndex c' = Commitment.ourMessageIndex c ->
  Commitment.theirMessageIndex c' = Commitment.theirMessageIndex c ->
  Commitment.ourAssetBalance c' = Commitment.ourAssetBalance c ->
  Commitment.theirAssetBalance c' = Commitment.theirAssetBalance c ->
  localUpdateLog lc2 = localUpdateLog lc1 -> remoteUpdateLog lc2 = remoteUpdateLog lc1 ->
  localCommitChain lc2 = localCommitChain lc ++ [c'] -> remoteCommitChain lc2 = remoteCommitChain lc ->
  currentHeight lc2 = currentHeight lc -> Inv assets lc2.
Proof.
  intros HI Hroom Htail Hrun X1 X2 X3 X4 X5 EL ER ECl ECr Eh.
  pose proof (iv_logs _ _ HI) as (Hw1 & Hw2 & _).
  destruct (tailOf_head _ _ _ Htail) as [rrest Hr]. cbn in Hr.
  pose proof (iv_local _ _ HI) as Hlne.
  destruct (last (localCommitChain lc)) as [ltip|] eqn:Hltip; [|by apply last_None in Hltip].
  assert (remoteTail ∈ remoteCommitChain lc) as Hrt by (rewrite Hr; by left).
  destruct (receive_below _ _ _ HI Htail) as [Hb1' _].
  destruct (fetch_logs assets false _ _ _ _ _ _ _ _ HI Hroom Hb1' (below_logIndex false _ Hw2) Hrun)
    as (F & Hwf & Ei1 & Ei2 & Hb3 & Hb4 & So1 & So2 & Has & Ho & Ht & tip & Htip & Hh).
  cbn in Htip. rewrite Hltip in Htip. injection Htip as <-. rewrite Ho in X2. rewrite Ht in X3.
  assert (forall c0, c0 ∈ localCommitChain lc -> idx_le c0 c') as Hle.
  { intros c0 Hc0. unfold idx_le. rewrite X2, X3. split; [by apply (iv_cross _ _ HI)|].
    by apply (iv_lidx _ _ HI). }
  split; rewrite ?EL, ?ER, ?ECl, ?ECr, ?Eh, ?Ei1, ?Ei2; try apply HI; try done.
  - by destruct (localCommitChain lc).
  - destruct (iv_lheights _ _ HI) as (H0 & Hch). split; [done|].
    apply chainHeights_snoc; [done|]. pose proof (chainHeights_last _ _ _ Hch Hltip). lia.
  - apply sorted_snoc; [apply (iv_lsorted _ _ HI)|done].
  - intros c1 c2 [Hc1|Hc1]%elem_of_app Hc2; [by apply (iv_cross _ _ HI)|].
    apply list_elem_of_singleton in Hc1 as ->. rewrite X2, X3. split.
    + pose proof (iv_rsorted _ _ HI) as Hs. rewrite Hr in Hs, Hc2. by apply (sorted_head _ _ c2 Hs Hc2).
    + etrans; [by apply (iv_cross _ _ HI ltip c2); [apply last_elem|]|].
      apply (iv_lidx _ _ HI). by apply last_elem.
  - intros c0 [Hc0|Hc0]%elem_of_app; [by apply (iv_lidx _ _ HI)|].
    apply list_elem_of_singleton in Hc0 as ->. lia.
  - intros [] tip; cbn; rewrite ?ECl, ?ECr.
    + intros Hl0. destruct (iv_below _ _ HI true tip Hl0).
      split; (eapply same_on_below; [|done]; done).
    + rewrite last_snoc. intros [= <-]. by rewrite X2, X3.
  - intros [] tip; cbn; rewrite ?ECl, ?ECr; unfold inFlightAmt; rewrite EL, ER.
    + intros Hl0. rewrite <- (same_on_inFlight AssetAmount true _ _ _ _ static_asset So1 So2).
      rewrite <- (same_on_inFlight AssetAmount true _ _ _ _ static_asset So2 So1).
      by apply (iv_asset _ _ HI).
    + rewrite last_snoc. intros [= <-]. rewrite X4, X5. exact Has.
Qed.

(** *** Updates, revocations and garbage collection *)

Lemma grow_inv assets lc l r :
  Inv assets lc -> logs_wf l r -> grows (localUpdateLog lc) l -> grows (remoteUpdateLog lc) r ->
  Inv assets (set_logs lc l r).
Proof.
  intros HI Hwf G1 G2. split; cbn; try apply HI; try done.
  - intros c Hc. pose proof (iv_lidx _ _ HI c Hc). destruct G2 as [_ ?]. lia.
  - intros c Hc. pose proof (iv_ridx _ _ HI c Hc). destruct G1 as [_ ?]. lia.
  - intros rc tip Hl. destruct (iv_below _ _ HI rc tip Hl). split; by eapply grows_below.
  - intros rc tip Hl. unfold inFlightAmt; cbn. rewrite !(grows_inFlight rc _ _ _ _ G1 G2),
      !(grows_inFlight rc _ _ _ _ G2 G1). by apply (iv_asset _ _ HI).
Qed.

(** Logs with the same heights. *)
Lemma quiet_inv assets lc l r :
  Inv assets lc -> quiet (localUpdateLog lc) l -> quiet (remoteUpdateLog lc) r ->
  Inv assets (set_logs lc l r).
Proof.
  intros HI Q1 Q2. pose proof (proj1 Q1) as S1. pose proof (proj1 Q2) as S2.
  split; cbn; try apply HI; try done.
  - eapply same_logs_wf, HI; done.
  - intros c Hc. pose proof (iv_lidx _ _ HI c Hc). destruct S2 as [<- _]. lia.
  - intros c Hc. pose proof (iv_ridx _ _ HI c Hc). destruct S1 as [<- _]. lia.
  - intros rc tip Hl. destruct (iv_below _ _ HI rc tip Hl).
    split; (eapply same_on_below; [by apply quiet_same_on|done]).
  - intros rc tip Hl. unfold inFlightAmt; cbn.
    rewrite <- (same_on_inFlight AssetAmount rc _ _ _ _ static_asset
      (quiet_same_on rc _ _ Q1) (quiet_same_on rc _ _ Q2)).
    rewrite <- (same_on_inFlight AssetAmount rc _ _ _ _ static_asset
      (quiet_same_on rc _ _ Q2) (quiet_same_on rc _ _ Q1)).
    by apply (iv_asset _ _ HI).
Qed.

Lemma compact_inv assets lc lt rt l r :
  Inv assets lc -> compactLogs (localUpdateLog lc) (remoteUpdateLog lc) lt rt = Ok (l, r) ->
  Inv assets (set_logs lc l r).
Proof.
  intros HI Hc. destruct (compactLogs_ok lt rt _ _ (iv_logs _ _ HI))
    as (A' & B' & Hc' & Hwf & EA & EB & I1 & _ & I2 & _).
  rewrite Hc in Hc'. injection Hc' as <- <-. split; cbn; try apply HI; try done.
  - intros c Hin. rewrite I2. by apply (iv_lidx _ _ HI).
  - intros c Hin. rewrite I1. by apply (iv_ridx _ _ HI).
  - intros rc tip Hl. destruct (iv_below _ _ HI rc tip Hl). split; by eapply compacted_below.
  - intros rc tip Hl. unfold inFlightAmt; cbn.
    rewrite (compacted_inFlight lt rt rc _ _ _ _ EA EB), (compacted_inFlight lt rt rc _ _ _ _ EB EA).
    by apply (iv_asset _ _ HI).
Qed.

(** The invariant does not look at anything else. *)
Lemma inv_ext assets lc lc' :
  localUpdateLog lc' = localUpdateLog lc -> remoteUpdateLog lc' = remoteUpdateLog lc ->
  localCommitChain lc' = localCommitChain lc -> remoteCommitChain lc' = remoteCommitChain lc ->
  currentHeight lc' = currentHeight lc -> Inv assets lc -> Inv assets lc'.
Proof.
  intros E1 E2 E3 E4 E5 HI. split; rewrite ?E1, ?E2, ?E3, ?E4, ?E5; try apply HI.
  - intros [] tip; cbn; rewrite ?E3, ?E4; [apply (iv_below _ _ HI true)|apply (iv_below _ _ HI false)].
  - intros [] tip; cbn; unfold inFlightAmt; rewrite ?E1, ?E2, ?E3, ?E4;
      [apply (iv_asset _ _ HI true)|apply (iv_asset _ _ HI false)].
Qed.

Lemma advance_local assets lc c l :
  Inv assets lc -> localCommitChain lc = c :: l -> l <> [] -> currentHeight lc + 1 < 2 ^ 64 ->
  Inv assets (set_chains lc l (remoteCommitChain lc) (u64 (currentHeight lc + 1))).
Proof.
  intros HI El Hne Hb. destruct (iv_lheights _ _ HI) as [H0 Hch]. rewrite El in Hch.
  rewrite u64_id by (unfold in_u; lia).
  assert (forall x, x ∈ l -> x ∈ localCommitChain lc) as Hsub by (intros; rewrite El; by right).
  assert (last l = last (localCommitChain lc)) as Hlast.
  { rewrite El. by destruct l. }
  split; cbn; try apply HI; try done.
  - split; [lia|]. by destruct Hch.
  - pose proof (iv_lsorted _ _ HI) as Hs. rewrite El in Hs. by apply StronglySorted_inv in Hs as [? _].
  - intros c1 c2 H1 H2. apply (iv_cross _ _ HI); auto.
  - intros c1 H1. apply (iv_lidx _ _ HI); auto.
  - intros [] tip; cbn; rewrite ?Hlast; [apply (iv_below _ _ HI true)|apply (iv_below _ _ HI false)].
  - intros [] tip; cbn; rewrite ?Hlast; [apply (iv_asset _ _ HI true)|apply (iv_asset _ _ HI false)].
Qed.

Lemma advance_remote assets lc c l :
  Inv assets lc -> remoteCommitChain lc = c :: l -> l <> [] ->
  Inv assets (set_chains lc (localCommitChain lc) l (currentHeight lc)).
Proof.
  intros HI El Hne. destruct (iv_rheights _ _ HI) as (h & H0 & Hch). rewrite El in Hch.
  assert (forall x, x ∈ l -> x ∈ remoteCommitChain lc) as Hsub by (intros; rewrite El; by right).
  assert (last l = last (remoteCommitChain lc)) as Hlast.
  { rewrite El. by destruct l. }
  split; cbn; try apply HI; try done.
  - split; [done|]. destruct (iv_remote _ _ HI) as [_ Hl]. rewrite El in Hl. cbn in Hl. lia.
  - exists (h + 1). split; [lia|]. by destruct Hch.
  - pose proof (iv_rsorted _ _ HI) as Hs. rewrite El in Hs. by apply StronglySorted_inv in Hs as [? _].
  - intros c1 c2 H1 H2. apply (iv_cross _ _ HI); auto.
  - intros c1 H1. apply (iv_ridx _ _ HI); auto.
  - intros [] tip; cbn; rewrite ?Hlast; [apply (iv_below _ _ HI true)|apply (iv_below _ _ HI false)].
  - intros [] tip; cbn; rewrite ?Hlast; [apply (iv_asset _ _ HI true)|apply (iv_asset _ _ HI false)].
Qed.

(** The forwarding loop writes references and flags only. *)
Lemma forwardLoop_same source rt lt l : forall f,
  Forall2 (fun x y => x.1 = y.1 /\ same_heights x.2 y.2) l (forwardLoop source rt lt l f).1.
Proof.
  induction l as [|[e pd] l IH]; intros f; cbn [forwardLoop]; [constructor|].
  destruct (forwardEntry source rt lt pd f) as [pd' f'] eqn:Ef.
  destruct (forwardLoop source rt lt l f') as [l' f''] eqn:El. cbn. constructor.
  - split; [done|]. cbn. unfold forwardEntry in Ef.
    repeat case_match; injection Ef as <- <-; (done || by destruct pd).
  - specialize (IH f'). by rewrite El in IH.
Qed.

Lemma forwardLoop_quiet source rt lt u f :
  quiet u (set_entries u (forwardLoop source rt lt (entries u) f).1).
Proof.
  pose proof (forwardLoop_same source rt lt (entries u) f) as HF. split; [|done].
  split_and!; try done. eapply Forall2_impl; [done|]. cbn. intros x y (? & ? & ?). done.
Qed.

End inv.

(** * lnwallet: the channel as a transition system

    One step of a channel is one successful operation of ChannelOps.v.  Every
    such step is shown to be one of eight kinds of events, which is what the
    proofs of the invariants go by: an HTLC, a removal or a fee update appended
    to a log, a commitment signed or received, a commitment revoked by us or by
    the peer, or the first revocation key. *)

Section steps.
Context {BT : Btcec} {E : ChanEnv}.

(** ** Operations *)

Inductive op : Type :=
  | OpAddHTLC (htlc : UpdateAddHTLC.t) (openKey : option CircuitKey)
  | OpReceiveHTLC (htlc : UpdateAddHTLC.t)
  | OpSettleHTLC (preimage : list byte) (htlcIndex : Z) (sourceRef : option AddRef)
      (destRef : option SettleFailRef) (closeKey : option CircuitKey)
  | OpReceiveHTLCSettle (preimage : list byte) (htlcIndex : Z)
  | OpFailHTLC (htlcIndex : Z) (reason : list byte) (sourceRef : option AddRef)
      (destRef : option SettleFailRef) (closeKey : option CircuitKey)
  | OpMalformedFailHTLC (htlcIndex failCode : Z) (shaOnionBlob : list byte)
      (sourceRef : option AddRef)
  | OpReceiveFailHTLC (htlcIndex : Z) (reason : list byte)
  | OpUpdateFee (feePerKw : Z)
  | OpReceiveUpdateFee (feePerKw : Z)
  | OpSignNextCommitment (dbOk : bool)
  | OpReceiveNewCommitment (commitSig : list byte) (htlcSigs : list (list byte))
  | OpRevokeCurrentCommitment (dbOk : bool)
  | OpReceiveRevocation (dbOk : bool) (revMsg : RevokeAndAck.t)
  | OpInitNextRevocation (dbOk : bool) (revKey : pubkey).

Definition discard {A} (m : M A) : M unit := _ <== m ; cret tt.

Definition run (o : op) : M unit :=
  match o with
  | OpAddHTLC htlc openKey => discard (AddHTLC htlc openKey)
  | OpReceiveHTLC htlc => discard (ReceiveHTLC htlc)
  | OpSettleHTLC p i s d k => SettleHTLC p i s d k
  | OpReceiveHTLCSettle p i => ReceiveHTLCSettle p i
  | OpFailHTLC i r s d k => FailHTLC i r s d k
  | OpMalformedFailHTLC i c sha s => MalformedFailHTLC i c sha s
  | OpReceiveFailHTLC i r => ReceiveFailHTLC i r
  | OpUpdateFee f => UpdateFee f
  | OpReceiveUpdateFee f => ReceiveUpdateFee f
  | OpSignNextCommitment dbOk => discard (SignNextCommitment dbOk)
  | OpReceiveNewCommitment sig sigs => ReceiveNewCommitment sig sigs
  | OpRevokeCurrentCommitment dbOk => discard (RevokeCurrentCommitment dbOk)
  | OpReceiveRevocation dbOk m => discard (ReceiveRevocation dbOk m)
  | OpInitNextRevocation dbOk k => InitNextRevocation dbOk k
  end.

(** An operation that only appends to the logs. *)
Definition is_update (o : op) : bool :=
  match o with
  | OpSignNextCommitment _ | OpReceiveNewCommitment _ _ | OpRevokeCurrentCommitment _
  | OpReceiveRevocation _ _ | OpInitNextRevocation _ _ => false
  | _ => true
  end.

(** Arguments in the range of their types: an amount is a 64-bit integer, and a
    fee rate travels as a 32-bit one. *)
Definition op_wf (o : op) : Prop :=
  match o with
  | OpAddHTLC htlc _ | OpReceiveHTLC htlc => in_u 64 (UpdateAddHTLC.Amount htlc)
  | OpUpdateFee f | OpReceiveUpdateFee f => in_u 32 f
  | _ => True
  end.

(** ** Events *)

Inductive event (lc : LightningChannel) : LightningChannel -> Prop :=
  | ev_add (remote : bool) pd :
      EntryType pd = Add -> LogIndex pd = logIndex (logOf remote lc) ->
      HtlcIndex pd = htlcCounter (logOf remote lc) -> heights pd = noHeights ->
      isForwarded pd = false -> in_u 64 (BtcAmount pd) ->
      event lc (set_logOf remote lc (appendHtlc (logOf remote lc) pd))
  | ev_remove (remote : bool) htlc pd :
      lookupHtlc (logOf (negb remote) lc) (ParentIndex pd) = Some htlc ->
      htlcHasModification (logOf (negb remote) lc) (ParentIndex pd) = false ->
      (EntryType pd = Settle -> RHash htlc = sha256 (RPreimage pd)) ->
      is_removal pd = true -> LogIndex pd = logIndex (logOf remote lc) ->
      BtcAmount pd = BtcAmount htlc -> AssetAmount pd = AssetAmount htlc ->
      heights pd = noHeights -> isForwarded pd = false ->
      event lc (set_logOf (negb remote) (set_logOf remote lc (appendUpdate (logOf remote lc) pd))
                  (markHtlcModified (logOf (negb remote) lc) (ParentIndex pd)))
  | ev_fee (remote : bool) pd :
      EntryType pd = FeeUpdate -> LogIndex pd = logIndex (logOf remote lc) ->
      heights pd = noHeights -> isForwarded pd = false -> in_u 32 (ToSatoshis (BtcAmount pd)) ->
      event lc (set_logOf remote lc (appendUpdate (logOf remote lc) pd))
  | ev_sign dbOk localTail keys c lc1 diff lc2 :
      tailOf false lc = Ok localTail ->
      CommitmentChain.hasUnackedCommitment (remoteCommitChain lc) = false ->
      (validateCommitmentSanity (Commitment.theirMessageIndex localTail) (logIndex (localUpdateLog lc))
         true None None lc).1 = Ok tt ->
      fetchCommitmentView true (logIndex (localUpdateLog lc)) (htlcCounter (localUpdateLog lc))
        (Commitment.theirMessageIndex localTail) (Commitment.theirHtlcIndex localTail) keys lc =
        (Ok c, lc1) ->
      Diff_Commitment diff = toDiskCommit false c ->
      AppendRemoteCommitChain dbOk diff lc1 = (Ok tt, lc2) ->
      event lc (set_chains lc2 (localCommitChain lc2) (remoteCommitChain lc2 ++ [c]) (currentHeight lc2))
  | ev_receive remoteTail keys c lc1 sig :
      tailOf true lc = Ok remoteTail ->
      (validateCommitmentSanity (logIndex (remoteUpdateLog lc)) (Commitment.ourMessageIndex remoteTail)
         false None None lc).1 = Ok tt ->
      fetchCommitmentView false (Commitment.ourMessageIndex remoteTail) (Commitment.ourHtlcIndex remoteTail)
        (logIndex (remoteUpdateLog lc)) (htlcCounter (remoteUpdateLog lc)) keys lc = (Ok c, lc1) ->
      event lc (set_chains lc1 (localCommitChain lc1 ++ [Commitment.set_sig c sig])
                  (remoteCommitChain lc1) (currentHeight lc1))
  | ev_revoke dbOk c newTail l acked lc2 :
      localCommitChain lc = c :: newTail :: l ->
      UpdateCommitment dbOk (toDiskCommit true newTail) acked
        (set_chains lc (newTail :: l) (remoteCommitChain lc) (u64 (currentHeight lc + 1))) = (Ok tt, lc2) ->
      event lc lc2
  | ev_revocation dbOk c l localTail rev fwdPkg updates f lc2 local remote :
      remoteCommitChain lc = c :: l -> tailOf false lc = Ok localTail ->
      AdvanceCommitChainTail dbOk fwdPkg updates
        (set_logs (set_revocation lc rev) (localUpdateLog lc)
           (set_entries (remoteUpdateLog lc)
              (forwardLoop (ShortChanID lc) (u64 (Commitment.height c + 1)) (Commitment.height localTail)
                 (entries (remoteUpdateLog lc)) f).1)) = (Ok tt, lc2) ->
      compactLogs (localUpdateLog lc2) (remoteUpdateLog lc2) (Commitment.height localTail)
        (u64 (Commitment.height c + 1)) = Ok (local, remote) ->
      event lc (set_logs (set_chains lc2 (localCommitChain lc2) l (currentHeight lc2)) local remote)
  | ev_init rev b :
      db_localCommitment b = db_localCommitment (bucket lc) ->
      db_remoteCommitment b = db_remoteCommitment (bucket lc) ->
      db_commitDiff b = db_commitDiff (bucket lc) ->
      db_revocationLog b = db_revocationLog (bucket lc) -> db_revocation b = rev ->
      event lc (set_db (set_revocation lc rev) (LocalCommitment lc) (RemoteCommitment lc) b).

(** ** Every successful operation is an event *)

Lemma discard_ok {A} (m : M A) lc lc' :
  discard m lc = (Ok tt, lc') -> exists a, m lc = (Ok a, lc').
Proof. intros H. apply cbind_ok in H as (a & lc1 & Hm & [= <-]). by exists a. Qed.

Lemma validateAddHtlc_pure pd lc :
  log_wf (localUpdateLog lc) -> log_wf (remoteUpdateLog lc) -> (validateAddHtlc pd lc).2 = lc.
Proof.
  intros H1 H2. unfold validateAddHtlc. case_bool_decide; [done|]. destruct (_ && _); [done|].
  rewrite cbind_cget. apply cbind_pure; [done|]. intros tail.
  apply cbind_pure; [by apply validateCommitmentSanity_pure|]. intros [].
  by apply validateCommitmentSanity_pure.
Qed.

(** A computation that leaves the state alone, followed by another. *)
Lemma pure_ok {A B} (m : M A) (k : A -> M B) lc b lc' :
  (m lc).2 = lc -> cbind m k lc = (Ok b, lc') -> exists a, (m lc).1 = Ok a /\ k a lc = (Ok b, lc').
Proof.
  intros Hp H. apply cbind_ok in H as (a & lc1 & Hm & H). rewrite Hm in Hp. cbn in Hp. subst.
  exists a. by rewrite Hm.
Qed.

Lemma addDescriptor_amount u htlc k :
  in_u 64 (UpdateAddHTLC.Amount htlc) -> in_u 64 (BtcAmount (addDescriptor u htlc k)).
Proof. intros H. cbn. case_bool_decide; [done|]. apply u64_in. Qed.

Lemma findHtlc_ok u i already htlc :
  log_wf u -> findHtlc u i already = Ok htlc ->
  lookupHtlc u i = Some htlc /\ htlcHasModification u i = false /\ HtlcIndex htlc = i.
Proof.
  intros Hwf. unfold findHtlc. destruct (lookupHtlc u i) as [h|] eqn:El; [|done].
  destruct (htlcHasModification u i); [done|]. intros [= <-]. split; [done|]. split; [done|].
  apply lookupHtlc_Some in El as (e & _ & _ & Hi); done.
Qed.

Lemma feeDescriptor_rate u a f : in_u 32 f -> in_u 32 (ToSatoshis (BtcAmount (feeDescriptor u a f))).
Proof.
  unfold in_u. intros H. cbn [feeDescriptor BtcAmount]. rewrite ToSatoshis_NewMSat; [done|].
  change (MaxMilliSatoshi / 1000) with 18446744073709551. lia.
Qed.

(** The five removals: whose log the HTLC is in, and what the descriptor holds. *)
Lemma removal_event remote lc idx already htlc pd :
  log_wf (logOf (negb remote) lc) ->
  findHtlc (logOf (negb remote) lc) idx already = Ok htlc ->
  ParentIndex pd = idx -> (EntryType pd = Settle -> RHash htlc = sha256 (RPreimage pd)) ->
  is_removal pd = true -> LogIndex pd = logIndex (logOf remote lc) ->
  BtcAmount pd = BtcAmount htlc -> AssetAmount pd = AssetAmount htlc ->
  heights pd = noHeights -> isForwarded pd = false ->
  event lc (set_logOf (negb remote) (set_logOf remote lc (appendUpdate (logOf remote lc) pd))
              (markHtlcModified (logOf (negb remote) lc) (ParentIndex pd))).
Proof. intros Hwf (Hl & Hm & _)%findHtlc_ok <-; [|done]. intros. by eapply ev_remove. Qed.

Ltac removal_tac b Hh Hf H :=
  rewrite cbind_cget in H; apply clift_ok in H as (htlc & Hf & H);
  try (case_bool_decide as Hh; [done|]);
  injection H as <-; pose proof Hf as (_ & _ & Hidx)%findHtlc_ok; [|done]; subst;
  match goal with |- context [appendUpdate _ ?pd] =>
    eapply (removal_event b _ _ _ htlc pd); done end.

Lemma update_event o lc lc' :
  log_wf (localUpdateLog lc) -> log_wf (remoteUpdateLog lc) -> op_wf o -> is_update o = true ->
  run o lc = (Ok tt, lc') -> event lc lc'.
Proof.
  intros H1 H2 Hop Hu H. destruct o; try done; cbn [run] in H; clear Hu.
  - apply discard_ok in H as (i & H). unfold AddHTLC in H. rewrite cbind_cget in H.
    apply pure_ok in H as ([] & _ & H); [|by apply validateAddHtlc_pure].
    injection H as _ <-. apply (ev_add lc false); try done. by apply addDescriptor_amount.
  - apply discard_ok in H as (i & H). unfold ReceiveHTLC in H. rewrite cbind_cget in H.
    case_bool_decide; [done|]. apply clift_ok in H as (tail & _ & H).
    apply pure_ok in H as ([] & _ & H); [|by apply validateCommitmentSanity_pure].
    injection H as _ <-. apply (ev_add lc true); try done. by apply addDescriptor_amount.
  - unfold SettleHTLC in H. removal_tac false Hh Hf H.
  - unfold ReceiveHTLCSettle in H. removal_tac true Hh Hf H.
  - unfold FailHTLC in H. removal_tac false Hh Hf H.
  - unfold MalformedFailHTLC in H. removal_tac false Hh Hf H.
  - unfold ReceiveFailHTLC in H. removal_tac true Hh Hf H.
  - unfold UpdateFee in H. rewrite cbind_cget in H. destruct (negb _); [done|].
    apply clift_ok in H as ([] & _ & H). injection H as <-.
    apply (ev_fee lc false); try done. by apply feeDescriptor_rate.
  - unfold ReceiveUpdateFee in H. rewrite cbind_cget in H. destruct (IsInitiator _); [done|].
    injection H as <-. apply (ev_fee lc true); try done. by apply feeDescriptor_rate.
Qed.

Lemma sign_event dbOk lc a lc' :
  log_wf (localUpdateLog lc) -> log_wf (remoteUpdateLog lc) ->
  SignNextCommitment dbOk lc = (Ok a, lc') -> event lc lc'.
Proof.
  intros H1 H2 H. unfold SignNextCommitment in H. rewrite cbind_cget in H.
  destruct (RemoteNextRevocation _) as [commitPoint|]; [|done].
  destruct (CommitmentChain.hasUnackedCommitment _) eqn:Hun; [done|].
  apply clift_ok in H as (localTail & Htail & H).
  apply pure_ok in H as ([] & Hs & H); [|by apply validateCommitmentSanity_pure].
  apply cbind_ok in H as (c & lc1 & Hf & H).
  destruct (SignOutputRaw _) as [sig|]; [|done]. destruct (signHtlcs _ _) as [sigs|]; [|done].
  rewrite cbind_cget in H. apply cbind_ok in H as ([] & lc2 & Hdb & H). injection H as _ <-.
  exact (ev_sign lc dbOk localTail _ c lc1 (createCommitDiff lc1 c sig sigs) lc2 Htail Hun Hs Hf eq_refl Hdb).
Qed.

Lemma receive_event sig sigs lc lc' :
  log_wf (localUpdateLog lc) -> log_wf (remoteUpdateLog lc) ->
  ReceiveNewCommitment sig sigs lc = (Ok tt, lc') -> event lc lc'.
Proof.
  intros H1 H2 H. unfold ReceiveNewCommitment in H. rewrite cbind_cget in H.
  apply clift_ok in H as (remoteTail & Htail & H).
  apply pure_ok in H as ([] & Hs & H); [|by apply validateCommitmentSanity_pure].
  destruct (AtIndex _) as [secret|]; [|done]. apply cbind_ok in H as (c & lc1 & Hf & H).
  destruct (negb _); [done|]. injection H as <-. by eapply ev_receive.
Qed.

Lemma revoke_event dbOk lc a lc' :
  RevokeCurrentCommitment dbOk lc = (Ok a, lc') -> event lc lc'.
Proof.
  intros H. unfold RevokeCurrentCommitment in H. rewrite cbind_cget in H.
  apply clift_ok in H as (msg & _ & H). apply clift_ok in H as (c & Hc & H).
  apply clift_ok in H as (chain & Hch & H). apply cbind_ok in H as ([] & lc1 & [= <-] & H).
  rewrite cbind_cget in H. apply clift_ok in H as (newTail & Ht & H).
  apply clift_ok in H as (acked & _ & H). apply cbind_ok in H as ([] & lc2 & Hdb & H).
  injection H as _ <-. destruct (localCommitChain lc) as [|c0 [|c1 l]] eqn:El; try done.
  - injection Hch as <-. done.
  - injection Hch as <-. injection Ht as <-. by eapply ev_revoke.
Qed.

Lemma revocation_event dbOk m lc a lc' :
  ReceiveRevocation dbOk m lc = (Ok a, lc') -> event lc lc'.
Proof.
  intros H. unfold ReceiveRevocation in H. rewrite cbind_cget in H.
  destruct (AddNextEntry _ _) as [store|]; [|done]. apply cbind_ok in H as ([] & lc1 & [= <-] & H).
  destruct (RemoteCurrentRevocation _) as [point|]; [|done]. destruct (negb _); [done|].
  apply cbind_ok in H as ([] & lc1 & [= <-] & H).
  apply clift_ok in H as (c & Hc & H). apply clift_ok in H as (localTail & Ht & H).
  destruct (forwardLoop _ _ _ _ _) as [l f] eqn:Ef. apply cbind_ok in H as ([] & lc1 & [= <-] & H).
  apply clift_ok in H as (rtip & _ & H). apply cbind_ok in H as ([] & lc2 & Hdb & H).
  apply clift_ok in H as (chain & Hch & H). apply cbind_ok in H as ([] & lc3 & [= <-] & H).
  rewrite cbind_cget in H. apply clift_ok in H as ([local remote] & Hcp & H).
  apply cbind_ok in H as ([] & lc4 & [= <-] & H). injection H as _ <-.
  destruct (remoteCommitChain lc) as [|c0 rest] eqn:Er; [done|].
  unfold tailOf, CommitmentChain.tail, chainOf in Hc. rewrite Er in Hc. injection Hc as <-.
  injection Hch as <-.
  eapply (ev_revocation lc dbOk c0 rest localTail _ _ _ (mkForwarding 0 0 [] []) lc2 local remote);
    [done|done| |].
  - rewrite Ef. exact Hdb.
  - cbn in Hcp. unfold or_panic in Hcp. destruct (compactLogs _ _ _ _); [|done..]. by injection Hcp as ->.
Qed.

Lemma run_event o lc lc' :
  log_wf (localUpdateLog lc) -> log_wf (remoteUpdateLog lc) -> op_wf o ->
  run o lc = (Ok tt, lc') -> event lc lc'.
Proof.
  intros H1 H2 Hop H. destruct (is_update o) eqn:Hu; [by eapply update_event|].
  destruct o; try done; cbn [run] in H.
  - apply discard_ok in H as (a & H). by eapply sign_event.
  - by eapply receive_event.
  - apply discard_ok in H as (a & H). by eapply revoke_event.
  - apply discard_ok in H as (a & H). by eapply revocation_event.
  - unfold InitNextRevocation in H. apply cbind_ok in H as ([] & lc1 & [= <-] & H).
    destruct (negb dbOk); [done|]. injection H as <-. by apply ev_init.
Qed.

End steps.
