(* ===== verification/ChannelReach.v ===== *)
(** * lnwallet: the reachable states of a channel

    The invariant of ChannelInv.v is kept by every event of ChannelInv.v, so it
    holds in every state reachable from an opened channel.  On top of it: the
    funds of a bitcoin channel, what the database holds, and what can happen to
    an HTLC over the life of a channel. *)

From Stdlib Require Import ZArith Lia Sorted.
From S2P Require Import Prelude Wire WireMessages WireModels Amounts OpReturn UpdateLog.
From S2P Require Import CommitTx ChannelState ChannelModel ChannelView ViewLemmas ViewConservation ChannelOps.
From S2P Require Import ChannelInv.

Local Open Scope Z_scope.
Local Open Scope go_scope.

Create HintDb safe.

Section reach.
Context {BT : Btcec} {E : ChanEnv}.

(** ** Reachability *)

(** A channel right after it was opened. *)
Record opened (lc : LightningChannel) : Prop := {
  op_local_log : localUpdateLog lc = newUpdateLog 0 0;
  op_remote_log : remoteUpdateLog lc = newUpdateLog 0 0;
  op_height : currentHeight lc = 0;
  op_chains : exists l r, localCommitChain lc = [l] /\ remoteCommitChain lc = [r] /\
    Forall (fun c => Commitment.height c = 0 /\ Commitment.ourMessageIndex c = 0 /\
      Commitment.theirMessageIndex c = 0) [l; r] /\
    Commitment.ourAssetBalance r = Commitment.ourAssetBalance l /\
    Commitment.theirAssetBalance r = Commitment.theirAssetBalance l /\
    Commitment.ourBtcBalance r = Commitment.ourBtcBalance l /\
    Commitment.theirBtcBalance r = Commitment.theirBtcBalance l /\
    Commitment.fee r = Commitment.fee l /\ Commitment.feePerKw r = Commitment.feePerKw l /\
    LocalCommitment lc = toDiskCommit true l /\ RemoteCommitment lc = toDiskCommit false r;
  op_bucket : db_localCommitment (bucket lc) = LocalCommitment lc /\
    db_remoteCommitment (bucket lc) = RemoteCommitment lc /\
    db_commitDiff (bucket lc) = None /\ db_revocationLog (bucket lc) = [] /\
    db_revocation (bucket lc) = revocation lc;
}.

(** A step: a successful operation, or an update that was refused. *)
Definition step (lc : LightningChannel) (o : op) (lc' : LightningChannel) : Prop :=
  op_wf o /\ exists r, run o lc = (r, lc') /\ (r = Ok tt \/ is_update o = true).

Inductive reachable (lc0 : LightningChannel) : LightningChannel -> Prop :=
  | reach_refl : reachable lc0 lc0
  | reach_step lc o lc' : reachable lc0 lc -> room lc -> step lc o lc' -> reachable lc0 lc'.

(** What the database holds: our commitment and theirs as they are at the tails,
    the pending commitment exactly while one is unacknowledged, the revocation
    state, and every revoked commitment of the peer at its height. *)
Record DbInv (lc : LightningChannel) : Prop := {
  di_local : exists c l, localCommitChain lc = c :: l /\ LocalCommitment lc = toDiskCommit true c;
  di_remote : exists c l, remoteCommitChain lc = c :: l /\ RemoteCommitment lc = toDiskCommit false c /\
    Commitment.height c = Z.of_nat (length (db_revocationLog (bucket lc))) /\
    match l with
    | [] => db_commitDiff (bucket lc) = None
    | c' :: _ => exists diff, db_commitDiff (bucket lc) = Some diff /\
                   Diff_Commitment diff = toDiskCommit false c'
    end;
  di_bucket : db_localCommitment (bucket lc) = LocalCommitment lc /\
    db_remoteCommitment (bucket lc) = RemoteCommitment lc /\ db_revocation (bucket lc) = revocation lc;
  di_log : forall i c, db_revocationLog (bucket lc) !! i = Some c -> CommitHeight c = Z.of_nat i;
}.

(** The assets of a channel, from our commitment. *)
Definition assetsOf (lc : LightningChannel) : Z :=
  match last (localCommitChain lc) with
  | Some c => Commitment.ourAssetBalance c + Commitment.theirAssetBalance c
  | None => 0
  end.

(** ** Refused updates *)

(** Nothing is changed unless the computation succeeds. *)
Definition safe {A} (m : M A) (lc : LightningChannel) : Prop :=
  (m lc).2 = lc \/ exists a, (m lc).1 = Ok a.

Lemma safe_bind {A B} (m : M A) (k : A -> M B) lc :
  (m lc).2 = lc -> (forall a, safe (k a) lc) -> safe (cbind m k) lc.
Proof.
  unfold safe, cbind. intros Hm Hk. destruct (m lc) as [[a|e|] lc1]; cbn in *; subst; auto.
Qed.

Lemma safe_cget {B} (k : LightningChannel -> M B) lc : safe (k lc) lc -> safe (cbind cget k) lc.
Proof. done. Qed.

Lemma safe_fail {A} e lc : safe (cfail (A := A) e) lc.
Proof. by left. Qed.

Lemma safe_cput f lc : safe (cput f) lc.
Proof. right. by exists tt. Qed.

Lemma safe_put {A} f (a : A) lc : safe (cbind (cput f) (fun _ => cret a)) lc.
Proof. right. by exists a. Qed.

Lemma safe_discard {A} (m : M A) lc : safe m lc -> safe (discard m) lc.
Proof.
  unfold safe, discard, cbind. destruct (m lc) as [[a|e|] lc1]; cbn; intros [H|[x H]]; subst; eauto; done.
Qed.

#[local] Hint Resolve safe_fail safe_cput safe_put validateAddHtlc_pure
  validateCommitmentSanity_pure : safe.

Lemma update_safe o lc :
  log_wf (localUpdateLog lc) -> log_wf (remoteUpdateLog lc) -> is_update o = true -> safe (run o) lc.
Proof.
  intros H1 H2 Hu. destruct o; try done; cbn [run]; try apply safe_discard; apply safe_cget.
  - apply safe_bind; auto with safe.
  - case_bool_decide; auto with safe. apply safe_bind; [done|]. intros tail.
    apply safe_bind; auto with safe.
  - apply safe_bind; [done|]. intros htlc. case_bool_decide; auto with safe. apply safe_cput.
  - apply safe_bind; [done|]. intros htlc. case_bool_decide; auto with safe. apply safe_cput.
  - apply safe_bind; [done|]. intros htlc. apply safe_cput.
  - apply safe_bind; [done|]. intros htlc. apply safe_cput.
  - apply safe_bind; [done|]. intros htlc. apply safe_cput.
  - destruct (negb _); auto with safe. apply safe_bind; auto with safe.
  - destruct (IsInitiator _); auto with safe.
Qed.

Lemma update_refused o lc r lc' :
  log_wf (localUpdateLog lc) -> log_wf (remoteUpdateLog lc) -> is_update o = true ->
  run o lc = (r, lc') -> r <> Ok tt -> lc' = lc.
Proof.
  intros H1 H2 Hu H Hr. destruct (update_safe o lc H1 H2 Hu) as [Hs|[[] Hs]]; rewrite H in Hs; done.
Qed.

Lemma step_event lc o lc' :
  log_wf (localUpdateLog lc) -> log_wf (remoteUpdateLog lc) -> step lc o lc' ->
  lc' = lc \/ event lc lc'.
Proof.
  intros H1 H2 (Hop & r & Hr & Hok). destruct r as [[]|e|].
  - right. by eapply run_event.
  - left. destruct Hok as [|Hu]; [done|]. by eapply update_refused.
  - left. destruct Hok as [|Hu]; [done|]. by eapply update_refused.
Qed.

(** ** The invariant is kept *)

Lemma set_logOf_grow assets remote lc u :
  Inv assets lc -> logs_wf u (logOf (negb remote) lc) -> grows (logOf remote lc) u ->
  Inv assets (set_logOf remote lc u).
Proof.
  intros HI Hwf Hg. destruct remote; cbn in *; apply grow_inv; try done; try apply grows_refl.
  by apply logs_wf_sym.
Qed.

Lemma append_grows u v pd :
  entries v = entries u ++ [(nextElem u, pd)] -> logIndex v = u64 (logIndex u + 1) ->
  log_wf u -> has_room u -> heights pd = noHeights -> grows u v.
Proof.
  intros Ev Ei Hwf [Hr _] Hh. split.
  - eexists. split; [done|]. by constructor.
  - rewrite Ei. pose proof (lw_range _ Hwf) as [Hu _]. unfold in_u in Hu.
    rewrite u64_id; [lia|]. unfold in_u. lia.
Qed.

(** The database methods only touch the bucket and the stored commitments. *)
Lemma dbGuard_ok {B} dbOk (k : unit -> M B) lc b lc' :
  cbind (dbGuard dbOk) k lc = (Ok b, lc') -> k tt lc = (Ok b, lc').
Proof.
  intros H. apply cbind_ok in H as ([] & lc1 & Hg & H). unfold dbGuard in Hg. rewrite cbind_cget in Hg.
  destruct (isRestored lc), (db_borked (bucket lc)), (negb dbOk); try done. by injection Hg as <-.
Qed.

Definition db_only (lc lc' : LightningChannel) : Prop :=
  exists l r b, lc' = set_db lc l r b.

Lemma UpdateCommitment_db dbOk c acked lc lc' :
  UpdateCommitment dbOk c acked lc = (Ok tt, lc') -> db_only lc lc'.
Proof. intros H%dbGuard_ok. injection H as <-. by eexists _, _, _. Qed.

Lemma AppendRemoteCommitChain_db dbOk diff lc lc' :
  AppendRemoteCommitChain dbOk diff lc = (Ok tt, lc') -> db_only lc lc'.
Proof. intros H%dbGuard_ok. injection H as <-. by eexists _, _, _. Qed.

Lemma AdvanceCommitChainTail_db dbOk pkg upds lc lc' :
  AdvanceCommitChainTail dbOk pkg upds lc = (Ok tt, lc') -> db_only lc lc'.
Proof.
  intros H%dbGuard_ok. rewrite cbind_cget in H. destruct (db_commitDiff _); [|done].
  injection H as <-. by eexists _, _, _.
Qed.

Lemma inv_db assets lc lc' : db_only lc lc' -> Inv assets lc -> Inv assets lc'.
Proof. intros (l & r & b & ->). by apply inv_ext. Qed.

Lemma logOf_wf assets remote lc :
  Inv assets lc -> logs_wf (logOf remote lc) (logOf (negb remote) lc).
Proof. intros HI. pose proof (iv_logs _ _ HI). destruct remote; [by apply logs_wf_sym|done]. Qed.

Lemma logOf_room remote lc : room lc -> has_room (logOf remote lc).
Proof. intros (H1 & H2 & _). by destruct remote. Qed.

Lemma append_inv assets remote lc u pd :
  Inv assets lc -> room lc -> heights pd = noHeights ->
  entries u = entries (logOf remote lc) ++ [(nextElem (logOf remote lc), pd)] ->
  logIndex u = u64 (logIndex (logOf remote lc) + 1) ->
  logs_wf u (logOf (negb remote) lc) -> Inv assets (set_logOf remote lc u).
Proof.
  intros HI Hroom Hh Eu Ei Hwf. apply set_logOf_grow; [done..|].
  eapply append_grows; [exact Eu|done| |by apply logOf_room|done].
  by destruct (logOf_wf _ remote _ HI).
Qed.

Lemma remove_inv assets remote lc htlc pd :
  Inv assets lc -> room lc -> is_removal pd = true -> LogIndex pd = logIndex (logOf remote lc) ->
  lookupHtlc (logOf (negb remote) lc) (ParentIndex pd) = Some htlc ->
  htlcHasModification (logOf (negb remote) lc) (ParentIndex pd) = false ->
  BtcAmount pd = BtcAmount htlc -> AssetAmount pd = AssetAmount htlc -> heights pd = noHeights ->
  Inv assets (set_logOf (negb remote) (set_logOf remote lc (appendUpdate (logOf remote lc) pd))
                (markHtlcModified (logOf (negb remote) lc) (ParentIndex pd))).
Proof.
  intros HI Hroom Hr Hi Hl Hm Hb Ha Hh. pose proof (logOf_wf _ remote _ HI) as Hwf.
  pose proof (logOf_room remote _ Hroom) as Hrm.
  apply lookupHtlc_Some in Hl as (e & Hin & Hadd & Hidx); [|apply Hwf].
  unfold htlcHasModification in Hm. apply bool_decide_eq_false in Hm.
  assert (logs_wf (appendUpdate (logOf remote lc) pd)
    (markHtlcModified (logOf (negb remote) lc) (ParentIndex pd))) as Hwf' by (by eapply removal_logs_wf).
  assert (grows (logOf remote lc) (appendUpdate (logOf remote lc) pd)) as G1
    by (by eapply append_grows; try apply Hwf).
  assert (grows (logOf (negb remote) lc) (markHtlcModified (logOf (negb remote) lc) (ParentIndex pd))) as G2.
  { split; [exists []; by rewrite app_nil_r|done]. }
  destruct remote; cbn in *.
  - apply (grow_inv _ lc); try done. by apply logs_wf_sym.
  - by apply (grow_inv _ lc).
Qed.

Lemma revocation_inv assets lc c l localTail rev source rt lt f fwdPkg updates dbOk lc2 local remote :
  Inv assets lc -> remoteCommitChain lc = c :: l -> l <> [] ->
  AdvanceCommitChainTail dbOk fwdPkg updates
    (set_logs (set_revocation lc rev) (localUpdateLog lc)
       (set_entries (remoteUpdateLog lc)
          (forwardLoop source rt lt (entries (remoteUpdateLog lc)) f).1)) = (Ok tt, lc2) ->
  compactLogs (localUpdateLog lc2) (remoteUpdateLog lc2) (Commitment.height localTail) rt =
    Ok (local, remote) ->
  Inv assets (set_logs (set_chains lc2 (localCommitChain lc2) l (currentHeight lc2)) local remote).
Proof.
  intros HI Er Hne Hdb Hc. pose proof (AdvanceCommitChainTail_db _ _ _ _ _ Hdb) as Ho.
  assert (Inv assets lc2) as H2.
  { eapply inv_db; [done|]. apply (quiet_inv _ (set_revocation lc rev));
      [by eapply inv_ext, HI|done|apply forwardLoop_quiet]. }
  eapply compact_inv; [|exact Hc]. destruct Ho as (l0 & r0 & b0 & ->).
  by apply (advance_remote _ _ c).
Qed.

Lemma fetch_framed assets rc oi oh ti th keys lc c lc1 :
  Inv assets lc -> fetchCommitmentView rc oi oh ti th keys lc = (Ok c, lc1) ->
  localCommitChain lc1 = localCommitChain lc /\ remoteCommitChain lc1 = remoteCommitChain lc /\
  currentHeight lc1 = currentHeight lc /\ cfg lc1 = cfg lc /\
  LocalCommitment lc1 = LocalCommitment lc /\ RemoteCommitment lc1 = RemoteCommitment lc /\
  revocation lc1 = revocation lc /\ bucket lc1 = bucket lc.
Proof.
  intros HI Hrun.
  destruct (fetchCommitmentView_run _ _ _ _ _ _ _ _ _ Hrun) as (tip & bal & w & v & lc0 & _ & Hcv & F & _).
  pose proof (iv_logs _ _ HI) as (W1 & W2 & _).
  destruct (computeView_run _ _ _ _ _ _ _ _ _ W1 W2 Hcv) as (tip' & _ & F0 & _).
  by destruct (transitivity F0 F) as (l & r & t & ->).
Qed.

Lemma event_inv assets lc lc' :
  Inv assets lc -> DbInv lc -> room lc -> event lc lc' -> Inv assets lc'.
Proof.
  intros HI HD Hroom Hev.
  destruct Hev as [remote pd Ha Hi Hc Hh _ _|remote htlc pd Hl Hm _ Hr Hi Hb Has Hh _|remote pd Hf Hi Hh _ _
    |dbOk lt keys c lc1 diff lc2 Ht Hun _ Hrun _ Hdb|rt keys c lc1 sig Ht _ Hrun
    |dbOk c nt l acked lc2 El Hdb|dbOk c l lt rev pkg upds f lc2 local remote Er Ht Hdb Hcp|rev b _ _ _ _ _].
  - eapply append_inv; try done. apply add_logs_wf; try done; [by eapply logOf_wf|by apply logOf_room].
  - by eapply remove_inv.
  - eapply append_inv; try done. apply fee_logs_wf; try done; [by eapply logOf_wf|by apply logOf_room].
  - pose proof (AppendRemoteCommitChain_db _ _ _ _ Hdb) as (l0 & r0 & b0 & ->).
    destruct (fetch_framed _ _ _ _ _ _ _ _ _ _ HI Hrun) as (F1 & F2 & F3 & _).
    eapply (extend_remote assets lc lt); try done; cbn. by rewrite F2.
  - destruct (fetch_framed _ _ _ _ _ _ _ _ _ _ HI Hrun) as (F1 & F2 & F3 & _).
    eapply (extend_local assets lc rt) with (c' := Commitment.set_sig c sig); try done; cbn. by rewrite F1.
  - eapply inv_db; [by eapply UpdateCommitment_db|]. eapply advance_local; try done.
    destruct Hroom as (_ & _ & Hr & _). destruct (iv_lheights _ _ HI) as [_ Hch]. rewrite El in Hch.
    destruct Hch as [<- _]. apply (Hr false). cbn. rewrite El. by left.
  - eapply revocation_inv; try done. intros ->. destruct (di_remote _ HD) as (c' & l' & Er' & _ & _ & Hd).
    rewrite Er in Er'. injection Er' as <- <-. apply dbGuard_ok in Hdb. rewrite cbind_cget in Hdb.
    cbn in Hdb. by rewrite Hd in Hdb.
  - by eapply inv_ext, HI.
Qed.

Lemma db_frame lc lc' :
  localCommitChain lc' = localCommitChain lc -> remoteCommitChain lc' = remoteCommitChain lc ->
  LocalCommitment lc' = LocalCommitment lc -> RemoteCommitment lc' = RemoteCommitment lc ->
  revocation lc' = revocation lc -> bucket lc' = bucket lc -> DbInv lc -> DbInv lc'.
Proof. intros E1 E2 E3 E4 E5 E6 HD. split; rewrite ?E1, ?E2, ?E3, ?E4, ?E5, ?E6; apply HD. Qed.

Lemma db_set_logOf remote lc u : DbInv lc -> DbInv (set_logOf remote lc u).
Proof. by apply db_frame; destruct remote. Qed.

Lemma sign_db lc1 dbOk diff c lc2 :
  DbInv lc1 -> length (remoteCommitChain lc1) = 1%nat -> Diff_Commitment diff = toDiskCommit false c ->
  AppendRemoteCommitChain dbOk diff lc1 = (Ok tt, lc2) ->
  DbInv (set_chains lc2 (localCommitChain lc2) (remoteCommitChain lc2 ++ [c]) (currentHeight lc2)).
Proof.
  intros HD Hlen Hc H%dbGuard_ok. injection H as <-.
  destruct (di_remote _ HD) as (r & l & Er & Hr & Hh & _). rewrite Er in Hlen.
  destruct l; [|done]. split; cbn; try apply HD. rewrite Er. exists r, [c]. by eauto 10.
Qed.

Lemma revoke_db lc dbOk c newTail l acked lc2 :
  DbInv lc -> localCommitChain lc = c :: newTail :: l ->
  UpdateCommitment dbOk (toDiskCommit true newTail) acked
    (set_chains lc (newTail :: l) (remoteCommitChain lc) (u64 (currentHeight lc + 1))) = (Ok tt, lc2) ->
  DbInv lc2.
Proof.
  intros HD El H%dbGuard_ok. injection H as <-. split; cbn; try apply HD.
  - by exists newTail, l.
  - by destruct (di_bucket _ HD) as (_ & ? & ?).
Qed.

Lemma revocation_db assets lc dbOk c l rev fwdPkg updates u lc2 local remote :
  Inv assets lc -> DbInv lc -> remoteCommitChain lc = c :: l ->
  AdvanceCommitChainTail dbOk fwdPkg updates
    (set_logs (set_revocation lc rev) (localUpdateLog lc) u) = (Ok tt, lc2) ->
  DbInv (set_logs (set_chains lc2 (localCommitChain lc2) l (currentHeight lc2)) local remote).
Proof.
  intros HI HD Er H%dbGuard_ok. rewrite cbind_cget in H. cbn in H.
  destruct (di_remote _ HD) as (c' & l' & Er' & Hrc & Hh & Hl). rewrite Er in Er'. injection Er' as <- <-.
  destruct l as [|c2 l]; [by rewrite Hl in H|]. destruct Hl as (diff & Hd & Hdc). rewrite Hd in H.
  injection H as <-. destruct (iv_rheights _ _ HI) as (h & _ & Hch). rewrite Er in Hch.
  destruct Hch as (H1 & H2 & _). destruct (iv_remote _ _ HI) as [_ Hlen]. rewrite Er in Hlen.
  cbn in Hlen. destruct l; [|cbn in Hlen; lia].
  split; cbn; try apply HD.
  - exists c2, []. rewrite length_app. cbn. split; [done|]. split; [done|]. split; [lia|done].
  - by destruct (di_bucket _ HD) as (? & _).
  - intros i cc [Hi|[Hi Hcc]]%lookup_app_Some; [by apply (di_log _ HD)|].
    destruct (i - _)%nat eqn:Ei; [|done]. injection Hcc as <-. rewrite Hrc. cbn. lia.
Qed.

Lemma event_db assets lc lc' :
  Inv assets lc -> DbInv lc -> event lc lc' -> DbInv lc'.
Proof.
  intros HI HD Hev.
  destruct Hev as [remote pd _ _ _ _ _ _|remote htlc pd _ _ _ _ _ _ _ _ _|remote pd _ _ _ _ _
    |dbOk lt keys c lc1 diff lc2 Ht Hun _ Hrun Hdc Hdb|rt keys c lc1 sig Ht _ Hrun
    |dbOk c nt l acked lc2 El Hdb|dbOk c l lt rev pkg upds f lc2 local remote Er Ht Hdb Hcp|rev b B1 B2 B3 B4 B5].
  - by apply db_set_logOf.
  - by do 2 apply db_set_logOf.
  - by apply db_set_logOf.
  - destruct (fetch_framed _ _ _ _ _ _ _ _ _ _ HI Hrun) as (F1 & F2 & F3 & F4 & F5 & F6 & F7 & F8).
    eapply sign_db; [by eapply db_frame| |exact Hdc|exact Hdb]. rewrite F2.
    unfold CommitmentChain.hasUnackedCommitment in Hun. apply bool_decide_eq_false in Hun.
    destruct (iv_remote _ _ HI) as [Hne _]. destruct (remoteCommitChain lc); [done|]. cbn in *. lia.
  - destruct (fetch_framed _ _ _ _ _ _ _ _ _ _ HI Hrun) as (F1 & F2 & F3 & F4 & F5 & F6 & F7 & F8).
    assert (DbInv lc1) as HD1 by (by eapply db_frame). split; cbn; try apply HD1.
    destruct (di_local _ HD1) as (c0 & l & -> & ?). by exists c0, (l ++ [Commitment.set_sig c sig]).
  - by eapply revoke_db.
  - by eapply revocation_db.
  - split; cbn; rewrite ?B1, ?B2, ?B3, ?B4; try apply HD. by destruct (di_bucket _ HD) as (? & ? & _).
Qed.

(** ** Opened channels *)

Lemma opened_inv lc : opened lc -> Inv (assetsOf lc) lc.
Proof.
  intros HO. destruct (op_chains _ HO) as (l & r & El & Er & HF & A1 & A2 & _).
  apply Forall_cons in HF as ((L1 & L2 & L3) & HF). apply Forall_cons in HF as ((R1 & R2 & R3) & _).
  assert (forall rc u idx, u = newUpdateLog 0 0 -> committedBelow rc u idx) as Hcb.
  { intros rc u idx -> e pd Hin. by apply elem_of_nil in Hin. }
  pose proof (op_local_log _ HO) as E1. pose proof (op_remote_log _ HO) as E2.
  assert (forall c, c ∈ localCommitChain lc -> c = l) as Hl0.
  { intros c. rewrite El. by intros ->%list_elem_of_singleton. }
  assert (forall c, c ∈ remoteCommitChain lc -> c = r) as Hr0.
  { intros c. rewrite Er. by intros ->%list_elem_of_singleton. }
  split; rewrite ?(op_height _ HO).
  - rewrite E1, E2. by apply new_logs_wf.
  - by rewrite El.
  - rewrite Er. cbn. split; [done|lia].
  - rewrite El. split; [lia|done].
  - exists 0. rewrite Er. split; [lia|done].
  - rewrite El. by repeat constructor.
  - rewrite Er. by repeat constructor.
  - intros c c' ->%Hl0 ->%Hr0. lia.
  - intros c ->%Hl0. rewrite E2. cbn. lia.
  - intros c ->%Hr0. rewrite E1. cbn. lia.
  - intros rc tip _. by split; apply Hcb.
  - intros rc tip Htip. unfold inFlightAmt, inFlightOf. rewrite E1, E2. cbn. unfold assetsOf. rewrite El. cbn.
    destruct rc; cbn in Htip; rewrite ?El, ?Er in Htip; injection Htip as <-; rewrite ?A1, ?A2, Z.add_0_r;
      reflexivity.
Qed.

Lemma opened_db lc : opened lc -> DbInv lc.
Proof.
  intros HO. destruct (op_chains _ HO) as (l & r & El & Er & HF & _ & _ & _ & _ & _ & _ & D1 & D2).
  apply Forall_cons in HF as (_ & HF). apply Forall_cons in HF as ((R1 & _) & _).
  destruct (op_bucket _ HO) as (B1 & B2 & B3 & B4 & B5). split.
  - by exists l, [].
  - exists r, []. by rewrite B4.
  - done.
  - rewrite B4. done.
Qed.

Lemma reachable_inv lc0 lc :
  opened lc0 -> reachable lc0 lc -> Inv (assetsOf lc0) lc /\ DbInv lc.
Proof.
  intros HO Hr. induction Hr as [|lc o lc' Hr [HI HD] Hroom Hs].
  - split; [by apply opened_inv|by apply opened_db].
  - pose proof (iv_logs _ _ HI) as (W1 & W2 & _).
    destruct (step_event _ _ _ W1 W2 Hs) as [->|Hev]; [done|].
    split; [by eapply event_inv|by eapply event_db].
Qed.

(** Anything every event keeps holds from one state on. *)
Lemma reachable_keeps (P : LightningChannel -> Prop) assets lc1 lc2 :
  (forall lc lc', Inv assets lc -> DbInv lc -> room lc -> event lc lc' -> P lc -> P lc') ->
  Inv assets lc1 -> DbInv lc1 -> P lc1 -> reachable lc1 lc2 -> Inv assets lc2 /\ DbInv lc2 /\ P lc2.
Proof.
  intros Hk HI HD HP Hr. induction Hr as [|lc o lc' Hr (HI' & HD' & HP') Hroom Hs]; [done|].
  pose proof (iv_logs _ _ HI') as (W1 & W2 & _).
  destruct (step_event _ _ _ W1 W2 Hs) as [->|Hev]; [done|].
  split; [by eapply event_inv|]. split; [by eapply event_db|]. by eapply (Hk lc).
Qed.

Lemma reachable_snoc lc0 lc o lc' :
  reachable lc0 lc -> room lc -> op_wf o -> run o lc = (Ok tt, lc') -> reachable lc0 lc'.
Proof.
  intros Hr Hroom Ho H. eapply reach_step; [done..|]. split; [done|]. exists (Ok tt). split; [done|by left].
Qed.

(** *** Revoking our commitment *)

(** The height of the stored commitment is the current height. *)
Lemma stored_height assets lc :
  Inv assets lc -> DbInv lc -> CommitHeight (db_localCommitment (bucket lc)) = currentHeight lc.
Proof.
  intros HI HD. destruct (di_local _ HD) as (c & l & El & Hc). destruct (di_bucket _ HD) as (-> & _).
  rewrite Hc. cbn. destruct (iv_lheights _ _ HI) as [_ Hch]. rewrite El in Hch. apply Hch.
Qed.

Lemma revoke_run dbOk lc msg htlcs lc' :
  RevokeCurrentCommitment dbOk lc = (Ok (msg, htlcs), lc') ->
  exists secret, AtIndex (currentHeight lc) = Some secret /\
    RevokeAndAck.Revocation msg = copyInto 32 secret /\ currentHeight lc' = u64 (currentHeight lc + 1).
Proof.
  intros H. unfold RevokeCurrentCommitment in H. rewrite cbind_cget in H.
  apply clift_ok in H as (m & Hm & H). apply clift_ok in H as (c & Hc & H).
  apply clift_ok in H as (chain & Hch & H). apply cbind_ok in H as ([] & lc1 & [= <-] & H).
  rewrite cbind_cget in H. apply clift_ok in H as (newTail & Ht & H).
  apply clift_ok in H as (acked & _ & H). apply cbind_ok in H as ([] & lc2 & Hdb & H).
  injection H as -> _ <-. unfold generateRevocation in Hm.
  destruct (AtIndex (currentHeight lc)) as [secret|]; [|done].
  destruct (AtIndex (u64 (currentHeight lc + 2))); [|done]. injection Hm as <-.
  exists secret. split; [done|]. split; [done|].
  by destruct (UpdateCommitment_db _ _ _ _ _ Hdb) as (? & ? & ? & ->).
Qed.

Lemma UpdateCommitment_fails dbOk c acked lc r lc' :
  UpdateCommitment dbOk c acked lc = (r, lc') -> r <> Ok tt -> bucket lc' = bucket lc.
Proof.
  unfold UpdateCommitment, dbGuard. unfold cbind, cget, cput, cret, cfail.
  destruct (isRestored lc), (db_borked (bucket lc)), (negb dbOk); intros [= <- <-]; done.
Qed.

Lemma revoke_fails dbOk lc r lc' :
  RevokeCurrentCommitment dbOk lc = (r, lc') -> (forall a, r <> Ok a) -> bucket lc' = bucket lc.
Proof.
  intros H Hne. unfold RevokeCurrentCommitment in H. rewrite cbind_cget in H.
  unfold cbind, clift, cput, cget, cret in H.
  destruct (generateRevocation _ _); try by injection H as <- <-.
  destruct (tailOf false lc); try by injection H as <- <-.
  destruct (or_panic _) as [chain|e|]; try by injection H as <- <-.
  destruct (tailOf false _); try by injection H as <- <-.
  destruct (getUnsignedAckedUpdates _); try by injection H as <- <-.
  destruct (UpdateCommitment _ _ _ _) as [[[]|e|] lc2] eqn:Hdb.
  - injection H as <- <-. by destruct (Hne _ eq_refl).
  - injection H as <- <-. by apply (UpdateCommitment_fails _ _ _ _ _ _ Hdb).
  - injection H as <- <-. by apply (UpdateCommitment_fails _ _ _ _ _ _ Hdb).
Qed.

(** ** Runs

    Whole runs of operations, as a function, to exhibit reachable states. *)

Definition room_check (lc : LightningChannel) : bool :=
  let counters u := bool_decide (logIndex u + 1 < 2 ^ 64) && bool_decide (htlcCounter u + 1 < 2 ^ 64) &&
                    bool_decide (Z.of_nat (length (entries u)) < 2 ^ 20) in
  counters (localUpdateLog lc) && counters (remoteUpdateLog lc) &&
  forallb (fun c => bool_decide (Commitment.height c + 1 < 2 ^ 64))
    (localCommitChain lc ++ remoteCommitChain lc).

Definition op_check (o : op) : bool :=
  match o with
  | OpAddHTLC htlc _ | OpReceiveHTLC htlc =>
      bool_decide (0 <= UpdateAddHTLC.Amount htlc < 2 ^ 64)
  | OpUpdateFee f | OpReceiveUpdateFee f => bool_decide (0 <= f < 2 ^ 32)
  | _ => true
  end.

Fixpoint run_all (ops : list op) (lc : LightningChannel) : bool * LightningChannel :=
  match ops with
  | [] => (true, lc)
  | o :: ops =>
      if room_check lc && op_check o then
        match run o lc with
        | (Ok tt, lc') => run_all ops lc'
        | _ => (false, lc)
        end
      else (false, lc)
  end.

Lemma room_check_ok lc : room_check lc = true -> room lc.
Proof.
  unfold room_check. rewrite !andb_true_iff, forallb_forall, !bool_decide_eq_true.
  intros [[[[L1 L2] L3] [[R1 R2] R3]] Hc]. split; [done|]. split; [done|]. split; [|by intros []].
  intros [] c Hin; apply (bool_decide_eq_true_1 _), Hc, list_elem_of_In, elem_of_app; cbn in Hin; auto.
Qed.

Lemma op_check_ok o : op_check o = true -> op_wf o.
Proof. unfold in_u. destruct o; try done; cbn; by rewrite bool_decide_eq_true. Qed.

Lemma run_all_cons o ops lc lc' :
  run o lc = (Ok tt, lc') -> room_check lc && op_check o = true -> run_all (o :: ops) lc = run_all ops lc'.
Proof. intros H Hc. cbn. by rewrite Hc, H. Qed.

Lemma run_all_reachable ops : forall lc0 lc,
  reachable lc0 lc -> (run_all ops lc).1 = true -> reachable lc0 (run_all ops lc).2.
Proof.
  induction ops as [|o ops IH]; intros lc0 lc Hr; cbn; [done|].
  destruct (room_check lc) eqn:Hroom; [|done]. destruct (op_check o) eqn:Ho; [|done]. cbn.
  destruct (run o lc) as [[[]|e|] lc'] eqn:H; try done. apply IH.
  eapply reachable_snoc; [done| |by apply op_check_ok|done]. by apply room_check_ok.
Qed.

End reach.

(** The concrete channels are freshly opened ones. *)
Lemma opened_channel (c : ChanCfg) our their fee ourA theirA :
  opened (BT := btcec_model) (E := chan_model) (open_channel c our their fee ourA theirA).
Proof.
  split; [done..| |done]. eexists _, _. split; [reflexivity|]. split; [reflexivity|].
  split; [by repeat constructor|]. by split_and!.
Qed.
