(* ===== verification/ChannelFunds.v ===== *)
(** * lnwallet: the funds of a bitcoin channel

    The commitment fee that [validateCommitmentSanity] checks is the one that
    [fetchCommitmentView] charges, and whoever opened the channel can pay it; so
    the balances, the fee and the HTLCs in flight add up to the same amount in
    every commitment. *)

From Stdlib Require Import ZArith Lia.
From S2P Require Import Prelude Wire WireMessages WireModels Amounts OpReturn UpdateLog.
From S2P Require Import CommitTx ChannelState ChannelModel ChannelView ViewLemmas ViewConservation ChannelOps.
From S2P Require Import ChannelInv ChannelReach.

Local Open Scope Z_scope.
Local Open Scope go_scope.

(** ** Weights and fees *)

Lemma weight_fold {A} (l : list A) w :
  0 <= w -> w + HTLCWeight * Z.of_nat (length l) < 2 ^ 62 ->
  fold_left (fun w _ => i64 (w + HTLCWeight)) l w = w + HTLCWeight * Z.of_nat (length l).
Proof.
  change HTLCWeight with 172. revert w. induction l as [|x l IH]; intros w H0 Hb; cbn [fold_left length] in *; [lia|].
  rewrite i64_id by (unfold in_i64; lia). rewrite IH by lia. lia.
Qed.

Lemma nonDust_map c inc ours rate dust f (l : list view_entry) :
  only_heights f ->
  length (nonDust c inc ours rate dust (prod_map id f <$> l)) = length (nonDust c inc ours rate dust l).
Proof.
  intros Hf. unfold nonDust. induction l as [|[e pd] l IH]; [done|]. rewrite fmap_cons, !filter_cons.
  assert (entryIsDust c inc ours rate dust (prod_map id f (e, pd)) =
    entryIsDust c inc ours rate dust (e, pd)) as ->.
  { unfold entryIsDust. cbn. by rewrite (Hf pd). }
  case_decide; cbn; by rewrite IH.
Qed.

Lemma length_nonDust c inc ours rate dust (l : list view_entry) :
  (length (nonDust c inc ours rate dust l) <= length l)%nat.
Proof. apply length_filter. Qed.

Lemma CommitWeight_range t : 700 <= CommitWeight t <= 1200.
Proof. unfold CommitWeight. destruct (ChannelType.HasAnchors t); vm_compute; split; discriminate. Qed.

(** The weight [computeView] returns is the one the fee is computed from. *)
Lemma weight_agrees c rc v :
  Z.of_nat (length (ourUpdates v)) < 2 ^ 20 -> Z.of_nat (length (theirUpdates v)) < 2 ^ 20 ->
  let w := i64 (CommitWeight (ChanType c) + htlcWeightOf c rc v) in
  commitFeeFor c (negb rc) (feePerKw v) v = SatPerKWeight.FeeForWeight (feePerKw v) w /\ 0 <= w < 2 ^ 29.
Proof.
  intros H1 H2. cbv zeta. unfold commitFeeFor, htlcWeightOf, numHTLCs.
  pose proof (CommitWeight_range (ChanType c)).
  assert (commitDustLimit c (negb rc) = viewDustLimit c rc) as -> by (by destruct rc).
  pose proof (length_nonDust c false (negb rc) (feePerKw v) (viewDustLimit c rc) (ourUpdates v)).
  pose proof (length_nonDust c true (negb rc) (feePerKw v) (viewDustLimit c rc) (theirUpdates v)).
  rewrite weight_fold; rewrite ?length_app; change HTLCWeight with 172; [|lia|lia].
  rewrite (i64_id (172 * _)) by (unfold in_i64; lia). rewrite !i64_id by (unfold in_i64; lia).
  split; [f_equal; lia|lia].
Qed.

Lemma fee_range rate w :
  in_u 32 rate -> 0 <= w < 2 ^ 29 -> 0 <= SatPerKWeight.FeeForWeight rate w < 2 ^ 52.
Proof.
  unfold in_u. intros Hr Hw. unfold SatPerKWeight.FeeForWeight.
  assert (0 <= rate * w < 2 ^ 61) as Hm by nia. rewrite i64_id by (unfold in_i64; lia).
  rewrite Z.quot_div_nonneg by lia. split; [apply Z.div_pos; lia|]. apply Z.div_lt_upper_bound; lia.
Qed.

(** What the check on the balances after the fee says about the balances before
    it. *)
Lemma covers_fee bal fee :
  in_u 64 bal -> 0 <= fee < 2 ^ 52 -> 0 <= i64 (u64 (bal - NewMSatFromSatoshis fee)) ->
  fee <= ToSatoshis bal.
Proof.
  unfold in_u. intros Hb Hf Hi. rewrite NewMSat_exact in Hi
    by (change (MaxMilliSatoshi / 1000) with 18446744073709551; lia).
  assert (fee * 1000 <= bal < 2 ^ 63 + fee * 1000) as [H1 H2].
  { unfold i64, u64 in Hi. pose proof (Z.div_mod (bal - fee * 1000) (2 ^ 64) ltac:(lia)).
    pose proof (Z.mod_pos_bound (bal - fee * 1000) (2 ^ 64) ltac:(lia)).
    set (x := (bal - fee * 1000) mod 2 ^ 64) in *.
    pose proof (Z.div_mod (x + 2 ^ 63) (2 ^ 64) ltac:(lia)).
    pose proof (Z.mod_pos_bound (x + 2 ^ 63) (2 ^ 64) ltac:(lia)). lia. }
  unfold ToSatoshis, mSatScale. rewrite i64_id.
  - apply Z.div_le_lower_bound; lia.
  - unfold in_i64. pose proof (Z.div_pos bal 1000 ltac:(lia) ltac:(lia)).
    pose proof (Z.div_lt_upper_bound bal 1000 (2 ^ 63) ltac:(lia) ltac:(lia)). lia.
Qed.

(** ** Ranges of what a view evaluates to *)

Definition bal_ok (b : balances) : Prop := in_u 64 (ourBtc b) /\ in_u 64 (theirBtc b).

Lemma foldl_inv {A B} (P : A -> Prop) (f : A -> B -> A) (l : list B) a :
  (forall a b, b ∈ l -> P a -> P (f a b)) -> P a -> P (foldl f a l).
Proof.
  revert a. induction l as [|b l IH]; intros a Hf Ha; cbn; [done|]. apply IH.
  - intros a' b' Hb. apply Hf. by right.
  - apply Hf; [by left|done].
Qed.

Lemma stepRemove_ok rc ours b pd : bal_ok b -> bal_ok (stepRemove rc ours b pd).
Proof.
  intros [H1 H2]. unfold stepRemove, processRemoveEntry. destruct (is_removal pd); [|done].
  case_bool_decide; [done|]. destruct ours, (EntryType pd); split; cbn; (done || apply u64_in).
Qed.

Lemma stepAdd_ok rc ours b pd : bal_ok b -> bal_ok (stepAdd rc ours b pd).
Proof.
  intros [H1 H2]. unfold stepAdd, processAddEntry. case_bool_decide; [done|].
  destruct ours; split; cbn; (done || apply u64_in).
Qed.

Lemma evalBal_ok rc v b : bal_ok b -> bal_ok (evalBal rc v b).
Proof.
  intros Hb. unfold evalBal. cbv zeta.
  do 2 (apply foldl_inv; [intros; by apply stepAdd_ok|]).
  do 2 (apply foldl_inv; [intros; by apply stepRemove_ok|]). done.
Qed.

Lemma evalFee_ok rc v :
  in_u 32 (feePerKw v) ->
  (forall x, x ∈ ourUpdates v ++ theirUpdates v -> EntryType x.2 = FeeUpdate ->
     in_u 32 (ToSatoshis (BtcAmount x.2))) ->
  in_u 32 (evalFee rc v).
Proof.
  intros H0 Hr. unfold evalFee.
  assert (forall l f, (forall x, x ∈ l -> x ∈ ourUpdates v ++ theirUpdates v) -> in_u 32 f ->
    in_u 32 (foldl (stepFee rc) f l.*2)) as Hl.
  { intros l f Hsub Hf. apply foldl_inv; [|done]. intros a pd (x & -> & Hx)%list_elem_of_fmap Ha.
    unfold stepFee, processFeeUpdate. case_bool_decide; [|done]. case_bool_decide; [done|].
    cbn. apply Hr; [by apply Hsub|done]. }
  apply Hl; [intros; apply elem_of_app; by right|]. apply Hl; [intros; apply elem_of_app; by left|done].
Qed.

(** The fee rates of a log fit the 32 bits of the wire. *)
Definition rates_ok (u : updateLog) : Prop := forall e pd, (e, pd) ∈ entries u ->
  EntryType pd = FeeUpdate -> in_u 32 (ToSatoshis (BtcAmount pd)).

Section funds.
Context {BT : Btcec} {E : ChanEnv}.

Lemma sanity_run ti oi rc lc :
  (validateCommitmentSanity ti oi rc None None lc).1 = Ok tt ->
  exists init bal w v lc', computeView (fetchHTLCView lc ti oi) rc false lc = (Ok (bal, w, v), lc') /\
    checkBalances (cfg lc) (feePerKw v) init
      (subFee (cfg lc) (SatPerKWeight.FeeForWeight (feePerKw v) w) bal) = Ok tt.
Proof.
  unfold validateCommitmentSanity. cbn [misses_assetID is_asset predicted]. rewrite cbind_cget.
  rewrite !app_nil_r. intros H.
  match type of H with fst ?m = _ => destruct m as [r lc'] eqn:Er end. cbn in H. subst r.
  apply clift_ok in Er as (tip & _ & Er). apply cbind_ok in Er as ([[bal w] v] & lc1 & Hcv & Er).
  apply clift_ok in Er as ([] & Hc & _). by eexists _, bal, w, v, lc1.
Qed.

Lemma checkBalances_fee c rate init fee bal :
  bal_ok bal -> 0 <= fee < 2 ^ 52 -> checkBalances c rate init (subFee c fee bal) = Ok tt ->
  fee <= ToSatoshis (if IsInitiator c then ourBtc bal else theirBtc bal).
Proof.
  intros [H1 H2] Hf. unfold checkBalances. case_bool_decide as Ho; [done|].
  case_bool_decide as Ht; [done|]. intros _. unfold subFee in Ho, Ht.
  destruct (IsInitiator c); cbn in Ho, Ht; apply covers_fee; try done; lia.
Qed.

(** ** The invariant *)

Record BtcInv (msat : Z) (lc : LightningChannel) : Prop := {
  bi_btc : ChanAssetID (cfg lc) = BtcAssetId;
  bi_rates : forall remote, rates_ok (logOf remote lc);
  bi_tip : forall rc tip, last (chainOf rc lc) = Some tip ->
    in_u 64 (Commitment.ourBtcBalance tip) /\ in_u 64 (Commitment.theirBtcBalance tip) /\
    in_u 32 (Commitment.feePerKw tip) /\
    eqm (Commitment.ourBtcBalance tip + Commitment.theirBtcBalance tip + 1000 * Commitment.fee tip +
         inFlightAmt BtcAmount rc lc) msat;
}.

Lemma tipBalances_total c tip :
  eqm (totalBtc (tipBalances c tip)) (Commitment.ourBtcBalance tip + Commitment.theirBtcBalance tip +
    1000 * Commitment.fee tip).
Proof.
  assert (eqm (NewMSatFromSatoshis (Commitment.fee tip)) (1000 * Commitment.fee tip)) as [k Ek].
  { unfold NewMSatFromSatoshis, mSatScale. destruct (u64_eqm (u64 (Commitment.fee tip) * 1000)) as [k1 ->].
    destruct (u64_eqm (Commitment.fee tip)) as [k2 ->]. exists (k1 + 1000 * k2). lia. }
  unfold totalBtc, tipBalances. destruct (IsInitiator c); cbn [ourBtc theirBtc];
    match goal with |- context [u64 ?x] => destruct (u64_eqm x) as [k1 ->] end; exists (k + k1); lia.
Qed.

Lemma tipBalances_ok c tip :
  in_u 64 (Commitment.ourBtcBalance tip) -> in_u 64 (Commitment.theirBtcBalance tip) ->
  bal_ok (tipBalances c tip).
Proof. intros H1 H2. unfold tipBalances. destruct (IsInitiator c); split; cbn; (done || apply u64_in). Qed.

(** The two evaluations of a commitment, the one that is checked and the one that
    is built, agree on the balances, the rate and the fee. *)
Lemma evaluations_agree lc oi ti rc b1 w1 v1 lc1 b2 w2 v2 lc2 :
  log_wf (localUpdateLog lc) -> log_wf (remoteUpdateLog lc) ->
  computeView (fetchHTLCView lc ti oi) rc false lc = (Ok (b1, w1, v1), lc1) ->
  computeView (fetchHTLCView lc ti oi) rc true lc = (Ok (b2, w2, v2), lc2) ->
  b1 = b2 /\ w1 = w2 /\ feePerKw v1 = feePerKw v2.
Proof.
  intros W1 W2 H1 H2.
  apply computeView_run in H1 as (t1 & T1 & _ & _ & _ & -> & -> & -> & _); [|done..].
  apply computeView_run in H2 as (t2 & T2 & _ & _ & _ & -> & -> & -> & _); [|done..].
  rewrite T1 in T2. injection T2 as <-. split; [done|]. split; [|done].
  do 2 f_equal. unfold htlcWeightOf. cbn [ourUpdates theirUpdates feePerKw].
  assert (forall A (l k : list A) w, length l = length k ->
    fold_left (fun w _ => i64 (w + HTLCWeight)) l w = fold_left (fun w _ => i64 (w + HTLCWeight)) k w) as Hf.
  { intros A l. induction l as [|x l IH]; intros [|y k] w Hl; try done. cbn. apply IH. by injection Hl. }
  apply Hf. rewrite !length_app, !nonDust_map by apply addUpd_only. done.
Qed.

Lemma surviving_length skip idx u :
  Z.of_nat (length (entries u)) < 2 ^ 20 ->
  Z.of_nat (length (filter (survives skip) (pointers (below idx u)))) < 2 ^ 20.
Proof.
  intros H. pose proof (length_filter (survives skip) (pointers (below idx u))).
  unfold pointers in *. rewrite length_fmap in *. unfold below in *.
  pose proof (length_filter (fun x => LogIndex x.2 < idx) (entries u)). lia.
Qed.

Lemma view_rates msat lc oi ti tip rc :
  BtcInv msat lc -> in_u 32 (Commitment.feePerKw tip) ->
  in_u 32 (evalFee rc (viewFor lc oi ti tip)).
Proof.
  intros HB Ht. apply evalFee_ok; [done|]. cbn. intros x [Hx|Hx]%elem_of_app;
    apply list_elem_of_fmap in Hx as ([e pd] & -> & [_ Hx]%list_elem_of_filter); cbn.
  - apply (bi_rates _ _ HB false e pd Hx).
  - apply (bi_rates _ _ HB true e pd Hx).
Qed.

(** A new commitment of a chain: its balances, its rate and its sum. *)
Lemma commit_funds assets msat rc oi oh ti th keys lc c lc1 :
  Inv assets lc -> BtcInv msat lc -> room lc ->
  committedBelow rc (localUpdateLog lc) oi -> committedBelow rc (remoteUpdateLog lc) ti ->
  (validateCommitmentSanity ti oi rc None None lc).1 = Ok tt ->
  fetchCommitmentView rc oi oh ti th keys lc = (Ok c, lc1) ->
  in_u 64 (Commitment.ourBtcBalance c) /\ in_u 64 (Commitment.theirBtcBalance c) /\
  in_u 32 (Commitment.feePerKw c) /\
  eqm (Commitment.ourBtcBalance c + Commitment.theirBtcBalance c + 1000 * Commitment.fee c +
       inFlightAmt BtcAmount rc lc1) msat.
Proof.
  intros HI HB (_ & _ & Hrh & Hlen) Hb1 Hb2 Hs Hrun.
  apply fetchCommitmentView_run in Hrun as (tip & bal & w & v & lc0 & Htip & Hcv & _ & Q1 & Q2 & _ & _ & _ &
    _ & _ & Hrate & Hfee & Hbal).
  apply sanity_run in Hs as (init & bal' & w' & v' & lc' & Hcv' & Hcheck).
  pose proof (iv_logs _ _ HI) as Hwf. pose proof Hwf as (W1 & W2 & _).
  destruct (evaluations_agree _ _ _ _ _ _ _ _ _ _ _ _ W1 W2 Hcv' Hcv) as (-> & -> & Er).
  rewrite Er in Hcheck. clear Hcv'.
  pose proof (tipOf_last _ _ _ Htip) as Hlast.
  destruct (bi_tip _ _ HB rc tip Hlast) as (Ho & Ht & Hr & Hsum).
  destruct (computeView_total lc tip oi ti rc true bal w v lc0 Hwf Hb1 Hb2 Htip Hcv) as (_ & Hbtc & _ & Hfl).
  specialize (Hbtc (bi_btc _ _ HB)).
  pose proof Hcv as Hcv2. apply computeView_run in Hcv2 as (tip' & Htip' & _ & _ & _ & Ev & Eb & Ew & _);
    [|done..]. rewrite Htip in Htip'. injection Htip' as <-.
  assert (in_u 32 (feePerKw v)) as Hv by (rewrite Ev; by eapply view_rates).
  assert (bal_ok bal) as Hok.
  { rewrite Eb. unfold assetBalances. rewrite bool_decide_eq_false_2 by (rewrite (bi_btc _ _ HB); done).
    by apply evalBal_ok, tipBalances_ok. }
  destruct (weight_agrees (cfg lc) rc v) as [Hcf Hw].
  { rewrite Ev. cbn. rewrite length_fmap. apply surviving_length, (Hlen false). }
  { rewrite Ev. cbn. rewrite length_fmap. apply surviving_length, (Hlen true). }
  rewrite <- Ew in Hcf, Hw. pose proof (fee_range _ _ Hv Hw) as Hfr.
  pose proof (checkBalances_fee _ _ _ _ _ Hok Hfr Hcheck) as Hpay. rewrite <- Hcf in Hpay, Hfr.
  destruct Hok as [Hok1 Hok2].
  destruct (commitBalances_btc (cfg lc) (negb rc) (numHTLCs (cfg lc) (negb rc) (feePerKw v) v)
    (commitFeeFor (cfg lc) (negb rc) (feePerKw v) v) (ourBtc bal) (theirBtc bal) (ourAsset bal)
    (theirAsset bal) (bi_btc _ _ HB) Hok1 Hok2) as (our' & their' & Ec & R1 & R2 & Esum); [lia|].
  rewrite Ec in Hbal. injection Hbal as -> ->. rewrite Hrate, Hfee.
  split; [done|]. split; [done|]. split; [done|].
  assert (inFlightAmt BtcAmount rc lc1 = sumOf BtcAmount (ourUpdates v) + sumOf BtcAmount (theirUpdates v)) as ->.
  { unfold inFlightAmt.
    rewrite <- (same_on_inFlight BtcAmount rc _ _ _ _ static_btc (quiet_same_on rc _ _ Q1) (quiet_same_on rc _ _ Q2)).
    rewrite <- (same_on_inFlight BtcAmount rc _ _ _ _ static_btc (quiet_same_on rc _ _ Q2) (quiet_same_on rc _ _ Q1)).
    apply Hfl; [done|]. pose proof (Hrh rc tip (last_elem _ _ Hlast)). pose proof (inv_height assets lc rc tip HI Hlast).
    rewrite u64_id by (unfold in_u; lia). lia. }
  rewrite Esum. unfold totalBtc in Hbtc. etrans; [exact Hbtc|].
  destruct (tipBalances_total (cfg lc) tip) as [k Ek]. unfold totalBtc in *.
  destruct Hsum as [k' Hsum]. exists (k + k'). unfold inFlightAmt in Hsum. lia.
Qed.

(** *** Preservation *)

Lemma btc_ext msat lc lc' :
  BtcInv msat lc -> cfg lc' = cfg lc -> (forall remote, rates_ok (logOf remote lc')) ->
  (forall rc, last (chainOf rc lc') = last (chainOf rc lc)) ->
  (forall rc, inFlightAmt BtcAmount rc lc' = inFlightAmt BtcAmount rc lc) -> BtcInv msat lc'.
Proof.
  intros HB Hc Hr Hch Hin. split; [rewrite Hc; apply HB|done|].
  intros rc tip. rewrite Hch, Hin. apply HB.
Qed.

Lemma rates_same rc u v : same_on rc u v -> rates_ok u -> rates_ok v.
Proof.
  intros HF Hu e pd Hin Ht. apply list_elem_of_lookup in Hin as [i Hi].
  destruct (Forall2_lookup_r _ _ _ _ _ HF Hi) as ([e' p] & Hp & _ & Hst & _).
  pose proof Hst as (Et & _). cbn in *. rewrite <- (static_btc _ _ Hst).
  apply (Hu e' p); [by eapply list_elem_of_lookup_2|congruence].
Qed.

Lemma rates_append u v pd :
  entries v = entries u ++ [(nextElem u, pd)] ->
  (EntryType pd = FeeUpdate -> in_u 32 (ToSatoshis (BtcAmount pd))) -> rates_ok u -> rates_ok v.
Proof.
  intros Ev Hp Hu e p Hin Ht. rewrite Ev in Hin. apply elem_of_app in Hin as [Hin|Hin]; [by apply (Hu e)|].
  apply list_elem_of_singleton in Hin as [= _ ->]. auto.
Qed.

Lemma same_on_amt rc lc lc' :
  same_on rc (localUpdateLog lc) (localUpdateLog lc') -> same_on rc (remoteUpdateLog lc) (remoteUpdateLog lc') ->
  inFlightAmt BtcAmount rc lc' = inFlightAmt BtcAmount rc lc.
Proof.
  intros S1 S2. unfold inFlightAmt. by rewrite (same_on_inFlight BtcAmount rc _ _ _ _ static_btc S1 S2),
    (same_on_inFlight BtcAmount rc _ _ _ _ static_btc S2 S1).
Qed.

Lemma grows_amt rc lc lc' :
  grows (localUpdateLog lc) (localUpdateLog lc') -> grows (remoteUpdateLog lc) (remoteUpdateLog lc') ->
  inFlightAmt BtcAmount rc lc' = inFlightAmt BtcAmount rc lc.
Proof.
  intros G1 G2. unfold inFlightAmt.
  by rewrite !(grows_inFlight rc _ _ _ _ G1 G2), !(grows_inFlight rc _ _ _ _ G2 G1).
Qed.

Lemma append_btc assets msat remote lc u pd :
  Inv assets lc -> BtcInv msat lc -> room lc -> heights pd = noHeights ->
  entries u = entries (logOf remote lc) ++ [(nextElem (logOf remote lc), pd)] ->
  logIndex u = u64 (logIndex (logOf remote lc) + 1) ->
  (EntryType pd = FeeUpdate -> in_u 32 (ToSatoshis (BtcAmount pd))) ->
  BtcInv msat (set_logOf remote lc u).
Proof.
  intros HI HB Hroom Hh Eu Ei Hp. pose proof (logOf_wf _ remote _ HI) as (Wu & _).
  assert (grows (logOf remote lc) u) as Hg by (eapply append_grows; try done; by apply logOf_room).
  assert (rates_ok u) as Hru by (eapply rates_append; [done|done|apply (bi_rates _ _ HB)]).
  apply (btc_ext msat lc); try done.
  - by destruct remote.
  - intros b. pose proof (bi_rates _ _ HB b) as Hb. destruct remote, b; done.
  - by destruct remote, rc.
  - intros rc. destruct remote; apply grows_amt; (done || apply grows_refl).
Qed.

Lemma mark_btc msat remote lc i :
  BtcInv msat lc -> BtcInv msat (set_logOf remote lc (markHtlcModified (logOf remote lc) i)).
Proof.
  intros HB. apply (btc_ext msat lc); try done.
  - by destruct remote.
  - intros b. pose proof (bi_rates _ _ HB b) as Hb. destruct remote, b; done.
  - by destruct remote, rc.
  - by destruct remote.
Qed.

(** One chain got a new tip, the other one is as it was. *)
Lemma extend_btc assets msat rc oi oh ti th keys lc c lc1 c' lc2 :
  Inv assets lc -> BtcInv msat lc -> room lc ->
  committedBelow rc (localUpdateLog lc) oi -> committedBelow rc (remoteUpdateLog lc) ti ->
  (validateCommitmentSanity ti oi rc None None lc).1 = Ok tt ->
  fetchCommitmentView rc oi oh ti th keys lc = (Ok c, lc1) ->
  Commitment.ourBtcBalance c' = Commitment.ourBtcBalance c ->
  Commitment.theirBtcBalance c' = Commitment.theirBtcBalance c ->
  Commitment.feePerKw c' = Commitment.feePerKw c -> Commitment.fee c' = Commitment.fee c ->
  cfg lc2 = cfg lc -> localUpdateLog lc2 = localUpdateLog lc1 -> remoteUpdateLog lc2 = remoteUpdateLog lc1 ->
  last (chainOf rc lc2) = Some c' -> chainOf (negb rc) lc2 = chainOf (negb rc) lc -> BtcInv msat lc2.
Proof.
  intros HI HB Hroom Hb1 Hb2 Hs Hrun C1 C2 C3 C4 Ec EL ER El Eo.
  destruct (commit_funds _ _ _ _ _ _ _ _ _ _ _ HI HB Hroom Hb1 Hb2 Hs Hrun) as (F1 & F2 & F3 & F4).
  destruct (fetch_logs assets rc _ _ _ _ _ _ _ _ HI Hroom Hb1 Hb2 Hrun)
    as (_ & _ & _ & _ & _ & _ & S1 & S2 & _).
  split.
  - rewrite Ec. apply HB.
  - intros []; cbn; rewrite ?EL, ?ER; [eapply rates_same, (bi_rates _ _ HB true); exact S2|].
    eapply rates_same, (bi_rates _ _ HB false); exact S1.
  - intros r tip Htip. destruct (decide (r = rc)) as [->|Hne].
    + rewrite El in Htip. injection Htip as <-. rewrite C1, C2, C3, C4.
      unfold inFlightAmt in *. by rewrite EL, ER.
    + assert (r = negb rc) as -> by (by destruct r, rc). rewrite Eo in Htip.
      rewrite (same_on_amt (negb rc) lc lc2); [by apply HB|by rewrite EL|by rewrite ER].
Qed.

Lemma event_cfg assets lc lc' : Inv assets lc -> event lc lc' -> cfg lc' = cfg lc.
Proof.
  intros HI Hev.
  destruct Hev as [remote|remote|remote|dbOk lt keys c lc1 diff lc2 _ _ _ Hrun _ Hdb|rt keys c lc1 sig _ _ Hrun
    |dbOk c nt l acked lc2 El Hdb|dbOk c l lt rev pkg upds f lc2 local r Er Ht Hdb Hcp|].
  - by destruct remote.
  - by destruct remote.
  - by destruct remote.
  - destruct (AppendRemoteCommitChain_db _ _ _ _ Hdb) as (? & ? & ? & ->).
    by destruct (fetch_framed _ _ _ _ _ _ _ _ _ _ HI Hrun) as (_ & _ & _ & ? & _).
  - by destruct (fetch_framed _ _ _ _ _ _ _ _ _ _ HI Hrun) as (_ & _ & _ & ? & _).
  - by destruct (UpdateCommitment_db _ _ _ _ _ Hdb) as (? & ? & ? & ->).
  - by destruct (AdvanceCommitChainTail_db _ _ _ _ _ Hdb) as (? & ? & ? & ->).
  - done.
Qed.

Lemma compact_btc msat lc lt rt l r :
  logs_wf (localUpdateLog lc) (remoteUpdateLog lc) -> BtcInv msat lc ->
  compactLogs (localUpdateLog lc) (remoteUpdateLog lc) lt rt = Ok (l, r) -> BtcInv msat (set_logs lc l r).
Proof.
  intros Hwf HB Hc. destruct (compactLogs_ok lt rt _ _ Hwf) as (A' & B' & Hc' & _ & EA & EB & _).
  rewrite Hc in Hc'. injection Hc' as <- <-. apply (btc_ext msat lc); try done.
  - intros [] e pd; cbn; rewrite ?EA, ?EB; intros [_ Hin]%list_elem_of_filter;
      [apply (bi_rates _ _ HB true e pd Hin)|apply (bi_rates _ _ HB false e pd Hin)].
  - intros rc. unfold inFlightAmt; cbn.
    by rewrite (compacted_inFlight lt rt rc _ _ _ _ EA EB), (compacted_inFlight lt rt rc _ _ _ _ EB EA).
Qed.

Lemma quiet_btc msat lc l r :
  BtcInv msat lc -> quiet (localUpdateLog lc) l -> quiet (remoteUpdateLog lc) r ->
  BtcInv msat (set_logs lc l r).
Proof.
  intros HB Q1 Q2. apply (btc_ext msat lc); try done.
  - intros []; cbn; (eapply rates_same; [by apply (quiet_same_on true)|]);
      [apply (bi_rates _ _ HB true)|apply (bi_rates _ _ HB false)].
  - intros rc. by apply same_on_amt; apply quiet_same_on.
Qed.

Lemma event_btc assets msat lc lc' :
  Inv assets lc -> DbInv lc -> BtcInv msat lc -> room lc -> event lc lc' -> BtcInv msat lc'.
Proof.
  intros HI HD HB Hroom Hev. pose proof (event_inv _ _ _ HI HD Hroom Hev) as HI'.
  destruct Hev as [remote pd Ha _ _ Hh _ _|remote htlc pd Hl Hm _ Hr Hi _ _ Hh _|remote pd Hf Hi Hh _ Hrate
    |dbOk lt keys c lc1 diff lc2 Ht Hun Hs Hrun _ Hdb|rt keys c lc1 sig Ht Hs Hrun
    |dbOk c nt l acked lc2 El Hdb|dbOk c l lt rev pkg upds f lc2 local remote Er Ht Hdb Hcp|rev b _ _ _ _ _].
  - eapply append_btc; try done. by rewrite Ha.
  - rewrite <- (logOf_set_other remote lc (appendUpdate (logOf remote lc) pd)). apply mark_btc.
    eapply append_btc; try done. unfold is_removal in Hr. by destruct (EntryType pd).
  - eapply append_btc; done.
  - destruct (sign_below _ _ _ HI Ht) as [Hb1 Hb2].
    destruct (fetch_framed _ _ _ _ _ _ _ _ _ _ HI Hrun) as (F1 & F2 & _ & F4 & _).
    destruct (AppendRemoteCommitChain_db _ _ _ _ Hdb) as (? & ? & ? & ->).
    eapply (extend_btc assets msat true _ _ _ _ _ lc c lc1 c); try done. cbn. by rewrite last_snoc.
  - destruct (receive_below _ _ _ HI Ht) as [Hb1 Hb2].
    destruct (fetch_framed _ _ _ _ _ _ _ _ _ _ HI Hrun) as (F1 & F2 & _ & F4 & _).
    eapply (extend_btc assets msat false _ _ _ _ _ lc c lc1 (Commitment.set_sig c sig)); try done.
    cbn. by rewrite last_snoc.
  - destruct (UpdateCommitment_db _ _ _ _ _ Hdb) as (? & ? & ? & ->).
    apply (btc_ext msat lc); try done; [intros; apply (bi_rates _ _ HB remote)|].
    intros []; cbn; [done|]. by rewrite El.
  - destruct (AdvanceCommitChainTail_db _ _ _ _ _ Hdb) as (? & ? & ? & ->).
    eapply compact_btc; [|apply (btc_ext msat (set_logs lc (localUpdateLog lc) (set_entries (remoteUpdateLog lc)
      (forwardLoop (ShortChanID lc) (u64 (Commitment.height c + 1)) (Commitment.height lt)
                 (entries (remoteUpdateLog lc)) f).1)))|exact Hcp]; try done.
    + eapply (same_logs_wf _ _ _ _ (proj1 (reflexivity (R := quiet) _)) (proj1 (forwardLoop_quiet _ _ _ _ _))), HI.
    + apply quiet_btc; [done|done|apply forwardLoop_quiet].
    + intros b. apply (quiet_btc msat lc); [done|done|apply forwardLoop_quiet].
    + intros []; cbn; [|done]. rewrite Er. destruct l; [|done].
      exfalso. by apply (proj1 (iv_remote _ _ HI')).
  - apply (btc_ext msat lc); try done. intros. apply (bi_rates _ _ HB remote).
Qed.

Lemma event_btc_inv assets msat lc lc' :
  Inv assets lc -> DbInv lc -> room lc -> event lc lc' -> BtcInv msat lc -> BtcInv msat lc'.
Proof. intros. by eapply event_btc. Qed.

Lemma opened_btc lc c0 :
  opened lc -> ChanAssetID (cfg lc) = BtcAssetId -> last (localCommitChain lc) = Some c0 ->
  in_u 64 (Commitment.ourBtcBalance c0) -> in_u 64 (Commitment.theirBtcBalance c0) ->
  in_u 32 (Commitment.feePerKw c0) ->
  BtcInv (Commitment.ourBtcBalance c0 + Commitment.theirBtcBalance c0 + 1000 * Commitment.fee c0) lc.
Proof.
  intros HO Hbtc Hc0 H1 H2 H3.
  destruct (op_chains _ HO) as (l & r & El & Er & _ & _ & _ & B1 & B2 & B3 & B4 & _).
  rewrite El in Hc0. injection Hc0 as <-. split; [done| |].
  - intros []; cbn; rewrite ?(op_local_log _ HO), ?(op_remote_log _ HO); by intros e pd ?%elem_of_nil.
  - intros rc tip Ht. unfold inFlightAmt, inFlightOf. rewrite (op_local_log _ HO), (op_remote_log _ HO). cbn.
    destruct rc; cbn in Ht; rewrite ?El, ?Er in Ht; injection Ht as <-; rewrite ?B1, ?B2, ?B3, ?B4, Z.add_0_r;
      by split_and!.
Qed.

End funds.
