(* ===== verification/ChannelHistory.v ===== *)
(** * lnwallet: the history of an HTLC

    What can happen to an HTLC over the life of a channel: once it is settled or
    failed it cannot be removed again, every settle carries the preimage of the
    HTLC it consumes, and nothing is handed to the switch twice. *)

From Stdlib Require Import ZArith Lia.
From S2P Require Import Prelude Wire WireMessages WireModels Amounts OpReturn UpdateLog.
From S2P Require Import CommitTx ChannelState ChannelModel ChannelView ViewLemmas ViewConservation ChannelOps.
From S2P Require Import ChannelInv ChannelReach.

Local Open Scope Z_scope.
Local Open Scope go_scope.

(** ** Definitions *)

(** An HTLC is identified by its number, every other update by its position in
    the log. *)
Definition key (pd : PaymentDescriptor) : Z + Z :=
  match EntryType pd with Add => inl (HtlcIndex pd) | _ => inr (LogIndex pd) end.

Definition assigned (u : updateLog) (k : Z + Z) : Prop :=
  match k with inl i => i < htlcCounter u | inr i => i < logIndex u end.

(** An HTLC that was consumed: marked for as long as it is in its log. *)
Definition spent (i : Z) (u : updateLog) : Prop :=
  i < htlcCounter u /\
  forall e pd, (e, pd) ∈ entries u -> EntryType pd = Add -> HtlcIndex pd = i -> i ∈ modifiedHtlcs u.

(** An update that was forwarded: flagged for as long as it is in its log. *)
Definition handled (k : Z + Z) (u : updateLog) : Prop :=
  assigned u k /\ forall e pd, (e, pd) ∈ entries u -> key pd = k -> isForwarded pd = true.

(** Entries with the flags of the old ones. *)
Definition flags_kept (u v : updateLog) : Prop :=
  Forall2 (fun x y => same_static x.2 y.2 /\ (isForwarded x.2 = true -> isForwarded y.2 = true))
    (entries u) (entries v).

Section history.
Context {BT : Btcec} {E : ChanEnv}.

(** Whose HTLC an operation removes, and which one. *)
Definition removes (o : op) : option (bool * Z) :=
  match o with
  | OpSettleHTLC _ i _ _ _ | OpFailHTLC i _ _ _ _ | OpMalformedFailHTLC i _ _ _ => Some (true, i)
  | OpReceiveHTLCSettle _ i | OpReceiveFailHTLC i _ => Some (false, i)
  | _ => None
  end.

(** Every settle has the preimage of the HTLC it consumes. *)
Definition preimages_ok (lc : LightningChannel) : Prop :=
  forall remote e pd, (e, pd) ∈ entries (logOf remote lc) -> EntryType pd = Settle ->
    exists e' add, (e', add) ∈ entries (logOf (negb remote) lc) /\ EntryType add = Add /\
      HtlcIndex add = ParentIndex pd /\ RHash add = sha256 (RPreimage pd).

(** ** Logs after one event *)

Lemma fetch_same assets rc oi oh ti th keys lc c lc1 remote :
  Inv assets lc -> fetchCommitmentView rc oi oh ti th keys lc = (Ok c, lc1) ->
  same_log (logOf remote lc) (logOf remote lc1) /\ flags_kept (logOf remote lc) (logOf remote lc1).
Proof.
  intros HI Hrun. pose proof (iv_logs _ _ HI) as (W1 & W2 & _).
  apply fetchCommitmentView_run in Hrun as (tip & bal & w & v & lc0 & _ & Hcv & _ & Q1 & Q2 & _).
  apply computeView_run in Hcv as (tip' & _ & _ & L1 & L2 & _); [|done..].
  assert (forall mode all sur u v, quiet (evalLog mode all sur u) v ->
    same_log u v /\ flags_kept u v) as Hq.
  { clear. intros mode all sur u v [Q1 Q2]. split; [etrans; [apply evalLog_same|exact Q1]|].
    revert Q2. unfold flags_kept. rewrite evalLog_map. unfold mapLog; cbn [entries].
    generalize (entries v). induction (entries u) as [|[e pd] l IH]; intros k HF; inversion HF; subst; [done|].
    constructor; [|by apply IH]. destruct H1 as (_ & H1 & _ & H2). cbn in *.
    pose proof (evalPd_only mode all sur e) as Ho. split.
    - etrans; [by apply only_heights_static|exact H1].
    - intros Hf. apply H2. rewrite (Ho pd). by destruct pd. }
  destruct remote; cbn; [rewrite L2 in Q2|rewrite L1 in Q1]; by apply Hq in Q1 || apply Hq in Q2.
Qed.

(** What an event does to the logs: one update is appended (and, for a removal,
    an HTLC across is marked), or only heights, scripts and flags change, or that
    followed by garbage collection. *)
Inductive changes (lc lc' : LightningChannel) : Prop :=
  | ch_append remote pd :
      entries (logOf remote lc') = entries (logOf remote lc) ++ [(nextElem (logOf remote lc), pd)] ->
      modifiedHtlcs (logOf remote lc') = modifiedHtlcs (logOf remote lc) ->
      htlcCounter (logOf remote lc) <= htlcCounter (logOf remote lc') ->
      logIndex (logOf remote lc) <= logIndex (logOf remote lc') ->
      ~ assigned (logOf remote lc) (key pd) ->
      entries (logOf (negb remote) lc') = entries (logOf (negb remote) lc) ->
      modifiedHtlcs (logOf (negb remote) lc) ⊆ modifiedHtlcs (logOf (negb remote) lc') ->
      htlcCounter (logOf (negb remote) lc') = htlcCounter (logOf (negb remote) lc) ->
      logIndex (logOf (negb remote) lc') = logIndex (logOf (negb remote) lc) ->
      (EntryType pd = Settle -> exists e' add, (e', add) ∈ entries (logOf (negb remote) lc) /\
         EntryType add = Add /\ HtlcIndex add = ParentIndex pd /\ RHash add = sha256 (RPreimage pd)) ->
      changes lc lc'
  | ch_same :
      (forall remote, same_log (logOf remote lc) (logOf remote lc') /\
                      flags_kept (logOf remote lc) (logOf remote lc')) ->
      changes lc lc'
  | ch_compact l r lt rt :
      same_log (localUpdateLog lc) l -> flags_kept (localUpdateLog lc) l ->
      same_log (remoteUpdateLog lc) r -> flags_kept (remoteUpdateLog lc) r ->
      compactLogs l r lt rt = Ok (localUpdateLog lc', remoteUpdateLog lc') ->
      changes lc lc'.

Lemma flags_refl u : flags_kept u u.
Proof. unfold flags_kept. induction (entries u); by constructor. Qed.

Lemma quiet_flags u v : quiet u v -> same_log u v /\ flags_kept u v.
Proof.
  intros [S F]. split; [done|]. eapply Forall2_impl; [exact F|]. cbn. by intros x y (_ & ? & _ & ?).
Qed.

Lemma counters_grow assets lc remote :
  Inv assets lc -> room lc ->
  u64 (logIndex (logOf remote lc) + 1) = logIndex (logOf remote lc) + 1 /\
  u64 (htlcCounter (logOf remote lc) + 1) = htlcCounter (logOf remote lc) + 1.
Proof.
  intros HI Hroom. destruct (logOf_wf _ remote _ HI) as (W & _). destruct (lw_range _ W) as [[R1 _] [R2 _]].
  destruct (logOf_room remote _ Hroom) as [B1 B2]. split; apply u64_id; unfold in_u; lia.
Qed.

Lemma event_changes assets lc lc' :
  Inv assets lc -> room lc -> event lc lc' -> changes lc lc'.
Proof.
  intros HI Hroom Hev.
  destruct Hev as [remote pd Ha Hi Hc _ _ _|remote htlc pd Hl Hm Hset Hr Hi _ _ _ _|remote pd Hf Hi _ _ _
    |dbOk lt keys c lc1 diff lc2 _ _ _ Hrun _ Hdb|rt keys c lc1 sig _ _ Hrun
    |dbOk c nt l acked lc2 El Hdb|dbOk c l lt rev pkg upds f lc2 local r Er Ht Hdb Hcp|rev b _ _ _ _ _].
  - destruct (counters_grow _ _ remote HI Hroom) as [G1 G2].
    eapply (ch_append lc _ remote pd); rewrite ?logOf_set_same, ?logOf_set_other; cbn; try done; try lia.
    + unfold key. rewrite Ha. cbn. lia.
    + by rewrite Ha.
  - destruct (counters_grow _ _ remote HI Hroom) as [G1 G2]. destruct (logOf_wf _ remote _ HI) as (_ & W & _).
    apply lookupHtlc_Some in Hl as (e & Hin & Hadd & Hidx); [|done].
    assert (key pd = inr (LogIndex pd)) as Hk by (unfold key, is_removal in *; by destruct (EntryType pd)).
    eapply (ch_append lc _ remote pd); destruct remote; cbn in *; try done; try lia; try set_solver;
      try (rewrite Hk; cbn; lia); intros Hs; exists e, htlc; auto.
  - destruct (counters_grow _ _ remote HI Hroom) as [G1 G2].
    eapply (ch_append lc _ remote pd); rewrite ?logOf_set_same, ?logOf_set_other; cbn; try done; try lia.
    + unfold key. rewrite Hf. cbn. lia.
    + by rewrite Hf.
  - destruct (AppendRemoteCommitChain_db _ _ _ _ Hdb) as (? & ? & ? & ->). apply ch_same.
    intros []; [exact (fetch_same _ _ _ _ _ _ _ _ _ _ true HI Hrun)|exact (fetch_same _ _ _ _ _ _ _ _ _ _ false HI Hrun)].
  - apply ch_same.
    intros []; [exact (fetch_same _ _ _ _ _ _ _ _ _ _ true HI Hrun)|exact (fetch_same _ _ _ _ _ _ _ _ _ _ false HI Hrun)].
  - destruct (UpdateCommitment_db _ _ _ _ _ Hdb) as (? & ? & ? & ->). apply ch_same.
    intros []; cbn; split; (done || apply flags_refl).
  - destruct (AdvanceCommitChainTail_db _ _ _ _ _ Hdb) as (? & ? & ? & ->). cbn in Hcp.
    destruct (quiet_flags _ _ (forwardLoop_quiet (ShortChanID lc) (u64 (Commitment.height c + 1))
      (Commitment.height lt) (remoteUpdateLog lc) f)).
    eapply ch_compact; [..|exact Hcp]; try done. apply flags_refl.
  - apply ch_same. intros []; cbn; split; (done || apply flags_refl).
Qed.

(** ** Preservation *)

Lemma spent_same i u v : same_log u v -> spent i u -> spent i v.
Proof.
  intros S [Hc Hs]. pose proof S as (_ & EC & _ & _ & _ & EM & _). split; [lia|].
  intros e pd Hin Ha Hi. rewrite <- EM. symmetry in S. destruct (same_log_in _ _ _ _ S Hin) as (q & Hq & Et & _ & Ei & _).
  apply (Hs e q); congruence.
Qed.

Lemma spent_compact i lt rt A B A' B' :
  logs_wf A B -> compactLogs A B lt rt = Ok (A', B') ->
  (spent i A -> spent i A') /\ (spent i B -> spent i B').
Proof.
  intros Hwf Hc. destruct (compactLogs_ok lt rt _ _ Hwf) as (A0 & B0 & Hc0 & Hwf' & EA & EB & _ & C1 & _ & C2).
  rewrite Hc in Hc0. injection Hc0 as <- <-.
  assert (forall X Y X' Y', linked Y X -> linked Y' X' ->
    entries X' = compacted lt rt (entries Y) (entries X) ->
    entries Y' = compacted lt rt (entries X) (entries Y) ->
    htlcCounter X' = htlcCounter X -> spent i X -> spent i X') as Hgen.
  { intros X Y X' Y' Hl Hl' EX EY HC [Hs1 Hs2]. split; [lia|]. intros e pd Hin Ha Hi. rewrite EX in Hin.
    apply list_elem_of_filter in Hin as [[_ Hd] Hin].
    destruct (lk_mod _ _ Hl i (Hs2 e pd Hin Ha Hi)) as (e2 & rem & Hrin & Hr & Hp).
    assert ((e2, rem) ∈ entries Y') as Hin'.
    { rewrite EY. apply list_elem_of_filter. split; [|done]. split.
      - unfold kept. cbn. apply not_true_is_false. intros Hrm. apply Hd. split; [done|]. cbn. rewrite Hi, <- Hp.
        apply list_elem_of_fmap. exists (e2, rem). split; [done|]. by apply list_elem_of_filter.
      - intros [Hadd _]. cbn in Hadd. unfold is_removal in Hr. by rewrite Hadd in Hr. }
    destruct (lk_parent _ _ Hl' e2 rem Hin' Hr) as (_ & _ & _ & _ & _ & Hm & _). by rewrite <- Hp. }
  destruct Hwf as (_ & _ & L1 & L2), Hwf' as (_ & _ & L1' & L2'). split; by eapply Hgen.
Qed.

Lemma spent_kept assets i remote lc lc' :
  Inv assets lc -> changes lc lc' -> spent i (logOf remote lc) -> spent i (logOf remote lc').
Proof.
  intros HI Hch Hs. destruct Hch as [rem pd Ee Em Hc Hl Hk Ee' Em' Hc' _ _|Hsame|l r lt rt S1 _ S2 _ Hcp].
  - destruct (decide (remote = rem)) as [->|Hne].
    + destruct Hs as [Hi Hs]. split; [lia|]. intros e p Hin Ha Hx. rewrite Ee in Hin. rewrite Em.
      apply elem_of_app in Hin as [Hin|Hin]; [by eapply Hs|]. apply list_elem_of_singleton in Hin as [= -> ->].
      destruct Hk. unfold key. rewrite Ha. cbn. lia.
    + assert (remote = negb rem) as -> by (by destruct remote, rem).
      destruct Hs as [Hi Hs]. split; [lia|]. intros e p Hin Ha Hx. rewrite Ee' in Hin. apply Em'. by eapply Hs.
  - eapply spent_same, Hs. apply Hsame.
  - pose proof (iv_logs _ _ HI) as Hwf. pose proof (same_logs_wf _ _ _ _ S1 S2 Hwf) as Hwf'.
    destruct (spent_compact i _ _ _ _ _ _ Hwf' Hcp) as [K1 K2].
    destruct remote; cbn in *; [by apply K2, (spent_same _ _ _ S2)|by apply K1, (spent_same _ _ _ S1)].
Qed.

Lemma handled_same k u v : same_log u v -> flags_kept u v -> handled k u -> handled k v.
Proof.
  intros (EL & EC & _) HF [Ha Hh]. split; [destruct k; cbn in *; lia|].
  intros e pd Hin Hk. apply list_elem_of_lookup in Hin as [i Hi].
  destruct (Forall2_lookup_r _ _ _ _ _ HF Hi) as ([e' p] & Hp & (Et & El & Eh & _) & Hf). cbn in *.
  apply Hf. apply (Hh e' p); [by eapply list_elem_of_lookup_2|]. rewrite <- Hk. unfold key. by rewrite Et, El, Eh.
Qed.

Lemma handled_kept assets k lc lc' :
  Inv assets lc -> changes lc lc' -> handled k (remoteUpdateLog lc) -> handled k (remoteUpdateLog lc').
Proof.
  intros HI Hch [Ha Hh]. destruct Hch as [rem pd Ee Em Hc Hl Hk Ee' _ Hc' Hl' _|Hsame|l r lt rt S1 _ S2 F2 Hcp].
  - assert (assigned (remoteUpdateLog lc') k) as Ha'.
    { destruct rem, k; cbn in *; lia. }
    split; [done|]. intros e p Hin Hp. destruct rem; cbn in *.
    + rewrite Ee in Hin. apply elem_of_app in Hin as [Hin|Hin]; [by eapply Hh|].
      apply list_elem_of_singleton in Hin as [= -> ->]. by subst k.
    + rewrite Ee' in Hin. by eapply Hh.
  - destruct (Hsame true) as [S F]. by apply (handled_same k _ _ S F).
  - pose proof (iv_logs _ _ HI) as Hwf. pose proof (same_logs_wf _ _ _ _ S1 S2 Hwf) as Hwf'.
    destruct (compactLogs_ok lt rt _ _ Hwf') as (A0 & B0 & Hc0 & _ & _ & EB & _ & _ & C1 & C2).
    rewrite Hcp in Hc0. injection Hc0 as <- <-.
    destruct (handled_same k _ _ S2 F2 (conj Ha Hh)) as [Ha2 Hh2]. split.
    + destruct k; cbn in *; lia.
    + intros e p Hin. rewrite EB in Hin. apply list_elem_of_filter in Hin as [_ Hin]. by apply (Hh2 e p).
Qed.

Lemma preimages_same lc lc' :
  (forall remote, same_log (logOf remote lc) (logOf remote lc')) -> preimages_ok lc -> preimages_ok lc'.
Proof.
  intros Hs HP remote e p Hin Ht. pose proof (symmetry (Hs remote)) as S.
  destruct (same_log_in _ _ _ _ S Hin) as (q & Hq & Et & _ & _ & Ep & _ & _ & _ & _ & Ex).
  destruct (HP remote e q Hq) as (e' & add & Ha & At & Ai & Ar); [congruence|].
  destruct (same_log_in _ _ _ _ (Hs (negb remote)) Ha) as (add' & Ha' & Et' & _ & Ei' & _ & _ & _ & _ & Er' & _).
  exists e', add'. split_and!; congruence.
Qed.

Lemma key_inj u e p e' q :
  log_wf u -> (e, p) ∈ entries u -> (e', q) ∈ entries u -> key p = key q -> e = e' /\ p = q.
Proof.
  intros W Hp Hq Hk. assert (e = e') as ->.
  { unfold key in Hk. destruct (decide (EntryType p = Add)) as [Ap|Ap], (decide (EntryType q = Add)) as [Aq|Aq].
    - rewrite Ap, Aq in Hk. injection Hk as Hk.
      enough (Some e = Some e') by congruence.
      rewrite <- (proj2 (lw_htlc _ W (HtlcIndex p) e)) by eauto. apply (lw_htlc _ W). eauto.
    - rewrite Ap in Hk. by destruct (EntryType q).
    - rewrite Aq in Hk. by destruct (EntryType p).
    - assert (LogIndex p = LogIndex q) as HL by (destruct (EntryType p), (EntryType q); by (congruence || injection Hk)).
      enough (Some e = Some e') by congruence.
      rewrite <- (proj2 (lw_upd _ W (LogIndex p) e)) by eauto. apply (lw_upd _ W). eauto. }
  split; [done|]. by eapply entries_inj.
Qed.

Lemma key_assigned u e p : log_wf u -> (e, p) ∈ entries u -> assigned u (key p).
Proof.
  intros W Hp. unfold key. pose proof (lw_log _ W e p Hp). pose proof (lw_ctr _ W e p Hp).
  destruct (EntryType p); cbn; (lia || naive_solver lia).
Qed.

Lemma preimages_kept assets lc lc' :
  Inv assets lc -> changes lc lc' -> preimages_ok lc -> preimages_ok lc'.
Proof.
  intros HI Hch HP. destruct Hch as [rem pd Ee _ _ _ _ Ee' _ _ _ Hset|Hsame|l r lt rt S1 _ S2 _ Hcp].
  - intros remote e p Hin Ht. destruct (decide (remote = rem)) as [->|Hne].
    + rewrite Ee in Hin. rewrite Ee'. apply elem_of_app in Hin as [Hin|Hin]; [by eapply HP|].
      apply list_elem_of_singleton in Hin as [= -> ->]. auto.
    + assert (remote = negb rem) as -> by (by destruct remote, rem). rewrite Ee' in Hin.
      destruct (HP _ _ _ Hin Ht) as (e' & add & Ha & ?). rewrite negb_involutive in *. exists e', add.
      rewrite Ee. split; [apply elem_of_app; by left|done].
  - eapply preimages_same, HP. intros remote. apply Hsame.
  - assert (preimages_ok (set_logs lc l r)) as HP'.
    { apply (preimages_same lc); [|done]. by intros []. }
    pose proof (iv_logs _ _ HI) as Hwf. pose proof (same_logs_wf _ _ _ _ S1 S2 Hwf) as Hwf'.
    destruct (compactLogs_ok lt rt _ _ Hwf') as (A0 & B0 & Hc0 & Hwf2 & EA & EB & _).
    rewrite Hcp in Hc0. injection Hc0 as <- <-.
    assert (forall remote, linked (logOf remote lc') (logOf (negb remote) lc') /\
      (forall x, x ∈ entries (logOf remote lc') -> x ∈ entries (logOf remote (set_logs lc l r)))) as Hk.
    { destruct Hwf2 as (_ & _ & L1 & L2). intros []; (split; [done|]); intros x; cbn; rewrite ?EA, ?EB;
        by intros [_ ?]%list_elem_of_filter. }
    intros remote e p Hin Ht. destruct (Hk remote) as [Hl Hsub], (Hk (negb remote)) as [_ Hsub'].
    destruct (HP' _ _ _ (Hsub _ Hin) Ht) as (e1 & add1 & Hin1 & A1 & I1 & R1).
    destruct (lk_parent _ _ Hl e p Hin) as (e2 & add2 & Hin2 & A2 & I2 & _).
    { unfold is_removal. by rewrite Ht. }
    exists e2, add2. split_and!; try done.
    destruct (key_inj (logOf (negb remote) (set_logs lc l r)) e1 add1 e2 add2) as [_ <-]; try done.
    + destruct Hwf' as (? & ? & _). by destruct remote.
    + by apply Hsub'.
    + unfold key. rewrite A1, A2. congruence.
Qed.

(** ** Removing *)

(** The shape of the five removals. *)
Lemma removal_run o who i lc :
  removes o = Some (who, i) ->
  exists already k, run o lc = cbind (clift (findHtlc (logOf who lc) i already)) k lc /\
    (already = ErrHtlcIndexAlreadySettled \/ already = ErrHtlcIndexAlreadyFailed).
Proof. destruct o; try done; intros [= <- <-]; cbn [run logOf]; eexists _, _; (split; [reflexivity|auto]). Qed.

Lemma spent_refused who i lc o :
  log_wf (logOf who lc) -> removes o = Some (who, i) -> spent i (logOf who lc) ->
  exists e, run o lc = (Err e, lc) /\
    e ∈ [ErrUnknownHtlcIndex i; ErrHtlcIndexAlreadySettled i; ErrHtlcIndexAlreadyFailed i].
Proof.
  intros W Ho [_ Hs]. destruct (removal_run o who i lc Ho) as (already & k & -> & Hal).
  unfold cbind, clift, findHtlc. destruct (lookupHtlc _ i) as [htlc|] eqn:El.
  - apply lookupHtlc_Some in El as (e & Hin & Ha & Hi); [|done]. unfold htlcHasModification.
    rewrite bool_decide_eq_true_2 by (by eapply Hs). exists (already i). split; [done|].
    destruct Hal as [-> | ->]; set_solver.
  - eexists. split; [done|]. set_solver.
Qed.

Lemma removal_step assets o who i lc lc' :
  Inv assets lc -> removes o = Some (who, i) -> run o lc = (Ok tt, lc') -> event lc lc'.
Proof.
  intros HI Ho H. pose proof (iv_logs _ _ HI) as (W1 & W2 & _). eapply run_event; [done..| |exact H].
  by destruct o.
Qed.

Lemma removal_marks o who i lc lc' :
  removes o = Some (who, i) -> run o lc = (Ok tt, lc') ->
  i ∈ modifiedHtlcs (logOf who lc') /\ htlcCounter (logOf who lc') = htlcCounter (logOf who lc).
Proof.
  intros Ho H. destruct o; try done; injection Ho as <- <-; cbn [run] in H;
    unfold SettleHTLC, ReceiveHTLCSettle, FailHTLC, MalformedFailHTLC, ReceiveFailHTLC in H;
    rewrite cbind_cget in H; apply clift_ok in H as (htlc & _ & H);
    try (case_bool_decide; [done|]); injection H as <-; cbn; split; (done || set_solver).
Qed.

Lemma removal_spent assets o who i lc lc' :
  Inv assets lc -> removes o = Some (who, i) -> run o lc = (Ok tt, lc') -> spent i (logOf who lc').
Proof.
  intros HI Ho H. destruct (logOf_wf _ who _ HI) as (W & _).
  destruct (removal_run o who i lc Ho) as (already & k & Hrun & _).
  assert (exists htlc, findHtlc (logOf who lc) i already = Ok htlc) as [htlc Hf].
  { rewrite Hrun in H. apply clift_ok in H as (htlc & ? & _). by exists htlc. }
  destruct (findHtlc_ok _ _ _ _ W Hf) as (Hl & _ & Hi).
  apply lookupHtlc_Some in Hl as (e & Hin & Ha & _); [|done]. pose proof (lw_ctr _ W e htlc Hin Ha).
  destruct (removal_marks o who i lc lc' Ho H) as (Hm & Hc). split; [rewrite Hc; lia|]. by intros.
Qed.

(** ** Forwarding *)

(** What the loop hands out was not forwarded before and is now; adds are
    committed on both chains. *)
Lemma forwardLoop_spec source rt lt l : forall f,
  exists na ns,
    addsToForward (forwardLoop source rt lt l f).2 = addsToForward f ++ na /\
    settleFailsToForward (forwardLoop source rt lt l f).2 = settleFailsToForward f ++ ns /\
    Forall (fun pd => EntryType pd = Add /\ addCommitHeightRemote (heights pd) = rt /\
      0 < addCommitHeightLocal (heights pd) <= lt) na /\
    Forall (fun pd => EntryType pd <> Add /\ removeCommitHeightRemote (heights pd) = rt /\
      0 < removeCommitHeightLocal (heights pd) <= lt) ns /\
    sublist (key <$> na) ((fun x => key x.2) <$> l) /\ sublist (key <$> ns) ((fun x => key x.2) <$> l) /\
    forall pd, pd ∈ na ++ ns -> exists e pd0, (e, pd0) ∈ l /\ isForwarded pd0 = false /\ key pd0 = key pd /\
      (e, pd) ∈ (forwardLoop source rt lt l f).1 /\ isForwarded pd = true.
Proof.
  induction l as [|[e pd] l IH]; intros f; cbn [forwardLoop].
  { exists [], []. rewrite !app_nil_r. repeat split; try constructor. by intros pd ?%elem_of_nil. }
  destruct (forwardEntry source rt lt pd f) as [pd' f'] eqn:Ef.
  destruct (IH f') as (na & ns & E1 & E2 & H1 & H2 & S1 & S2 & Hin).
  destruct (forwardLoop source rt lt l f') as [l' f2]. cbn in *.
  assert (forall p, p ∈ na ++ ns -> exists e0 pd0, (e0, pd0) ∈ (e, pd) :: l /\ isForwarded pd0 = false /\
    key pd0 = key p /\ (e0, p) ∈ (e, pd') :: l' /\ isForwarded p = true) as Hin'.
  { intros p Hp. destruct (Hin p Hp) as (e0 & pd0 & ? & ? & ? & ? & ?). exists e0, pd0.
    split; [by right|]. split; [done|]. split; [done|]. split; [by right|done]. }
  unfold forwardEntry in Ef.
  case_bool_decide as Hfee; [injection Ef as <- <-; exists na, ns; by split_and!; try constructor|].
  destruct (isForwarded pd) eqn:Hfw; [injection Ef as <- <-; exists na, ns; by split_and!; try constructor|].
  assert (forall r d, key (set_forwarded r d pd) = key pd /\ isForwarded (set_forwarded r d pd) = true) as Hkey
    by (intros; by destruct pd).
  destruct (bool_decide (EntryType pd = Add) && _ && _) eqn:Ca.
  { injection Ef as <- <-. rewrite !andb_true_iff in Ca. destruct Ca as [[Ca1 [Ca2 Ca3]] [Ca4 Ca5]].
    apply bool_decide_eq_true in Ca1, Ca2, Ca3, Ca4, Ca5. cbn in E1, E2.
    eexists (_ :: na), ns. rewrite <- app_assoc in E1. split; [exact E1|]. split; [exact E2|].
    split; [constructor; [|done]; destruct pd; cbn in *; split_and!; (done || lia)|]. split; [done|].
    rewrite fmap_cons, (proj1 (Hkey _ _)). split; [by constructor|]. split; [by constructor|].
    intros p [->|Hp]%elem_of_cons; [|by apply Hin'].
    exists e, pd. split; [by left|]. split; [done|].
    split; [symmetry; apply Hkey|]. split; [by left|apply Hkey]. }
  destruct (bool_decide (EntryType pd <> Add) && _ && _) eqn:Cr.
  { injection Ef as <- <-. rewrite !andb_true_iff in Cr. destruct Cr as [[Ca1 [Ca2 Ca3]] [Ca4 Ca5]].
    apply bool_decide_eq_true in Ca1, Ca2, Ca3, Ca4, Ca5. cbn in E1, E2.
    eexists na, (_ :: ns). rewrite <- app_assoc in E2. split; [exact E1|]. split; [exact E2|].
    split; [done|]. split; [constructor; [|done]; destruct pd; cbn in *; split_and!; (done || lia)|].
    split; [by apply sublist_cons|].
    split; [cbn; rewrite (proj1 (Hkey _ _)); by apply sublist_skip|].
    intros p [Hp|[->|Hp]%elem_of_cons]%elem_of_app.
    - apply Hin', elem_of_app. by left.
    - exists e, pd. split; [by left|]. split; [done|].
      split; [symmetry; apply Hkey|]. split; [by left|apply Hkey].
    - apply Hin', elem_of_app. by right. }
  injection Ef as <- <-. exists na, ns. by split_and!; try constructor.
Qed.

Lemma revocation_result dbOk m lc pkg adds sfs htlcs lc' :
  ReceiveRevocation dbOk m lc = (Ok (pkg, adds, sfs, htlcs), lc') ->
  exists c l localTail u,
    remoteCommitChain lc = c :: l /\ tailOf false lc = Ok localTail /\
    let f := forwardLoop (ShortChanID lc) (u64 (Commitment.height c + 1)) (Commitment.height localTail)
               (entries (remoteUpdateLog lc)) (mkForwarding 0 0 [] []) in
    adds = addsToForward f.2 /\ sfs = settleFailsToForward f.2 /\ u = set_entries (remoteUpdateLog lc) f.1 /\
    compactLogs (localUpdateLog lc) u (Commitment.height localTail) (u64 (Commitment.height c + 1)) =
      Ok (localUpdateLog lc', remoteUpdateLog lc') /\
    remoteCommitChain lc' = l.
Proof.
  intros H. unfold ReceiveRevocation in H. rewrite cbind_cget in H.
  destruct (AddNextEntry _ _) as [store|]; [|done]. apply cbind_ok in H as ([] & lc1 & [= <-] & H).
  destruct (RemoteCurrentRevocation _) as [point|]; [|done]. destruct (negb _); [done|].
  apply cbind_ok in H as ([] & lc1 & [= <-] & H).
  apply clift_ok in H as (c & Hc & H). apply clift_ok in H as (localTail & Ht & H).
  destruct (forwardLoop _ _ _ _ _) as [l f] eqn:Ef. apply cbind_ok in H as ([] & lc1 & [= <-] & H).
  apply clift_ok in H as (rtip & _ & H). apply cbind_ok in H as ([] & lc2 & Hdb & H).
  apply clift_ok in H as (chain & Hch & H). apply cbind_ok in H as ([] & lc3 & [= <-] & H).
  rewrite cbind_cget in H. apply clift_ok in H as ([local remote] & Hcp & H).
  apply cbind_ok in H as ([] & lc4 & [= <-] & H). injection H as _ <- <- _ <-.
  destruct (AdvanceCommitChainTail_db _ _ _ _ _ Hdb) as (l0 & r0 & b0 & ->).
  destruct (remoteCommitChain lc) as [|c0 rest] eqn:Er; [done|].
  unfold tailOf, CommitmentChain.tail, chainOf in Hc. rewrite Er in Hc. injection Hc as <-.
  injection Hch as <-. exists c0, rest, localTail, (set_entries (remoteUpdateLog lc) l).
  split; [done|]. split; [done|]. rewrite Ef. cbn. split; [done|]. split; [done|]. split; [done|].
  split; [|done].
  cbn in Hcp. unfold or_panic in Hcp. destruct (compactLogs _ _ _ _); [|done..]. by injection Hcp as ->.
Qed.

(** What a revocation forwarded is handled from then on. *)
Lemma forwarded_handled assets dbOk m lc pkg adds sfs htlcs lc' pd :
  Inv assets lc -> ReceiveRevocation dbOk m lc = (Ok (pkg, adds, sfs, htlcs), lc') ->
  pd ∈ adds ++ sfs -> handled (key pd) (remoteUpdateLog lc').
Proof.
  intros HI H Hpd. destruct (revocation_result _ _ _ _ _ _ _ _ H)
    as (c & l & lt & u & _ & _ & Ea & Es & Eu & Hcp & _).
  pose proof (forwardLoop_spec (ShortChanID lc) (u64 (Commitment.height c + 1)) (Commitment.height lt)
    (entries (remoteUpdateLog lc)) (mkForwarding 0 0 [] []))
    as (na & ns & E1 & E2 & _ & _ & _ & _ & Hin). cbn in E1, E2. rewrite E1 in Ea. rewrite E2 in Es. subst adds sfs.
  pose proof (forwardLoop_quiet (ShortChanID lc) (u64 (Commitment.height c + 1)) (Commitment.height lt)
    (remoteUpdateLog lc) (mkForwarding 0 0 [] [])) as [Sq _]. rewrite <- Eu in Sq.
  pose proof (same_logs_wf _ _ _ _ (reflexivity (localUpdateLog lc)) Sq (iv_logs _ _ HI)) as Hwf.
  destruct (Hin pd Hpd) as (e & pd0 & _ & _ & _ & Hl & Hf).
  assert ((e, pd) ∈ entries u) as Hu by (by rewrite Eu).
  destruct Hwf as (W1 & W2 & Hlk). destruct (compactLogs_ok (Commitment.height lt) (u64 (Commitment.height c + 1))
    _ _ (conj W1 (conj W2 Hlk))) as (A0 & B0 & Hc0 & _ & _ & EB & _ & _ & C1 & C2).
  rewrite Hcp in Hc0. injection Hc0 as <- <-. split.
  - pose proof (key_assigned _ _ _ W2 Hu). destruct (key pd); cbn in *; lia.
  - intros e' q Hq Hk. rewrite EB in Hq. apply list_elem_of_filter in Hq as [_ Hq].
    by destruct (key_inj _ _ _ _ _ W2 Hq Hu Hk) as [_ ->].
Qed.

(** A handled update is not forwarded. *)
Lemma handled_not_forwarded dbOk m lc pkg adds sfs htlcs lc' k pd :
  handled k (remoteUpdateLog lc) -> ReceiveRevocation dbOk m lc = (Ok (pkg, adds, sfs, htlcs), lc') ->
  pd ∈ adds ++ sfs -> key pd <> k.
Proof.
  intros [_ Hh] H Hpd <-. destruct (revocation_result _ _ _ _ _ _ _ _ H)
    as (c & l & lt & u & _ & _ & Ea & Es & _).
  pose proof (forwardLoop_spec (ShortChanID lc) (u64 (Commitment.height c + 1)) (Commitment.height lt)
    (entries (remoteUpdateLog lc)) (mkForwarding 0 0 [] []))
    as (na & ns & E1 & E2 & _ & _ & _ & _ & Hin). cbn in E1, E2. rewrite E1 in Ea. rewrite E2 in Es. subst adds sfs.
  destruct (Hin pd Hpd) as (e & pd0 & Hl & Hf & Hk & _). by rewrite (Hh e pd0 Hl Hk) in Hf.
Qed.

Lemma keys_nodup u : log_wf u -> NoDup ((fun x => key x.2) <$> entries u).
Proof.
  intros W. apply NoDup_fmap_2_strong; [|by eapply NoDup_fmap_1, (lw_ids _ W)].
  intros [e p] [e' q] Hp Hq Hk. by destruct (key_inj _ _ _ _ _ W Hp Hq Hk) as [-> ->].
Qed.

End history.
