(* ===== verification/ChannelTheorems.v ===== *)
(** * lnwallet: what the channel state machine guarantees

    The theorems about reachable channels, each evaluated on a concrete run. *)

From Stdlib Require Import ZArith Lia Sorted.
From S2P Require Import Prelude Wire WireMessages WireModels Amounts OpReturn UpdateLog.
From S2P Require Import CommitTx ChannelState ChannelModel ChannelView ViewLemmas ViewConservation ChannelOps.
From S2P Require Import ChannelInv ChannelReach ChannelFunds ChannelHistory.

Local Open Scope Z_scope.
Local Open Scope go_scope.

(** ** Concrete runs *)

#[local] Existing Instance btcec_model.
#[local] Existing Instance chan_model.

(** An HTLC of ours, its revocations, and the settle that ends it. *)
Definition add_msg (asset amount : Z) : UpdateAddHTLC.t :=
  {| UpdateAddHTLC.ChanID := replicate 32 x00; UpdateAddHTLC.ID := 0; UpdateAddHTLC.AssetID := asset;
     UpdateAddHTLC.Amount := amount; UpdateAddHTLC.PaymentHash := replicate 32 x05;
     UpdateAddHTLC.Expiry := 100; UpdateAddHTLC.OnionBlob := replicate 1366 x00;
     UpdateAddHTLC.ExtraData := [] |}.

Definition rev_msg (h : Z) : RevokeAndAck.t :=
  {| RevokeAndAck.ChanID := replicate 32 x00; RevokeAndAck.Revocation := be_put 32 h;
     RevokeAndAck.NextRevocationKey := Some (secret_key (be_put 32 (h + 2)));
     RevokeAndAck.ExtraData := [] |}.

Definition commit_ops (h : Z) : list op :=
  [OpSignNextCommitment true; OpReceiveRevocation true (rev_msg h);
   OpReceiveNewCommitment (replicate 64 x01) []; OpRevokeCurrentCommitment true].

Definition settle_op : op := OpReceiveHTLCSettle (replicate 32 x05) 0.

(** Added and committed on both sides; then settled by the peer, who signs first,
    and gone from both sides. *)
Definition add_ops (asset amount : Z) : list op := OpAddHTLC (add_msg asset amount) None :: commit_ops 0.

Definition settle_ops : list op :=
  [settle_op; OpReceiveNewCommitment (replicate 64 x01) []; OpRevokeCurrentCommitment true;
   OpSignNextCommitment true; OpReceiveRevocation true (rev_msg 1)].

Definition after (ops : list op) (lc : LightningChannel) : LightningChannel := (run_all ops lc).2.

(** What a run of the bitcoin channel and one of the asset channel leave. *)
Example btc_run :
  (run_all (add_ops 0 5000000 ++ settle_ops) btc_channel).1 = true /\
  let lc := after (add_ops 0 5000000 ++ settle_ops) btc_channel in
  (fun c => (Commitment.height c, Commitment.ourBtcBalance c, Commitment.theirBtcBalance c,
             Commitment.fee c)) <$> remoteCommitChain lc = [(2, 59817000, 40000000, 183)] /\
  entries (localUpdateLog lc) = [] /\ entries (remoteUpdateLog lc) = [] /\
  TotalMSatSent (totals lc) = 5000000.
Proof. split; [vm_compute; reflexivity|]. cbv zeta. split_and!; vm_compute; reflexivity. Qed.

Example asset_run :
  (run_all (add_ops 31 50 ++ settle_ops) asset_channel).1 = true /\
  let lc := after (add_ops 31 50 ++ settle_ops) asset_channel in
  (fun c => (Commitment.ourAssetBalance c, Commitment.theirAssetBalance c)) <$> remoteCommitChain lc =
    [(450, 250)].
Proof. split; vm_compute; reflexivity. Qed.

Lemma after_reachable ops lc : (run_all ops lc).1 = true -> reachable lc (after ops lc).
Proof. apply run_all_reachable. constructor. Qed.

(** ** Theorems *)

(** C14: The shape of a channel.  In every reachable state the two logs are
    well-formed and linked, our chain is a non-empty run of consecutive heights
    from the current height on, the peer's chain has one commitment or two of
    consecutive heights, and no commitment covers more of a log than there is or
    more than the other side has acknowledged. *)
Theorem reachable_wellformed {BT : Btcec} {E : ChanEnv} lc0 lc :
  opened lc0 -> reachable lc0 lc ->
  logs_wf (localUpdateLog lc) (remoteUpdateLog lc) /\
  (exists c l, localCommitChain lc = c :: l /\ chainHeights (currentHeight lc) (c :: l)) /\
  (exists h c l, remoteCommitChain lc = c :: l /\ chainHeights h (c :: l) /\ (length l <= 1)%nat) /\
  (forall c c', c ∈ localCommitChain lc -> c' ∈ remoteCommitChain lc ->
     Commitment.ourMessageIndex c <= Commitment.ourMessageIndex c' <= logIndex (localUpdateLog lc) /\
     Commitment.theirMessageIndex c' <= Commitment.theirMessageIndex c <= logIndex (remoteUpdateLog lc)).
Proof.
  intros HO Hr. destruct (reachable_inv _ _ HO Hr) as [HI _]. split; [apply (iv_logs _ _ HI)|].
  split.
  { pose proof (iv_local _ _ HI) as Hne. destruct (iv_lheights _ _ HI) as [_ Hch].
    destruct (localCommitChain lc) as [|c l]; [done|]. by exists c, l. }
  split.
  { destruct (iv_remote _ _ HI) as [Hne Hl]. destruct (iv_rheights _ _ HI) as (h & _ & Hch).
    destruct (remoteCommitChain lc) as [|c l]; [done|]. exists h, c, l. cbn in Hl. split_and!; (done || lia). }
  intros c c' Hc Hc'. pose proof (iv_cross _ _ HI c c' Hc Hc'). pose proof (iv_lidx _ _ HI c Hc).
  pose proof (iv_ridx _ _ HI c' Hc'). lia.
Qed.

Lemma reachable_wellformed_witness :
  let lc := after (add_ops 0 5000000) btc_channel in
  logs_wf (localUpdateLog lc) (remoteUpdateLog lc) /\ length (entries (localUpdateLog lc)) = 1%nat.
Proof.
  intros lc. split; [|vm_compute; reflexivity].
  apply (reachable_wellformed btc_channel lc); [apply opened_channel|].
  apply after_reachable. vm_compute. reflexivity.
Defined.







(** C18: Revocations are safe.  When [RevokeCurrentCommitment] succeeds in a
    reachable state, the secret it reveals is that of the height of the
    commitment that was stored before, and the commitment stored now is the next
    one, so no secret of a stored commitment has been revealed; when it fails,
    nothing is revealed and the database is unchanged. *)
Theorem RevokeCurrentCommitment_safe {BT : Btcec} {E : ChanEnv} lc0 lc dbOk :
  opened lc0 -> reachable lc0 lc -> room lc ->
  let '(res, lc') := RevokeCurrentCommitment dbOk lc in
  match res with
  | Ok (msg, htlcs) =>
      exists secret, AtIndex (CommitHeight (db_localCommitment (bucket lc))) = Some secret /\
        RevokeAndAck.Revocation msg = copyInto 32 secret /\
        CommitHeight (db_localCommitment (bucket lc')) =
          CommitHeight (db_localCommitment (bucket lc)) + 1
  | _ => bucket lc' = bucket lc
  end.
Proof.
  intros HO Hr Hroom. destruct (reachable_inv _ _ HO Hr) as [HI HD].
  destruct (RevokeCurrentCommitment dbOk lc) as [res lc'] eqn:H.
  destruct res as [[msg htlcs]|e|].
  - pose proof (revoke_event _ _ _ _ H) as Hev. pose proof (event_inv _ _ _ HI HD Hroom Hev) as HI'.
    pose proof (event_db _ _ _ HI HD Hev) as HD'.
    destruct (revoke_run _ _ _ _ _ H) as (secret & Hs & Hm & Hh).
    rewrite (stored_height _ _ HI HD), (stored_height _ _ HI' HD'). exists secret. split; [done|].
    split; [done|]. rewrite Hh. destruct (iv_lheights _ _ HI) as [H0 Hch]. apply u64_id.
    destruct Hroom as (_ & _ & Hrm & _). pose proof (iv_local _ _ HI) as Hne.
    destruct (localCommitChain lc) as [|c l] eqn:El; [done|]. destruct Hch as [Hc _].
    specialize (Hrm false c). cbn in Hrm. rewrite El in Hrm. specialize (Hrm ltac:(by left)).
    unfold in_u. lia.
  - apply (revoke_fails _ _ _ _ H). done.
  - apply (revoke_fails _ _ _ _ H). done.
Qed.

Lemma RevokeCurrentCommitment_safe_witness :
  let lc := after (take 4 (add_ops 0 5000000)) btc_channel in
  exists msg htlcs lc', RevokeCurrentCommitment true lc = (Ok (msg, htlcs), lc') /\
    exists secret, AtIndex 0 = Some secret /\ RevokeAndAck.Revocation msg = copyInto 32 secret /\
      CommitHeight (db_localCommitment (bucket lc')) = 1.
Proof.
  intros lc. assert (reachable btc_channel lc) as Hr by (apply after_reachable; vm_compute; reflexivity).
  assert (room lc) as Hroom by (apply room_check_ok; vm_compute; reflexivity).
  assert (CommitHeight (db_localCommitment (bucket lc)) = 0) as H0 by (vm_compute; reflexivity).
  assert (match (RevokeCurrentCommitment true lc).1 with Ok _ => True | _ => False end) as Hok
    by (vm_compute; exact I).
  clearbody lc.
  pose proof (RevokeCurrentCommitment_safe btc_channel lc true (opened_channel _ _ _ _ _ _) Hr Hroom) as H.
  destruct (RevokeCurrentCommitment true lc) as [[[msg htlcs]|e|] lc']; [|destruct Hok..].
  rewrite H0 in H. exists msg, htlcs, lc'. split; [reflexivity|exact H].
Defined.

(** C19: Updates are all or nothing.  In a reachable state, an update that is not
    accepted (an HTLC that breaks a constraint of the channel, an unknown or
    already removed HTLC, a wrong preimage, a fee update by the wrong party or
    that cannot be paid) leaves the whole channel as it was. *)
Theorem updates_all_or_nothing {BT : Btcec} {E : ChanEnv} lc0 lc o :
  opened lc0 -> reachable lc0 lc -> is_update o = true ->
  (run o lc).1 <> Ok tt -> (run o lc).2 = lc.
Proof.
  intros HO Hr Hu Hne. destruct (reachable_inv _ _ HO Hr) as [HI _]. pose proof (iv_logs _ _ HI) as (W1 & W2 & _).
  destruct (run o lc) as [r lc'] eqn:H. cbn in *. by eapply update_refused.
Qed.

Lemma updates_all_or_nothing_witness :
  let lc := after (add_ops 0 5000000) btc_channel in
  (run (OpReceiveHTLCSettle (replicate 32 x06) 0) lc).1 = Err ErrInvalidSettlePreimage /\
  (run (OpReceiveHTLCSettle (replicate 32 x06) 0) lc).2 = lc /\
  (run (OpAddHTLC (add_msg 0 65000000) None) lc).1 = Err ErrBelowChanReserve /\
  (run (OpAddHTLC (add_msg 0 65000000) None) lc).2 = lc.
Proof.
  intros lc. assert (reachable btc_channel lc) as Hr by (apply after_reachable; vm_compute; reflexivity).
  assert ((run (OpReceiveHTLCSettle (replicate 32 x06) 0) lc).1 = Err ErrInvalidSettlePreimage) as H1
    by (vm_compute; reflexivity).
  assert ((run (OpAddHTLC (add_msg 0 65000000) None) lc).1 = Err ErrBelowChanReserve) as H2
    by (vm_compute; reflexivity).
  clearbody lc. split; [exact H1|]. split; [|split; [exact H2|]].
  - apply (updates_all_or_nothing btc_channel lc (OpReceiveHTLCSettle (replicate 32 x06) 0)
      (opened_channel _ _ _ _ _ _) Hr eq_refl).
    rewrite H1. discriminate.
  - apply (updates_all_or_nothing btc_channel lc (OpAddHTLC (add_msg 0 65000000) None)
      (opened_channel _ _ _ _ _ _) Hr eq_refl).
    rewrite H2. discriminate.
Defined.

(** C20: An HTLC is removed at most once.  After a successful settle or failure of
    an HTLC, in every later state every further attempt to settle or fail it is
    refused and changes nothing, however far the protocol has got and even after
    the HTLC has left the log. *)
Theorem htlc_removed_once {BT : Btcec} {E : ChanEnv} lc0 lc o lc1 lc2 o' who i :
  opened lc0 -> reachable lc0 lc -> room lc ->
  run o lc = (Ok tt, lc1) -> removes o = Some (who, i) ->
  reachable lc1 lc2 -> removes o' = Some (who, i) ->
  exists e, run o' lc2 = (Err e, lc2) /\
    e ∈ [ErrUnknownHtlcIndex i; ErrHtlcIndexAlreadySettled i; ErrHtlcIndexAlreadyFailed i].
Proof.
  intros HO Hr Hroom Hrun Ho Hr2 Ho'. destruct (reachable_inv _ _ HO Hr) as [HI HD].
  pose proof (removal_spent _ _ _ _ _ _ HI Ho Hrun) as Hs.
  pose proof (removal_step _ _ _ _ _ _ HI Ho Hrun) as Hev.
  destruct (reachable_keeps (fun x => spent i (logOf who x)) (assetsOf lc0) lc1 lc2) as (HI2 & _ & Hs2); try done.
  - intros x y HIx _ Hrm Hev' Hx. eapply spent_kept; [done|by eapply event_changes|done].
  - by eapply event_inv.
  - by eapply event_db.
  - pose proof (iv_logs _ _ HI2) as (W1 & W2 & _).
    destruct (spent_refused who i lc2 o') as (e & -> & He); [by destruct who|done..|]. by exists e.
Qed.

Lemma htlc_removed_once_witness :
  let lc := after (add_ops 0 5000000) btc_channel in
  let lc2 := after settle_ops lc in
  exists e, run (OpReceiveFailHTLC 0 []) lc2 = (Err e, lc2) /\ e = ErrUnknownHtlcIndex 0.
Proof.
  intros lc lc2. assert (reachable btc_channel lc) as Hr by (apply after_reachable; vm_compute; reflexivity).
  assert (room lc) as Hroom by (apply room_check_ok; vm_compute; reflexivity).
  pose (lc1 := (run settle_op lc).2).
  assert (run settle_op lc = (Ok tt, lc1)) as H1.
  { rewrite (surjective_pairing (run settle_op lc)). apply (f_equal2 pair); [vm_compute; reflexivity|reflexivity]. }
  assert (reachable lc1 lc2) as Hr2.
  { subst lc2. unfold after, settle_ops. rewrite (run_all_cons settle_op _ _ _ H1) by (vm_compute; reflexivity).
    apply run_all_reachable; [constructor|]. vm_compute. reflexivity. }
  assert ((run (OpReceiveFailHTLC 0 []) lc2).1 = Err (ErrUnknownHtlcIndex 0)) as He by (vm_compute; reflexivity).
  clearbody lc lc1 lc2.
  destruct (htlc_removed_once btc_channel lc settle_op lc1 lc2 (OpReceiveFailHTLC 0 []) false 0
    (opened_channel _ _ _ _ _ _) Hr Hroom H1 eq_refl Hr2 eq_refl) as (e & Hx & _).
  exists e. split; [exact Hx|]. rewrite Hx in He. by injection He.
Defined.

(** C21: Settles are backed by preimages.  In every reachable state every settle
    in a log consumes an HTLC of the log across, of the same amount, and carries
    a preimage of its payment hash. *)
Theorem settles_have_preimages {BT : Btcec} {E : ChanEnv} lc0 lc remote e pd :
  opened lc0 -> reachable lc0 lc ->
  (e, pd) ∈ entries (logOf remote lc) -> EntryType pd = Settle ->
  exists e' add, (e', add) ∈ entries (logOf (negb remote) lc) /\ EntryType add = Add /\
    HtlcIndex add = ParentIndex pd /\ RHash add = sha256 (RPreimage pd) /\
    BtcAmount pd = BtcAmount add /\ AssetAmount pd = AssetAmount add.
Proof.
  intros HO Hr Hin Ht.
  destruct (reachable_keeps preimages_ok (assetsOf lc0) lc0 lc) as (HI & _ & HP);
    [|by apply opened_inv|by apply opened_db| |done|].
  - intros x y HI _ Hroom Hev. eapply preimages_kept; [done|by eapply event_changes].
  - intros []; cbn; rewrite ?(op_local_log _ HO), ?(op_remote_log _ HO); by intros ? ? ?%elem_of_nil.
  - destruct (HP remote e pd Hin Ht) as (e1 & add1 & Hin1 & A1 & I1 & R1).
    destruct (logOf_wf _ remote _ HI) as (_ & W & Hl & _).
    destruct (lk_parent _ _ Hl e pd Hin) as (e2 & add2 & Hin2 & A2 & I2 & _ & Hb & Ha).
    { unfold is_removal. by rewrite Ht. }
    destruct (key_inj _ e1 add1 e2 add2 W Hin1 Hin2) as [<- <-].
    { unfold key. rewrite A1, A2. congruence. }
    by exists e1, add1.
Qed.

Lemma settles_have_preimages_witness :
  let lc := after (add_ops 0 5000000 ++ [settle_op]) btc_channel in
  exists e pd e' add, (e, pd) ∈ entries (remoteUpdateLog lc) /\ (e', add) ∈ entries (localUpdateLog lc) /\
    RHash add = rev (RPreimage pd) /\ BtcAmount pd = BtcAmount add.
Proof.
  intros lc. assert (reachable btc_channel lc) as Hr by (apply after_reachable; vm_compute; reflexivity).
  assert ((fun x => EntryType x.2) <$> entries (remoteUpdateLog lc) = [Settle]) as Ht by (vm_compute; reflexivity).
  clearbody lc. destruct (entries (remoteUpdateLog lc)) as [|[e pd] [|]] eqn:El; try discriminate.
  injection Ht as Ht. assert ((e, pd) ∈ entries (logOf true lc)) as Hin by (cbn; rewrite El; left).
  destruct (settles_have_preimages btc_channel lc true e pd (opened_channel _ _ _ _ _ _) Hr Hin Ht)
    as (e' & add & Ha & _ & _ & Hh & Hb & _).
  exists e, pd, e', add. split; [left|]. split; [exact Ha|]. split; [exact Hh|exact Hb].
Defined.


