(* ===== verification/ChannelSync.v ===== *)
(** * lnwallet: loading a channel from the database

    Models what happens when a connection is set up again: [NewLightningChannel]
    of lnwallet/channel.go builds the two commitment chains and the two update
    logs from what the channel's bucket holds ([diskCommitToMemCommit],
    [restoreCommitState], [restoreStateLogs] and the conversions of stored log
    updates into payment descriptors).

    [reload] is a restart: the channel is read from its bucket and everything
    that was only in memory is gone.  A nil pointer that the code dereferences is
    [Panic], as are the two explicit panics of [restorePendingLocalUpdates].

    The handshake of a new connection over the loaded channel follows. *)

From Stdlib Require Import ZArith Lia.
From S2P Require Import Prelude Wire WireMessages Amounts OpReturn UpdateLog CommitTx.
From S2P Require Import ChannelState ChannelView ViewLemmas ChannelOps.

Local Open Scope Z_scope.
Local Open Scope go_scope.

Inductive restore_err : Type :=
  | ErrRestoreScript
  | ErrRestoreRevocation
  | ErrUnknownMessageType
  | ErrUnsignedRemoteUpdate (logIndex : Z).

(** ** Stored log updates *)

(** The descriptor of a removal, from the HTLC it consumes; a nil HTLC is
    dereferenced. *)
Definition restoredRemoval (ogHTLC : option PaymentDescriptor) (t : updateType) (logIndex : Z)
    (preimage reason shaOnion : list byte) (failCode : Z) (h : commitHeights) :
    outcome restore_err PaymentDescriptor :=
  match ogHTLC with
  | None => Panic
  | Some og =>
      Ok {| RHash := RHash og; RPreimage := preimage; Timeout := 0;
            BtcAmount := BtcAmount og; AssetAmount := AssetAmount og;
            UpdateLog.AssetID := UpdateLog.AssetID og;
            LogIndex := logIndex; HtlcIndex := 0; ParentIndex := HtlcIndex og;
            SourceRef := None; DestRef := None; OpenCircuitKey := None; ClosedCircuitKey := None;
            OnionBlob := []; ShaOnionBlob := shaOnion; FailReason := reason; FailCode := failCode;
            EntryType := t; heights := h; output := noOutput; isForwarded := false |}
  end.

Definition restoredFee (m : UpdateFee.t) (logIndex : Z) (h : commitHeights) : PaymentDescriptor :=
  {| RHash := zero32; RPreimage := zero32; Timeout := 0;
     BtcAmount := NewMSatFromSatoshis (UpdateFee.FeePerKw m); AssetAmount := 0;
     UpdateLog.AssetID := UpdateFee.AssetID m;
     LogIndex := logIndex; HtlcIndex := 0; ParentIndex := 0;
     SourceRef := None; DestRef := None; OpenCircuitKey := None; ClosedCircuitKey := None;
     OnionBlob := []; ShaOnionBlob := zero32; FailReason := []; FailCode := 0;
     EntryType := FeeUpdate; heights := h; output := noOutput; isForwarded := false |}.

Definition restoredAdd (m : UpdateAddHTLC.t) (logIndex : Z) (h : commitHeights) (o : htlcOutput) :
    PaymentDescriptor :=
  SetAmtFromMsgHtlc m
    {| RHash := UpdateAddHTLC.PaymentHash m; RPreimage := zero32; Timeout := UpdateAddHTLC.Expiry m;
       BtcAmount := 0; AssetAmount := 0; UpdateLog.AssetID := 0;
       LogIndex := logIndex; HtlcIndex := UpdateAddHTLC.ID m; ParentIndex := 0;
       SourceRef := None; DestRef := None; OpenCircuitKey := None; ClosedCircuitKey := None;
       OnionBlob := UpdateAddHTLC.OnionBlob m; ShaOnionBlob := zero32; FailReason := [];
       FailCode := 0; EntryType := Add; heights := h; output := o; isForwarded := false |}.

(** Stored fee updates of earlier versions carry no log index and get one. *)
Definition set_logIndex (pd : PaymentDescriptor) (i : Z) : PaymentDescriptor :=
  {| RHash := RHash pd; RPreimage := RPreimage pd; Timeout := Timeout pd;
     BtcAmount := BtcAmount pd; AssetAmount := AssetAmount pd;
     UpdateLog.AssetID := UpdateLog.AssetID pd;
     LogIndex := i; HtlcIndex := HtlcIndex pd; ParentIndex := ParentIndex pd;
     SourceRef := SourceRef pd; DestRef := DestRef pd; OpenCircuitKey := OpenCircuitKey pd;
     ClosedCircuitKey := ClosedCircuitKey pd; OnionBlob := OnionBlob pd;
     ShaOnionBlob := ShaOnionBlob pd; FailReason := FailReason pd; FailCode := FailCode pd;
     EntryType := EntryType pd; heights := heights pd; output := output pd;
     isForwarded := isForwarded pd |}.

(** The heights a stored update is restored with, on the remote or on our chain. *)
Definition removedAt (remote : bool) (h : Z) : commitHeights :=
  if remote then mkHeights 0 0 h 0 else mkHeights 0 0 0 h.

Definition feeAt (remote : bool) (h : Z) : commitHeights :=
  if remote then mkHeights h 0 h 0 else mkHeights 0 h 0 h.

(** [localLogUpdateToPayDesc] and [remoteLogUpdateToPayDesc] treat everything but
    an add alike, one with the heights of the remote chain and one with ours. *)
Definition nonAddToPayDesc (remote : bool) (logUpdate : LogUpdate) (otherLog : updateLog)
    (commitHeight : Z) : outcome restore_err PaymentDescriptor :=
  let i := LogUpdate_LogIndex logUpdate in
  let h := removedAt remote commitHeight in
  match UpdateMsg logUpdate with
  | UAdd _ => Err ErrUnknownMessageType
  | UFulfill m =>
      restoredRemoval (lookupHtlc otherLog (UpdateFulfillHTLC.ID m)) Settle i
        (UpdateFulfillHTLC.PaymentPreimage m) [] zero32 0 h
  | UFail m =>
      restoredRemoval (lookupHtlc otherLog (UpdateFailHTLC.ID m)) Fail i
        zero32 (UpdateFailHTLC.Reason m) zero32 0 h
  | UMalformed m =>
      restoredRemoval (lookupHtlc otherLog (UpdateFailMalformedHTLC.ID m)) MalformedFail i
        zero32 [] (UpdateFailMalformedHTLC.ShaOnionBlob m) (UpdateFailMalformedHTLC.FailureCode m) h
  | UFee m => Ok (restoredFee m i (feeAt remote commitHeight))
  end.

Definition localLogUpdateToPayDesc (logUpdate : LogUpdate) (remoteUpdateLog : updateLog)
    (commitHeight : Z) : outcome restore_err PaymentDescriptor :=
  nonAddToPayDesc true logUpdate remoteUpdateLog commitHeight.

Definition remoteLogUpdateToPayDesc (logUpdate : LogUpdate) (localUpdateLog : updateLog)
    (commitHeight : Z) : outcome restore_err PaymentDescriptor :=
  match UpdateMsg logUpdate with
  | UAdd m => Ok (restoredAdd m (LogUpdate_LogIndex logUpdate) (mkHeights 0 commitHeight 0 0) noOutput)
  | _ => nonAddToPayDesc false logUpdate localUpdateLog commitHeight
  end.

(** The HTLC a stored update removes. *)
Definition removedHtlc (logUpdate : LogUpdate) : option Z :=
  match UpdateMsg logUpdate with
  | UFulfill m => Some (UpdateFulfillHTLC.ID m)
  | UFail m => Some (UpdateFailHTLC.ID m)
  | UMalformed m => Some (UpdateFailMalformedHTLC.ID m)
  | _ => None
  end.

(** ** The maps of add heights *)

Definition setHeights (height : Z) (l : list Z) (m : gmap Z Z) : gmap Z Z :=
  fold_left (fun m i => <[i := height]> m) l m.

(** A missing key reads as zero. *)
Definition heightOf (m : gmap Z Z) (i : Z) : Z := default 0 (m !! i).

Section restore.
Context {BT : Btcec} {E : ChanEnv}.

Definition logUpdateToPayDesc (c : ChanCfg) (logUpdate : LogUpdate) (remoteUpdateLog : updateLog)
    (commitHeight feeRate : Z) (remoteCommitKeys : keyRing) (remoteDustLimit : Z) :
    outcome restore_err PaymentDescriptor :=
  match UpdateMsg logUpdate with
  | UAdd m =>
      let pd := restoredAdd m (LogUpdate_LogIndex logUpdate) (mkHeights commitHeight 0 0 0) in
      if HtlcIsDust (ChanType c) false false feeRate (ToSatoshis (UpdateAddHTLC.Amount m))
           remoteDustLimit (UpdateAddHTLC.AssetID m)
      then Ok (pd noOutput)
      else
        match genHtlcScript (ChanType c) false false (UpdateAddHTLC.Expiry m)
                (UpdateAddHTLC.PaymentHash m) remoteCommitKeys with
        | None => Err ErrRestoreScript
        | Some theirP2WSH => Ok (pd (mkHtlcOutput [] theirP2WSH 0 0))
        end
  | _ => nonAddToPayDesc true logUpdate remoteUpdateLog commitHeight
  end.

(** ** Stored commitments *)

(** The script of an HTLC, unless it is dust or there are no keys. *)
Definition restoreScript (c : ChanCfg) (ourCommit : bool) (feeRate : Z) (htlc : HTLC)
    (keys : option keyRing) : outcome restore_err (list byte) :=
  let dustLimit := if ourCommit then DustLimit (LocalChanCfg c) else DustLimit (RemoteChanCfg c) in
  let isDust := HtlcIsDust (ChanType c) (HTLC_Incoming htlc) ourCommit feeRate
                  (ToSatoshis (HTLC_BtcAmt htlc)) dustLimit (ChanAssetID c) in
  match isDust, keys with
  | false, Some keys =>
      match genHtlcScript (ChanType c) (HTLC_Incoming htlc) ourCommit (HTLC_RefundTimeout htlc)
              (HTLC_RHash htlc) keys with
      | None => Err ErrRestoreScript
      | Some s => Ok s
      end
  | _, _ => Ok []
  end.

Definition diskHtlcToPayDesc (c : ChanCfg) (feeRate : Z) (htlc : HTLC)
    (localCommitKeys remoteCommitKeys : option keyRing) (isLocal : bool) :
    outcome restore_err PaymentDescriptor :=
  ourP2WSH <~ restoreScript c true feeRate htlc localCommitKeys ;
  theirP2WSH <~ restoreScript c false feeRate htlc remoteCommitKeys ;
  Ok {| RHash := HTLC_RHash htlc; RPreimage := zero32; Timeout := HTLC_RefundTimeout htlc;
        BtcAmount := HTLC_BtcAmt htlc; AssetAmount := HTLC_AssetAmt htlc;
        UpdateLog.AssetID := ChanAssetID c;
        LogIndex := HTLC_LogIndex htlc; HtlcIndex := HTLC_HtlcIndex htlc; ParentIndex := 0;
        SourceRef := None; DestRef := None; OpenCircuitKey := None; ClosedCircuitKey := None;
        OnionBlob := HTLC_OnionBlob htlc; ShaOnionBlob := zero32; FailReason := []; FailCode := 0;
        EntryType := Add; heights := noHeights;
        output := mkHtlcOutput ourP2WSH theirP2WSH
                    (if isLocal then HTLC_OutputIndex htlc else 0)
                    (if isLocal then 0 else HTLC_OutputIndex htlc);
        isForwarded := false |}.

(** The incoming HTLCs and the outgoing ones, in their order. *)
Fixpoint extractPayDescs (c : ChanCfg) (feeRate : Z) (htlcs : list HTLC)
    (localCommitKeys remoteCommitKeys : option keyRing) (isLocal : bool) :
    outcome restore_err (list PaymentDescriptor * list PaymentDescriptor) :=
  match htlcs with
  | [] => Ok ([], [])
  | htlc :: htlcs' =>
      payDesc <~ diskHtlcToPayDesc c feeRate htlc localCommitKeys remoteCommitKeys isLocal ;
      '(incoming, outgoing) <~
        extractPayDescs c feeRate htlcs' localCommitKeys remoteCommitKeys isLocal ;
      if HTLC_Incoming htlc then Ok (payDesc :: incoming, outgoing)
      else Ok (incoming, payDesc :: outgoing)
  end.

Definition diskCommitToMemCommit (c : ChanCfg) (isLocal : bool) (diskCommit : ChannelCommitment)
    (localCommitPoint remoteCommitPoint : option pubkey) : outcome restore_err commitment :=
  let localCommitKeys := (fun p => DeriveCommitmentKeys p true) <$> localCommitPoint in
  let remoteCommitKeys := (fun p => DeriveCommitmentKeys p false) <$> remoteCommitPoint in
  '(incomingHtlcs, outgoingHtlcs) <~
    extractPayDescs c (FeePerKw diskCommit) (Htlcs diskCommit) localCommitKeys remoteCommitKeys isLocal ;
  Ok {| Commitment.height := CommitHeight diskCommit; Commitment.isOurs := isLocal;
        Commitment.ourMessageIndex := LocalLogIndex diskCommit;
        Commitment.theirMessageIndex := RemoteLogIndex diskCommit;
        Commitment.ourHtlcIndex := LocalHtlcIndex diskCommit;
        Commitment.theirHtlcIndex := RemoteHtlcIndex diskCommit;
        Commitment.txn := CommitTx diskCommit; Commitment.sig := CommitSig diskCommit;
        Commitment.ourBtcBalance := LocalBtcBalance diskCommit;
        Commitment.theirBtcBalance := RemoteBtcBalance diskCommit;
        Commitment.ourAssetBalance := LocalAssetBalance diskCommit;
        Commitment.theirAssetBalance := RemoteAssetBalance diskCommit;
        Commitment.fee := CommitFee diskCommit; Commitment.feePerKw := FeePerKw diskCommit;
        Commitment.dustLimit := if isLocal then DustLimit (LocalChanCfg c) else DustLimit (RemoteChanCfg c);
        Commitment.outgoingHTLCs := outgoingHtlcs; Commitment.incomingHTLCs := incomingHtlcs;
        Commitment.outgoingHTLCIndex := ∅; Commitment.incomingHTLCIndex := ∅ |}.

(** ** The update logs *)

(** A channel's two logs, ours first. *)
Definition logs : Type := updateLog * updateLog.

(** The updates of the pending commitment go back to our log, at its end. *)
Fixpoint restorePendingLocalUpdates (c : ChanCfg) (pendingHeight feeRate : Z)
    (pendingRemoteKeys : keyRing) (updates : list LogUpdate) (u : logs) : outcome restore_err logs :=
  match updates with
  | [] => Ok u
  | logUpdate :: updates' =>
      let '(local, remote) := u in
      payDesc <~ logUpdateToPayDesc c logUpdate remote pendingHeight feeRate pendingRemoteKeys
                   (DustLimit (RemoteChanCfg c)) ;
      let payDesc :=
        if bool_decide (EntryType payDesc = FeeUpdate) && bool_decide (LogIndex payDesc = 0) &&
           bool_decide (logIndex local > 0)
        then set_logIndex payDesc (logIndex local) else payDesc in
      if bool_decide (LogIndex payDesc <> logIndex local) then Panic
      else
        u' <~ match EntryType payDesc with
              | Add =>
                  if bool_decide (HtlcIndex payDesc <> htlcCounter local) then Panic
                  else Ok (appendHtlc local payDesc, remote)
              | FeeUpdate => Ok (appendUpdate local payDesc, remote)
              | _ => Ok (appendUpdate local payDesc, markHtlcModified remote (ParentIndex payDesc))
              end ;
        restorePendingLocalUpdates c pendingHeight feeRate pendingRemoteKeys updates' u'
  end.

(** The remote height of a restored remote update: that of the pending commitment
    when it covers the update. *)
Definition coveredAt (pendingRemoteCommit : option commitment) (logIdx : Z) : option Z :=
  match pendingRemoteCommit with
  | Some p => if bool_decide (logIdx < Commitment.theirMessageIndex p)
              then Some (Commitment.height p) else None
  | None => None
  end.

Fixpoint restorePendingRemoteUpdates (unsignedAckedUpdates : list LogUpdate)
    (localCommitmentHeight : Z) (pendingRemoteCommit : option commitment) (u : logs) :
    outcome restore_err logs :=
  match unsignedAckedUpdates with
  | [] => Ok u
  | logUpdate :: updates' =>
      let '(local, remote) := u in
      payDesc <~ remoteLogUpdateToPayDesc logUpdate local localCommitmentHeight ;
      let logIdx := LogIndex payDesc in
      if bool_decide (logIdx >= logIndex remote) then Err (ErrUnsignedRemoteUpdate logIdx)
      else
        let h := coveredAt pendingRemoteCommit logIdx in
        let u' :=
          match EntryType payDesc with
          | Add => u
          | FeeUpdate =>
              let payDesc := alter_heights (fun old =>
                match h with
                | Some h => mkHeights h (addCommitHeightLocal old) h (removeCommitHeightLocal old)
                | None => old
                end) payDesc in
              (local, restoreUpdate remote payDesc)
          | _ =>
              let payDesc := alter_heights (fun old =>
                match h with
                | Some h => mkHeights (addCommitHeightRemote old) (addCommitHeightLocal old) h
                              (removeCommitHeightLocal old)
                | None => old
                end) payDesc in
              (markHtlcModified local (ParentIndex payDesc), restoreUpdate remote payDesc)
          end in
        restorePendingRemoteUpdates updates' localCommitmentHeight pendingRemoteCommit u'
  end.

Fixpoint restorePeerLocalUpdates (updates : list LogUpdate) (remoteCommitmentHeight : Z) (u : logs) :
    outcome restore_err logs :=
  match updates with
  | [] => Ok u
  | logUpdate :: updates' =>
      let '(local, remote) := u in
      payDesc <~ localLogUpdateToPayDesc logUpdate remote remoteCommitmentHeight ;
      let local := restoreUpdate local payDesc in
      let remote := if bool_decide (EntryType payDesc <> FeeUpdate)
                    then markHtlcModified remote (ParentIndex payDesc) else remote in
      restorePeerLocalUpdates updates' remoteCommitmentHeight (local, remote)
  end.

(** The HTLCs of a commitment go back to the log of the side that offered them. *)
Definition restoreHtlcs (h : Z -> commitHeights) (htlcs : list PaymentDescriptor) (u : updateLog) :
    updateLog :=
  fold_left (fun u htlc => restoreHtlc u (alter_heights (fun _ => h (HtlcIndex htlc)) htlc)) htlcs u.

Definition restoreStateLogs (c : ChanCfg) (localCommitment remoteCommitment : commitment)
    (pending : option (commitment * CommitDiff * keyRing))
    (unsignedAckedUpdates remoteUnsignedLocalUpdates : list LogUpdate) (u : logs) :
    outcome restore_err logs :=
  let localHeight := Commitment.height localCommitment in
  let remoteHeight := Commitment.height remoteCommitment in
  let pendingRemoteCommit := (fun x => x.1.1) <$> pending in
  let incomingRemoteAddHeights :=
    setHeights remoteHeight (omap removedHtlc remoteUnsignedLocalUpdates)
      (setHeights remoteHeight (HtlcIndex <$> Commitment.incomingHTLCs remoteCommitment)
        (match pendingRemoteCommit with
         | Some p => setHeights (Commitment.height p) (HtlcIndex <$> Commitment.incomingHTLCs p) ∅
         | None => ∅
         end)) in
  let outgoingLocalAddHeights :=
    setHeights localHeight (omap removedHtlc unsignedAckedUpdates)
      (setHeights localHeight (HtlcIndex <$> Commitment.outgoingHTLCs localCommitment) ∅) in
  let remote := restoreHtlcs (fun i => mkHeights (heightOf incomingRemoteAddHeights i) localHeight 0 0)
                  (Commitment.incomingHTLCs localCommitment) u.2 in
  let local := restoreHtlcs (fun i => mkHeights remoteHeight (heightOf outgoingLocalAddHeights i) 0 0)
                 (Commitment.outgoingHTLCs remoteCommitment) u.1 in
  u <~ match pending with
       | None => Ok (local, remote)
       | Some (_, diff, keys) =>
           restorePendingLocalUpdates c (CommitHeight (Diff_Commitment diff))
             (FeePerKw (Diff_Commitment diff)) keys (LogUpdates diff) (local, remote)
       end ;
  u <~ restorePendingRemoteUpdates unsignedAckedUpdates localHeight pendingRemoteCommit u ;
  restorePeerLocalUpdates remoteUnsignedLocalUpdates remoteHeight u.

(** ** Loading a channel *)

(** [OpenChannel] as it is read from the database. *)
Record OpenChannel := mkOpenChannel {
  oc_cfg : ChanCfg;
  oc_ShortChanID : ShortChannelID;
  oc_isRestored : bool;
  oc_totals : chanTotals;
  oc_revocation : revocationState;
  oc_LocalCommitment : ChannelCommitment;
  oc_RemoteCommitment : ChannelCommitment;
  oc_LastWasRevoke : bool;
  oc_bucket : chanBucket;
}.

(** [RemoteCommitChainTip], on a bucket that exists. *)
Definition RemoteCommitChainTip (b : chanBucket) : outcome chan_err CommitDiff :=
  match db_commitDiff b with
  | None => Err ErrNoPendingCommit
  | Some cd => Ok cd
  end.

(** No stored list reads as an empty one. *)
Definition UnsignedAckedUpdates (b : chanBucket) : list LogUpdate :=
  default [] (db_unsignedAckedUpdates b).

Definition RemoteUnsignedLocalUpdates (b : chanBucket) : list LogUpdate :=
  default [] (db_remoteUnsignedLocalUpdates b).

(** The pending commitment of the remote chain with its diff and its keys; the
    keys are derived from the peer's next point, which must be known. *)
Definition restorePending (state : OpenChannel) :
    outcome restore_err (option (commitment * CommitDiff * keyRing)) :=
  match RemoteCommitChainTip (oc_bucket state) with
  | Ok diff =>
      let pendingCommitPoint := RemoteNextRevocation (oc_revocation state) in
      commit <~ diskCommitToMemCommit (oc_cfg state) false (Diff_Commitment diff) None pendingCommitPoint ;
      match pendingCommitPoint with
      | None => Panic
      | Some p => Ok (Some (commit, diff, DeriveCommitmentKeys p false))
      end
  | _ => Ok None
  end.

(** The two chains and the two logs. *)
Definition restoreCommitState (state : OpenChannel) (currentHeight : Z) (u : logs) :
    outcome restore_err (list commitment * list commitment * logs) :=
  match AtIndex currentHeight with
  | None => Err ErrRestoreRevocation
  | Some ourRevPreImage =>
      let localCommitPoint := Some (ComputeCommitmentPoint ourRevPreImage) in
      let remoteCommitPoint := RemoteCurrentRevocation (oc_revocation state) in
      localCommit <~ diskCommitToMemCommit (oc_cfg state) true (oc_LocalCommitment state)
                       localCommitPoint remoteCommitPoint ;
      remoteCommit <~ diskCommitToMemCommit (oc_cfg state) false (oc_RemoteCommitment state)
                        localCommitPoint remoteCommitPoint ;
      pending <~ restorePending state ;
      let remoteChain := CommitmentChain.addCommitment CommitmentChain.newCommitmentChain remoteCommit in
      let remoteChain :=
        match pending with
        | Some (commit, _, _) => CommitmentChain.addCommitment remoteChain commit
        | None => remoteChain
        end in
      u <~ restoreStateLogs (oc_cfg state) localCommit remoteCommit pending
             (UnsignedAckedUpdates (oc_bucket state)) (RemoteUnsignedLocalUpdates (oc_bucket state)) u ;
      Ok (CommitmentChain.addCommitment CommitmentChain.newCommitmentChain localCommit, remoteChain, u)
  end.

(** The sign descriptor built last is not part of the model. *)
Definition NewLightningChannel (state : OpenChannel) : outcome restore_err LightningChannel :=
  let localCommit := oc_LocalCommitment state in
  let remoteCommit := oc_RemoteCommitment state in
  let local := newUpdateLog (LocalLogIndex remoteCommit) (LocalHtlcIndex remoteCommit) in
  let remote := newUpdateLog (RemoteLogIndex localCommit) (RemoteHtlcIndex localCommit) in
  let height := CommitHeight localCommit in
  '(localChain, remoteChain, (local, remote)) <~ restoreCommitState state height (local, remote) ;
  Ok {| cfg := oc_cfg state; ShortChanID := oc_ShortChanID state; isRestored := oc_isRestored state;
        currentHeight := height; localCommitChain := localChain; remoteCommitChain := remoteChain;
        localUpdateLog := local; remoteUpdateLog := remote; totals := oc_totals state;
        revocation := oc_revocation state; LocalCommitment := localCommit;
        RemoteCommitment := remoteCommit; bucket := oc_bucket state |}.

(** The channel of a bucket: [fetchChanInfo], [fetchChanCommitments] and
    [fetchChanRevocationState] fill the in-memory fields. *)
Definition fetchOpenChannel (lc : LightningChannel) : OpenChannel :=
  let b := bucket lc in
  {| oc_cfg := cfg lc; oc_ShortChanID := ShortChanID lc; oc_isRestored := isRestored lc;
     oc_totals := db_totals b; oc_revocation := db_revocation b;
     oc_LocalCommitment := db_localCommitment b; oc_RemoteCommitment := db_remoteCommitment b;
     oc_LastWasRevoke := db_lastWasRevoke b; oc_bucket := b |}.

Definition reload (lc : LightningChannel) : outcome restore_err LightningChannel :=
  NewLightningChannel (fetchOpenChannel lc).

End restore.

(** * lnwallet: re-establishing a channel

    Models [OpenChannel.ChanSyncMsg] (channeldb/channel.go), the message a peer
    sends first on a new connection, and [ProcessChanSyncMsg]
    (lnwallet/channel.go), which answers the other side's message with the
    messages that got lost: a revocation, the updates and the signature of an
    unacknowledged commitment, or an error when the two sides cannot be brought
    together.  The look-up of a received revocation secret is a parameter (class
    [SyncEnv]). *)

(** ** The environment *)

(** [shachain.Store.LookUp]: the secret of a height. *)
Class SyncEnv {BT : Btcec} {E : ChanEnv} := {
  LookUp : revStore -> Z -> option (list byte);
}.

(** What the code relies on: the store keeps the secrets in the order they are
    added and finds each at its height, a secret has 32 bytes, and a key equals
    itself. *)
Class SyncLaws {BT : Btcec} {E : ChanEnv} {S : SyncEnv} := {
  stored : revStore -> list (list byte);
  LookUp_stored s i : LookUp s (Z.of_nat i) = stored s !! i;
  AddNextEntry_stored s h s' : AddNextEntry s h = Some s' -> stored s' = stored s ++ [h];
  AtIndex_length i s : AtIndex i = Some s -> length s = 32%nat;
  IsEqual_refl p : IsEqual p p = true;
}.

Section sync.
Context {BT : Btcec} {E : ChanEnv} {S : SyncEnv}.

(** ** Messages and errors *)

(** The messages of a commitment update. *)
Inductive chanMsg : Type :=
  | MUpdate (m : updateMsg)
  | MCommitSig (m : CommitSig.t)
  | MRevoke (m : RevokeAndAck.t).

Inductive sync_err : Type :=
  | ErrSyncChan (e : chan_err)
  | ErrInvalidLastCommitSecret
  | ErrCannotSyncCommitChains
  | ErrCommitSyncRemoteDataLoss
  | ErrCommitSyncLocalDataLoss (ChannelPoint : OutPoint) (CommitPoint : option pubkey)
  | ErrInvalidLocalUnrevokedCommitPoint.

Definition syncResult : Type := list chanMsg * list CircuitKey * list CircuitKey.

Definition liftErr {A} (o : outcome chan_err A) : outcome sync_err A :=
  match o with Ok a => Ok a | Err e => Err (ErrSyncChan e) | Panic => Panic end.

Definition commitSigMsg (chanID sig : list byte) (htlcSigs : list (list byte)) : chanMsg :=
  MCommitSig {| CommitSig.ChanID := chanID; CommitSig.CommitSig_ := sig;
                CommitSig.HtlcSigs := htlcSigs; CommitSig.ExtraData := [] |}.

(** ** Our side of the handshake *)

(** [currentCommitSecret[0] ^= 1]. *)
Definition flipFirst (s : list byte) : list byte :=
  match s with
  | [] => []
  | b :: s' => byte_of_Z (Z.lxor (byte_Z b) 1) :: s'
  end.

Definition ChanSyncMsg (c : OpenChannel) : outcome chan_err ChannelReestablish.t :=
  let localHeight := CommitHeight (oc_LocalCommitment c) in
  let nextLocalCommitHeight := u64 (localHeight + 1) in
  let remoteChainTipHeight := CommitHeight (oc_RemoteCommitment c) in
  lastCommitSecret <~
    (if bool_decide (remoteChainTipHeight <> 0) then
       match LookUp (RevocationStore (oc_revocation c)) (u64 (remoteChainTipHeight - 1)) with
       | None => Err ErrRevocation
       | Some remoteSecret => Ok remoteSecret
       end
     else Ok zero32) ;
  match AtIndex localHeight with
  | None => Err ErrRevocation
  | Some currentCommitSecret =>
      let restored := oc_isRestored c in
      Ok {| ChannelReestablish.ChanID := NewChanIDFromOutPoint (FundingOutpoint (oc_cfg c));
            ChannelReestablish.NextLocalCommitHeight :=
              if restored && ChannelType.IsTweakless (ChanType (oc_cfg c)) then 0
              else nextLocalCommitHeight;
            ChannelReestablish.RemoteCommitTailHeight := remoteChainTipHeight;
            ChannelReestablish.LastRemoteCommitSecret := lastCommitSecret;
            ChannelReestablish.LocalUnrevokedCommitPoint :=
              Some (ComputeCommitmentPoint
                      (if restored then flipFirst currentCommitSecret else currentCommitSecret));
            ChannelReestablish.ExtraData := [] |}
  end.

(** ** The answer to the peer's message *)

(** The secret the peer proves its knowledge with. *)
Definition checkLastSecret (msg : ChannelReestablish.t) : outcome sync_err unit :=
  let tailHeight := ChannelReestablish.RemoteCommitTailHeight msg in
  match ChannelReestablish.LocalUnrevokedCommitPoint msg with
  | Some _ =>
      if bool_decide (tailHeight <> 0) then
        match AtIndex (u64 (tailHeight - 1)) with
        | None => Err (ErrSyncChan ErrRevocation)
        | Some heightSecret =>
            if bool_decide (heightSecret = ChannelReestablish.LastRemoteCommitSecret msg) then Ok tt
            else Err ErrInvalidLastCommitSecret
        end
      else Ok tt
  | None => Ok tt
  end.

(** The first switch, on the peer's view of our chain: what is owed of it. *)
Definition syncLocalChain (dbOk : bool) (msg : ChannelReestablish.t) (localTailHeight : Z)
    (lc : LightningChannel) : outcome sync_err (list chanMsg) * LightningChannel :=
  let tailHeight := ChannelReestablish.RemoteCommitTailHeight msg in
  if bool_decide (tailHeight > localTailHeight) || isRestored lc then
    match ChannelReestablish.LocalUnrevokedCommitPoint msg with
    | None => (Err ErrCannotSyncCommitChains, lc)
    | Some _ =>
        (Err (ErrCommitSyncLocalDataLoss (FundingOutpoint (cfg lc))
                (ChannelReestablish.LocalUnrevokedCommitPoint msg)), lc)
    end
  else if bool_decide (u64 (tailHeight + 1) < localTailHeight) then (Err ErrCommitSyncRemoteDataLoss, lc)
  else if bool_decide (tailHeight = localTailHeight) then (Ok [], lc)
  else if bool_decide (u64 (tailHeight + 1) = localTailHeight) then
    match generateRevocation lc (u64 (localTailHeight - 1)) with
    | Ok revocationMsg =>
        match oweCommitment lc true with
        | Ok true =>
            match SignNextCommitment dbOk lc with
            | (Ok (commitSig, htlcSigs, _), lc') =>
                (Ok [MRevoke revocationMsg; commitSigMsg (chanIDOf lc) commitSig htlcSigs], lc')
            | (Err ErrNoWindow, lc') => (Ok [MRevoke revocationMsg], lc')
            | (Err e, lc') => (Err (ErrSyncChan e), lc')
            | (Panic, lc') => (Panic, lc')
            end
        | Ok false => (Ok [MRevoke revocationMsg], lc)
        | Err e => (Err (ErrSyncChan e), lc)
        | Panic => (Panic, lc)
        end
    | Err e => (Err (ErrSyncChan e), lc)
    | Panic => (Panic, lc)
    end
  else (Err ErrCannotSyncCommitChains, lc).

(** The second switch, on the peer's view of its own chain: the pending
    commitment with its updates, before or after what is owed of our chain. *)
Definition syncRemoteChain (LastWasRevoke : bool) (msg : ChannelReestablish.t)
    (remoteTailHeight remoteTipHeight : Z) (updates : list chanMsg) (lc : LightningChannel) :
    outcome sync_err syncResult :=
  let next := ChannelReestablish.NextLocalCommitHeight msg in
  if bool_decide (next > u64 (remoteTipHeight + 1)) then Err ErrCannotSyncCommitChains
  else if bool_decide (next <= remoteTailHeight) then Err ErrCommitSyncRemoteDataLoss
  else if bool_decide (next = u64 (remoteTipHeight + 1)) then Ok (updates, [], [])
  else if bool_decide (next = remoteTipHeight) then
    commitDiff <~ liftErr (RemoteCommitChainTip (bucket lc)) ;
    let commitUpdates :=
      ((fun u => MUpdate (UpdateMsg u)) <$> LogUpdates commitDiff) ++
      [commitSigMsg (chanIDOf lc) (Diff_CommitSig commitDiff) (Diff_HtlcSigs commitDiff)] in
    Ok (if LastWasRevoke then commitUpdates ++ updates else updates ++ commitUpdates,
        OpenedCircuitKeys commitDiff, ClosedCircuitKeys commitDiff)
  else Err ErrCannotSyncCommitChains.

(** The last check, of the peer's current commitment point. *)
Definition checkCommitPoint (msg : ChannelReestablish.t) (remoteTailHeight : Z) (lc : LightningChannel) :
    outcome sync_err unit :=
  match ChannelReestablish.LocalUnrevokedCommitPoint msg with
  | None => Ok tt
  | Some point =>
      let next := ChannelReestablish.NextLocalCommitHeight msg in
      let commitPoint :=
        if bool_decide (next = u64 (remoteTailHeight + 1)) then RemoteCurrentRevocation (revocation lc)
        else if bool_decide (next = u64 (remoteTailHeight + 2)) then RemoteNextRevocation (revocation lc)
        else None in
      match commitPoint with
      | Some p =>
          if negb (ChannelType.IsTweakless (ChanType (cfg lc))) && negb (IsEqual p point)
          then Err ErrInvalidLocalUnrevokedCommitPoint else Ok tt
      | None => Ok tt
      end
  end.

(** [LastWasRevoke] is the field of the [OpenChannel] the channel was loaded
    from: it is read from the database at that point only.  The heights are taken
    before a signature is added to the remote chain. *)
Definition ProcessChanSyncMsg (LastWasRevoke dbOk : bool) (msg : ChannelReestablish.t)
    (lc : LightningChannel) : outcome sync_err syncResult * LightningChannel :=
  match checkLastSecret msg with
  | Err e => (Err e, lc)
  | Panic => (Panic, lc)
  | Ok _ =>
      match tailOf false lc, tailOf true lc, tipOf true lc with
      | Ok localTail, Ok remoteTail, Ok remoteTip =>
          let remoteTailHeight := Commitment.height remoteTail in
          match syncLocalChain dbOk msg (Commitment.height localTail) lc with
          | (Ok updates, lc') =>
              (result <~ syncRemoteChain LastWasRevoke msg remoteTailHeight
                           (Commitment.height remoteTip) updates lc' ;
               _ <~ checkCommitPoint msg remoteTailHeight lc' ;
               Ok result, lc')
          | (Err e, lc') => (Err e, lc')
          | (Panic, lc') => (Panic, lc')
          end
      | _, _, _ => (Panic, lc)
      end
  end.

End sync.
