(* ===== verification/SyncProtocol.v ===== *)
(** * The commitment protocol between two peers, abstractly

    A peer is reduced to what the retransmission of messages depends on: the two
    commitment heights, the signature sent and not yet answered by a revocation,
    which kind of message was sent last, the peer's revocation secrets and its
    two commitment points.  Two peers are connected by one queue of commitment
    messages in each direction.  A peer also holds signatures it has received and
    not yet answered with a revocation; they are not stored, so a restart loses
    them together with what is in the queue.

    The invariant says that what a restart would lose is, at any time and in the
    right order, [owed]: the pending signature when the peer's commitment is
    behind it, and the last revocation when the peer has not processed it. *)

From Stdlib Require Import ZArith Lia.
From S2P Require Import Prelude Wire WireMessages Amounts OpReturn UpdateLog CommitTx.
From S2P Require Import ChannelState ChannelView ChannelOps ChannelSync.

Local Open Scope Z_scope.
Local Open Scope go_scope.

Section protocol.
Context {BT : Btcec}.

(** ** Peers *)

(** The secrets, points and revocation messages of a peer, by height. *)
Record ident := mkIdent {
  id_sec : Z -> option (list byte);
  id_pt : Z -> option pubkey;
  id_rev : Z -> option RevokeAndAck.t;
}.

(** A revocation message reveals the secret of its height and names the point two
    heights on. *)
Definition ident_ok (i : ident) : Prop := forall h m, id_rev i h = Some m ->
  id_sec i h = Some (RevokeAndAck.Revocation m) /\
  exists k, RevokeAndAck.NextRevocationKey m = Some k /\ id_pt i (h + 2) = Some k.

Record peer := mkPeer {
  p_local : Z;
  p_received : nat;
  p_remote : Z;
  p_pending : option chanMsg;
  p_last : bool;
  p_secrets : list (list byte);
  p_cur : option pubkey;
  p_next : option pubkey;
}.

Inductive label : Type :=
  | LQuiet
  | LSign (m : chanMsg)
  | LRevoke (m : RevokeAndAck.t)
  | LGetSig (m : chanMsg)
  | LGetRev (m : RevokeAndAck.t)
  | LInit (k : pubkey)
  | LReload.

Definition is_sig (m : chanMsg) : Prop := match m with MCommitSig _ => True | _ => False end.
Definition is_rev (m : chanMsg) : Prop := match m with MRevoke _ => True | _ => False end.

#[global] Instance is_sig_dec m : Decision (is_sig m).
Proof. destruct m; apply _. Defined.

Inductive peer_step (i : ident) (p : peer) : label -> peer -> Prop :=
  | ps_quiet : peer_step i p LQuiet p
  | ps_sign m :
      p_pending p = None -> p_next p <> None -> is_sig m ->
      peer_step i p (LSign m)
        (mkPeer (p_local p) (p_received p) (p_remote p) (Some m) false (p_secrets p) (p_cur p) (p_next p))
  | ps_revoke m n :
      p_received p = S n -> id_rev i (p_local p) = Some m ->
      peer_step i p (LRevoke m)
        (mkPeer (p_local p + 1) n (p_remote p) (p_pending p) true (p_secrets p) (p_cur p) (p_next p))
  | ps_getsig m :
      is_sig m ->
      peer_step i p (LGetSig m)
        (mkPeer (p_local p) (S (p_received p)) (p_remote p) (p_pending p) (p_last p) (p_secrets p)
           (p_cur p) (p_next p))
  | ps_getrev m :
      p_pending p <> None ->
      peer_step i p (LGetRev m)
        (mkPeer (p_local p) (p_received p) (p_remote p + 1) None (p_last p)
           (p_secrets p ++ [RevokeAndAck.Revocation m]) (p_next p) (RevokeAndAck.NextRevocationKey m))
  | ps_init k :
      p_next p = None ->
      peer_step i p (LInit k)
        (mkPeer (p_local p) (p_received p) (p_remote p) (p_pending p) (p_last p) (p_secrets p)
           (p_cur p) (Some k))
  | ps_reload :
      peer_step i p LReload
        (mkPeer (p_local p) 0 (p_remote p) (p_pending p) (p_last p) (p_secrets p) (p_cur p) (p_next p)).

(** ** Two connected peers *)

(** One end: the peer, the signatures it received and has not answered, and the
    messages it sent that have not arrived. *)
Record side := mkSide { s_peer : peer; s_got : list chanMsg; s_out : list chanMsg }.

(** [act ix iy x y x' y']: the end [x] makes a step towards [y]. *)
Inductive act (ix iy : ident) (x y : side) : side -> side -> Prop :=
  | act_quiet p :
      peer_step ix (s_peer x) LQuiet p -> act ix iy x y (mkSide p (s_got x) (s_out x)) y
  | act_sign m p :
      peer_step ix (s_peer x) (LSign m) p ->
      act ix iy x y (mkSide p (s_got x) (s_out x ++ [m])) y
  | act_revoke m p :
      peer_step ix (s_peer x) (LRevoke m) p ->
      act ix iy x y (mkSide p (tail (s_got x)) (s_out x ++ [MRevoke m])) y
  | act_getsig m p l :
      s_out y = m :: l -> peer_step ix (s_peer x) (LGetSig m) p ->
      act ix iy x y (mkSide p (s_got x ++ [m]) (s_out x)) (mkSide (s_peer y) (s_got y) l)
  | act_getrev m p l :
      s_out y = MRevoke m :: l -> peer_step ix (s_peer x) (LGetRev m) p ->
      act ix iy x y (mkSide p (s_got x) (s_out x)) (mkSide (s_peer y) (s_got y) l)
  | act_init k p :
      id_pt iy (p_local (s_peer y) + 1) = Some k -> peer_step ix (s_peer x) (LInit k) p ->
      act ix iy x y (mkSide p (s_got x) (s_out x)) y.

(** ** What is owed *)

Definition owedSig (x y : peer) : list chanMsg :=
  match p_pending x with
  | Some m => if bool_decide (p_local y = p_remote x) then [m] else []
  | None => []
  end.

Definition owedRev (ix : ident) (x y : peer) : list chanMsg :=
  if bool_decide (p_local x = p_remote y + 1) then
    match id_rev ix (p_local x - 1) with Some m => [MRevoke m] | None => [] end
  else [].

Definition owed (ix : ident) (x y : peer) : list chanMsg :=
  if p_last x then owedSig x y ++ owedRev ix x y else owedRev ix x y ++ owedSig x y.

(** ** The invariant of one direction *)

Record Dir (ix : ident) (x y : side) : Prop := {
  d_height : p_local (s_peer y) = p_remote (s_peer x) \/
    (p_local (s_peer y) = p_remote (s_peer x) + 1 /\ p_pending (s_peer x) <> None);
  d_lost : s_got y ++ s_out x = owed ix (s_peer x) (s_peer y);
  d_got : length (s_got y) = p_received (s_peer y);
  d_gotsig : Forall is_sig (s_got y);
  d_sig : forall m, p_pending (s_peer x) = Some m -> is_sig m;
  d_window : p_next (s_peer x) = None -> p_pending (s_peer x) = None;
  d_rev : p_local (s_peer x) = p_remote (s_peer y) + 1 -> id_rev ix (p_remote (s_peer y)) <> None;
  d_secrets : p_remote (s_peer y) = Z.of_nat (length (p_secrets (s_peer y)));
  d_secret : forall i s, p_secrets (s_peer y) !! i = Some s -> id_sec ix (Z.of_nat i) = Some s;
  d_cur : forall k, p_cur (s_peer y) = Some k -> id_pt ix (p_remote (s_peer y)) = Some k;
  d_next : forall k, p_next (s_peer y) = Some k -> id_pt ix (p_remote (s_peer y) + 1) = Some k;
}.

Definition Both (ix iy : ident) (x y : side) : Prop := Dir ix x y /\ Dir iy y x.

(** ** Splitting what is owed *)

Lemma owedSig_sig x y : (forall m, p_pending x = Some m -> is_sig m) -> Forall is_sig (owedSig x y).
Proof.
  intros H. unfold owedSig. destruct (p_pending x) as [m|]; [|by constructor].
  case_bool_decide; [|by constructor]. repeat constructor. by apply H.
Qed.

Lemma owedRev_rev ix x y : Forall (fun m => ~ is_sig m) (owedRev ix x y).
Proof.
  unfold owedRev. case_bool_decide; [|by constructor]. destruct (id_rev _ _); repeat constructor. tauto.
Qed.

Lemma filter_Forall {A} (P : A -> Prop) `{forall x, Decision (P x)} l : Forall P l -> filter P l = l.
Proof. intros HP. apply filter_all. by apply Forall_forall. Qed.

Lemma filter_none {A} (P : A -> Prop) `{forall x, Decision (P x)} l :
  Forall (fun x => ~ P x) l -> filter P l = [].
Proof. induction 1 as [|a l Ha _ IH]; [done|]. by rewrite filter_cons_False. Qed.

Lemma filter_owed_sig ix x y :
  (forall m, p_pending x = Some m -> is_sig m) -> filter is_sig (owed ix x y) = owedSig x y.
Proof.
  intros H. unfold owed. pose proof (owedSig_sig x y H). pose proof (owedRev_rev ix x y).
  destruct (p_last x); rewrite filter_app, (filter_Forall _ (owedSig _ _)), (filter_none _ (owedRev _ _ _)) by done;
    [apply app_nil_r|done].
Qed.

Lemma filter_owed_rev ix x y :
  (forall m, p_pending x = Some m -> is_sig m) ->
  filter (fun m => ~ is_sig m) (owed ix x y) = owedRev ix x y.
Proof.
  intros H. unfold owed. pose proof (owedSig_sig x y H) as Hs. pose proof (owedRev_rev ix x y).
  assert (filter (fun m => ~ is_sig m) (owedSig x y) = []) as Hn.
  { apply filter_none. eapply Forall_impl; [exact Hs|]. cbn. tauto. }
  destruct (p_last x); rewrite filter_app, Hn, filter_Forall by done; [done|apply app_nil_r].
Qed.

(** Something owed at the head of the queue, or received: what it is. *)
Lemma owedSig_elem x y m :
  m ∈ owedSig x y -> p_pending x = Some m /\ p_local y = p_remote x /\ owedSig x y = [m].
Proof.
  unfold owedSig. destruct (p_pending x); [|by intros ?%elem_of_nil]. case_bool_decide; [|by intros ?%elem_of_nil].
  by intros ->%list_elem_of_singleton.
Qed.

Lemma owedRev_elem ix x y m :
  m ∈ owedRev ix x y ->
  exists r, m = MRevoke r /\ p_local x = p_remote y + 1 /\ id_rev ix (p_remote y) = Some r /\
    owedRev ix x y = [m].
Proof.
  unfold owedRev. case_bool_decide as Hl; [|by intros ?%elem_of_nil].
  replace (p_local x - 1) with (p_remote y) by lia.
  destruct (id_rev _ _) as [r|]; [|by intros ?%elem_of_nil]. intros ->%list_elem_of_singleton.
  by exists r.
Qed.

Lemma elem_owed_sig ix x y m :
  (forall m, p_pending x = Some m -> is_sig m) -> is_sig m -> m ∈ owed ix x y -> m ∈ owedSig x y.
Proof. intros H Hs Hm. rewrite <- (filter_owed_sig ix x y H). by apply list_elem_of_filter. Qed.

Lemma elem_owed_rev ix x y m :
  (forall m, p_pending x = Some m -> is_sig m) -> ~ is_sig m -> m ∈ owed ix x y -> m ∈ owedRev ix x y.
Proof. intros H Hs Hm. rewrite <- (filter_owed_rev ix x y H). by apply list_elem_of_filter. Qed.

(** Taking a received signature, or a revocation, out of what is owed leaves the
    other kind. *)
Lemma owed_drop_sig ix x y s r :
  (forall m, p_pending x = Some m -> is_sig m) -> is_sig s ->
  s :: r = owed ix x y -> r = owedRev ix x y.
Proof.
  intros Hp Hs Heq.
  assert (s ∈ owedSig x y) as Hel.
  { apply (elem_owed_sig ix); [done..|]. rewrite <- Heq. apply list_elem_of_here. }
  apply owedSig_elem in Hel as (_ & _ & Hel).
  pose proof (filter_owed_sig ix x y Hp) as H1. rewrite Hel, <- Heq, filter_cons_True in H1 by done.
  injection H1 as H1.
  pose proof (filter_owed_rev ix x y Hp) as H2.
  rewrite <- Heq, filter_cons_False in H2 by tauto. rewrite <- H2. symmetry. apply filter_Forall.
  apply Forall_forall. intros m Hm Hsig.
  assert (m ∈ filter is_sig r) as Hf by by apply list_elem_of_filter. rewrite H1 in Hf. by apply elem_of_nil in Hf.
Qed.

Lemma owed_drop_rev ix x y l m r :
  (forall m, p_pending x = Some m -> is_sig m) ->
  l ++ MRevoke m :: r = owed ix x y -> l ++ r = owedSig x y.
Proof.
  intros Hp Heq.
  assert (MRevoke m ∈ owedRev ix x y) as Hel.
  { apply (elem_owed_rev ix); [done|tauto|]. rewrite <- Heq. apply elem_of_app. right. apply list_elem_of_here. }
  apply owedRev_elem in Hel as (m' & _ & _ & _ & Hel).
  pose proof (filter_owed_rev ix x y Hp) as H1.
  rewrite Hel, <- Heq, filter_app, filter_cons_True in H1 by tauto.
  pose proof (filter_owed_sig ix x y Hp) as H2.
  rewrite <- Heq, filter_app, filter_cons_False, <- filter_app in H2 by tauto.
  rewrite <- H2. symmetry. apply filter_Forall. apply Forall_forall. intros z Hz.
  destruct (decide (is_sig z)) as [|Hn]; [done|exfalso].
  assert (z ∈ filter (fun m => ~ is_sig m) (l ++ r)) as Hf by by apply list_elem_of_filter.
  rewrite filter_app in Hf. apply (f_equal length) in H1. rewrite length_app in H1. cbn in H1.
  destruct (filter _ l), (filter _ r); cbn in H1; [by apply elem_of_nil in Hf|lia..].
Qed.

(** ** The invariant is kept *)

Lemma got_cons iy x y n :
  Dir iy y x -> p_received (s_peer x) = S n -> exists s l, s_got x = s :: l.
Proof.
  intros D Hn. pose proof (d_got _ _ _ D) as H. destruct (s_got x) as [|s l]; [cbn in H; lia|]. by exists s, l.
Qed.

(** A signature not yet answered: our commitment is where the peer's view of it
    is, and the peer has one pending. *)
Lemma act_revoke_height iy x y s l :
  Dir iy y x -> s_got x = s :: l ->
  p_local (s_peer x) = p_remote (s_peer y) /\ p_pending (s_peer y) <> None.
Proof.
  intros D Hgot.
  assert (s ∈ owedSig (s_peer y) (s_peer x)) as (Hp & Hl & _)%owedSig_elem.
  { apply (elem_owed_sig iy); [apply (d_sig _ _ _ D)| |].
    - pose proof (d_gotsig _ _ _ D) as H. rewrite Hgot in H. by inversion H.
    - rewrite <- (d_lost _ _ _ D), Hgot. apply list_elem_of_here. }
  split; [done|]. by rewrite Hp.
Qed.

(** A revocation in the queue: it is the one of the commitment we hold the peer
    to. *)
Lemma act_getrev_height iy x y l m r :
  Dir iy y x -> l ++ MRevoke m :: r = owed iy (s_peer y) (s_peer x) ->
  p_local (s_peer y) = p_remote (s_peer x) + 1 /\ id_rev iy (p_remote (s_peer x)) = Some m.
Proof.
  intros D Heq.
  assert (MRevoke m ∈ owedRev iy (s_peer y) (s_peer x)) as (m' & [= <-] & Hl & Hr & _)%owedRev_elem.
  { apply (elem_owed_rev iy); [apply (d_sig _ _ _ D)|cbn; tauto|]. rewrite <- Heq. apply elem_of_app.
    right. apply list_elem_of_here. }
  done.
Qed.

(** The acting end as the sender. *)
Lemma act_sender ix iy x y x' y' :
  act ix iy x y x' y' -> Both ix iy x y -> Dir ix x' y'.
Proof.
  intros Ha [D D']. destruct D as [Hh Hl Hg Hgs Hs Hw Hrv Hsec Hse Hc Hn].
  destruct Ha as [p Hp|m p Hp|m p Hp|m p l Hout Hp|m p l Hout Hp|k p Hk Hp]; inversion Hp; subst; clear Hp.
  - by split.
  - split; cbn [s_peer s_got s_out p_local p_remote p_pending p_next]; try done.
    + left. destruct Hh as [|[_ []]]; done.
    + rewrite app_assoc, Hl. destruct Hh as [Hh|[_ []]]; [|done].
      unfold owed, owedSig, owedRev. cbn [p_last p_pending p_local p_remote].
      match goal with H : p_pending _ = None |- _ => rewrite H end.
      rewrite (bool_decide_eq_true_2 (p_local (s_peer y) = _)) by done.
      destruct (p_last (s_peer x)); [by rewrite app_nil_l|by rewrite app_nil_r].
    + by intros ? [= <-].
  - destruct (got_cons iy x y n D') as (s & l & Hgot); [done|].
    destruct (act_revoke_height iy x y s l D' Hgot) as [Hxy _].
    split; cbn [s_peer s_got s_out p_local p_remote p_pending p_next]; try done.
    + rewrite app_assoc, Hl. unfold owed, owedSig, owedRev. cbn [p_last p_pending p_local p_remote].
      rewrite (bool_decide_eq_false_2 (p_local (s_peer x) = _)), (bool_decide_eq_true_2 (_ + 1 = _ + 1)) by lia.
      replace (p_local (s_peer x) + 1 - 1) with (p_local (s_peer x)) by lia.
      match goal with H : id_rev ix _ = Some _ |- _ => rewrite H end.
      destruct (p_last (s_peer x)); [by rewrite app_nil_r|done].
    + intros _. rewrite <- Hxy. by match goal with H : id_rev ix _ = Some _ |- _ => rewrite H end.
  - by split.
  - destruct (act_getrev_height iy x y (s_got x) m l D') as [Hyx _]; [by rewrite <- Hout; apply (d_lost _ _ _ D')|].
    split; cbn [s_peer s_got s_out p_local p_remote p_pending p_next]; try done; [lia|].
    rewrite Hl. unfold owed, owedSig, owedRev. cbn [p_last p_pending p_local p_remote].
    rewrite (bool_decide_eq_false_2 (p_local (s_peer y) = p_remote (s_peer x))) by lia.
    by destruct (p_last (s_peer x)), (p_pending (s_peer x)).
  - by split.
Qed.

(** The acting end as the receiver. *)
Lemma act_receiver ix iy x y x' y' :
  ident_ok iy -> act ix iy x y x' y' -> Both ix iy x y -> Dir iy y' x'.
Proof.
  intros Hid Ha [D' D]. pose proof (d_lost _ _ _ D) as Hl. pose proof (d_sig _ _ _ D) as Hs.
  destruct Ha as [p Hp|m p Hp|m p Hp|m p l Hout Hp|m p l Hout Hp|k p Hk Hp];
    inversion Hp; subst; clear Hp.
  - by destruct D; split.
  - by destruct D; split.
  - destruct (got_cons iy x y n D) as (s & l & Hgot); [done|].
    destruct (act_revoke_height iy x y s l D Hgot) as [Hxy Hpend].
    destruct D as [_ _ Hg Hgs _ Hw Hrv Hsec Hse Hc Hn]. rewrite Hgot in *. inversion Hgs.
    split; cbn [s_peer s_got s_out p_local p_remote p_received p_secrets p_cur p_next tail]; try done.
    + right. split; [lia|done].
    + rewrite (owed_drop_sig iy (s_peer y) (s_peer x) s (l ++ s_out y)) by done.
      unfold owed, owedSig, owedRev. cbn [p_last p_pending p_local p_remote].
      rewrite (bool_decide_eq_false_2 (p_local (s_peer x) + 1 = _)) by lia.
      destruct (p_last (s_peer y)), (p_pending (s_peer y)); cbn [app]; by rewrite ?app_nil_r.
    + cbn [length] in Hg. lia.
  - destruct D as [Hh _ Hg Hgs _ Hw Hrv Hsec Hse Hc Hn].
    split; cbn [s_peer s_got s_out p_local p_remote p_received p_secrets p_cur p_next]; try done.
    + rewrite <- app_assoc. cbn [app]. rewrite <- Hout. exact Hl.
    + rewrite length_app. cbn. lia.
    + apply Forall_app. by repeat constructor.
  - rewrite Hout in Hl. destruct (act_getrev_height iy x y _ m l D Hl) as [Hyx Hrev].
    destruct (Hid _ _ Hrev) as (Hsm & k & Hk & Hpt).
    destruct D as [Hh _ Hg Hgs _ Hw Hrv Hsec Hse Hc Hn].
    split; cbn [s_peer s_got s_out p_local p_remote p_received p_secrets p_cur p_next p_pending]; try done.
    + rewrite (owed_drop_rev iy (s_peer y) (s_peer x) (s_got x) m l) by done.
      unfold owed, owedRev. cbn [p_last p_pending p_local p_remote].
      rewrite (bool_decide_eq_false_2 (p_local (s_peer y) = p_remote (s_peer x) + 1 + 1)) by lia.
      destruct (p_last (s_peer y)); by rewrite ?app_nil_r.
    + lia.
    + rewrite length_app. cbn. lia.
    + intros i z Hi. apply lookup_app_Some in Hi as [Hi|[Hi1 Hi2]]; [by apply Hse|].
      apply list_lookup_singleton_Some in Hi2 as [Hi2 <-].
      replace (Z.of_nat i) with (p_remote (s_peer x)) by lia. done.
    + intros z Hz. rewrite Hk in Hz. injection Hz as <-.
      by replace (p_remote (s_peer x) + 1 + 1) with (p_remote (s_peer x) + 2) by lia.
  - destruct D as [Hh _ Hg Hgs _ Hw Hrv Hsec Hse Hc Hn].
    split; cbn [s_peer s_got s_out p_local p_remote p_received p_secrets p_cur p_next]; try done.
    intros z [= <-]. destruct (d_height _ _ _ D') as [Hd|[_ Hd]]; [by rewrite <- Hd|].
    destruct Hd. by apply (d_window _ _ _ D').
Qed.

Lemma act_both ix iy x y x' y' :
  ident_ok iy -> act ix iy x y x' y' -> Both ix iy x y -> Both ix iy x' y'.
Proof. intros. split; [by eapply act_sender|by eapply act_receiver]. Qed.

(** ** Reconnecting *)

(** Both ends are loaded again and every message that was lost is sent again. *)
Definition reconnect (x y : side) (p : peer) : side := mkSide p [] (s_got y ++ s_out x).

Lemma reconnect_dir ix iy x y px py :
  peer_step ix (s_peer x) LReload px -> peer_step iy (s_peer y) LReload py ->
  Dir ix x y -> Dir ix (reconnect x y px) (reconnect y x py).
Proof.
  intros Hx Hy [Hh Hl Hg Hgs Hs Hw Hrv Hsec Hse Hc Hn]. inversion Hx; inversion Hy; subst.
  by split.
Qed.

Lemma reconnect_both ix iy x y px py :
  peer_step ix (s_peer x) LReload px -> peer_step iy (s_peer y) LReload py ->
  Both ix iy x y -> Both ix iy (reconnect x y px) (reconnect y x py).
Proof. intros Hx Hy [D D']. split; by eapply reconnect_dir. Qed.

(** What a peer knows about the other's heights after it was loaded. *)
Lemma both_heights ix iy x y :
  Both ix iy x y ->
  (p_local (s_peer x) = p_remote (s_peer y) \/ p_local (s_peer x) = p_remote (s_peer y) + 1) /\
  (p_local (s_peer y) = p_remote (s_peer x) \/ p_local (s_peer y) = p_remote (s_peer x) + 1) /\
  0 <= p_remote (s_peer x) /\ 0 <= p_remote (s_peer y).
Proof.
  intros [D D']. pose proof (d_height _ _ _ D). pose proof (d_height _ _ _ D').
  pose proof (d_secrets _ _ _ D). pose proof (d_secrets _ _ _ D'). intuition lia.
Qed.

End protocol.
