(* ===== verification/SyncRefine.v ===== *)
(** * lnwallet: a channel implements the abstract peer

    Relates a [LightningChannel] to the abstract peer of SyncProtocol.v and shows
    that every operation of the channel, and loading it again from its bucket, is
    a step of that peer.  Nothing is assumed about the logs, so the simulation
    also covers channels that were loaded from the database. *)

From Stdlib Require Import ZArith Lia.
From S2P Require Import Prelude Wire WireMessages Amounts OpReturn UpdateLog CommitTx.
From S2P Require Import ChannelState ChannelView ViewLemmas ChannelOps ChannelInv ChannelReach ChannelSync.
From S2P Require Import SyncProtocol.

Local Open Scope Z_scope.
Local Open Scope go_scope.

Create HintDb frames.

Section refine.
Context {BT : Btcec} {E : ChanEnv} {S : SyncEnv} {L : SyncLaws}.

(** ** The steps of a channel *)

(** An operation that changes only the logs and the counters, whatever comes out
    of it. *)
Definition frames {A} (m : M A) : Prop := forall lc, framed lc (m lc).2.

(** No height wraps around. *)
Definition height_room (lc : LightningChannel) : Prop :=
  forall rc c, c ∈ chainOf rc lc -> Commitment.height c + 1 < 2 ^ 64.

(** One operation of a channel, with what it sends or takes in. *)
Inductive chan_step (lc : LightningChannel) : label -> LightningChannel -> Prop :=
  | cs_update o r lc' :
      is_update o = true -> run o lc = (r, lc') -> chan_step lc LQuiet lc'
  | cs_sign dbOk sig htlcSigs htlcs lc' :
      SignNextCommitment dbOk lc = (Ok (sig, htlcSigs, htlcs), lc') ->
      chan_step lc (LSign (commitSigMsg (chanIDOf lc) sig htlcSigs)) lc'
  | cs_revoke dbOk m htlcs lc' :
      RevokeCurrentCommitment dbOk lc = (Ok (m, htlcs), lc') -> chan_step lc (LRevoke m) lc'
  | cs_getsig m lc' :
      ReceiveNewCommitment (CommitSig.CommitSig_ m) (CommitSig.HtlcSigs m) lc = (Ok tt, lc') ->
      chan_step lc (LGetSig (MCommitSig m)) lc'
  | cs_getrev dbOk m res lc' :
      ReceiveRevocation dbOk m lc = (Ok res, lc') -> chan_step lc (LGetRev m) lc'
  | cs_init dbOk k lc' :
      RemoteNextRevocation (revocation lc) = None ->
      InitNextRevocation dbOk k lc = (Ok tt, lc') -> chan_step lc (LInit k) lc'
  | cs_reload lc' : reload lc = Ok lc' -> chan_step lc LReload lc'.

(** ** The abstract peer of a channel *)

Definition ident_of (c : ChanCfg) : ident := {|
  id_sec := AtIndex;
  id_pt := fun h => ComputeCommitmentPoint <$> AtIndex (u64 h);
  id_rev := fun h =>
    match AtIndex h, AtIndex (u64 (h + 2)) with
    | Some commitSecret, Some nextCommitSecret =>
        Some {| RevokeAndAck.ChanID := NewChanIDFromOutPoint (FundingOutpoint c);
                RevokeAndAck.Revocation := copyInto 32 commitSecret;
                RevokeAndAck.NextRevocationKey := Some (ComputeCommitmentPoint nextCommitSecret);
                RevokeAndAck.ExtraData := [] |}
    | _, _ => None
    end;
|}.

(** The remote chain: one commitment, or two and a stored diff. *)
Definition remote_models (lc : LightningChannel) (h : Z) (pending : option chanMsg) : Prop :=
  match pending with
  | None => (exists c, remoteCommitChain lc = [c] /\ Commitment.height c = h) /\
            db_commitDiff (bucket lc) = None
  | Some m => exists c c' diff, remoteCommitChain lc = [c; c'] /\ Commitment.height c = h /\
      Commitment.height c' = h + 1 /\ db_commitDiff (bucket lc) = Some diff /\
      CommitHeight (Diff_Commitment diff) = h + 1 /\
      m = commitSigMsg (chanIDOf lc) (Diff_CommitSig diff) (Diff_HtlcSigs diff)
  end.

Record models (lc : LightningChannel) (p : peer) : Prop := {
  mo_local : exists c l, localCommitChain lc = c :: l /\ length l = p_received p /\
    chainHeights (p_local p) (c :: l);
  mo_height : currentHeight lc = p_local p;
  mo_remote : remote_models lc (p_remote p) (p_pending p);
  mo_db : CommitHeight (db_localCommitment (bucket lc)) = p_local p /\
    CommitHeight (db_remoteCommitment (bucket lc)) = p_remote p /\
    db_revocation (bucket lc) = revocation lc /\ db_lastWasRevoke (bucket lc) = p_last p;
  mo_secrets : stored (RevocationStore (revocation lc)) = p_secrets p;
  mo_cur : RemoteCurrentRevocation (revocation lc) = p_cur p;
  mo_next : RemoteNextRevocation (revocation lc) = p_next p;
  mo_bounds : 0 <= p_local p < 2 ^ 64 /\ 0 <= p_remote p < 2 ^ 64;
  mo_restored : isRestored lc = false;
}.

Lemma copyInto_id n s : length s = n -> copyInto n s = s.
Proof.
  intros <-. unfold copyInto. rewrite firstn_all, Nat.sub_diag. apply app_nil_r.
Qed.

Lemma ident_of_ok c : ident_ok (ident_of c).
Proof.
  intros h m. cbn. destruct (AtIndex h) as [s|] eqn:Hs; [|done].
  destruct (AtIndex (u64 (h + 2))) as [s'|] eqn:Hs'; [|done]. intros [= <-]. cbn.
  rewrite copyInto_id by by eapply AtIndex_length. split; [done|].
  by exists (ComputeCommitmentPoint s').
Qed.

(** ** Frames *)

Lemma frames_ret {A} (a : A) : frames (cret a).
Proof. intros lc. cbn. done. Qed.

Lemma frames_fail {A} e : frames (cfail (A := A) e).
Proof. intros lc. cbn. done. Qed.

Lemma frames_lift {A} (o : outcome chan_err A) : frames (clift o).
Proof. intros lc. cbn. done. Qed.

Lemma frames_get : frames cget.
Proof. intros lc. cbn. done. Qed.

Lemma frames_bind {A B} (m : M A) (k : A -> M B) :
  frames m -> (forall a, frames (k a)) -> frames (cbind m k).
Proof.
  intros Hm Hk lc. unfold cbind. specialize (Hm lc).
  destruct (m lc) as [[a|e|] lc1]; [|done..]. etrans; [exact Hm|apply Hk].
Qed.

Lemma frames_discard {A} (m : M A) : frames m -> frames (discard m).
Proof. intros H. apply frames_bind; [done|]. intros a. apply frames_ret. Qed.

Lemma frames_put_logs l r : frames (cput (fun lc => set_logs lc (l lc) (r lc))).
Proof. intros lc. exists (l lc), (r lc), (totals lc). by destruct lc. Qed.

Lemma frames_put_logOf remote u : frames (cput (fun lc => set_logOf remote lc (u lc))).
Proof. intros lc. apply set_logOf_framed. Qed.

Lemma frames_put_totals t : frames (cput (fun lc => set_totals lc (t lc))).
Proof. intros lc. apply set_totals_framed. Qed.

Hint Resolve frames_ret frames_fail frames_lift frames_get frames_put_logs frames_put_logOf
  frames_put_totals : frames.

Ltac frame :=
  repeat first
    [ progress intros
    | apply frames_bind; [solve [eauto with frames]|intros]
    | solve [eauto with frames]
    | case_match
    | apply frames_discard ].

Lemma frames_heights remote x : frames (writeHeights remote x).
Proof. unfold writeHeights. frame. Qed.

Lemma frames_settle mode ours entry : frames (countSettle mode ours entry).
Proof. unfold countSettle. frame. Qed.

Hint Resolve frames_heights frames_settle : frames.

Lemma frames_removePass mode ours l : forall bal fee skip, frames (removePass mode ours l bal fee skip).
Proof. induction l as [|[e entry] l IH]; intros; cbn [removePass]; frame. Qed.

Lemma frames_addPass mode ours skip l : forall bal, frames (addPass mode ours skip l bal).
Proof. induction l as [|[e entry] l IH]; intros; cbn [addPass]; frame. Qed.

Hint Resolve frames_removePass frames_addPass : frames.

Lemma frames_evaluate view bal mode : frames (evaluateHTLCView view bal mode).
Proof. unfold evaluateHTLCView. frame. Qed.

Hint Resolve frames_evaluate : frames.

Lemma frames_computeView view rc upd : frames (computeView view rc upd).
Proof. unfold computeView. frame. Qed.

Hint Resolve frames_computeView : frames.

Lemma frames_sanity their our rc pour ptheir : frames (validateCommitmentSanity their our rc pour ptheir).
Proof. unfold validateCommitmentSanity. frame. Qed.

Lemma frames_writeScripts remote l : frames (writeScripts remote l).
Proof. induction l as [|[[e|] pd] l IH]; cbn [writeScripts]; frame. Qed.

Hint Resolve frames_sanity frames_writeScripts : frames.

Lemma frames_fetch rc oi oh ti th keys : frames (fetchCommitmentView rc oi oh ti th keys).
Proof. unfold fetchCommitmentView. frame. Qed.

Hint Resolve frames_fetch : frames.

Lemma frames_removal ours pd i : frames (appendRemoval ours pd i).
Proof. unfold appendRemoval. destruct ours; frame. Qed.

Lemma frames_validateAdd pd : frames (validateAddHtlc pd).
Proof. unfold validateAddHtlc. frame. Qed.

Hint Resolve frames_removal frames_validateAdd : frames.

Lemma frames_update o : is_update o = true -> frames (run o).
Proof.
  destruct o; try done; intros _; cbn [run];
    unfold AddHTLC, ReceiveHTLC, SettleHTLC, ReceiveHTLCSettle, FailHTLC, MalformedFailHTLC,
      ReceiveFailHTLC, ChannelOps.UpdateFee, ReceiveUpdateFee; frame.
Qed.

(** ** Every operation is a step of the peer *)

Lemma models_framed lc lc' p : framed lc lc' -> models lc p -> models lc' p.
Proof. intros (l & r & t & ->) [H1 H2 H3 H4 H5 H6 H7 H8]. by split. Qed.

Lemma run_framed {A} (m : M A) lc r lc' : frames m -> m lc = (r, lc') -> framed lc lc'.
Proof. intros Hf Hm. specialize (Hf lc). by rewrite Hm in Hf. Qed.

Lemma fetch_height rc oi oh ti th keys lc c lc' :
  fetchCommitmentView rc oi oh ti th keys lc = (Ok c, lc') ->
  exists tip, last (chainOf rc lc) = Some tip /\ Commitment.height c = u64 (Commitment.height tip + 1).
Proof.
  intros H. apply fetchCommitmentView_run in H as (tip & ? & ? & ? & ? & Ht & _ & _ & _ & _ & Hc & _).
  exists tip. split; [by apply tipOf_last|done].
Qed.

Lemma sign_step lc p dbOk sig htlcSigs htlcs lc' :
  models lc p -> height_room lc -> SignNextCommitment dbOk lc = (Ok (sig, htlcSigs, htlcs), lc') ->
  exists p', peer_step (ident_of (cfg lc)) p (LSign (commitSigMsg (chanIDOf lc) sig htlcSigs)) p' /\
    models lc' p' /\ cfg lc' = cfg lc.
Proof.
  intros Hm Hroom H. unfold SignNextCommitment in H. rewrite cbind_cget in H.
  destruct (RemoteNextRevocation (revocation lc)) as [point|] eqn:Hnext; [|done].
  destruct (CommitmentChain.hasUnackedCommitment _) eqn:Hun; [done|].
  apply clift_ok in H as (localTail & _ & H). apply cbind_ok in H as ([] & lc1 & Hv & H).
  apply cbind_ok in H as (c & lc2 & Hf & H).
  destruct (SignOutputRaw _) as [sig'|]; [|done]. destruct (signHtlcs _ _) as [hs'|]; [|done].
  rewrite cbind_cget in H. apply cbind_ok in H as ([] & lc3 & Ha & H). injection H as <- <- <- <-.
  apply run_framed in Hv as (l1 & r1 & t1 & ->); [|auto with frames].
  destruct (fetch_height _ _ _ _ _ _ _ _ _ Hf) as (tip & Htip & Hh).
  apply run_framed in Hf as (l2 & r2 & t2 & ->); [|auto with frames].
  apply dbGuard_ok in Ha. injection Ha as <-.
  destruct Hm as [M1 M2 M3 (M4 & M5 & M6 & M7) M8 M9 M10 M11 M12].
  destruct (p_pending p) as [m|] eqn:Hp.
  { destruct M3 as (c0 & c1 & diff & Hc & _). by rewrite Hc in Hun. }
  destruct M3 as [(c0 & Hc & Hc0) Hd].
  change (chainOf true _) with (remoteCommitChain lc) in Htip. rewrite Hc in Htip. injection Htip as <-.
  assert (Commitment.height c = p_remote p + 1) as Hh'.
  { rewrite Hh, Hc0, u64_id; [done|]. unfold in_u. specialize (Hroom true c0).
    cbn in Hroom. rewrite Hc in Hroom. specialize (Hroom (list_elem_of_here _ _)). lia. }
  eexists. split; [by apply ps_sign; [|rewrite <- M10, Hnext|]|]. split; [|done].
  split; cbn [p_local p_received p_remote p_pending p_last p_secrets p_cur p_next]; try done.
  eexists c0, c, _. split; [cbn; rewrite Hc; reflexivity|]. by split_and!.
Qed.

(** A step of one channel is one of its peer, whose fixed part stays. *)
Definition simulated (lc : LightningChannel) (p : peer) (l : label) (lc' : LightningChannel) : Prop :=
  exists p', peer_step (ident_of (cfg lc)) p l p' /\ models lc' p' /\ cfg lc' = cfg lc.

Lemma generateRevocation_ident lc h m :
  generateRevocation lc h = Ok m <-> id_rev (ident_of (cfg lc)) h = Some m.
Proof.
  unfold generateRevocation. cbn. destruct (AtIndex h); [|done]. destruct (AtIndex _); [|done].
  split; intros [= <-]; done.
Qed.

Lemma revoke_step lc p dbOk m htlcs lc' :
  models lc p -> height_room lc -> RevokeCurrentCommitment dbOk lc = (Ok (m, htlcs), lc') ->
  simulated lc p (LRevoke m) lc'.
Proof.
  intros [(c & l & Hc & Hlen & Hch) M2 M3 (M4 & M5 & M6 & M7) M8 M9 M10 M11 M12] Hroom H.
  unfold RevokeCurrentCommitment in H. rewrite cbind_cget in H.
  apply clift_ok in H as (m' & Hm & H). apply clift_ok in H as (c1 & _ & H).
  apply clift_ok in H as (chain & Hadv & H). rewrite Hc in Hadv. injection Hadv as <-.
  apply cbind_ok in H as ([] & lc1 & [= <-] & H).
  rewrite cbind_cget in H. apply clift_ok in H as (newTail & Ht & H).
  apply clift_ok in H as (acked & _ & H). apply cbind_ok in H as ([] & lc2 & Hdb & H).
  injection H as -> _ <-. apply dbGuard_ok in Hdb. injection Hdb as <-.
  destruct l as [|c2 l]; [done|]. injection Ht as <-.
  destruct Hch as [Hh [Hh2 Hch]].
  assert (u64 (currentHeight lc + 1) = p_local p + 1) as Hu.
  { rewrite M2, u64_id; [done|]. unfold in_u. specialize (Hroom false c). cbn in Hroom. rewrite Hc in Hroom.
    specialize (Hroom (list_elem_of_here _ _)). lia. }
  eexists. split; [eapply ps_revoke; [by rewrite <- Hlen|]|].
  { apply generateRevocation_ident in Hm. by rewrite M2 in Hm. }
  split; [|done].
  split; cbn [p_local p_received p_remote p_pending p_last p_secrets p_cur p_next]; try done.
  - by exists c2, l.
  - split; [|apply M11]. specialize (Hroom false c). cbn in Hroom. rewrite Hc in Hroom.
    specialize (Hroom (list_elem_of_here _ _)). lia.
Qed.

Lemma getsig_step lc p m lc' :
  models lc p -> height_room lc ->
  ReceiveNewCommitment (CommitSig.CommitSig_ m) (CommitSig.HtlcSigs m) lc = (Ok tt, lc') ->
  simulated lc p (LGetSig (MCommitSig m)) lc'.
Proof.
  intros [(c & l & Hc & Hlen & Hch) M2 M3 M4 M8 M9 M10 M11 M12] Hroom H.
  unfold ReceiveNewCommitment in H. rewrite cbind_cget in H.
  apply clift_ok in H as (remoteTail & _ & H). apply cbind_ok in H as ([] & lc1 & Hv & H).
  destruct (AtIndex _) as [secret|]; [|done]. apply cbind_ok in H as (view & lc2 & Hf & H).
  destruct (negb _); [done|]. injection H as <-.
  apply run_framed in Hv as (l1 & r1 & t1 & ->); [|auto with frames].
  destruct (fetch_height _ _ _ _ _ _ _ _ _ Hf) as (tip & Htip & Hh).
  apply run_framed in Hf as (l2 & r2 & t2 & ->); [|auto with frames].
  change (chainOf false _) with (localCommitChain lc) in Htip. rewrite Hc in Htip.
  assert (Commitment.height view = p_local p + Z.of_nat (length (c :: l))) as Hh'.
  { rewrite Hh, u64_id; [by apply chainHeights_last|]. unfold in_u. specialize (Hroom false tip).
    cbn in Hroom. rewrite Hc in Hroom. specialize (Hroom (last_elem _ _ Htip)).
    pose proof (chainHeights_last _ _ _ Hch Htip). destruct M11. lia. }
  eexists. split; [by constructor|]. split; [|done].
  split; cbn [p_local p_received p_remote p_pending p_last p_secrets p_cur p_next]; try done.
  exists c, (l ++ [Commitment.set_sig view (CommitSig.CommitSig_ m)]).
  split; [cbn; by rewrite Hc|]. split; [rewrite length_app; cbn; lia|].
  apply (chainHeights_snoc _ (c :: l)); [done|exact Hh'].
Qed.

Lemma getrev_step lc p dbOk m res lc' :
  models lc p -> height_room lc -> ReceiveRevocation dbOk m lc = (Ok res, lc') ->
  simulated lc p (LGetRev m) lc'.
Proof.
  intros [M1 M2 M3 (M4 & M5 & M6 & M7) M8 M9 M10 M11 M12] Hroom H.
  unfold ReceiveRevocation in H. rewrite cbind_cget in H.
  destruct (AddNextEntry _ _) as [store|] eqn:Hadd; [|done]. apply cbind_ok in H as ([] & lc1 & [= <-] & H).
  destruct (RemoteCurrentRevocation _) as [point|]; [|done]. destruct (negb _); [done|].
  apply cbind_ok in H as ([] & lc1 & [= <-] & H).
  apply clift_ok in H as (c & Hc & H). apply clift_ok in H as (localTail & Ht & H).
  destruct (forwardLoop _ _ _ _ _) as [l f]. apply cbind_ok in H as ([] & lc1 & [= <-] & H).
  apply clift_ok in H as (rtip & _ & H). apply cbind_ok in H as ([] & lc2 & Hdb & H).
  apply clift_ok in H as (chain & Hch & H). apply cbind_ok in H as ([] & lc3 & [= <-] & H).
  rewrite cbind_cget in H. apply clift_ok in H as ([local remote] & Hcp & H).
  apply cbind_ok in H as ([] & lc4 & [= <-] & H). injection H as _ <-.
  apply dbGuard_ok in Hdb. rewrite cbind_cget in Hdb.
  change (db_commitDiff (bucket (set_logs _ _ _))) with (db_commitDiff (bucket lc)) in Hdb.
  destruct (p_pending p) as [s|] eqn:Hp; [|by destruct M3 as [_ Hd]; rewrite Hd in Hdb].
  destruct M3 as (c0 & c1 & diff & Hr & Hh0 & Hh1 & Hd & Hdh & _). rewrite Hd in Hdb. injection Hdb as <-.
  rewrite Hr in Hch. injection Hch as <-.
  eexists. split; [apply ps_getrev; by rewrite Hp|]. split; [|done].
  split; cbn [p_local p_received p_remote p_pending p_last p_secrets p_cur p_next]; try done.
  - split; [by exists c1|done].
  - by rewrite <- M8; apply AddNextEntry_stored.
  - split; [apply M11|]. specialize (Hroom true c0). cbn in Hroom. rewrite Hr in Hroom.
    specialize (Hroom (list_elem_of_here _ _)). lia.
Qed.

Lemma init_step lc p dbOk k lc' :
  models lc p -> RemoteNextRevocation (revocation lc) = None ->
  InitNextRevocation dbOk k lc = (Ok tt, lc') -> simulated lc p (LInit k) lc'.
Proof.
  intros [M1 M2 M3 (M4 & M5 & M6 & M7) M8 M9 M10 M11 M12] Hn H.
  apply cbind_ok in H as ([] & lc1 & [= <-] & H). destruct (negb dbOk); [done|]. injection H as <-.
  eexists. split; [apply ps_init; by rewrite <- M10|]. split; [|done]. by split.
Qed.

(** ** Loading a channel *)

Lemma diskCommit_height c isLocal d lp rp commit :
  diskCommitToMemCommit c isLocal d lp rp = Ok commit -> Commitment.height commit = CommitHeight d.
Proof. intros H. apply obind_ok_inv in H as ([inc out] & _ & [= <-]). done. Qed.

(** A loaded channel has the bucket and the fixed part of the old one, and chains
    of the stored heights. *)
Lemma reload_inv lc lc' :
  reload lc = Ok lc' ->
  exists localCommit remoteCommit pending,
    localCommitChain lc' = [localCommit] /\
    Commitment.height localCommit = CommitHeight (db_localCommitment (bucket lc)) /\
    remoteCommitChain lc' = remoteCommit :: pending /\
    Commitment.height remoteCommit = CommitHeight (db_remoteCommitment (bucket lc)) /\
    match db_commitDiff (bucket lc) with
    | None => pending = []
    | Some diff => exists c, pending = [c] /\ Commitment.height c = CommitHeight (Diff_Commitment diff)
    end /\
    currentHeight lc' = CommitHeight (db_localCommitment (bucket lc)) /\
    AtIndex (currentHeight lc') <> None /\
    bucket lc' = bucket lc /\ cfg lc' = cfg lc /\ isRestored lc' = isRestored lc /\
    revocation lc' = db_revocation (bucket lc).
Proof.
  intros H. unfold reload, NewLightningChannel in H. cbn [oc_LocalCommitment fetchOpenChannel] in H.
  apply obind_ok_inv in H as ([[localChain remoteChain] [local remote]] & H & [= <-]).
  unfold restoreCommitState in H. destruct (AtIndex _) as [secret|] eqn:Hat; [|done].
  apply obind_ok_inv in H as (lcm & Hl & H). apply obind_ok_inv in H as (rcm & Hr & H).
  apply obind_ok_inv in H as (pending & Hp & H). apply obind_ok_inv in H as (u & _ & H).
  injection H as <- <- _. apply diskCommit_height in Hl, Hr.
  exists lcm, rcm, (match pending with Some (commit, _, _) => [commit] | None => [] end).
  split; [done|]. split; [done|]. split; [by destruct pending as [[[commit diff] keys]|]|].
  split; [done|]. split; [|split_and!; try done; intros Hn; by rewrite Hat in Hn || by cbn in Hn; congruence].
  unfold restorePending, RemoteCommitChainTip in Hp. cbn [oc_bucket fetchOpenChannel] in Hp.
  destruct (db_commitDiff (bucket lc)) as [diff|]; [|by injection Hp as <-].
  apply obind_ok_inv in Hp as (commit & Hc & Hp). apply diskCommit_height in Hc.
  destruct (RemoteNextRevocation _); [|done]. injection Hp as <-. by exists commit.
Qed.

Lemma reload_step lc p lc' : models lc p -> reload lc = Ok lc' -> simulated lc p LReload lc'.
Proof.
  intros [M1 M2 M3 (M4 & M5 & M6 & M7) M8 M9 M10 M11 M12] H.
  destruct (reload_inv _ _ H) as (c & r & pending & Hl & Hlh & Hr & Hrh & Hp & Hcur & _ & Hb & Hcfg & Hre & Hrev).
  eexists. split; [apply ps_reload|]. split; [|done].
  split; cbn [p_local p_received p_remote p_pending p_last p_secrets p_cur p_next];
    rewrite ?Hb, ?Hrev, ?M6; try done.
  - exists c, []. split; [done|]. split; [done|]. cbn. split; [by rewrite Hlh|done].
  - by rewrite Hcur.
  - unfold remote_models in *. rewrite Hb. destruct (p_pending p) as [m|].
    + destruct M3 as (c0 & c1 & diff & _ & _ & _ & Hd & Hdh & Hm). rewrite Hd in Hp.
      destruct Hp as (c' & -> & Hc'). exists r, c', diff.
      split; [done|]. split; [by rewrite Hrh|]. split; [by rewrite Hc'|].
      split; [done|]. split; [done|]. unfold chanIDOf in *. by rewrite Hcfg.
    + destruct M3 as [_ Hd]. rewrite Hd in Hp. subst pending. split; [|done].
      exists r. split; [done|by rewrite Hrh].
  - by rewrite Hre.
Qed.

(** ** Simulation *)

Lemma chan_step_simulated lc p l lc' :
  models lc p -> height_room lc -> chan_step lc l lc' -> simulated lc p l lc'.
Proof.
  intros Hm Hroom Hs. destruct Hs as [o r lc' Ho H|dbOk sig hs htlcs lc' H|dbOk m htlcs lc' H|m lc' H|
    dbOk m res lc' H|dbOk k lc' Hn H|lc' H].
  - apply run_framed in H; [|by apply frames_update]. exists p. split; [constructor|].
    split; [by eapply models_framed|]. by destruct H as (? & ? & ? & ->).
  - by eapply sign_step.
  - by eapply revoke_step.
  - by eapply getsig_step.
  - by eapply getrev_step.
  - by eapply init_step.
  - by eapply reload_step.
Qed.

End refine.
