(* ===== verification/SyncAnswer.v ===== *)
(** * lnwallet: the answer to a channel_reestablish

    What [ProcessChanSyncMsg] does with the message of a peer that is where the
    protocol of SyncProtocol.v says it can be, and with one that is ahead. *)

From Stdlib Require Import ZArith Lia.
From S2P Require Import Prelude Wire WireMessages Amounts OpReturn UpdateLog CommitTx.
From S2P Require Import ChannelState ChannelView ViewLemmas ChannelOps ChannelInv ChannelReach ChannelSync.
From S2P Require Import SyncProtocol SyncRefine.

Local Open Scope Z_scope.
Local Open Scope go_scope.

Section answer.
Context {BT : Btcec} {E : ChanEnv} {S : SyncEnv} {L : SyncLaws}.

(** ** Statements *)

(** The message of the peer [y]. *)
Definition sync_of (iy : ident) (y : peer) (msg : ChannelReestablish.t) : Prop :=
  ChannelReestablish.NextLocalCommitHeight msg = u64 (p_local y + 1) /\
  ChannelReestablish.RemoteCommitTailHeight msg = p_remote y /\
  (p_remote y <> 0 ->
   p_secrets y !! Z.to_nat (p_remote y - 1) = Some (ChannelReestablish.LastRemoteCommitSecret msg)) /\
  exists point, ChannelReestablish.LocalUnrevokedCommitPoint msg = Some point /\
    id_pt iy (p_local y) = Some point.

(** A lost message as it is sent again: the signature of a commitment goes after
    the updates the commitment adds. *)
Definition retransmit (b : chanBucket) (m : chanMsg) : list chanMsg :=
  match m with
  | MCommitSig _ =>
      match db_commitDiff b with
      | Some diff => (fun u => MUpdate (UpdateMsg u)) <$> LogUpdates diff
      | None => []
      end ++ [m]
  | _ => [m]
  end.

(** The answer: what was lost, and a new signature only when a revocation was lost
    and there is something to sign.  The only errors are those of that signing. *)
Definition answers (dbOk : bool) (lost : list chanMsg) (lc : LightningChannel)
    (res : outcome sync_err syncResult * LightningChannel) : Prop :=
  match res with
  | (Ok (msgs, _, _), lc') =>
      exists extra, msgs = flat_map (retransmit (bucket lc)) lost ++ extra /\
        ((extra = [] /\ framed lc lc') \/
         ((exists m, MRevoke m ∈ lost) /\ exists sig htlcSigs htlcs,
            SignNextCommitment dbOk lc = (Ok (sig, htlcSigs, htlcs), lc') /\
            extra = [commitSigMsg (chanIDOf lc) sig htlcSigs]))
  | (Err e, lc') => (exists m, MRevoke m ∈ lost) /\
      exists e', e = ErrSyncChan e' /\ SignNextCommitment dbOk lc = (Err e', lc')
  | (Panic, lc') => (exists m, MRevoke m ∈ lost) /\ SignNextCommitment dbOk lc = (Panic, lc')
  end.

(** ** Our message *)

Lemma ChanSyncMsg_sync lc p :
  models lc p -> AtIndex (p_local p) <> None -> p_remote p = Z.of_nat (length (p_secrets p)) ->
  exists msg, ChanSyncMsg (fetchOpenChannel lc) = Ok msg /\ sync_of (ident_of (cfg lc)) p msg.
Proof.
  intros [M1 M2 M3 (M4 & M5 & M6 & M7) M8 M9 M10 (B1 & B2) M12] Hat Hlen.
  unfold ChanSyncMsg. cbn [oc_LocalCommitment oc_RemoteCommitment oc_revocation oc_isRestored oc_cfg fetchOpenChannel].
  rewrite M4, M5, M6, M12. cbn [andb].
  destruct (AtIndex (p_local p)) as [s|] eqn:Hs; [|done].
  assert (id_pt (ident_of (cfg lc)) (p_local p) = Some (ComputeCommitmentPoint s)) as Hpt.
  { cbn. by rewrite u64_id, Hs. }
  case_bool_decide as Hr.
  - rewrite u64_id by (unfold in_u; lia).
    destruct (lookup_lt_is_Some_2 (p_secrets p) (Z.to_nat (p_remote p - 1))) as [sec Hsec]; [lia|].
    replace (p_remote p - 1) with (Z.of_nat (Z.to_nat (p_remote p - 1))) by lia.
    rewrite LookUp_stored, M8, Hsec. cbn [obind]. eexists. split; [reflexivity|].
    split_and!; try done. by exists (ComputeCommitmentPoint s).
  - cbn [obind]. eexists. split; [reflexivity|]. split_and!; try done. by exists (ComputeCommitmentPoint s).
Qed.

(** ** The parts of the answer *)

Lemma checkLastSecret_ok iy y msg :
  sync_of iy y msg -> 0 <= p_remote y < 2 ^ 64 ->
  (forall i s, p_secrets y !! i = Some s -> AtIndex (Z.of_nat i) = Some s) ->
  checkLastSecret msg = Ok tt.
Proof.
  intros (_ & Ht & Hs & point & Hp & _) Hb Hsec. unfold checkLastSecret. rewrite Hp, Ht.
  case_bool_decide as Hr; [|done]. specialize (Hsec _ _ (Hs Hr)).
  rewrite u64_id by (unfold in_u; lia). rewrite Z2Nat.id in Hsec by lia. rewrite Hsec.
  by rewrite bool_decide_eq_true_2.
Qed.

Lemma models_tails lc p :
  models lc p -> exists l r t,
    tailOf false lc = Ok l /\ Commitment.height l = p_local p /\
    tailOf true lc = Ok r /\ Commitment.height r = p_remote p /\ r ∈ remoteCommitChain lc /\
    tipOf true lc = Ok t /\ t ∈ remoteCommitChain lc /\
    Commitment.height t = match p_pending p with Some _ => p_remote p + 1 | None => p_remote p end.
Proof.
  intros [(c & l & Hc & _ & Hch) M2 M3 M4 M8 M9 M10 M11 M12].
  unfold tailOf, tipOf, CommitmentChain.tail, CommitmentChain.tip. cbn [chainOf]. rewrite Hc.
  destruct (p_pending p) as [m|].
  - destruct M3 as (r & t & diff & -> & ? & ? & _). exists c, r, t.
    split_and!; try done; [apply Hch|set_solver..].
  - destruct M3 as [(r & -> & ?) _]. exists c, r, r. split_and!; try done; [apply Hch|set_solver..].
Qed.

(** The error paths of signing keep everything but the logs and counters. *)
Lemma sign_err_framed dbOk lc e lc' :
  SignNextCommitment dbOk lc = (Err e, lc') -> framed lc lc'.
Proof.
  unfold SignNextCommitment. rewrite cbind_cget. destruct (RemoteNextRevocation _) as [pt|]; [|by intros [= _ <-]].
  destruct (CommitmentChain.hasUnackedCommitment _); [by intros [= _ <-]|].
  unfold cbind at 1, clift. destruct (tailOf false lc) as [tl|e1|]; [|by intros [= _ <-]|done].
  unfold cbind at 1. destruct (validateCommitmentSanity _ _ _ _ _ _) as [r1 lc1] eqn:H1.
  apply run_framed in H1; [|apply frames_sanity]. destruct r1 as [[]|e1|]; [|by intros [= _ <-]|done].
  unfold cbind at 1. destruct (fetchCommitmentView _ _ _ _ _ _ _) as [r2 lc2] eqn:H2.
  apply run_framed in H2; [|apply frames_fetch].
  assert (framed lc lc2) as Hf by by etrans. destruct r2 as [c|e2|]; [|by intros [= _ <-]|done].
  destruct (SignOutputRaw _); [|by intros [= _ <-]]. destruct (signHtlcs _ _); [|by intros [= _ <-]].
  rewrite cbind_cget. unfold AppendRemoteCommitChain, dbGuard, cbind, cget, cput, cret, cfail.
  destruct (isRestored lc2), (db_borked (bucket lc2)), (negb dbOk); intros [= _ <-]; done.
Qed.

(** The first switch sends the owed revocation, and may sign. *)
Definition localSynced (dbOk : bool) (owed : list chanMsg) (lc : LightningChannel)
    (res : outcome sync_err (list chanMsg) * LightningChannel) : Prop :=
  match res with
  | (Ok updates, lc') =>
      exists extra, updates = owed ++ extra /\
        ((extra = [] /\ framed lc lc') \/
         ((exists m, MRevoke m ∈ owed) /\ exists sig htlcSigs htlcs,
            SignNextCommitment dbOk lc = (Ok (sig, htlcSigs, htlcs), lc') /\
            extra = [commitSigMsg (chanIDOf lc) sig htlcSigs]))
  | (Err e, lc') => (exists m, MRevoke m ∈ owed) /\
      exists e', e = ErrSyncChan e' /\ SignNextCommitment dbOk lc = (Err e', lc')
  | (Panic, lc') => (exists m, MRevoke m ∈ owed) /\ SignNextCommitment dbOk lc = (Panic, lc')
  end.

Lemma oweCommitment_ok lc p local : models lc p -> exists b, oweCommitment lc local = Ok b.
Proof.
  intros [(c & l & Hc & _) _ M3 _ _ _ _ _ _]. unfold oweCommitment, tipOf, CommitmentChain.tip, chainOf.
  rewrite Hc. destruct (last (c :: l)) as [t|] eqn:Hl; [|by apply last_None in Hl].
  assert (exists t', last (remoteCommitChain lc) = Some t') as [t' ->].
  { unfold remote_models in M3. destruct (p_pending p);
      [destruct M3 as (? & ? & ? & -> & _)|destruct M3 as [(? & -> & _) _]]; by eexists. }
  cbn [or_panic obind]. destruct local; by eexists.
Qed.

Lemma syncLocalChain_run dbOk iy msg lc px py :
  models lc px -> sync_of iy py msg -> p_local px + 1 < 2 ^ 64 -> 0 <= p_remote py ->
  p_local px = p_remote py \/ p_local px = p_remote py + 1 ->
  (p_local px = p_remote py + 1 -> id_rev (ident_of (cfg lc)) (p_remote py) <> None) ->
  localSynced dbOk (owedRev (ident_of (cfg lc)) px py) lc (syncLocalChain dbOk msg (p_local px) lc).
Proof.
  intros Hm (_ & Ht & _) Hroom Hpos Hh Hrev. unfold syncLocalChain. rewrite Ht, (mo_restored _ _ Hm).
  rewrite (bool_decide_eq_false_2 (_ > _)) by lia. cbn [orb].
  rewrite u64_id by (unfold in_u; lia). rewrite (bool_decide_eq_false_2 (_ < _)) by lia.
  unfold owedRev. destruct (decide (p_local px = p_remote py)) as [H1|H1].
  { rewrite (bool_decide_eq_false_2 (p_local px = _)), bool_decide_eq_true_2 by lia.
    exists []. split; [done|]. by left. }
  rewrite (bool_decide_eq_false_2 (p_remote py = _)), !bool_decide_eq_true_2 by lia. replace (p_local px - 1) with (p_remote py) by lia.
  rewrite u64_id by (unfold in_u; lia).
  destruct (id_rev _ (p_remote py)) as [m|] eqn:Hm'; [|by destruct Hrev; [lia|]].
  rewrite (proj2 (generateRevocation_ident _ _ _) Hm').
  assert (exists m0, MRevoke m0 ∈ [MRevoke m]) as Hin by (exists m; set_solver).
  destruct (oweCommitment_ok lc px true Hm) as [b ->]. destruct b.
  - destruct (SignNextCommitment dbOk lc) as [[[[sig hs] htlcs]|e|] lc'] eqn:Hs.
    + exists [commitSigMsg (chanIDOf lc) sig hs]. split; [done|]. right. split; [done|]. by exists sig, hs, htlcs.
    + destruct e; try (cbn; split; [done|]; by eexists).
      exists []. split; [done|]. left. split; [done|]. by eapply sign_err_framed.
    + by cbn.
  - exists []. split; [done|]. by left.
Qed.

(** The second switch puts the pending commitment where it was. *)
Lemma syncRemoteChain_run lc0 lc iy msg px py updates :
  models lc0 px -> sync_of iy py msg -> 0 <= p_remote px ->
  match p_pending px with Some _ => p_remote px + 2 | None => p_remote px + 1 end < 2 ^ 64 ->
  (p_local py = p_remote px \/ (p_local py = p_remote px + 1 /\ p_pending px <> None)) ->
  (p_pending px <> None -> bucket lc = bucket lc0 /\ cfg lc = cfg lc0) ->
  exists opened closed,
    syncRemoteChain (p_last px) msg (p_remote px)
      (match p_pending px with Some _ => p_remote px + 1 | None => p_remote px end) updates lc =
    Ok (if p_last px then flat_map (retransmit (bucket lc0)) (owedSig px py) ++ updates
        else updates ++ flat_map (retransmit (bucket lc0)) (owedSig px py), opened, closed).
Proof.
  intros Hm (Hn & _) Hpos Hroom Hh Hb. unfold syncRemoteChain, owedSig. rewrite Hn.
  destruct (p_pending px) as [m|] eqn:Hp.
  - destruct (Hb ltac:(done)) as [Eb Ec]. pose proof (mo_remote _ _ Hm) as M3. rewrite Hp in M3.
    destruct M3 as (c & c' & diff & _ & _ & _ & Hd & _ & Hmsg).
    rewrite !u64_id by (unfold in_u; lia).
    rewrite (bool_decide_eq_false_2 (_ > _)), (bool_decide_eq_false_2 (_ <= _)) by lia.
    destruct Hh as [Hh|[Hh _]].
    + rewrite (bool_decide_eq_false_2 (p_local py + 1 = _)), (bool_decide_eq_true_2 (p_local py + 1 = _)) by lia.
      rewrite (bool_decide_eq_true_2 (p_local py = _)) by lia.
      unfold RemoteCommitChainTip. rewrite Eb, Hd. cbn [liftErr obind flat_map]. rewrite app_nil_r.
      rewrite Hmsg. cbn [retransmit commitSigMsg]. rewrite Hd. unfold chanIDOf. rewrite Ec.
      by eexists _, _.
    + rewrite (bool_decide_eq_true_2 (p_local py + 1 = _)) by lia.
      rewrite (bool_decide_eq_false_2 (p_local py = _)) by lia. cbn [flat_map].
      exists [], []. by destruct (p_last px); rewrite ?app_nil_r.
  - destruct Hh as [Hh|[_ []]]; [|done]. rewrite !u64_id by (unfold in_u; lia).
    rewrite (bool_decide_eq_false_2 (_ > _)), (bool_decide_eq_false_2 (_ <= _)) by lia.
    rewrite (bool_decide_eq_true_2 (p_local py + 1 = _)) by lia. cbn [flat_map].
    exists [], []. by destruct (p_last px); rewrite ?app_nil_r.
Qed.

(** The last check passes. *)
Lemma checkCommitPoint_run lc iy msg px py :
  sync_of iy py msg -> 0 <= p_remote px ->
  match p_pending px with Some _ => p_remote px + 2 | None => p_remote px + 1 end < 2 ^ 64 ->
  (p_local py = p_remote px \/ (p_local py = p_remote px + 1 /\ p_pending px <> None)) ->
  RemoteCurrentRevocation (revocation lc) = p_cur px -> RemoteNextRevocation (revocation lc) = p_next px ->
  (forall k, p_cur px = Some k -> id_pt iy (p_remote px) = Some k) ->
  (forall k, p_next px = Some k -> id_pt iy (p_remote px + 1) = Some k) ->
  checkCommitPoint msg (p_remote px) lc = Ok tt.
Proof.
  intros (Hn & _ & _ & point & Hp & Hpt) Hpos Hroom Hh Hcur Hnext Hc Hx. unfold checkCommitPoint.
  rewrite Hp, Hn, Hcur, Hnext.
  assert (forall k, k = point -> negb (ChannelType.IsTweakless (ChanType (cfg lc))) && negb (IsEqual k point) = false)
    as Heq by (intros k ->; rewrite IsEqual_refl; apply andb_false_r).
  destruct Hh as [Hh|[Hh Hne]].
  - assert (p_remote px + 1 < 2 ^ 64) by (destruct (p_pending px); lia).
    rewrite !(u64_id (_ + 1)) by (unfold in_u; lia). rewrite (bool_decide_eq_true_2 (_ = _)) by lia.
    destruct (p_cur px) as [k|] eqn:Hk; [|done]. rewrite Heq; [done|].
    specialize (Hc k eq_refl). rewrite Hh in Hpt. congruence.
  - destruct (p_pending px); [|done]. rewrite !u64_id by (unfold in_u; lia).
    rewrite (bool_decide_eq_false_2 (_ = p_remote px + 1)), (bool_decide_eq_true_2 (_ = p_remote px + 2)) by lia.
    destruct (p_next px) as [k|] eqn:Hk; [|done]. rewrite Heq; [done|].
    specialize (Hx k eq_refl). rewrite Hh in Hpt. congruence.
Qed.

(** ** The answer *)

Lemma flat_map_rev b ix x y : flat_map (retransmit b) (owedRev ix x y) = owedRev ix x y.
Proof. unfold owedRev. case_bool_decide; [|done]. by destruct (id_rev _ _). Qed.

(** What the first switch leaves of the channel. *)
Lemma synced_keeps lc px dbOk extra lc' (owed : Prop) :
  models lc px -> height_room lc ->
  ((extra = [] /\ framed lc lc') \/
   (owed /\ exists sig htlcSigs htlcs, SignNextCommitment dbOk lc = (Ok (sig, htlcSigs, htlcs), lc') /\
      extra = [commitSigMsg (chanIDOf lc) sig htlcSigs])) ->
  RemoteCurrentRevocation (revocation lc') = p_cur px /\ RemoteNextRevocation (revocation lc') = p_next px /\
  (p_pending px <> None -> extra = [] /\ bucket lc' = bucket lc /\ cfg lc' = cfg lc).
Proof.
  intros Hm Hroom [[-> (l & r & t & ->)]|(_ & sig & hs & htlcs & Hs & _)].
  - split; [apply (mo_cur _ _ Hm)|]. split; [apply (mo_next _ _ Hm)|done].
  - destruct (sign_step _ _ _ _ _ _ _ Hm Hroom Hs) as (p' & Hp & Hm' & _). inversion Hp; subst.
    split; [apply (mo_cur _ _ Hm')|]. split; [apply (mo_next _ _ Hm')|done].
Qed.

Lemma sync_answers dbOk iy msg lc x y :
  models lc (s_peer x) -> height_room lc -> Both (ident_of (cfg lc)) iy x y ->
  sync_of iy (s_peer y) msg ->
  answers dbOk (owed (ident_of (cfg lc)) (s_peer x) (s_peer y)) lc
    (ProcessChanSyncMsg (p_last (s_peer x)) dbOk msg lc).
Proof.
  intros Hm Hroom HB Hmsg. destruct (both_heights _ _ _ _ HB) as (H1 & H2 & H3 & H4). destruct HB as [D D'].
  destruct (models_tails _ _ Hm) as (l & r & t & Hl & Hlh & Hr & Hrh & Hrin & Ht & Htin & Hth).
  pose proof (Hroom true t Htin) as Rt.
  assert (p_local (s_peer x) + 1 < 2 ^ 64) as Rl.
  { destruct (tailOf_head _ _ _ Hl) as [l' Hl']. rewrite <- Hlh. apply (Hroom false). rewrite Hl'. apply list_elem_of_here. }
  unfold ProcessChanSyncMsg.
  rewrite (checkLastSecret_ok iy (s_peer y)), Hl, Hr, Ht by first [done|lia|apply (d_secret _ _ _ D)].
  rewrite Hlh, Hrh, Hth.
  pose proof (syncLocalChain_run dbOk iy msg lc (s_peer x) (s_peer y) Hm Hmsg Rl H4 H1 (d_rev _ _ _ D)) as HL.
  assert (match p_pending (s_peer x) with
          | Some _ => p_remote (s_peer x) + 2 | None => p_remote (s_peer x) + 1 end < 2 ^ 64) as Rr.
  { destruct (p_pending (s_peer x)); lia. }
  assert (forall m, MRevoke m ∈ owedRev (ident_of (cfg lc)) (s_peer x) (s_peer y) ->
            MRevoke m ∈ owed (ident_of (cfg lc)) (s_peer x) (s_peer y)) as Hsub.
  { intros m Hin. unfold owed. destruct (p_last (s_peer x)); apply elem_of_app; tauto. }
  destruct (syncLocalChain _ _ _ _) as [[updates|e|] lc']; cbn [localSynced] in HL.
  - destruct HL as (extra & -> & He).
    destruct (synced_keeps _ _ _ _ _ _ Hm Hroom He) as (Hcur & Hnext & Hkeep).
    destruct (syncRemoteChain_run lc lc' iy msg (s_peer x) (s_peer y)
      (owedRev (ident_of (cfg lc)) (s_peer x) (s_peer y) ++ extra) Hm Hmsg H3 Rr (d_height _ _ _ D))
      as (opened & closed & ->); [intros Hne; by destruct (Hkeep Hne) as (_ & ? & ?)|].
    cbn [obind]. rewrite (checkCommitPoint_run lc' iy msg (s_peer x) (s_peer y)) by
      first [done|apply (d_height _ _ _ D)|apply (d_cur _ _ _ D')|apply (d_next _ _ _ D')].
    cbn [obind answers]. exists extra. split.
    + unfold owed. destruct (p_last (s_peer x)); rewrite flat_map_app, flat_map_rev, <- !app_assoc; [done|].
      f_equal. destruct (p_pending (s_peer x)) as [m|] eqn:Hp.
      * destruct (Hkeep ltac:(done)) as [-> _]. by rewrite app_nil_r.
      * unfold owedSig. rewrite Hp. cbn. by rewrite app_nil_r.
    + destruct He as [He|[[m Hin] He]]; [by left|right]. split; [exists m; by apply Hsub|done].
  - cbn. destruct HL as [[m Hin] HL]. split; [exists m; by apply Hsub|done].
  - cbn. destruct HL as [[m Hin] HL]. split; [exists m; by apply Hsub|done].
Qed.

(** ** Stale channels *)

(** A channel that is behind what the peer has proof of stops at once, and names
    the peer's commitment point. *)
Lemma stale_answers iy msg lc py lastRev dbOk l :
  sync_of iy py msg -> tailOf false lc = Ok l -> tailOf true lc <> Panic -> tipOf true lc <> Panic ->
  isRestored lc = false -> Commitment.height l < p_remote py < 2 ^ 64 -> 0 <= p_remote py ->
  (forall i s, p_secrets py !! i = Some s -> AtIndex (Z.of_nat i) = Some s) ->
  ProcessChanSyncMsg lastRev dbOk msg lc =
    (Err (ErrCommitSyncLocalDataLoss (FundingOutpoint (cfg lc)) (id_pt iy (p_local py))), lc).
Proof.
  intros Hs Hl Hr Ht Hre Hb Hpos Hsec. unfold ProcessChanSyncMsg.
  rewrite (checkLastSecret_ok iy py), Hl by first [done|lia].
  assert (forall rc, (exists c, tailOf rc lc = Ok c) \/ tailOf rc lc = Panic) as Htail.
  { intros rc. unfold tailOf, CommitmentChain.tail. destruct (chainOf rc lc); cbn; eauto. }
  assert (forall rc, (exists c, tipOf rc lc = Ok c) \/ tipOf rc lc = Panic) as Htip.
  { intros rc. unfold tipOf, CommitmentChain.tip. destruct (last _); cbn; eauto. }
  destruct (Htail true) as [[c ->]|]; [|done]. destruct (Htip true) as [[c' ->]|]; [|done].
  unfold syncLocalChain. destruct Hs as (_ & Hth & _ & point & Hp & Hpt). rewrite Hth, Hp, Hpt.
  by rewrite bool_decide_eq_true_2 by lia.
Qed.

(** A message from a peer behind what it has revoked is never answered. *)
Lemma behind_refused lastRev dbOk msg lc r :
  tailOf true lc = Ok r -> ChannelReestablish.NextLocalCommitHeight msg <= Commitment.height r ->
  forall res, (ProcessChanSyncMsg lastRev dbOk msg lc).1 <> Ok res.
Proof.
  intros Hr Hn res. unfold ProcessChanSyncMsg. destruct (checkLastSecret msg); [|done..].
  destruct (tailOf false lc); [|done..]. rewrite Hr. destruct (tipOf true lc) as [t|e|]; [|done..].
  destruct (syncLocalChain _ _ _ _) as [[updates|e|] lc']; [|done..].
  unfold syncRemoteChain. destruct (bool_decide (_ > _)); [done|]. by rewrite bool_decide_eq_true_2.
Qed.

End answer.
