(* ===== verification/SyncNet.v ===== *)
(** * lnwallet: two channels, their messages and lost connections

    The two ends of a channel, each with its own environment, exchange commitment
    signatures and revocations over a queue in each direction; everything else
    they do (HTLCs, settles, fee updates, of their own or received) may happen at
    any time.  A connection may be lost at any moment: the queues and everything
    that was not stored are gone, both ends load the channel from the database,
    exchange [ChanSyncMsg] and answer with [ProcessChanSyncMsg].

    Every state of this system is a state of the protocol of SyncProtocol.v. *)

From Stdlib Require Import ZArith Lia.
From S2P Require Import Prelude Wire WireMessages Amounts OpReturn UpdateLog CommitTx.
From S2P Require Import ChannelState ChannelView ViewLemmas ChannelOps ChannelInv ChannelReach ChannelSync.
From S2P Require Import SyncProtocol SyncRefine SyncAnswer.

Local Open Scope Z_scope.
Local Open Scope go_scope.

(** ** One end *)

Section endpoint.
Context {BT : Btcec} {E : ChanEnv} {S : SyncEnv} {L : SyncLaws}.

(** A channel, the signatures it received and has not answered with a revocation,
    and the messages it sent that have not arrived. *)
Record endpoint := mkEnd {
  e_chan : LightningChannel;
  e_got : list chanMsg;
  e_out : list chanMsg;
}.

(** A step of one end: [nextKey] is the point the other end announces when the
    channel opens, [inq] what it has sent. *)
Inductive end_step (nextKey : outcome chan_err pubkey) (e : endpoint) (inq : list chanMsg) :
    endpoint -> list chanMsg -> Prop :=
  | es_update lc' :
      chan_step (e_chan e) LQuiet lc' -> end_step nextKey e inq (mkEnd lc' (e_got e) (e_out e)) inq
  | es_sign m lc' :
      chan_step (e_chan e) (LSign m) lc' ->
      end_step nextKey e inq (mkEnd lc' (e_got e) (e_out e ++ [m])) inq
  | es_revoke m lc' :
      chan_step (e_chan e) (LRevoke m) lc' ->
      end_step nextKey e inq (mkEnd lc' (tail (e_got e)) (e_out e ++ [MRevoke m])) inq
  | es_getsig m lc' l :
      inq = m :: l -> chan_step (e_chan e) (LGetSig m) lc' ->
      end_step nextKey e inq (mkEnd lc' (e_got e ++ [m]) (e_out e)) l
  | es_getrev m lc' l :
      inq = MRevoke m :: l -> chan_step (e_chan e) (LGetRev m) lc' ->
      end_step nextKey e inq (mkEnd lc' (e_got e) (e_out e)) l
  | es_init k lc' :
      nextKey = Ok k -> chan_step (e_chan e) (LInit k) lc' ->
      end_step nextKey e inq (mkEnd lc' (e_got e) (e_out e)) inq.

Definition is_commitment (m : chanMsg) : bool := match m with MUpdate _ => false | _ => true end.

(** Loading the channel again and answering the other end's message. *)
Definition resync (dbOk : bool) (lc : LightningChannel) (msg : ChannelReestablish.t) : option endpoint :=
  match reload lc with
  | Ok lc' =>
      match ProcessChanSyncMsg (oc_LastWasRevoke (fetchOpenChannel lc)) dbOk msg lc' with
      | (Ok (msgs, _, _), lc'') => Some (mkEnd lc'' [] (filter (fun m => is_commitment m = true) msgs))
      | _ => None
      end
  | _ => None
  end.

(** An end of the system and one of the protocol. *)
Definition end_models (e : endpoint) (s : side) : Prop :=
  models (e_chan e) (s_peer s) /\ s_got s = e_got e /\ s_out s = e_out e.

(** ** Lemmas *)

Lemma NextRevocationKey_ident lc p k :
  models lc p -> NextRevocationKey lc = Ok k -> id_pt (ident_of (cfg lc)) (p_local p + 1) = Some k.
Proof.
  intros Hm. unfold NextRevocationKey. rewrite (mo_height _ _ Hm). cbn.
  destruct (AtIndex _); [|done]. by intros [= <-].
Qed.

Lemma end_step_act nextKey iy e inq e' inq' x y :
  end_models e x -> height_room (e_chan e) -> s_out y = inq ->
  (forall k, nextKey = Ok k -> id_pt iy (p_local (s_peer y) + 1) = Some k) ->
  end_step nextKey e inq e' inq' ->
  exists x', act (ident_of (cfg (e_chan e))) iy x y x' (mkSide (s_peer y) (s_got y) inq') /\
    end_models e' x' /\ cfg (e_chan e') = cfg (e_chan e).
Proof.
  intros (Hm & Hg & Ho) Hroom Hy Hk Hs. destruct y as [py gy oy]. cbn in Hy, Hk. subst inq.
  destruct Hs as [lc' H|m lc' H|m lc' H|m lc' l Hq H|m lc' l Hq H|k lc' Hk' H];
    destruct (chan_step_simulated _ _ _ _ Hm Hroom H) as (p' & Hp & Hm' & Hc);
    eexists; split_and!; try exact Hc.
  - by apply act_quiet.
  - by split_and!.
  - by eapply act_sign.
  - split_and!; [done|done|]. cbn. by rewrite Ho.
  - by eapply act_revoke.
  - split_and!; [done|cbn; by rewrite Hg|cbn; by rewrite Ho].
  - by eapply act_getsig.
  - split_and!; [done|cbn; by rewrite Hg|done].
  - by eapply act_getrev.
  - by split_and!.
  - eapply act_init; [by apply Hk|done].
  - by split_and!.
Qed.

(** Loading keeps the heights in range. *)
Lemma room_reload lc lc' p p' :
  models lc p -> peer_step (ident_of (cfg lc)) p LReload p' -> models lc' p' ->
  height_room lc -> height_room lc'.
Proof.
  intros [(c & l & Hc & _ & Hch) _ M3 _ _ _ _ _ _] Hp [(c' & l' & Hc' & Hl' & Hch') _ M3' _ _ _ _ _ _] Hroom.
  inversion Hp; subst p'. cbn in *. intros [|] z; cbn.
  - unfold remote_models in *. destruct (p_pending p).
    + destruct M3 as (r & t & diff & Hr & Hrh & Hth & _). destruct M3' as (r' & t' & diff' & -> & Hrh' & Hth' & _).
      pose proof (Hroom true r) as R1. pose proof (Hroom true t) as R2. cbn in R1, R2. rewrite Hr in R1, R2.
      specialize (R1 ltac:(set_solver)). specialize (R2 ltac:(set_solver)).
      rewrite !elem_of_cons. intros [->|[->|[]%elem_of_nil]]; lia.
    + destruct M3 as [(r & Hr & Hrh) _]. destruct M3' as [(r' & -> & Hrh') _].
      pose proof (Hroom true r) as R1. cbn in R1. rewrite Hr in R1. specialize (R1 ltac:(set_solver)).
      intros ->%list_elem_of_singleton. lia.
  - rewrite Hc'. destruct l'; [|done]. intros ->%list_elem_of_singleton.
    pose proof (Hroom false c) as R. cbn in R. rewrite Hc in R. specialize (R ltac:(set_solver)).
    destruct Hch, Hch'. lia.
Qed.

Lemma filter_updates (P : chanMsg -> bool) l :
  (forall u, P (MUpdate u) = false) ->
  filter (fun m => P m = true) ((fun u => MUpdate (UpdateMsg u)) <$> l) = [].
Proof. intros HP. apply filter_none. apply Forall_fmap, Forall_true. intros u. cbn. by rewrite HP. Qed.

Lemma filter_retransmit b l :
  Forall (fun m => is_commitment m = true) l ->
  filter (fun m => is_commitment m = true) (flat_map (retransmit b) l) = l.
Proof.
  induction 1 as [|m l Hm _ IH]; [done|]. cbn [flat_map]. rewrite filter_app, IH.
  destruct m as [u|s|r]; [done| |done]. cbn [retransmit].
  destruct (db_commitDiff b); rewrite ?filter_app, ?filter_updates; done.
Qed.

Lemma owed_commitments ix x y :
  (forall m, p_pending x = Some m -> is_sig m) -> Forall (fun m => is_commitment m = true) (owed ix x y).
Proof.
  intros H.
  assert (Forall (fun m => is_commitment m = true) (owedSig x y)).
  { eapply Forall_impl; [by apply owedSig_sig|]. by intros [] ?. }
  assert (Forall (fun m => is_commitment m = true) (owedRev ix x y)).
  { unfold owedRev. case_bool_decide; [|constructor]. destruct (id_rev _ _); by repeat constructor. }
  unfold owed. destruct (p_last x); by apply Forall_app.
Qed.

(** A resynchronised end has sent what was lost, and possibly signed. *)
Lemma resync_models dbOk iy msg lc e x y p q :
  models lc (s_peer x) -> height_room lc -> Both (ident_of (cfg lc)) iy x y ->
  peer_step (ident_of (cfg lc)) (s_peer x) LReload p -> peer_step iy (s_peer y) LReload q ->
  sync_of iy q msg -> resync dbOk lc msg = Some e ->
  cfg (e_chan e) = cfg lc /\
  (end_models e (reconnect x y p) \/
   exists m p', peer_step (ident_of (cfg lc)) p (LSign m) p' /\
     end_models e (mkSide p' [] (s_got y ++ s_out x ++ [m]))).
Proof.
  intros Hm Hroom HB Hp Hq Hmsg H. unfold resync in H. destruct (reload lc) as [lc'| |] eqn:Hr; [|done..].
  destruct (reload_step _ _ _ Hm Hr) as (p0 & Hp0 & Hm' & Hcfg).
  assert (p0 = p) as -> by (inversion Hp; inversion Hp0; by subst).
  pose proof (reconnect_both _ _ _ _ _ _ Hp Hq HB) as HB'.
  pose proof (room_reload _ _ _ _ Hm Hp Hm' Hroom) as Hroom'.
  assert (oc_LastWasRevoke (fetchOpenChannel lc) = p_last p) as Hlast.
  { inversion Hp. cbn. by destruct (mo_db _ _ Hm) as (_ & _ & _ & ?). }
  rewrite <- Hcfg in HB'. pose proof (sync_answers dbOk iy msg lc' (reconnect x y p) (reconnect y x q) Hm' Hroom' HB' Hmsg) as HA.
  rewrite Hlast in H. cbn [s_peer reconnect] in HA.
  destruct (ProcessChanSyncMsg _ _ _ _) as [[[[msgs o] c]|e0|] lc'']; [|done..]. injection H as <-.
  destruct HA as (extra & -> & HA). rewrite filter_app, filter_retransmit by
    (apply owed_commitments, (d_sig _ _ _ (proj1 HB'))).
  pose proof (d_lost _ _ _ (proj1 HB')) as Hl. cbn in Hl. rewrite <- Hl.
  destruct HA as [[-> Hf]|(_ & sig & hs & htlcs & Hs & ->)].
  - split; [destruct Hf as (? & ? & ? & ->); by rewrite <- Hcfg|]. left.
    split; [by eapply models_framed|]. split; [done|]. cbn. by rewrite app_nil_r.
  - destruct (sign_step _ _ _ _ _ _ _ Hm' Hroom' Hs) as (p' & Hps & Hm'' & Hcfg').
    split; [cbn [e_chan]; by rewrite Hcfg', Hcfg|]. right. rewrite Hcfg in Hps.
    eexists _, p'. split; [exact Hps|]. split; [done|]. split; [done|]. cbn. by rewrite app_assoc.
Qed.

(** The message of a peer that is about to be loaded again. *)
Lemma reload_sync lc p p' msg :
  models lc p -> p_remote p = Z.of_nat (length (p_secrets p)) ->
  peer_step (ident_of (cfg lc)) p LReload p' ->
  ChanSyncMsg (fetchOpenChannel lc) = Ok msg -> sync_of (ident_of (cfg lc)) p' msg.
Proof.
  intros Hm Hlen Hp Hmsg.
  assert (AtIndex (p_local p) <> None) as Hat.
  { intros Hn. unfold ChanSyncMsg in Hmsg. apply obind_ok_inv in Hmsg as (sec & _ & Hmsg).
    cbn [oc_LocalCommitment fetchOpenChannel] in Hmsg. destruct (mo_db _ _ Hm) as (Hl & _).
    by rewrite Hl, Hn in Hmsg. }
  destruct (ChanSyncMsg_sync _ _ Hm Hat Hlen) as (msg' & Hmsg' & Hs). rewrite Hmsg in Hmsg'.
  injection Hmsg' as <-. inversion Hp. by subst.
Qed.

(** ** Opening *)

Definition open_peer (lc : LightningChannel) : peer :=
  mkPeer 0 0 0 None (db_lastWasRevoke (bucket lc)) [] (RemoteCurrentRevocation (revocation lc))
    (RemoteNextRevocation (revocation lc)).

Lemma opened_models lc :
  opened lc -> isRestored lc = false -> stored (RevocationStore (revocation lc)) = [] ->
  models lc (open_peer lc).
Proof.
  intros [_ _ Hh (l & r & Hl & Hr & Hz & _ & _ & _ & _ & _ & _ & Dl & Dr) (Bl & Br & Bd & _ & Bv)] Hres Hst.
  apply Forall_cons in Hz as [(Hl0 & _) Hz]. apply Forall_cons in Hz as [(Hr0 & _) _].
  split; cbn [open_peer p_local p_received p_remote p_pending p_last p_secrets p_cur p_next]; try done.
  - exists l, []. by split_and!.
  - split; [by exists r|done].
  - rewrite Bl, Br, Dl, Dr. by split_and!.
Qed.

End endpoint.

(** ** The answer of one end *)

Section resend.
Context {BT : Btcec}.
Context {E1 : @ChanEnv BT} {S1 : @SyncEnv BT E1} {L1 : @SyncLaws BT E1 S1}.
Context {E2 : @ChanEnv BT} {S2 : @SyncEnv BT E2} {L2 : @SyncLaws BT E2 S2}.

(** One end, loaded again, answers the other end's message with what was lost. *)
Definition resends (lc1 : @LightningChannel BT E1) (lc2 : @LightningChannel BT E2)
    (lost : list chanMsg) : Prop :=
  exists msg, ChanSyncMsg (fetchOpenChannel lc2) = Ok msg /\
    forall lc1' dbOk, reload lc1 = Ok lc1' ->
      answers dbOk lost lc1' (ProcessChanSyncMsg (oc_LastWasRevoke (fetchOpenChannel lc1)) dbOk msg lc1').

Lemma reload_message (lc2 lc2' : @LightningChannel BT E2) p :
  models lc2 p -> p_remote p = Z.of_nat (length (p_secrets p)) -> reload lc2 = Ok lc2' ->
  exists msg, ChanSyncMsg (fetchOpenChannel lc2) = Ok msg /\ sync_of (ident_of (E := E2) (cfg lc2)) p msg.
Proof.
  intros Hm Hlen Hr. apply ChanSyncMsg_sync; [done| |done].
  destruct (reload_inv _ _ Hr) as (_ & _ & _ & _ & _ & _ & _ & _ & Hcur & Hat & _).
  destruct (mo_db _ _ Hm) as (Hl & _). by rewrite Hcur, Hl in Hat.
Qed.

Lemma reload_current (lc2 lc2' : @LightningChannel BT E2) p :
  models lc2 p -> reload lc2 = Ok lc2' ->
  exists secret, AtIndex (currentHeight lc2) = Some secret /\
    id_pt (ident_of (E := E2) (cfg lc2)) (p_local p) = Some (ComputeCommitmentPoint secret).
Proof.
  intros Hm Hr. destruct (reload_inv _ _ Hr) as (_ & _ & _ & _ & _ & _ & _ & _ & Hcur & Hat & _).
  destruct (mo_db _ _ Hm) as (Hl & _). rewrite Hcur, Hl in Hat. rewrite (mo_height _ _ Hm). cbn.
  rewrite u64_id by apply (mo_bounds _ _ Hm). destruct (AtIndex (p_local p)) as [secret|]; [|done].
  by exists secret.
Qed.

Lemma resends_owed (lc1 : @LightningChannel BT E1) (lc2 lc2' : @LightningChannel BT E2) x y :
  models lc1 (s_peer x) -> models lc2 (s_peer y) -> height_room lc1 -> reload lc2 = Ok lc2' ->
  Both (ident_of (E := E1) (cfg lc1)) (ident_of (E := E2) (cfg lc2)) x y ->
  resends lc1 lc2 (owed (ident_of (E := E1) (cfg lc1)) (s_peer x) (s_peer y)).
Proof.
  intros M1 M2 Hroom Hr2 HB.
  destruct (reload_message _ _ _ M2 (d_secrets _ _ _ (proj1 HB)) Hr2) as (msg & Hmsg & Hs).
  exists msg. split; [done|]. intros lc1' dbOk Hr.
  destruct (reload_step _ _ _ M1 Hr) as (p & Hp & M1' & Hcfg).
  pose proof (ps_reload (ident_of (E := E2) (cfg lc2)) (s_peer y)) as Hq.
  pose proof (reconnect_both _ _ _ _ _ _ Hp Hq HB) as HB'.
  pose proof (room_reload _ _ _ _ M1 Hp M1' Hroom) as Hroom'. rewrite <- Hcfg in HB' |- *.
  pose proof (sync_answers dbOk _ msg lc1' (reconnect x y p) (reconnect y x _) M1' Hroom' HB' Hs) as HA.
  assert (oc_LastWasRevoke (fetchOpenChannel lc1) = p_last p) as ->.
  { inversion Hp. cbn. by destruct (mo_db _ _ M1) as (_ & _ & _ & ?). }
  inversion Hp. subst p. exact HA.
Qed.

End resend.

(** ** The system *)

Section net.
Context {BT : Btcec}.
Context {EA : @ChanEnv BT} {SA : @SyncEnv BT EA} {LA : @SyncLaws BT EA SA}.
Context {EB : @ChanEnv BT} {SB : @SyncEnv BT EB} {LB : @SyncLaws BT EB SB}.

Record net := mkNet { n_a : @endpoint BT EA; n_b : @endpoint BT EB }.

Definition chanA (n : net) : @LightningChannel BT EA := e_chan (n_a n).
Definition chanB (n : net) : @LightningChannel BT EB := e_chan (n_b n).

Definition identA (n : net) : ident := ident_of (E := EA) (cfg (chanA n)).
Definition identB (n : net) : ident := ident_of (E := EB) (cfg (chanB n)).

Inductive net_step (n : net) : net -> Prop :=
  | ns_a e q :
      height_room (chanA n) -> end_step (NextRevocationKey (chanB n)) (n_a n) (e_out (n_b n)) e q ->
      net_step n (mkNet e (mkEnd (chanB n) (e_got (n_b n)) q))
  | ns_b e q :
      height_room (chanB n) -> end_step (NextRevocationKey (chanA n)) (n_b n) (e_out (n_a n)) e q ->
      net_step n (mkNet (mkEnd (chanA n) (e_got (n_a n)) q) e)
  | ns_reconnect dbA dbB msgA msgB ea eb :
      height_room (chanA n) -> height_room (chanB n) ->
      ChanSyncMsg (fetchOpenChannel (chanA n)) = Ok msgA ->
      ChanSyncMsg (fetchOpenChannel (chanB n)) = Ok msgB ->
      resync dbA (chanA n) msgB = Some ea -> resync dbB (chanB n) msgA = Some eb ->
      net_step n (mkNet ea eb).

Inductive net_reachable (n0 : net) : net -> Prop :=
  | nr_refl : net_reachable n0 n0
  | nr_step n n' : net_reachable n0 n -> net_step n n' -> net_reachable n0 n'.

(** The messages of A that B has not stored, in the order they were sent, and the
    other way round: what is lost with the connection. *)
Definition lostAB (n : net) : list chanMsg := e_got (n_b n) ++ e_out (n_a n).
Definition lostBA (n : net) : list chanMsg := e_got (n_a n) ++ e_out (n_b n).

(** A freshly opened channel: nothing revoked, and the keys each end has of the
    other are those of the first two heights. *)
Definition knows_keys (rev : option pubkey * option pubkey) (i : ident) : Prop :=
  (forall k, rev.1 = Some k -> id_pt i 0 = Some k) /\ (forall k, rev.2 = Some k -> id_pt i 1 = Some k).

Record net_open (n : net) : Prop := {
  no_a : opened (chanA n) /\ isRestored (chanA n) = false;
  no_b : opened (chanB n) /\ isRestored (chanB n) = false;
  no_secrets : stored (RevocationStore (revocation (chanA n))) = [] /\
    stored (RevocationStore (revocation (chanB n))) = [];
  no_keysA : knows_keys (RemoteCurrentRevocation (revocation (chanA n)),
    RemoteNextRevocation (revocation (chanA n))) (identB n);
  no_keysB : knows_keys (RemoteCurrentRevocation (revocation (chanB n)),
    RemoteNextRevocation (revocation (chanB n))) (identA n);
  no_queues : e_got (n_a n) = [] /\ e_out (n_a n) = [] /\ e_got (n_b n) = [] /\ e_out (n_b n) = [];
}.

(** ** The protocol of SyncProtocol.v *)

Definition net_models (n : net) (x y : side) : Prop :=
  end_models (n_a n) x /\ end_models (n_b n) y /\
  Both (identA n) (identB n) x y.

Lemma open_models n :
  net_open n -> exists x y, net_models n x y.
Proof.
  intros [[Oa Ra] [Ob Rb] [Sa Sb] [Ka1 Ka2] [Kb1 Kb2] (Q1 & Q2 & Q3 & Q4)].
  exists (mkSide (open_peer (chanA n)) [] []), (mkSide (open_peer (chanB n)) [] []).
  split; [split; [by apply opened_models|by rewrite Q1, Q2]|].
  split; [split; [by apply opened_models|by rewrite Q3, Q4]|].
  split; (split; cbn [s_peer s_got s_out open_peer p_local p_remote p_pending p_received p_secrets p_cur p_next];
    try done; [by left|unfold owed; cbn; by destruct (db_lastWasRevoke _)]).
Qed.

Lemma Both_sym {ix iy x y} : Both ix iy x y -> Both iy ix y x.
Proof. by intros [D D']. Qed.

(** A signature on top of what was sent again. *)
Lemma extend_both {ix iy} x y m (p : peer) :
  ident_ok iy -> Both ix iy x y -> s_got x = [] -> peer_step ix (s_peer x) (LSign m) p ->
  Both ix iy (mkSide p [] (s_out x ++ [m])) y.
Proof.
  intros Hid HB Hg Hp. pose proof (act_sign ix iy x y m p Hp) as Ha. rewrite Hg in Ha.
  by eapply act_both.
Qed.

Lemma net_step_models n n' x y :
  net_step n n' -> net_models n x y -> exists x' y', net_models n' x' y'.
Proof.
  intros Hs (Ma & Mb & HB). pose proof (ident_of_ok (E := EA) (cfg (chanA n))) as Ia.
  pose proof (ident_of_ok (E := EB) (cfg (chanB n))) as Ib.
  destruct Hs as [e q Hroom Hs|e q Hroom Hs|dbA dbB msgA msgB ea eb Ra Rb Sa Sb Ea Eb].
  - assert (forall k, NextRevocationKey (chanB n) = Ok k ->
      id_pt (identB n) (p_local (s_peer y) + 1) = Some k) as Hk
      by (intros k; apply NextRevocationKey_ident, Mb).
    destruct (end_step_act _ _ _ _ _ _ x y Ma Hroom (proj2 (proj2 Mb)) Hk Hs) as (x' & Hact & Me & Hc).
    exists x', (mkSide (s_peer y) (s_got y) q). split; [exact Me|].
    split; [split; [apply Mb|]; split; [apply Mb|done]|]. unfold identA, identB, chanA, chanB in *. cbn [n_a n_b e_chan] in *.
    rewrite Hc. eapply act_both; [exact Ib|exact Hact|exact HB].
  - assert (forall k, NextRevocationKey (chanA n) = Ok k ->
      id_pt (identA n) (p_local (s_peer x) + 1) = Some k) as Hk
      by (intros k; apply NextRevocationKey_ident, Ma).
    destruct (end_step_act _ _ _ _ _ _ y x Mb Hroom (proj2 (proj2 Ma)) Hk Hs) as (y' & Hact & Me & Hc).
    exists (mkSide (s_peer x) (s_got x) q), y'. split; [split; [apply Ma|]; split; [apply Ma|done]|].
    split; [exact Me|]. unfold identA, identB, chanA, chanB in *. cbn [n_a n_b e_chan] in *.
    rewrite Hc. apply Both_sym. eapply act_both; [exact Ia|exact Hact|by apply Both_sym].
  - assert (exists px, peer_step (identA n) (s_peer x) LReload px) as [px Hpx] by by eexists; constructor.
    assert (exists py, peer_step (identB n) (s_peer y) LReload py) as [py Hpy] by by eexists; constructor.
    pose proof (reconnect_both _ _ _ _ _ _ Hpx Hpy HB) as HB'.
    destruct (resync_models dbA (identB n) msgB (chanA n) ea x y px py (proj1 Ma) Ra HB Hpx Hpy)
      as [Ca Na]; [eapply reload_sync; [apply Mb|apply (d_secrets _ _ _ (proj1 HB))|exact Hpy|exact Sb]|done|].
    destruct (resync_models dbB (identA n) msgA (chanB n) eb y x py px (proj1 Mb) Rb
      (Both_sym HB) Hpy Hpx) as [Cb Nb]; [eapply reload_sync; [apply Ma|apply (d_secrets _ _ _ (proj2 HB))|exact Hpx|exact Sa]|done|].
    unfold net_models, identA, identB, chanA, chanB in *. cbn [n_a n_b]. rewrite Ca, Cb.
    assert (exists x', end_models ea x' /\
      Both (ident_of (E := EA) (cfg (e_chan (n_a n)))) (ident_of (E := EB) (cfg (e_chan (n_b n)))) x' (reconnect y x py)) as (x' & Mx & Bx).
    { destruct Na as [Na|(m & p' & Hps & Na)]; [by eexists|]. eexists. split; [exact Na|]. rewrite app_assoc.
      by apply (extend_both (reconnect x y px)). }
    destruct Nb as [Nb|(m & p' & Hps & Nb)]; [by exists x', (reconnect y x py)|].
    exists x'. eexists. split; [exact Mx|]. split; [exact Nb|]. rewrite app_assoc. apply Both_sym.
    apply (extend_both (reconnect y x py)); [done| |done..]. by apply Both_sym.
Qed.

Lemma net_reachable_models n0 n : net_open n0 -> net_reachable n0 n -> exists x y, net_models n x y.
Proof.
  intros Ho Hr. induction Hr as [|n n' _ IH Hs]; [by apply open_models|].
  destruct IH as (x & y & Hxy). by eapply net_step_models.
Qed.

(** What a lost connection takes with it is what is owed. *)
Lemma net_models_lost n x y :
  net_models n x y ->
  lostAB n = owed (identA n) (s_peer x) (s_peer y) /\ lostBA n = owed (identB n) (s_peer y) (s_peer x).
Proof.
  intros ((_ & Ga & Oa) & (_ & Gb & Ob) & [D D']). unfold lostAB, lostBA.
  rewrite <- Ga, <- Oa, <- Gb, <- Ob. split; [apply (d_lost _ _ _ D)|apply (d_lost _ _ _ D')].
Qed.

End net.
