(* ===== verification/SyncTheorems.v ===== *)
(** * lnwallet: two concrete channels

    The two ends of a bitcoin channel over the concrete environment of
    ChannelModel.v, and an interpreter of runs of the system of SyncNet.v: the
    inputs at which the theorems about re-establishing a channel are evaluated.

    The theorems follow, evaluated at these two channels. *)

From Stdlib Require Import ZArith Lia.
From S2P Require Import Prelude Wire WireMessages WireModels Amounts OpReturn UpdateLog.
From S2P Require Import CommitTx ChannelState ChannelModel ChannelView ViewLemmas ChannelOps ChannelInv ChannelReach.
From S2P Require Import ChannelSync SyncProtocol SyncRefine SyncAnswer SyncNet.

Local Open Scope Z_scope.
Local Open Scope go_scope.

(** ** The environment *)

Definition sync_model : @SyncEnv btcec_model chan_model := {|
  LookUp := fun (store : @revStore btcec_model chan_model) i => rev store !! Z.to_nat i;
|}.

Lemma sync_model_laws : @SyncLaws btcec_model chan_model sync_model.
Proof.
  refine {| stored := fun (store : @revStore btcec_model chan_model) => rev store |}.
  - intros s i. cbn. by rewrite Nat2Z.id.
  - intros s h s' [= <-]. done.
  - intros i s [= <-]. apply length_be_put.
  - intros p. cbn. by apply bool_decide_eq_true_2.
Defined.

(** ** Runs *)

Section exec.
Context {BT : Btcec} {E : ChanEnv} {S : SyncEnv}.

(** What an end can be told to do: an update of a log, a signature, a revocation,
    or taking the first message that has arrived. *)
Inductive cmd : Type :=
  | CUpdate (o : op)
  | CSign
  | CRevoke
  | CReceive.

Definition end_exec (c : cmd) (e : endpoint) (inq : list chanMsg) : option (endpoint * list chanMsg) :=
  let lc := e_chan e in
  match c with
  | CUpdate o => if is_update o then Some (mkEnd (run o lc).2 (e_got e) (e_out e), inq) else None
  | CSign =>
      match SignNextCommitment true lc with
      | (Ok (sig, htlcSigs, _), lc') =>
          Some (mkEnd lc' (e_got e) (e_out e ++ [commitSigMsg (chanIDOf lc) sig htlcSigs]), inq)
      | _ => None
      end
  | CRevoke =>
      match RevokeCurrentCommitment true lc with
      | (Ok (m, _), lc') => Some (mkEnd lc' (tail (e_got e)) (e_out e ++ [MRevoke m]), inq)
      | _ => None
      end
  | CReceive =>
      match inq with
      | MCommitSig m :: l =>
          match ReceiveNewCommitment (CommitSig.CommitSig_ m) (CommitSig.HtlcSigs m) lc with
          | (Ok tt, lc') => Some (mkEnd lc' (e_got e ++ [MCommitSig m]) (e_out e), l)
          | _ => None
          end
      | MRevoke m :: l =>
          match ReceiveRevocation true m lc with
          | (Ok _, lc') => Some (mkEnd lc' (e_got e) (e_out e), l)
          | _ => None
          end
      | _ => None
      end
  end.

Definition heights_check (lc : LightningChannel) : bool :=
  forallb (fun c => bool_decide (Commitment.height c + 1 < 2 ^ 64))
    (localCommitChain lc ++ remoteCommitChain lc).

Lemma heights_check_ok lc : heights_check lc = true -> height_room lc.
Proof.
  unfold heights_check. rewrite forallb_forall. intros H rc c Hc.
  apply (bool_decide_eq_true_1 _), H. apply list_elem_of_In, elem_of_app.
  destruct rc; cbn in Hc; tauto.
Qed.

Lemma end_exec_ok nextKey c e inq e' q :
  end_exec c e inq = Some (e', q) -> end_step nextKey e inq e' q.
Proof.
  destruct c as [o| | |]; cbn [end_exec].
  - destruct (is_update o) eqn:Ho; [|done]. intros [= <- <-]. apply es_update.
    destruct (run o (e_chan e)) as [r lc'] eqn:Hr. by eapply cs_update.
  - destruct (SignNextCommitment true _) as [[[[sig hs] htlcs]| |] lc'] eqn:Hs; [|done..]. intros [= <- <-].
    apply es_sign. by eapply cs_sign.
  - destruct (RevokeCurrentCommitment true _) as [[[m htlcs]| |] lc'] eqn:Hs; [|done..]. intros [= <- <-].
    apply es_revoke. by eapply cs_revoke.
  - destruct inq as [|[u|m|m] l]; [done|done| |].
    + destruct (ReceiveNewCommitment _ _ _) as [[[]| |] lc'] eqn:Hs; [|done..]. intros [= <- <-].
      eapply es_getsig; [done|by apply cs_getsig].
    + destruct (ReceiveRevocation true m _) as [[res| |] lc'] eqn:Hs; [|done..]. intros [= <- <-].
      eapply es_getrev; [done|by eapply cs_getrev].
Qed.

End exec.

Section exec_net.
Context {BT : Btcec}.
Context {EA : @ChanEnv BT} {SA : @SyncEnv BT EA}.
Context {EB : @ChanEnv BT} {SB : @SyncEnv BT EB}.

Inductive net_cmd : Type :=
  | AtA (c : @cmd BT)
  | AtB (c : @cmd BT)
  | Reconnect.

Definition net_exec (c : net_cmd) (n : @net BT EA EB) : option (@net BT EA EB) :=
  match c with
  | AtA c =>
      if heights_check (chanA n) then
        match end_exec c (n_a n) (e_out (n_b n)) with
        | Some (e, q) => Some (mkNet e (mkEnd (chanB n) (e_got (n_b n)) q))
        | None => None
        end
      else None
  | AtB c =>
      if heights_check (chanB n) then
        match end_exec c (n_b n) (e_out (n_a n)) with
        | Some (e, q) => Some (mkNet (mkEnd (chanA n) (e_got (n_a n)) q) e)
        | None => None
        end
      else None
  | Reconnect =>
      if heights_check (chanA n) && heights_check (chanB n) then
        match ChanSyncMsg (fetchOpenChannel (chanA n)), ChanSyncMsg (fetchOpenChannel (chanB n)) with
        | Ok msgA, Ok msgB =>
            match resync true (chanA n) msgB, resync true (chanB n) msgA with
            | Some ea, Some eb => Some (mkNet ea eb)
            | _, _ => None
            end
        | _, _ => None
        end
      else None
  end.

Fixpoint net_run (l : list net_cmd) (n : @net BT EA EB) : option (@net BT EA EB) :=
  match l with
  | [] => Some n
  | c :: l' => match net_exec c n with Some n' => net_run l' n' | None => None end
  end.

Lemma net_exec_ok c n n' : net_exec c n = Some n' -> net_step n n'.
Proof.
  destruct c as [c|c|]; cbn [net_exec].
  - destruct (heights_check (chanA n)) eqn:Hh; [|done]. destruct (end_exec _ _ _) as [[e q]|] eqn:He; [|done].
    intros [= <-]. apply ns_a; [by apply heights_check_ok|by apply (end_exec_ok _ c)].
  - destruct (heights_check (chanB n)) eqn:Hh; [|done]. destruct (end_exec _ _ _) as [[e q]|] eqn:He; [|done].
    intros [= <-]. apply ns_b; [by apply heights_check_ok|by apply (end_exec_ok _ c)].
  - destruct (heights_check (chanA n) && _) eqn:Hh; [|done]. apply andb_true_iff in Hh as [Ha Hb].
    destruct (ChanSyncMsg (fetchOpenChannel (chanA n))) as [msgA| |] eqn:Sa; [|done..].
    destruct (ChanSyncMsg (fetchOpenChannel (chanB n))) as [msgB| |] eqn:Sb; [|done..].
    destruct (resync true (chanA n) msgB) as [ea|] eqn:Ra; [|done].
    destruct (resync true (chanB n) msgA) as [eb|] eqn:Rb; [|done]. intros [= <-].
    by eapply ns_reconnect; try by apply heights_check_ok.
Qed.

Lemma net_run_reachable l : forall n0 n n',
  net_reachable n0 n -> net_run l n = Some n' -> net_reachable n0 n'.
Proof.
  induction l as [|c l IH]; intros n0 n n' Hn; cbn [net_run]; [by intros [= <-]|].
  destruct (net_exec c n) as [n1|] eqn:He; [|done]. apply IH.
  eapply nr_step; [exact Hn|by apply net_exec_ok in He].
Qed.

End exec_net.

(** ** A channel between two peers *)

(** The other end of [btc_channel]. *)
Definition peer_cfg : ChanCfg :=
  {| ChanType := ChanType example_cfg; ChanAssetID := ChanAssetID example_cfg; IsInitiator := false;
     BtcCapacity := BtcCapacity example_cfg; LocalChanCfg := RemoteChanCfg example_cfg;
     RemoteChanCfg := LocalChanCfg example_cfg;
     LocalShutdownScript := RemoteShutdownScript example_cfg;
     RemoteShutdownScript := LocalShutdownScript example_cfg; ThawHeight := ThawHeight example_cfg;
     FundingOutpoint := FundingOutpoint example_cfg; obfuscator := obfuscator example_cfg |}.

#[local] Existing Instance btcec_model.
#[local] Existing Instance chan_model.
#[local] Existing Instance sync_model.

Definition btc_net : @net btcec_model chan_model chan_model :=
  mkNet (mkEnd btc_channel [] []) (mkEnd (open_channel peer_cfg 35000000 64817000 183 0 0) [] []).

Definition sync_add : UpdateAddHTLC.t :=
  {| UpdateAddHTLC.ChanID := replicate 32 x00; UpdateAddHTLC.ID := 0; UpdateAddHTLC.AssetID := 0;
     UpdateAddHTLC.Amount := 5000000; UpdateAddHTLC.PaymentHash := replicate 32 x05;
     UpdateAddHTLC.Expiry := 100; UpdateAddHTLC.OnionBlob := replicate 1366 x00;
     UpdateAddHTLC.ExtraData := [] |}.

(** A adds an HTLC and signs; the connection is lost before B gets either; after
    the reconnection B takes both, revokes and signs, and the connection is lost
    again. *)
Definition lossy_run : list (@net_cmd btcec_model) :=
  [AtA (CUpdate (OpAddHTLC sync_add None)); AtA CSign; Reconnect;
   AtB (CUpdate (OpReceiveHTLC sync_add)); AtB CReceive; AtB CRevoke; AtB CSign].

(** The dance is finished: both ends are at height one. *)
Definition full_run : list (@net_cmd btcec_model) :=
  lossy_run ++ [AtA CReceive; AtA CReceive; AtA CRevoke; AtB CReceive].

#[local] Existing Instance sync_model_laws.

Lemma btc_net_open : net_open btc_net.
Proof.
  split; [split; [apply opened_channel|done]..|done| | |done];
    split; cbn; intros k [= <-]; reflexivity.
Qed.

(** * lnwallet: what re-establishing a channel guarantees

    The theorems about two connected channels over any number of lost
    connections, evaluated on a concrete run. *)

(** ** Concrete runs *)

#[local] Existing Instance btcec_model.
#[local] Existing Instance chan_model.
#[local] Existing Instance sync_model.
#[local] Existing Instance sync_model_laws.

(** The state a run leaves. *)
Definition net_after (l : list (@net_cmd btcec_model)) : @net btcec_model chan_model chan_model :=
  default btc_net (net_run l btc_net).

Definition loaded (lc : LightningChannel) : LightningChannel :=
  match reload lc with Ok lc' => lc' | _ => lc end.

Definition runs (l : list (@net_cmd btcec_model)) : bool :=
  match net_run l btc_net with Some _ => true | None => false end.

Definition loads (lc : LightningChannel) : bool :=
  match reload lc with Ok _ => true | _ => false end.

Lemma net_after_reachable l : runs l = true -> net_reachable btc_net (net_after l).
Proof.
  unfold runs, net_after. destruct (net_run l btc_net) as [n|] eqn:H; [|done]. intros _.
  eapply net_run_reachable; [constructor|exact H].
Qed.

Lemma loads_ok lc : loads lc = true -> reload lc = Ok (loaded lc).
Proof. unfold loads, loaded. by destruct (reload lc). Qed.

(** ** Theorems *)

Section theorems.
Context {BT : Btcec}.
Context {EA : @ChanEnv BT} {SA : @SyncEnv BT EA} {LA : @SyncLaws BT EA SA}.
Context {EB : @ChanEnv BT} {SB : @SyncEnv BT EB} {LB : @SyncLaws BT EB SB}.

(** C39: A lost connection loses nothing.  Two channels opened with each other
    exchange updates, signatures and revocations; connections are lost and set up
    again any number of times.  Whenever a connection is lost and both ends can be
    loaded from their databases, each end answers the other's
    channel_reestablish with exactly the signatures and revocations that the other
    end has not stored, in the order they were first sent, a signature preceded by
    the updates of its commitment; a new signature follows only if a revocation was
    lost, and the only possible errors are those of making it. *)
Theorem resync_resends_lost (n0 n : @net BT EA EB) lcA lcB :
  net_open n0 -> net_reachable n0 n -> height_room (chanA n) -> height_room (chanB n) ->
  reload (chanA n) = Ok lcA -> reload (chanB n) = Ok lcB ->
  resends (chanA n) (chanB n) (lostAB n) /\ resends (chanB n) (chanA n) (lostBA n).
Proof.
  intros Ho Hn Ra Rb La Lb.
  destruct (net_reachable_models _ _ Ho Hn) as (x & y & Hxy).
  destruct (net_models_lost _ _ _ Hxy) as [-> ->]. destruct Hxy as ((Ma & _) & (Mb & _) & HB).
  split; [by eapply resends_owed|]. eapply resends_owed; [done..|]. by apply Both_sym.
Qed.

(** C40: A channel restored from an old copy of its database does no harm.  If A is
    loaded from a state whose commitment is older than the one B holds A to, then
    A stops with the data-loss error that carries B's current commitment point,
    whatever the flags, and changes nothing; and B never answers A's message. *)
Theorem stale_channel_stops (n0 n1 n : @net BT EA EB) old lcB :
  net_open n0 -> net_reachable n0 n1 -> net_reachable n0 n ->
  reload (chanA n1) = Ok old -> reload (chanB n) = Ok lcB ->
  currentHeight old < CommitHeight (db_remoteCommitment (bucket (chanB n))) ->
  exists msg secret,
    ChanSyncMsg (fetchOpenChannel (chanB n)) = Ok msg /\
    AtIndex (currentHeight (chanB n)) = Some secret /\
    (forall lastRev dbOk, ProcessChanSyncMsg lastRev dbOk msg old =
       (Err (ErrCommitSyncLocalDataLoss (FundingOutpoint (cfg old)) (Some (ComputeCommitmentPoint secret))),
        old)) /\
    (forall msgA lastRev dbOk res, ChanSyncMsg (fetchOpenChannel (chanA n1)) = Ok msgA ->
       (ProcessChanSyncMsg lastRev dbOk msgA lcB).1 <> Ok res).
Proof.
  intros Ho H1 Hn Hold HB Hlt.
  destruct (net_reachable_models _ _ Ho H1) as (x1 & y1 & (M1 & _) & _ & B1).
  destruct (net_reachable_models _ _ Ho Hn) as (x & y & _ & (M & _) & B).
  destruct (reload_step _ _ _ M1 Hold) as (p & Hp & Mp & _).
  destruct (reload_step _ _ _ M HB) as (q & Hq & Mq & _).
  destruct (models_tails _ _ Mp) as (l & r & t & Hl & Hlh & Hr & _ & _ & Ht & _).
  destruct (models_tails _ _ Mq) as (_ & r' & _ & _ & _ & Hr' & Hrh' & _).
  destruct (mo_db _ _ M) as (_ & Hrem & _). unfold chanB in Hlt. rewrite Hrem, (mo_height _ _ Mp) in Hlt.
  destruct (reload_message _ _ _ M (d_secrets _ _ _ (proj1 B)) HB) as (msg & Hmsg & Hs).
  destruct (reload_current _ _ _ M HB) as (secret & Hsec & Hpt).
  destruct (mo_bounds _ _ Mp) as [Bp _]. destruct (mo_bounds _ _ M) as [_ By].
  exists msg, secret. split; [done|]. split; [done|]. split.
  - intros lastRev dbOk.
    pose proof (stale_answers (identB n) msg old (s_peer y) lastRev dbOk l Hs Hl) as HS.
    rewrite Hr, Ht, Hlh in HS. unfold identB, chanB in HS. rewrite Hpt in HS.
    apply HS; [done|done|apply (mo_restored _ _ Mp)|lia..|apply (d_secret _ _ _ (proj1 B))].
  - intros msgA lastRev dbOk res HA. eapply behind_refused; [exact Hr'|].
    destruct (reload_sync _ _ _ _ M1 (d_secrets _ _ _ (proj2 B1)) Hp HA) as (-> & _).
    inversion Hq. subst q. rewrite Hrh'. cbn [p_remote] in *. rewrite u64_id; [lia|unfold in_u; lia].
Qed.

End theorems.

(** B's revocation and signature are lost, and B sends both again. *)
Lemma resync_resends_lost_witness :
  let n := net_after lossy_run in
  (is_commitment <$> lostBA n = [true; true] /\ length (lostAB n) = 0%nat) /\
  resends (chanA n) (chanB n) (lostAB n) /\ resends (chanB n) (chanA n) (lostBA n).
Proof.
  intros n. split; [split; vm_compute; reflexivity|].
  apply (resync_resends_lost btc_net n (loaded (chanA n)) (loaded (chanB n)));
    [apply btc_net_open|apply net_after_reachable; vm_compute; reflexivity|
     apply heights_check_ok; vm_compute; reflexivity..|
     apply loads_ok; vm_compute; reflexivity|apply loads_ok; vm_compute; reflexivity].
Defined.

(** A is loaded from its first state after the channel has moved on. *)
Lemma stale_channel_stops_witness :
  let n := net_after full_run in
  let old := loaded (chanA btc_net) in
  exists msg secret, ChanSyncMsg (fetchOpenChannel (chanB n)) = Ok msg /\
    (ProcessChanSyncMsg false true msg old).1 =
      Err (ErrCommitSyncLocalDataLoss (FundingOutpoint (cfg old)) (Some (ComputeCommitmentPoint secret))).
Proof.
  intros n old.
  destruct (stale_channel_stops btc_net btc_net n old (loaded (chanB n)))
    as (msg & secret & Hmsg & _ & Hs & _);
    [apply btc_net_open|constructor|apply net_after_reachable; vm_compute; reflexivity|
     apply loads_ok; vm_compute; reflexivity|apply loads_ok; vm_compute; reflexivity|
     vm_compute; reflexivity|].
  exists msg, secret. split; [exact Hmsg|]. by rewrite Hs.
Defined.
