(* ===== verification/CircuitMap.v ===== *)
(** * htlcswitch: payment circuits

    Models htlcswitch/circuit.go, the circuit keys and add references of
    channeldb that a circuit holds, and the serialisation of the Sphinx error
    encrypter (htlcswitch/hop/error_encryptor.go).  The onion error encrypter
    behind an encrypter is a type of the Sphinx library (class [Sphinx]), as is
    its extraction from an ephemeral key.

    The map of the circuits (circuit_map.go) follows. *)

From Stdlib Require Import ZArith Lia.
From S2P Require Import Prelude Wire WireGossip WireModels UpdateLog Kvdb.

Local Open Scope Z_scope.
Local Open Scope go_scope.

(** ** Circuit keys (channeldb/channel.go) *)

#[global] Instance ShortChannelID_countable : Countable ShortChannelID.
Proof.
  apply (inj_countable' (fun c => (BlockHeight c, TxIndex c, TxPosition c))
    (fun x => mkShortChannelID x.1.1 x.1.2 x.2)). by intros [].
Defined.

#[global] Instance CircuitKey_eq_dec : EqDecision CircuitKey.
Proof. solve_decision. Defined.

#[global] Instance CircuitKey_countable : Countable CircuitKey.
Proof.
  apply (inj_countable' (fun k => (ChanID k, HtlcID k)) (fun x => mkCircuitKey x.1 x.2)). by intros [].
Defined.

Module CircuitKeys.

Definition Bytes (k : CircuitKey) : list byte := be_put 8 (ToUint64 (ChanID k)) ++ be_put 8 (HtlcID k).

Definition SetBytes (bs : list byte) : option CircuitKey :=
  if bool_decide (length bs <> 16%nat) then None
  else Some (mkCircuitKey (NewShortChanIDFromInt (be_get (take 8 bs))) (be_get (drop 8 bs))).

Definition Encode (k : CircuitKey) : writer := WriteBytes (Bytes k).

Definition Decode : reader CircuitKey :=
  scratch <-- ReadFull 16 ;
  rret (mkCircuitKey (NewShortChanIDFromInt (be_get (take 8 scratch))) (be_get (drop 8 scratch))).

End CircuitKeys.

Definition EmptyCircuitKey : CircuitKey := mkCircuitKey (mkShortChannelID 0 0 0) 0.

(** ** Add references (channeldb/forwarding_package.go) *)

Module AddRefs.

Definition Encode (a : AddRef) : writer := WriteUint64 (AddRef_Height a) ;;> WriteUint16 (AddRef_Index a).

Definition Decode : reader AddRef :=
  h <-- ReadUint64 ; i <-- ReadUint16 ; rret (mkAddRef h i).

End AddRefs.

(** ** Error encrypters (htlcswitch/hop/error_encryptor.go) *)

(** What a circuit can fail with. *)
Inductive circuit_err : Type :=
  | ErrUnknownCircuit
  | ErrCircuitClosing
  | ErrDuplicateKeystone
  | ErrInvalidCircuitKeyLen
  | ErrCircuitWire (e : wire_err)
  | ErrUnknownEncrypterType (t : Z)
  | ErrReextract (failcode : Z)
  | ErrIncorrectExtracter
  | ErrCircuitDB.

Definition EncrypterTypeNone : Z := 0.
Definition EncrypterTypeSphinx : Z := 1.
Definition CodeNone : Z := 0.

(** The encrypter of the Sphinx library and the extraction from a key: [None]
    when what is extracted is not a Sphinx encrypter. *)
Class Sphinx `{!Btcec} := {
  onionErrorEncrypter : Type;
  extract : pubkey -> option onionErrorEncrypter * Z;
}.

Section circuit.
Context {BT : Btcec} {SX : Sphinx}.

Record SphinxErrorEncrypter := mkSphinx {
  OnionErrorEncrypter : option onionErrorEncrypter;
  EphemeralKey : pubkey;
}.

Definition Reextract (s : SphinxErrorEncrypter) : outcome circuit_err SphinxErrorEncrypter :=
  let '(obfuscator, failcode) := extract (EphemeralKey s) in
  if bool_decide (failcode <> CodeNone) then Err (ErrReextract failcode)
  else match obfuscator with
       | None => Err ErrIncorrectExtracter
       | Some e => Ok (mkSphinx (Some e) (EphemeralKey s))
       end.

(** ** Payment circuits *)

Record PaymentCircuit := mkCircuit {
  Circuit_AddRef : AddRef;
  Incoming : CircuitKey;
  Outgoing : option CircuitKey;
  PaymentHash : list byte;
  IncomingAmount : Z;
  OutgoingAmount : Z;
  Circuit_AssetId : Z;
  ErrorEncrypter : option SphinxErrorEncrypter;
  LoadedFromDisk : bool;
}.

Definition set_outgoing (o : option CircuitKey) (c : PaymentCircuit) : PaymentCircuit :=
  {| Circuit_AddRef := Circuit_AddRef c; Incoming := Incoming c; Outgoing := o;
     PaymentHash := PaymentHash c; IncomingAmount := IncomingAmount c;
     OutgoingAmount := OutgoingAmount c; Circuit_AssetId := Circuit_AssetId c;
     ErrorEncrypter := ErrorEncrypter c; LoadedFromDisk := LoadedFromDisk c |}.

Definition HasKeystone (c : PaymentCircuit) : bool := bool_decide (Outgoing c <> None).

Definition InKey (c : PaymentCircuit) : CircuitKey := Incoming c.

Definition OutKey (c : PaymentCircuit) : CircuitKey :=
  match Outgoing c with Some k => k | None => EmptyCircuitKey end.

Definition encodeEncrypter (e : option SphinxErrorEncrypter) : writer :=
  match e with
  | None => WriteUint8 EncrypterTypeNone
  | Some s => WriteUint8 EncrypterTypeSphinx ;;> WriteBytes (SerializeCompressed (EphemeralKey s))
  end.

Definition Encode (c : PaymentCircuit) : writer :=
  AddRefs.Encode (Circuit_AddRef c) ;;>
  CircuitKeys.Encode (Incoming c) ;;>
  WriteBytes (PaymentHash c) ;;>
  WriteUint64 (IncomingAmount c) ;;>
  WriteUint64 (OutgoingAmount c) ;;>
  WriteUint32 (Circuit_AssetId c) ;;>
  encodeEncrypter (ErrorEncrypter c).

(** A parse error of the key is an error of the library. *)
Definition decodeEncrypter : reader (option (option SphinxErrorEncrypter) * Z) :=
  t <-- ReadUint8 ;
  if bool_decide (t = EncrypterTypeNone) then rret (Some None, t)
  else if bool_decide (t = EncrypterTypeSphinx) then
    k <-- ReadPublicKey ;
    match k with
    | Some key => rret (Some (Some (mkSphinx None key)), t)
    | None => rerr ErrNilPublicKey
    end
  else rret (None, t).

(** [Decode] of a circuit from a whole value, into a blank circuit. *)
Definition Decode (bs : list byte) : outcome circuit_err PaymentCircuit :=
  match (addRef <-- AddRefs.Decode ;
         incoming <-- CircuitKeys.Decode ;
         hash <-- ReadFull 32 ;
         inAmt <-- ReadUint64 ;
         outAmt <-- ReadUint64 ;
         asset <-- ReadUint32 ;
         enc <-- decodeEncrypter ;
         rret ((addRef, incoming, hash), (inAmt, outAmt, asset), enc)) bs with
  | Err e => Err (ErrCircuitWire e)
  | Panic => Panic
  | Ok (((addRef, incoming, hash), (inAmt, outAmt, asset), (enc, t)), _) =>
      match enc with
      | None => Err (ErrUnknownEncrypterType t)
      | Some e => Ok {| Circuit_AddRef := addRef; Incoming := incoming; Outgoing := None;
                        PaymentHash := hash; IncomingAmount := inAmt; OutgoingAmount := outAmt;
                        Circuit_AssetId := asset; ErrorEncrypter := e; LoadedFromDisk := false |}
      end
  end.

(** [circuitMap.decodeCircuit]. *)
Definition decodeCircuit (v : list byte) : outcome circuit_err PaymentCircuit :=
  circuit <~ Decode v ;
  match ErrorEncrypter circuit with
  | None => Ok circuit
  | Some s =>
      s <~ Reextract s ;
      Ok {| Circuit_AddRef := Circuit_AddRef circuit; Incoming := Incoming circuit;
            Outgoing := Outgoing circuit; PaymentHash := PaymentHash circuit;
            IncomingAmount := IncomingAmount circuit; OutgoingAmount := OutgoingAmount circuit;
            Circuit_AssetId := Circuit_AssetId circuit; ErrorEncrypter := Some s;
            LoadedFromDisk := LoadedFromDisk circuit |}
  end.

(** ** Lemmas *)

Definition wf_key (k : CircuitKey) : Prop := wf_scid (ChanID k) /\ in_u 64 (HtlcID k).

Definition wf_addref (a : AddRef) : Prop := in_u 64 (AddRef_Height a) /\ in_u 16 (AddRef_Index a).

(** The encrypter that a key gives again after a restart. *)
Definition wf_encrypter (s : SphinxErrorEncrypter) : Prop :=
  exists e, OnionErrorEncrypter s = Some e /\ extract (EphemeralKey s) = (Some e, CodeNone).

Definition wf_circuit (c : PaymentCircuit) : Prop :=
  wf_addref (Circuit_AddRef c) /\ wf_key (Incoming c) /\ length (PaymentHash c) = 32%nat /\
  in_u 64 (IncomingAmount c) /\ in_u 64 (OutgoingAmount c) /\ in_u 32 (Circuit_AssetId c) /\
  match ErrorEncrypter c with None => True | Some s => wf_encrypter s end.

Lemma ToUint64_range c : wf_scid c -> in_u 64 (ToUint64 c).
Proof.
  intros Hc. rewrite ToUint64_val by done. destruct Hc as (H1 & H2 & H3). unfold in_u in *. lia.
Qed.

Lemma scid_roundtrip c : wf_scid c -> NewShortChanIDFromInt (ToUint64 c) = c.
Proof.
  intros Hc. destruct (ToUint64_NewShortChanIDFromInt (ToUint64 c)) as [H1 H2]; [by apply ToUint64_range|].
  by apply ToUint64_inj.
Qed.

Lemma length_Bytes k : length (CircuitKeys.Bytes k) = 16%nat.
Proof. unfold CircuitKeys.Bytes. by rewrite length_app, !length_be_put. Qed.

Lemma key_halves k :
  wf_key k -> mkCircuitKey (NewShortChanIDFromInt (be_get (take 8 (CircuitKeys.Bytes k))))
                (be_get (drop 8 (CircuitKeys.Bytes k))) = k.
Proof.
  intros [Hs Hh]. unfold CircuitKeys.Bytes.
  rewrite (take_app_length' _ _ 8), (drop_app_length' _ _ 8) by (symmetry; apply length_be_put).
  pose proof (ToUint64_range _ Hs). rewrite !be_get_put_id by done. rewrite scid_roundtrip by done. by destruct k.
Qed.

Lemma SetBytes_Bytes k : wf_key k -> CircuitKeys.SetBytes (CircuitKeys.Bytes k) = Some k.
Proof.
  intros Hk. unfold CircuitKeys.SetBytes. rewrite bool_decide_eq_false_2 by (rewrite length_Bytes; tauto).
  by rewrite key_halves.
Qed.

Lemma Bytes_inj k k' : wf_key k -> wf_key k' -> CircuitKeys.Bytes k = CircuitKeys.Bytes k' -> k = k'.
Proof. intros H1 H2 He. apply SetBytes_Bytes in H1, H2. congruence. Qed.

#[global] Instance codec_circuitkey : Codec wf_key CircuitKeys.Encode CircuitKeys.Decode.
Proof.
  split.
  - intros k Hk. exists (CircuitKeys.Bytes k). split; [apply writes_bytes|]. intros rest.
    unfold CircuitKeys.Decode, rbind. rewrite <- (length_Bytes k) at 1. rewrite ReadFull_app.
    unfold rret. by rewrite key_halves.
  - intros bs k rest H. unfold CircuitKeys.Decode in H. apply rbind_ok_inv in H as (b & bs' & Hb & H).
    injection H as <- <-. apply ReadFull_ok_inv in Hb as [Hl _].
    assert (forall l, length l = 8%nat -> in_u 64 (be_get l)) as Hr.
    { intros l Hl8. pose proof (be_get_range l) as Hr. by rewrite Hl8 in Hr. }
    split; cbn.
    + apply ToUint64_NewShortChanIDFromInt, Hr. rewrite length_take. lia.
    + apply Hr. rewrite length_drop. lia.
Qed.

#[global] Instance codec_addref : Codec wf_addref AddRefs.Encode AddRefs.Decode.
Proof.
  split.
  - intros [h i] [Hh Hi]. eapply rt_seq; [by apply codec_rt|].
    exact (rt_last _ _ _ (fun x => mkAddRef h x) (codec_rt i Hi)).
  - intros bs a rest H. unfold AddRefs.Decode in H. apply rbind_ok_inv in H as (? & ? & ?%codec_wf & H).
    apply rbind_ok_inv in H as (? & ? & ?%codec_wf & H). by injection H as <- <-.
Qed.

Context {BL : BtcecLaws}.

Lemma encrypter_rt e :
  rt (encodeEncrypter e) decodeEncrypter
     (Some (mkSphinx None <$> (EphemeralKey <$> e)),
      match e with None => EncrypterTypeNone | Some _ => EncrypterTypeSphinx end).
Proof.
  destruct e as [s|]; cbn [encodeEncrypter fmap option_fmap option_map]; unfold decodeEncrypter.
  - eapply rt_seq; [by apply codec_rt|]. rewrite bool_decide_eq_false_2, bool_decide_eq_true_2 by done.
    destruct (codec_rt (Some (EphemeralKey s))) as (bs & Hw & Hr); [by eexists|].
    exists bs. split; [exact Hw|]. intros rest. unfold rbind. by rewrite Hr.
  - destruct (codec_rt (wf := in_u 8) EncrypterTypeNone) as (bs & Hw & Hr); [by unfold in_u, EncrypterTypeNone|].
    exists bs. split; [exact Hw|]. intros rest. unfold rbind. by rewrite Hr, bool_decide_eq_true_2.
Qed.

(** What a circuit is after a restart, before its keystone is set again. *)
Definition restored (c : PaymentCircuit) : PaymentCircuit :=
  {| Circuit_AddRef := Circuit_AddRef c; Incoming := Incoming c; Outgoing := None;
     PaymentHash := PaymentHash c; IncomingAmount := IncomingAmount c;
     OutgoingAmount := OutgoingAmount c; Circuit_AssetId := Circuit_AssetId c;
     ErrorEncrypter := ErrorEncrypter c; LoadedFromDisk := false |}.

Lemma circuit_decode_encode c :
  wf_circuit c -> exists bs, writes (Encode c) bs /\ decodeCircuit bs = Ok (restored c).
Proof.
  intros (H1 & H2 & H3 & H4 & H5 & H6 & H7).
  assert (rt (Encode c) (addRef <-- AddRefs.Decode ; incoming <-- CircuitKeys.Decode ; hash <-- ReadFull 32 ;
    inAmt <-- ReadUint64 ; outAmt <-- ReadUint64 ; asset <-- ReadUint32 ; enc <-- decodeEncrypter ;
    rret ((addRef, incoming, hash), (inAmt, outAmt, asset), enc))
    ((Circuit_AddRef c, Incoming c, PaymentHash c), (IncomingAmount c, OutgoingAmount c, Circuit_AssetId c),
     (Some (mkSphinx None <$> (EphemeralKey <$> ErrorEncrypter c)),
      match ErrorEncrypter c with None => EncrypterTypeNone | Some _ => EncrypterTypeSphinx end)))
    as (bs & Hw & Hr).
  { unfold Encode. eapply rt_seq; [by apply codec_rt|]. eapply rt_seq; [by apply codec_rt|].
    eapply rt_seq; [by apply codec_rt|]. eapply rt_seq; [by apply codec_rt|].
    eapply rt_seq; [by apply codec_rt|]. eapply rt_seq; [by apply codec_rt|].
    exact (rt_last _ _ _ (fun enc => ((Circuit_AddRef c, Incoming c, PaymentHash c),
      (IncomingAmount c, OutgoingAmount c, Circuit_AssetId c), enc)) (encrypter_rt _)). }
  exists bs. split; [done|]. unfold decodeCircuit, Decode. specialize (Hr []). rewrite app_nil_r in Hr.
  rewrite Hr. cbn [obind]. destruct (ErrorEncrypter c) as [s|] eqn:Ee; cbn.
  - destruct H7 as (e & He & Hx). unfold Reextract. cbn. rewrite Hx. rewrite bool_decide_eq_false_2 by tauto.
    cbn. unfold restored. rewrite Ee. rewrite <- He. by destruct s.
  - unfold restored. by rewrite Ee.
Qed.

End circuit.

(** * htlcswitch: the circuit map

    Models htlcswitch/circuit_map.go: the maps of pending, opened and closing
    circuits with the hash index, the two buckets on disk, and every operation.

    The maps hold pointers: a circuit that is opened is in [pending] and in
    [opened] as the same object, and setting its keystone is seen through both.
    The objects are in [heap], under the pointers of the maps.  [dbOk] says
    whether the database transaction of an operation commits; an aborted
    transaction leaves the buckets as they were. *)

Section circuitmap.
Context {BT : Btcec} {SX : Sphinx}.

(** ** State *)

Record circuitMap := mkCM {
  heap : gmap nat PaymentCircuit;
  pending : gmap CircuitKey nat;
  opened : gmap CircuitKey nat;
  closed : gset CircuitKey;
  hashIndex : gmap (list byte) (gset CircuitKey);
  circuitBkt : gmap (list byte) (list byte);
  keystoneBkt : gmap (list byte) (list byte);
}.

Definition set_heap (cm : circuitMap) h : circuitMap :=
  mkCM h (pending cm) (opened cm) (closed cm) (hashIndex cm) (circuitBkt cm) (keystoneBkt cm).
Definition set_pending (cm : circuitMap) p : circuitMap :=
  mkCM (heap cm) p (opened cm) (closed cm) (hashIndex cm) (circuitBkt cm) (keystoneBkt cm).
Definition set_opened (cm : circuitMap) o : circuitMap :=
  mkCM (heap cm) (pending cm) o (closed cm) (hashIndex cm) (circuitBkt cm) (keystoneBkt cm).
Definition set_closed (cm : circuitMap) c : circuitMap :=
  mkCM (heap cm) (pending cm) (opened cm) c (hashIndex cm) (circuitBkt cm) (keystoneBkt cm).
Definition set_hashIndex (cm : circuitMap) i : circuitMap :=
  mkCM (heap cm) (pending cm) (opened cm) (closed cm) i (circuitBkt cm) (keystoneBkt cm).
Definition set_disk (cm : circuitMap) b k : circuitMap :=
  mkCM (heap cm) (pending cm) (opened cm) (closed cm) (hashIndex cm) b k.

Record Keystone := mkKeystone { KS_InKey : CircuitKey; KS_OutKey : CircuitKey }.

Record CircuitFwdActions := mkActions { Adds : list nat; Drops : list nat; Fails : list nat }.

(** The object behind a pointer of a map; dereferencing nil panics. *)
Definition deref (cm : circuitMap) (p : nat) : outcome circuit_err PaymentCircuit :=
  match heap cm !! p with Some c => Ok c | None => Panic end.

(** ** Lookups *)

Definition LookupCircuit (cm : circuitMap) (inKey : CircuitKey) : option nat := pending cm !! inKey.

Definition LookupOpenCircuit (cm : circuitMap) (outKey : CircuitKey) : option nat := opened cm !! outKey.

Definition LookupByPaymentHash (cm : circuitMap) (hash : list byte) : list nat :=
  match hashIndex cm !! hash with
  | None => []
  | Some circuitSet => omap (fun key => opened cm !! key) (elements circuitSet)
  end.

Definition NumPending (cm : circuitMap) : nat := size (pending cm).
Definition NumOpen (cm : circuitMap) : nat := size (opened cm).

(** ** The hash index *)

Definition addCircuitToHashIndex (cm : circuitMap) (c : PaymentCircuit) : circuitMap :=
  let s := default ∅ (hashIndex cm !! PaymentHash c) in
  set_hashIndex cm (<[PaymentHash c := {[OutKey c]} ∪ s]> (hashIndex cm)).

Definition removeCircuitFromHashIndex (cm : circuitMap) (c : PaymentCircuit) : circuitMap :=
  match hashIndex cm !! PaymentHash c with
  | None => cm
  | Some circuitsWithHash =>
      let s := circuitsWithHash ∖ {[OutKey c]} in
      set_hashIndex cm
        (if bool_decide (size s = 0%nat) then delete (PaymentHash c) (hashIndex cm)
         else <[PaymentHash c := s]> (hashIndex cm))
  end.

(** ** Committing circuits *)

Record commitLists := mkLists {
  l_adds : list nat; l_drops : list nat; l_fails : list nat; l_addFails : list nat }.

(** Reconciles the circuits with the pending ones. *)
Fixpoint reconcile (cm : circuitMap) (circuits : list nat) (l : commitLists) :
    outcome circuit_err (circuitMap * commitLists) :=
  match circuits with
  | [] => Ok (cm, l)
  | p :: ps =>
      circuit <~ deref cm p ;
      match pending cm !! InKey circuit with
      | Some q =>
          foundCircuit <~ deref cm q ;
          if HasKeystone foundCircuit || negb (LoadedFromDisk foundCircuit)
          then reconcile cm ps (mkLists (l_adds l) (l_drops l ++ [p]) (l_fails l) (l_addFails l))
          else reconcile cm ps (mkLists (l_adds l) (l_drops l) (l_fails l ++ [p]) (l_addFails l ++ [p]))
      | None =>
          reconcile (set_pending cm (<[InKey circuit := p]> (pending cm))) ps
            (mkLists (l_adds l ++ [p]) (l_drops l) (l_fails l) (l_addFails l ++ [p]))
      end
  end.

(** The serialised circuits to add, by the bytes of their keys. *)
Fixpoint encodeAdds (cm : circuitMap) (adds : list nat) :
    outcome circuit_err (list (list byte * list byte)) :=
  match adds with
  | [] => Ok []
  | p :: ps =>
      circuit <~ deref cm p ;
      match Encode circuit [] with
      | (bs, Ok _) =>
          rest <~ encodeAdds cm ps ;
          Ok ((CircuitKeys.Bytes (InKey circuit), bs) :: rest)
      | (_, Err e) => Err (ErrCircuitWire e)
      | (_, Panic) => Panic
      end
  end.

(** The keys of the circuits behind a list of pointers. *)
Definition inKeysOf (cm : circuitMap) (ps : list nat) : list CircuitKey :=
  omap (fun p => InKey <$> heap cm !! p) ps.

Definition CommitCircuits (dbOk : bool) (circuits : list nat) (cm : circuitMap) :
    outcome circuit_err unit * CircuitFwdActions * circuitMap :=
  match reconcile cm circuits (mkLists [] [] [] []) with
  | Ok (cm, l) =>
      if bool_decide (l_adds l = []) then (Ok tt, mkActions [] (l_drops l) (l_fails l), cm)
      else
        match encodeAdds cm (l_adds l) with
        | Err e => (Err e, mkActions [] (l_drops l) (l_addFails l), cm)
        | Panic => (Panic, mkActions [] [] [], cm)
        | Ok puts =>
            if dbOk
            then (Ok tt, mkActions (l_adds l) (l_drops l) (l_fails l),
                  set_disk cm (foldl (fun b kv => <[kv.1 := kv.2]> b) (circuitBkt cm) puts) (keystoneBkt cm))
            else (Err ErrCircuitDB, mkActions [] (l_drops l) (l_addFails l),
                  set_pending cm (foldl (fun m k => delete k m) (pending cm) (inKeysOf cm (l_adds l))))
        end
  | Err e => (Err e, mkActions [] [] [], cm)
  | Panic => (Panic, mkActions [] [] [], cm)
  end.

(** ** Opening circuits *)

(** Every outgoing key is new and every incoming key is pending. *)
Fixpoint checkKeystones (cm : circuitMap) (keystones : list Keystone) : outcome circuit_err (list nat) :=
  match keystones with
  | [] => Ok []
  | ks :: kss =>
      if bool_decide (is_Some (opened cm !! KS_OutKey ks)) then Err ErrDuplicateKeystone
      else match pending cm !! KS_InKey ks with
           | None => Err ErrUnknownCircuit
           | Some p => rest <~ checkKeystones cm kss ; Ok (p :: rest)
           end
  end.

(** The in-memory part: sets the keystone of the object and indexes it. *)
Fixpoint openMem (cm : circuitMap) (l : list (nat * Keystone)) : outcome circuit_err circuitMap :=
  match l with
  | [] => Ok cm
  | (p, ks) :: l' =>
      circuit <~ deref cm p ;
      let circuit := set_outgoing (Some (KS_OutKey ks)) circuit in
      let cm := set_heap cm (<[p := circuit]> (heap cm)) in
      let cm := set_opened cm (<[KS_OutKey ks := p]> (opened cm)) in
      openMem (addCircuitToHashIndex cm circuit) l'
  end.

Definition putKeystones (b : gmap (list byte) (list byte)) (keystones : list Keystone) :
    gmap (list byte) (list byte) :=
  foldl (fun b ks => <[CircuitKeys.Bytes (KS_OutKey ks) := CircuitKeys.Bytes (KS_InKey ks)]> b) b keystones.

Definition OpenCircuits (dbOk : bool) (keystones : list Keystone) (cm : circuitMap) :
    outcome circuit_err unit * circuitMap :=
  if bool_decide (keystones = []) then (Ok tt, cm)
  else
    match checkKeystones cm keystones with
    | Err e => (Err e, cm)
    | Panic => (Panic, cm)
    | Ok openedCircuits =>
        if negb dbOk then (Err ErrCircuitDB, cm)
        else
          let cm := set_disk cm (circuitBkt cm) (putKeystones (keystoneBkt cm) keystones) in
          match openMem cm (zip openedCircuits keystones) with
          | Ok cm => (Ok tt, cm)
          | Err e => (Err e, cm)
          | Panic => (Panic, cm)
          end
    end.

(** ** Trimming

    The loop ends when a key is not open; every turn closes one, so as many turns
    as there are open circuits, and one more, are enough. *)
Fixpoint trimLoop (fuel : nat) (chanID : ShortChannelID) (i : Z) (cm : circuitMap) (keys : list CircuitKey) :
    outcome circuit_err (circuitMap * list CircuitKey) :=
  match fuel with
  | O => Panic
  | S fuel =>
      let outKey := mkCircuitKey chanID i in
      match opened cm !! outKey with
      | None => Ok (cm, keys)
      | Some p =>
          circuit <~ deref cm p ;
          let circuit := set_outgoing None circuit in
          let cm := set_heap cm (<[p := circuit]> (heap cm)) in
          let cm := set_opened cm (delete outKey (opened cm)) in
          trimLoop fuel chanID (u64 (i + 1)) (removeCircuitFromHashIndex cm circuit) (keys ++ [outKey])
      end
  end.

Definition deleteKeys (b : gmap (list byte) (list byte)) (keys : list CircuitKey) : gmap (list byte) (list byte) :=
  foldl (fun b k => delete (CircuitKeys.Bytes k) b) b keys.

Definition TrimOpenCircuits (dbOk : bool) (chanID : ShortChannelID) (start : Z) (cm : circuitMap) :
    outcome circuit_err unit * circuitMap :=
  match trimLoop (S (size (opened cm))) chanID start cm [] with
  | Ok (cm, trimmedOutKeys) =>
      if bool_decide (trimmedOutKeys = []) then (Ok tt, cm)
      else if negb dbOk then (Err ErrCircuitDB, cm)
      else (Ok tt, set_disk cm (circuitBkt cm) (deleteKeys (keystoneBkt cm) trimmedOutKeys))
  | Err e => (Err e, cm)
  | Panic => (Panic, cm)
  end.

(** ** Completing circuits *)

Definition FailCircuit (inKey : CircuitKey) (cm : circuitMap) : outcome circuit_err nat * circuitMap :=
  match pending cm !! inKey with
  | None => (Err ErrUnknownCircuit, cm)
  | Some p =>
      if bool_decide (inKey ∈ closed cm) then (Err ErrCircuitClosing, cm)
      else (Ok p, set_closed cm ({[inKey]} ∪ closed cm))
  end.

Definition CloseCircuit (outKey : CircuitKey) (cm : circuitMap) : outcome circuit_err nat * circuitMap :=
  match opened cm !! outKey with
  | None => (Err ErrUnknownCircuit, cm)
  | Some p =>
      match deref cm p with
      | Ok circuit =>
          if bool_decide (Incoming circuit ∈ closed cm) then (Err ErrCircuitClosing, cm)
          else (Ok p, set_closed cm ({[Incoming circuit]} ∪ closed cm))
      | Err e => (Err e, cm)
      | Panic => (Panic, cm)
      end
  end.

(** ** Deleting circuits *)

(** What was removed: the key, the pointer, and whether it was closing. *)
Record removedCircuit := mkRemoved { rm_key : CircuitKey; rm_ptr : nat; rm_closing : bool }.

Fixpoint deleteMem (cm : circuitMap) (inKeys : list CircuitKey) (removed : list removedCircuit) :
    outcome circuit_err (circuitMap * list removedCircuit) :=
  match inKeys with
  | [] => Ok (cm, removed)
  | inKey :: rest =>
      match pending cm !! inKey with
      | None => deleteMem cm rest removed
      | Some p =>
          circuit <~ deref cm p ;
          let closing := bool_decide (inKey ∈ closed cm) in
          let cm := set_pending cm (delete inKey (pending cm)) in
          let cm := if closing then set_closed cm (closed cm ∖ {[inKey]}) else cm in
          let cm := if HasKeystone circuit
                    then removeCircuitFromHashIndex
                           (set_opened cm (delete (OutKey circuit) (opened cm))) circuit
                    else cm in
          deleteMem cm rest (removed ++ [mkRemoved inKey p closing])
      end
  end.

(** The deletions of the transaction, which commute. *)
Fixpoint deleteDisk (cm : circuitMap) (removed : list removedCircuit) : outcome circuit_err circuitMap :=
  match removed with
  | [] => Ok cm
  | r :: rs =>
      circuit <~ deref cm (rm_ptr r) ;
      let k := if HasKeystone circuit then delete (CircuitKeys.Bytes (OutKey circuit)) (keystoneBkt cm)
               else keystoneBkt cm in
      deleteDisk (set_disk cm (delete (CircuitKeys.Bytes (InKey circuit)) (circuitBkt cm)) k) rs
  end.

(** Restores what was removed when the transaction fails. *)
Fixpoint restoreMem (cm : circuitMap) (removed : list removedCircuit) : outcome circuit_err circuitMap :=
  match removed with
  | [] => Ok cm
  | r :: rs =>
      circuit <~ deref cm (rm_ptr r) ;
      let cm := set_pending cm (<[rm_key r := rm_ptr r]> (pending cm)) in
      let cm := if rm_closing r then set_closed cm ({[rm_key r]} ∪ closed cm) else cm in
      let cm := if HasKeystone circuit
                then addCircuitToHashIndex
                       (set_opened cm (<[OutKey circuit := rm_ptr r]> (opened cm))) circuit
                else cm in
      restoreMem cm rs
  end.

Definition DeleteCircuits (dbOk : bool) (inKeys : list CircuitKey) (cm : circuitMap) :
    outcome circuit_err unit * circuitMap :=
  match deleteMem cm inKeys [] with
  | Ok (cm, removed) =>
      if dbOk then
        match deleteDisk cm removed with
        | Ok cm => (Ok tt, cm)
        | Err e => (Err e, cm)
        | Panic => (Panic, cm)
        end
      else
        match restoreMem cm removed with
        | Ok cm => (Err ErrCircuitDB, cm)
        | Err e => (Err e, cm)
        | Panic => (Panic, cm)
        end
  | Err e => (Err e, cm)
  | Panic => (Panic, cm)
  end.

(** ** Startup *)

Definition Source : ShortChannelID := mkShortChannelID 0 0 0.

(** What the startup reads of a closed and of an open channel. *)
Record ChannelCloseSummary := mkCloseSummary { Closed_ShortChanID : ShortChannelID; Closed_IsPending : bool }.

Record activeChannel := mkActive {
  Active_IsPending : bool;
  Active_ShortChanID : ShortChannelID;
  Active_NextLocalHtlcIndex : outcome circuit_err Z;
}.

Definition isClosedChannel (closedChanIDSet : gset ShortChannelID) (chanID : ShortChannelID) : bool :=
  if bool_decide (ToUint64 chanID = 0) then false else bool_decide (chanID ∈ closedChanIDSet).

(** The keystone of an entry of the bucket: the incoming key is decoded first. *)
Definition decodeKeystone (kv : list byte * list byte) : outcome circuit_err Keystone :=
  match CircuitKeys.SetBytes kv.2 with
  | None => Err ErrInvalidCircuitKeyLen
  | Some inKey =>
      match CircuitKeys.SetBytes kv.1 with
      | None => Err ErrInvalidCircuitKeyLen
      | Some outKey => Ok (mkKeystone inKey outKey)
      end
  end.

Fixpoint cleanCircuits (closedSet : gset ShortChannelID) (l : list (list byte * list byte)) (del : list CircuitKey) :
    outcome circuit_err (list CircuitKey) :=
  match l with
  | [] => Ok del
  | kv :: l =>
      circuit <~ decodeCircuit kv.2 ;
      cleanCircuits closedSet l
        (if isClosedChannel closedSet (ChanID (Incoming circuit)) then del ++ [Incoming circuit] else del)
  end.

Fixpoint cleanKeystones (closedSet : gset ShortChannelID) (l : list (list byte * list byte))
    (delIn delOut : list CircuitKey) : outcome circuit_err (list CircuitKey * list CircuitKey) :=
  match l with
  | [] => Ok (delIn, delOut)
  | kv :: l =>
      ks <~ decodeKeystone kv ;
      if isClosedChannel closedSet (ChanID (KS_InKey ks))
      then cleanKeystones closedSet l (delIn ++ [KS_InKey ks]) (delOut ++ [KS_OutKey ks])
      else if isClosedChannel closedSet (ChanID (KS_OutKey ks))
      then cleanKeystones closedSet l (delIn ++ [KS_InKey ks]) (delOut ++ [KS_OutKey ks])
      else cleanKeystones closedSet l delIn delOut
  end.

(** The two buckets without the circuits and keystones of closed channels. *)
Definition cleanClosedChannels (dbOk : bool) (closedChannels : list ChannelCloseSummary)
    (circuitB keystoneB : gmap (list byte) (list byte)) :
    outcome circuit_err (gmap (list byte) (list byte) * gmap (list byte) (list byte)) :=
  let closedSet := list_to_set (Closed_ShortChanID <$> filter (fun c => Closed_IsPending c = false) closedChannels) in
  if bool_decide (size closedSet = 0%nat) then Ok (circuitB, keystoneB)
  else
    delIn <~ cleanCircuits closedSet (ForEach circuitB) [] ;
    '(delIn, delOut) <~ cleanKeystones closedSet (ForEach keystoneB) delIn [] ;
    if dbOk then Ok (deleteKeys circuitB delIn, deleteKeys keystoneB delOut) else Err ErrCircuitDB.

Definition set_loaded (c : PaymentCircuit) : PaymentCircuit :=
  {| Circuit_AddRef := Circuit_AddRef c; Incoming := Incoming c; Outgoing := Outgoing c;
     PaymentHash := PaymentHash c; IncomingAmount := IncomingAmount c;
     OutgoingAmount := OutgoingAmount c; Circuit_AssetId := Circuit_AssetId c;
     ErrorEncrypter := ErrorEncrypter c; LoadedFromDisk := true |}.

(** Every decoded circuit is a new object. *)
Fixpoint loadCircuits (l : list (list byte * list byte)) (cm : circuitMap) : outcome circuit_err circuitMap :=
  match l with
  | [] => Ok cm
  | kv :: l =>
      circuit <~ decodeCircuit kv.2 ;
      let circuit := set_loaded circuit in
      let p := fresh (dom (heap cm)) in
      let cm := set_heap cm (<[p := circuit]> (heap cm)) in
      loadCircuits l (set_pending cm (<[Incoming circuit := p]> (pending cm)))
  end.

Fixpoint loadKeystones (l : list (list byte * list byte)) (cm : circuitMap) (strayKeystones : list Keystone) :
    outcome circuit_err (circuitMap * list Keystone) :=
  match l with
  | [] => Ok (cm, strayKeystones)
  | kv :: l =>
      ks <~ decodeKeystone kv ;
      match pending cm !! KS_InKey ks with
      | Some p =>
          circuit <~ deref cm p ;
          let cm := set_heap cm (<[p := set_outgoing (Some (KS_OutKey ks)) circuit]> (heap cm)) in
          loadKeystones l (set_opened cm (<[KS_OutKey ks := p]> (opened cm))) strayKeystones
      | None => loadKeystones l cm (strayKeystones ++ [ks])
      end
  end.

(** The hash index of the open circuits. *)
Fixpoint indexOpened (l : list (CircuitKey * nat)) (cm : circuitMap) : outcome circuit_err circuitMap :=
  match l with
  | [] => Ok cm
  | (_, p) :: l => circuit <~ deref cm p ; indexOpened l (addCircuitToHashIndex cm circuit)
  end.

Definition restoreMemState (dbOk : bool) (circuitB keystoneB : gmap (list byte) (list byte)) :
    outcome circuit_err circuitMap :=
  cm <~ loadCircuits (ForEach circuitB) (mkCM ∅ ∅ ∅ ∅ ∅ circuitB keystoneB) ;
  '(cm, strayKeystones) <~ loadKeystones (ForEach keystoneB) cm [] ;
  if negb dbOk then Err ErrCircuitDB
  else
    let stray := filter (fun ks => ChanID (KS_OutKey ks) = Source) strayKeystones in
    let cm := set_disk cm circuitB (deleteKeys keystoneB (KS_OutKey <$> stray)) in
    indexOpened (map_to_list (opened cm)) cm.

Fixpoint trimAllOpenCircuits (dbOk : bool) (activeChannels : list activeChannel) (cm : circuitMap) :
    outcome circuit_err circuitMap :=
  match activeChannels with
  | [] => Ok cm
  | ch :: chs =>
      if Active_IsPending ch then trimAllOpenCircuits dbOk chs cm
      else if bool_decide (Active_ShortChanID ch = Source) then trimAllOpenCircuits dbOk chs cm
      else
        start <~ Active_NextLocalHtlcIndex ch ;
        match TrimOpenCircuits dbOk (Active_ShortChanID ch) start cm with
        | (Ok _, cm) => trimAllOpenCircuits dbOk chs cm
        | (Err e, _) => Err e
        | (Panic, _) => Panic
        end
  end.

(** The map of a started switch, from the buckets. *)
Definition NewCircuitMap (dbOk : bool) (closedChannels : list ChannelCloseSummary)
    (activeChannels : list activeChannel) (circuitB keystoneB : gmap (list byte) (list byte)) :
    outcome circuit_err circuitMap :=
  '(circuitB, keystoneB) <~ cleanClosedChannels dbOk closedChannels circuitB keystoneB ;
  cm <~ restoreMemState dbOk circuitB keystoneB ;
  trimAllOpenCircuits dbOk activeChannels cm.

End circuitmap.
