(* ===== verification/CircuitMapInv.v ===== *)
(** * htlcswitch: the invariant of the circuit map

    The value of a circuit map is the map from incoming keys to the circuits
    behind the pointers of [pending] ([circuits]).  The invariant relates the
    other maps, the hash index and the two buckets to it; this file has the
    lemmas on the elementary changes the operations are made of.

    The abstract machine that the map implements follows. *)

From Stdlib Require Import ZArith Lia.
From S2P Require Import Prelude Wire WireGossip WireModels UpdateLog Kvdb CircuitMap.

Local Open Scope Z_scope.

Section inv.
Context {BT : Btcec} {SX : Sphinx}.

(** The circuits by incoming key. *)
Definition circuits (cm : circuitMap) : gmap CircuitKey PaymentCircuit :=
  omap (fun p => heap cm !! p) (pending cm).

(** What can be stored of a circuit, and what its outgoing key can be. *)
Definition circuit_ok (c : PaymentCircuit) : Prop :=
  wf_circuit c /\ forall o, Outgoing c = Some o -> wf_key o /\ o <> EmptyCircuitKey.

(** The maps in memory. *)
Record MemInv (cm : circuitMap) : Prop := {
  i_deref : forall k p, pending cm !! k = Some p -> is_Some (heap cm !! p);
  i_keys : forall k c, circuits cm !! k = Some c -> Incoming c = k /\ circuit_ok c;
  i_opened : forall o p, opened cm !! o = Some p <->
    exists k c, pending cm !! k = Some p /\ heap cm !! p = Some c /\ Outgoing c = Some o;
  i_closed : closed cm ⊆ dom (pending cm);
}.

(** Every open circuit is found by its payment hash. *)
Definition HashInv (A : gmap CircuitKey PaymentCircuit) (h : gmap (list byte) (gset CircuitKey)) : Prop :=
  forall k c o, A !! k = Some c -> Outgoing c = Some o -> exists s, h !! PaymentHash c = Some s /\ o ∈ s.

(** The buckets hold the circuits and the keystones of the open ones, and nothing else. *)
Record DiskInv (A : gmap CircuitKey PaymentCircuit) (cb kb : gmap (list byte) (list byte)) : Prop := {
  d_circuit : forall k c, A !! k = Some c ->
    exists v, cb !! CircuitKeys.Bytes k = Some v /\ decodeCircuit v = Ok (restored c);
  d_circuit_only : forall bs v, cb !! bs = Some v -> exists k, bs = CircuitKeys.Bytes k /\ is_Some (A !! k);
  d_keystone : forall k c o, A !! k = Some c -> Outgoing c = Some o ->
    kb !! CircuitKeys.Bytes o = Some (CircuitKeys.Bytes k);
  d_keystone_only : forall bs v, kb !! bs = Some v ->
    exists k c o, A !! k = Some c /\ Outgoing c = Some o /\ bs = CircuitKeys.Bytes o /\ v = CircuitKeys.Bytes k;
}.

Record Inv (cm : circuitMap) : Prop := {
  inv_mem : MemInv cm;
  inv_hash : HashInv (circuits cm) (hashIndex cm);
  inv_disk : DiskInv (circuits cm) (circuitBkt cm) (keystoneBkt cm);
}.

(** ** The value of the map *)

Lemma lookup_circuits cm k : circuits cm !! k = pending cm !! k ≫= fun p => heap cm !! p.
Proof. apply lookup_omap. Qed.

Lemma circuits_Some cm k c :
  circuits cm !! k = Some c <-> exists p, pending cm !! k = Some p /\ heap cm !! p = Some c.
Proof. rewrite lookup_circuits. destruct (pending cm !! k) eqn:E; simpl; naive_solver. Qed.

Lemma circuits_ptr cm k p c : pending cm !! k = Some p -> heap cm !! p = Some c -> circuits cm !! k = Some c.
Proof. intros. apply circuits_Some. eauto. Qed.

Lemma circuits_deref cm k : MemInv cm -> circuits cm !! k = None <-> pending cm !! k = None.
Proof.
  intros HI. rewrite lookup_circuits. destruct (pending cm !! k) as [p|] eqn:E; simpl; [|done].
  destruct (i_deref _ HI _ _ E) as [c Hc]. rewrite Hc. done.
Qed.

Lemma pending_inj cm k k' p : MemInv cm -> pending cm !! k = Some p -> pending cm !! k' = Some p -> k = k'.
Proof.
  intros HI H1 H2. destruct (i_deref _ HI _ _ H1) as [c Hc].
  destruct (i_keys _ HI k c) as [<- _]; [by eapply circuits_ptr|].
  by destruct (i_keys _ HI k' c) as [-> _]; [eapply circuits_ptr|].
Qed.

(** Changing the object of a pending circuit changes the value at its key only. *)
Lemma circuits_heap cm k p c :
  MemInv cm -> pending cm !! k = Some p ->
  circuits (set_heap cm (<[p := c]> (heap cm))) = <[k := c]> (circuits cm).
Proof.
  intros HI Hp. apply map_eq. intros k'. rewrite lookup_circuits. simpl.
  destruct (decide (k = k')) as [<-|Hk].
  - by rewrite lookup_insert_eq, Hp; simpl; rewrite lookup_insert_eq.
  - rewrite lookup_insert_ne by done. rewrite lookup_circuits.
    destruct (pending cm !! k') as [q|] eqn:E; simpl; [|done].
    rewrite lookup_insert_ne; [done|]. intros <-. by apply Hk, (pending_inj cm k k' p).
Qed.

Lemma circuits_pending cm k p c :
  heap cm !! p = Some c ->
  circuits (set_pending cm (<[k := p]> (pending cm))) = <[k := c]> (circuits cm).
Proof.
  intros Hp. apply map_eq. intros k'. rewrite lookup_circuits. simpl.
  destruct (decide (k = k')) as [<-|Hk].
  - by rewrite !lookup_insert_eq.
  - by rewrite !lookup_insert_ne, lookup_circuits by done.
Qed.

Lemma circuits_delete cm k :
  circuits (set_pending cm (delete k (pending cm))) = delete k (circuits cm).
Proof.
  apply map_eq. intros k'. rewrite lookup_circuits. simpl. destruct (decide (k = k')) as [<-|Hk].
  - by rewrite !lookup_delete_eq.
  - by rewrite !lookup_delete_ne, lookup_circuits by done.
Qed.

Lemma opened_circuit cm o p :
  MemInv cm -> opened cm !! o = Some p ->
  exists c, heap cm !! p = Some c /\ pending cm !! Incoming c = Some p /\
            circuits cm !! Incoming c = Some c /\ Outgoing c = Some o.
Proof.
  intros HI (k & c & Hk & Hc & Ho)%(i_opened _ HI). pose proof (circuits_ptr _ _ _ _ Hk Hc) as HA.
  destruct (i_keys _ HI _ _ HA) as [<- _]. eauto.
Qed.

Lemma opened_unique cm k k' c c' o :
  MemInv cm -> circuits cm !! k = Some c -> circuits cm !! k' = Some c' ->
  Outgoing c = Some o -> Outgoing c' = Some o -> k = k'.
Proof.
  intros HI (p & Hp & Hc)%circuits_Some (p' & Hp' & Hc')%circuits_Some Ho Ho'.
  assert (opened cm !! o = Some p) as H1 by (apply i_opened; eauto).
  assert (opened cm !! o = Some p') as H2 by (apply i_opened; eauto).
  simplify_eq. by eapply pending_inj.
Qed.

(** ** Elementary changes of the memory *)

Lemma mem_hash cm h : MemInv cm -> MemInv (set_hashIndex cm h).
Proof. intros []. by split. Qed.

Lemma mem_disk cm b k : MemInv cm -> MemInv (set_disk cm b k).
Proof. intros []. by split. Qed.

Lemma mem_closed cm X : MemInv cm -> X ⊆ dom (pending cm) -> MemInv (set_closed cm X).
Proof. intros [] ?. by split. Qed.

(** A new circuit. *)
Lemma mem_add cm p c :
  MemInv cm -> heap cm !! p = Some c -> pending cm !! Incoming c = None -> circuit_ok c -> Outgoing c = None ->
  MemInv (set_pending cm (<[Incoming c := p]> (pending cm))).
Proof.
  intros HI Hp Hn Hok Ho. pose proof (circuits_pending cm (Incoming c) _ _ Hp) as HA. split; simpl.
  - intros k q [[<- <-]|[_ Hq]]%lookup_insert_Some; [eauto|]. by eapply i_deref.
  - rewrite HA. intros k d [[<- <-]|[_ Hd]]%lookup_insert_Some; [done|]. by apply (i_keys _ HI).
  - intros o q. rewrite (i_opened _ HI). split; intros (k & d & Hk & Hd & Hdo); exists k, d; split_and!; try done.
    + rewrite lookup_insert_ne; congruence.
    + apply lookup_insert_Some in Hk as [[<- <-]|[_ ?]]; [|done]. congruence.
  - rewrite dom_insert_L. pose proof (i_closed _ HI). set_solver.
Qed.

(** Setting the keystone of a pending circuit. *)
Lemma mem_open cm k p c o :
  MemInv cm -> pending cm !! k = Some p -> heap cm !! p = Some c -> Outgoing c = None ->
  opened cm !! o = None -> wf_key o -> o <> EmptyCircuitKey ->
  MemInv (set_opened (set_heap cm (<[p := set_outgoing (Some o) c]> (heap cm))) (<[o := p]> (opened cm))).
Proof.
  intros HI Hk Hp Hc Ho Hw He. pose proof (circuits_ptr _ _ _ _ Hk Hp) as HA.
  destruct (i_keys _ HI _ _ HA) as [Hin [Hwc _]].
  split; simpl.
  - intros k' q Hq. destruct (decide (p = q)) as [<-|]; [rewrite lookup_insert_eq; eauto|].
    rewrite lookup_insert_ne by done. by eapply i_deref.
  - change (forall k' d, circuits (set_heap cm (<[p := set_outgoing (Some o) c]> (heap cm))) !! k' = Some d ->
      Incoming d = k' /\ circuit_ok d). rewrite (circuits_heap _ _ _ _ HI Hk).
    intros k' d [[<- <-]|[_ Hd]]%lookup_insert_Some; [|by apply (i_keys _ HI)].
    split; [done|]. split; [exact Hwc|]. simpl. by intros ? [= <-].
  - intros o' q. destruct (decide (o = o')) as [<-|Hoo].
    + rewrite lookup_insert_eq. split.
      * intros [= <-]. exists k, (set_outgoing (Some o) c). by rewrite lookup_insert_eq.
      * intros (k' & d & Hk' & Hd & Hdo). apply lookup_insert_Some in Hd as [[-> _]|[_ Hd]]; [done|].
        assert (opened cm !! o = Some q) by (apply (i_opened _ HI); eauto). congruence.
    + rewrite lookup_insert_ne by done. rewrite (i_opened _ HI).
      split; intros (k' & d & Hk' & Hd & Hdo); exists k', d; split_and!; try done.
      * rewrite lookup_insert_ne; [done|]. intros <-. congruence.
      * apply lookup_insert_Some in Hd as [[-> <-]|[_ Hd]]; [|done]. simpl in Hdo. congruence.
  - apply (i_closed _ HI).
Qed.

(** Removing the keystone of an open circuit. *)
Lemma mem_trim cm p c o :
  MemInv cm -> opened cm !! o = Some p -> heap cm !! p = Some c ->
  MemInv (set_opened (set_heap cm (<[p := set_outgoing None c]> (heap cm))) (delete o (opened cm))).
Proof.
  intros HI Ho Hp. destruct (opened_circuit _ _ _ HI Ho) as (c' & Hp' & Hk & HA & Hc). simplify_eq.
  destruct (i_keys _ HI _ _ HA) as [_ [Hwc _]].
  split; simpl.
  - intros k' q Hq. destruct (decide (p = q)) as [<-|]; [rewrite lookup_insert_eq; eauto|].
    rewrite lookup_insert_ne by done. by eapply i_deref.
  - change (forall k' d, circuits (set_heap cm (<[p := set_outgoing None c]> (heap cm))) !! k' = Some d ->
      Incoming d = k' /\ circuit_ok d). rewrite (circuits_heap _ _ _ _ HI Hk).
    intros k' d [[<- <-]|[_ Hd]]%lookup_insert_Some; [|by apply (i_keys _ HI)].
    split; [done|]. by split; [exact Hwc|].
  - intros o' q. destruct (decide (o = o')) as [<-|Hoo].
    + rewrite lookup_delete_eq. split; [done|].
      intros (k' & d & Hk' & Hd & Hdo). apply lookup_insert_Some in Hd as [[-> <-]|[Hne Hd]]; [done|].
      assert (opened cm !! o = Some q) by (apply (i_opened _ HI); eauto). congruence.
    + rewrite lookup_delete_ne by done. rewrite (i_opened _ HI).
      split; intros (k' & d & Hk' & Hd & Hdo); exists k', d; split_and!; try done.
      * rewrite lookup_insert_ne; [done|]. intros <-. congruence.
      * apply lookup_insert_Some in Hd as [[-> <-]|[_ Hd]]; [|done]. done.
  - apply (i_closed _ HI).
Qed.

(** The opened map after a circuit is deleted. *)
Definition unopen (c : PaymentCircuit) (o : gmap CircuitKey nat) : gmap CircuitKey nat :=
  match Outgoing c with Some k => delete k o | None => o end.

Lemma mem_delete cm k c X :
  MemInv cm -> circuits cm !! k = Some c -> X ⊆ closed cm ∖ {[k]} ->
  MemInv (set_opened (set_closed (set_pending cm (delete k (pending cm))) X) (unopen c (opened cm))).
Proof.
  intros HI HA HX. pose proof HA as (p & Hk & Hp)%circuits_Some. split; simpl.
  - intros k' q [_ Hq]%lookup_delete_Some. by eapply i_deref.
  - change (forall k' d, circuits (set_pending cm (delete k (pending cm))) !! k' = Some d ->
      Incoming d = k' /\ circuit_ok d). rewrite circuits_delete.
    intros k' d [_ Hd]%lookup_delete_Some. by apply (i_keys _ HI).
  - intros o q. assert (unopen c (opened cm) !! o = Some q <->
      opened cm !! o = Some q /\ Outgoing c <> Some o) as ->.
    { unfold unopen. destruct (Outgoing c) as [o'|]; [|naive_solver].
      rewrite lookup_delete_Some. naive_solver. }
    rewrite (i_opened _ HI). split.
    + intros [(k' & d & Hk' & Hd & Hdo) Hne]. exists k', d. split_and!; try done.
      rewrite lookup_delete_ne; [done|]. intros <-. congruence.
    + intros (k' & d & [Hkk Hk']%lookup_delete_Some & Hd & Hdo). split; [eauto|].
      intros Hc. apply Hkk. eapply opened_unique; eauto using circuits_ptr.
  - rewrite dom_delete_L. pose proof (i_closed _ HI). set_solver.
Qed.

(** ** The hash index *)

Lemma hash_add cm c h :
  (exists s, hashIndex (addCircuitToHashIndex cm c) !! h = Some s /\ OutKey c ∈ s) <->
  h = PaymentHash c \/ exists s, hashIndex cm !! h = Some s /\ OutKey c ∈ s.
Proof.
  unfold addCircuitToHashIndex. simpl. destruct (decide (PaymentHash c = h)) as [<-|Hne].
  - rewrite lookup_insert_eq. split; [by left|]. intros _. eexists. split; [done|]. set_solver.
  - rewrite lookup_insert_ne by done. naive_solver.
Qed.

Lemma hash_add_mono cm c h s o :
  hashIndex cm !! h = Some s -> o ∈ s ->
  exists s', hashIndex (addCircuitToHashIndex cm c) !! h = Some s' /\ o ∈ s'.
Proof.
  intros Hs Ho. unfold addCircuitToHashIndex. simpl. destruct (decide (PaymentHash c = h)) as [<-|Hne].
  - rewrite lookup_insert_eq. eexists. split; [done|]. rewrite Hs. set_solver.
  - rewrite lookup_insert_ne by done. eauto.
Qed.

(** Only the key of the circuit leaves the index. *)
Lemma hash_remove cm c h s o :
  hashIndex cm !! h = Some s -> o ∈ s -> o <> OutKey c ->
  exists s', hashIndex (removeCircuitFromHashIndex cm c) !! h = Some s' /\ o ∈ s'.
Proof.
  intros Hs Ho Hne. unfold removeCircuitFromHashIndex.
  destruct (hashIndex cm !! PaymentHash c) as [t|] eqn:Et; [|eauto]. simpl.
  destruct (decide (PaymentHash c = h)) as [<-|Hh].
  - rewrite Hs in Et. injection Et as <-. case_bool_decide as Hz.
    + apply size_empty_inv in Hz. set_solver.
    + rewrite lookup_insert_eq. eexists. split; [done|]. set_solver.
  - case_bool_decide; [rewrite lookup_delete_ne by done|rewrite lookup_insert_ne by done]; eauto.
Qed.

Lemma removeHash_eq cm c : exists h, removeCircuitFromHashIndex cm c = set_hashIndex cm h.
Proof.
  unfold removeCircuitFromHashIndex. destruct (hashIndex cm !! PaymentHash c); [eauto|].
  exists (hashIndex cm). by destruct cm.
Qed.

(** ** The buckets *)

Definition keys_ok (A : gmap CircuitKey PaymentCircuit) : Prop :=
  (forall k c, A !! k = Some c -> Incoming c = k /\ circuit_ok c) /\
  (forall k k' c c' o, A !! k = Some c -> A !! k' = Some c' ->
     Outgoing c = Some o -> Outgoing c' = Some o -> k = k').

Lemma keys_ok_mem cm : MemInv cm -> keys_ok (circuits cm).
Proof. intros HI. split; [apply (i_keys _ HI)|]. intros *. by apply opened_unique. Qed.

Lemma keys_ok_wf A k : keys_ok A -> is_Some (A !! k) -> wf_key k.
Proof. intros [HA _] [c Hc]. destruct (HA _ _ Hc) as [<- [Hw _]]. apply Hw. Qed.

Lemma disk_add A cb kb c v :
  keys_ok A -> DiskInv A cb kb -> A !! Incoming c = None -> circuit_ok c -> Outgoing c = None ->
  decodeCircuit v = Ok (restored c) ->
  DiskInv (<[Incoming c := c]> A) (<[CircuitKeys.Bytes (Incoming c) := v]> cb) kb.
Proof.
  intros HA HD Hn [Hw _] Ho Hv. split.
  - intros k d [[<- <-]|[Hne Hd]]%lookup_insert_Some; [rewrite lookup_insert_eq; eauto|].
    rewrite lookup_insert_ne; [by apply (d_circuit _ _ _ HD)|].
    intros He%Bytes_inj; [done|apply Hw|]. eapply keys_ok_wf; eauto.
  - intros bs w [[<- <-]|[Hne Hd]]%lookup_insert_Some.
    + exists (Incoming c). rewrite lookup_insert_eq. eauto.
    + apply (d_circuit_only _ _ _ HD) in Hd as (k & -> & Hk). exists k. split; [done|].
      rewrite lookup_insert_ne by (intros <-; done). done.
  - intros k d o [[<- <-]|[_ Hd]]%lookup_insert_Some Hdo; [congruence|].
    by eapply (d_keystone _ _ _ HD).
  - intros bs w (k & d & o & Hd & ? & ? & ?)%(d_keystone_only _ _ _ HD). exists k, d, o.
    rewrite lookup_insert_ne by congruence. done.
Qed.

Lemma disk_open A cb kb k c o :
  keys_ok A -> DiskInv A cb kb -> A !! k = Some c -> Outgoing c = None ->
  (forall k' c', A !! k' = Some c' -> Outgoing c' <> Some o) -> wf_key o ->
  DiskInv (<[k := set_outgoing (Some o) c]> A) cb (<[CircuitKeys.Bytes o := CircuitKeys.Bytes k]> kb).
Proof.
  intros HA HD Hk Hc Hn Hw. split.
  - intros k' d [[<- <-]|[Hne Hd]]%lookup_insert_Some.
    + by apply (d_circuit _ _ _ HD k c).
    + by apply (d_circuit _ _ _ HD).
  - intros bs v (k' & -> & Hk')%(d_circuit_only _ _ _ HD). exists k'. split; [done|].
    rewrite lookup_insert_is_Some'. eauto.
  - intros k' d o' [[<- <-]|[Hne Hd]]%lookup_insert_Some Hdo; simpl in Hdo.
    + injection Hdo as <-. by rewrite lookup_insert_eq.
    + rewrite lookup_insert_ne; [by eapply (d_keystone _ _ _ HD)|].
      intros He%Bytes_inj; [by subst; eapply Hn|done|].
      destruct HA as [HA _]. by apply (HA _ _ Hd).
  - intros bs v [[<- <-]|[Hne Hd]]%lookup_insert_Some.
    + exists k, (set_outgoing (Some o) c), o. by rewrite lookup_insert_eq.
    + apply (d_keystone_only _ _ _ HD) in Hd as (k' & d & o' & Hd & Hdo & -> & ->).
      exists k', d, o'. rewrite lookup_insert_ne; [done|]. intros <-. congruence.
Qed.

Lemma disk_trim A cb kb k c o :
  keys_ok A -> DiskInv A cb kb -> A !! k = Some c -> Outgoing c = Some o ->
  DiskInv (<[k := set_outgoing None c]> A) cb (delete (CircuitKeys.Bytes o) kb).
Proof.
  intros HA HD Hk Hc. split.
  - intros k' d [[<- <-]|[Hne Hd]]%lookup_insert_Some; [by apply (d_circuit _ _ _ HD k c)|].
    by apply (d_circuit _ _ _ HD).
  - intros bs v (k' & -> & Hk')%(d_circuit_only _ _ _ HD). exists k'. split; [done|].
    rewrite lookup_insert_is_Some'. eauto.
  - intros k' d o' [[<- <-]|[Hne Hd]]%lookup_insert_Some Hdo; [done|].
    rewrite lookup_delete_ne; [by eapply (d_keystone _ _ _ HD)|]. destruct HA as [HA HU].
    intros He%Bytes_inj; [subst|by apply (HA _ _ Hk)|by apply (HA _ _ Hd)].
    by apply Hne, (HU k k' c d o').
  - intros bs v [Hne Hd]%lookup_delete_Some.
    apply (d_keystone_only _ _ _ HD) in Hd as (k' & d & o' & Hd & Hdo & -> & ->).
    exists k', d, o'. rewrite lookup_insert_ne; [done|]. intros <-. congruence.
Qed.

Lemma disk_delete A cb kb k c :
  keys_ok A -> DiskInv A cb kb -> A !! k = Some c ->
  DiskInv (delete k A) (delete (CircuitKeys.Bytes k) cb)
    (match Outgoing c with Some o => delete (CircuitKeys.Bytes o) kb | None => kb end).
Proof.
  intros HA HD Hk. split.
  - intros k' d [Hne Hd]%lookup_delete_Some. rewrite lookup_delete_ne; [by apply (d_circuit _ _ _ HD)|].
    intros He%Bytes_inj; [done|by eapply keys_ok_wf; eauto..].
  - intros bs v [Hne Hd]%lookup_delete_Some. apply (d_circuit_only _ _ _ HD) in Hd as (k' & -> & Hk').
    exists k'. split; [done|]. rewrite lookup_delete_ne by (intros <-; done). done.
  - intros k' d o [Hne Hd]%lookup_delete_Some Hdo. pose proof (d_keystone _ _ _ HD _ _ _ Hd Hdo) as Hb.
    destruct (Outgoing c) as [o'|] eqn:Ho; [|done]. rewrite lookup_delete_ne; [done|].
    destruct HA as [HA HU]. intros He%Bytes_inj; [subst|by apply (HA _ _ Hk)|by apply (HA _ _ Hd)].
    by apply Hne, (HU k k' c d o).
  - intros bs v Hb.
    assert (kb !! bs = Some v /\ (forall o, Outgoing c = Some o -> bs <> CircuitKeys.Bytes o)) as [Hb' Hn].
    { destruct (Outgoing c); [|done]. apply lookup_delete_Some in Hb. naive_solver. }
    apply (d_keystone_only _ _ _ HD) in Hb' as (k' & d & o' & Hd & Hdo & -> & ->).
    exists k', d, o'. rewrite lookup_delete_ne; [done|]. intros <-. naive_solver.
Qed.

End inv.

(** * htlcswitch: what the circuit map implements

    The abstract machine of a circuit map keeps the circuits by incoming key
    and the set of keys being completed ([spec]); [simulates] says that an
    operation of the code does what the machine does and keeps the invariant.
    The lemmas are on finding circuits by outgoing key and on how a batch of
    circuits is split; CircuitMapSim has the simulation of each operation. *)

Section spec.
Context {BT : Btcec} {SX : Sphinx}.

(** ** Operations and results *)

Inductive cop : Type :=
  | OpCommit (dbOk : bool) (cs : list PaymentCircuit)
  | OpOpen (dbOk : bool) (keystones : list Keystone)
  | OpTrim (chanID : ShortChannelID) (start : Z)
  | OpFail (inKey : CircuitKey)
  | OpClose (outKey : CircuitKey)
  | OpDelete (dbOk : bool) (inKeys : list CircuitKey)
  | OpRestart.

Record result := mkResult {
  r_err : outcome circuit_err unit;
  r_circuit : option PaymentCircuit;
  r_adds : list PaymentCircuit; r_drops : list PaymentCircuit; r_fails : list PaymentCircuit;
}.

Definition plain (o : outcome circuit_err unit) : result := mkResult o None [] [] [].

(** ** The abstract machine *)

Definition astate : Type := gmap CircuitKey PaymentCircuit * gset CircuitKey.

(** The circuit with the given outgoing key. *)
Definition holder (A : gmap CircuitKey PaymentCircuit) (o : CircuitKey) : option PaymentCircuit :=
  snd <$> head (filter (fun kc => Outgoing kc.2 = Some o) (map_to_list A)).

(** How a batch is split: new circuits, those still in flight, those whose
    packet was lost, and all that were not dropped. *)
Record split := mkSplit {
  p_adds : list PaymentCircuit; p_drops : list PaymentCircuit;
  p_fails : list PaymentCircuit; p_undropped : list PaymentCircuit }.

Fixpoint classify (A : gmap CircuitKey PaymentCircuit) (cs : list PaymentCircuit) : split :=
  match cs with
  | [] => mkSplit [] [] [] []
  | c :: cs =>
      match A !! Incoming c with
      | Some f =>
          let s := classify A cs in
          if HasKeystone f || negb (LoadedFromDisk f)
          then mkSplit (p_adds s) (c :: p_drops s) (p_fails s) (p_undropped s)
          else mkSplit (p_adds s) (p_drops s) (c :: p_fails s) (c :: p_undropped s)
      | None =>
          let s := classify (<[Incoming c := c]> A) cs in
          mkSplit (c :: p_adds s) (p_drops s) (p_fails s) (c :: p_undropped s)
      end
  end.

Definition add_all (A : gmap CircuitKey PaymentCircuit) (cs : list PaymentCircuit) :=
  foldl (fun A c => <[Incoming c := c]> A) A cs.

Fixpoint spec_check (A : gmap CircuitKey PaymentCircuit) (kss : list Keystone) : outcome circuit_err unit :=
  match kss with
  | [] => Ok tt
  | ks :: kss =>
      if bool_decide (is_Some (holder A (KS_OutKey ks))) then Err ErrDuplicateKeystone
      else if bool_decide (A !! KS_InKey ks = None) then Err ErrUnknownCircuit
      else spec_check A kss
  end.

Definition open_one (A : gmap CircuitKey PaymentCircuit) (ks : Keystone) :=
  alter (set_outgoing (Some (KS_OutKey ks))) (KS_InKey ks) A.

(** The run of keystones of a channel from an index on is removed. *)
Fixpoint spec_trim (fuel : nat) (chanID : ShortChannelID) (i : Z) (A : gmap CircuitKey PaymentCircuit) :=
  match fuel with
  | O => A
  | S fuel =>
      match holder A (mkCircuitKey chanID i) with
      | None => A
      | Some c => spec_trim fuel chanID (u64 (i + 1)) (<[Incoming c := set_outgoing None c]> A)
      end
  end.

Definition complete (c : option PaymentCircuit) (s : astate) : result * astate :=
  match c with
  | None => (plain (Err ErrUnknownCircuit), s)
  | Some c =>
      if bool_decide (Incoming c ∈ s.2) then (plain (Err ErrCircuitClosing), s)
      else (mkResult (Ok tt) (Some c) [] [] [], (s.1, {[Incoming c]} ∪ s.2))
  end.

Definition spec (op : cop) (s : astate) : result * astate :=
  match op with
  | OpCommit dbOk cs =>
      let p := classify s.1 cs in
      if bool_decide (p_adds p = []) then (mkResult (Ok tt) None [] (p_drops p) (p_fails p), s)
      else if dbOk
      then (mkResult (Ok tt) None (p_adds p) (p_drops p) (p_fails p), (add_all s.1 (p_adds p), s.2))
      else (mkResult (Err ErrCircuitDB) None [] (p_drops p) (p_undropped p), s)
  | OpOpen dbOk kss =>
      match kss, spec_check s.1 kss with
      | [], _ => (plain (Ok tt), s)
      | _, Ok _ => if dbOk then (plain (Ok tt), (foldl open_one s.1 kss, s.2)) else (plain (Err ErrCircuitDB), s)
      | _, e => (plain e, s)
      end
  | OpTrim chanID start => (plain (Ok tt), (spec_trim (S (size s.1)) chanID start s.1, s.2))
  | OpFail inKey => complete (s.1 !! inKey) s
  | OpClose outKey => complete (holder s.1 outKey) s
  | OpDelete dbOk inKeys =>
      if dbOk
      then (plain (Ok tt), (foldl (fun A k => delete k A) s.1 inKeys, s.2 ∖ list_to_set inKeys))
      else (plain (Err ErrCircuitDB), s)
  | OpRestart => (plain (Ok tt), (set_loaded <$> s.1, ∅))
  end.

(** ** Running the code *)

(** The caller of [CommitCircuits] makes the objects. *)
Fixpoint alloc (cs : list PaymentCircuit) (cm : circuitMap) : list nat * circuitMap :=
  match cs with
  | [] => ([], cm)
  | c :: cs =>
      let p := fresh (dom (heap cm)) in
      let '(ps, cm) := alloc cs (set_heap cm (<[p := c]> (heap cm))) in (p :: ps, cm)
  end.

Definition objects (cm : circuitMap) (ps : list nat) : list PaymentCircuit := omap (fun p => heap cm !! p) ps.

Definition completed (r : outcome circuit_err nat * circuitMap) : result * circuitMap :=
  match r with
  | (Ok p, cm) => (mkResult (Ok tt) (heap cm !! p) [] [] [], cm)
  | (Err e, cm) => (plain (Err e), cm)
  | (Panic, cm) => (plain Panic, cm)
  end.

Definition run_circuit (op : cop) (cm : circuitMap) : result * circuitMap :=
  match op with
  | OpCommit dbOk cs =>
      let '(ps, cm) := alloc cs cm in
      let '(r, a, cm) := CommitCircuits dbOk ps cm in
      (mkResult r None (objects cm (Adds a)) (objects cm (Drops a)) (objects cm (Fails a)), cm)
  | OpOpen dbOk kss => let '(r, cm) := OpenCircuits dbOk kss cm in (plain r, cm)
  | OpTrim chanID start => let '(r, cm) := TrimOpenCircuits true chanID start cm in (plain r, cm)
  | OpFail inKey => completed (FailCircuit inKey cm)
  | OpClose outKey => completed (CloseCircuit outKey cm)
  | OpDelete dbOk inKeys => let '(r, cm) := DeleteCircuits dbOk inKeys cm in (plain r, cm)
  | OpRestart =>
      match restoreMemState true (circuitBkt cm) (keystoneBkt cm) with
      | Ok cm => (plain (Ok tt), cm)
      | Err e => (plain (Err e), cm)
      | Panic => (plain Panic, cm)
      end
  end.

(** What the callers guarantee: circuits that are committed are new objects
    without a keystone; keystones are set once per circuit, with distinct keys. *)
Definition op_ok (A : gmap CircuitKey PaymentCircuit) (op : cop) : Prop :=
  match op with
  | OpCommit _ cs => Forall (fun c => wf_circuit c /\ Outgoing c = None) cs
  | OpOpen _ kss =>
      NoDup (KS_OutKey <$> kss) /\ NoDup (KS_InKey <$> kss) /\
      Forall (fun ks => wf_key (KS_OutKey ks) /\ KS_OutKey ks <> EmptyCircuitKey /\
                forall c, A !! KS_InKey ks = Some c -> Outgoing c = None) kss
  | _ => True
  end.

(** A state of the map implements a state of the machine. *)
Definition implements (cm : circuitMap) (s : astate) : Prop :=
  Inv cm /\ circuits cm = s.1 /\ closed cm = s.2.

Definition simulates (op : cop) (cm : circuitMap) : Prop :=
  let '(r, cm') := run_circuit op cm in
  let '(r', s') := spec op (circuits cm, closed cm) in r = r' /\ implements cm' s'.

(** ** Lookups by outgoing key *)

Lemma holder_Some A o c :
  keys_ok A -> holder A o = Some c <-> A !! Incoming c = Some c /\ Outgoing c = Some o.
Proof.
  intros [HA HU]. unfold holder. set (l := filter _ _).
  assert (forall k d, (k, d) ∈ l <-> Outgoing d = Some o /\ A !! k = Some d) as Hl.
  { intros k d. unfold l. by rewrite list_elem_of_filter, elem_of_map_to_list. }
  destruct l as [|[k d] l']; simpl.
  - split; [done|]. intros [H1 H2].
    pose proof (proj2 (Hl _ _) (conj H2 H1)) as Hin. by apply not_elem_of_nil in Hin.
  - destruct (proj1 (Hl k d) (list_elem_of_here _ _)) as [Hd Hk]. pose proof (proj1 (HA _ _ Hk)) as <-. split.
    + by intros [= <-].
    + intros [H1 H2]. f_equal. pose proof (HU _ _ _ _ _ Hk H1 Hd H2) as He. rewrite He in Hk. congruence.
Qed.

Lemma holder_None A o :
  keys_ok A -> holder A o = None <-> forall k c, A !! k = Some c -> Outgoing c <> Some o.
Proof.
  intros HA. split.
  - intros Hn k c Hk Ho. destruct (proj1 HA _ _ Hk) as [<- _].
    assert (holder A o = Some c) by by apply holder_Some. congruence.
  - intros H. destruct (holder A o) as [c|] eqn:E; [|done]. apply holder_Some in E as [H1 H2]; [|done].
    by destruct (H _ _ H1).
Qed.

Lemma holder_opened cm o :
  MemInv cm -> holder (circuits cm) o = opened cm !! o ≫= fun p => heap cm !! p.
Proof.
  intros HI. pose proof (keys_ok_mem _ HI) as HK. destruct (opened cm !! o) as [p|] eqn:E; simpl.
  - destruct (opened_circuit _ _ _ HI E) as (c & -> & _ & HA & Ho). by apply holder_Some.
  - apply holder_None; [done|]. intros k c (p & Hp & Hc)%circuits_Some Ho.
    assert (opened cm !! o = Some p) by (apply (i_opened _ HI); eauto). congruence.
Qed.

Lemma holder_opened_None cm o : MemInv cm -> holder (circuits cm) o = None <-> opened cm !! o = None.
Proof.
  intros HI. rewrite holder_opened by done. destruct (opened cm !! o) as [p|] eqn:E; simpl; [|done].
  destruct (opened_circuit _ _ _ HI E) as (c & -> & _). done.
Qed.

(** ** Committing *)

Lemma mem_grow cm h :
  MemInv cm -> heap cm ⊆ h -> MemInv (set_heap cm h) /\ circuits (set_heap cm h) = circuits cm.
Proof.
  intros HI Hh.
  assert (forall k p, pending cm !! k = Some p -> h !! p = heap cm !! p) as He.
  { intros k p [c Hc]%(i_deref _ HI). rewrite Hc. by eapply lookup_weaken. }
  assert (circuits (set_heap cm h) = circuits cm) as HA.
  { apply map_eq. intros k. rewrite !lookup_circuits. simpl.
    destruct (pending cm !! k) as [p|] eqn:E; simpl; [|done]. by eapply He. }
  split; [|done]. split; simpl.
  - intros k p Hk. rewrite (He _ _ Hk). by eapply i_deref.
  - rewrite HA. apply (i_keys _ HI).
  - intros o p. rewrite (i_opened _ HI). split; intros (k & c & Hk & Hc & Ho); exists k, c;
      split_and!; try done; pose proof (He _ _ Hk); congruence.
  - apply (i_closed _ HI).
Qed.

Lemma alloc_spec cs cm :
  exists ps h, alloc cs cm = (ps, set_heap cm h) /\ heap cm ⊆ h /\ Forall2 (fun p c => h !! p = Some c) ps cs.
Proof.
  revert cm. induction cs as [|c cs IH]; intros cm; simpl.
  - exists [], (heap cm). split_and!; [by destruct cm|done|constructor].
  - set (p := fresh _). assert (heap cm !! p = None) as Hp.
    { apply not_elem_of_dom. apply is_fresh. }
    destruct (IH (set_heap cm (<[p := c]> (heap cm)))) as (ps & h & Ha & Hh & Hf). rewrite Ha. simpl in *.
    exists (p :: ps), h. split_and!; [done| |].
    + etrans; [|exact Hh]. by apply insert_subseteq.
    + constructor; [|done]. eapply lookup_weaken; [|exact Hh]. apply lookup_insert_eq.
Qed.

Lemma objects_all cm ps cs : Forall2 (fun p c => heap cm !! p = Some c) ps cs -> objects cm ps = cs.
Proof. induction 1 as [|p c ps cs H _ IH]; simpl; [done|]. unfold objects in *. simpl. by rewrite H, IH. Qed.

Definition new_circuit (c : PaymentCircuit) : Prop := circuit_ok c /\ Outgoing c = None.

Lemma keys_ok_add A c : keys_ok A -> A !! Incoming c = None -> new_circuit c -> keys_ok (<[Incoming c := c]> A).
Proof.
  intros [HA HU] Hn [Hok Ho]. split.
  - intros k d [[<- <-]|[_ Hd]]%lookup_insert_Some; [done|]. by apply HA.
  - intros k k' d d' o [[<- <-]|[_ Hd]]%lookup_insert_Some [[<- <-]|[_ Hd']]%lookup_insert_Some; try congruence.
    by apply HU.
Qed.

Lemma classify_adds A cs :
  Forall (fun c => c ∈ cs) (p_adds (classify A cs)) /\ NoDup (Incoming <$> p_adds (classify A cs)) /\
  Forall (fun c => A !! Incoming c = None) (p_adds (classify A cs)).
Proof.
  revert A. induction cs as [|c cs IH]; intros A; simpl; [repeat constructor|].
  destruct (A !! Incoming c) as [f|] eqn:E.
  - destruct (IH A) as (H1 & H2 & H3). destruct (_ || _); simpl; split_and!; try done;
      (eapply Forall_impl; [exact H1|]; set_solver).
  - destruct (IH (<[Incoming c := c]> A)) as (H1 & H2 & H3). simpl. split_and!.
    + constructor; [set_solver|]. eapply Forall_impl; [exact H1|]. set_solver.
    + constructor; [|done]. intros (d & He & Hd)%list_elem_of_fmap. rewrite Forall_forall in H3.
      specialize (H3 _ Hd). rewrite <- He, lookup_insert_eq in H3. done.
    + constructor; [done|]. eapply Forall_impl; [exact H3|]. by intros d [Hd _]%lookup_insert_None.
Qed.

Definition insert_all (m : gmap CircuitKey nat) (kps : list (CircuitKey * nat)) :=
  foldl (fun m kp => <[kp.1 := kp.2]> m) m kps.

Lemma reconcile_spec ps cs cm l :
  MemInv cm -> Forall2 (fun p c => heap cm !! p = Some c) ps cs -> Forall new_circuit cs ->
  exists pa pd pf pu,
    let R := Forall2 (fun p c => heap cm !! p = Some c) in
    let s := classify (circuits cm) cs in
    let cm' := set_pending cm (insert_all (pending cm) (zip (Incoming <$> p_adds s) pa)) in
    R pa (p_adds s) /\ R pd (p_drops s) /\ R pf (p_fails s) /\ R pu (p_undropped s) /\
    reconcile cm ps l = Ok (cm', mkLists (l_adds l ++ pa) (l_drops l ++ pd) (l_fails l ++ pf) (l_addFails l ++ pu)) /\
    MemInv cm' /\ circuits cm' = add_all (circuits cm) (p_adds s).
Proof.
  intros HI HF HN. revert cm l HI HF. induction cs as [|c cs IH] in ps, HN |- *; intros cm l HI HF.
  { apply Forall2_nil_inv_r in HF as ->. exists [], [], [], []. simpl. rewrite !app_nil_r.
    destruct cm, l. split_and!; try done; constructor. }
  apply Forall2_cons_inv_r in HF as (p & ps' & Hp & HF & ->). inversion_clear HN as [|? ? Hnc HN'].
  simpl. unfold deref. rewrite Hp. simpl. unfold InKey.
  destruct (circuits cm !! Incoming c) as [f|] eqn:EA.
  - pose proof EA as (q & Hq & Hf)%circuits_Some. rewrite Hq, Hf. simpl.
    destruct (HasKeystone f || negb (LoadedFromDisk f)).
    + destruct (IH ps' HN' cm (mkLists (l_adds l) (l_drops l ++ [p]) (l_fails l) (l_addFails l)) HI HF)
        as (pa & pd & pf & pu & Ha & Hd & Hx & Hu & Hr & HI' & HA).
      exists pa, (p :: pd), pf, pu. simpl in *. rewrite Hr, <- app_assoc. split_and!; try done. by constructor.
    + destruct (IH ps' HN' cm (mkLists (l_adds l) (l_drops l) (l_fails l ++ [p]) (l_addFails l ++ [p])) HI HF)
        as (pa & pd & pf & pu & Ha & Hd & Hx & Hu & Hr & HI' & HA).
      exists pa, pd, (p :: pf), (p :: pu). simpl in *. rewrite Hr, <- !app_assoc.
      split_and!; try done; by constructor.
  - pose proof (proj1 (circuits_deref _ _ HI) EA) as Hn. rewrite Hn.
    destruct Hnc as [Hok Ho]. pose proof (mem_add _ _ _ HI Hp Hn Hok Ho) as HI1.
    destruct (IH ps' HN' _ (mkLists (l_adds l ++ [p]) (l_drops l) (l_fails l) (l_addFails l ++ [p])) HI1 HF)
      as (pa & pd & pf & pu & Ha & Hd & Hx & Hu & Hr & HI' & HA).
    rewrite (circuits_pending _ _ _ _ Hp) in *.
    exists (p :: pa), pd, pf, (p :: pu). simpl in *. rewrite Hr, <- !app_assoc.
    split_and!; try done; by constructor.
Qed.

Lemma rollback m ks ps :
  NoDup ks -> Forall (fun k => m !! k = None) ks ->
  foldl (fun m k => delete k m) (insert_all m (zip ks ps)) ks = m.
Proof.
  intros Hd. revert m ps. induction ks as [|k ks IH]; intros m ps Hn; [by destruct ps|].
  apply NoDup_cons in Hd as [Hk Hd]. inversion_clear Hn as [|? ? Hmk Hn'].
  destruct ps as [|p ps]; simpl.
  - rewrite delete_id by done. apply (IH Hd m []) in Hn'. by destruct ks.
  - unfold insert_all. simpl. fold (insert_all (<[k := p]> m) (zip ks ps)).
    replace (delete k (insert_all (<[k:=p]> m) (zip ks ps))) with (insert_all m (zip ks ps)); [by apply IH|].
    clear IH Hd Hn'. revert m ps Hmk. induction ks as [|k' ks IH]; intros m ps Hmk.
    { unfold insert_all. simpl. by rewrite delete_insert_id. }
    destruct ps as [|p' ps]; [unfold insert_all; simpl; by rewrite delete_insert_id|].
    apply not_elem_of_cons in Hk as [Hkk Hk]. unfold insert_all. simpl.
    rewrite insert_insert_ne by done. apply IH; [done|]. by rewrite lookup_insert_ne.
Qed.

End spec.
