(* ===== verification/CircuitMapSim.v ===== *)
(** * htlcswitch: the circuit map implements its abstract machine

    One simulation lemma per operation: run on a state that satisfies the
    invariant, the code returns what the machine returns and ends in a state that
    implements the machine's, also when its transaction fails. *)

From Stdlib Require Import ZArith Lia.
From S2P Require Import Prelude Wire WireGossip WireModels UpdateLog Kvdb CircuitMap.
From S2P Require Import CircuitMapInv.

Local Open Scope Z_scope.

Section sim.
Context {BT : Btcec} {SX : Sphinx} {BL : BtcecLaws}.

(** ** Committing *)

Lemma encodeAdds_spec cm ps cs :
  Forall2 (fun p c => heap cm !! p = Some c) ps cs -> Forall new_circuit cs ->
  exists puts, encodeAdds cm ps = Ok puts /\
    Forall2 (fun kv c => kv.1 = CircuitKeys.Bytes (Incoming c) /\ decodeCircuit kv.2 = Ok (restored c)) puts cs.
Proof.
  induction 1 as [|p c ps cs Hp _ IH]; intros HN; simpl; [eauto|].
  apply Forall_cons in HN as [[[Hw _] _] HN']. destruct (IH HN') as (puts & -> & HF).
  unfold deref. rewrite Hp. simpl. destruct (circuit_decode_encode c Hw) as (bs & Hb & Hd).
  specialize (Hb []). simpl in Hb. rewrite Hb. simpl. eexists. split; [done|]. by constructor.
Qed.

Lemma disk_add_all A cb kb puts cs :
  keys_ok A -> DiskInv A cb kb -> Forall new_circuit cs ->
  NoDup (Incoming <$> cs) -> Forall (fun c => A !! Incoming c = None) cs ->
  Forall2 (fun kv c => kv.1 = CircuitKeys.Bytes (Incoming c) /\ decodeCircuit kv.2 = Ok (restored c)) puts cs ->
  DiskInv (add_all A cs) (foldl (fun b kv => <[kv.1 := kv.2]> b) cb puts) kb.
Proof.
  intros HK HD HN Hd Hf HF. revert A cb HK HD Hf.
  induction HF as [|[k v] c puts cs [Hk Hv] _ IH]; intros A cb HK HD Hf; [done|]. simpl in Hk, Hv. subst k.
  apply Forall_cons in HN as [Hc HN']. apply Forall_cons in Hf as [Hn Hf'].
  apply NoDup_cons in Hd as [Hin Hd]. unfold add_all. simpl. apply IH; [done|done| | |].
  - by apply keys_ok_add.
  - destruct Hc. by apply disk_add.
  - rewrite Forall_forall in *. intros d Hdc. rewrite lookup_insert_ne; [by apply Hf'|].
    intros He. apply Hin. rewrite He. by apply list_elem_of_fmap_2.
Qed.

Lemma hash_add_all A h cs : HashInv A h -> Forall new_circuit cs -> HashInv (add_all A cs) h.
Proof.
  intros HH HN. revert A HH. induction HN as [|d cs [_ Hd] _ IH]; intros A HH; [done|]. apply IH.
  intros k c o [[<- <-]|[_ Hk]]%lookup_insert_Some Ho; [congruence|by eapply HH].
Qed.

Lemma inKeysOf_all cm ps cs :
  Forall2 (fun p c => heap cm !! p = Some c) ps cs -> inKeysOf cm ps = Incoming <$> cs.
Proof. unfold inKeysOf. induction 1 as [|p c ps cs H _ IH]; simpl; [done|]. rewrite H. simpl. by f_equal. Qed.

Lemma CommitCircuits_sim dbOk cs cm : Inv cm -> op_ok (circuits cm) (OpCommit dbOk cs) -> simulates (OpCommit dbOk cs) cm.
Proof.
  intros [HM HH HD] Hok. unfold simulates. simpl.
  destruct (alloc_spec cs cm) as (ps & h & -> & Hh & HF).
  destruct (mem_grow _ _ HM Hh) as [HM1 HA1]. set (cm1 := set_heap cm h) in *.
  assert (Forall new_circuit cs) as HN.
  { eapply Forall_impl; [exact Hok|]. intros c [Hw Ho]. repeat split; try apply Hw; congruence. }
  destruct (reconcile_spec ps cs cm1 (mkLists [] [] [] []) HM1 HF HN)
    as (pa & pd & pf & pu & Ha & Hd & Hx & Hu & Hr & HM2 & HA2).
  unfold CommitCircuits. rewrite Hr. clear Hr. simpl. rewrite HA1 in *.
  destruct (classify_adds (circuits cm) cs) as (Hsub & Hnd & Hnew).
  set (s := classify (circuits cm) cs) in *. set (cm2 := set_pending cm1 _) in *.
  assert (Forall new_circuit (p_adds s)) as HNa.
  { rewrite Forall_forall in *. intros c Hc. by apply HN, Hsub. }
  assert (bool_decide (pa = []) = bool_decide (p_adds s = [])) as ->.
  { apply bool_decide_ext. apply Forall2_length in Ha. destruct pa, (p_adds s); naive_solver. }
  case_bool_decide as Hn.
  { split; [|split_and!; [split|..]]; try done.
    - simpl. f_equal; by apply objects_all.
    - simpl. by rewrite HA2, Hn.
    - by rewrite HA2, Hn. 
    - by rewrite HA2, Hn. }
  destruct (encodeAdds_spec cm2 pa (p_adds s) Ha HNa) as (puts & -> & Hputs). destruct dbOk.
  - split; [|split_and!; [split|..]]; try done.
    + simpl. f_equal; by apply objects_all.
    + by apply mem_disk.
    + change (circuits (set_disk cm2 _ _)) with (circuits cm2). rewrite HA2. by apply hash_add_all.
    + change (circuits (set_disk cm2 _ _)) with (circuits cm2). rewrite HA2.
      apply disk_add_all; try done. by apply keys_ok_mem.
  - assert (set_pending cm2 (foldl (fun m k => delete k m) (insert_all (pending cm) (zip (Incoming <$> p_adds s) pa))
      (inKeysOf cm2 pa)) = cm1) as ->.
    { rewrite (inKeysOf_all cm2 _ _ Ha). simpl. rewrite rollback; [by destruct cm|done|].
      apply Forall_fmap. eapply Forall_impl; [exact Hnew|]. simpl. intros c Hc. by apply (circuits_deref cm). }
    split; [|split_and!; [split|..]]; try done.
    + simpl. f_equal; by apply objects_all.
    + by rewrite HA1.
    + by rewrite HA1.
Qed.

(** ** Opening *)

(** The keystones can be set one after the other. *)
Definition openable (A : gmap CircuitKey PaymentCircuit) (kss : list Keystone) : Prop :=
  NoDup (KS_OutKey <$> kss) /\ NoDup (KS_InKey <$> kss) /\
  Forall (fun ks => wf_key (KS_OutKey ks) /\ KS_OutKey ks <> EmptyCircuitKey /\
    (exists c, A !! KS_InKey ks = Some c /\ Outgoing c = None) /\
    forall k c, A !! k = Some c -> Outgoing c <> Some (KS_OutKey ks)) kss.

Lemma open_one_insert A ks c :
  A !! KS_InKey ks = Some c -> open_one A ks = <[KS_InKey ks := set_outgoing (Some (KS_OutKey ks)) c]> A.
Proof.
  intros H. unfold open_one. apply map_eq. intros k. destruct (decide (k = KS_InKey ks)) as [->|].
  - by rewrite lookup_alter_eq, lookup_insert_eq, H.
  - by rewrite lookup_alter_ne, lookup_insert_ne by done.
Qed.

Lemma openable_step A ks kss : openable A (ks :: kss) -> openable (open_one A ks) kss.
Proof.
  intros (Ho & Hi & HF). simpl in Ho, Hi. apply NoDup_cons in Ho as [Hno Ho], Hi as [Hni Hi].
  apply Forall_cons in HF as [(_ & _ & (c & Hc & _) & _) HF']. split_and!; [done..|].
  rewrite (open_one_insert _ _ _ Hc). rewrite Forall_forall in *. intros ks' Hks.
  destruct (HF' ks' Hks) as (H1 & H2 & (c' & Hc' & Ho') & H4).
  assert (KS_InKey ks <> KS_InKey ks') by (intros He; apply Hni; rewrite He; by apply list_elem_of_fmap_2).
  assert (KS_OutKey ks <> KS_OutKey ks') by (intros He; apply Hno; rewrite He; by apply list_elem_of_fmap_2).
  split_and!; [done..| |].
  - exists c'. by rewrite lookup_insert_ne.
  - intros k d [[<- <-]|[_ Hd]]%lookup_insert_Some; [simpl; congruence|by eapply H4].
Qed.

Lemma keys_ok_open A ks kss : keys_ok A -> openable A (ks :: kss) -> keys_ok (open_one A ks).
Proof.
  intros [HA HU] (_ & _ & HF). apply Forall_cons in HF as [(Hw & He & (c & Hc & Ho) & Hn) _].
  rewrite (open_one_insert _ _ _ Hc). destruct (HA _ _ Hc) as [Hin [Hwc _]]. split.
  - intros k d [[<- <-]|[_ Hd]]%lookup_insert_Some; [|by apply HA].
    split; [done|]. split; [exact Hwc|]. simpl. by intros ? [= <-].
  - intros k k' d d' o [[<- <-]|[_ Hd]]%lookup_insert_Some [[<- <-]|[_ Hd']]%lookup_insert_Some Hdo Hdo';
      simpl in *; simplify_eq; try done; [by destruct (Hn _ _ Hd')|by destruct (Hn _ _ Hd)|by eapply HU].
Qed.

Lemma disk_open_all A cb kb kss :
  keys_ok A -> DiskInv A cb kb -> openable A kss ->
  DiskInv (foldl open_one A kss) cb (putKeystones kb kss).
Proof.
  revert A kb. induction kss as [|ks kss IH]; intros A kb HK HD HO; [done|]. simpl.
  apply (IH (open_one A ks)); [by eapply keys_ok_open| |by apply openable_step].
  destruct HO as (_ & _ & HF). apply Forall_cons in HF as [(Hw & He & (c & Hc & Ho) & Hn) _].
  rewrite (open_one_insert _ _ _ Hc). by apply disk_open.
Qed.

Lemma openMem_spec ps kss cm :
  MemInv cm -> HashInv (circuits cm) (hashIndex cm) -> openable (circuits cm) kss ->
  Forall2 (fun p ks => pending cm !! KS_InKey ks = Some p) ps kss ->
  exists cm', openMem cm (zip ps kss) = Ok cm' /\ MemInv cm' /\ HashInv (circuits cm') (hashIndex cm') /\
    circuits cm' = foldl open_one (circuits cm) kss /\ closed cm' = closed cm /\
    circuitBkt cm' = circuitBkt cm /\ keystoneBkt cm' = keystoneBkt cm.
Proof.
  revert ps cm. induction kss as [|ks kss IH]; intros ps cm HM HH HO HF.
  { apply Forall2_nil_inv_r in HF as ->. exists cm. done. }
  apply Forall2_cons_inv_r in HF as (p & ps' & Hp & HF & ->). simpl.
  pose proof HO as (_ & _ & HO'). apply Forall_cons in HO' as [(Hw & He & (c & Hc & Ho) & Hn) _].
  pose proof Hc as (p' & Hp' & Hh)%circuits_Some. simplify_eq. unfold deref. rewrite Hh. simpl.
  assert (opened cm !! KS_OutKey ks = None) as Hnone.
  { apply holder_opened_None; [done|]. apply holder_None; [by apply keys_ok_mem|done]. }
  pose proof (mem_open _ _ _ _ _ HM Hp Hh Ho Hnone Hw He) as HM1.
  set (cm1 := set_opened _ _) in *. set (c1 := set_outgoing _ c).
  assert (circuits (addCircuitToHashIndex cm1 c1) = open_one (circuits cm) ks) as HA.
  { rewrite (open_one_insert _ _ _ Hc). apply (circuits_heap cm _ _ c1 HM Hp). }
  destruct (IH ps' (addCircuitToHashIndex cm1 c1)) as (cm' & Hr & HM' & HH' & HA' & HX' & Hb & Hk).
  - by apply mem_hash.
  - rewrite HA, (open_one_insert _ _ _ Hc). intros k d o [[<- <-]|[_ Hd]]%lookup_insert_Some Hdo.
    + simpl in Hdo. injection Hdo as <-. apply (proj2 (hash_add cm1 c1 _)). by left.
    + destruct (HH _ _ _ Hd Hdo) as (s & Hs & Hin). by eapply hash_add_mono.
  - rewrite HA. by apply openable_step.
  - exact HF.
  - exists cm'. split_and!; try done. by rewrite HA', HA.
Qed.

Lemma checkKeystones_spec cm kss :
  MemInv cm ->
  match checkKeystones cm kss with
  | Ok ps => spec_check (circuits cm) kss = Ok tt /\
      Forall2 (fun p ks => pending cm !! KS_InKey ks = Some p) ps kss /\
      Forall (fun ks => holder (circuits cm) (KS_OutKey ks) = None) kss
  | Err e => spec_check (circuits cm) kss = Err e
  | Panic => False
  end.
Proof.
  intros HM. induction kss as [|ks kss IH]; simpl; [by repeat constructor|].
  pose proof (holder_opened_None cm (KS_OutKey ks) HM) as Hh.
  pose proof (circuits_deref cm (KS_InKey ks) HM) as Hd.
  destruct (opened cm !! KS_OutKey ks) as [q|] eqn:Eo.
  { rewrite bool_decide_eq_true_2 by eauto.
    destruct (holder (circuits cm) (KS_OutKey ks)); [by rewrite bool_decide_eq_true_2 by eauto|].
    by pose proof (proj1 Hh eq_refl). }
  rewrite (proj2 Hh eq_refl). rewrite !(bool_decide_eq_false_2 (is_Some None)) by (by intros []).
  destruct (pending cm !! KS_InKey ks) as [p|] eqn:Ep.
  - rewrite bool_decide_eq_false_2 by (intros Hx; by apply Hd in Hx).
    destruct (checkKeystones cm kss) as [ps|e|]; simpl; [|done..]. destruct IH as (H1 & H2 & H3).
    split_and!; [done|by constructor|]. constructor; [|done]. by apply Hh.
  - by rewrite (bool_decide_eq_true_2 (circuits cm !! _ = None)) by (by apply Hd).
Qed.

Lemma checked_openable cm kss ps dbOk :
  MemInv cm -> op_ok (circuits cm) (OpOpen dbOk kss) ->
  Forall2 (fun p ks => pending cm !! KS_InKey ks = Some p) ps kss ->
  Forall (fun ks => holder (circuits cm) (KS_OutKey ks) = None) kss -> openable (circuits cm) kss.
Proof.
  intros HM (Ho & Hi & HF) HP HH. split_and!; [done..|]. rewrite Forall_forall in *. intros ks Hks.
  destruct (HF ks Hks) as (H1 & H2 & H3). split_and!; [done..| |].
  - apply Forall2_flip in HP. eapply Forall2_Forall_l in HP.
    2: { apply Forall_true. intros p ks' Hp. destruct (i_deref _ HM _ _ Hp) as [c Hc].
         exact (ex_intro (fun c => circuits cm !! KS_InKey ks' = Some c) c (circuits_ptr _ _ _ _ Hp Hc)). }
    rewrite Forall_forall in HP. destruct (HP ks Hks) as [c Hc]. eauto.
  - apply holder_None; [by apply keys_ok_mem|auto].
Qed.

Lemma OpenCircuits_sim dbOk kss cm :
  Inv cm -> op_ok (circuits cm) (OpOpen dbOk kss) -> simulates (OpOpen dbOk kss) cm.
Proof.
  intros HI Hok. pose proof HI as [HM HH HD]. unfold simulates. cbn [run_circuit spec fst snd]. unfold OpenCircuits.
  destruct kss as [|ks kss']; [by rewrite bool_decide_eq_true_2|]. set (kss := ks :: kss') in *.
  rewrite bool_decide_eq_false_2 by done.
  pose proof (checkKeystones_spec cm kss HM) as Hc. destruct (checkKeystones cm kss) as [ps|e|]; [|by rewrite Hc|done].
  destruct Hc as (-> & HP & HN). destruct dbOk; simpl negb; cbn iota; [|done].
  pose proof (checked_openable _ _ _ _ HM Hok HP HN) as HO.
  destruct (openMem_spec ps kss (set_disk cm (circuitBkt cm) (putKeystones (keystoneBkt cm) kss)))
    as (cm' & -> & HM' & HH' & HA' & HX' & Hb & Hk); try done; [by apply mem_disk|].
  split; [done|]. split; [split; [done|done|]|done]. rewrite HA', Hb, Hk. apply disk_open_all; try done.
  exact (keys_ok_mem _ HM).
Qed.

(** ** Completing *)

Lemma FailCircuit_sim inKey cm : Inv cm -> simulates (OpFail inKey) cm.
Proof.
  intros HI. pose proof HI as [HM HH HD]. unfold simulates. simpl. unfold FailCircuit.
  pose proof (circuits_deref cm inKey HM) as Hd.
  destruct (pending cm !! inKey) as [p|] eqn:Ep; [|by rewrite (proj2 Hd eq_refl)].
  destruct (i_deref _ HM _ _ Ep) as [c Hc]. pose proof (circuits_ptr _ _ _ _ Ep Hc) as HA. rewrite HA. simpl.
  destruct (i_keys _ HM _ _ HA) as [-> _]. case_bool_decide as Hx; simpl; [done|].
  rewrite Hc. split; [done|]. split; [split; [|done..]|done]. apply mem_closed; [done|].
  pose proof (i_closed _ HM). apply elem_of_dom_2 in Ep. set_solver.
Qed.

Lemma CloseCircuit_sim outKey cm : Inv cm -> simulates (OpClose outKey) cm.
Proof.
  intros HI. pose proof HI as [HM HH HD]. unfold simulates. simpl. unfold CloseCircuit.
  rewrite holder_opened by done. destruct (opened cm !! outKey) as [p|] eqn:Eo; [|done].
  destruct (opened_circuit _ _ _ HM Eo) as (c & Hc & Hp & HA & Ho). unfold deref. simpl. rewrite Hc. simpl.
  case_bool_decide as Hx; simpl; [done|]. rewrite Hc.
  split; [done|]. split; [split; [|done..]|done]. apply mem_closed; [done|].
  pose proof (i_closed _ HM). apply elem_of_dom_2 in Hp. set_solver.
Qed.

(** ** Trimming *)

Lemma hash_without A h k c :
  HashInv A h -> Outgoing c = None -> HashInv (<[k := c]> A) h.
Proof.
  intros HH Hc k' d o [[<- <-]|[_ Hd]]%lookup_insert_Some Ho; [congruence|by eapply HH].
Qed.

Lemma hash_remove_inv A cm c :
  HashInv A (hashIndex cm) -> (forall k d o, A !! k = Some d -> Outgoing d = Some o -> o <> OutKey c) ->
  HashInv A (hashIndex (removeCircuitFromHashIndex cm c)).
Proof.
  intros HH Hn k d o Hd Ho. destruct (HH _ _ _ Hd Ho) as (s & Hs & Hin). eapply hash_remove; eauto.
Qed.

Lemma size_opened cm : MemInv cm -> (size (opened cm) <= size (circuits cm))%nat.
Proof.
  intros HM. rewrite <- !length_map_to_list.
  rewrite <- (length_fmap (fun op => heap cm !! op.2) (map_to_list (opened cm))).
  rewrite <- (length_fmap (fun kc => Some kc.2) (map_to_list (circuits cm))).
  apply submseteq_length, NoDup_submseteq.
  - apply NoDup_fmap_2_strong; [|apply NoDup_map_to_list].
    intros [o p] [o' p'] H1%elem_of_map_to_list H2%elem_of_map_to_list. simpl. intros He.
    destruct (opened_circuit _ _ _ HM H1) as (c & Hc & _ & _ & Ho).
    destruct (opened_circuit _ _ _ HM H2) as (c' & Hc' & _ & _ & Ho'). congruence.
  - intros x ([o p] & -> & H1%elem_of_map_to_list)%list_elem_of_fmap. simpl.
    destruct (opened_circuit _ _ _ HM H1) as (c & -> & _ & HA & _).
    apply list_elem_of_fmap. exists (Incoming c, c). split; [done|]. by apply elem_of_map_to_list.
Qed.

Lemma trimLoop_spec fuel fuel' chanID i cm keys cb kb :
  MemInv cm -> HashInv (circuits cm) (hashIndex cm) -> DiskInv (circuits cm) cb (deleteKeys kb keys) ->
  (size (opened cm) < fuel)%nat -> (size (opened cm) < fuel')%nat ->
  exists cm' keys', trimLoop fuel chanID i cm keys = Ok (cm', keys') /\
    MemInv cm' /\ HashInv (circuits cm') (hashIndex cm') /\
    circuits cm' = spec_trim fuel' chanID i (circuits cm) /\ closed cm' = closed cm /\
    circuitBkt cm' = circuitBkt cm /\ keystoneBkt cm' = keystoneBkt cm /\
    DiskInv (circuits cm') cb (deleteKeys kb keys').
Proof.
  intros HM. revert fuel' i cm keys HM.
  induction fuel as [|fuel IH]; intros fuel' i cm keys HM HH HD Hf Hf'; [lia|].
  destruct fuel' as [|fuel']; [lia|]. simpl. rewrite holder_opened by done.
  destruct (opened cm !! mkCircuitKey chanID i) as [p|] eqn:Eo; simpl; [|by eauto 20].
  destruct (opened_circuit _ _ _ HM Eo) as (c & Hc & Hp & HA & Ho). unfold deref. rewrite Hc. simpl.
  pose proof (mem_trim _ _ _ _ HM Eo Hc) as HM1. set (cm1 := set_opened _ _) in *. set (c1 := set_outgoing None c) in *.
  assert (circuits cm1 = <[Incoming c := c1]> (circuits cm)) as HA1 by apply (circuits_heap cm _ _ c1 HM Hp).
  destruct (removeHash_eq cm1 c1) as [h Hh].
  assert (circuits (removeCircuitFromHashIndex cm1 c1) = circuits cm1) as HA2 by by rewrite Hh.
  assert (S (size (opened (removeCircuitFromHashIndex cm1 c1))) = size (opened cm)) as Hsz.
  { rewrite Hh. simpl. rewrite map_size_delete, Eo. pose proof (map_size_ne_0_lookup_2 (opened cm) _ (mk_is_Some _ _ Eo)).
    lia. }
  destruct (IH fuel' (u64 (i + 1)) (removeCircuitFromHashIndex cm1 c1) (keys ++ [mkCircuitKey chanID i]))
    as (cm' & keys' & Hr & HM' & HH' & HA' & HX' & Hb & Hk & HD').
  - rewrite Hh. by apply mem_hash.
  - rewrite HA2. apply hash_remove_inv.
    + rewrite HA1. by apply hash_without.
    + intros k d o Hd Hdo. destruct (i_keys _ HM1 _ _ Hd) as [_ [_ Hok]]. by apply Hok.
  - rewrite HA2, HA1. unfold deleteKeys. rewrite foldl_app. simpl. apply disk_trim; try done. by apply keys_ok_mem.
  - lia.
  - lia.
  - exists cm', keys'. split_and!; try done.
    + by rewrite HA', HA2, HA1.
    + by rewrite HX', Hh.
    + by rewrite Hb, Hh.
    + by rewrite Hk, Hh.
Qed.

Lemma TrimOpenCircuits_sim chanID start cm : Inv cm -> simulates (OpTrim chanID start) cm.
Proof.
  intros HI. pose proof HI as [HM HH HD]. unfold simulates. cbn [run_circuit spec fst snd].
  unfold TrimOpenCircuits. pose proof (size_opened _ HM).
  destruct (trimLoop_spec (S (size (opened cm))) (S (size (circuits cm))) chanID start cm [] (circuitBkt cm) (keystoneBkt cm))
    as (cm' & keys' & -> & HM' & HH' & HA' & HX' & Hb & Hk & HD'); [done|done|done|lia|lia|].
  case_bool_decide as Hn; cbn [negb].
  - split; [done|]. split; [split; [done|done|]|done]. rewrite Hb, Hk. by subst keys'.
  - split; [done|]. split; [split; [by apply mem_disk|done|]|done]. simpl. by rewrite Hb, Hk.
Qed.

(** ** Deleting *)

(** The circuits a deletion removes. *)
Fixpoint removedOf (A : gmap CircuitKey PaymentCircuit) (ks : list CircuitKey) : list (CircuitKey * PaymentCircuit) :=
  match ks with
  | [] => []
  | k :: ks => match A !! k with None => removedOf A ks | Some c => (k, c) :: removedOf (delete k A) ks end
  end.

Definition removed_rel (cm : circuitMap) (r : removedCircuit) (kc : CircuitKey * PaymentCircuit) : Prop :=
  rm_key r = kc.1 /\ heap cm !! rm_ptr r = Some kc.2 /\ pending cm !! kc.1 = Some (rm_ptr r) /\
  rm_closing r = bool_decide (kc.1 ∈ closed cm).

Definition delete_all (A : gmap CircuitKey PaymentCircuit) (ks : list CircuitKey) :=
  foldl (fun A k => delete k A) A ks.

Lemma disk_delete_all A cb kb ks cm rs :
  keys_ok A -> DiskInv A cb kb -> Forall2 (fun r kc => heap cm !! rm_ptr r = Some kc.2) rs (removedOf A ks) ->
  exists cb' kb', deleteDisk (set_disk cm cb kb) rs = Ok (set_disk cm cb' kb') /\ DiskInv (delete_all A ks) cb' kb'.
Proof.
  revert A cb kb rs. induction ks as [|k ks IH]; intros A cb kb rs HK HD HF; simpl in *.
  { apply Forall2_nil_inv_r in HF as ->. by eauto. }
  destruct (A !! k) as [c|] eqn:Ek; [|rewrite delete_id by done; by apply IH].
  apply Forall2_cons_inv_r in HF as (r & rs' & Hr & HF & ->). simpl. unfold deref. simpl in *. rewrite Hr. simpl.
  pose proof HK as [HA HU]. destruct (HA _ _ Ek) as [Hin _].
  assert (keys_ok (delete k A)) as HK'.
  { split; [intros ? ? [_ ?]%lookup_delete_Some; by apply HA|].
    intros ? ? ? ? ? [_ ?]%lookup_delete_Some [_ ?]%lookup_delete_Some. by apply HU. }
  pose proof (disk_delete _ _ _ _ _ HK HD Ek) as HD'.
  destruct (IH _ _ _ _ HK' HD' HF) as (cb' & kb' & Hd & HD''). exists cb', kb'. split; [|done].
  rewrite <- Hd. unfold HasKeystone, OutKey, InKey. rewrite Hin. by destruct (Outgoing c).
Qed.

(** What deleting one circuit does to the memory. *)
Definition drop_circuit (cm : circuitMap) (k : CircuitKey) (c : PaymentCircuit) : circuitMap :=
  let cm := set_pending cm (delete k (pending cm)) in
  let cm := if bool_decide (k ∈ closed cm) then set_closed cm (closed cm ∖ {[k]}) else cm in
  if HasKeystone c then removeCircuitFromHashIndex (set_opened cm (delete (OutKey c) (opened cm))) c else cm.

Lemma drop_circuit_eq cm k c :
  exists h, drop_circuit cm k c =
    set_hashIndex (set_opened (set_closed (set_pending cm (delete k (pending cm))) (closed cm ∖ {[k]}))
                     (unopen c (opened cm))) h.
Proof.
  unfold drop_circuit, HasKeystone, unopen, OutKey.
  assert (k ∉ closed cm -> closed cm ∖ {[k]} = closed cm) as Hc by (intros; set_solver).
  destruct (Outgoing c) as [o|] eqn:Ho; simpl; case_bool_decide as Hk; simpl.
  - match goal with |- context [removeCircuitFromHashIndex ?m ?d] => destruct (removeHash_eq m d) as [h ->] end.
    by exists h.
  - match goal with |- context [removeCircuitFromHashIndex ?m ?d] => destruct (removeHash_eq m d) as [h ->] end.
    exists h. rewrite Hc by done. by destruct cm.
  - exists (hashIndex cm). by destruct cm.
  - exists (hashIndex cm). rewrite Hc by done. by destruct cm.
Qed.

Lemma drop_circuit_spec cm k c :
  MemInv cm -> HashInv (circuits cm) (hashIndex cm) -> circuits cm !! k = Some c ->
  MemInv (drop_circuit cm k c) /\
  HashInv (circuits (drop_circuit cm k c)) (hashIndex (drop_circuit cm k c)) /\
  circuits (drop_circuit cm k c) = delete k (circuits cm) /\
  closed (drop_circuit cm k c) = closed cm ∖ {[k]} /\ opened (drop_circuit cm k c) = unopen c (opened cm) /\
  pending (drop_circuit cm k c) = delete k (pending cm) /\ heap (drop_circuit cm k c) = heap cm /\
  circuitBkt (drop_circuit cm k c) = circuitBkt cm /\ keystoneBkt (drop_circuit cm k c) = keystoneBkt cm.
Proof.
  intros HM HH HA. destruct (drop_circuit_eq cm k c) as [h Hh].
  assert (circuits (drop_circuit cm k c) = delete k (circuits cm)) as HA1 by (rewrite Hh; apply circuits_delete).
  assert (HashInv (delete k (circuits cm)) (hashIndex cm)) as HH1.
  { intros k' d o [_ Hd]%lookup_delete_Some Ho. by eapply HH. }
  split_and!; rewrite ?Hh; try done.
  - apply mem_hash. by apply mem_delete.
  - rewrite <- Hh, HA1. unfold drop_circuit. destruct (HasKeystone c) eqn:Ek.
    + apply hash_remove_inv; [by case_bool_decide|]. intros k' d o [Hne Hd]%lookup_delete_Some Ho He.
      apply bool_decide_eq_true in Ek. unfold OutKey in He. destruct (Outgoing c) as [o'|] eqn:Eo; [|done].
      subst o'. by apply Hne, (opened_unique cm k k' c d o).
    + by case_bool_decide.
  - by rewrite <- Hh.
Qed.

Lemma unopen_subseteq c o : unopen c o ⊆ o.
Proof. unfold unopen. destruct (Outgoing c); [apply delete_subseteq|done]. Qed.

Lemma removed_rel_weaken cm cm' k r kc :
  heap cm' = heap cm -> pending cm' = delete k (pending cm) -> closed cm' = closed cm ∖ {[k]} ->
  removed_rel cm' r kc -> removed_rel cm r kc.
Proof.
  intros Hh Hp Hx (H1 & H2 & H3 & H4). unfold removed_rel. rewrite Hh in H2. rewrite Hp in H3. rewrite Hx in H4.
  apply lookup_delete_Some in H3 as [Hne H3]. split_and!; [done..|]. rewrite H4. apply bool_decide_ext. set_solver.
Qed.

Lemma deleteMem_spec ks cm rem :
  MemInv cm -> HashInv (circuits cm) (hashIndex cm) ->
  exists cm' rs, deleteMem cm ks rem = Ok (cm', rem ++ rs) /\
    MemInv cm' /\ HashInv (circuits cm') (hashIndex cm') /\
    circuits cm' = delete_all (circuits cm) ks /\ closed cm' = closed cm ∖ list_to_set ks /\
    heap cm' = heap cm /\ circuitBkt cm' = circuitBkt cm /\ keystoneBkt cm' = keystoneBkt cm /\
    pending cm' ⊆ pending cm /\ opened cm' ⊆ opened cm /\
    Forall2 (removed_rel cm) rs (removedOf (circuits cm) ks).
Proof.
  revert cm rem. induction ks as [|k ks IH]; intros cm rem HM HH.
  { exists cm, []. simpl. rewrite app_nil_r. split_and!; try done. set_solver. }
  simpl. pose proof (circuits_deref cm k HM) as Hd. destruct (pending cm !! k) as [p|] eqn:Ep.
  - destruct (i_deref _ HM _ _ Ep) as [c Hc]. pose proof (circuits_ptr _ _ _ _ Ep Hc) as HA.
    unfold deref. rewrite Hc, HA. simpl.
    destruct (drop_circuit_spec cm k c HM HH HA) as (HM1 & HH1 & HA1 & HX1 & HO1 & HP1 & Hh1 & Hb1 & Hk1).
    change (if HasKeystone c then _ else _) with (drop_circuit cm k c).
    destruct (IH (drop_circuit cm k c) (rem ++ [mkRemoved k p (bool_decide (k ∈ closed cm))]) HM1 HH1)
      as (cm' & rs & -> & HM' & HH' & HA' & HX' & Hh' & Hb' & Hk' & HP' & HO' & HF).
    exists cm', (mkRemoved k p (bool_decide (k ∈ closed cm)) :: rs). rewrite HX', HX1, HA', HA1 in *.
    split_and!; try congruence; try done.
    + by rewrite <- app_assoc.
    + simpl. set_solver.
    + etrans; [exact HP'|]. rewrite HP1. apply delete_subseteq.
    + etrans; [exact HO'|]. rewrite HO1. apply unopen_subseteq.
    + constructor; [done|]. eapply Forall2_impl; [exact HF|]. intros. by eapply removed_rel_weaken.
  - rewrite (proj2 Hd eq_refl). destruct (IH cm rem HM HH)
      as (cm' & rs & -> & HM' & HH' & HA' & HX' & Hh' & Hb' & Hk' & HP' & HO' & HF).
    exists cm', rs. split_and!; try done.
    + rewrite HA'. unfold delete_all. simpl. rewrite delete_id; [done|]. by apply Hd.
    + rewrite HX'. simpl. assert (k ∉ closed cm); [|set_solver].
      intros Hin%(i_closed _ HM)%elem_of_dom. rewrite Ep in Hin. by destruct Hin.
Qed.

Lemma removedOf_keys A ks k : is_Some (A !! k) -> is_Some (delete_all A ks !! k) \/ k ∈ (removedOf A ks).*1.
Proof.
  revert A. induction ks as [|k' ks IH]; intros A Hk; simpl; [by left|].
  destruct (A !! k') as [c|] eqn:Ek; [|rewrite delete_id by done; by apply IH].
  destruct (decide (k = k')) as [->|Hne]; [right; set_solver|].
  destruct (IH (delete k' A)) as [H|H]; [by rewrite lookup_delete_ne|by left|right; set_solver].
Qed.

Lemma delete_all_Some A ks k c : delete_all A ks !! k = Some c <-> k ∉ ks /\ A !! k = Some c.
Proof.
  revert A. induction ks as [|k' ks IH]; intros A; simpl; [set_solver|].
  unfold delete_all in *. simpl. rewrite IH, lookup_delete_Some. set_solver.
Qed.

(** [cm1] is [cm] without the circuits of the keys [ks]. *)
Record without (cm cm1 : circuitMap) (ks : list CircuitKey) : Prop := {
  wo_heap : heap cm1 = heap cm;
  wo_disk : circuitBkt cm1 = circuitBkt cm /\ keystoneBkt cm1 = keystoneBkt cm;
  wo_pending : pending cm1 ⊆ pending cm;
  wo_opened : opened cm1 ⊆ opened cm;
  wo_closed : closed cm1 ⊆ closed cm;
  wo_circuits : forall k, is_Some (pending cm !! k) -> is_Some (pending cm1 !! k) \/ k ∈ ks;
  wo_open : forall k c o, circuits cm !! k = Some c -> Outgoing c = Some o ->
    (is_Some (opened cm1 !! o) /\ exists s, hashIndex cm1 !! PaymentHash c = Some s /\ o ∈ s) \/ k ∈ ks;
  wo_closing : forall k, k ∈ closed cm -> k ∈ closed cm1 \/ k ∈ ks;
}.

Lemma subseteq_full {A} (m m' : gmap CircuitKey A) :
  m' ⊆ m -> (forall k, is_Some (m !! k) -> is_Some (m' !! k)) -> m' = m.
Proof.
  intros Hs Hd. apply map_eq. intros k. destruct (m !! k) as [x|] eqn:E.
  - destruct (Hd k) as [y Hy]; [by eauto|]. rewrite Hy. pose proof (lookup_weaken _ _ _ _ Hy Hs). congruence.
  - by eapply lookup_weaken_None.
Qed.

Lemma without_nil cm cm1 :
  MemInv cm -> without cm cm1 [] ->
  cm1 = set_hashIndex cm (hashIndex cm1) /\ HashInv (circuits cm) (hashIndex cm1).
Proof.
  intros HM [Hh [Hb Hk] Hp Ho Hc H1 H2 H3]. split.
  - assert (pending cm1 = pending cm) as Ep.
    { apply subseteq_full; [done|]. intros k Hk'. destruct (H1 k Hk') as [|?%not_elem_of_nil]; done. }
    assert (opened cm1 = opened cm) as Eo.
    { apply subseteq_full; [done|]. intros o [p Hop].
      destruct (opened_circuit _ _ _ HM Hop) as (c & _ & _ & HA & Hco).
      destruct (H2 _ _ _ HA Hco) as [[? _]|?%not_elem_of_nil]; done. }
    assert (closed cm1 = closed cm) as Ec.
    { apply set_eq. intros k. split; [set_solver|]. intros Hin. destruct (H3 k Hin) as [|?%not_elem_of_nil]; done. }
    destruct cm1, cm; simpl in *. by subst.
  - intros k c o HA Hco. destruct (H2 _ _ _ HA Hco) as [[_ ?]|?%not_elem_of_nil]; done.
Qed.

(** What restoring one circuit does. *)
Definition put_back (cm : circuitMap) (r : removedCircuit) (c : PaymentCircuit) : circuitMap :=
  let cm := set_pending cm (<[rm_key r := rm_ptr r]> (pending cm)) in
  let cm := if rm_closing r then set_closed cm ({[rm_key r]} ∪ closed cm) else cm in
  if HasKeystone c
  then addCircuitToHashIndex (set_opened cm (<[OutKey c := rm_ptr r]> (opened cm))) c else cm.

Lemma put_back_open cm r c o :
  Outgoing c = Some o ->
  is_Some (opened (put_back cm r c) !! o) /\
  exists s, hashIndex (put_back cm r c) !! PaymentHash c = Some s /\ o ∈ s.
Proof.
  intros Ho. unfold put_back, HasKeystone, OutKey. rewrite Ho. simpl. split.
  - unfold addCircuitToHashIndex. simpl. rewrite lookup_insert_eq. eauto.
  - unfold addCircuitToHashIndex. simpl. rewrite lookup_insert_eq. unfold OutKey. rewrite Ho.
    eexists. split; [done|]. set_solver.
Qed.

Lemma put_back_mono cm r c h s o :
  hashIndex cm !! h = Some s -> o ∈ s -> exists s', hashIndex (put_back cm r c) !! h = Some s' /\ o ∈ s'.
Proof.
  intros Hs Ho. unfold put_back. destruct (HasKeystone c); [|by destruct (rm_closing r); eauto].
  eapply hash_add_mono; [|done]. by destruct (rm_closing r).
Qed.

Lemma put_back_fields cm r c :
  heap (put_back cm r c) = heap cm /\ pending (put_back cm r c) = <[rm_key r := rm_ptr r]> (pending cm) /\
  circuitBkt (put_back cm r c) = circuitBkt cm /\ keystoneBkt (put_back cm r c) = keystoneBkt cm /\
  opened (put_back cm r c) = (match Outgoing c with Some o => <[o := rm_ptr r]> (opened cm) | None => opened cm end) /\
  closed (put_back cm r c) = (if rm_closing r then {[rm_key r]} ∪ closed cm else closed cm).
Proof.
  unfold put_back, HasKeystone, OutKey. destruct (Outgoing c) eqn:Ho; simpl; destruct (rm_closing r); simpl;
    split_and!; try done; by rewrite Ho.
Qed.

Lemma without_step cm cm1 r k c ks :
  MemInv cm -> without cm cm1 (k :: ks) -> removed_rel cm r (k, c) -> without cm (put_back cm1 r c) ks.
Proof.
  intros HM [Hh [Hb Hk] Hp Ho Hc H1 H2 H3] (Hr1 & Hr2 & Hr3 & Hr4). simpl in *. subst k.
  destruct (put_back_fields cm1 r c) as (F1 & F2 & F3 & F4 & F5 & F6).
  pose proof (circuits_ptr _ _ _ _ Hr3 Hr2) as HA.
  split; rewrite ?F1, ?F2, ?F3, ?F4, ?F5, ?F6; try done.
  - by apply insert_subseteq_l.
  - destruct (Outgoing c) as [o|] eqn:Eo; [|done]. apply insert_subseteq_l; [|done]. apply (i_opened _ HM). eauto.
  - rewrite Hr4. case_bool_decide; set_solver.
  - intros k Hk'. rewrite lookup_insert_is_Some'. destruct (H1 k Hk') as [?|?]; set_solver.
  - intros k d o Hd Hdo. destruct (decide (k = rm_key r)) as [->|Hne].
    + left. rewrite HA in Hd. injection Hd as <-. rewrite <- F5. by apply put_back_open.
    + destruct (H2 _ _ _ Hd Hdo) as [[Hs (s & Hs1 & Hs2)]|?]; [left|set_solver]. split.
      * destruct (Outgoing c); [|done]. apply lookup_insert_is_Some'. by right.
      * by eapply put_back_mono.
  - intros k Hk'. rewrite Hr4. destruct (H3 k Hk') as [?|[->|?]%elem_of_cons]; case_bool_decide; set_solver.
Qed.

Lemma restoreMem_spec cm rs kcs cm1 :
  MemInv cm -> Forall2 (removed_rel cm) rs kcs -> without cm cm1 kcs.*1 ->
  exists h, restoreMem cm1 rs = Ok (set_hashIndex cm h) /\ HashInv (circuits cm) h.
Proof.
  intros HM HF. revert cm1. induction HF as [|r [k c] rs kcs Hr _ IH]; intros cm1 Hw.
  - destruct (without_nil _ _ HM Hw) as [He HH]. exists (hashIndex cm1). split; [|done]. simpl. by rewrite <- He.
  - simpl. unfold deref. rewrite (wo_heap _ _ _ Hw). destruct Hr as (Hr1 & Hr2 & Hr3 & Hr4) eqn:E. rewrite Hr2. simpl.
    change (exists h, restoreMem (put_back cm1 r c) rs = Ok (set_hashIndex cm h) /\ HashInv (circuits cm) h).
    apply IH. by eapply without_step.
Qed.

Lemma deleteMem_without cm cm' ks :
  MemInv cm -> MemInv cm' -> HashInv (circuits cm') (hashIndex cm') ->
  circuits cm' = delete_all (circuits cm) ks -> closed cm' = closed cm ∖ list_to_set ks -> heap cm' = heap cm ->
  circuitBkt cm' = circuitBkt cm -> keystoneBkt cm' = keystoneBkt cm ->
  pending cm' ⊆ pending cm -> opened cm' ⊆ opened cm -> without cm cm' (removedOf (circuits cm) ks).*1.
Proof.
  intros HM HM' HH' HA HX Hh Hb Hk Hp Ho.
  assert (forall k, is_Some (pending cm !! k) ->
    (exists c, circuits cm' !! k = Some c /\ k ∉ ks) \/ k ∈ (removedOf (circuits cm) ks).*1) as Hd.
  { intros k Hs. destruct (removedOf_keys (circuits cm) ks k) as [[c Hc]|?]; [| |by right].
    - destruct Hs as [p Hs]. destruct (i_deref _ HM _ _ Hs) as [c Hc]. exists c. by eapply circuits_ptr.
    - left. exists c. rewrite HA. split; [done|]. by apply delete_all_Some in Hc as [? _]. }
  split; try done.
  - rewrite HX. set_solver.
  - intros k [(c & (p & Hc & _)%circuits_Some & _)|?]%Hd; [left; eauto|by right].
  - intros k c o Hc Hco. destruct (Hd k) as [(d & Hd' & Hn)|?]; [| |by right].
    + apply circuits_Some in Hc as (p & ? & _). eauto.
    + left. assert (c = d) as <-. { rewrite HA in Hd'. apply delete_all_Some in Hd' as [_ ?]. congruence. }
      split; [|by eapply HH']. pose proof Hd' as (p & Hp1 & Hp2)%circuits_Some. exists p. apply (i_opened _ HM'). eauto.
  - intros k Hk'. pose proof (i_closed _ HM _ Hk') as Hdom%elem_of_dom.
    destruct (Hd k Hdom) as [(c & _ & Hn)|?]; [left; rewrite HX; set_solver|by right].
Qed.

Lemma DeleteCircuits_sim dbOk ks cm : Inv cm -> simulates (OpDelete dbOk ks) cm.
Proof.
  intros [HM HH HD]. unfold simulates. cbn [run_circuit spec fst snd]. unfold DeleteCircuits.
  destruct (deleteMem_spec ks cm [] HM HH)
    as (cm' & rs & -> & HM' & HH' & HA' & HX' & Hh' & Hb' & Hk' & HP' & HO' & HF). simpl.
  destruct dbOk.
  - destruct (disk_delete_all (circuits cm) (circuitBkt cm) (keystoneBkt cm) ks cm' rs) as (cb & kb & Hd & HD').
    + by apply keys_ok_mem.
    + done.
    + eapply Forall2_impl; [exact HF|]. intros r kc (_ & H2 & _). by rewrite Hh'.
    + assert (set_disk cm' (circuitBkt cm) (keystoneBkt cm) = cm') as He by (rewrite <- Hb', <- Hk'; by destruct cm').
      rewrite He in Hd. rewrite Hd. split; [done|]. split; [split|done].
      * by apply mem_disk.
      * done.
      * simpl. change (circuits (set_disk cm' cb kb)) with (circuits cm'). by rewrite HA'.
  - destruct (restoreMem_spec cm rs (removedOf (circuits cm) ks) cm') as (h & -> & HH''); [done|done| |].
    + by apply deleteMem_without.
    + split; [done|]. split; [split; [by apply mem_hash|done|done]|done].
Qed.

End sim.
