(* ===== verification/CircuitMapStart.v ===== *)
(** * htlcswitch: starting the circuit map

    A restarted map holds what the buckets hold: [restoreMemState] rebuilds the
    circuits, the open ones and the hash index from a disk that satisfies the
    invariant, and [cleanClosedChannels] removes from the disk exactly the
    circuits whose incoming or outgoing channel is closed. *)

From Stdlib Require Import ZArith Lia.
From S2P Require Import Prelude Wire WireGossip WireModels UpdateLog Kvdb CircuitMap.
From S2P Require Import CircuitMapInv CircuitMapSim.

Local Open Scope Z_scope.

Section start.
Context {BT : Btcec} {SX : Sphinx} {BL : BtcecLaws}.

Lemma Forall_choose {X Y} (P : X -> Y -> Prop) (l : list X) :
  Forall (fun x => exists y, P x y) l -> exists ys, Forall2 P l ys.
Proof.
  induction 1 as [|x l [y Hy] _ [ys IH]]; [by exists []|]. exists (y :: ys). by constructor.
Qed.

(** ** Loading the circuits *)

Lemma loadCircuits_spec l cs cm :
  MemInv cm -> Forall2 (fun kv c => decodeCircuit kv.2 = Ok c) l cs -> Forall new_circuit cs ->
  NoDup (Incoming <$> cs) -> Forall (fun c => pending cm !! Incoming c = None) cs ->
  exists cm', loadCircuits l cm = Ok cm' /\ MemInv cm' /\ circuits cm' = add_all (circuits cm) (set_loaded <$> cs) /\
    opened cm' = opened cm /\ closed cm' = closed cm /\ hashIndex cm' = hashIndex cm.
Proof.
  intros HM HF. revert cm HM. induction HF as [|kv c l cs Hc _ IH]; intros cm HM HN Hd Hf.
  { exists cm. done. }
  apply Forall_cons in HN as [Hnc HN]. apply Forall_cons in Hf as [Hn Hf]. simpl in Hd.
  apply NoDup_cons in Hd as [Hin Hd]. simpl. rewrite Hc. simpl. set (p := fresh (dom (heap cm))).
  assert (heap cm !! p = None) as Hp by (apply not_elem_of_dom, is_fresh).
  destruct (mem_grow cm (<[p := set_loaded c]> (heap cm)) HM) as [HM1 HA1]; [by apply insert_subseteq|].
  destruct Hnc as [[Hw Ho] Hout].
  assert (heap (set_heap cm (<[p := set_loaded c]> (heap cm))) !! p = Some (set_loaded c)) as Hp1 by apply lookup_insert_eq.
  pose proof (mem_add _ p (set_loaded c) HM1 Hp1 Hn) as HM2.
  destruct (IH _ (HM2 (conj Hw Ho) Hout)) as (cm' & Hr & HM' & HA' & H1 & H2 & H3); [done|done| |].
  - simpl. rewrite Forall_forall in *. intros d Hdc. rewrite lookup_insert_ne; [by apply Hf|].
    intros He. apply Hin. rewrite He. by apply list_elem_of_fmap_2.
  - exists cm'. split_and!; try done. rewrite HA', (circuits_pending _ _ p (set_loaded c)), HA1; done.
Qed.

Lemma lookup_add_all A cs k c :
  NoDup (Incoming <$> cs) -> Forall (fun c => A !! Incoming c = None) cs ->
  add_all A cs !! k = Some c <-> (c ∈ cs /\ Incoming c = k) \/ A !! k = Some c.
Proof.
  revert A. induction cs as [|d cs IH]; intros A Hd Hf; [simpl; set_solver|]. simpl in Hd.
  apply NoDup_cons in Hd as [Hin Hd]. apply Forall_cons in Hf as [Hn Hf].
  unfold add_all in *. simpl. rewrite IH; [|done|].
  - rewrite lookup_insert_Some. split.
    + intros [[? ?]|[[<- <-]|[? ?]]]; set_solver.
    + intros [[[->|?]%elem_of_cons <-]|?]; [set_solver..|]. right. right. split; [|done]. congruence.
  - rewrite Forall_forall in *. intros e He. rewrite lookup_insert_ne; [by apply Hf|].
    intros Heq. apply Hin. rewrite Heq. by apply list_elem_of_fmap_2.
Qed.

(** The circuits of a bucket, in the order of the bucket. *)
Lemma disk_circuits A cb kb :
  keys_ok A -> DiskInv A cb kb ->
  exists cs, Forall2 (fun kv c => decodeCircuit kv.2 = Ok c) (ForEach cb) cs /\ Forall new_circuit cs /\
    NoDup (Incoming <$> cs) /\
    forall k c, (c ∈ cs /\ Incoming c = k) <-> exists d, A !! k = Some d /\ c = restored d.
Proof.
  intros HK HD. pose proof HK as [HA _].
  destruct (Forall_choose (fun kv c => exists d, kv.1 = CircuitKeys.Bytes (Incoming d) /\ A !! Incoming d = Some d /\
    c = restored d /\ decodeCircuit kv.2 = Ok c) (ForEach cb)) as [cs HF].
  { apply Forall_forall. intros [bs v] Hin%ForEach_elem. simpl.
    destruct (d_circuit_only _ _ _ HD _ _ Hin) as (k & -> & [d Hd]). destruct (HA _ _ Hd) as [<- _].
    destruct (d_circuit _ _ _ HD _ _ Hd) as (v' & Hv & Hdec). simplify_eq. eauto 10. }
  assert (CircuitKeys.Bytes <$> (Incoming <$> cs) = (ForEach cb).*1) as Hkeys.
  { clear -HF. induction HF as [|kv c l cs (d & H1 & _ & -> & _) _ IH]; simpl; [done|].
    f_equal; [by rewrite H1|exact IH]. }
  exists cs. split_and!.
  - eapply Forall2_impl; [exact HF|]. naive_solver.
  - eapply Forall2_Forall_r; [exact HF|]. apply Forall_true. intros kv c (d & _ & Hd & -> & _).
    destruct (HA _ _ Hd) as [_ [Hw _]]. by split; [split; [exact Hw|]|].
  - eapply NoDup_fmap_1. rewrite Hkeys. apply ForEach_keys.
  - intros k c. split.
    + intros [Hin <-]. apply list_elem_of_lookup in Hin as [i Hi].
      destruct (Forall2_lookup_r _ _ _ _ _ HF Hi) as (kv & _ & d & _ & Hd & -> & _). by exists d.
    + intros (d & Hd & ->). destruct (HA _ _ Hd) as [<- _]. split; [|done].
      destruct (d_circuit _ _ _ HD _ _ Hd) as (v & Hv & _). apply ForEach_elem in Hv.
      apply list_elem_of_lookup in Hv as [i Hi].
      destruct (Forall2_lookup_l _ _ _ _ _ HF Hi) as (c & Hc & d' & Hb & Hd' & -> & _). simpl in Hb.
      apply Bytes_inj in Hb; [|by eapply keys_ok_wf; eauto..]. rewrite Hb in Hd. simplify_eq.
      by eapply list_elem_of_lookup_2.
Qed.

(** ** Loading the keystones *)

Lemma disk_keystones A cb kb :
  keys_ok A -> DiskInv A cb kb ->
  exists kss, Forall2 (fun kv ks => decodeKeystone kv = Ok ks) (ForEach kb) kss /\
    NoDup (KS_OutKey <$> kss) /\ NoDup (KS_InKey <$> kss) /\
    forall ks, ks ∈ kss <-> exists c, A !! KS_InKey ks = Some c /\ Outgoing c = Some (KS_OutKey ks).
Proof.
  intros HK HD. pose proof HK as [HA HU].
  destruct (Forall_choose (fun kv ks => decodeKeystone kv = Ok ks /\ kv.1 = CircuitKeys.Bytes (KS_OutKey ks) /\
    exists c, A !! KS_InKey ks = Some c /\ Outgoing c = Some (KS_OutKey ks)) (ForEach kb)) as [kss HF].
  { apply Forall_forall. intros [bs v] Hin%ForEach_elem.
    destruct (d_keystone_only _ _ _ HD _ _ Hin) as (k & c & o & Hk & Ho & -> & ->).
    exists (mkKeystone k o). unfold decodeKeystone. cbn [fst snd].
    rewrite (SetBytes_Bytes k) by (eapply keys_ok_wf; eauto).
    rewrite (SetBytes_Bytes o) by by apply (HA _ _ Hk). eauto. }
  assert (CircuitKeys.Bytes <$> (KS_OutKey <$> kss) = (ForEach kb).*1) as Hkeys.
  { clear -HF. induction HF as [|kv ks l kss (_ & H1 & _) _ IH]; simpl; [done|].
    f_equal; [by rewrite H1|exact IH]. }
  assert (forall ks, ks ∈ kss -> exists c, A !! KS_InKey ks = Some c /\ Outgoing c = Some (KS_OutKey ks)) as Hmem.
  { intros ks [i Hi]%list_elem_of_lookup.
    by destruct (Forall2_lookup_r _ _ _ _ _ HF Hi) as (kv & _ & _ & _ & Hc). }
  assert (NoDup (KS_OutKey <$> kss)) as Hout.
  { eapply NoDup_fmap_1. rewrite Hkeys. apply ForEach_keys. }
  exists kss. split_and!; [by eapply Forall2_impl; [exact HF|]; naive_solver|done| |].
  - apply NoDup_fmap_2_strong; [|by eapply NoDup_fmap_1].
    intros [k1 o1] [k2 o2] (c1 & H1 & H1')%Hmem (c2 & H2 & H2')%Hmem. simpl in *. intros ->. congruence.
  - intros ks. split; [apply Hmem|]. intros (c & Hc & Ho).
    pose proof (d_keystone _ _ _ HD _ _ _ Hc Ho) as Hin%ForEach_elem. apply list_elem_of_lookup in Hin as [i Hi].
    destruct (Forall2_lookup_l _ _ _ _ _ HF Hi) as (ks' & Hks & _ & Hb & c' & Hc' & Ho'). simpl in Hb.
    apply Bytes_inj in Hb; [|by apply (HA _ _ Hc)|by apply (HA _ _ Hc')].
    rewrite <- Hb in Ho'. pose proof (HU _ _ _ _ _ Hc Hc' Ho Ho').
    destruct ks, ks'; simpl in *; subst. by eapply list_elem_of_lookup_2.
Qed.

Lemma loadKeystones_spec l kss cm stray :
  MemInv cm -> openable (circuits cm) kss -> Forall2 (fun kv ks => decodeKeystone kv = Ok ks) l kss ->
  exists cm', loadKeystones l cm stray = Ok (cm', stray) /\ MemInv cm' /\
    circuits cm' = foldl open_one (circuits cm) kss /\ closed cm' = closed cm /\ hashIndex cm' = hashIndex cm.
Proof.
  intros HM HO HF. revert cm HM HO. induction HF as [|kv ks l kss Hd _ IH]; intros cm HM HO; [by exists cm|].
  simpl. rewrite Hd. simpl. pose proof HO as (_ & _ & HO'). apply Forall_cons in HO' as [(Hw & He & (c & Hc & Ho) & Hn) _].
  pose proof Hc as (p & Hp & Hh)%circuits_Some. rewrite Hp. unfold deref. rewrite Hh. simpl.
  assert (opened cm !! KS_OutKey ks = None) as Hnone.
  { apply holder_opened_None; [done|]. apply holder_None; [by apply keys_ok_mem|done]. }
  pose proof (mem_open _ _ _ _ _ HM Hp Hh Ho Hnone Hw He) as HM1. set (cm1 := set_opened _ _) in *.
  assert (circuits cm1 = open_one (circuits cm) ks) as HA.
  { rewrite (open_one_insert _ _ _ Hc). apply (circuits_heap cm _ _ _ HM Hp). }
  destruct (IH cm1 HM1) as (cm' & Hr & HM' & HA' & HX & HH).
  - rewrite HA. by apply openable_step.
  - exists cm'. split_and!; try done. by rewrite HA', HA.
Qed.

Lemma open_all_other A kss k : k ∉ KS_InKey <$> kss -> foldl open_one A kss !! k = A !! k.
Proof.
  revert A. induction kss as [|ks kss IH]; intros A Hk; simpl in *; [done|]. apply not_elem_of_cons in Hk as [Hne Hk].
  rewrite IH by done. unfold open_one. by rewrite lookup_alter_ne.
Qed.

Lemma open_all_here A kss ks c :
  NoDup (KS_InKey <$> kss) -> ks ∈ kss -> A !! KS_InKey ks = Some c ->
  foldl open_one A kss !! KS_InKey ks = Some (set_outgoing (Some (KS_OutKey ks)) c).
Proof.
  revert A. induction kss as [|ks' kss IH]; intros A Hd Hin Hc; simpl in *; [by apply not_elem_of_nil in Hin|].
  apply NoDup_cons in Hd as [Hnin Hd]. apply elem_of_cons in Hin as [->|Hin].
  - rewrite open_all_other by done. unfold open_one. by rewrite lookup_alter_eq, Hc.
  - apply IH; [done..|]. unfold open_one. rewrite lookup_alter_ne; [done|].
    intros He. apply Hnin. rewrite He. by apply list_elem_of_fmap_2.
Qed.

Lemma indexOpened_spec l cm :
  Forall (fun op => exists c, heap cm !! op.2 = Some c /\ Outgoing c = Some op.1) l ->
  exists h, indexOpened l cm = Ok (set_hashIndex cm h) /\
    (forall hash s o, hashIndex cm !! hash = Some s -> o ∈ s -> exists s', h !! hash = Some s' /\ o ∈ s') /\
    (forall o p c, (o, p) ∈ l -> heap cm !! p = Some c -> exists s', h !! PaymentHash c = Some s' /\ o ∈ s').
Proof.
  revert cm. induction l as [|[o p] l IH]; intros cm HF.
  { exists (hashIndex cm). split_and!; [by destruct cm|eauto|]. by intros ? ? ? ?%not_elem_of_nil. }
  apply Forall_cons in HF as [(c & Hc & Ho) HF]. simpl in *. unfold deref. rewrite Hc. simpl.
  destruct (IH (addCircuitToHashIndex cm c)) as (h & -> & Hm & Hn); [done|].
  exists h. split_and!; [done| |].
  - intros hash s o' Hs Hin. destruct (hash_add_mono cm c hash s o' Hs Hin) as (s' & Hs' & Hin'). by eapply Hm.
  - intros o' p' c' [Heq|Hin]%elem_of_cons Hc'; [|by eapply Hn]. simplify_eq.
    destruct (proj2 (hash_add cm c (PaymentHash c))) as (s & Hs & Hin); [by left|].
    unfold OutKey in Hin. rewrite Ho in Hin. by eapply Hm.
Qed.

(** ** Restoring *)

Lemma empty_mem cb kb : MemInv (mkCM ∅ ∅ ∅ ∅ ∅ cb kb).
Proof.
  assert (circuits (mkCM ∅ ∅ ∅ ∅ ∅ cb kb) = ∅) as HA.
  { apply map_eq. intros k. by rewrite lookup_circuits; simpl; rewrite !lookup_empty. }
  split; simpl.
  - intros k p Hp. by rewrite lookup_empty in Hp.
  - rewrite HA. intros k c Hc. by rewrite lookup_empty in Hc.
  - intros o p. rewrite lookup_empty. split; [done|]. intros (k & c & Hk & _). by rewrite lookup_empty in Hk.
  - set_solver.
Qed.

Lemma circuits_empty cb kb : circuits (mkCM ∅ ∅ ∅ ∅ ∅ cb kb) = ∅.
Proof. apply map_eq. intros k. by rewrite lookup_circuits; simpl; rewrite !lookup_empty. Qed.

Lemma set_loaded_restored c : Outgoing c = None -> set_loaded (restored c) = set_loaded c.
Proof. destruct c; simpl. by intros ->. Qed.

Lemma set_outgoing_restored c o : Outgoing c = Some o -> set_outgoing (Some o) (set_loaded (restored c)) = set_loaded c.
Proof. destruct c; simpl. by intros ->. Qed.

Lemma disk_loaded A cb kb : DiskInv A cb kb -> DiskInv (set_loaded <$> A) cb kb.
Proof.
  intros HD. split.
  - intros k c Hc. rewrite lookup_fmap in Hc. apply fmap_Some in Hc as (d & Hd & ->). by apply (d_circuit _ _ _ HD k d).
  - intros bs v (k & -> & Hk)%(d_circuit_only _ _ _ HD). exists k. split; [done|]. by rewrite lookup_fmap, fmap_is_Some.
  - intros k c o Hc Ho. rewrite lookup_fmap in Hc. apply fmap_Some in Hc as (d & Hd & ->).
    by apply (d_keystone _ _ _ HD k d).
  - intros bs v (k & c & o & Hk & Ho & -> & ->)%(d_keystone_only _ _ _ HD). exists k, (set_loaded c), o.
    by rewrite lookup_fmap, Hk.
Qed.

(** The circuits that both loops build. *)
Lemma reloaded A cs kss :
  keys_ok A -> NoDup (Incoming <$> cs) -> NoDup (KS_InKey <$> kss) ->
  (forall k c, (c ∈ cs /\ Incoming c = k) <-> exists d, A !! k = Some d /\ c = restored d) ->
  (forall ks, ks ∈ kss <-> exists c, A !! KS_InKey ks = Some c /\ Outgoing c = Some (KS_OutKey ks)) ->
  add_all ∅ (set_loaded <$> cs) = (fun d => set_loaded (restored d)) <$> A /\
  foldl open_one ((fun d => set_loaded (restored d)) <$> A) kss = set_loaded <$> A.
Proof.
  intros HK Hnd Hnk Hcs Hks. split.
  - apply map_eq. intros k. apply option_eq. intros c. rewrite lookup_add_all.
    + rewrite lookup_empty, lookup_fmap, fmap_Some. split.
      * intros [[(d & -> & Hd)%list_elem_of_fmap Hin]|?]; [|done]. simpl in Hin.
        destruct (proj1 (Hcs k d) (conj Hd Hin)) as (d' & Hd' & ->). eauto.
      * intros (d & Hd & ->). left. destruct (proj2 (Hcs k (restored d))) as [H1 H2]; [eauto|].
        split; [|done]. by apply list_elem_of_fmap_2.
    + rewrite <- list_fmap_compose. exact Hnd.
    + apply Forall_true. intros. apply lookup_empty.
  - apply map_eq. intros k. rewrite lookup_fmap. destruct (A !! k) as [c|] eqn:Ek; simpl.
    + destruct (Outgoing c) as [o|] eqn:Eo.
      * rewrite (open_all_here _ kss (mkKeystone k o) (set_loaded (restored c))); [|done| |].
        -- simpl. f_equal. by apply set_outgoing_restored.
        -- apply Hks. simpl. eauto.
        -- simpl. by rewrite lookup_fmap, Ek.
      * rewrite open_all_other; [rewrite lookup_fmap, Ek; simpl; f_equal; by apply set_loaded_restored|].
        intros (ks & -> & Hin)%list_elem_of_fmap. apply Hks in Hin as (d & Hd & Ho). congruence.
    + rewrite open_all_other; [by rewrite lookup_fmap, Ek|].
      intros (ks & -> & Hin)%list_elem_of_fmap. apply Hks in Hin as (d & Hd & Ho). congruence.
Qed.

Lemma restoreMemState_spec A cb kb :
  keys_ok A -> DiskInv A cb kb ->
  exists cm, restoreMemState true cb kb = Ok cm /\ Inv cm /\ circuits cm = set_loaded <$> A /\ closed cm = ∅.
Proof.
  intros HK HD. pose proof HK as [HA HU]. unfold restoreMemState.
  destruct (disk_circuits _ _ _ HK HD) as (cs & Hcs & Hnew & Hnd & Hmem).
  destruct (disk_keystones _ _ _ HK HD) as (kss & Hkss & Hno & Hni & Hkmem).
  destruct (reloaded A cs kss HK Hnd Hni Hmem Hkmem) as [HR1 HR2].
  destruct (loadCircuits_spec (ForEach cb) cs (mkCM ∅ ∅ ∅ ∅ ∅ cb kb) (empty_mem _ _) Hcs Hnew Hnd)
    as (cm1 & -> & HM1 & HA1 & HO1 & HX1 & HH1); [by apply Forall_true; intros; apply lookup_empty|].
  rewrite circuits_empty, HR1 in HA1. cbn [obind].
  destruct (loadKeystones_spec (ForEach kb) kss cm1 [] HM1) as (cm2 & -> & HM2 & HA2 & HX2 & HH2); [|done|].
  { split_and!; [done..|]. apply Forall_forall. intros ks (c & Hc & Ho)%Hkmem. rewrite HA1.
    destruct (HA _ _ Hc) as [_ [_ Hok]]. destruct (Hok _ Ho). split_and!; [done..| |].
    - exists (set_loaded (restored c)). by rewrite lookup_fmap, Hc.
    - intros k d Hd. rewrite lookup_fmap in Hd. by apply fmap_Some in Hd as (d' & _ & ->). }
  rewrite HA1, HR2 in HA2. cbn [obind negb].
  set (cm3 := set_disk cm2 cb _).
  assert (MemInv cm3) as HM3 by by apply mem_disk.
  destruct (indexOpened_spec (map_to_list (opened cm3)) cm3) as (h & Hi & _ & Hn).
  { apply Forall_forall. intros [o p] Hop%elem_of_map_to_list.
    destruct (opened_circuit _ _ _ HM3 Hop) as (c & Hc & _ & _ & Ho). by exists c. }
  exists (set_hashIndex cm3 h). rewrite Hi. split; [done|]. split; [|split; [exact HA2|by simpl; rewrite HX2, HX1]].
  split.
  - by apply mem_hash.
  - intros k c o (p & Hp & Hc)%circuits_Some Ho. apply (Hn o p); [|done].
    apply elem_of_map_to_list, (i_opened _ HM3). eauto.
  - change (DiskInv (circuits cm2) cb kb). rewrite HA2. by apply disk_loaded.
Qed.

Lemma restart_sim cm : Inv cm -> simulates OpRestart cm.
Proof.
  intros [HM HH HD]. unfold simulates. cbn [run_circuit spec fst snd].
  destruct (restoreMemState_spec _ _ _ (keys_ok_mem _ HM) HD) as (cm' & -> & HI' & HA' & HX').
  split; [done|]. done.
Qed.

(** ** Closed channels *)

(** The circuit is not of a closed channel on either side. *)
Definition kept (S : gset ShortChannelID) (kc : CircuitKey * PaymentCircuit) : bool :=
  negb (isClosedChannel S (ChanID kc.1)) &&
  match Outgoing kc.2 with Some o => negb (isClosedChannel S (ChanID o)) | None => true end.

Definition closedSetOf (closedChannels : list ChannelCloseSummary) : gset ShortChannelID :=
  list_to_set (Closed_ShortChanID <$> filter (fun c => Closed_IsPending c = false) closedChannels).

Definition live (S : gset ShortChannelID) (A : gmap CircuitKey PaymentCircuit) : gmap CircuitKey PaymentCircuit :=
  filter (fun kc => kept S kc = true) A.

Lemma cleanCircuits_spec S l cs del :
  Forall2 (fun kv c => decodeCircuit kv.2 = Ok c) l cs ->
  cleanCircuits S l del =
    Ok (del ++ (Incoming <$> filter (fun c => isClosedChannel S (ChanID (Incoming c)) = true) cs)).
Proof.
  intros HF. revert del. induction HF as [|kv c l cs Hc _ IH]; intros del; simpl; [by rewrite app_nil_r|].
  rewrite Hc. simpl. rewrite IH, filter_cons. destruct (isClosedChannel S (ChanID (Incoming c))) eqn:E; simpl;
    by rewrite <- ?app_assoc.
Qed.

Definition stale (S : gset ShortChannelID) (ks : Keystone) : bool :=
  isClosedChannel S (ChanID (KS_InKey ks)) || isClosedChannel S (ChanID (KS_OutKey ks)).

Lemma cleanKeystones_spec S l kss delIn delOut :
  Forall2 (fun kv ks => decodeKeystone kv = Ok ks) l kss ->
  cleanKeystones S l delIn delOut =
    Ok (delIn ++ (KS_InKey <$> filter (fun ks => stale S ks = true) kss),
        delOut ++ (KS_OutKey <$> filter (fun ks => stale S ks = true) kss)).
Proof.
  intros HF. revert delIn delOut. induction HF as [|kv ks l kss Hc _ IH]; intros delIn delOut; simpl.
  { by rewrite !app_nil_r. }
  rewrite Hc. simpl. rewrite filter_cons. destruct (decide (stale S ks = true)) as [Hs|Hs]; unfold stale in Hs;
    destruct (isClosedChannel S (ChanID (KS_InKey ks))), (isClosedChannel S (ChanID (KS_OutKey ks))); try done; simpl;
    by rewrite IH, <- ?app_assoc.
Qed.

Lemma deleteKeys_Some b ks bs v :
  deleteKeys b ks !! bs = Some v <-> b !! bs = Some v /\ bs ∉ CircuitKeys.Bytes <$> ks.
Proof.
  unfold deleteKeys. revert b. induction ks as [|k ks IH]; intros b; simpl; [set_solver|].
  rewrite IH, lookup_delete_Some, not_elem_of_cons. naive_solver.
Qed.

(** Deleting the circuits and the keystones that are not kept. *)
Lemma disk_filter A cb kb S delIn delOut :
  keys_ok A -> DiskInv A cb kb ->
  (forall k, k ∈ delIn <-> exists c, A !! k = Some c /\ kept S (k, c) = false) ->
  (forall o, o ∈ delOut <-> exists k c, A !! k = Some c /\ Outgoing c = Some o /\ kept S (k, c) = false) ->
  DiskInv (live S A) (deleteKeys cb delIn) (deleteKeys kb delOut).
Proof.
  intros HK HD Hin Hout. pose proof HK as [HA HU]. unfold live. split.
  - intros k c [Hk Hkept]%map_lookup_filter_Some. destruct (d_circuit _ _ _ HD _ _ Hk) as (v & Hv & Hdec).
    exists v. split; [|done]. apply deleteKeys_Some. split; [done|].
    intros (k' & Hb & (c' & Hc' & Hn)%Hin)%list_elem_of_fmap.
    apply Bytes_inj in Hb; [|by eapply keys_ok_wf; eauto..]. congruence.
  - intros bs v [Hv Hn]%deleteKeys_Some. destruct (d_circuit_only _ _ _ HD _ _ Hv) as (k & -> & [c Hc]).
    exists k. split; [done|]. exists c. apply map_lookup_filter_Some. split; [done|].
    destruct (kept S (k, c)) eqn:E; [done|]. exfalso. apply Hn, list_elem_of_fmap_2, Hin. eauto.
  - intros k c o [Hk Hkept]%map_lookup_filter_Some Ho. apply deleteKeys_Some.
    split; [by eapply (d_keystone _ _ _ HD)|].
    intros (o' & Hb & (k' & c' & Hc' & Ho' & Hn)%Hout)%list_elem_of_fmap.
    apply Bytes_inj in Hb; [|by apply (HA _ _ Hk)|by apply (HA _ _ Hc')]. subst o'.
    pose proof (HU _ _ _ _ _ Hk Hc' Ho Ho'). congruence.
  - intros bs v [Hv Hn]%deleteKeys_Some. destruct (d_keystone_only _ _ _ HD _ _ Hv) as (k & c & o & Hk & Ho & -> & ->).
    exists k, c, o. split; [|done]. apply map_lookup_filter_Some. split; [done|].
    destruct (kept S (k, c)) eqn:E; [done|]. exfalso. apply Hn, list_elem_of_fmap_2, Hout. eauto.
Qed.

Lemma kept_empty kc : kept ∅ kc = true.
Proof.
  assert (forall k, isClosedChannel ∅ k = false) as H.
  { intros k. unfold isClosedChannel. case_bool_decide; [done|]. by rewrite bool_decide_eq_false_2 by set_solver. }
  unfold kept. rewrite H. by destruct (Outgoing kc.2); rewrite ?H.
Qed.

Lemma cleanClosedChannels_spec A cb kb closedChannels :
  keys_ok A -> DiskInv A cb kb ->
  exists cb' kb', cleanClosedChannels true closedChannels cb kb = Ok (cb', kb') /\
    DiskInv (live (closedSetOf closedChannels) A) cb' kb'.
Proof.
  intros HK HD. unfold cleanClosedChannels. change (list_to_set _) with (closedSetOf closedChannels).
  set (S := closedSetOf closedChannels). case_bool_decide as Hs.
  - apply size_empty_inv in Hs. apply leibniz_equiv in Hs. rewrite Hs. exists cb, kb. split; [done|].
    replace (live ∅ A) with A; [done|]. symmetry. apply map_filter_id. intros. apply kept_empty.
  - destruct (disk_circuits _ _ _ HK HD) as (cs & Hcs & _ & _ & Hmem).
    destruct (disk_keystones _ _ _ HK HD) as (kss & Hkss & _ & _ & Hkmem).
    rewrite (cleanCircuits_spec _ _ _ _ Hcs). simpl. rewrite (cleanKeystones_spec _ _ _ _ _ Hkss). simpl.
    eexists _, _. split; [done|]. apply disk_filter; [done..| |].
    + intros k. rewrite elem_of_app, !list_elem_of_fmap. split.
      * intros [(c & -> & [Hc Hin]%list_elem_of_filter)|(ks & -> & [Hst (c & Hc & Ho)%Hkmem]%list_elem_of_filter)].
        -- destruct (proj1 (Hmem (Incoming c) c)) as (d & Hd & He); [done|]. exists d. split; [done|].
           unfold kept. simpl. by rewrite Hc.
        -- exists c. split; [done|]. unfold kept, stale in *. simpl. rewrite Ho.
           apply orb_true_iff in Hst as [-> | ->]; [done|]. by rewrite andb_false_r.
      * intros (c & Hc & Hk). unfold kept in Hk. simpl in Hk. apply andb_false_iff in Hk as [Hk|Hk].
        -- left. destruct (proj2 (Hmem k (restored c))) as [H1 H2]; [eauto|]. exists (restored c). split; [done|].
           apply list_elem_of_filter. rewrite H2. split; [|done]. by apply negb_false_iff.
        -- destruct (Outgoing c) as [o|] eqn:Eo; [|done]. right. exists (mkKeystone k o). split; [done|].
           apply list_elem_of_filter. split; [|apply Hkmem; simpl; eauto].
           unfold stale. simpl. apply negb_false_iff in Hk. by rewrite Hk, orb_true_r.
    + intros o. rewrite list_elem_of_fmap. split.
      * intros (ks & -> & [Hst (c & Hc & Ho)%Hkmem]%list_elem_of_filter). exists (KS_InKey ks), c.
        split_and!; [done..|]. unfold kept, stale in *. simpl. rewrite Ho.
        apply orb_true_iff in Hst as [-> | ->]; [done|]. by rewrite andb_false_r.
      * intros (k & c & Hc & Ho & Hk). exists (mkKeystone k o). split; [done|]. apply list_elem_of_filter.
        split; [|apply Hkmem; simpl; eauto]. unfold kept in Hk. unfold stale. simpl in *. rewrite Ho in Hk.
        destruct (isClosedChannel S (ChanID k)), (isClosedChannel S (ChanID o)); done.
Qed.

Lemma keys_ok_live S A : keys_ok A -> keys_ok (live S A).
Proof.
  intros [HA HU]. unfold live. split.
  - intros k c [Hc _]%map_lookup_filter_Some. by apply HA.
  - intros k k' c c' o [Hc _]%map_lookup_filter_Some [Hc' _]%map_lookup_filter_Some. by apply HU.
Qed.

(** ** The whole startup *)

Definition trimmed (ch : activeChannel) : bool :=
  negb (Active_IsPending ch) && bool_decide (Active_ShortChanID ch <> Source).

(** The keystones of each active channel from its next index on. *)
Definition spec_trim_one (A : gmap CircuitKey PaymentCircuit) (ch : activeChannel) :=
  match Active_NextLocalHtlcIndex ch with
  | Ok start => if trimmed ch then spec_trim (S (size A)) (Active_ShortChanID ch) start A else A
  | _ => A
  end.

Definition spec_trim_all (chs : list activeChannel) (A : gmap CircuitKey PaymentCircuit) :=
  foldl spec_trim_one A chs.

Lemma trimAllOpenCircuits_spec chs cm :
  Inv cm -> Forall (fun ch => trimmed ch = true -> exists start, Active_NextLocalHtlcIndex ch = Ok start) chs ->
  exists cm', trimAllOpenCircuits true chs cm = Ok cm' /\ implements cm' (spec_trim_all chs (circuits cm), closed cm).
Proof.
  revert cm. induction chs as [|ch chs IH]; intros cm HI HF; [by exists cm|]. simpl.
  apply Forall_cons in HF as [Hch HF].
  assert (trimmed ch = false -> spec_trim_one (circuits cm) ch = circuits cm) as Hskip.
  { unfold spec_trim_one. intros ->. by destruct (Active_NextLocalHtlcIndex ch). }
  unfold trimmed in Hskip, Hch at 1. destruct (Active_IsPending ch) eqn:Ep; [rewrite Hskip by done; by apply IH|].
  destruct (decide (Active_ShortChanID ch = Source)) as [Hs|Hs].
  - rewrite (bool_decide_eq_true_2 (Active_ShortChanID ch = Source)) by done. rewrite Hskip; [by apply IH|].
    by rewrite bool_decide_eq_false_2 by tauto.
  - rewrite (bool_decide_eq_false_2 (Active_ShortChanID ch = Source)) by done.
    destruct Hch as [start Hst]; [by rewrite bool_decide_eq_true_2|]. rewrite Hst. cbn [obind].
    pose proof (TrimOpenCircuits_sim (Active_ShortChanID ch) start cm HI) as Hsim. unfold simulates in Hsim.
    cbn [run_circuit spec fst snd] in Hsim.
    destruct (TrimOpenCircuits true (Active_ShortChanID ch) start cm) as [r cm1].
    destruct Hsim as [Hr (HI1 & HA1 & HX1)]. injection Hr as ->. cbn [fst snd] in HA1, HX1.
    assert (spec_trim_one (circuits cm) ch = circuits cm1) as ->.
    { unfold spec_trim_one, trimmed. by rewrite Hst, Ep, bool_decide_eq_true_2, HA1. }
    rewrite <- HX1. by apply IH.
Qed.

Lemma NewCircuitMap_spec cm closedChannels activeChannels :
  Inv cm ->
  Forall (fun ch => trimmed ch = true -> exists start, Active_NextLocalHtlcIndex ch = Ok start) activeChannels ->
  exists cm', NewCircuitMap true closedChannels activeChannels (circuitBkt cm) (keystoneBkt cm) = Ok cm' /\
    implements cm'
      (spec_trim_all activeChannels (set_loaded <$> live (closedSetOf closedChannels) (circuits cm)), ∅).
Proof.
  intros [HM _ HD] HF. unfold NewCircuitMap. pose proof (keys_ok_mem _ HM) as HK.
  destruct (cleanClosedChannels_spec _ _ _ closedChannels HK HD) as (cb & kb & -> & HD'). cbn [obind].
  destruct (restoreMemState_spec _ _ _ (keys_ok_live _ _ HK) HD') as (cm1 & -> & HI1 & <- & <-). cbn [obind].
  by apply trimAllOpenCircuits_spec.
Qed.

End start.
