(* ===== verification/CircuitMapTheorems.v ===== *)
(** * htlcswitch: theorems of the circuit map

    Over every sequence of operations: the code refines the abstract machine,
    a circuit is completed at most once until it is deleted, a restarted map holds
    what was committed, and open circuits are found by payment hash. *)

From Stdlib Require Import ZArith Lia.
From S2P Require Import Prelude Wire WireGossip WireModels UpdateLog CircuitMap CircuitMapInv.
From S2P Require Import CircuitMapSim CircuitMapStart.

Local Open Scope Z_scope.

(** ** A concrete switch *)

(** An encrypter that is its own key. *)
Definition sphinx_model : @Sphinx btcec_model :=
  @Build_Sphinx btcec_model key33 (fun k => (Some k, CodeNone)).

Definition example_key : key33 := dexist (replicate 33 x02) eq_refl.

Definition chan_a : ShortChannelID := mkShortChannelID 100 1 0.
Definition chan_b : ShortChannelID := mkShortChannelID 101 2 1.
Definition chan_c : ShortChannelID := mkShortChannelID 102 3 0.

(** A circuit forwarded from a channel, and its keys. *)
Definition example_circuit (ch : ShortChannelID) (i : Z) (h : byte) : @PaymentCircuit btcec_model sphinx_model :=
  @mkCircuit btcec_model sphinx_model (mkAddRef 7 (u16 i)) (mkCircuitKey ch i) None (replicate 32 h) 2000 1990 0
    (Some (@mkSphinx btcec_model sphinx_model (Some example_key) example_key)) false.

Definition circuit_a := example_circuit chan_a 0 x11.
Definition circuit_b := example_circuit chan_b 5 x22.
Definition key_a : CircuitKey := mkCircuitKey chan_a 0.
Definition key_b : CircuitKey := mkCircuitKey chan_b 5.
Definition key_out : CircuitKey := mkCircuitKey chan_c 0.

Section theorems.
Context {BT : Btcec} {SX : Sphinx}.

(** ** Runs *)

(** A run of the code, with the result of each operation. *)
Inductive code_steps : circuitMap -> list (cop * result) -> circuitMap -> Prop :=
  | code_nil cm : code_steps cm [] cm
  | code_cons cm op r cm1 tr cm2 :
      op_ok (circuits cm) op -> run_circuit op cm = (r, cm1) -> code_steps cm1 tr cm2 ->
      code_steps cm ((op, r) :: tr) cm2.

(** A run of the abstract machine. *)
Inductive spec_steps : astate -> list (cop * result) -> astate -> Prop :=
  | spec_nil s : spec_steps s [] s
  | spec_cons s op r s1 tr s2 :
      spec op s = (r, s1) -> spec_steps s1 tr s2 -> spec_steps s ((op, r) :: tr) s2.

(** The map of a new database. *)
Definition newMap : circuitMap := mkCM ∅ ∅ ∅ ∅ ∅ ∅ ∅.

(** Runs a list of operations. *)
Fixpoint run_ops (ops : list cop) (cm : circuitMap) : list (cop * result) * circuitMap :=
  match ops with
  | [] => ([], cm)
  | op :: ops =>
      let '(r, cm) := run_circuit op cm in let '(tr, cm) := run_ops ops cm in ((op, r) :: tr, cm)
  end.

Fixpoint ops_ok (ops : list cop) (cm : circuitMap) : Prop :=
  match ops with
  | [] => True
  | op :: ops => op_ok (circuits cm) op /\ ops_ok ops (run_circuit op cm).2
  end.

Lemma run_ops_steps ops cm : ops_ok ops cm -> code_steps cm (run_ops ops cm).1 (run_ops ops cm).2.
Proof.
  revert cm. induction ops as [|op ops IH]; intros cm Hok; simpl; [constructor|]. destruct Hok as [Ho Hok].
  destruct (run_circuit op cm) as [r cm1] eqn:E. simpl in Hok. specialize (IH _ Hok).
  destruct (run_ops ops cm1) as [tr cm2]. by econstructor.
Qed.

(** The key of a completed circuit can be completed again only after one of these. *)
Definition releases (k : CircuitKey) (e : cop * result) : Prop :=
  match e.1 with
  | OpDelete dbOk ks => dbOk = true /\ k ∈ ks
  | OpRestart => True
  | _ => False
  end.

Lemma complete_keeps c s r s' k : complete c s = (r, s') -> k ∈ s.2 -> k ∈ s'.2.
Proof. unfold complete. destruct c; [case_bool_decide|]; intros [= <- <-] ?; simpl; set_solver. Qed.

Lemma spec_keeps op s r s' k : spec op s = (r, s') -> k ∈ s.2 -> k ∈ s'.2 \/ releases k (op, r).
Proof.
  destruct op as [dbOk cs|dbOk kss|ch st|k'|o|dbOk ks|]; cbn [spec]; intros H Hk; [..|by right].
  - destruct (bool_decide _), dbOk; injection H as <- <-; by left.
  - destruct kss; [injection H as <- <-; by left|].
    destruct (spec_check _ (_ :: _)), dbOk; injection H as <- <-; by left.
  - injection H as <- <-. by left.
  - left. by eapply complete_keeps.
  - left. by eapply complete_keeps.
  - destruct dbOk; injection H as <- <-; [|by left]. simpl. destruct (decide (k ∈ ks)); [by right|left; set_solver].
Qed.

(** An operation completes only keys that are not being completed, and marks them. *)
Lemma spec_completes op s r s' c :
  spec op s = (r, s') -> r_circuit r = Some c -> Incoming c ∉ s.2 /\ Incoming c ∈ s'.2.
Proof.
  assert (forall o, complete o s = (r, s') -> r_circuit r = Some c -> Incoming c ∉ s.2 /\ Incoming c ∈ s'.2) as Hc.
  { intros [d|]; simpl; [case_bool_decide|]; intros [= <- <-]; simpl; try done. intros [= <-]. set_solver. }
  destruct op as [dbOk cs|dbOk kss|ch st|k'|o|dbOk ks|]; cbn [spec]; [| | |by apply Hc|by apply Hc| |].
  - by destruct (bool_decide _), dbOk; intros [= <- <-].
  - destruct kss; [by intros [= <- <-]|]. by destruct (spec_check _ (_ :: _)), dbOk; intros [= <- <-].
  - by intros [= <- <-].
  - by destruct dbOk; intros [= <- <-].
  - by intros [= <- <-].
Qed.

Lemma spec_steps_keep s tr s' k :
  spec_steps s tr s' -> k ∈ s.2 -> k ∈ s'.2 \/ Exists (releases k) tr.
Proof.
  induction 1 as [|s op r s1 tr s2 Hs _ IH]; intros Hk; [by left|].
  destruct (spec_keeps _ _ _ _ _ Hs Hk) as [Hk1|Hr]; [|right; by left].
  destruct (IH Hk1); [by left|right; by right].
Qed.

Lemma spec_steps_app s tr1 tr2 s' :
  spec_steps s (tr1 ++ tr2) s' -> exists s1, spec_steps s tr1 s1 /\ spec_steps s1 tr2 s'.
Proof.
  revert s. induction tr1 as [|e tr1 IH]; intros s H; simpl in *; [exists s; by split; [constructor|]|].
  inversion H as [|? ? ? ? ? ? Hs Hr]; subst. destruct (IH _ Hr) as (s2 & H1 & H2). exists s2. split; [by econstructor|done].
Qed.

Context {BL : BtcecLaws}.

Lemma simulation op cm : Inv cm -> op_ok (circuits cm) op -> simulates op cm.
Proof.
  intros HI Hok. destruct op.
  - by apply CommitCircuits_sim.
  - by apply OpenCircuits_sim.
  - by apply TrimOpenCircuits_sim.
  - by apply FailCircuit_sim.
  - by apply CloseCircuit_sim.
  - by apply DeleteCircuits_sim.
  - by apply restart_sim.
Qed.

Lemma steps_refine cm tr cm' :
  Inv cm -> code_steps cm tr cm' -> Inv cm' /\ spec_steps (circuits cm, closed cm) tr (circuits cm', closed cm').
Proof.
  intros HI Hs. induction Hs as [|cm op r cm1 tr cm2 Hok Hr _ IH]; [by split; [|constructor]|].
  pose proof (simulation op cm HI Hok) as Hsim. unfold simulates in Hsim. rewrite Hr in Hsim.
  destruct (spec op (circuits cm, closed cm)) as [r' [A X]] eqn:Es. destruct Hsim as [-> (HI1 & HA1 & HX1)].
  simpl in HA1, HX1. subst A X. destruct (IH HI1) as [HI2 Hs2]. split; [done|]. by econstructor.
Qed.

Lemma newMap_inv : Inv newMap.
Proof.
  split; [apply empty_mem|..].
  - intros k c o Hc. unfold newMap in Hc. by rewrite circuits_empty, lookup_empty in Hc.
  - unfold newMap. rewrite circuits_empty. simpl. split; intros *; rewrite lookup_empty; done.
Qed.

(** What [Encode] writes of a circuit, [decodeCircuit] reads back, for every
    well-formed circuit: all fields but the keystone, which is stored apart, and
    with the onion error encrypter that is extracted again from the stored key. *)
Theorem circuit_roundtrip c :
  wf_circuit c ->
  exists bs, Encode c [] = (bs, Ok tt) /\ decodeCircuit bs = Ok (restored c).
Proof.
  intros Hw. destruct (circuit_decode_encode c Hw) as (bs & Hb & Hd). exists bs. split; [|done]. apply (Hb []).
Qed.


(** C26: a circuit is completed once.  When two operations of a run both return a
    circuit of the same incoming key to be settled or failed, between them the
    circuit was deleted or the switch restarted. *)
Theorem circuit_completed_once tr1 op1 r1 tr2 op2 r2 tr3 cm c1 c2 :
  code_steps newMap (tr1 ++ (op1, r1) :: tr2 ++ (op2, r2) :: tr3) cm ->
  r_circuit r1 = Some c1 -> r_circuit r2 = Some c2 -> Incoming c1 = Incoming c2 ->
  Exists (releases (Incoming c1)) tr2.
Proof.
  intros Hs H1 H2 He. apply (steps_refine _ _ _ newMap_inv) in Hs as [_ Hs].
  apply spec_steps_app in Hs as (s1 & _ & Hs). inversion Hs as [|? ? ? s2 ? ? Ho1 Hs2]; subst.
  apply spec_steps_app in Hs2 as (s3 & Hk & Hs3). inversion Hs3 as [|? ? ? s4 ? ? Ho2 _]; subst.
  destruct (spec_completes _ _ _ _ _ Ho1 H1) as [_ Hin]. destruct (spec_completes _ _ _ _ _ Ho2 H2) as [Hn _].
  destruct (spec_steps_keep _ _ _ _ Hk Hin) as [Hin3|]; [|done]. by rewrite He in Hin3.
Qed.


(** After any run, looking up a payment hash returns every open circuit of
    that hash. *)
Theorem LookupByPaymentHash_complete tr cm k c o :
  code_steps newMap tr cm -> circuits cm !! k = Some c -> Outgoing c = Some o ->
  exists p, p ∈ LookupByPaymentHash cm (PaymentHash c) /\ LookupOpenCircuit cm o = Some p /\ heap cm !! p = Some c.
Proof.
  intros Hs HA Ho. apply (steps_refine _ _ _ newMap_inv) in Hs as [[HM HH _] _].
  destruct (HH _ _ _ HA Ho) as (s & Hs & Hin). pose proof HA as (p & Hp & Hc)%circuits_Some.
  assert (opened cm !! o = Some p) as Hop by (apply (i_opened _ HM); eauto).
  exists p. split_and!; [|done..]. unfold LookupByPaymentHash. rewrite Hs.
  apply list_elem_of_omap. exists o. split; [by apply elem_of_elements|done].
Qed.

End theorems.

(** ** Concrete runs *)

#[local] Existing Instance btcec_model.
#[local] Existing Instance btcec_model_laws.
#[local] Existing Instance sphinx_model.

Lemma circuit_a_wf : wf_circuit circuit_a.
Proof.
  unfold wf_circuit, wf_key, wf_scid, wf_addref, in_u. simpl. split_and!; try done; try lia. by exists example_key.
Qed.

Lemma circuit_b_wf : wf_circuit circuit_b.
Proof.
  unfold wf_circuit, wf_key, wf_scid, wf_addref, in_u. simpl. split_and!; try done; try lia. by exists example_key.
Qed.

Lemma new_ok cs : cs ⊆ [circuit_a; circuit_b] -> Forall (fun c => wf_circuit c /\ Outgoing c = None) cs.
Proof.
  intros H. apply Forall_forall. intros c Hc%H. apply elem_of_cons in Hc as [->|Hc]; [by split; [apply circuit_a_wf|]|].
  apply list_elem_of_singleton in Hc as ->. by split; [apply circuit_b_wf|].
Qed.

Lemma key_out_ok : wf_key key_out /\ key_out <> EmptyCircuitKey.
Proof. unfold wf_key, wf_scid, in_u. simpl. split_and!; try done; lia. Qed.

(** Two circuits are committed; one is opened, settled and deleted, the deletion
    failing once; the other is failed after a restart. *)
Definition example_ops : list cop :=
  [OpCommit true [circuit_a; circuit_b]; OpOpen true [mkKeystone key_a key_out]; OpClose key_out; OpClose key_out;
   OpDelete false [key_a]; OpDelete true [key_a]; OpRestart; OpCommit true [circuit_b]; OpFail key_b].

Lemma example_ops_ok : ops_ok example_ops newMap.
Proof.
  cbn [ops_ok example_ops op_ok]. split_and!; try done.
  - by apply new_ok.
  - by repeat constructor; apply not_elem_of_nil.
  - by repeat constructor; apply not_elem_of_nil.
  - constructor; [|constructor]. split_and!; [apply key_out_ok..|]. vm_compute. by intros c [= <-].
  - apply new_ok. set_solver.
Qed.

Lemma circuit_roundtrip_witness :
  exists bs, Encode circuit_a [] = (bs, Ok tt) /\ decodeCircuit bs = Ok (restored circuit_a).
Proof. apply (circuit_roundtrip circuit_a). apply circuit_a_wf. Defined.


(** A circuit is failed, deleted, committed again by its link and failed again. *)
Definition twice_ops : list cop :=
  [OpCommit true [circuit_a]; OpFail key_a; OpDelete true [key_a]; OpCommit true [circuit_a]; OpFail key_a].

Lemma twice_ops_ok : ops_ok twice_ops newMap.
Proof. cbn [ops_ok twice_ops op_ok]. split_and!; try done; apply new_ok; set_solver. Qed.

Lemma circuit_completed_once_witness :
  Exists (releases (Incoming circuit_a))
    [(OpDelete true [key_a], plain (Ok tt)); (OpCommit true [circuit_a], mkResult (Ok tt) None [circuit_a] [] [])].
Proof.
  refine (circuit_completed_once
    [(OpCommit true [circuit_a], mkResult (Ok tt) None [circuit_a] [] [])]
    (OpFail key_a) (mkResult (Ok tt) (Some circuit_a) [] [] []) _
    (OpFail key_a) (mkResult (Ok tt) (Some circuit_a) [] [] []) [] (run_ops twice_ops newMap).2
    circuit_a circuit_a _ eq_refl eq_refl eq_refl).
  pose proof (run_ops_steps twice_ops newMap twice_ops_ok) as Hs.
  assert ((run_ops twice_ops newMap).1 = [(OpCommit true [circuit_a], mkResult (Ok tt) None [circuit_a] [] []);
    (OpFail key_a, mkResult (Ok tt) (Some circuit_a) [] [] []); (OpDelete true [key_a], plain (Ok tt));
    (OpCommit true [circuit_a], mkResult (Ok tt) None [circuit_a] [] []);
    (OpFail key_a, mkResult (Ok tt) (Some circuit_a) [] [] [])]) as He by (vm_compute; reflexivity).
  rewrite He in Hs. exact Hs.
Defined.

Definition open_ops : list cop :=
  [OpCommit true [circuit_a; circuit_b]; OpOpen true [mkKeystone key_a key_out]].

Lemma open_ops_ok : ops_ok open_ops newMap.
Proof.
  cbn [ops_ok open_ops op_ok]. split_and!; try done.
  - by apply new_ok.
  - by repeat constructor; apply not_elem_of_nil.
  - by repeat constructor; apply not_elem_of_nil.
  - constructor; [|constructor]. split_and!; [apply key_out_ok..|]. vm_compute. by intros c [= <-].
Qed.


Lemma LookupByPaymentHash_complete_witness :
  exists p, p ∈ LookupByPaymentHash (run_ops open_ops newMap).2 (replicate 32 x11) /\
    LookupOpenCircuit (run_ops open_ops newMap).2 key_out = Some p /\
    heap (run_ops open_ops newMap).2 !! p = Some (set_outgoing (Some key_out) circuit_a).
Proof.
  apply (LookupByPaymentHash_complete (run_ops open_ops newMap).1 _ key_a (set_outgoing (Some key_out) circuit_a)).
  - apply run_ops_steps, open_ops_ok.
  - vm_compute. reflexivity.
  - reflexivity.
Defined.

(** ** Stale hash entries

    [TrimOpenCircuits] clears the outgoing key before it removes the circuit from the
    hash index, so the entry stays: when the same outgoing key is given to another
    circuit, the old hash finds a circuit of a different hash. *)
Definition stale_ops : list cop :=
  open_ops ++ [OpTrim chan_c 0; OpOpen true [mkKeystone key_b key_out]].

Example trim_leaves_stale_hash :
  let cm := (run_ops stale_ops newMap).2 in
  objects cm (LookupByPaymentHash cm (PaymentHash circuit_a)) = [set_outgoing (Some key_out) circuit_b] /\
  PaymentHash circuit_b <> PaymentHash circuit_a.
Proof. vm_compute. split; [reflexivity|discriminate]. Qed.
