(* ===== verification/GoText.v ===== *)
(** * Go strings, numbers in text and durations

    The parts of the packages [strings], [strconv] and [time] that the payment requests
    use.  A Go string is a list of bytes.  Conversions between floating point and
    integers are those of IEEE 754 binary64. *)

From Stdlib Require Import ZArith Lia String Floats.SpecFloat.
From S2P Require Import Prelude.

Local Open Scope Z_scope.
Local Open Scope go_scope.

Abbreviation gostring := (list byte).

Definition str : string -> gostring := list_byte_of_string.

(** ** strings *)

Fixpoint IndexByte (s : gostring) (c : byte) : option nat :=
  match s with
  | [] => None
  | x :: s' => if bool_decide (x = c) then Some 0%nat else S <$> IndexByte s' c
  end.

Fixpoint LastIndexByte (s : gostring) (c : byte) : option nat :=
  match s with
  | [] => None
  | x :: s' =>
      match LastIndexByte s' c with
      | Some i => Some (S i)
      | None => if bool_decide (x = c) then Some 0%nat else None
      end
  end.

Fixpoint HasPrefix (s prefix : gostring) : bool :=
  match prefix, s with
  | [], _ => true
  | p :: prefix', x :: s' => bool_decide (x = p) && HasPrefix s' prefix'
  | _ :: _, [] => false
  end.

(** [strings.Split] with a separator of one byte. *)
Fixpoint Split (s : gostring) (sep : byte) : list gostring :=
  match s with
  | [] => [[]]
  | x :: s' =>
      if bool_decide (x = sep) then [] :: Split s' sep
      else match Split s' sep with
           | w :: ws => (x :: w) :: ws
           | [] => [[x]]
           end
  end.

(** On ASCII strings, [strings.ToLower] and [strings.ToUpper] work byte by byte. *)
Definition lower_byte (b : byte) : byte :=
  if bool_decide (65 <= byte_Z b <= 90) then byte_of_Z (byte_Z b + 32) else b.
Definition upper_byte (b : byte) : byte :=
  if bool_decide (97 <= byte_Z b <= 122) then byte_of_Z (byte_Z b - 32) else b.
Definition ToLower (s : gostring) : gostring := lower_byte <$> s.
Definition ToUpper (s : gostring) : gostring := upper_byte <$> s.

(** ** strconv *)

Inductive num_err : Type := ErrSyntax | ErrRange.

Definition digit (d : Z) : byte := byte_of_Z (48 + d).

(** The digits of [u], the last one first computed. *)
Fixpoint formatBits (fuel : nat) (u : Z) (acc : gostring) : gostring :=
  match fuel with
  | O => acc
  | S fuel' =>
      let acc := digit (u mod 10) :: acc in
      if bool_decide (u < 10) then acc else formatBits fuel' (u / 10) acc
  end.

(** A 64-bit number has at most 20 decimal digits. *)
Definition FormatUint (u : Z) : gostring := formatBits 20 u [].

Definition FormatInt (i : Z) : gostring :=
  if bool_decide (i < 0) then str "-" ++ FormatUint (- i) else FormatUint i.

Definition is_digit (c : byte) : bool := bool_decide (48 <= byte_Z c <= 57).

(** The loop of [strconv.ParseUint(s, 10, 64)]: the first fault decides the error. *)
Fixpoint parseDigits (s : gostring) (n : Z) : outcome num_err Z :=
  match s with
  | [] => Ok n
  | c :: s' =>
      if is_digit c then
        let n1 := 10 * n + (byte_Z c - 48) in
        if bool_decide (n1 < 2 ^ 64) then parseDigits s' n1 else Err ErrRange
      else Err ErrSyntax
  end.

Definition ParseUint (s : gostring) : outcome num_err Z :=
  match s with [] => Err ErrSyntax | _ => parseDigits s 0 end.

(** [strconv.Atoi] returns a value with its error: 0 for a syntax error, the nearest
    representable number when the number is out of range. *)
Definition Atoi (s : gostring) : Z * option num_err :=
  let '(neg, digits) :=
    match s with
    | c :: s' => if bool_decide (c = "-"%byte) then (true, s')
                 else if bool_decide (c = "+"%byte) then (false, s') else (false, s)
    | [] => (false, s)
    end in
  let limit := if neg then 2 ^ 63 else 2 ^ 63 - 1 in
  match ParseUint digits with
  | Ok un => if bool_decide (limit < un) then (if neg then - limit else limit, Some ErrRange)
             else (if neg then - un else un, None)
  | Err ErrRange => (if neg then - limit else limit, Some ErrRange)
  | _ => (0, Some ErrSyntax)
  end.

(** ** time *)

Definition Second : Z := 1000000000.

(** A [time.Time]: seconds since the epoch and the nanoseconds within the second. *)
Record Time := mkTime { Unix : Z; Nanosecond : Z }.

Definition f64_of_Z (z : Z) : spec_float := binary_normalize 53 1024 z 0 false.

(** [Duration.Seconds]: the whole seconds and the rest are converted and added as
    [float64]s. *)
Definition Seconds (d : Z) : spec_float :=
  SFadd 53 1024 (f64_of_Z (Z.quot d Second))
    (SFdiv 53 1024 (f64_of_Z (Z.rem d Second)) (f64_of_Z Second)).

(** The conversion of a [float64] to an integer drops the fraction. *)
Definition f64_trunc (x : spec_float) : option Z :=
  match x with
  | S754_zero _ => Some 0
  | S754_finite s m e => Some (cond_Zopp s (Z.shiftl (Z.pos m) e))
  | S754_infinity _ | S754_nan => None
  end.

(** ** Lemmas on numbers in text *)

Lemma digit_Z d : 0 <= d < 10 -> byte_Z (digit d) = 48 + d.
Proof. intros. unfold digit. rewrite byte_Z_of_Z. unfold u8. rewrite Z.mod_small; lia. Qed.

Lemma is_digit_digit d : 0 <= d < 10 -> is_digit (digit d) = true.
Proof. intros. unfold is_digit. rewrite digit_Z by done. apply bool_decide_eq_true. lia. Qed.

Lemma formatBits_digits fuel u acc :
  Forall is_digit acc -> Forall is_digit (formatBits fuel u acc).
Proof.
  revert u acc. induction fuel as [|fuel IH]; intros u acc Ha; cbn; [done|].
  assert (is_digit (digit (u mod 10))) by (rewrite is_digit_digit; [done|]; apply Z.mod_pos_bound; lia).
  case_bool_decide; [by constructor|]. apply IH. by constructor.
Qed.

Lemma FormatUint_digits u : Forall is_digit (FormatUint u).
Proof. by apply formatBits_digits. Qed.

Lemma formatBits_acc fuel u acc : formatBits fuel u acc = formatBits fuel u [] ++ acc.
Proof.
  revert u acc. induction fuel as [|fuel IH]; intros u acc; cbn; [done|].
  case_bool_decide; [done|]. rewrite IH, (IH _ [_]), <- (assoc (++)). done.
Qed.

(** Reading digits appended to others. *)
Lemma parseDigits_snoc s n d r :
  parseDigits s n = Ok r -> 0 <= d < 10 -> 10 * r + d < 2 ^ 64 ->
  parseDigits (s ++ [digit d]) n = Ok (10 * r + d).
Proof.
  revert n. induction s as [|c s IH]; intros n; cbn.
  - intros [= ->] Hd Hr. rewrite is_digit_digit, digit_Z by done.
    replace (48 + d - 48) with d by lia. by rewrite bool_decide_eq_true_2.
  - destruct (is_digit c); [|done]. case_bool_decide; [|done]. apply IH.
Qed.

Lemma parseDigits_format fuel u :
  0 <= u < 2 ^ 64 -> u < 10 ^ Z.of_nat fuel -> (0 < fuel)%nat ->
  parseDigits (formatBits fuel u []) 0 = Ok u.
Proof.
  revert u. induction fuel as [|fuel IH]; intros u Hu Hlt Hf; [lia|]. cbn [formatBits].
  pose proof (Z.mod_pos_bound u 10 ltac:(lia)) as Hm.
  case_bool_decide as H10.
  - rewrite (Z.mod_small u 10) by lia. apply (parseDigits_snoc [] 0 u 0); [done|lia|lia].
  - rewrite Nat2Z.inj_succ, Z.pow_succ_r in Hlt by lia.
    pose proof (Z.div_mod u 10 ltac:(lia)).
    rewrite formatBits_acc. erewrite (parseDigits_snoc _ 0 _ (u / 10)); [f_equal; lia| |lia|lia].
    apply IH; [lia|lia|]. destruct fuel; [cbn in Hlt; lia|lia].
Qed.

Lemma formatBits_cons fuel u acc : (0 < fuel)%nat -> formatBits fuel u acc <> [].
Proof.
  destruct fuel as [|fuel]; [lia|]. intros _. cbn. case_bool_decide; [done|].
  rewrite formatBits_acc. by destruct (formatBits fuel (u / 10) []).
Qed.

Lemma FormatUint_nonempty u : FormatUint u <> [].
Proof. apply formatBits_cons. lia. Qed.

Lemma ParseUint_FormatUint u : 0 <= u < 2 ^ 64 -> ParseUint (FormatUint u) = Ok u.
Proof.
  intros Hu. pose proof (FormatUint_nonempty u) as Hne. unfold ParseUint.
  destruct (FormatUint u) eqn:E; [done|]. rewrite <- E. apply parseDigits_format; lia.
Qed.

Lemma Atoi_FormatUint u : 0 <= u < 2 ^ 63 -> Atoi (FormatUint u) = (u, None).
Proof.
  intros Hu. pose proof (FormatUint_digits u) as Hd. pose proof (ParseUint_FormatUint u ltac:(lia)) as Hp.
  unfold Atoi. destruct (FormatUint u) as [|c s]; [done|]. inversion Hd as [|? ? Hc _]; subst.
  rewrite (bool_decide_eq_false_2 (c = "-"%byte)) by (by intros ->).
  rewrite (bool_decide_eq_false_2 (c = "+"%byte)) by (by intros ->).
  rewrite Hp, bool_decide_eq_false_2 by lia. done.
Qed.

(** ** Lemmas on searching *)

Lemma LastIndexByte_app a c b : c ∉ b -> LastIndexByte (a ++ c :: b) c = Some (length a).
Proof.
  intros Hb. assert (LastIndexByte b c = None) as Hn.
  { induction b as [|x b IH]; cbn; [done|]. rewrite not_elem_of_cons in Hb. rewrite IH by naive_solver.
    rewrite bool_decide_eq_false_2; naive_solver. }
  induction a as [|x a IH]; cbn.
  - by rewrite Hn, bool_decide_eq_true_2.
  - by rewrite IH.
Qed.

Lemma HasPrefix_app p s : HasPrefix (p ++ s) p = true.
Proof. induction p; cbn; [by destruct s|]. by rewrite bool_decide_eq_true_2. Qed.

Lemma Split_app a c b : c ∉ a -> Split (a ++ c :: b) c = a :: Split b c.
Proof.
  induction a as [|x a IH]; cbn; intros H.
  - by rewrite bool_decide_eq_true_2.
  - rewrite not_elem_of_cons in H. rewrite bool_decide_eq_false_2 by naive_solver.
    rewrite IH by naive_solver. done.
Qed.

Lemma Split_none a c : c ∉ a -> Split a c = [a].
Proof.
  induction a as [|x a IH]; cbn; intros H; [done|].
  rewrite not_elem_of_cons in H. rewrite bool_decide_eq_false_2 by naive_solver.
  rewrite IH by naive_solver. done.
Qed.

(** ** Lemmas on durations *)

Lemma digits2_log2 p : Z.pos (digits2_pos p) = Z.log2 (Z.pos p) + 1.
Proof.
  induction p as [p IH|p IH|]; cbn [digits2_pos]; [..|done]; rewrite Pos2Z.inj_succ, IH.
  - rewrite (Pos2Z.inj_xI p), Z.log2_succ_double; lia.
  - rewrite (Pos2Z.inj_xO p), Z.log2_double; lia.
Qed.

(** The mantissa is shifted to 53 bits. *)
Lemma shl_align_53 p :
  Z.pos p < 2 ^ 53 ->
  let D := Z.log2 (Z.pos p) + 1 in
  exists m, shl_align p 0 (D - 53) = (m, D - 53) /\ Z.pos m = Z.shiftl (Z.pos p) (53 - D) /\ Z.pos (digits2_pos m) = 53.
Proof.
  intros Hp D. assert (0 < D <= 53) as HD.
  { subst D. pose proof (Z.log2_nonneg (Z.pos p)). apply Z.log2_lt_pow2 in Hp; lia. }
  unfold shl_align. rewrite Z.sub_0_r. destruct (D - 53) as [|d|d] eqn:E; [|lia|].
  - exists p. rewrite digits2_log2. fold D. assert (D = 53) as -> by lia. done.
  - exists (Pos.iter xO p d). split; [done|].
    assert (Z.pos (Pos.iter xO p d) = Z.shiftl (Z.pos p) (53 - D)) as Hm.
    { fold (shift_pos d p). rewrite Zpower.shift_pos_correct, Z.shiftl_mul_pow2, Z.pow_pos_fold by lia.
      replace (53 - D) with (Z.pos d) by lia. lia. }
    split; [done|]. rewrite digits2_log2, Hm, Z.log2_shiftl by lia. lia.
Qed.

(** Numbers of at most 53 bits are converted exactly. *)
Lemma f64_of_Z_exact z : 0 <= z < 2 ^ 53 -> f64_trunc (f64_of_Z z) = Some z.
Proof.
  intros [H0 H53]. destruct z as [|p|p]; [done| |lia]. unfold f64_of_Z, binary_normalize, binary_round.
  assert (fexp 53 1024 (Z.pos (digits2_pos p) + 0) = Z.log2 (Z.pos p) + 1 - 53) as ->.
  { rewrite digits2_log2. unfold fexp, emin. pose proof (Z.log2_nonneg (Z.pos p)). lia. }
  destruct (shl_align_53 p H53) as (m & -> & Hm & Hd). set (e := Z.log2 (Z.pos p) + 1 - 53) in *.
  assert (-53 < e <= 0) as He.
  { subst e. pose proof (Z.log2_nonneg (Z.pos p)). apply Z.log2_lt_pow2 in H53; lia. }
  assert (fexp 53 1024 (Zdigits2 (Z.pos m) + e) - e = 0) as Hf.
  { unfold Zdigits2. rewrite Hd. unfold fexp, emin. lia. }
  unfold binary_round_aux, shr_fexp. rewrite Hf. cbn -[Z.sub Z.leb Zdigits2 fexp].
  rewrite Hf. cbn -[Z.sub Z.leb Zdigits2 fexp]. rewrite (proj2 (Z.leb_le _ _)) by lia.
  cbn [f64_trunc cond_Zopp]. rewrite Hm, Z.shiftl_shiftl by lia. f_equal.
  replace (53 - (Z.log2 (Z.pos p) + 1) + e) with 0 by (subst e; lia). apply Z.shiftl_0_r.
Qed.

Lemma f64_zero : f64_of_Z 0 = S754_zero false.
Proof. done. Qed.

(** A duration of whole seconds. *)
Lemma Seconds_whole s : 0 <= s < 2 ^ 53 -> f64_trunc (Seconds (s * Second)) = Some s.
Proof.
  intros Hs. unfold Seconds. rewrite Z.quot_mul, Z.rem_mul, f64_zero by done.
  rewrite <- (f64_of_Z_exact s Hs). set (z := SFdiv _ _ _ _). vm_compute in z. subst z.
  by destruct (f64_of_Z s) as [[]| | |].
Qed.
