(* ===== verification/Bech32.v ===== *)
(** * zpay32/bech32.go: bech32 strings of any length

    The decoder of bech32 strings and the checksum of BIP 173.  The checksum is
    computed with Go [int]s; the mask of every step keeps them below 2^30. *)

From Stdlib Require Import ZArith Lia String.
From S2P Require Import Prelude GoText.

Local Open Scope Z_scope.
Local Open Scope go_scope.

Definition charset : gostring := str "qpzry9x8gf2tvdw0s3jn54khce6mua7l".

Definition gen : list Z := [0x3b6a57b2; 0x26508e6d; 0x1ea119fa; 0x3d4233dd; 0x2a1462b3].

Inductive bech_err : Type :=
  | ErrBechLength
  | ErrBechChar
  | ErrBechCase
  | ErrBechSeparator
  | ErrBechCharset (c : byte)
  | ErrBechData (b : byte)
  | ErrBechChecksum (expected : option gostring) (got : gostring).

Fixpoint toBytes (chars : gostring) : outcome bech_err (list byte) :=
  match chars with
  | [] => Ok []
  | c :: chars' =>
      match IndexByte charset c with
      | None => Err (ErrBechCharset c)
      | Some index => decoded <~ toBytes chars' ; Ok (byte_of_Z (Z.of_nat index) :: decoded)
      end
  end.

Fixpoint toChars (data : list byte) : outcome bech_err gostring :=
  match data with
  | [] => Ok []
  | b :: data' =>
      match charset !! Z.to_nat (byte_Z b) with
      | None => Err (ErrBechData b)
      | Some c => result <~ toChars data' ; Ok (c :: result)
      end
  end.

(** The inner loop of [bech32Polymod]: [if (b>>uint(i))&1 == 1 { chk ^= gen[i] }]. *)
Definition polymod_gen (b : Z) (chk : Z) : Z :=
  foldl (fun chk ig => if bool_decide (Z.land (Z.shiftr b ig.1) 1 = 1) then Z.lxor chk ig.2 else chk)
    chk (zip [0; 1; 2; 3; 4] gen).

Definition polymod_step (chk v : Z) : Z :=
  polymod_gen (Z.shiftr chk 25) (Z.lxor (Z.shiftl (Z.land chk 0x1ffffff) 5) v).

Definition bech32Polymod (values : list Z) : Z := foldl polymod_step 1 values.

Definition bech32HrpExpand (hrp : gostring) : list Z :=
  ((fun c => Z.shiftr (byte_Z c) 5) <$> hrp) ++ [0] ++ ((fun c => Z.land (byte_Z c) 31) <$> hrp).

Definition bech32Checksum (hrp : gostring) (data : list byte) : list byte :=
  let integers := byte_Z <$> data in
  let values := bech32HrpExpand hrp ++ integers in
  let values := values ++ [0; 0; 0; 0; 0; 0] in
  let polymod := Z.lxor (bech32Polymod values) 1 in
  (fun i => byte_of_Z (Z.land (Z.shiftr polymod (5 * (5 - i))) 31)) <$> [0; 1; 2; 3; 4; 5].

Definition bech32VerifyChecksum (hrp : gostring) (data : list byte) : bool :=
  let integers := byte_Z <$> data in
  let concat := bech32HrpExpand hrp ++ integers in
  bool_decide (bech32Polymod concat = 1).

(** [one+7 <= len(bech)] leaves at least six decoded bytes. *)
Definition decodeBech32 (bech : gostring) : outcome bech_err (gostring * list byte) :=
  if bool_decide (length bech < 8)%nat then Err ErrBechLength
  else if existsb (fun c => bool_decide (byte_Z c < 33 \/ byte_Z c > 126)) bech then Err ErrBechChar
  else
    let lower := ToLower bech in
    let upper := ToUpper bech in
    if bool_decide (bech <> lower /\ bech <> upper) then Err ErrBechCase
    else
      let bech := lower in
      match LastIndexByte bech "1"%byte with
      | None => Err ErrBechSeparator
      | Some one =>
          if bool_decide (one < 1 \/ length bech < one + 7)%nat then Err ErrBechSeparator
          else
            let hrp := take one bech in
            let data := drop (one + 1) bech in
            decoded <~ toBytes data ;
            if negb (bech32VerifyChecksum hrp decoded) then
              let checksum := drop (length bech - 6) bech in
              let expected :=
                match toChars (bech32Checksum hrp (take (length decoded - 6) decoded)) with
                | Ok expected => Some expected
                | _ => None
                end in
              Err (ErrBechChecksum expected checksum)
            else Ok (hrp, take (length decoded - 6) decoded)
      end.

(** ** What the decoder is about *)

(** A 5-bit group. *)
Definition group (b : byte) : Prop := byte_Z b < 32.

(** The bech32 string of a human-readable part and data, by BIP 173: the separator, the
    characters of the data and those of the checksum. *)
Definition char_of (b : byte) : byte := default "q"%byte (charset !! Z.to_nat (byte_Z b)).

Definition bech32_string (hrp : gostring) (data : list byte) : gostring :=
  hrp ++ "1"%byte :: (char_of <$> data ++ bech32Checksum hrp data).

(** The characters a human-readable part may have once it is in lower case. *)
Definition hrp_char (c : byte) : Prop := 33 <= byte_Z c <= 126 /\ ~ 65 <= byte_Z c <= 90.

(** The number written by 5-bit groups, the first one the most significant. *)
Definition groups_value (l : list Z) : Z := foldl (fun acc v => Z.lxor (Z.shiftl acc 5) v) 0 l.

(** What is known of the character of a group. *)
Definition good_char (b : byte) : bool :=
  bool_decide (33 <= byte_Z (char_of b) <= 126) && bool_decide (lower_byte (char_of b) = char_of b) &&
  bool_decide (char_of b <> "1"%byte) && bool_decide (IndexByte charset (char_of b) = Some (Z.to_nat (byte_Z b))).

(** ** The checksum *)

Lemma polymod_gen_lxor b chk x : polymod_gen b (Z.lxor chk x) = Z.lxor (polymod_gen b chk) x.
Proof.
  unfold polymod_gen. generalize (zip [0; 1; 2; 3; 4] gen). intros l. revert chk.
  induction l as [|[i g] l IH]; intros chk; cbn [foldl]; [done|]. rewrite <- IH. f_equal. cbn.
  case_bool_decide; [|done]. by rewrite !Z.lxor_assoc, (Z.lxor_comm x).
Qed.

(** A difference of at most 25 bits passes through a step unchanged, shifted. *)
Lemma polymod_step_lxor c d v :
  0 <= d < 2 ^ 25 -> polymod_step (Z.lxor c d) v = Z.lxor (polymod_step c 0) (Z.lxor (Z.shiftl d 5) v).
Proof.
  intros Hd. unfold polymod_step. rewrite Z.lxor_0_r, <- polymod_gen_lxor. f_equal.
  - rewrite Z.shiftr_lxor. rewrite (Z.shiftr_div_pow2 d), (Z.div_small d) by lia. apply Z.lxor_0_r.
  - rewrite <- Z.lxor_assoc. f_equal. rewrite <- Z.shiftl_lxor. f_equal.
    apply Z.bits_inj'. intros n Hn. rewrite Z.land_spec, !Z.lxor_spec, Z.land_spec.
    destruct (decide (n < 25)).
    + assert (Z.testbit 0x1ffffff n = true) as ->; [|by rewrite !andb_true_r].
      change 0x1ffffff with (Z.ones 25). rewrite Z.ones_spec_low; [done|lia].
    + assert (Z.testbit 0x1ffffff n = false) as ->.
      { change 0x1ffffff with (Z.ones 25). rewrite Z.ones_spec_high; [done|lia]. }
      rewrite (Z.bits_above_log2 d n), !andb_false_r; [done|lia|].
      destruct (decide (d = 0)) as [->|]; [cbn; lia|]. apply Z.log2_lt_pow2; [lia|].
      apply Z.lt_le_trans with (2 ^ 25); [lia|]. apply Z.pow_le_mono_r; lia.
Qed.

Lemma lxor_lt_pow2 w x y : 0 <= x < 2 ^ w -> 0 <= y < 2 ^ w -> 0 <= w -> 0 <= Z.lxor x y < 2 ^ w.
Proof.
  intros Hx Hy Hw. assert (0 <= Z.lxor x y) as H0 by (apply Z.lxor_nonneg; lia). split; [done|].
  destruct (decide (Z.lxor x y = 0)) as [->|]; [lia|]. apply Z.log2_lt_pow2; [lia|].
  assert (0 < w) by (destruct (decide (w = 0)) as [->|]; [|lia]; cbn in *; replace x with 0 in * by lia; by replace y with 0 in * by lia).
  apply Z.le_lt_trans with (Z.max (Z.log2 x) (Z.log2 y)); [apply Z.log2_lxor; lia|].
  apply Z.max_lub_lt; [destruct (decide (x = 0)) as [->|]|destruct (decide (y = 0)) as [->|]];
    try (apply Z.log2_lt_pow2; lia); cbn; lia.
Qed.

Lemma groups_snoc l v : groups_value (l ++ [v]) = Z.lxor (Z.shiftl (groups_value l) 5) v.
Proof. unfold groups_value. by rewrite foldl_app. Qed.

Lemma groups_range l : Forall (fun v => 0 <= v < 32) l -> 0 <= groups_value l < 2 ^ (5 * Z.of_nat (length l)).
Proof.
  induction l as [|v l IH] using rev_ind; intros H; [cbn; lia|].
  apply Forall_app in H as [Hl Hv]. rewrite Forall_singleton in Hv. specialize (IH Hl).
  rewrite groups_snoc, length_app, Nat2Z.inj_add. cbn [length]. apply lxor_lt_pow2; [| |lia].
  - rewrite Z.shiftl_mul_pow2, Z.mul_add_distr_l, Z.pow_add_r by lia.
    change (2 ^ (5 * Z.of_nat 1)) with (2 ^ 5). nia.
  - split; [lia|]. apply Z.lt_le_trans with (2 ^ 5); [lia|].
    apply Z.pow_le_mono_r; lia.
Qed.

(** Up to six groups: the state they lead to differs from that of zeros by their number. *)
Lemma polymod_six c l :
  Forall (fun v => 0 <= v < 32) l -> (length l <= 6)%nat ->
  foldl polymod_step c l = Z.lxor (foldl polymod_step c (replicate (length l) 0)) (groups_value l).
Proof.
  induction l as [|v l IH] using rev_ind; intros H Hl; [symmetry; apply Z.lxor_0_r|].
  apply Forall_app in H as [Hg Hv]. rewrite length_app in Hl. cbn in Hl.
  rewrite foldl_app, length_app, replicate_add, foldl_app, IH, groups_snoc by (done || lia). cbn.
  apply polymod_step_lxor. pose proof (groups_range l Hg).
  assert (2 ^ (5 * Z.of_nat (length l)) <= 2 ^ 25) by (apply Z.pow_le_mono_r; lia). lia.
Qed.

Lemma regroup x : Z.lxor (Z.shiftl (Z.shiftr x 5) 5) (Z.land x 31) = x.
Proof.
  apply Z.bits_inj'. intros n Hn. rewrite Z.lxor_spec, Z.land_spec. change 31 with (Z.ones 5).
  destruct (decide (n < 5)).
  - rewrite Z.shiftl_spec_low, Z.ones_spec_low by lia. by rewrite andb_true_r, xorb_false_l.
  - rewrite Z.shiftl_spec, Z.shiftr_spec, Z.ones_spec_high by lia.
    rewrite andb_false_r, xorb_false_r. f_equal. lia.
Qed.

Lemma groups_of_number p :
  0 <= p < 2 ^ 30 ->
  groups_value ((fun i => Z.land (Z.shiftr p (5 * (5 - i))) 31) <$> [0; 1; 2; 3; 4; 5]) = p.
Proof.
  intros Hp. unfold groups_value. cbn [fmap list_fmap foldl].
  change (5 * (5 - 0)) with 25. change (5 * (5 - 1)) with 20. change (5 * (5 - 2)) with 15.
  change (5 * (5 - 3)) with 10. change (5 * (5 - 4)) with 5. change (5 * (5 - 5)) with 0.
  assert (Z.lxor (Z.shiftl 0 5) (Z.land (Z.shiftr p 25) 31) = Z.shiftr p 25) as ->.
  { rewrite Z.shiftl_0_l, Z.lxor_0_l. change 31 with (Z.ones 5). rewrite Z.land_ones by lia.
    apply Z.mod_small. rewrite Z.shiftr_div_pow2 by lia. split; [apply Z.div_pos; lia|].
    apply Z.div_lt_upper_bound; lia. }
  assert (forall k j, 0 <= k -> j = k + 5 ->
    Z.lxor (Z.shiftl (Z.shiftr p j) 5) (Z.land (Z.shiftr p k) 31) = Z.shiftr p k) as Hs.
  { intros k j Hk ->. rewrite <- Z.shiftr_shiftr by lia. apply regroup. }
  by rewrite (Hs 20 25), (Hs 15 20), (Hs 10 15), (Hs 5 10), (Hs 0 5), Z.shiftr_0_r by lia.
Qed.

Lemma polymod_gen_range b c : 0 <= c < 2 ^ 30 -> 0 <= polymod_gen b c < 2 ^ 30.
Proof.
  unfold polymod_gen. assert (Forall (fun ig : Z * Z => 0 <= ig.2 < 2 ^ 30) (zip [0; 1; 2; 3; 4] gen)) as H
    by (repeat constructor; cbn; lia).
  revert c. induction H as [|[i g] l Hg _ IH]; intros c Hc; cbn [foldl]; [done|].
  apply IH. case_bool_decide; [|done]. apply lxor_lt_pow2; cbn in *; lia.
Qed.

Lemma polymod_step_split c v :
  polymod_step c v = Z.lxor (Z.lxor (polymod_gen (Z.shiftr c 25) 0) (Z.shiftl (Z.land c 0x1ffffff) 5)) v.
Proof.
  unfold polymod_step. rewrite polymod_gen_lxor. rewrite <- (Z.lxor_0_l (Z.shiftl _ 5)) at 1.
  by rewrite polymod_gen_lxor.
Qed.

Lemma polymod_low c : 0 <= Z.land c 0x1ffffff < 2 ^ 25.
Proof. change 0x1ffffff with (Z.ones 25). rewrite Z.land_ones by lia. apply Z.mod_pos_bound. lia. Qed.

Lemma polymod_step_range c v : 0 <= v < 32 -> 0 <= polymod_step c v < 2 ^ 30.
Proof.
  intros Hv. rewrite polymod_step_split. pose proof (polymod_low c).
  apply lxor_lt_pow2; [|lia..]. apply lxor_lt_pow2; [by apply polymod_gen_range| |lia].
  rewrite Z.shiftl_mul_pow2 by lia. lia.
Qed.

Lemma polymod_run_range c l :
  0 <= c < 2 ^ 30 -> Forall (fun v => 0 <= v < 32) l -> 0 <= foldl polymod_step c l < 2 ^ 30.
Proof. intros Hc H. revert c Hc. induction H; intros c Hc; cbn; [done|]. apply IHForall, polymod_step_range. done. Qed.

Lemma hrp_expand_range hrp : Forall (fun v => 0 <= v < 32) (bech32HrpExpand hrp).
Proof.
  unfold bech32HrpExpand. repeat apply Forall_app_2; [|repeat constructor; lia|]; apply Forall_fmap, Forall_true; intros c;
    pose proof (byte_Z_range c); cbn.
  - rewrite Z.shiftr_div_pow2 by lia. split; [apply Z.div_pos; lia|apply Z.div_lt_upper_bound; lia].
  - change 31 with (Z.ones 5). rewrite Z.land_ones by lia. apply Z.mod_pos_bound. lia.
Qed.

Lemma groups_ints data : Forall group data -> Forall (fun v => 0 <= v < 32) (byte_Z <$> data).
Proof. intros H. apply Forall_fmap. eapply Forall_impl; [done|]. intros b Hb. pose proof (byte_Z_range b). cbn in *. unfold group in Hb. lia. Qed.

Lemma polymod_values_range hrp data :
  Forall group data -> 0 <= bech32Polymod (bech32HrpExpand hrp ++ (byte_Z <$> data)) < 2 ^ 30.
Proof. intros H. apply polymod_run_range; [lia|]. apply Forall_app_2; [apply hrp_expand_range|by apply groups_ints]. Qed.

Lemma checksum_groups hrp data : Forall group (bech32Checksum hrp data).
Proof.
  unfold bech32Checksum. apply Forall_fmap, Forall_true. intros i. cbn. unfold group. rewrite byte_Z_of_Z. unfold u8.
  change 31 with (Z.ones 5). rewrite Z.land_ones by lia.
  pose proof (Z.mod_pos_bound (Z.shiftr (Z.lxor (bech32Polymod ((bech32HrpExpand hrp ++ (byte_Z <$> data)) ++ [0; 0; 0; 0; 0; 0])) 1) (5 * (5 - i))) (2 ^ 5) ltac:(lia)).
  rewrite Z.mod_small; lia.
Qed.

(** The checksum that is appended makes the whole verify. *)
Lemma checksum_verifies hrp data :
  Forall group data -> bech32VerifyChecksum hrp (data ++ bech32Checksum hrp data) = true.
Proof.
  intros Hd. unfold bech32VerifyChecksum. apply bool_decide_eq_true.
  pose proof (groups_ints _ (checksum_groups hrp data)) as Hc.
  rewrite fmap_app, (assoc (++)). unfold bech32Polymod. rewrite foldl_app, polymod_six by done.
  set (c := foldl polymod_step 1 (bech32HrpExpand hrp ++ (byte_Z <$> data))).
  assert (0 <= c < 2 ^ 30) as Hr by (by apply polymod_values_range).
  change (replicate _ 0) with [0; 0; 0; 0; 0; 0]. set (p := foldl polymod_step c _).
  assert (groups_value (byte_Z <$> bech32Checksum hrp data) = Z.lxor p 1) as ->.
  { rewrite <- (groups_of_number (Z.lxor p 1)).
    - f_equal. unfold bech32Checksum. rewrite <- list_fmap_compose. unfold bech32Polymod. rewrite foldl_app. fold c p.
      apply list_fmap_ext. intros _ i _. cbn [compose]. rewrite byte_Z_of_Z. unfold u8. apply Z.mod_small.
      change 31 with (Z.ones 5). rewrite Z.land_ones by lia.
      pose proof (Z.mod_pos_bound (Z.shiftr (Z.lxor p 1) (5 * (5 - i))) (2 ^ 5) ltac:(lia)). lia.
    - apply lxor_lt_pow2; [|lia..]. apply (polymod_run_range c [0; 0; 0; 0; 0; 0]); [done|repeat constructor; lia]. }
  by rewrite <- Z.lxor_assoc, Z.lxor_nilpotent.
Qed.

(** ** Errors are detected *)

Lemma lxor_cancel_l a x y : Z.lxor a x = Z.lxor a y -> x = y.
Proof. intros H. apply (f_equal (Z.lxor a)) in H. by rewrite <- !Z.lxor_assoc, !Z.lxor_nilpotent, !Z.lxor_0_l in H. Qed.

(** The low five bits of the generators are independent. *)
Lemma gen_low_inj b b' :
  0 <= b < 32 -> 0 <= b' < 32 ->
  Z.land (polymod_gen b 0) 31 = Z.land (polymod_gen b' 0) 31 -> b = b'.
Proof.
  assert (forallb (fun b => forallb (fun b' => bool_decide (Z.land (polymod_gen b 0) 31 <> Z.land (polymod_gen b' 0) 31 \/ b = b'))
    (seqZ 0 32)) (seqZ 0 32) = true) as H by (vm_compute; reflexivity).
  intros Hb Hb' He. rewrite forallb_forall in H. specialize (H b ltac:(apply list_elem_of_In, elem_of_seqZ; lia)).
  rewrite forallb_forall in H. specialize (H b' ltac:(apply list_elem_of_In, elem_of_seqZ; lia)).
  apply bool_decide_eq_true in H. naive_solver.
Qed.

Lemma shiftl5_land31 x : Z.land (Z.shiftl x 5) 31 = 0.
Proof.
  change 31 with (Z.ones 5). rewrite Z.land_ones, Z.shiftl_mul_pow2 by lia. apply Z.mod_mul. lia.
Qed.

Lemma land_lxor_r x y z : Z.land (Z.lxor x y) z = Z.lxor (Z.land x z) (Z.land y z).
Proof.
  apply Z.bits_inj'. intros n Hn. rewrite !Z.land_spec, !Z.lxor_spec, !Z.land_spec.
  by destruct (Z.testbit x n), (Z.testbit y n), (Z.testbit z n).
Qed.

(** A step forgets nothing. *)
Lemma polymod_step_inj c c' v :
  0 <= c < 2 ^ 30 -> 0 <= c' < 2 ^ 30 -> polymod_step c v = polymod_step c' v -> c = c'.
Proof.
  intros Hc Hc' H. rewrite !polymod_step_split, !(Z.lxor_comm _ v) in H. apply lxor_cancel_l in H.
  assert (Z.shiftr c 25 = Z.shiftr c' 25) as Hb.
  { apply gen_low_inj.
    1, 2: rewrite Z.shiftr_div_pow2 by lia; split; [apply Z.div_pos; lia|apply Z.div_lt_upper_bound; lia].
    apply (f_equal (fun x => Z.land x 31)) in H. rewrite !land_lxor_r, !shiftl5_land31, !Z.lxor_0_r in H. done. }
  rewrite Hb in H. apply lxor_cancel_l in H. rewrite !Z.shiftl_mul_pow2 in H by lia.
  change 0x1ffffff with (Z.ones 25) in H. rewrite !Z.land_ones in H by lia. rewrite !Z.shiftr_div_pow2 in Hb by lia.
  rewrite (Z.div_mod c (2 ^ 25)), (Z.div_mod c' (2 ^ 25)) by lia. lia.
Qed.

Lemma polymod_run_inj c c' l :
  0 <= c < 2 ^ 30 -> 0 <= c' < 2 ^ 30 -> Forall (fun v => 0 <= v < 32) l ->
  foldl polymod_step c l = foldl polymod_step c' l -> c = c'.
Proof.
  intros Hc Hc' Hl. revert c c' Hc Hc'. induction Hl as [|v l Hv _ IH]; intros c c' Hc Hc' H; cbn in H; [done|].
  apply (polymod_step_inj c c' v); [done..|]. apply IH; [by apply polymod_step_range..|done].
Qed.

Lemma groups_value_inj l l' :
  Forall (fun v => 0 <= v < 32) l -> Forall (fun v => 0 <= v < 32) l' -> length l = length l' ->
  groups_value l = groups_value l' -> l = l'.
Proof.
  revert l'. induction l as [|v l IH] using rev_ind; intros l' Hl Hl' Hlen H.
  { by destruct l'. }
  destruct l' as [|v' l' _] using rev_ind; [rewrite length_app in Hlen; cbn in Hlen; lia|].
  rewrite !length_app in Hlen. cbn in Hlen. rewrite !groups_snoc in H.
  apply Forall_app in Hl as [Hl Hv], Hl' as [Hl' Hv']. rewrite Forall_singleton in Hv, Hv'.
  assert (v = v') as ->.
  { apply (f_equal (fun x => Z.land x 31)) in H. rewrite !land_lxor_r, !shiftl5_land31, !Z.lxor_0_l in H.
    change 31 with (Z.ones 5) in H. rewrite !Z.land_ones, !Z.mod_small in H by lia. done. }
  rewrite !(Z.lxor_comm _ v') in H. apply lxor_cancel_l in H. rewrite !Z.shiftl_mul_pow2 in H by lia.
  f_equal. apply IH; [done..|lia|lia].
Qed.

(** At most six adjacent groups changed: the checksum of the result is wrong. *)
Lemma burst_unverified hrp a x y b :
  Forall group (a ++ x ++ b) -> Forall group y -> length x = length y -> (length x <= 6)%nat ->
  bech32VerifyChecksum hrp (a ++ x ++ b) = true -> bech32VerifyChecksum hrp (a ++ y ++ b) = true -> x = y.
Proof.
  intros [Ha [Hx Hb]%Forall_app]%Forall_app Hy Hl H6 Hvx Hvy.
  unfold bech32VerifyChecksum, bech32Polymod in *. apply bool_decide_eq_true in Hvx, Hvy.
  rewrite !fmap_app, !foldl_app in Hvx, Hvy. set (c := foldl polymod_step _ (byte_Z <$> a)) in *.
  assert (0 <= c < 2 ^ 30) as Hc.
  { apply polymod_run_range; [|by apply groups_ints]. apply polymod_run_range; [lia|apply hrp_expand_range]. }
  apply groups_ints in Hx as Hzx, Hy as Hzy, Hb as Hzb.
  assert (foldl polymod_step c (byte_Z <$> x) = foldl polymod_step c (byte_Z <$> y)) as He.
  { apply (polymod_run_inj _ _ (byte_Z <$> b)); [by apply polymod_run_range..|done|by rewrite Hvx, Hvy]. }
  rewrite (polymod_six c (byte_Z <$> x)), (polymod_six c (byte_Z <$> y)), !length_fmap, Hl in He by (done || rewrite length_fmap; lia).
  apply lxor_cancel_l, groups_value_inj in He; [|done..|by rewrite !length_fmap].
  by apply (inj (fmap byte_Z)) in He.
Qed.

(** ** Decoding *)

Lemma group_char b : group b -> good_char b = true.
Proof. destruct b; vm_compute; try done; intros H; by destruct H. Qed.

Lemma group_char_facts b : group b ->
  33 <= byte_Z (char_of b) <= 126 /\ lower_byte (char_of b) = char_of b /\ char_of b <> "1"%byte /\
  IndexByte charset (char_of b) = Some (Z.to_nat (byte_Z b)).
Proof.
  intros H%group_char. unfold good_char in H. rewrite !andb_true_iff, !bool_decide_eq_true in H. tauto.
Qed.

Lemma toBytes_chars d : Forall group d -> toBytes (char_of <$> d) = Ok d.
Proof.
  induction 1 as [|b d Hb _ IH]; [done|]. cbn [fmap list_fmap toBytes].
  destruct (group_char_facts b Hb) as (_ & _ & _ & ->). fold (fmap (M := list) char_of d). rewrite IH. cbn [obind]. pose proof (byte_Z_range b).
  by rewrite Z2Nat.id, byte_of_Z_byte by lia.
Qed.

Lemma hrp_char_lower c : hrp_char c -> lower_byte c = c.
Proof. intros [_ H]. unfold lower_byte. by rewrite bool_decide_eq_false_2. Qed.

Lemma no_bad_char s :
  Forall (fun c => 33 <= byte_Z c <= 126) s ->
  existsb (fun c => bool_decide (byte_Z c < 33 \/ byte_Z c > 126)) s = false.
Proof. induction 1; cbn; [done|]. rewrite IHForall, bool_decide_eq_false_2 by lia. done. Qed.

Lemma ToLower_id s : Forall (fun c => lower_byte c = c) s -> ToLower s = s.
Proof. induction 1 as [|c s Hc _ IH]; cbn; [done|]. rewrite Hc. f_equal. apply IH. Qed.

(** What the decoder does with a human-readable part and groups. *)
Lemma decodeBech32_groups hrp d :
  Forall hrp_char hrp -> hrp <> [] -> Forall group d ->
  decodeBech32 (hrp ++ "1"%byte :: (char_of <$> d)) =
    if bool_decide (length hrp + 1 + length d < 8)%nat then Err ErrBechLength
    else if bool_decide (length d < 6)%nat then Err ErrBechSeparator
    else if bech32VerifyChecksum hrp d then Ok (hrp, take (length d - 6) d)
    else Err (ErrBechChecksum (match toChars (bech32Checksum hrp (take (length d - 6) d)) with
                               | Ok expected => Some expected | _ => None end)
                (drop (length hrp + 1 + length d - 6) (hrp ++ "1"%byte :: (char_of <$> d)))).
Proof.
  intros Hh Hne Hd. unfold decodeBech32. set (s := hrp ++ _).
  assert (length s = (length hrp + 1 + length d)%nat) as Hs by (unfold s; rewrite length_app; cbn; rewrite length_fmap; lia).
  assert (0 < length hrp)%nat by (destruct hrp; cbn; [done|lia]).
  assert (Forall (fun c => 33 <= byte_Z c <= 126) s) as Hr.
  { apply Forall_app_2; [by eapply Forall_impl; [done|]; intros ? []|]. constructor; [by vm_compute|].
    apply Forall_fmap. eapply Forall_impl; [done|]. intros b Hb. apply (group_char_facts b Hb). }
  assert (ToLower s = s) as Hlow.
  { apply ToLower_id, Forall_app_2; [eapply Forall_impl; [done|]; apply hrp_char_lower|]. constructor; [done|].
    apply Forall_fmap. eapply Forall_impl; [done|]. intros b Hb. apply (group_char_facts b Hb). }
  rewrite no_bad_char, Hlow, Hs by done. case_bool_decide; [done|].
  rewrite bool_decide_eq_false_2 by tauto.
  assert (LastIndexByte s "1"%byte = Some (length hrp)) as ->.
  { apply LastIndexByte_app. rewrite list_elem_of_fmap. intros (b & Hb & Hin).
    rewrite Forall_forall in Hd. destruct (group_char_facts b (Hd b Hin)) as (_ & _ & Hn & _). congruence. }
  rewrite (bool_decide_ext (length hrp < 1 \/ _)%nat (length d < 6)%nat) by lia. case_bool_decide; [done|].
  assert (take (length hrp) s = hrp) as -> by apply take_app_length.
  assert (drop (length hrp + 1) s = char_of <$> d) as -> by (unfold s; by rewrite drop_app_add).
  rewrite toBytes_chars by done. cbn [obind]. by destruct (bech32VerifyChecksum hrp d).
Qed.

Lemma length_checksum hrp data : length (bech32Checksum hrp data) = 6%nat.
Proof. done. Qed.

(** What is printed is read back. *)
Lemma decodeBech32_string hrp data :
  Forall hrp_char hrp -> hrp <> [] -> Forall group data ->
  decodeBech32 (bech32_string hrp data) = Ok (hrp, data).
Proof.
  intros Hh Hne Hd. unfold bech32_string.
  rewrite decodeBech32_groups, checksum_verifies, length_app, length_checksum; [|done..|by apply Forall_app_2; [|apply checksum_groups]].
  destruct hrp; [done|]. rewrite !bool_decide_eq_false_2 by (cbn; lia). by rewrite Nat.add_sub, take_app_length.
Qed.

Lemma charset_groups s : Forall (.∈ charset) s -> exists d, s = char_of <$> d /\ Forall group d.
Proof.
  induction 1 as [|c s Hc _ (d & -> & Hd)]; [by exists []|].
  assert (exists b, c = char_of b /\ group b) as (b & -> & Hb).
  { apply list_elem_of_lookup in Hc as [i Hi]. pose proof (lookup_lt_Some _ _ _ Hi) as Hlt.
    change (length charset) with 32%nat in Hlt.
    assert (byte_Z (byte_of_Z (Z.of_nat i)) = Z.of_nat i) as Hz by (rewrite byte_Z_of_Z; apply Z.mod_small; lia).
    exists (byte_of_Z (Z.of_nat i)). unfold char_of, group. rewrite Hz, Nat2Z.id, Hi. split; [done|lia]. }
  exists (b :: d). by split; [|constructor].
Qed.

(** Replacing at most six adjacent characters of the data by others is noticed. *)
Lemma burst_rejected hrp A X Y B r :
  Forall hrp_char hrp -> hrp <> [] -> Forall (.∈ charset) (A ++ X ++ B) -> Forall (.∈ charset) Y ->
  length X = length Y -> (length X <= 6)%nat -> X <> Y ->
  decodeBech32 (hrp ++ "1"%byte :: A ++ X ++ B) = Ok r ->
  exists expected got, decodeBech32 (hrp ++ "1"%byte :: A ++ Y ++ B) = Err (ErrBechChecksum expected got).
Proof.
  intros Hh Hne [HA [HX HB]%Forall_app]%Forall_app HY Hl H6 Hxy Hok.
  apply charset_groups in HA as (a & -> & Ha), HX as (x & -> & Hx), HB as (b & -> & Hb), HY as (y & -> & Hy).
  rewrite (length_fmap _ x), (length_fmap _ y) in Hl. rewrite length_fmap in H6. rewrite <- !fmap_app in *.
  assert (length (a ++ x ++ b) = length (a ++ y ++ b)) as Hlen by (rewrite !length_app; lia).
  rewrite decodeBech32_groups in Hok |- * by (done || by repeat apply Forall_app_2).
  rewrite Hlen in Hok. case_bool_decide; [done|]. case_bool_decide; [done|].
  destruct (bech32VerifyChecksum hrp (a ++ x ++ b)) eqn:Vx; [|done].
  destruct (bech32VerifyChecksum hrp (a ++ y ++ b)) eqn:Vy; [|eauto].
  assert (x = y) by (eapply burst_unverified; eauto; by repeat apply Forall_app_2). congruence.
Qed.
