(* ===== verification/PayAmount.v ===== *)
(** * zpay32/amountunits.go: amounts in payment requests

    An amount is written as a decimal number and a unit.  Bitcoin amounts are unsigned
    64-bit millisatoshis, asset amounts signed 64-bit numbers with eight decimals; the
    products of the source wrap around.  The maps from units to conversions are lists of
    pairs, and the loop over a map takes the order in which it is visited. *)

From Stdlib Require Import ZArith Lia String.
From S2P Require Import Prelude GoText Amounts.

Local Open Scope Z_scope.
Local Open Scope go_scope.

Definition mSatPerBtc : Z := 100000000000.
Definition amtPerAsset : Z := 100000000.

Inductive amt_err : Type :=
  | ErrAmountEmpty
  | ErrNumberEmpty
  | ErrUnknownMultiplier (c : byte)
  | ErrMinimumAmount
  | ErrNotExpressible (amount : Z)
  | ErrAmountNumber (e : num_err).

(** ** Units *)

Definition mBtcToMSat (m : Z) : outcome amt_err Z := Ok (u64 (m * 100000000)).
Definition uBtcToMSat (u : Z) : outcome amt_err Z := Ok (u64 (u * 100000)).
Definition nBtcToMSat (n : Z) : outcome amt_err Z := Ok (u64 (n * 100)).
Definition pBtcToMSat (p : Z) : outcome amt_err Z :=
  if bool_decide (p < 10) then Err ErrMinimumAmount
  else if bool_decide (p mod 10 <> 0) then Err (ErrNotExpressible p)
  else Ok (p / 10).

Definition mSatToMBtc (msat : Z) : outcome amt_err Z :=
  if bool_decide (msat mod 100000000 <> 0) then Err (ErrNotExpressible msat) else Ok (msat / 100000000).
Definition mSatToUBtc (msat : Z) : outcome amt_err Z :=
  if bool_decide (msat mod 100000 <> 0) then Err (ErrNotExpressible msat) else Ok (msat / 100000).
Definition mSatToNBtc (msat : Z) : outcome amt_err Z :=
  if bool_decide (msat mod 100 <> 0) then Err (ErrNotExpressible msat) else Ok (msat / 100).
Definition mSatToPBtc (msat : Z) : outcome amt_err Z := Ok (u64 (msat * 10)).

Definition mAssetToAmt (m : Z) : outcome amt_err Z := Ok (i64 (u64 (m * 100000))).
Definition uAssetToAmt (u : Z) : outcome amt_err Z := Ok (i64 (u64 (u * 100))).
Definition nAssetToAmt (n : Z) : outcome amt_err Z :=
  if bool_decide (n < 10) then Err ErrMinimumAmount
  else if bool_decide (n mod 10 <> 0) then Err (ErrNotExpressible n)
  else Ok (i64 (n / 10)).

(** The remainder and the quotient of signed numbers round towards zero. *)
Definition amtToMAsset (amt : Z) : outcome amt_err Z :=
  if bool_decide (Z.rem amt 100000 <> 0) then Err (ErrNotExpressible amt) else Ok (u64 (Z.quot amt 100000)).
Definition amtToUAsset (amt : Z) : outcome amt_err Z :=
  if bool_decide (Z.rem amt 100 <> 0) then Err (ErrNotExpressible amt) else Ok (u64 (Z.quot amt 100)).
Definition amtToNAsset (amt : Z) : outcome amt_err Z := Ok (u64 (i64 (amt * 10))).

Definition units : Type := list (byte * (Z -> outcome amt_err Z)).

Definition toMSat : units :=
  [("m"%byte, mBtcToMSat); ("u"%byte, uBtcToMSat); ("n"%byte, nBtcToMSat); ("p"%byte, pBtcToMSat)].
Definition fromMSat : units :=
  [("m"%byte, mSatToMBtc); ("u"%byte, mSatToUBtc); ("n"%byte, mSatToNBtc); ("p"%byte, mSatToPBtc)].
Definition toAmt : units :=
  [("m"%byte, mAssetToAmt); ("u"%byte, uAssetToAmt); ("n"%byte, nAssetToAmt)].
Definition fromAmt : units :=
  [("m"%byte, amtToMAsset); ("u"%byte, amtToUAsset); ("n"%byte, amtToNAsset)].

Fixpoint unit_conv (m : units) (c : byte) : option (Z -> outcome amt_err Z) :=
  match m with
  | [] => None
  | (u, conv) :: m' => if bool_decide (u = c) then Some conv else unit_conv m' c
  end.

(** ** Decoding *)

Definition number (s : gostring) : outcome amt_err Z :=
  match ParseUint s with Ok n => Ok n | Err e => Err (ErrAmountNumber e) | Panic => Panic end.

Definition decodeAmount (amount : gostring) : outcome amt_err Z :=
  match last amount with
  | None => Err ErrAmountEmpty
  | Some char =>
      let digit := u8 (byte_Z char - 48) in
      if bool_decide (digit >= 0 /\ digit <= 9) then
        btc <~ number amount ; Ok (u64 (btc * mSatPerBtc))
      else
        match unit_conv toMSat char with
        | None => Err (ErrUnknownMultiplier char)
        | Some conv =>
            let num := take (length amount - 1) amount in
            if bool_decide (length num < 1)%nat then Err ErrNumberEmpty
            else am <~ number num ; conv am
        end
  end.

Definition decodeAssetAmount (amount : gostring) : outcome amt_err Z :=
  match last amount with
  | None => Err ErrAmountEmpty
  | Some char =>
      let digit := u8 (byte_Z char - 48) in
      if bool_decide (digit >= 0 /\ digit <= 9) then
        asset <~ number amount ; Ok (i64 (i64 asset * amtPerAsset))
      else
        match unit_conv toAmt char with
        | None => Err (ErrUnknownMultiplier char)
        | Some conv =>
            let num := take (length amount - 1) amount in
            if bool_decide (length num < 1)%nat then Err ErrNumberEmpty
            else am <~ number num ; conv am
        end
  end.

Definition decodeAmt (amount : gostring) (assetId : Z) : outcome amt_err Z :=
  if bool_decide (assetId = 0 \/ assetId = BtcAssetId) then decodeAmount amount
  else res <~ decodeAssetAmount amount ; Ok (u64 res).

(** ** Encoding *)

(** The loop that keeps the shortest representation found. *)
Fixpoint shorten (amt : Z) (order : units) (shortened : gostring) : gostring :=
  match order with
  | [] => shortened
  | (unit, conv) :: order' =>
      match conv amt with
      | Ok am =>
          let s := FormatUint am ++ [unit] in
          shorten amt order' (if bool_decide (length s < length shortened)%nat then s else shortened)
      | _ => shorten amt order' shortened
      end
  end.

(** [order] is the order in which [fromMSat] is visited. *)
Definition encodeAmount (order : units) (msat : Z) : outcome amt_err gostring :=
  if bool_decide (msat mod mSatPerBtc = 0) then Ok (FormatInt (i64 (msat / mSatPerBtc)))
  else
    pico <~ mSatToPBtc msat ;
    Ok (shorten msat order (FormatUint pico ++ str "p")).

(** [order] is the order in which [fromAmt] is visited. *)
Definition encodeAssetAmount (order : units) (aamt : Z) : outcome amt_err gostring :=
  if bool_decide (Z.rem aamt amtPerAsset = 0) then Ok (FormatInt (i64 (Z.quot aamt amtPerAsset)))
  else
    nano <~ amtToNAsset aamt ;
    Ok (shorten aamt order (FormatUint nano ++ str "n")).

Definition encodeAmt (orderMSat orderAmt : units) (amt assetId : Z) : outcome amt_err gostring :=
  if bool_decide (assetId = 0 \/ assetId = BtcAssetId) then encodeAmount orderMSat amt
  else encodeAssetAmount orderAmt (i64 amt).

(** ** What the encodings promise *)

(** The amounts that survive: those whose smallest unit fits in 64 bits, or that are a
    whole number of coins. *)
Definition encodable (amt assetId : Z) : Prop :=
  if bool_decide (assetId = 0 \/ assetId = BtcAssetId)
  then 0 <= amt < 2 ^ 64 /\ (10 * amt < 2 ^ 64 \/ amt mod mSatPerBtc = 0)
  else 0 <= amt < 2 ^ 63 /\ (10 * amt < 2 ^ 64 \/ amt mod amtPerAsset = 0).

(** The characters of an encoded amount. *)
Definition amount_char (c : byte) : bool := is_digit c || bool_decide (c ∈ str "munp").

(** ** Lemmas *)

Lemma last_format u : exists d, last (FormatUint u) = Some d /\ is_digit d.
Proof.
  pose proof (FormatUint_digits u) as Hd. pose proof (FormatUint_nonempty u) as Hn.
  destruct (FormatUint u) as [|c s _] using rev_ind; [done|]. rewrite last_snoc. exists c.
  split; [done|]. apply Forall_app in Hd as [_ Hd]. by rewrite Forall_singleton in Hd.
Qed.

Lemma digit_test c : is_digit c -> bool_decide (u8 (byte_Z c - 48) >= 0 /\ u8 (byte_Z c - 48) <= 9) = true.
Proof.
  unfold is_digit. intros H%Is_true_true%bool_decide_eq_true. apply bool_decide_eq_true. unfold u8.
  rewrite Z.mod_small; lia.
Qed.

Lemma number_format u : 0 <= u < 2 ^ 64 -> number (FormatUint u) = Ok u.
Proof. intros. unfold number. by rewrite ParseUint_FormatUint. Qed.

Lemma letter_test c : is_digit c = false -> bool_decide (u8 (byte_Z c - 48) >= 0 /\ u8 (byte_Z c - 48) <= 9) = false.
Proof. destruct c; vm_compute; done. Qed.

Lemma take_unit u c : take (length (FormatUint u ++ [c]) - 1) (FormatUint u ++ [c]) = FormatUint u.
Proof. rewrite length_app. cbn [length]. by rewrite Nat.add_sub, take_app_length. Qed.

Lemma number_unit u c :
  0 <= u < 2 ^ 64 ->
  bool_decide (length (take (length (FormatUint u ++ [c]) - 1) (FormatUint u ++ [c])) < 1)%nat = false /\
  number (take (length (FormatUint u ++ [c]) - 1) (FormatUint u ++ [c])) = Ok u.
Proof.
  intros Hu. rewrite take_unit, number_format by done. split; [|done].
  apply bool_decide_eq_false. pose proof (FormatUint_nonempty u). destruct (FormatUint u); cbn; [done|lia].
Qed.

(** A number with a unit is read as the conversion of the unit says. *)
Lemma decodeAmount_unit u c conv :
  0 <= u < 2 ^ 64 -> unit_conv toMSat c = Some conv -> is_digit c = false ->
  decodeAmount (FormatUint u ++ [c]) = conv u.
Proof.
  intros Hu Hc Hd. unfold decodeAmount. rewrite last_snoc, letter_test, Hc by done. cbv zeta.
  destruct (number_unit u c Hu) as [-> ->]. done.
Qed.

Lemma decodeAssetAmount_unit u c conv :
  0 <= u < 2 ^ 64 -> unit_conv toAmt c = Some conv -> is_digit c = false ->
  decodeAssetAmount (FormatUint u ++ [c]) = conv u.
Proof.
  intros Hu Hc Hd. unfold decodeAssetAmount. rewrite last_snoc, letter_test, Hc by done. cbv zeta.
  destruct (number_unit u c Hu) as [-> ->]. done.
Qed.

Lemma decodeAmount_whole u : 0 <= u < 2 ^ 64 -> decodeAmount (FormatUint u) = Ok (u64 (u * mSatPerBtc)).
Proof.
  intros Hu. destruct (last_format u) as (c & Hl & Hc). unfold decodeAmount.
  by rewrite Hl, digit_test, number_format.
Qed.

Lemma decodeAssetAmount_whole u :
  0 <= u < 2 ^ 64 -> decodeAssetAmount (FormatUint u) = Ok (i64 (i64 u * amtPerAsset)).
Proof.
  intros Hu. destruct (last_format u) as (c & Hl & Hc). unfold decodeAssetAmount.
  by rewrite Hl, digit_test, number_format.
Qed.

(** What holds of every representation considered holds of the one that is kept. *)
Lemma shorten_ind (P : gostring -> Prop) amt order s0 :
  P s0 -> (forall c conv am, (c, conv) ∈ order -> conv amt = Ok am -> P (FormatUint am ++ [c])) ->
  P (shorten amt order s0).
Proof.
  revert s0. induction order as [|[c conv] order IH]; intros s0 H0 H; cbn; [done|].
  assert (forall c conv am, (c, conv) ∈ order -> conv amt = Ok am -> P (FormatUint am ++ [c])) as H'
    by (intros; eapply H; [by right|done]).
  destruct (conv amt) as [am| |] eqn:E; [|by apply IH..]. apply IH; [|done].
  case_bool_decide; [|done]. eapply H; [by left|done].
Qed.

Lemma shorten_le amt order s0 : (length (shorten amt order s0) <= length s0)%nat.
Proof.
  revert s0. induction order as [|[c conv] order IH]; intros s0; cbn; [done|].
  destruct (conv amt); [|done..]. etrans; [apply IH|]. case_bool_decide; lia.
Qed.

Lemma shorten_shortest amt order s0 c conv am :
  (c, conv) ∈ order -> conv amt = Ok am -> (length (shorten amt order s0) <= length (FormatUint am ++ [c]))%nat.
Proof.
  revert s0. induction order as [|[c' conv'] order IH]; intros s0 Hin Hc; [by apply elem_of_nil in Hin|].
  apply elem_of_cons in Hin as [[= <- <-]|Hin]; cbn.
  - rewrite Hc. etrans; [apply shorten_le|]. case_bool_decide; lia.
  - destruct (conv' amt); by apply IH.
Qed.

Lemma FormatInt_nonneg i : 0 <= i -> FormatInt i = FormatUint i.
Proof. intros. unfold FormatInt. by rewrite bool_decide_eq_false_2 by lia. Qed.

Lemma exact_div x k : 0 < k -> x mod k = 0 -> x / k * k = x.
Proof. intros Hk H. pose proof (Z.div_mod x k ltac:(lia)). lia. Qed.

Lemma div_range x k : 0 < k -> 0 <= x -> 0 <= x / k <= x.
Proof. intros. split; [apply Z.div_pos; lia|apply Z.div_le_upper_bound; nia]. Qed.

Lemma u64_i64_mod z : u64 (i64 z) = z mod 2 ^ 64.
Proof. unfold u64, i64. by rewrite Zminus_mod, Zmod_mod, <- Zminus_mod, Z.add_simpl_r. Qed.

(** Every unit that can express the amount decodes to it. *)
Lemma msat_unit_decodes msat c conv am :
  0 < msat -> 10 * msat < 2 ^ 64 -> (c, conv) ∈ fromMSat -> conv msat = Ok am ->
  decodeAmount (FormatUint am ++ [c]) = Ok msat.
Proof.
  intros H0 Hb Hin. assert (forall k, 0 < k -> 0 <= msat / k < 2 ^ 64) as Hk.
  { intros k ?. pose proof (div_range msat k). lia. }
  repeat (apply elem_of_cons in Hin as [[= -> ->]|Hin]); [..|by apply elem_of_nil in Hin];
    unfold mSatToMBtc, mSatToUBtc, mSatToNBtc, mSatToPBtc; [case_bool_decide as Hx; [done|]..|];
    intros [= <-].
  1-3: erewrite decodeAmount_unit; [|by apply Hk|done|done].
  1-3: unfold mBtcToMSat, uBtcToMSat, nBtcToMSat; rewrite exact_div, u64_id by (done || unfold in_u; lia); done.
  rewrite u64_id by (unfold in_u; lia). erewrite decodeAmount_unit; [|lia|done|done]. unfold pBtcToMSat.
  rewrite !bool_decide_eq_false_2 by (rewrite ?Z.mod_mul; lia). by rewrite Z.div_mul by lia.
Qed.

Lemma asset_unit_decodes amt c conv am :
  0 < amt < 2 ^ 63 -> 10 * amt < 2 ^ 64 -> (c, conv) ∈ fromAmt -> conv amt = Ok am ->
  decodeAssetAmount (FormatUint am ++ [c]) = Ok amt.
Proof.
  intros H0 Hb Hin. assert (forall k, 0 < k -> 0 <= amt / k < 2 ^ 63) as Hk.
  { intros k ?. pose proof (div_range amt k). lia. }
  repeat (apply elem_of_cons in Hin as [[= -> ->]|Hin]); [..|by apply elem_of_nil in Hin];
    unfold amtToMAsset, amtToUAsset, amtToNAsset;
    [rewrite Z.rem_mod_nonneg, Z.quot_div_nonneg by lia; case_bool_decide as Hx; [done|]..|];
    intros [= <-].
  1: pose proof (Hk 100000 eq_refl). 2: pose proof (Hk 100 eq_refl).
  1-2: rewrite u64_id by (unfold in_u; lia); erewrite decodeAssetAmount_unit; [|lia|done|done].
  1-2: unfold mAssetToAmt, uAssetToAmt; rewrite exact_div, u64_id, i64_id by (done || unfold in_u, in_i64; lia); done.
  rewrite u64_i64_mod, Z.mod_small by lia.
  erewrite decodeAssetAmount_unit; [|lia|done|done]. unfold nAssetToAmt.
  rewrite !bool_decide_eq_false_2 by (rewrite ?Z.mod_mul; lia). rewrite Z.div_mul, i64_id by (unfold in_i64; lia). done.
Qed.

Lemma encodeAmount_decodes order msat s :
  0 <= msat < 2 ^ 64 -> 10 * msat < 2 ^ 64 \/ msat mod mSatPerBtc = 0 -> order ⊆ fromMSat ->
  encodeAmount order msat = Ok s -> decodeAmount s = Ok msat.
Proof.
  intros Hm Hb Ho. unfold encodeAmount. case_bool_decide as Hw.
  - intros [= <-]. pose proof (div_range msat mSatPerBtc ltac:(done) ltac:(lia)).
    assert (msat / mSatPerBtc < 2 ^ 63) by (apply Z.div_lt_upper_bound; unfold mSatPerBtc; lia).
    rewrite i64_id, FormatInt_nonneg, decodeAmount_whole, exact_div, u64_id by (done || unfold in_i64, in_u; lia). done.
  - destruct Hb as [Hb|]; [|done]. assert (0 < msat) by (destruct (decide (msat = 0)) as [->|]; [done|lia]).
    intros [= <-]. apply (shorten_ind (fun s => decodeAmount s = Ok msat)).
    + by apply (msat_unit_decodes msat "p"%byte mSatToPBtc); [..|set_solver|].
    + intros c conv am Hin. apply msat_unit_decodes; [done..|by apply Ho].
Qed.

Lemma encodeAssetAmount_decodes order amt s :
  0 <= amt < 2 ^ 63 -> 10 * amt < 2 ^ 64 \/ amt mod amtPerAsset = 0 -> order ⊆ fromAmt ->
  encodeAssetAmount order amt = Ok s -> decodeAssetAmount s = Ok amt.
Proof.
  intros Hm Hb Ho. unfold encodeAssetAmount. rewrite Z.rem_mod_nonneg, Z.quot_div_nonneg by (lia || done). case_bool_decide as Hw.
  - intros [= <-]. pose proof (div_range amt amtPerAsset ltac:(done) ltac:(lia)).
    rewrite i64_id, FormatInt_nonneg, decodeAssetAmount_whole by (unfold in_i64; lia).
    rewrite (i64_id (amt / amtPerAsset)), exact_div, i64_id by (done || unfold in_i64; lia). done.
  - destruct Hb as [Hb|]; [|done]. assert (0 < amt) by (destruct (decide (amt = 0)) as [->|]; [done|lia]).
    intros [= <-]. apply (shorten_ind (fun s => decodeAssetAmount s = Ok amt)).
    + apply (asset_unit_decodes amt "n"%byte amtToNAsset); [lia|done|set_solver|done].
    + intros c conv am Hin. apply asset_unit_decodes; [lia|done|by apply Ho].
Qed.

(** Amounts are read back from their encoding. *)
Lemma encodeAmt_decodes orderMSat orderAmt amt assetId s :
  encodable amt assetId -> orderMSat ⊆ fromMSat -> orderAmt ⊆ fromAmt ->
  encodeAmt orderMSat orderAmt amt assetId = Ok s -> decodeAmt s assetId = Ok amt.
Proof.
  unfold encodable, encodeAmt, decodeAmt. case_bool_decide; intros [Hr Hb] HoM HoA He.
  - by eapply encodeAmount_decodes.
  - rewrite i64_id in He by (unfold in_i64; lia). erewrite encodeAssetAmount_decodes by done. cbn.
    by rewrite u64_id by (unfold in_u; lia).
Qed.

Lemma encodeAmt_total orderMSat orderAmt amt assetId : exists s, encodeAmt orderMSat orderAmt amt assetId = Ok s.
Proof.
  unfold encodeAmt, encodeAmount, encodeAssetAmount. repeat case_bool_decide; cbn; eauto.
Qed.

(** *** As few characters as possible *)

Lemma formatBits_length_mono fuel u v :
  0 <= u <= v -> (length (formatBits fuel u []) <= length (formatBits fuel v []))%nat.
Proof.
  revert u v. induction fuel as [|fuel IH]; intros u v H; cbn [formatBits]; [done|].
  assert (u / 10 <= v / 10) by (apply Z.div_le_mono; lia).
  assert (0 <= u / 10) by (apply Z.div_pos; lia).
  repeat case_bool_decide; [done|rewrite formatBits_acc, length_app; cbn; lia|lia|].
  rewrite formatBits_acc, (formatBits_acc _ (v / 10)), !length_app. specialize (IH (u / 10) (v / 10)). cbn. lia.
Qed.

Lemma FormatUint_shorter u v c : 0 <= u <= v -> (length (FormatUint u) <= length (FormatUint v ++ [c]))%nat.
Proof. intros H. rewrite length_app. pose proof (formatBits_length_mono 20 u v H). unfold FormatUint. lia. Qed.

Lemma encodeAmount_shortest order msat s c conv am :
  0 <= msat -> 10 * msat < 2 ^ 64 -> order ≡ₚ fromMSat -> encodeAmount order msat = Ok s ->
  (c, conv) ∈ fromMSat -> conv msat = Ok am -> (length s <= length (FormatUint am ++ [c]))%nat.
Proof.
  intros H0 Hb Ho. unfold encodeAmount. case_bool_decide as Hw; intros [= <-] Hin Hc.
  - pose proof (div_range msat mSatPerBtc ltac:(done) ltac:(lia)).
    rewrite i64_id, FormatInt_nonneg by (unfold in_i64; lia). apply FormatUint_shorter. split; [lia|].
    assert (forall k, 0 < k <= mSatPerBtc -> msat / mSatPerBtc <= msat / k) as Hk
      by (intros; apply Z.div_le_compat_l; lia).
    revert Hc. repeat (apply elem_of_cons in Hin as [[= -> ->]|Hin]); [..|by apply elem_of_nil in Hin];
      unfold mSatToMBtc, mSatToUBtc, mSatToNBtc, mSatToPBtc; try (case_bool_decide; [done|]); intros [= <-].
    1-3: apply Hk; unfold mSatPerBtc; lia.
    rewrite u64_id by (unfold in_u; lia). lia.
  - eapply shorten_shortest; [|done]. by rewrite Ho.
Qed.

Lemma encodeAssetAmount_shortest order amt s c conv am :
  0 <= amt < 2 ^ 63 -> 10 * amt < 2 ^ 64 -> order ≡ₚ fromAmt -> encodeAssetAmount order amt = Ok s ->
  (c, conv) ∈ fromAmt -> conv amt = Ok am -> (length s <= length (FormatUint am ++ [c]))%nat.
Proof.
  intros H0 Hb Ho. unfold encodeAssetAmount. rewrite Z.rem_mod_nonneg, Z.quot_div_nonneg by (lia || done).
  case_bool_decide as Hw; intros [= <-] Hin Hc.
  - pose proof (div_range amt amtPerAsset ltac:(done) ltac:(lia)).
    rewrite i64_id, FormatInt_nonneg by (unfold in_i64; lia). apply FormatUint_shorter. split; [lia|].
    assert (forall k, 0 < k <= amtPerAsset -> amt / amtPerAsset <= amt / k <= amt) as Hk.
    { intros. split; [apply Z.div_le_compat_l; lia|apply div_range; lia]. }
    revert Hc. repeat (apply elem_of_cons in Hin as [[= -> ->]|Hin]); [..|by apply elem_of_nil in Hin];
      unfold amtToMAsset, amtToUAsset, amtToNAsset;
      [rewrite Z.rem_mod_nonneg, Z.quot_div_nonneg by lia; case_bool_decide; [done|]..|]; intros [= <-].
    1: pose proof (Hk 100000 ltac:(unfold amtPerAsset; lia)). 2: pose proof (Hk 100 ltac:(unfold amtPerAsset; lia)).
    1-2: rewrite u64_id by (unfold in_u; lia); lia.
    rewrite u64_i64_mod, Z.mod_small by lia. lia.
  - eapply shorten_shortest; [|done]. by rewrite Ho.
Qed.

(** *** Characters of encoded amounts *)

Lemma format_amount_chars u : Forall amount_char (FormatUint u).
Proof. eapply Forall_impl; [apply FormatUint_digits|]. intros c Hc. apply orb_True. by left. Qed.

Lemma Forall_subseteq {A} (P : A -> Prop) (k l : list A) : k ⊆ l -> Forall P l -> Forall P k.
Proof. rewrite !Forall_forall. set_solver. Qed.

Lemma unit_amount_chars amt order s0 :
  Forall (fun uc => amount_char uc.1) order -> Forall amount_char s0 ->
  Forall amount_char (shorten amt order s0).
Proof.
  intros Ho H0. apply shorten_ind; [done|]. intros c' conv am Hin _. apply Forall_app_2; [apply format_amount_chars|].
  rewrite Forall_forall in Ho. by apply Forall_singleton, (Ho _ Hin).
Qed.

Lemma encodeAmt_chars orderMSat orderAmt amt assetId s :
  encodable amt assetId -> orderMSat ⊆ fromMSat -> orderAmt ⊆ fromAmt ->
  encodeAmt orderMSat orderAmt amt assetId = Ok s -> Forall amount_char s.
Proof.
  intros He HoM HoA. unfold encodeAmt, encodeAmount, encodeAssetAmount, encodable in *. case_bool_decide.
  - case_bool_decide; intros [= <-].
    + pose proof (div_range amt mSatPerBtc ltac:(done) ltac:(lia)).
      assert (amt / mSatPerBtc < 2 ^ 63) by (apply Z.div_lt_upper_bound; unfold mSatPerBtc; lia).
      rewrite i64_id, FormatInt_nonneg by (unfold in_i64; lia). apply format_amount_chars.
    + apply unit_amount_chars; [|by apply Forall_app_2; [apply format_amount_chars|repeat constructor]].
      apply (Forall_subseteq _ _ _ HoM). by repeat constructor.
  - rewrite i64_id by (unfold in_i64; lia). rewrite Z.rem_mod_nonneg, Z.quot_div_nonneg by (lia || done).
    case_bool_decide; intros [= <-].
    + pose proof (div_range amt amtPerAsset ltac:(done) ltac:(lia)).
      rewrite i64_id, FormatInt_nonneg by (unfold in_i64; lia). apply format_amount_chars.
    + apply unit_amount_chars; [|by apply Forall_app_2; [apply format_amount_chars|repeat constructor]].
      apply (Forall_subseteq _ _ _ HoA). by repeat constructor.
Qed.

(** ** Amounts that do not survive *)

(** The smallest unit of an asset amount above 2^64/10 wraps around to a number that no
    longer ends with a zero. *)
Lemma asset_amount_overflow order amt s assetId :
  assetId <> 0 -> 2 ^ 64 <= 10 * amt -> amt < 2 ^ 63 -> amt mod 100 <> 0 -> order ⊆ fromAmt ->
  encodeAmt fromMSat order amt assetId = Ok s ->
  exists e, decodeAmt s assetId = Err e.
Proof.
  intros Ha Hlo Hhi Hm Ho. unfold encodeAmt, decodeAmt. rewrite !bool_decide_eq_false_2 by (unfold BtcAssetId; lia).
  rewrite i64_id by (unfold in_i64; lia). unfold encodeAssetAmount.
  rewrite Z.rem_mod_nonneg by (done || lia). rewrite bool_decide_eq_false_2.
  2: { intros [k ->]%Z.mod_divide; [|done]. apply Hm, Z.mod_divide; [done|]. exists (k * 1000000). unfold amtPerAsset. lia. }
  intros [= <-].
  assert (exists e, decodeAssetAmount (FormatUint (u64 (i64 (amt * 10))) ++ ["n"%byte]) = Err e) as Hn.
  { rewrite u64_i64_mod.
    erewrite decodeAssetAmount_unit; [|apply Z.mod_pos_bound; lia|done|done]. unfold nAssetToAmt.
    case_bool_decide; [eauto|]. case_bool_decide as Hz; [eauto|]. exfalso.
    pose proof (Z.div_mod (amt * 10) (2 ^ 64) ltac:(lia)) as Hq. pose proof (Z.mod_pos_bound (amt * 10) (2 ^ 64) ltac:(lia)).
    pose proof (Z.div_mod ((amt * 10) mod 2 ^ 64) 10 ltac:(lia)). lia. }
  apply (shorten_ind (fun s => exists e, obind (decodeAssetAmount s) (fun res => Ok (u64 res)) = Err e)).
  - destruct Hn as [e He]. exists e. change (str "n") with ["n"%byte]. by rewrite He.
  - assert (forall k, amt mod (100 * k) = 0 -> 0 < k -> False) as Hk.
    { intros k H Hk. apply Hm. apply Z.mod_divide in H as [j ->]; [|lia]. apply Z.mod_divide; [done|]. exists (j * k). lia. }
    intros c conv am Hin%Ho. repeat (apply elem_of_cons in Hin as [[= -> ->]|Hin]); [..|by apply elem_of_nil in Hin].
    + unfold amtToMAsset. rewrite Z.rem_mod_nonneg by lia. case_bool_decide as Hx; [done|]. by destruct (Hk 1000).
    + unfold amtToUAsset. rewrite Z.rem_mod_nonneg by lia. by rewrite bool_decide_eq_true_2.
    + intros [= <-]. destruct Hn as [e He]. exists e. by rewrite He.
Qed.
