(* ===== verification/PayInvoice.v ===== *)
(** * zpay32/invoice.go: payment requests

    The invoice, its options and its validation, and what the package uses of the
    libraries it calls: addresses and bech32 of btcutil, hashes, signatures and network
    parameters of btcd. *)

From Stdlib Require Import ZArith Lia String Floats.SpecFloat.
From S2P Require Import Prelude GoText Wire Features Amounts PayAmount Bech32.

Local Open Scope Z_scope.
Local Open Scope go_scope.

Definition signatureBase32Len : nat := 104.
Definition timestampBase32Len : nat := 7.
Definition hashBase32Len : nat := 52.
Definition pubKeyBase32Len : nat := 53.
Definition hopHintLen : nat := 51.
Definition fieldTypeP : Z := 1.
Definition fieldTypeD : Z := 13.
Definition fieldTypeN : Z := 19.
Definition fieldTypeH : Z := 23.
Definition fieldTypeX : Z := 6.
Definition fieldTypeF : Z := 9.
Definition fieldTypeR : Z := 3.
Definition fieldTypeC : Z := 24.
Definition fieldType9 : Z := 5.
Definition fieldTypeS : Z := 16.
Definition fieldTypeA : Z := 17.
Definition maxInvoiceLength : nat := Z.to_nat 7089.
Definition DefaultInvoiceExpiry : Z := 3600 * Second.
Definition DefaultAssumedFinalCLTVDelta : Z := 9.

(** The types an on-chain address can have in the type switch of the encoder. *)
Inductive addr_kind : Type :=
  | AddressPubKeyHash
  | AddressScriptHash
  | AddressWitnessPubKeyHash
  | AddressWitnessScriptHash
  | AddressOther.

(** ** The libraries *)

Class PayLib `{!Btcec} := {
  (* chaincfg *)
  params : Type;
  NetName : params -> gostring;
  MainNetName : gostring;
  TestNet3Name : gostring;
  RegressionNetName : gostring;
  (* btcutil *)
  Address : Type;
  AddressType : Address -> addr_kind;
  ScriptAddress : Address -> list byte;
  WitnessVersion : Address -> byte;
  NewAddressPubKeyHash : list byte -> params -> option Address;
  NewAddressScriptHashFromHash : list byte -> params -> option Address;
  NewAddressWitnessPubKeyHash : list byte -> params -> option Address;
  NewAddressWitnessScriptHash : list byte -> params -> option Address;
  (* btcutil/bech32 *)
  ConvertBits : list byte -> Z -> Z -> bool -> option (list byte);
  Bech32Encode : gostring -> list byte -> option gostring;
  (* chainhash and btcec *)
  HashB : list byte -> list byte;
  Signature : Type;
  ParseDERSignature : list byte -> option Signature;
  Verify : Signature -> list byte -> pubkey -> bool;
  RecoverCompact : list byte -> list byte -> option pubkey;
  (* the value Go gives to the conversion of a float64 that does not fit a uint64 *)
  Float64Overflow : spec_float -> Z;
}.

(** The bits of a sequence of groups of [w] bits, the most significant first. *)
Definition bits_of (w : Z) (b : byte) : list bool :=
  (fun i => Z.testbit (byte_Z b) (w - 1 - i)) <$> seqZ 0 w.
Definition bits (w : Z) (l : list byte) : list bool := l ≫= bits_of w.

(** What the libraries document.  [ConvertBits] regroups bits; with padding the last
    group is filled up with zeros, without padding at most four zeros may be left over.
    [Encode] makes a bech32 string of groups.  The constructors of addresses keep the
    hash, and the addresses of witness programs have version 0. *)
Class PayLaws `{!Btcec} {PL : PayLib} : Prop := {
  ConvertBits_pad : forall data f t,
    0 < f <= 8 -> 0 < t <= 8 -> Forall (fun b => byte_Z b < 2 ^ f) data ->
    exists out k, ConvertBits data f t true = Some out /\ Forall (fun b => byte_Z b < 2 ^ t) out /\
                  (k < Z.to_nat t)%nat /\ bits t out = bits f data ++ replicate k false;
  ConvertBits_nopad : forall data out f t k,
    0 < f <= 8 -> 0 < t <= 8 -> Forall (fun b => byte_Z b < 2 ^ f) data ->
    Forall (fun b => byte_Z b < 2 ^ t) out -> (k <= 4)%nat -> (k < Z.to_nat t)%nat ->
    bits f data = bits t out ++ replicate k false -> ConvertBits data f t false = Some out;
  Bech32Encode_spec : forall hrp data,
    Forall (fun c => byte_Z c < 128) hrp -> Forall (fun b => byte_Z b < 32) data ->
    Bech32Encode hrp data = Some (bech32_string (ToLower hrp) data);
  AddressPubKeyHash_spec : forall h net a, NewAddressPubKeyHash h net = Some a ->
    AddressType a = AddressPubKeyHash /\ ScriptAddress a = h /\ length h = 20%nat;
  AddressScriptHash_spec : forall h net a, NewAddressScriptHashFromHash h net = Some a ->
    AddressType a = AddressScriptHash /\ ScriptAddress a = h /\ length h = 20%nat;
  AddressWitnessPubKeyHash_spec : forall h net a, NewAddressWitnessPubKeyHash h net = Some a ->
    AddressType a = AddressWitnessPubKeyHash /\ ScriptAddress a = h /\ length h = 20%nat /\ WitnessVersion a = x00;
  AddressWitnessScriptHash_spec : forall h net a, NewAddressWitnessScriptHash h net = Some a ->
    AddressType a = AddressWitnessScriptHash /\ ScriptAddress a = h /\ length h = 32%nat /\ WitnessVersion a = x00;
}.

Inductive pay_err : Type :=
  | ErrNetNotSet
  | ErrNoPaymentHash
  | ErrBothDescriptions
  | ErrNoDescription
  | ErrHashLength
  | ErrDescriptionHashLength
  | ErrPubKeyLength
  | ErrMissingFeatures
  | ErrTimestampTooBig
  | ErrConvertBits
  | ErrFieldTooLong
  | ErrUnknownFallback
  | ErrFeatures (e : wire_err)
  | ErrAmount (e : amt_err)
  | ErrSigner
  | ErrParseSignature
  | ErrSignatureMismatch
  | ErrBech32Encode
  | ErrInvoiceTooLarge
  | ErrBech32 (e : bech_err)
  | ErrHrpTooShort
  | ErrHrpPrefix
  | ErrWrongNetwork
  | ErrShortInvoice
  | ErrDataTooShort
  | ErrTimestampBits
  | ErrBrokenTaggedField
  | ErrInvalidFieldLength
  | ErrFieldLengthBytes
  | ErrParsePubKey
  | ErrUintLength
  | ErrEmptyFallback
  | ErrWitnessLength
  | ErrFallbackAddress
  | ErrRouteHintLength
  | ErrAssetMismatch
  | ErrInvalidSignature
  | ErrRecover.

(** Errors of the called functions as errors of this package. *)
Definition convert (o : option (list byte)) : outcome pay_err (list byte) :=
  match o with Some l => Ok l | None => Err ErrConvertBits end.
Definition lift {E A} (f : E -> pay_err) (o : outcome E A) : outcome pay_err A :=
  match o with Ok a => Ok a | Err e => Err (f e) | Panic => Panic end.

(** ** Invoices *)

(** [NodeID] is a pointer. *)
Record HopHint `{!Btcec} := mkHopHint {
  NodeID : option pubkey;
  ChannelID : Z;
  FeeBaseMSat : Z;
  FeeProportionalMillionths : Z;
  CLTVExpiryDelta : Z;
}.

(** [Copy] dereferences the key. *)
Definition Copy `{!Btcec} (h : HopHint) : outcome pay_err HopHint :=
  match NodeID h with
  | None => Panic
  | Some nodeID =>
      Ok {| NodeID := Some nodeID; ChannelID := ChannelID h; FeeBaseMSat := FeeBaseMSat h;
            FeeProportionalMillionths := FeeProportionalMillionths h; CLTVExpiryDelta := CLTVExpiryDelta h |}
  end.

(** The pointers of the source are options.  [MilliSat] is a [UnitPrec11], [expiry] a
    duration in nanoseconds. *)
Module Invoice.
Section invoice.
Context {BT : Btcec} {PL : PayLib}.

Record t := mk {
  Net : option params;
  MilliSat : option Z;
  AssetId : option Z;
  Timestamp : Time;
  PaymentHash : option (list byte);
  PaymentAddr : option (list byte);
  Destination : option pubkey;
  minFinalCLTVExpiry : option Z;
  Description : option gostring;
  DescriptionHash : option (list byte);
  expiry : option Z;
  FallbackAddr : option Address;
  RouteHints : list (list HopHint);
  Features : option Vector.t;
}.

(** The zero value: that of [time.Time] is the first of January of the year 1. *)
Definition empty : t := mk None None None (mkTime (-62135596800) 0) None None None None None None None None [] None.

Definition set_Net (v : option params) (i : t) : t :=
  {| Net := v; MilliSat := MilliSat i; AssetId := AssetId i; Timestamp := Timestamp i;
     PaymentHash := PaymentHash i; PaymentAddr := PaymentAddr i;
     Destination := Destination i; minFinalCLTVExpiry := minFinalCLTVExpiry i;
     Description := Description i; DescriptionHash := DescriptionHash i;
     expiry := expiry i; FallbackAddr := FallbackAddr i; RouteHints := RouteHints i;
     Features := Features i |}.
Definition set_MilliSat (v : option Z) (i : t) : t :=
  {| Net := Net i; MilliSat := v; AssetId := AssetId i; Timestamp := Timestamp i;
     PaymentHash := PaymentHash i; PaymentAddr := PaymentAddr i;
     Destination := Destination i; minFinalCLTVExpiry := minFinalCLTVExpiry i;
     Description := Description i; DescriptionHash := DescriptionHash i;
     expiry := expiry i; FallbackAddr := FallbackAddr i; RouteHints := RouteHints i;
     Features := Features i |}.
Definition set_AssetId (v : option Z) (i : t) : t :=
  {| Net := Net i; MilliSat := MilliSat i; AssetId := v; Timestamp := Timestamp i;
     PaymentHash := PaymentHash i; PaymentAddr := PaymentAddr i;
     Destination := Destination i; minFinalCLTVExpiry := minFinalCLTVExpiry i;
     Description := Description i; DescriptionHash := DescriptionHash i;
     expiry := expiry i; FallbackAddr := FallbackAddr i; RouteHints := RouteHints i;
     Features := Features i |}.
Definition set_Timestamp (v : Time) (i : t) : t :=
  {| Net := Net i; MilliSat := MilliSat i; AssetId := AssetId i; Timestamp := v;
     PaymentHash := PaymentHash i; PaymentAddr := PaymentAddr i;
     Destination := Destination i; minFinalCLTVExpiry := minFinalCLTVExpiry i;
     Description := Description i; DescriptionHash := DescriptionHash i;
     expiry := expiry i; FallbackAddr := FallbackAddr i; RouteHints := RouteHints i;
     Features := Features i |}.
Definition set_PaymentHash (v : option (list byte)) (i : t) : t :=
  {| Net := Net i; MilliSat := MilliSat i; AssetId := AssetId i; Timestamp := Timestamp i;
     PaymentHash := v; PaymentAddr := PaymentAddr i; Destination := Destination i;
     minFinalCLTVExpiry := minFinalCLTVExpiry i; Description := Description i;
     DescriptionHash := DescriptionHash i; expiry := expiry i;
     FallbackAddr := FallbackAddr i; RouteHints := RouteHints i;
     Features := Features i |}.
Definition set_PaymentAddr (v : option (list byte)) (i : t) : t :=
  {| Net := Net i; MilliSat := MilliSat i; AssetId := AssetId i; Timestamp := Timestamp i;
     PaymentHash := PaymentHash i; PaymentAddr := v; Destination := Destination i;
     minFinalCLTVExpiry := minFinalCLTVExpiry i; Description := Description i;
     DescriptionHash := DescriptionHash i; expiry := expiry i;
     FallbackAddr := FallbackAddr i; RouteHints := RouteHints i;
     Features := Features i |}.
Definition set_Destination (v : option pubkey) (i : t) : t :=
  {| Net := Net i; MilliSat := MilliSat i; AssetId := AssetId i; Timestamp := Timestamp i;
     PaymentHash := PaymentHash i; PaymentAddr := PaymentAddr i; Destination := v;
     minFinalCLTVExpiry := minFinalCLTVExpiry i; Description := Description i;
     DescriptionHash := DescriptionHash i; expiry := expiry i;
     FallbackAddr := FallbackAddr i; RouteHints := RouteHints i;
     Features := Features i |}.
Definition set_minFinalCLTVExpiry (v : option Z) (i : t) : t :=
  {| Net := Net i; MilliSat := MilliSat i; AssetId := AssetId i; Timestamp := Timestamp i;
     PaymentHash := PaymentHash i; PaymentAddr := PaymentAddr i;
     Destination := Destination i; minFinalCLTVExpiry := v;
     Description := Description i; DescriptionHash := DescriptionHash i;
     expiry := expiry i; FallbackAddr := FallbackAddr i; RouteHints := RouteHints i;
     Features := Features i |}.
Definition set_Description (v : option gostring) (i : t) : t :=
  {| Net := Net i; MilliSat := MilliSat i; AssetId := AssetId i; Timestamp := Timestamp i;
     PaymentHash := PaymentHash i; PaymentAddr := PaymentAddr i;
     Destination := Destination i; minFinalCLTVExpiry := minFinalCLTVExpiry i;
     Description := v; DescriptionHash := DescriptionHash i; expiry := expiry i;
     FallbackAddr := FallbackAddr i; RouteHints := RouteHints i;
     Features := Features i |}.
Definition set_DescriptionHash (v : option (list byte)) (i : t) : t :=
  {| Net := Net i; MilliSat := MilliSat i; AssetId := AssetId i; Timestamp := Timestamp i;
     PaymentHash := PaymentHash i; PaymentAddr := PaymentAddr i;
     Destination := Destination i; minFinalCLTVExpiry := minFinalCLTVExpiry i;
     Description := Description i; DescriptionHash := v; expiry := expiry i;
     FallbackAddr := FallbackAddr i; RouteHints := RouteHints i;
     Features := Features i |}.
Definition set_expiry (v : option Z) (i : t) : t :=
  {| Net := Net i; MilliSat := MilliSat i; AssetId := AssetId i; Timestamp := Timestamp i;
     PaymentHash := PaymentHash i; PaymentAddr := PaymentAddr i;
     Destination := Destination i; minFinalCLTVExpiry := minFinalCLTVExpiry i;
     Description := Description i; DescriptionHash := DescriptionHash i; expiry := v;
     FallbackAddr := FallbackAddr i; RouteHints := RouteHints i;
     Features := Features i |}.
Definition set_FallbackAddr (v : option Address) (i : t) : t :=
  {| Net := Net i; MilliSat := MilliSat i; AssetId := AssetId i; Timestamp := Timestamp i;
     PaymentHash := PaymentHash i; PaymentAddr := PaymentAddr i;
     Destination := Destination i; minFinalCLTVExpiry := minFinalCLTVExpiry i;
     Description := Description i; DescriptionHash := DescriptionHash i;
     expiry := expiry i; FallbackAddr := v; RouteHints := RouteHints i;
     Features := Features i |}.
Definition set_RouteHints (v : list (list HopHint)) (i : t) : t :=
  {| Net := Net i; MilliSat := MilliSat i; AssetId := AssetId i; Timestamp := Timestamp i;
     PaymentHash := PaymentHash i; PaymentAddr := PaymentAddr i;
     Destination := Destination i; minFinalCLTVExpiry := minFinalCLTVExpiry i;
     Description := Description i; DescriptionHash := DescriptionHash i;
     expiry := expiry i; FallbackAddr := FallbackAddr i; RouteHints := v;
     Features := Features i |}.
Definition set_Features (v : option Vector.t) (i : t) : t :=
  {| Net := Net i; MilliSat := MilliSat i; AssetId := AssetId i; Timestamp := Timestamp i;
     PaymentHash := PaymentHash i; PaymentAddr := PaymentAddr i;
     Destination := Destination i; minFinalCLTVExpiry := minFinalCLTVExpiry i;
     Description := Description i; DescriptionHash := DescriptionHash i;
     expiry := expiry i; FallbackAddr := FallbackAddr i; RouteHints := RouteHints i;
     Features := v |}.

End invoice.
Arguments t {_ _}.
End Invoice.


Section options.
Context {BT : Btcec} {PL : PayLib}.

(** ** Functional options *)

Definition Amount (milliSat : Z) : Invoice.t -> Invoice.t := Invoice.set_MilliSat (Some milliSat).
Definition AssetId (assetId : Z) : Invoice.t -> Invoice.t := Invoice.set_AssetId (Some assetId).
Definition Destination (destination : option pubkey) : Invoice.t -> Invoice.t := Invoice.set_Destination destination.
Definition Description (description : gostring) : Invoice.t -> Invoice.t := Invoice.set_Description (Some description).
Definition CLTVExpiry (delta : Z) : Invoice.t -> Invoice.t := Invoice.set_minFinalCLTVExpiry (Some delta).
Definition DescriptionHash (descriptionHash : list byte) : Invoice.t -> Invoice.t :=
  Invoice.set_DescriptionHash (Some descriptionHash).
Definition Expiry (expiry : Z) : Invoice.t -> Invoice.t := Invoice.set_expiry (Some expiry).
Definition FallbackAddr (fallbackAddr : option Address) : Invoice.t -> Invoice.t :=
  Invoice.set_FallbackAddr fallbackAddr.
Definition RouteHint (routeHint : list HopHint) (i : Invoice.t) : Invoice.t :=
  Invoice.set_RouteHints (Invoice.RouteHints i ++ [routeHint]) i.
Definition FeaturesOption (features : option Vector.t) : Invoice.t -> Invoice.t := Invoice.set_Features features.
Definition PaymentAddr (addr : list byte) : Invoice.t -> Invoice.t := Invoice.set_PaymentAddr (Some addr).

(** ** Validation *)

Definition validateInvoice (invoice : Invoice.t) : outcome pay_err unit :=
  match Invoice.Net invoice with
  | None => Err ErrNetNotSet
  | Some _ =>
  match Invoice.PaymentHash invoice with
  | None => Err ErrNoPaymentHash
  | Some paymentHash =>
      if bool_decide (is_Some (Invoice.Description invoice) /\ is_Some (Invoice.DescriptionHash invoice))
      then Err ErrBothDescriptions
      else if bool_decide (Invoice.Description invoice = None /\ Invoice.DescriptionHash invoice = None)
      then Err ErrNoDescription
      else if bool_decide (length paymentHash <> 32%nat) then Err ErrHashLength
      else if match Invoice.DescriptionHash invoice with
              | Some h => bool_decide (length h <> 32%nat) | None => false end
      then Err ErrDescriptionHashLength
      else if match Invoice.Destination invoice with
              | Some k => bool_decide (length (SerializeCompressed k) <> 33%nat) | None => false end
      then Err ErrPubKeyLength
      else match Invoice.Features invoice with
           | None => Err ErrMissingFeatures
           | Some _ => Ok tt
           end
  end end.

Definition NewInvoice (net : option params) (paymentHash : list byte) (timestamp : Time)
    (options : list (Invoice.t -> Invoice.t)) : outcome pay_err Invoice.t :=
  let invoice := Invoice.set_Net net (Invoice.set_PaymentHash (Some paymentHash)
                   (Invoice.set_Timestamp timestamp Invoice.empty)) in
  let invoice := foldl (fun invoice option => option invoice) invoice options in
  let invoice := match Invoice.Features invoice with
                 | None => Invoice.set_Features (Some (Vector.NewFeatureVector None Features)) invoice
                 | Some _ => invoice
                 end in
  _ <~ validateInvoice invoice ; Ok invoice.

Definition InvoiceExpiry (invoice : Invoice.t) : Z :=
  match Invoice.expiry invoice with Some expiry => expiry | None => DefaultInvoiceExpiry end.

Definition MinFinalCLTVExpiry (invoice : Invoice.t) : Z :=
  match Invoice.minFinalCLTVExpiry invoice with Some delta => delta | None => DefaultAssumedFinalCLTVDelta end.

Definition getObdHrpPre (cc : params) : outcome pay_err gostring :=
  if bool_decide (NetName cc = MainNetName) then Ok (str "o")
  else if bool_decide (NetName cc = TestNet3Name) then Ok (str "to")
  else if bool_decide (NetName cc = RegressionNetName) then Ok (str "ort")
  else Panic.

End options.
