(* ===== verification/PayCodec.v ===== *)
(** * zpay32/encode.go: writing a payment request

    The data of a payment request is a sequence of 5-bit groups: the timestamp, tagged
    fields and the signature.  The buffer is threaded through the writers; the orders in
    which maps are visited (the feature bits, the units of amounts) are arguments.

    Then zpay32/decode.go, and the lemmas on what each piece that is written reads back to. *)

From Stdlib Require Import ZArith Lia String Floats.SpecFloat.
From S2P Require Import Prelude Wire Features Amounts Signature GoText Bech32 PayAmount.
From S2P Require Import PayInvoice.

Local Open Scope Z_scope.
Local Open Scope go_scope.

(** The loop of [uint64ToBase32]; thirteen groups hold 64 bits. *)
Fixpoint base32_groups (fuel : nat) (num : Z) (acc : list byte) : list byte :=
  match fuel with
  | O => acc
  | S fuel' =>
      if bool_decide (num > 0)
      then base32_groups fuel' (Z.shiftr num 5) (byte_of_Z (Z.land num 31) :: acc)
      else acc
  end.

Definition uint64ToBase32 (num : Z) : list byte :=
  if bool_decide (num = 0) then [x00] else base32_groups 13 num [].

Definition writeTaggedField (bufferBase32 : list byte) (dataType : Z) (data : list byte)
    : outcome pay_err (list byte) :=
  let lenBase32 := uint64ToBase32 (Z.of_nat (length data)) in
  let lenBase32 := replicate (2 - length lenBase32) x00 ++ lenBase32 in
  if bool_decide (length lenBase32 <> 2%nat) then Err ErrFieldTooLong
  else Ok (bufferBase32 ++ [byte_of_Z dataType] ++ lenBase32 ++ data).

Section encode.
Context {BT : Btcec} {PL : PayLib}.

Definition writeBytes32 (bufferBase32 : list byte) (fieldType : Z) (b : list byte) : outcome pay_err (list byte) :=
  base32 <~ convert (ConvertBits b 8 5 true) ;
  writeTaggedField bufferBase32 fieldType base32.

(** [if field != nil { ... }] *)
Definition when_set {A} (field : option A) (write : A -> list byte -> outcome pay_err (list byte))
    (buf : list byte) : outcome pay_err (list byte) :=
  match field with None => Ok buf | Some a => write a buf end.

Definition uint64_of_float (x : spec_float) : Z :=
  match f64_trunc x with
  | Some z => if bool_decide (0 <= z < 2 ^ 64) then z else Float64Overflow x
  | None => Float64Overflow x
  end.

(** The version group of a fallback address. *)
Definition fallback_version (addr : Address) : outcome pay_err byte :=
  match AddressType addr with
  | AddressPubKeyHash => Ok (byte_of_Z 17)
  | AddressScriptHash => Ok (byte_of_Z 18)
  | AddressWitnessPubKeyHash | AddressWitnessScriptHash => Ok (WitnessVersion addr)
  | AddressOther => Err ErrUnknownFallback
  end.

(** A hop hint takes 51 bytes; a nil key is dereferenced. *)
Definition hop_hint_bytes (hopHint : HopHint) : outcome pay_err (list byte) :=
  match NodeID hopHint with
  | None => Panic
  | Some key =>
      let b := replicate hopHintLen x00 in
      let b := copy_at b 0 (take 33 (SerializeCompressed key)) in
      let b := copy_at b 33 (be_put 8 (ChannelID hopHint)) in
      let b := copy_at b 41 (be_put 4 (FeeBaseMSat hopHint)) in
      let b := copy_at b 45 (be_put 4 (FeeProportionalMillionths hopHint)) in
      Ok (copy_at b 49 (be_put 2 (CLTVExpiryDelta hopHint)))
  end.

Fixpoint route_hint_bytes (routeHint : list HopHint) : outcome pay_err (list byte) :=
  match routeHint with
  | [] => Ok []
  | hopHint :: rest =>
      b <~ hop_hint_bytes hopHint ; bs <~ route_hint_bytes rest ; Ok (b ++ bs)
  end.

Fixpoint write_route_hints (routeHints : list (list HopHint)) (buf : list byte) : outcome pay_err (list byte) :=
  match routeHints with
  | [] => Ok buf
  | routeHint :: rest =>
      base256 <~ route_hint_bytes routeHint ;
      base32 <~ convert (ConvertBits base256 8 5 true) ;
      buf <~ writeTaggedField buf fieldTypeR base32 ;
      write_route_hints rest buf
  end.

(** [order] is the order in which the feature bits are visited. *)
Definition write_features (order : list Z) (buf : list byte) : outcome pay_err (list byte) :=
  if bool_decide (Raw.SerializeSize32 order > 0) then
    b <~ lift ErrFeatures (Raw.EncodeBase32 order) ;
    writeTaggedField buf fieldType9 b
  else Ok buf.

(** Nil features are dereferenced. *)
Definition writeTaggedFields (order : list Z) (buf : list byte) (invoice : Invoice.t)
    : outcome pay_err (list byte) :=
  buf <~ when_set (Invoice.PaymentHash invoice) (fun h buf => writeBytes32 buf fieldTypeP h) buf ;
  buf <~ when_set (Invoice.Description invoice) (fun d buf =>
           base32 <~ convert (ConvertBits d 8 5 true) ; writeTaggedField buf fieldTypeD base32) buf ;
  buf <~ when_set (Invoice.DescriptionHash invoice) (fun h buf => writeBytes32 buf fieldTypeH h) buf ;
  buf <~ when_set (Invoice.minFinalCLTVExpiry invoice) (fun delta buf =>
           writeTaggedField buf fieldTypeC (uint64ToBase32 delta)) buf ;
  buf <~ when_set (Invoice.expiry invoice) (fun expiry buf =>
           let seconds := Seconds expiry in
           writeTaggedField buf fieldTypeX (uint64ToBase32 (uint64_of_float seconds))) buf ;
  buf <~ when_set (Invoice.AssetId invoice) (fun assetId buf =>
           writeTaggedField buf fieldTypeA (uint64ToBase32 assetId)) buf ;
  buf <~ when_set (Invoice.FallbackAddr invoice) (fun addr buf =>
           version <~ fallback_version addr ;
           base32Addr <~ convert (ConvertBits (ScriptAddress addr) 8 5 true) ;
           writeTaggedField buf fieldTypeF ([version] ++ base32Addr)) buf ;
  buf <~ write_route_hints (Invoice.RouteHints invoice) buf ;
  buf <~ when_set (Invoice.Destination invoice) (fun destination buf =>
           pubKeyBase32 <~ convert (ConvertBits (SerializeCompressed destination) 8 5 true) ;
           if bool_decide (length pubKeyBase32 <> pubKeyBase32Len) then Err ErrPubKeyLength
           else writeTaggedField buf fieldTypeN pubKeyBase32) buf ;
  buf <~ when_set (Invoice.PaymentAddr invoice) (fun addr buf => writeBytes32 buf fieldTypeS addr) buf ;
  match Invoice.Features invoice with
  | None => Panic
  | Some _ => write_features order buf
  end.

Definition ToSignature (sig : list byte) : option Signature := ParseDERSignature (ToSignatureBytes sig).

(** [signer] is [signer.SignCompact]. *)
Definition Encode (order : list Z) (orderMSat orderAmt : units) (signer : list byte -> option (list byte))
    (invoice : Invoice.t) : outcome pay_err gostring :=
  _ <~ validateInvoice invoice ;
  let timestampBase32 := uint64ToBase32 (u64 (Unix (Invoice.Timestamp invoice))) in
  if bool_decide (timestampBase32Len < length timestampBase32)%nat then Err ErrTimestampTooBig
  else
  let buf := replicate (timestampBase32Len - length timestampBase32) x00 ++ timestampBase32 in
  buf <~ writeTaggedFields order buf invoice ;
  match Invoice.Net invoice with
  | None => Panic
  | Some net =>
  pre <~ getObdHrpPre net ;
  let hrp := str "ob" ++ pre in
  match Invoice.AssetId invoice with
  | None => Panic
  | Some aid =>
  let hrp := hrp ++ (FormatInt aid ++ str ":") in
  hrp <~ match Invoice.MilliSat invoice with
         | None => Ok hrp
         | Some amt => am <~ lift ErrAmount (encodeAmt orderMSat orderAmt amt aid) ; Ok (hrp ++ am)
         end ;
  taggedFieldsBytes <~ convert (ConvertBits buf 5 8 true) ;
  let toSign := hrp ++ taggedFieldsBytes in
  match signer toSign with
  | None => Err ErrSigner
  | Some [] => Panic
  | Some (h :: sign) =>
  let recoveryID := byte_of_Z (u8 (byte_Z h - 27 - 4)) in
  let sig := copy_at (replicate 64 x00) 0 sign in
  _ <~ match Invoice.Destination invoice with
       | None => Ok tt
       | Some destination =>
           match ToSignature sig with
           | None => Err ErrParseSignature
           | Some signature =>
               if Verify signature (HashB toSign) destination then Ok tt else Err ErrSignatureMismatch
           end
       end ;
  signBase32 <~ convert (ConvertBits (sig ++ [recoveryID]) 8 5 true) ;
  let buf := buf ++ signBase32 in
  match Bech32Encode hrp buf with
  | None => Err ErrBech32Encode
  | Some b32 => if bool_decide (maxInvoiceLength < length b32)%nat then Err ErrInvoiceTooLarge else Ok b32
  end end end end.

End encode.

(** * zpay32/decode.go: reading a payment request *)

Definition base32ToUint64 (data : list byte) : outcome pay_err Z :=
  if bool_decide (13 < length data)%nat then Err ErrUintLength
  else Ok (foldl (fun val b => Z.lor (u64 (Z.shiftl val 5)) (byte_Z b)) 0 data).

Definition parseFieldDataLength (data : list byte) : outcome pay_err Z :=
  match data with
  | [a; b] => Ok (Z.lor (u16 (Z.shiftl (byte_Z a) 5)) (byte_Z b))
  | _ => Err ErrFieldLengthBytes
  end.

Definition parseTimestamp (data : list byte) : outcome pay_err Z :=
  if bool_decide (length data <> timestampBase32Len) then Err ErrTimestampBits
  else base32ToUint64 data.

(** [time.Duration(expiry) * time.Second] *)
Definition parseExpiry (data : list byte) : outcome pay_err (option Z) :=
  expiry <~ base32ToUint64 data ; Ok (Some (i64 (i64 expiry * Second))).

Definition parseAssetId (data : list byte) : outcome pay_err (option Z) :=
  tmpInt <~ base32ToUint64 data ; Ok (Some (u32 tmpInt)).

Definition parseMinFinalCLTVExpiry (data : list byte) : outcome pay_err (option Z) :=
  expiry <~ base32ToUint64 data ; Ok (Some expiry).

Section decode.
Context {BT : Btcec} {PL : PayLib}.

Definition parse32Bytes (data : list byte) : outcome pay_err (option (list byte)) :=
  if bool_decide (length data <> hashBase32Len) then Ok None
  else hash <~ convert (ConvertBits data 5 8 false) ; Ok (Some (copy_at (replicate 32 x00) 0 hash)).

Definition parseDescription (data : list byte) : outcome pay_err (option gostring) :=
  base256Data <~ convert (ConvertBits data 5 8 false) ; Ok (Some base256Data).

Definition parsePubKey (data : list byte) : outcome pay_err (option pubkey) :=
  match ParsePubKey data with Some k => Ok (Some k) | None => Err ErrParsePubKey end.

Definition parseDestination (data : list byte) : outcome pay_err (option pubkey) :=
  if bool_decide (length data <> pubKeyBase32Len) then Ok None
  else base256Data <~ convert (ConvertBits data 5 8 false) ; parsePubKey base256Data.

Definition new_address (a : option Address) : outcome pay_err (option Address) :=
  match a with Some a => Ok (Some a) | None => Err ErrFallbackAddress end.

Definition parseFallbackAddr (data : list byte) (net : params) : outcome pay_err (option Address) :=
  match data with
  | version :: (_ :: _) as rest =>
      if bool_decide (byte_Z version = 0) then
        witness <~ convert (ConvertBits rest 5 8 false) ;
        if bool_decide (length witness = 20%nat) then new_address (NewAddressWitnessPubKeyHash witness net)
        else if bool_decide (length witness = 32%nat) then new_address (NewAddressWitnessScriptHash witness net)
        else Err ErrWitnessLength
      else if bool_decide (byte_Z version = 17) then
        pubKeyHash <~ convert (ConvertBits rest 5 8 false) ; new_address (NewAddressPubKeyHash pubKeyHash net)
      else if bool_decide (byte_Z version = 18) then
        scriptHash <~ convert (ConvertBits rest 5 8 false) ; new_address (NewAddressScriptHashFromHash scriptHash net)
      else Ok None
  | _ => Err ErrEmptyFallback
  end.

Definition parse_hop_hint (b : list byte) : outcome pay_err HopHint :=
  k <~ parsePubKey (take 33 b) ;
  Ok (mkHopHint _ k (be_get (take 8 (drop 33 b))) (be_get (take 4 (drop 41 b)))
        (be_get (take 4 (drop 45 b))) (be_get (take 2 (drop 49 b)))).

(** The loop of [parseRouteHint], over a multiple of 51 bytes. *)
Fixpoint parse_hop_hints (n : nat) (base256Data : list byte) : outcome pay_err (list HopHint) :=
  match n with
  | O => Ok []
  | S n' =>
      hopHint <~ parse_hop_hint base256Data ;
      routeHint <~ parse_hop_hints n' (drop hopHintLen base256Data) ;
      Ok (hopHint :: routeHint)
  end.

Definition parseRouteHint (data : list byte) : outcome pay_err (list HopHint) :=
  base256Data <~ convert (ConvertBits data 5 8 false) ;
  if bool_decide (length base256Data mod hopHintLen <> 0)%nat then Err ErrRouteHintLength
  else parse_hop_hints (length base256Data / hopHintLen) base256Data.

Definition parseFeatures (data : list byte) : outcome pay_err (option Vector.t) :=
  fv <~ lift ErrFeatures (Raw.DecodeBase32 (Raw.New []) (Z.of_nat (length data)) data) ;
  Ok (Some (Vector.NewFeatureVector (Some fv.1) Features)).

(** A field that has been read before is skipped. *)
Definition parse_once {A} (seen : option A) (parse : outcome pay_err (option A))
    (set : option A -> Invoice.t -> Invoice.t) (invoice : Invoice.t) : outcome pay_err Invoice.t :=
  match seen with
  | Some _ => Ok invoice
  | None => v <~ parse ; Ok (set v invoice)
  end.

(** The switch of [parseTaggedFields]. *)
Definition parse_field (invoice : Invoice.t) (typ : Z) (base32Data : list byte) (net : params)
    : outcome pay_err Invoice.t :=
  if bool_decide (typ = fieldTypeP) then
    parse_once (Invoice.PaymentHash invoice) (parse32Bytes base32Data) Invoice.set_PaymentHash invoice
  else if bool_decide (typ = fieldTypeS) then
    parse_once (Invoice.PaymentAddr invoice) (parse32Bytes base32Data) Invoice.set_PaymentAddr invoice
  else if bool_decide (typ = fieldTypeD) then
    parse_once (Invoice.Description invoice) (parseDescription base32Data) Invoice.set_Description invoice
  else if bool_decide (typ = fieldTypeN) then
    parse_once (Invoice.Destination invoice) (parseDestination base32Data) Invoice.set_Destination invoice
  else if bool_decide (typ = fieldTypeH) then
    parse_once (Invoice.DescriptionHash invoice) (parse32Bytes base32Data) Invoice.set_DescriptionHash invoice
  else if bool_decide (typ = fieldTypeX) then
    parse_once (Invoice.expiry invoice) (parseExpiry base32Data) Invoice.set_expiry invoice
  else if bool_decide (typ = fieldTypeA) then
    parse_once (Invoice.AssetId invoice) (parseAssetId base32Data) Invoice.set_AssetId invoice
  else if bool_decide (typ = fieldTypeC) then
    parse_once (Invoice.minFinalCLTVExpiry invoice) (parseMinFinalCLTVExpiry base32Data)
      Invoice.set_minFinalCLTVExpiry invoice
  else if bool_decide (typ = fieldTypeF) then
    parse_once (Invoice.FallbackAddr invoice) (parseFallbackAddr base32Data net) Invoice.set_FallbackAddr invoice
  else if bool_decide (typ = fieldTypeR) then
    routeHint <~ parseRouteHint base32Data ;
    Ok (Invoice.set_RouteHints (Invoice.RouteHints invoice ++ [routeHint]) invoice)
  else if bool_decide (typ = fieldType9) then
    parse_once (Invoice.Features invoice) (parseFeatures base32Data) Invoice.set_Features invoice
  else Ok invoice.

(** One iteration of the loop: the groups that are left and the invoice. *)
Definition parse_next (invoice : Invoice.t) (fields : list byte) (net : params)
    : outcome pay_err (Invoice.t * list byte) :=
  match fields with
  | typ :: l1 :: l2 :: rest =>
      dataLength <~ parseFieldDataLength [l1; l2] ;
      let n := Z.to_nat dataLength in
      if bool_decide (length rest < n)%nat then Err ErrInvalidFieldLength
      else
        invoice <~ parse_field invoice (byte_Z typ) (take n rest) net ;
        Ok (invoice, drop n rest)
  | _ => Err ErrBrokenTaggedField
  end.

(** Every iteration takes at least three groups, so there are at most as many iterations
    as groups. *)
Fixpoint parse_fields (fuel : nat) (invoice : Invoice.t) (fields : list byte) (net : params)
    : outcome pay_err Invoice.t :=
  match fields with
  | [] => Ok invoice
  | _ =>
      match fuel with
      | O => Panic
      | S fuel' => '(invoice, rest) <~ parse_next invoice fields net ; parse_fields fuel' invoice rest net
      end
  end.

Definition parseTaggedFields (invoice : Invoice.t) (fields : list byte) (net : params) : outcome pay_err Invoice.t :=
  parse_fields (length fields) invoice fields net.

Definition parseData (invoice : Invoice.t) (data : list byte) (net : params) : outcome pay_err Invoice.t :=
  if bool_decide (length data < timestampBase32Len)%nat then Err ErrDataTooShort
  else
    t <~ parseTimestamp (take timestampBase32Len data) ;
    let invoice := Invoice.set_Timestamp (mkTime (i64 t) 0) invoice in
    parseTaggedFields invoice (drop 7 data) net.

(** The amount of the human-readable part; [items[1]] is out of range without a colon. *)
Definition decode_hrp_amount (rest : gostring) (invoice : Invoice.t) : outcome pay_err Invoice.t :=
  let aid := default 0 (Invoice.AssetId invoice) in
  let items := Split rest ":"%byte in
  let tmp_aid := (Atoi (default [] (items !! 0%nat))).1 in
  if bool_decide (tmp_aid <> aid) then Err ErrAssetMismatch
  else
    match items !! 1%nat with
    | None => Panic
    | Some item =>
        amount <~ lift ErrAmount (decodeAmt item aid) ;
        Ok (Invoice.set_MilliSat (Some amount) invoice)
    end.

(** The signature is checked against the key of the invoice, or the key is recovered from
    it. *)
Definition decode_signature (hash sig : list byte) (recoveryID : byte) (invoice : Invoice.t)
    : outcome pay_err Invoice.t :=
  match Invoice.Destination invoice with
  | Some destination =>
      match ToSignature sig with
      | None => Err ErrParseSignature
      | Some signature =>
          if Verify signature hash destination then Ok invoice else Err ErrInvalidSignature
      end
  | None =>
      let headerByte := byte_of_Z (u8 (byte_Z recoveryID + 27 + 4)) in
      match RecoverCompact (headerByte :: sig) hash with
      | None => Err ErrRecover
      | Some pubkey => Ok (Invoice.set_Destination (Some pubkey) invoice)
      end
  end.

Definition Decode (invoice : gostring) (net : params) : outcome pay_err Invoice.t :=
  if bool_decide (maxInvoiceLength < length invoice)%nat then Err ErrInvoiceTooLarge
  else
  '(hrp, data) <~ lift ErrBech32 (decodeBech32 invoice) ;
  if bool_decide (length hrp < 3)%nat then Err ErrHrpTooShort
  else if bool_decide (take 2 hrp <> str "ob") then Err ErrHrpPrefix
  else
  expectedPrefix <~ getObdHrpPre net ;
  if negb (HasPrefix (drop 2 hrp) expectedPrefix) then Err ErrWrongNetwork
  else
  let decoded := Invoice.set_Net (Some net) Invoice.empty in
  if bool_decide (length data < signatureBase32Len)%nat then Err ErrShortInvoice
  else
  let invoiceData := take (length data - signatureBase32Len) data in
  decoded <~ parseData decoded invoiceData net ;
  let netPrefixLength := (length expectedPrefix + 2)%nat in
  decoded <~ (if bool_decide (netPrefixLength < length hrp)%nat
              then decode_hrp_amount (drop netPrefixLength hrp) decoded else Ok decoded) ;
  let sigBase32 := drop (length data - signatureBase32Len) data in
  sigBase256 <~ convert (ConvertBits sigBase32 5 8 true) ;
  match sigBase256 !! 64%nat with
  | None => Panic
  | Some recoveryID =>
  let sig := copy_at (replicate 64 x00) 0 (take 64 sigBase256) in
  taggedDataBytes <~ convert (ConvertBits invoiceData 5 8 true) ;
  let toSign := hrp ++ taggedDataBytes in
  let hash := HashB toSign in
  decoded <~ decode_signature hash sig recoveryID decoded ;
  let decoded := match Invoice.Features decoded with
                 | None => Invoice.set_Features (Some (Vector.NewFeatureVector None Features)) decoded
                 | Some _ => decoded
                 end in
  _ <~ validateInvoice decoded ;
  Ok decoded
  end.

End decode.

(** * Regrouping bits, numbers and tagged fields of payment requests

    What the pieces of a payment request decode to: numbers in base 32, bytes regrouped
    into groups of five bits, and one tagged field after the other. *)

(** The groups of a tagged field: the type, the length in two groups, the data. *)
Definition field (typ : Z) (data : list byte) : list byte :=
  [byte_of_Z typ; byte_of_Z (Z.of_nat (length data) / 32); byte_of_Z (Z.of_nat (length data) mod 32)] ++ data.

(** The number written by groups, as the loop of [base32ToUint64] computes it. *)
Definition groups_number (data : list byte) : Z :=
  foldl (fun val b => Z.lor (u64 (Z.shiftl val 5)) (byte_Z b)) 0 data.

(** ** Regrouping bits *)

Lemma length_bits_of w b : 0 <= w -> length (bits_of w b) = Z.to_nat w.
Proof. intros. unfold bits_of. by rewrite length_fmap, length_seqZ. Qed.

Lemma length_bits w l : 0 <= w -> length (bits w l) = (Z.to_nat w * length l)%nat.
Proof.
  intros Hw. unfold bits. induction l as [|b l IH]; cbn; [lia|].
  rewrite length_app, length_bits_of by done. cbn in IH. rewrite IH. lia.
Qed.

Lemma bits_of_inj w a b :
  0 <= w -> byte_Z a < 2 ^ w -> byte_Z b < 2 ^ w -> bits_of w a = bits_of w b -> a = b.
Proof.
  intros Hw Ha Hb H. apply (inj byte_Z). pose proof (byte_Z_range a). pose proof (byte_Z_range b).
  assert (forall x n, 0 <= x < 2 ^ w -> w <= n -> Z.testbit x n = false) as Hhigh.
  { intros x n Hx Hn. destruct (decide (x = 0)) as [->|]; [apply Z.bits_0|].
    apply Z.bits_above_log2; [lia|]. apply Z.log2_lt_pow2; [lia|].
    apply Z.lt_le_trans with (2 ^ w); [lia|]. apply Z.pow_le_mono_r; lia. }
  apply Z.bits_inj'. intros n Hn. destruct (decide (n < w)) as [Hlt|]; [|by rewrite !Hhigh by lia].
  assert (forall x, bits_of w x !! Z.to_nat (w - 1 - n) = Some (Z.testbit (byte_Z x) n)) as Hl.
  { intros x. unfold bits_of. rewrite list_lookup_fmap, lookup_seqZ_lt by lia. cbn. do 2 f_equal. lia. }
  pose proof (Hl a) as E. rewrite H, Hl in E. by injection E.
Qed.

Lemma bits_inj w l l' :
  0 < w -> Forall (fun b => byte_Z b < 2 ^ w) l -> Forall (fun b => byte_Z b < 2 ^ w) l' ->
  bits w l = bits w l' -> l = l'.
Proof.
  intros Hw Hl. revert l'. induction Hl as [|b l Hb _ IH]; intros l' Hl' H.
  - apply (f_equal length) in H. rewrite !length_bits in H by lia. cbn [length] in H. destruct l'; cbn [length] in H; [done|nia].
  - destruct Hl' as [|b' l' Hb' Hl'].
    { apply (f_equal length) in H. rewrite !length_bits in H by lia. cbn [length] in H. nia. }
    apply app_inj_1 in H as [H1 H2]; [|by rewrite !length_bits_of by lia].
    f_equal; [by apply (bits_of_inj w); [lia|..]|by apply IH].
Qed.

Lemma byte_bits b : byte_Z b < 2 ^ 8.
Proof. pose proof (byte_Z_range b). lia. Qed.

Lemma bytes_bits d : Forall (fun b => byte_Z b < 2 ^ 8) d.
Proof. apply Forall_true, byte_bits. Qed.

Section convert.
Context {BT : Btcec} {PL : PayLib} {LA : PayLaws}.

(** Bytes to groups and back. *)
Lemma ConvertBits_roundtrip d :
  exists gs k, ConvertBits d 8 5 true = Some gs /\ Forall group gs /\ ConvertBits gs 5 8 false = Some d /\
    (k < 5)%nat /\ (5 * length gs = 8 * length d + k)%nat.
Proof.
  destruct (ConvertBits_pad d 8 5) as (gs & k & Hc & Hg & Hk & Hb); [lia..|apply bytes_bits|].
  exists gs, k. split; [done|]. split; [done|]. split.
  - apply (ConvertBits_nopad gs d 5 8 k); [lia..|done|apply bytes_bits|lia|lia|done].
  - split; [lia|]. apply (f_equal length) in Hb. rewrite length_app, length_replicate, !length_bits in Hb by lia. lia.
Qed.

(** Groups to bytes always succeeds with padding. *)
Lemma ConvertBits_groups gs :
  Forall group gs -> exists out, ConvertBits gs 5 8 true = Some out.
Proof. intros H. destruct (ConvertBits_pad gs 5 8) as (out & k & Hc & _); [lia..|done|]. eauto. Qed.

(** A multiple of five bytes needs no padding. *)
Lemma ConvertBits_exact d n :
  length d = (5 * n)%nat ->
  exists gs, ConvertBits d 8 5 true = Some gs /\ Forall group gs /\ length gs = (8 * n)%nat /\
    ConvertBits gs 5 8 true = Some d.
Proof.
  intros Hd. destruct (ConvertBits_pad d 8 5) as (gs & k & Hc & Hg & Hk & Hb); [lia..|apply bytes_bits|].
  pose proof (f_equal length Hb) as Hl. rewrite length_app, length_replicate, !length_bits, Hd in Hl by lia.
  assert (k = 0%nat) as -> by lia. cbn [replicate] in Hb. rewrite app_nil_r in Hb.
  exists gs. split; [done|]. split; [done|]. split; [lia|].
  destruct (ConvertBits_pad gs 5 8) as (d' & k' & -> & Hg' & Hk' & Hb'); [lia..|done|].
  pose proof (f_equal length Hb') as Hl'. rewrite length_app, length_replicate, !length_bits in Hl' by lia.
  assert (k' = 0%nat) as -> by lia. cbn [replicate] in Hb'. rewrite app_nil_r, Hb in Hb'.
  f_equal. apply (bits_inj 8); [lia|done|apply bytes_bits|done].
Qed.

End convert.

(** ** Numbers in base 32 *)

Lemma groups_number_zeros k l : groups_number (replicate k x00 ++ l) = groups_number l.
Proof. unfold groups_number. rewrite foldl_app. f_equal. induction k as [|k IH]; [done|]. cbn [replicate foldl]. exact IH. Qed.

Lemma groups_number_snoc l b : groups_number (l ++ [b]) = Z.lor (u64 (Z.shiftl (groups_number l) 5)) (byte_Z b).
Proof. unfold groups_number. by rewrite foldl_app. Qed.

Lemma base32_groups_acc fuel num acc : base32_groups fuel num acc = base32_groups fuel num [] ++ acc.
Proof.
  revert num acc. induction fuel as [|fuel IH]; intros num acc; cbn [base32_groups]; [done|].
  case_bool_decide; [|done]. rewrite IH, (IH _ [_]), <- (assoc (++)). done.
Qed.

Lemma lor_low x b : 0 <= b < 32 -> Z.lor (32 * x) b = 32 * x + b.
Proof.
  intros Hb. assert (Z.land (32 * x) b = 0) as Hl.
  { apply Z.bits_inj'. intros n Hn. rewrite Z.land_spec, Z.bits_0.
    replace (32 * x) with (Z.shiftl x 5) by (rewrite Z.shiftl_mul_pow2; lia).
    destruct (decide (n < 5)); [by rewrite Z.shiftl_spec_low by lia|].
    assert (Z.testbit b n = false) as ->; [|apply andb_false_r].
    destruct (decide (b = 0)) as [->|]; [apply Z.bits_0|].
    apply Z.bits_above_log2; [lia|]. apply Z.lt_le_trans with 5; [apply Z.log2_lt_pow2; lia|lia]. }
  by rewrite Z.add_nocarry_lxor, Z.lxor_lor.
Qed.

Lemma byte_of_small z : 0 <= z < 256 -> byte_Z (byte_of_Z z) = z.
Proof. intros. rewrite byte_Z_of_Z. apply Z.mod_small. lia. Qed.

Lemma base32_groups_number fuel num :
  0 <= num < 2 ^ 64 -> num < 2 ^ (5 * Z.of_nat fuel) -> groups_number (base32_groups fuel num []) = num.
Proof.
  revert num. induction fuel as [|fuel IH]; intros num H64 Hf; cbn [base32_groups].
  { cbn in Hf. by assert (num = 0) as -> by lia. }
  case_bool_decide; [|by assert (num = 0) as -> by lia].
  rewrite Nat2Z.inj_succ, Z.mul_succ_r, Z.pow_add_r in Hf by lia.
  rewrite base32_groups_acc, groups_number_snoc, Z.shiftr_div_pow2 by lia.
  pose proof (Z.div_mod num 32 ltac:(lia)). pose proof (Z.mod_pos_bound num 32 ltac:(lia)).
  rewrite IH by (change (2 ^ 5) with 32 in *; lia). rewrite Z.shiftl_mul_pow2 by lia. change (2 ^ 5) with 32 in *.
  change 31 with (Z.ones 5). rewrite Z.land_ones, byte_of_small by (change (2 ^ 5) with 32; lia). change (2 ^ 5) with 32.
  unfold u64. rewrite Z.mod_small by lia. rewrite Z.mul_comm, lor_low by lia. lia.
Qed.

Lemma base32_groups_group fuel num acc : Forall group acc -> Forall group (base32_groups fuel num acc).
Proof.
  revert num acc. induction fuel as [|fuel IH]; intros num acc Ha; cbn [base32_groups]; [done|].
  case_bool_decide; [|done]. apply IH. constructor; [|done]. unfold group. change 31 with (Z.ones 5).
  pose proof (Z.mod_pos_bound num 32 ltac:(lia)). rewrite Z.land_ones, byte_of_small by (change (2 ^ 5) with 32; lia).
  change (2 ^ 5) with 32. lia.
Qed.

Lemma uint64ToBase32_group num : Forall group (uint64ToBase32 num).
Proof. unfold uint64ToBase32. case_bool_decide; [by repeat constructor|]. by apply base32_groups_group. Qed.

Lemma base32_groups_length fuel num acc : (length (base32_groups fuel num acc) <= fuel + length acc)%nat.
Proof.
  revert num acc. induction fuel as [|fuel IH]; intros num acc; cbn [base32_groups]; [lia|].
  case_bool_decide; [|lia]. etrans; [apply IH|]. cbn. lia.
Qed.

Lemma uint64ToBase32_length num : (length (uint64ToBase32 num) <= 13)%nat.
Proof.
  unfold uint64ToBase32. case_bool_decide; [cbn; lia|]. etrans; [apply base32_groups_length|]. cbn. lia.
Qed.

Lemma uint64ToBase32_number num : in_u 64 num -> groups_number (uint64ToBase32 num) = num.
Proof.
  intros H. unfold in_u in H. unfold uint64ToBase32. case_bool_decide; [by subst|].
  apply base32_groups_number; [done|]. change (5 * Z.of_nat 13) with 65. lia.
Qed.

(** Numbers are read back, also behind leading zeros. *)
Lemma base32_roundtrip num k :
  in_u 64 num -> (k + length (uint64ToBase32 num) <= 13)%nat ->
  base32ToUint64 (replicate k x00 ++ uint64ToBase32 num) = Ok num.
Proof.
  intros Hn Hl. unfold base32ToUint64. rewrite bool_decide_eq_false_2 by (rewrite length_app, length_replicate; lia).
  fold (groups_number (replicate k x00 ++ uint64ToBase32 num)).
  by rewrite groups_number_zeros, uint64ToBase32_number.
Qed.

Lemma base32ToUint64_uint64 num : in_u 64 num -> base32ToUint64 (uint64ToBase32 num) = Ok num.
Proof. intros H. apply (base32_roundtrip num 0); [done|]. pose proof (uint64ToBase32_length num). lia. Qed.

(** ** Tagged fields *)

Lemma length_groups n :
  0 <= n < 1024 ->
  replicate (2 - length (uint64ToBase32 n)) x00 ++ uint64ToBase32 n = [byte_of_Z (n / 32); byte_of_Z (n mod 32)].
Proof.
  assert (forallb (fun n => bool_decide (replicate (2 - length (uint64ToBase32 n)) x00 ++ uint64ToBase32 n =
    [byte_of_Z (n / 32); byte_of_Z (n mod 32)])) (seqZ 0 1024) = true) as H by (vm_compute; reflexivity).
  intros Hn. rewrite forallb_forall in H. specialize (H n ltac:(apply list_elem_of_In, elem_of_seqZ; lia)).
  by apply bool_decide_eq_true in H.
Qed.

Lemma base32_groups_grows fuel num acc : (length acc <= length (base32_groups fuel num acc))%nat.
Proof.
  revert num acc. induction fuel as [|fuel IH]; intros num acc; cbn [base32_groups]; [lia|].
  case_bool_decide; [|lia]. etrans; [|apply IH]. cbn. lia.
Qed.

Lemma base32_groups_step fuel num acc :
  0 < num -> base32_groups (S fuel) num acc = base32_groups fuel (num / 32) (byte_of_Z (Z.land num 31) :: acc).
Proof. intros. cbn [base32_groups]. by rewrite bool_decide_eq_true_2, Z.shiftr_div_pow2 by lia. Qed.

Lemma long_groups n : 1024 <= n -> (3 <= length (uint64ToBase32 n))%nat.
Proof.
  intros Hn. unfold uint64ToBase32. rewrite bool_decide_eq_false_2 by lia.
  pose proof (Z.div_str_pos n 32 ltac:(lia)). pose proof (Z.div_str_pos (n / 32) 32 ltac:(split; [lia|apply Z.div_le_lower_bound; lia])).
  rewrite (base32_groups_step 12), (base32_groups_step 11), (base32_groups_step 10) by lia.
  etrans; [|apply base32_groups_grows]. done.
Qed.

Lemma writeTaggedField_inv buf typ data buf' :
  writeTaggedField buf typ data = Ok buf' -> (length data < 1024)%nat /\ buf' = buf ++ field typ data.
Proof.
  unfold writeTaggedField. case_bool_decide as H; [done|]. intros [= <-].
  destruct (decide (length data < 1024)%nat) as [Hd|Hd].
  - split; [done|]. by rewrite length_groups by lia.
  - pose proof (long_groups (Z.of_nat (length data)) ltac:(lia)). rewrite length_app, length_replicate in H. lia.
Qed.

Lemma writeTaggedField_ok buf typ data :
  (length data < 1024)%nat -> writeTaggedField buf typ data = Ok (buf ++ field typ data).
Proof.
  intros Hd. unfold writeTaggedField. rewrite length_groups by lia. by rewrite bool_decide_eq_false_2 by (cbn; lia).
Qed.

Lemma field_groups typ data :
  0 <= typ < 32 -> (length data < 1024)%nat -> Forall group data -> Forall group (field typ data).
Proof.
  intros Ht Hl Hd. apply Forall_app_2; [|done]. pose proof (Z.mod_pos_bound (Z.of_nat (length data)) 32 ltac:(lia)).
  assert (0 <= Z.of_nat (length data) / 32 < 32) by (split; [apply Z.div_pos; lia|apply Z.div_lt_upper_bound; lia]).
  repeat constructor; unfold group; rewrite byte_of_small; lia.
Qed.

Section fields.
Context {BT : Btcec} {PL : PayLib}.

Lemma parse_next_field inv typ data rest net :
  0 <= typ < 256 -> (length data < 1024)%nat ->
  parse_next inv (field typ data ++ rest) net =
    obind (parse_field inv typ data net) (fun inv' => Ok (inv', rest)).
Proof.
  intros Ht Hl. unfold field. cbn [app parse_next parseFieldDataLength obind].
  set (n := Z.of_nat (length data)). pose proof (Z.div_mod n 32 ltac:(lia)). pose proof (Z.mod_pos_bound n 32 ltac:(lia)).
  assert (0 <= n / 32 < 32) by (split; [apply Z.div_pos; lia|apply Z.div_lt_upper_bound; lia]).
  rewrite (byte_of_small typ), !byte_of_small by lia.
  assert (Z.lor (u16 (Z.shiftl (n / 32) 5)) (n mod 32) = n) as ->.
  { rewrite Z.shiftl_mul_pow2 by lia. unfold u16. change (2 ^ 5) with 32. rewrite Z.mod_small by lia.
    rewrite Z.mul_comm, lor_low by lia. lia. }
  subst n. rewrite Nat2Z.id, length_app, bool_decide_eq_false_2 by lia.
  by rewrite take_app_length, drop_app_length.
Qed.

Lemma parse_next_shrinks inv fields net inv' rest :
  parse_next inv fields net = Ok (inv', rest) -> (length rest < length fields)%nat.
Proof.
  unfold parse_next. destruct fields as [|a [|b [|c fields]]]; [done..|]. cbn [parseFieldDataLength obind].
  case_bool_decide; [done|]. intros Hp. obind_inv Hp. injection Hp as <- <-. rewrite length_drop. cbn. lia.
Qed.

(** The fuel is enough. *)
Lemma parse_fields_fuel fuel inv fields net :
  (length fields <= fuel)%nat -> parse_fields fuel inv fields net = parseTaggedFields inv fields net.
Proof.
  unfold parseTaggedFields. revert inv fields. induction fuel as [fuel IH] using lt_wf_ind. intros inv fields Hf.
  destruct fields as [|b fields]; [by destruct fuel|]. destruct fuel as [|fuel]; [cbn in Hf; lia|].
  cbn [length parse_fields]. destruct (parse_next inv (b :: fields) net) as [[inv' rest]| |] eqn:E; [|done..].
  apply parse_next_shrinks in E. cbn in *. by rewrite (IH fuel), (IH (length fields)) by lia.
Qed.

(** The loop reads one field and goes on with the rest. *)
Lemma parseTaggedFields_field inv typ data rest net :
  0 <= typ < 256 -> (length data < 1024)%nat ->
  parseTaggedFields inv (field typ data ++ rest) net =
    obind (parse_field inv typ data net) (fun inv' => parseTaggedFields inv' rest net).
Proof.
  intros Ht Hl. unfold parseTaggedFields at 1. pose proof (parse_next_field inv typ data rest net Ht Hl) as Hn.
  destruct (field typ data ++ rest) as [|b fs] eqn:E; [done|]. cbn [length parse_fields]. rewrite Hn.
  destruct (parse_field inv typ data net) as [inv'| |]; [|done..]. cbn [obind]. apply parse_fields_fuel.
  apply (f_equal length) in E. unfold field in E. rewrite !length_app in E. cbn in E. lia.
Qed.

End fields.
