(* ===== verification/PayFields.v ===== *)
(** * The tagged fields of a payment request, written and read back

    For each field, what the encoder appends to its buffer makes the loop of the decoder
    set that field and go on behind it. *)

From Stdlib Require Import ZArith Lia String.
From S2P Require Import Prelude Wire Features Amounts Signature GoText Bech32 PayAmount.
From S2P Require Import PayInvoice PayCodec.

Local Open Scope Z_scope.
Local Open Scope go_scope.

Section wf.
Context {BT : Btcec} {PL : PayLib}.

(** ** What the fields may hold *)

(** A duration of whole seconds that fits a [time.Duration]. *)
Definition whole_seconds (d : Z) : Prop := exists s, 0 <= s <= 9223372036 /\ d = s * Second.

(** An address of the network, of one of the four types that can be encoded. *)
Definition addr_for (net : params) (a : Address) : Prop :=
  exists h, NewAddressPubKeyHash h net = Some a \/ NewAddressScriptHashFromHash h net = Some a \/
            NewAddressWitnessPubKeyHash h net = Some a \/ NewAddressWitnessScriptHash h net = Some a.

Definition hop_hint_wf (h : HopHint) : Prop :=
  is_Some (NodeID h) /\ in_u 64 (ChannelID h) /\ in_u 32 (FeeBaseMSat h) /\
  in_u 32 (FeeProportionalMillionths h) /\ in_u 16 (CLTVExpiryDelta h).

(** [f] is read as the update [upd] of an invoice that satisfies [fresh]. *)
Definition reads (net : params) (f : list byte) (fresh : Invoice.t -> Prop) (upd : Invoice.t -> Invoice.t) : Prop :=
  Forall group f /\
  forall inv rest, fresh inv ->
    parseTaggedFields inv (f ++ rest) net = parseTaggedFields (upd inv) rest net.

(** A step of the encoder appends what the decoder reads as [upd]. *)
Definition writes_as (net : params) (w : list byte -> outcome pay_err (list byte)) (fresh : Invoice.t -> Prop)
    (upd : Invoice.t -> Invoice.t) : Prop :=
  forall buf buf', w buf = Ok buf' -> exists f, buf' = buf ++ f /\ reads net f fresh upd.

(** Data [data] under the type [typ] is read as the update [upd]. *)
Definition data_reads (net : params) (typ : Z) (data : list byte) (fresh : Invoice.t -> Prop) (upd : Invoice.t -> Invoice.t) : Prop :=
  Forall group data /\ forall inv, fresh inv -> parse_field inv typ data net = Ok (upd inv).

End wf.

Lemma Ok_eq {E A} (a b : A) : Ok (E := E) a = Ok b -> a = b.
Proof. by intros [= ->]. Qed.

Lemma copy_at_zeros a n src :
  (length src <= n)%nat ->
  copy_at (a ++ replicate n x00) (length a) src = (a ++ src) ++ replicate (n - length src) x00.
Proof.
  intros Hn. replace n with (length src + (n - length src))%nat at 1 by lia. rewrite replicate_add.
  rewrite copy_at_exact by (done || by rewrite length_replicate). by rewrite (assoc (++)).
Qed.

Lemma copy_at_off a n src off m :
  off = length a -> (m + length src = n)%nat -> copy_at (a ++ replicate n x00) off src = (a ++ src) ++ replicate m x00.
Proof. intros -> <-. rewrite copy_at_zeros by lia. by rewrite Nat.add_sub. Qed.

Lemma slice_at (a b c : list byte) n m : length a = n -> length b = m -> take m (drop n (a ++ b ++ c)) = b.
Proof. intros <- <-. by rewrite drop_app_length, take_app_length. Qed.

Lemma slice_app (a b : list byte) n : length a = n -> take n (a ++ b) = a.
Proof. intros <-. apply take_app_length. Qed.

Section fields.
Context {BT : Btcec} {PL : PayLib} {BL : BtcecLaws} {LA : PayLaws}.

Lemma field_reads net typ data fresh upd :
  0 <= typ < 32 -> (length data < 1024)%nat -> data_reads net typ data fresh upd ->
  reads net (field typ data) fresh upd.
Proof.
  intros Ht Hl [Hg Hp]. split; [by apply field_groups|]. intros inv rest Hf.
  rewrite parseTaggedFields_field by (done || lia). by rewrite Hp.
Qed.

Lemma write_field_reads net typ data fresh upd :
  0 <= typ < 32 -> data_reads net typ data fresh upd ->
  writes_as net (fun buf => writeTaggedField buf typ data) fresh upd.
Proof.
  intros Ht Hd buf buf' [Hl ->]%writeTaggedField_inv. exists (field typ data). split; [done|]. by apply field_reads.
Qed.

Lemma reads_nil net fresh upd : (forall inv, fresh inv -> upd inv = inv) -> reads net [] fresh upd.
Proof. intros H. split; [done|]. intros inv rest Hf. by rewrite H. Qed.

(** A field that may be absent. *)
Lemma when_set_writes {A} net (v : option A) write (get : Invoice.t -> option A) set :
  (forall inv, get inv = None -> set None inv = inv) ->
  (forall a, v = Some a -> writes_as net (write a) (fun inv => get inv = None) (set (Some a))) ->
  writes_as net (when_set v write) (fun inv => get inv = None) (set v).
Proof.
  intros Hset Hw buf buf' H. destruct v as [a|]; cbn in H.
  - by eapply Hw.
  - injection H as <-. exists []. split; [by rewrite app_nil_r|]. by apply reads_nil.
Qed.

Lemma copy_at_all n src : length src = n -> copy_at (replicate n x00) 0 src = src.
Proof.
  intros Hn. pose proof (copy_at_zeros [] n src) as H. cbn [app length] in H. rewrite H by lia.
  rewrite Hn, Nat.sub_diag. apply app_nil_r.
Qed.

(** 32 bytes. *)
Lemma bytes32_reads h :
  length h = 32%nat ->
  exists gs, ConvertBits h 8 5 true = Some gs /\ Forall group gs /\ parse32Bytes gs = Ok (Some h).
Proof.
  intros Hh. destruct (ConvertBits_roundtrip h) as (gs & k & Hc & Hg & Hr & Hk & Hl). exists gs. split; [done|]. split; [done|].
  unfold parse32Bytes. rewrite bool_decide_eq_false_2 by (unfold hashBase32Len; lia). rewrite Hr. cbn [convert obind].
  by rewrite copy_at_all.
Qed.

Lemma writeBytes32_writes net typ h fresh upd :
  0 <= typ < 32 -> length h = 32%nat ->
  (forall inv data, fresh inv -> parse32Bytes data = Ok (Some h) -> parse_field inv typ data net = Ok (upd inv)) ->
  writes_as net (fun buf => writeBytes32 buf typ h) fresh upd.
Proof.
  intros Ht Hh Hp. destruct (bytes32_reads h Hh) as (gs & Hc & Hg & Hr).
  unfold writeBytes32. rewrite Hc. cbn [convert obind]. apply write_field_reads; [done|]. split; [done|]. eauto.
Qed.

Lemma once {A} (seen : option A) parse set inv v :
  seen = None -> parse = Ok (Some v) -> parse_once seen parse set inv = Ok (set (Some v) inv).
Proof. by intros -> ->. Qed.

Lemma PaymentHash_writes net v :
  (forall h, v = Some h -> length h = 32%nat) ->
  writes_as net (when_set v (fun h buf => writeBytes32 buf fieldTypeP h))
    (fun inv => Invoice.PaymentHash inv = None) (Invoice.set_PaymentHash v).
Proof.
  intros Hv. apply when_set_writes; [by intros [] ?; cbn in *; subst|]. intros h Hh.
  apply writeBytes32_writes; [done|by apply Hv|]. intros inv data Hi Hp. by apply (once (Invoice.PaymentHash inv) (parse32Bytes data)).
Qed.

Lemma DescriptionHash_writes net v :
  (forall h, v = Some h -> length h = 32%nat) ->
  writes_as net (when_set v (fun h buf => writeBytes32 buf fieldTypeH h))
    (fun inv => Invoice.DescriptionHash inv = None) (Invoice.set_DescriptionHash v).
Proof.
  intros Hv. apply when_set_writes; [by intros [] ?; cbn in *; subst|]. intros h Hh.
  apply writeBytes32_writes; [done|by apply Hv|]. intros inv data Hi Hp. by apply (once (Invoice.DescriptionHash inv) (parse32Bytes data)).
Qed.

Lemma PaymentAddr_writes net v :
  (forall h, v = Some h -> length h = 32%nat) ->
  writes_as net (when_set v (fun h buf => writeBytes32 buf fieldTypeS h))
    (fun inv => Invoice.PaymentAddr inv = None) (Invoice.set_PaymentAddr v).
Proof.
  intros Hv. apply when_set_writes; [by intros [] ?; cbn in *; subst|]. intros h Hh.
  apply writeBytes32_writes; [done|by apply Hv|]. intros inv data Hi Hp. by apply (once (Invoice.PaymentAddr inv) (parse32Bytes data)).
Qed.

Lemma Description_writes net v :
  writes_as net (when_set v (fun d buf =>
      base32 <~ convert (ConvertBits d 8 5 true) ; writeTaggedField buf fieldTypeD base32))
    (fun inv => Invoice.Description inv = None) (Invoice.set_Description v).
Proof.
  apply when_set_writes; [by intros [] ?; cbn in *; subst|]. intros d _.
  destruct (ConvertBits_roundtrip d) as (gs & k & Hc & Hg & Hr & _). rewrite Hc. cbn [convert obind].
  apply write_field_reads; [done|]. split; [done|]. intros inv Hi.
  apply (once (Invoice.Description inv) (parseDescription gs)); [done|]. unfold parseDescription. by rewrite Hr.
Qed.

Lemma minFinalCLTVExpiry_writes net v :
  (forall d, v = Some d -> in_u 64 d) ->
  writes_as net (when_set v (fun delta buf => writeTaggedField buf fieldTypeC (uint64ToBase32 delta)))
    (fun inv => Invoice.minFinalCLTVExpiry inv = None) (Invoice.set_minFinalCLTVExpiry v).
Proof.
  intros Hv. apply when_set_writes; [by intros [] ?; cbn in *; subst|]. intros d Hd.
  apply write_field_reads; [done|]. split; [apply uint64ToBase32_group|]. intros inv Hi.
  apply (once (Invoice.minFinalCLTVExpiry inv) (parseMinFinalCLTVExpiry (uint64ToBase32 d))); [done|].
  unfold parseMinFinalCLTVExpiry. by rewrite base32ToUint64_uint64 by (by apply Hv).
Qed.

Lemma AssetId_writes net v :
  (forall a, v = Some a -> in_u 32 a) ->
  writes_as net (when_set v (fun assetId buf => writeTaggedField buf fieldTypeA (uint64ToBase32 assetId)))
    (fun inv => Invoice.AssetId inv = None) (Invoice.set_AssetId v).
Proof.
  intros Hv. apply when_set_writes; [by intros [] ?; cbn in *; subst|]. intros a Ha%Hv. unfold in_u in Ha.
  apply write_field_reads; [done|]. split; [apply uint64ToBase32_group|]. intros inv Hi.
  apply (once (Invoice.AssetId inv) (parseAssetId (uint64ToBase32 a))); [done|].
  unfold parseAssetId. rewrite base32ToUint64_uint64 by (unfold in_u; lia). cbn. unfold u32. by rewrite Z.mod_small.
Qed.

(** Whole seconds survive the conversions through [float64]. *)
Lemma expiry_seconds d :
  whole_seconds d ->
  exists s, uint64_of_float (Seconds d) = s /\ in_u 64 s /\ i64 (i64 s * Second) = d.
Proof.
  intros (s & Hs & ->). exists s. unfold uint64_of_float. rewrite Seconds_whole, bool_decide_eq_true_2 by lia.
  split; [done|]. split; [unfold in_u; lia|]. rewrite (i64_id s), i64_id by (unfold in_i64, Second; lia). done.
Qed.

Lemma expiry_writes net v :
  (forall d, v = Some d -> whole_seconds d) ->
  writes_as net (when_set v (fun expiry buf =>
      let seconds := Seconds expiry in
      writeTaggedField buf fieldTypeX (uint64ToBase32 (uint64_of_float seconds))))
    (fun inv => Invoice.expiry inv = None) (Invoice.set_expiry v).
Proof.
  intros Hv. apply when_set_writes; [by intros [] ?; cbn in *; subst|]. intros d Hd%Hv. cbv zeta.
  destruct (expiry_seconds d Hd) as (s & -> & Hs & He).
  apply write_field_reads; [done|]. split; [apply uint64ToBase32_group|]. intros inv Hi.
  apply (once (Invoice.expiry inv) (parseExpiry (uint64ToBase32 s))); [done|].
  unfold parseExpiry. rewrite base32ToUint64_uint64 by done. cbn [obind]. by rewrite He.
Qed.

Lemma Destination_writes net v :
  writes_as net (when_set v (fun destination buf =>
      pubKeyBase32 <~ convert (ConvertBits (SerializeCompressed destination) 8 5 true) ;
      if bool_decide (length pubKeyBase32 <> pubKeyBase32Len) then Err ErrPubKeyLength
      else writeTaggedField buf fieldTypeN pubKeyBase32))
    (fun inv => Invoice.Destination inv = None) (Invoice.set_Destination v).
Proof.
  apply when_set_writes; [by intros [] ?; cbn in *; subst|]. intros key _.
  destruct (ConvertBits_roundtrip (SerializeCompressed key)) as (gs & k & Hc & Hg & Hr & Hk & Hl). rewrite Hc. cbn [convert obind].
  rewrite serialize_length in Hl. assert (length gs = pubKeyBase32Len) as Hgs by (unfold pubKeyBase32Len; lia).
  rewrite bool_decide_eq_false_2 by tauto. apply write_field_reads; [done|]. split; [done|]. intros inv Hi.
  apply (once (Invoice.Destination inv) (parseDestination gs)); [done|]. unfold parseDestination.
  rewrite bool_decide_eq_false_2 by tauto. rewrite Hr. cbn. unfold parsePubKey. by rewrite parse_serialize.
Qed.

(** The version group and the program of an address. *)
Lemma fallback_reads net a :
  addr_for net a ->
  exists v gs, fallback_version a = Ok v /\ ConvertBits (ScriptAddress a) 8 5 true = Some gs /\
    Forall group (v :: gs) /\ parseFallbackAddr (v :: gs) net = Ok (Some a).
Proof.
  intros (h & Ha). destruct (ConvertBits_roundtrip h) as (gs & k & Hc & Hg & Hr & Hk & Hl).
  assert (exists v n, fallback_version a = Ok v /\ group v /\ ScriptAddress a = h /\ length h = S n /\
    forall g gs', gs = g :: gs' -> parseFallbackAddr (v :: gs) net = Ok (Some a)) as (v & n & Hv & Hgv & Hs & Hn & Hp).
  { destruct Ha as [Ha|[Ha|[Ha|Ha]]].
    - destruct (AddressPubKeyHash_spec _ _ _ Ha) as (Hk' & Hs & Hh). exists (byte_of_Z 17), 19%nat. unfold fallback_version.
      rewrite Hk'. split_and!; [done..|]. intros g gs' ->. cbn -[ConvertBits]. by rewrite Hr; cbn; rewrite Ha.
    - destruct (AddressScriptHash_spec _ _ _ Ha) as (Hk' & Hs & Hh). exists (byte_of_Z 18), 19%nat. unfold fallback_version.
      rewrite Hk'. split_and!; [done..|]. intros g gs' ->. cbn -[ConvertBits]. by rewrite Hr; cbn; rewrite Ha.
    - destruct (AddressWitnessPubKeyHash_spec _ _ _ Ha) as (Hk' & Hs & Hh & Hw). exists x00, 19%nat. unfold fallback_version.
      rewrite Hk', Hw. split_and!; [done..|]. intros g gs' ->. cbn -[ConvertBits]. rewrite Hr. cbn. rewrite Hh. cbn. by rewrite Ha.
    - destruct (AddressWitnessScriptHash_spec _ _ _ Ha) as (Hk' & Hs & Hh & Hw). exists x00, 31%nat. unfold fallback_version.
      rewrite Hk', Hw. split_and!; [done..|]. intros g gs' ->. cbn -[ConvertBits]. rewrite Hr. cbn. rewrite Hh. cbn. by rewrite Ha. }
  exists v, gs. rewrite Hs. split; [done|]. split; [done|]. split; [by constructor|].
  destruct gs as [|g gs']; [cbn in Hl; lia|]. by eapply Hp.
Qed.

Lemma FallbackAddr_writes net v :
  (forall a, v = Some a -> addr_for net a) ->
  writes_as net (when_set v (fun addr buf =>
      version <~ fallback_version addr ;
      base32Addr <~ convert (ConvertBits (ScriptAddress addr) 8 5 true) ;
      writeTaggedField buf fieldTypeF ([version] ++ base32Addr)))
    (fun inv => Invoice.FallbackAddr inv = None) (Invoice.set_FallbackAddr v).
Proof.
  intros Hv. apply when_set_writes; [by intros [] ?; cbn in *; subst|]. intros a Ha%Hv.
  destruct (fallback_reads net a Ha) as (w & gs & -> & -> & Hg & Hp). cbn [convert obind].
  apply write_field_reads; [done|]. split; [done|]. intros inv Hi.
  by apply (once (Invoice.FallbackAddr inv) (parseFallbackAddr ([w] ++ gs) net)).
Qed.

(** *** Route hints *)

Lemma hop_hint_bytes_eq h key :
  NodeID h = Some key ->
  hop_hint_bytes h = Ok (SerializeCompressed key ++ be_put 8 (ChannelID h) ++ be_put 4 (FeeBaseMSat h) ++
    be_put 4 (FeeProportionalMillionths h) ++ be_put 2 (CLTVExpiryDelta h)).
Proof.
  intros Hk. unfold hop_hint_bytes. rewrite Hk. f_equal. pose proof (serialize_length key) as Hs.
  rewrite (take_ge _ 33) by lia. set (k := SerializeCompressed key) in *.
  change (replicate hopHintLen x00) with ([] ++ replicate 51 x00).
  rewrite (copy_at_off [] 51 k 0 18), (copy_at_off _ 18 _ 33 10), (copy_at_off _ 10 _ 41 6), (copy_at_off _ 6 _ 45 2),
    (copy_at_off _ 2 _ 49 0) by (rewrite ?length_app, ?length_be_put, ?Hs; done).
  cbn [replicate app]. by rewrite app_nil_r, <- !(assoc (++)).
Qed.

Lemma length_hop_hint h b : is_Some (NodeID h) -> hop_hint_bytes h = Ok b -> length b = hopHintLen.
Proof.
  intros [key Hk]. rewrite (hop_hint_bytes_eq h key) by done. intros <-%Ok_eq.
  by rewrite !length_app, !length_be_put, serialize_length.
Qed.

Lemma parse_hop_hint_bytes h b rest :
  hop_hint_wf h -> hop_hint_bytes h = Ok b -> parse_hop_hint (b ++ rest) = Ok h.
Proof.
  intros ([key Hk] & Hc & Hb & Hp & Hd). rewrite (hop_hint_bytes_eq h key) by done. intros <-%Ok_eq.
  pose proof (serialize_length key) as Hs. rewrite <- !app_assoc. unfold parse_hop_hint, parsePubKey.
  set (c := be_put 8 _). set (f := be_put 4 (FeeBaseMSat h)). set (p := be_put 4 (FeeProportionalMillionths h)).
  set (d := be_put 2 _). set (k := SerializeCompressed key) in *.
  rewrite (slice_at k c (f ++ p ++ d ++ rest) 33 8) by (done || apply length_be_put).
  rewrite (slice_app k (c ++ f ++ p ++ d ++ rest) 33), (app_assoc k c), (slice_at (k ++ c) f (p ++ d ++ rest) 41 4),
    (app_assoc (k ++ c) f), (slice_at ((k ++ c) ++ f) p (d ++ rest) 45 4), (app_assoc ((k ++ c) ++ f) p),
    (slice_at (((k ++ c) ++ f) ++ p) d rest 49 2) by (rewrite ?length_app, ?Hs; done).
  subst k c f p d. rewrite parse_serialize. cbn [obind].
  rewrite !be_get_put. unfold in_u in *. rewrite !Z.mod_small by (cbn; lia). rewrite <- Hk. by destruct h.
Qed.

Lemma route_hint_length hs b :
  Forall hop_hint_wf hs -> route_hint_bytes hs = Ok b -> length b = (length hs * hopHintLen)%nat.
Proof.
  intros Hw. revert b. induction Hw as [|h hs Hh _ IH]; intros b H; cbn in H; [by injection H as <-|].
  obind_inv H. obind_inv H. injection H as <-. rewrite length_app, (length_hop_hint h a) by (done || apply Hh).
  rewrite (IH a0) by done. cbn. lia.
Qed.

Lemma parse_hop_hints_bytes hs b :
  Forall hop_hint_wf hs -> route_hint_bytes hs = Ok b -> parse_hop_hints (length hs) b = Ok hs.
Proof.
  intros Hw. revert b. induction Hw as [|h hs Hh _ IH]; intros b H; cbn in H; [done|].
  obind_inv H. obind_inv H. injection H as <-. cbn [length parse_hop_hints].
  rewrite (parse_hop_hint_bytes h a a0) by done. cbn [obind].
  rewrite drop_app_length' by (symmetry; apply (length_hop_hint h a); [apply Hh|done]). by rewrite IH.
Qed.

Lemma route_hint_reads hs b :
  Forall hop_hint_wf hs -> route_hint_bytes hs = Ok b ->
  exists gs, ConvertBits b 8 5 true = Some gs /\ Forall group gs /\ parseRouteHint gs = Ok hs.
Proof.
  intros Hw Hb. destruct (ConvertBits_roundtrip b) as (gs & k & Hc & Hg & Hr & _). exists gs. split; [done|]. split; [done|].
  unfold parseRouteHint. rewrite Hr. cbn [convert obind]. rewrite (route_hint_length hs b) by done.
  rewrite Nat.Div0.mod_mul, bool_decide_eq_false_2, Nat.div_mul by (done || tauto). by apply parse_hop_hints_bytes.
Qed.

Lemma RouteHints_writes net hints :
  Forall (Forall hop_hint_wf) hints ->
  writes_as net (write_route_hints hints) (fun _ => True)
    (fun inv => Invoice.set_RouteHints (Invoice.RouteHints inv ++ hints) inv).
Proof.
  induction 1 as [|hs hints Hhs _ IH]; intros buf buf' H; cbn in H.
  - injection H as <-. exists []. split; [by rewrite app_nil_r|]. apply reads_nil. intros inv _. rewrite app_nil_r. by destruct inv.
  - obind_inv H. destruct (route_hint_reads hs a) as (gs & Hc & Hg & Hr); [done..|]. rewrite Hc in H. cbn [convert obind] in H.
    obind_inv H. apply writeTaggedField_inv in Hstep0 as [Hl ->]. apply IH in H as (f & -> & Hf & Hp).
    exists (field fieldTypeR gs ++ f). split; [by rewrite <- app_assoc|]. split.
    { apply Forall_app_2; [by apply field_groups|done]. }
    intros inv rest _. rewrite <- app_assoc, parseTaggedFields_field by done.
    change (parse_field inv fieldTypeR gs net) with
      (obind (parseRouteHint gs) (fun r => Ok (Invoice.set_RouteHints (Invoice.RouteHints inv ++ [r]) inv))).
    rewrite Hr. cbn [obind]. rewrite Hp by done. cbn. by rewrite <- app_assoc.
Qed.

(** *** Features *)

Lemma group_lor_bit b k : group b -> 0 <= k < 5 -> group (byte_of_Z (Z.lor (byte_Z b) (Z.shiftl 1 k))).
Proof.
  assert (forallb (fun b => forallb (fun k => bool_decide (byte_Z (byte_of_Z (Z.lor b (Z.shiftl 1 k))) < 32)) (seqZ 0 5)) (seqZ 0 32)
    = true) as H by (vm_compute; reflexivity).
  unfold group. intros Hb Hk. pose proof (byte_Z_range b). rewrite forallb_forall in H.
  specialize (H (byte_Z b) ltac:(apply list_elem_of_In, elem_of_seqZ; lia)). rewrite forallb_forall in H.
  specialize (H k ltac:(apply list_elem_of_In, elem_of_seqZ; lia)). by apply bool_decide_eq_true in H.
Qed.

Lemma encode_bits_groups len data order data' :
  Forall (fun f => 0 <= f) order -> Forall group data -> Raw.encode_bits len 5 data order = Ok data' -> Forall group data'.
Proof.
  intros Ho. revert data. induction Ho as [|f order Hf _ IH]; intros data Hd H; cbn in H; [by injection H as <-|].
  obind_inv H. apply (IH a); [|done]. unfold Raw.encode_bit in Hstep. case_bool_decide; [done|].
  destruct (data !! _) as [b|] eqn:E; [|done]. injection Hstep as <-. apply Forall_insert; [done|].
  apply group_lor_bit; [by eapply Forall_lookup_1|]. rewrite Z.rem_mod_nonneg by lia. apply Z.mod_pos_bound. lia.
Qed.

Lemma features_groups order fv data :
  RawFacts.wf fv -> order ≡ₚ elements fv -> Raw.EncodeBase32 order = Ok data -> Forall group data.
Proof.
  intros Hwf Ho. apply encode_bits_groups; [|by apply Forall_replicate]. apply Forall_forall. intros f Hf.
  rewrite Ho, elem_of_elements in Hf. apply Hwf in Hf. unfold in_u in Hf. lia.
Qed.

Lemma Features_writes net order fv :
  RawFacts.wf fv -> order ≡ₚ elements fv ->
  writes_as net (write_features order) (fun inv => Invoice.Features inv = None)
    (Invoice.set_Features (if bool_decide (Raw.SerializeSize32 order > 0)
                           then Some (Vector.NewFeatureVector (Some fv) Features) else None)).
Proof.
  intros Hwf Ho buf buf' H. unfold write_features in H. case_bool_decide as Hs.
  - destruct (RawFacts.decode_encode fv order 5) as (data & E & Hl & Hd); [lia|done..|].
    unfold Raw.EncodeBase32, Raw.SerializeSize32 in H. rewrite E in H. cbn [lift obind] in H.
    apply writeTaggedField_inv in H as [Hlen ->]. exists (field fieldType9 data). split; [done|].
    apply field_reads; [done..|]. split; [by apply (features_groups order fv)|]. intros inv Hi.
    apply (once (Invoice.Features inv) (parseFeatures data)); [done|]. unfold parseFeatures, Raw.DecodeBase32, Raw.decode, rbind.
    rewrite Nat2Z.id. pose proof (ReadFull_app data []) as Hrf. rewrite app_nil_r in Hrf. rewrite Hrf.
    unfold rret. change (Raw.New []) with (∅ : gset Z). by rewrite Hd.
  - injection H as <-. exists []. split; [by rewrite app_nil_r|]. apply reads_nil. intros [] Hi. cbn in Hi. by subst.
Qed.

End fields.
