(* ===== verification/PayRequest.v ===== *)
(** * A payment request, written and read back

    What [Encode] returns, taken apart, and what [Decode] makes of such a string.

    The last part shows that encoding returns for every well-formed request. *)

From Stdlib Require Import ZArith Lia String.
From S2P Require Import Prelude Wire Features Amounts Signature GoText Bech32 PayAmount.
From S2P Require Import PayInvoice PayCodec PayFields.

Local Open Scope Z_scope.
Local Open Scope go_scope.

Section request.
Context {BT : Btcec} {PL : PayLib}.

(** An invoice for [net] whose fields are in the range of their types, whose expiry is a
    number of whole seconds, and whose features have the known names. *)
Record invoice_wf (order : list Z) (net : params) (inv : Invoice.t) : Prop := {
  wf_net : Invoice.Net inv = Some net;
  wf_asset : forall aid, Invoice.AssetId inv = Some aid -> in_u 32 aid;
  wf_time : in_i64 (Unix (Invoice.Timestamp inv));
  wf_addr : forall a, Invoice.PaymentAddr inv = Some a -> length a = 32%nat;
  wf_cltv : forall d, Invoice.minFinalCLTVExpiry inv = Some d -> in_u 64 d;
  wf_expiry : forall d, Invoice.expiry inv = Some d -> whole_seconds d;
  wf_fallback : forall a, Invoice.FallbackAddr inv = Some a -> addr_for net a;
  wf_hints : Forall (Forall hop_hint_wf) (Invoice.RouteHints inv);
  wf_features : exists v, Invoice.Features inv = Some v /\ RawFacts.wf (Vector.raw v) /\
                  order ≡ₚ elements (Vector.raw v) /\ Vector.featureNames v = Features;
}.

(** A signer of the node with the key [key]: 65 bytes, a header and a signature from
    which the key is recovered. *)
Definition signs_for (signer : list byte -> option (list byte)) (key : pubkey) : Prop :=
  forall msg sign, signer msg = Some sign ->
    length sign = 65%nat /\ RecoverCompact sign (HashB msg) = Some key.

(** The invoice a reader gets: the time in whole seconds, and a destination. *)
Definition received (key : pubkey) (amt : option Z) (inv : Invoice.t) : Invoice.t :=
  Invoice.set_MilliSat amt
    (Invoice.set_Timestamp (mkTime (Unix (Invoice.Timestamp inv)) 0)
      (Invoice.set_Destination (Some (default key (Invoice.Destination inv))) inv)).

(** The invoice after the tagged fields have been read. *)
Definition parsed (net : params) (inv : Invoice.t) (features : option Vector.t) : Invoice.t :=
  {| Invoice.Net := Some net; Invoice.MilliSat := None; Invoice.AssetId := Invoice.AssetId inv;
     Invoice.Timestamp := mkTime (Unix (Invoice.Timestamp inv)) 0;
     Invoice.PaymentHash := Invoice.PaymentHash inv; Invoice.PaymentAddr := Invoice.PaymentAddr inv;
     Invoice.Destination := Invoice.Destination inv;
     Invoice.minFinalCLTVExpiry := Invoice.minFinalCLTVExpiry inv;
     Invoice.Description := Invoice.Description inv; Invoice.DescriptionHash := Invoice.DescriptionHash inv;
     Invoice.expiry := Invoice.expiry inv; Invoice.FallbackAddr := Invoice.FallbackAddr inv;
     Invoice.RouteHints := Invoice.RouteHints inv; Invoice.Features := features |}.

(** What [Decode] does after the human-readable part and the data have been split. *)
Definition finish (hash sig : list byte) (recoveryID : byte) (d : Invoice.t) : outcome pay_err Invoice.t :=
  d <~ decode_signature hash sig recoveryID d ;
  let d := match Invoice.Features d with
           | None => Invoice.set_Features (Some (Vector.NewFeatureVector None Features)) d
           | Some _ => d
           end in
  _ <~ validateInvoice d ; Ok d.

(** *** The parts of an encoded payment request *)

Definition timestamp_groups (t : Z) : list byte :=
  let t32 := uint64ToBase32 (u64 t) in replicate (timestampBase32Len - length t32) x00 ++ t32.

Definition the_hrp (pre : gostring) (aid : Z) (am : gostring) : gostring :=
  str "ob" ++ pre ++ FormatInt aid ++ ":"%byte :: am.

Definition recovery_id (h : byte) : byte := byte_of_Z (u8 (byte_Z h - 27 - 4)).

(** A string that has been encoded: its parts and the checks that were passed. *)
Record encoding (order : list Z) (orderMSat orderAmt : units) (signer : list byte -> option (list byte)) (net : params) (inv : Invoice.t)
    (s pre am data tagged sig gsig : list byte) (aid : Z) (h : byte) : Prop := {
  enc_valid : validateInvoice inv = Ok tt;
  enc_pre : getObdHrpPre net = Ok pre;
  enc_asset : Invoice.AssetId inv = Some aid;
  enc_amount : match Invoice.MilliSat inv with
               | None => am = [] | Some amt => encodeAmt orderMSat orderAmt amt aid = Ok am end;
  enc_time : (length (uint64ToBase32 (u64 (Unix (Invoice.Timestamp inv)))) <= timestampBase32Len)%nat;
  enc_data : writeTaggedFields order (timestamp_groups (Unix (Invoice.Timestamp inv))) inv = Ok data;
  enc_tagged : ConvertBits data 5 8 true = Some tagged;
  enc_sign : signer (the_hrp pre aid am ++ tagged) = Some (h :: sig);
  enc_len : length sig = 64%nat;
  enc_verified : forall d, Invoice.Destination inv = Some d ->
    exists sg, ToSignature sig = Some sg /\ Verify sg (HashB (the_hrp pre aid am ++ tagged)) d = true;
  enc_sigbits : ConvertBits (sig ++ [recovery_id h]) 8 5 true = Some gsig;
  enc_string : Bech32Encode (the_hrp pre aid am) (data ++ gsig) = Some s;
  enc_max : (length s <= maxInvoiceLength)%nat;
}.

End request.

Section decode.
Context {BT : Btcec} {PL : PayLib} {BL : BtcecLaws} {LA : PayLaws}.

(** ** Tagged fields *)

Lemma reads_seq net f g fresh upd inv rest inv' :
  reads net f fresh upd -> fresh inv -> parseTaggedFields (upd inv) (g ++ rest) net = inv' ->
  parseTaggedFields inv ((f ++ g) ++ rest) net = inv'.
Proof. intros [_ H] Hf <-. by rewrite <- app_assoc, H. Qed.

Lemma validate_hashes inv :
  validateInvoice inv = Ok tt ->
  (forall h, Invoice.PaymentHash inv = Some h -> length h = 32%nat) /\
  (forall h, Invoice.DescriptionHash inv = Some h -> length h = 32%nat).
Proof.
  unfold validateInvoice. destruct (Invoice.Net inv); [|done]. destruct (Invoice.PaymentHash inv); [|done].
  do 3 (case_bool_decide; [done|]). destruct (Invoice.DescriptionHash inv) as [dh|].
  - case_bool_decide; [done|]. intros _. split; by intros ? [= <-].
  - intros _. split; [by intros ? [= <-]|done].
Qed.

(** The fields that are written are read as the fields of the invoice, on any network its
    fallback address is for. *)
Lemma tagged_fields_read order net net' inv ts buf buf' :
  invoice_wf order net inv -> (forall a, Invoice.FallbackAddr inv = Some a -> addr_for net' a) ->
  validateInvoice inv = Ok tt -> writeTaggedFields order buf inv = Ok buf' ->
  exists fs, buf' = buf ++ fs /\ Forall group fs /\
    parseTaggedFields (Invoice.set_Timestamp ts (Invoice.set_Net (Some net') Invoice.empty)) fs net' =
    Ok (Invoice.set_Timestamp ts (parsed net' inv (if bool_decide (Raw.SerializeSize32 order > 0)
          then Invoice.Features inv else None))).
Proof.
  intros Hwf Haddr [Hph Hdh]%validate_hashes H. destruct (wf_features _ _ _ Hwf) as (v & Hv & Hfw & Ho & Hnames).
  unfold writeTaggedFields in H. rewrite Hv in H |- *.
  obind_inv H. apply (PaymentHash_writes net') in Hstep as (f1 & -> & G1 & R1); [|exact Hph].
  obind_inv H. apply (Description_writes net') in Hstep as (f2 & -> & G2 & R2).
  obind_inv H. apply (DescriptionHash_writes net') in Hstep as (f3 & -> & G3 & R3); [|exact Hdh].
  obind_inv H. apply (minFinalCLTVExpiry_writes net') in Hstep as (f4 & -> & G4 & R4); [|apply Hwf].
  obind_inv H. apply (expiry_writes net') in Hstep as (f5 & -> & G5 & R5); [|apply Hwf].
  obind_inv H. apply (AssetId_writes net') in Hstep as (f6 & -> & G6 & R6); [|apply Hwf].
  obind_inv H. apply (FallbackAddr_writes net') in Hstep as (f7 & -> & G7 & R7); [|exact Haddr].
  obind_inv H. apply (RouteHints_writes net') in Hstep as (f8 & -> & G8 & R8); [|apply Hwf].
  obind_inv H. apply (Destination_writes net') in Hstep as (f9 & -> & G9 & R9).
  obind_inv H. apply (PaymentAddr_writes net') in Hstep as (f10 & -> & G10 & R10); [|apply Hwf].
  destruct (Features_writes net' order (Vector.raw v) Hfw Ho _ _ H) as (f11 & -> & G11 & R11).
  exists (f1 ++ f2 ++ f3 ++ f4 ++ f5 ++ f6 ++ f7 ++ f8 ++ f9 ++ f10 ++ f11 ++ []).
  split; [rewrite app_nil_r, <- !app_assoc; done|]. split; [by repeat apply Forall_app_2|].
  rewrite R1, R2, R3, R4, R5, R6, R7, R8, R9, R10, R11 by done.
  assert (Vector.NewFeatureVector (Some (Vector.raw v)) Features = v) as -> by (rewrite <- Hnames; by destruct v).
  reflexivity.
Qed.

(** ** Reading a string *)

Lemma hrp_chars s :
  forallb (fun c => bool_decide (33 <= byte_Z c <= 126) && bool_decide (~ 65 <= byte_Z c <= 90)) s = true ->
  Forall hrp_char s.
Proof.
  rewrite forallb_forall. intros H. apply Forall_forall. intros c Hc%list_elem_of_In%H.
  by rewrite andb_true_iff, !bool_decide_eq_true in Hc.
Qed.

Lemma getObdHrpPre_cases net pre :
  getObdHrpPre net = Ok pre -> pre = str "o" \/ pre = str "to" \/ pre = str "ort".
Proof. unfold getObdHrpPre. repeat case_bool_decide; intros [= <-]; auto. Qed.

Lemma Decode_string net pre rest data gsig sig r tagged p :
  let hrp := str "ob" ++ pre ++ rest in
  getObdHrpPre net = Ok pre -> Forall hrp_char rest -> rest <> [] ->
  Forall group data -> Forall group gsig -> length gsig = signatureBase32Len ->
  ConvertBits gsig 5 8 true = Some (sig ++ [r]) -> length sig = 64%nat -> ConvertBits data 5 8 true = Some tagged ->
  (length (bech32_string hrp (data ++ gsig)) <= maxInvoiceLength)%nat ->
  parseData (Invoice.set_Net (Some net) Invoice.empty) data net = Ok p ->
  Decode (bech32_string hrp (data ++ gsig)) net =
    obind (decode_hrp_amount rest p) (fun d => finish (HashB (hrp ++ tagged)) sig r d).
Proof.
  intros hrp Hpre Hrest Hne Hd Hg Hlg Hc Hls Ht Hmax Hp. unfold Decode. rewrite bool_decide_eq_false_2 by lia.
  assert (Forall hrp_char hrp) as Hh.
  { apply Forall_app_2; [by apply hrp_chars|]. apply Forall_app_2; [|done].
    destruct (getObdHrpPre_cases net pre Hpre) as [->|[->| ->]]; by apply hrp_chars. }
  rewrite decodeBech32_string by (done || by apply Forall_app_2). cbn [lift obind]. 
  assert (length pre <> 0)%nat as Hpl by (destruct (getObdHrpPre_cases net pre Hpre) as [->|[->| ->]]; done).
  assert (length hrp = 2 + length pre + length rest)%nat as Hlen by (unfold hrp; rewrite !length_app; cbn; lia).
  assert (drop 2 hrp = pre ++ rest) as Hdrop by done.
  rewrite (bool_decide_eq_false_2 (length hrp < 3)%nat) by lia.
  rewrite (bool_decide_eq_false_2 (take 2 hrp <> _)) by (intros Hx; by apply Hx).
  rewrite Hpre. cbn [obind]. rewrite Hdrop, HasPrefix_app. cbn [negb].
  assert (length (data ++ gsig) - signatureBase32Len = length data)%nat as Hsub by (rewrite length_app; lia).
  rewrite bool_decide_eq_false_2 by (rewrite length_app; lia).
  rewrite Hsub, take_app_length, drop_app_length, Hp. cbn [obind].
  assert (length rest <> 0)%nat by (by destruct rest).
  rewrite bool_decide_eq_true_2 by lia.
  assert (drop (length pre + 2) hrp = rest) as ->.
  { rewrite Nat.add_comm, <- drop_drop, Hdrop. apply drop_app_length. }
  destruct (decode_hrp_amount rest p) as [d| |]; [|done..]. cbn [obind]. rewrite Hc, Ht. cbn [convert obind].
  rewrite lookup_app_r, Hls by lia. cbn [lookup list_lookup Nat.sub].
  by rewrite (take_app_length' sig), copy_at_all by done.
Qed.

(** ** What the encoder returns *)

Lemma parseData_written inv0 net t fs :
  in_i64 t -> (length (uint64ToBase32 (u64 t)) <= timestampBase32Len)%nat ->
  parseData inv0 (timestamp_groups t ++ fs) net =
    parseTaggedFields (Invoice.set_Timestamp (mkTime t 0) inv0) fs net.
Proof.
  intros Ht Hl. assert (length (timestamp_groups t) = timestampBase32Len) as Hg.
  { unfold timestamp_groups. rewrite length_app, length_replicate. lia. }
  unfold parseData. rewrite bool_decide_eq_false_2 by (rewrite length_app; lia).
  rewrite (take_app_length' (timestamp_groups t)), (drop_app_length' (timestamp_groups t)) by done.
  unfold parseTimestamp. rewrite bool_decide_eq_false_2 by tauto. unfold timestamp_groups.
  rewrite base32_roundtrip; [|apply u64_in|unfold timestampBase32Len in *; lia]. cbn [obind]. by rewrite i64_u64.
Qed.

Lemma convert_ok o l : convert o = Ok l -> o = Some l.
Proof. destruct o; by intros [= ->]. Qed.

(** The human-readable part. *)
Lemma hrp_text orderMSat orderAmt inv pre aid :
  exists am, match Invoice.MilliSat inv with
             | None => am = [] | Some amt => encodeAmt orderMSat orderAmt amt aid = Ok am end /\
    match Invoice.MilliSat inv with
    | None => Ok ((str "ob" ++ pre) ++ FormatInt aid ++ str ":")
    | Some amt => am <~ lift ErrAmount (encodeAmt orderMSat orderAmt amt aid) ;
                  Ok (((str "ob" ++ pre) ++ FormatInt aid ++ str ":") ++ am)
    end = Ok (the_hrp pre aid am).
Proof.
  unfold the_hrp. destruct (Invoice.MilliSat inv) as [amt|]; [|by exists []].
  destruct (encodeAmt_total orderMSat orderAmt amt aid) as [am ->]. exists am. split; [done|]. cbn [lift obind].
  by rewrite <- !app_assoc.
Qed.

Lemma Encode_inv order orderMSat orderAmt signer key net inv s :
  Invoice.Net inv = Some net -> signs_for signer key ->
  Encode order orderMSat orderAmt signer inv = Ok s ->
  exists pre am data tagged sig gsig aid h,
    encoding order orderMSat orderAmt signer net inv s pre am data tagged sig gsig aid h.
Proof.
  intros Hnet Hsig H. unfold Encode in H. obind_inv H. destruct a. case_bool_decide as Ht; [done|].
  fold (timestamp_groups (Unix (Invoice.Timestamp inv))) in H. obind_inv H. rewrite Hnet in H. obind_inv H.
  destruct (Invoice.AssetId inv) as [aid|] eqn:Haid; [|done].
  destruct (hrp_text orderMSat orderAmt inv a0 aid) as (am & Ham & Hhrp).
  rewrite Hhrp in H. cbn [obind] in H. obind_inv H.
  rename a1 into tagged. apply convert_ok in Hstep2 as Htag.
  destruct (signer _) as [[|h sign]|] eqn:Hs; [done| |done]. destruct (Hsig _ _ Hs) as [Hlen _].
  cbn [length] in Hlen. rewrite copy_at_all in H by lia. obind_inv H. destruct a1.
  obind_inv H. rename a1 into gsig. apply convert_ok in Hstep4 as Hg. destruct (Bech32Encode _ _) as [b32|] eqn:Hb; [|done].
  case_bool_decide as Hmax; [done|]. injection H as <-.
  exists a0, am, a, tagged, sign, gsig, aid, h. split; try done; try lia.
  intros d Hd. rewrite Hd in Hstep3. destruct (ToSignature sign) as [sg|]; [|done]. exists sg. split; [done|].
  by destruct (Verify sg _ d).
Qed.

(** ** Decoding what was encoded *)

Lemma amount_hrp_char c : amount_char c -> hrp_char c.
Proof.
  intros H. assert (amount_char c = true) as Hc by (by destruct (amount_char c)). clear H. revert Hc.
  destruct c; vm_compute; try done; intros _; (split; [split; by intros|by intros []]).
Qed.

Lemma FormatInt_hrp aid : 0 <= aid -> Forall hrp_char (FormatInt aid).
Proof.
  intros H. rewrite FormatInt_nonneg by done. eapply Forall_impl; [apply format_amount_chars|apply amount_hrp_char].
Qed.

(** The amount, if there is one, survives its encoding. *)
Definition amount_ok (inv : Invoice.t) : Prop :=
  forall amt aid, Invoice.MilliSat inv = Some amt -> Invoice.AssetId inv = Some aid -> encodable amt aid.

Lemma the_hrp_chars orderMSat orderAmt inv net pre aid am :
  amount_ok inv -> orderMSat ⊆ fromMSat -> orderAmt ⊆ fromAmt -> getObdHrpPre net = Ok pre ->
  Invoice.AssetId inv = Some aid -> 0 <= aid ->
  match Invoice.MilliSat inv with
  | None => am = [] | Some amt => encodeAmt orderMSat orderAmt amt aid = Ok am end ->
  Forall hrp_char (the_hrp pre aid am).
Proof.
  intros Hamt HoM HoA Hpre Haid H0 Ham. unfold the_hrp. apply Forall_app_2; [by apply hrp_chars|]. apply Forall_app_2.
  { destruct (getObdHrpPre_cases net pre Hpre) as [->|[->| ->]]; by apply hrp_chars. }
  apply Forall_app_2; [by apply FormatInt_hrp|]. constructor.
  { assert (Forall hrp_char [":"%byte]) as Hc by (by apply hrp_chars). by rewrite Forall_singleton in Hc. }
  destruct (Invoice.MilliSat inv) as [amt|] eqn:Hm; [|by subst].
  eapply Forall_impl; [|apply amount_hrp_char]. apply (encodeAmt_chars orderMSat orderAmt amt aid); [by apply Hamt|done..].
Qed.

Section encoded.
Context (order : list Z) (orderMSat orderAmt : units) (signer : list byte -> option (list byte)).
Context (net : params) (inv : Invoice.t) (s pre am data tagged sig gsig : list byte) (aid : Z) (h : byte).
Hypothesis (E : encoding order orderMSat orderAmt signer net inv s pre am data tagged sig gsig aid h).
Hypothesis (Hwf : invoice_wf order net inv) (Hamt : amount_ok inv).
Hypothesis (HoM : orderMSat ⊆ fromMSat) (HoA : orderAmt ⊆ fromAmt).

Lemma aid_range : 0 <= aid < 2 ^ 32.
Proof. apply (wf_asset _ _ _ Hwf). apply E. Qed.

Lemma hrp_ok : Forall hrp_char (the_hrp pre aid am).
Proof. eapply the_hrp_chars; [done..|apply E|apply E|apply aid_range|apply E]. Qed.

(** What a reader on the network [net'] makes of the string, when the network's prefix is
    one of the human-readable part. *)
Lemma Decode_encoding net' pre' rest :
  (forall a, Invoice.FallbackAddr inv = Some a -> addr_for net' a) ->
  getObdHrpPre net' = Ok pre' -> pre ++ FormatInt aid ++ ":"%byte :: am = pre' ++ rest -> rest <> [] ->
  Decode s net' =
    obind (decode_hrp_amount rest (parsed net' inv (if bool_decide (Raw.SerializeSize32 order > 0)
                                                    then Invoice.Features inv else None)))
      (fun d => finish (HashB (the_hrp pre aid am ++ tagged)) sig (recovery_id h) d).
Proof.
  intros Haddr Hpre' Hrest Hne. pose proof hrp_ok as Hh. destruct E as [Hv Hpre Ha _ Ht Hd Htag _ Hls _ Hg Hs Hmax].
  destruct (tagged_fields_read order net net' inv (mkTime (Unix (Invoice.Timestamp inv)) 0) _ _ Hwf Haddr Hv Hd)
    as (fs & -> & Hfs & Hp).
  assert (Forall group (timestamp_groups (Unix (Invoice.Timestamp inv)) ++ fs)) as Hgd.
  { apply Forall_app_2; [|done]. apply Forall_app_2; [by apply Forall_replicate|apply uint64ToBase32_group]. }
  destruct (ConvertBits_exact (sig ++ [recovery_id h]) 13) as (gsig' & Hg' & Hgg & Hgl & Hgb).
  { by rewrite length_app, Hls. }
  rewrite Hg in Hg'. injection Hg' as <-.
  rewrite Bech32Encode_spec in Hs; [|eapply Forall_impl; [exact Hh|]; intros c [? _]; lia|by apply Forall_app_2].
  rewrite ToLower_id in Hs by (eapply Forall_impl; [exact Hh|apply hrp_char_lower]). injection Hs as <-.
  unfold the_hrp in *. rewrite Hrest in *.
  apply Decode_string; [done| |done..|].
  - apply Forall_app in Hh as [_ Hh]. by apply Forall_app in Hh as [_ ?].
  - rewrite parseData_written, Hp by (done || apply Hwf). by destruct inv.
Qed.

Lemma header_byte b : byte_of_Z (u8 (byte_Z (recovery_id b) + 27 + 4)) = b.
Proof. by destruct b; vm_compute. Qed.

Lemma validate_received key net' amt :
  validateInvoice inv = Ok tt -> validateInvoice (Invoice.set_Net (Some net') (received key amt inv)) = Ok tt.
Proof.
  unfold validateInvoice, received. cbn. destruct (Invoice.Net inv); [|done]. destruct (Invoice.PaymentHash inv); [|done].
  do 3 (case_bool_decide; [done|]). destruct (match Invoice.DescriptionHash inv with Some _ => _ | None => _ end); [done|].
  rewrite bool_decide_eq_false_2 by (rewrite serialize_length; lia).
  destruct (match Invoice.Destination inv with Some _ => _ | None => _ end); [done|]. by destruct (Invoice.Features inv).
Qed.

Lemma no_features : bool_decide (Raw.SerializeSize32 order > 0) = false ->
  Invoice.Features inv = Some (Vector.NewFeatureVector None Features).
Proof.
  intros Hs%bool_decide_eq_false. destruct (wf_features _ _ _ Hwf) as (v & -> & Hfw & Ho & Hn).
  assert (forall b, b ∈ order -> 0 <= b) as Hpos.
  { intros b Hb. rewrite Ho, elem_of_elements in Hb. apply Hfw in Hb. unfold in_u in Hb. lia. }
  destruct (RawFacts.serializeSize_spec order 5) as (_ & HF & _); [lia|by apply Forall_forall|].
  assert (order = []) as ->.
  { destruct order as [|b o]; [done|]. inversion HF as [|? ? Hb _]; subst. unfold Raw.SerializeSize32 in Hs. lia. }
  apply Permutation_nil, elements_empty_inv in Ho. rewrite leibniz_equiv_iff in Ho. destruct v. cbn in *. by subst.
Qed.

(** The signature is the one that was made, so the rest of the decoder succeeds. *)
Lemma finish_received key net' amt :
  signs_for signer key ->
  finish (HashB (the_hrp pre aid am ++ tagged)) sig (recovery_id h)
    (Invoice.set_MilliSat amt (parsed net' inv (if bool_decide (Raw.SerializeSize32 order > 0)
       then Invoice.Features inv else None))) = Ok (Invoice.set_Net (Some net') (received key amt inv)).
Proof.
  intros Hsig. pose proof (validate_received key net' amt (enc_valid _ _ _ _ _ _ _ _ _ _ _ _ _ _ _ E)) as Hv.
  assert (forall d, d = Invoice.set_Features (if bool_decide (Raw.SerializeSize32 order > 0) then Invoice.Features inv else None)
      (Invoice.set_Net (Some net') (received key amt inv)) ->
    match Invoice.Features d with
    | None => Invoice.set_Features (Some (Vector.NewFeatureVector None Features)) d
    | Some _ => d
    end = Invoice.set_Net (Some net') (received key amt inv)) as Hf.
  { intros d ->. destruct (wf_features _ _ _ Hwf) as (v & Hfv & _). destruct (bool_decide _) eqn:Hb.
    - cbn. by rewrite Hfv; cbn; rewrite <- Hfv.
    - cbn [Invoice.Features Invoice.set_Features]. rewrite <- (no_features Hb). reflexivity. }
  unfold finish, decode_signature. cbn [Invoice.Destination Invoice.set_MilliSat parsed].
  destruct (Invoice.Destination inv) as [d|] eqn:Hd.
  - destruct (enc_verified _ _ _ _ _ _ _ _ _ _ _ _ _ _ _ E d Hd) as (sg & -> & ->). cbn [obind].
    rewrite Hf by (unfold received, parsed; cbn; by rewrite Hd). by rewrite Hv.
  - rewrite header_byte. destruct (Hsig _ _ (enc_sign _ _ _ _ _ _ _ _ _ _ _ _ _ _ _ E)) as [_ ->]. cbn [obind].
    rewrite Hf by (unfold received, parsed; cbn; by rewrite Hd). by rewrite Hv.
Qed.

(** The asset and the amount are read from the human-readable part: what is before the
    colon is taken for the asset, the rest for the amount. *)
Lemma hrp_item_read item p :
  Invoice.AssetId p = Some aid -> ":"%byte ∉ item -> (Atoi item).1 = aid ->
  decode_hrp_amount (item ++ ":"%byte :: am) p =
    match Invoice.MilliSat inv with
    | Some amt => Ok (Invoice.set_MilliSat (Some amt) p)
    | None => Err (ErrAmount ErrAmountEmpty)
    end.
Proof.
  intros Hp Hc1 Ha. unfold decode_hrp_amount. rewrite Split_app, Hp by done.
  change ((item :: Split am ":"%byte) !! 0%nat) with (Some item).
  change ((item :: Split am ":"%byte) !! 1%nat) with (Split am ":"%byte !! 0%nat). cbn [default]. unfold id. rewrite Ha.
  rewrite bool_decide_eq_false_2 by (intros Hx; by apply Hx).
  pose proof (enc_amount _ _ _ _ _ _ _ _ _ _ _ _ _ _ _ E) as Ham.
  destruct (Invoice.MilliSat inv) as [amt|] eqn:Hm.
  - assert (encodable amt aid) as He by (apply Hamt; [done|apply E]).
    rewrite Split_none.
    + cbn. by rewrite (encodeAmt_decodes orderMSat orderAmt amt aid am).
    + intros Hin. pose proof (encodeAmt_chars orderMSat orderAmt amt aid am He HoM HoA Ham) as Hd.
      rewrite Forall_forall in Hd. by apply Hd in Hin.
  - subst am. cbn. unfold decodeAmt. by case_bool_decide.
Qed.

Lemma hrp_amount_read p :
  Invoice.AssetId p = Some aid ->
  decode_hrp_amount (FormatInt aid ++ ":"%byte :: am) p =
    match Invoice.MilliSat inv with
    | Some amt => Ok (Invoice.set_MilliSat (Some amt) p)
    | None => Err (ErrAmount ErrAmountEmpty)
    end.
Proof.
  intros Hp. pose proof aid_range as Hr. rewrite FormatInt_nonneg by lia.
  apply hrp_item_read; [done| |by rewrite Atoi_FormatUint by lia].
  intros Hin. pose proof (FormatUint_digits aid) as Hd. rewrite Forall_forall in Hd. by apply Hd in Hin.
Qed.

End encoded.

(** ** The network of a decoded request *)

Lemma parse_once_net {A} (seen : option A) parse set inv inv' :
  (forall v i, Invoice.Net (set v i) = Invoice.Net i) ->
  parse_once seen parse set inv = Ok inv' -> Invoice.Net inv' = Invoice.Net inv.
Proof.
  intros Hs H. unfold parse_once in H. destruct seen; [by injection H as <-|]. obind_inv H. by injection H as <-.
Qed.

Lemma parse_field_net inv typ data net inv' :
  parse_field inv typ data net = Ok inv' -> Invoice.Net inv' = Invoice.Net inv.
Proof.
  unfold parse_field. repeat (case_bool_decide; [by apply parse_once_net|]).
  case_bool_decide; [intros Hp; obind_inv Hp; by injection Hp as <-|].
  case_bool_decide; [by apply parse_once_net|]. by intros [= <-].
Qed.

Lemma parse_fields_net fuel inv fields net inv' :
  parse_fields fuel inv fields net = Ok inv' -> Invoice.Net inv' = Invoice.Net inv.
Proof.
  revert inv fields. induction fuel as [|fuel IH]; intros inv [|b fields] H; [by injection H as <-|done|by injection H as <-|].
  cbn [parse_fields] in H. obind_inv H. destruct a as [inv1 rest]. apply IH in H as ->.
  unfold parse_next in Hstep. destruct fields as [|l1 [|l2 fields]]; [done..|]. cbn [parseFieldDataLength obind] in Hstep.
  case_bool_decide; [done|]. obind_inv Hstep. injection Hstep as <- <-. by apply parse_field_net in Hstep0.
Qed.

Lemma parseData_net inv data net inv' : parseData inv data net = Ok inv' -> Invoice.Net inv' = Invoice.Net inv.
Proof.
  unfold parseData. case_bool_decide; [done|]. intros Hp. obind_inv Hp. by apply parse_fields_net in Hp.
Qed.

Lemma hrp_amount_net rest inv inv' : decode_hrp_amount rest inv = Ok inv' -> Invoice.Net inv' = Invoice.Net inv.
Proof.
  unfold decode_hrp_amount. case_bool_decide; [done|]. destruct (_ !! 1%nat); [|done]. intros Hp. obind_inv Hp. by injection Hp as <-.
Qed.

(** The destination of a decoded request has signed it. *)
Lemma decode_signature_ok hash sig r inv inv' :
  decode_signature hash sig r inv = Ok inv' ->
  Invoice.Net inv' = Invoice.Net inv /\
  exists key, Invoice.Destination inv' = Some key /\
    ((exists sg, ToSignature sig = Some sg /\ Verify sg hash key = true) \/
     RecoverCompact (byte_of_Z (u8 (byte_Z r + 27 + 4)) :: sig) hash = Some key).
Proof.
  unfold decode_signature. destruct (Invoice.Destination inv) as [key|] eqn:Hd.
  - destruct (ToSignature sig) as [sg|] eqn:Hs; [|done]. destruct (Verify sg hash key) eqn:Hv; [|done].
    intros [= <-]. split; [done|]. exists key. split; [done|]. left. by exists sg.
  - destruct (RecoverCompact _ _) as [key|] eqn:Hr; [|done]. intros [= <-]. split; [done|]. exists key. by split; [|right].
Qed.

End decode.

(** * Encoding always returns

    A valid invoice whose fields fit the ten bits of a field length is encoded, unless the
    whole string would be too long. *)

Section total.
Context {BT : Btcec} {PL : PayLib} {BL : BtcecLaws} {LA : PayLaws}.

(** The fields of variable length are short enough: 1023 groups hold 639 bytes, twelve
    hops and 5115 feature bits; the timestamp has 35 bits. *)
Record fits (inv : Invoice.t) : Prop := {
  fit_time : 0 <= Unix (Invoice.Timestamp inv) < 2 ^ 35;
  fit_description : forall d, Invoice.Description inv = Some d -> (length d <= 639)%nat;
  fit_hints : Forall (fun hs => length hs <= 12)%nat (Invoice.RouteHints inv);
  fit_features : forall v b, Invoice.Features inv = Some v -> b ∈ Vector.raw v -> b < 5115;
}.

(** The signer signs every message, with a signature that verifies under [d]. *)
Definition signs_always (signer : list byte -> option (list byte)) (d : option pubkey) : Prop :=
  forall msg, exists sign, signer msg = Some sign /\ length sign = 65%nat /\
    forall k, d = Some k -> exists sg, ToSignature (drop 1 sign) = Some sg /\ Verify sg (HashB msg) k = true.

Lemma ConvertBits_short d :
  (length d <= 639)%nat -> exists gs, ConvertBits d 8 5 true = Some gs /\ (length gs < 1024)%nat.
Proof.
  intros Hd. destruct (ConvertBits_roundtrip d) as (gs & k & Hc & _ & _ & Hk & Hl). exists gs. split; [done|]. lia.
Qed.

Lemma when_set_ok {A} (v : option A) write buf :
  (forall a, v = Some a -> exists b, write a buf = Ok b) -> exists b, when_set v write buf = Ok b.
Proof. intros H. destruct v as [a|]; cbn; [by apply H|eauto]. Qed.

Lemma write_short buf typ data : (length data < 1024)%nat -> exists b, writeTaggedField buf typ data = Ok b.
Proof. intros. rewrite writeTaggedField_ok by done. eauto. Qed.

Lemma write_converted buf typ d :
  (length d <= 639)%nat ->
  exists b, obind (convert (ConvertBits d 8 5 true)) (fun gs => writeTaggedField buf typ gs) = Ok b.
Proof. intros Hd. destruct (ConvertBits_short d Hd) as (gs & -> & Hl). by apply write_short. Qed.

Lemma write_number buf typ n : exists b, writeTaggedField buf typ (uint64ToBase32 n) = Ok b.
Proof. apply write_short. pose proof (uint64ToBase32_length n). lia. Qed.

Lemma route_hint_bytes_ok hs : Forall hop_hint_wf hs -> exists b, route_hint_bytes hs = Ok b.
Proof.
  induction 1 as [|h hs Hh _ [b Hb]]; cbn; [eauto|]. destruct Hh as [[k Hk] _].
  rewrite (hop_hint_bytes_eq h k) by done. cbn [obind]. rewrite Hb. cbn. eauto.
Qed.

Lemma write_route_hints_ok hints buf :
  Forall (Forall hop_hint_wf) hints -> Forall (fun hs => length hs <= 12)%nat hints ->
  exists b, write_route_hints hints buf = Ok b.
Proof.
  intros Hw. revert buf. induction Hw as [|hs hints Hhs _ IH]; intros buf Hl; cbn; [eauto|].
  inversion Hl as [|? ? H12 Hl']; subst. destruct (route_hint_bytes_ok hs Hhs) as [b Hb]. rewrite Hb. cbn [obind].
  destruct (ConvertBits_short b) as (gs & -> & Hgs).
  { rewrite (route_hint_length hs b) by done. unfold hopHintLen. lia. }
  cbn [convert obind]. destruct (write_short buf fieldTypeR gs Hgs) as [b' ->]. cbn [obind]. by apply IH.
Qed.

Lemma write_features_ok order fv buf :
  RawFacts.wf fv -> order ≡ₚ elements fv -> (forall b, b ∈ fv -> b < 5115) -> exists b, write_features order buf = Ok b.
Proof.
  intros Hwf Ho Hlt. unfold write_features. case_bool_decide; [|eauto].
  destruct (RawFacts.decode_encode fv order 5) as (data & E & Hl & _); [lia|done..|].
  unfold Raw.EncodeBase32, Raw.SerializeSize32. rewrite E. cbn [lift obind]. apply write_short.
  assert (Raw.serializeSize order 5 <= 1023); [|lia]. apply RawFacts.serializeSize_bound; [lia| |lia].
  apply Forall_forall. intros b Hb. rewrite Ho, elem_of_elements in Hb. pose proof (Hwf b Hb). specialize (Hlt b Hb).
  unfold in_u in *. lia.
Qed.

Lemma addr_script net a :
  addr_for net a -> exists v, fallback_version a = Ok v /\ (length (ScriptAddress a) <= 32)%nat.
Proof.
  intros (h & [Ha|[Ha|[Ha|Ha]]]); unfold fallback_version.
  - destruct (AddressPubKeyHash_spec _ _ _ Ha) as (-> & -> & ->). eexists. split; [done|lia].
  - destruct (AddressScriptHash_spec _ _ _ Ha) as (-> & -> & ->). eexists. split; [done|lia].
  - destruct (AddressWitnessPubKeyHash_spec _ _ _ Ha) as (-> & -> & -> & _). eexists. split; [done|lia].
  - destruct (AddressWitnessScriptHash_spec _ _ _ Ha) as (-> & -> & -> & _). eexists. split; [done|lia].
Qed.

Lemma write_address net a buf :
  addr_for net a -> exists b,
    (version <~ fallback_version a ; base32Addr <~ convert (ConvertBits (ScriptAddress a) 8 5 true) ;
     writeTaggedField buf fieldTypeF ([version] ++ base32Addr)) = Ok b.
Proof.
  intros (v & -> & Hl)%addr_script. cbn [obind].
  destruct (ConvertBits_roundtrip (ScriptAddress a)) as (gs & k & -> & _ & _ & Hk & Hgs). cbn [convert obind].
  apply write_short. cbn. lia.
Qed.

Lemma write_key key buf : exists b,
  (pubKeyBase32 <~ convert (ConvertBits (SerializeCompressed key) 8 5 true) ;
   if bool_decide (length pubKeyBase32 <> pubKeyBase32Len) then Err ErrPubKeyLength
   else writeTaggedField buf fieldTypeN pubKeyBase32) = Ok b.
Proof.
  destruct (ConvertBits_roundtrip (SerializeCompressed key)) as (gs & k & -> & _ & _ & Hk & Hl). cbn [convert obind].
  rewrite serialize_length in Hl. rewrite bool_decide_eq_false_2 by (unfold pubKeyBase32Len; lia).
  apply write_short. lia.
Qed.

(** One step of [writeTaggedFields] returns. *)
Ltac step_returns :=
  match goal with
  | |- exists b, obind (when_set ?v ?w ?b0) _ = _ =>
      let H := fresh "H" in
      assert (exists b, when_set v w b0 = Ok b) as [? H];
      [apply when_set_ok; intros ? ?|rewrite H; clear H; cbn [obind]]
  end.

Lemma writeTaggedFields_ok order net inv buf :
  invoice_wf order net inv -> fits inv -> validateInvoice inv = Ok tt ->
  exists b, writeTaggedFields order buf inv = Ok b.
Proof.
  intros Hwf [_ Hdesc Hhints Hfeat] [Hph Hdh]%validate_hashes. destruct (wf_features _ _ _ Hwf) as (v & Hv & Hfw & Ho & _).
  unfold writeTaggedFields, writeBytes32. rewrite Hv.
  step_returns; [apply write_converted; rewrite Hph by done; lia|].
  step_returns; [by apply write_converted, Hdesc|].
  step_returns; [apply write_converted; rewrite Hdh by done; lia|].
  do 3 (step_returns; [apply write_number|]).
  step_returns; [by eapply write_address, (wf_fallback _ _ _ Hwf)|].
  destruct (write_route_hints_ok (Invoice.RouteHints inv) x5 (wf_hints _ _ _ Hwf) Hhints) as [x7 ->]. cbn [obind].
  step_returns; [apply write_key|].
  step_returns; [apply write_converted; rewrite (wf_addr _ _ _ Hwf) by done; lia|].
  by eapply write_features_ok; [| |intros b'; by apply Hfeat].
Qed.

Lemma timestamp_fits t : 0 <= t < 2 ^ 35 -> (length (uint64ToBase32 (u64 t)) <= timestampBase32Len)%nat.
Proof.
  intros Ht. rewrite u64_id by (unfold in_u; lia). unfold uint64ToBase32, timestampBase32Len. case_bool_decide; [cbn; lia|].
  assert (forall fuel n k acc, 0 <= n < 2 ^ (5 * Z.of_nat k) -> (length (base32_groups fuel n acc) <= k + length acc)%nat) as Hlen.
  { induction fuel as [|fuel IH]; intros n k acc Hn; cbn [base32_groups]; [lia|]. case_bool_decide; [|lia].
    destruct k as [|k]; [cbn in Hn; lia|]. rewrite Z.shiftr_div_pow2 by lia. etrans; [apply (IH _ k)|cbn; lia].
    rewrite Nat2Z.inj_succ, Z.mul_succ_r, Z.pow_add_r in Hn by lia.
    split; [apply Z.div_pos; lia|apply Z.div_lt_upper_bound; lia]. }
  etrans; [by apply (Hlen _ _ 7%nat)|]. cbn. lia.
Qed.

(** The encoder returns a string, or refuses one that would be too long. *)
Lemma Encode_returns order orderMSat orderAmt signer net pre aid inv :
  invoice_wf order net inv -> fits inv -> amount_ok inv -> validateInvoice inv = Ok tt ->
  getObdHrpPre net = Ok pre -> Invoice.AssetId inv = Some aid -> signs_always signer (Invoice.Destination inv) ->
  orderMSat ⊆ fromMSat -> orderAmt ⊆ fromAmt ->
  (exists s, Encode order orderMSat orderAmt signer inv = Ok s) \/
  Encode order orderMSat orderAmt signer inv = Err ErrInvoiceTooLarge.
Proof.
  intros Hwf Hfit Hamt Hval Hpre Haid Hsig HoM HoA. unfold Encode. rewrite Hval. cbn [obind].
  pose proof (timestamp_fits _ (fit_time _ Hfit)) as Ht. rewrite bool_decide_eq_false_2 by lia.
  fold (timestamp_groups (Unix (Invoice.Timestamp inv))).
  destruct (writeTaggedFields_ok order net inv (timestamp_groups (Unix (Invoice.Timestamp inv)))) as [buf Hb]; [done..|].
  destruct (tagged_fields_read order net net inv (mkTime 0 0) _ _ Hwf (wf_fallback _ _ _ Hwf) Hval Hb) as (fs & -> & Hfs & _).
  rewrite Hb, (wf_net _ _ _ Hwf). cbn [obind]. rewrite Hpre. cbn [obind]. rewrite Haid.
  destruct (hrp_text orderMSat orderAmt inv pre aid) as (am & Ham & ->). cbn [obind].
  assert (Forall group (timestamp_groups (Unix (Invoice.Timestamp inv)) ++ fs)) as Hg.
  { apply Forall_app_2; [|done]. apply Forall_app_2; [by apply Forall_replicate|apply uint64ToBase32_group]. }
  destruct (ConvertBits_groups _ Hg) as [tagged Htag]. rewrite Htag. cbn [convert obind].
  destruct (Hsig (the_hrp pre aid am ++ tagged)) as ([|h sign] & -> & Hlen & Hver); [done|]. cbn [length] in Hlen.
  rewrite copy_at_all by lia.
  assert (match Invoice.Destination inv with
    | None => Ok tt
    | Some d => match ToSignature sign with
                | None => Err ErrParseSignature
                | Some sg => if Verify sg (HashB (the_hrp pre aid am ++ tagged)) d then Ok tt else Err ErrSignatureMismatch
                end
    end = Ok tt) as ->.
  { destruct (Invoice.Destination inv) as [d|]; [|done]. destruct (Hver d eq_refl) as (sg & Hs & Hv).
    change (drop 1 (h :: sign)) with sign in Hs. by rewrite Hs, Hv. }
  cbn [obind]. destruct (ConvertBits_exact (sign ++ [recovery_id h]) 13) as (gsig & Hc & Hgg & _); [rewrite length_app; cbn; lia|].
  fold (recovery_id h). rewrite Hc. cbn [convert obind].
  destruct (wf_asset _ _ _ Hwf aid Haid) as [Ha0 _].
  rewrite Bech32Encode_spec; [|eapply Forall_impl; [by eapply the_hrp_chars|]; intros c [? _]; lia|by apply Forall_app_2].
  case_bool_decide; eauto.
Qed.

End total.
