(* ===== verification/PayTheorems.v ===== *)
(** * A model of the libraries of the payment requests

    One implementation of [PayLib] that satisfies its laws: groups of bits are converted
    through the list of bits, the bech32 encoder is the one of BIP 173, addresses keep
    their hash, and the compact signature of a message starts with the key.

    The theorems on payment requests follow, evaluated at these libraries. *)

From Stdlib Require Import ZArith Lia String Floats.SpecFloat.
From S2P Require Import Prelude Wire Features WireModels Amounts Signature GoText Bech32.
From S2P Require Import PayAmount PayInvoice PayCodec PayFields PayRequest.

Local Open Scope Z_scope.

(** ** Regrouping bits *)

Definition num (c : list bool) : Z := foldl (fun a b => 2 * a + Z.b2z b) 0 c.

Fixpoint chunks (n w : nat) (l : list bool) : list byte :=
  match n with O => [] | S n' => byte_of_Z (num (take w l)) :: chunks n' w (drop w l) end.

Definition padding (len w : nat) : nat := ((w - len mod w) mod w)%nat.

Definition convert_bits (data : list byte) (f t : Z) (pad : bool) : option (list byte) :=
  let l := bits f data in
  let w := Z.to_nat t in
  if pad then
    let l := l ++ replicate (padding (length l) w) false in Some (chunks (length l / w) w l)
  else
    let n := (length l / w)%nat in
    let left := drop (n * w) l in
    if bool_decide (length left <= 4)%nat && forallb negb left then Some (chunks n w l) else None.

Definition paylib_model : @PayLib btcec_model := {|
  params := gostring;
  NetName := id;
  MainNetName := str "mainnet";
  TestNet3Name := str "testnet3";
  RegressionNetName := str "regtest";
  Address := addr_kind * list byte * gostring;
  AddressType := fun a => a.1.1;
  ScriptAddress := fun a => a.1.2;
  WitnessVersion := fun _ => x00;
  NewAddressPubKeyHash := fun h net => if bool_decide (length h = 20%nat) then Some (AddressPubKeyHash, h, net) else None;
  NewAddressScriptHashFromHash := fun h net => if bool_decide (length h = 20%nat) then Some (AddressScriptHash, h, net) else None;
  NewAddressWitnessPubKeyHash := fun h net => if bool_decide (length h = 20%nat) then Some (AddressWitnessPubKeyHash, h, net) else None;
  NewAddressWitnessScriptHash := fun h net => if bool_decide (length h = 32%nat) then Some (AddressWitnessScriptHash, h, net) else None;
  ConvertBits := convert_bits;
  Bech32Encode := fun hrp data =>
    if forallb (fun b => bool_decide (byte_Z b < 32)) data then Some (bech32_string (ToLower hrp) data) else None;
  HashB := id;
  Signature := list byte;
  ParseDERSignature := Some;
  Verify := fun _ _ _ => true;
  RecoverCompact := fun sign _ => @ParsePubKey btcec_model (take 33 (drop 1 sign));
  Float64Overflow := fun _ => 0;
|}.

(** ** Laws *)

Lemma num_range c : 0 <= num c < 2 ^ Z.of_nat (length c).
Proof.
  induction c as [|b c IH] using rev_ind; [cbn; lia|]. unfold num in *. rewrite foldl_app, length_app, Nat2Z.inj_add, Z.pow_add_r by lia.
  cbn [foldl length]. destruct b; cbn [Z.b2z]; change (2 ^ Z.of_nat 1) with 2; lia.
Qed.

Lemma num_bit c i : (i < length c)%nat -> Z.testbit (num c) (Z.of_nat (length c) - 1 - Z.of_nat i) = default false (c !! i).
Proof.
  revert i. induction c as [|b c IH] using rev_ind; intros i Hi; [cbn in Hi; lia|]. rewrite length_app in Hi |- *. cbn [length] in *.
  unfold num in *. rewrite foldl_app. cbn [foldl]. destruct (decide (i = length c)) as [->|].
  - replace (Z.of_nat (length c + 1) - 1 - Z.of_nat (length c)) with 0 by lia. rewrite Z.testbit_0_r, lookup_app_r, Nat.sub_diag by lia. done.
  - replace (Z.of_nat (length c + 1) - 1 - Z.of_nat i) with (Z.succ (Z.of_nat (length c) - 1 - Z.of_nat i)) by lia.
    rewrite Z.testbit_succ_r, IH, lookup_app_l by lia. done.
Qed.

Lemma bits_of_num w c :
  0 < w <= 8 -> length c = Z.to_nat w -> bits_of w (byte_of_Z (num c)) = c /\ byte_Z (byte_of_Z (num c)) < 2 ^ w.
Proof.
  intros Hw Hc. pose proof (num_range c) as Hr. rewrite Hc, Z2Nat.id in Hr by lia.
  assert (2 ^ w <= 2 ^ 8) by (apply Z.pow_le_mono_r; lia).
  rewrite byte_Z_of_Z. unfold u8. rewrite Z.mod_small by lia. split; [|lia].
  apply list_eq_same_length with (Z.to_nat w); [done|by rewrite length_bits_of by lia|].
  intros i x y Hi Hx Hy. unfold bits_of in Hx. rewrite list_lookup_fmap, lookup_seqZ_lt in Hx by lia. cbn in Hx.
  injection Hx as <-. rewrite byte_Z_of_Z. unfold u8. rewrite Z.mod_small by lia.
  replace (w - 1 - (0 + Z.of_nat i)) with (Z.of_nat (length c) - 1 - Z.of_nat i) by lia.
  rewrite num_bit by lia. by rewrite Hy.
Qed.

Lemma bits_chunks w n l :
  0 < w <= 8 -> length l = (n * Z.to_nat w)%nat ->
  bits w (chunks n (Z.to_nat w) l) = l /\ Forall (fun b => byte_Z b < 2 ^ w) (chunks n (Z.to_nat w) l).
Proof.
  intros Hw. revert l. induction n as [|n IH]; intros l Hl; [by destruct l|].
  destruct (IH (drop (Z.to_nat w) l)) as [E F]; [rewrite length_drop; lia|].
  destruct (bits_of_num w (take (Z.to_nat w) l) Hw) as [E' F']; [rewrite length_take; lia|].
  split; [|by constructor]. cbn [chunks]. unfold bits in *. cbn. cbn in E. rewrite E', E. apply take_drop.
Qed.

Lemma padding_ok len w : (0 < w)%nat -> (padding len w < w)%nat /\ ((len + padding len w) mod w = 0)%nat.
Proof.
  intros Hw. unfold padding. split; [apply Nat.mod_upper_bound; lia|].
  pose proof (Nat.mod_upper_bound len w ltac:(lia)). pose proof (Nat.div_mod_eq len w) as Hd.
  destruct (decide (len mod w = 0)%nat) as [Hz|].
  - rewrite Hz, Nat.sub_0_r, Nat.Div0.mod_same, Nat.add_0_r. done.
  - rewrite (Nat.mod_small (w - _)) by lia.
    replace (len + (w - len mod w))%nat with ((S (len / w)) * w)%nat by lia. apply Nat.Div0.mod_mul.
Qed.

Lemma paylib_model_laws : @PayLaws btcec_model paylib_model.
Proof.
  split; cbn -[bits chunks Nat.div].
  - intros data f t Hf Ht Hd. unfold convert_bits. set (l := bits f data). set (k := padding _ _).
    destruct (padding_ok (length l) (Z.to_nat t)) as [Hk Hm]; [lia|]. fold k in Hk, Hm.
    assert (length (l ++ replicate k false) = (length (l ++ replicate k false) / Z.to_nat t) * Z.to_nat t)%nat as Hlen.
    { rewrite length_app, length_replicate. pose proof (Nat.div_mod_eq (length l + k) (Z.to_nat t)). lia. }
    destruct (bits_chunks t _ _ Ht Hlen) as [E F]. eexists _, k. by split_and!.
  - intros data out f t k Hf Ht Hd Ho H4 Hk Hb. unfold convert_bits. rewrite Hb.
    assert (length (bits t out ++ replicate k false) / Z.to_nat t = length out)%nat as Hn.
    { rewrite length_app, length_replicate, length_bits by lia.
      rewrite (Nat.mul_comm (Z.to_nat t)), Nat.div_add_l by lia. rewrite (Nat.div_small k) by lia. lia. }
    assert (length out * Z.to_nat t = length (bits t out))%nat as Hl by (rewrite length_bits by lia; lia).
    rewrite Hn, Hl, drop_app_length, length_replicate, bool_decide_eq_true_2 by lia.
    assert (forallb negb (replicate k false) = true) as -> by (clear; by induction k). cbn [andb]. f_equal.
    clear Hb Hn Hl Hk H4 Hd. induction Ho as [|b out Hbb Ho IH]; [done|].
    cbn [length chunks]. change (bits t (b :: out)) with (bits_of t b ++ bits t out). rewrite <- app_assoc.
    rewrite take_app_length', drop_app_length' by (by rewrite length_bits_of by lia). rewrite IH. f_equal.
    destruct (bits_of_num t (bits_of t b) Ht) as [E1 E2]; [by rewrite length_bits_of by lia|].
    by apply (bits_of_inj t) in E1; [|lia|..].
  - intros hrp data _ Hd. assert (forallb (fun b => bool_decide (byte_Z b < 32)) data = true) as ->; [|done].
    apply forallb_forall. intros b Hb%list_elem_of_In. rewrite Forall_forall in Hd. by apply bool_decide_eq_true, Hd.
  - intros h net a. case_bool_decide; [|done]. by intros [= <-].
  - intros h net a. case_bool_decide; [|done]. by intros [= <-].
  - intros h net a. case_bool_decide; [|done]. by intros [= <-].
  - intros h net a. case_bool_decide; [|done]. by intros [= <-].
Qed.

(** * Payment requests: theorems

    Round trip of payment requests, the errors their checksum detects, who signed them,
    and the strings on which the decoder does not do what it should. *)

Local Open Scope go_scope.

(** ** A request for the witnesses *)

Module Sample.

Definition key : @pubkey btcec_model := dexist (replicate 33 x02) eq_refl.

Definition signer (msg : list byte) : option (list byte) := Some (x1f :: replicate 64 x02).

Definition hints : list (list (@HopHint btcec_model)) :=
  [[mkHopHint btcec_model (Some key) 123456789 1 20 144; mkHopHint btcec_model (Some key) 987654321 0 1000 40]].

Definition features : Vector.t := Vector.NewFeatureVector (Some {[ 9; 15; 17 ]}) Features.

Definition order : list Z := [15; 17; 9].

Definition regtest : @params btcec_model paylib_model := str "regtest".
Definition mainnet : @params btcec_model paylib_model := str "mainnet".

(** An invoice with most of the fields set. *)
Definition invoice (net : @params btcec_model paylib_model) (amt : option Z) (aid : Z) : @Invoice.t btcec_model paylib_model := {|
  Invoice.Net := Some net;
  Invoice.MilliSat := amt;
  Invoice.AssetId := Some aid;
  Invoice.Timestamp := mkTime 1650000000 123;
  Invoice.PaymentHash := Some (replicate 32 x07);
  Invoice.PaymentAddr := Some (replicate 32 x2a);
  Invoice.Destination := None;
  Invoice.minFinalCLTVExpiry := Some 40;
  Invoice.Description := Some (str "one coffee");
  Invoice.DescriptionHash := None;
  Invoice.expiry := Some (600 * Second);
  Invoice.FallbackAddr := NewAddressPubKeyHash (replicate 20 x09) net;
  Invoice.RouteHints := hints;
  Invoice.Features := Some features;
|}.

(** The string the encoder makes of the invoice for 2500000 units of the asset 31. *)
Definition hrp : gostring := str "obort31:25m".
Definition data : gostring :=
  str "p39jqyqpp5qurswpc8qurswpc8qurswpc8qurswpc8qurswpc8qurswpc8qursdqsdahx2gr" ++
  str "rdanxvet9cqzpgxqzjc3qplfpp3pyysjzgfpyysjzgfpyysjzgfpyysjzgfr9yqgpqyqszqg" ++
  str "pqyqszqgpqyqszqgpqyqszqgpqyqszqgpqyqszqgpqyqqqqqqqwk7dz5qqqqqpqqqqq9qqjq" ++
  str "pqyqszqgpqyqszqgpqyqszqgpqyqszqgpqyqszqgpqyqszqgpqyqsqqqqqqwk7dzcsqqqqqq" ++
  str "qqqqlgqq5qsp59g4z52329g4z52329g4z52329g4z52329g4z52329g4z52329g4q9qy9qsq" ++
  str "qgpqyqszqgpqyqszqgpqyqszqgpqyqszqgpqyqszqgpqyqszqgpqyqszqgpqyqszqgpqyqsz" ++
  str "qgpqyqszqgpqyqszqgpqyqszqgpqyqsq8epk66".

End Sample.

Section theorems.
Context {BT : Btcec} {PL : PayLib} {BL : BtcecLaws} {LA : PayLaws}.

(** What has been encoded is decoded to the same request. *)
Lemma Decode_Encode order orderMSat orderAmt signer key net inv amt s :
  invoice_wf order net inv -> amount_ok inv -> signs_for signer key ->
  orderMSat ⊆ fromMSat -> orderAmt ⊆ fromAmt -> Invoice.MilliSat inv = Some amt ->
  Encode order orderMSat orderAmt signer inv = Ok s ->
  Decode s net = Ok (received key (Some amt) inv).
Proof.
  intros Hwf Hamt Hsig HoM HoA Hm He.
  destruct (Encode_inv order orderMSat orderAmt signer key net inv s (wf_net _ _ _ Hwf) Hsig He)
    as (pre & am & data & tagged & sig & gsig & aid & h & E).
  rewrite (Decode_encoding _ _ _ _ _ _ _ _ _ _ _ _ _ _ _ E Hwf Hamt HoM HoA net pre (FormatInt aid ++ ":"%byte :: am));
    [|apply Hwf|apply E|done|by destruct (FormatInt aid)].
  rewrite (hrp_amount_read _ _ _ _ _ _ _ _ _ _ _ _ _ _ _ E Hwf Hamt HoM HoA), Hm by apply E. cbn [obind].
  rewrite (finish_received _ _ _ _ _ _ _ _ _ _ _ _ _ _ _ E Hwf key) by done.
  f_equal. rewrite <- (wf_net _ _ _ Hwf). by destruct inv.
Qed.

(** A request without an amount cannot be read: the encoder accepts an invoice whose
    amount is left open, but the string it returns is refused by the decoder. *)
Lemma amountless_refused order orderMSat orderAmt signer key net inv s :
  invoice_wf order net inv -> signs_for signer key ->
  orderMSat ⊆ fromMSat -> orderAmt ⊆ fromAmt -> Invoice.MilliSat inv = None ->
  Encode order orderMSat orderAmt signer inv = Ok s ->
  Decode s net = Err (ErrAmount ErrAmountEmpty).
Proof.
  intros Hwf Hsig HoM HoA Hm He. assert (amount_ok inv) as Hamt by (intros ? ? ?; congruence).
  destruct (Encode_inv order orderMSat orderAmt signer key net inv s (wf_net _ _ _ Hwf) Hsig He)
    as (pre & am & data & tagged & sig & gsig & aid & h & E).
  rewrite (Decode_encoding _ _ _ _ _ _ _ _ _ _ _ _ _ _ _ E Hwf Hamt HoM HoA net pre (FormatInt aid ++ ":"%byte :: am));
    [|apply Hwf|apply E|done|by destruct (FormatInt aid)].
  by rewrite (hrp_amount_read _ _ _ _ _ _ _ _ _ _ _ _ _ _ _ E Hwf Hamt HoM HoA), Hm by apply E.
Qed.

(** A request made for the regression test network is accepted on the main network: its
    prefix starts with the one of the main network, and the text before the colon, which
    is not a number, is read as the asset 0. *)
Lemma regtest_accepted_on_mainnet order orderMSat orderAmt signer key net net' inv amt s :
  invoice_wf order net inv -> amount_ok inv -> signs_for signer key ->
  orderMSat ⊆ fromMSat -> orderAmt ⊆ fromAmt -> Invoice.MilliSat inv = Some amt ->
  getObdHrpPre net = Ok (str "ort") -> getObdHrpPre net' = Ok (str "o") ->
  Invoice.AssetId inv = Some 0 -> Invoice.FallbackAddr inv = None ->
  Encode order orderMSat orderAmt signer inv = Ok s ->
  Decode s net' = Ok (Invoice.set_Net (Some net') (received key (Some amt) inv)).
Proof.
  intros Hwf Hamt Hsig HoM HoA Hm Hr Hmain Ha Hf He.
  destruct (Encode_inv order orderMSat orderAmt signer key net inv s (wf_net _ _ _ Hwf) Hsig He)
    as (pre & am & data & tagged & sig & gsig & aid & h & E).
  pose proof (enc_pre _ _ _ _ _ _ _ _ _ _ _ _ _ _ _ E) as Hp. rewrite Hr in Hp. injection Hp as <-.
  pose proof (enc_asset _ _ _ _ _ _ _ _ _ _ _ _ _ _ _ E) as Haid. rewrite Ha in Haid. injection Haid as <-.
  rewrite (Decode_encoding _ _ _ _ _ _ _ _ _ _ _ _ _ _ _ E Hwf Hamt HoM HoA net' (str "o") (str "rt0" ++ ":"%byte :: am));
    [|intros a; congruence|done..].
  rewrite (hrp_item_read _ _ _ _ _ _ _ _ _ _ _ _ _ _ _ E Hamt HoM HoA (str "rt0")), Hm; [|done| |done].
  2: { apply (bool_decide_unpack _). by vm_compute. }
  cbn [obind]. by apply (finish_received _ _ _ _ _ _ _ _ _ _ _ _ _ _ _ E Hwf key).
Qed.

(** A string that crashes the decoder: a valid bech32 string for the network, with a
    timestamp, no fields and any signature, whose human-readable part has no colon. *)
Lemma Decode_panics_without_colon net pre :
  getObdHrpPre net = Ok pre ->
  Decode (bech32_string (str "ob" ++ pre ++ str "0") (replicate 111 x00)) net = Panic.
Proof.
  intros Hpre. unfold Decode.
  rewrite decodeBech32_string; [|..|done|by apply Forall_replicate].
  - cbn [lift obind]. rewrite Hpre.
    destruct (getObdHrpPre_cases net pre Hpre) as [->|[->| ->]]; reflexivity.
  - destruct (getObdHrpPre_cases net pre Hpre) as [->|[->| ->]]; by apply hrp_chars.
Qed.

(** C28: Only signed requests are accepted.  The key a decoded request is to be paid to has
    signed the human-readable part and all the data of the string: the signature at its
    end verifies under the key given by the request, or the key is the one recovered from
    it. *)
Theorem Decode_authentic s net inv :
  Decode s net = Ok inv ->
  exists hrp data tagged sig65 r key,
    decodeBech32 s = Ok (hrp, data) /\ (signatureBase32Len <= length data)%nat /\
    ConvertBits (take (length data - signatureBase32Len) data) 5 8 true = Some tagged /\
    ConvertBits (drop (length data - signatureBase32Len) data) 5 8 true = Some sig65 /\
    sig65 !! 64%nat = Some r /\ Invoice.Net inv = Some net /\ Invoice.Destination inv = Some key /\
    validateInvoice inv = Ok tt /\
    let sig := copy_at (replicate 64 x00) 0 (take 64 sig65) in
    (exists sg, ToSignature sig = Some sg /\ Verify sg (HashB (hrp ++ tagged)) key = true) \/
    RecoverCompact (byte_of_Z (u8 (byte_Z r + 27 + 4)) :: sig) (HashB (hrp ++ tagged)) = Some key.
Proof.
  intros H. unfold Decode in H. case_bool_decide; [done|]. obind_inv H. destruct a as [hrp data].
  do 2 (case_bool_decide; [done|]). obind_inv H. destruct (negb _); [done|]. case_bool_decide as Hlen; [done|].
  obind_inv H. apply parseData_net in Hstep1 as Hn. obind_inv H. rename Hstep2 into Ham.
  assert (Invoice.Net a1 = Some net) as Hn1.
  { case_bool_decide; [apply hrp_amount_net in Ham as ->; by rewrite Hn|injection Ham as <-; by rewrite Hn]. }
  obind_inv H. apply convert_ok in Hstep2. destruct (a2 !! 64%nat) as [r|] eqn:Hr; [|done].
  obind_inv H. apply convert_ok in Hstep3. obind_inv H. apply decode_signature_ok in Hstep4 as (Hn2 & key & Hk & Hsig).
  obind_inv H. destruct a5. injection H as <-.
  exists hrp, data, a3, a2, r, key. destruct (decodeBech32 s); [|done..]. injection Hstep as ->.
  split_and!; try done; [lia|by destruct (Invoice.Features a4); rewrite <- Hn1, <- Hn2|by destruct (Invoice.Features a4)].
Qed.

(** C5: Round trip of payment requests.  Whatever order the maps are visited in, a request
    that has been encoded with an amount is decoded, on its own network, to the same
    request: every field, hint and feature, the amount and the asset.  The destination is
    the one of the request, or the key of the signer, and the time loses its fraction of a
    second.  A valid request whose fields fit their length is always encoded, unless the
    string would be too long. *)
Theorem payment_request_roundtrip order orderMSat orderAmt signer key net inv amt :
  invoice_wf order net inv -> amount_ok inv -> signs_for signer key ->
  orderMSat ⊆ fromMSat -> orderAmt ⊆ fromAmt -> Invoice.MilliSat inv = Some amt ->
  (forall s, Encode order orderMSat orderAmt signer inv = Ok s -> Decode s net = Ok (received key (Some amt) inv)) /\
  (fits inv -> validateInvoice inv = Ok tt -> is_ok (getObdHrpPre net) -> is_Some (Invoice.AssetId inv) ->
   signs_always signer (Invoice.Destination inv) ->
   (exists s, Encode order orderMSat orderAmt signer inv = Ok s) \/
   Encode order orderMSat orderAmt signer inv = Err ErrInvoiceTooLarge).
Proof.
  intros Hwf Hamt Hsig HoM HoA Hm. split.
  - intros s. by apply Decode_Encode.
  - intros Hfit Hval Hpre [aid Haid] Hs. destruct (getObdHrpPre net) as [pre| |] eqn:Hp; [|done..].
    by apply (Encode_returns order orderMSat orderAmt signer net pre aid inv).
Qed.

(** C13: Damaged payment requests are noticed.  When at most six adjacent characters of the
    data of an accepted request are replaced by other characters of the alphabet, the
    result is refused on every network because of its checksum. *)
Theorem Decode_detects_bursts hrp A X Y B net inv :
  Forall hrp_char hrp -> hrp <> [] -> Forall (.∈ charset) (A ++ X ++ B) -> Forall (.∈ charset) Y ->
  length X = length Y -> (length X <= 6)%nat -> X <> Y ->
  Decode (hrp ++ "1"%byte :: A ++ X ++ B) net = Ok inv ->
  exists expected got, forall net',
    Decode (hrp ++ "1"%byte :: A ++ Y ++ B) net' = Err (ErrBech32 (ErrBechChecksum expected got)).
Proof.
  intros Hh Hne Hc Hy Hl H6 Hxy H. unfold Decode in H. case_bool_decide as Hlen; [done|]. obind_inv H.
  destruct (decodeBech32 (hrp ++ "1"%byte :: A ++ X ++ B)) as [r| |] eqn:Hd; [|done..].
  destruct (burst_rejected hrp A X Y B r) as (e & g & He); [done..|]. exists e, g. intros net'. unfold Decode.
  rewrite bool_decide_eq_false_2.
  - by rewrite He.
  - rewrite length_app in Hlen |- *. cbn [length] in *. rewrite !length_app in Hlen |- *. lia.
Qed.

(** Amounts in text.  Whatever order the units are visited in, every amount whose
    smallest unit fits 64 bits, or that is a whole number of coins, is encoded, and decoded
    to itself; in the first case no unit that can express the amount gives a shorter text. *)
Theorem amount_text orderMSat orderAmt amt assetId :
  encodable amt assetId -> orderMSat ≡ₚ fromMSat -> orderAmt ≡ₚ fromAmt ->
  exists s, encodeAmt orderMSat orderAmt amt assetId = Ok s /\ decodeAmt s assetId = Ok amt /\
    (10 * amt < 2 ^ 64 -> forall c conv am,
       (c, conv) ∈ (if bool_decide (assetId = 0 \/ assetId = BtcAssetId) then fromMSat else fromAmt) ->
       conv amt = Ok am -> (length s <= length (FormatUint am ++ [c]))%nat).
Proof.
  intros He HoM HoA. destruct (encodeAmt_total orderMSat orderAmt amt assetId) as [s Hs]. exists s. split; [done|].
  assert (orderMSat ⊆ fromMSat) by (intros x; by rewrite HoM). assert (orderAmt ⊆ fromAmt) by (intros x; by rewrite HoA).
  split; [by eapply encodeAmt_decodes|]. intros Hb c conv am Hin Hc. unfold encodeAmt, encodable in *. case_bool_decide.
  - apply (encodeAmount_shortest orderMSat amt s c conv am); [lia|done..].
  - rewrite i64_id in Hs by (unfold in_i64; lia). apply (encodeAssetAmount_shortest orderAmt amt s c conv am); [lia|done..].
Qed.

End theorems.

(** ** Witnesses *)

#[local] Existing Instances btcec_model btcec_model_laws paylib_model paylib_model_laws.

Lemma sample_signs : signs_for Sample.signer Sample.key.
Proof. intros msg sign [= <-]. split; [done|]. reflexivity. Qed.

Lemma sample_wf net amt aid : in_u 32 aid -> invoice_wf Sample.order net (Sample.invoice net amt aid).
Proof.
  intros Ha. split; cbn [Sample.invoice Invoice.Net Invoice.AssetId Invoice.Timestamp Invoice.PaymentAddr Invoice.minFinalCLTVExpiry
    Invoice.expiry Invoice.FallbackAddr Invoice.RouteHints Invoice.Features Unix].
  - done.
  - by intros ? [= <-].
  - split; lia.
  - by intros ? [= <-].
  - intros ? [= <-]. split; lia.
  - intros ? [= <-]. exists 600. split; [lia|done].
  - intros ? [= <-]. exists (replicate 20 x09). by left.
  - repeat constructor; cbn; eauto; lia.
  - exists Sample.features. split; [done|]. split; [|split; [|done]].
    + intros b Hb. apply elem_of_union in Hb as [[->%elem_of_singleton| ->%elem_of_singleton]%elem_of_union| ->%elem_of_singleton]; split; lia.
    + apply (bool_decide_unpack _). by vm_compute.
Qed.

Lemma sample_encodes net amt aid :
  is_ok (Encode Sample.order fromMSat fromAmt Sample.signer (Sample.invoice net amt aid)) = true ->
  exists s, Encode Sample.order fromMSat fromAmt Sample.signer (Sample.invoice net amt aid) = Ok s.
Proof. destruct (Encode _ _ _ _ _); [eauto|done..]. Qed.

Lemma sample_amount : amount_ok (Sample.invoice Sample.regtest (Some 2500000) 31).
Proof.
  intros ? ? [= <-] [= <-]. unfold encodable. rewrite bool_decide_eq_false_2 by (unfold BtcAssetId; lia). lia.
Qed.

Lemma payment_request_roundtrip_witness :
  exists s, Encode Sample.order fromMSat fromAmt Sample.signer (Sample.invoice Sample.regtest (Some 2500000) 31) = Ok s /\
    Decode s Sample.regtest = Ok (received Sample.key (Some 2500000) (Sample.invoice Sample.regtest (Some 2500000) 31)).
Proof.
  destruct (sample_encodes Sample.regtest (Some 2500000) 31) as [s Hs]; [by vm_compute|].
  exists s. split; [exact Hs|].
  apply (payment_request_roundtrip Sample.order fromMSat fromAmt Sample.signer Sample.key Sample.regtest
    (Sample.invoice Sample.regtest (Some 2500000) 31) 2500000).
  - apply sample_wf. split; lia.
  - apply sample_amount.
  - apply sample_signs.
  - done.
  - done.
  - done.
  - exact Hs.
Defined.

Lemma sample_text_decodes : exists inv, Decode (Sample.hrp ++ "1"%byte :: [] ++ take 6 Sample.data ++ drop 6 Sample.data) Sample.regtest = Ok inv.
Proof.
  assert (is_ok (Decode (Sample.hrp ++ "1"%byte :: [] ++ take 6 Sample.data ++ drop 6 Sample.data) Sample.regtest) = true)
    by (vm_compute; reflexivity).
  destruct (Decode _ _) as [inv| |]; [by exists inv|done..].
Qed.

Lemma in_charset s : forallb (fun c => bool_decide (c ∈ charset)) s = true -> Forall (.∈ charset) s.
Proof. rewrite forallb_forall. intros H. apply Forall_forall. intros c Hc%list_elem_of_In%H. by apply bool_decide_eq_true in Hc. Qed.

Lemma Decode_detects_bursts_witness :
  exists expected got, forall net',
    Decode (Sample.hrp ++ "1"%byte :: [] ++ str "p39jpp" ++ drop 6 Sample.data) net' =
      Err (ErrBech32 (ErrBechChecksum expected got)).
Proof.
  destruct sample_text_decodes as [inv Hd].
  apply (Decode_detects_bursts Sample.hrp [] (take 6 Sample.data) (str "p39jpp") (drop 6 Sample.data) Sample.regtest inv).
  - apply hrp_chars. vm_compute. reflexivity.
  - discriminate.
  - apply in_charset. vm_compute. reflexivity.
  - apply in_charset. vm_compute. reflexivity.
  - vm_compute. reflexivity.
  - cbn. lia.
  - vm_compute. discriminate.
  - exact Hd.
Defined.

Lemma Decode_authentic_witness :
  exists inv hrp data tagged key,
    Decode (Sample.hrp ++ "1"%byte :: [] ++ take 6 Sample.data ++ drop 6 Sample.data) Sample.regtest = Ok inv /\
    decodeBech32 (Sample.hrp ++ "1"%byte :: [] ++ take 6 Sample.data ++ drop 6 Sample.data) = Ok (hrp, data) /\
    ConvertBits (take (length data - signatureBase32Len) data) 5 8 true = Some tagged /\
    Invoice.Destination inv = Some key.
Proof.
  destruct sample_text_decodes as [inv Hd].
  destruct (Decode_authentic _ _ _ Hd) as (hrp & data & tagged & sig65 & r & key & H1 & _ & H2 & _ & _ & _ & H3 & _).
  exists inv, hrp, data, tagged, key. by split_and!.
Defined.

Lemma amount_text_witness :
  exists s, encodeAmt (reverse fromMSat) (reverse fromAmt) 2500000 31 = Ok s /\ decodeAmt s 31 = Ok 2500000 /\
    (length s <= length (FormatUint 25000 ++ ["u"%byte]))%nat.
Proof.
  destruct (amount_text (reverse fromMSat) (reverse fromAmt) 2500000 31) as (s & He & Hd & Hs).
  - unfold encodable. rewrite bool_decide_eq_false_2 by (unfold BtcAssetId; lia). lia.
  - apply reverse_Permutation.
  - apply reverse_Permutation.
  - exists s. split; [exact He|]. split; [exact Hd|]. apply (Hs ltac:(lia) "u"%byte amtToUAsset 25000).
    + rewrite bool_decide_eq_false_2 by (unfold BtcAssetId; lia). unfold fromAmt. right. left.
    + vm_compute. reflexivity.
Defined.
