(* ===== verification/FeatureDeps.v ===== *)
(** * feature/deps.go, manager.go: feature sets and their dependencies

    Which features need which others, and the feature vectors a node advertises.  The maps
    of the source are finite maps and sets; every loop over one takes the order in which it
    is visited.  The recursion over dependencies takes fuel for its depth. *)

From Stdlib Require Import ZArith Lia String.
From S2P Require Import Prelude Wire Features.

Local Open Scope Z_scope.
Local Open Scope go_scope.

(** ** Dependencies *)

Inductive dep_err : Type := ErrMissingFeatureDep (dep : Z).

Definition deps : gmap Z (gset Z) := list_to_map [
  (PaymentAddrOptional, {[TLVOnionPayloadOptional]});
  (MPPOptional, {[PaymentAddrOptional]});
  (AnchorsOptional, {[StaticRemoteKeyOptional]});
  (AnchorsZeroFeeHtlcTxOptional, {[StaticRemoteKeyOptional]});
  (AMPOptional, {[PaymentAddrOptional]});
  (ExplicitChannelTypeOptional, ∅);
  (ScriptEnforcedLeaseOptional, {[ExplicitChannelTypeOptional; AnchorsZeroFeeHtlcTxOptional]}) ].

(** A bit without an entry has no dependencies: ranging over a nil map does nothing. *)
Definition deps_of (bit : Z) : gset Z := default ∅ (deps !! bit).

Definition mapToOptional (bit : Z) : Z := if IsRequired bit then Z.lxor bit 1 else bit.

(** [order] visits the bits of the vector. *)
Definition initSupported (order : list Z) : gmap Z bool :=
  foldl (fun supported bit => <[mapToOptional bit := false]> supported) ∅ order.

(** [features] is visited in the given order; [ord bit] orders the dependencies of [bit].
    The map of supported features is the one the caller shares. *)
Fixpoint validateDeps (fuel : nat) (ord : Z -> list Z) (features : list Z) (supported : gmap Z bool)
    : outcome dep_err (gmap Z bool) :=
  let validateSub := match fuel with O => fun _ _ => Panic | S fuel' => validateDeps fuel' ord end in
  (fix loop features supported :=
     match features with
     | [] => Ok supported
     | bit :: rest =>
         let bit := mapToOptional bit in
         match supported !! bit with
         | None => Err (ErrMissingFeatureDep bit)
         | Some true => loop rest supported
         | Some false =>
             supported <~ validateSub (ord bit) supported ;
             loop rest (<[bit := true]> supported)
         end
     end) features supported.

(** The longest chain of dependencies has three features. *)
Definition ValidateDeps (order order' : list Z) (ord : Z -> list Z) (fv : Vector.t) : outcome dep_err unit :=
  let supported := initSupported order in
  _ <~ validateDeps 3 ord order' supported ; Ok tt.

Definition ValidateRequired (fv : Vector.t) (order : list Z) : option (list Z) :=
  let unknown := Vector.UnknownRequiredFeatures fv order in
  if bool_decide (0 < length unknown)%nat then Some unknown else None.

(** ** Feature sets *)

Definition SetInit : Z := 0.
Definition SetLegacyGlobal : Z := 1.
Definition SetNodeAnn : Z := 2.
Definition SetInvoice : Z := 3.
Definition SetInvoiceAmp : Z := 4.

Definition defaultSetDesc : gmap Z (gset Z) := list_to_map [
  (DataLossProtectRequired, {[SetInit; SetNodeAnn]});
  (GossipQueriesOptional, {[SetInit; SetNodeAnn]});
  (TLVOnionPayloadOptional, {[SetInit; SetNodeAnn; SetInvoice; SetInvoiceAmp; SetLegacyGlobal]});
  (StaticRemoteKeyRequired, {[SetInit; SetNodeAnn; SetLegacyGlobal]});
  (UpfrontShutdownScriptOptional, {[SetInit; SetNodeAnn]});
  (PaymentAddrRequired, {[SetInit; SetNodeAnn; SetInvoice; SetInvoiceAmp]});
  (MPPOptional, {[SetInit; SetNodeAnn; SetInvoice]});
  (AnchorsZeroFeeHtlcTxOptional, {[SetInit; SetNodeAnn]});
  (WumboChannelsOptional, {[SetInit; SetNodeAnn]});
  (AMPOptional, {[SetInit; SetNodeAnn]});
  (AMPRequired, {[SetInvoiceAmp]});
  (ExplicitChannelTypeOptional, {[SetInit; SetNodeAnn]});
  (ScriptEnforcedLeaseOptional, {[SetInit; SetNodeAnn]}) ].

Record Config := mkConfig {
  NoTLVOnion : bool;
  NoStaticRemoteKey : bool;
  NoAnchors : bool;
  NoWumbo : bool;
  NoScriptEnforcementLease : bool;
}.

Inductive manager_err : Type :=
  | ErrSetPair (bit set : Z)
  | ErrInvalidSet (set : Z) (e : dep_err).

(** The manager: the raw vector of each set. *)
Definition Manager : Type := gmap Z (gset Z).

Definition unset_all (raw : gset Z) (bits : list Z) : gset Z := foldl Raw.Unset raw bits.

(** The bits of one entry of the description are set in each of its sets. *)
Fixpoint set_in (bit : Z) (sets : list Z) (fsets : Manager) : outcome manager_err Manager :=
  match sets with
  | [] => Ok fsets
  | set :: rest =>
      let fv := default (Raw.New []) (fsets !! set) in
      match Raw.SafeSet fv bit with
      | (_, Some _) => Err (ErrSetPair bit set)
      | (fv, None) => set_in bit rest (<[set := fv]> fsets)
      end
  end.

Fixpoint build_sets (desc : list (Z * list Z)) (fsets : Manager) : outcome manager_err Manager :=
  match desc with
  | [] => Ok fsets
  | (bit, sets) :: rest => fsets <~ set_in bit sets fsets ; build_sets rest fsets
  end.

(** The bits that depend on anchors; [depsOrder] visits the dependencies. *)
Definition unset_dependents (depsOrder : list (Z * list Z)) (raw : gset Z) : gset Z :=
  foldl (fun raw bd =>
    foldl (fun raw depFeature =>
      if bool_decide (depFeature = AnchorsZeroFeeHtlcTxRequired) || bool_decide (depFeature = AnchorsZeroFeeHtlcTxOptional)
      then Raw.Unset raw bd.1 else raw) raw bd.2) raw depsOrder.

Definition apply_config (cfg : Config) (depsOrder : list (Z * list Z)) (raw : gset Z) : gset Z :=
  let raw := if NoTLVOnion cfg
    then unset_all raw [TLVOnionPayloadOptional; TLVOnionPayloadRequired; PaymentAddrOptional; PaymentAddrRequired;
                        MPPOptional; MPPRequired; AMPOptional; AMPRequired] else raw in
  let raw := if NoStaticRemoteKey cfg
    then unset_all raw [StaticRemoteKeyOptional; StaticRemoteKeyRequired] else raw in
  let raw := if NoAnchors cfg
    then unset_dependents depsOrder (unset_all raw [AnchorsZeroFeeHtlcTxOptional; AnchorsZeroFeeHtlcTxRequired]) else raw in
  let raw := if NoWumbo cfg then unset_all raw [WumboChannelsOptional; WumboChannelsRequired] else raw in
  if NoScriptEnforcementLease cfg
  then unset_all raw [ScriptEnforcedLeaseOptional; ScriptEnforcedLeaseRequired] else raw.

(** The orders in which the maps are visited: the description, its sets, the sets of the
    manager, the bits of a vector (twice) and the dependencies. *)
Record orders := mkOrders {
  desc_order : list (Z * list Z);
  sets_order : list Z;
  bits_order : gset Z -> list Z;
  bits_order' : gset Z -> list Z;
  deps_order : Z -> list Z;
  all_deps_order : list (Z * list Z);
}.

(** The vectors are changed in place. *)
Fixpoint configure (cfg : Config) (o : orders) (sets : list Z) (fsets : Manager) : outcome manager_err Manager :=
  match sets with
  | [] => Ok fsets
  | set :: rest =>
      let raw := apply_config cfg (all_deps_order o) (default ∅ (fsets !! set)) in
      let fv := Vector.NewFeatureVector (Some raw) Features in
      match ValidateDeps (bits_order o raw) (bits_order' o raw) (deps_order o) fv with
      | Ok _ => configure cfg o rest (<[set := raw]> fsets)
      | Err e => Err (ErrInvalidSet set e)
      | Panic => Panic
      end
  end.

Definition newManager (cfg : Config) (o : orders) : outcome manager_err Manager :=
  fsets <~ build_sets (desc_order o) ∅ ; configure cfg o (sets_order o) fsets.

(** The maps of the result are visited in the order given. *)
Definition GetRaw (m : Manager) (order : gset Z -> list Z) (set : Z) : gset Z :=
  match m !! set with Some fv => Raw.Clone (order fv) | None => Raw.New [] end.

Definition Get (m : Manager) (order : gset Z -> list Z) (set : Z) : Vector.t :=
  Vector.NewFeatureVector (Some (GetRaw m order set)) Features.

Definition ListSets (order : list Z) : list Z := foldl (fun sets set => sets ++ [set]) [] order.

(** ** What is promised *)

(** The optional variants of a set of bits. *)
Definition optionals (fv : gset Z) : gset Z := set_map mapToOptional fv.

(** Every dependency of a feature is a feature. *)
Definition closed (D : gset Z) : Prop := forall a b, a ∈ D -> b ∈ deps_of a -> b ∈ D.

(** An order of a set, and of a map of sets. *)
Definition orders_map (l : list (Z * list Z)) (m : gmap Z (gset Z)) : Prop :=
  NoDup l.*1 /\ (forall b s, (b, s) ∈ l -> exists d, m !! b = Some d /\ s ≡ₚ elements d) /\
  (forall b d, m !! b = Some d -> exists s, (b, s) ∈ l).

(** The height of a feature in the graph of dependencies. *)
Definition rank (bit : Z) : nat :=
  if bool_decide (bit ∈ [MPPOptional; AMPOptional; ScriptEnforcedLeaseOptional]) then 2
  else if bool_decide (bit ∈ [PaymentAddrOptional; AnchorsOptional; AnchorsZeroFeeHtlcTxOptional]) then 1 else 0.

(** The bits a description puts into a set. *)
Definition described (desc : gmap Z (gset Z)) (set : Z) : gset Z :=
  dom (filter (fun bd => set ∈ bd.2) desc).

(** Supported features whose dependencies were checked. *)
Definition checked (s : gmap Z bool) (b : Z) : Prop := s !! b = Some true.

(** A map in which a checked bit has its dependencies among the supported ones. *)
Definition sound (s : gmap Z bool) : Prop := forall a b, checked s a -> b ∈ deps_of a -> b ∈ dom s.

(** What the loop does with one bit. *)
Definition sub_deps (fuel : nat) (ord : Z -> list Z) : list Z -> gmap Z bool -> outcome dep_err (gmap Z bool) :=
  match fuel with O => fun _ _ => Panic | S fuel' => validateDeps fuel' ord end.

(** The bits of a set that is not there yet are none. *)
Definition content (m : Manager) (set : Z) : gset Z := default ∅ (m !! set).

(** The entries of a description, when no two of them conflict. *)
Definition compatible (desc : list (Z * list Z)) : Prop :=
  forall b s b' s' set, (b, s) ∈ desc -> (b', s') ∈ desc -> set ∈ s -> set ∈ s' -> b' <> Z.lxor b 1.

Definition puts (desc : list (Z * list Z)) (set b : Z) : Prop := exists s, (b, s) ∈ desc /\ set ∈ s.

(** All sets of the default description. *)
Definition all_sets : list Z := [SetInit; SetLegacyGlobal; SetNodeAnn; SetInvoice; SetInvoiceAmp].

(** What a configuration turns off. *)
Definition removed (cfg : Config) : gset Z :=
  let only (b : bool) (l : gset Z) : gset Z := if b then l else ∅ in
  only (NoTLVOnion cfg) {[TLVOnionPayloadOptional; TLVOnionPayloadRequired; PaymentAddrOptional; PaymentAddrRequired;
                          MPPOptional; MPPRequired; AMPOptional; AMPRequired]} ∪
  only (NoStaticRemoteKey cfg) {[StaticRemoteKeyOptional; StaticRemoteKeyRequired]} ∪
  only (NoAnchors cfg) {[AnchorsZeroFeeHtlcTxOptional; AnchorsZeroFeeHtlcTxRequired; ScriptEnforcedLeaseOptional]} ∪
  only (NoWumbo cfg) {[WumboChannelsOptional; WumboChannelsRequired]} ∪
  only (NoScriptEnforcementLease cfg) {[ScriptEnforcedLeaseOptional; ScriptEnforcedLeaseRequired]}.

(** The features a set advertises under a configuration. *)
Definition advertised (cfg : Config) (set : Z) : gset Z := described defaultSetDesc set ∖ removed cfg.

(** Orders a run can visit the maps in. *)
Definition valid_orders (o : orders) : Prop :=
  orders_map (desc_order o) defaultSetDesc /\ orders_map (all_deps_order o) deps /\ sets_order o ≡ₚ all_sets /\
  (forall fv, bits_order o fv ≡ₚ elements fv) /\ (forall fv, bits_order' o fv ≡ₚ elements fv) /\
  (forall b, deps_order o b ≡ₚ elements (deps_of b)).

(** The dependencies a set is missing. *)
Definition missing (D : gset Z) : list Z :=
  filter (fun b => b ∉ D) (elements D ≫= fun a => elements (deps_of a)).

(** Anchors stay on without the static remote key they need. *)
Definition keyless (cfg : Config) : bool := NoStaticRemoteKey cfg && negb (NoAnchors cfg).

Definition expect_missing (cfg : Config) (set : Z) : list Z :=
  if keyless cfg && bool_decide (set = SetInit \/ set = SetNodeAnn) then [StaticRemoteKeyOptional] else [].

(** The order in which this model happens to list a map of sets. *)
Definition listed (m : gmap Z (gset Z)) : list (Z * list Z) := prod_map id elements <$> map_to_list m.

Definition default_config : Config := mkConfig false false false false false.
Definition keyless_config : Config := mkConfig false true false false false.

Definition some_orders : orders :=
  mkOrders (listed defaultSetDesc) all_sets elements elements (fun b => elements (deps_of b)) (listed deps).

(** ** Validation of dependencies *)

(** A rule on all entries of a table, checked by running over it. *)
Lemma table_forall (m : gmap Z (gset Z)) (P : Z -> Z -> bool) :
  forallb (fun bd => forallb (P bd.1) (elements bd.2)) (map_to_list m) = true ->
  forall a d b, m !! a = Some d -> b ∈ d -> P a b = true.
Proof.
  intros H a d b E Hb.
  rewrite forallb_forall in H. specialize (H (a, d) (proj1 (list_elem_of_In _ _) (proj2 (elem_of_map_to_list _ _ _) E))).
  rewrite forallb_forall in H. by apply H, list_elem_of_In, elem_of_elements.
Qed.

Lemma deps_forall (P : Z -> Z -> bool) :
  forallb (fun bd => forallb (P bd.1) (elements bd.2)) (map_to_list deps) = true ->
  forall a b, b ∈ deps_of a -> P a b = true.
Proof.
  intros H a b Hb. unfold deps_of in Hb. destruct (deps !! a) as [d|] eqn:E; [|by apply elem_of_empty in Hb].
  by apply (table_forall deps P H a d b).
Qed.

Lemma deps_optional a b : b ∈ deps_of a -> mapToOptional b = b.
Proof.
  intros H. apply (deps_forall (fun _ b => bool_decide (mapToOptional b = b))) in H; [by apply bool_decide_eq_true in H|].
  by vm_compute.
Qed.

Lemma deps_rank a b : b ∈ deps_of a -> (rank b < rank a)%nat.
Proof.
  intros H. apply (deps_forall (fun a b => bool_decide (rank b < rank a)%nat)) in H; [by apply bool_decide_eq_true in H|].
  by vm_compute.
Qed.

Lemma rank_lt_3 b : (rank b < 3)%nat.
Proof. unfold rank. repeat case_bool_decide; lia. Qed.

Lemma validateDeps_cons fuel ord b rest s :
  validateDeps fuel ord (b :: rest) s =
    match s !! mapToOptional b with
    | None => Err (ErrMissingFeatureDep (mapToOptional b))
    | Some true => validateDeps fuel ord rest s
    | Some false => s' <~ sub_deps fuel ord (ord (mapToOptional b)) s ;
                    validateDeps fuel ord rest (<[mapToOptional b := true]> s')
    end.
Proof. by destruct fuel. Qed.

Lemma validateDeps_nil fuel ord s : validateDeps fuel ord [] s = Ok s.
Proof. by destruct fuel. Qed.

Section validate.
Context (ord : Z -> list Z) (Hord : forall b, ord b ≡ₚ elements (deps_of b)).

Lemma ord_spec a b : b ∈ ord a <-> b ∈ deps_of a.
Proof. by rewrite Hord, elem_of_elements. Qed.

(** Recording a bit whose dependencies have been checked. *)
Lemma record_checked b (s s1 : gmap Z bool) :
  dom s1 = dom s -> sound s1 -> b ∈ dom s -> Forall (fun d => checked s1 (mapToOptional d)) (ord b) ->
  dom (<[b := true]> s1) = dom s /\ sound (<[b := true]> s1).
Proof.
  intros Hd Hs1 Hb Hr. assert (dom (<[b := true]> s1) = dom s) as Hd' by (rewrite dom_insert_L, Hd; set_solver).
  split; [done|]. intros x y Hx Hy. rewrite Hd', <- Hd. unfold checked in Hx.
  apply lookup_insert_Some in Hx as [[<- _]|[_ Hx]]; [|by eapply Hs1].
  rewrite Forall_forall in Hr. apply ord_spec in Hy as Hin. apply Hr in Hin.
  rewrite (deps_optional _ _ Hy) in Hin. by apply elem_of_dom_2 in Hin.
Qed.

Lemma validateDeps_ok fuel features s s' :
  validateDeps fuel ord features s = Ok s' -> sound s ->
  dom s' = dom s /\ sound s' /\ (forall b, checked s b -> checked s' b) /\
  Forall (fun b => checked s' (mapToOptional b)) features.
Proof.
  revert features s s'. induction fuel as [fuel IHf] using lt_wf_ind. intros features.
  induction features as [|b rest IH]; intros s s' H Hs; [rewrite validateDeps_nil in H; by injection H as <-|].
  rewrite validateDeps_cons in H. destruct (s !! mapToOptional b) as [[]|] eqn:E; [| |done].
  - destruct (IH s s' H Hs) as (Hd & Hs' & Hm & Hr). split_and!; try done. constructor; [by apply Hm|done].
  - obind_inv H. destruct fuel as [|fuel]; [done|]. cbn [sub_deps] in Hstep.
    destruct (IHf fuel ltac:(lia) _ _ _ Hstep Hs) as (Hd & Hs' & Hm & Hr).
    destruct (record_checked (mapToOptional b) s a Hd Hs' ltac:(by apply elem_of_dom_2 in E) Hr) as [Hda Hsa].
    set (a' := <[mapToOptional b := true]> a) in *.
    destruct (IH a' s' H Hsa) as (Hd2 & Hs2 & Hm2 & Hr2).
    split_and!; [congruence|done| |].
    + intros x Hx. apply Hm2. unfold checked, a'. destruct (decide (x = mapToOptional b)) as [->|];
        [by rewrite lookup_insert_eq|rewrite lookup_insert_ne by done; by apply Hm].
    + constructor; [|done]. apply Hm2. unfold checked, a'. by rewrite lookup_insert_eq.
Qed.

(** The graph has no cycles: the fuel is enough for every set of features. *)
Lemma validateDeps_no_panic fuel features s :
  Forall (fun b => rank (mapToOptional b) < fuel)%nat features -> validateDeps fuel ord features s <> Panic.
Proof.
  revert features s. induction fuel as [fuel IHf] using lt_wf_ind. intros features.
  induction features as [|b rest IH]; intros s Hf; [by rewrite validateDeps_nil|].
  inversion Hf as [|? ? Hr Hf']; subst. rewrite validateDeps_cons. destruct (s !! mapToOptional b) as [[]|]; [by apply IH| |done].
  destruct fuel as [|fuel]; [lia|]. cbn [sub_deps].
  assert (validateDeps fuel ord (ord (mapToOptional b)) s <> Panic) as Hn.
  { apply IHf; [lia|]. apply Forall_forall. intros x Hx%ord_spec. rewrite (deps_optional _ _ Hx). apply deps_rank in Hx. lia. }
  destruct (validateDeps fuel ord (ord (mapToOptional b)) s); cbn [obind]; [by apply IH|done|done].
Qed.

(** Errors are about a feature that is not there, one that was asked for or a dependency
    of one that is there. *)
Lemma validateDeps_missing fuel features s r :
  validateDeps fuel ord features s = Err (ErrMissingFeatureDep r) -> sound s ->
  r ∉ dom s /\ ((exists b, b ∈ features /\ r = mapToOptional b) \/ exists a, a ∈ dom s /\ r ∈ deps_of a).
Proof.
  revert features s. induction fuel as [fuel IHf] using lt_wf_ind. intros features.
  induction features as [|b rest IH]; intros s H Hs; [by rewrite validateDeps_nil in H|].
  rewrite validateDeps_cons in H. destruct (s !! mapToOptional b) as [[]|] eqn:E.
  - destruct (IH s H Hs) as [Hn [(x & Hx & ->)|?]]; (split; [done|]); [left; set_solver|by right].
  - destruct fuel as [|fuel]; [done|]. cbn [sub_deps] in H.
    destruct (validateDeps fuel ord (ord (mapToOptional b)) s) as [s1| |] eqn:E1; [|..|done]; cbn [obind] in H.
    + destruct (validateDeps_ok fuel _ _ _ E1 Hs) as (Hd & Hs1 & _ & Hr).
      destruct (record_checked (mapToOptional b) s s1 Hd Hs1 ltac:(by apply elem_of_dom_2 in E) Hr) as [Hd' Hsb].
      rewrite <- Hd'. destruct (IH (<[mapToOptional b := true]> s1) H Hsb) as [Hn [(x & Hx & ->)|?]];
        (split; [done|]); [left; set_solver|by right].
    + injection H as ->. destruct (IHf fuel ltac:(lia) _ _ E1 Hs) as [Hn [(x & Hx & ->)|?]]; (split; [done|]); [|by right].
      right. exists (mapToOptional b). apply ord_spec in Hx. rewrite (deps_optional _ _ Hx). split; [by apply elem_of_dom_2 in E|done].
  - injection H as <-. split; [by apply not_elem_of_dom|]. left. exists b. set_solver.
Qed.

End validate.

Lemma initSupported_spec order :
  dom (initSupported order) = optionals (list_to_set order) /\ forall b, ~ checked (initSupported order) b.
Proof.
  unfold initSupported, optionals. induction order as [|b order IH] using rev_ind.
  { split; [set_solver|]. intros b Hb. unfold checked in Hb. cbn [foldl] in Hb. by rewrite lookup_empty in Hb. }
  rewrite foldl_app. cbn [foldl]. destruct IH as [Hd Hc]. split.
  - rewrite dom_insert_L, Hd, list_to_set_app_L. set_solver.
  - intros x Hx. unfold checked in Hx. apply lookup_insert_Some in Hx as [[_ ?]|[_ Hx]]; [done|by apply (Hc x)].
Qed.

Lemma order_set order (fv : gset Z) : order ≡ₚ elements fv -> list_to_set order = fv.
Proof. intros H. apply set_eq. intros x. by rewrite elem_of_list_to_set, H, elem_of_elements. Qed.

(** The check accepts exactly the closed vectors, and names a missing dependency. *)
Lemma ValidateDeps_spec order order' ord fv :
  order ≡ₚ elements (Vector.raw fv) -> order' ≡ₚ elements (Vector.raw fv) ->
  (forall b, ord b ≡ₚ elements (deps_of b)) ->
  (closed (optionals (Vector.raw fv)) /\ ValidateDeps order order' ord fv = Ok tt) \/
  exists a b, a ∈ optionals (Vector.raw fv) /\ b ∈ deps_of a /\ b ∉ optionals (Vector.raw fv) /\
    ValidateDeps order order' ord fv = Err (ErrMissingFeatureDep b).
Proof.
  intros Ho Ho' Hord. unfold ValidateDeps. destruct (initSupported_spec order) as [Hd Hc].
  rewrite (order_set order _ Ho) in Hd. set (D := optionals (Vector.raw fv)) in *.
  assert (sound (initSupported order)) as Hs by (intros a b Ha; by destruct (Hc a)).
  assert (forall b, b ∈ order' -> mapToOptional b ∈ D) as Hin.
  { intros b. rewrite Ho', elem_of_elements. unfold D, optionals. intros. by apply elem_of_map_2. }
  destruct (validateDeps 3 ord order' (initSupported order)) as [s'|[r]|] eqn:E; cbn [obind].
  - left. split; [|done]. destruct (validateDeps_ok ord Hord 3 _ _ _ E Hs) as (Hd' & Hs' & _ & Hr).
    intros a b Ha Hb. rewrite <- Hd, <- Hd'. eapply Hs'; [|done].
    apply elem_of_map in Ha as (x & -> & Hx). rewrite Forall_forall in Hr. apply Hr. by rewrite Ho', elem_of_elements.
  - right. destruct (validateDeps_missing ord Hord 3 _ _ _ E Hs) as [Hn [(b & Hb & ->)|(a & Ha & Hr)]]; rewrite Hd in *.
    + by destruct Hn; apply Hin.
    + by exists a, r.
  - destruct (validateDeps_no_panic ord Hord 3 order' (initSupported order)); [|done].
    apply Forall_forall. intros b _. apply rank_lt_3.
Qed.

(** ** Building the sets *)

Lemma set_in_spec bit sets m :
  (forall set, set ∈ sets -> Z.lxor bit 1 ∉ content m set) ->
  exists m', set_in bit sets m = Ok m' /\ forall set,
    m' !! set = if bool_decide (set ∈ sets) then Some ({[bit]} ∪ content m set) else m !! set.
Proof.
  revert m. induction sets as [|x sets IH]; intros m H; cbn [set_in].
  { exists m. split; [done|]. intros set. by rewrite bool_decide_eq_false_2 by set_solver. }
  unfold Raw.SafeSet. change (default (Raw.New []) (m !! x)) with (content m x).
  rewrite bool_decide_eq_false_2 by (apply H; set_solver).
  set (fv := Raw.Set_ (content m x) bit).
  assert (forall set, content (<[x := fv]> m) set = if bool_decide (set = x) then fv else content m set) as Hc.
  { intros set. unfold content, Manager in *. case_bool_decide as Hx; [rewrite Hx; by rewrite lookup_insert_eq|by rewrite lookup_insert_ne]. }
  destruct (IH (<[x := fv]> m)) as (m' & -> & Hm').
  { intros set Hs. rewrite Hc. case_bool_decide as Hx; [rewrite Hx in Hs|apply H; set_solver].
    unfold fv, Raw.Set_. rewrite not_elem_of_union, not_elem_of_singleton. split; [apply RawFacts.lxor_1_ne|apply H; set_solver]. }
  exists m'. split; [done|]. intros set. rewrite Hm', Hc. clear. unfold Manager, fv, Raw.Set_ in *.
  rewrite (bool_decide_ext (set ∈ x :: sets) (set = x \/ set ∈ sets)) by apply elem_of_cons.
  destruct (decide (set = x)) as [->|Hx].
  - rewrite (bool_decide_eq_true_2 (x = x)), (bool_decide_eq_true_2 (_ \/ _)), lookup_insert_eq by auto.
    case_bool_decide; [|done]. f_equal. rewrite (assoc_L (∪)). f_equal. by apply union_idemp_L.
  - rewrite (bool_decide_eq_false_2 (set = x)), lookup_insert_ne by done.
    rewrite (bool_decide_ext (set = x \/ set ∈ sets) (set ∈ sets)) by tauto. done.
Qed.

Lemma build_sets_spec desc m :
  compatible desc -> (forall set b, b ∈ content m set -> ~ puts desc set (Z.lxor b 1)) ->
  exists m', build_sets desc m = Ok m' /\ (forall set b, b ∈ content m' set <-> b ∈ content m set \/ puts desc set b) /\
    forall set, is_Some (m' !! set) <-> is_Some (m !! set) \/ exists b, puts desc set b.
Proof.
  revert m. induction desc as [|[bit sets] desc IH]; intros m Hc Hm; cbn [build_sets].
  { exists m. unfold puts. split; [done|]. split; intros; set_solver. }
  assert (forall set b, puts ((bit, sets) :: desc) set b <-> (b = bit /\ set ∈ sets) \/ puts desc set b) as Hp.
  { intros set b. unfold puts. setoid_rewrite elem_of_cons. split.
    - intros (s & [[= -> ->]|?] & ?); [by left|right; by exists s].
    - intros [[-> ?]|(s & ? & ?)]; [exists sets; auto|exists s; auto]. }
  destruct (set_in_spec bit sets m) as (m1 & -> & H1).
  { intros set Hs Hb. apply (Hm set _ Hb). rewrite RawFacts.lxor_1_invol, Hp. by left. }
  cbn [obind].
  assert (forall set b, b ∈ content m1 set <-> b ∈ content m set \/ (b = bit /\ set ∈ sets)) as Hc1.
  { intros set b. unfold content at 1. rewrite H1. case_bool_decide; cbn [default from_option id].
    - rewrite elem_of_union, elem_of_singleton. tauto.
    - fold (content m set). tauto. }
  destruct (IH m1) as (m' & -> & Hm' & Hs').
  - intros b s b' s' set Hb Hb'. apply (Hc b s b' s' set); by right.
  - intros set b [Hb|[-> Hb]]%Hc1 Hq; [by apply (Hm set b Hb), Hp; right|].
    destruct Hq as (s & Hin & Hs). by apply (Hc bit sets _ s set (list_elem_of_here _ _) (list_elem_of_further _ _ _ Hin) Hb Hs).
  - exists m'. split; [done|]. split.
    + intros set b. rewrite Hm', Hc1, Hp. tauto.
    + intros set. rewrite Hs', H1. setoid_rewrite Hp. case_bool_decide as Hin.
      * split; [intros _|intros _; left; by eexists]. right. exists bit. by left.
      * split; [|].
        -- intros [?|[b ?]]; [by left|right; exists b; by right].
        -- intros [?|[b [[_ ?]|?]]]; [by left|done|right; by exists b].
Qed.

Lemma orders_map_puts l m set b : orders_map l m -> puts l set b <-> exists d, m !! b = Some d /\ set ∈ d.
Proof.
  intros (Hn & Hl & Hm). unfold puts. split.
  - intros (s & Hin & Hs). destruct (Hl b s Hin) as (d & Hd & Hp). exists d. by rewrite <- elem_of_elements, <- Hp.
  - intros (d & Hd & Hs). destruct (Hm b d Hd) as (s & Hin). destruct (Hl b s Hin) as (d' & Hd' & Hp).
    exists s. split; [done|]. rewrite Hp, elem_of_elements. congruence.
Qed.

Lemma described_spec desc set b : b ∈ described desc set <-> exists d, desc !! b = Some d /\ set ∈ d.
Proof.
  unfold described. rewrite elem_of_dom. unfold is_Some. setoid_rewrite map_lookup_filter_Some. naive_solver.
Qed.

(** No set gets both bits of a pair. *)
Lemma defaultSetDesc_pairs :
  forallb (fun bd => forallb ((fun b set => negb (match defaultSetDesc !! Z.lxor b 1 with
    Some d => bool_decide (set ∈ d) | None => false end)) bd.1) (elements bd.2)) (map_to_list defaultSetDesc) = true.
Proof. vm_compute. reflexivity. Qed.

Lemma defaultSetDesc_compatible l : orders_map l defaultSetDesc -> compatible l.
Proof.
  intros Hl b s b' s' set Hb Hb' Hs Hs' ->.
  assert (puts l set b) as (d & Hd & Hin)%(orders_map_puts l defaultSetDesc) by (by exists s); [|done].
  assert (puts l set (Z.lxor b 1)) as (d' & Hd' & Hin')%(orders_map_puts l defaultSetDesc) by (by exists s'); [|done].
  pose proof (table_forall _ _ defaultSetDesc_pairs b d set Hd Hin) as H. cbn beta in H.
  rewrite Hd', bool_decide_eq_true_2 in H by done. done.
Qed.

(** Every set of the description is known. *)
Lemma default_sets set : (exists b, b ∈ described defaultSetDesc set) <-> set ∈ all_sets.
Proof.
  split.
  - intros [b (d & Hd & Hin)%described_spec].
    apply (bool_decide_eq_true_1 (set ∈ all_sets)).
    apply (table_forall defaultSetDesc (fun _ set => bool_decide (set ∈ all_sets)) ltac:(by vm_compute) b d set Hd Hin).
  - intros H. exists TLVOnionPayloadOptional.
    assert (forallb (fun set => bool_decide (TLVOnionPayloadOptional ∈ described defaultSetDesc set)) all_sets = true) as Hb by (by vm_compute).
    rewrite forallb_forall in Hb. by apply (bool_decide_eq_true_1 _ (Hb set (proj1 (list_elem_of_In _ _) H))).
Qed.

Lemma built_sets l : orders_map l defaultSetDesc ->
  exists m, build_sets l ∅ = Ok m /\ forall set,
    m !! set = if bool_decide (set ∈ all_sets) then Some (described defaultSetDesc set) else None.
Proof.
  intros Hl. destruct (build_sets_spec l ∅ (defaultSetDesc_compatible l Hl)) as (m & -> & Hm & Hs).
  { intros set b Hb. unfold content, Manager in Hb. by rewrite lookup_empty in Hb. }
  assert (forall set b, b ∈ content m set <-> b ∈ described defaultSetDesc set) as Hc.
  { intros set b. rewrite Hm, described_spec, (orders_map_puts _ _ set b Hl). unfold content, Manager.
    rewrite lookup_empty. cbn [default from_option]. set_solver. }
  exists m. split; [done|]. intros set. specialize (Hs set). case_bool_decide as Hin.
  - apply default_sets in Hin as [b Hb]. destruct (proj2 Hs) as [fv Hfv].
    { right. exists b. by rewrite (orders_map_puts _ _ set b Hl), <- described_spec. }
    rewrite Hfv. f_equal. apply set_eq. intros x. rewrite <- Hc. unfold content. by rewrite Hfv.
  - destruct (m !! set) as [fv|] eqn:E; [|done]. destruct Hin. apply default_sets.
    destruct (proj1 Hs ltac:(by eexists)) as [H|[b Hb]]; [unfold Manager in H; by rewrite lookup_empty in H; destruct H|].
    exists b. by rewrite described_spec, <- (orders_map_puts _ _ set b Hl).
Qed.

(** ** Removing what the configuration turns off *)

Lemma unset_all_spec bits raw : unset_all raw bits = raw ∖ list_to_set bits.
Proof.
  unfold unset_all. revert raw. induction bits as [|b bits IH]; intros raw; cbn [foldl list_to_set]; [set_solver|].
  rewrite IH. unfold Raw.Unset. clear. set_solver.
Qed.

Lemma unset_dependents_spec l raw : orders_map l deps ->
  unset_dependents l raw = raw ∖ {[ScriptEnforcedLeaseOptional]}.
Proof.
  intros Hl. apply set_eq. intros x.
  assert (forall d raw, x ∈ foldl (fun raw depFeature =>
      if bool_decide (depFeature = AnchorsZeroFeeHtlcTxRequired) || bool_decide (depFeature = AnchorsZeroFeeHtlcTxOptional)
      then Raw.Unset raw d.1 else raw) raw d.2 <->
    x ∈ raw /\ ~ (x = d.1 /\ exists a, a ∈ d.2 /\ (a = AnchorsZeroFeeHtlcTxRequired \/ a = AnchorsZeroFeeHtlcTxOptional))) as Hin.
  { intros [b d]. cbn [fst snd]. induction d as [|a d IH]; intros raw0; cbn [foldl]; [set_solver|]. rewrite IH.
    setoid_rewrite elem_of_cons. repeat case_bool_decide; cbn [orb]; unfold Raw.Unset;
      rewrite ?elem_of_difference, ?elem_of_singleton; naive_solver. }
  assert (forall l raw, x ∈ unset_dependents l raw <->
    x ∈ raw /\ ~ exists a, puts l a x /\ (a = AnchorsZeroFeeHtlcTxRequired \/ a = AnchorsZeroFeeHtlcTxOptional)) as Hout.
  { clear -Hin. unfold unset_dependents, puts. induction l as [|[b d] l IH]; intros raw; cbn [foldl]; [set_solver|].
    rewrite IH, (Hin (b, d)). setoid_rewrite elem_of_cons. cbn [fst snd]. naive_solver. }
  rewrite Hout, elem_of_difference, elem_of_singleton. setoid_rewrite (orders_map_puts l deps _ x Hl).
  split; intros [Hx Hn]; (split; [done|]); intros H; apply Hn.
  - subst x. exists AnchorsZeroFeeHtlcTxOptional. split; [|by right].
    exists {[ExplicitChannelTypeOptional; AnchorsZeroFeeHtlcTxOptional]}. split; [by vm_compute|set_solver].
  - destruct H as (a & (d & Hd & Ha) & Hor).
    pose proof (table_forall deps (fun x a => negb (bool_decide (a = AnchorsZeroFeeHtlcTxRequired \/ a = AnchorsZeroFeeHtlcTxOptional))
      || bool_decide (x = ScriptEnforcedLeaseOptional)) ltac:(by vm_compute) x d a Hd Ha) as Hb. cbn beta in Hb.
    rewrite bool_decide_eq_true_2 in Hb by done. by apply bool_decide_eq_true in Hb.
Qed.

Lemma minus_if (b : bool) (raw X : gset Z) : (if b then raw ∖ X else raw) = raw ∖ (if b then X else ∅).
Proof. destruct b; [done|]. by rewrite difference_empty_L. Qed.

Lemma apply_config_spec cfg l raw : orders_map l deps -> apply_config cfg l raw = raw ∖ removed cfg.
Proof.
  intros Hl. unfold apply_config, removed. rewrite !(unset_dependents_spec l _ Hl), !unset_all_spec.
  rewrite (difference_difference_l_L (if NoStaticRemoteKey cfg then _ else _)), !minus_if, !difference_difference_l_L.
  cbn [list_to_set]. rewrite !(right_id_L ∅ (∪)), !(assoc_L (∪)). done.
Qed.

(** The sets are validated one after the other; each is left as the configuration has it. *)
Lemma configure_spec cfg o sets m :
  valid_orders o -> (forall set, set ∈ sets -> m !! set = Some (described defaultSetDesc set)) -> NoDup sets ->
  (exists m', configure cfg o sets m = Ok m' /\ (forall set, set ∈ sets -> closed (optionals (advertised cfg set))) /\
    forall set, m' !! set = if bool_decide (set ∈ sets) then Some (advertised cfg set) else m !! set) \/
  (exists set a b, configure cfg o sets m = Err (ErrInvalidSet set (ErrMissingFeatureDep b)) /\ set ∈ sets /\
    a ∈ optionals (advertised cfg set) /\ b ∈ deps_of a /\ b ∉ optionals (advertised cfg set)).
Proof.
  intros (Hdesc & Hdeps & _ & Hb & Hb' & Hd) Hm Hn. revert m Hm. induction Hn as [|x sets Hx Hn IH]; intros m Hm; cbn [configure].
  { left. exists m. split_and!; [done|set_solver|]. intros set. by rewrite bool_decide_eq_false_2 by set_solver. }
  rewrite (Hm x) by set_solver. cbn [default from_option id]. rewrite (apply_config_spec cfg _ _ Hdeps). fold (advertised cfg x).
  set (fv := Vector.NewFeatureVector (Some (advertised cfg x)) Features).
  destruct (ValidateDeps_spec (bits_order o (advertised cfg x)) (bits_order' o (advertised cfg x)) (deps_order o) fv
    (Hb _) (Hb' _) Hd) as [[Hcl ->]|(a & b & Ha & Hab & Hnb & ->)].
  2:{ right. exists x, a, b. split_and!; [done|set_solver|done..]. }
  change (Vector.raw fv) with (advertised cfg x) in Hcl. unfold Manager in *.
  destruct (IH (<[x := advertised cfg x]> m)) as [(m' & -> & Hc & Hm')|(set & a & b & -> & Hset & Hrest)].
  - intros set Hs. rewrite lookup_insert_ne by set_solver. apply Hm. set_solver.
  - left. exists m'. split_and!; [done| |].
    + intros set [->|Hs]%elem_of_cons; [done|by apply Hc].
    + intros set. rewrite Hm', (bool_decide_ext (set ∈ x :: sets) (set = x \/ set ∈ sets)) by apply elem_of_cons.
      destruct (decide (set = x)) as [->|Hne].
      * rewrite lookup_insert_eq, (bool_decide_eq_true_2 (_ \/ _)) by auto. by case_bool_decide.
      * rewrite lookup_insert_ne by done. by rewrite (bool_decide_ext (set = x \/ set ∈ sets) (set ∈ sets)) by tauto.
  - right. exists set, a, b. split_and!; [done|set_solver|apply Hrest..].
Qed.

Lemma missing_spec D b : b ∈ missing D <-> b ∉ D /\ exists a, a ∈ D /\ b ∈ deps_of a.
Proof.
  unfold missing. rewrite list_elem_of_filter, list_elem_of_bind. setoid_rewrite elem_of_elements. naive_solver.
Qed.

Lemma missing_table : forallb (fun a => forallb (fun b => forallb (fun c => forallb (fun d => forallb (fun e => forallb (fun set =>
    bool_decide (missing (optionals (advertised (mkConfig a b c d e) set)) = expect_missing (mkConfig a b c d e) set))
    all_sets) [true; false]) [true; false]) [true; false]) [true; false]) [true; false] = true.
Proof. vm_compute. reflexivity. Qed.

Lemma missing_advertised cfg set : set ∈ all_sets -> missing (optionals (advertised cfg set)) = expect_missing cfg set.
Proof.
  intros H%list_elem_of_In. destruct cfg as [a b c d e].
  assert (forall x : bool, In x [true; false]) as Hb by (intros []; cbn; auto).
  pose proof missing_table as T.
  rewrite forallb_forall in T. specialize (T a (Hb a)). rewrite forallb_forall in T. specialize (T b (Hb b)).
  rewrite forallb_forall in T. specialize (T c (Hb c)). rewrite forallb_forall in T. specialize (T d (Hb d)).
  rewrite forallb_forall in T. specialize (T e (Hb e)).
  rewrite forallb_forall in T. by apply (bool_decide_eq_true_1 _ (T set H)).
Qed.

Lemma orders_map_listed m : orders_map (listed m) m.
Proof.
  unfold listed. split_and!.
  - rewrite <- list_fmap_compose. apply (NoDup_fst_map_to_list m).
  - intros b s ([b' d] & [= -> ->] & Hin)%list_elem_of_fmap. exists d. by apply elem_of_map_to_list in Hin.
  - intros b d H. exists (elements d). apply list_elem_of_fmap. exists (b, d). by rewrite elem_of_map_to_list.
Qed.

Lemma some_orders_valid : valid_orders some_orders.
Proof. unfold valid_orders. cbn. split_and!; try done; apply orders_map_listed. Qed.

(** The check of dependencies accepts exactly the vectors in which every feature has its
    dependencies, in whatever order the maps are visited, and it always returns; the error
    names a dependency that a feature of the vector lacks. *)
Theorem ValidateDeps_closed order order' ord fv :
  order ≡ₚ elements (Vector.raw fv) -> order' ≡ₚ elements (Vector.raw fv) ->
  (forall b, ord b ≡ₚ elements (deps_of b)) ->
  (ValidateDeps order order' ord fv = Ok tt <-> closed (optionals (Vector.raw fv))) /\
  ValidateDeps order order' ord fv <> Panic /\
  (forall b, ValidateDeps order order' ord fv = Err (ErrMissingFeatureDep b) -> b ∈ missing (optionals (Vector.raw fv))).
Proof.
  intros H1 H2 H3. destruct (ValidateDeps_spec order order' ord fv H1 H2 H3) as [[Hc ->]|(a & b & Ha & Hb & Hn & ->)].
  - done.
  - split_and!; [|done|].
    + split; [done|]. intros Hc. by destruct Hn; apply (Hc a).
    + intros ? [= <-]. apply missing_spec. split; [done|by exists a].
Qed.

Lemma Clone_order order (fv : gset Z) : order ≡ₚ elements fv -> Raw.Clone order = fv.
Proof.
  intros H. rewrite <- (order_set order fv H). clear. unfold Raw.Clone, Raw.New, Raw.Set_. cbn [foldl].
  induction order as [|b order IH] using rev_ind; [done|]. rewrite foldl_app. cbn [foldl]. rewrite IH. set_solver.
Qed.

(** The feature manager, for every configuration and in whatever order the maps are
    visited.  It can be made unless static remote keys are turned off and anchors, which need
    them, are not: then the error names the missing feature and a set that has anchors.
    Otherwise a set advertises its features of the default description less those turned off,
    an unknown set none, and no advertised feature lacks one that it depends on. *)
Theorem NewManager_advertises cfg o :
  valid_orders o ->
  match newManager cfg o with
  | Ok m => keyless cfg = false /\ forall set order, (forall fv, order fv ≡ₚ elements fv) ->
      GetRaw m order set = (if bool_decide (set ∈ all_sets) then advertised cfg set else ∅) /\
      closed (optionals (Vector.raw (Get m order set)))
  | Err e => keyless cfg = true /\ exists set, (set = SetInit \/ set = SetNodeAnn) /\
      e = ErrInvalidSet set (ErrMissingFeatureDep StaticRemoteKeyOptional)
  | Panic => False
  end.
Proof.
  intros Ho. unfold newManager. pose proof Ho as (Hdesc & _ & Hsets & _).
  destruct (built_sets _ Hdesc) as (m0 & -> & Hm0). cbn [obind].
  assert (forall set, set ∈ sets_order o <-> set ∈ all_sets) as Hin by (intros; by rewrite Hsets).
  destruct (configure_spec cfg o (sets_order o) m0 Ho) as [(m & -> & Hc & Hm)|(set & a & b & -> & Hs & Hrest)].
  - intros set Hs%Hin. by rewrite Hm0, bool_decide_eq_true_2.
  - rewrite Hsets. apply (bool_decide_eq_true_1 _). by vm_compute.
  - assert (forall set, m !! set = if bool_decide (set ∈ all_sets) then Some (advertised cfg set) else None) as Hl.
    { intros set. rewrite Hm, (bool_decide_ext _ _ (Hin set)), Hm0. by case_bool_decide. }
    split.
    + assert (SetInit ∈ all_sets) as Hi by (by left).
      destruct (keyless cfg) eqn:E; [|done].
      assert (StaticRemoteKeyOptional ∈ missing (optionals (advertised cfg SetInit))) as Hx.
      { rewrite missing_advertised by done. unfold expect_missing. rewrite E, bool_decide_eq_true_2 by auto. by left. }
      apply missing_spec in Hx as [Hn (a & Ha & Hb)]. by destruct Hn; apply (Hc SetInit (proj2 (Hin _) Hi) a).
    + intros set order Hord. assert (GetRaw m order set = if bool_decide (set ∈ all_sets) then advertised cfg set else ∅) as Hg.
      { unfold GetRaw. rewrite Hl. case_bool_decide; [by apply Clone_order|done]. }
      split; [done|]. unfold Get, Vector.NewFeatureVector. cbn [Vector.raw]. rewrite Hg. case_bool_decide as Hs.
      * by apply Hc, Hin.
      * intros a b Ha. unfold optionals in Ha. by rewrite set_map_empty in Ha.
  - apply Hin in Hs. destruct Hrest as (Ha & Hb & Hn).
    assert (b ∈ missing (optionals (advertised cfg set))) as Hx by (apply missing_spec; split; [done|by exists a]).
    rewrite missing_advertised in Hx by done. unfold expect_missing in Hx.
    destruct (keyless cfg); cbn [andb] in Hx; [|by apply not_elem_of_nil in Hx].
    split; [done|]. case_bool_decide; [|by apply not_elem_of_nil in Hx]. apply list_elem_of_singleton in Hx as ->. by exists set.
Qed.

(** The default configuration is fine; without static remote keys alone there is no manager. *)
Lemma NewManager_advertises_witness :
  (exists m, newManager default_config some_orders = Ok m /\
    GetRaw m elements SetInvoice = {[TLVOnionPayloadOptional; PaymentAddrRequired; MPPOptional]}) /\
  exists set, newManager keyless_config some_orders = Err (ErrInvalidSet set (ErrMissingFeatureDep StaticRemoteKeyOptional)).
Proof.
  split.
  - pose proof (NewManager_advertises default_config some_orders some_orders_valid) as H.
    destruct (newManager default_config some_orders) as [m|e|]; [|by destruct H|done]. exists m. split; [done|].
    destruct H as [_ H]. rewrite (proj1 (H SetInvoice elements ltac:(done))).
    apply (bool_decide_eq_true_1 _). by vm_compute.
  - pose proof (NewManager_advertises keyless_config some_orders some_orders_valid) as H.
    destruct (newManager keyless_config some_orders) as [m|e|]; [by destruct H| |done].
    destruct H as (_ & set & _ & ->). by exists set.
Defined.
