(* ===== verification/Sequencer.v ===== *)
(** * htlcswitch/sequencer.go: payment identifiers

    The sequencer hands out the attempt identifiers of this node's payments.  It reserves
    them on disk in batches, so that most calls do not touch the database.  [dbOk] says
    whether the database transaction of a call commits. *)

From Stdlib Require Import ZArith Lia Sorting.Sorted.
From S2P Require Import Prelude.

Local Open Scope Z_scope.

Inductive seq_err : Type := ErrSequencerCorrupted | ErrSequencerDB.

Definition defaultSequenceBatchSize : Z := 1000.

(** The sequence of the bucket on disk, if there is one, and the batch in memory. *)
Record persistentSequencer := mkSeq {
  sequence : option Z;
  nextID : Z;
  horizonID : Z;
}.

Definition initDB (dbOk : bool) (sequence : option Z) : outcome seq_err (option Z) :=
  if dbOk then Ok (Some (default 0 sequence)) else Err ErrSequencerDB.

Definition NewPersistentSequencer (dbOk : bool) (disk : option Z) : outcome seq_err persistentSequencer :=
  match initDB dbOk disk with
  | Ok sequence => Ok (mkSeq sequence 0 0)
  | Err e => Err e
  | Panic => Panic
  end.

Definition NextID (dbOk : bool) (s : persistentSequencer) : outcome seq_err Z * persistentSequencer :=
  if bool_decide (nextID s < horizonID s)
  then (Ok (nextID s), mkSeq (sequence s) (u64 (nextID s + 1)) (horizonID s))
  else
    match sequence s with
    | None => (Err ErrSequencerCorrupted, s)
    | Some next =>
        let nextHorizonID := u64 (next + defaultSequenceBatchSize) in
        if dbOk then
          let id := if bool_decide (next = 0) then u64 (next + 1) else next in
          (Ok id, mkSeq (Some nextHorizonID) (u64 (id + 1)) nextHorizonID)
        else (Err ErrSequencerDB, s)
    end.

(** ** Runs

    Calls and restarts; a restart keeps the bucket and loses the batch in memory. *)
Inductive seq_op : Type := SeqNext (dbOk : bool) | SeqRestart (dbOk : bool).

Definition run_seq (op : seq_op) (s : persistentSequencer) : list Z * persistentSequencer :=
  match op with
  | SeqNext dbOk => match NextID dbOk s with (Ok id, s) => ([id], s) | (_, s) => ([], s) end
  | SeqRestart dbOk =>
      match NewPersistentSequencer dbOk (sequence s) with Ok s => ([], s) | _ => ([], s) end
  end.

Fixpoint run_seqs (ops : list seq_op) (s : persistentSequencer) : list Z * persistentSequencer :=
  match ops with
  | [] => ([], s)
  | op :: ops =>
      let '(ids, s) := run_seq op s in
      let '(rest, s) := run_seqs ops s in
      (ids ++ rest, s)
  end.

(** The identifiers in memory are reserved on disk; [n] batches fit in 64 bits. *)
Definition seq_inv (n : nat) (s : persistentSequencer) : Prop :=
  let d := default 0 (sequence s) in
  0 <= d /\ d + defaultSequenceBatchSize * Z.of_nat n < 2 ^ 64 /\
  0 <= nextID s /\ 0 <= horizonID s <= d /\ (nextID s < horizonID s -> 0 < nextID s).

(** The least identifier that can still be handed out. *)
Definition seq_floor (s : persistentSequencer) : Z :=
  if bool_decide (nextID s < horizonID s) then nextID s else Z.max 1 (default 0 (sequence s)).

Lemma run_seq_inv op n s ids s' :
  run_seq op s = (ids, s') -> seq_inv (S n) s ->
  seq_inv n s' /\ seq_floor s <= seq_floor s' /\
  (ids = [] \/ exists id, ids = [id] /\ seq_floor s <= id < seq_floor s').
Proof.
  unfold seq_inv, seq_floor, defaultSequenceBatchSize. intros H Hi.
  destruct op as [dbOk|dbOk]; cbn [run_seq] in H.
  - unfold NextID, u64, defaultSequenceBatchSize in H. case_bool_decide as Hlt.
    + injection H as <- <-. cbn [sequence nextID horizonID]. set (d := default 0 (sequence s)) in *.
      rewrite Z.mod_small by lia. split; [lia|].
      case_bool_decide; (split; [lia|]); right; eexists; (split; [done|]); lia.
    + destruct (sequence s) as [d|] eqn:Hs; [destruct dbOk|]; injection H as <- <-;
        rewrite ?Hs; cbn [sequence nextID horizonID default from_option id] in *; revert Hi; unfold id; intros Hi.
      * rewrite !(Z.mod_small (d + 1000)) by lia. destruct (decide (d = 0)) as [->|Hd].
        -- rewrite bool_decide_eq_true_2 by done. rewrite (Z.mod_small (0 + 1)), (Z.mod_small (0 + 1 + 1)) by lia. rewrite bool_decide_eq_true_2 by lia.
           split; [lia|]. split; [lia|]. right. eexists. split; [done|]. lia.
        -- rewrite (bool_decide_eq_false_2 (d = 0)) by done. rewrite Z.mod_small by lia. rewrite bool_decide_eq_true_2 by lia.
           split; [lia|]. split; [lia|]. right. eexists. split; [done|]. lia.
      * rewrite bool_decide_eq_false_2 by done. split; [lia|]. split; [lia|by left].
      * rewrite bool_decide_eq_false_2 by done. split; [lia|]. split; [lia|by left].
  - destruct dbOk; cbn in H; injection H as <- <-; cbn [sequence nextID horizonID];
      set (d := default 0 (sequence s)) in *; [change (default 0 (Some d)) with d|];
      (split; [lia|]); (split; [|by left]); repeat case_bool_decide; lia.
Qed.

Lemma run_seqs_sorted ops s ids s' :
  run_seqs ops s = (ids, s') -> seq_inv (length ops) s ->
  StronglySorted Z.lt ids /\ Forall (fun id => seq_floor s <= id) ids.
Proof.
  revert s ids. induction ops as [|op ops IH]; intros s ids H Hi; cbn [run_seqs] in H; [injection H as <- <-; split; constructor|].
  destruct (run_seq op s) as [ids1 s1] eqn:E1. destruct (run_seqs ops s1) as [rest s2] eqn:E2. injection H as <- <-.
  destruct (run_seq_inv _ _ _ _ _ E1 Hi) as (Hi1 & Hf & Hids). destruct (IH s1 rest E2 Hi1) as [Hs Hr].
  assert (Forall (fun id => seq_floor s <= id) rest) as Hr' by (eapply Forall_impl; [exact Hr|cbn; lia]).
  destruct Hids as [->|(id & -> & Hid)]; cbn [app]; [done|]. split; constructor; try done; [|lia].
  eapply Forall_impl; [exact Hr|]. cbn. lia.
Qed.

Lemma seq_floor_pos n s : seq_inv n s -> 0 < seq_floor s.
Proof. unfold seq_inv, seq_floor. intros H. case_bool_decide; lia. Qed.

(** Over any calls and restarts, failing transactions included, the identifiers that are
    handed out are never zero and increase, so that none is used twice, as long as a batch
    for each step still fits in 64 bits. *)
Theorem NextID_unique disk ops s ids s' :
  NewPersistentSequencer true disk = Ok s -> 0 <= default 0 disk ->
  default 0 disk + defaultSequenceBatchSize * Z.of_nat (length ops) < 2 ^ 64 ->
  run_seqs ops s = (ids, s') -> StronglySorted Z.lt ids /\ Forall (fun id => 0 < id) ids.
Proof.
  intros [= <-] Hd Hb H. assert (seq_inv (length ops) (mkSeq (Some (default 0 disk)) 0 0)) as Hi.
  { unfold seq_inv. cbn. split_and!; lia. }
  destruct (run_seqs_sorted _ _ _ _ H Hi) as [Hs Hf]. split; [done|].
  apply seq_floor_pos in Hi. eapply Forall_impl; [exact Hf|]. cbn. lia.
Qed.

Lemma NextID_unique_witness :
  let r := run_seqs [SeqNext true; SeqNext true; SeqRestart true; SeqNext false; SeqNext true] (mkSeq (Some 0) 0 0) in
  r.1 = [1; 2; 1000] /\ StronglySorted Z.lt r.1.
Proof.
  split; [by vm_compute|].
  apply (NextID_unique None [SeqNext true; SeqNext true; SeqRestart true; SeqNext false; SeqNext true]
    (mkSeq (Some 0) 0 0) _ (mkSeq (Some 2000) 1001 2000)); try by vm_compute.
Defined.
