(* ===== verification/DecayedLog.v ===== *)
(** * htlcswitch/decayedlog.go: the log of seen onion packets

    The log remembers a hash of the shared secret of every onion packet until the packet
    expires, so that a packet that is sent a second time is recognised.  Replay sets and
    batches are of the sphinx library: a set with its encoding is a parameter, a batch is
    visited in the order given.

    A value that is put into a bucket is a slice of the caller.  Some key-value stores copy
    it, others (bbolt) keep the slice until the transaction is committed; [copies] says
    which.  [dbOk] says whether a transaction commits. *)

From Stdlib Require Import ZArith Lia.
From S2P Require Import Prelude CommitTx Kvdb.

Local Open Scope Z_scope.
Local Open Scope go_scope.

Inductive log_err : Type :=
  | ErrDecayedLogCorrupted
  | ErrReplayedPacket
  | ErrLogEntryNotFound
  | ErrSharedHashNil
  | ErrReplaySet
  | ErrLogDB.

(** ** The sphinx library *)

Class ReplaySets := {
  ReplaySet : Type;
  NewReplaySet : ReplaySet;
  rs_Add : ReplaySet -> Z -> ReplaySet;
  rs_Contains : ReplaySet -> Z -> bool;
  rs_Merge : ReplaySet -> ReplaySet -> ReplaySet;
  rs_Encode : ReplaySet -> option (list byte);
  rs_Decode : list byte -> option ReplaySet;
}.

Class ReplaySetLaws `{!ReplaySets} := {
  rs_contains_new i : rs_Contains NewReplaySet i = false;
  rs_contains_add s i j : rs_Contains (rs_Add s i) j = bool_decide (i = j) || rs_Contains s j;
  rs_contains_merge s t i : rs_Contains (rs_Merge s t) i = rs_Contains s i || rs_Contains t i;
  rs_decode_encode s bs : rs_Encode s = Some bs -> rs_Decode bs = Some s;
}.

Section decayedlog.
Context `{RS : ReplaySets}.

(** A batch: its identifier, its entries in the order [ForEach] visits them (sequence
    number, hash prefix, expiry) and the replays found while it was built. *)
Record Batch := mkBatch {
  Batch_ID : list byte;
  entries : list (Z * list byte * Z);
  Batch_ReplaySet : ReplaySet;
  IsCommitted : bool;
}.

(** ** The log *)

Record DecayedLog := mkLog { sharedHashBucket : option (gmap (list byte) (list byte)); batchReplayBucket : option (gmap (list byte) (list byte)) }.

Definition initBuckets (dbOk : bool) (d : DecayedLog) : outcome log_err unit * DecayedLog :=
  if dbOk
  then (Ok tt, mkLog (Some (default ∅ (sharedHashBucket d))) (Some (default ∅ (batchReplayBucket d))))
  else (Err ErrLogDB, d).

Fixpoint expired (height : Z) (l : list (list byte * list byte)) : outcome log_err (list (list byte)) :=
  match l with
  | [] => Ok []
  | (k, v) :: l =>
      if bool_decide (4 <= length v)%nat then
        let cltv := be_get (take 4 v) in
        rest <~ expired height l ;
        Ok (if bool_decide (cltv < height) then k :: rest else rest)
      else Panic
  end.

Definition gcExpiredHashes (dbOk : bool) (height : Z) (d : DecayedLog) : outcome log_err Z * DecayedLog :=
  match sharedHashBucket d with
  | None => (Err ErrSharedHashNil, d)
  | Some sharedHashes =>
      match expired height (ForEach sharedHashes) with
      | Ok expiredCltv =>
          if dbOk
          then (Ok (u32 (Z.of_nat (length expiredCltv))),
                mkLog (Some (foldl (fun b k => delete k b) sharedHashes expiredCltv)) (batchReplayBucket d))
          else (Err ErrLogDB, d)
      | Err e => (Err e, d)
      | Panic => (Panic, d)
      end
  end.

Definition Delete (dbOk : bool) (hash : list byte) (d : DecayedLog) : outcome log_err unit * DecayedLog :=
  match sharedHashBucket d with
  | None => (Err ErrDecayedLogCorrupted, d)
  | Some sharedHashes =>
      if dbOk then (Ok tt, mkLog (Some (delete hash sharedHashes)) (batchReplayBucket d)) else (Err ErrLogDB, d)
  end.

Definition Get (hash : list byte) (d : DecayedLog) : outcome log_err Z :=
  match sharedHashBucket d with
  | None => Err ErrSharedHashNil
  | Some sharedHashes =>
      match sharedHashes !! hash with
      | None => Err ErrLogEntryNotFound
      | Some valueBytes => if bool_decide (4 <= length valueBytes)%nat then Ok (be_get (take 4 valueBytes)) else Panic
      end
  end.

Definition Put (dbOk : bool) (hash : list byte) (cltv : Z) (d : DecayedLog) : outcome log_err unit * DecayedLog :=
  let scratch := be_put 4 cltv in
  match sharedHashBucket d with
  | None => (Err ErrDecayedLogCorrupted, d)
  | Some sharedHashes =>
      if bool_decide (is_Some (sharedHashes !! hash)) then (Err ErrReplayedPacket, d)
      else if dbOk then (Ok tt, mkLog (Some (<[hash := scratch]> sharedHashes)) (batchReplayBucket d))
      else (Err ErrLogDB, d)
  end.

(** The loop of [PutBatch].  [puts] are the keys written so far with the value of the
    scratch buffer at the time; a key that was written is found again by [Get]. *)
Fixpoint put_entries (sharedHashes : gmap (list byte) (list byte)) (l : list (Z * list byte * Z)) (scratch : list byte)
    (puts : list (list byte * list byte)) (replays : ReplaySet) : list byte * list (list byte * list byte) * ReplaySet :=
  match l with
  | [] => (scratch, puts, replays)
  | (seqNum, hashPrefix, cltv) :: l =>
      if bool_decide (is_Some (sharedHashes !! hashPrefix) \/ hashPrefix ∈ puts.*1)
      then put_entries sharedHashes l scratch puts (rs_Add replays seqNum)
      else
        let scratch := be_put 4 cltv in
        put_entries sharedHashes l scratch (puts ++ [(hashPrefix, scratch)]) replays
  end.

(** What the transaction leaves in the bucket: the written values, or the scratch buffer
    they all refer to. *)
Definition commit_puts (copies : bool) (scratch : list byte) (puts : list (list byte * list byte)) (b : gmap (list byte) (list byte)) : gmap (list byte) (list byte) :=
  foldl (fun b kv => <[kv.1 := if copies then kv.2 else scratch]> b) b puts.

Definition PutBatch (copies dbOk : bool) (b : Batch) (d : DecayedLog) : outcome log_err ReplaySet * Batch * DecayedLog :=
  match sharedHashBucket d, batchReplayBucket d with
  | Some sharedHashes, Some batchReplayBkt =>
      let committed replays d := (Ok replays, mkBatch (Batch_ID b) (entries b) replays true, d) in
      match batchReplayBkt !! Batch_ID b with
      | Some replayBytes =>
          match rs_Decode replayBytes with
          | Some replays => if dbOk then committed replays d else (Err ErrLogDB, b, d)
          | None => (Err ErrReplaySet, b, d)
          end
      | None =>
          let '(scratch, puts, replays) := put_entries sharedHashes (entries b) (replicate 4 x00) [] NewReplaySet in
          let replays := rs_Merge replays (Batch_ReplaySet b) in
          match rs_Encode replays with
          | None => (Err ErrReplaySet, b, d)
          | Some replayBuf =>
              if dbOk
              then committed replays (mkLog (Some (commit_puts copies scratch puts sharedHashes))
                                            (Some (<[Batch_ID b := replayBuf]> batchReplayBkt)))
              else (Err ErrLogDB, b, d)
          end
      end
  | _, _ => (Err ErrDecayedLogCorrupted, b, d)
  end.

(** ** Runs

    What callers see of the log: packets that are accepted as new, with their expiry, and
    hashes that are forgotten, by the collection at a height or by a deletion.  A batch that
    was processed before only repeats its result. *)
Inductive event : Type :=
  | Accept (h : list byte) (cltv : Z)
  | Collect (h : list byte) (height : Z)
  | Forget (h : list byte).

Inductive log_op : Type :=
  | LPut (dbOk : bool) (h : list byte) (cltv : Z)
  | LBatch (dbOk : bool) (b : Batch)
  | LGc (dbOk : bool) (height : Z)
  | LDelete (dbOk : bool) (h : list byte)
  | LRestart (dbOk : bool).

(** The entries of a batch that are not replays. *)
Definition accepted (replays : ReplaySet) (l : list (Z * list byte * Z)) : list (list byte * Z) :=
  omap (fun '(i, h, c) => if rs_Contains replays i then None else Some (h, c)) l.

Definition processed (d : DecayedLog) (id : list byte) : bool :=
  match batchReplayBucket d with Some b => bool_decide (is_Some (b !! id)) | None => false end.

(** The hashes that a step removed. *)
Definition collected (height : Z) (d d' : DecayedLog) : list event :=
  (fun kv => Collect kv.1 height) <$>
    filter (fun kv => default ∅ (sharedHashBucket d') !! kv.1 = None) (ForEach (default ∅ (sharedHashBucket d))).

Definition run_log (copies : bool) (op : log_op) (d : DecayedLog) : list event * DecayedLog :=
  match op with
  | LPut dbOk h cltv => match Put dbOk h cltv d with (Ok _, d') => ([Accept h cltv], d') | (_, d') => ([], d') end
  | LBatch dbOk b =>
      match PutBatch copies dbOk b d with
      | (Ok replays, _, d') =>
          (if processed d (Batch_ID b) then [] else (fun hc => Accept hc.1 hc.2) <$> accepted replays (entries b), d')
      | (_, _, d') => ([], d')
      end
  | LGc dbOk height => let d' := (gcExpiredHashes dbOk height d).2 in (collected height d d', d')
  | LDelete dbOk h => match Delete dbOk h d with (Ok _, d') => ([Forget h], d') | (_, d') => ([], d') end
  | LRestart dbOk => ([], (initBuckets dbOk d).2)
  end.

Fixpoint run_logs (copies : bool) (ops : list log_op) (d : DecayedLog) : list event * DecayedLog :=
  match ops with
  | [] => ([], d)
  | op :: ops =>
      let '(tr, d) := run_log copies op d in
      let '(rest, d) := run_logs copies ops d in
      (tr ++ rest, d)
  end.

(** Expiries are 32-bit numbers. *)
Definition log_op_ok (op : log_op) : Prop :=
  match op with
  | LPut _ _ cltv => in_u 32 cltv
  | LBatch _ b => Forall (fun e => in_u 32 e.2) (entries b)
  | _ => True
  end.

(** ** What is promised

    The hashes that a caller knows to be remembered, with their expiry. *)
Definition live_step (m : gmap (list byte) Z) (e : event) : gmap (list byte) Z :=
  match e with Accept h c => <[h := c]> m | Collect h _ => delete h m | Forget h => delete h m end.

Definition live (tr : list event) : gmap (list byte) Z := foldl live_step ∅ tr.

(** An event is in order after a trace: only a hash that is not remembered is accepted, and
    one is collected only when it has expired (where values are copied). *)
Definition in_order (copies : bool) (m : gmap (list byte) Z) (e : event) : Prop :=
  match e with
  | Accept h _ => m !! h = None
  | Collect h height => copies = true -> forall c, m !! h = Some c -> c < height
  | Forget _ => True
  end.

Fixpoint ordered (copies : bool) (m : gmap (list byte) Z) (tr : list event) : Prop :=
  match tr with [] => True | e :: tr => in_order copies m e /\ ordered copies (live_step m e) tr end.

(** The bucket holds every remembered hash, with its expiry where values are copied. *)
Definition holds (copies : bool) (d : DecayedLog) (m : gmap (list byte) Z) : Prop :=
  (forall h c, m !! h = Some c -> exists v, default ∅ (sharedHashBucket d) !! h = Some v /\
    (copies = true -> in_u 32 c /\ v = be_put 4 c)) /\
  forall h v, default ∅ (sharedHashBucket d) !! h = Some v -> length v = 4%nat.

Definition empty_log : DecayedLog := mkLog None None.

(** ** Lemmas *)

Context `{RL : !ReplaySetLaws}.

Lemma ordered_app copies m tr1 tr2 :
  ordered copies m (tr1 ++ tr2) <-> ordered copies m tr1 /\ ordered copies (foldl live_step m tr1) tr2.
Proof.
  revert m. induction tr1 as [|e tr1 IH]; intros m; cbn [app ordered foldl]; [tauto|]. rewrite IH. tauto.
Qed.

Lemma put_entries_spec sh l sc puts rs sc' puts' rs' :
  put_entries sh l sc puts rs = (sc', puts', rs') ->
  NoDup puts.*1 -> (forall h, h ∈ puts.*1 -> sh !! h = None) -> length sc = 4%nat ->
  exists new, puts' = puts ++ new /\ NoDup puts'.*1 /\ (forall h, h ∈ puts'.*1 -> sh !! h = None) /\
    (forall i, rs_Contains rs i = true -> rs_Contains rs' i = true) /\ length sc' = 4%nat /\
    Forall (fun kv => length kv.2 = 4%nat) new /\
    (prod_map id (be_put 4) <$> accepted rs' l) `sublist_of` new.
Proof.
  revert sc puts rs. induction l as [|[[i h] c] l IH]; intros sc puts rs H Hn Hd Hsc; cbn [put_entries] in H.
  { injection H as <- <- <-. exists []. rewrite app_nil_r. split_and!; try done. }
  case_bool_decide as Hin.
  - destruct (IH _ _ _ H Hn Hd Hsc) as (new & Hp & Hn' & Hd' & Hm & Hl & Hf & Hs). exists new. split_and!; try done.
    + intros j Hj. apply Hm. rewrite rs_contains_add, Hj. apply orb_true_r.
    + unfold accepted. cbn [omap list_omap]. rewrite (Hm i); [done|]. rewrite rs_contains_add. by rewrite bool_decide_eq_true_2.
  - destruct (IH _ _ _ H) as (new & Hp & Hn' & Hd' & Hm & Hl & Hf & Hs).
    + rewrite fmap_app, NoDup_app. split_and!; [done| |apply NoDup_singleton]. cbn. intros x Hx Hy. set_solver.
    + intros x. rewrite fmap_app, elem_of_app. cbn. intros [Hx|Hx]; [by apply Hd|]. apply list_elem_of_singleton in Hx as ->.
      apply eq_None_not_Some. tauto.
    + apply length_be_put.
    + exists ((h, be_put 4 c) :: new). rewrite <- app_assoc in Hp. split_and!; try done.
      * constructor; [apply length_be_put|done].
      * unfold accepted. cbn [omap list_omap]. destruct (rs_Contains rs' i); cbn; [by constructor|by constructor].
Qed.

Lemma commit_puts_lookup (copies : bool) (sc : list byte) (puts : list (list byte * list byte)) (b : gmap (list byte) (list byte)) (h : list byte) :
  NoDup puts.*1 ->
  commit_puts copies sc puts b !! h =
    match (list_to_map puts : gmap (list byte) (list byte)) !! h with Some v => Some (if copies then v else sc) | None => b !! h end.
Proof.
  unfold commit_puts. revert b. induction puts as [|[k v] puts IH]; intros b Hn; cbn [foldl fst snd]; [by rewrite list_to_map_nil, lookup_empty|].
  inversion Hn as [|? ? Hk Hn']; subst. rewrite IH, list_to_map_cons by done. destruct (decide (h = k)) as [->|Hne].
  - rewrite lookup_insert_eq. rewrite (not_elem_of_list_to_map_1 puts k) by done. by rewrite lookup_insert_eq.
  - rewrite (lookup_insert_ne _ k h v) by done. destruct (list_to_map puts !! h); [done|]. by rewrite lookup_insert_ne.
Qed.

(** Accepting distinct hashes that are not remembered. *)
Lemma ordered_accepts copies m (l : list (list byte * Z)) :
  NoDup l.*1 -> (forall h, h ∈ l.*1 -> m !! h = None) ->
  ordered copies m ((fun hc => Accept hc.1 hc.2) <$> l) /\
  forall h, foldl live_step m ((fun hc => Accept hc.1 hc.2) <$> l) !! h =
    match (list_to_map l : gmap (list byte) Z) !! h with Some c => Some c | None => m !! h end.
Proof.
  revert m. induction l as [|[k c] l IH]; intros m Hn Hm; cbn [fmap list_fmap ordered foldl in_order live_step fst snd].
  { split; [done|]. intros h. by rewrite list_to_map_nil, lookup_empty. }
  rewrite fmap_cons in Hn. apply NoDup_cons in Hn as [Hk Hn']. destruct (IH (<[k := c]> m) Hn') as [Ho Hl].
  { intros h Hh. rewrite lookup_insert_ne by set_solver. apply Hm. cbn. set_solver. }
  split; [split; [apply Hm; cbn; set_solver|done]|]. intros h. rewrite Hl, list_to_map_cons. destruct (decide (h = k)) as [->|Hne].
  - rewrite lookup_insert_eq. rewrite (not_elem_of_list_to_map_1 l k) by done. by rewrite lookup_insert_eq.
  - by rewrite !lookup_insert_ne by done.
Qed.

Lemma expired_spec height l :
  Forall (fun kv => length kv.2 = 4%nat) l ->
  exists ks, expired height l = Ok ks /\ forall k, k ∈ ks <-> exists v, (k, v) ∈ l /\ be_get v < height.
Proof.
  induction 1 as [|[k v] l Hv _ IH]; cbn [expired]; [exists []; set_solver|]. cbn [snd] in Hv.
  rewrite bool_decide_eq_true_2 by lia. destruct IH as (ks & -> & Hks). cbn [obind]. eexists. split; [done|].
  rewrite (take_ge v 4) by lia. intros x. case_bool_decide as Hc.
  - rewrite elem_of_cons, Hks. setoid_rewrite elem_of_cons. naive_solver.
  - rewrite Hks. setoid_rewrite elem_of_cons. naive_solver.
Qed.

Lemma live_collects m height (l : list (list byte * list byte)) h :
  foldl live_step m ((fun kv => Collect kv.1 height) <$> l) !! h = if bool_decide (h ∈ l.*1) then None else m !! h.
Proof.
  revert m. induction l as [|[k v] l IH]; intros m; cbn [fmap list_fmap foldl live_step fst]; [done|]. rewrite IH. cbn.
  rewrite (bool_decide_ext (h ∈ k :: l.*1) (h = k \/ h ∈ l.*1)) by apply elem_of_cons.
  destruct (decide (h = k)) as [->|Hne].
  - rewrite (bool_decide_eq_true_2 (_ \/ _)) by auto. case_bool_decide; [done|by rewrite lookup_delete_eq].
  - rewrite (bool_decide_ext (h = k \/ h ∈ l.*1) (h ∈ l.*1)) by tauto. by rewrite lookup_delete_ne.
Qed.

Lemma ordered_collects copies m height (l : list (list byte * list byte)) :
  (copies = true -> forall h c, h ∈ l.*1 -> m !! h = Some c -> c < height) ->
  ordered copies m ((fun kv => Collect kv.1 height) <$> l).
Proof.
  revert m. induction l as [|[k v] l IH]; intros m H; cbn [fmap list_fmap ordered in_order live_step fst]; [done|]. split.
  - intros Hc c Hm. apply (H Hc k c); [cbn; set_solver|done].
  - apply IH. intros Hc h c Hh Hm. apply (H Hc h c); [cbn; set_solver|]. by apply lookup_delete_Some in Hm as [_ ?].
Qed.

Lemma holds_length copies d m : holds copies d m ->
  Forall (fun kv => length kv.2 = 4%nat) (ForEach (default ∅ (sharedHashBucket d))).
Proof. intros [_ H]. apply Forall_forall. intros [k v] Hin%ForEach_elem. by eapply H. Qed.

(** The collection returns, and removes exactly what has expired. *)
Lemma gcExpiredHashes_spec copies dbOk height d m : holds copies d m ->
  (gcExpiredHashes dbOk height d).1 <> Panic /\
  exists ks, (gcExpiredHashes dbOk height d).2 = d /\ ks = [] \/
    (exists b, sharedHashBucket d = Some b /\
     (forall k, k ∈ ks <-> exists v, b !! k = Some v /\ be_get v < height) /\
     (gcExpiredHashes dbOk height d).2 = mkLog (Some (foldl (fun b k => delete k b) b ks)) (batchReplayBucket d)).
Proof.
  intros H. unfold gcExpiredHashes. pose proof (holds_length _ _ _ H) as Hl.
  destruct (sharedHashBucket d) as [b|]; [|split; [done|]; exists []; by left]. cbn [default from_option id] in Hl.
  destruct (expired_spec height _ Hl) as (ks & -> & Hks). destruct dbOk; (split; [done|]).
  - exists ks. right. exists b. split_and!; [done| |done]. intros k. rewrite Hks. by setoid_rewrite ForEach_elem.
  - exists []. by left.
Qed.

Lemma gc_step copies dbOk height d m : holds copies d m ->
  let d' := (gcExpiredHashes dbOk height d).2 in
  ordered copies m (collected height d d') /\ holds copies d' (foldl live_step m (collected height d d')).
Proof.
  intros H. destruct (gcExpiredHashes_spec copies dbOk height d m H) as [_ (ks & [[-> ->]|(b & Hb & Hks & ->)])]; cbn zeta.
  - assert (collected height d d = []) as ->; [|done]. unfold collected. rewrite (elem_of_nil_inv (filter _ _)); [done|].
    intros [k v] [Hk Hin]%list_elem_of_filter. apply ForEach_elem in Hin. cbn [fst] in Hk. by rewrite Hin in Hk.
  - unfold collected. cbn [sharedHashBucket default from_option id]. rewrite Hb. cbn [default from_option id].
    set (gone := filter _ _).
    assert (forall k, k ∈ gone.*1 <-> k ∈ ks) as Hg.
    { intros k. unfold gone. rewrite list_elem_of_fmap. split.
      - intros ([k' v] & -> & [Hn Hin]%list_elem_of_filter). cbn in *. rewrite delete_keys_lookup in Hn. apply ForEach_elem in Hin.
        case_bool_decide; [done|congruence].
      - intros Hk. apply Hks in Hk as Hv. destruct Hv as (v & Hv & _). exists (k, v). split; [done|].
        rewrite list_elem_of_filter, ForEach_elem, delete_keys_lookup, bool_decide_eq_true_2 by done. done. }
    destruct H as [Hm Hlen]. rewrite Hb in Hm, Hlen. cbn [default from_option id] in Hm, Hlen. split.
    + apply ordered_collects. intros Hc h c Hh Hmh. apply Hg, Hks in Hh as (v & Hv & Hlt).
      destruct (Hm h c Hmh) as (v' & Hv' & Hcp). destruct (Hcp Hc) as [Hu ->]. rewrite Hv in Hv'. injection Hv' as ->.
      by rewrite be_get_put_id in Hlt by done.
    + split; cbn [sharedHashBucket default from_option id].
      * intros h c. rewrite live_collects. case_bool_decide as Hin; [done|]. intros Hmh. destruct (Hm h c Hmh) as (v & Hv & Hcp).
        exists v. rewrite delete_keys_lookup, bool_decide_eq_false_2 by (by rewrite <- Hg). done.
      * intros h v. rewrite delete_keys_lookup. case_bool_decide; [done|]. apply Hlen.
Qed.

Lemma put_step copies dbOk h c d m : holds copies d m -> in_u 32 c ->
  let r := run_log copies (LPut dbOk h c) d in ordered copies m r.1 /\ holds copies r.2 (foldl live_step m r.1).
Proof.
  intros Hd Hc. pose proof Hd as [Hm Hl]. cbn [run_log]. unfold Put. destruct (sharedHashBucket d) as [b|] eqn:Hb; [|done].
  cbn [default from_option id] in *.
  case_bool_decide as Hn; [done|]. destruct dbOk; [|done]. cbn [fst snd ordered in_order foldl live_step].
  apply eq_None_not_Some in Hn. split; [split; [|done]|split; cbn [sharedHashBucket default from_option id]].
  - destruct (m !! h) as [c'|] eqn:E; [|done]. destruct (Hm h c' E) as (v & Hv & _). congruence.
  - intros h' c'. destruct (decide (h' = h)) as [->|Hne].
    + rewrite !lookup_insert_eq. intros [= <-]. eauto.
    + rewrite !lookup_insert_ne by done. apply Hm.
  - intros h' v. destruct (decide (h' = h)) as [->|Hne].
    + rewrite lookup_insert_eq. intros [= <-]. apply length_be_put.
    + rewrite lookup_insert_ne by done. apply Hl.
Qed.

Lemma list_to_map_sublist (l : list (list byte * Z)) (l' : list (list byte * list byte)) h c :
  (prod_map id (be_put 4) <$> l) `sublist_of` l' -> NoDup l'.*1 ->
  (list_to_map l : gmap (list byte) Z) !! h = Some c -> (list_to_map l' : gmap (list byte) (list byte)) !! h = Some (be_put 4 c).
Proof.
  intros Hs Hn H%elem_of_list_to_map_2. apply elem_of_list_to_map_1; [done|].
  apply (sublist_subseteq _ _ Hs). apply list_elem_of_fmap. by exists (h, c).
Qed.

Lemma accepted_cltv rs l : Forall (fun e : Z * list byte * Z => in_u 32 e.2) l -> Forall (fun hc => in_u 32 hc.2) (accepted rs l).
Proof.
  intros H. apply Forall_forall. intros [h c] Hin. unfold accepted in Hin.
  apply list_elem_of_omap in Hin as ([[i h'] c'] & Hin & Hx). rewrite Forall_forall in H. specialize (H _ Hin).
  destruct (rs_Contains rs i); [done|]. by injection Hx as <- <-.
Qed.

Lemma merged_accepted rs rs' l : (accepted (rs_Merge rs rs') l) `sublist_of` (accepted rs l).
Proof.
  unfold accepted. induction l as [|[[i h] c] l IH]; cbn [omap list_omap]; [done|]. rewrite rs_contains_merge.
  destruct (rs_Contains rs i), (rs_Contains rs' i); cbn; try done; by constructor.
Qed.

Lemma batch_step copies dbOk b d m : holds copies d m -> Forall (fun e => in_u 32 e.2) (entries b) ->
  let r := run_log copies (LBatch dbOk b) d in ordered copies m r.1 /\ holds copies r.2 (foldl live_step m r.1).
Proof.
  intros Hd Hc. cbn [run_log]. unfold PutBatch, processed. pose proof Hd as [Hm Hl].
  destruct (sharedHashBucket d) as [sh|] eqn:Hsh; [|done]. destruct (batchReplayBucket d) as [rb|] eqn:Hrb; [|done].
  cbn [default from_option id] in *. destruct (rb !! Batch_ID b) as [bs|] eqn:Eb.
  { rewrite bool_decide_eq_true_2 by done. by destruct (rs_Decode bs); [destruct dbOk|]. }
  rewrite bool_decide_eq_false_2 by apply is_Some_None.
  destruct (put_entries sh (entries b) _ _ _) as [[sc puts] rs] eqn:Ep.
  destruct (put_entries_spec _ _ _ _ _ _ _ _ Ep) as (new & -> & Hn & Hnone & _ & Hsc & Hf & Hs); [constructor|set_solver|done|].
  cbn [app] in *. destruct (rs_Encode _) as [buf|]; [|done]. destruct dbOk; [|done]. cbn [fst snd].
  set (acc := accepted (rs_Merge rs (Batch_ReplaySet b)) (entries b)).
  assert ((prod_map id (be_put 4) <$> acc) `sublist_of` new) as Hacc.
  { etrans; [|exact Hs]. apply fmap_sublist, merged_accepted. }
  assert (acc.*1 `sublist_of` new.*1) as Hkeys.
  { apply (fmap_sublist fst) in Hacc. rewrite <- list_fmap_compose in Hacc. done. }
  destruct (ordered_accepts copies m acc) as [Ho Hlive].
  { by eapply sublist_NoDup. }
  { intros h Hh. destruct (m !! h) as [c|] eqn:E; [|done]. destruct (Hm h c E) as (v & Hv & _).
    rewrite (Hnone h) in Hv; [done|]. by apply (sublist_subseteq _ _ Hkeys). }
  split; [done|]. split; cbn [sharedHashBucket default from_option id].
  - intros h c. rewrite Hlive, commit_puts_lookup by done. destruct ((list_to_map acc : gmap (list byte) Z) !! h) as [c'|] eqn:E.
    + intros [= <-]. rewrite (list_to_map_sublist acc new h c' Hacc Hn E). eexists. split; [done|]. intros ->. split; [|done].
      apply elem_of_list_to_map_2 in E. pose proof (accepted_cltv (rs_Merge rs (Batch_ReplaySet b)) _ Hc) as Hu.
      rewrite Forall_forall in Hu. by apply (Hu _ E).
    + intros Hh. destruct (Hm h c Hh) as (v & Hv & Hcp).
      assert ((list_to_map new : gmap (list byte) (list byte)) !! h = None) as ->; [|by eauto].
      apply not_elem_of_list_to_map_1. intros Hin. by rewrite (Hnone h Hin) in Hv.
  - intros h v. rewrite commit_puts_lookup by done. destruct ((list_to_map new : gmap (list byte) (list byte)) !! h) as [v'|] eqn:E; [|apply Hl].
    intros [= <-]. destruct copies; [|done]. apply elem_of_list_to_map_2 in E. rewrite Forall_forall in Hf. by apply (Hf _ E).
Qed.

Lemma run_log_step copies op d m : holds copies d m -> log_op_ok op ->
  let r := run_log copies op d in ordered copies m r.1 /\ holds copies r.2 (foldl live_step m r.1).
Proof.
  intros H Hok. destruct op as [dbOk h c|dbOk b|dbOk height|dbOk h|dbOk].
  - by apply put_step.
  - by apply batch_step.
  - apply (gc_step copies dbOk height d m H).
  - cbn [run_log]. unfold Delete. destruct (sharedHashBucket d) as [b|] eqn:Hb; [|done]. destruct dbOk; [|done].
    cbn [fst snd ordered in_order foldl live_step]. split; [done|]. destruct H as [Hm Hl]. rewrite Hb in Hm, Hl.
    split; cbn [sharedHashBucket default from_option id] in *.
    + intros h' c [Hne Hc]%lookup_delete_Some. rewrite lookup_delete_ne by done. by apply Hm.
    + intros h' v [_ Hv]%lookup_delete_Some. by eapply Hl.
  - cbn [run_log fst snd ordered foldl]. split; [done|]. unfold initBuckets. by destruct dbOk.
Qed.

Lemma run_logs_ordered copies ops d m tr d' : holds copies d m -> Forall log_op_ok ops ->
  run_logs copies ops d = (tr, d') -> ordered copies m tr.
Proof.
  intros H Hok. revert d m tr H. induction Hok as [|op ops Hop _ IH]; intros d m tr H Hr; cbn [run_logs] in Hr; [by injection Hr as <- <-|].
  destruct (run_log copies op d) as [tr1 d1] eqn:E1. destruct (run_logs copies ops d1) as [tr2 d2] eqn:E2. injection Hr as <- <-.
  pose proof (run_log_step copies op d m H Hop) as Hs. cbn zeta in Hs. rewrite E1 in Hs. destruct Hs as [Ho Hh].
  apply ordered_app. split; [done|]. by apply (IH d1).
Qed.

(** A remembered hash stays until it is collected or deleted. *)
Lemma remembered copies m tr h c : ordered copies m tr -> m !! h = Some c ->
  (exists height, Collect h height ∈ tr) \/ Forget h ∈ tr \/ foldl live_step m tr !! h = Some c.
Proof.
  revert m. induction tr as [|e tr IH]; intros m Ho Hm; [by auto|]. cbn [ordered foldl] in *. destruct Ho as [He Ho].
  setoid_rewrite elem_of_cons. destruct e as [h' c'|h' height|h']; cbn [in_order live_step] in *;
    destruct (decide (h' = h)) as [->|Hne]; try by eauto; try congruence.
  - destruct (IH (<[h' := c']> m) Ho) as [[x ?]|[?|?]]; [by rewrite lookup_insert_ne|by eauto..].
  - destruct (IH (delete h' m) Ho) as [[x ?]|[?|?]]; [by rewrite lookup_delete_ne|by eauto..].
  - destruct (IH (delete h' m) Ho) as [[x ?]|[?|?]]; [by rewrite lookup_delete_ne|by eauto..].
Qed.

(** The result of a batch stays on disk. *)
Lemma run_logs_replays copies ops d tr d' rb id bs :
  run_logs copies ops d = (tr, d') -> batchReplayBucket d = Some rb -> rb !! id = Some bs -> is_Some (sharedHashBucket d) ->
  is_Some (sharedHashBucket d') /\ exists rb', batchReplayBucket d' = Some rb' /\ rb' !! id = Some bs.
Proof.
  revert d tr rb. induction ops as [|op ops IH]; intros d tr rb Hr Hrb Hid [sh Hsh]; cbn [run_logs] in Hr; [injection Hr as <- <-; eauto|].
  destruct (run_log copies op d) as [tr1 d1] eqn:E1. destruct (run_logs copies ops d1) as [tr2 d2] eqn:E2. injection Hr as <- <-.
  enough (is_Some (sharedHashBucket d1) /\ exists rb1, batchReplayBucket d1 = Some rb1 /\ rb1 !! id = Some bs) as (Hs1 & rb1 & H1 & H2)
    by (by eapply IH).
  clear IH E2. destruct op as [dbOk h c|dbOk b|dbOk height|dbOk h|dbOk]; cbn [run_log] in E1.
  - unfold Put in E1. rewrite Hsh in E1. case_bool_decide; [|destruct dbOk]; injection E1 as <- <-; eauto.
  - unfold PutBatch in E1. rewrite Hsh, Hrb in E1. destruct (rb !! Batch_ID b) as [bs'|] eqn:Eb.
    + destruct (rs_Decode bs'); [destruct dbOk|]; injection E1 as <- <-; eauto.
    + destruct (put_entries _ _ _ _ _) as [[sc puts] rs]. destruct (rs_Encode _); [destruct dbOk|]; injection E1 as <- <-; eauto.
      cbn [sharedHashBucket batchReplayBucket]. split; [done|]. eexists. split; [done|]. rewrite lookup_insert_ne; [done|]. congruence.
  - injection E1 as <- <-. unfold gcExpiredHashes. rewrite Hsh. destruct (expired _ _) as [ks| |]; [destruct dbOk|..]; cbn; eauto.
  - unfold Delete in E1. rewrite Hsh in E1. destruct dbOk; injection E1 as <- <-; eauto.
  - injection E1 as <- <-. unfold initBuckets. destruct dbOk; cbn; rewrite ?Hsh, ?Hrb; eauto.
Qed.

(** ** Theorems *)


(** A batch that was processed once returns the same replay set ever after, and changes
    nothing. *)
Theorem PutBatch_repeats copies dbOk b d rs b' d' ops tr d'' :
  PutBatch copies dbOk b d = (Ok rs, b', d') -> run_logs copies ops d' = (tr, d'') ->
  PutBatch copies true b d'' = (Ok rs, b', d'').
Proof.
  intros H Hr.
  assert (is_Some (sharedHashBucket d') /\ exists rb bs, batchReplayBucket d' = Some rb /\ rb !! Batch_ID b = Some bs /\
    rs_Decode bs = Some rs /\ b' = mkBatch (Batch_ID b) (entries b) rs true) as (Hs & rb & bs & Hrb & Hbs & Hdec & ->).
  { unfold PutBatch in H. destruct (sharedHashBucket d) as [sh|] eqn:Hsh; [|done]. destruct (batchReplayBucket d) as [rb|] eqn:Hrb; [|done].
    destruct (rb !! Batch_ID b) as [bs|] eqn:Eb.
    - destruct (rs_Decode bs) eqn:Ed; [|done]. destruct dbOk; [|done]. injection H as <- <- <-. rewrite Hsh. eauto 10.
    - destruct (put_entries _ _ _ _ _) as [[sc puts] rs0]. destruct (rs_Encode _) as [buf|] eqn:Ee; [|done].
      destruct dbOk; [|done]. injection H as <- <- <-. cbn. split; [done|]. eexists _, buf. split; [done|].
      rewrite lookup_insert_eq. split; [done|]. split; [by apply rs_decode_encode|done]. }
  destruct (run_logs_replays _ _ _ _ _ _ _ _ Hr Hrb Hbs Hs) as ([sh Hsh] & rb' & Hrb' & Hbs').
  unfold PutBatch. by rewrite Hsh, Hrb', Hbs', Hdec.
Qed.

End decayedlog.

(** ** A concrete replay set

    The sequence numbers in the order they were added, two bytes each. *)

Fixpoint decode_u16s (bs : list byte) : option (list Z) :=
  match bs with
  | [] => Some []
  | a :: b :: bs => cons (be_get [a; b]) <$> decode_u16s bs
  | _ => None
  end.

#[global] Instance list_replays : ReplaySets := {
  ReplaySet := list Z;
  NewReplaySet := [];
  rs_Add s i := i :: s;
  rs_Contains s i := bool_decide (i ∈ s);
  rs_Merge s t := s ++ t;
  rs_Encode s := if forallb (fun i => bool_decide (0 <= i < 2 ^ 16)) s then Some (s ≫= be_put 2) else None;
  rs_Decode := decode_u16s;
}.

Lemma decode_u16s_put s : forallb (fun i => bool_decide (0 <= i < 2 ^ 16)) s = true -> decode_u16s (s ≫= be_put 2) = Some s.
Proof.
  induction s as [|i s IH]; cbn [forallb]; [done|]. intros [Hi%bool_decide_eq_true Hs]%andb_true_iff.
  change ((i :: s) ≫= be_put 2) with (be_put 2 i ++ (s ≫= be_put 2)).
  pose proof (be_get_put_id 2 i Hi) as Hg. specialize (IH Hs).
  generalize dependent (s ≫= be_put 2). intros bs IH. pose proof (length_be_put 2 i) as Hl.
  destruct (be_put 2 i) as [|a [|b [|]]]; try done. cbn [app decode_u16s]. rewrite IH. cbn [fmap option_fmap option_map]. by rewrite Hg.
Qed.

#[global] Instance list_replays_laws : ReplaySetLaws.
Proof.
  split; cbn.
  - done.
  - intros s i j. rewrite (bool_decide_ext (j ∈ i :: s) (i = j \/ j ∈ s)) by (rewrite elem_of_cons; naive_solver).
    by rewrite bool_decide_or.
  - intros s t i. rewrite (bool_decide_ext (i ∈ s ++ t) (i ∈ s \/ i ∈ t)) by apply elem_of_app. by rewrite bool_decide_or.
  - intros s bs. destruct (forallb _ s) eqn:E; [|done]. intros [= <-]. by apply decode_u16s_put.
Qed.

Definition hash_a : list byte := replicate 20 x01.
Definition hash_b : list byte := replicate 20 x02.

(** Two packets in a batch, the first with the later expiry; then a collection between the
    two expiries, and the first packet again. *)
Definition replay_ops : list log_op :=
  [LRestart true; LBatch true (mkBatch [x07] [(0, hash_a, 200); (1, hash_b, 100)] NewReplaySet false);
   LPut true hash_b 100; LGc true 150; LPut true hash_a 200].


(** Where the store keeps the slice, all entries of a batch get the expiry of the last one:
    the first packet is forgotten at height 150, though it expires at 200, and accepted again. *)
Lemma batch_shares_scratch :
  (run_logs false replay_ops empty_log).1 =
    [Accept hash_a 200; Accept hash_b 100; Collect hash_a 150; Collect hash_b 150; Accept hash_a 200].
Proof. by vm_compute. Qed.
