(* ===== verification/Links.v ===== *)
(** * htlcswitch/switch.go: the links of the switch

    The switch finds the link of a channel by its channel identifier, by its short channel
    identifier and by the peer.  A link whose channel is not confirmed has no short channel
    identifier yet ([Source]); it is kept in a fourth index and not used to forward.

    A link is an object that the indexes point to; its implementation is not part of the
    repository, so what its methods return is an argument. *)

From Stdlib Require Import ZArith Lia.
From S2P Require Import Prelude Wire UpdateLog CircuitMap.

Local Open Scope go_scope.

(** What the switch reads of a link; only the short channel identifier changes. *)
Record ChannelLink := mkLink {
  link_ChanID : list byte;
  link_ShortChanID : ShortChannelID;
  link_Peer : list byte;
}.

Inductive link_err : Type :=
  | ErrChannelLinkNotFound
  | ErrNoLinksFound
  | ErrAlreadyActive (chanID : list byte)
  | ErrLinkStart
  | ErrLinkUpdate
  | ErrTrivialShortChanID (chanID : list byte).

Record LinkIndexes := mkIndexes {
  objects : gmap nat ChannelLink;
  linkIndex : gmap (list byte) nat;
  pendingLinkIndex : gmap (list byte) nat;
  forwardingIndex : gmap ShortChannelID nat;
  interfaceIndex : gmap (list byte) (gmap (list byte) nat);
}.

Definition link_of (s : LinkIndexes) (p : nat) : outcome link_err ChannelLink :=
  match objects s !! p with Some l => Ok l | None => Panic end.

(** ** Looking links up *)

Definition getLink (s : LinkIndexes) (chanID : list byte) : outcome link_err nat :=
  match linkIndex s !! chanID with
  | Some link => Ok link
  | None =>
      match pendingLinkIndex s !! chanID with Some link => Ok link | None => Err ErrChannelLinkNotFound end
  end.

Definition GetLink := getLink.

Definition getLinkByShortID (s : LinkIndexes) (chanID : ShortChannelID) : outcome link_err nat :=
  match forwardingIndex s !! chanID with Some link => Ok link | None => Err ErrChannelLinkNotFound end.

Definition GetLinkByShortID := getLinkByShortID.

(** [eligible] is what the link answers. *)
Definition HasActiveLink (s : LinkIndexes) (eligible : nat -> bool) (chanID : list byte) : bool :=
  match linkIndex s !! chanID with Some link => eligible link | None => false end.

(** [order] visits the links of the peer. *)
Definition getLinks (order : gmap (list byte) nat -> list nat) (s : LinkIndexes) (destination : list byte) :
    outcome link_err (list nat) :=
  match interfaceIndex s !! destination with
  | None => Err ErrNoLinksFound
  | Some links => Ok (foldl (fun channelLinks link => channelLinks ++ [link]) [] (order links))
  end.

Definition GetLinksByInterface (order : gmap (list byte) nat -> list nat) (s : LinkIndexes) (hop : list byte) :
    outcome link_err (list nat) :=
  links <~ getLinks order s hop ;
  Ok (foldl (fun handlers link => handlers ++ [link]) [] links).

(** ** Changing the indexes *)

Definition addLiveLink (p : nat) (link : ChannelLink) (s : LinkIndexes) : LinkIndexes :=
  let peerPub := link_Peer link in
  let peerIndex := default ∅ (interfaceIndex s !! peerPub) in
  mkIndexes (objects s) (<[link_ChanID link := p]> (linkIndex s)) (pendingLinkIndex s)
    (<[link_ShortChanID link := p]> (forwardingIndex s))
    (<[peerPub := <[link_ChanID link := p]> peerIndex]> (interfaceIndex s)).

Definition removeLink (chanID : list byte) (s : LinkIndexes) : outcome link_err (option nat) * LinkIndexes :=
  match getLink s chanID with
  | Ok p =>
      match link_of s p with
      | Ok link =>
          let interfaces :=
            match interfaceIndex s !! link_Peer link with
            | None => interfaceIndex s
            | Some peerIndex =>
                let peerIndex := delete (link_ChanID link) peerIndex in
                if bool_decide (size peerIndex = 0%nat) then delete (link_Peer link) (interfaceIndex s)
                else <[link_Peer link := peerIndex]> (interfaceIndex s)
            end in
          (Ok (Some p),
           mkIndexes (objects s) (delete (link_ChanID link) (linkIndex s)) (delete (link_ChanID link) (pendingLinkIndex s))
             (delete (link_ShortChanID link) (forwardingIndex s)) interfaces)
      | Err e => (Err e, s)
      | Panic => (Panic, s)
      end
  | _ => (Ok None, s)
  end.

(** The link that was removed is stopped. *)
Definition RemoveLink (chanID : list byte) (s : LinkIndexes) : outcome link_err (option nat) * LinkIndexes :=
  removeLink chanID s.

(** [startOk] is whether the link starts. *)
Definition AddLink (startOk : bool) (p : nat) (s : LinkIndexes) : outcome link_err unit * LinkIndexes :=
  match link_of s p with
  | Ok link =>
      let chanID := link_ChanID link in
      match getLink s chanID with
      | Ok _ => (Err (ErrAlreadyActive chanID), s)
      | _ =>
          if negb startOk then (Err ErrLinkStart, (removeLink chanID s).2)
          else if bool_decide (link_ShortChanID link = Source)
          then (Ok tt, mkIndexes (objects s) (linkIndex s) (<[chanID := p]> (pendingLinkIndex s)) (forwardingIndex s) (interfaceIndex s))
          else (Ok tt, addLiveLink p link s)
      end
  | Err e => (Err e, s)
  | Panic => (Panic, s)
  end.

(** [update] is what the link's own update returns: the identifier it has then, or none
    when it failed. *)
Definition UpdateShortChanID (update : option ShortChannelID) (chanID : list byte) (s : LinkIndexes) :
    outcome link_err unit * LinkIndexes :=
  match pendingLinkIndex s !! chanID with
  | None => (Err ErrChannelLinkNotFound, s)
  | Some p =>
      match link_of s p with
      | Ok link =>
          match update with
          | None => (Err ErrLinkUpdate, s)
          | Some shortChanID =>
              let link := mkLink (link_ChanID link) shortChanID (link_Peer link) in
              let s := mkIndexes (<[p := link]> (objects s)) (linkIndex s) (pendingLinkIndex s) (forwardingIndex s) (interfaceIndex s) in
              if bool_decide (shortChanID = Source) then (Err (ErrTrivialShortChanID chanID), s)
              else
                let s := mkIndexes (objects s) (linkIndex s) (delete chanID (pendingLinkIndex s)) (forwardingIndex s) (interfaceIndex s) in
                (Ok tt, addLiveLink p link s)
          end
      | Err e => (Err e, s)
      | Panic => (Panic, s)
      end
  end.

(** ** The abstract registry

    One entry per channel: the link, its peer, and its short channel identifier once it has
    one.  The three lookups are read off the entries. *)
Record entry := mkEntry { e_link : nat; e_peer : list byte; e_scid : option ShortChannelID }.

Inductive link_op : Type :=
  | OpNew (p : nat) (l : ChannelLink)
  | OpAdd (startOk : bool) (p : nat)
  | OpRemove (chanID : list byte)
  | OpUpdate (update : option ShortChannelID) (chanID : list byte).

(** A link object is made by the caller under a new pointer. *)
Definition run_link (op : link_op) (s : LinkIndexes) : outcome link_err unit * LinkIndexes :=
  match op with
  | OpNew p l =>
      (Ok tt, mkIndexes (<[p := l]> (objects s)) (linkIndex s) (pendingLinkIndex s) (forwardingIndex s) (interfaceIndex s))
  | OpAdd startOk p => AddLink startOk p s
  | OpRemove chanID =>
      let '(r, s) := RemoveLink chanID s in
      (match r with Ok _ => Ok tt | Err e => Err e | Panic => Panic end, s)
  | OpUpdate update chanID => UpdateShortChanID update chanID s
  end.

Definition live_scid (l : ChannelLink) : option ShortChannelID :=
  if bool_decide (link_ShortChanID l = Source) then None else Some (link_ShortChanID l).

(** The registry with the link objects the caller made. *)
Definition registry : Type := gmap nat ChannelLink * gmap (list byte) entry.

Definition spec_link (op : link_op) (r : registry) : outcome link_err unit * registry :=
  let '(objs, A) := r in
  match op with
  | OpNew p l => (Ok tt, (<[p := l]> objs, A))
  | OpAdd startOk p =>
      match objs !! p with
      | None => (Panic, r)
      | Some l =>
          if bool_decide (is_Some (A !! link_ChanID l)) then (Err (ErrAlreadyActive (link_ChanID l)), r)
          else if startOk then (Ok tt, (objs, <[link_ChanID l := mkEntry p (link_Peer l) (live_scid l)]> A))
          else (Err ErrLinkStart, r)
      end
  | OpRemove chanID => (Ok tt, (objs, delete chanID A))
  | OpUpdate update chanID =>
      match A !! chanID with
      | Some (mkEntry p peer None) =>
          match update with
          | None => (Err ErrLinkUpdate, r)
          | Some sc =>
              if bool_decide (sc = Source) then (Err (ErrTrivialShortChanID chanID), r)
              else (Ok tt, (<[p := mkLink chanID sc peer]> objs, <[chanID := mkEntry p peer (Some sc)]> A))
          end
      | _ => (Err ErrChannelLinkNotFound, r)
      end
  end.

(** No live link has the identifier. *)
Definition unused (A : gmap (list byte) entry) (sc : ShortChannelID) : Prop :=
  forall c e, A !! c = Some e -> e_scid e <> Some sc.

(** The caller makes objects under new pointers, adds objects it made, and the short
    channel identifier of a link that goes live belongs to no other live link. *)
Definition link_op_ok (op : link_op) (r : registry) : Prop :=
  match op with
  | OpNew p _ => r.1 !! p = None
  | OpAdd _ p => exists l, r.1 !! p = Some l /\ (r.2 !! link_ChanID l = None -> unused r.2 (link_ShortChanID l))
  | OpRemove _ => True
  | OpUpdate update _ => forall sc, update = Some sc -> unused r.2 sc
  end.

(** Both machines run the same operations. *)
Fixpoint run_links (ops : list link_op) (s : LinkIndexes) : list (outcome link_err unit) * LinkIndexes :=
  match ops with
  | [] => ([], s)
  | op :: ops => let '(r, s) := run_link op s in let '(rs, s) := run_links ops s in (r :: rs, s)
  end.

Fixpoint spec_links (ops : list link_op) (r : registry) : list (outcome link_err unit) * registry :=
  match ops with
  | [] => ([], r)
  | op :: ops => let '(x, r) := spec_link op r in let '(xs, r) := spec_links ops r in (x :: xs, r)
  end.

Fixpoint link_ops_ok (ops : list link_op) (r : registry) : Prop :=
  match ops with [] => True | op :: ops => link_op_ok op r /\ link_ops_ok ops (spec_link op r).2 end.

Definition no_links : LinkIndexes := mkIndexes ∅ ∅ ∅ ∅ ∅.

(** The links of a peer that can forward. *)
Definition live_links (A : gmap (list byte) entry) (peer : list byte) : list nat :=
  e_link <$> filter (fun e => e_peer e = peer /\ e_scid e <> None) (snd <$> map_to_list A).

(** The indexes represent the registry. *)
Record represents (s : LinkIndexes) (A : gmap (list byte) entry) : Prop := {
  rep_live c p : linkIndex s !! c = Some p <-> exists peer sc, A !! c = Some (mkEntry p peer (Some sc));
  rep_pending c p : pendingLinkIndex s !! c = Some p <-> exists peer, A !! c = Some (mkEntry p peer None);
  rep_forwarding sc p : forwardingIndex s !! sc = Some p <-> exists c peer, A !! c = Some (mkEntry p peer (Some sc));
  rep_interface peer c p : default ∅ (interfaceIndex s !! peer) !! c = Some p <-> exists sc, A !! c = Some (mkEntry p peer (Some sc));
  rep_nonempty peer m : interfaceIndex s !! peer = Some m -> m <> ∅;
  rep_object c e : A !! c = Some e -> objects s !! e_link e = Some (mkLink c (default Source (e_scid e)) (e_peer e));
  rep_scid c e : A !! c = Some e -> e_scid e <> Some Source;
  rep_unique c c' p p' peer peer' sc :
    A !! c = Some (mkEntry p peer (Some sc)) -> A !! c' = Some (mkEntry p' peer' (Some sc)) -> c = c';
}.

(** ** The indexes implement the registry *)

Lemma getLink_spec s A c : represents s A ->
  getLink s c = match A !! c with Some e => Ok (e_link e) | None => Err ErrChannelLinkNotFound end.
Proof.
  intros R. unfold getLink. destruct (A !! c) as [[p peer [sc|]]|] eqn:E.
  - by rewrite (proj2 (rep_live _ _ R c p)) by eauto.
  - destruct (linkIndex s !! c) as [q|] eqn:El; [apply (rep_live _ _ R) in El as (? & ? & ?); congruence|].
    by rewrite (proj2 (rep_pending _ _ R c p)) by eauto.
  - destruct (linkIndex s !! c) as [q|] eqn:El; [apply (rep_live _ _ R) in El as (? & ? & ?); congruence|].
    destruct (pendingLinkIndex s !! c) as [q|] eqn:Ep; [apply (rep_pending _ _ R) in Ep as (? & ?); congruence|done].
Qed.

Lemma addLiveLink_rep s A p c sc peer :
  represents s A -> A !! c = None -> objects s !! p = Some (mkLink c sc peer) -> sc <> Source -> unused A sc ->
  represents (addLiveLink p (mkLink c sc peer) s) (<[c := mkEntry p peer (Some sc)]> A).
Proof.
  intros R Hc Hp Hsc Hu. unfold addLiveLink. cbn [link_ChanID link_ShortChanID link_Peer].
  assert (linkIndex s !! c = None /\ pendingLinkIndex s !! c = None) as [Hl Hpe].
  { split; [destruct (linkIndex s !! c) as [q|] eqn:E; [apply (rep_live _ _ R) in E as (? & ? & ?); congruence|done]|].
    destruct (pendingLinkIndex s !! c) as [q|] eqn:E; [apply (rep_pending _ _ R) in E as (? & ?); congruence|done]. }
  split; cbn [objects linkIndex pendingLinkIndex forwardingIndex interfaceIndex].
  - intros c' p'. destruct (decide (c' = c)) as [->|Hne].
    + rewrite !lookup_insert_eq. naive_solver.
    + rewrite !lookup_insert_ne by done. apply R.
  - intros c' p'. destruct (decide (c' = c)) as [->|Hne].
    + rewrite lookup_insert_eq, Hpe. naive_solver.
    + rewrite lookup_insert_ne by done. apply R.
  - intros sc' p'. destruct (decide (sc' = sc)) as [->|Hne].
    + rewrite lookup_insert_eq. split.
      * intros [= <-]. exists c, peer. by rewrite lookup_insert_eq.
      * intros (c' & peer' & He). destruct (decide (c' = c)) as [->|Hc']; [rewrite lookup_insert_eq in He; naive_solver|].
        rewrite lookup_insert_ne in He by done. by destruct (Hu c' _ He).
    + rewrite lookup_insert_ne by done. rewrite (rep_forwarding _ _ R). split; intros (c' & peer' & He); exists c', peer'.
      * rewrite lookup_insert_ne by congruence. done.
      * destruct (decide (c' = c)) as [->|Hc']; [rewrite lookup_insert_eq in He; naive_solver|by rewrite lookup_insert_ne in He].
  - intros peer' c' p'. destruct (decide (peer' = peer)) as [->|Hpn].
    + rewrite lookup_insert_eq. cbn [default from_option id]. destruct (decide (c' = c)) as [->|Hc'].
      * rewrite !lookup_insert_eq. naive_solver.
      * rewrite !lookup_insert_ne by done. apply (rep_interface _ _ R).
    + rewrite (lookup_insert_ne (interfaceIndex s)) by done. rewrite (rep_interface _ _ R).
      destruct (decide (c' = c)) as [->|Hc']; [rewrite lookup_insert_eq, Hc; naive_solver|by rewrite lookup_insert_ne].
  - intros peer' m. destruct (decide (peer' = peer)) as [->|Hpn].
    + rewrite lookup_insert_eq. intros [= <-]. apply insert_non_empty.
    + rewrite lookup_insert_ne by done. apply (rep_nonempty _ _ R).
  - intros c' e. destruct (decide (c' = c)) as [->|Hc']; [rewrite lookup_insert_eq; by intros [= <-]|].
    rewrite lookup_insert_ne by done. apply (rep_object _ _ R).
  - intros c' e. destruct (decide (c' = c)) as [->|Hc']; [rewrite lookup_insert_eq; intros [= <-]; cbn; congruence|].
    rewrite lookup_insert_ne by done. apply (rep_scid _ _ R).
  - intros c1 c2 p1 p2 peer1 peer2 sc' H1 H2.
    destruct (decide (c1 = c)) as [->|Hn1], (decide (c2 = c)) as [->|Hn2].
    + done.
    + rewrite lookup_insert_eq in H1. injection H1 as <- <- <-. rewrite lookup_insert_ne in H2 by done. by destruct (Hu c2 _ H2).
    + rewrite lookup_insert_eq in H2. injection H2 as <- <- <-. rewrite lookup_insert_ne in H1 by done. by destruct (Hu c1 _ H1).
    + rewrite lookup_insert_ne in H1, H2 by done. by eapply (rep_unique _ _ R).
Qed.

Lemma removeLink_rep s A c : represents s A ->
  exists r, removeLink c s = (Ok r, (removeLink c s).2) /\ represents (removeLink c s).2 (delete c A).
Proof.
  intros R. unfold removeLink. rewrite (getLink_spec s A c R). destruct (A !! c) as [e|] eqn:E; cbn [fst snd].
  2:{ exists None. rewrite delete_id by done. done. }
  unfold link_of. rewrite (rep_object _ _ R c e E). cbn [link_ChanID link_ShortChanID link_Peer fst snd].
  eexists. split; [done|]. set (intf := match interfaceIndex s !! e_peer e with None => _ | Some _ => _ end).
  assert (forall peer c', default ∅ (intf !! peer) !! c' = if bool_decide (peer = e_peer e /\ c' = c) then None
    else default ∅ (interfaceIndex s !! peer) !! c') as Hi.
  { intros peer c'. unfold intf. destruct (interfaceIndex s !! e_peer e) as [m|] eqn:Em.
    - case_bool_decide as Hsz; destruct (decide (peer = e_peer e)) as [->|Hp];
        rewrite ?lookup_delete_eq, ?lookup_insert_eq, ?lookup_delete_ne, ?lookup_insert_ne by done;
        cbn [default from_option id]; rewrite ?Em; cbn [default from_option id];
        destruct (decide (c' = c)) as [->|Hc]; rewrite ?bool_decide_eq_true_2, ?bool_decide_eq_false_2 by naive_solver;
        rewrite ?lookup_delete_eq, ?lookup_delete_ne by done; try done.
      apply map_size_empty_inv in Hsz. rewrite lookup_empty. rewrite <- (lookup_delete_ne m c c') by done. by rewrite Hsz, lookup_empty.
    - case_bool_decide as Hb; [|done]. destruct Hb as [-> ->]. by rewrite Em. }
  split; cbn [objects linkIndex pendingLinkIndex forwardingIndex interfaceIndex].
  - intros c' p. destruct (decide (c' = c)) as [->|Hc]; [rewrite !lookup_delete_eq; naive_solver|].
    rewrite !lookup_delete_ne by done. apply R.
  - intros c' p. destruct (decide (c' = c)) as [->|Hc]; [rewrite !lookup_delete_eq; naive_solver|].
    rewrite !lookup_delete_ne by done. apply R.
  - intros sc p. destruct (decide (default Source (e_scid e) = sc)) as [<-|Hsc].
    + rewrite lookup_delete_eq. split; [done|]. intros (c' & peer & [Hne He]%lookup_delete_Some).
      destruct e as [q qp [sc|]]; cbn in *; [destruct Hne; by eapply (rep_unique _ _ R)|]. by destruct (rep_scid _ _ R _ _ He).
    + rewrite lookup_delete_ne by done. rewrite (rep_forwarding _ _ R). split.
      * intros (c' & peer & He). exists c', peer. rewrite lookup_delete_ne; [done|]. intros ->. rewrite He in E. injection E as <-. done.
      * intros (c' & peer & [_ He]%lookup_delete_Some). eauto.
  - intros peer c' p. rewrite Hi. case_bool_decide as Hb.
    + destruct Hb as [-> ->]. rewrite lookup_delete_eq. naive_solver.
    + rewrite (rep_interface _ _ R). destruct (decide (c' = c)) as [->|Hc]; [|by rewrite lookup_delete_ne].
      rewrite lookup_delete_eq, E. split; [|naive_solver]. intros [sc [= ->]]. naive_solver.
  - intros peer m. unfold intf. destruct (interfaceIndex s !! e_peer e) as [m0|] eqn:Em; [|apply (rep_nonempty _ _ R)].
    case_bool_decide as Hsz.
    + intros [_ H]%lookup_delete_Some. by eapply (rep_nonempty _ _ R).
    + intros [[_ <-]|[_ H]]%lookup_insert_Some; [|by eapply (rep_nonempty _ _ R)]. intros Hm. by rewrite Hm, map_size_empty in Hsz.
  - intros c' e' [_ H]%lookup_delete_Some. by apply (rep_object _ _ R).
  - intros c' e' [_ H]%lookup_delete_Some. by apply (rep_scid _ _ R c').
  - intros c1 c2 p1 p2 peer1 peer2 sc [_ H1]%lookup_delete_Some [_ H2]%lookup_delete_Some. by eapply (rep_unique _ _ R).
Qed.

Lemma remove_pending s A c p peer sc : represents s A -> A !! c = Some (mkEntry p peer None) ->
  represents (mkIndexes (<[p := mkLink c sc peer]> (objects s)) (linkIndex s) (delete c (pendingLinkIndex s))
    (forwardingIndex s) (interfaceIndex s)) (delete c A).
Proof.
  intros R E.
  assert (forall c' p' peer' sc', A !! c' = Some (mkEntry p' peer' (Some sc')) <-> delete c A !! c' = Some (mkEntry p' peer' (Some sc'))) as Hd.
  { intros c' p' peer' sc'. rewrite lookup_delete_Some. split; [|tauto]. intros H. split; [|done]. intros ->. congruence. }
  split; cbn [objects linkIndex pendingLinkIndex forwardingIndex interfaceIndex].
  - intros c' p'. setoid_rewrite <- Hd. apply R.
  - intros c' p'. destruct (decide (c' = c)) as [->|Hc]; [rewrite !lookup_delete_eq; naive_solver|].
    rewrite !lookup_delete_ne by done. apply R.
  - intros sc' p'. setoid_rewrite <- Hd. apply R.
  - intros peer' c' p'. setoid_rewrite <- Hd. apply R.
  - apply R.
  - intros c' e' [Hne H]%lookup_delete_Some. pose proof (rep_object _ _ R _ _ H) as Ho. rewrite lookup_insert_ne; [done|].
    intros ->. pose proof (rep_object _ _ R _ _ E) as Ho'. cbn in Ho'. rewrite Ho' in Ho. naive_solver.
  - intros c' e' [_ H]%lookup_delete_Some. by apply (rep_scid _ _ R c').
  - intros c1 c2 p1 p2 peer1 peer2 sc' H1 H2. apply Hd in H1, H2. by eapply (rep_unique _ _ R).
Qed.

Lemma add_pending s A p c peer : represents s A -> A !! c = None -> objects s !! p = Some (mkLink c Source peer) ->
  represents (mkIndexes (objects s) (linkIndex s) (<[c := p]> (pendingLinkIndex s)) (forwardingIndex s) (interfaceIndex s))
    (<[c := mkEntry p peer None]> A).
Proof.
  intros R Hc Hp.
  assert (forall c' p' peer' sc', A !! c' = Some (mkEntry p' peer' (Some sc')) <->
    <[c := mkEntry p peer None]> A !! c' = Some (mkEntry p' peer' (Some sc'))) as Hd.
  { intros c' p' peer' sc'. rewrite lookup_insert_Some. split; [|naive_solver]. intros H. right. split; [|done]. congruence. }
  split; cbn [objects linkIndex pendingLinkIndex forwardingIndex interfaceIndex].
  - intros c' p'. setoid_rewrite <- Hd. apply R.
  - intros c' p'. destruct (decide (c' = c)) as [->|Hne]; [rewrite !lookup_insert_eq; naive_solver|].
    rewrite !lookup_insert_ne by done. apply R.
  - intros sc' p'. setoid_rewrite <- Hd. apply R.
  - intros peer' c' p'. setoid_rewrite <- Hd. apply R.
  - apply R.
  - intros c' e' [[<- <-]|[_ H]]%lookup_insert_Some; [done|by apply (rep_object _ _ R)].
  - intros c' e' [[<- <-]|[_ H]]%lookup_insert_Some; [done|by apply (rep_scid _ _ R c')].
  - intros c1 c2 p1 p2 peer1 peer2 sc' H1 H2. apply Hd in H1, H2. by eapply (rep_unique _ _ R).
Qed.

Lemma run_link_refines op s A : represents s A -> link_op_ok op (objects s, A) ->
  exists r, run_link op s = (r, (run_link op s).2) /\ spec_link op (objects s, A) = (r, (objects (run_link op s).2, (spec_link op (objects s, A)).2.2)) /\
    represents (run_link op s).2 (spec_link op (objects s, A)).2.2.
Proof.
  intros R Hok. destruct op as [p l|startOk p|c|update c]; cbn [run_link spec_link link_op_ok fst snd] in *.
  - exists (Ok tt). split; [done|]. split; [done|]. destruct R. split; try done. cbn [objects]. intros c e He.
    pose proof (rep_object0 c e He). rewrite lookup_insert_ne; [done|]. congruence.
  - destruct Hok as ([c sc peer] & Hl & Hu). unfold AddLink, link_of. rewrite Hl. cbn [link_ChanID link_ShortChanID link_Peer] in *.
    rewrite (getLink_spec s A c R). destruct (A !! c) as [e|] eqn:E; [rewrite bool_decide_eq_true_2 by done; by eauto|].
    rewrite (bool_decide_eq_false_2 (is_Some None)) by apply is_Some_None. destruct startOk; cbn [negb].
    + unfold live_scid. cbn [link_ShortChanID]. case_bool_decide as Hs; cbn [fst snd].
      * subst sc. exists (Ok tt). split_and!; [done..|]. by apply add_pending.
      * exists (Ok tt). split_and!; [done..|]. apply addLiveLink_rep; auto.
    + unfold removeLink. rewrite (getLink_spec s A c R), E. cbn [fst snd]. eauto.
  - unfold RemoveLink. destruct (removeLink_rep s A c R) as (r & -> & Hr). cbn [fst snd]. exists (Ok tt). split_and!; [done| |done].
    f_equal. f_equal. unfold removeLink. destruct (getLink s c); [|done..]. by destruct (link_of s a).
  - unfold UpdateShortChanID. destruct (A !! c) as [[p peer [sc|]]|] eqn:E.
    + destruct (pendingLinkIndex s !! c) as [q|] eqn:Ep; [apply (rep_pending _ _ R) in Ep as (? & ?); congruence|]. by eauto.
    + rewrite (proj2 (rep_pending _ _ R c p)) by eauto. unfold link_of. pose proof (rep_object _ _ R _ _ E) as Ho. cbn in Ho.
      rewrite Ho. cbn [link_ChanID link_Peer]. destruct update as [sc|]; [|by eauto]. case_bool_decide as Hs; cbn [fst snd].
      * subst sc. rewrite (insert_id (objects s)) by done. exists (Err (ErrTrivialShortChanID c)). destruct s. by split_and!.
      * exists (Ok tt). split_and!; [done..|]. rewrite <- (insert_delete_eq A).
        apply addLiveLink_rep; [by apply (remove_pending s A c p peer sc)|by rewrite lookup_delete_eq|cbn; by rewrite lookup_insert_eq|done|].
        intros c' e' [_ H]%lookup_delete_Some. by apply (Hok sc eq_refl c').
    + destruct (pendingLinkIndex s !! c) as [q|] eqn:Ep; [apply (rep_pending _ _ R) in Ep as (? & ?); congruence|]. by eauto.
Qed.

Lemma run_links_refines ops s A : represents s A -> link_ops_ok ops (objects s, A) ->
  exists rs s' A', run_links ops s = (rs, s') /\ spec_links ops (objects s, A) = (rs, (objects s', A')) /\ represents s' A'.
Proof.
  revert s A. induction ops as [|op ops IH]; intros s A R Hok; cbn [run_links spec_links link_ops_ok] in *; [by eexists [], s, A|].
  destruct Hok as [Hop Hok]. destruct (run_link_refines op s A R Hop) as (r & Hr & Hs & R').
  rewrite Hr. rewrite Hs in Hok |- *. cbn [snd] in Hok. clear Hr Hs. revert R' Hok. generalize (run_link op s).2, (spec_link op (objects s, A)).2.2. intros s1 A1 R' Hok.
  destruct (IH _ _ R' Hok) as (rs & s' & A' & -> & -> & R2). eauto 10.
Qed.

Lemma no_links_represent : represents no_links ∅.
Proof.
  split; cbn [no_links objects linkIndex pendingLinkIndex forwardingIndex interfaceIndex]; intros *; rewrite ?lookup_empty;
    cbn [default from_option id]; rewrite ?lookup_empty; try done; naive_solver.
Qed.

Lemma foldl_snoc {X} (l acc : list X) : foldl (fun acc x => acc ++ [x]) acc l = acc ++ l.
Proof. revert acc. induction l as [|x l IH]; intros acc; cbn; [by rewrite app_nil_r|]. by rewrite IH, <- app_assoc. Qed.

(** The links of a peer in the index are its live links. *)
Lemma interface_links s A peer : represents s A ->
  (map_to_list (default ∅ (interfaceIndex s !! peer))).*2 ≡ₚ live_links A peer.
Proof.
  intros R. unfold live_links. set (m := default ∅ (interfaceIndex s !! peer)).
  assert (m = e_link <$> filter (fun ce : list byte * entry => e_peer ce.2 = peer /\ e_scid ce.2 <> None) A) as ->.
  { apply map_eq. intros c. apply option_eq. intros p. unfold m. rewrite (rep_interface _ _ R), lookup_fmap_Some.
    setoid_rewrite map_lookup_filter_Some. cbn [snd]. split.
    - intros [sc E]. eexists. split; [|split; [exact E|done]]. done.
    - intros ([q qp [sc|]] & <- & E & Hp & Hs); cbn in *; [|done]. subst. eauto. }
  rewrite map_to_list_fmap, <- list_fmap_compose.
  replace (e_link <$> filter (fun e : entry => e_peer e = peer /\ e_scid e <> None) (snd <$> map_to_list A))
    with (e_link ∘ snd <$> filter (fun ce : list byte * entry => e_peer ce.2 = peer /\ e_scid ce.2 <> None) (map_to_list A)).
  2:{ induction (map_to_list A) as [|[c e] l IH]; [done|]. rewrite fmap_cons, !filter_cons. cbn [snd].
      case_decide; cbn; by rewrite IH. }
  apply (fmap_Permutation (e_link ∘ snd)). 
  apply NoDup_Permutation; [apply NoDup_map_to_list|apply NoDup_filter, NoDup_map_to_list|].
  intros [c e]. rewrite elem_of_map_to_list, map_lookup_filter_Some, list_elem_of_filter, elem_of_map_to_list. tauto.
Qed.

(** C6: the link indexes implement a registry with one entry per channel.  Over any calls, the
    results are those of the registry; then a channel identifier finds the link of its entry,
    a short channel identifier exactly the live link that has it, and a peer all of its live
    links, or an error when it has none. *)
Theorem link_indexes_refine ops :
  link_ops_ok ops (∅, ∅) ->
  exists rs s A, run_links ops no_links = (rs, s) /\ spec_links ops (∅, ∅) = (rs, (objects s, A)) /\
    (forall c, getLink s c = match A !! c with Some e => Ok (e_link e) | None => Err ErrChannelLinkNotFound end) /\
    (forall sc p, getLinkByShortID s sc = Ok p <-> exists c e, A !! c = Some e /\ e_link e = p /\ e_scid e = Some sc) /\
    (forall order peer, (forall m, order m ≡ₚ (map_to_list m).*2) ->
       match GetLinksByInterface order s peer with
       | Ok links => links ≡ₚ live_links A peer /\ links <> []
       | Err e => e = ErrNoLinksFound /\ live_links A peer = []
       | Panic => False
       end).
Proof.
  intros Hok. destruct (run_links_refines ops no_links ∅ no_links_represent Hok) as (rs & s & A & Hr & Hs & R).
  exists rs, s, A. split_and!; [done|done|intros c; by apply getLink_spec| |].
  - intros sc p. unfold getLinkByShortID. pose proof (rep_forwarding _ _ R sc p) as Hf.
    destruct (forwardingIndex s !! sc) as [q|]; split.
    + intros [= ->]. destruct (proj1 Hf eq_refl) as (c & peer & E). by eexists c, _.
    + intros (c & [p' peer x] & E & <- & Hx). cbn in *. subst x. destruct Hf as [_ Hf].
      specialize (Hf ltac:(by eauto)). by injection Hf as ->.
    + done.
    + intros (c & [p' peer x] & E & <- & Hx). cbn in *. subst x. destruct Hf as [_ Hf]. by specialize (Hf ltac:(by eauto)).
  - intros order peer Hord. pose proof (interface_links s A peer R) as Hp. unfold GetLinksByInterface, getLinks.
    destruct (interfaceIndex s !! peer) as [m|] eqn:E; cbn [obind default from_option id] in *.
    + rewrite !foldl_snoc. cbn [app]. split; [by rewrite Hord|]. intros Hn. apply (rep_nonempty _ _ R _ _ E).
      pose proof (Hord m) as Hl. rewrite Hn in Hl. symmetry in Hl. apply Permutation_nil_r in Hl.
      apply fmap_nil_inv in Hl. by apply map_to_list_empty_iff.
    + split; [done|]. rewrite map_to_list_empty in Hp. cbn in Hp. by apply Permutation_nil_l in Hp.
Qed.

Definition chan_1 : list byte := replicate 32 x01.
Definition chan_2 : list byte := replicate 32 x02.
Definition peer_1 : list byte := replicate 33 x03.

(** Two links of a peer, one of them confirmed later; then the other is removed. *)
Definition link_ops : list link_op :=
  [OpNew 0 (mkLink chan_1 (mkShortChannelID 1 2 3) peer_1); OpNew 1 (mkLink chan_2 Source peer_1);
   OpAdd true 0; OpAdd true 1; OpAdd true 1; OpUpdate (Some (mkShortChannelID 4 5 6)) chan_2; OpRemove chan_1].

Lemma unused_check (A : gmap (list byte) entry) sc :
  forallb (fun ce => bool_decide (e_scid ce.2 <> Some sc)) (map_to_list A) = true -> unused A sc.
Proof.
  intros H c e He. rewrite forallb_forall in H.
  by apply (bool_decide_eq_true_1 _ (H (c, e) (proj1 (list_elem_of_In _ _) (proj2 (elem_of_map_to_list _ _ _) He)))).
Qed.

Lemma link_ops_fine : link_ops_ok link_ops (∅, ∅).
Proof.
  unfold link_ops. cbn [link_ops_ok]. split_and!; cbn [link_op_ok].
  1-2: by vm_compute.
  1-3: eexists; (split; [by vm_compute|]); intros _; apply unused_check; by vm_compute.
  - intros sc [= <-]. apply unused_check. by vm_compute.
  - done.
  - done.
Qed.

Lemma link_indexes_refine_witness :
  exists s, (run_links link_ops no_links).2 = s /\ getLink s chan_1 = Err ErrChannelLinkNotFound /\
    getLinkByShortID s (mkShortChannelID 4 5 6) = Ok 1%nat.
Proof.
  destruct (link_indexes_refine link_ops link_ops_fine) as (rs & s & A & Hr & Hs & H1 & H2 & _).
  exists s. rewrite Hr. split; [done|].
  assert ((run_links link_ops no_links).2 = s) as <- by (by rewrite Hr). split; by vm_compute.
Defined.
