(* ===== verification/NetworkResult.v ===== *)
(** * htlcswitch/payment_result.go: the results of payments

    The switch stores the response to a payment of this node before it forgets the payment,
    and hands it to those who wait for it.  A channel with room for one result is an entry of
    [chans]; sending to a channel that is full never returns ([Panic]).  The calls for one
    payment exclude each other, so that each of them is one step.  [dbOk] says whether the
    database transaction of a call succeeds. *)

From Stdlib Require Import ZArith Lia.
From S2P Require Import Prelude Wire Features WireMessages WireTlv WireGossip WireFrame UpdateLog CommitTx Kvdb.

Local Open Scope Z_scope.
Local Open Scope go_scope.

Inductive result_err : Type :=
  | ErrPaymentIDNotFound
  | ErrResultWire (e : wire_err)
  | ErrResultDB.

Section results.
Context {BT : Btcec} {TL : Tlv} {ZL : Zlib} {TR : Tor}.

(** A response: the message, whether the slice of its failure reason is nil, and how the
    reason is to be read. *)
Record networkResult := mkResult {
  n_msg : message;
  n_nilReason : bool;
  n_unencrypted : bool;
  n_isResolution : bool;
}.

Definition putBool (b : bool) : writer := WriteBytes [if b then x01 else x00].

(** The message after its length (channeldb/codec.go), then the two flags. *)
Definition serializeNetworkResult (n : networkResult) : outcome result_err (list byte) :=
  match WriteMessage [] (n_msg n) with
  | (msgBuf, Ok _) =>
      match (WriteUint16 (u16 (Z.of_nat (length msgBuf))) ;;> WriteBytes msgBuf ;;>
             putBool (n_unencrypted n) ;;> putBool (n_isResolution n)) [] with
      | (b, Ok _) => Ok b
      | (_, Err e) => Err (ErrResultWire e)
      | (_, Panic) => Panic
      end
  | (_, Err e) => Err (ErrResultWire e)
  | (_, Panic) => Panic
  end.

Definition getBool : reader bool :=
  b <-- ReadFull 1 ; rret (negb (bool_decide (b = [x00]))).

(** The message is read through a limit; what it leaves is read by the flags.  A reason that
    is read is never nil. *)
Definition deserializeNetworkResult (bs : list byte) : outcome result_err networkResult :=
  match ReadUint16 bs with
  | Ok (n, r) =>
      let limit := Z.to_nat n in
      match ReadMessage (take limit r) with
      | Ok (msg, rest) =>
          match (u <-- getBool ; i <-- getBool ; rret (u, i)) (rest ++ drop limit r) with
          | Ok ((u, i), _) => Ok (mkResult msg false u i)
          | Err e => Err (ErrResultWire e)
          | Panic => Panic
          end
      | Err e => Err (ErrResultWire e)
      | Panic => Panic
      end
  | Err e => Err (ErrResultWire e)
  | Panic => Panic
  end.

(** ** The store *)

Record networkResultStore := mkStore {
  resultBkt : option (gmap (list byte) (list byte));
  results : gmap Z (list nat);
  chans : gmap nat (option networkResult);
}.

Definition newNetworkResultStore (db : option (gmap (list byte) (list byte))) : networkResultStore := mkStore db ∅ ∅.

Definition idKey (paymentID : Z) : list byte := be_put 8 paymentID.

(** [res <- result] *)
Definition send (result : networkResult) (res : nat) (cs : gmap nat (option networkResult)) :
    outcome result_err (gmap nat (option networkResult)) :=
  match cs !! res with
  | Some None => Ok (<[res := Some result]> cs)
  | _ => Panic
  end.

Fixpoint notify (result : networkResult) (subscribers : list nat) (cs : gmap nat (option networkResult)) :
    outcome result_err (gmap nat (option networkResult)) :=
  match subscribers with
  | [] => Ok cs
  | res :: rest => cs <~ send result res cs ; notify result rest cs
  end.

Definition storeResult (dbOk : bool) (paymentID : Z) (result : networkResult) (store : networkResultStore) :
    outcome result_err unit * networkResultStore :=
  match serializeNetworkResult result with
  | Err e => (Err e, store)
  | Panic => (Panic, store)
  | Ok b =>
      if negb dbOk then (Err ErrResultDB, store)
      else
        let store := mkStore (Some (<[idKey paymentID := b]> (default ∅ (resultBkt store)))) (results store) (chans store) in
        match notify result (default [] (results store !! paymentID)) (chans store) with
        | Ok cs => (Ok tt, mkStore (resultBkt store) (delete paymentID (results store)) cs)
        | Err e => (Err e, store)
        | Panic => (Panic, store)
        end
  end.

Definition fetchResult (store : networkResultStore) (pid : Z) : outcome result_err networkResult :=
  match resultBkt store with
  | None => Err ErrPaymentIDNotFound
  | Some networkResults =>
      match networkResults !! idKey pid with
      | None => Err ErrPaymentIDNotFound
      | Some resultBytes => deserializeNetworkResult resultBytes
      end
  end.

(** Returns the channel on which the result is delivered. *)
Definition subscribeResult (dbOk : bool) (paymentID : Z) (store : networkResultStore) :
    outcome result_err nat * networkResultStore :=
  let resultChan := fresh (dom (chans store)) in
  if negb dbOk then (Err ErrResultDB, store)
  else
    match fetchResult store paymentID with
    | Ok result => (Ok resultChan, mkStore (resultBkt store) (results store) (<[resultChan := Some result]> (chans store)))
    | Err ErrPaymentIDNotFound =>
        (Ok resultChan,
         mkStore (resultBkt store)
           (<[paymentID := default [] (results store !! paymentID) ++ [resultChan]]> (results store))
           (<[resultChan := None]> (chans store)))
    | Err e => (Err e, store)
    | Panic => (Panic, store)
    end.

Definition getResult (dbOk : bool) (pid : Z) (store : networkResultStore) : outcome result_err networkResult :=
  if dbOk then fetchResult store pid else Err ErrResultDB.

(** A key of fewer than eight bytes cannot be read as a payment. *)
Fixpoint toClean (keep : gset Z) (l : list (list byte * list byte)) : outcome result_err (list (list byte)) :=
  match l with
  | [] => Ok []
  | (k, _) :: l =>
      if bool_decide (8 <= length k)%nat then
        rest <~ toClean keep l ;
        Ok (if bool_decide (be_get (take 8 k) ∈ keep) then rest else k :: rest)
      else Panic
  end.

Definition cleanStore (dbOk : bool) (keep : gset Z) (store : networkResultStore) : outcome result_err unit * networkResultStore :=
  let networkResults := default ∅ (resultBkt store) in
  match toClean keep (ForEach networkResults) with
  | Ok ks =>
      if dbOk then (Ok tt, mkStore (Some (foldl (fun b k => delete k b) networkResults ks)) (results store) (chans store))
      else (Err ErrResultDB, store)
  | Err e => (Err e, store)
  | Panic => (Panic, store)
  end.

(** ** Results round-trip *)

Context {BL : BtcecLaws} {TLL : TlvLaws} {ZLL : ZlibLaws} {TRL : TorLaws}.

(** A response that the store can hold: its message is not above the limit, and it is one
    that arrives as it was sent. *)
Definition storable_result (n : networkResult) : Prop :=
  wf (n_msg n) /\ delivered (n_msg n) = Ok (n_msg n) /\ is_ok (WriteMessage [] (n_msg n)).2 = true.

(** What comes back from disk: the reason is not nil any more. *)
Definition loaded (n : networkResult) : networkResult := mkResult (n_msg n) false (n_unencrypted n) (n_isResolution n).

#[local] Instance codec_flag : Codec (fun _ => True) putBool getBool.
Proof.
  split; [|done]. intros b _. exists [if b then x01 else x00]. split; [apply writes_bytes|].
  intros rest. unfold getBool, rbind. rewrite (ReadFull_app [_]). by destruct b.
Qed.

Lemma result_rt n : storable_result n ->
  exists b, serializeNetworkResult n = Ok b /\ deserializeNetworkResult b = Ok (loaded n).
Proof.
  intros (Hw & Hd & Hok). destruct (WriteMessage_rt (n_msg n) Hw) as (msg' & bs & Hd' & Hr & Hwr).
  rewrite Hd in Hd'. injection Hd' as <-. rewrite Hwr in Hok. unfold serializeNetworkResult. rewrite Hwr.
  case_bool_decide as Hsz; [done|]. rewrite app_nil_l.
  assert (rt (WriteUint16 (u16 (Z.of_nat (length bs)))) ReadUint16 (u16 (Z.of_nat (length bs)))) as (b1 & Hb1 & Hr1).
  { apply codec_rt. unfold in_u, u16. apply Z.mod_pos_bound. lia. }
  assert (rt (putBool (n_unencrypted n) ;;> putBool (n_isResolution n))
    (u <-- getBool ; i <-- getBool ; rret (u, i)) (n_unencrypted n, n_isResolution n)) as (b2 & Hb2 & Hr2).
  { eapply rt_seq; [by apply codec_rt|]. apply (rt_last _ _ _ (fun i => (n_unencrypted n, i))). by apply codec_rt. }
  pose proof (writes_seq _ _ _ _ Hb1 (writes_seq _ _ _ _ (writes_bytes bs) Hb2)) as Hwrites.
  rewrite (Hwrites []). cbn [app]. eexists. split; [done|].
  unfold deserializeNetworkResult. rewrite Hr1. unfold MaxMsgBody in Hsz. rewrite u16_length by lia.
  rewrite Nat2Z.id, take_app_length, drop_app_length, Hr. cbn [app]. rewrite <- (app_nil_r b2), Hr2. done.
Qed.
End results.
