(* ===== verification/Switch.v ===== *)
(** * htlcswitch/switch.go: packets through the switch

    Links hand packets to the switch.  It records a circuit for every HTLC that is to be
    forwarded, routes the packets to its main loop, and on the way back closes the circuit,
    stores the result of a payment of this node, acknowledges the response and removes the
    circuit.  The circuit map, the store of results, the forwarding packages and the link
    indexes are the components of the same names.

    A send to the main loop is recorded in [sent]; it fails when the link or the switch is
    stopped, which an argument says for every send.  What a link, the notifier and the
    sphinx library answer is an argument; [dbOk] says whether a transaction commits. *)

From Stdlib Require Import ZArith Lia.
From S2P Require Import Prelude Wire Features WireMessages WireTlv WireGossip WireFrame.
From S2P Require Import OnionError Amounts UpdateLog CommitTx Kvdb FwdPkg CircuitMap Links NetworkResult.

Local Open Scope Z_scope.
Local Open Scope go_scope.

(** ** Failures (htlcswitch/failure.go, failure_detail.go) *)

Inductive OutgoingFailure : Type :=
  | OutgoingFailureNone
  | OutgoingFailureDecodeError
  | OutgoingFailureLinkNotEligible
  | OutgoingFailureOnChainTimeout
  | OutgoingFailureHTLCExceedsMax
  | OutgoingFailureInsufficientBalance
  | OutgoingFailureCircularRoute
  | OutgoingFailureIncompleteForward
  | OutgoingFailureDownstreamHtlcAdd
  | OutgoingFailureForwardsDisabled.

Record LinkError := mkLinkError { le_msg : FailureMessage; le_detail : option OutgoingFailure }.

Definition NewLinkError (msg : FailureMessage) : LinkError := mkLinkError msg None.
Definition NewDetailedLinkError (msg : FailureMessage) (detail : OutgoingFailure) : LinkError := mkLinkError msg (Some detail).
Definition WireMessage (l : LinkError) : FailureMessage := le_msg l.

(** A failure of another node, with the position of the node; no message when it could not
    be decoded. *)
Record ForwardingError := mkForwardingError { FailureSourceIdx : Z; fe_msg : option FailureMessage }.

Definition NewForwardingError (failure : FailureMessage) (index : Z) : ForwardingError := mkForwardingError index (Some failure).
Definition NewUnknownForwardingError (index : Z) : ForwardingError := mkForwardingError index None.

Inductive switch_err : Type :=
  | ErrSwitchStopped
  | ErrLink (e : LinkError)
  | ErrDustThresholdExceeded
  | ErrDuplicateAdd
  | ErrLocalAddFailed
  | ErrLinkAdd
  | ErrCircuits (e : circuit_err)
  | ErrObfuscate (e : wire_err)
  | ErrNoTargetChannel (k : CircuitKey)
  | ErrTearDownType
  | ErrAck (e : fwd_err)
  | ErrResults (e : result_err)
  | ErrUnexpectedFee
  | ErrSwitchDB.

(** The error of a failed payment. *)
Inductive payment_error : Type :=
  | PaymentLinkError (e : LinkError)
  | PaymentForwardingError (e : ForwardingError)
  | ErrUnreadableFailureMessage.

Inductive PaymentResult : Type :=
  | PaymentSettled (preimage : list byte)
  | PaymentFailed (e : payment_error).

Section switch.
Context {BT : Btcec} {TL : Tlv} {ZL : Zlib} {TR : Tor} {SX : Sphinx} {VI : VarInt}.

(** [EncryptError] of the onion library: with or without a MAC. *)
Variable EncryptError : SphinxErrorEncrypter -> bool -> list byte -> list byte.

(** [DecryptError] of the onion library: the sender's index and the message. *)
Definition SphinxDecrypt (onion : list byte -> option (Z * list byte)) (reason : list byte) : option ForwardingError :=
  match onion reason with
  | None => None
  | Some (senderIdx, message) =>
      match DecodeFailure message with
      | Ok failureMsg => Some (NewForwardingError failureMsg senderIdx)
      | _ => Some (NewUnknownForwardingError senderIdx)
      end
  end.

Definition EncryptFirstHop (s : SphinxErrorEncrypter) (failure : FailureMessage) : outcome wire_err (list byte) :=
  match EncodeFailure failure [] with
  | (b, Ok _) => Ok (EncryptError s true b)
  | (_, Err e) => Err e
  | (_, Panic) => Panic
  end.

Definition EncryptMalformedError (s : SphinxErrorEncrypter) (reason : list byte) : list byte := EncryptError s true reason.
Definition IntermediateEncrypt (s : SphinxErrorEncrypter) (reason : list byte) : list byte := EncryptError s false reason.

(** ** Packets (htlcswitch/packet.go) *)

Record htlcPacket := mkPacket {
  incomingChanID : ShortChannelID;
  outgoingChanID : ShortChannelID;
  incomingHTLCID : Z;
  outgoingHTLCID : Z;
  sourceRef : option AddRef;
  destRef : option SettleFailRef;
  incomingAmount : Z;
  amount : Z;
  assetId : Z;
  htlc : message;
  nilReason : bool;
  obfuscator : option SphinxErrorEncrypter;
  localFailure : bool;
  linkFailure : option LinkError;
  convertedError : bool;
  hasSource : bool;
  isResolution : bool;
  circuit : option nat;
  incomingTimeout : Z;
  outgoingTimeout : Z;
  customRecords : list (Z * list byte);
}.

Definition inKey (p : htlcPacket) : CircuitKey := mkCircuitKey (incomingChanID p) (incomingHTLCID p).
Definition outKey (p : htlcPacket) : CircuitKey := mkCircuitKey (outgoingChanID p) (outgoingHTLCID p).
Definition keystone (p : htlcPacket) : Keystone := mkKeystone (inKey p) (outKey p).

(** The zero value of the struct, with a message. *)
Definition zeroPacket (m : message) : htlcPacket :=
  {| incomingChanID := Source; outgoingChanID := Source; incomingHTLCID := 0; outgoingHTLCID := 0; sourceRef := None;
     destRef := None; incomingAmount := 0; amount := 0; assetId := 0; htlc := m; nilReason := true; obfuscator := None;
     localFailure := false; linkFailure := None; convertedError := false; hasSource := false; isResolution := false;
     circuit := None; incomingTimeout := 0; outgoingTimeout := 0; customRecords := [] |}.

Definition set_circuit (c : option nat) (p : htlcPacket) : htlcPacket :=
  {| incomingChanID := incomingChanID p; outgoingChanID := outgoingChanID p; incomingHTLCID := incomingHTLCID p;
     outgoingHTLCID := outgoingHTLCID p; sourceRef := sourceRef p; destRef := destRef p; incomingAmount := incomingAmount p;
     amount := amount p; assetId := assetId p; htlc := htlc p; nilReason := nilReason p; obfuscator := obfuscator p;
     localFailure := localFailure p; linkFailure := linkFailure p; convertedError := convertedError p; hasSource := hasSource p;
     isResolution := isResolution p; circuit := c; incomingTimeout := incomingTimeout p; outgoingTimeout := outgoingTimeout p;
     customRecords := customRecords p |}.

(** The incoming half of a response, from its circuit. *)
Definition set_source (k : CircuitKey) (c : nat) (ref : AddRef) (p : htlcPacket) : htlcPacket :=
  {| incomingChanID := ChanID k; outgoingChanID := outgoingChanID p; incomingHTLCID := HtlcID k;
     outgoingHTLCID := outgoingHTLCID p; sourceRef := Some ref; destRef := destRef p; incomingAmount := incomingAmount p;
     amount := amount p; assetId := assetId p; htlc := htlc p; nilReason := nilReason p; obfuscator := obfuscator p;
     localFailure := localFailure p; linkFailure := linkFailure p; convertedError := convertedError p; hasSource := hasSource p;
     isResolution := isResolution p; circuit := Some c; incomingTimeout := incomingTimeout p; outgoingTimeout := outgoingTimeout p;
     customRecords := customRecords p |}.

(** A new circuit object (htlcswitch/circuit.go); a nil reference is the zero reference. *)
Definition newPaymentCircuit (hash : list byte) (pkt : htlcPacket) : PaymentCircuit :=
  {| Circuit_AddRef := default (mkAddRef 0 0) (sourceRef pkt);
     Incoming := mkCircuitKey (incomingChanID pkt) (incomingHTLCID pkt);
     Outgoing := None; PaymentHash := hash; IncomingAmount := incomingAmount pkt; OutgoingAmount := amount pkt;
     Circuit_AssetId := assetId pkt; ErrorEncrypter := obfuscator pkt; LoadedFromDisk := false |}.

Definition new_object (c : PaymentCircuit) (cm : circuitMap) : nat * circuitMap :=
  let p := fresh (dom (heap cm)) in (p, set_heap cm (<[p := c]> (heap cm))).

(** ** The switch *)

Record Switch := mkSwitch {
  circuits : circuitMap;
  networkResults : networkResultStore;
  fwdPkgs : fwdStore;
  links : LinkIndexes;
  pendingSettleFails : list SettleFailRef;
  sent : list htlcPacket;
}.

Definition set_circuits (s : Switch) cm := mkSwitch cm (networkResults s) (fwdPkgs s) (links s) (pendingSettleFails s) (sent s).
Definition set_results (s : Switch) r := mkSwitch (circuits s) r (fwdPkgs s) (links s) (pendingSettleFails s) (sent s).
Definition set_fwdPkgs (s : Switch) f := mkSwitch (circuits s) (networkResults s) f (links s) (pendingSettleFails s) (sent s).
Definition set_pendingSettleFails (s : Switch) l := mkSwitch (circuits s) (networkResults s) (fwdPkgs s) (links s) l (sent s).
Definition set_sent (s : Switch) l := mkSwitch (circuits s) (networkResults s) (fwdPkgs s) (links s) (pendingSettleFails s) l.

(** The [ok] of a send: whether neither the link nor the switch is stopped. *)
Definition routeAsync (ok : bool) (packet : htlcPacket) (s : Switch) : outcome switch_err unit * Switch :=
  if ok then (Ok tt, set_sent s (sent s ++ [packet])) else (Err ErrSwitchStopped, s).

(** The packet that carries the failure back is built, but handed to nobody: the second
    component. *)
Definition failAddPacket (packet : htlcPacket) (failure : LinkError) : outcome switch_err unit * option htlcPacket :=
  match obfuscator packet with
  | None => (Panic, None)
  | Some e =>
      match EncryptFirstHop e (WireMessage failure) with
      | Ok reason =>
          (Err (ErrLink failure),
           Some {| incomingChanID := incomingChanID packet; outgoingChanID := outgoingChanID packet;
                   incomingHTLCID := incomingHTLCID packet; outgoingHTLCID := outgoingHTLCID packet;
                   sourceRef := sourceRef packet; destRef := None; incomingAmount := incomingAmount packet;
                   amount := amount packet; assetId := assetId packet;
                   htlc := MUpdateFailHTLC (UpdateFailHTLC.mk (replicate 32 x00) 0 reason []); nilReason := false;
                   obfuscator := None; localFailure := false; linkFailure := Some failure; convertedError := false;
                   hasSource := false; isResolution := false; circuit := circuit packet;
                   incomingTimeout := incomingTimeout packet; outgoingTimeout := outgoingTimeout packet; customRecords := [] |})
      | Err e => (Err (ErrObfuscate e), None)
      | Panic => (Panic, None)
      end
  end.

(** ** Forwarding a batch

    [routes] says for every position of the main loop's queue whether the send succeeds. *)

(** The first pass: settles and fails are sent, adds get a circuit. *)
Fixpoint firstPass (routes : nat -> bool) (packets : list htlcPacket) (cs : list nat) (addBatch : list htlcPacket) (s : Switch) :
    outcome switch_err (list nat * list htlcPacket) * Switch :=
  match packets with
  | [] => (Ok (cs, addBatch), s)
  | packet :: rest =>
      match htlc packet with
      | MUpdateAddHTLC m =>
          let '(c, cm) := new_object (newPaymentCircuit (UpdateAddHTLC.PaymentHash m) packet) (circuits s) in
          firstPass routes rest (cs ++ [c]) (addBatch ++ [set_circuit (Some c) packet]) (set_circuits s cm)
      | _ =>
          match routeAsync (routes (length (sent s))) packet s with
          | (Ok _, s) => firstPass routes rest cs addBatch s
          | (Err e, s) => (Err e, s)
          | (Panic, s) => (Panic, s)
          end
      end
  end.

(** Whether the circuit of a packet is the head of a list. *)
Definition is_head (packet : htlcPacket) (l : list nat) : bool :=
  match l with c :: _ => bool_decide (circuit packet = Some c) | [] => false end.

(** The packets of the circuits that were added and of those that failed. *)
Fixpoint splitBatch (addBatch : list htlcPacket) (adds drops fails : list nat) (added failed : list htlcPacket) :
    list htlcPacket * list htlcPacket :=
  match addBatch with
  | [] => (added, failed)
  | packet :: rest =>
      if is_head packet adds then splitBatch rest (tail adds) drops fails (added ++ [packet]) failed
      else if is_head packet drops then splitBatch rest adds (tail drops) fails added failed
      else if is_head packet fails then splitBatch rest adds drops (tail fails) added (failed ++ [packet])
      else splitBatch rest adds drops fails added failed
  end.

Fixpoint routeAll (routes : nat -> bool) (packets : list htlcPacket) (s : Switch) : outcome switch_err unit * Switch :=
  match packets with
  | [] => (Ok tt, s)
  | packet :: rest =>
      match routeAsync (routes (length (sent s))) packet s with
      | (Ok _, s) => routeAll routes rest s
      | r => r
      end
  end.

(** Failing the packets of incomplete forwards; their errors are ignored. *)
Fixpoint failAll (packets : list htlcPacket) (linkError : LinkError) : outcome switch_err unit :=
  match packets with
  | [] => Ok tt
  | packet :: rest =>
      match (failAddPacket packet linkError).1 with Panic => Panic | _ => failAll rest linkError end
  end.

(** [update] is the last update of the incoming channel of the first failed packet, if it
    can be fetched. *)
Definition ForwardPackets (quitting : bool) (routes : nat -> bool) (dbOk : bool) (update : option ChannelUpdate.t)
    (packets : list htlcPacket) (s : Switch) : outcome switch_err unit * Switch :=
  if bool_decide (packets = []) then (Ok tt, s)
  else if quitting then (Ok tt, s)
  else
    match firstPass routes packets [] [] s with
    | (Err e, s) => (Err e, s)
    | (Panic, s) => (Panic, s)
    | (Ok (cs, addBatch), s) =>
        if bool_decide (cs = []) then (Ok tt, s)
        else
          match CommitCircuits dbOk cs (circuits s) with
          | (Panic, _, cm) => (Panic, set_circuits s cm)
          | (_, actions, cm) =>
              let s := set_circuits s cm in
              let '(addedPackets, failedPackets) :=
                splitBatch addBatch (CircuitMap.Adds actions) (Drops actions) (Fails actions) [] [] in
              match routeAll routes addedPackets s with
              | (Ok _, s) =>
                  if bool_decide (failedPackets = []) then (Ok tt, s)
                  else
                    let failure := match update with
                                   | None => FailTemporaryNodeFailure
                                   | Some u => FailTemporaryChannelFailure (Some u)
                                   end in
                    (failAll failedPackets (NewDetailedLinkError failure OutgoingFailureIncompleteForward), s)
              | r => r
              end
          end
    end.

Definition checkCircularForward (incoming outgoing : ShortChannelID) (allowCircular : bool) : option LinkError :=
  if bool_decide (incoming <> outgoing) then None
  else if allowCircular then None
  else Some (NewDetailedLinkError (FailTemporaryChannelFailure None) OutgoingFailureCircularRoute).

Definition IsForwardedHTLC (chanID : ShortChannelID) (htlcIndex : Z) (s : Switch) : outcome circuit_err bool :=
  match LookupOpenCircuit (circuits s) (mkCircuitKey chanID htlcIndex) with
  | None => Ok false
  | Some p => c <~ deref (circuits s) p ; Ok (bool_decide (ChanID (Incoming c) <> Source))
  end.

(** ** Sending a payment of this node

    [eligible] and [transit] are what the link answers, [handover] whether it takes the
    packet. *)
Definition getLocalLink (eligible : nat -> bool) (transit : nat -> option LinkError) (pkt : htlcPacket) (s : Switch) :
    nat + LinkError :=
  match getLinkByShortID (links s) (outgoingChanID pkt) with
  | Ok link =>
      if negb (eligible link)
      then inr (NewDetailedLinkError (FailTemporaryChannelFailure None) OutgoingFailureLinkNotEligible)
      else match transit link with Some htlcErr => inr htlcErr | None => inl link end
  | _ => inr (NewLinkError FailUnknownNextPeer)
  end.

Definition evaluateDustThreshold (link : nat) (amount assetId : Z) (incoming : bool) : bool := false.

Definition SendHTLC (eligible : nat -> bool) (transit : nat -> option LinkError) (dbOk handover : bool)
    (firstHop : ShortChannelID) (attemptID : Z) (m : UpdateAddHTLC.t) (s : Switch) : outcome switch_err unit * Switch :=
  let packet := {| incomingChanID := Source; outgoingChanID := firstHop; incomingHTLCID := attemptID; outgoingHTLCID := 0;
     sourceRef := None; destRef := None; incomingAmount := 0; amount := 0; assetId := 0; htlc := MUpdateAddHTLC m;
     nilReason := true; obfuscator := None; localFailure := false; linkFailure := None; convertedError := false;
     hasSource := false; isResolution := false; circuit := None; incomingTimeout := 0; outgoingTimeout := 0; customRecords := [] |} in
  match getLocalLink eligible transit packet s with
  | inr linkErr => (Err (ErrLink linkErr), s)
  | inl link =>
      if evaluateDustThreshold link (UpdateAddHTLC.Amount m) (UpdateAddHTLC.AssetID m) false
      then (Err ErrDustThresholdExceeded, s)
      else
        let '(c, cm) := new_object (newPaymentCircuit (UpdateAddHTLC.PaymentHash m) packet) (circuits s) in
        match CommitCircuits dbOk [c] cm with
        | (Err e, _, cm) => (Err (ErrCircuits e), set_circuits s cm)
        | (Panic, _, cm) => (Panic, set_circuits s cm)
        | (Ok _, actions, cm) =>
            let s := set_circuits s cm in
            if bool_decide (length (Drops actions) = 1%nat) then (Err ErrDuplicateAdd, s)
            else if bool_decide (length (Fails actions) = 1%nat) then (Err ErrLocalAddFailed, s)
            else if handover then (Ok tt, s) else (Err ErrLinkAdd, s)
        end
  end.

(** ** Responses *)

(** The circuit, the packet with its source filled in, and the switch.  An unknown circuit
    of a settle is no error. *)
Definition closeCircuit (pkt : htlcPacket) (s : Switch) : outcome switch_err (option nat) * htlcPacket * Switch :=
  if hasSource pkt then
    match FailCircuit (inKey pkt) (circuits s) with
    | (Ok c, cm) => (Ok (Some c), pkt, set_circuits s cm)
    | (Err e, cm) => (Err (ErrCircuits e), pkt, set_circuits s cm)
    | (Panic, cm) => (Panic, pkt, set_circuits s cm)
    end
  else
    match CloseCircuit (outKey pkt) (circuits s) with
    | (Ok p, cm) =>
        match deref cm p with
        | Ok c => (Ok (Some p), set_source (Incoming c) p (Circuit_AddRef c) pkt, set_circuits s cm)
        | _ => (Panic, pkt, set_circuits s cm)
        end
    | (Err ErrUnknownCircuit, cm) =>
        let s := set_circuits s cm in
        let s := match destRef pkt with
                 | Some ref => set_pendingSettleFails s (pendingSettleFails s ++ [ref])
                 | None => s
                 end in
        match htlc pkt with
        | MUpdateFulfillHTLC _ => (Ok None, pkt, s)
        | _ => (Err (ErrNoTargetChannel (outKey pkt)), pkt, s)
        end
    | (Err e, cm) => (Err (ErrCircuits e), pkt, set_circuits s cm)
    | (Panic, cm) => (Panic, pkt, set_circuits s cm)
    end.

Definition ackSettleFail (dbOk : bool) (settleFailRefs : list SettleFailRef) (s : Switch) : outcome switch_err unit * Switch :=
  match ackSettleFails settleFailRefs (fwdPkgs s) with
  | Ok f => if dbOk then (Ok tt, set_fwdPkgs s f) else (Err ErrSwitchDB, s)
  | Err e => (Err (ErrAck e), s)
  | Panic => (Panic, s)
  end.

(** The tick that acknowledges what [closeCircuit] collected. *)
Definition ackTick (dbOk : bool) (s : Switch) : Switch :=
  if bool_decide (pendingSettleFails s = []) then s
  else match ackSettleFail dbOk (pendingSettleFails s) s with
       | (Ok _, s) => set_pendingSettleFails s []
       | (_, s) => s
       end.

(** Open and pending circuits are deleted alike. *)
Definition teardownCircuit (dbOk : bool) (pkt : htlcPacket) (s : Switch) : outcome switch_err unit * Switch :=
  match htlc pkt with
  | MUpdateFulfillHTLC _ | MUpdateFailHTLC _ =>
      match circuit pkt with
      | None => (Panic, s)
      | Some p =>
          match deref (circuits s) p with
          | Ok _ =>
              match DeleteCircuits dbOk [inKey pkt] (circuits s) with
              | (Ok _, cm) => (Ok tt, set_circuits s cm)
              | (Err e, cm) => (Err (ErrCircuits e), set_circuits s cm)
              | (Panic, cm) => (Panic, set_circuits s cm)
              end
          | _ => (Panic, s)
          end
      end
  | _ => (Err ErrTearDownType, s)
  end.

(** The three steps of [handleLocalResponse], which runs beside the main loop. *)
Definition responseOf (pkt : htlcPacket) : networkResult :=
  mkResult (htlc pkt) (nilReason pkt) (localFailure pkt || convertedError pkt) (isResolution pkt).

Definition respondStore (dbOk : bool) (pkt : htlcPacket) (s : Switch) : outcome switch_err unit * Switch :=
  match storeResult dbOk (incomingHTLCID pkt) (responseOf pkt) (networkResults s) with
  | (Ok _, r) => (Ok tt, set_results s r)
  | (Err e, r) => (Err (ErrResults e), set_results s r)
  | (Panic, r) => (Panic, set_results s r)
  end.

Definition respondAck (dbOk : bool) (pkt : htlcPacket) (s : Switch) : outcome switch_err unit * Switch :=
  match destRef pkt with Some ref => ackSettleFail dbOk [ref] s | None => (Ok tt, s) end.

(** A step that fails ends the handling; the error is logged. *)
Definition handleLocalResponse (dbOk1 dbOk2 dbOk3 : bool) (pkt : htlcPacket) (s : Switch) : outcome switch_err unit * Switch :=
  match respondStore dbOk1 pkt s with
  | (Ok _, s) =>
      match respondAck dbOk2 pkt s with
      | (Ok _, s) => teardownCircuit dbOk3 pkt s
      | r => r
      end
  | r => r
  end.

(** ** Results *)

Definition parseFailedPayment (deobfuscator : list byte -> option ForwardingError) (n : networkResult) (reason : list byte) :
    payment_error :=
  if n_unencrypted n then
    match DecodeFailure reason with
    | Ok failureMsg => PaymentLinkError (NewLinkError failureMsg)
    | _ => PaymentLinkError (NewDetailedLinkError (FailTemporaryChannelFailure None) OutgoingFailureDecodeError)
    end
  else if n_isResolution n && n_nilReason n
  then PaymentLinkError (NewDetailedLinkError FailPermanentChannelFailure OutgoingFailureOnChainTimeout)
  else match deobfuscator reason with
       | Some failure => PaymentForwardingError failure
       | None => ErrUnreadableFailureMessage
       end.

(** No result for a message that is neither. *)
Definition extractResult (deobfuscator : list byte -> option ForwardingError) (n : networkResult) : option PaymentResult :=
  match n_msg n with
  | MUpdateFulfillHTLC m => Some (PaymentSettled (UpdateFulfillHTLC.PaymentPreimage m))
  | MUpdateFailHTLC m => Some (PaymentFailed (parseFailedPayment deobfuscator n (UpdateFailHTLC.Reason m)))
  | _ => None
  end.

(** [GetPaymentResult] first looks for the circuit, then for the result: responses can
    arrive in between. *)
Definition paymentPending (attemptID : Z) (s : Switch) : bool :=
  match LookupCircuit (circuits s) (mkCircuitKey Source attemptID) with Some _ => true | None => false end.

Definition awaitResult (known dbOk : bool) (attemptID : Z) (s : Switch) : outcome switch_err nat * Switch :=
  if negb known then
    match getResult dbOk attemptID (networkResults s) with
    | Ok res =>
        let c := fresh (dom (chans (networkResults s))) in
        (Ok c, set_results s (mkStore (resultBkt (networkResults s)) (results (networkResults s))
                                      (<[c := Some res]> (chans (networkResults s)))))
    | Err e => (Err (ErrResults e), s)
    | Panic => (Panic, s)
    end
  else
    match subscribeResult dbOk attemptID (networkResults s) with
    | (Ok c, r) => (Ok c, set_results s r)
    | (Err e, r) => (Err (ErrResults e), set_results s r)
    | (Panic, r) => (Panic, set_results s r)
    end.

Definition GetPaymentResult (dbOk : bool) (attemptID : Z) (s : Switch) : outcome switch_err nat * Switch :=
  awaitResult (paymentPending attemptID s) dbOk attemptID s.

Definition CleanStore (dbOk : bool) (keepPids : gset Z) (s : Switch) : outcome switch_err unit * Switch :=
  match cleanStore dbOk keepPids (networkResults s) with
  | (Ok _, r) => (Ok tt, set_results s r)
  | (Err e, r) => (Err (ErrResults e), set_results s r)
  | (Panic, r) => (Panic, set_results s r)
  end.

(** ** Responses of a former run *)

(** The descriptors of remote updates in a forwarding package (lnwallet/channel.go); an
    unknown message leaves the zero descriptor, an add. *)
Definition remoteDescriptor (chanID : ShortChannelID) (height : Z) (i : Z) (u : LogUpdate) : outcome switch_err PaymentDescriptor :=
  let dest := Some (mkSettleFailRef chanID height (u16 i)) in
  let removal t parent preimage sha reason code :=
    {| RHash := replicate 32 x00; RPreimage := preimage; Timeout := 0; BtcAmount := 0; AssetAmount := 0; AssetID := 0;
       UpdateLog.LogIndex := 0; HtlcIndex := 0; ParentIndex := parent; SourceRef := None; DestRef := dest;
       OpenCircuitKey := None; ClosedCircuitKey := None; OnionBlob := []; ShaOnionBlob := sha; FailReason := reason;
       FailCode := code; EntryType := t; heights := noHeights; output := noOutput; isForwarded := false |} in
  match UpdateMsg u with
  | MUpdateAddHTLC m =>
      let btc := bool_decide (UpdateAddHTLC.AssetID m = BtcAssetId) in
      Ok {| RHash := UpdateAddHTLC.PaymentHash m; RPreimage := replicate 32 x00; Timeout := UpdateAddHTLC.Expiry m;
            BtcAmount := if btc then UpdateAddHTLC.Amount m else NewMSatFromSatoshis (OmniGas * 3);
            AssetAmount := if btc then 0 else i64 (UpdateAddHTLC.Amount m); AssetID := UpdateAddHTLC.AssetID m;
            UpdateLog.LogIndex := FwdPkg.LogIndex u; HtlcIndex := UpdateAddHTLC.ID m; ParentIndex := 0;
            SourceRef := Some (mkAddRef height (u16 i)); DestRef := None; OpenCircuitKey := None; ClosedCircuitKey := None;
            OnionBlob := UpdateAddHTLC.OnionBlob m; ShaOnionBlob := replicate 32 x00; FailReason := []; FailCode := 0;
            EntryType := Add; heights := noHeights; output := noOutput; isForwarded := false |}
  | MUpdateFulfillHTLC m =>
      Ok (removal Settle (UpdateFulfillHTLC.ID m) (UpdateFulfillHTLC.PaymentPreimage m) (replicate 32 x00) [] 0)
  | MUpdateFailHTLC m => Ok (removal Fail (UpdateFailHTLC.ID m) (replicate 32 x00) (replicate 32 x00) (UpdateFailHTLC.Reason m) 0)
  | MUpdateFailMalformedHTLC m =>
      Ok (removal MalformedFail (UpdateFailMalformedHTLC.ID m) (replicate 32 x00) (UpdateFailMalformedHTLC.ShaOnionBlob m) []
            (UpdateFailMalformedHTLC.FailureCode m))
  | MUpdateFee _ => Err ErrUnexpectedFee
  | _ => Ok (zeroPD Add)
  end.

Fixpoint remoteDescriptors (chanID : ShortChannelID) (height : Z) (i : Z) (logUpdates : list LogUpdate) :
    outcome switch_err (list PaymentDescriptor) :=
  match logUpdates with
  | [] => Ok []
  | u :: us =>
      pd <~ remoteDescriptor chanID height i u ;
      pds <~ remoteDescriptors chanID height (i + 1) us ;
      Ok (pd :: pds)
  end.

Definition PayDescsFromRemoteLogUpdates (chanID : ShortChannelID) (height : Z) (logUpdates : list LogUpdate) :
    outcome switch_err (list PaymentDescriptor) := remoteDescriptors chanID height 0 logUpdates.

(** The packet of a settle or a fail; other entries are skipped. *)
Definition responsePacket (source : ShortChannelID) (pd : PaymentDescriptor) : option htlcPacket :=
  let packet m nil :=
    {| incomingChanID := Source; outgoingChanID := source; incomingHTLCID := 0; outgoingHTLCID := ParentIndex pd;
       sourceRef := None; destRef := DestRef pd; incomingAmount := 0; amount := 0; assetId := 0; htlc := m; nilReason := nil;
       obfuscator := None; localFailure := false; linkFailure := None; convertedError := false; hasSource := false;
       isResolution := false; circuit := None; incomingTimeout := 0; outgoingTimeout := 0; customRecords := [] |} in
  match EntryType pd with
  | Settle => Some (packet (MUpdateFulfillHTLC (UpdateFulfillHTLC.mk (replicate 32 x00) 0 (RPreimage pd) [])) true)
  | Fail => Some (packet (MUpdateFailHTLC (UpdateFailHTLC.mk (replicate 32 x00) 0 (FailReason pd) [])) false)
  | _ => None
  end.

Fixpoint switchPackets (source : ShortChannelID) (filter : PkgFilter.t) (i : Z) (settleFails : list PaymentDescriptor) :
    outcome unit (list htlcPacket) :=
  match settleFails with
  | [] => Ok []
  | pd :: rest =>
      acked <~ PkgFilter.Contains filter (u16 i) ;
      packets <~ switchPackets source filter (i + 1) rest ;
      Ok (if acked then packets
          else match responsePacket source pd with Some p => p :: packets | None => packets end)
  end.

(** Errors of a package are logged; the next package is tried. *)
Fixpoint reforwardSettleFails (quitting : bool) (routes : nat -> bool) (pkgs : list FwdPkg) (s : Switch) :
    outcome switch_err unit * Switch :=
  match pkgs with
  | [] => (Ok tt, s)
  | fwdPkg :: rest =>
      match PayDescsFromRemoteLogUpdates (Pkg_Source fwdPkg) (Pkg_Height fwdPkg) (SettleFails fwdPkg) with
      | Ok settleFails =>
          match switchPackets (Pkg_Source fwdPkg) (SettleFailFilter fwdPkg) 0 settleFails with
          | Ok packets =>
              match ForwardPackets quitting routes true None packets s with
              | (Panic, s) => (Panic, s)
              | (_, s) => reforwardSettleFails quitting routes rest s
              end
          | _ => (Panic, s)
          end
      | Err _ => reforwardSettleFails quitting routes rest s
      | Panic => (Panic, s)
      end
  end.

(** An open channel: its identifier and whether it is pending. *)
Fixpoint reforwardResponses (quitting : bool) (routes : nat -> bool) (openChannels : list (ShortChannelID * bool)) (s : Switch) :
    outcome switch_err unit * Switch :=
  match openChannels with
  | [] => (Ok tt, s)
  | (shortChanID, isPending) :: rest =>
      if bool_decide (shortChanID = Source) then reforwardResponses quitting routes rest s
      else if isPending then reforwardResponses quitting routes rest s
      else
        match loadChannelFwdPkgs shortChanID (fwdPkgs s) with
        | Ok pkgs =>
            match reforwardSettleFails quitting routes pkgs s with
            | (Panic, s) => (Panic, s)
            | (_, s) => reforwardResponses quitting routes rest s
            end
        | Err e => (Err (ErrAck e), s)
        | Panic => (Panic, s)
        end
  end.
End switch.
