(* ===== verification/SwitchForward.v ===== *)
(** * What the switch forwards

    Every packet of a batch is routed, dropped or failed, by what the circuit map knows of its
    incoming HTLC: the three lists that [CommitCircuits] returns are subsequences of the batch
    that together make it up, which is what the loop over them relies on. *)

From Stdlib Require Import ZArith Lia.
From S2P Require Import Prelude Wire Features WireMessages WireTlv WireGossip WireModels.
From S2P Require Import WireFrame OnionError UpdateLog CommitTx Kvdb FwdPkg CircuitMap Links NetworkResult Switch.

Local Open Scope Z_scope.
Local Open Scope go_scope.

Inductive verdict : Type := VAdd | VDrop | VFail.

#[global] Instance verdict_eq_dec : EqDecision verdict.
Proof. solve_decision. Defined.

Ltac verdict_simp :=
  repeat match goal with
  | |- context [bool_decide (@eq verdict ?a ?b)] =>
      let r := eval vm_compute in (bool_decide (a = b)) in change (bool_decide (a = b)) with r
  end; cbv match.

(** The elements with a verdict. *)
Fixpoint select {A} (v : verdict) (xs : list A) (vs : list verdict) : list A :=
  match xs, vs with
  | x :: xs, w :: vs => if bool_decide (w = v) then x :: select v xs vs else select v xs vs
  | _, _ => []
  end.

Section forward.
Context {BT : Btcec} {TL : Tlv} {ZL : Zlib} {TR : Tor} {SX : Sphinx} {VI : VarInt}.
Context (EncryptError : SphinxErrorEncrypter -> bool -> list byte -> list byte).

(** ** What is promised *)

(** What becomes of an HTLC, by its incoming key: a duplicate is dropped, a forward that a
    former run left incomplete is failed, and so is a new one that cannot be stored. *)
Definition judge (cm : circuitMap) (dbOk : bool) (earlier : list CircuitKey) (k : CircuitKey) : verdict :=
  match pending cm !! k with
  | Some q =>
      match heap cm !! q with
      | Some c => if HasKeystone c || negb (LoadedFromDisk c) then VDrop else VFail
      | None => VDrop
      end
  | None => if bool_decide (k ∈ earlier) then VDrop else if dbOk then VAdd else VFail
  end.

Fixpoint verdicts (cm : circuitMap) (dbOk : bool) (earlier keys : list CircuitKey) : list verdict :=
  match keys with
  | [] => []
  | k :: keys => judge cm dbOk earlier k :: verdicts cm dbOk (earlier ++ [k]) keys
  end.

Definition is_add (p : htlcPacket) : bool := match htlc p with MUpdateAddHTLC _ => true | _ => false end.

Definition adds_of (packets : list htlcPacket) : list htlcPacket := filter (fun p => is_add p = true) packets.
Definition responses_of (packets : list htlcPacket) : list htlcPacket := filter (fun p => is_add p = false) packets.

(** A packet without the circuit the switch gave it. *)
Definition strip (p : htlcPacket) : htlcPacket := set_circuit None p.

(** The hash of an add. *)
Definition hash_of (p : htlcPacket) : list byte :=
  match htlc p with MUpdateAddHTLC m => UpdateAddHTLC.PaymentHash m | _ => [] end.

(** The maps point to objects. *)
Definition no_dangling (cm : circuitMap) : Prop := forall k q, pending cm !! k = Some q -> is_Some (heap cm !! q).

(** [cm'] is [cm] with new objects. *)
Record extends (cm cm' : circuitMap) : Prop := {
  ext_heap q c : heap cm !! q = Some c -> heap cm' !! q = Some c;
  ext_pending : pending cm' = pending cm;
  ext_opened : opened cm' = opened cm;
  ext_closed : closed cm' = closed cm;
  ext_hash : hashIndex cm' = hashIndex cm;
  ext_disk : circuitBkt cm' = circuitBkt cm /\ keystoneBkt cm' = keystoneBkt cm;
}.

(** ** Lists and verdicts *)

Lemma select_in {A} v (xs : list A) vs x : x ∈ select v xs vs -> x ∈ xs.
Proof.
  revert vs. induction xs as [|y xs IH]; intros [|w vs]; cbn [select]; try (intros H; by apply not_elem_of_nil in H).
  case_bool_decide; rewrite elem_of_cons; [rewrite elem_of_cons|]; naive_solver.
Qed.

Lemma select_fmap {A B} (f : A -> B) v xs vs : select v (f <$> xs) vs = f <$> select v xs vs.
Proof. revert vs. induction xs as [|y xs IH]; intros [|w vs]; cbn; [done..|]. case_bool_decide; cbn; by rewrite IH. Qed.

(** A packet whose circuit is not in a list is not matched by its head. *)
Lemma is_head_false (p : htlcPacket) c l : circuit p = Some c -> c ∉ l -> is_head p l = false.
Proof.
  intros Hp Hl. destruct l as [|d l]; [done|]. cbn. apply bool_decide_eq_false. rewrite Hp. intros [= ->]. set_solver.
Qed.

(** The loop over the heads of the three lists recovers the verdicts. *)
Lemma splitBatch_spec (batch : list htlcPacket) (cs : list nat) vs a f :
  circuit <$> batch = Some <$> cs -> length vs = length cs -> NoDup cs ->
  splitBatch batch (select VAdd cs vs) (select VDrop cs vs) (select VFail cs vs) a f =
    (a ++ select VAdd batch vs, f ++ select VFail batch vs).
Proof.
  revert cs vs a f. induction batch as [|p batch IH]; intros [|c cs] [|v vs] a f Hb Hl Hn; try done;
    [cbn; by rewrite !app_nil_r|].
  cbn in Hb, Hl. injection Hb as Hp Hb. injection Hl as Hl. apply NoDup_cons in Hn as [Hc Hn].
  assert (forall v, c ∉ select v cs vs) as Hns by (intros w Hw; apply Hc; by eapply select_in).
  cbn [splitBatch select]. destruct v; verdict_simp.
  - cbn [is_head]. rewrite bool_decide_eq_true_2 by done. cbn [tail]. rewrite IH by done. by rewrite <- app_assoc.
  - rewrite (is_head_false p c _ Hp (Hns VAdd)). cbn [is_head]. rewrite bool_decide_eq_true_2 by done. cbn [tail]. by rewrite IH by done.
  - rewrite (is_head_false p c _ Hp (Hns VAdd)), (is_head_false p c _ Hp (Hns VDrop)). cbn [is_head].
    rewrite bool_decide_eq_true_2 by done. cbn [tail]. rewrite IH by done. by rewrite <- app_assoc.
Qed.

(** ** Committing the circuits of a batch *)

Lemma circuit_writes (c : PaymentCircuit) : exists bs, Encode c [] = (bs, Ok tt).
Proof.
  assert (exists e, writes (encodeEncrypter (ErrorEncrypter c)) e) as [e He].
  { destruct (ErrorEncrypter c) as [s|]; cbn [encodeEncrypter]; [|eexists; apply writes_bytes].
    eexists. exact (writes_seq _ _ _ _ (writes_bytes _) (writes_bytes _)). }
  unfold Encode. eexists.
  exact (writes_seq _ _ _ _ (writes_seq _ _ _ _ (writes_bytes _) (writes_bytes _)) (writes_seq _ _ _ _ (writes_bytes _) (writes_seq _ _ _ _ (writes_bytes _)
    (writes_seq _ _ _ _ (writes_bytes _) (writes_seq _ _ _ _ (writes_bytes _) (writes_seq _ _ _ _ (writes_bytes _) He))))) []).
Qed.

Lemma encodeAdds_ok cm ps : (forall p, p ∈ ps -> is_Some (heap cm !! p)) -> exists puts, encodeAdds cm ps = Ok puts.
Proof.
  induction ps as [|p ps IH]; intros H; cbn [encodeAdds]; [by eexists|].
  destruct (H p (list_elem_of_here _ _)) as [c Hc]. unfold deref. rewrite Hc. cbn [obind].
  destruct (circuit_writes c) as [bs ->]. destruct IH as [puts ->]; [|cbn; by eexists]. intros q Hq. apply H. by right.
Qed.

(** The keys of circuit objects. *)
Definition keys_of (cm : circuitMap) (ps : list nat) (ks : list CircuitKey) : Prop :=
  Forall2 (fun p k => exists c, heap cm !! p = Some c /\ InKey c = k /\ HasKeystone c = false /\ LoadedFromDisk c = false) ps ks.

(** The pending circuits after the keys of new circuits were added to [m]. *)
Fixpoint add_keys (m : gmap CircuitKey nat) (ps : list nat) (ks : list CircuitKey) : gmap CircuitKey nat :=
  match ps, ks with
  | p :: ps, k :: ks => add_keys (match m !! k with Some _ => m | None => <[k := p]> m end) ps ks
  | _, _ => m
  end.

(** [cm] has the circuits of [cm0] and those of [earlier]. *)
Definition has_pending (cm0 cm : circuitMap) (earlier : list CircuitKey) : Prop :=
  heap cm = heap cm0 /\
  forall k, match pending cm0 !! k with
            | Some q => pending cm !! k = Some q
            | None => if bool_decide (k ∈ earlier)
                      then exists q c, pending cm !! k = Some q /\ heap cm0 !! q = Some c /\ HasKeystone c = false /\ LoadedFromDisk c = false
                      else pending cm !! k = None
            end.

Lemma has_pending_known cm0 cm earlier k :
  has_pending cm0 cm earlier -> is_Some (pending cm0 !! k) \/ k ∈ earlier -> has_pending cm0 cm (earlier ++ [k]).
Proof.
  intros [Hh Hp] Hk. split; [done|]. intros k'. specialize (Hp k'). destruct (pending cm0 !! k') eqn:E'; [done|].
  rewrite (bool_decide_ext (k' ∈ earlier ++ [k]) (k' ∈ earlier)); [done|].
  rewrite elem_of_app, list_elem_of_singleton. destruct Hk as [[q Hq]|Hk]; naive_solver.
Qed.

Lemma reconcile_verdicts cm0 ps ks cm l earlier :
  no_dangling cm0 -> keys_of cm0 ps ks -> has_pending cm0 cm earlier ->
  let vs := verdicts cm0 true earlier ks in
  reconcile cm ps l = Ok (set_pending cm (add_keys (pending cm) ps ks),
    mkLists (l_adds l ++ select VAdd ps vs) (l_drops l ++ select VDrop ps vs) (l_fails l ++ select VFail ps vs)
            (l_addFails l ++ select VFail ps (verdicts cm0 false earlier ks))).
Proof.
  intros Hd Hk. revert cm l earlier. induction Hk as [|p k ps ks (c & Hc & Hkey & Hks & Hld) Hk IH]; intros cm l earlier Hp;
    cbn [reconcile verdicts select add_keys]; [destruct cm, l; cbn; by rewrite !app_nil_r|].
  pose proof Hp as [Hheap Hpend]. unfold deref at 1. rewrite Hheap, Hc. cbn [obind]. rewrite Hkey.
  pose proof (Hpend k) as Hpk. unfold judge.
  destruct (pending cm0 !! k) as [q|] eqn:Eq.
  - rewrite Hpk. destruct (Hd k q Eq) as [d Hq]. unfold deref. rewrite Hheap, Hq. cbn [obind].
    assert (has_pending cm0 cm (earlier ++ [k])) as Hp' by (apply has_pending_known; [done|left; eauto]).
    destruct (HasKeystone d || negb (LoadedFromDisk d)); verdict_simp; rewrite (IH _ _ _ Hp'); cbn [l_adds l_drops l_fails l_addFails];
      by rewrite <- ?app_assoc.
  - case_bool_decide as Hin.
    + destruct Hpk as (q & d & Hq & Hdq & Hdk & Hdl). rewrite Hq. unfold deref. rewrite Hheap, Hdq. cbn [obind]. rewrite Hdk, Hdl. cbn [orb negb].
      assert (has_pending cm0 cm (earlier ++ [k])) as Hp' by (apply has_pending_known; [done|by right]).
      verdict_simp. rewrite (IH _ _ _ Hp'). cbn [l_adds l_drops l_fails l_addFails]. by rewrite <- ?app_assoc.
    + rewrite Hpk. verdict_simp. rewrite (IH _ _ (earlier ++ [k])).
      * destruct cm. cbn [l_adds l_drops l_fails l_addFails set_pending CircuitMap.pending]. by rewrite <- !app_assoc.
      * split; [done|]. intros k'. specialize (Hpend k'). cbn [set_pending CircuitMap.pending CircuitMap.heap].
        destruct (pending cm0 !! k') eqn:E'; [rewrite lookup_insert_ne by congruence; done|].
        destruct (decide (k' = k)) as [->|Hne].
        -- rewrite bool_decide_eq_true_2 by set_solver. exists p, c. by rewrite lookup_insert_eq.
        -- rewrite (bool_decide_ext (k' ∈ earlier ++ [k]) (k' ∈ earlier)) by (rewrite elem_of_app, list_elem_of_singleton; naive_solver).
           by rewrite lookup_insert_ne.
Qed.

Lemma verdicts_length cm dbOk earlier ks : length (verdicts cm dbOk earlier ks) = length ks.
Proof. revert earlier. induction ks as [|k ks IH]; intros earlier; cbn; [done|]. by rewrite IH. Qed.

(** Without new circuits it does not matter whether they could be stored. *)
Lemma verdicts_no_add cm earlier ks {A} (xs : list A) : length xs = length ks ->
  select VAdd xs (verdicts cm true earlier ks) = [] -> verdicts cm false earlier ks = verdicts cm true earlier ks.
Proof.
  revert earlier xs. induction ks as [|k ks IH]; intros earlier [|x xs] Hl; try done. cbn [verdicts select]. injection Hl as Hl.
  unfold judge. destruct (pending cm !! k) as [q|].
  - destruct (match heap cm !! q with Some _ => _ | None => _ end); verdict_simp; intros H; [done|by rewrite (IH _ xs)..].
  - destruct (bool_decide (k ∈ earlier)); verdict_simp; intros Hsel; [by rewrite (IH _ xs)|done].
Qed.

(** Without a database nothing is added, and the new circuits fail. *)
Lemma verdicts_no_db cm earlier ks {A} (xs : list A) : length xs = length ks ->
  select VAdd xs (verdicts cm false earlier ks) = [] /\
  select VDrop xs (verdicts cm false earlier ks) = select VDrop xs (verdicts cm true earlier ks).
Proof.
  revert earlier xs. induction ks as [|k ks IH]; intros earlier [|x xs] Hl; try done. cbn [verdicts select]. injection Hl as Hl.
  destruct (IH (earlier ++ [k]) xs Hl) as [-> ->]. unfold judge. destruct (pending cm !! k) as [q|].
  - destruct (heap cm !! q) as [c|]; [destruct (HasKeystone c || negb (LoadedFromDisk c))|]; by verdict_simp.
  - destruct (bool_decide (k ∈ earlier)); by verdict_simp.
Qed.

Lemma add_keys_old m ps ks k q : m !! k = Some q -> add_keys m ps ks !! k = Some q.
Proof.
  revert m ks. induction ps as [|p ps IH]; intros m [|k' ks] H; cbn [add_keys]; [done..|]. apply IH.
  destruct (m !! k') eqn:E; [done|]. rewrite lookup_insert_ne; [done|]. congruence.
Qed.

(** The circuits that are added are pending. *)
Lemma add_keys_new cm0 ps ks m earlier p k :
  (forall k, m !! k = None -> pending cm0 !! k = None /\ k ∉ earlier) ->
  (forall k, is_Some (m !! k) -> is_Some (pending cm0 !! k) \/ k ∈ earlier) ->
  (p, k) ∈ select VAdd (zip ps ks) (verdicts cm0 true earlier ks) -> add_keys m ps ks !! k = Some p.
Proof.
  revert m earlier ps. induction ks as [|k' ks IH]; intros m earlier [|p' ps] Hn Hs; cbn [zip zip_with select verdicts add_keys];
    try (intros H; by apply not_elem_of_nil in H).
  assert (forall k, (match m !! k' with Some _ => m | None => <[k' := p']> m end) !! k = None -> pending cm0 !! k = None /\ k ∉ earlier ++ [k']) as Hn'.
  { intros k0. destruct (m !! k') as [q|] eqn:E; intros H.
    - destruct (Hn k0 H). split; [done|]. rewrite elem_of_app, list_elem_of_singleton. intros [?| ->]; congruence.
    - apply lookup_insert_None in H as [H Hne]. destruct (Hn k0 H). split; [done|]. rewrite elem_of_app, list_elem_of_singleton. naive_solver. }
  assert (forall k, is_Some ((match m !! k' with Some _ => m | None => <[k' := p']> m end) !! k) -> is_Some (pending cm0 !! k) \/ k ∈ earlier ++ [k']) as Hs'.
  { intros k0 H. rewrite elem_of_app, list_elem_of_singleton. destruct (m !! k') as [q|] eqn:E; [destruct (Hs k0 H); auto|].
    destruct (decide (k0 = k')) as [->|Hne]; [by auto|]. rewrite lookup_insert_ne in H by done. destruct (Hs k0 H); auto. }
  case_bool_decide as Hv; [|by apply IH].
  intros [[= -> ->]|Hin]%elem_of_cons; [|by apply (IH _ _ _ Hn' Hs' Hin)].
  assert (m !! k' = None) as E.
  { apply eq_None_not_Some. intros H. unfold judge in Hv. destruct (Hs k' H) as [[q Hq]|Hin].
    - rewrite Hq in Hv. destruct (heap cm0 !! q) as [c|]; [destruct (_ || _)|]; done.
    - rewrite (bool_decide_eq_true_2 _ Hin) in Hv. destruct (pending cm0 !! k') as [q|]; [|done].
      destruct (heap cm0 !! q) as [c|]; [destruct (_ || _)|]; done. }
  rewrite E. apply add_keys_old. by rewrite lookup_insert_eq.
Qed.

(** ** The first pass *)

Definition always : nat -> bool := fun _ => true.

Lemma extends_trans cm1 cm2 cm3 : extends cm1 cm2 -> extends cm2 cm3 -> extends cm1 cm3.
Proof.
  intros H1 H2. destruct H1 as [? ? ? ? ? [? ?]], H2 as [? ? ? ? ? [? ?]]. split; [by auto|congruence..|]. split; congruence.
Qed.

Lemma new_object_spec c cm :
  heap cm !! (new_object c cm).1 = None /\ heap (new_object c cm).2 !! (new_object c cm).1 = Some c /\ extends cm (new_object c cm).2.
Proof.
  unfold new_object. cbn [fst snd]. set (p := fresh (dom (heap cm))).
  assert (heap cm !! p = None) as Hp by (apply not_elem_of_dom, is_fresh).
  split; [done|]. cbn [set_heap CircuitMap.heap]. split; [by rewrite lookup_insert_eq|].
  split; try done. intros q d Hq. cbn [set_heap CircuitMap.heap]. rewrite lookup_insert_ne; [done|]. congruence.
Qed.

Lemma firstPass_cons p packets cs batch s :
  firstPass always (p :: packets) cs batch s =
    if is_add p then
      let '(c, cm) := new_object (newPaymentCircuit (hash_of p) p) (Switch.circuits s) in
      firstPass always packets (cs ++ [c]) (batch ++ [set_circuit (Some c) p]) (set_circuits s cm)
    else firstPass always packets cs batch (set_sent s (sent s ++ [p])).
Proof. cbn [firstPass]. unfold is_add, hash_of. by destruct (htlc p). Qed.

Lemma firstPass_spec packets cs batch s :
  exists cs' batch' s', firstPass always packets cs batch s = (Ok (cs ++ cs', batch ++ batch'), s') /\
    circuit <$> batch' = Some <$> cs' /\ strip <$> batch' = strip <$> adds_of packets /\
    sent s' = sent s ++ responses_of packets /\ extends (Switch.circuits s) (Switch.circuits s') /\ NoDup cs' /\
    (forall c, c ∈ cs' -> heap (Switch.circuits s) !! c = None) /\
    Forall2 (fun c p => heap (Switch.circuits s') !! c = Some (newPaymentCircuit (hash_of p) p)) cs' (adds_of packets).
Proof.
  revert cs batch s. induction packets as [|p packets IH]; intros cs batch s.
  { exists [], [], s. cbn [firstPass adds_of responses_of]. rewrite !app_nil_r. split_and!; try done; [apply NoDup_nil_2|intros c Hc; by apply not_elem_of_nil in Hc]. }
  rewrite firstPass_cons. unfold adds_of, responses_of. rewrite !filter_cons. destruct (is_add p) eqn:Ep.
  - rewrite decide_True, decide_False by done. destruct (new_object_spec (newPaymentCircuit (hash_of p) p) (Switch.circuits s)) as (Hf & Hh & He).
    destruct (new_object _ _) as [c cm]. cbn [fst snd] in *.
    destruct (IH (cs ++ [c]) (batch ++ [set_circuit (Some c) p]) (set_circuits s cm)) as (cs' & batch' & s' & -> & H1 & H2 & H3 & H4 & H5 & H6 & H7).
    cbn [set_circuits Switch.circuits sent] in *. exists (c :: cs'), (set_circuit (Some c) p :: batch'), s'.
    rewrite <- !app_assoc. split; [done|]. cbn [fmap list_fmap]. rewrite H1, H2. split_and!; try done.
    + by eapply extends_trans.
    + constructor; [|done]. intros Hc. specialize (H6 c Hc). congruence.
    + intros d [->|Hd]%elem_of_cons; [done|]. specialize (H6 d Hd). destruct (heap (Switch.circuits s) !! d) eqn:E; [|done].
      apply (ext_heap _ _ He) in E. congruence.
    + constructor; [|done]. by apply (ext_heap _ _ H4).
  - rewrite decide_False, decide_True by done.
    destruct (IH cs batch (set_sent s (sent s ++ [p]))) as (cs' & batch' & s' & -> & H1 & H2 & H3 & H4 & H5 & H6 & H7).
    exists cs', batch', s'. cbn [set_sent sent Switch.circuits] in *. rewrite <- app_assoc in H3. split_and!; done.
Qed.

Lemma foldl_insert_some (puts : list (list byte * list byte)) (b : gmap (list byte) (list byte)) k :
  is_Some (b !! k) \/ k ∈ puts.*1 -> is_Some (foldl (fun b kv => <[kv.1 := kv.2]> b) b puts !! k).
Proof.
  revert b. induction puts as [|[k' v] puts IH]; intros b H; cbn [foldl fst snd].
  - destruct H as [H|H]; [done|]. by apply not_elem_of_nil in H.
  - apply IH. rewrite fmap_cons, elem_of_cons in H. cbn in H. destruct (decide (k = k')) as [->|Hne].
    + left. by rewrite lookup_insert_eq.
    + rewrite lookup_insert_ne by done. naive_solver.
Qed.

Lemma encodeAdds_keys cm ps puts p c : encodeAdds cm ps = Ok puts -> p ∈ ps -> heap cm !! p = Some c ->
  CircuitKeys.Bytes (InKey c) ∈ puts.*1.
Proof.
  revert puts. induction ps as [|q ps IH]; intros puts H Hin Hc; [by apply not_elem_of_nil in Hin|]. cbn [encodeAdds] in H.
  obind_inv H. destruct (Encode a []) as [bs [| |]]; [|done..]. obind_inv H. injection H as <-. rewrite fmap_cons. apply elem_of_cons.
  apply elem_of_cons in Hin as [->|Hin]; [left|right; by apply IH]. unfold deref in Hstep. rewrite Hc in Hstep. by injection Hstep as <-.
Qed.

(** Committing a batch: the three lists are the verdicts, and the circuits that were added
    are pending and on disk. *)
Lemma CommitCircuits_verdicts dbOk cm ps ks :
  no_dangling cm -> keys_of cm ps ks ->
  let vs := verdicts cm dbOk [] ks in
  exists r cm', CommitCircuits dbOk ps cm = (r, mkActions (select VAdd ps vs) (select VDrop ps vs) (select VFail ps vs), cm') /\
    r <> Panic /\ heap cm' = heap cm /\
    forall p k, (p, k) ∈ select VAdd (zip ps ks) vs -> pending cm' !! k = Some p /\ is_Some (circuitBkt cm' !! CircuitKeys.Bytes k).
Proof.
  intros Hd Hk. cbn zeta. unfold CommitCircuits.
  assert (has_pending cm cm []) as Hp.
  { split; [done|]. intros k. destruct (pending cm !! k); [done|]. by rewrite bool_decide_eq_false_2 by set_solver. }
  rewrite (reconcile_verdicts cm ps ks cm (mkLists [] [] [] []) [] Hd Hk Hp). cbn [l_adds l_drops l_fails l_addFails app].
  pose proof (Forall2_length _ _ _ Hk) as Hl. set (cm1 := set_pending cm _).
  assert (length (zip ps ks) = length ks) as Hlz by (rewrite length_zip_with; lia).
  case_bool_decide as Hempty.
  { assert (verdicts cm dbOk [] ks = verdicts cm true [] ks) as ->.
    { destruct dbOk; [done|]. by apply (verdicts_no_add cm [] ks ps). }
    rewrite Hempty. eexists (Ok tt), cm1. split; [done|]. split; [done|]. split; [done|].
    intros p k H. exfalso. assert (p ∈ select VAdd ps (verdicts cm true [] ks)) as Hin; [|rewrite Hempty in Hin; by apply not_elem_of_nil in Hin].
    apply (list_elem_of_fmap_2 fst) in H. rewrite <- select_fmap, fst_zip in H by lia. done. }
  destruct (encodeAdds_ok cm1 (select VAdd ps (verdicts cm true [] ks))) as [puts Hputs].
  { intros p Hp'%select_in. apply list_elem_of_lookup in Hp' as [i Hi]. destruct (Forall2_lookup_l _ _ _ _ _ Hk Hi) as (k & _ & c & Hc & _). by exists c. }
  rewrite Hputs. destruct dbOk.
  - eexists (Ok tt), _. split; [done|]. split; [done|]. split; [done|]. intros p k H. split.
    + cbn. apply (add_keys_new cm ps ks (pending cm) []); [set_solver|by auto|done].
    + cbn. apply foldl_insert_some. right.
      assert (p ∈ select VAdd ps (verdicts cm true [] ks)) as Hin.
      { apply (list_elem_of_fmap_2 fst) in H. by rewrite <- select_fmap, fst_zip in H by lia. }
      apply select_in in H. apply elem_of_lookup_zip_with in H as (i & p' & k' & [= -> ->] & Hi & Hj).
      destruct (Forall2_lookup_lr _ _ _ _ _ _ Hk Hi Hj) as (c & Hc & <- & _). by apply (encodeAdds_keys cm1 _ puts p' c Hputs).
  - destruct (verdicts_no_db cm [] ks ps ltac:(lia)) as [-> ->]. eexists (Err ErrCircuitDB), _. split; [done|]. split; [done|]. split; [done|].
    intros p k H. by rewrite (proj1 (verdicts_no_db cm [] ks (zip ps ks) Hlz)) in H; apply not_elem_of_nil in H.
Qed.

Lemma routeAll_spec packets s : routeAll always packets s = (Ok tt, set_sent s (sent s ++ packets)).
Proof.
  revert s. induction packets as [|p packets IH]; intros s; cbn [routeAll routeAsync always].
  - destruct s. cbn. by rewrite app_nil_r.
  - rewrite IH. cbn [set_sent sent]. by rewrite <- app_assoc.
Qed.

Lemma verdicts_extends cm cm' dbOk earlier ks : no_dangling cm -> extends cm cm' ->
  verdicts cm' dbOk earlier ks = verdicts cm dbOk earlier ks.
Proof.
  intros Hd He. revert earlier. induction ks as [|k ks IH]; intros earlier; cbn [verdicts]; [done|]. rewrite IH. f_equal.
  unfold judge. rewrite (ext_pending _ _ He). destruct (pending cm !! k) as [q|] eqn:Eq; [|done].
  destruct (Hd k q Eq) as [c Hc]. by rewrite Hc, (ext_heap _ _ He q c Hc).
Qed.

Lemma zip_keys (cs : list nat) (ps : list htlcPacket) : zip cs (inKey <$> ps) = prod_map id inKey <$> zip cs ps.
Proof. revert ps. induction cs as [|c cs IH]; intros [|p ps]; cbn; [done..|]. f_equal. apply IH. Qed.

Lemma strip_select v ps qs vs : strip <$> ps = strip <$> qs -> strip <$> select v ps vs = strip <$> select v qs vs.
Proof. intros H. by rewrite <- !select_fmap, H. Qed.

(** C4: the switch routes a batch.  In any state whose circuits are intact: responses are routed
    in their order; after them the adds of HTLCs that are new, once each, and no others.  An
    add is routed only when its circuit is pending and on disk; duplicates, forwards that a
    former run left incomplete and all adds of a batch that could not be stored are not
    routed. *)
Theorem ForwardPackets_routes dbOk update packets s :
  no_dangling (Switch.circuits s) ->
  let s' := (ForwardPackets EncryptError false always dbOk update packets s).2 in
  let adds := adds_of packets in
  let vs := verdicts (Switch.circuits s) dbOk [] (inKey <$> adds) in
  strip <$> sent s' = strip <$> (sent s ++ responses_of packets ++ select VAdd adds vs) /\
  (forall p, p ∈ select VAdd adds vs -> exists c,
     pending (Switch.circuits s') !! inKey p = Some c /\
     heap (Switch.circuits s') !! c = Some (newPaymentCircuit (hash_of p) p) /\
     is_Some (circuitBkt (Switch.circuits s') !! CircuitKeys.Bytes (inKey p))).
Proof.
  intros Hd. cbn zeta. unfold ForwardPackets. case_bool_decide as Hp.
  { subst packets. cbn. rewrite !app_nil_r. split; [done|]. intros p H. by apply not_elem_of_nil in H. }
  destruct (firstPass_spec packets [] [] s) as (cs & batch & s1 & -> & Hc & Hb & Hs & He & Hn & Hf & Ho). cbn [app].
  set (adds := adds_of packets) in *.
  assert (keys_of (Switch.circuits s1) cs (inKey <$> adds)) as Hk.
  { unfold keys_of. apply Forall2_fmap_r. eapply Forall2_impl; [exact Ho|]. cbn. intros c p H. eexists. split; [exact H|done]. }
  assert (length adds = length cs) as Hl by (symmetry; by apply Forall2_length in Ho).
  case_bool_decide as Hcs.
  { subst cs. destruct adds; [|done]. cbn [fst snd fmap list_fmap verdicts select]. rewrite app_nil_r, Hs. split; [done|].
    intros p H. by apply not_elem_of_nil in H. }
  assert (no_dangling (Switch.circuits s1)) as Hd1.
  { intros k q. rewrite (ext_pending _ _ He). intros Hq. destruct (Hd k q Hq) as [c Hqc]. exists c. by apply (ext_heap _ _ He). }
  destruct (CommitCircuits_verdicts dbOk (Switch.circuits s1) cs _ Hd1 Hk) as (r & cm' & -> & Hr & Hheap & Hadd).
  rewrite (verdicts_extends _ _ dbOk [] _ Hd He) in Hadd |- *. set (vs := verdicts _ _ _ _) in *.
  cbn [CircuitMap.Adds Drops Fails].
  rewrite (splitBatch_spec batch cs vs [] []); [|done|unfold vs; rewrite verdicts_length, length_fmap; lia|done]. cbn [app].
  rewrite routeAll_spec.
  assert (strip <$> sent (set_sent (set_circuits s1 cm') (sent (set_circuits s1 cm') ++ select VAdd batch vs)) =
    strip <$> sent s ++ responses_of packets ++ select VAdd adds vs) as Hsent.
  { cbn [set_sent set_circuits sent]. rewrite Hs, !fmap_app, (strip_select VAdd batch adds vs Hb), <- app_assoc. done. }
  assert (forall p, p ∈ select VAdd adds vs -> exists c, pending cm' !! inKey p = Some c /\
    heap cm' !! c = Some (newPaymentCircuit (hash_of p) p) /\ is_Some (circuitBkt cm' !! CircuitKeys.Bytes (inKey p))) as Hstored.
  { intros p Hin. assert (exists c, (c, p) ∈ select VAdd (zip cs adds) vs) as [c Hcp].
    { assert (p ∈ (select VAdd (zip cs adds) vs).*2) as H by (by rewrite <- select_fmap, snd_zip by lia).
      apply list_elem_of_fmap_1 in H as ([c p'] & -> & Hcp). by exists c. }
    exists c. destruct (Hadd c (inKey p)) as [Hpend Hdisk].
    { replace (zip cs (inKey <$> adds)) with (prod_map id inKey <$> zip cs adds) by (by rewrite zip_keys).
      rewrite select_fmap. apply list_elem_of_fmap. by exists (c, p). }
    split_and!; [done| |done]. rewrite Hheap. apply select_in, elem_of_lookup_zip_with in Hcp as (i & c' & p' & [= -> ->] & Hi & Hj).
    by apply (Forall2_lookup_lr _ _ _ _ _ _ Ho Hi Hj). }
  destruct r; [|..|done]; case_bool_decide; cbn [fst snd]; (split; [exact Hsent|exact Hstored]).
Qed.
End forward.
