(* ===== verification/SwitchPayments.v ===== *)
(** * No result of a payment is lost

    The payments of this node, from [SendHTLC] to [GetPaymentResult], with everything that runs
    beside them: responses are handled by goroutines of their own, callers look for the circuit
    and then for the result, the database can fail, and the node can stop at any point.

    A state has the switch, the goroutines with what they still have to do, and what the theorem
    speaks about: the attempts whose result must be kept, the responses that arrived, and the
    channels that callers hold.

    The last part has a switch with concrete libraries. *)

From Stdlib Require Import ZArith Lia.
From S2P Require Import Prelude Wire Features WireMessages WireTlv WireGossip WireModels.
From S2P Require Import WireFrame OnionError UpdateLog CommitTx Kvdb FwdPkg CircuitMap CircuitMapInv.
From S2P Require Import CircuitMapTheorems Links NetworkResult Switch SwitchForward.

Local Open Scope Z_scope.
Local Open Scope go_scope.

Section payments.
Context {BT : Btcec} {TL : Tlv} {ZL : Zlib} {TR : Tor} {SX : Sphinx} {VI : VarInt}.

(** ** The system *)

(** What a goroutine of [handleLocalResponse] does next. *)
Inductive stage : Type := ToStore | ToAck | ToDelete.

Record system := mkSystem {
  sw : Switch;
  responding : list (htlcPacket * stage);
  asking : list (Z * bool);
  used : gset Z;
  attempts : gset Z;
  arrived : list (Z * networkResult);
  tickets : gmap nat Z;
}.

Definition local_key (id : Z) : CircuitKey := mkCircuitKey Source id.

Definition map_of (s : Switch) : gmap CircuitKey PaymentCircuit := CircuitMapInv.circuits (Switch.circuits s).

(** The circuit of an attempt. *)
Definition attempt_circuit (id : Z) (m : UpdateAddHTLC.t) : PaymentCircuit :=
  mkCircuit (mkAddRef 0 0) (local_key id) None (UpdateAddHTLC.PaymentHash m) 0 0 0 None false.

(** An operation of the links and of the main loop on circuits: it adds and deletes no circuit
    of a payment of this node. *)
Definition forwarding_op (op : cop) : Prop :=
  match op with
  | OpCommit _ cs => Forall (fun c => ChanID (Incoming c) <> Source) cs
  | OpDelete _ ks => Forall (fun k => ChanID k <> Source) ks
  | OpRestart => False
  | _ => True
  end.

Inductive step : system -> system -> Prop :=
  (** An attempt identifier is used once. *)
  | step_send s r t g u a l k eligible transit dbOk handover firstHop id m s' :
      id ∉ u -> in_u 64 id -> length (UpdateAddHTLC.PaymentHash m) = 32%nat ->
      SendHTLC eligible transit dbOk handover firstHop id m s = (r, s') ->
      step (mkSystem s t g u a l k)
           (mkSystem s' t g ({[id]} ∪ u) (match r with Ok _ | Err ErrLinkAdd => {[id]} ∪ a | _ => a end) l k)
  | step_forward s t g u a l k op r cm :
      forwarding_op op -> op_ok (map_of s) op -> run_circuit op (Switch.circuits s) = (r, cm) ->
      step (mkSystem s t g u a l k) (mkSystem (set_circuits s cm) t g u a l k)
  (** A response to a payment of this node closes its circuit. *)
  | step_response s t g u a l k pkt c pkt' s' :
      closeCircuit pkt s = (Ok (Some c), pkt', s') -> incomingChanID pkt' = Source ->
      storable_result (responseOf pkt') ->
      step (mkSystem s t g u a l k)
           (mkSystem s' ((pkt', ToStore) :: t) g u a ((incomingHTLCID pkt', responseOf pkt') :: l) k)
  | step_store s t1 t2 g u a l k pkt dbOk r s' :
      respondStore dbOk pkt s = (r, s') ->
      step (mkSystem s (t1 ++ (pkt, ToStore) :: t2) g u a l k)
           (mkSystem s' (t1 ++ (match r with Ok _ => [(pkt, ToAck)] | _ => [] end) ++ t2) g u a l k)
  | step_ack s t1 t2 g u a l k pkt dbOk r s' :
      respondAck dbOk pkt s = (r, s') ->
      step (mkSystem s (t1 ++ (pkt, ToAck) :: t2) g u a l k)
           (mkSystem s' (t1 ++ (match r with Ok _ => [(pkt, ToDelete)] | _ => [] end) ++ t2) g u a l k)
  | step_delete s t1 t2 g u a l k pkt dbOk r s' :
      teardownCircuit dbOk pkt s = (r, s') ->
      step (mkSystem s (t1 ++ (pkt, ToDelete) :: t2) g u a l k) (mkSystem s' (t1 ++ t2) g u a l k)
  (** A caller looks for the circuit, and later for the result. *)
  | step_look s t g u a l k id :
      id ∈ u -> step (mkSystem s t g u a l k) (mkSystem s t ((id, paymentPending id s) :: g) u a l k)
  | step_await s t g1 g2 u a l k id known dbOk r s' :
      awaitResult known dbOk id s = (r, s') ->
      step (mkSystem s t (g1 ++ (id, known) :: g2) u a l k)
           (mkSystem s' t (g1 ++ g2) u a l (match r with Ok c => <[c := id]> k | _ => k end))
  (** Results that are not kept can be deleted. *)
  | step_clean s t g u a l k dbOk keep r s' :
      CleanStore dbOk keep s = (r, s') ->
      step (mkSystem s t g u a l k) (mkSystem s' t g u (a ∩ keep) l k)
  (** The node stops: what is in memory is lost. *)
  | step_restart s t g u a l k cm pending sent links :
      restoreMemState true (circuitBkt (Switch.circuits s)) (keystoneBkt (Switch.circuits s)) = Ok cm ->
      step (mkSystem s t g u a l k)
           (mkSystem (mkSwitch cm (newNetworkResultStore (resultBkt (networkResults s))) (fwdPkgs s) links pending sent)
                     [] [] u a l ∅).

Inductive reachable : system -> Prop :=
  | reachable_start fwd links : reachable (mkSystem (mkSwitch newMap (newNetworkResultStore None) fwd links [] []) [] [] ∅ ∅ [] ∅)
  | reachable_step x y : reachable x -> step x y -> reachable y.

(** ** The invariant *)

(** A result on disk is a response that arrived for the payment. *)
Definition stored (x : system) (id : Z) : Prop :=
  exists r, (id, r) ∈ arrived x /\ fetchResult (networkResults (sw x)) id = Ok (loaded r).

Record inv (x : system) : Prop := {
  inv_circuits : Inv (Switch.circuits (sw x));
  inv_used : attempts x ⊆ used x /\ Forall (fun g => g.1 ∈ used x /\ in_u 64 g.1) (asking x) /\ (forall id, id ∈ used x -> in_u 64 id);
  inv_local id : is_Some (map_of (sw x) !! local_key id) -> id ∈ used x;
  inv_kept id : id ∈ attempts x -> is_Some (map_of (sw x) !! local_key id) \/ stored x id;
  inv_fetch id : in_u 64 id -> stored x id \/ fetchResult (networkResults (sw x)) id = Err ErrPaymentIDNotFound;
  inv_arrived id r : (id, r) ∈ arrived x -> storable_result r;
  inv_responding pkt st : (pkt, st) ∈ responding x ->
    incomingChanID pkt = Source /\ incomingHTLCID pkt ∈ used x /\ (incomingHTLCID pkt, responseOf pkt) ∈ arrived x /\
    (st <> ToStore -> incomingHTLCID pkt ∈ attempts x -> stored x (incomingHTLCID pkt));
  inv_asking id : (id, false) ∈ asking x -> id ∈ attempts x -> stored x id;
  inv_waiting id c : c ∈ default [] (results (networkResults (sw x)) !! id) ->
    tickets x !! c = Some id /\ chans (networkResults (sw x)) !! c = Some None /\
    (in_u 64 id -> fetchResult (networkResults (sw x)) id = Err ErrPaymentIDNotFound);
  inv_nodup id : NoDup (default [] (results (networkResults (sw x)) !! id));
  inv_tickets c id : tickets x !! c = Some id ->
    (exists n r, chans (networkResults (sw x)) !! c = Some (Some n) /\ (id, r) ∈ arrived x /\ (n = r \/ n = loaded r)) \/
    c ∈ default [] (results (networkResults (sw x)) !! id);
}.

(** ** Circuits *)

Context {BL : BtcecLaws} {TLL : TlvLaws} {ZLL : ZlibLaws} {TRL : TorLaws}.

Lemma add_all_keeps (A : gmap CircuitKey PaymentCircuit) cs k : is_Some (A !! k) -> is_Some (add_all A cs !! k).
Proof.
  unfold add_all. revert A. induction cs as [|c cs IH]; intros A H; cbn [foldl]; [done|]. apply IH.
  destruct (decide (k = Incoming c)) as [->|Hne]; [by rewrite lookup_insert_eq|by rewrite lookup_insert_ne].
Qed.

Lemma open_keeps (A : gmap CircuitKey PaymentCircuit) kss k : is_Some (A !! k) -> is_Some (foldl open_one A kss !! k).
Proof.
  revert A. induction kss as [|ks kss IH]; intros A H; cbn [foldl]; [done|]. apply IH. unfold open_one.
  rewrite lookup_alter. case_decide; [subst k; by apply fmap_is_Some|done].
Qed.

Lemma open_no_new (A : gmap CircuitKey PaymentCircuit) kss k : is_Some (foldl open_one A kss !! k) -> is_Some (A !! k).
Proof.
  revert A. induction kss as [|ks kss IH]; intros A H; cbn [foldl] in H; [done|]. apply IH in H. unfold open_one in H.
  rewrite lookup_alter in H. case_decide; [subst k; by apply fmap_is_Some in H|done].
Qed.

Lemma trim_keeps fuel ch i (A : gmap CircuitKey PaymentCircuit) k : is_Some (A !! k) -> is_Some (spec_trim fuel ch i A !! k).
Proof.
  revert i A. induction fuel as [|fuel IH]; intros i A H; cbn [spec_trim]; [done|].
  destruct (holder A (mkCircuitKey ch i)) as [c|]; [|done]. apply IH.
  destruct (decide (k = Incoming c)) as [->|Hne]; [by rewrite lookup_insert_eq|by rewrite lookup_insert_ne].
Qed.

Lemma delete_keeps (A : gmap CircuitKey PaymentCircuit) ks k : is_Some (A !! k) -> k ∉ ks -> is_Some (foldl (fun A k => delete k A) A ks !! k).
Proof.
  revert A. induction ks as [|k' ks IH]; intros A H Hn; cbn [foldl]; [done|]. apply IH; [|set_solver]. rewrite lookup_delete_ne by set_solver. done.
Qed.

Lemma delete_no_new (A : gmap CircuitKey PaymentCircuit) ks k : is_Some (foldl (fun A k => delete k A) A ks !! k) -> is_Some (A !! k).
Proof.
  revert A. induction ks as [|k' ks IH]; intros A H; cbn [foldl] in H; [done|]. apply IH in H.
  by apply lookup_delete_is_Some in H as [_ ?].
Qed.

(** No operation but a deletion removes a circuit. *)
Lemma spec_keeps_key op (s : astate) k :
  is_Some (s.1 !! k) -> (forall dbOk ks, op = OpDelete dbOk ks -> k ∉ ks) -> is_Some ((spec op s).2.1 !! k).
Proof.
  intros H Hd. destruct op as [dbOk cs|dbOk kss|ch st|k'|o|dbOk ks|]; cbn [spec].
  - case_bool_decide; [done|]. destruct dbOk; [by apply add_all_keeps|done].
  - destruct kss; [done|]. destruct (spec_check _ _); [destruct dbOk|..]; try done. by apply open_keeps.
  - by apply trim_keeps.
  - unfold complete. destruct (s.1 !! k'); [case_bool_decide|]; done.
  - unfold complete. destruct (holder s.1 o); [case_bool_decide|]; done.
  - destruct dbOk; [|done]. apply delete_keeps; [done|]. by eapply Hd.
  - cbn. by rewrite lookup_fmap, fmap_is_Some.
Qed.

Lemma circuit_step op cm r cm' : Inv cm -> op_ok (CircuitMapInv.circuits cm) op -> run_circuit op cm = (r, cm') ->
  Inv cm' /\ forall k, is_Some (CircuitMapInv.circuits cm !! k) -> (forall dbOk ks, op = OpDelete dbOk ks -> k ∉ ks) ->
    is_Some (CircuitMapInv.circuits cm' !! k).
Proof.
  intros HI Hok Hr. pose proof (simulation op cm HI Hok) as Hs. unfold simulates in Hs. rewrite Hr in Hs.
  destruct (spec op (CircuitMapInv.circuits cm, closed cm)) as [r' s'] eqn:E. destruct Hs as [_ (HI' & HA & _)].
  split; [done|]. intros k Hk Hd. rewrite HA. pose proof (spec_keeps_key op (CircuitMapInv.circuits cm, closed cm) k Hk Hd) as H.
  by rewrite E in H.
Qed.

Lemma trimLoop_pending fuel ch i cm keys cm' keys' : trimLoop fuel ch i cm keys = Ok (cm', keys') -> pending cm' = pending cm.
Proof.
  revert i cm keys. induction fuel as [|fuel IH]; intros i cm keys H; cbn [trimLoop] in H; [done|].
  destruct (opened cm !! mkCircuitKey ch i) as [p|]; [|by injection H as <- <-]. obind_inv H. apply IH in H. rewrite H.
  unfold removeCircuitFromHashIndex. by destruct (hashIndex _ !! _).
Qed.

(** Only a commitment adds circuits. *)
Lemma circuit_step_new op cm r cm' k : Inv cm -> op_ok (CircuitMapInv.circuits cm) op -> run_circuit op cm = (r, cm') ->
  is_Some (CircuitMapInv.circuits cm' !! k) ->
  is_Some (CircuitMapInv.circuits cm !! k) \/ exists dbOk cs c, op = OpCommit dbOk cs /\ c ∈ cs /\ Incoming c = k.
Proof.
  intros HI Hok Hr Hk. pose proof (simulation op cm HI Hok) as Hs. unfold simulates in Hs. rewrite Hr in Hs.
  set (A := CircuitMapInv.circuits cm) in *.
  destruct (spec op (A, closed cm)) as [r' s'] eqn:E. destruct Hs as [_ (HI' & HA & _)].
  destruct op as [dbOk cs|dbOk kss|ch st|k'|o|dbOk ks|]; cbn [spec] in E; rewrite HA in Hk.
  - assert (is_Some (add_all A (p_adds (classify A cs)) !! k) -> is_Some (A !! k) \/ exists c, c ∈ cs /\ Incoming c = k) as Hadd.
    { destruct (classify_adds A cs) as [Hin _]. clear -Hin. unfold add_all. revert Hin. generalize (p_adds (classify A cs)) as l. intros l Hl. generalize A.
      induction Hl as [|c l Hc _ IH]; intros B H; cbn [foldl] in H; [by left|]. destruct (IH _ H) as [HB|?]; [|by right].
      destruct (decide (k = Incoming c)) as [->|Hne]; [right; by exists c|left; by rewrite lookup_insert_ne in HB]. }
    case_bool_decide; [injection E as <- <-; by left|]. destruct dbOk; injection E as <- <-; [|by left].
    destruct (Hadd Hk) as [?|(c & ? & ?)]; [by left|right; by eexists _, cs, c].
  - left. destruct kss; [by injection E as <- <-|]. destruct (spec_check _ _); [destruct dbOk|..]; injection E as <- <-; try done.
    exact (open_no_new A (k0 :: kss) k Hk).
  - left. rewrite <- HA in Hk. apply not_eq_None_Some. intros Hn. apply not_eq_None_Some in Hk. apply Hk.
    apply circuits_deref; [apply HI'|]. apply (circuits_deref cm k (inv_mem _ HI)) in Hn. cbn [run_circuit] in Hr.
    destruct (TrimOpenCircuits true ch st cm) as [x cm2] eqn:Et. injection Hr as <- <-. unfold TrimOpenCircuits in Et.
    destruct (trimLoop _ _ _ _ _) as [[cm3 keys]| |] eqn:El; [|injection Et as <- <-; done..]. apply trimLoop_pending in El.
    case_bool_decide; injection Et as <- <-; cbn; congruence.
  - left. unfold complete in E. cbn [fst snd] in E. destruct (A !! k'); [case_bool_decide|]; by injection E as <- <-.
  - left. unfold complete in E. cbn [fst snd] in E. destruct (holder A o); [case_bool_decide|]; by injection E as <- <-.
  - left. destruct dbOk; injection E as <- <-; [|done]. exact (delete_no_new A ks k Hk).
  - left. injection E as <- <-. cbn [fst] in Hk. by rewrite lookup_fmap, fmap_is_Some in Hk.
Qed.

(** A payment is pending when its circuit is in the map. *)
Lemma pending_in_map s id : Inv (Switch.circuits s) -> paymentPending id s = bool_decide (is_Some (map_of s !! local_key id)).
Proof.
  intros [HM _ _]. unfold paymentPending, LookupCircuit, map_of. fold (local_key id).
  pose proof (circuits_deref (Switch.circuits s) (local_key id) HM) as H.
  destruct (pending (Switch.circuits s) !! local_key id) as [p|] eqn:E.
  - symmetry. apply bool_decide_eq_true. destruct (CircuitMapInv.circuits _ !! local_key id); [done|]. naive_solver.
  - rewrite (proj2 H eq_refl). by rewrite bool_decide_eq_false_2 by apply is_Some_None.
Qed.

(** ** The store of results *)

Lemma notify_spec n subs (cs : gmap nat (option networkResult)) :
  NoDup subs -> (forall c, c ∈ subs -> cs !! c = Some None) ->
  exists cs', notify n subs cs = Ok cs' /\ forall c, cs' !! c = if bool_decide (c ∈ subs) then Some (Some n) else cs !! c.
Proof.
  intros Hn. revert cs. induction Hn as [|c subs Hc Hn IH]; intros cs H; cbn [notify].
  { exists cs. split; [done|]. intros c. by rewrite bool_decide_eq_false_2 by set_solver. }
  unfold send. rewrite (H c) by set_solver. cbn [obind].
  destruct (IH (<[c := Some n]> cs)) as (cs' & -> & Hcs').
  { intros d Hd. rewrite lookup_insert_ne by set_solver. apply H. set_solver. }
  exists cs'. split; [done|]. intros d. rewrite Hcs', (bool_decide_ext (d ∈ c :: subs) (d = c \/ d ∈ subs)) by apply elem_of_cons.
  destruct (decide (d = c)) as [->|Hne].
  - rewrite bool_decide_eq_false_2, lookup_insert_eq by done. by rewrite bool_decide_eq_true_2 by auto.
  - rewrite lookup_insert_ne by done. by rewrite (bool_decide_ext (d = c \/ d ∈ subs) (d ∈ subs)) by tauto.
Qed.

Lemma storeResult_spec dbOk id n st :
  storable_result n -> NoDup (default [] (results st !! id)) ->
  (forall c, c ∈ default [] (results st !! id) -> chans st !! c = Some None) ->
  storeResult dbOk id n st = (Err ErrResultDB, st) \/
  exists b cs, storeResult dbOk id n st = (Ok tt, mkStore (Some (<[idKey id := b]> (default ∅ (resultBkt st)))) (delete id (results st)) cs) /\
    deserializeNetworkResult b = Ok (loaded n) /\
    forall c, cs !! c = if bool_decide (c ∈ default [] (results st !! id)) then Some (Some n) else chans st !! c.
Proof.
  intros Hn Hd Hc. destruct (result_rt n Hn) as (b & Hs & Hl). unfold storeResult. rewrite Hs. destruct dbOk; cbn [negb]; [|by left].
  right. cbn [results chans resultBkt]. destruct (notify_spec n _ (chans st) Hd Hc) as (cs & -> & Hcs). by exists b, cs.
Qed.

Lemma idKey_inj i j : in_u 64 i -> in_u 64 j -> idKey i = idKey j -> i = j.
Proof.
  intros Hi Hj H. apply (f_equal be_get) in H. unfold idKey in H. by rewrite !be_get_put_id in H.
Qed.

Lemma fetch_stored b st results cs id i n : in_u 64 id -> in_u 64 i -> deserializeNetworkResult b = Ok n ->
  fetchResult (mkStore (Some (<[idKey id := b]> (default ∅ (resultBkt st)))) results cs) i =
    if bool_decide (i = id) then Ok n else fetchResult st i.
Proof.
  intros Hid Hi Hb. unfold fetchResult. cbn [resultBkt]. case_bool_decide as He; [subst; by rewrite lookup_insert_eq|].
  rewrite lookup_insert_ne by (intros Hk; by apply He, idKey_inj). destruct (resultBkt st); [done|]. cbn. by rewrite lookup_empty.
Qed.

Lemma toClean_spec keep l ks : toClean keep l = Ok ks ->
  forall k, k ∈ ks <-> exists v, (k, v) ∈ l /\ be_get (take 8 k) ∉ keep.
Proof.
  revert ks. induction l as [|[k v] l IH]; intros ks H; cbn [toClean] in H; [injection H as <-; set_solver|].
  case_bool_decide; [|done]. obind_inv H. injection H as <-. intros x. specialize (IH a Hstep x). setoid_rewrite elem_of_cons.
  case_bool_decide; rewrite ?elem_of_cons, IH; naive_solver.
Qed.

Lemma fetch_cleaned dbOk keep st r st' id : in_u 64 id -> cleanStore dbOk keep st = (r, st') ->
  (fetchResult st' id = fetchResult st id \/ fetchResult st' id = Err ErrPaymentIDNotFound) /\
  (id ∈ keep -> fetchResult st' id = fetchResult st id) /\ results st' = results st /\ chans st' = chans st.
Proof.
  intros Hid. unfold cleanStore. destruct (toClean _ _) as [ks| |] eqn:E; [|intros [= <- <-]; auto..]. destruct dbOk; [|intros [= <- <-]; auto].
  intros [= <- <-]. cbn [results chans]. split; [|split; [|done]].
  - unfold fetchResult. cbn [resultBkt]. rewrite delete_keys_lookup. case_bool_decide; [by right|left].
    destruct (resultBkt st); [done|]. cbn. by rewrite lookup_empty.
  - intros Hk. unfold fetchResult. cbn [resultBkt]. rewrite delete_keys_lookup, bool_decide_eq_false_2.
    + destruct (resultBkt st); [done|]. cbn. by rewrite lookup_empty.
    + intros (v & _ & Hn)%(toClean_spec _ _ _ E). destruct Hn. unfold idKey. rewrite take_ge by (by rewrite length_be_put).
      by rewrite be_get_put_id.
Qed.

(** ** The steps on circuits *)

Lemma attempt_wf id m : in_u 64 id -> length (UpdateAddHTLC.PaymentHash m) = 32%nat ->
  wf_circuit (attempt_circuit id m) /\ Outgoing (attempt_circuit id m) = None.
Proof.
  intros Hid Hl. split; [|done]. unfold wf_circuit, wf_addref, wf_key, wf_scid, in_u. cbn. split_and!; try done; try lia; apply Hid.
Qed.

Lemma Inv_no_dangling cm : Inv cm -> no_dangling cm.
Proof. intros [HM _ _] k q Hq. by destruct (i_deref _ HM _ _ Hq) as [c Hc]; exists c. Qed.

Lemma SendHTLC_spec eligible transit dbOk handover firstHop id m s r s' :
  SendHTLC eligible transit dbOk handover firstHop id m s = (r, s') ->
  Inv (Switch.circuits s) -> in_u 64 id -> length (UpdateAddHTLC.PaymentHash m) = 32%nat ->
  Inv (Switch.circuits s') /\ networkResults s' = networkResults s /\
  (forall k, is_Some (map_of s !! k) -> is_Some (map_of s' !! k)) /\
  (forall k, is_Some (map_of s' !! k) -> is_Some (map_of s !! k) \/ k = local_key id) /\
  (r = Ok tt \/ r = Err ErrLinkAdd -> is_Some (map_of s' !! local_key id)).
Proof.
  intros H HI Hid Hl. unfold SendHTLC in H.
  destruct (getLocalLink _ _ _ _) as [link|e]; [|injection H as <- <-; split_and!; naive_solver]. cbn [evaluateDustThreshold] in H.
  match type of H with context [new_object ?c _] => change c with (attempt_circuit id m) in H end.
  destruct (new_object (attempt_circuit id m) (Switch.circuits s)) as [p cm] eqn:En.
  pose proof (new_object_spec (attempt_circuit id m) (Switch.circuits s)) as Ho. rewrite En in Ho. cbn [fst snd] in Ho. destruct Ho as (Hf & Hh & He).
  assert (no_dangling cm) as Hd.
  { intros k q. rewrite (ext_pending _ _ He). intros Hq. destruct (Inv_no_dangling _ HI k q Hq) as [c Hc]. exists c. by apply (ext_heap _ _ He). }
  assert (keys_of cm [p] [local_key id]) as Hk by (constructor; [eexists; split; [exact Hh|done]|constructor]).
  destruct (CommitCircuits_verdicts dbOk cm [p] [local_key id] Hd Hk) as (r1 & cm' & Hcc & Hr1 & Hheap & Hadd).
  cbn [verdicts] in Hcc, Hadd. set (v := judge cm dbOk [] (local_key id)) in *.
  assert (op_ok (map_of s) (OpCommit dbOk [attempt_circuit id m])) as Hop by (constructor; [by apply attempt_wf|constructor]).
  assert (exists x, run_circuit (OpCommit dbOk [attempt_circuit id m]) (Switch.circuits s) = (x, cm')) as [x Hrun].
  { cbn [run_circuit alloc]. unfold new_object in En. injection En as <- <-. rewrite Hcc. by eexists. }
  destruct (circuit_step _ _ _ _ HI Hop Hrun) as [HI' Hkeep].
  rewrite Hcc in H.
  assert (Inv (Switch.circuits (set_circuits s cm')) /\ networkResults (set_circuits s cm') = networkResults s /\
    (forall k, is_Some (map_of s !! k) -> is_Some (map_of (set_circuits s cm') !! k)) /\
    (forall k, is_Some (map_of (set_circuits s cm') !! k) -> is_Some (map_of s !! k) \/ k = local_key id)) as (H1 & H2 & H3 & H4).
  { split_and!; [done|done| |].
    - intros k Hks. apply Hkeep; [done|]. intros; discriminate.
    - intros k Hks. destruct (circuit_step_new _ _ _ _ k HI Hop Hrun Hks) as [?|(? & ? & c & [= <- <-] & Hc & <-)]; [by left|].
      apply list_elem_of_singleton in Hc as ->. by right. }
  destruct r1 as [u|e|]; [|injection H as <- <-; split_and!; naive_solver|done].
  cbn [CircuitMap.Drops CircuitMap.Fails] in H. cbn [select] in H, Hadd, Hcc.
  destruct v eqn:Ev; verdict_simp.
  all: repeat match type of H with context [bool_decide (@eq verdict ?a ?b)] =>
    let x := eval vm_compute in (bool_decide (a = b)) in change (bool_decide (a = b)) with x in H end; cbv match in H.
  - rewrite !bool_decide_eq_false_2 in H by done.
    assert (is_Some (map_of (set_circuits s cm') !! local_key id)) as Hin.
    { unfold map_of. cbn [set_circuits Switch.circuits]. rewrite lookup_circuits.
      destruct (Hadd p (local_key id)) as [-> _]; [cbn; by left|]. cbn. rewrite Hheap, Hh. done. }
    destruct handover; injection H as <- <-; by split_and!.
  - rewrite bool_decide_eq_true_2 in H by done. injection H as <- <-. split_and!; naive_solver.
  - rewrite bool_decide_eq_false_2, bool_decide_eq_true_2 in H by done. injection H as <- <-. split_and!; naive_solver.
Qed.

Lemma closeCircuit_spec pkt s c pkt' s' : closeCircuit pkt s = (Ok (Some c), pkt', s') -> Inv (Switch.circuits s) ->
  Inv (Switch.circuits s') /\ networkResults s' = networkResults s /\ (forall k, is_Some (map_of s !! k) <-> is_Some (map_of s' !! k)) /\
  is_Some (map_of s !! Switch.inKey pkt').
Proof.
  intros H HI. unfold closeCircuit in H. destruct (hasSource pkt).
  - destruct (FailCircuit (Switch.inKey pkt) (Switch.circuits s)) as [[p| |] cm] eqn:E; [|done..]. injection H as <- <- <-.
    assert (exists x, run_circuit (OpFail (Switch.inKey pkt)) (Switch.circuits s) = (x, cm)) as [x Hrun] by (cbn [run_circuit]; rewrite E; by eexists).
    destruct (circuit_step (OpFail _) _ _ _ HI I Hrun) as [HI' Hk]. split_and!; [done|done| |].
    + intros k. split; intros Hks; [apply Hk; [done|intros; discriminate]|].
      destruct (circuit_step_new (OpFail _) _ _ _ k HI I Hrun Hks) as [?|(? & ? & ? & ? & _)]; [done|discriminate].
    + unfold FailCircuit in E. destruct (pending _ !! _) as [q|] eqn:Eq; [|done]. unfold map_of. rewrite lookup_circuits, Eq. cbn.
      apply (i_deref _ (inv_mem _ HI) _ _ Eq).
  - destruct (CloseCircuit (outKey pkt) (Switch.circuits s)) as [[p|e|] cm] eqn:E; [|destruct e; try done; destruct (htlc pkt); done|done].
    destruct (deref cm p) as [d| |] eqn:Ed; [|done..]. injection H as <- <- <-.
    assert (exists x, run_circuit (OpClose (outKey pkt)) (Switch.circuits s) = (x, cm)) as [x Hrun] by (cbn [run_circuit]; rewrite E; by eexists).
    destruct (circuit_step (OpClose _) _ _ _ HI I Hrun) as [HI' Hk]. split_and!; [done|done| |].
    + intros k. split; intros Hks; [apply Hk; [done|intros; discriminate]|].
      destruct (circuit_step_new (OpClose _) _ _ _ k HI I Hrun Hks) as [?|(? & ? & ? & ? & _)]; [done|discriminate].
    + unfold CloseCircuit in E. destruct (opened _ !! _) as [q|] eqn:Eq; [|done]. pose proof (inv_mem _ HI) as HM.
      apply (i_opened _ HM) in Eq as (k & c & Hp & Hc & _). unfold deref in E. rewrite Hc in E.
      case_bool_decide; [done|]. injection E as <- <-. unfold deref in Ed. cbn in Ed. rewrite Hc in Ed. injection Ed as <-.
      pose proof (circuits_ptr _ _ _ _ Hp Hc) as Hin. destruct (i_keys _ HM _ _ Hin) as [Hkey _].
      unfold map_of, Switch.inKey. cbn [set_source incomingChanID incomingHTLCID]. rewrite Hkey. replace (mkCircuitKey (ChanID k) (HtlcID k)) with k by (by destruct k). by exists c.
Qed.

Lemma teardownCircuit_spec dbOk pkt s r s' : teardownCircuit dbOk pkt s = (r, s') -> Inv (Switch.circuits s) ->
  Inv (Switch.circuits s') /\ networkResults s' = networkResults s /\
  (forall k, k <> Switch.inKey pkt -> is_Some (map_of s !! k) -> is_Some (map_of s' !! k)) /\
  (forall k, is_Some (map_of s' !! k) -> is_Some (map_of s !! k)).
Proof.
  intros H HI. unfold teardownCircuit in H.
  assert (s' = s \/ exists x, DeleteCircuits dbOk [Switch.inKey pkt] (Switch.circuits s) = (x, Switch.circuits s') /\ networkResults s' = networkResults s) as [->|(x & Hx & Hn)].
  { destruct (htlc pkt); try (injection H as <- <-; by left);
      (destruct (circuit pkt) as [p|]; [|injection H as <- <-; by left]);
      (destruct (deref _ p); [|injection H as <- <-; by left..]);
      destruct (DeleteCircuits _ _ _) as [[| |] cm]; injection H as <- <-; right; by eexists. }
  - done.
  - assert (run_circuit (OpDelete dbOk [Switch.inKey pkt]) (Switch.circuits s) = (plain x, Switch.circuits s')) as Hrun by (cbn [run_circuit]; by rewrite Hx).
    destruct (circuit_step (OpDelete _ _) _ _ _ HI I Hrun) as [HI' Hk]. split_and!; [done|done| |].
    + intros k Hne Hks. apply Hk; [done|]. intros ? ? [= <- <-]. set_solver.
    + intros k Hks. destruct (circuit_step_new (OpDelete _ _) _ _ _ k HI I Hrun Hks) as [?|(? & ? & ? & ? & _)]; [done|discriminate].
Qed.

(** ** The invariant is kept *)

(** A step that leaves the store of results alone. *)
Lemma inv_frame s s' t t' g g' u u' a a' l l' k :
  inv (mkSystem s t g u a l k) -> networkResults s' = networkResults s -> Inv (Switch.circuits s') ->
  (forall x, x ∈ l -> x ∈ l') -> a' ⊆ u' -> Forall (fun g => g.1 ∈ u' /\ in_u 64 g.1) g' -> (forall id, id ∈ u' -> in_u 64 id) ->
  (forall id, is_Some (map_of s' !! local_key id) -> id ∈ u') ->
  (forall id, id ∈ a' -> is_Some (map_of s' !! local_key id) \/ stored (mkSystem s t g u a l k) id) ->
  (forall id r, (id, r) ∈ l' -> storable_result r) ->
  (forall pkt st, (pkt, st) ∈ t' -> incomingChanID pkt = Source /\ incomingHTLCID pkt ∈ u' /\
     (incomingHTLCID pkt, responseOf pkt) ∈ l' /\ (st <> ToStore -> incomingHTLCID pkt ∈ a' -> stored (mkSystem s t g u a l k) (incomingHTLCID pkt))) ->
  (forall id, (id, false) ∈ g' -> id ∈ a' -> stored (mkSystem s t g u a l k) id) ->
  inv (mkSystem s' t' g' u' a' l' k).
Proof.
  intros I Hn HI Hl Hau Hg Hu Hloc Hkept Harr Hresp Hask.
  assert (forall id, stored (mkSystem s t g u a l k) id -> stored (mkSystem s' t' g' u' a' l' k) id) as Hst.
  { intros id (r & Hr & Hf). exists r. cbn in *. rewrite Hn. auto. }
  destruct I as [_ _ _ _ I4 _ _ _ I8 I9 I10]. cbn in *. split; cbn; rewrite ?Hn.
  - done.
  - done.
  - done.
  - intros id Hid. destruct (Hkept id Hid) as [?|?]; auto.
  - intros id Hid. destruct (I4 id Hid); auto.
  - done.
  - intros pkt st Hp. destruct (Hresp pkt st Hp) as (? & ? & ? & H). split_and!; auto.
  - auto.
  - apply I8.
  - apply I9.
  - intros c id Hc. destruct (I10 c id Hc) as [(n & r & ? & ? & ?)|?]; [left|by right]. exists n, r. auto.
Qed.

Lemma send_inv s t g u a l k r s' eligible transit dbOk handover firstHop id m :
  inv (mkSystem s t g u a l k) -> id ∉ u -> in_u 64 id -> length (UpdateAddHTLC.PaymentHash m) = 32%nat ->
  SendHTLC eligible transit dbOk handover firstHop id m s = (r, s') ->
  inv (mkSystem s' t g ({[id]} ∪ u) (match r with Ok _ | Err ErrLinkAdd => {[id]} ∪ a | _ => a end) l k).
Proof.
  intros I Hu Hid Hl H. pose proof I as [I1 (I2a & I2b & I2c) Iloc I3 I4 I5 I6 I7 _ _ _]. cbn in *.
  destruct (SendHTLC_spec _ _ _ _ _ _ _ _ _ _ H I1 Hid Hl) as (HI & Hn & Hkeep & Hnew & Hadd).
  set (a' := match r with Ok _ | Err ErrLinkAdd => {[id]} ∪ a | _ => a end).
  assert (forall x, x ∈ a' -> x ∈ a \/ (x = id /\ is_Some (map_of s' !! local_key id))) as Ha.
  { intros x Hx. unfold a' in Hx. destruct r as [[]|[]|]; try (by left); apply elem_of_union in Hx as [->%elem_of_singleton|?]; auto. }
  eapply inv_frame; try done; cbn.
  - intros x Hx. destruct (Ha x Hx) as [?|[-> _]]; set_solver.
  - eapply Forall_impl; [exact I2b|]. cbn. intros [x b] [? ?]. split; [set_solver|done].
  - intros x [->%elem_of_singleton|?]%elem_of_union; auto.
  - intros x Hx. destruct (Hnew _ Hx) as [?|[= ->]]; [apply elem_of_union_r; auto|set_solver].
  - intros x Hx. destruct (Ha x Hx) as [Hxa|[-> ?]]; [|by left]. destruct (I3 x Hxa) as [?|?]; [left; by apply Hkeep|by right].
  - intros pkt st Hp. destruct (I6 pkt st Hp) as (H1 & H2 & H3 & H4). split_and!; try done; [set_solver|]. intros Hs Hx.
    destruct (Ha _ Hx) as [?|[He _]]; [by apply H4|]. by rewrite He in H2.
  - intros x Hx Hxa. destruct (Ha _ Hxa) as [?|[-> _]]; [by apply I7|]. rewrite Forall_forall in I2b. by destruct (I2b _ Hx).
Qed.

Lemma forward_inv s t g u a l k op r cm :
  inv (mkSystem s t g u a l k) -> forwarding_op op -> op_ok (map_of s) op -> run_circuit op (Switch.circuits s) = (r, cm) ->
  inv (mkSystem (set_circuits s cm) t g u a l k).
Proof.
  intros I Hf Hok Hr. pose proof I as [I1 (I2a & I2b & I2c) Iloc I3 I4 I5 I6 I7 _ _ _]. cbn in *.
  destruct (circuit_step op _ r cm I1 Hok Hr) as [HI Hk]. eapply inv_frame; try done; cbn; auto.
  - intros id Hs. destruct (circuit_step_new op _ r cm _ I1 Hok Hr Hs) as [?|(dbOk & cs & c & -> & Hc & Hi)]; [by apply Iloc|].
    cbn in Hf. rewrite Forall_forall in Hf. specialize (Hf c Hc). by rewrite Hi in Hf.
  - intros id Hid. destruct (I3 id Hid) as [?|?]; [left|by right]. apply Hk; [done|]. intros dbOk ks -> Hin. cbn in Hf.
    rewrite Forall_forall in Hf. by apply (Hf _ Hin).
Qed.

Lemma response_inv s t g u a l k pkt c pkt' s' :
  inv (mkSystem s t g u a l k) -> closeCircuit pkt s = (Ok (Some c), pkt', s') -> incomingChanID pkt' = Source ->
  storable_result (responseOf pkt') ->
  inv (mkSystem s' ((pkt', ToStore) :: t) g u a ((incomingHTLCID pkt', responseOf pkt') :: l) k).
Proof.
  intros I H Hsrc Hst. pose proof I as [I1 (I2a & I2b & I2c) Iloc I3 I4 I5 I6 I7 _ _ _]. cbn in *.
  destruct (closeCircuit_spec _ _ _ _ _ H I1) as (HI & Hn & Hk & Hin).
  eapply inv_frame; try done; cbn.
  - intros x Hx. by right.
  - intros id Hs. apply Iloc. by apply Hk.
  - intros id Hid. destruct (I3 id Hid) as [?|?]; [left; by apply Hk|by right].
  - intros id r [[= -> ->]|Hr]%elem_of_cons; [done|by eapply I5].
  - intros p st [[= -> ->]|Hp]%elem_of_cons.
    + split_and!; [done| |by left|done]. apply Iloc. unfold Switch.inKey in Hin. rewrite Hsrc in Hin. done.
    + destruct (I6 p st Hp) as (? & ? & ? & ?). split_and!; try done. by right.
Qed.

Lemma ack_inv s t1 t2 g u a l k pkt dbOk r s' :
  inv (mkSystem s (t1 ++ (pkt, ToAck) :: t2) g u a l k) -> respondAck dbOk pkt s = (r, s') ->
  inv (mkSystem s' (t1 ++ (match r with Ok _ => [(pkt, ToDelete)] | _ => [] end) ++ t2) g u a l k).
Proof.
  intros I H. pose proof I as [I1 (I2a & I2b & I2c) Iloc I3 I4 I5 I6 I7 _ _ _]. cbn in *.
  assert (networkResults s' = networkResults s /\ Switch.circuits s' = Switch.circuits s) as [Hn Hc].
  { unfold respondAck, ackSettleFail in H. destruct (destRef pkt) as [ref|]; [|by injection H as <- <-].
    destruct (ackSettleFails _ _); [destruct dbOk|..]; by injection H as <- <-. }
  eapply inv_frame; try done; cbn; unfold map_of in *; rewrite ?Hc; auto.
  intros p st Hp. rewrite !elem_of_app in Hp. destruct Hp as [Hp|[Hp|Hp]].
  - apply (I6 p st). set_solver.
  - assert ((p, st) = (pkt, ToDelete)) as [= -> ->] by (destruct r; set_solver).
    destruct (I6 pkt ToAck) as (? & ? & ? & Hs); [set_solver|]. split_and!; try done. intros _. by apply Hs.
  - apply (I6 p st). set_solver.
Qed.

Lemma delete_inv s t1 t2 g u a l k pkt dbOk r s' :
  inv (mkSystem s (t1 ++ (pkt, ToDelete) :: t2) g u a l k) -> teardownCircuit dbOk pkt s = (r, s') ->
  inv (mkSystem s' (t1 ++ t2) g u a l k).
Proof.
  intros I H. pose proof I as [I1 (I2a & I2b & I2c) Iloc I3 I4 I5 I6 I7 _ _ _]. cbn in *.
  destruct (teardownCircuit_spec _ _ _ _ _ H I1) as (HI & Hn & Hk & Hb).
  destruct (I6 pkt ToDelete) as (Hsrc & _ & _ & Hst); [set_solver|].
  eapply inv_frame; try done; cbn.
  - intros id Hs. by apply Iloc, Hb.
  - intros id Hid. destruct (decide (id = incomingHTLCID pkt)) as [->|Hne]; [right; by apply Hst|].
    destruct (I3 id Hid) as [Hm|?]; [left|by right]. apply Hk; [|done]. unfold Switch.inKey. rewrite Hsrc. intros [= He]. done.
  - intros p st Hp. apply (I6 p st). set_solver.
Qed.

Lemma look_inv s t g u a l k id : inv (mkSystem s t g u a l k) -> id ∈ u ->
  inv (mkSystem s t ((id, paymentPending id s) :: g) u a l k).
Proof.
  intros I Hu. pose proof I as [I1 (I2a & I2b & I2c) Iloc I3 I4 I5 I6 I7 _ _ _]. cbn in *. eapply inv_frame; try done; cbn.
  - constructor; [cbn; auto|done].
  - intros x [[= -> Hp]|Hx]%elem_of_cons Hxa; [|by apply I7]. destruct (I3 _ Hxa) as [Hm|?]; [|done].
    rewrite pending_in_map, bool_decide_eq_true_2 in Hp by done. done.
Qed.

Lemma store_inv s t1 t2 g u a l k pkt dbOk r s' :
  inv (mkSystem s (t1 ++ (pkt, ToStore) :: t2) g u a l k) -> respondStore dbOk pkt s = (r, s') ->
  inv (mkSystem s' (t1 ++ (match r with Ok _ => [(pkt, ToAck)] | _ => [] end) ++ t2) g u a l k).
Proof.
  intros I H. pose proof I as [I1 (I2a & I2b & I2c) Iloc I3 I4 I5 I6 I7 I8 I9 I10]. cbn in *.
  destruct (I6 pkt ToStore) as (Hsrc & Hu & Harr & _); [set_solver|]. set (id := incomingHTLCID pkt) in *.
  pose proof (I2c id Hu) as Hid. pose proof (I5 _ _ Harr) as Hst. unfold respondStore in H. fold id in H.
  destruct (storeResult_spec dbOk id (responseOf pkt) (networkResults s) Hst (I9 id)) as [He|(b & cs & He & Hb & Hcs)].
  { intros c Hc. by apply (I8 id c). }
  - rewrite He in H. injection H as <- <-. cbn [app]. eapply inv_frame; try done; cbn; auto.
    intros p st Hp. apply (I6 p st). set_solver.
  - rewrite He in H. injection H as <- <-. set (st' := mkStore _ _ _) in *.
    assert (forall i, in_u 64 i -> fetchResult st' i = if bool_decide (i = id) then Ok (loaded (responseOf pkt)) else fetchResult (networkResults s) i) as Hf.
    { intros i Hi. by apply fetch_stored. }
    assert (forall i, in_u 64 i -> stored (mkSystem s (t1 ++ (pkt, ToStore) :: t2) g u a l k) i ->
      stored (mkSystem (set_results s st') (t1 ++ [(pkt, ToAck)] ++ t2) g u a l k) i) as Hmono.
    { intros i Hi (n & Hn & Hfn). cbn in *. unfold stored. cbn. rewrite Hf by done. case_bool_decide as Hi'; [subst; by exists (responseOf pkt)|by exists n]. }
    assert (stored (mkSystem (set_results s st') (t1 ++ [(pkt, ToAck)] ++ t2) g u a l k) id) as Hnew.
    { exists (responseOf pkt). split; [done|]. change (fetchResult st' id = Ok (loaded (responseOf pkt))). by rewrite Hf, bool_decide_eq_true_2. }
    assert (forall i, default [] (results st' !! i) = if bool_decide (i = id) then [] else default [] (results (networkResults s) !! i)) as Hres.
    { intros i. cbn. case_bool_decide as Hi; [subst; by rewrite lookup_delete_eq|by rewrite lookup_delete_ne]. }
    assert (forall c, chans st' !! c = if bool_decide (c ∈ default [] (results (networkResults s) !! id)) then Some (Some (responseOf pkt)) else chans (networkResults s) !! c) as Hch by done.
    split; cbn [sw responding asking used attempts arrived tickets set_results networkResults Switch.circuits].
    + done.
    + done.
    + done.
    + intros i Hi. destruct (I3 i Hi) as [?|?]; [by left|right]. apply Hmono; [by apply I2c, I2a|done].
    + intros i Hi. destruct (decide (i = id)) as [->|Hne]; [by left|]. destruct (I4 i Hi) as [?|?]; [left; by apply Hmono|right].
      by rewrite Hf, bool_decide_eq_false_2.
    + done.
    + intros p st Hp. rewrite !elem_of_app in Hp. destruct Hp as [Hp|[Hp|Hp]].
      * destruct (I6 p st) as (H1 & H2 & H3 & H4); [set_solver|]. split_and!; try done. intros ? ?. apply Hmono; [by apply I2c|by apply H4].
      * apply list_elem_of_singleton in Hp as [= -> ->]. split_and!; done.
      * destruct (I6 p st) as (H1 & H2 & H3 & H4); [set_solver|]. split_and!; try done. intros ? ?. apply Hmono; [by apply I2c|by apply H4].
    + intros i Hi Ha. apply Hmono; [by apply I2c, I2a|by apply I7].
    + intros i c. rewrite Hres. case_bool_decide as Hi; [intros Hc; by apply not_elem_of_nil in Hc|]. intros Hc.
      destruct (I8 i c Hc) as (Hk & Hcn & Hff). split_and!; [done| |].
      * rewrite Hch, bool_decide_eq_false_2; [done|]. intros Hc'. destruct (I8 id c Hc') as (Hk' & _). congruence.
      * intros Hiu. rewrite Hf by done. rewrite bool_decide_eq_false_2 by done. by apply Hff.
    + intros i. rewrite Hres. case_bool_decide; [constructor|apply I9].
    + intros c i Hk. rewrite Hch, Hres. destruct (I10 c i Hk) as [(n & n' & Hn & Hn' & Hor)|Hc].
      * left. exists n, n'. rewrite bool_decide_eq_false_2; [done|]. intros Hc'. destruct (I8 id c Hc') as (_ & Hcn & _). congruence.
      * destruct (decide (i = id)) as [->|Hne].
        -- left. rewrite bool_decide_eq_true_2 by done. exists (responseOf pkt), (responseOf pkt). auto.
        -- right. by rewrite bool_decide_eq_false_2.
Qed.

(** What [awaitResult] does: nothing, or it makes a channel, which holds the result or is
    registered for it. *)
Lemma awaitResult_spec s t g u a l k id known dbOk r s' :
  inv (mkSystem s t g u a l k) -> in_u 64 id -> awaitResult known dbOk id s = (r, s') ->
  let st := networkResults s in let c := fresh (dom (chans st)) in
  Switch.circuits s' = Switch.circuits s /\
  ((networkResults s' = st /\ is_ok r = false /\ (dbOk = true -> known = false /\ r = Err (ErrResults ErrPaymentIDNotFound) /\
      fetchResult st id = Err ErrPaymentIDNotFound)) \/
   (r = Ok c /\ exists n, (id, n) ∈ l /\ networkResults s' = mkStore (resultBkt st) (results st) (<[c := Some (loaded n)]> (chans st))) \/
   (r = Ok c /\ known = true /\ fetchResult st id = Err ErrPaymentIDNotFound /\
    networkResults s' = mkStore (resultBkt st) (<[id := default [] (results st !! id) ++ [c]]> (results st)) (<[c := None]> (chans st)))).
Proof.
  intros I Hid H. cbn zeta. pose proof (inv_fetch _ I id Hid) as Hf. cbn in Hf. unfold awaitResult in H.
  destruct known; cbn [negb] in H.
  - unfold subscribeResult in H. destruct dbOk; cbn [negb] in H; [|injection H as <- <-; split; [done|left; done]].
    destruct Hf as [(n & Hn & Hf)|Hf]; cbn in *; rewrite Hf in H; injection H as <- <-; (split; [done|right]).
    + left. split; [done|]. exists n. done.
    + right. done.
  - unfold getResult in H. destruct dbOk; [|injection H as <- <-; split; [done|left; done]].
    destruct Hf as [(n & Hn & Hf)|Hf]; cbn in *; rewrite Hf in H; injection H as <- <-; (split; [done|]).
    + right. left. split; [done|]. exists n. done.
    + left. done.
Qed.

Lemma fresh_ticket s t g u a l k : inv (mkSystem s t g u a l k) ->
  let c := fresh (dom (chans (networkResults s))) in
  chans (networkResults s) !! c = None /\ k !! c = None /\ forall id, c ∉ default [] (results (networkResults s) !! id).
Proof.
  intros I c. assert (chans (networkResults s) !! c = None) as Hc by (apply not_elem_of_dom, is_fresh).
  pose proof (inv_tickets _ I) as I10. pose proof (inv_waiting _ I) as I8. cbn in *.
  assert (forall id, c ∉ default [] (results (networkResults s) !! id)) as Hn.
  { intros id Hin. destruct (I8 id c Hin) as (_ & H & _). congruence. }
  split_and!; [done| |done]. destruct (k !! c) as [id|] eqn:E; [|done].
  destruct (I10 c id E) as [(n & r & H & _)|H]; [congruence|by destruct (Hn id)].
Qed.

Lemma await_inv s t g1 g2 u a l k id known dbOk r s' :
  inv (mkSystem s t (g1 ++ (id, known) :: g2) u a l k) -> awaitResult known dbOk id s = (r, s') ->
  inv (mkSystem s' t (g1 ++ g2) u a l (match r with Ok c => <[c := id]> k | _ => k end)).
Proof.
  intros I H. pose proof I as [I1 (I2a & I2b & I2c) Iloc I3 I4 I5 I6 I7 I8 I9 I10]. cbn in *.
  assert (Forall (fun g => g.1 ∈ u /\ in_u 64 g.1) (g1 ++ g2)) as Hg by (rewrite Forall_app, Forall_cons in I2b; rewrite Forall_app; tauto).
  assert (in_u 64 id) as Hid by (rewrite Forall_app, Forall_cons in I2b; apply I2b).
  destruct (fresh_ticket _ _ _ _ _ _ _ I) as (Hc1 & Hc2 & Hc3). destruct (awaitResult_spec _ _ _ _ _ _ _ _ _ _ _ _ I Hid H) as [Hcirc Hcase].
  set (st := networkResults s) in *. set (c := fresh (dom (chans st))) in *.
  destruct Hcase as [(Hn & Hok & _)|Hcase].
  { assert (match r with Ok c => <[c := id]> k | _ => k end = k) as -> by (by destruct r).
    eapply inv_frame; try done; cbn; unfold map_of in *; rewrite ?Hcirc; auto. intros x Hx. apply I7. set_solver. }
  assert (exists o res, r = Ok c /\ networkResults s' = mkStore (resultBkt st) res (<[c := o]> (chans st)) /\
    ((res = results st /\ exists n, (id, n) ∈ l /\ o = Some (loaded n)) \/
     (res = <[id := default [] (results st !! id) ++ [c]]> (results st) /\ o = None /\ fetchResult st id = Err ErrPaymentIDNotFound))) as (o & res & -> & Hn & Hor).
  { destruct Hcase as [(-> & n & Hin & Hn)|(-> & _ & Hf & Hn)].
    - exists (Some (loaded n)), (results st). split_and!; [done|done|left; eauto].
    - eexists None, _. split_and!; [done|done|right; done]. }
  assert (forall i, stored (mkSystem s t (g1 ++ (id, known) :: g2) u a l k) i -> stored (mkSystem s' t (g1 ++ g2) u a l (<[c := id]> k)) i) as Hmono.
  { intros i (n & Hin & Hf). exists n. split; [done|]. cbn in *. by rewrite Hn. }
  assert (forall i d, d ∈ default [] (res !! i) -> d ∈ default [] (results st !! i) \/ (i = id /\ d = c /\ o = None /\ fetchResult st id = Err ErrPaymentIDNotFound)) as Hres.
  { intros i d Hd. destruct Hor as [[-> _]|(-> & Ho & Hf)]; [by left|]. destruct (decide (i = id)) as [->|Hne].
    - rewrite lookup_insert_eq in Hd. cbn in Hd. apply elem_of_app in Hd as [?|Hd]; [by left|]. apply list_elem_of_singleton in Hd. auto.
    - rewrite lookup_insert_ne in Hd by done. by left. }
  assert (forall i d, d ∈ default [] (results st !! i) -> d ∈ default [] (res !! i)) as Hres'.
  { intros i d Hd. destruct Hor as [[-> _]|(-> & _)]; [done|]. destruct (decide (i = id)) as [->|Hne].
    - rewrite lookup_insert_eq. cbn. apply elem_of_app. by left.
    - by rewrite lookup_insert_ne. }
  split; cbn [sw responding asking used attempts arrived tickets]; unfold map_of in *; rewrite ?Hcirc, ?Hn; cbn [results chans].
  - done.
  - done.
  - done.
  - intros i Hi. destruct (I3 i Hi); auto.
  - intros i Hi. destruct (I4 i Hi); auto.
  - done.
  - intros p stg Hp. destruct (I6 p stg Hp) as (? & ? & ? & ?). split_and!; auto.
  - intros i Hi Ha. apply Hmono, I7; [set_solver|done].
  - intros i d Hd. destruct (Hres i d Hd) as [Hold|(-> & -> & -> & Hf)].
    + destruct (I8 i d Hold) as (? & ? & ?). rewrite !lookup_insert_ne by (intros <-; by apply (Hc3 i)). auto.
    + rewrite !lookup_insert_eq. auto.
  - intros i. destruct Hor as [[-> _]|(-> & _)]; [apply I9|]. destruct (decide (i = id)) as [->|Hne].
    + rewrite lookup_insert_eq. cbn. apply NoDup_app. split_and!; [apply I9| |apply NoDup_singleton].
      intros d Hd Hdc. apply list_elem_of_singleton in Hdc as ->. by apply (Hc3 id).
    + rewrite lookup_insert_ne by done. apply I9.
  - intros d i Hd. destruct (decide (d = c)) as [->|Hne].
    + rewrite lookup_insert_eq in Hd. injection Hd as <-. destruct Hor as [(-> & n & Hin & ->)|(-> & -> & _)].
      * left. exists (loaded n), n. rewrite lookup_insert_eq. auto.
      * right. rewrite lookup_insert_eq. cbn. apply elem_of_app. right. by left.
    + rewrite lookup_insert_ne in Hd by done. rewrite lookup_insert_ne by done. destruct (I10 d i Hd) as [?|?]; [by left|right; auto].
Qed.

Lemma clean_inv s t g u a l k dbOk keep r s' :
  inv (mkSystem s t g u a l k) -> CleanStore dbOk keep s = (r, s') -> inv (mkSystem s' t g u (a ∩ keep) l k).
Proof.
  intros I H. pose proof I as [I1 (I2a & I2b & I2c) Iloc I3 I4 I5 I6 I7 I8 I9 I10]. cbn in *.
  assert (Switch.circuits s' = Switch.circuits s /\ exists x, cleanStore dbOk keep (networkResults s) = (x, networkResults s')) as [Hc [x Hx]].
  { unfold CleanStore in H. destruct (cleanStore _ _ _) as [[| |] st]; injection H as <- <-; split; eauto. }
  assert (forall id, id ∈ a ∩ keep -> stored (mkSystem s t g u a l k) id -> stored (mkSystem s' t g u (a ∩ keep) l k) id) as Hmono.
  { intros id Hid (n & Hn & Hf). exists n. split; [done|]. cbn in *.
    destruct (fetch_cleaned dbOk keep _ _ _ id (I2c id (I2a id ltac:(set_solver))) Hx) as (_ & -> & _); [done|set_solver]. }
  assert (results (networkResults s') = results (networkResults s) /\ chans (networkResults s') = chans (networkResults s)) as [Hr Hch].
  { assert (in_u 64 0) as H0 by done. destruct (fetch_cleaned dbOk keep _ _ _ 0 H0 Hx) as (_ & _ & ? & ?). done. }
  split; cbn [sw responding asking used attempts arrived tickets]; unfold map_of in *; rewrite ?Hc, ?Hr, ?Hch; auto.
  - split_and!; [set_solver|done|done].
  - intros id Hid. destruct (I3 id ltac:(set_solver)) as [?|?]; auto.
  - intros id Hid. destruct (fetch_cleaned dbOk keep _ _ _ id Hid Hx) as ([He|He] & _); [|by right]. destruct (I4 id Hid) as [(n & Hn & Hf)|Hf].
    + left. exists n. split; [done|]. cbn in *. by rewrite He.
    + right. by rewrite He.
  - intros p st Hp. destruct (I6 p st Hp) as (? & ? & ? & Hs). split_and!; auto. intros ? ?. apply Hmono; [done|]. apply Hs; [done|set_solver].
  - intros id Hi Hid. apply Hmono; [done|]. apply I7; [done|set_solver].
  - intros id c Hin. destruct (I8 id c Hin) as (? & ? & Hf). split_and!; auto. intros Hid.
    destruct (fetch_cleaned dbOk keep _ _ _ id Hid Hx) as ([He|He] & _); [rewrite He; auto|done].
Qed.

Lemma restart_inv s t g u a l k cm pend snt lnks :
  inv (mkSystem s t g u a l k) ->
  restoreMemState true (circuitBkt (Switch.circuits s)) (keystoneBkt (Switch.circuits s)) = Ok cm ->
  inv (mkSystem (mkSwitch cm (newNetworkResultStore (resultBkt (networkResults s))) (fwdPkgs s) lnks pend snt) [] [] u a l ∅).
Proof.
  intros I H. pose proof I as [I1 (I2a & I2b & I2c) Iloc I3 I4 I5 _ _ _ _ _]. cbn in *.
  assert (run_circuit OpRestart (Switch.circuits s) = (plain (Ok tt), cm)) as Hr by (cbn [run_circuit]; by rewrite H).
  destruct (circuit_step OpRestart _ _ _ I1 Logic.I Hr) as [HI Hk].
  assert (forall id, stored (mkSystem s t g u a l k) id -> stored (mkSystem (mkSwitch cm (newNetworkResultStore (resultBkt (networkResults s))) (fwdPkgs s) lnks pend snt) [] [] u a l ∅) id) as Hmono.
  { intros id (n & Hn & Hf). by exists n. }
  split; cbn; unfold map_of; cbn; auto.
  - intros id Hs. apply Iloc. destruct (circuit_step_new OpRestart _ _ _ _ I1 Logic.I Hr Hs) as [?|(? & ? & ? & ? & _)]; [done|discriminate].
  - intros id Hid. destruct (I3 id Hid) as [Hm|?]; [left; apply Hk; [done|intros; discriminate]|auto].
  - intros p st Hp. by apply not_elem_of_nil in Hp.
  - intros id Hp. by apply not_elem_of_nil in Hp.
  - intros id c Hc. rewrite lookup_empty in Hc. by apply not_elem_of_nil in Hc.
  - intros id. rewrite lookup_empty. constructor.
  - intros c id Hc. by rewrite lookup_empty in Hc.
Qed.

Lemma step_inv x y : inv x -> step x y -> inv y.
Proof.
  intros I H. destruct H;
    [eapply send_inv|eapply forward_inv|eapply response_inv|eapply store_inv|eapply ack_inv|eapply delete_inv
    |eapply look_inv|eapply await_inv|eapply clean_inv|eapply restart_inv]; eassumption.
Qed.

Lemma start_inv fwd lnks : inv (mkSystem (mkSwitch newMap (newNetworkResultStore None) fwd lnks [] []) [] [] ∅ ∅ [] ∅).
Proof.
  split; cbn; unfold map_of; cbn; try set_solver; try (intros *; rewrite lookup_empty); try done.
  - apply newMap_inv.
  - intros id. rewrite omap_empty, lookup_empty. by intros [? ?].
  - constructor.
Qed.

Lemma payments_inv x : reachable x -> inv x.
Proof. induction 1; [apply start_inv|by eapply step_inv]. Qed.

(** Nobody who asks for the result of a kept attempt is told that it is unknown. *)
Lemma await_found x known id : inv x -> id ∈ attempts x -> (known = false -> stored x id) ->
  exists c s', awaitResult known true id (sw x) = (Ok c, s').
Proof.
  destruct x as [s t g u a l k]. intros I Ha Hs. cbn in Ha. cbn [sw].
  assert (in_u 64 id) as Hid by (destruct (inv_used _ I) as (Hu & _ & Hw); apply Hw, Hu, Ha).
  destruct (awaitResult known true id s) as [r s'] eqn:E.
  destruct (awaitResult_spec _ _ _ _ _ _ _ _ _ _ _ _ I Hid E) as [_ [(_ & _ & H)|[(-> & _)|(-> & _)]]]; [|by eauto..].
  destruct (H eq_refl) as (-> & _ & Hf). destruct (Hs eq_refl) as (n & _ & Hn). cbn in Hn. congruence.
Qed.

(** A payment that timed out on chain is reported as such from memory.  From disk it is not:
    the reason is not nil any more, and it is given to the decrypter. *)
Lemma loaded_timeout (deobfuscator : list byte -> option ForwardingError) n :
  n_unencrypted n = false -> n_isResolution n = true -> n_nilReason n = true -> deobfuscator [] = None ->
  parseFailedPayment deobfuscator n [] = PaymentLinkError (NewDetailedLinkError FailPermanentChannelFailure OutgoingFailureOnChainTimeout) /\
  parseFailedPayment deobfuscator (loaded n) [] = ErrUnreadableFailureMessage.
Proof. intros Hu Hr Hn Hd. unfold parseFailedPayment, loaded. cbn. by rewrite Hu, Hr, Hn, Hd. Qed.

End payments.

(** * A switch with concrete libraries

    Runs of the switch in which the hypotheses of its theorems hold: a batch with a duplicate,
    and a payment that is answered while a caller waits. *)

#[local] Existing Instances btcec_model btcec_model_laws tlv_model tlv_model_laws
  zlib_model zlib_model_laws tor_model tor_model_laws sphinx_model OnionError.varint_model.

(** ** A batch *)

Definition add_message (i : Z) : UpdateAddHTLC.t :=
  UpdateAddHTLC.mk (replicate 32 x01) i 0 1990 (replicate 32 x11) 500 (replicate 1366 x00) [].

Definition settle_message : message := MUpdateFulfillHTLC (UpdateFulfillHTLC.mk (replicate 32 x05) 3 (replicate 32 x09) []).

Definition fail_message : message := MUpdateFailHTLC (UpdateFailHTLC.mk (replicate 32 x05) 3 [x20; x02] []).

Definition add_packet (ch : ShortChannelID) (i : Z) : htlcPacket :=
  set_source (mkCircuitKey ch i) 0%nat (mkAddRef 7 0) (zeroPacket (MUpdateAddHTLC (add_message i))).

Definition settle_packet : htlcPacket := zeroPacket settle_message.

(** The second add repeats the first. *)
Definition batch : list htlcPacket :=
  [add_packet chan_a 0; settle_packet; add_packet chan_a 0; add_packet chan_b 5].

(** One link of the switch. *)
Definition one_link : LinkIndexes := mkIndexes ∅ ∅ ∅ {[chan_c := 0%nat]} ∅.

Definition new_switch : Switch := mkSwitch newMap (newNetworkResultStore None) None one_link [] [].

(** The libraries encrypt nothing. *)
Definition plainError (_ : SphinxErrorEncrypter) (_ : bool) (m : list byte) : list byte := m.

Lemma ForwardPackets_routes_witness :
  let s' := (ForwardPackets plainError false always true None batch new_switch).2 in
  strip <$> sent s' = strip <$> [settle_packet; add_packet chan_a 0; add_packet chan_b 5] /\
  exists c, pending (Switch.circuits s') !! key_b = Some c /\ is_Some (circuitBkt (Switch.circuits s') !! CircuitKeys.Bytes key_b).
Proof.
  destruct (ForwardPackets_routes plainError true None batch new_switch) as [H1 H2].
  { intros k q H. cbn in H. by rewrite lookup_empty in H. }
  split; [exact H1|]. destruct (H2 (add_packet chan_b 5)) as (c & Hc & _ & Hd); [apply list_elem_of_further, list_elem_of_here|]. by exists c.
Defined.

(** ** A payment *)

Definition sent_switch : Switch :=
  (SendHTLC (fun _ => true) (fun _ => None) true true chan_c 7 (add_message 0) new_switch).2.

(** The link fails the HTLC before it has an outgoing identifier. *)
Definition answer : htlcPacket :=
  {| incomingChanID := Source; outgoingChanID := chan_c; incomingHTLCID := 7; outgoingHTLCID := 0; sourceRef := None;
     destRef := None; incomingAmount := 0; amount := 0; assetId := 0; htlc := fail_message; nilReason := false;
     obfuscator := None; localFailure := true; linkFailure := None; convertedError := false; hasSource := true;
     isResolution := false; circuit := Some 0%nat; incomingTimeout := 0; outgoingTimeout := 0; customRecords := [] |}.

Definition answered_switch : Switch := (closeCircuit answer sent_switch).2.
Definition stored_switch : Switch := (respondStore true answer answered_switch).2.

(** A caller saw the circuit; the result was stored since, and its circuit is to be deleted. *)
Definition answered_system : system :=
  mkSystem stored_switch [(answer, ToAck)] [(7, true)] {[7]} {[7]} [(7, responseOf answer)] ∅.

Lemma answer_storable : storable_result (responseOf answer).
Proof. split_and!; [|done|by vm_compute]. cbn. unfold UpdateFailHTLC.wf, in_u. cbn. split_and!; try done; lia. Qed.

Lemma attempt_sends : SendHTLC (fun _ => true) (fun _ => None) true true chan_c 7 (add_message 0) new_switch = (Ok tt, sent_switch).
Proof. vm_compute. reflexivity. Qed.

Lemma answer_closes : closeCircuit answer sent_switch = (Ok (Some 0%nat), answer, answered_switch).
Proof. vm_compute. reflexivity. Qed.

Lemma answer_stores : respondStore true answer answered_switch = (Ok tt, stored_switch).
Proof. vm_compute. reflexivity. Qed.

(** The attempt is sent, a caller looks, the response arrives and is stored. *)
Lemma answered_reachable : reachable answered_system.
Proof.
  eapply reachable_step; [|exact (step_store _ [] [] _ _ _ _ _ _ _ _ _ answer_stores)].
  eapply reachable_step; [|eapply (step_response _ _ _ _ _ _ _ _ _ _ _ answer_closes eq_refl answer_storable)].
  eapply reachable_step; [|apply (step_look sent_switch [] [] {[7]} {[7]} [] ∅ 7); set_solver].
  replace ({[7]} : gset Z) with ({[7]} ∪ ∅ : gset Z) by set_solver.
  eapply reachable_step; [apply (reachable_start None one_link)|].
  eapply (step_send _ (Ok tt)); [..|exact attempt_sends]; [apply not_elem_of_empty|unfold in_u; lia|reflexivity].
Qed.

