(* ===== verification/HopRecords.v ===== *)
(** * record: the records of an onion payload

    record/mpp.go, amp.go, hop.go and custom_records.go over the TLV library.  A record is its
    type and the bytes of its value; integers are written without leading zeros, which is what
    the class [TlvValues] stands for. *)

From Stdlib Require Import ZArith Lia Sorted.
From S2P Require Import Prelude Wire Features WireMessages WireTlv WireModels.

Local Open Scope Z_scope.
Local Open Scope go_scope.

(** ** Values of the TLV library *)

Class TlvValues := {
  ETUint64 : Z -> list byte;
  DTUint64 : list byte -> option Z;
  SizeTUint64 : Z -> Z;
  ETUint32 : Z -> list byte;
  DTUint32 : list byte -> option Z;
  SizeTUint32 : Z -> Z;
  VarIntSize : Z -> Z;
  MapToRecords : gmap Z (list byte) -> list tlv_record;
}.

(** Truncated integers are big-endian without leading zeros; a map becomes the list of its
    records; a stream has the type, the length and the value of each record. *)
Class TlvValueLaws `{!TlvValues, !Tlv} : Prop := {
  tu64_rt : forall n, in_u 64 n -> DTUint64 (ETUint64 n) = Some n;
  tu64_size : forall n, in_u 64 n -> Z.of_nat (length (ETUint64 n)) = SizeTUint64 n /\ SizeTUint64 n <= 8;
  tu64_value : forall bs n, DTUint64 bs = Some n -> n = be_get bs /\ Z.of_nat (length bs) <= 8;
  tu64_minimal : forall bs, DTUint64 (x00 :: bs) = None;
  tu32_rt : forall n, in_u 32 n -> DTUint32 (ETUint32 n) = Some n;
  tu32_size : forall n, in_u 32 n -> Z.of_nat (length (ETUint32 n)) = SizeTUint64 n /\ SizeTUint32 n = SizeTUint64 n /\ SizeTUint64 n <= 4;
  map_records : forall m, MapToRecords m ≡ₚ map_to_list m;
  stream_size : forall l bs, StreamEncode l = Some bs ->
    Z.of_nat (length bs) = foldr (fun r n => VarIntSize r.1 + VarIntSize (Z.of_nat (length r.2)) + Z.of_nat (length r.2) + n) 0 l;
}.

(** ** The records *)

Definition MPPOnionType : Z := 8.
Definition AMPOnionType : Z := 14.
Definition AmtOnionType : Z := 2.
Definition LockTimeOnionType : Z := 4.
Definition NextHopOnionType : Z := 6.
Definition CustomTypeStart : Z := 65536.
Definition KeySendType : Z := 5482373484.

Record MPP := mkMPP { mpp_paymentAddr : list byte; mpp_totalMsat : Z; mpp_assetId : Z }.

Definition NewMPP (total : Z) (addr : list byte) (assetId : Z) : MPP := mkMPP addr total assetId.

Record AMP := mkAMP { amp_rootShare : list byte; amp_setID : list byte; amp_childIndex : Z }.

Definition NewAMP (rootShare setID : list byte) (childIndex : Z) : AMP := mkAMP rootShare setID childIndex.

Section records.
Context {TV : TlvValues}.

Definition MPPEncoder (v : MPP) : list byte :=
  mpp_paymentAddr v ++ be_put 4 (mpp_assetId v) ++ ETUint64 (mpp_totalMsat v).

Definition minMPPLength : Z := 32.
Definition maxMPPLength : Z := 44.

(** The value of a record of [l] bytes; a read beyond its end fails. *)
Definition MPPDecoder (val : list byte) : option MPP :=
  let l := Z.of_nat (length val) in
  if bool_decide (minMPPLength <= l <= maxMPPLength) then
    if bool_decide (l < 36) then None
    else
      total ← DTUint64 (drop 36 val);
      Some (mkMPP (take 32 val) total (be_get (take 4 (drop 32 val))))
  else None.

Definition MPP_PayloadSize (r : MPP) : Z := u64 (32 + 4 + SizeTUint64 (mpp_totalMsat r)).

Definition MPP_Record (r : MPP) : tlv_record := (MPPOnionType, MPPEncoder r).

Definition AMPEncoder (v : AMP) : list byte :=
  amp_rootShare v ++ amp_setID v ++ ETUint32 (amp_childIndex v).

Definition minAMPLength : Z := 64.
Definition maxAMPLength : Z := 68.

Definition AMPDecoder (val : list byte) : option AMP :=
  let l := Z.of_nat (length val) in
  if bool_decide (minAMPLength <= l <= maxAMPLength) then
    index ← DTUint32 (drop 64 val);
    Some (mkAMP (take 32 val) (take 32 (drop 32 val)) index)
  else None.

Definition AMP_PayloadSize (a : AMP) : Z := u64 (32 + 32 + SizeTUint32 (amp_childIndex a)).

Definition AMP_Record (a : AMP) : tlv_record := (AMPOnionType, AMPEncoder a).

Definition NewAmtToFwdRecord (amt : Z) : tlv_record := (AmtOnionType, ETUint64 amt).
Definition NewLockTimeRecord (lockTime : Z) : tlv_record := (LockTimeOnionType, ETUint32 lockTime).
Definition NewNextHopIDRecord (cid : Z) : tlv_record := (NextHopOnionType, be_put 8 cid).

(** Whether all types are custom ones. *)
Definition CustomSet_Validate (c : gmap Z (list byte)) : bool :=
  forallb (fun kv => bool_decide (CustomTypeStart <= kv.1)) (map_to_list c).

Definition wf_mpp (m : MPP) : Prop :=
  length (mpp_paymentAddr m) = 32%nat /\ in_u 64 (mpp_totalMsat m) /\ in_u 32 (mpp_assetId m).

Definition wf_amp (a : AMP) : Prop :=
  length (amp_rootShare a) = 32%nat /\ length (amp_setID a) = 32%nat /\ in_u 32 (amp_childIndex a).

(** ** Properties *)

Context {TL : Tlv} {TVL : TlvValueLaws}.

Lemma length_MPPEncoder m : wf_mpp m -> Z.of_nat (length (MPPEncoder m)) = 36 + SizeTUint64 (mpp_totalMsat m).
Proof.
  intros (Ha & Ht & _). unfold MPPEncoder. rewrite !length_app, length_be_put, Ha.
  destruct (tu64_size _ Ht) as [<- _]. lia.
Qed.

Lemma MPP_size m : wf_mpp m -> MPP_PayloadSize m = Z.of_nat (length (MPPEncoder m)).
Proof.
  intros H. rewrite length_MPPEncoder by done. unfold MPP_PayloadSize, u64. destruct H as (_ & Ht & _).
  destruct (tu64_size _ Ht). rewrite Z.mod_small; lia.
Qed.

(** A record of this repository is read back by its own decoder. *)
Lemma MPP_rt m : wf_mpp m -> MPPDecoder (MPPEncoder m) = Some m.
Proof.
  intros Hw. unfold MPPDecoder. rewrite (length_MPPEncoder m Hw). pose proof Hw as (Ha & Ht & Hi). destruct (tu64_size _ Ht) as [Hs Hs'].
  rewrite bool_decide_eq_true_2 by (unfold minMPPLength, maxMPPLength; lia). rewrite bool_decide_eq_false_2 by lia.
  unfold MPPEncoder. rewrite (drop_app_length' _ _ 32%nat), (take_app_length' _ _ 32%nat) by done.
  rewrite (take_app_length' _ _ 4%nat) by (by rewrite length_be_put). rewrite app_assoc, drop_app_length' by (rewrite length_app, length_be_put; lia).
  rewrite tu64_rt by done. cbn. rewrite be_get_put_id by (unfold in_u in Hi; cbn; lia). by destruct m.
Qed.

Lemma length_AMPEncoder a : wf_amp a -> Z.of_nat (length (AMPEncoder a)) = 64 + SizeTUint32 (amp_childIndex a).
Proof.
  intros (Ha & Hs & Hi). unfold AMPEncoder. rewrite !length_app, Ha, Hs. destruct (tu32_size _ Hi) as (E & -> & _). lia.
Qed.

Lemma AMP_size a : wf_amp a -> AMP_PayloadSize a = Z.of_nat (length (AMPEncoder a)).
Proof.
  intros H. rewrite length_AMPEncoder by done. unfold AMP_PayloadSize, u64. destruct H as (_ & _ & Hi).
  destruct (tu32_size _ Hi) as (? & ? & ?). rewrite Z.mod_small; lia.
Qed.

Lemma AMP_rt a : wf_amp a -> AMPDecoder (AMPEncoder a) = Some a.
Proof.
  intros Hw. unfold AMPDecoder. rewrite (length_AMPEncoder a Hw). pose proof Hw as (Ha & Hs & Hi). destruct (tu32_size _ Hi) as (E & E' & ?).
  rewrite bool_decide_eq_true_2 by (unfold minAMPLength, maxAMPLength; lia).
  unfold AMPEncoder. rewrite (take_app_length' _ _ 32%nat), (drop_app_length' _ _ 32%nat), (take_app_length' _ _ 32%nat) by done.
  rewrite app_assoc, drop_app_length' by (rewrite length_app; lia). rewrite tu32_rt by done. by destruct a.
Qed.
End records.
