(* ===== verification/Amp.v ===== *)
(** * amp and routing/shards: the shards of a payment

    amp/sharer.go, child.go, shard_tracker.go and routing/shards/shard_tracker.go.  A payment is
    split into shards, each with its own hash: with one hash for all of them
    ([SimpleShardTracker]), or with shares of a root secret from which the receiver derives all
    preimages once it has every share ([AmpTracker]).  The class [ShardTracker] is the Go
    interface of both.  SHA-256 is a function of the section, a random read an argument: the
    bytes, or nothing when it fails. *)

From Stdlib Require Import ZArith Lia.
From S2P Require Import Prelude Wire Features WireMessages WireTlv HopRecords.

Local Open Scope Z_scope.
Local Open Scope go_scope.

(** ** Shares *)

Definition byte_xor (a b : byte) : byte := byte_of_Z (Z.lxor (byte_Z a) (byte_Z b)).

(** [z.Xor(x, y)] *)
Definition Xor (x y : list byte) : list byte := zip_with byte_xor x y.

Definition zeroShare : list byte := replicate 32 x00.

Record ChildDesc := mkDesc { Share : list byte; Index : Z }.

Record Child := mkChild { desc : ChildDesc; Preimage : list byte; Hash : list byte }.

Inductive shard_err : Type := ErrRand | ErrZeroSharer | ErrPidNotFound | ErrShardNotFound.

(** ** The interface of the trackers

    [NewShard] takes the random bytes it reads. *)
Record randoms := mkRandoms { childIndex : option (list byte); leftShare : option (list byte) }.

Record PaymentShard := mkShard { shard_Hash : list byte; shard_MPP : option MPP; shard_AMP : option AMP }.

Class ShardTracker (T : Type) := {
  NewShard : randoms -> Z -> bool -> T -> outcome shard_err PaymentShard * T;
  CancelShard : Z -> T -> outcome shard_err unit * T;
  GetHash : Z -> T -> outcome shard_err (list byte);
}.

(** What a tracker promises: the hash of an attempt is the one its shard was made with, until
    the shard is cancelled; a failure changes nothing. *)
Class ShardTrackerLaws T `{!ShardTracker T} : Prop := {
  new_shard_hash : forall rnd pid last t,
    match NewShard rnd pid last t with
    | (Ok sh, t') => GetHash pid t' = Ok (shard_Hash sh) /\ forall p, p <> pid -> GetHash p t' = GetHash p t
    | (Err _, t') => t' = t
    | (Panic, _) => False
    end;
  cancel_shard_hash : forall pid t,
    match CancelShard pid t with
    | (Ok _, t') => is_ok (GetHash pid t') = false /\ forall p, p <> pid -> GetHash p t' = GetHash p t
    | (Err _, t') => t' = t /\ is_ok (GetHash pid t) = false
    | (Panic, _) => False
    end;
}.

(** ** One hash for all shards (routing/shards) *)

Record SimpleShardTracker := mkSimple { s_hash : list byte; s_shards : gmap Z (list byte) }.

Definition NewSimpleShardTracker (paymentHash : list byte) (shards : option (gmap Z (list byte))) : SimpleShardTracker :=
  mkSimple paymentHash (default ∅ shards).

Definition Simple_NewShard (id : Z) (m : SimpleShardTracker) : outcome shard_err PaymentShard * SimpleShardTracker :=
  (Ok (mkShard (s_hash m) None None), mkSimple (s_hash m) (<[id := s_hash m]> (s_shards m))).

Definition Simple_CancelShard (id : Z) (m : SimpleShardTracker) : outcome shard_err unit * SimpleShardTracker :=
  (Ok tt, mkSimple (s_hash m) (delete id (s_shards m))).

Definition Simple_GetHash (id : Z) (m : SimpleShardTracker) : outcome shard_err (list byte) :=
  match s_shards m !! id with Some h => Ok h | None => Err ErrShardNotFound end.

#[global] Instance simple_tracker : ShardTracker SimpleShardTracker := {|
  NewShard _ pid _ m := Simple_NewShard pid m;
  CancelShard := Simple_CancelShard;
  GetHash := Simple_GetHash;
|}.

(** ** Shares of a root secret (amp) *)

Record SeedSharer := mkSharer { root : list byte; curr : list byte }.

Definition initSeedSharer (r c : list byte) : SeedSharer := mkSharer r c.
Definition SeedSharerFromRoot (r : list byte) : SeedSharer := initSeedSharer r r.
Definition NewSeedSharer (rnd : option (list byte)) : outcome shard_err SeedSharer :=
  match rnd with Some r => Ok (SeedSharerFromRoot r) | None => Err ErrRand end.
Definition Root (s : SeedSharer) : list byte := root s.

Definition split (rnd : option (list byte)) (parent : list byte) : outcome shard_err (list byte * list byte) :=
  match rnd with Some l => Ok (l, Xor parent l) | None => Err ErrRand end.

Definition Split (rnd : option (list byte)) (s : SeedSharer) : outcome shard_err (SeedSharer * SeedSharer) :=
  if bool_decide (curr s = zeroShare) then Err ErrZeroSharer
  else '(shareLeft, shareRight) <~ split rnd (curr s) ; Ok (initSeedSharer (root s) shareLeft, initSeedSharer (root s) shareRight).

Definition Merge (child : Child) (s : SeedSharer) : SeedSharer := initSeedSharer (root s) (Xor (curr s) (Share (desc child))).
Definition Zero (s : SeedSharer) : SeedSharer := initSeedSharer (root s) zeroShare.

Record AmpTracker := mkTracker {
  setID : list byte;
  paymentAddr : list byte;
  totalAmt : Z;
  assetId : Z;
  sharer : SeedSharer;
  shards : gmap Z Child;
}.

(** The asset is not recorded. *)
Definition NewShardTracker (r sid payAddr : list byte) (total asset : Z) : AmpTracker :=
  {| setID := sid; paymentAddr := payAddr; totalAmt := total; assetId := 0; sharer := SeedSharerFromRoot r; shards := ∅ |}.

Definition set_shards (t : AmpTracker) (s : SeedSharer) (m : gmap Z Child) : AmpTracker :=
  {| setID := setID t; paymentAddr := paymentAddr t; totalAmt := totalAmt t; assetId := assetId t; sharer := s; shards := m |}.

Section amp.
Variable sha256 : list byte -> list byte.

Definition DeriveChild (r : list byte) (d : ChildDesc) : Child :=
  let preimage := sha256 (r ++ Share d ++ be_put 4 (Index d)) in
  mkChild d preimage (sha256 preimage).

Definition Sharer_Child (index : Z) (s : SeedSharer) : Child := DeriveChild (root s) (mkDesc (curr s) index).

Definition ReconstructChildren (descs : list ChildDesc) : list Child :=
  let r := foldl (fun r d => Xor r (Share d)) zeroShare descs in
  DeriveChild r <$> descs.

Definition Amp_NewShard (rnd : randoms) (pid : Z) (last : bool) (s : AmpTracker) :
    outcome shard_err PaymentShard * AmpTracker :=
  match childIndex rnd with
  | None => (Err ErrRand, s)
  | Some bs =>
      let idx := be_get bs in
      let made :=
        if last then Ok (Sharer_Child idx (sharer s), Zero (sharer s))
        else '(l, r) <~ Split (leftShare rnd) (sharer s) ; Ok (Sharer_Child idx l, r) in
      match made with
      | Ok (child, sharer') =>
          (Ok (mkShard (Hash child) (Some (NewMPP (totalAmt s) (paymentAddr s) (assetId s)))
                       (Some (NewAMP (Share (desc child)) (setID s) (Index (desc child))))),
           set_shards s sharer' (<[pid := child]> (shards s)))
      | Err e => (Err e, s)
      | Panic => (Panic, s)
      end
  end.

Definition Amp_CancelShard (pid : Z) (s : AmpTracker) : outcome shard_err unit * AmpTracker :=
  match shards s !! pid with
  | None => (Err ErrPidNotFound, s)
  | Some c => (Ok tt, set_shards s (Merge c (sharer s)) (delete pid (shards s)))
  end.

Definition Amp_GetHash (pid : Z) (s : AmpTracker) : outcome shard_err (list byte) :=
  match shards s !! pid with Some c => Ok (Hash c) | None => Err ErrShardNotFound end.

Definition amp_tracker : ShardTracker AmpTracker := {|
  NewShard := Amp_NewShard;
  CancelShard := Amp_CancelShard;
  GetHash := Amp_GetHash;
|}.

(** ** Runs of a tracker *)

Inductive shard_op : Type := OpNewShard (rnd : randoms) (pid : Z) (last : bool) | OpCancelShard (pid : Z).

Definition run_shard {T} `{!ShardTracker T} (op : shard_op) (t : T) : T :=
  match op with OpNewShard rnd pid last => (NewShard rnd pid last t).2 | OpCancelShard pid => (CancelShard pid t).2 end.

(** The hash of every attempt, from the results alone. *)
Definition record_shard {T} `{!ShardTracker T} (op : shard_op) (t : T) (m : gmap Z (list byte)) : gmap Z (list byte) :=
  match op with
  | OpNewShard rnd pid last => match (NewShard rnd pid last t).1 with Ok sh => <[pid := shard_Hash sh]> m | _ => m end
  | OpCancelShard pid => match (CancelShard pid t).1 with Ok _ => delete pid m | _ => m end
  end.

Fixpoint run_shards {T} `{!ShardTracker T} (ops : list shard_op) (t : T) (m : gmap Z (list byte)) : T * gmap Z (list byte) :=
  match ops with [] => (t, m) | op :: ops => run_shards ops (run_shard op t) (record_shard op t m) end.

(** Random reads fill their arrays; an attempt identifier is used for one shard. *)
Fixpoint shard_ops_ok (used : list Z) (ops : list shard_op) : Prop :=
  match ops with
  | [] => True
  | OpNewShard rnd pid _ :: ops =>
      (forall bs, leftShare rnd = Some bs -> length bs = 32%nat) /\ pid ∉ used /\ shard_ops_ok (pid :: used) ops
  | OpCancelShard _ :: ops => shard_ops_ok used ops
  end.

(** The shares that are out, combined. *)
Definition combined (l : list (list byte)) : list byte := foldr Xor zeroShare l.

Definition outstanding (t : AmpTracker) : list Child := (map_to_list (shards t)).*2.
End amp.

Arguments run_shard {_ _} _ _.
Arguments record_shard {_ _} _ _ _.
Arguments run_shards {_ _} _ _ _.

(** ** Exclusive or *)

Lemma byte_xor_Z a b : byte_Z (byte_xor a b) = Z.lxor (byte_Z a) (byte_Z b).
Proof.
  unfold byte_xor. rewrite byte_Z_of_Z. unfold u8. apply Z.mod_small.
  pose proof (byte_Z_range a) as Ha. pose proof (byte_Z_range b) as Hb.
  assert (0 <= Z.lxor (byte_Z a) (byte_Z b)) by (apply Z.lxor_nonneg; lia). split; [done|].
  destruct (decide (Z.lxor (byte_Z a) (byte_Z b) = 0)) as [->|]; [done|]. apply Z.log2_lt_pow2; [lia|].
  assert (Z.log2 (byte_Z a) <= 7 /\ Z.log2 (byte_Z b) <= 7) as [? ?].
  { change 7 with (Z.log2 255). split; apply Z.log2_le_mono; lia. }
  eapply Z.le_lt_trans; [apply Z.log2_lxor; lia|lia].
Qed.

Lemma byte_Z_inj a b : byte_Z a = byte_Z b -> a = b.
Proof. intros H. rewrite <- (byte_of_Z_byte a), H. apply byte_of_Z_byte. Qed.

Ltac byte_xor_tac := apply byte_Z_inj; rewrite !byte_xor_Z.

Lemma byte_xor_comm a b : byte_xor a b = byte_xor b a.
Proof. byte_xor_tac. apply Z.lxor_comm. Qed.

Lemma byte_xor_assoc a b c : byte_xor a (byte_xor b c) = byte_xor (byte_xor a b) c.
Proof. byte_xor_tac. symmetry. apply Z.lxor_assoc. Qed.

Lemma byte_xor_0 a : byte_xor x00 a = a.
Proof. byte_xor_tac. apply Z.lxor_0_l. Qed.

Lemma byte_xor_self a : byte_xor a a = x00.
Proof. byte_xor_tac. apply Z.lxor_nilpotent. Qed.

#[global] Instance Xor_comm : Comm (=) Xor.
Proof. intros x. induction x as [|a x IH]; intros [|b y]; [done..|]. cbn. f_equal; [apply byte_xor_comm|apply IH]. Qed.

#[global] Instance Xor_assoc : Assoc (=) Xor.
Proof.
  intros x. induction x as [|a x IH]; intros [|b y] [|c z]; [done..|]. cbn. f_equal; [apply byte_xor_assoc|apply IH].
Qed.

Lemma length_Xor x y : length x = length y -> length (Xor x y) = length y.
Proof. intros H. unfold Xor. rewrite length_zip_with. lia. Qed.

Lemma Xor_replicate x : Xor (replicate (length x) x00) x = x.
Proof. induction x as [|a x IH]; [done|]. cbn. f_equal; [apply byte_xor_0|exact IH]. Qed.

Lemma Xor_zero x : length x = 32%nat -> Xor zeroShare x = x.
Proof. intros H. unfold zeroShare. rewrite <- H. apply Xor_replicate. Qed.

Lemma Xor_self x : length x = 32%nat -> Xor x x = zeroShare.
Proof.
  intros H. unfold zeroShare. rewrite <- H. clear H. induction x as [|a x IH]; [done|]. cbn. f_equal; [apply byte_xor_self|exact IH].
Qed.

Lemma Xor_cancel x y : length x = 32%nat -> length y = 32%nat -> Xor x (Xor x y) = y.
Proof. intros Hx Hy. by rewrite (assoc Xor), Xor_self, Xor_zero. Qed.

Arguments Xor : simpl never.

#[global] Instance combined_perm : Proper ((≡ₚ) ==> (=)) combined.
Proof.
  intros l l' H. unfold combined. induction H as [|x l l' H IH|x y l|l1 l2 l3 _ IH1 _ IH2]; [done|exact (f_equal (Xor x) IH)| |congruence]. cbn [foldr].
  by rewrite !(assoc Xor), (comm Xor x y).
Qed.

Lemma length_combined l : Forall (fun x => length x = 32%nat) l -> length (combined l) = 32%nat.
Proof. induction 1 as [|x l Hx _ IH]; [done|]. change (length (Xor x (combined l)) = 32%nat). rewrite length_Xor; congruence. Qed.

Lemma foldl_combined descs : Forall (fun d => length (Share d) = 32%nat) descs ->
  foldl (fun r d => Xor r (Share d)) zeroShare descs = combined (Share <$> descs).
Proof.
  intros H. assert (forall r, length r = 32%nat -> foldl (fun r d => Xor r (Share d)) r descs = Xor r (combined (Share <$> descs))) as Hgo.
  { induction H as [|d ds Hd Hds IH]; intros r Hr; cbn.
    - rewrite (comm Xor). by rewrite Xor_zero.
    - rewrite IH by (rewrite length_Xor; congruence). by rewrite (assoc Xor). }
  rewrite Hgo by done. apply Xor_zero, length_combined. by apply Forall_fmap.
Qed.

(** ** The interface *)

#[global] Instance simple_tracker_laws : ShardTrackerLaws SimpleShardTracker.
Proof.
  split.
  - intros rnd pid last t. cbn. unfold Simple_GetHash. cbn. rewrite lookup_insert_eq. split; [done|]. intros p Hp. by rewrite lookup_insert_ne.
  - intros pid t. cbn. unfold Simple_GetHash. cbn. rewrite lookup_delete_eq. split; [done|]. intros p Hp. by rewrite lookup_delete_ne.
Qed.

Lemma amp_tracker_laws sha256 : @ShardTrackerLaws AmpTracker (amp_tracker sha256).
Proof.
  split.
  - intros rnd pid last t. cbn [NewShard amp_tracker GetHash]. unfold Amp_NewShard. destruct (childIndex rnd) as [bs|]; [|done].
    assert (forall child s, Amp_GetHash pid (set_shards t s (<[pid := child]> (shards t))) = Ok (Hash child) /\
      forall p, p <> pid -> Amp_GetHash p (set_shards t s (<[pid := child]> (shards t))) = Amp_GetHash p t) as Hgo.
    { intros child s. unfold Amp_GetHash. cbn. rewrite lookup_insert_eq. split; [done|]. intros p Hp. by rewrite lookup_insert_ne. }
    destruct last; [apply Hgo|]. unfold Split, split. case_bool_decide; [done|]. destruct (leftShare rnd); cbn [obind]; [apply Hgo|done].
  - intros pid t. cbn [CancelShard amp_tracker GetHash]. unfold Amp_CancelShard, Amp_GetHash. destruct (shards t !! pid) as [c|] eqn:E; [|done].
    cbn. rewrite lookup_delete_eq. split; [done|]. intros p Hp. by rewrite lookup_delete_ne.
Qed.

(** The hashes a tracker reports are those its shards were made with. *)
Lemma hashes_recorded {T} `{!ShardTracker T, !ShardTrackerLaws T} ops (t : T) m :
  (forall pid h, GetHash pid t = Ok h <-> m !! pid = Some h) ->
  forall pid h, GetHash pid (run_shards ops t m).1 = Ok h <-> (run_shards ops t m).2 !! pid = Some h.
Proof.
  revert t m. induction ops as [|op ops IH]; intros t m H; [exact H|]. cbn [run_shards]. apply IH. intros pid h.
  destruct op as [rnd p last|p]; cbn [run_shard record_shard].
  - pose proof (new_shard_hash rnd p last t) as L. destruct (NewShard rnd p last t) as [[sh|e|] t']; cbn [fst snd]; [|by subst t'|done].
    destruct L as [L1 L2]. destruct (decide (pid = p)) as [->|Hne].
    + rewrite L1, lookup_insert_eq. naive_solver.
    + by rewrite L2, lookup_insert_ne.
  - pose proof (cancel_shard_hash p t) as L. destruct (CancelShard p t) as [[u|e|] t']; cbn [fst snd]; [|destruct L as [-> _]; apply H|done].
    destruct L as [L1 L2]. destruct (decide (pid = p)) as [->|Hne].
    + rewrite lookup_delete_eq. destruct (GetHash p t'); naive_solver.
    + by rewrite L2, lookup_delete_ne.
Qed.

(** ** The shares of an AMP payment *)

Section shares.
Variable sha256 : list byte -> list byte.
#[local] Instance tracker : ShardTracker AmpTracker := amp_tracker sha256.

Record amp_inv (r : list byte) (used : list Z) (t : AmpTracker) : Prop := {
  amp_root : root (sharer t) = r;
  amp_curr : length (curr (sharer t)) = 32%nat;
  amp_children pid c : shards t !! pid = Some c -> pid ∈ used /\ length (Share (desc c)) = 32%nat /\ c = DeriveChild sha256 r (desc c);
  amp_shares : Xor (combined ((Share ∘ desc) <$> outstanding t)) (curr (sharer t)) = r;
}.

Lemma outstanding_insert t s pid c : shards t !! pid = None ->
  outstanding (set_shards t s (<[pid := c]> (shards t))) ≡ₚ c :: outstanding t.
Proof. intros H. unfold outstanding. cbn. by rewrite map_to_list_insert. Qed.

Lemma outstanding_delete t s pid c : shards t !! pid = Some c ->
  outstanding t ≡ₚ c :: outstanding (set_shards t s (delete pid (shards t))).
Proof. intros H. unfold outstanding. cbn. by rewrite <- (map_to_list_delete (shards t) pid c H). Qed.

Lemma outstanding_share r used t : amp_inv r used t -> Forall (fun c => length (Share (desc c)) = 32%nat) (outstanding t).
Proof.
  intros I. apply Forall_forall. intros c Hc. apply list_elem_of_fmap in Hc as ([pid c'] & -> & Hin).
  apply elem_of_map_to_list in Hin. by apply (amp_children _ _ _ I) in Hin as (_ & ? & _).
Qed.

Lemma new_child r used t pid s c : amp_inv r used t -> pid ∉ used -> root s = r -> length (curr s) = 32%nat ->
  length (Share (desc c)) = 32%nat -> c = DeriveChild sha256 r (desc c) ->
  Xor (Share (desc c)) (curr s) = curr (sharer t) ->
  amp_inv r (pid :: used) (set_shards t s (<[pid := c]> (shards t))).
Proof.
  intros I Hpid Hr Hc Hl Hd Hx. assert (shards t !! pid = None) as Hn.
  { destruct (shards t !! pid) as [c'|] eqn:E; [|done]. by apply (amp_children _ _ _ I) in E as (? & _). }
  split; cbn [sharer shards set_shards]; [done..| |].
  - intros p c' H. destruct (decide (p = pid)) as [->|Hne].
    + rewrite lookup_insert_eq in H. injection H as <-. split_and!; [by left|done..].
    + rewrite lookup_insert_ne in H by done. apply (amp_children _ _ _ I) in H as (? & ? & ?). split_and!; [by right|done..].
  - rewrite outstanding_insert by done. cbn. rewrite <- (amp_shares _ _ _ I), <- Hx.
    by rewrite (comm Xor (Share (desc c))), <- (assoc Xor).
Qed.

Lemma new_shard_inv r used t rnd pid last : amp_inv r used t -> pid ∉ used ->
  (forall bs, leftShare rnd = Some bs -> length bs = 32%nat) ->
  amp_inv r (pid :: used) (NewShard rnd pid last t).2.
Proof.
  intros I Hpid Hb. cbn [NewShard tracker amp_tracker]. unfold Amp_NewShard.
  assert (amp_inv r (pid :: used) t) as Hw.
  { destruct I as [I1 I2 I3 I4]. split; [done..| |done]. intros p c H. apply I3 in H as (? & ? & ?). split_and!; [by right|done..]. }
  destruct (childIndex rnd) as [bs|]; [|done]. pose proof (amp_curr _ _ _ I) as Hc. pose proof (amp_root _ _ _ I) as Hr. destruct last.
  - cbn [snd]. apply (new_child r used); cbn; try done; [unfold Sharer_Child; by rewrite Hr|]. fold zeroShare. rewrite (comm Xor). by apply Xor_zero.
  - unfold Split, split. case_bool_decide; [done|]. destruct (leftShare rnd) as [l|] eqn:E; cbn [obind]; [|done].
    specialize (Hb l eq_refl). cbn [snd]. apply (new_child r used); cbn; try done.
    + rewrite length_Xor; congruence.
    + unfold Sharer_Child. cbn. by rewrite Hr.
    + by rewrite (comm Xor (curr _)), Xor_cancel.
Qed.

Lemma cancel_shard_inv r used t pid : amp_inv r used t -> amp_inv r used (CancelShard pid t).2.
Proof.
  intros I. cbn [CancelShard tracker amp_tracker]. unfold Amp_CancelShard. destruct (shards t !! pid) as [c|] eqn:E; [|done]. cbn [snd].
  pose proof (amp_children _ _ _ I _ _ E) as (_ & Hl & _). pose proof (amp_curr _ _ _ I) as Hc. split; cbn [sharer shards set_shards].
  - apply (amp_root _ _ _ I).
  - cbn. rewrite length_Xor; congruence.
  - intros p c' H. apply lookup_delete_Some in H as [_ H]. by apply (amp_children _ _ _ I) in H.
  - rewrite <- (amp_shares _ _ _ I), (outstanding_delete t (Merge c (sharer t)) pid c E). cbn [fmap list_fmap combined foldr compose].
    cbn [Merge initSeedSharer curr]. rewrite (comm Xor (curr _) (Share _)), (assoc Xor). f_equal. apply (comm Xor).
Qed.

Lemma run_shards_inv ops r used t m : amp_inv r used t -> shard_ops_ok used ops -> exists used', amp_inv r used' (run_shards ops t m).1.
Proof.
  revert used t m. induction ops as [|op ops IH]; intros used t m I H; [by exists used|]. cbn [run_shards].
  destruct op as [rnd pid last|pid]; cbn [shard_ops_ok] in H; cbn [run_shard].
  - destruct H as (Hb & Hp & Hok). eapply IH; [|exact Hok]. by apply new_shard_inv.
  - eapply IH; [|exact H]. by apply cancel_shard_inv.
Qed.

Lemma start_amp_inv r sid addr total asset : length r = 32%nat -> amp_inv r [] (NewShardTracker r sid addr total asset).
Proof.
  intros H. split; cbn; [done..|]. unfold outstanding. cbn. rewrite map_to_list_empty. cbn. by apply Xor_zero.
Qed.

(** C33: An atomic multi-path payment can be claimed exactly when all of its shares are out.  After
    any shards made and cancelled, let the receiver have the shards that are out, in any
    order: their shares give the root secret if and only if the sender holds nothing back, and
    then the receiver derives for every shard the preimage of the hash it was sent with; the
    shard made as the last one leaves nothing back. *)
Theorem amp_claimed_together r sid addr total asset ops descs :
  length r = 32%nat -> shard_ops_ok [] ops ->
  let t := (run_shards ops (NewShardTracker r sid addr total asset) ∅).1 in
  descs ≡ₚ desc <$> outstanding t ->
  (foldl (fun x d => Xor x (Share d)) zeroShare descs = r <-> curr (sharer t) = zeroShare) /\
  (curr (sharer t) = zeroShare -> ReconstructChildren sha256 descs ≡ₚ outstanding t) /\
  Forall (fun c => Hash c = sha256 (Preimage c)) (outstanding t) /\
  (forall rnd pid bs, childIndex rnd = Some bs -> curr (sharer (NewShard rnd pid true t).2) = zeroShare).
Proof.
  intros Hr Hok t Hp. destruct (run_shards_inv ops r [] _ ∅ (start_amp_inv r sid addr total asset Hr) Hok) as [used I]. fold t in I.
  pose proof (outstanding_share _ _ _ I) as Hl. pose proof (amp_curr _ _ _ I) as Hc.
  assert (foldl (fun x d => Xor x (Share d)) zeroShare descs = combined ((Share ∘ desc) <$> outstanding t)) as Hf.
  { rewrite foldl_combined by (rewrite Hp; by apply Forall_fmap). by rewrite Hp, list_fmap_compose. }
  assert (length (combined ((Share ∘ desc) <$> outstanding t)) = 32%nat) as Hlc by (apply length_combined; by apply Forall_fmap).
  pose proof (amp_shares _ _ _ I) as Hs. set (x := combined _) in *.
  assert (x = r <-> curr (sharer t) = zeroShare) as Hiff.
  { split; intros H.
    - rewrite <- (Xor_cancel x (curr (sharer t))) by done. rewrite Hs, H. by apply Xor_self.
    - by rewrite H, (comm Xor), Xor_zero in Hs. }
  split_and!; [by rewrite Hf| | |].
  - intros H%Hiff. unfold ReconstructChildren. rewrite Hf, H, Hp, <- list_fmap_compose.
    replace (outstanding t) with (id <$> outstanding t) at 2 by apply list_fmap_id. apply Permutation_refl'.
    apply list_fmap_ext. intros i c Hi%list_elem_of_lookup_2. apply list_elem_of_fmap in Hi as ([pid c'] & -> & Hin).
    apply elem_of_map_to_list, (amp_children _ _ _ I) in Hin as (_ & _ & Hd). exact (eq_sym Hd).
  - apply Forall_forall. intros c Hin. apply list_elem_of_fmap in Hin as ([pid c'] & -> & Hin).
    apply elem_of_map_to_list, (amp_children _ _ _ I) in Hin as (_ & _ & Hd). by rewrite Hd.
  - intros rnd pid bs H. cbn [NewShard tracker amp_tracker]. unfold Amp_NewShard. by rewrite H.
Qed.
End shares.

(** Two shards are split off, one of them is cancelled, and the rest goes out as the last one. *)
Definition amp_root_example : list byte := x01 :: replicate 31 x07.
Definition rand_example (b : byte) : randoms := mkRandoms (Some [x00; x00; x00; b]) (Some (replicate 32 b)).

Definition amp_ops : list shard_op :=
  [OpNewShard (rand_example x11) 1 false; OpNewShard (rand_example x22) 2 false; OpCancelShard 1;
   OpNewShard (rand_example x33) 3 true].

(** A stand-in for the hash. *)
Definition first_bytes (bs : list byte) : list byte := take 32 (rev bs).

Definition amp_example : AmpTracker :=
  (@run_shards AmpTracker (amp_tracker first_bytes) amp_ops (NewShardTracker amp_root_example zeroShare zeroShare 5000 0) ∅).1.

Lemma amp_claimed_together_witness :
  length (outstanding amp_example) = 2%nat /\
  ReconstructChildren first_bytes (rev (desc <$> outstanding amp_example)) ≡ₚ outstanding amp_example.
Proof.
  split; [reflexivity|].
  destruct (amp_claimed_together first_bytes amp_root_example zeroShare zeroShare 5000 0 amp_ops (rev (desc <$> outstanding amp_example)))
    as (_ & H & _).
  - reflexivity.
  - cbn. split_and!; try (intros bs [= <-]; reflexivity); try done; set_solver.
  - symmetry. apply Permutation_rev.
  - apply H. vm_compute. reflexivity.
Defined.
