(* ===== verification/Route.v ===== *)
(** * routing/route: routes and the payloads of their hops

    routing/route/route.go.  Amounts are unsigned 64-bit numbers that wrap around.  The onion
    library is the class [SphinxPath]: its sizes and how it builds a hop's payload. *)

From Stdlib Require Import ZArith Lia Sorted.
From S2P Require Import Prelude Wire Features WireMessages WireTlv HopRecords.

Local Open Scope Z_scope.
Local Open Scope go_scope.

Class SphinxPath := {
  NumMaxHops : nat;
  LegacyHopDataSize : Z;
  HMACSize : Z;
  SphinxPayload : Type;
  NewLegacyHopPayload : Z -> Z -> list byte -> option SphinxPayload;
  NewTlvHopPayload : list byte -> option SphinxPayload;
}.

Inductive route_err : Type :=
  | ErrNoRouteHopsProvided
  | ErrMaxRouteHopsExceeded
  | ErrIntermediateMPPHop
  | ErrAMPMissingMPP
  | ErrLegacyPack
  | ErrVertexLength
  | ErrHopPubKey
  | ErrHopPayload
  | ErrHopStream.

Definition VertexSize : nat := 33.

Definition NewVertexFromBytes (b : list byte) : outcome route_err (list byte) :=
  if bool_decide (length b = VertexSize) then Ok b else Err ErrVertexLength.

Record Hop := mkHop {
  PubKeyBytes : list byte;
  ChannelID : Z;
  OutgoingTimeLock : Z;
  AmtToForward : Z;
  hop_MPP : option MPP;
  hop_AMP : option AMP;
  CustomRecords : gmap Z (list byte);
  LegacyPayload : bool;
}.

Record Route := mkRoute {
  TotalTimeLock : Z;
  TotalAmount : Z;
  Route_AssetId : Z;
  SourcePubKey : list byte;
  Hops : list Hop;
}.

Definition NewRouteFromHops (assetId amtToSend timeLock : Z) (sourceVertex : list byte) (hops : list Hop) :
    outcome route_err Route :=
  if bool_decide (length hops = 0%nat) then Err ErrNoRouteHopsProvided
  else Ok (mkRoute timeLock amtToSend assetId sourceVertex hops).

(** ** Fees *)

(** An index out of range is a run-time error. *)
Definition HopFee (r : Route) (hopIndex : nat) : outcome route_err Z :=
  incomingAmt <~
    match hopIndex with
    | O => Ok (TotalAmount r)
    | S i => match Hops r !! i with Some h => Ok (AmtToForward h) | None => Panic end
    end ;
  match Hops r !! hopIndex with Some h => Ok (u64 (incomingAmt - AmtToForward h)) | None => Panic end.

Definition FinalHop (r : Route) : option Hop := last (Hops r).

Definition ReceiverAmt (r : Route) : Z := match last (Hops r) with Some h => AmtToForward h | None => 0 end.

Definition TotalFees (r : Route) : Z :=
  if bool_decide (length (Hops r) = 0%nat) then 0 else u64 (TotalAmount r - ReceiverAmt r).

(** ** Payloads *)

Section route.
Context {TV : TlvValues} {TL : Tlv}.

(** The records of a hop before they are sorted. *)
Definition hopRecords (h : Hop) (nextChanID : Z) : outcome route_err (list tlv_record) :=
  let records := [NewAmtToFwdRecord (AmtToForward h); NewLockTimeRecord (OutgoingTimeLock h)] in
  let records := if bool_decide (nextChanID <> 0) then records ++ [NewNextHopIDRecord nextChanID] else records in
  records <~
    match hop_MPP h with
    | None => Ok records
    | Some m => if bool_decide (nextChanID = 0) then Ok (records ++ [MPP_Record m]) else Err ErrIntermediateMPPHop
    end ;
  records <~
    match hop_AMP h with
    | None => Ok records
    | Some a => match hop_MPP h with Some _ => Ok (records ++ [AMP_Record a]) | None => Err ErrAMPMissingMPP end
    end ;
  Ok (records ++ MapToRecords (CustomRecords h)).

Definition PackHopPayload (h : Hop) (nextChanID : Z) : outcome route_err (list byte) :=
  if LegacyPayload h then Err ErrLegacyPack
  else
    records <~ hopRecords h nextChanID ;
    match StreamEncode (SortRecords records) with Some bs => Ok bs | None => Err ErrHopStream end.

Context {SP : SphinxPath}.

Definition addRecord (tlvType len payloadSize : Z) : Z :=
  u64 (payloadSize + u64 (u64 (VarIntSize tlvType + VarIntSize len) + len)).

(** [order] visits the custom records. *)
Definition PayloadSize (order : gmap Z (list byte) -> list tlv_record) (h : Hop) (nextChanID : Z) : Z :=
  if LegacyPayload h then LegacyHopDataSize
  else
    let n := addRecord AmtOnionType (SizeTUint64 (AmtToForward h)) 0 in
    let n := addRecord LockTimeOnionType (SizeTUint64 (OutgoingTimeLock h)) n in
    let n := if bool_decide (nextChanID <> 0) then addRecord NextHopOnionType 8 n else n in
    let n := match hop_MPP h with Some m => addRecord MPPOnionType (MPP_PayloadSize m) n | None => n end in
    let n := match hop_AMP h with Some a => addRecord AMPOnionType (AMP_PayloadSize a) n | None => n end in
    let n := foldl (fun n kv => addRecord kv.1 (Z.of_nat (length kv.2)) n) n (order (CustomRecords h)) in
    let n := u64 (n + VarIntSize n) in
    u64 (n + HMACSize).

Context {BT : Btcec}.

Fixpoint sphinxHops (hops : list Hop) : outcome route_err (list (pubkey * SphinxPayload)) :=
  match hops with
  | [] => Ok []
  | hop :: rest =>
      match ParsePubKey (PubKeyBytes hop) with
      | None => Err ErrHopPubKey
      | Some pub =>
          let nextHop := match rest with next :: _ => ChannelID next | [] => 0 end in
          payload <~
            (if LegacyPayload hop then
               match NewLegacyHopPayload (AmtToForward hop) (OutgoingTimeLock hop) (be_put 8 nextHop) with
               | Some p => Ok p
               | None => Err ErrHopPayload
               end
             else
               b <~ PackHopPayload hop nextHop ;
               match NewTlvHopPayload b with Some p => Ok p | None => Err ErrHopPayload end) ;
          path <~ sphinxHops rest ;
          Ok ((pub, payload) :: path)
      end
  end.

Definition ToSphinxPath (r : Route) : outcome route_err (list (pubkey * SphinxPayload)) :=
  if bool_decide (length (Hops r) = 0%nat) then Err ErrNoRouteHopsProvided
  else if bool_decide (NumMaxHops < length (Hops r))%nat then Err ErrMaxRouteHopsExceeded
  else sphinxHops (Hops r).
End route.

(** A hop whose fields are in range. *)
Definition wf_hop (h : Hop) (nextChanID : Z) : Prop :=
  in_u 64 (AmtToForward h) /\ in_u 32 (OutgoingTimeLock h) /\ in_u 64 nextChanID /\
  (forall m, hop_MPP h = Some m -> wf_mpp m) /\ (forall a, hop_AMP h = Some a -> wf_amp a) /\
  (forall t v, CustomRecords h !! t = Some v -> CustomTypeStart <= t < 2 ^ 64 /\ Z.of_nat (length v) <= 65535).


(** ** Fees add up *)

Definition sumZ (l : list Z) : Z := foldr Z.add 0 l.

Lemma sumZ_snoc l x : sumZ (l ++ [x]) = sumZ l + x.
Proof. unfold sumZ. induction l as [|y l IH]; cbn in *; lia. Qed.

Lemma fees_prefix r n h : Hops r !! n = Some h ->
  exists fees, length fees = S n /\ (forall i f, fees !! i = Some f -> HopFee r i = Ok f) /\
    u64 (sumZ fees) = u64 (TotalAmount r - AmtToForward h).
Proof.
  revert h. induction n as [|n IH]; intros h Hh.
  - exists [u64 (TotalAmount r - AmtToForward h)]. split_and!; [done| |].
    + intros [|i] f Hf; [|done]. injection Hf as <-. unfold HopFee. cbn [obind]. by rewrite Hh.
    + cbn. unfold u64. rewrite Z.add_0_r. by rewrite Zmod_mod.
  - destruct (lookup_lt_is_Some_2 (Hops r) n) as [h' Hh']; [apply lookup_lt_Some in Hh; lia|].
    destruct (IH h' Hh') as (fees & Hl & Hf & Hs). exists (fees ++ [u64 (AmtToForward h' - AmtToForward h)]). split_and!.
    + rewrite length_app, Hl. cbn. lia.
    + intros i f Hi. apply lookup_app_Some in Hi as [Hi|[Hge Hi]]; [by apply Hf|]. apply list_lookup_singleton_Some in Hi as [Hi <-].
      replace i with (S n) by lia. unfold HopFee. rewrite Hh'. cbn [obind]. by rewrite Hh.
    + rewrite sumZ_snoc. unfold u64 in *. rewrite Zplus_mod, Hs, Zmod_mod, <- Zplus_mod. f_equal. lia.
Qed.

(** The fees of the hops of a route add up to its total fees, also when amounts wrap around. *)
Theorem fees_add_up r : Hops r <> [] ->
  exists fees, length fees = length (Hops r) /\ (forall i f, fees !! i = Some f -> HopFee r i = Ok f) /\
    u64 (sumZ fees) = TotalFees r.
Proof.
  intros Hne. destruct (last (Hops r)) as [h|] eqn:E; [|by apply last_None in E].
  pose proof E as Hh. rewrite last_lookup in Hh. destruct (fees_prefix r _ h Hh) as (fees & Hl & Hf & Hs).
  exists fees. split_and!; [|done|].
  - rewrite Hl. destruct (Hops r); [done|]. cbn. lia.
  - unfold TotalFees, ReceiverAmt. rewrite E, Hs. rewrite bool_decide_eq_false_2; [done|]. by destruct (Hops r).
Qed.

(** ** The payload of a hop *)

Section payload.
Context {TV : TlvValues} {TL : Tlv} {TLL : TlvLaws} {TVL : TlvValueLaws} {SP : SphinxPath}.

Lemma hopRecords_fields h next records : hopRecords h next = Ok records ->
  exists std, records = std ++ MapToRecords (CustomRecords h) /\
    std = [NewAmtToFwdRecord (AmtToForward h); NewLockTimeRecord (OutgoingTimeLock h)] ++
      (if bool_decide (next <> 0) then [NewNextHopIDRecord next] else []) ++
      (match hop_MPP h with Some m => [MPP_Record m] | None => [] end) ++
      (match hop_AMP h with Some a => [AMP_Record a] | None => [] end).
Proof.
  unfold hopRecords. intros H. eexists. split; [|reflexivity].
  destruct (hop_MPP h) as [m|], (hop_AMP h) as [a|]; repeat case_bool_decide; cbn [obind] in H; try done;
    injection H as <-; by rewrite <- ?app_assoc.
Qed.

Lemma std_types h next std :
  std = [NewAmtToFwdRecord (AmtToForward h); NewLockTimeRecord (OutgoingTimeLock h)] ++
      (if bool_decide (next <> 0) then [NewNextHopIDRecord next] else []) ++
      (match hop_MPP h with Some m => [MPP_Record m] | None => [] end) ++
      (match hop_AMP h with Some a => [AMP_Record a] | None => [] end) ->
  NoDup std.*1 /\ (forall t, t ∈ std.*1 -> 0 <= t < CustomTypeStart).
Proof.
  intros ->. case_bool_decide; destruct (hop_MPP h), (hop_AMP h); cbn; (split; [|set_solver by done]);
    repeat (apply NoDup_cons_2; [set_solver by done|]); constructor.
Qed.

Lemma hopRecords_wf h next records : wf_hop h next -> hopRecords h next = Ok records ->
  Forall wf_record records /\ NoDup records.*1.
Proof.
  intros (Ha & Hl & Hn & Hm & Hamp & Hc) H. destruct (hopRecords_fields _ _ _ H) as (std & -> & Hstd).
  destruct (std_types _ _ _ Hstd) as [Hnd Hlt].
  assert (forall t v, (t, v) ∈ MapToRecords (CustomRecords h) <-> CustomRecords h !! t = Some v) as Hmap
    by (intros t v; rewrite map_records; apply elem_of_map_to_list).
  split.
  - rewrite Hstd. rewrite !Forall_app, Forall_cons, Forall_singleton. unfold wf_record. split_and!; cbn [fst snd NewAmtToFwdRecord NewLockTimeRecord].
    + done.
    + destruct (tu64_size _ Ha). lia.
    + done.
    + destruct (tu32_size _ Hl) as (? & ? & ?). lia.
    + case_bool_decide; constructor; [|constructor]. split; [done|]. cbn. rewrite length_be_put. lia.
    + destruct (hop_MPP h) as [m|]; constructor; [|constructor]. split; [done|]. cbn [snd MPP_Record].
      destruct (Hm m eq_refl) as (? & Ht & ?). rewrite length_MPPEncoder by (by apply Hm). destruct (tu64_size _ Ht). lia.
    + destruct (hop_AMP h) as [a|]; constructor; [|constructor]. split; [done|]. cbn [snd AMP_Record].
      destruct (Hamp a eq_refl) as (? & ? & Hi). rewrite length_AMPEncoder by (by apply Hamp). destruct (tu32_size _ Hi) as (? & ? & ?). lia.
    + apply Forall_forall. intros [t v] Hin%Hmap%Hc. unfold CustomTypeStart in Hin. unfold in_u. cbn. lia.
  - rewrite fmap_app. apply NoDup_app. split_and!; [done| |].
    + intros t Ht%Hlt Hin. apply list_elem_of_fmap in Hin as ([t' v] & -> & Hin%Hmap%Hc). cbn in Ht. lia.
    + rewrite map_records. apply NoDup_fst_map_to_list.
Qed.

Lemma sorted_strict l : NoDup l.*1 -> StronglySorted (fun a b : tlv_record => a.1 <= b.1) l -> StronglySorted (fun a b => a.1 < b.1) l.
Proof.
  intros Hn Hs. induction Hs as [|a l Hs IH Ha]; constructor; [apply IH; by inversion Hn|].
  cbn in Hn. apply NoDup_cons in Hn as [Hnin _]. apply Forall_forall. intros b Hb. rewrite Forall_forall in Ha.
  pose proof (Ha b Hb). assert (a.1 <> b.1); [|lia]. intros He. apply Hnin. rewrite He. by apply list_elem_of_fmap_2.
Qed.

(** A hop that is not a legacy one and has its records where they belong is packed, into a
    stream of exactly its records. *)
Lemma PackHopPayload_ok h next records : wf_hop h next -> LegacyPayload h = false -> hopRecords h next = Ok records ->
  exists bs l, PackHopPayload h next = Ok bs /\ StreamEncode l = Some bs /\ StreamParse bs = Some l /\ l ≡ₚ records /\ NoDup l.*1.
Proof.
  intros Hw Hl Hr. destruct (hopRecords_wf _ _ _ Hw Hr) as [Hwf Hnd]. pose proof (sort_perm records) as Hp.
  assert (NoDup (SortRecords records).*1) as Hnd' by (by rewrite Hp).
  destruct (stream_rt (SortRecords records)) as (bs & He & Hd); [by rewrite Hp|apply sorted_strict; [done|apply sort_sorted]|].
  exists bs, (SortRecords records). unfold PackHopPayload. rewrite Hl, Hr. cbn [obind]. by rewrite He.
Qed.

(** ** The size of a payload *)

Definition record_size (r : tlv_record) : Z := VarIntSize r.1 + VarIntSize (Z.of_nat (length r.2)) + Z.of_nat (length r.2).

Lemma u64_add x y : u64 (u64 x + y) = u64 (x + y).
Proof. unfold u64. by rewrite Zplus_mod_idemp_l. Qed.

Lemma addRecord_u64 t v x : addRecord t (Z.of_nat (length v)) (u64 x) = u64 (x + record_size (t, v)).
Proof.
  unfold addRecord, record_size. cbn [fst snd]. rewrite u64_add. unfold u64.
  rewrite Zplus_mod_idemp_l, Zplus_mod_idemp_r. reflexivity.
Qed.

Lemma addRecords_u64 l x :
  foldl (fun n (kv : tlv_record) => addRecord kv.1 (Z.of_nat (length kv.2)) n) (u64 x) l = u64 (x + sumZ (record_size <$> l)).
Proof.
  revert x. induction l as [|[t v] l IH]; intros x; cbn [foldl fst snd]; [cbn; by rewrite Z.add_0_r|].
  rewrite addRecord_u64, IH. f_equal. cbn. unfold sumZ. lia.
Qed.

#[global] Instance sumZ_perm : Proper ((≡ₚ) ==> (=)) sumZ.
Proof. intros l l' H. unfold sumZ. induction H; cbn; lia. Qed.

(** [PayloadSize] is the room that the packed payload takes in the onion, with the length in
    front of it and the HMAC behind it. *)
Theorem PayloadSize_exact order h next bs :
  wf_hop h next -> order (CustomRecords h) ≡ₚ map_to_list (CustomRecords h) -> PackHopPayload h next = Ok bs ->
  let n := u64 (Z.of_nat (length bs)) in
  PayloadSize order h next = u64 (n + VarIntSize n + HMACSize).
Proof.
  intros Hw Ho Hp n. assert (LegacyPayload h = false) as Hl by (unfold PackHopPayload in Hp; by destruct (LegacyPayload h)).
  assert (exists records, hopRecords h next = Ok records) as [records Hr].
  { unfold PackHopPayload in Hp. rewrite Hl in Hp. apply obind_ok_inv in Hp as (r & ? & _). by exists r. }
  destruct (PackHopPayload_ok h next records Hw Hl Hr) as (bs' & l & Hp' & He & _ & Hperm & _).
  assert (bs' = bs) as -> by congruence. destruct (hopRecords_fields _ _ _ Hr) as (std & -> & Hstd).
  assert (n = u64 (sumZ (record_size <$> std) + sumZ (record_size <$> order (CustomRecords h)))) as Hn.
  { unfold n. rewrite (stream_size l bs He). f_equal. transitivity (sumZ (record_size <$> l)).
    - clear. induction l as [|r l IH]; [done|]. cbn in *. rewrite IH. unfold record_size, sumZ. lia.
    - rewrite Hperm, fmap_app, map_records, <- Ho. unfold sumZ. rewrite foldr_app.
      induction (record_size <$> std) as [|x xs IH]; cbn in *; lia. }
  destruct Hw as (Ha & Ht & _ & Hm & Hamp & _). unfold PayloadSize. rewrite Hl.
  destruct (tu64_size _ Ha) as [Hsa _]. destruct (tu32_size _ Ht) as (Hst & _ & _).
  rewrite <- Hsa, <- Hst.
  pose proof (addRecord_u64 AmtOnionType (ETUint64 (AmtToForward h)) 0) as H0. change (u64 0) with 0 in H0. rewrite H0, addRecord_u64. clear H0.
  set (x2 := 0 + record_size _ + record_size _).
  assert ((if bool_decide (next <> 0) then addRecord NextHopOnionType 8 (u64 x2) else u64 x2) =
    u64 (x2 + sumZ (record_size <$> (if bool_decide (next <> 0) then [NewNextHopIDRecord next] else [])))) as ->.
  { case_bool_decide; cbn; [|by rewrite Z.add_0_r]. replace 8 with (Z.of_nat (length (be_put 8 next))) by (by rewrite length_be_put).
    rewrite addRecord_u64. by rewrite Z.add_0_r. }
  set (x3 := x2 + _).
  assert (match hop_MPP h with Some m => addRecord MPPOnionType (MPP_PayloadSize m) (u64 x3) | None => u64 x3 end =
    u64 (x3 + sumZ (record_size <$> match hop_MPP h with Some m => [MPP_Record m] | None => [] end))) as ->.
  { destruct (hop_MPP h) as [m|]; cbn; [|by rewrite Z.add_0_r]. rewrite MPP_size, addRecord_u64 by auto. by rewrite Z.add_0_r. }
  set (x4 := x3 + _).
  assert (match hop_AMP h with Some a => addRecord AMPOnionType (AMP_PayloadSize a) (u64 x4) | None => u64 x4 end =
    u64 (x4 + sumZ (record_size <$> match hop_AMP h with Some a => [AMP_Record a] | None => [] end))) as ->.
  { destruct (hop_AMP h) as [a|]; cbn; [|by rewrite Z.add_0_r]. rewrite AMP_size, addRecord_u64 by auto. by rewrite Z.add_0_r. }
  rewrite addRecords_u64. replace (u64 (_ + sumZ (record_size <$> order _))) with n; [by rewrite u64_add|].
  rewrite Hn. f_equal. f_equal. rewrite Hstd, !fmap_app. unfold x4, x3, x2.
  assert (forall a b, sumZ (a ++ b) = sumZ a + sumZ b) as Happ by (intros a b; unfold sumZ; rewrite foldr_app; induction a; cbn in *; lia).
  assert (forall r1 r2, sumZ (record_size <$> [r1; r2]) = record_size r1 + record_size r2) as H2 by (intros; unfold sumZ; cbn; lia).
  rewrite !Happ, H2. unfold NewAmtToFwdRecord, NewLockTimeRecord. lia.
Qed.
End payload.
