(* ===== verification/HopPayload.v ===== *)
(** * htlcswitch/hop: what a hop reads from its onion

    htlcswitch/hop/payload.go, iterator.go, forwarding_info.go.  The payload is read with the
    record package of lnd, not with the one of this repository: it is the class [LndRecord].
    The onion library decodes and processes packets; what it answers is an argument.

    The last part has concrete libraries, at which the theorems are evaluated. *)

From Stdlib Require Import ZArith Lia Sorted.
From S2P Require Import Prelude Wire Features WireMessages WireTlv WireGossip WireModels.
From S2P Require Import OnionError HopRecords Route.

Local Open Scope Z_scope.
Local Open Scope go_scope.

(** ** The record package that is imported *)

Class LndRecord := {
  lnd_MPPDecoder : list byte -> option (list byte * Z);
  lnd_AMPDecoder : list byte -> option (list byte * list byte * Z);
}.

(** BOLT 4: a payment secret of 32 bytes and a truncated total; a share, a set identifier and a
    truncated index. *)
Class LndRecordLaws `{!TlvValues, !LndRecord} : Prop := {
  lnd_mpp : forall v, lnd_MPPDecoder v =
    if bool_decide (32 <= Z.of_nat (length v) <= 40) then total ← DTUint64 (drop 32 v); Some (take 32 v, total) else None;
  lnd_amp : forall v, lnd_AMPDecoder v =
    if bool_decide (64 <= Z.of_nat (length v) <= 68)
    then index ← DTUint32 (drop 64 v); Some (take 32 v, take 32 (drop 32 v), index) else None;
}.

(** ** Payloads *)

Inductive PayloadViolation : Type := OmittedViolation | IncludedViolation | RequiredViolation.

Inductive payload_err : Type :=
  | ErrInvalidPayload (type : Z) (violation : PayloadViolation) (finalHop : bool)
  | ErrPayloadStream
  | ErrPayloadType.

Inductive Network : Type := BitcoinNetwork | LitecoinNetwork.

Record ForwardingInfo := mkFwdInfo { fwd_Network : Network; NextHop : ShortChannelID; AmountToForward : Z; OutgoingCTLV : Z }.

Record Payload := mkPayload {
  FwdInfo : ForwardingInfo;
  MultiPath : option (list byte * Z);
  AMPRecord : option (list byte * list byte * Z);
  customRecords : gmap Z (list byte);
}.

Definition Exit : ShortChannelID := mkShortChannelID 0 0 0.

(** The data of a legacy hop. *)
Record HopData := mkHopData { ForwardAmount : Z; OutgoingCltv : Z; NextAddress : list byte }.

Definition NewLegacyPayload (f : HopData) : Payload :=
  mkPayload (mkFwdInfo BitcoinNetwork (NewShortChanIDFromInt (be_get (NextAddress f))) (ForwardAmount f) (OutgoingCltv f))
            None None ∅.

(** The parsed types: no bytes for a type that was known. *)
Definition known_type (t : Z) : bool :=
  bool_decide (t ∈ [AmtOnionType; LockTimeOnionType; NextHopOnionType; MPPOnionType; AMPOnionType]).

Definition TypeMap (records : list tlv_record) : gmap Z (option (list byte)) :=
  list_to_map ((fun r => (r.1, if known_type r.1 then None else Some r.2)) <$> records).

Definition NewCustomRecords (parsedTypes : gmap Z (option (list byte))) : gmap Z (list byte) :=
  map_imap (fun t parseResult => if bool_decide (t < CustomTypeStart) then None else parseResult) parsedTypes.

Definition ValidateParsedPayloadTypes (parsedTypes : gmap Z (option (list byte))) (nextHop : ShortChannelID) : option payload_err :=
  let isFinalHop := bool_decide (nextHop = Exit) in
  let has t := bool_decide (is_Some (parsedTypes !! t)) in
  if negb (has AmtOnionType) then Some (ErrInvalidPayload AmtOnionType OmittedViolation isFinalHop)
  else if negb (has LockTimeOnionType) then Some (ErrInvalidPayload LockTimeOnionType OmittedViolation isFinalHop)
  else if isFinalHop && has NextHopOnionType then Some (ErrInvalidPayload NextHopOnionType IncludedViolation true)
  else if negb isFinalHop && has MPPOnionType then Some (ErrInvalidPayload MPPOnionType IncludedViolation isFinalHop)
  else if negb isFinalHop && has AMPOnionType then Some (ErrInvalidPayload AMPOnionType IncludedViolation isFinalHop)
  else None.

(** Over the entries in the order they are visited: the smallest violation found. *)
Definition violates (t : Z) (parseResult : option (list byte)) : bool :=
  match parseResult with None => false | Some _ => bool_decide (t mod 2 = 0) && bool_decide (t < CustomTypeStart) end.

Definition getMinRequiredViolation (entries : list (Z * option (list byte))) : option Z :=
  foldl (fun found e =>
    if violates e.1 e.2 then
      match found with Some m => if bool_decide (e.1 < m) then Some e.1 else found | None => Some e.1 end
    else found) None entries.

Section reader.
Context {TV : TlvValues} {TL : Tlv} {LR : LndRecord}.

(** A record that is present must be decoded; one that is missing leaves the zero value. *)
Definition field {A} (dec : list byte -> option A) (t : Z) (records : list tlv_record) : outcome payload_err (option A) :=
  match lookup_type t records with
  | None => Ok None
  | Some v => match dec v with Some a => Ok (Some a) | None => Err ErrPayloadStream end
  end.

(** [tlv.DUint64] wants 8 bytes. *)
Definition DUint64 (v : list byte) : option Z := if bool_decide (length v = 8%nat) then Some (be_get v) else None.

(** [order] visits the parsed types. *)
Definition NewPayloadFromReader (order : gmap Z (option (list byte)) -> list (Z * option (list byte))) (bs : list byte) :
    outcome payload_err Payload :=
  match StreamParse bs with
  | None => Err ErrPayloadStream
  | Some records =>
      amt <~ field DTUint64 AmtOnionType records ;
      cltv <~ field DTUint32 LockTimeOnionType records ;
      cid <~ field DUint64 NextHopOnionType records ;
      mpp <~ field lnd_MPPDecoder MPPOnionType records ;
      amp <~ field lnd_AMPDecoder AMPOnionType records ;
      let parsedTypes := TypeMap records in
      let nextHop := NewShortChanIDFromInt (default 0 cid) in
      match ValidateParsedPayloadTypes parsedTypes nextHop with
      | Some e => Err e
      | None =>
          match getMinRequiredViolation (order parsedTypes) with
          | Some t => Err (ErrInvalidPayload t RequiredViolation (bool_decide (nextHop = Exit)))
          | None => Ok (mkPayload (mkFwdInfo BitcoinNetwork nextHop (default 0 amt) (default 0 cltv)) mpp amp
                                  (NewCustomRecords parsedTypes))
          end
      end
  end.

(** ** The iterator *)

Inductive PayloadType : Type := PayloadLegacy | PayloadTLV | PayloadOther.

Record ProcessedPacket := mkProcessed { p_Type : PayloadType; p_Instructions : HopData; p_Payload : list byte }.

Definition HopPayload (order : gmap Z (option (list byte)) -> list (Z * option (list byte))) (p : ProcessedPacket) :
    outcome payload_err Payload :=
  match p_Type p with
  | PayloadLegacy => Ok (NewLegacyPayload (p_Instructions p))
  | PayloadTLV => NewPayloadFromReader order (p_Payload p)
  | PayloadOther => Err ErrPayloadType
  end.
End reader.

Inductive onion_err : Type := ErrInvalidOnionVersion | ErrInvalidOnionKey | ErrInvalidOnionHMAC | ErrOnionOther.

Definition CodeNone : Z := 0.

(** The codes for the errors of decoding and of processing a packet. *)
Definition decode_code (e : onion_err) : Z :=
  match e with ErrInvalidOnionVersion => CodeInvalidOnionVersion | _ => CodeInvalidOnionKey end.

Definition process_code (e : onion_err) : Z :=
  match e with
  | ErrInvalidOnionVersion => CodeInvalidOnionVersion
  | ErrInvalidOnionHMAC => CodeInvalidOnionHmac
  | ErrInvalidOnionKey | ErrOnionOther => CodeInvalidOnionKey
  end.

Section iterators.
Context {packet : Type}.

Record DecodeHopIteratorRequest := mkRequest { OnionReader : list byte; RHash : list byte; IncomingCltv : Z }.
Record DecodeHopIteratorResponse := mkResponse { HopIterator : option (packet * ProcessedPacket); Resp_FailCode : Z }.

(** What the onion library answers: decoding, processing a packet, processing it as the entry
    of a batch, and committing the batch, with the packets and the replays it found. *)
Variable Decode : list byte -> onion_err + packet.
Variable ProcessOnionPacket : packet -> list byte -> Z -> onion_err + ProcessedPacket.
Variable ReconstructOnionPacket : packet -> list byte -> onion_err + ProcessedPacket.
Variable TxProcess : Z -> packet -> list byte -> Z -> option onion_err.

Definition DecodeHopIterator (r rHash : list byte) (incomingCltv : Z) : option (packet * ProcessedPacket) * Z :=
  match Decode r with
  | inl e => (None, decode_code e)
  | inr onionPkt =>
      match ProcessOnionPacket onionPkt rHash incomingCltv with
      | inl e => (None, process_code e)
      | inr p => (Some (onionPkt, p), CodeNone)
      end
  end.

Definition ReconstructHopIterator (r rHash : list byte) : onion_err + (packet * ProcessedPacket) :=
  match Decode r with
  | inl e => inl e
  | inr onionPkt => match ReconstructOnionPacket onionPkt rHash with inl e => inl e | inr p => inr (onionPkt, p) end
  end.

(** One entry of the batch: its packet and its code. *)
Definition decode (seqNum : Z) (req : DecodeHopIteratorRequest) : option packet * Z :=
  match Decode (OnionReader req) with
  | inl e => (None, decode_code e)
  | inr onionPkt =>
      (Some onionPkt, match TxProcess seqNum onionPkt (RHash req) (IncomingCltv req) with
                      | None => CodeNone
                      | Some e => process_code e
                      end)
  end.

(** The loop starts a goroutine per index, for the slot of the index cut to 16 bits; the slots
    that none of them fills keep their zero values.  [commit] is what committing the batch
    returns. *)
Fixpoint decodeSlots (n : nat) (i : Z) (reqs : list DecodeHopIteratorRequest) (slots : gmap Z (option packet * Z)) :
    gmap Z (option packet * Z) :=
  match n with
  | O => slots
  | S n =>
      let seqNum := u16 i in
      decodeSlots n (i + 1) reqs
        (match reqs !! Z.to_nat seqNum with Some req => <[seqNum := decode seqNum req]> slots | None => slots end)
  end.

Definition slot_of (slots : gmap Z (option packet * Z)) (i : nat) : option packet * Z :=
  default (None, CodeNone) (slots !! Z.of_nat i).

Definition DecodeHopIterators (zeroPacket : packet) (commit : option ((nat -> ProcessedPacket) * (Z -> bool)))
    (reqs : list DecodeHopIteratorRequest) : bool * list DecodeHopIteratorResponse :=
  let slots := decodeSlots (length reqs) 0 reqs ∅ in
  match commit with
  | None =>
      (false, (fun i => let '(_, code) := slot_of slots i in
               mkResponse None (if bool_decide (code = CodeNone) then CodeTemporaryChannelFailure else code)) <$> seq 0 (length reqs))
  | Some (packets, replays) =>
      (true, (fun i => let '(pkt, code) := slot_of slots i in
              if negb (bool_decide (code = CodeNone)) then mkResponse None code
              else if replays (u16 (Z.of_nat i)) then mkResponse None CodeTemporaryChannelFailure
              else mkResponse (Some (default zeroPacket pkt, packets i)) CodeNone) <$> seq 0 (length reqs))
  end.
End iterators.

(** ** Properties *)

Section delivery.
Context {TV : TlvValues} {TL : Tlv} {TLL : TlvLaws} {TVL : TlvValueLaws} {LR : LndRecord} {LRL : LndRecordLaws}.

Lemma lookup_type_Some l t v : NoDup l.*1 -> lookup_type t l = Some v <-> (t, v) ∈ l.
Proof.
  intros Hn. unfold lookup_type. destruct (list_find (fun r => r.1 = t) l) as [[i [t' v']]|] eqn:E.
  - apply list_find_Some in E as (Hi & Ht & _). cbn in *. subst t'. apply list_elem_of_lookup_2 in Hi. split; [congruence|]. intros Hv. f_equal.
    apply (elem_of_list_to_map_1 (M := gmap Z)) in Hi; [|done]. apply (elem_of_list_to_map_1 (M := gmap Z)) in Hv; [|done]. congruence.
  - split; [done|]. intros Hv. apply list_find_None in E. rewrite Forall_forall in E. by destruct (E _ Hv).
Qed.

Lemma TypeMap_Some l t r : NoDup l.*1 ->
  TypeMap l !! t = Some r <-> exists v, (t, v) ∈ l /\ r = if known_type t then None else Some v.
Proof.
  intros Hn. unfold TypeMap. rewrite <- elem_of_list_to_map.
  - rewrite list_elem_of_fmap. split.
    + intros ([t' v] & [= -> ->] & Hin). by exists v.
    + intros (v & Hin & ->). by exists (t, v).
  - by rewrite <- list_fmap_compose.
Qed.

Lemma min_violation_none entries : Forall (fun e => violates e.1 e.2 = false) entries -> getMinRequiredViolation entries = None.
Proof. unfold getMinRequiredViolation. induction 1 as [|e es He _ IH]; [done|]. cbn [foldl]. by rewrite He. Qed.

(** Whatever the order of the visit, the violation reported is the smallest one. *)
Lemma min_violation_spec entries t : getMinRequiredViolation entries = Some t ->
  (exists r, (t, r) ∈ entries /\ violates t r = true) /\ forall t' r, (t', r) ∈ entries -> violates t' r = true -> t <= t'.
Proof.
  revert t. induction entries as [|e entries IH] using rev_ind; intros t H; [done|].
  unfold getMinRequiredViolation in H. rewrite foldl_app in H. fold (getMinRequiredViolation entries) in H. cbn [foldl] in H.
  destruct e as [t1 r1]. cbn [fst snd] in H. destruct (violates t1 r1) eqn:Ev.
  - destruct (getMinRequiredViolation entries) as [m|] eqn:Em.
    + destruct (IH m eq_refl) as [(r & Hr & Hv) Hmin]. case_bool_decide; injection H as <-.
      * split; [exists r1; set_solver|]. intros t' r' Hin Hv'. apply elem_of_app in Hin as [Hin|Hin%list_elem_of_singleton]; [|naive_solver lia].
        specialize (Hmin _ _ Hin Hv'). lia.
      * split; [exists r; set_solver|]. intros t' r' Hin Hv'. apply elem_of_app in Hin as [Hin|Hin%list_elem_of_singleton]; [eauto|naive_solver lia].
    + injection H as <-. split; [exists r1; set_solver|]. intros t' r' Hin Hv'.
      apply elem_of_app in Hin as [Hin|Hin%list_elem_of_singleton]; [|naive_solver lia].
      exfalso. clear -Em Hin Hv'. induction entries as [|e es IH] using rev_ind; [set_solver|].
      unfold getMinRequiredViolation in Em. rewrite foldl_app in Em. fold (getMinRequiredViolation es) in Em. cbn [foldl] in Em.
      destruct (violates e.1 e.2) eqn:Ee; [destruct (getMinRequiredViolation es); [case_bool_decide|]; done|].
      apply elem_of_app in Hin as [Hin|Hin%list_elem_of_singleton]; [by apply IH|]. subst e. cbn in Ee. congruence.
  - destruct (IH t H) as [(r & Hr & Hv) Hmin]. split; [exists r; set_solver|]. intros t' r' Hin Hv'.
    apply elem_of_app in Hin as [Hin|Hin%list_elem_of_singleton]; [eauto|]. injection Hin as -> ->. congruence.
Qed.

Lemma exit_iff z : in_u 64 z -> NewShortChanIDFromInt z = Exit <-> z = 0.
Proof.
  intros Hz. split; [|by intros ->]. intros H. destruct (ToUint64_NewShortChanIDFromInt z Hz) as [<- _]. by rewrite H.
Qed.

(** What the reader finds in a packed payload. *)
Lemma packed_lookup h next bs : wf_hop h next -> PackHopPayload h next = Ok bs ->
  exists l, StreamParse bs = Some l /\ NoDup l.*1 /\
    lookup_type AmtOnionType l = Some (ETUint64 (AmtToForward h)) /\
    lookup_type LockTimeOnionType l = Some (ETUint32 (OutgoingTimeLock h)) /\
    lookup_type NextHopOnionType l = (if bool_decide (next <> 0) then Some (be_put 8 next) else None) /\
    lookup_type MPPOnionType l = MPPEncoder <$> hop_MPP h /\
    lookup_type AMPOnionType l = AMPEncoder <$> hop_AMP h /\
    forall t v, (t, v) ∈ l <-> lookup_type t l = Some v /\ known_type t = true \/ CustomRecords h !! t = Some v.
Proof.
  intros Hw Hp. assert (LegacyPayload h = false) as Hl by (unfold PackHopPayload in Hp; by destruct (LegacyPayload h)).
  assert (exists records, hopRecords h next = Ok records) as [records Hr].
  { unfold PackHopPayload in Hp. rewrite Hl in Hp. apply obind_ok_inv in Hp as (r & ? & _). by exists r. }
  destruct (PackHopPayload_ok h next records Hw Hl Hr) as (bs' & l & Hp' & _ & Hd & Hperm & Hnd).
  assert (bs' = bs) as -> by congruence. destruct (hopRecords_fields _ _ _ Hr) as (std & -> & Hstd).
  assert (forall t v, CustomRecords h !! t = Some v -> CustomTypeStart <= t) as Hc by (intros t v H; by apply Hw in H as [[? _] _]).
  assert (forall t v, (t, v) ∈ l <-> (t, v) ∈ std \/ CustomRecords h !! t = Some v) as Hin.
  { intros t v. by rewrite Hperm, elem_of_app, map_records, elem_of_map_to_list. }
  assert (forall t v, t < CustomTypeStart -> (t, v) ∈ std -> lookup_type t l = Some v) as Hstdl.
  { intros t v _ H. apply lookup_type_Some; [done|]. apply Hin. by left. }
  assert (forall t, t < CustomTypeStart -> t ∉ std.*1 -> lookup_type t l = None) as Hnone.
  { intros t Ht H. destruct (lookup_type t l) as [v|] eqn:E; [|done]. apply lookup_type_Some, Hin in E as [E|E%Hc]; [|lia|done].
    destruct H. by apply (list_elem_of_fmap_2 fst) in E. }
  exists l. split_and!; [done|done|..].
  - apply Hstdl; [done|]. rewrite Hstd. set_solver.
  - apply Hstdl; [done|]. rewrite Hstd. set_solver.
  - case_bool_decide; [apply Hstdl; [done|]; rewrite Hstd; set_solver|]. apply Hnone; [done|]. rewrite Hstd.
    destruct (hop_MPP h), (hop_AMP h); cbn; set_solver by done.
  - destruct (hop_MPP h) as [m|]; [apply Hstdl; [done|]; rewrite Hstd; set_solver|]. apply Hnone; [done|]. rewrite Hstd.
    destruct (hop_AMP h); case_bool_decide; cbn; set_solver by done.
  - destruct (hop_AMP h) as [a|]; [apply Hstdl; [done|]; rewrite Hstd; set_solver|]. apply Hnone; [done|]. rewrite Hstd.
    destruct (hop_MPP h); case_bool_decide; cbn; set_solver by done.
  - intros t v. rewrite (lookup_type_Some l), !Hin by done. split; [|tauto]. intros [H|H]; [left|by right].
    split; [by left|]. apply (list_elem_of_fmap_2 fst) in H. rewrite Hstd in H. unfold known_type. apply bool_decide_eq_true.
    case_bool_decide; destruct (hop_MPP h), (hop_AMP h); cbn in H; set_solver.
Qed.

Lemma packed_types h next l (order : gmap Z (option (list byte)) -> list (Z * option (list byte))) :
  wf_hop h next -> (forall m, order m ≡ₚ map_to_list m) -> NoDup l.*1 ->
  (forall t v, (t, v) ∈ l <-> lookup_type t l = Some v /\ known_type t = true \/ CustomRecords h !! t = Some v) ->
  getMinRequiredViolation (order (TypeMap l)) = None /\ NewCustomRecords (TypeMap l) = CustomRecords h.
Proof.
  intros Hw Ho Hnd Hl. assert (forall t v, CustomRecords h !! t = Some v -> CustomTypeStart <= t /\ known_type t = false) as Hc.
  { intros t v H. apply Hw in H as [[? _] _]. split; [done|]. unfold known_type. apply bool_decide_eq_false. intros Hk.
    rewrite !elem_of_cons, elem_of_nil in Hk. unfold CustomTypeStart, AmtOnionType, LockTimeOnionType, NextHopOnionType, MPPOnionType, AMPOnionType in *. lia. }
  split.
  - apply min_violation_none, Forall_forall. intros [t r] Hin. rewrite Ho in Hin. apply elem_of_map_to_list in Hin. cbn [fst snd].
    apply TypeMap_Some in Hin as (v & Hin & ->); [|done]. apply Hl in Hin as [[_ ->]|H%Hc]; [done|]. destruct H as [? ->].
    cbn. rewrite (bool_decide_eq_false_2 (t < _)) by lia. by rewrite andb_false_r.
  - apply map_eq. intros t. unfold NewCustomRecords. rewrite map_lookup_imap. apply option_eq. intros v. rewrite bind_Some. split.
    + intros (r & (v' & Hin & ->)%TypeMap_Some & Hr); [|done]. case_bool_decide; [done|]. apply Hl in Hin as [[_ Hk]|Hin]; [by rewrite Hk in Hr|].
      destruct (Hc _ _ Hin) as [_ Hk]. rewrite Hk in Hr. by injection Hr as ->.
    + intros Hv. destruct (Hc _ _ Hv) as [Ht Hk]. exists (Some v). split.
      * apply TypeMap_Some; [done|]. exists v. rewrite Hk. split; [|done]. apply Hl. by right.
      * by rewrite bool_decide_eq_false_2 by lia.
Qed.

Lemma has_type l t : NoDup l.*1 -> bool_decide (is_Some (TypeMap l !! t)) = bool_decide (is_Some (lookup_type t l)).
Proof.
  intros Hn. apply bool_decide_ext. split; intros [r Hr].
  - apply TypeMap_Some in Hr as (v & Hin & _); [|done]. exists v. by apply lookup_type_Some.
  - apply lookup_type_Some in Hr; [|done]. eexists. apply TypeMap_Some; [done|]. eauto.
Qed.

(** C30: What the sender packs for a hop without multi-path records, intermediate or final, is what
    the hop reads: the amount, the expiry, the next channel and the custom records. *)
Theorem payload_delivered order h next :
  wf_hop h next -> (forall m, order m ≡ₚ map_to_list m) -> LegacyPayload h = false -> hop_MPP h = None -> hop_AMP h = None ->
  exists bs, PackHopPayload h next = Ok bs /\
    NewPayloadFromReader order bs =
      Ok (mkPayload (mkFwdInfo BitcoinNetwork (NewShortChanIDFromInt next) (AmtToForward h) (OutgoingTimeLock h)) None None (CustomRecords h)).
Proof.
  intros Hw Ho Hl Hm Ha. assert (exists records, hopRecords h next = Ok records) as [records Hr] by (unfold hopRecords; rewrite Hm, Ha; eauto).
  destruct (PackHopPayload_ok h next records Hw Hl Hr) as (bs & _ & Hp & _). exists bs. split; [done|].
  destruct (packed_lookup h next bs Hw Hp) as (l & Hd & Hn & L1 & L2 & L3 & L4 & L5 & Hin). rewrite Hm in L4. rewrite Ha in L5.
  unfold NewPayloadFromReader. rewrite Hd. unfold field. rewrite L1, L2, L3, L4, L5. pose proof Hw as (H1 & H2 & H3 & _).
  rewrite tu64_rt, tu32_rt by done. cbn [obind fmap option_fmap option_map].
  assert (match (if bool_decide (next <> 0) then Some (be_put 8 next) else None) with
    | Some v => match DUint64 v with Some a => Ok (Some a) | None => Err ErrPayloadStream end | None => Ok None end =
    Ok (E := payload_err) (if bool_decide (next <> 0) then Some next else None)) as ->.
  { case_bool_decide; [|done]. unfold DUint64. rewrite length_be_put, bool_decide_eq_true_2 by done. by rewrite be_get_put_id. }
  cbn [obind]. assert (default 0 (if bool_decide (next <> 0) then Some next else None) = next) as -> by (case_bool_decide; cbn; lia).
  destruct (packed_types h next l order Hw Ho Hn Hin) as [-> ->].
  unfold ValidateParsedPayloadTypes. rewrite !has_type, L1, L2, L3, L4, L5 by done. cbn [negb bool_decide is_Some].
  rewrite (bool_decide_ext (NewShortChanIDFromInt next = Exit) (next = 0)) by (by apply exit_iff).
  destruct (decide (next = 0)) as [->|Hne]; [done|]. rewrite (bool_decide_eq_true_2 (next <> 0)), (bool_decide_eq_false_2 (next = 0)) by done. done.
Qed.

Lemma be_get_app x y : be_get (x ++ y) = be_get x * 256 ^ Z.of_nat (length y) + be_get y.
Proof.
  induction x as [|b x IH]; [done|]. cbn [app]. rewrite !be_get_cons, IH, length_app, Nat2Z.inj_add, Z.pow_add_r by lia. lia.
Qed.

Lemma small_asset a : in_u 32 a -> a < 2 ^ 24 -> exists rest, be_put 4 a = x00 :: rest.
Proof.
  intros Hi Ha. assert (be_get (be_put 4 a) = a) as Hg by (apply be_get_put_id; unfold in_u in Hi; cbn; lia).
  destruct (be_put 4 a) as [|b rest] eqn:E; [by apply (f_equal length) in E; rewrite length_be_put in E|].
  exists rest. f_equal. apply (f_equal length) in E. rewrite length_be_put in E. cbn in E. rewrite be_get_cons in Hg.
  replace (length rest) with 3%nat in Hg by lia. pose proof (be_get_range rest). pose proof (byte_Z_range b).
  assert (byte_Z b = 0) as Hb by (change (256 ^ Z.of_nat 3) with (2 ^ 24) in Hg; lia). by rewrite <- (byte_of_Z_byte b), Hb.
Qed.

(** A multi-path record of this repository is not the one the hop reads: with the identifier of
    bitcoin, or any one below 2^24, the payload is refused, and with a larger one it is refused
    or the total is another. *)
Theorem mpp_not_delivered order h m bs :
  wf_hop h 0 -> hop_MPP h = Some m -> PackHopPayload h 0 = Ok bs ->
  (mpp_assetId m < 2 ^ 24 -> NewPayloadFromReader order bs = Err ErrPayloadStream) /\
  (forall p, NewPayloadFromReader order bs = Ok p -> exists total, MultiPath p = Some (mpp_paymentAddr m, total) /\ total <> mpp_totalMsat m).
Proof.
  intros Hw Hm Hp. destruct (packed_lookup h 0 bs Hw Hp) as (l & Hd & Hn & L1 & L2 & L3 & L4 & L5 & _). rewrite Hm in L4.
  change (if bool_decide (0 <> 0) then Some (be_put 8 0) else None) with (@None (list byte)) in L3. pose proof Hw as (H1 & H2 & _ & Hwm & _). destruct (Hwm m Hm) as (Haddr & Ht & Hi). destruct (tu64_size _ Ht) as [Hs Hs'].
  assert (lnd_MPPDecoder (MPPEncoder m) =
    if bool_decide (SizeTUint64 (mpp_totalMsat m) <= 4) then total ← DTUint64 (be_put 4 (mpp_assetId m) ++ ETUint64 (mpp_totalMsat m)); Some (mpp_paymentAddr m, total) else None) as Hdec.
  { rewrite lnd_mpp, length_MPPEncoder by (by apply Hwm). rewrite (bool_decide_ext (32 <= 36 + SizeTUint64 (mpp_totalMsat m) <= 40) (SizeTUint64 (mpp_totalMsat m) <= 4)) by lia.
    destruct (bool_decide (SizeTUint64 _ <= 4)); [|done]. unfold MPPEncoder. by rewrite drop_app_length', take_app_length' by done. }
  assert (forall e, lnd_MPPDecoder (MPPEncoder m) = None -> e = NewPayloadFromReader order bs -> e = Err ErrPayloadStream) as Herr.
  { intros e H ->. unfold NewPayloadFromReader. rewrite Hd. unfold field. rewrite L1, L2, L3, L4. rewrite tu64_rt, tu32_rt by done.
    cbn [obind fmap option_fmap option_map]. by rewrite H. }
  split.
  - intros Hsmall. apply (Herr _); [|done]. rewrite Hdec. destruct (bool_decide (SizeTUint64 _ <= 4)); [|done].
    destruct (small_asset (mpp_assetId m) Hi Hsmall) as [rest ->].
    cbn [app]. by rewrite tu64_minimal.
  - intros p Hok. destruct (lnd_MPPDecoder (MPPEncoder m)) as [[addr total]|] eqn:E; [|by rewrite (Herr _ eq_refl eq_refl) in Hok].
    unfold NewPayloadFromReader in Hok. rewrite Hd in Hok. unfold field in Hok. rewrite L1, L2, L3, L4 in Hok. rewrite tu64_rt, tu32_rt in Hok by done.
    cbn [obind fmap option_fmap option_map] in Hok. rewrite E in Hok. cbn [obind] in Hok.
    destruct (match lookup_type AMPOnionType l with Some _ => _ | None => _ end) as [amp| |]; cbn [obind] in Hok; [|done..].
    assert (MultiPath p = Some (addr, total)) as ->.
    { destruct (ValidateParsedPayloadTypes (TypeMap l) (NewShortChanIDFromInt (default 0 None))); [discriminate Hok|].
      destruct (getMinRequiredViolation (order (TypeMap l))); [discriminate Hok|]. by injection Hok as <-. }
    symmetry in Hdec. destruct (bool_decide (SizeTUint64 _ <= 4)); [|done]. apply bind_Some in Hdec as (x & Ed & [= <- <-]).
    exists x. split; [done|]. intros ->. pose proof (tu64_value _ _ Ed) as [Hv _]. pose proof (tu64_rt _ Ht) as Hrt. apply tu64_value in Hrt as [Hv' _].
    assert (mpp_assetId m = 0) as H0.
    { rewrite be_get_app, be_get_put_id in Hv by (unfold in_u in Hi; cbn; lia). unfold in_u in Hi.
      pose proof (Z.pow_pos_nonneg 256 (Z.of_nat (length (ETUint64 (mpp_totalMsat m))))). nia. }
    destruct (small_asset (mpp_assetId m) Hi) as [rest Hrest]; [lia|]. rewrite Hrest in Ed. cbn [app] in Ed. by rewrite tu64_minimal in Ed.
Qed.
End delivery.

(** ** Batches of packets *)

Section batches.
Context {packet : Type}.
Variable Decode : list byte -> onion_err + packet.
Variable TxProcess : Z -> packet -> list byte -> Z -> option onion_err.
Variable zeroPacket : packet.

Lemma decodeSlots_lookup n i reqs slots j : 0 <= i -> i + Z.of_nat n <= 65536 -> i + Z.of_nat n <= Z.of_nat (length reqs) ->
  decodeSlots Decode TxProcess n i reqs slots !! j =
    if bool_decide (i <= j < i + Z.of_nat n) then decode Decode TxProcess j <$> reqs !! Z.to_nat j else slots !! j.
Proof.
  revert i slots. induction n as [|n IH]; intros i slots Hi Hn Hl; cbn [decodeSlots]; [by rewrite bool_decide_eq_false_2 by lia|].
  rewrite IH by lia. assert (u16 i = i) as -> by (apply Z.mod_small; lia).
  destruct (lookup_lt_is_Some_2 reqs (Z.to_nat i)) as [req Hreq]; [lia|]. rewrite Hreq.
  destruct (decide (j = i)) as [->|Hne].
  - rewrite bool_decide_eq_false_2, bool_decide_eq_true_2 by lia. by rewrite lookup_insert_eq, Hreq.
  - rewrite lookup_insert_ne by done. rewrite (bool_decide_ext (i + 1 <= j < i + 1 + Z.of_nat n) (i <= j < i + Z.of_nat (S n))) by lia. done.
Qed.

(** What becomes of one request. *)
Definition expected (commit : option ((nat -> ProcessedPacket) * (Z -> bool))) (i : nat) (req : DecodeHopIteratorRequest) :
    DecodeHopIteratorResponse :=
  match Decode (OnionReader req) with
  | inl e => mkResponse None (decode_code e)
  | inr pkt =>
      match TxProcess (Z.of_nat i) pkt (RHash req) (IncomingCltv req), commit with
      | Some e, _ => mkResponse None (process_code e)
      | None, Some (packets, replays) =>
          if replays (Z.of_nat i) then mkResponse None CodeTemporaryChannelFailure else mkResponse (Some (pkt, packets i)) CodeNone
      | None, None => mkResponse None CodeTemporaryChannelFailure
      end
  end.

(** Decoding a batch: every request gets the response of its own packet.  It has an iterator
    exactly when its code is none: the packet was decoded and processed, the batch was
    committed, and the packet is no replay. *)
Theorem DecodeHopIterators_spec commit reqs :
  Z.of_nat (length reqs) <= 65536 ->
  (DecodeHopIterators Decode TxProcess zeroPacket commit reqs).2 = imap (expected commit) reqs /\
  Forall (fun r => is_Some (HopIterator r) <-> Resp_FailCode r = CodeNone) (imap (expected commit) reqs).
Proof.
  intros Hl. assert (forall e, bool_decide (decode_code e = CodeNone) = false /\ bool_decide (process_code e = CodeNone) = false) as Hcode
    by (by intros []).
  assert (forall i req, reqs !! i = Some req -> slot_of (decodeSlots Decode TxProcess (length reqs) 0 reqs ∅) i = decode Decode TxProcess (Z.of_nat i) req) as Hslot.
  { intros i req Hi. pose proof (lookup_lt_Some _ _ _ Hi) as Hlt. unfold slot_of. rewrite decodeSlots_lookup by lia.
    rewrite bool_decide_eq_true_2 by lia. by rewrite Nat2Z.id, Hi. }
  assert (forall f, (forall i req, reqs !! i = Some req -> f i = expected commit i req) -> f <$> seq 0 (length reqs) = imap (expected commit) reqs) as Hext.
  { intros f Hf. apply list_eq. intros i. rewrite list_lookup_fmap, list_lookup_imap. destruct (reqs !! i) as [req|] eqn:E.
    - rewrite lookup_seq_lt by (by eapply lookup_lt_Some). cbn. f_equal. by apply Hf.
    - apply lookup_ge_None in E. by rewrite lookup_seq_ge. }
  split.
  - unfold DecodeHopIterators. destruct commit as [[packets replays]|]; cbn [snd]; apply Hext; intros i req Hi; rewrite (Hslot i req Hi);
      unfold decode, expected; destruct (Decode _) as [e|pkt].
    + by rewrite (proj1 (Hcode e)).
    + destruct (TxProcess _ _ _ _) as [e|]; [by rewrite (proj2 (Hcode e))|]. apply lookup_lt_Some in Hi.
      assert (u16 (Z.of_nat i) = Z.of_nat i) as -> by (apply Z.mod_small; lia). done.
    + by rewrite (proj1 (Hcode e)).
    + destruct (TxProcess _ _ _ _) as [e|]; [by rewrite (proj2 (Hcode e))|done].
  - apply Forall_lookup. intros i r Hr. rewrite list_lookup_imap in Hr. apply fmap_Some in Hr as (req & _ & ->). unfold expected.
    destruct (Decode _) as [e|pkt]; cbn [HopIterator Resp_FailCode].
    + destruct (Hcode e) as [H _]. apply bool_decide_eq_false in H. split; [by intros [? ?]|done].
    + destruct (TxProcess _ _ _ _) as [e|]; cbn [HopIterator Resp_FailCode].
      * destruct (Hcode e) as [_ H]. apply bool_decide_eq_false in H. split; [by intros [? ?]|done].
      * destruct commit as [[packets replays]|]; [destruct (replays _)|]; cbn; split; try done; by intros [? ?].
Qed.
End batches.

(** * Concrete libraries for the payloads of hops

    Truncated integers, the size of a stream and the record package of lnd as functions, and the
    payload of a route's hop with them. *)

Fixpoint strip_zeros (bs : list byte) : list byte :=
  match bs with x00 :: bs => strip_zeros bs | _ => bs end.

Definition minimal (bs : list byte) : bool := match bs with x00 :: _ => false | _ => true end.

Definition decode_minimal (n : nat) (bs : list byte) : option Z :=
  if bool_decide (length bs <= n)%nat && minimal bs then Some (be_get bs) else None.

Definition tlvvalues_model : TlvValues := {|
  ETUint64 n := strip_zeros (be_put 8 n);
  DTUint64 := decode_minimal 8;
  SizeTUint64 n := Z.of_nat (length (strip_zeros (be_put 8 n)));
  ETUint32 n := strip_zeros (be_put 8 n);
  DTUint32 := decode_minimal 4;
  SizeTUint32 n := Z.of_nat (length (strip_zeros (be_put 8 n)));
  VarIntSize n := Z.of_nat (length (bigsize n));
  MapToRecords := map_to_list;
|}.

Lemma strip_zeros_get bs : be_get (strip_zeros bs) = be_get bs.
Proof. induction bs as [|b bs IH]; [done|]. by destruct b. Qed.

Lemma strip_zeros_minimal bs : minimal (strip_zeros bs) = true.
Proof. induction bs as [|b bs IH]; [done|]. by destruct b. Qed.

Lemma strip_zeros_length bs : (length (strip_zeros bs) <= length bs)%nat.
Proof. induction bs as [|b bs IH]; [done|]. destruct b; cbn in *; lia. Qed.

Lemma minimal_length bs n : minimal bs = true -> be_get bs < 256 ^ Z.of_nat n -> (length bs <= n)%nat.
Proof.
  destruct bs as [|b bs]; intros Hm Hb; [cbn; lia|]. cbn [length].
  assert (1 <= byte_Z b) by (pose proof (byte_Z_range b); assert (byte_Z b <> 0); [|lia]; by destruct b).
  rewrite be_get_cons in Hb. pose proof (be_get_range bs). destruct (decide (S (length bs) <= n)%nat); [done|exfalso].
  assert (256 ^ Z.of_nat n <= 256 ^ Z.of_nat (length bs)) by (apply Z.pow_le_mono_r; lia). nia.
Qed.

Lemma tlvvalues_model_laws : @TlvValueLaws tlvvalues_model tlv_model.
Proof.
  assert (forall n, in_u 64 n -> be_get (strip_zeros (be_put 8 n)) = n) as Hget.
  { intros n Hn. rewrite strip_zeros_get. by apply be_get_put_id. }
  assert (forall n, (length (strip_zeros (be_put 8 n)) <= 8)%nat) as Hlen.
  { intros n. etrans; [apply strip_zeros_length|]. by rewrite length_be_put. }
  assert (forall n, in_u 32 n -> in_u 64 n /\ (length (strip_zeros (be_put 8 n)) <= 4)%nat) as H32.
  { intros n Hn. assert (in_u 64 n) as H64 by (unfold in_u in *; lia). split; [done|]. apply minimal_length; [apply strip_zeros_minimal|].
    rewrite Hget by done. unfold in_u in Hn. cbn. lia. }
  split; cbn; unfold decode_minimal.
  - intros n Hn. rewrite strip_zeros_minimal, bool_decide_eq_true_2 by done. cbn. by rewrite Hget.
  - intros n Hn. specialize (Hlen n). lia.
  - intros bs n H. case_bool_decide; [|done]. destruct (minimal bs); [|done]. injection H as <-. split; [done|lia].
  - intros bs. by rewrite andb_false_r.
  - intros n Hn. destruct (H32 n Hn) as [Hn' Hl]. rewrite strip_zeros_minimal, bool_decide_eq_true_2 by done. cbn. by rewrite Hget.
  - intros n Hn. destruct (H32 n Hn) as [_ Hl]. lia.
  - done.
  - intros l bs H. destruct (increasing l); [|done]. injection H as <-. induction l as [|[t v] l IH]; [done|].
    cbn [fmap list_fmap concat foldr fst snd]. rewrite length_app, Nat2Z.inj_add, IH. unfold encode_record. cbn [fst snd]. rewrite !length_app. lia.
Qed.

Definition lndrecord_model : LndRecord := {|
  lnd_MPPDecoder v :=
    if bool_decide (32 <= Z.of_nat (length v) <= 40) then total ← decode_minimal 8 (drop 32 v); Some (take 32 v, total) else None;
  lnd_AMPDecoder v :=
    if bool_decide (64 <= Z.of_nat (length v) <= 68)
    then index ← decode_minimal 4 (drop 64 v); Some (take 32 v, take 32 (drop 32 v), index) else None;
|}.

Lemma lndrecord_model_laws : @LndRecordLaws tlvvalues_model lndrecord_model.
Proof. by split. Qed.

Definition sphinxpath_model : SphinxPath := {|
  NumMaxHops := 20; LegacyHopDataSize := 65; HMACSize := 32; SphinxPayload := list byte;
  NewLegacyHopPayload amt cltv next := Some (be_put 8 amt ++ be_put 4 cltv ++ next); NewTlvHopPayload := Some |}.

#[local] Existing Instances tlv_model tlv_model_laws tlvvalues_model tlvvalues_model_laws lndrecord_model lndrecord_model_laws sphinxpath_model.

(** An intermediate hop with a custom record, and a final one with a multi-path record. *)
Definition example_hop : Hop :=
  mkHop (replicate 33 x02) 7 600000 1500 None None {[70000 := [x01; x02]]} false.

Definition example_mpp : MPP := NewMPP 5000 (replicate 32 x09) 0.

Definition example_final : Hop := mkHop (replicate 33 x03) 8 599000 1490 (Some example_mpp) None ∅ false.

Lemma example_hop_wf : wf_hop example_hop 9.
Proof.
  unfold wf_hop, in_u. cbn. split_and!; try done; try lia. intros t v H. apply lookup_singleton_Some in H as [<- <-].
  unfold CustomTypeStart. cbn. lia.
Qed.

Lemma example_final_wf : wf_hop example_final 0.
Proof.
  unfold wf_hop, in_u. cbn. split_and!; try done; try lia. intros m [= <-]. unfold wf_mpp, in_u. cbn. split_and!; try done; lia.
Qed.

Lemma payload_delivered_witness :
  exists bs, PackHopPayload example_hop 9 = Ok bs /\
    NewPayloadFromReader map_to_list bs =
      Ok (mkPayload (mkFwdInfo BitcoinNetwork (NewShortChanIDFromInt 9) 1500 600000) None None {[70000 := [x01; x02]]}).
Proof. apply (payload_delivered map_to_list example_hop 9); [apply example_hop_wf|done..]. Defined.

Lemma mpp_not_delivered_witness :
  exists bs, PackHopPayload example_final 0 = Ok bs /\ NewPayloadFromReader map_to_list bs = Err ErrPayloadStream.
Proof.
  destruct (PackHopPayload example_final 0) as [bs| |] eqn:E; [|by vm_compute in E..]. exists bs. split; [done|].
  apply (mpp_not_delivered map_to_list example_final example_mpp bs); [apply example_final_wf|done|done|cbn; lia].
Defined.

Lemma PayloadSize_exact_witness :
  exists bs, PackHopPayload example_final 0 = Ok bs /\
    PayloadSize map_to_list example_final 0 = u64 (u64 (Z.of_nat (length bs)) + VarIntSize (u64 (Z.of_nat (length bs))) + HMACSize).
Proof.
  destruct (PackHopPayload example_final 0) as [bs| |] eqn:E; [|by vm_compute in E..]. exists bs. split; [done|].
  apply (PayloadSize_exact map_to_list example_final 0 bs); [apply example_final_wf|done|done].
Defined.

Lemma fees_add_up_witness :
  exists fees, length fees = 2%nat /\ u64 (sumZ fees) = TotalFees (mkRoute 600100 1510 0 (replicate 33 x01) [example_hop; example_final]).
Proof.
  destruct (fees_add_up (mkRoute 600100 1510 0 (replicate 33 x01) [example_hop; example_final])) as (fees & Hl & _ & Hs); [done|].
  exists fees. split; [exact Hl|exact Hs].
Defined.

(** Two requests, the second of which is a replay. *)
Definition batch_reqs : list DecodeHopIteratorRequest := [mkRequest [x01] [x02] 10; mkRequest [x03] [x04] 11].

Lemma DecodeHopIterators_spec_witness :
  exists r1 r2, (DecodeHopIterators (fun bs => inr bs) (fun _ _ _ _ => None) []
      (Some (fun i => mkProcessed PayloadTLV (mkHopData 0 0 []) [], fun i => bool_decide (i = 1))) batch_reqs).2 = [r1; r2] /\
    (is_Some (HopIterator r1) <-> Resp_FailCode r1 = CodeNone).
Proof.
  destruct (DecodeHopIterators_spec (fun bs : list byte => inr bs) (fun _ _ _ _ => None) []
    (Some (fun i => mkProcessed PayloadTLV (mkHopData 0 0 []) [], fun i => bool_decide (i = 1))) batch_reqs) as [H1 H2]; [cbn; lia|].
  eexists _, _. split; [exact H1|]. by apply Forall_cons in H2 as [? _].
Defined.
