(* ===== verification/ResultInterpretation.v ===== *)
(** * routing: whom to blame for a failed payment

    routing/result_interpretation.go and nodepair.go: from the outcome of an attempt, what to
    remember about the pairs of nodes on its route, and whether the payment is over.  An index
    outside the route is a run-time error. *)

From Stdlib Require Import ZArith Lia.
From S2P Require Import Prelude Wire Features WireMessages WireTlv WireGossip OnionError HopRecords Route.

Local Open Scope Z_scope.
Local Open Scope go_scope.

Inductive FailureReason : Type :=
  | FailureReasonTimeout
  | FailureReasonNoRoute
  | FailureReasonError
  | FailureReasonPaymentDetails
  | FailureReasonInsufficientBalance.

Record pairResult := mkPairResult { amt : Z; success : bool }.

Definition failPairResult (minPenalizeAmt : Z) : pairResult := mkPairResult minPenalizeAmt false.
Definition successPairResult (successAmt : Z) : pairResult := mkPairResult successAmt true.

(** A pair of nodes: from, to. *)
Definition DirectedNodePair : Type := list byte * list byte.
Definition NewDirectedNodePair (from to : list byte) : list byte * list byte := (from, to).
Definition Reverse (d : list byte * list byte) : list byte * list byte := (d.2, d.1).

Record interpretedResult := mkInterpreted {
  nodeFailure : option (list byte);
  pairResults : gmap (list byte * list byte) pairResult;
  finalFailureReason : option FailureReason;
  policyFailure : option (list byte * list byte);
}.

Definition set_node (i : interpretedResult) n := mkInterpreted (Some n) (pairResults i) (finalFailureReason i) (policyFailure i).
Definition set_pair (i : interpretedResult) p r := mkInterpreted (nodeFailure i) (<[p := r]> (pairResults i)) (finalFailureReason i) (policyFailure i).
Definition set_final (i : interpretedResult) r := mkInterpreted (nodeFailure i) (pairResults i) (Some r) (policyFailure i).
Definition set_policy (i : interpretedResult) p := mkInterpreted (nodeFailure i) (pairResults i) (finalFailureReason i) (Some p).

Definition hop_at (rt : Route) (idx : Z) : outcome unit Hop :=
  if bool_decide (0 <= idx) then match Hops rt !! Z.to_nat idx with Some h => Ok h | None => Panic end else Panic.

Definition getPair (rt : Route) (channelIdx : Z) : outcome unit (list byte * list byte * Z) :=
  nodeTo <~ hop_at rt channelIdx ;
  if bool_decide (channelIdx = 0) then Ok (NewDirectedNodePair (SourcePubKey rt) (PubKeyBytes nodeTo), TotalAmount rt)
  else
    nodeFrom <~ hop_at rt (channelIdx - 1) ;
    Ok (NewDirectedNodePair (PubKeyBytes nodeFrom) (PubKeyBytes nodeTo), AmtToForward nodeFrom).

(** ** What is remembered *)

Definition failPair (rt : Route) (idx : Z) (i : interpretedResult) : outcome unit interpretedResult :=
  '(p, _) <~ getPair rt idx ;
  Ok (set_pair (set_pair i p (failPairResult 0)) (Reverse p) (failPairResult 0)).

Definition failPairBalance (rt : Route) (channelIdx : Z) (i : interpretedResult) : outcome unit interpretedResult :=
  '(p, a) <~ getPair rt channelIdx ; Ok (set_pair i p (failPairResult a)).

(** The loops from one index to another, both included. *)
Fixpoint failPairs (rt : Route) (n : nat) (idx : Z) (i : interpretedResult) : outcome unit interpretedResult :=
  match n with O => Ok i | S n => i <~ failPair rt idx i ; failPairs rt n (idx + 1) i end.

Definition failPairRange (rt : Route) (fromIdx toIdx : Z) (i : interpretedResult) : outcome unit interpretedResult :=
  failPairs rt (Z.to_nat (toIdx - fromIdx + 1)) fromIdx i.

Fixpoint successPairs (rt : Route) (n : nat) (idx : Z) (i : interpretedResult) : outcome unit interpretedResult :=
  match n with
  | O => Ok i
  | S n => '(p, a) <~ getPair rt idx ; successPairs rt n (idx + 1) (set_pair i p (successPairResult a))
  end.

Definition successPairRange (rt : Route) (fromIdx toIdx : Z) (i : interpretedResult) : outcome unit interpretedResult :=
  successPairs rt (Z.to_nat (toIdx - fromIdx + 1)) fromIdx i.

Definition failNode (rt : Route) (idx : Z) (i : interpretedResult) : outcome unit interpretedResult :=
  h <~ hop_at rt (idx - 1) ;
  i <~ failPair rt (idx - 1) (set_node i (PubKeyBytes h)) ;
  if bool_decide (idx < Z.of_nat (length (Hops rt))) then failPair rt idx i else Ok i.

(** ** The outcomes *)

Definition processSuccess (rt : Route) (i : interpretedResult) : outcome unit interpretedResult :=
  successPairRange rt 0 (Z.of_nat (length (Hops rt)) - 1) i.

Definition processPaymentOutcomeUnknown (rt : Route) (i : interpretedResult) : outcome unit interpretedResult :=
  let n := Z.of_nat (length (Hops rt)) in
  if bool_decide (n = 1) then i <~ failNode rt n i ; Ok (set_final i FailureReasonError)
  else failPairRange rt 0 (n - 1) i.

Definition processPaymentOutcomeSelf (rt : Route) (failure : option FailureMessage) (i : interpretedResult) :
    outcome unit interpretedResult :=
  match failure with
  | Some (FailInvalidOnionVersion _ | FailInvalidOnionHmac _ | FailInvalidOnionKey _) =>
      i <~ failNode rt 1 i ;
      Ok (if bool_decide (length (Hops rt) = 1%nat) then set_final i FailureReasonError else i)
  | _ => _ <~ hop_at rt 0 ; Ok i
  end.

Definition processPaymentOutcomeFinal (rt : Route) (failure : option FailureMessage) (i : interpretedResult) :
    outcome unit interpretedResult :=
  let n := Z.of_nat (length (Hops rt)) in
  match failure with
  | Some (FailFinalIncorrectCltvExpiry _ | FailFinalIncorrectHtlcAmount _) =>
      if bool_decide (n = 1) then i <~ failNode rt n i ; Ok (set_final i FailureReasonError)
      else i <~ failPair rt (n - 1) i ; successPairRange rt 0 (n - 2) i
  | Some (FailIncorrectPaymentAmount | FailIncorrectDetails _ _) =>
      i <~ successPairRange rt 0 (n - 1) i ; Ok (set_final i FailureReasonPaymentDetails)
  | Some FailFinalExpiryTooSoon => Ok (set_final i FailureReasonPaymentDetails)
  | Some FailMPPTimeout => successPairRange rt 0 (n - 1) i
  | _ =>
      i <~ failNode rt n i ;
      i <~ (if bool_decide (2 <= n) then successPairRange rt 0 (n - 2) i else Ok i) ;
      Ok (set_final i FailureReasonError)
  end.

(** The pair for which a policy may be out of date. *)
Definition policyPair (rt : Route) (errorSourceIdx : Z) (i : interpretedResult) : outcome unit interpretedResult :=
  from <~ hop_at rt (errorSourceIdx - 1) ;
  to <~ hop_at rt errorSourceIdx ;
  Ok (set_policy i (PubKeyBytes from, PubKeyBytes to)).

Definition reportOutgoing (rt : Route) (errorSourceIdx : Z) (i : interpretedResult) : outcome unit interpretedResult :=
  failPair rt errorSourceIdx i.

Definition reportOutgoingBalance (rt : Route) (errorSourceIdx : Z) (i : interpretedResult) : outcome unit interpretedResult :=
  i <~ failPairBalance rt errorSourceIdx i ; successPairRange rt 0 (errorSourceIdx - 1) i.

Definition reportIncoming (rt : Route) (errorSourceIdx : Z) (i : interpretedResult) : outcome unit interpretedResult :=
  if bool_decide (errorSourceIdx = 1) then failNode rt errorSourceIdx i
  else
    i <~ failPair rt (errorSourceIdx - 1) i ;
    if bool_decide (errorSourceIdx > 1) then successPairRange rt 0 (errorSourceIdx - 2) i else Ok i.

Definition reportNode (rt : Route) (errorSourceIdx : Z) (i : interpretedResult) : outcome unit interpretedResult :=
  i <~ failNode rt errorSourceIdx i ;
  if bool_decide (errorSourceIdx > 1) then successPairRange rt 0 (errorSourceIdx - 2) i else Ok i.

Definition reportAll (rt : Route) (errorSourceIdx : Z) (i : interpretedResult) : outcome unit interpretedResult :=
  if bool_decide (errorSourceIdx = 1) then failNode rt errorSourceIdx i else failPairRange rt 0 (errorSourceIdx - 1) i.

Definition processPaymentOutcomeIntermediate (rt : Route) (errorSourceIdx : Z) (failure : option FailureMessage)
    (i : interpretedResult) : outcome unit interpretedResult :=
  match failure with
  | Some (FailInvalidOnionVersion _ | FailInvalidOnionHmac _ | FailInvalidOnionKey _) => reportOutgoing rt errorSourceIdx i
  | Some (InvalidOnionPayload _ _) => reportNode rt errorSourceIdx i
  | Some FailUnknownNextPeer => reportOutgoing rt errorSourceIdx i
  | Some (FailChannelDisabled _ _) =>
      i <~ policyPair rt errorSourceIdx i ;
      i <~ reportOutgoing rt errorSourceIdx i ;
      successPairRange rt 0 (errorSourceIdx - 1) i
  | Some FailPermanentChannelFailure => reportOutgoing rt errorSourceIdx i
  | Some (FailAmountBelowMinimum _ _ | FailFeeInsufficient _ _ | FailIncorrectCltvExpiry _ _) =>
      i <~ policyPair rt errorSourceIdx i ; reportIncoming rt errorSourceIdx i
  | Some (FailTemporaryChannelFailure _) => reportOutgoingBalance rt errorSourceIdx i
  | Some (FailExpiryTooSoon _) => reportAll rt errorSourceIdx i
  | _ => failNode rt errorSourceIdx i
  end.

Definition processFail (rt : Route) (errSourceIdx : option Z) (failure : option FailureMessage) (i : interpretedResult) :
    outcome unit interpretedResult :=
  match errSourceIdx with
  | None => processPaymentOutcomeUnknown rt i
  | Some idx =>
      if bool_decide (idx = 0) then processPaymentOutcomeSelf rt failure i
      else if bool_decide (idx = Z.of_nat (length (Hops rt))) then processPaymentOutcomeFinal rt failure i
      else processPaymentOutcomeIntermediate rt idx failure i
  end.

Definition interpretResult (rt : Route) (succeeded : bool) (failureSrcIdx : option Z) (failure : option FailureMessage) :
    outcome unit interpretedResult :=
  let i := mkInterpreted None ∅ None None in
  if succeeded then processSuccess rt i else processFail rt failureSrcIdx failure i.

(** ** Routes without loops *)

Definition vertices (rt : Route) : list (list byte) := SourcePubKey rt :: (PubKeyBytes <$> Hops rt).
Definition amounts (rt : Route) : list Z := TotalAmount rt :: (AmtToForward <$> Hops rt).
Definition route_len (rt : Route) : Z := Z.of_nat (length (Hops rt)).

(** The pair of the hop at an index, and the amount sent over it. *)
Definition pair_of (rt : Route) (j : Z) : list byte * list byte :=
  (nth (Z.to_nat j) (vertices rt) [], nth (S (Z.to_nat j)) (vertices rt) []).
Definition amt_of (rt : Route) (j : Z) : Z := nth (Z.to_nat j) (amounts rt) 0.

Lemma hop_at_ok rt j : 0 <= j < route_len rt -> exists h, hop_at rt j = Ok h /\ Hops rt !! Z.to_nat j = Some h.
Proof.
  intros Hj. unfold hop_at, route_len in *. rewrite bool_decide_eq_true_2 by lia.
  destruct (lookup_lt_is_Some_2 (Hops rt) (Z.to_nat j)) as [h Hh]; [lia|]. rewrite Hh. by exists h.
Qed.

Lemma getPair_ok rt j : 0 <= j < route_len rt -> getPair rt j = Ok (pair_of rt j, amt_of rt j).
Proof.
  intros Hj. unfold getPair. destruct (hop_at_ok rt j Hj) as (h & -> & Hh). cbn [obind]. unfold pair_of, amt_of, vertices, amounts.
  assert (forall i x, Hops rt !! i = Some x -> nth i (PubKeyBytes <$> Hops rt) [] = PubKeyBytes x /\ nth i (AmtToForward <$> Hops rt) 0 = AmtToForward x) as Hn.
  { intros i x Hi. split; apply nth_lookup_Some; by rewrite list_lookup_fmap, Hi. }
  cbn [nth]. rewrite (proj1 (Hn _ _ Hh)). case_bool_decide as H0; [by subst j|].
  destruct (hop_at_ok rt (j - 1)) as (g & -> & Hg); [lia|]. cbn [obind].
  replace (Z.to_nat j) with (S (Z.to_nat (j - 1))) by lia. cbn [nth]. by destruct (Hn _ _ Hg) as [-> ->].
Qed.

Section loopfree.
Variable rt : Route.
Hypothesis Hnodup : NoDup (vertices rt).

Lemma vertex_inj i j : 0 <= i <= route_len rt -> 0 <= j <= route_len rt -> nth (Z.to_nat i) (vertices rt) [] = nth (Z.to_nat j) (vertices rt) [] -> i = j.
Proof.
  intros Hi Hj H. assert (length (vertices rt) = S (length (Hops rt))) as Hl by (unfold vertices; cbn; by rewrite length_fmap). unfold route_len in *.
  assert (Z.to_nat i = Z.to_nat j) as He; [|lia].
  apply (NoDup_nth (vertices rt) []); [by apply NoDup_ListNoDup|lia..|done].
Qed.

Lemma pair_inj i j : 0 <= i < route_len rt -> 0 <= j < route_len rt -> pair_of rt i = pair_of rt j -> i = j.
Proof. intros Hi Hj. unfold pair_of. intros [H _]%pair_equal_spec. apply vertex_inj; [lia..|done]. Qed.

Lemma pair_reverse i j : 0 <= i < route_len rt -> 0 <= j < route_len rt -> pair_of rt i <> Reverse (pair_of rt j).
Proof.
  intros Hi Hj. unfold pair_of, Reverse. cbn [fst snd]. intros [H1 H2]%pair_equal_spec. replace (S (Z.to_nat j)) with (Z.to_nat (j + 1)) in H1 by lia. replace (S (Z.to_nat i)) with (Z.to_nat (i + 1)) in H2 by lia.
  apply vertex_inj in H1; [|lia..]. apply vertex_inj in H2; [|lia..]. lia.
Qed.

Lemma reverse_inj p q : Reverse p = Reverse q -> p = q.
Proof. destruct p, q. by intros [= -> ->]. Qed.

(** The results by index: of the pairs of the route in its direction, and whether the other
    direction failed. *)
Record shows (i : interpretedResult) (f : Z -> option pairResult) (b : Z -> bool) : Prop := {
  shows_fwd j : 0 <= j < route_len rt -> pairResults i !! pair_of rt j = f j;
  shows_rev j : 0 <= j < route_len rt -> pairResults i !! Reverse (pair_of rt j) = if b j then Some (failPairResult 0) else None;
  shows_only p : is_Some (pairResults i !! p) -> exists j, 0 <= j < route_len rt /\ (p = pair_of rt j \/ p = Reverse (pair_of rt j));
}.

Definition upd {A} (f : Z -> A) (P : Z -> bool) (v : Z -> A) : Z -> A := fun j => if P j then v j else f j.

Definition range (a c j : Z) : bool := bool_decide (a <= j <= c).

Lemma shows_ext i f g b c : shows i f b -> (forall j, 0 <= j < route_len rt -> f j = g j /\ b j = c j) -> shows i g c.
Proof.
  intros [S1 S2 S3] H. split; [|by intros j Hj; destruct (H j Hj) as [_ <-]; apply S2|done]. intros j Hj. destruct (H j Hj) as [<- _]. by apply S1.
Qed.

Lemma set_forward i f b k r : shows i f b -> 0 <= k < route_len rt ->
  shows (set_pair i (pair_of rt k) r) (upd f (range k k) (fun _ => Some r)) b.
Proof.
  intros [S1 S2 S3] Hk. split; cbn [pairResults set_pair].
  - intros j Hj. unfold upd, range. case_bool_decide as Hr.
    + assert (j = k) as -> by lia. by rewrite lookup_insert_eq.
    + rewrite lookup_insert_ne; [by apply S1|]. intros He. apply pair_inj in He; lia.
  - intros j Hj. rewrite lookup_insert_ne by (by apply pair_reverse). by apply S2.
  - intros p. destruct (decide (p = pair_of rt k)) as [->|Hne]; [intros _; exists k; auto|]. rewrite lookup_insert_ne by done. apply S3.
Qed.

Lemma failPair_shows i f b k : shows i f b -> 0 <= k < route_len rt ->
  exists i', failPair rt k i = Ok i' /\ shows i' (upd f (range k k) (fun _ => Some (failPairResult 0))) (upd b (range k k) (fun _ => true)) /\
    nodeFailure i' = nodeFailure i /\ finalFailureReason i' = finalFailureReason i.
Proof.
  intros S Hk. unfold failPair. rewrite getPair_ok by done. cbn [obind]. eexists. split; [done|]. split; [|done].
  apply (set_forward _ _ _ k (failPairResult 0)) in S; [|done]. destruct S as [S1 S2 S3]. split; cbn [pairResults set_pair].
  - intros j Hj. rewrite lookup_insert_ne by (symmetry; by apply pair_reverse). by apply S1.
  - intros j Hj. unfold upd, range. case_bool_decide as Hr.
    + assert (j = k) as -> by lia. by rewrite lookup_insert_eq.
    + rewrite lookup_insert_ne; [by apply S2|]. intros He%reverse_inj. apply pair_inj in He; lia.
  - intros p. destruct (decide (p = Reverse (pair_of rt k))) as [->|Hne]; [intros _; exists k; auto|]. rewrite lookup_insert_ne by done. apply S3.
Qed.

Lemma failPairBalance_shows i f b k : shows i f b -> 0 <= k < route_len rt ->
  exists i', failPairBalance rt k i = Ok i' /\ shows i' (upd f (range k k) (fun j => Some (failPairResult (amt_of rt k)))) b /\
    nodeFailure i' = nodeFailure i /\ finalFailureReason i' = finalFailureReason i.
Proof.
  intros S Hk. unfold failPairBalance. rewrite getPair_ok by done. cbn [obind]. eexists. split; [done|]. split; [|done]. by apply set_forward.
Qed.

Lemma successPairs_shows n k i f b : shows i f b -> 0 <= k -> k + Z.of_nat n <= route_len rt ->
  exists i', successPairs rt n k i = Ok i' /\
    shows i' (upd f (range k (k + Z.of_nat n - 1)) (fun j => Some (successPairResult (amt_of rt j)))) b /\
    nodeFailure i' = nodeFailure i /\ finalFailureReason i' = finalFailureReason i.
Proof.
  revert k i f. induction n as [|n IH]; intros k i f S Hk Hn; cbn [successPairs].
  - exists i. split_and!; try done. eapply shows_ext; [done|]. intros j Hj. unfold upd, range. by rewrite bool_decide_eq_false_2 by lia.
  - rewrite getPair_ok by lia. cbn [obind]. destruct (IH (k + 1) _ _ (set_forward _ _ _ k (successPairResult (amt_of rt k)) S ltac:(lia)))
      as (i' & E & S' & H1 & H2); [lia..|]. exists i'. split_and!; [done| |done..]. eapply shows_ext; [done|]. intros j Hj. split; [|done].
    unfold upd, range. repeat case_bool_decide; try lia; try done. by replace j with k by lia.
Qed.

Lemma successPairRange_shows a c i f b : shows i f b -> 0 <= a <= c + 1 -> c < route_len rt ->
  exists i', successPairRange rt a c i = Ok i' /\
    shows i' (upd f (range a c) (fun j => Some (successPairResult (amt_of rt j)))) b /\
    nodeFailure i' = nodeFailure i /\ finalFailureReason i' = finalFailureReason i.
Proof.
  intros S Ha Hc. destruct (successPairs_shows (Z.to_nat (c - a + 1)) a i f b S) as (i' & E & S' & H); [lia..|].
  exists i'. split; [done|]. split; [|done]. by replace (a + Z.of_nat (Z.to_nat (c - a + 1)) - 1) with c in S' by lia.
Qed.

Lemma failPairs_shows n k i f b : shows i f b -> 0 <= k -> k + Z.of_nat n <= route_len rt ->
  exists i', failPairs rt n k i = Ok i' /\
    shows i' (upd f (range k (k + Z.of_nat n - 1)) (fun j => Some (failPairResult 0))) (upd b (range k (k + Z.of_nat n - 1)) (fun _ => true)) /\
    nodeFailure i' = nodeFailure i /\ finalFailureReason i' = finalFailureReason i.
Proof.
  revert k i f b. induction n as [|n IH]; intros k i f b S Hk Hn; cbn [failPairs].
  - exists i. split_and!; try done. eapply shows_ext; [done|]. intros j Hj. unfold upd, range. by rewrite bool_decide_eq_false_2 by lia.
  - destruct (failPair_shows i f b k S) as (i1 & -> & S1 & H1 & H2); [lia|]. cbn [obind].
    destruct (IH (k + 1) _ _ _ S1) as (i' & E & S' & H3 & H4); [lia..|]. exists i'. split_and!; [done| |congruence..].
    eapply shows_ext; [done|]. intros j Hj. unfold upd, range. repeat case_bool_decide; try lia; done.
Qed.

Lemma failPairRange_shows a c i f b : shows i f b -> 0 <= a <= c + 1 -> c < route_len rt ->
  exists i', failPairRange rt a c i = Ok i' /\
    shows i' (upd f (range a c) (fun j => Some (failPairResult 0))) (upd b (range a c) (fun _ => true)) /\
    nodeFailure i' = nodeFailure i /\ finalFailureReason i' = finalFailureReason i.
Proof.
  intros S Ha Hc. destruct (failPairs_shows (Z.to_nat (c - a + 1)) a i f b S) as (i' & E & S' & H); [lia..|].
  exists i'. split; [done|]. split; [|done]. by replace (a + Z.of_nat (Z.to_nat (c - a + 1)) - 1) with c in S' by lia.
Qed.

(** A node that fails: the pairs before and behind it. *)
Lemma failNode_shows i f b k : shows i f b -> 1 <= k <= route_len rt ->
  exists i', failNode rt k i = Ok i' /\
    shows i' (upd f (range (k - 1) k) (fun _ => Some (failPairResult 0))) (upd b (range (k - 1) k) (fun _ => true)) /\
    nodeFailure i' = Some (nth (Z.to_nat k) (vertices rt) []) /\ finalFailureReason i' = finalFailureReason i.
Proof.
  intros Hs Hk. unfold failNode. destruct (hop_at_ok rt (k - 1)) as (h & -> & Hh); [lia|]. cbn [obind].
  destruct (failPair_shows (set_node i (PubKeyBytes h)) f b (k - 1)) as (i1 & -> & S1 & H1 & H2); [|lia|].
  { destruct Hs as [S1 S2 S3]. by split. }
  cbn [nodeFailure finalFailureReason set_node] in H1, H2.
  assert (nth (Z.to_nat k) (vertices rt) [] = PubKeyBytes h) as Hv.
  { replace (Z.to_nat k) with (S (Z.to_nat (k - 1))) by lia. unfold vertices. cbn [nth]. apply nth_lookup_Some. by rewrite list_lookup_fmap, Hh. }
  cbn [obind]. fold (route_len rt). case_bool_decide as Hlt.
  - destruct (failPair_shows i1 _ _ k S1) as (i2 & E & S2 & H3 & H4); [lia|]. exists i2. rewrite Hv. split_and!; [done| |congruence..].
    eapply shows_ext; [done|]. intros j Hj. unfold upd, range. repeat case_bool_decide; try lia; done.
  - exists i1. rewrite Hv. split_and!; [done| |congruence..]. eapply shows_ext; [done|]. intros j Hj.
    unfold upd, range. repeat case_bool_decide; try lia; done.
Qed.

(** ** What the interpretation says

    With the index of the failing node, if it is known, and the length of the route. *)

(** No success behind a failure or behind a gap, the amounts are those sent, and no pair behind
    the one that leaves the reporting node is touched. *)
Definition sound (idx : option Z) (f : Z -> option pairResult) (b : Z -> bool) : Prop :=
  (forall j k a, 0 <= j <= k -> k < route_len rt -> f k = Some (successPairResult a) -> f j = Some (successPairResult (amt_of rt j))) /\
  (forall j k, 0 <= j < route_len rt -> idx = Some k -> f j <> None -> j <= Z.max 1 k) /\
  (forall j, 0 <= j < route_len rt -> b j = true -> f j = Some (failPairResult 0)).

Lemma shows_start : shows (mkInterpreted None ∅ None None) (fun _ => None) (fun _ => false).
Proof. split; cbn; intros *; rewrite ?lookup_empty; done. Qed.

Lemma shows_final i f b r : shows i f b -> shows (set_final i r) f b.
Proof. intros [S1 S2 S3]. by split. Qed.

Ltac sound_tac :=
  split_and!; unfold upd, range; intros *; repeat case_bool_decide; intros; simplify_eq; try lia; try done.

Ltac run_shows :=
  repeat match goal with
  | S : shows _ _ _ |- context [failNode rt ?k ?i] =>
      let i' := fresh "i" in let E := fresh "E" in let S' := fresh "S" in
      destruct (failNode_shows i _ _ k S) as (i' & E & S' & ? & ?); [unfold route_len in *; lia|]; rewrite E; cbn [obind]; clear S E
  | S : shows _ _ _ |- context [failPair rt ?k ?i] =>
      let i' := fresh "i" in let E := fresh "E" in let S' := fresh "S" in
      destruct (failPair_shows i _ _ k S) as (i' & E & S' & ? & ?); [unfold route_len in *; lia|]; rewrite E; cbn [obind]; clear S E
  | S : shows _ _ _ |- context [failPairBalance rt ?k ?i] =>
      let i' := fresh "i" in let E := fresh "E" in let S' := fresh "S" in
      destruct (failPairBalance_shows i _ _ k S) as (i' & E & S' & ? & ?); [unfold route_len in *; lia|]; rewrite E; cbn [obind]; clear S E
  | S : shows _ _ _ |- context [successPairRange rt ?a ?c ?i] =>
      let i' := fresh "i" in let E := fresh "E" in let S' := fresh "S" in
      destruct (successPairRange_shows a c i _ _ S) as (i' & E & S' & ? & ?); [unfold route_len in *; lia..|]; rewrite E; cbn [obind]; clear S E
  | S : shows _ _ _ |- context [failPairRange rt ?a ?c ?i] =>
      let i' := fresh "i" in let E := fresh "E" in let S' := fresh "S" in
      destruct (failPairRange_shows a c i _ _ S) as (i' & E & S' & ? & ?); [unfold route_len in *; lia..|]; rewrite E; cbn [obind]; clear S E
  end.

(** What every outcome of a failed attempt satisfies; [quiet] are the failures that penalise
    nobody. *)
Definition outcome_ok (idx : option Z) (quiet : Prop) (r : outcome unit interpretedResult) : Prop :=
  exists i f b, r = Ok i /\ shows i f b /\ sound idx f b /\
    (finalFailureReason i = None -> (exists j, 0 <= j < route_len rt /\ exists a, f j = Some (failPairResult a)) \/ quiet).

Lemma unknown_ok : 1 <= route_len rt -> outcome_ok None False (processPaymentOutcomeUnknown rt (mkInterpreted None ∅ None None)).
Proof.
  intros Hn. pose proof shows_start as S. unfold processPaymentOutcomeUnknown. fold (route_len rt). case_bool_decide; run_shows.
  - eexists _, _, _. split_and!; [done|apply shows_final; eassumption|sound_tac|done].
  - eexists _, _, _. split_and!; [done|eassumption|sound_tac|]. intros _. left. exists 0. split; [lia|]. unfold upd, range.
    rewrite bool_decide_eq_true_2 by lia. eauto.
Qed.

Definition bad_onion (failure : option FailureMessage) : bool :=
  match failure with Some (FailInvalidOnionVersion _ | FailInvalidOnionHmac _ | FailInvalidOnionKey _) => true | _ => false end.

Ltac finish_shows j :=
  eexists _, _, _; split_and!;
    [done
    |match goal with S : shows _ _ _ |- _ => first [exact S|exact (shows_final _ _ _ _ S)] end
    |sound_tac
    |first [done|intros _; left; exists j; split; [lia|unfold upd, range; repeat case_bool_decide; try lia; eauto]]].

Lemma outcome_weaken idx (Q : Prop) r : outcome_ok idx False r -> outcome_ok idx Q r.
Proof. intros (i & f & b & H1 & H2 & H3 & H4). exists i, f, b. split_and!; [done..|]. intros H%H4. destruct H as [?|[]]. by left. Qed.

Lemma self_ok failure : 1 <= route_len rt ->
  outcome_ok (Some 0) (bad_onion failure = false) (processPaymentOutcomeSelf rt failure (mkInterpreted None ∅ None None)).
Proof.
  intros Hn. pose proof shows_start as S.
  assert (outcome_ok (Some 0) False (i <~ failNode rt 1 (mkInterpreted None ∅ None None) ;
    Ok (if bool_decide (length (Hops rt) = 1%nat) then set_final i FailureReasonError else i))) as Hbad.
  { run_shows. case_bool_decide; finish_shows 0. }
  assert (bad_onion failure = false -> outcome_ok (Some 0) (bad_onion failure = false) (_ <~ hop_at rt 0 ; Ok (mkInterpreted None ∅ None None))) as Hq.
  { intros Hq. destruct (hop_at_ok rt 0) as (h & -> & _); [lia|]. cbn [obind]. eexists _, _, _. split_and!; [done|exact S|sound_tac|by right]. }
  unfold processPaymentOutcomeSelf. destruct failure as [[]|]; try (by apply Hq); apply outcome_weaken, Hbad.
Qed.

Lemma final_ok failure : 1 <= route_len rt ->
  outcome_ok (Some (route_len rt)) (failure = Some FailMPPTimeout) (processPaymentOutcomeFinal rt failure (mkInterpreted None ∅ None None)).
Proof.
  intros Hn. pose proof shows_start as S. unfold processPaymentOutcomeFinal. fold (route_len rt).
  assert (outcome_ok (Some (route_len rt)) (failure = Some FailMPPTimeout)
    (i <~ failNode rt (route_len rt) (mkInterpreted None ∅ None None) ;
     i <~ (if bool_decide (2 <= route_len rt) then successPairRange rt 0 (route_len rt - 2) i else Ok i) ; Ok (set_final i FailureReasonError))) as Hdef.
  { case_bool_decide; cbn [obind]; run_shows; finish_shows 0. }
  assert (outcome_ok (Some (route_len rt)) (failure = Some FailMPPTimeout)
    (if bool_decide (route_len rt = 1) then i <~ failNode rt (route_len rt) (mkInterpreted None ∅ None None) ; Ok (set_final i FailureReasonError)
     else i <~ failPair rt (route_len rt - 1) (mkInterpreted None ∅ None None) ; successPairRange rt 0 (route_len rt - 2) i)) as Hinc.
  { clear Hdef. case_bool_decide; run_shows; finish_shows (route_len rt - 1). }
  assert (outcome_ok (Some (route_len rt)) (failure = Some FailMPPTimeout)
    (i <~ successPairRange rt 0 (route_len rt - 1) (mkInterpreted None ∅ None None) ; Ok (set_final i FailureReasonPaymentDetails))) as Hdet.
  { run_shows. finish_shows 0. }
  destruct failure as [[]|]; try exact Hdef; try exact Hinc; try exact Hdet.
  - eexists _, _, _. split_and!; [done|apply shows_final; eassumption|sound_tac|done].
  - run_shows. eexists _, _, _. split_and!; [done|eassumption|sound_tac|by right].
Qed.

Lemma policyPair_ok k i f b : shows i f b -> 1 <= k < route_len rt -> exists p, policyPair rt k i = Ok (set_policy i p) /\ shows (set_policy i p) f b.
Proof.
  intros S Hk. unfold policyPair. destruct (hop_at_ok rt (k - 1)) as (h & -> & _); [lia|]. destruct (hop_at_ok rt k) as (h' & -> & _); [lia|].
  cbn [obind]. eexists. split; [done|]. destruct S. by split.
Qed.

Lemma intermediate_ok k failure : 1 <= k < route_len rt ->
  outcome_ok (Some k) False (processPaymentOutcomeIntermediate rt k failure (mkInterpreted None ∅ None None)).
Proof.
  intros Hk. pose proof shows_start as S.
  assert (forall i, shows i (fun _ => None) (fun _ => false) -> outcome_ok (Some k) False (reportOutgoing rt k i)) as Hout.
  { clear S. intros i S. unfold reportOutgoing. run_shows. finish_shows k. }
  assert (forall i, shows i (fun _ => None) (fun _ => false) -> outcome_ok (Some k) False (reportIncoming rt k i)) as Hin.
  { clear S Hout. intros i S. unfold reportIncoming. repeat case_bool_decide; try lia; run_shows; finish_shows (k - 1). }
  assert (outcome_ok (Some k) False (reportNode rt k (mkInterpreted None ∅ None None))) as Hnode.
  { clear Hout Hin. unfold reportNode. case_bool_decide; run_shows; finish_shows k. }
  assert (outcome_ok (Some k) False (reportOutgoingBalance rt k (mkInterpreted None ∅ None None))) as Hbal.
  { unfold reportOutgoingBalance. run_shows. finish_shows k. }
  assert (outcome_ok (Some k) False (reportAll rt k (mkInterpreted None ∅ None None))) as Hall.
  { clear Hout Hin Hnode Hbal. unfold reportAll. case_bool_decide; run_shows; finish_shows (k - 1). }
  assert (outcome_ok (Some k) False (failNode rt k (mkInterpreted None ∅ None None))) as Hdef.
  { run_shows. finish_shows k. }
  destruct (policyPair_ok k _ _ _ S Hk) as (p & Hp & Sp).
  unfold processPaymentOutcomeIntermediate. rewrite !Hp. cbn [obind].
  destruct failure as [[]|]; try exact Hdef; try exact Hnode; try exact Hbal; try exact Hall; try (by apply Hout); try (by apply Hin).
  unfold reportOutgoing. clear S. run_shows. finish_shows k.
Qed.
End loopfree.

(** C9: Interpreting the outcome of an attempt over a route without loops, with a source of the
    failure on the route, always returns.  It remembers pairs of the route only.  Pairs marked
    as successful are the first ones of the route, with the amounts sent over them, and no pair
    behind the one that leaves the reporting node is touched; a success marks all of them.  A
    payment that goes on penalises a pair of the route it must avoid next time, except after a
    local failure and after a timeout of the receiver. *)
Theorem blame_sound rt succeeded src failure :
  NoDup (vertices rt) -> Hops rt <> [] -> (forall k, src = Some k -> 0 <= k <= route_len rt) ->
  exists i, interpretResult rt succeeded src failure = Ok i /\
    (forall p, is_Some (pairResults i !! p) -> exists j, 0 <= j < route_len rt /\ (p = pair_of rt j \/ p = Reverse (pair_of rt j))) /\
    (forall j k a, 0 <= j <= k -> k < route_len rt -> pairResults i !! pair_of rt k = Some (successPairResult a) ->
       pairResults i !! pair_of rt j = Some (successPairResult (amt_of rt j))) /\
    (forall j k, 0 <= j < route_len rt -> src = Some k -> succeeded = false -> is_Some (pairResults i !! pair_of rt j) -> j <= Z.max 1 k) /\
    (succeeded = true -> forall j, 0 <= j < route_len rt -> pairResults i !! pair_of rt j = Some (successPairResult (amt_of rt j))) /\
    (succeeded = false -> finalFailureReason i = None ->
       (exists j a, 0 <= j < route_len rt /\ pairResults i !! pair_of rt j = Some (failPairResult a)) \/
       (src = Some 0 /\ bad_onion failure = false) \/ failure = Some FailMPPTimeout).
Proof.
  intros Hnd Hne Hsrc. assert (1 <= route_len rt) as Hn by (unfold route_len; destruct (Hops rt); [done|cbn; lia]).
  unfold interpretResult. destruct succeeded.
  - unfold processSuccess. fold (route_len rt).
    destruct (successPairRange_shows rt Hnd 0 (route_len rt - 1) _ _ _ (shows_start rt)) as (i & E & S & _); [lia..|].
    assert (forall j, 0 <= j < route_len rt -> pairResults i !! pair_of rt j = Some (successPairResult (amt_of rt j))) as Hall.
    { intros j Hj. rewrite (shows_fwd _ _ _ _ S j Hj). unfold upd, range. by rewrite bool_decide_eq_true_2 by lia. }
    exists i. split_and!; [done|apply (shows_only _ _ _ _ S)| |done|done|done]. intros j k a Hj Hk _. apply Hall. lia.
  - assert (outcome_ok rt src ((src = Some 0 /\ bad_onion failure = false) \/ failure = Some FailMPPTimeout) (processFail rt src failure (mkInterpreted None ∅ None None)))
      as (i & f & b & E & S & (P1 & P2 & _) & P3).
    { assert (forall Q R : Prop, forall r, (Q -> R) -> outcome_ok rt src Q r -> outcome_ok rt src R r) as Hw.
      { intros Q R r HQ (i & f & b & H1 & H2 & H3 & H4). exists i, f, b. split_and!; [done..|]. intros H%H4. tauto. }
      unfold processFail. destruct src as [k|]; [|by apply (Hw False); [|apply unknown_ok]]. specialize (Hsrc k eq_refl). fold (route_len rt).
      case_bool_decide as H0; [subst k; eapply Hw; [|by apply self_ok]; tauto|].
      case_bool_decide as Hf; [subst k; eapply Hw; [|by apply final_ok]; tauto|]. eapply Hw; [|apply intermediate_ok; [done|lia]]. tauto. }
    exists i. split_and!; [done|apply (shows_only _ _ _ _ S)|..|done|].
    + intros j k a Hj Hk H. rewrite (shows_fwd _ _ _ _ S) in H |- * by lia. by eapply P1.
    + intros j k Hj Hk _ [r Hr]. rewrite (shows_fwd _ _ _ _ S) in Hr by lia. apply (P2 j k); [done..|]. congruence.
    + intros _ Hfin. destruct (P3 Hfin) as [(j & Hj & a & Ha)|?]; [|by right]. left. exists j, a. split; [done|]. by rewrite (shows_fwd _ _ _ _ S).
Qed.

(** A payment over two hops that the first one could not forward. *)
Definition blame_hop (b : byte) (a : Z) : Hop := mkHop (replicate 33 b) 1 100 a None None ∅ false.
Definition blame_route : Route := mkRoute 200 1010 0 (replicate 33 x01) [blame_hop x02 1000; blame_hop x03 1000].

Lemma blame_sound_witness :
  exists i, interpretResult blame_route false (Some 1) (Some (FailTemporaryChannelFailure None)) = Ok i /\
    finalFailureReason i = None /\
    exists j a, 0 <= j < 2 /\ pairResults i !! pair_of blame_route j = Some (failPairResult a).
Proof.
  destruct (blame_sound blame_route false (Some 1) (Some (FailTemporaryChannelFailure None))) as (i & E & _ & _ & _ & _ & H).
  - apply (bool_decide_unpack _). vm_compute. exact Logic.I.
  - done.
  - intros k [= <-]. unfold route_len. cbn. lia.
  - exists i. split; [done|]. assert (finalFailureReason i = None) as Hf by (vm_compute in E; injection E as <-; reflexivity).
    split; [done|]. destruct (H eq_refl Hf) as [?|[[[=] _]|[=]]]. done.
Defined.
