(* ===== verification/KeyDerivation.v ===== *)
(** * Keys of a commitment

    The derivation of keys in input/script_utils.go and the key ring of a commitment in
    lnwallet/commitment.go.  The curve of btcec is a parameter: the coordinates that the code
    passes around are a point, and a private key is its scalar.  A byte slice stands for a
    scalar in big-endian order. *)

From stdpp Require Import base list gmap.
From Stdlib Require Import ZArith Lia.
From S2P Require Import Prelude Amounts.
Local Open Scope Z_scope.

Class Secp256k1 := {
  point : Type;
  curveN : Z;
  curveAdd : point -> point -> point;
  curveMul : point -> Z -> point;
  curveBaseMul : Z -> point;
  SerializeCompressed : point -> list byte;
  keySha256 : list byte -> list byte;
}.

(** The multiples of the generator form a group of order [curveN]; a compressed key is its
    point, in 33 bytes. *)
Class Secp256k1Laws `{!Secp256k1} : Prop := {
  curve_order : 0 < curveN;
  curve_add a b : curveAdd (curveBaseMul a) (curveBaseMul b) = curveBaseMul (a + b);
  curve_mul a b : curveMul (curveBaseMul a) b = curveBaseMul (a * b);
  curve_mod a : curveBaseMul (a mod curveN) = curveBaseMul a;
  compressed_inj p q : SerializeCompressed p = SerializeCompressed q -> p = q;
  compressed_size p : length (SerializeCompressed p) = 33%nat;
}.

Section derivation.
Context {SC : Secp256k1}.

(** [PrivateKey.PubKey]. *)
Definition PubKey (priv : Z) : point := curveBaseMul priv.

Definition ScalarBaseMult (k : list byte) : point := curveBaseMul (be_get k).
Definition ScalarMult (p : point) (k : list byte) : point := curveMul p (be_get k).

Definition SingleTweakBytes (commitPoint basePoint : point) : list byte :=
  keySha256 (SerializeCompressed commitPoint ++ SerializeCompressed basePoint).

Definition TweakPubKeyWithTweak (pubKey : point) (tweakBytes : list byte) : point :=
  curveAdd pubKey (ScalarBaseMult tweakBytes).

Definition TweakPubKey (basePoint commitPoint : point) : point :=
  TweakPubKeyWithTweak basePoint (SingleTweakBytes commitPoint basePoint).

Definition TweakPrivKey (basePriv : Z) (commitTweak : list byte) : Z :=
  let tweakInt := be_get commitTweak in
  let tweakInt := tweakInt + basePriv in
  tweakInt mod curveN.

Definition DeriveRevocationPubkey (revokeBase commitPoint : point) : point :=
  let revokeTweakBytes := SingleTweakBytes revokeBase commitPoint in
  let r := ScalarMult revokeBase revokeTweakBytes in
  let commitTweakBytes := SingleTweakBytes commitPoint revokeBase in
  let c := ScalarMult commitPoint commitTweakBytes in
  curveAdd r c.

Definition DeriveRevocationPrivKey (revokeBasePriv commitSecret : Z) : Z :=
  let revokeTweakInt := be_get (SingleTweakBytes (PubKey revokeBasePriv) (PubKey commitSecret)) in
  let commitTweakInt := be_get (SingleTweakBytes (PubKey commitSecret) (PubKey revokeBasePriv)) in
  let revokeHalfPriv := revokeTweakInt * revokeBasePriv in
  let commitHalfPriv := commitTweakInt * commitSecret in
  (revokeHalfPriv + commitHalfPriv) mod curveN.

Definition ComputeCommitmentPoint (commitSecret : list byte) : point := ScalarBaseMult commitSecret.

(** The public keys of [ChannelConfig]. *)
Record ChannelConfig := mkChanConfig {
  MultiSigKey : point;
  RevocationBasePoint : point;
  PaymentBasePoint : point;
  DelayBasePoint : point;
  HtlcBasePoint : point;
}.

Record CommitmentKeyRing := mkKeyRing {
  CommitPoint : point;
  LocalCommitKeyTweak : option (list byte);
  LocalHtlcKeyTweak : list byte;
  LocalHtlcKey : point;
  RemoteHtlcKey : point;
  ToLocalKey : point;
  ToRemoteKey : point;
  RevocationKey : point;
}.

Definition DeriveCommitmentKeys (commitPoint : point) (isOurCommit : bool) (chanType : Z)
    (localChanCfg remoteChanCfg : ChannelConfig) : CommitmentKeyRing :=
  let tweaklessCommit := ChannelType.IsTweakless chanType in
  let localBasePoint := if isOurCommit then DelayBasePoint localChanCfg else PaymentBasePoint localChanCfg in
  let localCommitKeyTweak := SingleTweakBytes commitPoint localBasePoint in
  let localHtlcKeyTweak := SingleTweakBytes commitPoint (HtlcBasePoint localChanCfg) in
  let localHtlcKey := TweakPubKey (HtlcBasePoint localChanCfg) commitPoint in
  let remoteHtlcKey := TweakPubKey (HtlcBasePoint remoteChanCfg) commitPoint in
  let '(toLocalBasePoint, toRemoteBasePoint, revocationBasePoint) :=
    if isOurCommit then
      (DelayBasePoint localChanCfg, PaymentBasePoint remoteChanCfg, RevocationBasePoint remoteChanCfg)
    else
      (DelayBasePoint remoteChanCfg, PaymentBasePoint localChanCfg, RevocationBasePoint localChanCfg) in
  let toLocalKey := TweakPubKey toLocalBasePoint commitPoint in
  let revocationKey := DeriveRevocationPubkey revocationBasePoint commitPoint in
  let '(toRemoteKey, localCommitKeyTweak) :=
    if tweaklessCommit then
      (toRemoteBasePoint, if negb isOurCommit then None else Some localCommitKeyTweak)
    else (TweakPubKey toRemoteBasePoint commitPoint, Some localCommitKeyTweak) in
  mkKeyRing commitPoint localCommitKeyTweak localHtlcKeyTweak localHtlcKey remoteHtlcKey
    toLocalKey toRemoteKey revocationKey.

(** ** Private keys *)

Context {SL : Secp256k1Laws}.

Lemma TweakPrivKey_pub k tweak : PubKey (TweakPrivKey k tweak) = TweakPubKeyWithTweak (PubKey k) tweak.
Proof.
  unfold PubKey, TweakPrivKey, TweakPubKeyWithTweak, ScalarBaseMult. rewrite curve_mod, curve_add. f_equal. lia.
Qed.

Lemma DeriveRevocationPrivKey_pub r s :
  PubKey (DeriveRevocationPrivKey r s) = DeriveRevocationPubkey (PubKey r) (PubKey s).
Proof.
  unfold DeriveRevocationPrivKey, DeriveRevocationPubkey, ScalarMult. unfold PubKey at 1. rewrite curve_mod.
  unfold PubKey in *. rewrite !curve_mul, curve_add. f_equal. lia.
Qed.

Lemma ComputeCommitmentPoint_pub secret : ComputeCommitmentPoint secret = PubKey (be_get secret).
Proof. done. Qed.

(** The private keys of a party, and the public ones it announces. *)
Record Secrets := mkSecrets {
  multiSigPriv : Z; revocationPriv : Z; paymentPriv : Z; delayPriv : Z; htlcPriv : Z }.

Definition announce (s : Secrets) : ChannelConfig :=
  mkChanConfig (PubKey (multiSigPriv s)) (PubKey (revocationPriv s)) (PubKey (paymentPriv s)) (PubKey (delayPriv s))
    (PubKey (htlcPriv s)).

(** The key for signing that [maybeTweakPrivKey] uses for a single tweak. *)
Definition tweaked (tweak : option (list byte)) (k : Z) : Z := from_option (TweakPrivKey k) k tweak.

(** C3: The two ends of a channel derive the same keys for a commitment, each in its own role.
    The party that owns the commitment derives the private keys of its delayed output and of
    its HTLCs, the other one those of its own output and of its HTLCs; who learns the secret
    of the commitment derives the private key of the revocation key, from its own base. *)
Theorem commitment_keys_agree owner other secret chanType :
  let point := ComputeCommitmentPoint secret in
  let mine := DeriveCommitmentKeys point true chanType (announce owner) (announce other) in
  let theirs := DeriveCommitmentKeys point false chanType (announce other) (announce owner) in
  (ToLocalKey mine = ToLocalKey theirs /\ ToRemoteKey mine = ToRemoteKey theirs /\
   RevocationKey mine = RevocationKey theirs /\
   LocalHtlcKey mine = RemoteHtlcKey theirs /\ RemoteHtlcKey mine = LocalHtlcKey theirs) /\
  (PubKey (tweaked (LocalCommitKeyTweak mine) (delayPriv owner)) = ToLocalKey mine /\
   PubKey (tweaked (LocalCommitKeyTweak theirs) (paymentPriv other)) = ToRemoteKey theirs) /\
  (PubKey (TweakPrivKey (htlcPriv owner) (LocalHtlcKeyTweak mine)) = LocalHtlcKey mine /\
   PubKey (TweakPrivKey (htlcPriv other) (LocalHtlcKeyTweak theirs)) = LocalHtlcKey theirs) /\
  PubKey (DeriveRevocationPrivKey (revocationPriv other) (be_get secret)) = RevocationKey theirs.
Proof.
  unfold DeriveCommitmentKeys. destruct (ChannelType.IsTweakless chanType); cbn;
    rewrite ?TweakPrivKey_pub, DeriveRevocationPrivKey_pub, ?ComputeCommitmentPoint_pub; repeat split.
Qed.
End derivation.
