(* ===== verification/ScriptUtils.v ===== *)
(** * Scripts and the engine that runs them

    Scripts are built with the builder of btcd's txscript package and run by its engine, both
    third-party code.  A script is the list of the builder's calls; [run] is the behaviour
    that is documented for the opcodes in use (BIP 16, 65, 68, 112, 147), and the class
    [TxScript] relates builder and engine to it.

    Then the scripts of input/script_utils.go, written with the builder. *)

From stdpp Require Import base list gmap.
From Stdlib Require Import ZArith Lia Bool.
From S2P Require Import Prelude OpReturn CommitTx KeyDerivation.

Local Open Scope Z_scope.

Inductive opcode : Type :=
  | OP_0 | OP_1 | OP_2 | OP_16
  | OP_DUP | OP_DROP | OP_SWAP | OP_IFDUP | OP_SIZE
  | OP_EQUAL | OP_EQUALVERIFY | OP_HASH160
  | OP_IF | OP_NOTIF | OP_ELSE | OP_ENDIF
  | OP_CHECKSIG | OP_CHECKSIGVERIFY | OP_CHECKMULTISIG
  | OP_CHECKLOCKTIMEVERIFY | OP_CHECKSEQUENCEVERIFY.

Definition OP_FALSE : opcode := OP_0.

Inductive element : Type := AddOp (o : opcode) | AddData (bs : list byte) | AddInt64 (n : Z).

#[global] Instance opcode_eq_dec : EqDecision opcode.
Proof. solve_decision. Defined.
#[global] Instance element_eq_dec : EqDecision element.
Proof. solve_decision. Defined.


(** ** Numbers on the stack: little-endian with a sign bit, without spare bytes *)

Fixpoint le_bytes (fuel : nat) (n : Z) : list byte :=
  match fuel with
  | O => []
  | S fuel => if bool_decide (n <= 0) then [] else byte_of_Z (n mod 256) :: le_bytes fuel (n / 256)
  end.

Fixpoint le_value (bs : list byte) : Z :=
  match bs with [] => 0 | b :: bs => byte_Z b + 256 * le_value bs end.

Definition high_bit (bs : list byte) : bool :=
  match last bs with Some b => bool_decide (128 <= byte_Z b) | None => false end.

(** The magnitude, with a byte for the sign when its highest bit is taken.  Only numbers that
    are not negative are pushed. *)
Definition num_bytes (n : Z) : list byte :=
  let mag := le_bytes 9 n in if high_bit mag then mag ++ [x00] else mag.

Definition minimal_num (bs : list byte) : bool :=
  match last bs with
  | None => true
  | Some b => if bool_decide (byte_Z b mod 128 = 0) then high_bit (removelast bs) else true
  end.

Definition num_value (bs : list byte) : Z :=
  if high_bit bs then - (le_value bs - 128 * 256 ^ (Z.of_nat (length bs) - 1)) else le_value bs.

Definition to_num (bs : list byte) : option Z :=
  if bool_decide (length bs <= 5)%nat && minimal_num bs then Some (num_value bs) else None.

(** Everything but zero is true, also a zero with a sign. *)
Fixpoint as_bool (bs : list byte) : bool :=
  match bs with
  | [] => false
  | [b] => bool_decide (b <> x00 /\ b <> x80)
  | b :: bs => if bool_decide (b = x00) then as_bool bs else true
  end.

Definition from_bool (b : bool) : list byte := if b then [x01] else [].

(** ** A spend

    What the opcodes see of the transaction and of the input that spends the output.
    [CheckSig code sig key] is the outcome of checking a signature with its hash type over
    the transaction and the script: [None] where the engine stops, for an encoding that it
    refuses. *)
Record SpendCtx := mkSpend {
  TxVersion : Z;
  TxLockTime : Z;
  TxSequence : Z;
  CleanStack : bool;
  CheckSig : list byte -> list byte -> list byte -> option bool;
}.

Definition LockTimeThreshold : Z := 500000000.
Definition MaxTxInSequenceNum : Z := 4294967295.
Definition SequenceLockTimeDisabled : Z := 2147483648.
Definition SequenceLockTimeIsSeconds : Z := 4194304.
Definition SequenceLockTimeMask : Z := 65535.

(** Both are heights or both are times, and the one of the transaction is not smaller. *)
Definition verifyLockTime (txLockTime threshold lockTime : Z) : bool :=
  Bool.eqb (bool_decide (txLockTime < threshold)) (bool_decide (lockTime < threshold)) && bool_decide (lockTime <= txLockTime).

Definition checkLockTime (ctx : SpendCtx) (n : Z) : bool :=
  bool_decide (0 <= n) && verifyLockTime (TxLockTime ctx) LockTimeThreshold n &&
  bool_decide (TxSequence ctx <> MaxTxInSequenceNum).

Definition checkSequence (ctx : SpendCtx) (n : Z) : bool :=
  bool_decide (0 <= n) &&
  (Z.testbit n 31 ||
   (bool_decide (2 <= TxVersion ctx) && negb (Z.testbit (TxSequence ctx) 31) &&
    let mask := Z.lor SequenceLockTimeIsSeconds SequenceLockTimeMask in
    verifyLockTime (Z.land (TxSequence ctx) mask) SequenceLockTimeIsSeconds (Z.land n mask))).

(** Signatures are checked against keys from the last ones on; a key that does not fit is
    passed over. *)
Fixpoint multiSig (ctx : SpendCtx) (code : list byte) (sigs keys : list (list byte)) : option bool :=
  match sigs, keys with
  | [], _ => Some true
  | _ :: _, [] => Some false
  | sig :: sigs', key :: keys' =>
      match CheckSig ctx code sig key with
      | None => None
      | Some true => multiSig ctx code sigs' keys'
      | Some false => multiSig ctx code sigs keys'
      end
  end.

(** Takes a count and as many items. *)
Definition popCounted (st : list (list byte)) : option (list (list byte) * list (list byte)) :=
  match st with
  | n :: st =>
      match to_num n with
      | Some n => if bool_decide (0 <= n <= 20 /\ n <= Z.of_nat (length st)) then Some (take (Z.to_nat n) st, drop (Z.to_nat n) st) else None
      | None => None
      end
  | [] => None
  end.

Section exec.
Context {SC : Secp256k1}.
Variable ripemd : list byte -> list byte.

Definition hash160 (bs : list byte) : list byte := ripemd (keySha256 bs).

(** One element on the stack, the top first; [None] stops the script. *)
Definition exec (ctx : SpendCtx) (code : list byte) (e : element) (st : list (list byte)) : option (list (list byte)) :=
  match e, st with
  | AddData bs, st => Some (bs :: st)
  | AddInt64 n, st => Some (num_bytes n :: st)
  | AddOp OP_0, st => Some ([] :: st)
  | AddOp OP_1, st => Some (num_bytes 1 :: st)
  | AddOp OP_2, st => Some (num_bytes 2 :: st)
  | AddOp OP_16, st => Some (num_bytes 16 :: st)
  | AddOp OP_DUP, x :: st => Some (x :: x :: st)
  | AddOp OP_DROP, _ :: st => Some st
  | AddOp OP_SWAP, x :: y :: st => Some (y :: x :: st)
  | AddOp OP_IFDUP, x :: st => Some (if as_bool x then x :: x :: st else x :: st)
  | AddOp OP_SIZE, x :: st => Some (num_bytes (Z.of_nat (length x)) :: x :: st)
  | AddOp OP_EQUAL, x :: y :: st => Some (from_bool (bool_decide (x = y)) :: st)
  | AddOp OP_EQUALVERIFY, x :: y :: st => if bool_decide (x = y) then Some st else None
  | AddOp OP_HASH160, x :: st => Some (hash160 x :: st)
  | AddOp OP_CHECKSIG, key :: sig :: st => (fun b => from_bool b :: st) <$> CheckSig ctx code sig key
  | AddOp OP_CHECKSIGVERIFY, key :: sig :: st => if decide (CheckSig ctx code sig key = Some true) then Some st else None
  | AddOp OP_CHECKMULTISIG, st =>
      '(keys, st) ← popCounted st;
      '(sigs, st) ← popCounted st;
      match st with
      | [] :: st => if bool_decide (length sigs <= length keys)%nat then (fun b => from_bool b :: st) <$> multiSig ctx code sigs keys else None
      | _ => None
      end
  | AddOp OP_CHECKLOCKTIMEVERIFY, x :: st =>
      n ← to_num x; if checkLockTime ctx n then Some (x :: st) else None
  | AddOp OP_CHECKSEQUENCEVERIFY, x :: st =>
      n ← to_num x; if checkSequence ctx n then Some (x :: st) else None
  | _, _ => None
  end.

(** Branches that are open: taken, not taken, or inside one that is not taken. *)
Inductive cond : Type := CondTrue | CondFalse | CondSkip.

Definition executing (conds : list cond) : bool := match conds with [] | CondTrue :: _ => true | _ => false end.

Fixpoint run (ctx : SpendCtx) (code : list byte) (els : list element) (conds : list cond) (st : list (list byte)) : option (list (list byte)) :=
  match els with
  | [] => if conds is [] then Some st else None
  | e :: els =>
      match e with
      | AddOp OP_IF =>
          if executing conds then
            match st with x :: st => run ctx code els ((if as_bool x then CondTrue else CondFalse) :: conds) st | [] => None end
          else run ctx code els (CondSkip :: conds) st
      | AddOp OP_NOTIF =>
          if executing conds then
            match st with x :: st => run ctx code els ((if as_bool x then CondFalse else CondTrue) :: conds) st | [] => None end
          else run ctx code els (CondSkip :: conds) st
      | AddOp OP_ELSE =>
          match conds with
          | CondTrue :: conds => run ctx code els (CondFalse :: conds) st
          | CondFalse :: conds => run ctx code els (CondTrue :: conds) st
          | CondSkip :: conds => run ctx code els (CondSkip :: conds) st
          | [] => None
          end
      | AddOp OP_ENDIF => match conds with _ :: conds => run ctx code els conds st | [] => None end
      | _ => if executing conds then st ← exec ctx code e st; run ctx code els conds st else run ctx code els conds st
      end
  end.

(** A script accepts a stack when it ends with true on top, and with nothing below it where
    the engine asks for a clean stack. *)
Definition verdict (ctx : SpendCtx) (final : option (list (list byte))) : bool :=
  match final with
  | Some (x :: rest) => as_bool x && (negb (CleanStack ctx) || bool_decide (rest = []))
  | _ => false
  end.

Definition accepts (ctx : SpendCtx) (code : list byte) (els : list element) (st : list (list byte)) : bool :=
  verdict ctx (run ctx code els [] st).
End exec.

(** ** Builder and engine *)

(** What a script of pushes leaves, the last push last. *)
Definition push_value (e : element) : option (list byte) :=
  match e with
  | AddData bs => Some bs
  | AddInt64 n => Some (num_bytes n)
  | AddOp OP_0 => Some []
  | AddOp OP_1 => Some (num_bytes 1)
  | AddOp OP_2 => Some (num_bytes 2)
  | AddOp OP_16 => Some (num_bytes 16)
  | AddOp _ => None
  end.

Definition p2sh (h : list byte) : list element := [AddOp OP_HASH160; AddData h; AddOp OP_EQUAL].

(** The bytes of an element: small numbers are opcodes. *)
Definition push_size (bs : list byte) : Z :=
  let n := Z.of_nat (length bs) in
  if bool_decide (n = 0 \/ n = 1 /\ (le_value bs <= 16 \/ le_value bs = 129)) then 1
  else if bool_decide (n <= 75) then 1 + n else if bool_decide (n <= 255) then 2 + n else 3 + n.

Definition element_size (e : element) : Z :=
  match e with
  | AddOp _ => 1
  | AddData bs => push_size bs
  | AddInt64 n => push_size (num_bytes n)
  end.

Definition script_size (els : list element) : Z := foldr (fun e n => element_size e + n) 0 els.

Definition MaxScriptElementSize : Z := 520.
Definition MaxScriptSize : Z := 10000.

(** The builder pushes a single zero byte as the empty string. *)
Definition canonical (els : list element) : Prop := Forall (fun e => e <> AddData [x00]) els.

Definition small_push (e : element) : Prop :=
  match e with AddData bs => Z.of_nat (length bs) <= MaxScriptElementSize | _ => True end.

(** [Script] is the builder's result, without one when the script or a push is too long.
    [sigPushes] are the values pushed by a script, without a result when it does more than
    push.  [evalScript] runs a serialised script on a stack, and [Engine] an input script
    and the script of an output. *)
Class TxScript `{SC : Secp256k1} := {
  Ripemd160 : list byte -> list byte;
  Script : list element -> option (list byte);
  sigPushes : list byte -> option (list (list byte));
  evalScript : SpendCtx -> list byte -> list (list byte) -> bool;
  Engine : SpendCtx -> list byte -> list byte -> bool;
}.

Definition Hash160 `{TS : TxScript} (bs : list byte) : list byte := hash160 Ripemd160 bs.

Class TxScriptLaws `{TS : TxScript} : Prop := {
  ripemd_size bs : length (Ripemd160 bs) = 20%nat;
  script_built els : Forall small_push els -> script_size els <= MaxScriptSize ->
    exists bs, Script els = Some bs /\ Z.of_nat (length bs) = script_size els;
  pushes_built els sig : canonical els -> Script els = Some sig -> sigPushes sig = mapM push_value els;
  eval_built els code ctx st : canonical els -> Script els = Some code -> evalScript ctx code st = accepts Ripemd160 ctx code els st;
  engine_p2sh h pk ctx sig : Script (p2sh h) = Some pk ->
    Engine ctx pk sig =
      match @reverse _ <$> sigPushes sig with
      | Some (redeem :: st) => bool_decide (Hash160 redeem = h) && evalScript ctx redeem st
      | _ => false
      end;
  engine_bare els pk ctx sig vals : Script els = Some pk -> (forall h, els <> p2sh h) -> sigPushes sig = Some vals ->
    Engine ctx pk sig = evalScript ctx pk (reverse vals);
}.

(** ** Lemmas on numbers *)

Lemma le_value_bytes fuel n : 0 <= n < 256 ^ Z.of_nat fuel -> le_value (le_bytes fuel n) = n.
Proof.
  revert n. induction fuel as [|fuel IH]; intros n Hn; [cbn in *; lia|]. cbn [le_bytes]. case_bool_decide; [cbn; lia|].
  cbn [le_value]. rewrite byte_Z_of_Z; unfold u8; change (2 ^ 8) with 256; rewrite Z.mod_mod by lia. rewrite IH.
  - pose proof (Z.div_mod n 256). lia.
  - rewrite Nat2Z.inj_succ, Z.pow_succ_r in Hn by lia. split; [apply Z.div_pos; lia|apply Z.div_lt_upper_bound; lia].
Qed.

Lemma length_le_bytes fuel k n : n < 256 ^ Z.of_nat k -> (length (le_bytes fuel n) <= k)%nat.
Proof.
  revert k n. induction fuel as [|fuel IH]; intros k n Hn; cbn; [lia|]. case_bool_decide; cbn; [lia|].
  destruct k as [|k]; [cbn in Hn; lia|]. apply le_n_S, IH. rewrite Nat2Z.inj_succ, Z.pow_succ_r in Hn by lia.
  apply Z.div_lt_upper_bound; lia.
Qed.

Lemma last_le_bytes fuel n b : 0 <= n < 256 ^ Z.of_nat fuel -> last (le_bytes fuel n) = Some b -> byte_Z b <> 0.
Proof.
  revert n. induction fuel as [|fuel IH]; intros n Hn; cbn [le_bytes]; [done|]. case_bool_decide; [done|].
  rewrite last_cons. rewrite Nat2Z.inj_succ, Z.pow_succ_r in Hn by lia.
  assert (0 <= n / 256 < 256 ^ Z.of_nat fuel) as Hd by (split; [apply Z.div_pos; lia|apply Z.div_lt_upper_bound; lia]).
  destruct (last (le_bytes fuel (n / 256))) as [b'|] eqn:E; [intros [= ->]; by eapply IH|].
  intros [= <-]. apply last_None in E. rewrite byte_Z_of_Z. unfold u8. change (2 ^ 8) with 256. rewrite Z.mod_mod by lia.
  intros Hm. pose proof (le_value_bytes fuel (n / 256) Hd) as Hv. rewrite E in Hv. cbn in Hv.
  pose proof (Z.div_mod n 256). lia.
Qed.

Lemma le_value_snoc bs : le_value (bs ++ [x00]) = le_value bs.
Proof. induction bs as [|b bs IH]; [done|]. cbn. by rewrite IH. Qed.

Lemma to_num_bytes n : 0 <= n < 2 ^ 32 -> to_num (num_bytes n) = Some n.
Proof.
  intros Hn. pose proof (length_le_bytes 9 4 n ltac:(change (256 ^ Z.of_nat 4) with (2 ^ 32); lia)) as Hl.
  assert (0 <= n < 256 ^ Z.of_nat 9) as Hn' by (change (256 ^ Z.of_nat 9) with (2 ^ 72); lia).
  pose proof (le_value_bytes 9 n Hn') as Hv. pose proof (last_le_bytes 9 n) as Hlast. unfold num_bytes, to_num.
  generalize dependent (le_bytes 9 n). intros mag Hl Hv Hlast. destruct (high_bit mag) eqn:Eh.
  - rewrite bool_decide_eq_true_2 by (rewrite length_app; cbn; lia). unfold minimal_num, num_value, high_bit at 2. rewrite !last_snoc.
    cbn. rewrite removelast_last, Eh. cbn. by rewrite le_value_snoc, Hv.
  - rewrite bool_decide_eq_true_2 by lia. unfold minimal_num, num_value. rewrite Eh. unfold high_bit in Eh.
    destruct (last mag) as [b|]; [|cbn; by rewrite Hv]. specialize (Hlast b Hn' eq_refl). apply bool_decide_eq_false in Eh.
    rewrite bool_decide_eq_false_2; [cbn; by rewrite Hv|]. pose proof (byte_Z_range b). rewrite Z.mod_small; lia.
Qed.

Lemma num_bytes_inj m n : 0 <= m < 2 ^ 32 -> 0 <= n < 2 ^ 32 -> num_bytes m = num_bytes n <-> m = n.
Proof.
  intros Hm Hn. split; [|by intros ->]. intros E. apply (f_equal to_num) in E. rewrite !to_num_bytes in E by done. congruence.
Qed.

Lemma as_bool_from b : as_bool (from_bool b) = b.
Proof. by destruct b. Qed.

(** * Scripts of a channel

    The scripts of input/script_utils.go, as the calls of the builder, and the witnesses that
    spend them.  A witness is the list of items pushed before the script, the first one at the
    bottom; [GetSigScript] (input/signer.go) turns it into an input script. *)

Local Open Scope go_scope.

Inductive script_err : Type :=
  | ErrScript
  | ErrPubkeySize
  | ErrFundingAmount
  | ErrNilPubKey
  | ErrTxVersion
  | ErrSign
  | ErrWitnessType.

(** [bldr.Script()]. *)
Definition build `{TS : TxScript} (els : list element) : outcome script_err (list byte) :=
  match Script els with Some bs => Ok bs | None => Err ErrScript end.

Section scripts.
Context `{TS : TxScript}.

Definition Ripemd160H (d : list byte) : list byte := Ripemd160 d.

(** ** Standard outputs *)

Definition WitnessScriptHashDisabled (witnessScript : list byte) : outcome script_err (list byte) :=
  build [AddOp OP_0; AddData (keySha256 witnessScript)].

Definition WitnessPubKeyHashDisabled (pubkey : list byte) : outcome script_err (list byte) :=
  build [AddOp OP_0; AddData (Hash160 pubkey)].

Definition GenerateP2SH (script : list byte) : outcome script_err (list byte) :=
  build [AddOp OP_HASH160; AddData (Hash160 script); AddOp OP_EQUAL].

Definition p2pkh (pubkey : list byte) : list element :=
  [AddOp OP_DUP; AddOp OP_HASH160; AddData (Hash160 pubkey); AddOp OP_EQUALVERIFY; AddOp OP_CHECKSIG].

Definition GenerateP2PKH (pubkey : list byte) : outcome script_err (list byte) := build (p2pkh pubkey).

Definition GenerateUnknownWitness : outcome script_err (list byte) :=
  build [AddOp OP_0; AddData (replicate 40 x00)].

Definition CommitScriptUnencumbered (key : point) : outcome script_err (list byte) :=
  build [AddOp OP_0; AddData (Hash160 (SerializeCompressed key))].

(** ** The funding output *)

Definition sortKeys (aPub bPub : list byte) : list byte * list byte :=
  match bytes_compare aPub bPub with Gt => (bPub, aPub) | _ => (aPub, bPub) end.

Definition multisig (aPub bPub : list byte) : list element :=
  let '(aPub, bPub) := sortKeys aPub bPub in
  [AddOp OP_2; AddData aPub; AddData bPub; AddOp OP_2; AddOp OP_CHECKMULTISIG].

Definition GenMultiSigScript (aPub bPub : list byte) : outcome script_err (list byte) :=
  if bool_decide (length aPub <> 33%nat) || bool_decide (length bPub <> 33%nat) then Err ErrPubkeySize
  else build (multisig aPub bPub).

Definition GenFundingPkScript (aPub bPub : list byte) (amt : Z) : outcome script_err (list byte * TxOut) :=
  if bool_decide (amt <= 0) then Err ErrFundingAmount
  else
    witnessScript <~ GenMultiSigScript aPub bPub ;
    pkScript <~ GenerateP2SH witnessScript ;
    Ok (witnessScript, mkTxOut amt pkScript).

Definition SigHashAll : byte := x01.

Definition SpendMultiSig (witnessScript pubA sigA pubB sigB : list byte) : list (list byte) :=
  match bytes_compare pubA pubB with
  | Gt => [[]; sigB ++ [SigHashAll]; sigA ++ [SigHashAll]; witnessScript]
  | _ => [[]; sigA ++ [SigHashAll]; sigB ++ [SigHashAll]; witnessScript]
  end.

Definition SpendMultiSigWithoutW (witnessScript pubA sigA pubB sigB : list byte) : outcome script_err (list byte) :=
  build (AddOp OP_FALSE ::
    match bytes_compare pubA pubB with
    | Gt => [AddData (sigB ++ [SigHashAll]); AddData (sigA ++ [SigHashAll])]
    | _ => [AddData (sigA ++ [SigHashAll]); AddData (sigB ++ [SigHashAll])]
    end ++ [AddData witnessScript]).

(** ** HTLC outputs *)

Definition confirmed (confirmedSpend : bool) : list element :=
  if confirmedSpend then [AddOp OP_1; AddOp OP_CHECKSEQUENCEVERIFY; AddOp OP_DROP] else [].

Definition senderHTLC (senderHtlcKey receiverHtlcKey revocationKey : point) (paymentHash : list byte)
    (confirmedSpend : bool) : list element :=
  [AddOp OP_DUP; AddOp OP_HASH160; AddData (Hash160 (SerializeCompressed revocationKey)); AddOp OP_EQUAL;
   AddOp OP_IF; AddOp OP_CHECKSIG;
   AddOp OP_ELSE;
   AddData (SerializeCompressed receiverHtlcKey);
   AddOp OP_SWAP; AddOp OP_SIZE; AddInt64 32; AddOp OP_EQUAL;
   AddOp OP_NOTIF;
   AddOp OP_DROP; AddOp OP_2; AddOp OP_SWAP; AddData (SerializeCompressed senderHtlcKey); AddOp OP_2; AddOp OP_CHECKMULTISIG;
   AddOp OP_ELSE;
   AddOp OP_HASH160; AddData (Ripemd160H paymentHash); AddOp OP_EQUALVERIFY; AddOp OP_CHECKSIG;
   AddOp OP_ENDIF] ++
  confirmed confirmedSpend ++ [AddOp OP_ENDIF].

Definition SenderHTLCScript (senderHtlcKey receiverHtlcKey revocationKey : point) (paymentHash : list byte)
    (confirmedSpend : bool) : outcome script_err (list byte) :=
  build (senderHTLC senderHtlcKey receiverHtlcKey revocationKey paymentHash confirmedSpend).

Definition receiverHTLC (cltvExpiry : Z) (senderHtlcKey receiverHtlcKey revocationKey : point) (paymentHash : list byte)
    (confirmedSpend : bool) : list element :=
  [AddOp OP_DUP; AddOp OP_HASH160; AddData (Hash160 (SerializeCompressed revocationKey)); AddOp OP_EQUAL;
   AddOp OP_IF; AddOp OP_CHECKSIG;
   AddOp OP_ELSE;
   AddData (SerializeCompressed senderHtlcKey);
   AddOp OP_SWAP; AddOp OP_SIZE; AddInt64 32; AddOp OP_EQUAL;
   AddOp OP_IF;
   AddOp OP_HASH160; AddData (Ripemd160H paymentHash); AddOp OP_EQUALVERIFY;
   AddOp OP_2; AddOp OP_SWAP; AddData (SerializeCompressed receiverHtlcKey); AddOp OP_2; AddOp OP_CHECKMULTISIG;
   AddOp OP_ELSE;
   AddOp OP_DROP; AddInt64 cltvExpiry; AddOp OP_CHECKLOCKTIMEVERIFY; AddOp OP_DROP; AddOp OP_CHECKSIG;
   AddOp OP_ENDIF] ++
  confirmed confirmedSpend ++ [AddOp OP_ENDIF].

Definition ReceiverHTLCScript (cltvExpiry : Z) (senderHtlcKey receiverHtlcKey revocationKey : point) (paymentHash : list byte)
    (confirmedSpend : bool) : outcome script_err (list byte) :=
  build (receiverHTLC cltvExpiry senderHtlcKey receiverHtlcKey revocationKey paymentHash confirmedSpend).

(** ** Delayed outputs *)

Definition secondLevelHtlc (revocationKey delayKey : point) (csvDelay : Z) : list element :=
  [AddOp OP_IF; AddData (SerializeCompressed revocationKey);
   AddOp OP_ELSE; AddInt64 csvDelay; AddOp OP_CHECKSEQUENCEVERIFY; AddOp OP_DROP; AddData (SerializeCompressed delayKey);
   AddOp OP_ENDIF; AddOp OP_CHECKSIG].

Definition SecondLevelHtlcScript (revocationKey delayKey : point) (csvDelay : Z) : outcome script_err (list byte) :=
  build (secondLevelHtlc revocationKey delayKey csvDelay).

Definition leaseSecondLevelHtlc (revocationKey delayKey : point) (csvDelay cltvExpiry : Z) : list element :=
  [AddOp OP_IF; AddData (SerializeCompressed revocationKey);
   AddOp OP_ELSE; AddInt64 cltvExpiry; AddOp OP_CHECKLOCKTIMEVERIFY; AddOp OP_DROP;
   AddInt64 csvDelay; AddOp OP_CHECKSEQUENCEVERIFY; AddOp OP_DROP; AddData (SerializeCompressed delayKey);
   AddOp OP_ENDIF; AddOp OP_CHECKSIG].

Definition LeaseSecondLevelHtlcScript (revocationKey delayKey : point) (csvDelay cltvExpiry : Z) : outcome script_err (list byte) :=
  build (leaseSecondLevelHtlc revocationKey delayKey csvDelay cltvExpiry).

Definition SequenceLockTimeSeconds : Z := Z.shiftl 1 22.

Definition LockTimeToSequence (isSeconds : bool) (locktime : Z) : Z :=
  if negb isSeconds then locktime else Z.lor SequenceLockTimeSeconds (Z.shiftr locktime 9).

Definition commitToSelf (csvTimeout : Z) (selfKey revokeKey : point) : list element :=
  [AddOp OP_IF; AddData (SerializeCompressed revokeKey);
   AddOp OP_ELSE; AddInt64 csvTimeout; AddOp OP_CHECKSEQUENCEVERIFY; AddOp OP_DROP; AddData (SerializeCompressed selfKey);
   AddOp OP_ENDIF; AddOp OP_CHECKSIG].

Definition CommitScriptToSelf (csvTimeout : Z) (selfKey revokeKey : point) : outcome script_err (list byte) :=
  build (commitToSelf csvTimeout selfKey revokeKey).

Definition leaseCommitToSelf (selfKey revokeKey : point) (csvTimeout leaseExpiry : Z) : list element :=
  [AddOp OP_IF; AddData (SerializeCompressed revokeKey);
   AddOp OP_ELSE; AddInt64 leaseExpiry; AddOp OP_CHECKLOCKTIMEVERIFY; AddOp OP_DROP;
   AddInt64 csvTimeout; AddOp OP_CHECKSEQUENCEVERIFY; AddOp OP_DROP; AddData (SerializeCompressed selfKey);
   AddOp OP_ENDIF; AddOp OP_CHECKSIG].

Definition LeaseCommitScriptToSelf (selfKey revokeKey : point) (csvTimeout leaseExpiry : Z) : outcome script_err (list byte) :=
  build (leaseCommitToSelf selfKey revokeKey csvTimeout leaseExpiry).

Definition toRemoteConfirmed (key : point) : list element :=
  [AddData (SerializeCompressed key); AddOp OP_CHECKSIGVERIFY; AddOp OP_1; AddOp OP_CHECKSEQUENCEVERIFY].

Definition CommitScriptToRemoteConfirmed (key : point) : outcome script_err (list byte) := build (toRemoteConfirmed key).

Definition leaseToRemoteConfirmed (key : point) (leaseExpiry : Z) : list element :=
  [AddData (SerializeCompressed key); AddOp OP_CHECKSIGVERIFY;
   AddInt64 leaseExpiry; AddOp OP_CHECKLOCKTIMEVERIFY; AddOp OP_DROP; AddOp OP_1; AddOp OP_CHECKSEQUENCEVERIFY].

Definition LeaseCommitScriptToRemoteConfirmed (key : point) (leaseExpiry : Z) : outcome script_err (list byte) :=
  build (leaseToRemoteConfirmed key leaseExpiry).

Definition anchor (key : point) : list element :=
  [AddData (SerializeCompressed key); AddOp OP_CHECKSIG; AddOp OP_IFDUP; AddOp OP_NOTIF; AddOp OP_16;
   AddOp OP_CHECKSEQUENCEVERIFY; AddOp OP_ENDIF].

Definition CommitScriptAnchor (key : point) : outcome script_err (list byte) := build (anchor key).
End scripts.
