(* ===== verification/ScriptPaths.v ===== *)
(** * Who can spend the outputs of a channel

    For every script of a channel, the stacks it accepts: exactly the paths that the protocol
    means to have, each with the signatures, the preimage and the time it asks for. *)

From stdpp Require Import base list gmap.
From Stdlib Require Import ZArith Lia Bool.
From S2P Require Import Prelude OpReturn CommitTx KeyDerivation ScriptUtils.

Local Open Scope Z_scope.

Section paths.
Context `{TS : TxScript}.
Variables (ctx : SpendCtx) (code : list byte).

Definition signed (key sig : list byte) : Prop := CheckSig ctx code sig key = Some true.

(** What may lie below the items that a path uses. *)
Definition below (rest : list (list byte)) : Prop := CleanStack ctx = true -> rest = [].

Definition confirmed_ok (confirmedSpend : bool) : Prop := confirmedSpend = true -> checkSequence ctx 1 = true.

(** The holder of the revocation key. *)
Definition revoked_path (revocationKey : point) (st : list (list byte)) : Prop :=
  exists key sig rest, st = key :: sig :: rest /\ Hash160 key = Hash160 (SerializeCompressed revocationKey) /\ signed key sig /\ below rest.

(** The owner of a commitment, with its second-level transaction that times the HTLC out. *)
Definition sender_timeout_path (senderKey receiverKey revocationKey : point) (conf : bool) (st : list (list byte)) : Prop :=
  exists x sigS sigR rest, st = x :: sigS :: sigR :: [] :: rest /\ length x <> 32%nat /\
    Hash160 x <> Hash160 (SerializeCompressed revocationKey) /\
    signed (SerializeCompressed senderKey) sigS /\ signed (SerializeCompressed receiverKey) sigR /\ confirmed_ok conf /\ below rest.

(** The receiver of an HTLC with the preimage, on the sender's commitment. *)
Definition sender_redeem_path (receiverKey revocationKey : point) (paymentHash : list byte) (conf : bool) (st : list (list byte)) : Prop :=
  exists preimage sig rest, st = preimage :: sig :: rest /\ length preimage = 32%nat /\
    Hash160 preimage <> Hash160 (SerializeCompressed revocationKey) /\ Hash160 preimage = Ripemd160H paymentHash /\
    signed (SerializeCompressed receiverKey) sig /\ confirmed_ok conf /\ below rest.

(** The owner of a commitment with the preimage, with its second-level transaction. *)
Definition receiver_redeem_path (senderKey receiverKey revocationKey : point) (paymentHash : list byte) (conf : bool)
    (st : list (list byte)) : Prop :=
  exists preimage sigR sigS rest, st = preimage :: sigR :: sigS :: [] :: rest /\ length preimage = 32%nat /\
    Hash160 preimage <> Hash160 (SerializeCompressed revocationKey) /\ Hash160 preimage = Ripemd160H paymentHash /\
    signed (SerializeCompressed receiverKey) sigR /\ signed (SerializeCompressed senderKey) sigS /\ confirmed_ok conf /\ below rest.

(** The sender of an HTLC after its expiry, on the receiver's commitment. *)
Definition receiver_timeout_path (cltvExpiry : Z) (senderKey revocationKey : point) (conf : bool) (st : list (list byte)) : Prop :=
  exists x sig rest, st = x :: sig :: rest /\ length x <> 32%nat /\ Hash160 x <> Hash160 (SerializeCompressed revocationKey) /\
    checkLockTime ctx cltvExpiry = true /\ signed (SerializeCompressed senderKey) sig /\ confirmed_ok conf /\ below rest.

(** ** Steps *)

Lemma num_bytes_32 n : 0 <= n -> num_bytes 32 = num_bytes n <-> n = 32.
Proof.
  intros Hn. split; [|by intros ->]. change (num_bytes 32) with [x20]. unfold num_bytes. cbn [le_bytes]. case_bool_decide; [done|].
  destruct (bool_decide (n / 256 <= 0)) eqn:E.
  - apply bool_decide_eq_true in E. pose proof (Z.div_mod n 256). pose proof (Z.mod_pos_bound n 256). intros Hb.
    assert (byte_of_Z (n mod 256) = x20) as Hx by (revert Hb; destruct (high_bit _); cbn; congruence).
    apply (f_equal byte_Z) in Hx. rewrite byte_Z_of_Z in Hx. unfold u8 in Hx. change (2 ^ 8) with 256 in Hx.
    rewrite Z.mod_mod in Hx by lia. change (byte_Z x20) with 32 in Hx. lia.
  - destruct (high_bit _); cbn; congruence.
Qed.

Lemma multisig_two keyA keyB sigA sigB :
  multiSig ctx code [sigA; sigB] [keyA; keyB] = Some true <-> signed keyA sigA /\ signed keyB sigB.
Proof.
  unfold signed. cbn. destruct (CheckSig ctx code sigA keyA) as [[]|]; [|split; [|by intros []]|by split; [|intros []]].
  - destruct (CheckSig ctx code sigB keyB) as [[]|]; intuition congruence.
  - destruct (CheckSig ctx code sigA keyB) as [[]|]; congruence.
Qed.

Lemma popCounted_two x y st : popCounted (num_bytes 2 :: x :: y :: st) = Some ([x; y], st).
Proof. unfold popCounted. rewrite to_num_bytes by lia. rewrite bool_decide_eq_true_2 by (cbn; lia). done. Qed.

Lemma verdict_bool b rest : verdict ctx (Some (from_bool b :: rest)) = true <-> b = true /\ below rest.
Proof.
  cbn. rewrite as_bool_from, andb_true_iff, orb_true_iff, negb_true_iff. unfold below. rewrite bool_decide_eq_true.
  destruct (CleanStack ctx); intuition congruence.
Qed.

(** The end of a script: the check that the output is confirmed, in a branch that is taken or not. *)
Definition ending (conf taken : bool) (st : list (list byte)) : option (list (list byte)) :=
  run Ripemd160 ctx code (confirmed conf ++ [AddOp OP_ENDIF]) [if taken then CondTrue else CondFalse] st.

Lemma ending_eq conf taken st : ending conf taken st = if taken && conf && negb (checkSequence ctx 1) then None else Some st.
Proof.
  unfold ending. destruct conf, taken; [|done..]. cbn -[num_bytes to_num checkSequence]. rewrite to_num_bytes by lia.
  cbn -[num_bytes to_num checkSequence]. by destruct (checkSequence ctx 1).
Qed.

Lemma ending_bool conf taken rest (r : option bool) :
  verdict ctx (((fun b => from_bool b :: rest) <$> r) ≫= ending conf taken) = true <->
  r = Some true /\ (taken = true -> confirmed_ok conf) /\ below rest.
Proof.
  destruct r as [b|]; [|by split; [|intros []]]. cbn -[verdict ending]. rewrite ending_eq. unfold confirmed_ok.
  destruct (taken && conf && negb (checkSequence ctx 1)) eqn:E.
  - rewrite !andb_true_iff, negb_true_iff in E. destruct E as [[-> ->] E]. split; [done|]. intros (_ & Hc & _). rewrite Hc in E; done.
  - rewrite verdict_bool. assert (taken = true -> conf = true -> checkSequence ctx 1 = true) by
      (intros -> ->; by destruct (checkSequence ctx 1)). intuition congruence.
Qed.

Lemma ending_checksig conf taken key st :
  verdict ctx (match st with [] => None | sig :: st => (fun b => from_bool b :: st) <$> CheckSig ctx code sig key end ≫= ending conf taken) = true <->
  exists sig rest, st = sig :: rest /\ signed key sig /\ (taken = true -> confirmed_ok conf) /\ below rest.
Proof.
  destruct st as [|sig st]; [split; [done|]; by intros (? & ? & ? & _)|]. rewrite ending_bool. unfold signed.
  split; [intros H; by exists sig, st|]. intros (? & ? & [= <- <-] & H). exact H.
Qed.

Definition checkMultiSig (st : list (list byte)) : option (list (list byte)) := exec Ripemd160 ctx code (AddOp OP_CHECKMULTISIG) st.

Lemma ending_multisig conf keyA keyB st :
  verdict ctx (checkMultiSig (num_bytes 2 :: keyA :: keyB :: num_bytes 2 :: st) ≫= ending conf true) = true <->
  exists sigA sigB rest, st = sigA :: sigB :: [] :: rest /\ signed keyA sigA /\ signed keyB sigB /\ confirmed_ok conf /\ below rest.
Proof.
  unfold checkMultiSig, exec. rewrite popCounted_two. cbn -[verdict ending popCounted multiSig].
  destruct st as [|sigA [|sigB [|[|b d] rest]]].
  1,2: split; [unfold popCounted; rewrite to_num_bytes by lia; rewrite bool_decide_eq_false_2 by (cbn; lia); done|by intros (? & ? & ? & ? & _)].
  1,3: rewrite popCounted_two; split; [done|by intros (? & ? & ? & ? & _)].
  rewrite popCounted_two. cbn -[verdict ending multiSig]. rewrite bool_decide_eq_true_2 by lia. rewrite ending_bool, multisig_two. split.
  - intros ([] & Hc & Hb). exists sigA, sigB, rest. split_and!; auto.
  - intros (? & ? & ? & [= <- <- <-] & ? & ? & ? & ?). auto.
Qed.

Ltac script :=
  cbn -[num_bytes confirmed popCounted multiSig hash160 checkLockTime checkSequence to_num as_bool from_bool verdict]; rewrite ?as_bool_from;
  cbn -[num_bytes confirmed popCounted multiSig hash160 checkLockTime checkSequence to_num as_bool from_bool verdict].

(** Takes the paths of a hypothesis apart and closes those that another branch excludes. *)
Ltac paths := repeat match goal with H : _ \/ _ |- _ => destruct H as [H|H] end;
  match goal with H : revoked_path _ _ |- _ => destruct H as (? & ? & ? & H & ?) | H : sender_timeout_path _ _ _ _ _ |- _ => destruct H as (? & ? & ? & ? & H & ?)
  | H : sender_redeem_path _ _ _ _ _ |- _ => destruct H as (? & ? & ? & H & ?) | H : receiver_redeem_path _ _ _ _ _ _ |- _ => destruct H as (? & ? & ? & ? & H & ?)
  | H : receiver_timeout_path _ _ _ _ _ |- _ => destruct H as (? & ? & ? & H & ?) end; simplify_eq; destruct_and?; try (exfalso; congruence).

Lemma size_eq (x : list byte) : num_bytes 32 = num_bytes (Z.of_nat (length x)) <-> length x = 32%nat.
Proof. rewrite num_bytes_32 by lia. lia. Qed.

Lemma senderHTLC_spent senderKey receiverKey revocationKey paymentHash conf st :
  accepts Ripemd160 ctx code (senderHTLC senderKey receiverKey revocationKey paymentHash conf) st = true <->
  revoked_path revocationKey st \/ sender_timeout_path senderKey receiverKey revocationKey conf st \/
  sender_redeem_path receiverKey revocationKey paymentHash conf st.
Proof.
  unfold accepts, senderHTLC. destruct st as [|x st]; [split; [done|intros H; by paths]|].
  script. change (hash160 Ripemd160 x) with (Hash160 x). case_bool_decide as E1; script; [|case_bool_decide as E2; script; rewrite size_eq in E2; [case_bool_decide as E3; script|]].
  - etransitivity; [apply (ending_checksig conf false x st)|]. split; intros H; [destruct H as (sig & rest & -> & ?)|paths; by repeat eexists].
    left. exists x, sig, rest. intuition.
  - etransitivity; [apply (ending_checksig conf true _ st)|]. split; intros H; [destruct H as (sig & rest & -> & ?)|paths; by repeat eexists].
    right; right. exists x, sig, rest. intuition congruence.
  - split; [done|]. intros H. by paths.
  - etransitivity; [apply (ending_multisig conf _ _ st)|]. split; intros H; [destruct H as (sigA & sigB & rest & -> & ?)|paths; by repeat eexists].
    right; left. exists x, sigA, sigB, rest. intuition congruence.
Qed.

Lemma receiverHTLC_spent cltvExpiry senderKey receiverKey revocationKey paymentHash conf st :
  0 <= cltvExpiry < 2 ^ 32 ->
  accepts Ripemd160 ctx code (receiverHTLC cltvExpiry senderKey receiverKey revocationKey paymentHash conf) st = true <->
  revoked_path revocationKey st \/ receiver_redeem_path senderKey receiverKey revocationKey paymentHash conf st \/
  receiver_timeout_path cltvExpiry senderKey revocationKey conf st.
Proof.
  intros Hexp. unfold accepts, receiverHTLC. destruct st as [|x st]; [split; [done|intros H; by paths]|].
  script. change (hash160 Ripemd160 x) with (Hash160 x). case_bool_decide as E1; script; [|case_bool_decide as E2; script; rewrite size_eq in E2; [case_bool_decide as E3; script|]].
  - etransitivity; [apply (ending_checksig conf false x st)|]. split; intros H; [destruct H as (sig & rest & -> & ?)|paths; by repeat eexists].
    left. exists x, sig, rest. intuition.
  - etransitivity; [apply (ending_multisig conf _ _ st)|]. split; intros H; [destruct H as (sigA & sigB & rest & -> & ?)|paths; by repeat eexists].
    right; left. exists x, sigA, sigB, rest. intuition congruence.
  - split; [done|]. intros H. by paths.
  - rewrite to_num_bytes by done. script. destruct (checkLockTime ctx cltvExpiry) eqn:E3; script; [|split; [done|]; intros H; by paths].
    etransitivity; [apply (ending_checksig conf true _ st)|]. split; intros H; [destruct H as (sig & rest & -> & ?)|paths; by repeat eexists].
    right; right. exists x, sig, rest. intuition congruence.
Qed.

(** ** Delayed and direct outputs *)

(** A branch of the spender's choice: the holder of the revocation key at once, or the owner
    of the commitment after the delay. *)
Definition delayed_path (revocationKey delayKey : point) (mature : Prop) (st : list (list byte)) : Prop :=
  exists choice sig rest, st = choice :: sig :: rest /\ below rest /\
    if as_bool choice then signed (SerializeCompressed revocationKey) sig
    else mature /\ signed (SerializeCompressed delayKey) sig.

Lemma final_checksig key sig rest :
  verdict ctx (((fun b => from_bool b :: rest) <$> CheckSig ctx code sig key) ≫= fun st => Some st) = true <-> signed key sig /\ below rest.
Proof.
  unfold signed. destruct (CheckSig ctx code sig key) as [b|]; cbn -[verdict]; [|by split; [|intros []]].
  rewrite verdict_bool. split; intros [? ?]; split; congruence || done.
Qed.

Lemma delayed_cons R D M c sig rest :
  delayed_path R D M (c :: sig :: rest) <->
  (if as_bool c then signed (SerializeCompressed R) sig else M /\ signed (SerializeCompressed D) sig) /\ below rest.
Proof.
  split; [intros (? & ? & ? & [= <- <- <-] & ? & ?); done|]. intros [? ?]. by exists c, sig, rest.
Qed.

Lemma delayed_short R D M st : (length st < 2)%nat -> ~ delayed_path R D M st.
Proof. intros Hl (? & ? & ? & -> & _). cbn in Hl. lia. Qed.

(** A time that the transaction must have reached, when the output has one. *)
Definition expired (lease : option Z) : Prop := forall n, lease = Some n -> checkLockTime ctx n = true.

Definition matured (csvDelay : Z) (lease : option Z) : Prop := checkSequence ctx csvDelay = true /\ expired lease.

Definition delayed (csvDelay : Z) (lease : option Z) (selfKey revokeKey : point) : list element :=
  match lease with Some n => leaseCommitToSelf selfKey revokeKey csvDelay n | None => commitToSelf csvDelay selfKey revokeKey end.

Lemma delayed_spent csvDelay lease selfKey revokeKey st :
  0 <= csvDelay < 2 ^ 32 -> (forall n, lease = Some n -> 0 <= n < 2 ^ 32) ->
  accepts Ripemd160 ctx code (delayed csvDelay lease selfKey revokeKey) st = true <->
  delayed_path revokeKey selfKey (matured csvDelay lease) st.
Proof.
  intros Hd Hn. assert (forall n, lease = Some n -> to_num (num_bytes n) = Some n) as Hto by (intros n ?; apply to_num_bytes; auto).
  unfold accepts, delayed, matured, expired. destruct st as [|c [|sig rest]].
  - split; [by destruct lease|]. intros H. by apply delayed_short in H; cbn; [|lia].
  - split; [|intros H; by apply delayed_short in H; cbn; [|lia]].
    destruct lease as [n|]; script; (destruct (as_bool c); script; [done|]); rewrite ?(Hto n), ?to_num_bytes by done; script;
      [destruct (checkLockTime ctx n); script; [|done]; rewrite ?to_num_bytes by done; script|]; by destruct (checkSequence ctx csvDelay).
  - rewrite delayed_cons. destruct lease as [n|]; script; (destruct (as_bool c) eqn:Ec; script; [apply final_checksig|]).
    + rewrite (Hto n) by done. script. destruct (checkLockTime ctx n) eqn:E1; script; [rewrite to_num_bytes by done; script; destruct (checkSequence ctx csvDelay) eqn:E2; script|].
      * rewrite final_checksig. split; [intros [? ?]|intros [[_ ?] ?]]; split_and!; try done. by intros ? [= <-].
      * split; [done|]. by intros [[[] _] _].
      * split; [done|]. intros [[[_ He] _] _]. rewrite (He n) in E1; done.
    + rewrite to_num_bytes by done. script. destruct (checkSequence ctx csvDelay) eqn:E2; script.
      * rewrite final_checksig. split; [intros [? ?]|intros [[_ ?] ?]]; split_and!; done.
      * split; [done|]. by intros [[[] _] _].
Qed.

(** The other party's output, once the commitment is confirmed. *)
Definition remote_path (key : point) (lease : option Z) (st : list (list byte)) : Prop :=
  exists sig rest, st = sig :: rest /\ signed (SerializeCompressed key) sig /\ expired lease /\ checkSequence ctx 1 = true /\ below rest.

Definition remote (key : point) (lease : option Z) : list element :=
  match lease with Some n => leaseToRemoteConfirmed key n | None => toRemoteConfirmed key end.

Lemma verdict_one rest : verdict ctx (Some (num_bytes 1 :: rest)) = true <-> below rest.
Proof. change (num_bytes 1) with (from_bool true). rewrite verdict_bool. intuition. Qed.

Lemma verdict_sixteen rest : verdict ctx (Some (num_bytes 16 :: rest)) = true <-> below rest.
Proof.
  rewrite <- verdict_one. by unfold verdict.
Qed.

Lemma remote_spent key lease st :
  (forall n, lease = Some n -> 0 <= n < 2 ^ 32) ->
  accepts Ripemd160 ctx code (remote key lease) st = true <-> remote_path key lease st.
Proof.
  intros Hn. assert (forall n, lease = Some n -> to_num (num_bytes n) = Some n) as Hto by (intros n ?; apply to_num_bytes; auto).
  unfold accepts, remote, remote_path, expired, signed. destruct st as [|sig rest]; [split; [by destruct lease|by intros (? & ? & ? & _)]|].
  trans (CheckSig ctx code sig (SerializeCompressed key) = Some true /\ (forall n, lease = Some n -> checkLockTime ctx n = true) /\
    checkSequence ctx 1 = true /\ below rest); [|split; [intros H; by exists sig, rest|by intros (? & ? & [= <- <-] & ?)]].
  destruct lease as [n|]; script; (destruct (decide _) as [Hs|Hs]; script; [|by split; [|intros []]]).
  - rewrite (Hto n) by done. script. destruct (checkLockTime ctx n) eqn:E; script; [|split; [done|]; intros (_ & He & _); rewrite (He n) in E; done].
    rewrite to_num_bytes by lia. script. destruct (checkSequence ctx 1); script; [|by split; [|intros (_ & _ & ? & _)]].
    rewrite verdict_one. split; [intros ?; split_and!; try done; by intros ? [= <-]|by intros (_ & _ & _ & ?)].
  - rewrite to_num_bytes by lia. script. destruct (checkSequence ctx 1); script; [|by split; [|intros (_ & _ & ? & _)]].
    rewrite verdict_one. split; [intros ?; by split_and!|by intros (_ & _ & _ & ?)].
Qed.

(** An anchor: its owner at once, anyone after sixteen blocks. *)
Definition anchor_path (key : point) (st : list (list byte)) : Prop :=
  exists sig rest, st = sig :: rest /\ below rest /\
    (signed (SerializeCompressed key) sig \/ CheckSig ctx code sig (SerializeCompressed key) = Some false /\ checkSequence ctx 16 = true).

Lemma anchor_spent key st : accepts Ripemd160 ctx code (anchor key) st = true <-> anchor_path key st.
Proof.
  unfold accepts, anchor, anchor_path, signed. destruct st as [|sig rest]; [split; [done|by intros (? & ? & ? & _)]|]. script.
  trans (below rest /\ (CheckSig ctx code sig (SerializeCompressed key) = Some true \/
    CheckSig ctx code sig (SerializeCompressed key) = Some false /\ checkSequence ctx 16 = true));
    [|split; [intros H; by exists sig, rest|by intros (? & ? & [= <- <-] & ?)]].
  destruct (CheckSig ctx code sig _) as [[]|]; script.
  - rewrite verdict_bool. intuition.
  - rewrite to_num_bytes by lia. script. destruct (checkSequence ctx 16); script; [rewrite verdict_sixteen; intuition congruence|].
    split; [done|]. intros [_ [?|[]]]; done.
  - split; [done|]. intros [_ [?|[]]]; done.
Qed.

(** The funding output: both keys, in the order of the keys. *)
Definition funding_path (aPub bPub : list byte) (st : list (list byte)) : Prop :=
  exists sigA sigB rest, st = sigB :: sigA :: [] :: rest /\
    signed (sortKeys aPub bPub).1 sigA /\ signed (sortKeys aPub bPub).2 sigB /\ below rest.

Lemma funding_spent aPub bPub st : accepts Ripemd160 ctx code (multisig aPub bPub) st = true <-> funding_path aPub bPub st.
Proof.
  unfold accepts, multisig, funding_path. destruct (sortKeys aPub bPub) as [a b]. cbn [fst snd].
  trans (verdict ctx (checkMultiSig (num_bytes 2 :: b :: a :: num_bytes 2 :: st) ≫= ending false true) = true).
  - script. unfold checkMultiSig, exec. by repeat case_match.
  - rewrite ending_multisig. split.
    + intros (sB & sA & rest & -> & ? & ? & _ & ?). by exists sA, sB, rest.
    + intros (sA & sB & rest & -> & ? & ? & ?). by exists sB, sA, rest.
Qed.

(** An output to the hash of a key. *)
Definition pkh_path (pubkey : list byte) (st : list (list byte)) : Prop :=
  exists key sig rest, st = key :: sig :: rest /\ Hash160 key = Hash160 pubkey /\ signed key sig /\ below rest.

Lemma p2pkh_spent pubkey st : accepts Ripemd160 ctx code (p2pkh pubkey) st = true <-> pkh_path pubkey st.
Proof.
  unfold accepts, p2pkh, pkh_path. destruct st as [|key st]; [split; [done|by intros (? & ? & ? & ? & _)]|]. script.
  change (hash160 Ripemd160 key) with (Hash160 key). case_bool_decide as E; script.
  - destruct st as [|sig rest]; [split; [done|by intros (? & ? & ? & ? & _)]|]. script. rewrite final_checksig.
    split; [intros [? ?]; by exists key, sig, rest|by intros (? & ? & ? & [= <- <- <-] & _ & ? & ?)].
  - split; [done|]. intros (? & ? & ? & [= <- _] & ? & _). by destruct E.
Qed.
End paths.

(** ** Every output *)

Section outputs.
Context `{TS : TxScript}.

Inductive output : Type :=
  | OutFunding (aPub bPub : list byte)
  | OutSender (senderKey receiverKey revocationKey : point) (paymentHash : list byte) (conf : bool)
  | OutReceiver (cltvExpiry : Z) (senderKey receiverKey revocationKey : point) (paymentHash : list byte) (conf : bool)
  | OutSecondLevel (revocationKey delayKey : point) (csvDelay : Z)
  | OutLeaseSecondLevel (revocationKey delayKey : point) (csvDelay cltvExpiry : Z)
  | OutToSelf (csvTimeout : Z) (selfKey revokeKey : point)
  | OutLeaseToSelf (selfKey revokeKey : point) (csvTimeout leaseExpiry : Z)
  | OutToRemote (key : point)
  | OutLeaseToRemote (key : point) (leaseExpiry : Z)
  | OutAnchor (key : point).

(** The function of the source that makes the script. *)
Definition redeem_script (o : output) : outcome script_err (list byte) :=
  match o with
  | OutFunding a b => GenMultiSigScript a b
  | OutSender s r v h c => SenderHTLCScript s r v h c
  | OutReceiver e s r v h c => ReceiverHTLCScript e s r v h c
  | OutSecondLevel v d csv => SecondLevelHtlcScript v d csv
  | OutLeaseSecondLevel v d csv e => LeaseSecondLevelHtlcScript v d csv e
  | OutToSelf csv k v => CommitScriptToSelf csv k v
  | OutLeaseToSelf k v csv e => LeaseCommitScriptToSelf k v csv e
  | OutToRemote k => CommitScriptToRemoteConfirmed k
  | OutLeaseToRemote k e => LeaseCommitScriptToRemoteConfirmed k e
  | OutAnchor k => CommitScriptAnchor k
  end.

(** Who may spend it. *)
Definition spendable (ctx : SpendCtx) (code : list byte) (o : output) (st : list (list byte)) : Prop :=
  match o with
  | OutFunding a b => funding_path ctx code a b st
  | OutSender s r v h c =>
      revoked_path ctx code v st \/ sender_timeout_path ctx code s r v c st \/ sender_redeem_path ctx code r v h c st
  | OutReceiver e s r v h c =>
      revoked_path ctx code v st \/ receiver_redeem_path ctx code s r v h c st \/ receiver_timeout_path ctx code e s v c st
  | OutSecondLevel v d csv => delayed_path ctx code v d (matured ctx csv None) st
  | OutLeaseSecondLevel v d csv e => delayed_path ctx code v d (matured ctx csv (Some e)) st
  | OutToSelf csv k v => delayed_path ctx code v k (matured ctx csv None) st
  | OutLeaseToSelf k v csv e => delayed_path ctx code v k (matured ctx csv (Some e)) st
  | OutToRemote k => remote_path ctx code k None st
  | OutLeaseToRemote k e => remote_path ctx code k (Some e) st
  | OutAnchor k => anchor_path ctx code k st
  end.

(** Delays and expiries are 32-bit integers. *)
Definition wf_output (o : output) : Prop :=
  match o with
  | OutReceiver e _ _ _ _ _ | OutLeaseToRemote _ e => in_u 32 e
  | OutSecondLevel _ _ csv | OutToSelf csv _ _ => in_u 32 csv
  | OutLeaseSecondLevel _ _ csv e | OutLeaseToSelf _ _ csv e => in_u 32 csv /\ in_u 32 e
  | _ => True
  end.

Context {SL : Secp256k1Laws} {TL : TxScriptLaws}.

(** The calls of the builder for each script. *)
Definition elements (o : output) : list element :=
  match o with
  | OutFunding a b => multisig a b
  | OutSender s r v h c => senderHTLC s r v h c
  | OutReceiver e s r v h c => receiverHTLC e s r v h c
  | OutSecondLevel v d csv => secondLevelHtlc v d csv
  | OutLeaseSecondLevel v d csv e => leaseSecondLevelHtlc v d csv e
  | OutToSelf csv k v => commitToSelf csv k v
  | OutLeaseToSelf k v csv e => leaseCommitToSelf k v csv e
  | OutToRemote k => toRemoteConfirmed k
  | OutLeaseToRemote k e => leaseToRemoteConfirmed k e
  | OutAnchor k => anchor k
  end.

Lemma redeem_built o code : redeem_script o = Ok code ->
  Script (elements o) = Some code /\ forall a b, o = OutFunding a b -> length a = 33%nat /\ length b = 33%nat.
Proof.
  destruct o; cbn.
  1: unfold GenMultiSigScript; destruct (bool_decide (length aPub <> _)) eqn:Ea, (bool_decide (length bPub <> _)) eqn:Eb; try done; cbn.
  all: unfold SenderHTLCScript, ReceiverHTLCScript, SecondLevelHtlcScript, LeaseSecondLevelHtlcScript, CommitScriptToSelf,
    LeaseCommitScriptToSelf, CommitScriptToRemoteConfirmed, LeaseCommitScriptToRemoteConfirmed, CommitScriptAnchor, build;
    destruct (Script _); [intros [= <-]|done]; split; [done|]; intros ? ? [= <- <-].
  apply bool_decide_eq_false in Ea, Eb. split; lia.
Qed.

Lemma long_push bs : length bs <> 1%nat -> AddData bs <> AddData [x00].
Proof. intros Hl [= ->]. by apply Hl. Qed.

Lemma hash160_size bs : length (Hash160 bs) = 20%nat.
Proof. apply ripemd_size. Qed.

(** The data of every script are keys and hashes. *)
Lemma elements_data o :
  (forall a b, o = OutFunding a b -> length a = 33%nat /\ length b = 33%nat) ->
  Forall (fun e => forall bs, e = AddData bs -> length bs = 33%nat \/ length bs = 20%nat) (elements o).
Proof.
  intros Hf. destruct o; cbn.
  1: destruct (Hf aPub bPub eq_refl) as [Ha Hb]; unfold multisig, sortKeys; destruct (bytes_compare _ _).
  all: try (destruct conf); repeat (apply Forall_cons; split; [intros ? [= <-]; rewrite ?compressed_size, ?hash160_size, ?ripemd_size; tauto|]);
    try by apply Forall_nil.
Qed.

Lemma redeem_evaluated o ctx code st :
  wf_output o -> redeem_script o = Ok code -> evalScript ctx code st = true <-> spendable ctx code o st.
Proof.
  intros Hw Hr. apply redeem_built in Hr as [Hr Hf]. rewrite (eval_built (elements o) code) by
    (done || (eapply Forall_impl; [by apply elements_data|]; intros e He ->; by destruct (He _ eq_refl))).
  unfold in_u in Hw. destruct o; cbn [wf_output elements spendable] in *.
  - apply funding_spent.
  - apply senderHTLC_spent.
  - by apply receiverHTLC_spent.
  - by apply (delayed_spent _ _ csvDelay None delayKey revocationKey).
  - apply (delayed_spent _ _ csvDelay (Some cltvExpiry) delayKey revocationKey); [by destruct Hw|]. destruct Hw. by intros ? [= <-].
  - by apply (delayed_spent _ _ csvTimeout None selfKey revokeKey).
  - apply (delayed_spent _ _ csvTimeout (Some leaseExpiry) selfKey revokeKey); [by destruct Hw|]. destruct Hw. by intros ? [= <-].
  - by apply (remote_spent _ _ key None).
  - apply (remote_spent _ _ key (Some leaseExpiry)). by intros ? [= <-].
  - apply anchor_spent.
Qed.

(** ** Sizes *)

Lemma push_size_long bs : (2 <= length bs <= 75)%nat -> push_size bs = 1 + Z.of_nat (length bs).
Proof.
  intros H. unfold push_size. rewrite bool_decide_eq_false_2 by lia. by rewrite bool_decide_eq_true_2 by lia.
Qed.

Lemma key_size k : element_size (AddData (SerializeCompressed k)) = 34.
Proof. cbn. rewrite push_size_long; rewrite compressed_size; lia. Qed.

Lemma hash_size bs : element_size (AddData (Ripemd160 bs)) = 21.
Proof. cbn. rewrite push_size_long; rewrite ripemd_size; lia. Qed.

Lemma pubkey_size (bs : list byte) : length bs = 33%nat -> element_size (AddData bs) = 34.
Proof. intros H. cbn. rewrite push_size_long; rewrite H; lia. Qed.

Lemma int_size n : 0 <= n < 2 ^ 32 -> 1 <= element_size (AddInt64 n) <= 6.
Proof.
  intros Hn. cbn -[num_bytes]. assert (length (num_bytes n) <= 5)%nat as Hl.
  { pose proof (length_le_bytes 9 4 n ltac:(change (256 ^ Z.of_nat 4) with (2 ^ 32); lia)). unfold num_bytes.
    destruct (high_bit _); [rewrite length_app; cbn [length]|]; lia. }
  unfold push_size. case_bool_decide; [lia|]. rewrite bool_decide_eq_true_2 by lia. lia.
Qed.

(** The size at which a channel's script stays below the limit for a push. *)
Lemma elements_size o :
  wf_output o -> (forall a b, o = OutFunding a b -> length a = 33%nat /\ length b = 33%nat) -> 34 <= script_size (elements o) <= 148.
Proof.
  intros Hw Hf. destruct o; cbn [wf_output] in Hw; unfold in_u in Hw; unfold elements.
  1: destruct (Hf aPub bPub eq_refl) as [Ha Hb]; unfold multisig, sortKeys; destruct (bytes_compare _ _);
    cbn [script_size foldr]; rewrite !pubkey_size by done; cbn [element_size]; lia.
  all: unfold senderHTLC, receiverHTLC, secondLevelHtlc, leaseSecondLevelHtlc, commitToSelf, leaseCommitToSelf, toRemoteConfirmed,
    leaseToRemoteConfirmed, anchor, confirmed; try (destruct conf); cbn [script_size foldr app]; unfold Hash160, hash160, Ripemd160H;
    rewrite ?key_size, ?hash_size; repeat match goal with
    | |- context [element_size (AddInt64 ?n)] => let H := fresh in assert (1 <= element_size (AddInt64 n) <= 6) as H by (apply int_size; lia); revert H; generalize (element_size (AddInt64 n))
    end; cbn [element_size]; lia.
Qed.

Lemma redeem_total o :
  wf_output o -> (forall a b, o = OutFunding a b -> length a = 33%nat /\ length b = 33%nat) ->
  exists code, redeem_script o = Ok code /\ 34 <= Z.of_nat (length code) <= 148.
Proof.
  intros Hw Hf. pose proof (elements_size o Hw Hf) as Hs. destruct (script_built (elements o)) as (code & Hc & Hl).
  - eapply Forall_impl; [by apply elements_data|]. intros e He. destruct e; [done| |done]. cbn. destruct (He _ eq_refl); unfold MaxScriptElementSize; lia.
  - unfold MaxScriptSize. lia.
  - exists code. split; [|lia]. destruct o; cbn [redeem_script elements] in *.
    1: destruct (Hf aPub bPub eq_refl) as [Ha Hb]; unfold GenMultiSigScript; rewrite !bool_decide_eq_false_2 by lia.
    all: unfold SenderHTLCScript, ReceiverHTLCScript, SecondLevelHtlcScript, LeaseSecondLevelHtlcScript, CommitScriptToSelf,
      LeaseCommitScriptToSelf, CommitScriptToRemoteConfirmed, LeaseCommitScriptToRemoteConfirmed, CommitScriptAnchor, build; by rewrite Hc.
Qed.

Lemma p2sh_total code : exists pk, GenerateP2SH code = Ok pk.
Proof.
  destruct (script_built [AddOp OP_HASH160; AddData (Hash160 code); AddOp OP_EQUAL]) as (pk & Hp & _).
  - repeat (apply Forall_cons; split); try apply Forall_nil; cbn [small_push]; try exact I. rewrite hash160_size. unfold MaxScriptElementSize. lia.
  - cbn [script_size foldr]. unfold Hash160, hash160. rewrite hash_size. cbn. unfold MaxScriptSize. lia.
  - exists pk. unfold GenerateP2SH, build. by rewrite Hp.
Qed.

Lemma engine_of_p2sh code pk ctx sig : GenerateP2SH code = Ok pk ->
  Engine ctx pk sig = match @reverse _ <$> sigPushes sig with
                      | Some (redeem :: st) => bool_decide (Hash160 redeem = Hash160 code) && evalScript ctx redeem st
                      | _ => false
                      end.
Proof. unfold GenerateP2SH, build. destruct (Script _) eqn:E; [|done]. intros [= <-]. by rewrite (engine_p2sh _ _ _ _ E). Qed.

(** C2: The outputs of a channel are guarded.  An output to the hash of one of the scripts of a
    channel is spent exactly by a stack of one of the script's paths below the script itself,
    unless the spender knows another script with the same hash. *)
Theorem outputs_guarded o ctx code pk sig :
  wf_output o -> redeem_script o = Ok code -> GenerateP2SH code = Ok pk ->
  (forall st, sigPushes sig = Some (st ++ [code]) -> Engine ctx pk sig = true <-> spendable ctx code o (reverse st)) /\
  (Engine ctx pk sig = true ->
     (exists st, sigPushes sig = Some (st ++ [code]) /\ spendable ctx code o (reverse st)) \/
     exists redeem, redeem <> code /\ Hash160 redeem = Hash160 code).
Proof.
  intros Hw Hr Hp. rewrite (engine_of_p2sh code pk) by done. split.
  - intros st Hs. rewrite Hs. cbn [fmap option_fmap option_map]. rewrite reverse_snoc, bool_decide_eq_true_2 by done. cbn [andb].
    by apply redeem_evaluated.
  - destruct (sigPushes sig) as [vals|]; [|done]. cbn [fmap option_fmap option_map]. destruct (reverse vals) as [|redeem st] eqn:E; [done|].
    intros [Hh He]%andb_true_iff. apply bool_decide_eq_true in Hh. destruct (decide (redeem = code)) as [->|Hne]; [left|by right; exists redeem].
    exists (reverse st). rewrite <- (reverse_involutive vals), E, reverse_cons. split; [done|]. rewrite reverse_involutive.
    by apply (redeem_evaluated o).
Qed.
End outputs.
