(* ===== verification/WitnessGen.v ===== *)
(** * Spending the outputs of a channel

    The sign descriptors and the signer of input/signdescriptor.go, input/signer.go and
    lnwallet/btcwallet/signer.go, the functions of input/script_utils.go that make witnesses,
    and the generators of input/witnessgen.go and input/input.go.  The items of a witness are
    byte strings; a nil item is the empty one.

    The last part proves that the engine accepts these witnesses. *)

From stdpp Require Import base list gmap.
From Stdlib Require Import ZArith Lia Bool.
From S2P Require Import Prelude Wire OpReturn CommitTx KeyDerivation ScriptUtils ScriptPaths.

Local Open Scope Z_scope.
Local Open Scope go_scope.

(** A transaction with its version. *)
Record SweepTx := mkSweep { Version : Z; Tx : MsgTx }.

Record KeyDescriptor `{SC : Secp256k1} := mkKeyDesc { Family : Z; kd_Index : Z; kd_PubKey : option point }.

(** The fields of [SignDescriptor]; a nil tweak is [None]. *)
Record SignDescriptor `{SC : Secp256k1} := mkSignDesc {
  KeyDesc : KeyDescriptor;
  SingleTweak : option (list byte);
  DoubleTweak : option Z;
  WitnessScript : list byte;
  Output : TxOut;
  sd_AssetId : Z;
  AssetAmt : Z;
  HashType : Z;
  InputIndex : Z;
}.

#[global] Arguments mkKeyDesc {_}.
#[global] Arguments mkSignDesc {_}.

Definition set_InputIndex `{SC : Secp256k1} (d : SignDescriptor) (i : Z) : SignDescriptor :=
  mkSignDesc (KeyDesc d) (SingleTweak d) (DoubleTweak d) (WitnessScript d) (Output d) (sd_AssetId d) (AssetAmt d) (HashType d) i.

Record InputScript := mkInputScript { Witness : list (list byte); SigScript : list byte }.

(** Signatures of btcec and txscript.  [RawTxInSignature] signs an input for a script with a
    private key and appends the hash type; [sigValid] is the engine's check. *)
Class TxSign := {
  ecSignature : Type;
  sigSerialize : ecSignature -> list byte;
  sigParse : list byte -> option ecSignature;
  RawTxInSignature : SweepTx -> Z -> list byte -> Z -> Z -> option (list byte);
  sigValid : SweepTx -> Z -> list byte -> list byte -> list byte -> option bool;
}.

Class TxSignLaws `{SC : Secp256k1, TG : TxSign} : Prop := {
  signature_size s : (1 <= length (sigSerialize s) <= 72)%nat;
  raw_signature tx idx code ht k sig : RawTxInSignature tx idx code ht k = Some sig ->
    exists s, sig = sigSerialize s ++ [byte_of_Z ht] /\ sigParse (sigSerialize s) = Some s /\
      sigValid tx idx code sig (SerializeCompressed (PubKey k)) = Some true;
}.

Definition txSequence (tx : SweepTx) (idx : Z) : Z :=
  match TxIns (Tx tx) !! Z.to_nat idx with Some i => Sequence i | None => 0 end.

(** What the engine sees when input [idx] of a transaction is checked. *)
Definition spend `{TG : TxSign} (tx : SweepTx) (idx : Z) (clean : bool) : SpendCtx :=
  mkSpend (Version tx) (LockTime (Tx tx)) (txSequence tx idx) clean (sigValid tx idx).

(** ** The interface [Signer] *)

(** [Known] are the descriptors whose public key is the one of the key the signer has. *)
Class Signer `{SC : Secp256k1, TG : TxSign} := {
  SignOutputRaw : SweepTx -> SignDescriptor -> option ecSignature;
  ComputePkhInputScript : SweepTx -> SignDescriptor -> option InputScript;
  Known : KeyDescriptor -> Prop;
}.

(** The public key a descriptor asks to sign for. *)
Definition signing_key `{SC : Secp256k1} (d : SignDescriptor) : option point :=
  p ← kd_PubKey (KeyDesc d);
  Some match SingleTweak d, DoubleTweak d with
       | Some t, _ => TweakPubKeyWithTweak p t
       | None, Some s => DeriveRevocationPubkey p (PubKey s)
       | None, None => p
       end.

Class SignerLaws `{SG : Signer} : Prop := {
  signs tx d s p : Known (KeyDesc d) -> SignOutputRaw tx d = Some s -> signing_key d = Some p ->
    sigValid tx (InputIndex d) (WitnessScript d) (sigSerialize s ++ [byte_of_Z (HashType d)]) (SerializeCompressed p) = Some true;
  pkh_signs tx d i p : Known (KeyDesc d) -> ComputePkhInputScript tx d = Some i -> kd_PubKey (KeyDesc d) = Some p ->
    exists sig, Witness i = [sig; SerializeCompressed p] /\
      sigValid tx (InputIndex d) (PkScript (Output d)) sig (SerializeCompressed p) = Some true;
}.

(** ** The signer of lnwallet/btcwallet

    The key locators of lnd and the key manager of btcwallet are third-party: when a locator
    is empty, the private key of a locator, and of an
    address, which may be unknown. *)

Inductive address_key : Type := AddressKey (k : Z) | ErrAddressNotFound | ErrAddress.

Section btcwallet.
Context `{TS : TxScript} {TG : TxSign}.
Variable LocatorIsEmpty : Z -> Z -> bool.
Variable deriveKeyByLocator : Z -> Z -> option Z.
Variable PrivKeyForAddress : list byte -> address_key.

Definition fetchPrivKey (keyDesc : KeyDescriptor) : option Z :=
  let emptyLocator := LocatorIsEmpty (Family keyDesc) (kd_Index keyDesc) in
  match kd_PubKey keyDesc with
  | Some p =>
      if negb emptyLocator then deriveKeyByLocator (Family keyDesc) (kd_Index keyDesc)
      else
        match PrivKeyForAddress (Hash160 (SerializeCompressed p)) with
        | ErrAddressNotFound => deriveKeyByLocator (Family keyDesc) (kd_Index keyDesc)
        | ErrAddress => None
        | AddressKey key => Some key
        end
  | None => deriveKeyByLocator (Family keyDesc) (kd_Index keyDesc)
  end.

Definition maybeTweakPrivKey (signDesc : SignDescriptor) (privKey : Z) : Z :=
  match SingleTweak signDesc, DoubleTweak signDesc with
  | Some t, _ => TweakPrivKey privKey t
  | None, Some s => DeriveRevocationPrivKey privKey s
  | None, None => privKey
  end.

Definition BtcWallet_SignOutputRaw (tx : SweepTx) (signDesc : SignDescriptor) : option ecSignature :=
  privKey ← fetchPrivKey (KeyDesc signDesc);
  sig ← RawTxInSignature tx (InputIndex signDesc) (WitnessScript signDesc) (HashType signDesc) (maybeTweakPrivKey signDesc privKey);
  sigParse (take (length sig - 1) sig).

Definition BtcWallet_ComputePkhInputScript (tx : SweepTx) (signDesc : SignDescriptor) : option InputScript :=
  privKey ← fetchPrivKey (KeyDesc signDesc);
  sig ← RawTxInSignature tx (InputIndex signDesc) (PkScript (Output signDesc)) (HashType signDesc) privKey;
  Some (mkInputScript [sig; SerializeCompressed (PubKey privKey)] []).

Definition BtcWallet_Known (d : KeyDescriptor) : Prop :=
  forall p k, kd_PubKey d = Some p -> fetchPrivKey d = Some k -> p = PubKey k.

Definition btcwallet_signer : Signer := {|
  SignOutputRaw := BtcWallet_SignOutputRaw;
  ComputePkhInputScript := BtcWallet_ComputePkhInputScript;
  Known := BtcWallet_Known;
|}.

Context {SL : Secp256k1Laws} {TGL : TxSignLaws}.

Lemma maybeTweakPrivKey_pub d p k :
  kd_PubKey (KeyDesc d) = Some p -> p = PubKey k -> signing_key d = Some (PubKey (maybeTweakPrivKey d k)).
Proof.
  intros Hp ->. unfold signing_key, maybeTweakPrivKey. rewrite Hp. cbn.
  destruct (SingleTweak d); [by rewrite TweakPrivKey_pub|]. destruct (DoubleTweak d); [by rewrite DeriveRevocationPrivKey_pub|done].
Qed.

Lemma btcwallet_signer_laws : @SignerLaws _ _ btcwallet_signer.
Proof.
  split.
  - intros tx d s p Hk Hs Hp. cbn in *. unfold BtcWallet_SignOutputRaw in Hs.
    destruct (fetchPrivKey (KeyDesc d)) as [k|] eqn:Ek; [|done]. cbn in Hs.
    destruct (RawTxInSignature _ _ _ _ _) as [sig|] eqn:Es; [|done]. cbn in Hs.
    destruct (raw_signature _ _ _ _ _ _ Es) as (s' & -> & Hparse & Hv).
    rewrite length_app, take_app_length' in Hs by (cbn; lia). assert (s' = s) as -> by congruence.
    destruct (kd_PubKey (KeyDesc d)) as [q|] eqn:Eq; [|unfold signing_key in Hp; by rewrite Eq in Hp].
    rewrite (maybeTweakPrivKey_pub d q k) in Hp by (done || by apply (Hk q k)). congruence.
  - intros tx d i p Hk Hi Hp. cbn in *. unfold BtcWallet_ComputePkhInputScript in Hi.
    destruct (fetchPrivKey (KeyDesc d)) as [k|] eqn:Ek; [|done]. cbn in Hi.
    destruct (RawTxInSignature _ _ _ _ _) as [sig|] eqn:Es; [|done]. injection Hi as <-.
    destruct (raw_signature _ _ _ _ _ _ Es) as (s' & -> & _ & Hv). rewrite (Hk p k) by done. eauto.
Qed.
End btcwallet.

(** ** Witnesses *)

Section spends.
Context `{TS : TxScript} {TG : TxSign} {SG : Signer}.

Definition sign (tx : SweepTx) (signDesc : SignDescriptor) : outcome script_err ecSignature :=
  match SignOutputRaw tx signDesc with Some s => Ok s | None => Err ErrSign end.

Definition typed (s : ecSignature) (hashType : Z) : list byte := sigSerialize s ++ [byte_of_Z hashType].

Definition deriveRevokePubKey (signDesc : SignDescriptor) : outcome script_err point :=
  match kd_PubKey (KeyDesc signDesc), DoubleTweak signDesc with
  | None, _ => Err ErrNilPubKey
  | Some _, None => Panic
  | Some p, Some s => Ok (DeriveRevocationPubkey p (PubKey s))
  end.

Definition SenderHtlcSpendRevokeWithKey (signDesc : SignDescriptor) (revokeKey : point) (sweepTx : SweepTx) :
    outcome script_err (list (list byte)) :=
  sweepSig <~ sign sweepTx signDesc ;
  Ok [typed sweepSig (HashType signDesc); SerializeCompressed revokeKey; WitnessScript signDesc].

Definition SenderHtlcSpendRevoke (signDesc : SignDescriptor) (sweepTx : SweepTx) : outcome script_err (list (list byte)) :=
  revokeKey <~ deriveRevokePubKey signDesc ; SenderHtlcSpendRevokeWithKey signDesc revokeKey sweepTx.

Definition IsHtlcSpendRevoke (witness : list (list byte)) (signDesc : SignDescriptor) : outcome script_err bool :=
  revokeKey <~ deriveRevokePubKey signDesc ;
  Ok (bool_decide (length witness = 3%nat) && bool_decide (witness !! 1%nat = Some (SerializeCompressed revokeKey))).

Definition SenderHtlcSpendRedeem (signDesc : SignDescriptor) (sweepTx : SweepTx) (paymentPreimage : list byte) :
    outcome script_err (list (list byte)) :=
  sweepSig <~ sign sweepTx signDesc ;
  Ok [typed sweepSig (HashType signDesc); paymentPreimage; WitnessScript signDesc].

Definition SenderHtlcSpendTimeout (receiverSig : ecSignature) (receiverSigHash : Z) (signDesc : SignDescriptor)
    (htlcTimeoutTx : SweepTx) : outcome script_err (list (list byte)) :=
  sweepSig <~ sign htlcTimeoutTx signDesc ;
  Ok [[]; typed receiverSig receiverSigHash; typed sweepSig (HashType signDesc); []; WitnessScript signDesc].

Definition ReceiverHtlcSpendRedeem (senderSig : ecSignature) (senderSigHash : Z) (paymentPreimage : list byte)
    (signDesc : SignDescriptor) (htlcSuccessTx : SweepTx) : outcome script_err (list (list byte)) :=
  sweepSig <~ sign htlcSuccessTx signDesc ;
  Ok [[]; typed senderSig senderSigHash; typed sweepSig (HashType signDesc); paymentPreimage; WitnessScript signDesc].

Definition ReceiverHtlcSpendRevokeWithKey (signDesc : SignDescriptor) (revokeKey : point) (sweepTx : SweepTx) :
    outcome script_err (list (list byte)) :=
  sweepSig <~ sign sweepTx signDesc ;
  Ok [typed sweepSig (HashType signDesc); SerializeCompressed revokeKey; WitnessScript signDesc].

Definition ReceiverHtlcSpendRevoke (signDesc : SignDescriptor) (sweepTx : SweepTx) : outcome script_err (list (list byte)) :=
  revokeKey <~ deriveRevokePubKey signDesc ; ReceiverHtlcSpendRevokeWithKey signDesc revokeKey sweepTx.

(** The transaction is shared: its new lock time stays. *)
Definition set_LockTime (tx : SweepTx) (t : Z) : SweepTx :=
  mkSweep (Version tx) {| TxIns := TxIns (Tx tx); TxOuts := TxOuts (Tx tx); LockTime := t |}.

Definition ReceiverHtlcSpendTimeout (signDesc : SignDescriptor) (sweepTx : SweepTx) (cltvExpiry : Z) :
    SweepTx * outcome script_err (list (list byte)) :=
  let sweepTx := if bool_decide (cltvExpiry <> -1) then set_LockTime sweepTx (u32 cltvExpiry) else sweepTx in
  (sweepTx,
   sweepSig <~ sign sweepTx signDesc ;
   Ok [typed sweepSig (HashType signDesc); []; WitnessScript signDesc]).

Definition set_Sequence0 (tx : SweepTx) (seqNo : Z) : outcome script_err SweepTx :=
  match TxIns (Tx tx) with
  | [] => Panic
  | i :: ins => Ok (mkSweep (Version tx)
      {| TxIns := mkTxIn (PreviousOutPoint i) seqNo :: ins; TxOuts := TxOuts (Tx tx); LockTime := LockTime (Tx tx) |})
  end.

Definition HtlcSpendSuccess (signDesc : SignDescriptor) (sweepTx : SweepTx) (csvDelay : Z) :
    outcome script_err (SweepTx * outcome script_err (list (list byte))) :=
  sweepTx <~ set_Sequence0 sweepTx (LockTimeToSequence false csvDelay) ;
  let sweepTx := mkSweep 2 (Tx sweepTx) in
  Ok (sweepTx,
      sweepSig <~ sign sweepTx signDesc ;
      Ok [typed sweepSig (HashType signDesc); []; WitnessScript signDesc]).

Definition HtlcSpendRevoke (signDesc : SignDescriptor) (revokeTx : SweepTx) : outcome script_err (list (list byte)) :=
  sweepSig <~ sign revokeTx signDesc ;
  Ok [typed sweepSig (HashType signDesc); [x01]; WitnessScript signDesc].

(** The hash type in the witness is always the one for all outputs. *)
Definition HtlcSecondLevelSpend (signDesc : SignDescriptor) (sweepTx : SweepTx) : outcome script_err (list (list byte)) :=
  sweepSig <~ sign sweepTx signDesc ;
  Ok [typed sweepSig 1; []; WitnessScript signDesc].

Definition CommitSpendTimeout (signDesc : SignDescriptor) (sweepTx : SweepTx) : outcome script_err (list (list byte)) :=
  if bool_decide (Version sweepTx < 2) then Err ErrTxVersion
  else
    sweepSig <~ sign sweepTx signDesc ;
    Ok [typed sweepSig (HashType signDesc); []; WitnessScript signDesc].

Definition CommitSpendRevoke (signDesc : SignDescriptor) (sweepTx : SweepTx) : outcome script_err (list (list byte)) :=
  sweepSig <~ sign sweepTx signDesc ;
  Ok [typed sweepSig (HashType signDesc); [x01]; WitnessScript signDesc].

Definition CommitSpendNoDelay (signDesc : SignDescriptor) (sweepTx : SweepTx) (tweakless : bool) : outcome script_err (list (list byte)) :=
  match kd_PubKey (KeyDesc signDesc) with
  | None => Err ErrNilPubKey
  | Some p =>
      sweepSig <~ sign sweepTx signDesc ;
      let key := if tweakless then p else TweakPubKeyWithTweak p (default [] (SingleTweak signDesc)) in
      Ok [typed sweepSig (HashType signDesc); SerializeCompressed key]
  end.

Definition CommitSpendToRemoteConfirmed (signDesc : SignDescriptor) (sweepTx : SweepTx) : outcome script_err (list (list byte)) :=
  match kd_PubKey (KeyDesc signDesc) with
  | None => Err ErrNilPubKey
  | Some _ =>
      sweepSig <~ sign sweepTx signDesc ;
      Ok [typed sweepSig (HashType signDesc); WitnessScript signDesc]
  end.

Definition CommitSpendAnchor (signDesc : SignDescriptor) (sweepTx : SweepTx) : outcome script_err (list (list byte)) :=
  match kd_PubKey (KeyDesc signDesc) with
  | None => Err ErrNilPubKey
  | Some _ =>
      sweepSig <~ sign sweepTx signDesc ;
      Ok [typed sweepSig (HashType signDesc); WitnessScript signDesc]
  end.

Definition CommitSpendAnchorAnyone (script : list byte) : list (list byte) := [[]; script].

(** [Script.GetSigScript]: a nil item is pushed by an opcode, as the builder does for an empty one. *)
Definition GetSigScript (s : InputScript) : outcome script_err (list byte) :=
  build ((fun w => match w with [] => AddOp OP_FALSE | _ => AddData w end) <$> Witness s).

(** ** Witness types *)

Inductive StandardWitnessType : Type :=
  | CommitmentTimeLock | CommitmentNoDelay | CommitmentRevoke | HtlcOfferedRevoke | HtlcAcceptedRevoke
  | HtlcOfferedTimeoutSecondLevel | HtlcOfferedTimeoutSecondLevelInputConfirmed
  | HtlcAcceptedSuccessSecondLevel | HtlcAcceptedSuccessSecondLevelInputConfirmed
  | HtlcOfferedRemoteTimeout | HtlcAcceptedRemoteSuccess | HtlcSecondLevelRevoke
  | WitnessKeyHash | PubKeyHash | NestedWitnessKeyHash | CommitSpendNoDelayTweakless
  | CommitmentToRemoteConfirmed | CommitmentAnchor
  | LeaseCommitmentTimeLock | LeaseCommitmentToRemoteConfirmed
  | LeaseHtlcOfferedTimeoutSecondLevel | LeaseHtlcAcceptedSuccessSecondLevel.

Definition witness_only (r : outcome script_err (list (list byte))) : outcome script_err InputScript :=
  w <~ r ; Ok (mkInputScript w []).

(** The generator sets the input of the descriptor it shares with its caller. *)
Definition WitnessGenerator (wt : StandardWitnessType) (descriptor : SignDescriptor) (tx : SweepTx) (inputIndex : Z) :
    SignDescriptor * outcome script_err InputScript :=
  let desc := set_InputIndex descriptor inputIndex in
  (desc,
   match wt with
   | CommitmentTimeLock | LeaseCommitmentTimeLock => witness_only (CommitSpendTimeout desc tx)
   | CommitmentToRemoteConfirmed | LeaseCommitmentToRemoteConfirmed => witness_only (CommitSpendToRemoteConfirmed desc tx)
   | CommitmentAnchor => witness_only (CommitSpendAnchor desc tx)
   | CommitmentNoDelay => witness_only (CommitSpendNoDelay desc tx false)
   | CommitSpendNoDelayTweakless => witness_only (CommitSpendNoDelay desc tx true)
   | CommitmentRevoke => witness_only (CommitSpendRevoke desc tx)
   | HtlcOfferedRevoke => witness_only (ReceiverHtlcSpendRevoke desc tx)
   | HtlcAcceptedRevoke => witness_only (SenderHtlcSpendRevoke desc tx)
   | HtlcOfferedTimeoutSecondLevel | LeaseHtlcOfferedTimeoutSecondLevel
   | HtlcAcceptedSuccessSecondLevel | LeaseHtlcAcceptedSuccessSecondLevel => witness_only (HtlcSecondLevelSpend desc tx)
   | HtlcOfferedRemoteTimeout => witness_only (ReceiverHtlcSpendTimeout desc tx (-1)).2
   | HtlcSecondLevelRevoke => witness_only (HtlcSpendRevoke desc tx)
   | PubKeyHash => match ComputePkhInputScript tx desc with Some i => Ok i | None => Err ErrSign end
   | HtlcOfferedTimeoutSecondLevelInputConfirmed | HtlcAcceptedSuccessSecondLevelInputConfirmed | HtlcAcceptedRemoteSuccess
   | WitnessKeyHash | NestedWitnessKeyHash => Err ErrWitnessType
   end).
End spends.

(** * The node can spend what it may spend

    The witnesses made for the outputs of a channel are accepted by the engine, when the
    signer has the key and the transaction has waited as long as the output asks for. *)

Section spends.
Context `{TS : TxScript} {TG : TxSign} {SG : Signer}.
Context {SL : Secp256k1Laws} {TL : TxScriptLaws} {TGL : TxSignLaws} {SGL : SignerLaws}.

Definition push_item (w : list byte) : element := match w with [] => AddOp OP_FALSE | _ => AddData w end.

Definition small_item (w : list byte) : Prop := (length w <= 148)%nat /\ w <> [x00].

Lemma push_items ws : mapM push_value (push_item <$> ws) = Some ws.
Proof. induction ws as [|[|b w] ws IH]; [done|..]; cbn in *; by rewrite IH. Qed.

Lemma push_item_size w : (length w <= 148)%nat -> element_size (push_item w) <= 151.
Proof.
  intros H. destruct w as [|b w]; [done|]. cbn -[push_size length]. unfold push_size. repeat case_bool_decide; lia.
Qed.

Lemma GetSigScript_pushes ws rest : (length ws <= 8)%nat -> Forall small_item ws ->
  exists sig, GetSigScript (mkInputScript ws rest) = Ok sig /\ sigPushes sig = Some ws.
Proof.
  intros Hn Hs. unfold GetSigScript. cbn [Witness]. change (fun w => match w with [] => AddOp OP_FALSE | _ => AddData w end) with push_item.
  destruct (script_built (push_item <$> ws)) as (sig & Hb & _).
  - apply Forall_fmap. eapply Forall_impl; [done|]. intros [|b w] [Hl _]; [done|]. cbn. unfold MaxScriptElementSize. cbn in Hl. lia.
  - assert (script_size (push_item <$> ws) <= 151 * Z.of_nat (length ws)) as Hz.
    { clear Hn. induction Hs as [|w ws [Hl _] _ IH]; [done|]. rewrite fmap_cons. cbn [length].
      change (script_size (push_item w :: (push_item <$> ws))) with (element_size (push_item w) + script_size (push_item <$> ws)).
      pose proof (push_item_size w Hl). lia. }
    unfold MaxScriptSize. lia.
  - assert (canonical (push_item <$> ws)) as Hc.
    { apply Forall_fmap. eapply Forall_impl; [done|]. intros [|b w] [_ Hne]; [done|]. intros [= -> ->]. by apply Hne. }
    unfold build. rewrite Hb. exists sig. split; [done|]. rewrite (pushes_built _ _ Hc Hb). apply push_items.
Qed.

Lemma code_small o code : wf_output o -> redeem_script o = Ok code -> small_item code.
Proof.
  intros Hw Hr. destruct (redeem_built o code Hr) as [_ Hf]. destruct (redeem_total o Hw Hf) as (code' & Hr' & Hl).
  assert (code' = code) as -> by congruence. split; [lia|]. intros ->. cbn in Hl. lia.
Qed.

Lemma witness_accepted o code pk ctx st rest :
  wf_output o -> redeem_script o = Ok code -> GenerateP2SH code = Ok pk ->
  (length st <= 4)%nat -> Forall small_item st -> spendable ctx code o (reverse st) ->
  exists sig, GetSigScript (mkInputScript (st ++ [code]) rest) = Ok sig /\ Engine ctx pk sig = true.
Proof.
  intros Hw Hr Hp Hn Hs Hsp. destruct (GetSigScript_pushes (st ++ [code]) rest) as (sig & Hg & Hpush).
  { rewrite length_app. cbn. lia. } { apply Forall_app. split; [done|]. apply Forall_singleton. by eapply code_small. }
  exists sig. split; [done|]. rewrite (engine_of_p2sh code pk), Hpush by done. cbn [fmap option_fmap option_map].
  rewrite reverse_snoc, bool_decide_eq_true_2 by done. cbn [andb]. by apply (redeem_evaluated o).
Qed.

Lemma typed_small s ht : small_item (typed s ht).
Proof.
  pose proof (signature_size s). unfold typed. split; [rewrite length_app; cbn; lia|]. intros E. apply (f_equal length) in E.
  rewrite length_app in E. cbn in E. lia.
Qed.

Lemma key_small k : small_item (SerializeCompressed k).
Proof. pose proof (compressed_size k) as H. split; [lia|]. intros E. rewrite E in H. done. Qed.

(** What a witness type asks of the output, of the descriptor and of the transaction. *)
Definition ready (ctx : SpendCtx) (wt : StandardWitnessType) (o : output) (d : SignDescriptor) : Prop :=
  match wt, o with
  | CommitmentTimeLock, OutToSelf csv self _ => signing_key d = Some self /\ matured ctx csv None /\ 2 <= TxVersion ctx
  | LeaseCommitmentTimeLock, OutLeaseToSelf self _ csv e => signing_key d = Some self /\ matured ctx csv (Some e) /\ 2 <= TxVersion ctx
  | CommitmentRevoke, (OutToSelf _ _ revoke | OutLeaseToSelf _ revoke _ _) => signing_key d = Some revoke
  | CommitmentToRemoteConfirmed, OutToRemote key => signing_key d = Some key /\ checkSequence ctx 1 = true
  | LeaseCommitmentToRemoteConfirmed, OutLeaseToRemote key e =>
      signing_key d = Some key /\ checkSequence ctx 1 = true /\ checkLockTime ctx e = true
  | CommitmentAnchor, OutAnchor key => signing_key d = Some key
  | HtlcOfferedRevoke, OutReceiver _ _ _ revoke _ _ | HtlcAcceptedRevoke, OutSender _ _ revoke _ _ =>
      SingleTweak d = None /\ DoubleTweak d <> None /\ signing_key d = Some revoke
  | HtlcOfferedTimeoutSecondLevel, OutSecondLevel _ delay csv | HtlcAcceptedSuccessSecondLevel, OutSecondLevel _ delay csv =>
      signing_key d = Some delay /\ HashType d = 1 /\ matured ctx csv None
  | LeaseHtlcOfferedTimeoutSecondLevel, OutLeaseSecondLevel _ delay csv e | LeaseHtlcAcceptedSuccessSecondLevel, OutLeaseSecondLevel _ delay csv e =>
      signing_key d = Some delay /\ HashType d = 1 /\ matured ctx csv (Some e)
  | HtlcOfferedRemoteTimeout, OutReceiver e sender _ revoke _ conf =>
      signing_key d = Some sender /\ checkLockTime ctx e = true /\ confirmed_ok ctx conf /\ Hash160 [] <> Hash160 (SerializeCompressed revoke)
  | HtlcSecondLevelRevoke, (OutSecondLevel revoke _ _ | OutLeaseSecondLevel revoke _ _ _) => signing_key d = Some revoke
  | _, _ => False
  end.

Lemma signed_by d tx idx clean s p :
  Known (KeyDesc d) -> SignOutputRaw tx (set_InputIndex d idx) = Some s -> signing_key d = Some p ->
  signed (spend tx idx clean) (WitnessScript d) (SerializeCompressed p) (typed s (HashType d)).
Proof. intros Hk Hs Hp. apply (signs tx (set_InputIndex d idx) s p); done. Qed.

Lemma revoke_key d p : SingleTweak d = None -> DoubleTweak d <> None -> signing_key d = Some p -> deriveRevokePubKey d = Ok p.
Proof.
  intros Hs Hd. unfold signing_key, deriveRevokePubKey. rewrite Hs. destruct (kd_PubKey _), (DoubleTweak d); cbn; congruence.
Qed.

Lemma small_two a b : small_item a -> small_item b -> Forall small_item [a; b].
Proof. intros. by repeat (apply Forall_cons; split). Qed.

Lemma below_nil ctx : below ctx [].
Proof. done. Qed.

Ltac generate := unfold WitnessGenerator, CommitSpendRevoke, HtlcSpendRevoke, SenderHtlcSpendRevoke, ReceiverHtlcSpendRevoke,
  SenderHtlcSpendRevokeWithKey, ReceiverHtlcSpendRevokeWithKey, ReceiverHtlcSpendTimeout, CommitSpendToRemoteConfirmed, CommitSpendAnchor,
  HtlcSecondLevelSpend, CommitSpendTimeout, witness_only; cbn [fst snd bool_decide].

Lemma sweep_spends wt o d tx idx clean pk s :
  Known (KeyDesc d) -> wf_output o -> redeem_script o = Ok (WitnessScript d) -> GenerateP2SH (WitnessScript d) = Ok pk ->
  ready (spend tx idx clean) wt o d -> SignOutputRaw tx (set_InputIndex d idx) = Some s ->
  exists i sig, WitnessGenerator wt d tx idx = (set_InputIndex d idx, Ok i) /\ GetSigScript i = Ok sig /\
    Engine (spend tx idx clean) pk sig = true.
Proof.
  intros Hk Hw Hr Hp Hready Hs. pose proof (fun p => signed_by d tx idx clean s p Hk Hs) as Hsig. set (ctx := spend tx idx clean) in *.
  assert (forall st rest, WitnessGenerator wt d tx idx = (set_InputIndex d idx, Ok (mkInputScript (st ++ [WitnessScript d]) rest)) ->
    (length st <= 4)%nat -> Forall small_item st -> spendable ctx (WitnessScript d) o (reverse st) ->
    exists i sig, WitnessGenerator wt d tx idx = (set_InputIndex d idx, Ok i) /\ GetSigScript i = Ok sig /\ Engine ctx pk sig = true) as Hacc.
  { intros st rest Hg Hl Hst Hsp. destruct (witness_accepted o (WitnessScript d) pk ctx st rest) as (sig & ? & ?); [done..|]. eauto. }
  assert (forall k, signing_key d = Some k -> exists p, kd_PubKey (KeyDesc d) = Some p) as Hpub
    by (unfold signing_key; destruct (kd_PubKey _); eauto; done).
  assert (sign tx (set_InputIndex d idx) = Ok s) as Hsign by (unfold sign; by rewrite Hs).
  pose proof (typed_small s (HashType d)) as Hsmall. assert (small_item [] /\ small_item [x01]) as [Hnil Hone] by (unfold small_item; cbn; split_and!; lia || done).
  destruct wt, o; try done; cbn [ready] in Hready.
  2,3,9,10: apply (Hacc [typed s (HashType d); [x01]] []); [generate; by rewrite Hsign|cbn; lia|by apply small_two|];
    apply delayed_cons; split; [by apply Hsig|done].
  2,3: destruct Hready as (H1 & H2 & H3); pose proof (revoke_key d _ H1 H2 H3) as Hrev;
    apply (Hacc [typed s (HashType d); SerializeCompressed revocationKey] []);
    [generate; change (deriveRevokePubKey (set_InputIndex d idx)) with (deriveRevokePubKey d); rewrite Hrev; cbn [obind]; by rewrite Hsign
    |cbn; lia|apply small_two; [done|apply key_small]|];
    left; eexists _, _, []; split_and!; [done|done|by apply Hsig|done].
  4: { destruct Hready as (H1 & H2 & H3 & H4). apply (Hacc [typed s (HashType d); []] []);
         [generate; rewrite bool_decide_eq_false_2 by (intros H; by apply H); by rewrite Hsign|cbn; lia|by apply small_two|].
       right; right. eexists _, _, []. split_and!; [done|done|done|done|by apply Hsig|done|done]. }
  4,5,7: (assert (exists k, signing_key d = Some k) as [k Hkey] by (destruct_and?; eauto)); destruct (Hpub k Hkey) as [p Hpk];
    apply (Hacc [typed s (HashType d)] []); [generate; cbn [KeyDesc set_InputIndex]; rewrite Hpk, Hsign; done|cbn; lia|by apply Forall_singleton|].
  4: { eexists _, []. split_and!; [done|apply Hsig; tauto|done|tauto|done]. }
  4: { eexists _, []. split_and!; [done|done|]. left. by apply Hsig. }
  4: { eexists _, []. split_and!; [done|apply Hsig; tauto|intros ? [= <-]; tauto|tauto|done]. }
  all: destruct Hready as (H1 & H2 & H3); apply (Hacc [typed s (HashType d); []] []);
    [generate; rewrite ?bool_decide_eq_false_2 by (cbn in *; lia); rewrite Hsign; cbn; congruence|cbn; lia|by apply small_two|];
    apply delayed_cons; cbn [as_bool]; split; [split; [exact H2 || exact H3|by apply Hsig]|done].
Qed.
(** ** Claims of an HTLC *)

(** What makes the witness of an HTLC: the function, the kind of output, what it asks for. *)
Lemma claim_spends o pk d tx clean st :
  wf_output o -> redeem_script o = Ok (WitnessScript d) -> GenerateP2SH (WitnessScript d) = Ok pk ->
  (length st <= 4)%nat -> Forall small_item st -> spendable (spend tx (InputIndex d) clean) (WitnessScript d) o (reverse st) ->
  exists sig, GetSigScript (mkInputScript (st ++ [WitnessScript d]) []) = Ok sig /\ Engine (spend tx (InputIndex d) clean) pk sig = true.
Proof. intros. by eapply witness_accepted. Qed.

Lemma own_signature d tx clean s p :
  Known (KeyDesc d) -> SignOutputRaw tx d = Some s -> signing_key d = Some p ->
  signed (spend tx (InputIndex d) clean) (WitnessScript d) (SerializeCompressed p) (typed s (HashType d)).
Proof. intros Hk Hs Hp. by apply (signs tx d s p). Qed.

Lemma small_four a b c d : small_item a -> small_item b -> small_item c -> small_item d -> Forall small_item [a; b; c; d].
Proof. intros. by repeat (apply Forall_cons; split). Qed.

Lemma small_nil : small_item [].
Proof. split; [cbn; lia|done]. Qed.

(** The owner of a commitment times an HTLC out: the peer's signature and its own. *)
Lemma timeout_spends senderKey receiverKey revocationKey hash conf pk d tx clean s peerSig peerType :
  let o := OutSender senderKey receiverKey revocationKey hash conf in let ctx := spend tx (InputIndex d) clean in
  Known (KeyDesc d) -> redeem_script o = Ok (WitnessScript d) -> GenerateP2SH (WitnessScript d) = Ok pk ->
  SignOutputRaw tx d = Some s -> signing_key d = Some senderKey ->
  signed ctx (WitnessScript d) (SerializeCompressed receiverKey) (typed peerSig peerType) ->
  confirmed_ok ctx conf -> Hash160 [] <> Hash160 (SerializeCompressed revocationKey) ->
  exists w sig, SenderHtlcSpendTimeout peerSig peerType d tx = Ok w /\ GetSigScript (mkInputScript w []) = Ok sig /\ Engine ctx pk sig = true.
Proof.
  intros o ctx Hk Hr Hp Hs Hkey Hpeer Hconf Hne.
  destruct (claim_spends o pk d tx clean [[]; typed peerSig peerType; typed s (HashType d); []]) as (sig & Hg & He); try done.
  - apply small_four; apply typed_small || apply small_nil.
  - right; left. eexists _, _, _, []. split_and!; [done|done|done|by apply own_signature|done|done|done].
  - eexists _, sig. split_and!; [|exact Hg|exact He]. unfold SenderHtlcSpendTimeout, sign. by rewrite Hs.
Qed.

(** The owner of a commitment claims an HTLC with its preimage. *)
Lemma redeem_spends expiry senderKey receiverKey revocationKey hash conf pk d tx clean s peerSig peerType preimage :
  let o := OutReceiver expiry senderKey receiverKey revocationKey hash conf in let ctx := spend tx (InputIndex d) clean in
  Known (KeyDesc d) -> in_u 32 expiry -> redeem_script o = Ok (WitnessScript d) -> GenerateP2SH (WitnessScript d) = Ok pk ->
  SignOutputRaw tx d = Some s -> signing_key d = Some receiverKey ->
  signed ctx (WitnessScript d) (SerializeCompressed senderKey) (typed peerSig peerType) ->
  length preimage = 32%nat -> hash = keySha256 preimage ->
  confirmed_ok ctx conf -> Hash160 preimage <> Hash160 (SerializeCompressed revocationKey) ->
  exists w sig, ReceiverHtlcSpendRedeem peerSig peerType preimage d tx = Ok w /\ GetSigScript (mkInputScript w []) = Ok sig /\ Engine ctx pk sig = true.
Proof.
  intros o ctx Hk He32 Hr Hp Hs Hkey Hpeer Hl -> Hconf Hne.
  destruct (claim_spends o pk d tx clean [[]; typed peerSig peerType; typed s (HashType d); preimage]) as (sig & Hg & He); try done.
  - apply small_four; try apply typed_small; [apply small_nil|]. split; [lia|]. by intros ->.
  - right; left. eexists _, _, _, []. split_and!; [done|done|done|done|by apply own_signature|done|done|done].
  - eexists _, sig. split_and!; [|exact Hg|exact He]. unfold ReceiverHtlcSpendRedeem, sign. by rewrite Hs.
Qed.

(** The receiver of an HTLC claims it on the peer's commitment with its preimage. *)
Lemma remote_redeem_spends senderKey receiverKey revocationKey hash conf pk d tx clean s preimage :
  let o := OutSender senderKey receiverKey revocationKey hash conf in let ctx := spend tx (InputIndex d) clean in
  Known (KeyDesc d) -> redeem_script o = Ok (WitnessScript d) -> GenerateP2SH (WitnessScript d) = Ok pk ->
  SignOutputRaw tx d = Some s -> signing_key d = Some receiverKey ->
  length preimage = 32%nat -> hash = keySha256 preimage ->
  confirmed_ok ctx conf -> Hash160 preimage <> Hash160 (SerializeCompressed revocationKey) ->
  exists w sig, SenderHtlcSpendRedeem d tx preimage = Ok w /\ GetSigScript (mkInputScript w []) = Ok sig /\ Engine ctx pk sig = true.
Proof.
  intros o ctx Hk Hr Hp Hs Hkey Hl -> Hconf Hne.
  destruct (claim_spends o pk d tx clean [typed s (HashType d); preimage]) as (sig & Hg & He); try done.
  - cbn. lia.
  - apply small_two; [apply typed_small|]. split; [lia|]. by intros ->.
  - right; right. eexists _, _, []. split_and!; [done|done|done|done|by apply own_signature|done|done].
  - eexists _, sig. split_and!; [|exact Hg|exact He]. unfold SenderHtlcSpendRedeem, sign. by rewrite Hs.
Qed.
End spends.
