(* ===== verification/Resolutions.v ===== *)
(** * Scripts and second-level transactions of a commitment

    The choice of scripts in lnwallet/commitment.go, and the transactions that spend an HTLC
    of one's own commitment in lnwallet/transactions.go.  They implement the parameters
    of CommitTx.v.

    Then the resolutions that lnwallet/channel.go prepares when a commitment is on chain. *)

From stdpp Require Import base list gmap.
From Stdlib Require Import ZArith Lia Bool.
From S2P Require Import Prelude Wire Amounts OpReturn CommitTx KeyDerivation ScriptUtils.
From S2P Require Import WitnessGen.

Local Open Scope Z_scope.
Local Open Scope go_scope.

Record ScriptInfo := mkScriptInfo { si_PkScript : list byte; si_WitnessScript : list byte }.

Inductive second_err : Type := ErrSecondScript (e : script_err) | ErrSecondOp (e : op_err).

Section scripts.
Context `{TS : TxScript}.

(** A redeem script with the output that pays to its hash. *)
Definition hashed (script : outcome script_err (list byte)) : outcome script_err ScriptInfo :=
  script <~ script ;
  pk <~ GenerateP2SH script ;
  Ok (mkScriptInfo pk script).

Definition Commit_ToSelf (chanType : Z) (initiator : bool) (selfKey revokeKey : point) (csvDelay leaseExpiry : Z) :
    outcome script_err ScriptInfo :=
  hashed (if initiator && ChannelType.HasLeaseExpiration chanType
          then LeaseCommitScriptToSelf selfKey revokeKey csvDelay leaseExpiry
          else ScriptUtils.CommitScriptToSelf csvDelay selfKey revokeKey).

Definition CommitScriptToRemote (chanType : Z) (initiator : bool) (key : point) (leaseExpiry : Z) :
    outcome script_err (ScriptInfo * Z) :=
  if ChannelType.HasLeaseExpiration chanType && negb initiator then
    info <~ hashed (LeaseCommitScriptToRemoteConfirmed key leaseExpiry) ; Ok (info, 1)
  else if ChannelType.HasAnchors chanType then
    info <~ hashed (CommitScriptToRemoteConfirmed key) ; Ok (info, 1)
  else
    p2wkh <~ GenerateP2PKH (SerializeCompressed key) ; Ok (mkScriptInfo p2wkh p2wkh, 0).

Definition SigHashSingle : Z := 3.
Definition SigHashAnyOneCanPay : Z := 128.

Definition HtlcSigHashType (chanType : Z) : Z :=
  if ChannelType.HasAnchors chanType then Z.lor SigHashSingle SigHashAnyOneCanPay else 1.

Record SignDetails {TG : TxSign} := mkSignDetails { det_SignDesc : SignDescriptor; det_SigHashType : Z; PeerSig : ecSignature }.
Arguments mkSignDetails {TG}.

Definition HtlcSignDetails {TG : TxSign} (chanType : Z) (signDesc : SignDescriptor) (sigHash : Z) (peerSig : ecSignature) : option SignDetails :=
  if negb (ChannelType.HasAnchors chanType) then None else Some (mkSignDetails signDesc sigHash peerSig).

Definition HtlcSecondLevelInputSequence (chanType : Z) : Z := if ChannelType.HasAnchors chanType then 1 else 0.

Definition Commit_SecondLevel (chanType : Z) (initiator : bool) (revocationKey delayKey : point) (csvDelay leaseExpiry : Z) :
    outcome script_err ScriptInfo :=
  hashed (if initiator && ChannelType.HasLeaseExpiration chanType
          then LeaseSecondLevelHtlcScript revocationKey delayKey csvDelay leaseExpiry
          else SecondLevelHtlcScript revocationKey delayKey csvDelay).

Definition CommitScriptAnchors (localChanCfg remoteChanCfg : ChannelConfig) : outcome script_err (ScriptInfo * ScriptInfo) :=
  localAnchor <~ hashed (CommitScriptAnchor (MultiSigKey localChanCfg)) ;
  remoteAnchor <~ hashed (CommitScriptAnchor (MultiSigKey remoteChanCfg)) ;
  Ok (localAnchor, remoteAnchor).

(** The public key script and the redeem script of an HTLC. *)
Definition gen_HtlcScript (chanType : Z) (isIncoming ourCommit : bool) (timeout : Z) (rHash : list byte) (keyRing : CommitmentKeyRing) :
    outcome script_err (list byte * list byte) :=
  let confirmedHtlcSpends := ChannelType.HasAnchors chanType in
  witnessScript <~
    match isIncoming, ourCommit with
    | true, true => ReceiverHTLCScript timeout (RemoteHtlcKey keyRing) (LocalHtlcKey keyRing) (RevocationKey keyRing) rHash confirmedHtlcSpends
    | true, false => SenderHTLCScript (RemoteHtlcKey keyRing) (LocalHtlcKey keyRing) (RevocationKey keyRing) rHash confirmedHtlcSpends
    | false, true => SenderHTLCScript (LocalHtlcKey keyRing) (RemoteHtlcKey keyRing) (RevocationKey keyRing) rHash confirmedHtlcSpends
    | false, false => ReceiverHTLCScript timeout (LocalHtlcKey keyRing) (RemoteHtlcKey keyRing) (RevocationKey keyRing) rHash confirmedHtlcSpends
    end ;
  htlcP2WSH <~ GenerateP2SH witnessScript ;
  Ok (htlcP2WSH, witnessScript).

(** The parameters of the commitment transactions, with btcd's sanity check left open. *)
Definition channel_scripts (sane : MsgTx -> bool) : Scripts := {|
  keyRing := CommitmentKeyRing;
  CommitTx.CommitScriptToSelf := fun chanType initiator keys csvDelay leaseExpiry =>
    match Commit_ToSelf chanType initiator (ToLocalKey keys) (RevocationKey keys) csvDelay leaseExpiry with
    | Ok info => Some (si_PkScript info) | _ => None end;
  genHtlcScript := fun chanType isIncoming ourCommit timeout rHash keys =>
    match gen_HtlcScript chanType isIncoming ourCommit timeout rHash keys with Ok (pk, _) => Some pk | _ => None end;
  CheckTransactionSanity := sane;
|}.

(** ** Second-level transactions *)

Definition lift_script {A} (r : outcome script_err A) : outcome second_err A :=
  match r with Ok a => Ok a | Err e => Err (ErrSecondScript e) | Panic => Panic end.
Definition lift_op {A} (r : outcome op_err A) : outcome second_err A :=
  match r with Ok a => Ok a | Err e => Err (ErrSecondOp e) | Panic => Panic end.

Definition secondLevelTx (chanType lockTime : Z) (initiator : bool) (htlcOutput : OutPoint) (htlcBtcAmt htlcAssetAmt assetId csvDelay leaseExpiry : Z)
    (revocationKey delayKey : point) : outcome second_err SweepTx :=
  script <~ lift_script (Commit_SecondLevel chanType initiator revocationKey delayKey csvDelay leaseExpiry) ;
  let tx := {| TxIns := [mkTxIn htlcOutput (HtlcSecondLevelInputSequence chanType)];
               TxOuts := [mkTxOut htlcBtcAmt (si_PkScript script)]; LockTime := lockTime |} in
  let pa := PksAdd (NewPksAmounts assetId) (si_PkScript script) htlcAssetAmt in
  tx <~ lift_op (AddOpReturnToTx tx pa) ;
  Ok (mkSweep 2 tx).

Definition CreateHtlcSuccessTx (chanType : Z) (initiator : bool) (htlcOutput : OutPoint) (htlcBtcAmt htlcAssetAmt assetId csvDelay leaseExpiry : Z)
    (revocationKey delayKey : point) : outcome second_err SweepTx :=
  secondLevelTx chanType 0 initiator htlcOutput htlcBtcAmt htlcAssetAmt assetId csvDelay leaseExpiry revocationKey delayKey.

Definition CreateHtlcTimeoutTx (chanType : Z) (initiator : bool) (htlcOutput : OutPoint) (htlcBtcAmt htlcAssetAmt assetId cltvExpiry csvDelay leaseExpiry : Z)
    (revocationKey delayKey : point) : outcome second_err SweepTx :=
  secondLevelTx chanType cltvExpiry initiator htlcOutput htlcBtcAmt htlcAssetAmt assetId csvDelay leaseExpiry revocationKey delayKey.
End scripts.

(** * Closing a channel on chain

    What lnwallet/channel.go prepares when a commitment goes to the chain: the signed
    commitment and the resolutions of a forced close, the summary of the peer's close, the
    retribution for a revoked commitment, and the anchors.  Hashes of transactions and the
    stores of secrets are arguments.  The witness of a second-level transaction is kept
    beside it. *)

Inductive resolve_err : Type :=
  | ErrResScript (e : script_err)
  | ErrResSecond (e : second_err)
  | ErrResSignature
  | ErrResStore
  | ErrDataLoss.

(** ** The channel *)

(** The locators of a party's base keys. *)
Record KeyLocators := mkLocators {
  loc_MultiSig : Z * Z; loc_Revocation : Z * Z; loc_Payment : Z * Z; loc_Delay : Z * Z; loc_Htlc : Z * Z }.

Record PartyConfig `{SC : Secp256k1} := mkParty {
  party_keys : ChannelConfig;
  party_locs : KeyLocators;
  party_CsvDelay : Z;
  party_DustLimit : Z;
}.
#[global] Arguments mkParty {_}.

(** An HTLC of a stored commitment, with the peer's signature for its second level. *)
Record DiskHTLC := mkDiskHTLC {
  h_Signature : list byte;
  h_RHash : list byte;
  h_BtcAmt : Z;
  h_AssetAmt : Z;
  h_AssetId : Z;
  h_RefundTimeout : Z;
  h_OutputIndex : Z;
  h_Incoming : bool;
}.

(** The parts of [OpenChannel] that are used; its commitments with their transactions, HTLCs,
    fee rates, balances and signatures. *)
Record DiskCommit := mkDiskCommit {
  c_Height : Z;
  c_Tx : SweepTx;
  c_Sig : list byte;
  c_Htlcs : list DiskHTLC;
  c_FeePerKw : Z;
  c_LocalBtcBalance : Z;
  c_RemoteBtcBalance : Z;
  c_LocalAssetBalance : Z;
  c_RemoteAssetBalance : Z;
}.

Record OpenChannel `{SC : Secp256k1} := mkOpenChannel {
  oc_ChanType : Z;
  oc_IsInitiator : bool;
  oc_AssetID : Z;
  oc_ThawHeight : Z;
  oc_BtcCapacity : Z;
  oc_DataLoss : bool;
  oc_Local : PartyConfig;
  oc_Remote : PartyConfig;
  oc_LocalCommit : DiskCommit;
  oc_RemoteCommit : DiskCommit;
  oc_PendingCommit : option DiskCommit;
}.
#[global] Arguments mkOpenChannel {_}.

(** ** Resolutions *)

Record HtlcResolution `{SC : Secp256k1, TG : TxSign} := mkHtlcResolution {
  res_Expiry : Z;
  res_SignedTx : option (SweepTx * list (list byte));
  res_SignDetails : option SignDetails;
  res_CsvDelay : Z;
  res_ClaimOutpoint : OutPoint;
  res_SweepSignDesc : SignDescriptor;
}.
#[global] Arguments mkHtlcResolution {_ _}.

Record CommitOutputResolution `{SC : Secp256k1} := mkCommitResolution {
  SelfOutPoint : OutPoint;
  SelfOutputSignDesc : SignDescriptor;
  MaturityDelay : Z;
}.
#[global] Arguments mkCommitResolution {_}.

Record AnchorResolution `{SC : Secp256k1} := mkAnchorResolution {
  AnchorSignDescriptor : SignDescriptor;
  CommitAnchor : OutPoint;
  anchor_CommitFee : Z;
  anchor_CommitWeight : Z;
}.
#[global] Arguments mkAnchorResolution {_}.

Record HtlcRetribution `{SC : Secp256k1} := mkHtlcRetribution {
  ret_SignDesc : SignDescriptor;
  ret_OutPoint : OutPoint;
  ret_SecondLevelWitnessScript : list byte;
  ret_IsIncoming : bool;
}.
#[global] Arguments mkHtlcRetribution {_}.

Definition anchorSize : Z := 330.

Section resolutions.
Context `{TS : TxScript} {TG : TxSign} {SG : Signer}.
Variable TxHash : SweepTx -> list byte.

Definition lift_res {A} (r : outcome script_err A) : outcome resolve_err A :=
  match r with Ok a => Ok a | Err e => Err (ErrResScript e) | Panic => Panic end.
Definition lift_second {A} (r : outcome second_err A) : outcome resolve_err A :=
  match r with Ok a => Ok a | Err e => Err (ErrResSecond e) | Panic => Panic end.

(** A key descriptor of a base key. *)
Definition desc_of (loc : Z * Z) (p : point) : KeyDescriptor := mkKeyDesc loc.1 loc.2 (Some p).
Definition HtlcBase (cfg : PartyConfig) : KeyDescriptor := desc_of (loc_Htlc (party_locs cfg)) (HtlcBasePoint (party_keys cfg)).
Definition DelayBase (cfg : PartyConfig) : KeyDescriptor := desc_of (loc_Delay (party_locs cfg)) (DelayBasePoint (party_keys cfg)).
Definition PaymentBase (cfg : PartyConfig) : KeyDescriptor := desc_of (loc_Payment (party_locs cfg)) (PaymentBasePoint (party_keys cfg)).
Definition RevocationBase (cfg : PartyConfig) : KeyDescriptor := desc_of (loc_Revocation (party_locs cfg)) (RevocationBasePoint (party_keys cfg)).
Definition MultiSigBase (cfg : PartyConfig) : KeyDescriptor := desc_of (loc_MultiSig (party_locs cfg)) (MultiSigKey (party_keys cfg)).

(** [tx.TxOut[i]], which panics out of range. *)
Definition out_at {E} (tx : SweepTx) (i : Z) : outcome E TxOut :=
  if bool_decide (i < 0) then Panic
  else match TxOuts (Tx tx) !! Z.to_nat i with Some o => Ok o | None => Panic end.

Definition parse_sig (bs : list byte) : outcome resolve_err ecSignature :=
  match sigParse bs with Some s => Ok s | None => Err ErrResSignature end.

Definition newOutgoingHtlcResolution (localChanCfg : PartyConfig) (commitTx : SweepTx) (htlc : DiskHTLC) (keyRing : CommitmentKeyRing)
    (feePerKw csvDelay leaseExpiry : Z) (localCommit isCommitFromInitiator : bool) (chanType assetId : Z) :
    outcome resolve_err HtlcResolution :=
  let op := mkOutPoint (TxHash commitTx) (u32 (h_OutputIndex htlc)) in
  '(htlcScriptHash, htlcScript) <~
    lift_res (gen_HtlcScript chanType false localCommit (h_RefundTimeout htlc) (h_RHash htlc) keyRing) ;
  if negb localCommit then
    Ok (mkHtlcResolution (h_RefundTimeout htlc) None None (HtlcSecondLevelInputSequence chanType) op
      (mkSignDesc (HtlcBase localChanCfg) (Some (LocalHtlcKeyTweak keyRing)) None htlcScript
        (mkTxOut (ToSatoshis (h_BtcAmt htlc)) htlcScriptHash) (h_AssetId htlc) (h_AssetAmt htlc) 1 0))
  else
    let htlcFee := HtlcTimeoutFee chanType feePerKw in
    let secondLevelOutputAmt := i64 (ToSatoshis (h_BtcAmt htlc) - htlcFee) in
    timeoutTx <~ lift_second (CreateHtlcTimeoutTx chanType isCommitFromInitiator op secondLevelOutputAmt (h_AssetAmt htlc) assetId
      (h_RefundTimeout htlc) csvDelay leaseExpiry (RevocationKey keyRing) (ToLocalKey keyRing)) ;
    txOut <~ out_at commitTx (h_OutputIndex htlc) ;
    let timeoutSignDesc := mkSignDesc (HtlcBase localChanCfg) (Some (LocalHtlcKeyTweak keyRing)) None htlcScript txOut 0 0 1 0 in
    htlcSig <~ parse_sig (h_Signature htlc) ;
    let sigHashType := HtlcSigHashType chanType in
    timeoutWitness <~ lift_res (SenderHtlcSpendTimeout htlcSig sigHashType timeoutSignDesc timeoutTx) ;
    let txSignDetails := HtlcSignDetails chanType timeoutSignDesc sigHashType htlcSig in
    htlcSweepScript <~ lift_res (Commit_SecondLevel chanType isCommitFromInitiator (RevocationKey keyRing) (ToLocalKey keyRing) csvDelay leaseExpiry) ;
    let localDelayTweak := SingleTweakBytes (CommitPoint keyRing) (DelayBasePoint (party_keys localChanCfg)) in
    Ok (mkHtlcResolution (h_RefundTimeout htlc) (Some (timeoutTx, timeoutWitness)) txSignDetails csvDelay
      (mkOutPoint (TxHash timeoutTx) 0)
      (mkSignDesc (DelayBase localChanCfg) (Some localDelayTweak) None (si_WitnessScript htlcSweepScript)
        (mkTxOut secondLevelOutputAmt (si_PkScript htlcSweepScript)) (h_AssetId htlc) (h_AssetAmt htlc) 1 0)).

(** The preimage is not known yet: its place in the witness is empty. *)
Definition newIncomingHtlcResolution (localChanCfg : PartyConfig) (commitTx : SweepTx) (htlc : DiskHTLC) (keyRing : CommitmentKeyRing)
    (feePerKw csvDelay leaseExpiry : Z) (localCommit isCommitFromInitiator : bool) (chanType assetId : Z) :
    outcome resolve_err HtlcResolution :=
  let op := mkOutPoint (TxHash commitTx) (u32 (h_OutputIndex htlc)) in
  '(htlcScriptHash, htlcScript) <~
    lift_res (gen_HtlcScript chanType true localCommit (h_RefundTimeout htlc) (h_RHash htlc) keyRing) ;
  if negb localCommit then
    Ok (mkHtlcResolution 0 None None (HtlcSecondLevelInputSequence chanType) op
      (mkSignDesc (HtlcBase localChanCfg) (Some (LocalHtlcKeyTweak keyRing)) None htlcScript
        (mkTxOut (ToSatoshis (h_BtcAmt htlc)) htlcScriptHash) (h_AssetId htlc) (h_AssetAmt htlc) 1 0))
  else
    let htlcFee := HtlcSuccessFee chanType feePerKw in
    let secondLevelOutputAmt := i64 (ToSatoshis (h_BtcAmt htlc) - htlcFee) in
    successTx <~ lift_second (CreateHtlcSuccessTx chanType isCommitFromInitiator op secondLevelOutputAmt (h_AssetAmt htlc) assetId
      csvDelay leaseExpiry (RevocationKey keyRing) (ToLocalKey keyRing)) ;
    txOut <~ out_at commitTx (h_OutputIndex htlc) ;
    let successSignDesc := mkSignDesc (HtlcBase localChanCfg) (Some (LocalHtlcKeyTweak keyRing)) None htlcScript txOut
      (h_AssetId htlc) (h_AssetAmt htlc) 1 0 in
    htlcSig <~ parse_sig (h_Signature htlc) ;
    let sigHashType := HtlcSigHashType chanType in
    successWitness <~ lift_res (ReceiverHtlcSpendRedeem htlcSig sigHashType [] successSignDesc successTx) ;
    let txSignDetails := HtlcSignDetails chanType successSignDesc sigHashType htlcSig in
    htlcSweepScript <~ lift_res (Commit_SecondLevel chanType isCommitFromInitiator (RevocationKey keyRing) (ToLocalKey keyRing) csvDelay leaseExpiry) ;
    let localDelayTweak := SingleTweakBytes (CommitPoint keyRing) (DelayBasePoint (party_keys localChanCfg)) in
    Ok (mkHtlcResolution 0 (Some (successTx, successWitness)) txSignDetails csvDelay
      (mkOutPoint (TxHash successTx) 0)
      (mkSignDesc (DelayBase localChanCfg) (Some localDelayTweak) None (si_WitnessScript htlcSweepScript)
        (mkTxOut secondLevelOutputAmt (si_PkScript htlcSweepScript)) (h_AssetId htlc) (h_AssetAmt htlc) 1 0)).

(** [HtlcPoint]: the output of the commitment. *)
Definition HtlcPoint (r : HtlcResolution) : outcome resolve_err OutPoint :=
  match res_SignedTx r with
  | Some (tx, _) => match TxIns (Tx tx) with i :: _ => Ok (PreviousOutPoint i) | [] => Panic end
  | None => Ok (res_ClaimOutpoint r)
  end.

(** The incoming and the outgoing resolutions. *)
Fixpoint resolveHtlcs (feePerKw : Z) (ourCommit : bool) (htlcs : list DiskHTLC) (keyRing : CommitmentKeyRing) (localChanCfg : PartyConfig)
    (dustLimit csvDelay : Z) (commitTx : SweepTx) (chanType assetId : Z) (isCommitFromInitiator : bool) (leaseExpiry : Z) :
    outcome resolve_err (list HtlcResolution * list HtlcResolution) :=
  match htlcs with
  | [] => Ok ([], [])
  | htlc :: htlcs =>
      if HtlcIsDust chanType (h_Incoming htlc) ourCommit feePerKw (ToSatoshis (h_BtcAmt htlc)) dustLimit assetId then
        resolveHtlcs feePerKw ourCommit htlcs keyRing localChanCfg dustLimit csvDelay commitTx chanType assetId isCommitFromInitiator leaseExpiry
      else
        r <~ (if h_Incoming htlc then newIncomingHtlcResolution else newOutgoingHtlcResolution) localChanCfg commitTx htlc keyRing feePerKw
               csvDelay leaseExpiry ourCommit isCommitFromInitiator chanType assetId ;
        '(ins, outs) <~ resolveHtlcs feePerKw ourCommit htlcs keyRing localChanCfg dustLimit csvDelay commitTx chanType assetId
               isCommitFromInitiator leaseExpiry ;
        Ok (if h_Incoming htlc then (r :: ins, outs) else (ins, r :: outs))
  end.

Definition extractHtlcResolutions (feePerKw : Z) (ourCommit : bool) (htlcs : list DiskHTLC) (keyRing : CommitmentKeyRing)
    (localChanCfg remoteChanCfg : PartyConfig) (commitTx : SweepTx) (chanType assetId : Z) (isCommitFromInitiator : bool) (leaseExpiry : Z) :
    outcome resolve_err (list HtlcResolution * list HtlcResolution) :=
  let cfg := if ourCommit then localChanCfg else remoteChanCfg in
  resolveHtlcs feePerKw ourCommit htlcs keyRing localChanCfg (party_DustLimit cfg) (party_CsvDelay cfg) commitTx chanType assetId
    isCommitFromInitiator leaseExpiry.

Definition leaseExpiryOf (chanState : OpenChannel) : Z :=
  if ChannelType.HasLeaseExpiration (oc_ChanType chanState) then oc_ThawHeight chanState else 0.

(** The first output with a script. *)
Definition locate (tx : SweepTx) (script : list byte) : option (nat * TxOut) :=
  list_find (fun o => PkScript o = script) (TxOuts (Tx tx)).

(** ** Anchors *)

Variable GetTransactionWeight : SweepTx -> Z.

Definition NewAnchorResolution (chanState : OpenChannel) (commitTx : SweepTx) : outcome resolve_err (option AnchorResolution) :=
  if negb (ChannelType.HasAnchors (oc_ChanType chanState)) then Ok None
  else
    '(localAnchor, _) <~ lift_res (CommitScriptAnchors (party_keys (oc_Local chanState)) (party_keys (oc_Remote chanState))) ;
    let '(found, index) := FindScriptOutputIndex (Tx commitTx) (si_PkScript localAnchor) in
    if negb found then Ok None
    else
      let signDesc := mkSignDesc (MultiSigBase (oc_Local chanState)) None None (si_WitnessScript localAnchor)
        (mkTxOut anchorSize (si_PkScript localAnchor)) 0 0 1 0 in
      let weight := i64 (GetTransactionWeight commitTx + WitnessCommitmentTxWeight) in
      let fee := foldl (fun fee o => i64 (fee - Value o)) (oc_BtcCapacity chanState) (TxOuts (Tx commitTx)) in
      Ok (Some (mkAnchorResolution signDesc (mkOutPoint (TxHash commitTx) index) fee weight)).

Definition NewAnchorResolutions (chanState : OpenChannel) :
    outcome resolve_err (option AnchorResolution * option AnchorResolution * option AnchorResolution) :=
  localRes <~ NewAnchorResolution chanState (c_Tx (oc_LocalCommit chanState)) ;
  remoteRes <~ NewAnchorResolution chanState (c_Tx (oc_RemoteCommit chanState)) ;
  match oc_PendingCommit chanState with
  | Some pending => pendingRes <~ NewAnchorResolution chanState (c_Tx pending) ; Ok (localRes, remoteRes, pendingRes)
  | None => Ok (localRes, remoteRes, None)
  end.

(** ** Closing with our own commitment *)

Variable AtIndex : Z -> option (list byte).

Record LocalForceCloseSummary := mkForceClose {
  CloseTx : SweepTx;
  CommitResolution : option CommitOutputResolution;
  IncomingHTLCs : list HtlcResolution;
  OutgoingHTLCs : list HtlcResolution;
  AnchorRes : option AnchorResolution;
}.

Definition NewLocalForceCloseSummary (chanState : OpenChannel) (commitTx : SweepTx) (stateNum : Z) : outcome resolve_err LocalForceCloseSummary :=
  let csvTimeout := party_CsvDelay (oc_Local chanState) in
  match AtIndex stateNum with
  | None => Err ErrResStore
  | Some revocation =>
      let commitPoint := ComputeCommitmentPoint revocation in
      let keyRing := DeriveCommitmentKeys commitPoint true (oc_ChanType chanState) (party_keys (oc_Local chanState)) (party_keys (oc_Remote chanState)) in
      let leaseExpiry := leaseExpiryOf chanState in
      toLocalScript <~ lift_res (Commit_ToSelf (oc_ChanType chanState) (oc_IsInitiator chanState) (ToLocalKey keyRing)
        (RevocationKey keyRing) csvTimeout leaseExpiry) ;
      let commitResolution :=
        match locate commitTx (si_PkScript toLocalScript) with
        | None => None
        | Some (delayIndex, delayOut) =>
            Some (mkCommitResolution (mkOutPoint (TxHash commitTx) (u32 (Z.of_nat delayIndex)))
              (mkSignDesc (DelayBase (oc_Local chanState)) (LocalCommitKeyTweak keyRing) None (si_WitnessScript toLocalScript)
                (mkTxOut (Value delayOut) (PkScript delayOut)) (oc_AssetID chanState) (c_LocalAssetBalance (oc_LocalCommit chanState)) 1 0)
              csvTimeout)
        end in
      let localCommit := oc_LocalCommit chanState in
      '(ins, outs) <~ extractHtlcResolutions (c_FeePerKw localCommit) true (c_Htlcs localCommit) keyRing (oc_Local chanState) (oc_Remote chanState)
        commitTx (oc_ChanType chanState) (oc_AssetID chanState) (oc_IsInitiator chanState) leaseExpiry ;
      anchorResolution <~ NewAnchorResolution chanState commitTx ;
      Ok (mkForceClose commitTx commitResolution ins outs anchorResolution)
  end.

(** [createSignDesc]. *)
Definition createSignDesc (chanState : OpenChannel) : outcome resolve_err SignDescriptor :=
  let localKey := SerializeCompressed (MultiSigKey (party_keys (oc_Local chanState))) in
  let remoteKey := SerializeCompressed (MultiSigKey (party_keys (oc_Remote chanState))) in
  multiSigScript <~ lift_res (GenMultiSigScript localKey remoteKey) ;
  fundingPkScript <~ lift_res (GenerateP2SH multiSigScript) ;
  Ok (mkSignDesc (MultiSigBase (oc_Local chanState)) None None multiSigScript (mkTxOut (oc_BtcCapacity chanState) fundingPkScript) 0 0 1 0).

(** The commitment and its input script. *)
Definition getSignedCommitTx (chanState : OpenChannel) (signDesc : SignDescriptor) : outcome resolve_err (SweepTx * list byte) :=
  let commitTx := c_Tx (oc_LocalCommit chanState) in
  theirSig <~ parse_sig (c_Sig (oc_LocalCommit chanState)) ;
  ourSig <~ lift_res (sign commitTx signDesc) ;
  let ourKey := SerializeCompressed (MultiSigKey (party_keys (oc_Local chanState))) in
  let theirKey := SerializeCompressed (MultiSigKey (party_keys (oc_Remote chanState))) in
  match TxIns (Tx commitTx) with
  | [] => Panic
  | _ =>
      script <~ lift_res (SpendMultiSigWithoutW (WitnessScript signDesc) ourKey (sigSerialize ourSig) theirKey (sigSerialize theirSig)) ;
      Ok (commitTx, script)
  end.

(** The status of the channel becomes disputed when this succeeds. *)
Definition ForceClose (chanState : OpenChannel) (signDesc : SignDescriptor) : outcome resolve_err (LocalForceCloseSummary * list byte) :=
  if oc_DataLoss chanState then Err ErrDataLoss
  else
    '(commitTx, script) <~ getSignedCommitTx chanState signDesc ;
    summary <~ NewLocalForceCloseSummary chanState commitTx (c_Height (oc_LocalCommit chanState)) ;
    Ok (summary, script).

(** ** The peer's commitment *)

Record UnilateralCloseSummary := mkUnilateral {
  u_SettledBalance : Z;
  u_CommitResolution : option CommitOutputResolution;
  u_IncomingHTLCs : list HtlcResolution;
  u_OutgoingHTLCs : list HtlcResolution;
  u_AnchorResolution : option AnchorResolution;
}.

Definition NewUnilateralCloseSummary (chanState : OpenChannel) (spendingTx : SweepTx) (spenderTxHash : list byte) (remoteCommit : DiskCommit)
    (commitPoint : point) : outcome resolve_err UnilateralCloseSummary :=
  let keyRing := DeriveCommitmentKeys commitPoint false (oc_ChanType chanState) (party_keys (oc_Local chanState)) (party_keys (oc_Remote chanState)) in
  let leaseExpiry := leaseExpiryOf chanState in
  let isRemoteInitiator := negb (oc_IsInitiator chanState) in
  '(ins, outs) <~ extractHtlcResolutions (c_FeePerKw remoteCommit) false (c_Htlcs remoteCommit) keyRing (oc_Local chanState) (oc_Remote chanState)
    spendingTx (oc_ChanType chanState) (oc_AssetID chanState) isRemoteInitiator leaseExpiry ;
  '(selfScript, maturityDelay) <~ lift_res (CommitScriptToRemote (oc_ChanType chanState) isRemoteInitiator (ToRemoteKey keyRing) leaseExpiry) ;
  let self := locate spendingTx (si_PkScript selfScript) in
  let localBalance := match self with Some (_, o) => Value o | None => 0 end in
  let commitResolution :=
    match self with
    | None => None
    | Some (outputIndex, _) =>
        Some (mkCommitResolution (mkOutPoint spenderTxHash (u32 (Z.of_nat outputIndex)))
          (mkSignDesc (PaymentBase (oc_Local chanState)) (LocalCommitKeyTweak keyRing) None (si_WitnessScript selfScript)
            (mkTxOut localBalance (si_PkScript selfScript)) 0 0 1 0)
          maturityDelay)
    end in
  anchorResolution <~ NewAnchorResolution chanState spendingTx ;
  Ok (mkUnilateral (u64 localBalance) commitResolution ins outs anchorResolution).

(** ** A revoked commitment *)

Variable FindPreviousState : Z -> option DiskCommit.
Variable LookUp : Z -> option (list byte).

Record BreachRetribution := mkBreach {
  BreachTransaction : SweepTx;
  LocalOutputSignDesc : SignDescriptor;
  LocalOutpoint : OutPoint;
  LocalDelay : Z;
  RemoteOutputSignDesc : SignDescriptor;
  RemoteOutpoint : OutPoint;
  RemoteDelay : Z;
  HtlcRetributions : list HtlcRetribution;
  KeyRing : CommitmentKeyRing;
}.

(** The loop that locates the two outputs: the last match counts, and without one the
    index stays zero. *)
Fixpoint locateOutputs (outs : list TxOut) (i : Z) (ourScript theirScript : list byte) (ours theirs : Z) : Z * Z :=
  match outs with
  | [] => (ours, theirs)
  | o :: outs =>
      if bool_decide (PkScript o = ourScript) then locateOutputs outs (i + 1) ourScript theirScript (u32 i) theirs
      else if bool_decide (PkScript o = theirScript) then locateOutputs outs (i + 1) ourScript theirScript ours (u32 i)
      else locateOutputs outs (i + 1) ourScript theirScript ours theirs
  end.

Fixpoint retributions (chanState : OpenChannel) (keyRing : CommitmentKeyRing) (commitmentSecret : Z) (commitHash : list byte) (feePerKw leaseExpiry : Z)
    (htlcs : list DiskHTLC) : outcome resolve_err (list HtlcRetribution) :=
  match htlcs with
  | [] => Ok []
  | htlc :: htlcs =>
      if HtlcIsDust (oc_ChanType chanState) (h_Incoming htlc) false feePerKw (ToSatoshis (h_BtcAmt htlc))
           (party_DustLimit (oc_Remote chanState)) (oc_AssetID chanState)
      then retributions chanState keyRing commitmentSecret commitHash feePerKw leaseExpiry htlcs
      else
        secondLevelScript <~ lift_res (Commit_SecondLevel (oc_ChanType chanState) (negb (oc_IsInitiator chanState)) (RevocationKey keyRing)
          (ToLocalKey keyRing) (party_CsvDelay (oc_Remote chanState)) leaseExpiry) ;
        '(htlcPkScript, htlcWitnessScript) <~ lift_res (gen_HtlcScript (oc_ChanType chanState) (h_Incoming htlc) false (h_RefundTimeout htlc)
          (h_RHash htlc) keyRing) ;
        rest <~ retributions chanState keyRing commitmentSecret commitHash feePerKw leaseExpiry htlcs ;
        Ok (mkHtlcRetribution
              (mkSignDesc (RevocationBase (oc_Local chanState)) None (Some commitmentSecret) htlcWitnessScript
                (mkTxOut (ToSatoshis (h_BtcAmt htlc)) htlcPkScript) (h_AssetId htlc) (h_AssetAmt htlc) 1 0)
              (mkOutPoint commitHash (u32 (h_OutputIndex htlc))) (si_WitnessScript secondLevelScript) (h_Incoming htlc) :: rest)
  end.

Definition NewBreachRetribution (chanState : OpenChannel) (stateNum : Z) : outcome resolve_err BreachRetribution :=
  match FindPreviousState stateNum with
  | None => Err ErrResStore
  | Some revokedSnapshot =>
      let commitHash := TxHash (c_Tx revokedSnapshot) in
      match LookUp stateNum with
      | None => Err ErrResStore
      | Some revocationPreimage =>
          let commitmentSecret := be_get revocationPreimage in
          let keyRing := DeriveCommitmentKeys (PubKey commitmentSecret) false (oc_ChanType chanState)
            (party_keys (oc_Local chanState)) (party_keys (oc_Remote chanState)) in
          let theirDelay := party_CsvDelay (oc_Remote chanState) in
          let isRemoteInitiator := negb (oc_IsInitiator chanState) in
          let leaseExpiry := leaseExpiryOf chanState in
          theirScript <~ lift_res (Commit_ToSelf (oc_ChanType chanState) isRemoteInitiator (ToLocalKey keyRing) (RevocationKey keyRing) theirDelay leaseExpiry) ;
          '(ourScript, ourDelay) <~ lift_res (CommitScriptToRemote (oc_ChanType chanState) isRemoteInitiator (ToRemoteKey keyRing) leaseExpiry) ;
          let '(ours, theirs) := locateOutputs (TxOuts (Tx (c_Tx revokedSnapshot))) 0 (si_PkScript ourScript) (si_PkScript theirScript) 0 0 in
          let ourSignDesc := mkSignDesc (PaymentBase (oc_Local chanState)) (LocalCommitKeyTweak keyRing) None (si_WitnessScript ourScript)
            (mkTxOut (ToSatoshis (c_LocalBtcBalance revokedSnapshot)) (si_PkScript ourScript)) (oc_AssetID chanState)
            (c_LocalAssetBalance revokedSnapshot) 1 0 in
          let theirSignDesc := mkSignDesc (RevocationBase (oc_Local chanState)) None (Some commitmentSecret) (si_WitnessScript theirScript)
            (mkTxOut (ToSatoshis (c_RemoteBtcBalance revokedSnapshot)) (si_PkScript theirScript)) (oc_AssetID chanState)
            (c_RemoteAssetBalance revokedSnapshot) 1 0 in
          htlcRetributions <~ retributions chanState keyRing commitmentSecret commitHash (c_FeePerKw revokedSnapshot) leaseExpiry (c_Htlcs revokedSnapshot) ;
          Ok (mkBreach (c_Tx revokedSnapshot) ourSignDesc (mkOutPoint commitHash ours) ourDelay theirSignDesc (mkOutPoint commitHash theirs) theirDelay
                htlcRetributions keyRing)
      end
  end.
End resolutions.
