(* ===== verification/ResolveTheorems.v ===== *)
(** * What a node gets on chain

    The descriptors that lnwallet/channel.go prepares for a commitment on chain make
    witnesses that spend its outputs. *)

From stdpp Require Import base list gmap.
From Stdlib Require Import ZArith Lia Bool.
From S2P Require Import Prelude Wire Amounts OpReturn CommitTx KeyDerivation ScriptUtils.
From S2P Require Import ScriptPaths WitnessGen Resolutions.

Local Open Scope Z_scope.
Local Open Scope go_scope.

Section resolve.
Context `{TS : TxScript} {TG : TxSign} {SG : Signer}.
Context {SL : Secp256k1Laws} {TL : TxScriptLaws} {TGL : TxSignLaws} {SGL : SignerLaws}.

(** ** The outputs behind the scripts of a commitment *)

Definition self_out (chanType : Z) (initiator : bool) (selfKey revokeKey : point) (csvDelay leaseExpiry : Z) : output :=
  if initiator && ChannelType.HasLeaseExpiration chanType then OutLeaseToSelf selfKey revokeKey csvDelay leaseExpiry
  else OutToSelf csvDelay selfKey revokeKey.

Definition second_out (chanType : Z) (initiator : bool) (revokeKey delayKey : point) (csvDelay leaseExpiry : Z) : output :=
  if initiator && ChannelType.HasLeaseExpiration chanType then OutLeaseSecondLevel revokeKey delayKey csvDelay leaseExpiry
  else OutSecondLevel revokeKey delayKey csvDelay.

Definition htlc_out (chanType : Z) (isIncoming ourCommit : bool) (timeout : Z) (rHash : list byte) (ring : CommitmentKeyRing) : output :=
  let conf := ChannelType.HasAnchors chanType in
  match isIncoming, ourCommit with
  | true, true => OutReceiver timeout (RemoteHtlcKey ring) (LocalHtlcKey ring) (RevocationKey ring) rHash conf
  | true, false => OutSender (RemoteHtlcKey ring) (LocalHtlcKey ring) (RevocationKey ring) rHash conf
  | false, true => OutSender (LocalHtlcKey ring) (RemoteHtlcKey ring) (RevocationKey ring) rHash conf
  | false, false => OutReceiver timeout (LocalHtlcKey ring) (RemoteHtlcKey ring) (RevocationKey ring) rHash conf
  end.

(** A script and the output paying to it. *)
Definition pays (o : output) (pk code : list byte) : Prop := redeem_script o = Ok code /\ GenerateP2SH code = Ok pk.

Lemma pays_total o : wf_output o -> (forall a b, o <> OutFunding a b) -> exists pk code, pays o pk code.
Proof.
  intros Hw Hn. destruct (redeem_total o Hw) as (code & Hc & _); [intros a b ->; by destruct (Hn a b)|].
  destruct (p2sh_total code) as [pk Hp]. by exists pk, code.
Qed.

Lemma hashed_pays o pk code : pays o pk code -> hashed (redeem_script o) = Ok (mkScriptInfo pk code).
Proof. intros [Hc Hp]. unfold hashed. rewrite Hc. cbn [obind]. by rewrite Hp. Qed.

Lemma ToSelf_pays chanType initiator selfKey revokeKey csv lease pk code :
  pays (self_out chanType initiator selfKey revokeKey csv lease) pk code ->
  Commit_ToSelf chanType initiator selfKey revokeKey csv lease = Ok (mkScriptInfo pk code).
Proof.
  intros H. rewrite <- (hashed_pays _ _ _ H). unfold Commit_ToSelf, self_out. by destruct (initiator && _).
Qed.

Lemma SecondLevel_pays chanType initiator revokeKey delayKey csv lease pk code :
  pays (second_out chanType initiator revokeKey delayKey csv lease) pk code ->
  Commit_SecondLevel chanType initiator revokeKey delayKey csv lease = Ok (mkScriptInfo pk code).
Proof.
  intros H. rewrite <- (hashed_pays _ _ _ H). unfold Commit_SecondLevel, second_out. by destruct (initiator && _).
Qed.

Lemma HtlcScript_pays chanType incoming ours timeout rHash ring pk code :
  pays (htlc_out chanType incoming ours timeout rHash ring) pk code ->
  gen_HtlcScript chanType incoming ours timeout rHash ring = Ok (pk, code).
Proof.
  intros [Hc Hp]. unfold gen_HtlcScript, htlc_out in *. destruct incoming, ours; cbn [redeem_script] in Hc; rewrite Hc; cbn [obind]; by rewrite Hp.
Qed.

(** The two ends derive the same scripts for a commitment. *)
Definition owner_ring (chanType : Z) (secret : Z) (owner other : ChannelConfig) : CommitmentKeyRing :=
  DeriveCommitmentKeys (PubKey secret) true chanType owner other.
Definition other_ring (chanType : Z) (secret : Z) (owner other : ChannelConfig) : CommitmentKeyRing :=
  DeriveCommitmentKeys (PubKey secret) false chanType other owner.

Lemma ring_mirror chanType secret owner other :
  let mine := owner_ring chanType secret owner other in
  let theirs := other_ring chanType secret owner other in
  ToLocalKey mine = ToLocalKey theirs /\ RevocationKey mine = RevocationKey theirs /\
  LocalHtlcKey mine = RemoteHtlcKey theirs /\ RemoteHtlcKey mine = LocalHtlcKey theirs.
Proof. unfold owner_ring, other_ring, DeriveCommitmentKeys. by destruct (ChannelType.IsTweakless chanType). Qed.

Lemma htlc_out_mirror chanType incoming timeout rHash secret owner other :
  htlc_out chanType incoming false timeout rHash (other_ring chanType secret owner other) =
  htlc_out chanType (negb incoming) true timeout rHash (owner_ring chanType secret owner other).
Proof.
  destruct (ring_mirror chanType secret owner other) as (H1 & H2 & H3 & H4). unfold htlc_out.
  destruct incoming; cbn [negb]; by rewrite H2, H3, H4.
Qed.

(** A descriptor sweeps an output: every transaction it signs for is accepted. *)
Definition sweeps (wt : StandardWitnessType) (d : SignDescriptor) (pk : list byte) : Prop :=
  forall tx idx clean s, SignOutputRaw tx (set_InputIndex d idx) = Some s ->
    exists i sig, WitnessGenerator wt d tx idx = (set_InputIndex d idx, Ok i) /\ GetSigScript i = Ok sig /\ Engine (spend tx idx clean) pk sig = true.

Lemma sweeps_intro wt o d pk :
  Known (KeyDesc d) -> wf_output o -> pays o pk (WitnessScript d) -> (forall ctx, ready ctx wt o d) -> sweeps wt d pk.
Proof. intros Hk Hw [Hr Hp] Hready tx idx clean s Hs. by eapply sweep_spends. Qed.

(** ** Revoked commitments *)

Section breach.
Variables (TxHash : SweepTx -> list byte) (FindPreviousState : Z -> option DiskCommit) (LookUp : Z -> option (list byte)).
Variables (ch : OpenChannel) (n : Z) (snap : DiskCommit) (secret : list byte).

(** The ring that the cheating party derived for the commitment. *)
Definition cheater : CommitmentKeyRing :=
  DeriveCommitmentKeys (ComputeCommitmentPoint secret) true (oc_ChanType ch) (party_keys (oc_Remote ch)) (party_keys (oc_Local ch)).

Definition cheater_self : output :=
  self_out (oc_ChanType ch) (negb (oc_IsInitiator ch)) (ToLocalKey cheater) (RevocationKey cheater) (party_CsvDelay (oc_Remote ch)) (leaseExpiryOf ch).

Definition cheater_second : output :=
  second_out (oc_ChanType ch) (negb (oc_IsInitiator ch)) (RevocationKey cheater) (ToLocalKey cheater) (party_CsvDelay (oc_Remote ch)) (leaseExpiryOf ch).

(** An HTLC of the commitment, as the party that owns it sees it. *)
Definition cheater_htlc (h : DiskHTLC) : output :=
  htlc_out (oc_ChanType ch) (negb (h_Incoming h)) true (h_RefundTimeout h) (h_RHash h) cheater.

Definition on_commitment (h : DiskHTLC) : Prop :=
  HtlcIsDust (oc_ChanType ch) (h_Incoming h) false (c_FeePerKw snap) (ToSatoshis (h_BtcAmt h)) (party_DustLimit (oc_Remote ch)) (oc_AssetID ch) = false.

#[local] Instance on_commitment_dec h : Decision (on_commitment h).
Proof. unfold on_commitment. apply _. Defined.

(** The second level of an HTLC is swept with the script that the retribution keeps for it. *)
Definition second_level_desc (r : HtlcRetribution) : SignDescriptor :=
  let d := ret_SignDesc r in
  mkSignDesc (KeyDesc d) (SingleTweak d) (DoubleTweak d) (ret_SecondLevelWitnessScript r) (Output d) (sd_AssetId d) (AssetAmt d) (HashType d) (InputIndex d).

Definition htlc_punished (h : DiskHTLC) (r : HtlcRetribution) : Prop :=
  ret_OutPoint r = mkOutPoint (TxHash (c_Tx snap)) (u32 (h_OutputIndex h)) /\
  (exists pk code, pays (cheater_htlc h) pk code /\ PkScript (Output (ret_SignDesc r)) = pk /\
     sweeps (if h_Incoming h then HtlcAcceptedRevoke else HtlcOfferedRevoke) (ret_SignDesc r) pk) /\
  (exists pk code, pays cheater_second pk code /\ sweeps HtlcSecondLevelRevoke (second_level_desc r) pk).

Hypothesis Hsnap : FindPreviousState n = Some snap.
Hypothesis Hsecret : LookUp n = Some secret.
Hypothesis Hknown : Known (RevocationBase (oc_Local ch)).
Hypothesis Hcsv : in_u 32 (party_CsvDelay (oc_Remote ch)).
Hypothesis Hthaw : in_u 32 (oc_ThawHeight ch).
Hypothesis Htimeouts : Forall (fun h => in_u 32 (h_RefundTimeout h)) (c_Htlcs snap).

Definition punisher : CommitmentKeyRing :=
  DeriveCommitmentKeys (PubKey (be_get secret)) false (oc_ChanType ch) (party_keys (oc_Local ch)) (party_keys (oc_Remote ch)).

Lemma punisher_keys : ToLocalKey punisher = ToLocalKey cheater /\ RevocationKey punisher = RevocationKey cheater.
Proof.
  destruct (ring_mirror (oc_ChanType ch) (be_get secret) (party_keys (oc_Remote ch)) (party_keys (oc_Local ch))) as (H1 & H2 & _).
  unfold punisher, cheater. rewrite ComputeCommitmentPoint_pub. split; symmetry; [exact H1|exact H2].
Qed.

Lemma revocation_key : RevocationKey cheater = DeriveRevocationPubkey (RevocationBasePoint (party_keys (oc_Local ch))) (PubKey (be_get secret)).
Proof. unfold cheater, DeriveCommitmentKeys. by destruct (ChannelType.IsTweakless _). Qed.

Lemma lease_range : in_u 32 (leaseExpiryOf ch).
Proof. unfold leaseExpiryOf. destruct (ChannelType.HasLeaseExpiration _); [done|]. unfold in_u. lia. Qed.

Lemma cheater_self_wf : wf_output cheater_self /\ forall a b, cheater_self <> OutFunding a b.
Proof. pose proof lease_range. unfold cheater_self, self_out. destruct (_ && _); cbn; auto. Qed.

Lemma cheater_second_wf : wf_output cheater_second /\ forall a b, cheater_second <> OutFunding a b.
Proof. pose proof lease_range. unfold cheater_second, second_out. destruct (_ && _); cbn; auto. Qed.

Lemma cheater_htlc_wf h : in_u 32 (h_RefundTimeout h) -> wf_output (cheater_htlc h) /\ forall a b, cheater_htlc h <> OutFunding a b.
Proof. intros Ht. unfold cheater_htlc, htlc_out. destruct (h_Incoming h); cbn; auto. Qed.

(** Every descriptor signs for the revocation key. *)
Definition revoking (d : SignDescriptor) : Prop :=
  KeyDesc d = RevocationBase (oc_Local ch) /\ SingleTweak d = None /\ DoubleTweak d = Some (be_get secret).

Lemma revoking_key d : revoking d -> Known (KeyDesc d) /\ signing_key d = Some (RevocationKey cheater).
Proof. intros (Hk & Hs & Hd). unfold signing_key. rewrite Hk, Hs, Hd, revocation_key. split; done. Qed.

Lemma retributions_punish htlcs :
  Forall (fun h => in_u 32 (h_RefundTimeout h)) htlcs ->
  exists rs, retributions ch punisher (be_get secret) (TxHash (c_Tx snap)) (c_FeePerKw snap) (leaseExpiryOf ch) htlcs = Ok rs /\
    Forall2 htlc_punished (filter on_commitment htlcs) rs.
Proof.
  induction 1 as [|h htlcs Ht _ (rs & IH & Hrs)]; [by exists []|]. cbn [retributions]. rewrite filter_cons.
  destruct (HtlcIsDust _ _ _ _ _ _ _) eqn:Ed; [rewrite decide_False by (unfold on_commitment; congruence); by exists rs|].
  rewrite decide_True by done. destruct punisher_keys as [E1 E2]. rewrite E1, E2.
  destruct cheater_second_wf as [Hw2 Hf2]. destruct (pays_total _ Hw2 Hf2) as (pk2 & code2 & Hp2).
  destruct (cheater_htlc_wf h Ht) as [Hw1 Hf1]. destruct (pays_total _ Hw1 Hf1) as (pk1 & code1 & Hp1).
  rewrite (SecondLevel_pays _ _ _ _ _ _ _ _ Hp2). cbn [lift_res obind].
  assert (gen_HtlcScript (oc_ChanType ch) (h_Incoming h) false (h_RefundTimeout h) (h_RHash h) punisher = Ok (pk1, code1)) as ->.
  { apply HtlcScript_pays. change punisher with (other_ring (oc_ChanType ch) (be_get secret) (party_keys (oc_Remote ch)) (party_keys (oc_Local ch))).
    rewrite htlc_out_mirror. exact Hp1. }
  cbn [lift_res obind]. rewrite IH. cbn [obind]. eexists. split; [done|]. constructor; [|done]. split; [done|].
  assert (forall code, revoking (mkSignDesc (RevocationBase (oc_Local ch)) None (Some (be_get secret)) code
    (mkTxOut (ToSatoshis (h_BtcAmt h)) pk1) (h_AssetId h) (h_AssetAmt h) 1 0)) as Hrev by done.
  split.
  - exists pk1, code1. split_and!; [done|done|]. destruct (revoking_key _ (Hrev code1)) as [Hk Hkey].
    eapply sweeps_intro; [exact Hk|exact Hw1|exact Hp1|]. intros ctx. unfold cheater_htlc, htlc_out. cbn [ret_SignDesc].
    destruct (h_Incoming h); done.
  - exists pk2, code2. split; [done|]. destruct (revoking_key _ (Hrev code2)) as [Hk Hkey].
    eapply sweeps_intro; [exact Hk|exact Hw2|exact Hp2|]. intros ctx. unfold cheater_second, second_out. by destruct (_ && _).
Qed.

Lemma ToRemote_total chanType initiator key lease : in_u 32 lease -> exists r, CommitScriptToRemote chanType initiator key lease = Ok r.
Proof.
  intros Hl. unfold CommitScriptToRemote. destruct (_ && _); [|destruct (ChannelType.HasAnchors chanType)].
  - destruct (pays_total (OutLeaseToRemote key lease)) as (pk & code & Hp); [done..|]. apply hashed_pays in Hp. cbn [redeem_script] in Hp. rewrite Hp. cbn. eauto.
  - destruct (pays_total (OutToRemote key)) as (pk & code & Hp); [done..|]. apply hashed_pays in Hp. cbn [redeem_script] in Hp. rewrite Hp. cbn. eauto.
  - unfold GenerateP2PKH, build. destruct (script_built (p2pkh (SerializeCompressed key))) as (bs & -> & _); [| |by eexists].
    + repeat (apply Forall_cons; split); try apply Forall_nil; cbn [small_push]; try exact I. rewrite hash160_size. unfold MaxScriptElementSize. lia.
    + unfold p2pkh, Hash160, hash160. cbn [script_size foldr]. rewrite hash_size. cbn. unfold MaxScriptSize. lia.
Qed.

Lemma locateOutputs_none outs i our their a b :
  (forall o, o ∈ outs -> PkScript o <> their) -> (locateOutputs outs i our their a b).2 = b.
Proof.
  revert i a b. induction outs as [|o outs IH]; intros i a b Hn; [done|]. cbn.
  case_bool_decide; [apply IH; set_solver|]. rewrite bool_decide_eq_false_2 by set_solver. apply IH. set_solver.
Qed.

Lemma locateOutputs_theirs outs i our their a b k o :
  outs !! k = Some o -> PkScript o = their -> their <> our -> (forall j o', outs !! j = Some o' -> PkScript o' = their -> j = k) ->
  (locateOutputs outs i our their a b).2 = u32 (i + Z.of_nat k).
Proof.
  revert i a b k. induction outs as [|x outs IH]; intros i a b k Ho Hs Hne Hu; [done|]. destruct k as [|k]; cbn in Ho.
  - injection Ho as ->. cbn. rewrite bool_decide_eq_false_2 by congruence. rewrite bool_decide_eq_true_2 by done.
    rewrite locateOutputs_none; [f_equal; lia|]. intros o' [j Hj]%list_elem_of_lookup E. by specialize (Hu (S j) o' Hj E).
  - assert (PkScript x <> their) as Hx by (intros E; by specialize (Hu 0%nat x eq_refl E)). cbn.
    rewrite (bool_decide_eq_false_2 (PkScript x = their)) by done.
    assert (forall a b, (locateOutputs outs (i + 1) our their a b).2 = u32 (i + 1 + Z.of_nat k)) as HIH.
    { intros ? ?. apply IH; [done..|]. intros j o' Hj E. specialize (Hu (S j) o' Hj E). lia. }
    case_bool_decide; rewrite HIH; f_equal; lia.
Qed.

(** C7: A revoked commitment is punished.  Once the peer's secret is known, the retribution for
    the commitment is always made.  Its descriptors take the peer's own output and every
    HTLC that has an output, on the commitment or after the peer's second-level transaction,
    with the scripts of the commitment as the peer derives them itself. *)
Theorem breach_punished :
  exists b, NewBreachRetribution TxHash FindPreviousState LookUp ch n = Ok b /\
    (exists pk code, pays cheater_self pk code /\ PkScript (Output (RemoteOutputSignDesc b)) = pk /\ sweeps CommitmentRevoke (RemoteOutputSignDesc b) pk /\
       forall k o, TxOuts (Tx (c_Tx snap)) !! k = Some o -> PkScript o = pk -> pk <> PkScript (Output (LocalOutputSignDesc b)) ->
         (forall j o', TxOuts (Tx (c_Tx snap)) !! j = Some o' -> PkScript o' = pk -> j = k) ->
         RemoteOutpoint b = mkOutPoint (TxHash (c_Tx snap)) (u32 (Z.of_nat k))) /\
    Forall2 htlc_punished (filter on_commitment (c_Htlcs snap)) (HtlcRetributions b).
Proof.
  unfold NewBreachRetribution. rewrite Hsnap, Hsecret. fold punisher. destruct punisher_keys as [E1 E2]. rewrite E1, E2.
  destruct cheater_self_wf as [Hw Hf]. destruct (pays_total _ Hw Hf) as (pk & code & Hp). rewrite (ToSelf_pays _ _ _ _ _ _ _ _ Hp). cbn [lift_res obind].
  destruct (ToRemote_total (oc_ChanType ch) (negb (oc_IsInitiator ch)) (ToRemoteKey punisher) (leaseExpiryOf ch) lease_range) as [[our delay] ->].
  cbn [lift_res obind]. destruct (locateOutputs _ _ _ _ _ _) as [ours theirs] eqn:El. cbv zeta. destruct (retributions_punish _ Htimeouts) as (rs & -> & Hrs).
  cbn [obind]. eexists. split; [done|]. split; [|exact Hrs]. exists pk, code. split_and!; [done|done| |].
  - eapply sweeps_intro; [| |exact Hp|]; [done|done|]. intros ctx.
    assert (signing_key (mkSignDesc (RevocationBase (oc_Local ch)) None (Some (be_get secret)) code (mkTxOut (ToSatoshis (c_RemoteBtcBalance snap)) pk)
      (oc_AssetID ch) (c_RemoteAssetBalance snap) 1 0) = Some (RevocationKey cheater)) as Hkey by by apply revoking_key.
    unfold cheater_self, self_out. by destruct (_ && _).
  - intros k o Ho Hs Hne Hu. cbn [RemoteOutpoint]. f_equal. cbn [LocalOutputSignDesc Output PkScript si_PkScript] in *.
    pose proof (locateOutputs_theirs _ 0 (si_PkScript our) pk 0 0 k o Ho Hs Hne Hu) as H. by rewrite El in H.
Qed.
End breach.
End resolve.
