(* ===== verification/ForceClose.v ===== *)
(** * A forced close pays out

    What [ForceClose] of lnwallet/channel.go prepares for our own commitment is accepted on
    chain: the commitment by the funding output, our delayed output and the second levels of
    the HTLCs by the witnesses made for them. *)

From stdpp Require Import base list gmap sorting.
From Stdlib Require Import ZArith Lia Bool.
From S2P Require Import Prelude Wire Amounts OpReturn CommitTx KeyDerivation ScriptUtils.
From S2P Require Import ScriptPaths WitnessGen Resolutions ResolveTheorems.

Local Open Scope Z_scope.
Local Open Scope go_scope.

Section close.
Context `{TS : TxScript} {TG : TxSign} {SG : Signer}.
Context {SL : Secp256k1Laws} {TL : TxScriptLaws} {TGL : TxSignLaws} {SGL : SignerLaws}.

(** ** Second-level transactions *)

(** The output of a second-level transaction, behind the payload of the asset, if there is one. *)
Definition second_outs (assetId amt : Z) (payload out : TxOut) : list TxOut :=
  if bool_decide (assetId = BtcAssetId) || bool_decide (amt = 0) then [out] else [payload; out].

Lemma PayloadTotal tx assetId pk amt o :
  in_u 32 assetId -> TxOuts tx = [o] -> PkScript o = pk ->
  exists payload, AddOpReturnToTx tx (PksAdd (NewPksAmounts assetId) pk amt) = Ok (set_outs tx (second_outs assetId amt payload o)) /\
    (assetId <> BtcAssetId -> amt <> 0 -> head (PkScript payload) = Some OP_RETURN).
Proof.
  intros Hu Ho Hp. unfold PksAdd, AddOpReturnToTx, second_outs, NewPksAmounts. cbn [AssetID pksAmounts].
  destruct (decide (assetId = BtcAssetId)) as [E|E].
  { subst assetId. cbn. exists o. split; [|done]. by rewrite <- Ho; destruct tx. }
  rewrite !(bool_decide_eq_false_2 (assetId = _)) by done. destruct (decide (amt = 0)) as [->|Ha].
  { cbn. exists o. rewrite (bool_decide_eq_false_2 (assetId = _)) by done. split; [|done]. by rewrite <- Ho; destruct tx. }
  rewrite (bool_decide_eq_false_2 (amt = 0)) by done. cbn [orb AssetID pksAmounts app opOutputs].
  rewrite (bool_decide_eq_false_2 (assetId = _)), bool_decide_eq_false_2 by done. unfold FindScriptOutputIndex. rewrite Ho. cbn [list_find].
  rewrite decide_True by done. cbn [obind].
  assert (merge_sort out_le [mkOutput (u8 (u8 (u32 (Z.of_nat 0)) + 1)) (u64 amt)] = [mkOutput 1 (u64 amt)]) as -> by done.
  unfold GetOpReturnOut. rewrite u32_id by done.
  destruct (Encode_ok 0 0 [mkOutput 1 (u64 amt)] assetId) as (w & bs & -> & Hw & Hl & _); [done|done| |cbn; lia|].
  { apply Forall_singleton. split; [unfold in_u; cbn; lia|]. unfold in_u, u64. cbn [Amount]. apply Z.mod_pos_bound. lia. }
  cbn [obind]. unfold run_writer. rewrite (Hw []). cbn [app obind]. destruct (getOpPKs_ok bs) as (pre & Hg & Hpre & Hm); [cbn in Hl; lia|].
  rewrite Hg. cbn [obind]. eexists. split; [done|]. intros _ _. cbn. unfold getOpPKs in Hg. case_bool_decide; [done|]. inversion Hg as [Eg].
  destruct pre; [cbn in Hpre; lia|]. cbn in Eg |- *. congruence.
Qed.

Lemma secondLevel_total chanType lockTime initiator op btc amt assetId csv lease revokeKey delayKey pk code :
  in_u 32 assetId -> pays (second_out chanType initiator revokeKey delayKey csv lease) pk code ->
  exists payload, secondLevelTx chanType lockTime initiator op btc amt assetId csv lease revokeKey delayKey =
      Ok (mkSweep 2 {| TxIns := [mkTxIn op (HtlcSecondLevelInputSequence chanType)];
                       TxOuts := second_outs assetId amt payload (mkTxOut btc pk); LockTime := lockTime |}) /\
    (assetId <> BtcAssetId -> amt <> 0 -> head (PkScript payload) = Some OP_RETURN).
Proof.
  intros Hu Hp. unfold secondLevelTx. rewrite (SecondLevel_pays _ _ _ _ _ _ _ _ Hp). cbn [lift_script obind si_PkScript].
  destruct (PayloadTotal {| TxIns := [mkTxIn op (HtlcSecondLevelInputSequence chanType)]; TxOuts := [mkTxOut btc pk]; LockTime := lockTime |}
    assetId pk amt (mkTxOut btc pk)) as (payload & -> & Hh); [done..|]. by exists payload.
Qed.

Lemma second_confirmed chanType op outs lockTime clean :
  confirmed_ok (spend (mkSweep 2 {| TxIns := [mkTxIn op (HtlcSecondLevelInputSequence chanType)]; TxOuts := outs; LockTime := lockTime |}) 0 clean)
    (ChannelType.HasAnchors chanType).
Proof. intros H. unfold HtlcSecondLevelInputSequence. by rewrite H. Qed.

(** A descriptor sweeps an output once a condition on the transaction holds. *)
Definition sweeps_after (cond : SpendCtx -> Prop) (wt : StandardWitnessType) (d : SignDescriptor) (pk : list byte) : Prop :=
  forall tx idx clean s, SignOutputRaw tx (set_InputIndex d idx) = Some s -> cond (spend tx idx clean) ->
    exists i sig, WitnessGenerator wt d tx idx = (set_InputIndex d idx, Ok i) /\ GetSigScript i = Ok sig /\ Engine (spend tx idx clean) pk sig = true.

Lemma sweeps_after_intro (cond : SpendCtx -> Prop) wt o d pk :
  Known (KeyDesc d) -> wf_output o -> pays o pk (WitnessScript d) -> (forall ctx, cond ctx -> ready ctx wt o d) -> sweeps_after cond wt d pk.
Proof. intros Hk Hw [Hr Hp] Hready tx idx clean s Hs Hc. eapply sweep_spends; eauto. Qed.

Section own.
Variables (TxHash : SweepTx -> list byte) (GetTransactionWeight : SweepTx -> Z) (AtIndex : Z -> option (list byte)).
Variables (ch : OpenChannel) (secret : list byte).

Abbreviation chanType := (oc_ChanType ch).
Abbreviation commit := (oc_LocalCommit ch).
Abbreviation commitTx := (c_Tx (oc_LocalCommit ch)).
Abbreviation csv := (party_CsvDelay (oc_Local ch)).

Definition own : CommitmentKeyRing :=
  DeriveCommitmentKeys (ComputeCommitmentPoint secret) true chanType (party_keys (oc_Local ch)) (party_keys (oc_Remote ch)).

Definition lease_of : option Z :=
  if oc_IsInitiator ch && ChannelType.HasLeaseExpiration chanType then Some (leaseExpiryOf ch) else None.

Definition leased (wt lease_wt : StandardWitnessType) : StandardWitnessType := if lease_of is Some _ then lease_wt else wt.

Definition own_self : output := self_out chanType (oc_IsInitiator ch) (ToLocalKey own) (RevocationKey own) csv (leaseExpiryOf ch).
Definition own_second : output := second_out chanType (oc_IsInitiator ch) (RevocationKey own) (ToLocalKey own) csv (leaseExpiryOf ch).
Definition own_htlc (h : DiskHTLC) : output := htlc_out chanType (h_Incoming h) true (h_RefundTimeout h) (h_RHash h) own.

(** What the resolution of an HTLC is good for.  Its second-level transaction spends the
    output of the HTLC: with the peer's signature in place, and the preimage for an incoming
    one, which is put in the fourth place of the witness, the output accepts it.  The second
    level pays to our delayed key, and the descriptor sweeps it after the delay. *)
Definition htlc_claimed (h : DiskHTLC) (r : HtlcResolution) : Prop :=
  exists pk code pk2 code2 tx w,
    pays (own_htlc h) pk code /\ pays own_second pk2 code2 /\ res_SignedTx r = Some (tx, w) /\
    (PreviousOutPoint <$> TxIns (Tx tx)) = [mkOutPoint (TxHash commitTx) (u32 (h_OutputIndex h))] /\
    (exists payload, TxOuts (Tx tx) = second_outs (oc_AssetID ch) (h_AssetAmt h) payload (Output (res_SweepSignDesc r)) /\
       (oc_AssetID ch <> BtcAssetId -> h_AssetAmt h <> 0 -> head (PkScript payload) = Some OP_RETURN)) /\
    res_ClaimOutpoint r = mkOutPoint (TxHash tx) 0 /\
    LockTime (Tx tx) = (if h_Incoming h then 0 else h_RefundTimeout h) /\
    (forall clean peerSig x, sigParse (h_Signature h) = Some peerSig ->
       signed (spend tx 0 clean) code (SerializeCompressed (RemoteHtlcKey own)) (typed peerSig (HtlcSigHashType chanType)) ->
       (if h_Incoming h then length x = 32%nat /\ keySha256 x = h_RHash h else x = []) ->
       Hash160 x <> Hash160 (SerializeCompressed (RevocationKey own)) ->
       exists sig, GetSigScript (mkInputScript (<[3%nat := x]> w) []) = Ok sig /\ Engine (spend tx 0 clean) pk sig = true) /\
    PkScript (Output (res_SweepSignDesc r)) = pk2 /\
    sweeps_after (fun ctx => matured ctx csv lease_of)
      (if h_Incoming h then leased HtlcAcceptedSuccessSecondLevel LeaseHtlcAcceptedSuccessSecondLevel
       else leased HtlcOfferedTimeoutSecondLevel LeaseHtlcOfferedTimeoutSecondLevel) (res_SweepSignDesc r) pk2.

Definition htlc_kept (h : DiskHTLC) : Prop :=
  HtlcIsDust chanType (h_Incoming h) true (c_FeePerKw commit) (ToSatoshis (h_BtcAmt h)) (party_DustLimit (oc_Local ch)) (oc_AssetID ch) = false.

#[local] Instance htlc_kept_dec h : Decision (htlc_kept h).
Proof. unfold htlc_kept. apply _. Defined.

(** A stored HTLC: its output is on the commitment and the peer's signature is one. *)
Definition htlc_stored (h : DiskHTLC) : Prop :=
  in_u 32 (h_RefundTimeout h) /\
  (htlc_kept h -> 0 <= h_OutputIndex h /\ is_Some (TxOuts (Tx commitTx) !! Z.to_nat (h_OutputIndex h)) /\ is_Some (sigParse (h_Signature h))).

Hypothesis Hsigner : forall tx d, Known (KeyDesc d) -> is_Some (SignOutputRaw tx d).
Hypothesis Hhtlc : Known (HtlcBase (oc_Local ch)).
Hypothesis Hdelay : Known (DelayBase (oc_Local ch)).
Hypothesis Hcsv : in_u 32 csv.
Hypothesis Hthaw : in_u 32 (oc_ThawHeight ch).
Hypothesis Hasset : in_u 32 (oc_AssetID ch).

Lemma own_lease_range : in_u 32 (leaseExpiryOf ch).
Proof. unfold leaseExpiryOf. destruct (ChannelType.HasLeaseExpiration _); [done|]. unfold in_u. lia. Qed.

Lemma own_self_wf : wf_output own_self /\ forall a b, own_self <> OutFunding a b.
Proof. pose proof own_lease_range. unfold own_self, self_out. destruct (_ && _); cbn; auto. Qed.

Lemma own_second_wf : wf_output own_second /\ forall a b, own_second <> OutFunding a b.
Proof. pose proof own_lease_range. unfold own_second, second_out. destruct (_ && _); cbn; auto. Qed.

Lemma own_htlc_wf h : in_u 32 (h_RefundTimeout h) -> wf_output (own_htlc h) /\ forall a b, own_htlc h <> OutFunding a b.
Proof. intros Ht. unfold own_htlc, htlc_out. destruct (h_Incoming h); cbn; auto. Qed.

Lemma own_keys : CommitPoint own = ComputeCommitmentPoint secret /\
  LocalCommitKeyTweak own = Some (SingleTweakBytes (ComputeCommitmentPoint secret) (DelayBasePoint (party_keys (oc_Local ch)))) /\
  ToLocalKey own = TweakPubKey (DelayBasePoint (party_keys (oc_Local ch))) (ComputeCommitmentPoint secret) /\
  LocalHtlcKey own = TweakPubKeyWithTweak (HtlcBasePoint (party_keys (oc_Local ch))) (LocalHtlcKeyTweak own).
Proof. unfold own, DeriveCommitmentKeys. by destruct (ChannelType.IsTweakless _). Qed.

Lemma htlc_sweep_ready h ctx code2 pk2 amt id assetAmt :
  matured ctx csv lease_of ->
  ready ctx (if h_Incoming h then leased HtlcAcceptedSuccessSecondLevel LeaseHtlcAcceptedSuccessSecondLevel
             else leased HtlcOfferedTimeoutSecondLevel LeaseHtlcOfferedTimeoutSecondLevel) own_second
    (mkSignDesc (DelayBase (oc_Local ch)) (Some (SingleTweakBytes (CommitPoint own) (DelayBasePoint (party_keys (oc_Local ch))))) None code2
      (mkTxOut amt pk2) id assetAmt 1 0).
Proof.
  intros Hm. destruct own_keys as (E1 & _ & E2 & _). unfold own_second, second_out. rewrite E1, E2. unfold leased, lease_of in *.
  destruct (_ && _), (h_Incoming h); done.
Qed.

Lemma out_at_some {E} i o : 0 <= i -> TxOuts (Tx commitTx) !! Z.to_nat i = Some o -> @out_at E commitTx i = Ok o.
Proof. intros Hi Ho. unfold out_at. rewrite bool_decide_eq_false_2 by lia. by rewrite Ho. Qed.

(** The descriptor that signs a second-level transaction, and the transaction. *)
Definition level_desc (code : list byte) (o : TxOut) (id amt : Z) : SignDescriptor :=
  mkSignDesc (HtlcBase (oc_Local ch)) (Some (LocalHtlcKeyTweak own)) None code o id amt 1 0.

Definition level_tx (op : OutPoint) (outs : list TxOut) (lockTime : Z) : SweepTx :=
  mkSweep 2 {| TxIns := [mkTxIn op (HtlcSecondLevelInputSequence chanType)]; TxOuts := outs; LockTime := lockTime |}.

Lemma level_accepted h pk code o id amt op outs lockTime clean s peer x :
  in_u 32 (h_RefundTimeout h) -> pays (own_htlc h) pk code ->
  SignOutputRaw (level_tx op outs lockTime) (level_desc code o id amt) = Some s ->
  signed (spend (level_tx op outs lockTime) 0 clean) code (SerializeCompressed (RemoteHtlcKey own)) (typed peer (HtlcSigHashType chanType)) ->
  (if h_Incoming h then length x = 32%nat /\ keySha256 x = h_RHash h else x = []) ->
  Hash160 x <> Hash160 (SerializeCompressed (RevocationKey own)) ->
  exists sig, GetSigScript (mkInputScript [[]; typed peer (HtlcSigHashType chanType); typed s 1; x; code] []) = Ok sig /\
    Engine (spend (level_tx op outs lockTime) 0 clean) pk sig = true.
Proof.
  intros Ht [Hr Hg] Hs Hsigned Hx Hne. destruct own_keys as (_ & _ & _ & Ekey).
  assert (signing_key (level_desc code o id amt) = Some (LocalHtlcKey own)) as Hkey by by rewrite Ekey.
  pose proof (second_confirmed chanType op outs lockTime clean) as Hconf. unfold own_htlc, htlc_out in Hr. destruct (h_Incoming h).
  - destruct Hx as [Hl Hx].
    destruct (redeem_spends (h_RefundTimeout h) (RemoteHtlcKey own) (LocalHtlcKey own) (RevocationKey own) (h_RHash h) (ChannelType.HasAnchors chanType)
      pk (level_desc code o id amt) (level_tx op outs lockTime) clean s peer (HtlcSigHashType chanType) x) as (w & sig & Hw & Hsig & He); try done.
    exists sig. unfold ReceiverHtlcSpendRedeem, sign in Hw. rewrite Hs in Hw. injection Hw as <-. done.
  - subst x. destruct (timeout_spends (LocalHtlcKey own) (RemoteHtlcKey own) (RevocationKey own) (h_RHash h) (ChannelType.HasAnchors chanType)
      pk (level_desc code o id amt) (level_tx op outs lockTime) clean s peer (HtlcSigHashType chanType)) as (w & sig & Hw & Hsig & He); try done.
    exists sig. unfold SenderHtlcSpendTimeout, sign in Hw. rewrite Hs in Hw. injection Hw as <-. done.
Qed.

Lemma claimed_intro h r pk code pk2 code2 o id amt payload btc aid aamt s peer :
  in_u 32 (h_RefundTimeout h) -> pays (own_htlc h) pk code -> pays own_second pk2 code2 -> sigParse (h_Signature h) = Some peer ->
  let outs := second_outs (oc_AssetID ch) (h_AssetAmt h) payload (mkTxOut btc pk2) in
  let tx := level_tx (mkOutPoint (TxHash commitTx) (u32 (h_OutputIndex h))) outs (if h_Incoming h then 0 else h_RefundTimeout h) in
  SignOutputRaw tx (level_desc code o id amt) = Some s ->
  res_SignedTx r = Some (tx, [[]; typed peer (HtlcSigHashType chanType); typed s 1; []; code]) ->
  res_SweepSignDesc r = mkSignDesc (DelayBase (oc_Local ch)) (Some (SingleTweakBytes (CommitPoint own) (DelayBasePoint (party_keys (oc_Local ch)))))
    None code2 (mkTxOut btc pk2) aid aamt 1 0 ->
  (oc_AssetID ch <> BtcAssetId -> h_AssetAmt h <> 0 -> head (PkScript payload) = Some OP_RETURN) ->
  res_ClaimOutpoint r = mkOutPoint (TxHash tx) 0 ->
  htlc_claimed h r.
Proof.
  intros Ht Hp1 Hp2 Hpeer outs tx Hs Etx Ed Hpay Hpoint. exists pk, code, pk2, code2, tx. eexists. rewrite Ed.
  split_and!; [done|done|exact Etx|done|by exists payload|exact Hpoint|done| |done|].
  - intros clean peerSig x Hps Hsigned Hx Hne. assert (peerSig = peer) as -> by congruence. cbn [insert list_insert].
    by apply (level_accepted h pk code o id amt _ outs _ clean s peer x Ht Hp1 Hs).
  - eapply sweeps_after_intro; [exact Hdelay|apply own_second_wf|exact Hp2|]. intros ctx. apply htlc_sweep_ready.
Qed.

(** An HTLC is resolved. *)
Lemma htlc_resolved h : htlc_stored h -> htlc_kept h ->
  exists r, (if h_Incoming h then newIncomingHtlcResolution TxHash else newOutgoingHtlcResolution TxHash) (oc_Local ch) commitTx h own
      (c_FeePerKw commit) csv (leaseExpiryOf ch) true (oc_IsInitiator ch) chanType (oc_AssetID ch) = Ok r /\ htlc_claimed h r.
Proof.
  intros [Ht Hst] Hk. destruct (Hst Hk) as (Hi & [o Ho] & [peer Hpeer]). clear Hst Hk.
  destruct own_second_wf as [Hw2 Hf2]. destruct (pays_total _ Hw2 Hf2) as (pk2 & code2 & Hp2).
  destruct (own_htlc_wf h Ht) as [Hw1 Hf1]. destruct (pays_total _ Hw1 Hf1) as (pk & code & Hp1).
  pose proof (HtlcScript_pays _ _ _ _ _ _ _ _ Hp1) as Hscript. pose proof (SecondLevel_pays _ _ _ _ _ _ _ _ Hp2) as Hsecond.
  pose proof (fun r => claimed_intro h r pk code pk2 code2) as Hclaim. destruct (h_Incoming h);
    [unfold newIncomingHtlcResolution, CreateHtlcSuccessTx|unfold newOutgoingHtlcResolution, CreateHtlcTimeoutTx];
    rewrite Hscript; cbn [lift_res obind negb];
    match goal with |- context [secondLevelTx _ ?lt _ ?op ?btc ?amt _ _ _ _ _] =>
      destruct (secondLevel_total chanType lt (oc_IsInitiator ch) op btc amt (oc_AssetID ch) csv (leaseExpiryOf ch) _ _ pk2 code2 Hasset Hp2)
        as (payload & -> & Hpay) end;
    cbn [lift_second obind]; rewrite (out_at_some _ o Hi Ho); cbn [obind]; unfold parse_sig; rewrite Hpeer; cbn [obind];
    set (tx := mkSweep 2 _); set (d := mkSignDesc (HtlcBase _) _ _ _ _ _ _ _ _); destruct (Hsigner tx d Hhtlc) as [s Hs];
    [unfold ReceiverHtlcSpendRedeem|unfold SenderHtlcSpendTimeout]; unfold sign; rewrite Hs; cbn [lift_res obind];
    rewrite Hsecond; cbn [lift_res obind si_WitnessScript si_PkScript]; eexists; (split; [done|]);
    (eapply Hclaim; [exact Ht|exact Hp1|exact Hp2|exact Hpeer|exact Hs|done|done|exact Hpay|done]).
Qed.

Lemma htlcs_resolved htlcs : Forall htlc_stored htlcs ->
  exists ins outs, resolveHtlcs TxHash (c_FeePerKw commit) true htlcs own (oc_Local ch) (party_DustLimit (oc_Local ch)) csv commitTx chanType
      (oc_AssetID ch) (oc_IsInitiator ch) (leaseExpiryOf ch) = Ok (ins, outs) /\
    Forall2 htlc_claimed (filter (fun h => htlc_kept h /\ h_Incoming h = true) htlcs) ins /\
    Forall2 htlc_claimed (filter (fun h => htlc_kept h /\ h_Incoming h = false) htlcs) outs.
Proof.
  induction 1 as [|h htlcs Hh _ (ins & outs & IH & Hin & Hout)]; [by exists [], []|]. cbn [resolveHtlcs]. rewrite !filter_cons.
  destruct (HtlcIsDust _ _ _ _ _ _ _) eqn:Ed.
  { assert (~ htlc_kept h) by (unfold htlc_kept; congruence). rewrite !decide_False by tauto. by exists ins, outs. }
  change (htlc_kept h) in Ed. destruct (htlc_resolved h Hh Ed) as (r & Hr & Hc).
  replace (if h_Incoming h then newIncomingHtlcResolution else newOutgoingHtlcResolution) with
    (fun f => (if h_Incoming h then newIncomingHtlcResolution f else newOutgoingHtlcResolution f)) by by destruct (h_Incoming h).
  cbv beta. rewrite Hr, IH. cbn [obind].
  destruct (h_Incoming h); eexists _, _; (split; [done|]); [rewrite decide_True, decide_False by (by split || by intros [])|rewrite decide_False, decide_True by (by split || by intros [])];
    split; try done; by constructor.
Qed.

(** In an asset channel the point that a resolution claims is the payload of the asset, and
    the output to sweep is the next one. *)
Lemma claim_point_is_payload h r : oc_AssetID ch <> BtcAssetId -> h_AssetAmt h <> 0 -> htlc_claimed h r ->
  exists tx w payload, res_SignedTx r = Some (tx, w) /\ res_ClaimOutpoint r = mkOutPoint (TxHash tx) 0 /\
    TxOuts (Tx tx) = [payload; Output (res_SweepSignDesc r)] /\ head (PkScript payload) = Some OP_RETURN.
Proof.
  intros Ha Hm (pk & code & pk2 & code2 & tx & w & _ & _ & Htx & _ & (payload & Ho & Hh) & Hpoint & _). exists tx, w, payload.
  split_and!; [done|done| |by apply Hh]. rewrite Ho. unfold second_outs. by rewrite !bool_decide_eq_false_2.
Qed.

(** ** The commitment itself *)

Definition funding : output :=
  OutFunding (SerializeCompressed (MultiSigKey (party_keys (oc_Local ch)))) (SerializeCompressed (MultiSigKey (party_keys (oc_Remote ch)))).

Lemma funding_pays : exists pk code, redeem_script funding = Ok code /\ GenerateP2SH code = Ok pk.
Proof.
  destruct (redeem_total funding I) as (code & Hc & _); [intros a b [= <- <-]; by rewrite !compressed_size|].
  destruct (p2sh_total code) as [pk Hp]. by exists pk, code.
Qed.

Lemma funding_accepted pk code ours theirs clean :
  redeem_script funding = Ok code -> GenerateP2SH code = Ok pk ->
  exists sig, SpendMultiSigWithoutW code (SerializeCompressed (MultiSigKey (party_keys (oc_Local ch)))) (sigSerialize ours)
      (SerializeCompressed (MultiSigKey (party_keys (oc_Remote ch)))) (sigSerialize theirs) = Ok sig /\
    (signed (spend commitTx 0 clean) code (SerializeCompressed (MultiSigKey (party_keys (oc_Local ch)))) (typed ours 1) ->
     signed (spend commitTx 0 clean) code (SerializeCompressed (MultiSigKey (party_keys (oc_Remote ch)))) (typed theirs 1) ->
     Engine (spend commitTx 0 clean) pk sig = true).
Proof.
  intros Hr Hp. set (a := SerializeCompressed (MultiSigKey (party_keys (oc_Local ch)))) in *.
  set (b := SerializeCompressed (MultiSigKey (party_keys (oc_Remote ch)))) in *.
  set (st := match bytes_compare a b with Gt => [[]; typed theirs 1; typed ours 1] | _ => [[]; typed ours 1; typed theirs 1] end).
  assert (Forall small_item st /\ (length st <= 4)%nat) as [Hst Hl].
  { unfold st. destruct (bytes_compare a b); (split; [|cbn; lia]);
      repeat (apply Forall_cons; split); (apply typed_small || apply small_nil || apply Forall_nil_2). }
  destruct (GetSigScript_pushes (st ++ [code]) []) as (sig & Hg & Hpush).
  { rewrite length_app. cbn [length]. lia. } { apply Forall_app. split; [done|]. apply Forall_singleton. by apply (code_small funding). }
  exists sig. assert (exists c code', code = c :: code') as (c & code' & Ecode).
  { destruct (redeem_built funding code Hr) as [_ Hf].
    destruct (redeem_total funding I Hf) as (code1 & E & Hlen). assert (code1 = code) as -> by congruence. destruct code; [cbn in Hlen; lia|eauto]. }
  split.
  - unfold SpendMultiSigWithoutW. rewrite <- Hg. unfold GetSigScript. f_equal. unfold st. cbn [Witness].
    assert (forall s, exists x l, typed s 1 = x :: l) as Ht.
    { intros s. unfold typed. destruct (sigSerialize s); eauto. }
    destruct (Ht ours) as (x & l & Eo), (Ht theirs) as (y & m & Et). fold SigHashAll in *.
    change (sigSerialize ours ++ [SigHashAll]) with (typed ours 1). change (sigSerialize theirs ++ [SigHashAll]) with (typed theirs 1).
    rewrite Eo, Et, Ecode. by destruct (bytes_compare a b).
  - intros Ho Ht. rewrite (engine_of_p2sh code pk), Hpush by done. cbn [fmap option_fmap option_map].
    rewrite reverse_snoc, bool_decide_eq_true_2 by done. cbn [andb]. apply (redeem_evaluated funding); [done..|].
    unfold st. cbn [spendable funding]. unfold funding_path, sortKeys. fold a b. destruct (bytes_compare a b); eexists _, _, []; split_and!; done.
Qed.

Lemma anchors_total tx : exists r, NewAnchorResolution TxHash GetTransactionWeight ch tx = Ok r.
Proof.
  unfold NewAnchorResolution, CommitScriptAnchors. destruct (negb _); [eauto|].
  destruct (pays_total (OutAnchor (MultiSigKey (party_keys (oc_Local ch)))) I) as (pk & code & Hp); [done|].
  destruct (pays_total (OutAnchor (MultiSigKey (party_keys (oc_Remote ch)))) I) as (pk' & code' & Hp'); [done|].
  apply hashed_pays in Hp, Hp'. cbn [redeem_script] in Hp, Hp'. rewrite Hp, Hp'. cbn [lift_res obind].
  destruct (FindScriptOutputIndex _ _) as [[] index]; cbn [negb]; eauto.
Qed.

(** The output that pays to us is found and swept after the delay. *)
Definition self_claimed (res : option CommitOutputResolution) : Prop :=
  exists pk code, pays own_self pk code /\
    match res with
    | None => forall o, o ∈ TxOuts (Tx commitTx) -> PkScript o <> pk
    | Some r => exists k o, TxOuts (Tx commitTx) !! k = Some o /\ PkScript o = pk /\
        SelfOutPoint r = mkOutPoint (TxHash commitTx) (u32 (Z.of_nat k)) /\ Output (SelfOutputSignDesc r) = o /\
        sweeps_after (fun ctx => matured ctx csv lease_of /\ 2 <= TxVersion ctx) (leased CommitmentTimeLock LeaseCommitmentTimeLock)
          (SelfOutputSignDesc r) pk
    end.

Lemma close_summary :
  AtIndex (c_Height commit) = Some secret -> Forall htlc_stored (c_Htlcs commit) ->
  exists s, NewLocalForceCloseSummary TxHash GetTransactionWeight AtIndex ch commitTx (c_Height commit) = Ok s /\
    CloseTx s = commitTx /\ self_claimed (CommitResolution s) /\
    Forall2 htlc_claimed (filter (fun h => htlc_kept h /\ h_Incoming h = true) (c_Htlcs commit)) (IncomingHTLCs s) /\
    Forall2 htlc_claimed (filter (fun h => htlc_kept h /\ h_Incoming h = false) (c_Htlcs commit)) (OutgoingHTLCs s).
Proof.
  intros Hat Hst. unfold NewLocalForceCloseSummary. rewrite Hat. fold own. destruct own_self_wf as [Hw Hf].
  destruct (pays_total _ Hw Hf) as (pk & code & Hp). rewrite (ToSelf_pays _ _ _ _ _ _ _ _ Hp). cbn [lift_res obind si_PkScript si_WitnessScript].
  unfold extractHtlcResolutions. destruct (htlcs_resolved _ Hst) as (ins & outs & -> & Hin & Hout). cbn [obind].
  destruct (anchors_total commitTx) as [r ->]. cbn [obind]. eexists. split; [done|]. split_and!; [done| |done|done].
  exists pk, code. split; [done|]. cbn [CommitResolution]. unfold locate. destruct (list_find _ _) as [[k o]|] eqn:E.
  - apply list_find_Some in E as (Ho & Hs & _). exists k, o. split_and!; [done|done|done|by destruct o|].
    eapply sweeps_after_intro; [exact Hdelay|exact Hw|exact Hp|]. intros ctx [Hm Hv]. destruct own_keys as (_ & E2 & E3 & _).
    rewrite E2. unfold own_self, self_out. rewrite E3. unfold leased, lease_of in *. by destruct (_ && _).
  - intros o Ho Hs. apply list_find_None in E. by eapply Forall_forall in E.
Qed.

End own.
End close.
