(* ===== verification/CommitOutputs.v ===== *)
(** * The outputs of a commitment

    A commitment transaction (CommitTx.v) built with the scripts of Resolutions.v has
    exactly the outputs that the theorems on spending are about. *)

From stdpp Require Import base list gmap sorting.
From Stdlib Require Import ZArith Lia Bool.
From S2P Require Import Prelude Wire Amounts OpReturn UpdateLog CommitTx KeyDerivation.
From S2P Require Import ScriptUtils ScriptPaths WitnessGen Resolutions ResolveTheorems.

Local Open Scope Z_scope.
Local Open Scope go_scope.

Section outputs.
Context `{TS : TxScript}.
Variable sane : MsgTx -> bool.
#[local] Instance commit_scripts : Scripts := channel_scripts sane.

(** An output for an HTLC of the view. *)
Definition htlc_paid (cfg : ChanCfg) (keys : CommitmentKeyRing) (ourCommit incoming : bool) (x : view_entry) (o : TxOut) : Prop :=
  Value o = ToSatoshis (BtcAmount x.2) /\
  exists code, pays (htlc_out (ChanType cfg) incoming ourCommit (Timeout x.2) (RHash x.2) keys) (PkScript o) code.

Definition if_not_dust (dust amt : Z) (script : list byte) : list TxOut :=
  if bool_decide (amt >= dust) then [mkTxOut amt script] else [].

Lemma hashed_inv o info : hashed (redeem_script o) = Ok info -> pays o (si_PkScript info) (si_WitnessScript info).
Proof.
  unfold hashed. intros H. obind_inv H. obind_inv H. injection H as <-. by split.
Qed.

Lemma ToSelf_inv chanType initiator (keys : CommitmentKeyRing) csv lease pk :
  CommitTx.CommitScriptToSelf chanType initiator keys csv lease = Some pk ->
  exists code, pays (self_out chanType initiator (ToLocalKey keys) (RevocationKey keys) csv lease) pk code.
Proof.
  cbn. destruct (Commit_ToSelf _ _ _ _ _ _) as [info| |] eqn:E; [|done..]. intros [= <-]. exists (si_WitnessScript info). apply hashed_inv.
  rewrite <- E. unfold Commit_ToSelf, self_out. by destruct (initiator && _).
Qed.

Lemma genHtlcScript_inv chanType incoming ours timeout rHash (keys : CommitmentKeyRing) pk :
  genHtlcScript chanType incoming ours timeout rHash keys = Some pk ->
  exists code, pays (htlc_out chanType incoming ours timeout rHash keys) pk code.
Proof.
  cbn. destruct (gen_HtlcScript _ _ _ _ _ _) as [[pk' code]| |] eqn:E; [|done..]. intros [= <-]. exists code.
  unfold gen_HtlcScript in E. obind_inv E. obind_inv E. injection E as <- <-. split; [|done]. unfold htlc_out. by destruct incoming, ours.
Qed.

Lemma addHTLCs_outs cfg (keys : CommitmentKeyRing) ours incoming fee dust l : forall st cltvs st' cltvs' l',
  addHTLCs cfg keys ours incoming fee dust l st cltvs = Ok (st', cltvs', l') ->
  exists hs, TxOuts st'.1 = TxOuts st.1 ++ hs /\ Forall2 (htlc_paid cfg keys ours incoming) (nonDust cfg incoming ours fee dust l) hs.
Proof.
  unfold nonDust. induction l as [|x l IH]; intros st cltvs st' cltvs' l' H; cbn [addHTLCs] in H.
  - injection H as <- <- <-. exists []. by rewrite app_nil_r.
  - rewrite filter_cons. destruct (entryIsDust _ _ _ _ _ _) eqn:Ed.
    + obind_inv H. destruct a as [[st1 cltvs1] l1]. injection H as <- <- <-. rewrite decide_False by congruence. by eapply IH.
    + unfold addHTLC in H. destruct (genHtlcScript _ _ _ _ _ _) as [pk|] eqn:Eg; [|done]. cbn [obind] in H. obind_inv H.
      destruct a as [[st1 cltvs1] l1]. injection H as <- <- <-. rewrite decide_True by done.
      destruct (IH _ _ _ _ _ Hstep) as (hs & Ho & Hp). cbn [fst TxOuts set_outs] in Ho.
      exists (mkTxOut (ToSatoshis (BtcAmount x.2)) pk :: hs). rewrite Ho, <- app_assoc. split; [done|]. constructor; [|done].
      split; [done|]. by apply genHtlcScript_inv.
Qed.

(** The payload of the asset. *)
Definition is_payload (o : TxOut) : Prop := Value o = 0 /\ head (PkScript o) = Some OP_RETURN.

Lemma GetOpReturnOut_payload asset outs o : GetOpReturnOut asset outs = Ok o -> is_payload o.
Proof.
  unfold GetOpReturnOut. intros H. do 3 obind_inv H. injection H as <-. split; [done|]. unfold getOpPKs in Hstep1.
  case_bool_decide; [done|]. by injection Hstep1 as <-.
Qed.

Lemma AddOpReturnToTx_outs tx p tx' : AddOpReturnToTx tx p = Ok tx' ->
  exists payload, TxOuts tx' = payload ++ TxOuts tx /\ Forall is_payload payload /\ (length payload <= 1)%nat /\
    (OpReturn.AssetID p = BtcAssetId -> payload = []).
Proof.
  unfold AddOpReturnToTx. case_bool_decide as Ha; [intros [= <-]; exists []; cbn; split_and!; [done..|lia|done]|].
  case_bool_decide; [intros [= <-]; exists []; cbn; split_and!; [done..|lia|done]|]. intros H1. do 2 obind_inv H1. injection H1 as <-.
  exists [a0]. split_and!; [done| |cbn; lia|done]. apply Forall_singleton. by eapply GetOpReturnOut_payload.
Qed.

Lemma CreateCommitTx_outs cfg (keys : CommitmentKeyRing) lc rc toLocal toRemote aLocal aRemote ini lease p script st :
  CreateCommitTx cfg keys lc rc toLocal toRemote aLocal aRemote ini lease p script = Ok st ->
  OpReturn.AssetID st.2 = OpReturn.AssetID p /\
  exists pk code, pays (self_out (ChanType cfg) ini (ToLocalKey keys) (RevocationKey keys) (CsvDelay lc) lease) pk code /\
    TxOuts st.1 = if_not_dust (DustLimit lc) toLocal pk ++ if_not_dust (DustLimit lc) toRemote script.
Proof.
  unfold CreateCommitTx, if_not_dust. destruct (CommitTx.CommitScriptToSelf _ _ _ _ _) as [pk|] eqn:E; [|done]. destruct (ToSelf_inv _ _ _ _ _ _ E) as [code Hp].
  destruct (bool_decide (toLocal >= _)), (bool_decide (toRemote >= _)), (bool_decide (aLocal > 0)), (bool_decide (aRemote > 0)); cbn [negb andb]; try done;
    intros [= <-]; (split; [cbn [snd]; by rewrite ?PksAdd_asset|]); by exists pk, code.
Qed.

Lemma addHTLCs_asset cfg (keys : CommitmentKeyRing) ours incoming fee dust l : forall st cltvs st' cltvs' l',
  addHTLCs cfg keys ours incoming fee dust l st cltvs = Ok (st', cltvs', l') -> OpReturn.AssetID st'.2 = OpReturn.AssetID st.2.
Proof.
  induction l as [|x l IH]; intros st cltvs st' cltvs' l' H; cbn [addHTLCs] in H; [by injection H as <- <- <-|].
  destruct (entryIsDust _ _ _ _ _ _).
  - obind_inv H. destruct a as [[st1 cltvs1] l1]. injection H as <- <- <-. by eapply IH.
  - unfold addHTLC in H. destruct (genHtlcScript _ _ _ _ _ _) as [pk|]; [|done]. cbn [obind] in H. obind_inv H.
    destruct a as [[st1 cltvs1] l1]. injection H as <- <- <-. apply IH in Hstep. rewrite Hstep. apply PksAdd_asset.
Qed.

Lemma sort_outs tx cltvs tx' cltvs' : CommitSort.InPlaceCommitSort tx cltvs = Ok (tx', cltvs') -> TxOuts tx' ≡ₚ TxOuts tx.
Proof.
  unfold CommitSort.InPlaceCommitSort. case_bool_decide; [done|]. intros [= <- _]. cbn [TxOuts]. rewrite merge_sort_Permutation. by rewrite fst_zip by lia.
Qed.

Lemma hint_outs tx height ob tx' : SetStateNumHint tx height ob = Ok tx' -> TxOuts tx' = TxOuts tx.
Proof. unfold SetStateNumHint. case_bool_decide; [done|]. destruct (TxIns tx) as [|i [|]]; [done| |done]. by intros [= <-]. Qed.

(** The owner of the commitment, as the builder passes it on. *)
Definition owner_cfg (cfg : ChanCfg) (isOurs : bool) : ChannelConstraints := if isOurs then LocalChanCfg cfg else RemoteChanCfg cfg.
Definition other_shutdown (cfg : ChanCfg) (isOurs : bool) : list byte := if isOurs then RemoteShutdownScript cfg else LocalShutdownScript cfg.
Definition owner_leads (cfg : ChanCfg) (isOurs : bool) : bool := if isOurs then IsInitiator cfg else negb (IsInitiator cfg).

End outputs.
