(* ===== verification/SweepInputs.v ===== *)
(** * Inputs of sweep transactions

    The inputs that input/input.go hands to a sweeper, the sizes of witnesses that
    input/size.go and input/witnessgen.go promise, and the serialisation of sign descriptors
    (input/signdescriptor.go, input/txout.go).  The byte strings with a length of btcd's wire
    package and the parser of public keys are parameters. *)

From stdpp Require Import base list gmap.
From Stdlib Require Import ZArith Lia Bool.
From S2P Require Import Prelude Wire CoinSelect OpReturn CommitTx KeyDerivation ScriptUtils.
From S2P Require Import ScriptPaths WitnessGen Resolutions.

Local Open Scope Z_scope.
Local Open Scope go_scope.

(** ** Sizes *)

Definition MultiSigSize : Z := 1 + 1 + 33 + 1 + 33 + 1 + 1.
Definition MultiSigWitnessSize : Z := 1 + 1 + 1 + 73 + 1 + 73 + 1 + MultiSigSize.
Definition HtlcConfirmedScriptOverhead : Z := 3.
Definition ToLocalScriptSize : Z := 1 + 1 + 33 + 1 + 1 + 4 + 1 + 1 + 1 + 33 + 1 + 1.
Definition LeaseWitnessScriptSizeOverhead : Z := 1 + 4 + 1 + 1.
Definition ToLocalTimeoutWitnessSize : Z := 1 + 1 + 73 + 1 + 1 + ToLocalScriptSize.
Definition ToLocalPenaltyWitnessSize : Z := 1 + 1 + 73 + 1 + 1 + 1 + ToLocalScriptSize.
Definition ToRemoteConfirmedScriptSize : Z := 1 + 33 + 1 + 1 + 1.
Definition ToRemoteConfirmedWitnessSize : Z := 1 + 1 + 73 + 1 + ToRemoteConfirmedScriptSize.
Definition AcceptedHtlcScriptSize : Z := 3 * 1 + 20 + 5 * 1 + 33 + 8 * 1 + 20 + 4 * 1 + 33 + 5 * 1 + 4 + 5 * 1.
Definition AcceptedHtlcScriptSizeConfirmed : Z := AcceptedHtlcScriptSize + HtlcConfirmedScriptOverhead.
Definition AcceptedHtlcTimeoutWitnessSize : Z := 1 + 1 + 73 + 1 + 1 + AcceptedHtlcScriptSize.
Definition AcceptedHtlcPenaltyWitnessSize : Z := 1 + 1 + 73 + 1 + 33 + 1 + AcceptedHtlcScriptSize.
Definition AcceptedHtlcSuccessWitnessSizeConfirmed : Z := 1 + 1 + 1 + 73 + 1 + 73 + 1 + 32 + 1 + AcceptedHtlcScriptSizeConfirmed.
Definition OfferedHtlcScriptSize : Z := 3 * 1 + 20 + 5 * 1 + 33 + 10 * 1 + 33 + 5 * 1 + 20 + 4 * 1.
Definition OfferedHtlcScriptSizeConfirmed : Z := OfferedHtlcScriptSize + HtlcConfirmedScriptOverhead.
Definition OfferedHtlcSuccessWitnessSize : Z := 1 + 1 + 73 + 1 + 32 + 1 + OfferedHtlcScriptSize.
Definition OfferedHtlcTimeoutWitnessSizeConfirmed : Z := 1 + 1 + 1 + 73 + 1 + 73 + 1 + 1 + OfferedHtlcScriptSizeConfirmed.
Definition OfferedHtlcPenaltyWitnessSize : Z := 1 + 1 + 73 + 1 + 33 + 1 + OfferedHtlcScriptSize.
Definition AnchorScriptSize : Z := 1 + 33 + 6 * 1.
Definition AnchorWitnessSize : Z := 1 + 1 + 73 + 1 + AnchorScriptSize.

(** The size, and whether the output nests a witness program. *)
Definition SizeUpperBound (wt : StandardWitnessType) : option (Z * bool) :=
  match wt with
  | CommitSpendNoDelayTweakless | WitnessKeyHash | CommitmentNoDelay => Some (P2WKHWitnessSize, false)
  | CommitmentTimeLock => Some (ToLocalTimeoutWitnessSize, false)
  | LeaseCommitmentTimeLock => Some (ToLocalTimeoutWitnessSize + LeaseWitnessScriptSizeOverhead, false)
  | CommitmentToRemoteConfirmed => Some (ToRemoteConfirmedWitnessSize, false)
  | LeaseCommitmentToRemoteConfirmed => Some (ToRemoteConfirmedWitnessSize + LeaseWitnessScriptSizeOverhead, false)
  | CommitmentAnchor => Some (AnchorWitnessSize, false)
  | HtlcOfferedTimeoutSecondLevel => Some (ToLocalTimeoutWitnessSize, false)
  | LeaseHtlcOfferedTimeoutSecondLevel => Some (ToLocalTimeoutWitnessSize + LeaseWitnessScriptSizeOverhead, false)
  | HtlcOfferedTimeoutSecondLevelInputConfirmed => Some (OfferedHtlcTimeoutWitnessSizeConfirmed, false)
  | HtlcAcceptedSuccessSecondLevel => Some (ToLocalTimeoutWitnessSize, false)
  | LeaseHtlcAcceptedSuccessSecondLevel => Some (ToLocalTimeoutWitnessSize + LeaseWitnessScriptSizeOverhead, false)
  | HtlcAcceptedSuccessSecondLevelInputConfirmed => Some (AcceptedHtlcSuccessWitnessSizeConfirmed, false)
  | HtlcOfferedRemoteTimeout => Some (AcceptedHtlcTimeoutWitnessSize, false)
  | HtlcAcceptedRemoteSuccess => Some (OfferedHtlcSuccessWitnessSize, false)
  | NestedWitnessKeyHash => Some (P2WKHWitnessSize, true)
  | CommitmentRevoke => Some (ToLocalPenaltyWitnessSize, false)
  | HtlcOfferedRevoke => Some (OfferedHtlcPenaltyWitnessSize, false)
  | HtlcAcceptedRevoke => Some (AcceptedHtlcPenaltyWitnessSize, false)
  | HtlcSecondLevelRevoke => Some (ToLocalPenaltyWitnessSize, false)
  | PubKeyHash => None
  end.

Definition AddWeightEstimation (wt : StandardWitnessType) (e : TxWeightEstimator.t) : option TxWeightEstimator.t :=
  '(size, isNestedP2SH) ← SizeUpperBound wt;
  Some (if isNestedP2SH : bool then TxWeightEstimator.AddNestedP2WSHInput size e else TxWeightEstimator.AddWitnessInput size e).

(** ** Inputs *)

Record TxInfo := mkTxInfo { info_Fee : Z; info_Weight : Z }.

Record inputKit `{SC : Secp256k1} := mkKit {
  outpoint : OutPoint;
  witnessType : StandardWitnessType;
  signDesc : SignDescriptor;
  heightHint : Z;
  blockToMaturity : Z;
  cltvExpiry : Z;
  unconfParent : option TxInfo;
}.
#[global] Arguments mkKit {_}.

Section inputs.
Context `{TS : TxScript} {TG : TxSign} {SG : Signer}.

(** The three kinds of inputs; the closure of a second-level input is its preimage, if it
    claims with one, and its details. *)
Inductive Input : Type :=
  | BaseInput (kit : inputKit)
  | HtlcSucceedInput (kit : inputKit) (preimage : list byte)
  | HtlcSecondLevelAnchorInput (kit : inputKit) (SignedTx : SweepTx) (signDetails : SignDetails) (preimage : option (list byte)).

Definition kit_of (i : Input) : inputKit :=
  match i with BaseInput k | HtlcSucceedInput k _ | HtlcSecondLevelAnchorInput k _ _ _ => k end.

Definition MakeBaseInput (op : OutPoint) (wt : StandardWitnessType) (d : SignDescriptor) (hint : Z) (parent : option TxInfo) : Input :=
  BaseInput (mkKit op wt d hint 0 0 parent).

Definition NewBaseInput (op : OutPoint) (wt : StandardWitnessType) (d : SignDescriptor) (hint : Z) : Input := MakeBaseInput op wt d hint None.

Definition NewCsvInput (op : OutPoint) (wt : StandardWitnessType) (d : SignDescriptor) (hint blocks : Z) : Input :=
  BaseInput (mkKit op wt d hint blocks 0 None).

Definition NewCsvInputWithCltv (op : OutPoint) (wt : StandardWitnessType) (d : SignDescriptor) (hint csvDelay expiry : Z) : Input :=
  BaseInput (mkKit op wt d hint csvDelay expiry None).

Definition MakeHtlcSucceedInput (op : OutPoint) (d : SignDescriptor) (preimage : list byte) (hint blocks : Z) : Input :=
  HtlcSucceedInput (mkKit op HtlcAcceptedRemoteSuccess d hint blocks 0 None) preimage.

(** [signedTx.TxIn[0]] panics without inputs. *)
Definition MakeHtlcSecondLevelTimeoutAnchorInput (signedTx : SweepTx) (signDetails : SignDetails) (hint : Z) : outcome script_err Input :=
  match TxIns (Tx signedTx) with
  | [] => Panic
  | i :: _ => Ok (HtlcSecondLevelAnchorInput
      (mkKit (PreviousOutPoint i) HtlcOfferedTimeoutSecondLevelInputConfirmed (det_SignDesc signDetails) hint 1 0 None) signedTx signDetails None)
  end.

Definition MakeHtlcSecondLevelSuccessAnchorInput (signedTx : SweepTx) (signDetails : SignDetails) (preimage : list byte) (hint : Z) :
    outcome script_err Input :=
  match TxIns (Tx signedTx) with
  | [] => Panic
  | i :: _ => Ok (HtlcSecondLevelAnchorInput
      (mkKit (PreviousOutPoint i) HtlcAcceptedSuccessSecondLevelInputConfirmed (det_SignDesc signDetails) hint 1 0 None) signedTx signDetails
      (Some preimage))
  end.

Definition RequiredTxOut (i : Input) : outcome script_err (option TxOut) :=
  match i with
  | BaseInput _ | HtlcSucceedInput _ _ => Ok None
  | HtlcSecondLevelAnchorInput _ tx _ _ => match TxOuts (Tx tx) with o :: _ => Ok (Some o) | [] => Panic end
  end.

Definition RequiredLockTime (i : Input) : Z * bool :=
  match i with
  | BaseInput k | HtlcSucceedInput k _ => (cltvExpiry k, bool_decide (0 < cltvExpiry k))
  | HtlcSecondLevelAnchorInput _ tx _ _ => (LockTime (Tx tx), true)
  end.

Definition BlocksToMaturity (i : Input) : Z := blockToMaturity (kit_of i).

Definition CraftInputScript (i : Input) (txn : SweepTx) (txinIdx : Z) : outcome script_err InputScript :=
  match i with
  | BaseInput k => (WitnessGenerator (witnessType k) (signDesc k) txn txinIdx).2
  | HtlcSucceedInput k preimage =>
      witness_only (SenderHtlcSpendRedeem (set_InputIndex (signDesc k) txinIdx) txn preimage)
  | HtlcSecondLevelAnchorInput _ _ det None =>
      witness_only (SenderHtlcSpendTimeout (PeerSig det) (det_SigHashType det) (set_InputIndex (det_SignDesc det) txinIdx) txn)
  | HtlcSecondLevelAnchorInput _ _ det (Some preimage) =>
      witness_only (ReceiverHtlcSpendRedeem (PeerSig det) (det_SigHashType det) preimage (set_InputIndex (det_SignDesc det) txinIdx) txn)
  end.

(** ** The size of a witness *)

(** A count and every item behind its length; no item of a channel reaches 253 bytes. *)
Definition witness_size (w : list (list byte)) : Z := 1 + foldr (fun x n => 1 + Z.of_nat (length x) + n) 0 w.

(** The outputs that an input is meant for. *)
Definition meant_for (wt : StandardWitnessType) (o : output) : Prop :=
  match wt, o with
  | (CommitmentTimeLock | CommitmentRevoke), OutToSelf _ _ _
  | (LeaseCommitmentTimeLock | CommitmentRevoke), OutLeaseToSelf _ _ _ _
  | CommitmentToRemoteConfirmed, OutToRemote _
  | LeaseCommitmentToRemoteConfirmed, OutLeaseToRemote _ _
  | CommitmentAnchor, OutAnchor _
  | (HtlcOfferedTimeoutSecondLevel | HtlcAcceptedSuccessSecondLevel | HtlcSecondLevelRevoke), OutSecondLevel _ _ _
  | (LeaseHtlcOfferedTimeoutSecondLevel | LeaseHtlcAcceptedSuccessSecondLevel | HtlcSecondLevelRevoke), OutLeaseSecondLevel _ _ _ _
  | (HtlcOfferedRevoke | HtlcOfferedRemoteTimeout), OutReceiver _ _ _ _ _ _
  | HtlcAcceptedRevoke, OutSender _ _ _ _ _ => True
  | _, _ => False
  end.

Definition sweeps_output (i : Input) (o : output) : Prop :=
  match i with
  | BaseInput k => meant_for (witnessType k) o /\ redeem_script o = Ok (WitnessScript (signDesc k))
  | HtlcSucceedInput k preimage =>
      witnessType k = HtlcAcceptedRemoteSuccess /\ (exists s r v h c, o = OutSender s r v h c) /\ length preimage = 32%nat /\
      redeem_script o = Ok (WitnessScript (signDesc k))
  | HtlcSecondLevelAnchorInput k _ det None =>
      witnessType k = HtlcOfferedTimeoutSecondLevelInputConfirmed /\ (exists s r v h c, o = OutSender s r v h c) /\
      redeem_script o = Ok (WitnessScript (det_SignDesc det))
  | HtlcSecondLevelAnchorInput k _ det (Some preimage) =>
      witnessType k = HtlcAcceptedSuccessSecondLevelInputConfirmed /\ (exists e s r v h c, o = OutReceiver e s r v h c) /\
      length preimage = 32%nat /\ redeem_script o = Ok (WitnessScript (det_SignDesc det))
  end.

(** Delays and heights that fit four bytes on the stack. *)
Definition small_times (o : output) : Prop :=
  match o with
  | OutReceiver e _ _ _ _ _ | OutLeaseToRemote _ e => 0 <= e < 2 ^ 31
  | OutSecondLevel _ _ csv | OutToSelf csv _ _ => 0 <= csv < 2 ^ 31
  | OutLeaseSecondLevel _ _ csv e | OutLeaseToSelf _ _ csv e => 0 <= csv < 2 ^ 31 /\ 0 <= e < 2 ^ 31
  | _ => True
  end.

Definition confirmed_extra (conf : bool) : Z := if conf then HtlcConfirmedScriptOverhead else 0.

(** The size that input/size.go gives each script. *)
Definition script_bound (o : output) : Z :=
  match o with
  | OutFunding _ _ => MultiSigSize
  | OutSender _ _ _ _ c => OfferedHtlcScriptSize + confirmed_extra c
  | OutReceiver _ _ _ _ _ c => AcceptedHtlcScriptSize + confirmed_extra c
  | OutSecondLevel _ _ _ | OutToSelf _ _ _ => ToLocalScriptSize
  | OutLeaseSecondLevel _ _ _ _ | OutLeaseToSelf _ _ _ _ => ToLocalScriptSize + LeaseWitnessScriptSizeOverhead
  | OutToRemote _ => ToRemoteConfirmedScriptSize
  | OutLeaseToRemote _ _ => ToRemoteConfirmedScriptSize + LeaseWitnessScriptSizeOverhead
  | OutAnchor _ => AnchorScriptSize
  end.

(** What a witness may take beyond [SizeUpperBound]: the bound of a revoked HTLC that we
    offered is for the other script of an HTLC, two bounds leave out the check for a
    confirmation, and two the expiry of a lease. *)
Definition excess (wt : StandardWitnessType) (o : output) : Z :=
  match wt, o with
  | HtlcOfferedRevoke, OutReceiver _ _ _ _ _ c => AcceptedHtlcScriptSize - OfferedHtlcScriptSize + confirmed_extra c
  | HtlcOfferedRemoteTimeout, OutReceiver _ _ _ _ _ c => confirmed_extra c
  | HtlcAcceptedRemoteSuccess, OutSender _ _ _ _ c => confirmed_extra c
  | CommitmentRevoke, OutLeaseToSelf _ _ _ _ | HtlcSecondLevelRevoke, OutLeaseSecondLevel _ _ _ _ => LeaseWitnessScriptSizeOverhead
  | _, _ => 0
  end.

Context {SL : Secp256k1Laws} {TL : TxScriptLaws} {TGL : TxSignLaws}.

Ltac unfold_sizes := unfold P2WKHWitnessSize, ToLocalTimeoutWitnessSize, ToLocalPenaltyWitnessSize, ToRemoteConfirmedWitnessSize, AcceptedHtlcTimeoutWitnessSize,
  AcceptedHtlcPenaltyWitnessSize, AcceptedHtlcSuccessWitnessSizeConfirmed, OfferedHtlcSuccessWitnessSize, OfferedHtlcTimeoutWitnessSizeConfirmed,
  OfferedHtlcPenaltyWitnessSize, AnchorWitnessSize, AcceptedHtlcScriptSizeConfirmed, OfferedHtlcScriptSizeConfirmed, ToLocalScriptSize,
  ToRemoteConfirmedScriptSize, AcceptedHtlcScriptSize, OfferedHtlcScriptSize, AnchorScriptSize, MultiSigSize, LeaseWitnessScriptSizeOverhead,
  confirmed_extra, HtlcConfirmedScriptOverhead in *.

Lemma num_bytes_exact n : 2 ^ 24 <= n < 2 ^ 31 -> length (num_bytes n) = 4%nat.
Proof.
  intros Hn. unfold num_bytes.
  assert (exists a b c, le_bytes 9 n = [a; b; c; byte_of_Z (n / 2 ^ 24)]) as (a & b & c & ->).
  { cbn [le_bytes]. rewrite !Z.div_div by lia. change (256 * 256) with (2 ^ 16). change (2 ^ 16 * 256) with (2 ^ 24). change (2 ^ 24 * 256) with (2 ^ 32).
    assert (n / 2 ^ 32 = 0) as -> by (apply Z.div_small; lia).
    assert (1 <= n / 2 ^ 24 < 128) as Ht by (split; [apply Z.div_le_lower_bound|apply Z.div_lt_upper_bound]; lia).
    assert (1 <= n / 2 ^ 16) by (apply Z.div_le_lower_bound; lia). assert (1 <= n / 256) by (apply Z.div_le_lower_bound; lia).
    rewrite !bool_decide_eq_false_2 by lia. rewrite bool_decide_eq_true_2 by lia. rewrite (Z.mod_small (n / 2 ^ 24)) by lia. by eexists _, _, _. }
  assert (high_bit [a; b; c; byte_of_Z (n / 2 ^ 24)] = false) as ->; [|done].
  unfold high_bit. cbn. apply bool_decide_eq_false_2. rewrite byte_Z_of_Z. unfold u8.
  assert (0 <= n / 2 ^ 24 < 128) by (split; [apply Z.div_pos|apply Z.div_lt_upper_bound]; lia). change (2 ^ 8) with 256.
  change (n / 16777216) with (n / 2 ^ 24) in *. rewrite Z.mod_small; lia.
Qed.

Lemma num_bytes_four n : 0 <= n < 2 ^ 31 -> (length (num_bytes n) <= 4)%nat.
Proof.
  intros Hn. destruct (decide (n < 2 ^ 24)) as [Hs|Hs]; [|by rewrite num_bytes_exact by lia]. unfold num_bytes.
  pose proof (length_le_bytes 9 3 n ltac:(change (256 ^ Z.of_nat 3) with (2 ^ 24); lia)). destruct (high_bit _); [rewrite length_app; cbn [length]|]; lia.
Qed.

Lemma int_size_four n : 0 <= n < 2 ^ 31 -> element_size (AddInt64 n) <= 5.
Proof.
  intros Hn. pose proof (num_bytes_four n Hn). cbn -[num_bytes]. unfold push_size. case_bool_decide; [lia|].
  rewrite bool_decide_eq_true_2 by lia. lia.
Qed.

Lemma code_size o code : wf_output o -> redeem_script o = Ok code -> Z.of_nat (length code) = script_size (elements o).
Proof.
  intros Hw Hr. apply redeem_built in Hr as [Hr Hf]. destruct (script_built (elements o)) as (bs & Hb & Hl).
  - eapply Forall_impl; [by apply elements_data|]. intros e He. destruct e; [done| |done]. cbn. destruct (He _ eq_refl); unfold MaxScriptElementSize; lia.
  - pose proof (elements_size o Hw Hf). unfold MaxScriptSize. lia.
  - congruence.
Qed.

Lemma script_fits o code : small_times o -> redeem_script o = Ok code -> Z.of_nat (length code) <= script_bound o.
Proof.
  intros Ht Hr. assert (wf_output o) as Hw by (destruct o; cbn [small_times wf_output] in *; unfold in_u; try exact I; lia).
  rewrite (code_size o code Hw Hr). apply redeem_built in Hr as [Hr Hf]. destruct o; cbn [small_times] in Ht.
  1: destruct (Hf aPub bPub eq_refl) as [Ha Hb]; unfold elements, multisig, sortKeys; destruct (bytes_compare _ _);
      cbn [script_size foldr]; rewrite !pubkey_size by done; cbn [element_size]; unfold script_bound; unfold_sizes; lia.
  all: unfold elements, senderHTLC, receiverHTLC, secondLevelHtlc, leaseSecondLevelHtlc, commitToSelf, leaseCommitToSelf, toRemoteConfirmed,
      leaseToRemoteConfirmed, anchor, confirmed, script_bound; try (destruct conf); cbn [script_size foldr app]; unfold Hash160, hash160, Ripemd160H;
      rewrite ?key_size, ?hash_size; change (element_size (AddInt64 32)) with 2; repeat match goal with
      | |- context [element_size (AddInt64 ?n)] => let H := fresh in assert (element_size (AddInt64 n) <= 5) as H by (apply int_size_four; lia);
          revert H; generalize (element_size (AddInt64 n)) end; cbn [element_size]; unfold_sizes; lia.
Qed.

Lemma typed_size s ht : Z.of_nat (length (typed s ht)) <= 73.
Proof. pose proof (signature_size s). unfold typed. rewrite length_app. cbn. lia. Qed.

Lemma witness_size_cons x w : witness_size (x :: w) = 1 + Z.of_nat (length x) + witness_size w.
Proof. unfold witness_size. cbn. lia. Qed.

(** The size of a witness is what its items leave. *)
Lemma items_fit s ht (rest : list (list byte)) code n :
  Z.of_nat (length code) <= n -> witness_size (typed s ht :: rest ++ [code]) <= 76 + n + foldr (fun x m => 1 + Z.of_nat (length x) + m) 0 rest.
Proof.
  intros Hc. rewrite witness_size_cons. pose proof (typed_size s ht).
  enough (witness_size (rest ++ [code]) <= 2 + n + foldr (fun x m => 1 + Z.of_nat (length x) + m) 0 rest) by lia.
  induction rest as [|x rest IH]; [unfold witness_size; cbn; lia|]. cbn [app foldr]. rewrite witness_size_cons. lia.
Qed.

Ltac crafted H := unfold WitnessGenerator, CommitSpendTimeout, CommitSpendRevoke, CommitSpendToRemoteConfirmed, CommitSpendAnchor, HtlcSecondLevelSpend,
  HtlcSpendRevoke, SenderHtlcSpendRevoke, ReceiverHtlcSpendRevoke, SenderHtlcSpendRevokeWithKey, ReceiverHtlcSpendRevokeWithKey, ReceiverHtlcSpendTimeout,
  deriveRevokePubKey, witness_only, sign in H; cbn [fst snd set_InputIndex KeyDesc DoubleTweak HashType WitnessScript] in H;
  repeat (case_match; try done; cbn [obind] in H); injection H as <-; cbn [Witness].

Lemma base_witness_fits wt o d tx idx s :
  small_times o -> meant_for wt o -> redeem_script o = Ok (WitnessScript d) -> (WitnessGenerator wt d tx idx).2 = Ok s ->
  exists n nested, SizeUpperBound wt = Some (n, nested) /\ witness_size (Witness s) <= n + excess wt o.
Proof.
  intros Ht Hm Hr Hs. pose proof (script_fits o _ Ht Hr) as Hf. 
  destruct wt, o; try done; crafted Hs; eexists _, _; (split; [reflexivity|]).
  all: match goal with |- witness_size [typed ?s ?ht; ?code] <= _ => pose proof (items_fit s ht [] code _ Hf) as Hfit
       | |- witness_size [typed ?s ?ht; ?x; ?code] <= _ => pose proof (items_fit s ht [x] code _ Hf) as Hfit end;
    cbn [app foldr length] in Hfit; rewrite ?compressed_size in Hfit; cbn [script_bound] in Hfit; cbn [excess]; unfold_sizes; try lia; destruct conf; lia.
Qed.

(** Every witness for an input keeps to [SizeUpperBound] of its type, up to the excess. *)
Theorem witness_fits i o tx idx s :
  small_times o -> sweeps_output i o -> CraftInputScript i tx idx = Ok s ->
  exists n nested, SizeUpperBound (witnessType (kit_of i)) = Some (n, nested) /\
    witness_size (Witness s) <= n + excess (witnessType (kit_of i)) o.
Proof.
  intros Ht Ho Hs. destruct i as [k|k preimage|k stx det [preimage|]]; cbn [kit_of CraftInputScript sweeps_output] in *.
  - destruct Ho as [Hm Hr]. by eapply base_witness_fits.
  - destruct Ho as (-> & (? & ? & ? & ? & conf & ->) & Hl & Hr). pose proof (script_fits _ _ Ht Hr) as Hf. unfold SenderHtlcSpendRedeem in Hs.
    crafted Hs. eexists _, _. split; [reflexivity|]. pose proof (items_fit e (HashType (signDesc k)) [preimage] _ _ Hf) as Hfit.
    cbn [app foldr script_bound] in Hfit. rewrite Hl in Hfit. cbn [excess]. unfold_sizes. lia.
  - destruct Ho as (-> & (? & ? & ? & ? & ? & conf & ->) & Hl & Hr). pose proof (script_fits _ _ Ht Hr) as Hf. unfold ReceiverHtlcSpendRedeem in Hs.
    crafted Hs. eexists _, _. split; [reflexivity|]. rewrite !witness_size_cons. pose proof (typed_size (PeerSig det) (det_SigHashType det)).
    pose proof (typed_size e (HashType (det_SignDesc det))). rewrite Hl. cbn [script_bound excess] in *. unfold witness_size. cbn [length foldr].
    unfold_sizes. destruct conf; lia.
  - destruct Ho as (-> & (? & ? & ? & ? & conf & ->) & Hr). pose proof (script_fits _ _ Ht Hr) as Hf. unfold SenderHtlcSpendTimeout in Hs.
    crafted Hs. eexists _, _. split; [reflexivity|]. rewrite !witness_size_cons. pose proof (typed_size (PeerSig det) (det_SigHashType det)).
    pose proof (typed_size e (HashType (det_SignDesc det))). cbn [script_bound excess] in *. unfold witness_size. cbn [length foldr].
    unfold_sizes. destruct conf; lia.
Qed.

(** The bound for a revoked HTLC that we offered is exceeded: a signature of full size and an
    expiry of four bytes take seven bytes more, or ten with a confirmation. *)
Lemma offered_revoke_exceeds e s r v h c d tx idx i sig :
  2 ^ 24 <= e < 2 ^ 31 -> redeem_script (OutReceiver e s r v h c) = Ok (WitnessScript d) ->
  (WitnessGenerator HtlcOfferedRevoke d tx idx).2 = Ok i -> SignOutputRaw tx (set_InputIndex d idx) = Some sig -> length (sigSerialize sig) = 72%nat ->
  witness_size (Witness i) = OfferedHtlcPenaltyWitnessSize + 7 + confirmed_extra c.
Proof.
  intros He Hr Hi Hs Hl. unfold WitnessGenerator, ReceiverHtlcSpendRevoke, ReceiverHtlcSpendRevokeWithKey, sign, witness_only in Hi. cbn [snd] in Hi.
  rewrite Hs in Hi. destruct (deriveRevokePubKey _) as [k| |]; cbn [obind] in Hi; [|done..]. injection Hi as <-. cbn [Witness].
  rewrite !witness_size_cons. unfold typed. rewrite length_app, Hl, compressed_size. change (WitnessScript (set_InputIndex d idx)) with (WitnessScript d).
  assert (Z.of_nat (length (WitnessScript d)) = AcceptedHtlcScriptSize + confirmed_extra c) as ->; [|unfold witness_size; cbn [length foldr]; unfold_sizes; destruct c; lia].
  assert (wf_output (OutReceiver e s r v h c)) as Hw by (cbn; unfold in_u; lia). rewrite (code_size _ _ Hw Hr). unfold elements, receiverHTLC, confirmed.
  assert (element_size (AddInt64 e) = 5) as He5.
  { cbn [element_size]. unfold push_size. rewrite num_bytes_exact by lia. rewrite bool_decide_eq_false_2 by lia.
    by rewrite bool_decide_eq_true_2 by lia. }
  destruct c; cbn [script_size foldr app]; unfold Hash160, hash160, Ripemd160H; rewrite ?key_size, ?hash_size, ?He5;
      change (element_size (AddInt64 32)) with 2; cbn [element_size]; unfold_sizes; lia.
Qed.
End inputs.

(** ** Sign descriptors on disk *)

(** Bytes behind their length; the reader refuses more than its limit. *)
Class VarBytes := { WriteVarBytes : list byte -> writer; ReadVarBytes : nat -> reader (list byte) }.
Class VarBytesLaws `{VB : VarBytes} : Prop := {
  varbytes_rt bs limit : (length bs <= limit)%nat -> rt (WriteVarBytes bs) (ReadVarBytes limit) bs;
  varbytes_limit limit bs x rest : ReadVarBytes limit bs = Ok (x, rest) -> (length x <= limit)%nat;
}.

Class KeyParser `{SC : Secp256k1} := { ParseKey : list byte -> option point }.
Class KeyParserLaws `{KP : KeyParser} : Prop := { parse_key p : ParseKey (SerializeCompressed p) = Some p }.

Inductive desc_err : Type := DescWire (e : wire_err) | ErrTweakOverdose.

Section codec.
Context `{SC : Secp256k1} {VB : VarBytes} {KP : KeyParser}.

Definition writeTxOut (o : TxOut) : writer := WriteUint64 (u64 (Value o)) ;;> WriteVarBytes (PkScript o).

Definition readTxOut : reader TxOut :=
  value <-- ReadUint64 ; pkScript <-- ReadVarBytes 80 ; rret (mkTxOut (i64 value) pkScript).

Definition WriteSignDescriptor (sd : SignDescriptor) : writer :=
  WriteUint32 (Family (KeyDesc sd)) ;;> WriteUint32 (kd_Index (KeyDesc sd)) ;;>
  match kd_PubKey (KeyDesc sd) with
  | Some p => WriteBool true ;;> WriteVarBytes (SerializeCompressed p)
  | None => WriteBool false
  end ;;>
  WriteVarBytes (default [] (SingleTweak sd)) ;;>
  WriteVarBytes (match DoubleTweak sd with Some k => be_put 32 k | None => [] end) ;;>
  WriteVarBytes (WitnessScript sd) ;;> writeTxOut (Output sd) ;;>
  WriteUint32 (sd_AssetId sd) ;;> WriteUint64 (u64 (AssetAmt sd)) ;;> WriteUint32 (HashType sd).

Definition nonempty (bs : list byte) : option (list byte) := match bs with [] => None | _ => Some bs end.

(** [binary.Read] of a bool: any byte but zero. *)
Definition readBool : reader bool := b <-- ReadUint8 ; rret (bool_decide (b <> 0)).

(** The key, or the one the caller's descriptor already has. *)
Definition readKey (old : option point) : reader (option point) :=
  hasKey <-- readBool ;
  if hasKey then
    bs <-- ReadVarBytes 34 ;
    match ParseKey bs with Some p => rret (Some p) | None => rerr ErrParsePubKey end
  else rret old.

Definition readTweaks (old : SignDescriptor) : reader (KeyDescriptor * option (list byte) * option Z) :=
  family <-- ReadUint32 ; index <-- ReadUint32 ; key <-- readKey (kd_PubKey (KeyDesc old)) ;
  single <-- ReadVarBytes 32 ; double <-- ReadVarBytes 32 ;
  rret (mkKeyDesc family index key, nonempty single, be_get <$> nonempty double).

Definition readRest (old : SignDescriptor) (kd : KeyDescriptor) (single : option (list byte)) (double : option Z) : reader SignDescriptor :=
  script <-- ReadVarBytes 500 ; out <-- readTxOut ; assetId <-- ReadUint32 ; assetAmt <-- ReadUint64 ; hashType <-- ReadUint32 ;
  rret (mkSignDesc kd single double script out assetId (i64 assetAmt) hashType (InputIndex old)).

Definition lift_desc {A} (r : outcome wire_err A) : outcome desc_err A :=
  match r with Ok a => Ok a | Err e => Err (DescWire e) | Panic => Panic end.

Definition ReadSignDescriptor (old : SignDescriptor) (bs : list byte) : outcome desc_err (SignDescriptor * list byte) :=
  '(kd, single, double, bs) <~ lift_desc (readTweaks old bs) ;
  match single, double with
  | Some _, Some _ => Err ErrTweakOverdose
  | _, _ => lift_desc (readRest old kd single double bs)
  end.

(** What fits the serialisation.  A private key is below the order of the curve. *)
Definition wf_desc (d : SignDescriptor) : Prop :=
  in_u 32 (Family (KeyDesc d)) /\ in_u 32 (kd_Index (KeyDesc d)) /\
  (forall t, SingleTweak d = Some t -> (1 <= length t <= 32)%nat) /\ (forall k, DoubleTweak d = Some k -> 0 <= k < 256 ^ 32) /\
  (length (WitnessScript d) <= 500)%nat /\ in_i64 (Value (Output d)) /\ (length (PkScript (Output d)) <= 80)%nat /\
  in_u 32 (sd_AssetId d) /\ in_i64 (AssetAmt d) /\ in_u 32 (HashType d).

Context {SL : Secp256k1Laws} {VL : VarBytesLaws} {KL : KeyParserLaws}.

Lemma bool_rt b : rt (WriteBool b) readBool b.
Proof. destruct b; [exists [x01]|exists [x00]]; split; done. Qed.

Lemma key_rt old key : (key = None -> old = None) ->
  rt (match key with Some p => WriteBool true ;;> WriteVarBytes (SerializeCompressed p) | None => WriteBool false end) (readKey old) key.
Proof.
  intros Ho. unfold readKey. destruct key as [p|].
  - eapply rt_seq; [apply bool_rt|]. destruct (varbytes_rt (SerializeCompressed p) 34) as (bs & Hw & Hr); [rewrite compressed_size; lia|].
    exists bs. split; [done|]. intros rest. unfold rbind. by rewrite Hr, parse_key.
  - destruct (bool_rt false) as (bs & Hw & Hr). exists bs. split; [done|]. intros rest. unfold rbind. rewrite Hr. by rewrite Ho.
Qed.

Lemma wseq_five a b c d e r bs1 bs2 :
  writes (a ;;> b ;;> c ;;> d ;;> e) bs1 -> writes r bs2 -> writes (a ;;> b ;;> c ;;> d ;;> e ;;> r) (bs1 ++ bs2).
Proof.
  intros H1 H2 buf. rewrite <- (writes_seq _ _ _ _ H1 H2 buf). unfold wseq. destruct (a buf) as [b1 []]; [|done..].
  destruct (b b1) as [b2 []]; [|done..]. destruct (c b2) as [b3 []]; [|done..]. by destruct (d b3) as [b4 []].
Qed.

Lemma nonempty_tweak t : (forall x, t = Some x -> (1 <= length x)%nat) -> nonempty (default [] t) = t.
Proof. destruct t as [[|b x]|]; [|done..]. intros H. specialize (H [] eq_refl). cbn in H. lia. Qed.

Lemma tweaks_rt d old : wf_desc d -> (kd_PubKey (KeyDesc d) = None -> kd_PubKey (KeyDesc old) = None) ->
  rt (WriteUint32 (Family (KeyDesc d)) ;;> WriteUint32 (kd_Index (KeyDesc d)) ;;>
      match kd_PubKey (KeyDesc d) with Some p => WriteBool true ;;> WriteVarBytes (SerializeCompressed p) | None => WriteBool false end ;;>
      WriteVarBytes (default [] (SingleTweak d)) ;;> WriteVarBytes (match DoubleTweak d with Some k => be_put 32 k | None => [] end))
    (readTweaks old) (KeyDesc d, SingleTweak d, DoubleTweak d).
Proof.
  intros (Hf & Hi & Hs & Hd & _) Hkey. unfold readTweaks. do 2 (eapply rt_seq; [by apply codec_rt|]). eapply rt_seq; [by apply key_rt|].
  eapply rt_seq; [apply varbytes_rt; destruct (SingleTweak d); cbn; [by apply Hs|lia]|].
  assert ((KeyDesc d, SingleTweak d, DoubleTweak d) = (mkKeyDesc (Family (KeyDesc d)) (kd_Index (KeyDesc d)) (kd_PubKey (KeyDesc d)),
    nonempty (default [] (SingleTweak d)), be_get <$> nonempty (match DoubleTweak d with Some k => be_put 32 k | None => [] end))) as ->.
  { rewrite nonempty_tweak by (intros x Hx; specialize (Hs x Hx); lia). f_equal; [f_equal; by destruct (KeyDesc d)|].
    destruct (DoubleTweak d) as [k|]; [|done]. specialize (Hd k eq_refl). destruct (be_put 32 k) as [|b bs] eqn:E.
    - apply (f_equal length) in E. by rewrite length_be_put in E.
    - cbn. rewrite <- E. by rewrite be_get_put_id. }
  apply (rt_last _ _ _ (fun double => (mkKeyDesc (Family (KeyDesc d)) (kd_Index (KeyDesc d)) (kd_PubKey (KeyDesc d)),
    nonempty (default [] (SingleTweak d)), be_get <$> nonempty double))).
  apply varbytes_rt. destruct (DoubleTweak d); [by rewrite length_be_put|cbn; lia].
Qed.

Lemma txout_rt o : in_i64 (Value o) -> (length (PkScript o) <= 80)%nat -> rt (writeTxOut o) readTxOut o.
Proof.
  intros Hv Hl. unfold writeTxOut, readTxOut. eapply rt_seq; [apply codec_rt, u64_in|]. rewrite i64_u64 by done.
  destruct o as [v pk]. by apply (rt_last _ _ _ (fun pk => mkTxOut v pk)), varbytes_rt.
Qed.

Lemma rest_rt d old : wf_desc d ->
  rt (WriteVarBytes (WitnessScript d) ;;> writeTxOut (Output d) ;;> WriteUint32 (sd_AssetId d) ;;> WriteUint64 (u64 (AssetAmt d)) ;;> WriteUint32 (HashType d))
    (readRest old (KeyDesc d) (SingleTweak d) (DoubleTweak d)) (set_InputIndex d (InputIndex old)).
Proof.
  intros (_ & _ & _ & _ & Hw & Hv & Hp & Ha & Hm & Hh). unfold readRest. eapply rt_seq; [by apply varbytes_rt|]. eapply rt_seq; [by apply txout_rt|].
  eapply rt_seq; [by apply codec_rt|]. eapply rt_seq; [apply codec_rt, u64_in|]. rewrite i64_u64 by done.
  apply (rt_last _ _ _ (fun ht => mkSignDesc (KeyDesc d) (SingleTweak d) (DoubleTweak d) (WitnessScript d) (Output d) (sd_AssetId d) (AssetAmt d) ht (InputIndex old))).
  by apply codec_rt.
Qed.

(** A sign descriptor is read back as it was written, but for its input index, which is the
    reader's; one with both tweaks is refused. *)
Theorem sign_descriptor_roundtrip d old : wf_desc d -> (kd_PubKey (KeyDesc d) = None -> kd_PubKey (KeyDesc old) = None) ->
  exists bs, writes (WriteSignDescriptor d) bs /\ forall rest,
    ReadSignDescriptor old (bs ++ rest) =
      match SingleTweak d, DoubleTweak d with
      | Some _, Some _ => Err ErrTweakOverdose
      | _, _ => Ok (set_InputIndex d (InputIndex old), rest)
      end.
Proof.
  intros Hd Hk. destruct (tweaks_rt d old Hd Hk) as (bs1 & Hw1 & Hr1), (rest_rt d old Hd) as (bs2 & Hw2 & Hr2).
  exists (bs1 ++ bs2). split.
  - by apply wseq_five.
  - intros rest. unfold ReadSignDescriptor. rewrite <- app_assoc, Hr1. cbn [lift_desc obind].
    destruct (SingleTweak d), (DoubleTweak d); [done|..]; by rewrite Hr2.
Qed.
End codec.
