(* ===== verification/ScriptModel.v ===== *)
(** * Concrete curve, scripts and signatures

    A group of 256 points, hashes that keep the end of their input, the serialisation of
    scripts with an engine that decodes and runs them, and signatures that name their key.
    The laws of the parameters hold for them, and the theorems are used on a small channel. *)

From stdpp Require Import base list gmap sorting.
From Stdlib Require Import ZArith Lia Bool.
From S2P Require Import Prelude Wire Amounts OpReturn UpdateLog CommitTx KeyDerivation.
From S2P Require Import ScriptUtils ScriptPaths WitnessGen Resolutions ResolveTheorems ForceClose CommitOutputs.

Local Open Scope Z_scope.
Local Open Scope go_scope.

(** ** Keys *)

#[global] Instance curve_model : Secp256k1 := {|
  point := byte;
  curveN := 256;
  curveAdd a b := byte_of_Z (byte_Z a + byte_Z b);
  curveMul p k := byte_of_Z (byte_Z p * k);
  curveBaseMul := byte_of_Z;
  SerializeCompressed p := x02 :: replicate 31 x00 ++ [p];
  keySha256 bs := be_put 32 (be_get bs + 1);
|}.

Lemma byte_of_Z_mod a b : a mod 256 = b mod 256 -> byte_of_Z a = byte_of_Z b.
Proof. intros E. apply (inj byte_Z). rewrite !byte_Z_of_Z. exact E. Qed.

#[global] Instance curve_model_laws : Secp256k1Laws.
Proof.
  split; cbn.
  - done.
  - intros a b. apply byte_of_Z_mod. rewrite !byte_Z_of_Z. unfold u8. change (2 ^ 8) with 256. by rewrite <- Zplus_mod.
  - intros a b. apply byte_of_Z_mod. rewrite !byte_Z_of_Z. unfold u8. change (2 ^ 8) with 256. by rewrite Zmult_mod_idemp_l.
  - intros a. apply byte_of_Z_mod. by rewrite Z.mod_mod.
  - intros p q E. by injection E.
  - done.
Qed.

(** ** Serialised scripts *)

Definition op_byte (o : opcode) : byte :=
  match o with
  | OP_0 => x00 | OP_1 => x51 | OP_2 => x52 | OP_16 => x60
  | OP_IF => x63 | OP_NOTIF => x64 | OP_ELSE => x67 | OP_ENDIF => x68
  | OP_IFDUP => x73 | OP_DROP => x75 | OP_DUP => x76 | OP_SWAP => x7c | OP_SIZE => x82
  | OP_EQUAL => x87 | OP_EQUALVERIFY => x88 | OP_HASH160 => xa9
  | OP_CHECKSIG => xac | OP_CHECKSIGVERIFY => xad | OP_CHECKMULTISIG => xae
  | OP_CHECKLOCKTIMEVERIFY => xb1 | OP_CHECKSEQUENCEVERIFY => xb2
  end.

Definition byte_op (b : byte) : option opcode :=
  match b with
  | x63 => Some OP_IF | x64 => Some OP_NOTIF | x67 => Some OP_ELSE | x68 => Some OP_ENDIF
  | x73 => Some OP_IFDUP | x75 => Some OP_DROP | x76 => Some OP_DUP | x7c => Some OP_SWAP | x82 => Some OP_SIZE
  | x87 => Some OP_EQUAL | x88 => Some OP_EQUALVERIFY | xa9 => Some OP_HASH160
  | xac => Some OP_CHECKSIG | xad => Some OP_CHECKSIGVERIFY | xae => Some OP_CHECKMULTISIG
  | xb1 => Some OP_CHECKLOCKTIMEVERIFY | xb2 => Some OP_CHECKSEQUENCEVERIFY
  | _ => None
  end.

Definition push_long (bs : list byte) : list byte :=
  let n := Z.of_nat (length bs) in
  if bool_decide (n <= 75) then byte_of_Z n :: bs
  else if bool_decide (n <= 255) then x4c :: byte_of_Z n :: bs
  else x4d :: byte_of_Z (n mod 256) :: byte_of_Z (n / 256) :: bs.

Definition push_bytes (bs : list byte) : list byte :=
  match bs with
  | [] => [x00]
  | [b] =>
      if bool_decide (byte_Z b = 0) then [x00]
      else if bool_decide (byte_Z b <= 16) then [byte_of_Z (80 + byte_Z b)]
      else if bool_decide (byte_Z b = 129) then [x4f]
      else push_long bs
  | _ => push_long bs
  end.

Definition encode (e : element) : list byte :=
  match e with AddOp o => [op_byte o] | AddData bs => push_bytes bs | AddInt64 n => push_bytes (num_bytes n) end.

Fixpoint encode_all (els : list element) : list byte :=
  match els with [] => [] | e :: els => encode e ++ encode_all els end.

Definition take_data (n : Z) (bs : list byte) : option (element * list byte) :=
  if bool_decide (Z.of_nat (length bs) < n) then None else Some (AddData (take (Z.to_nat n) bs), drop (Z.to_nat n) bs).

Definition decode1 (bs : list byte) : option (element * list byte) :=
  match bs with
  | [] => None
  | b :: bs =>
      let n := byte_Z b in
      if bool_decide (n = 0) then Some (AddData [], bs)
      else if bool_decide (n <= 75) then take_data n bs
      else if bool_decide (n = 76) then match bs with l :: bs => take_data (byte_Z l) bs | _ => None end
      else if bool_decide (n = 77) then match bs with l :: h :: bs => take_data (byte_Z l + 256 * byte_Z h) bs | _ => None end
      else if bool_decide (n = 79) then Some (AddData [x81], bs)
      else if bool_decide (81 <= n <= 96) then Some (AddData [byte_of_Z (n - 80)], bs)
      else o ← byte_op b; Some (AddOp o, bs)
  end.

Fixpoint decode (fuel : nat) (bs : list byte) : option (list element) :=
  match bs, fuel with
  | [], _ => Some []
  | _, O => None
  | _, S fuel => '(e, rest) ← decode1 bs; es ← decode fuel rest; Some (e :: es)
  end.

Definition parse (bs : list byte) : option (list element) := decode (length bs) bs.

(** What a call of the builder reads back as. *)
Definition norm (e : element) : element :=
  match e with
  | AddData [x00] => AddData []
  | _ => match push_value e with Some v => AddData v | None => e end
  end.

#[global] Instance small_push_dec e : Decision (small_push e).
Proof. destruct e; apply _. Defined.

Lemma take_data_app bs rest : take_data (Z.of_nat (length bs)) (bs ++ rest) = Some (AddData bs, rest).
Proof.
  unfold take_data. rewrite bool_decide_eq_false_2 by (rewrite length_app; lia).
  by rewrite Nat2Z.id, take_app_length, drop_app_length.
Qed.

Lemma push_long_decoded bs rest : (1 <= length bs)%nat -> Z.of_nat (length bs) <= 520 -> decode1 (push_long bs ++ rest) = Some (AddData bs, rest).
Proof.
  intros H1 Hs. unfold push_long. assert (forall n, 0 <= n < 256 -> byte_Z (byte_of_Z n) = n) as Hb
    by (intros n Hn; rewrite byte_Z_of_Z; apply Z.mod_small; lia).
  pose proof (take_data_app bs rest) as Ht. set (n := Z.of_nat (length bs)) in *. repeat case_bool_decide; cbn -[byte_of_Z take_data].
  - rewrite Hb by lia. rewrite bool_decide_eq_false_2, bool_decide_eq_true_2 by lia. exact Ht.
  - rewrite Hb by lia. exact Ht.
  - rewrite !Hb by (try apply Z.mod_pos_bound; split; try apply Z.div_pos; try apply Z.div_lt_upper_bound; lia).
    replace (n mod 256 + 256 * (n / 256)) with n by (pose proof (Z.div_mod n 256); lia). exact Ht.
Qed.

Definition norm_data (bs : list byte) : list byte := match bs with [x00] => [] | _ => bs end.

Lemma norm_data_long bs : (2 <= length bs)%nat -> norm_data bs = bs.
Proof. destruct bs as [|a [|b bs]]; cbn; [lia..|]. by destruct a. Qed.

Lemma push_decoded bs rest : Z.of_nat (length bs) <= 520 -> decode1 (push_bytes bs ++ rest) = Some (AddData (norm_data bs), rest).
Proof.
  intros Hs. destruct bs as [|a [|b bs]]; [done| |].
  { destruct (decide (byte_Z a <= 16 \/ byte_Z a = 129)) as [Ha|Ha]; [destruct a; done || (exfalso; cbn in Ha; lia)|].
    replace (norm_data [a]) with [a] by (destruct a; done || (exfalso; cbn in Ha; lia)).
    cbn [push_bytes]. rewrite !bool_decide_eq_false_2 by lia. by apply push_long_decoded. }
  rewrite norm_data_long by (cbn; lia).
  change (push_bytes (a :: b :: bs)) with (push_long (a :: b :: bs)). apply push_long_decoded; [cbn; lia|done].
Qed.

Lemma push_bytes_size bs : Z.of_nat (length (push_bytes bs)) = push_size bs.
Proof.
  destruct bs as [|a [|b bs]]; [done|by destruct a|]. change (push_bytes (a :: b :: bs)) with (push_long (a :: b :: bs)).
  unfold push_long, push_size. rewrite (bool_decide_eq_false_2 (_ \/ _)) by (cbn [length]; lia).
  repeat case_bool_decide; cbn [length]; lia.
Qed.

Lemma num_bytes_short n : (length (num_bytes n) <= 10)%nat.
Proof.
  assert (forall fuel n, (length (le_bytes fuel n) <= fuel)%nat) as H.
  { induction fuel as [|fuel IH]; intros m; cbn; [lia|]. case_bool_decide; cbn; [lia|]. specialize (IH (m / 256)). lia. }
  unfold num_bytes. specialize (H 9%nat n). destruct (high_bit _); [rewrite length_app; cbn [length]|]; lia.
Qed.

Lemma num_bytes_nonzero n : num_bytes n <> [x00].
Proof.
  unfold num_bytes. cbn [le_bytes]. case_bool_decide; [done|]. destruct (bool_decide (n / 256 <= 0)) eqn:E.
  - apply bool_decide_eq_true in E. assert (byte_of_Z (n mod 256) <> x00) as Hne.
    { intros Hb. apply (f_equal byte_Z) in Hb. rewrite byte_Z_of_Z in Hb. unfold u8 in Hb. change (2 ^ 8) with 256 in Hb.
      rewrite Z.mod_mod in Hb by lia. change (byte_Z x00) with 0 in Hb. pose proof (Z.div_mod n 256). lia. }
    destruct (high_bit _); cbn; congruence.
  - destruct (high_bit _); cbn; congruence.
Qed.

Lemma norm_data_id bs : bs <> [x00] -> norm_data bs = bs.
Proof. destruct bs as [|a [|b bs]]; [done|by destruct a|by destruct a]. Qed.

Lemma norm_AddData bs : norm (AddData bs) = AddData (norm_data bs).
Proof. destruct bs as [|a [|b bs]]; [done|by destruct a|by destruct a]. Qed.

Lemma encode_decoded e rest : small_push e -> decode1 (encode e ++ rest) = Some (norm e, rest).
Proof.
  intros Hs. destruct e as [o|bs|n]; [by destruct o| |].
  - cbn [encode]. by rewrite push_decoded, norm_AddData.
  - cbn [encode norm push_value]. pose proof (num_bytes_short n). rewrite push_decoded by lia. by rewrite norm_data_id by apply num_bytes_nonzero.
Qed.

Lemma encode_size e : Z.of_nat (length (encode e)) = element_size e.
Proof. destruct e as [o|bs|n]; [done|apply push_bytes_size..]. Qed.

Lemma encode_nonempty e : (1 <= length (encode e))%nat.
Proof.
  pose proof (encode_size e) as H. enough (1 <= element_size e) by lia. destruct e; cbn -[num_bytes]; [lia|..];
    unfold push_size; repeat case_bool_decide; lia.
Qed.

Lemma encode_parsed els : Forall small_push els -> parse (encode_all els) = Some (norm <$> els).
Proof.
  intros Hs. unfold parse. remember (length (encode_all els)) as fuel eqn:Ef.
  assert (length (encode_all els) <= fuel)%nat as Hf by lia. clear Ef. revert fuel Hf.
  induction Hs as [|e els He _ IH]; intros fuel Hf; [by destruct fuel|]. cbn [encode_all] in *.
  rewrite length_app in Hf. pose proof (encode_nonempty e). destruct (encode e ++ encode_all els) as [|b bs] eqn:E.
  { apply (f_equal length) in E. rewrite length_app in E. cbn in E. lia. }
  destruct fuel as [|fuel]; [lia|]. cbn [decode]. rewrite <- E, encode_decoded by done. cbn. rewrite IH by lia. done.
Qed.

Lemma encoded_size els : Z.of_nat (length (encode_all els)) = script_size els.
Proof.
  induction els as [|e els IH]; [done|]. cbn [encode_all]. rewrite length_app, Nat2Z.inj_add, encode_size, IH. done.
Qed.

(** ** The engine *)

Definition ripemd_model (bs : list byte) : list byte := be_put 20 (be_get bs).

Definition script_model (els : list element) : option (list byte) :=
  if decide (Forall small_push els /\ script_size els <= MaxScriptSize) then Some (encode_all els) else None.

Definition pushes_model (sig : list byte) : option (list (list byte)) := els ← parse sig; mapM push_value els.

Definition eval_model (ctx : SpendCtx) (code : list byte) (st : list (list byte)) : bool :=
  match parse code with Some els => accepts ripemd_model ctx code els st | None => false end.

Definition p2sh_hash (els : list element) : option (list byte) :=
  match els with
  | [AddOp OP_HASH160; AddData h; AddOp OP_EQUAL] => if bool_decide (length h = 20%nat) then Some h else None
  | _ => None
  end.

Definition engine_model (ctx : SpendCtx) (pk sig : list byte) : bool :=
  match parse pk ≫= p2sh_hash, pushes_model sig with
  | _, None => false
  | Some h, Some vals =>
      match reverse vals with
      | redeem :: st => bool_decide (hash160 ripemd_model redeem = h) && eval_model ctx redeem st
      | [] => false
      end
  | None, Some vals => eval_model ctx pk (reverse vals)
  end.

#[global] Instance txscript_model : TxScript := {|
  Ripemd160 := ripemd_model;
  Script := script_model;
  sigPushes := pushes_model;
  evalScript := eval_model;
  Engine := engine_model;
|}.

Lemma script_model_parsed els bs : script_model els = Some bs -> parse bs = Some (norm <$> els).
Proof. unfold script_model. case_decide as H; [|done]. intros [= <-]. apply encode_parsed, H. Qed.

Lemma norm_run ctx code els conds st : canonical els ->
  run ripemd_model ctx code (norm <$> els) conds st = run ripemd_model ctx code els conds st.
Proof.
  intros Hc. revert conds st. induction Hc as [|e els He _ IH]; intros conds st; [done|]. rewrite fmap_cons. cbn [run].
  destruct e as [o|bs|n].
  - assert (forall c (r : option (list (list byte))), (r ≫= run ripemd_model ctx code (norm <$> els) c) = (r ≫= run ripemd_model ctx code els c)) as Hb
      by (intros c []; cbn; [apply IH|done]).
    destruct o; cbn [norm push_value]; try (destruct (executing conds); [apply Hb|apply IH]).
    + destruct (executing conds); [destruct st; [done|]|]; apply IH.
    + destruct (executing conds); [destruct st; [done|]|]; apply IH.
    + destruct conds as [|[] conds]; [done|..]; apply IH.
    + destruct conds as [|c conds]; [done|]; apply IH.
  - rewrite norm_AddData, norm_data_id by congruence. destruct (executing conds); cbn [exec]; apply IH.
  - cbn [norm push_value exec]. destruct (executing conds); apply IH.
Qed.

Lemma norm_push e : e <> AddData [x00] -> push_value (norm e) = push_value e.
Proof.
  intros He. destruct e as [o|bs|n]; [by destruct o| |done]. by rewrite norm_AddData, norm_data_id by congruence.
Qed.

Lemma norm_op e o : norm e = AddOp o -> e = AddOp o.
Proof. destruct e as [o'|bs|n]; [by destruct o'; cbn; intros [= <-]|by rewrite norm_AddData|done]. Qed.

Lemma norm_hash e h : norm e = AddData h -> length h = 20%nat -> e = AddData h.
Proof.
  intros He Hl. destruct e as [o|bs|n].
  - destruct o; cbn in He; try done; injection He as <-; done.
  - rewrite norm_AddData in He. destruct (decide (bs = [x00])) as [->|Hne]; [injection He as <-; done|]. by rewrite norm_data_id in He.
  - cbn in He. injection He as <-. pose proof (num_bytes_short n). lia.
Qed.

Lemma norm_p2sh els h : p2sh_hash (norm <$> els) = Some h -> els = p2sh h.
Proof.
  unfold p2sh_hash. destruct (norm <$> els) as [|[[]| |] [|[|h'|] [|[[]| |] [|]]]] eqn:E; try done. case_bool_decide as Hl; [|done].
  intros [= <-]. destruct els as [|a [|b [|c [|d els]]]]; try done. cbn in E. injection E as Ea Eb Ec.
  by rewrite (norm_op _ _ Ea), (norm_hash _ _ Eb Hl), (norm_op _ _ Ec).
Qed.

Lemma p2sh_norm h : length h = 20%nat -> p2sh_hash (norm <$> p2sh h) = Some h.
Proof.
  intros Hl. unfold p2sh. rewrite !fmap_cons, norm_AddData, norm_data_id by (intros ->; done). cbn. by rewrite bool_decide_eq_true_2.
Qed.

#[global] Instance txscript_model_laws : TxScriptLaws.
Proof.
  split.
  - intros bs. apply length_be_put.
  - intros els Hs Hl. exists (encode_all els). cbn. unfold script_model. rewrite decide_True by done. split; [done|apply encoded_size].
  - intros els sig Hc Hs. cbn in *. unfold pushes_model. rewrite (script_model_parsed _ _ Hs). cbn. clear Hs.
    induction Hc as [|e els He _ IH]; [done|]. rewrite fmap_cons. cbn [mapM]. by rewrite norm_push, IH.
  - intros els code ctx st Hc Hs. cbn in *. unfold eval_model. rewrite (script_model_parsed _ _ Hs). unfold accepts. by rewrite norm_run.
  - intros h pk ctx sig Hs. cbn in *. pose proof (script_model_parsed _ _ Hs) as Hp. unfold engine_model. rewrite Hp. cbn [mbind option_bind].
    destruct (decide (length h = 20%nat)) as [Hl|Hl].
    + rewrite p2sh_norm by done. by destruct (pushes_model sig).
    + assert (p2sh_hash (norm <$> p2sh h) = None) as ->.
      { destruct (p2sh_hash _) as [h'|] eqn:E; [|done]. pose proof (norm_p2sh _ _ E) as [= <-]. unfold p2sh_hash in E.
        destruct (norm <$> p2sh h) as [|[[]| |] [|[|h'|] [|[[]| |] [|]]]]; try done. case_bool_decide; congruence. }
      destruct (pushes_model sig) as [vals|]; [|done]. cbn [fmap option_fmap option_map].
      assert (forall st, eval_model ctx pk st = false) as He.
      { intros st. unfold eval_model. rewrite Hp. unfold accepts, p2sh. rewrite !fmap_cons, norm_AddData. destruct st as [|x st]; [done|].
        cbn -[hash160]. rewrite bool_decide_eq_false_2; [done|]. intros E. apply (f_equal length) in E. unfold hash160, ripemd_model in E.
        rewrite length_be_put in E. revert E. destruct h as [|a [|b h]]; [done|by destruct a|]. rewrite norm_data_long by (cbn; lia). done. }
      rewrite He. destruct (reverse vals) as [|redeem st]; [done|]. rewrite bool_decide_eq_false_2; [done|]. intros <-. by apply Hl, length_be_put.
  - intros els pk ctx sig vals Hs Hne Hv. cbn in *. unfold engine_model. rewrite (script_model_parsed _ _ Hs), Hv. cbn [mbind option_bind].
    destruct (p2sh_hash _) as [h|] eqn:E; [|done]. by destruct (Hne h (norm_p2sh _ _ E)).
Qed.

(** ** Signatures *)

Definition sig_size_ok (s : list byte) : bool := bool_decide (1 <= length s <= 72)%nat.

#[global] Instance txsign_model : TxSign := {|
  ecSignature := list byte;
  sigSerialize s := if sig_size_ok s then s else [x00];
  sigParse s := if sig_size_ok s then Some s else None;
  RawTxInSignature _ _ _ ht k := Some (SerializeCompressed (PubKey k) ++ [byte_of_Z ht]);
  sigValid _ _ _ sig key := Some (bool_decide (removelast sig = key));
|}.

#[global] Instance txsign_model_laws : TxSignLaws.
Proof.
  split.
  - intros s. cbn. unfold sig_size_ok. case_bool_decide; cbn; lia.
  - intros tx idx code ht k sig [= <-]. exists (SerializeCompressed (PubKey k)). split_and!; [done|done|].
    cbn -[bool_decide]. by rewrite bool_decide_eq_true_2.
Qed.

(** The wallet of the model derives the private key from the index of the locator. *)
Definition locator_key (family index : Z) : option Z := Some (256 * family + index).
Definition locator_empty (family index : Z) : bool := bool_decide (family = 0 /\ index = 0).

#[global] Instance signer_model : Signer := btcwallet_signer locator_empty locator_key (fun _ => ErrAddressNotFound).
#[global] Instance signer_model_laws : SignerLaws := btcwallet_signer_laws _ _ _.

Lemma signer_model_signs tx d : Known (KeyDesc d) -> is_Some (SignOutputRaw tx d).
Proof.
  intros _. cbn. unfold BtcWallet_SignOutputRaw. assert (exists k, fetchPrivKey locator_empty locator_key (fun _ => ErrAddressNotFound) (KeyDesc d) = Some k) as [k ->].
  { unfold fetchPrivKey, locator_key. destruct (kd_PubKey _); [destruct (locator_empty _ _)|]; eexists; done. }
  cbn. eauto.
Qed.

(** ** A channel *)

Definition party (base csv : Z) : PartyConfig :=
  mkParty (mkChanConfig (PubKey (base + 1)) (PubKey (base + 2)) (PubKey (base + 3)) (PubKey (base + 4)) (PubKey (base + 5)))
    (mkLocators (0, base + 1) (1, base + 2) (2, base + 3) (3, base + 4) (4, base + 5)) csv 354.

Definition preimage_model : list byte := replicate 31 x00 ++ [x77].

Definition htlc_model (incoming : bool) (index : Z) : DiskHTLC :=
  mkDiskHTLC [x05] (keySha256 preimage_model) 5000000 7 31 600 index incoming.

Definition commit_model : DiskCommit :=
  mkDiskCommit 9 (mkSweep 2 (mkMsgTx [mkTxIn (mkOutPoint [] 0) 0] [mkTxOut 9000 [x01]; mkTxOut 5000 [x02]; mkTxOut 5000 [x03]] 0)) [x06]
    [htlc_model true 1; htlc_model false 2] 0 4000000 5000000 40 50.

(** A channel with an asset and anchors, led by us. *)
Definition channel_model : OpenChannel :=
  mkOpenChannel 10 true 31 0 20000 false (party 0 144) (party 16 288) commit_model commit_model None.

Lemma party_known family index : Known (mkKeyDesc family index (Some (PubKey index))).
Proof.
  intros p k Hp Hk. injection Hp as <-. assert (k = 256 * family + index) as ->.
  { revert Hk. unfold fetchPrivKey, locator_key. cbn. destruct (locator_empty _ _); cbn; congruence. }
  unfold PubKey. cbn. apply byte_of_Z_mod. rewrite Z.add_comm, Z.mul_comm. by rewrite Z_mod_plus_full.
Qed.

Lemma commitment_keys_agree_witness :
  let owner := mkSecrets 1 2 3 4 5 in let other := mkSecrets 17 18 19 20 21 in let secret := [x09] in
  let point := ComputeCommitmentPoint secret in
  let mine := DeriveCommitmentKeys point true 0 (announce owner) (announce other) in
  let theirs := DeriveCommitmentKeys point false 0 (announce other) (announce owner) in
  RevocationKey mine = RevocationKey theirs /\ LocalHtlcKey mine = RemoteHtlcKey theirs /\
  PubKey (DeriveRevocationPrivKey (revocationPriv other) (be_get secret)) = RevocationKey theirs.
Proof.
  destruct (commitment_keys_agree (mkSecrets 1 2 3 4 5) (mkSecrets 17 18 19 20 21) [x09] 0) as ((_ & _ & H1 & H2 & _) & _ & _ & H3).
  split; [exact H1|split; [exact H2|exact H3]].
Defined.

(** The receiver of an HTLC with the preimage spends it. *)
Definition sender_model : output := OutSender (PubKey 5) (PubKey 21) (PubKey 34) (keySha256 preimage_model) true.
Definition claim_tx : SweepTx := mkSweep 2 (mkMsgTx [mkTxIn (mkOutPoint [] 0) 1] [mkTxOut 900 [x01]] 0).
Definition claim_sig : list byte := SerializeCompressed (PubKey 21) ++ [x01].
Definition claim_pushes (code : list byte) : list (list byte) := [claim_sig; preimage_model; code].

Lemma outputs_guarded_witness :
  exists code pk sig, redeem_script sender_model = Ok code /\ GenerateP2SH code = Ok pk /\ sigPushes sig = Some (claim_pushes code) /\
    Engine (spend claim_tx 0 true) pk sig = true.
Proof.
  destruct (redeem_total sender_model I) as (code & Hc & Hl); [done|]. destruct (p2sh_total code) as [pk Hp].
  destruct (GetSigScript_pushes (claim_pushes code) []) as (sig & _ & Hs).
  - cbn. lia.
  - repeat (apply Forall_cons; split; [split; [cbn [length]; try (cbn; lia); lia|]|]); [done|done| |by apply Forall_nil].
    intros ->. cbn in Hl. lia.
  - exists code, pk, sig. split; [exact Hc|split; [exact Hp|split; [exact Hs|]]].
    apply (proj1 (outputs_guarded sender_model (spend claim_tx 0 true) code pk sig I Hc Hp) [claim_sig; preimage_model] Hs).
    right; right. exists preimage_model, claim_sig, [].
    split_and!; [reflexivity|reflexivity|intros H; vm_compute in H; discriminate H|vm_compute; reflexivity..|intros _; vm_compute; reflexivity|intros _; reflexivity].
Defined.

Definition find_model (n : Z) : option DiskCommit := if bool_decide (n = 9) then Some commit_model else None.
Definition secret_model (n : Z) : option (list byte) := if bool_decide (n = 9) then Some [x0b] else None.

Lemma breach_punished_witness :
  exists b, NewBreachRetribution (fun _ => [xaa]) find_model secret_model channel_model 9 = Ok b /\ length (HtlcRetributions b) = 2%nat.
Proof.
  destruct (breach_punished (fun _ => [xaa]) find_model secret_model channel_model 9 commit_model [x0b]) as (b & Hb & _ & Hh).
  - reflexivity.
  - reflexivity.
  - apply (party_known 1 2).
  - split; cbn; lia.
  - split; cbn; lia.
  - repeat constructor; cbn; lia.
  - exists b. split; [exact Hb|]. apply Forall2_length in Hh. rewrite <- Hh. reflexivity.
Defined.


(** ** A commitment *)

Definition constraints_model : ChannelConstraints := mkConstraints 354 0 0 0 483 144.

Definition pending_model (index : Z) : view_entry :=
  (None, mkPD (keySha256 preimage_model) [] 600 5000000 0 0 index index 0 None None None None [] [] [] 0 Add noHeights noOutput false).

Definition commit_cfg : ChanCfg :=
  mkChanCfg 2 0 true 100000 constraints_model constraints_model [x0c] [x0d] 0 (mkOutPoint [] 0) (replicate 6 x00).

Definition ring_model : CommitmentKeyRing :=
  DeriveCommitmentKeys (ComputeCommitmentPoint [x0b]) true 2 (party_keys (party 0 144)) (party_keys (party 16 144)).

