(* ===== verification/FundingIntents.v ===== *)
(** * lnwallet/chanfunding: how a channel is funded

    The assemblers (wallet_assembler.go, canned_assembler.go, psbt_assembler.go) and the
    intents they make: a funding output that exists already, one that the wallet pays from
    its own coins, and one of a partially signed transaction that comes from outside.  The
    package psbt of btcutil ([PsbtLib]) and the sorting, dust thresholds and signature hashes of btcd
    ([FundingLib]) are parameters; coin selection is CoinSelect.v. *)

From stdpp Require Import base list gmap sorting.
From Stdlib Require Import ZArith Lia Bool.
From S2P Require Import Prelude Wire Amounts CoinSelect OpReturn CommitTx KeyDerivation ScriptUtils.
From S2P Require Import WitnessGen.

Local Open Scope Z_scope.
Local Open Scope go_scope.

(** ** Sorting, dust, signature hashes *)

Class FundingLib `{SC : Secp256k1, TG : TxSign} := {
  sortInputs : list TxIn -> list TxIn;
  sortOutputs : list TxOut -> list TxOut;
  GetDustThreshold : TxOut -> Z;
  CalcSignatureHash : list byte -> Z -> SweepTx -> Z -> option (list byte);
  sigVerify : ecSignature -> list byte -> point -> bool;
}.

(** Sorting permutes, and the signer's signatures verify. *)
Class FundingLibLaws `{SG : Signer, FL : !FundingLib} : Prop := {
  sortInputs_perm l : sortInputs l ≡ₚ l;
  SignOutputRaw_verifies tx d s p : Known (KeyDesc d) -> SignOutputRaw tx d = Some s -> signing_key d = Some p ->
    exists h, CalcSignatureHash (WitnessScript d) (HashType d) tx (InputIndex d) = Some h /\ sigVerify s h p = true;
}.

(** [txsort.InPlaceSort]. *)
Definition InPlaceSort `{FL : FundingLib} (tx : MsgTx) : MsgTx :=
  {| TxIns := sortInputs (TxIns tx); TxOuts := sortOutputs (TxOuts tx); LockTime := LockTime tx |}.

(** A transaction with the scripts of its inputs. *)
Record SignedTx := mkSigned { st_Tx : SweepTx; st_Scripts : list InputScript }.

(** ** Partially signed transactions *)

Record PInput := mkPInput { NonWitnessUtxo : option MsgTx; WitnessUtxo : option TxOut; RedeemScript : list byte }.
(** The inputs of the transaction carry no scripts. *)
Record Packet := mkPacket { UnsignedTx : SweepTx; PInputs : list PInput }.

Class PsbtLib := {
  TxOutsEqual : TxOut -> TxOut -> bool;
  SumUtxoInputValues : Packet -> option Z;
  MaybeFinalizeAll : Packet -> option Packet;
  Extract : Packet -> option SignedTx;
  VerifyOutputsEqual : list TxOut -> list TxOut -> bool;
  VerifyInputPrevOutpointsEqual : list TxIn -> list TxIn -> bool;
  isSegWitV0 : list byte -> option bool;
}.

Inductive PsbtState : Type :=
  | PsbtShimRegistered | PsbtOutputKnown | PsbtVerified | PsbtFinalized | PsbtFundingTxCompiled
  | PsbtInitiatorCanceled | PsbtResponderCanceled.

#[global] Instance PsbtState_eq_dec : EqDecision PsbtState.
Proof. solve_decision. Defined.

(** What is sent through [PsbtReady], once: a closed channel or an error. *)
Inductive PsbtSignal : Type := ReadyClosed | ReadyRemoteCanceled | ReadyUserCanceled.

Inductive fund_err : Type :=
  | ErrNoFundingKeys
  | ErrFundScript (e : script_err)
  | ErrFundOp (e : op_err)
  | ErrChanPointUnknown
  | ErrSubtractFees
  | ErrIntentMismatch (local remote funding : Z)
  | ErrListCoins
  | ErrSelect
  | ErrChangeDust (changeAmt dustLimit : Z)
  | ErrPsbtNil
  | ErrPsbtState (got expected : PsbtState)
  | ErrFundingOutputNotFound
  | ErrPsbtNoInputs
  | ErrPsbtInputSum
  | ErrPsbtFee
  | ErrNotSegWit (idx : nat)
  | ErrNoUtxo (idx : nat)
  | ErrPsbtFinalize
  | ErrPsbtExtract
  | ErrPsbtNotVerified
  | ErrOutputsDiffer
  | ErrInputsDiffer
  | ErrNotSigned.

(** ** Intents *)

Section intents.
Context `{TS : TxScript} {TG : TxSign} {FL : FundingLib}.

Record ShimIntent := mkShim {
  localFundingAmt : Z;
  remoteFundingAmt : Z;
  localFundingAssetAmt : Z;
  remoteFundingAssetAmt : Z;
  localKey : option KeyDescriptor;
  remoteKey : option point;
  chanPoint : option OutPoint;
  thawHeight : Z;
}.

Record FullIntent := mkFull { full_Shim : ShimIntent; InputCoins : list Coin; ChangeOutputs : list TxOut }.

Record PsbtIntent := mkPsbt {
  psbt_Shim : ShimIntent;
  State : PsbtState;
  PendingPsbt : option Packet;
  FinalTX : option SignedTx;
  PsbtReady : option PsbtSignal;
  shouldPublish : bool;
}.

Inductive Intent : Type := IntentShim (i : ShimIntent) | IntentFull (i : FullIntent) | IntentPsbt (i : PsbtIntent).

Definition bind_keys (s : ShimIntent) (lk : KeyDescriptor) (rk : option point) : ShimIntent :=
  mkShim (localFundingAmt s) (remoteFundingAmt s) (localFundingAssetAmt s) (remoteFundingAssetAmt s) (Some lk) rk
    (chanPoint s) (thawHeight s).
Definition set_chanPoint (s : ShimIntent) (p : OutPoint) : ShimIntent :=
  mkShim (localFundingAmt s) (remoteFundingAmt s) (localFundingAssetAmt s) (remoteFundingAssetAmt s) (localKey s) (remoteKey s)
    (Some p) (thawHeight s).

Definition lift_fund {A} (r : outcome script_err A) : outcome fund_err A :=
  match r with Ok a => Ok a | Err e => Err (ErrFundScript e) | Panic => Panic end.
Definition lift_fund_op {A} (r : outcome op_err A) : outcome fund_err A :=
  match r with Ok a => Ok a | Err e => Err (ErrFundOp e) | Panic => Panic end.

(** A nil public key cannot be serialized. *)
Definition pub_of {E} (k : KeyDescriptor) : outcome E point :=
  match kd_PubKey k with Some p => Ok p | None => Panic end.

Definition ShimIntent_FundingOutput (s : ShimIntent) : outcome fund_err (list byte * TxOut) :=
  match localKey s, remoteKey s with
  | Some lk, Some rk =>
      let totalAmt := i64 (localFundingAmt s + remoteFundingAmt s) in
      p <~ pub_of lk ;
      lift_fund (GenFundingPkScript (SerializeCompressed p) (SerializeCompressed rk) totalAmt)
  | _, _ => Err ErrNoFundingKeys
  end.

Definition ShimIntent_ChanPoint (s : ShimIntent) : outcome fund_err OutPoint :=
  match chanPoint s with Some p => Ok p | None => Err ErrChanPointUnknown end.

(** Both methods return the remote amount. *)
Definition ShimIntent_LocalFundingAssetAmt (s : ShimIntent) : Z := remoteFundingAssetAmt s.
Definition ShimIntent_RemoteFundingAssetAmt (s : ShimIntent) : Z := remoteFundingAssetAmt s.

Definition ShimIntent_Outputs (s : ShimIntent) : list TxOut :=
  match ShimIntent_FundingOutput s with Ok (_, txOut) => [txOut] | _ => [] end.

Definition ShimIntent_MultiSigKeys (s : ShimIntent) : outcome fund_err (KeyDescriptor * point) :=
  match localKey s, remoteKey s with
  | Some lk, Some rk => Ok (lk, rk)
  | _, _ => Err ErrNoFundingKeys
  end.

Definition coinPoint (c : Coin) : OutPoint := mkOutPoint (Coin_OutPoint c).1 (Coin_OutPoint c).2.

(** ** The wallet's own coins *)

Definition FullIntent_BindKeys (f : FullIntent) (lk : KeyDescriptor) (rk : option point) : FullIntent :=
  mkFull (bind_keys (full_Shim f) lk rk) (InputCoins f) (ChangeOutputs f).

(** The transaction before it is signed. *)
Definition assemble (f : FullIntent) (extraInputs : list TxIn) (extraOutputs : list TxOut) (assetId capAsset : Z) :
    outcome fund_err (MsgTx * TxOut) :=
  let ins := map (fun c => mkTxIn (coinPoint c) 0) (InputCoins f) ++ extraInputs in
  let fundingTx := {| TxIns := ins; TxOuts := []; LockTime := 0 |} in
  fundingTx <~
    (if bool_decide (assetId > BtcAssetId)
     then lift_fund_op (OpreturnSimple.AddOpReturnToTx (OpreturnSimple.mk 0 0 assetId (u64 capAsset)) fundingTx)
     else Ok fundingTx) ;
  '(_, fundingOutput) <~ ShimIntent_FundingOutput (full_Shim f) ;
  let fundingTx := set_outs fundingTx (TxOuts fundingTx ++ [fundingOutput] ++ ChangeOutputs f ++ extraOutputs) in
  let fundingTx := if bool_decide (assetId = BtcAssetId) then InPlaceSort fundingTx else fundingTx in
  Ok (fundingTx, fundingOutput).

(** The transaction is signed by the wallet; an error of the signer is dropped. *)
Definition FullIntent_CompileFundingTx (SignTransaction : SweepTx -> list InputScript) (TxHash : SignedTx -> list byte)
    (f : FullIntent) (extraInputs : list TxIn) (extraOutputs : list TxOut) (assetId capAsset : Z) :
    outcome fund_err (FullIntent * SignedTx) :=
  '(fundingTx, fundingOutput) <~ assemble f extraInputs extraOutputs assetId capAsset ;
  let '(_, multiSigIndex) := FindScriptOutputIndex fundingTx (PkScript fundingOutput) in
  let fundingTx := mkSweep 2 fundingTx in
  let signed := mkSigned fundingTx (SignTransaction fundingTx) in
  Ok (mkFull (set_chanPoint (full_Shim f) (mkOutPoint (TxHash signed) multiSigIndex)) (InputCoins f) (ChangeOutputs f), signed).

Definition FullIntent_Inputs (f : FullIntent) : list OutPoint := map coinPoint (InputCoins f).
Definition FullIntent_Outputs (f : FullIntent) : list TxOut := ShimIntent_Outputs (full_Shim f) ++ ChangeOutputs f.

(** ** Transactions that come from outside *)

Definition PsbtIntent_BindKeys (i : PsbtIntent) (lk : KeyDescriptor) (rk : option point) : PsbtIntent :=
  mkPsbt (bind_keys (psbt_Shim i) lk rk) PsbtOutputKnown (PendingPsbt i) (FinalTX i) (PsbtReady i) (shouldPublish i).

(** The once that guards the channel, with what it does the first time. *)
Definition signalPsbtReady (i : PsbtIntent) (signal : PsbtSignal) (state : PsbtState) : PsbtIntent :=
  match PsbtReady i with
  | Some _ => i
  | None => mkPsbt (psbt_Shim i) state (PendingPsbt i) (FinalTX i) (Some signal) (shouldPublish i)
  end.

Definition PsbtIntent_RemoteCanceled (i : PsbtIntent) : PsbtIntent := signalPsbtReady i ReadyRemoteCanceled PsbtResponderCanceled.
Definition PsbtIntent_Cancel (i : PsbtIntent) : PsbtIntent := signalPsbtReady i ReadyUserCanceled PsbtInitiatorCanceled.

Definition PsbtIntent_Inputs (i : PsbtIntent) : outcome fund_err (list OutPoint) :=
  match State i with
  | PsbtVerified =>
      match PendingPsbt i with Some p => Ok (map PreviousOutPoint (TxIns (Tx (UnsignedTx p)))) | None => Panic end
  | PsbtFinalized | PsbtFundingTxCompiled =>
      match FinalTX i with Some t => Ok (map PreviousOutPoint (TxIns (Tx (st_Tx t)))) | None => Panic end
  | _ => Ok []
  end.

Definition PsbtIntent_Outputs (i : PsbtIntent) : outcome fund_err (list TxOut) :=
  match State i with
  | PsbtVerified => match PendingPsbt i with Some p => Ok (TxOuts (Tx (UnsignedTx p))) | None => Panic end
  | PsbtFinalized | PsbtFundingTxCompiled =>
      match FinalTX i with Some t => Ok (TxOuts (Tx (st_Tx t))) | None => Panic end
  | _ => Ok []
  end.

Definition verifyInputsSigned (ins : list InputScript) : outcome fund_err unit :=
  if bool_decide (ins = []) then Err ErrNotSigned
  else if forallb (fun s => negb (bool_decide (SigScript s = []) && bool_decide (Witness s = []))) ins then Ok tt
  else Err ErrNotSigned.

Context {PL : PsbtLib}.

Definition isSegWitScript (pkScript : list byte) : bool :=
  if bool_decide (pkScript = []) then false
  else match isSegWitV0 pkScript with Some b => b | None => false end.

Fixpoint segWitInputs (txIns : list TxIn) (idx : nat) (ins : list PInput) : outcome fund_err unit :=
  match ins with
  | [] => Ok tt
  | pin :: ins =>
      match WitnessUtxo pin, NonWitnessUtxo pin with
      | Some _, _ => segWitInputs txIns (S idx) ins
      | None, Some utxo =>
          match txIns !! idx with
          | None => Panic
          | Some txIn =>
              match TxOuts utxo !! Z.to_nat (Wire.Index (PreviousOutPoint txIn)) with
              | None => Panic
              | Some txOut =>
                  if negb (isSegWitScript (PkScript txOut)) && negb (isSegWitScript (RedeemScript pin)) then Err (ErrNotSegWit idx)
                  else segWitInputs txIns (S idx) ins
              end
          end
      | None, None => Err (ErrNoUtxo idx)
      end
  end.

Definition verifyAllInputsSegWit (txIns : list TxIn) (ins : list PInput) : outcome fund_err unit := segWitInputs txIns 0 ins.

(** The state after a check is returned with its outcome: a failure changes nothing. *)
Definition PsbtIntent_Verify (i : PsbtIntent) (packet : option Packet) (skipFinalize : bool) : outcome fund_err PsbtIntent :=
  match packet with
  | None => Err ErrPsbtNil
  | Some packet =>
      if negb (bool_decide (State i = PsbtOutputKnown)) then Err (ErrPsbtState (State i) PsbtOutputKnown)
      else
        '(_, expectedOutput) <~ ShimIntent_FundingOutput (psbt_Shim i) ;
        let outs := TxOuts (Tx (UnsignedTx packet)) in
        let outputSum := totalOut (Tx (UnsignedTx packet)) in
        if negb (existsb (fun out => TxOutsEqual out expectedOutput) outs) then Err ErrFundingOutputNotFound
        else if bool_decide (TxIns (Tx (UnsignedTx packet)) = []) then Err ErrPsbtNoInputs
        else match SumUtxoInputValues packet with
        | None => Err ErrPsbtInputSum
        | Some sum =>
            if bool_decide (sum <= outputSum) then Err ErrPsbtFee
            else
              _ <~ verifyAllInputsSegWit (TxIns (Tx (UnsignedTx packet))) (PInputs packet) ;
              if negb (shouldPublish i) && skipFinalize
              then
                let final := mkSigned (UnsignedTx packet) (replicate (length (TxIns (Tx (UnsignedTx packet)))) (mkInputScript [] [])) in
                let i := mkPsbt (psbt_Shim i) PsbtFinalized (Some packet) (Some final) (PsbtReady i) (shouldPublish i) in
                Ok (signalPsbtReady i ReadyClosed PsbtFinalized)
              else Ok (mkPsbt (psbt_Shim i) PsbtVerified (Some packet) (FinalTX i) (PsbtReady i) (shouldPublish i))
        end
  end.

Definition PsbtIntent_FinalizeRawTX (i : PsbtIntent) (rawTx : option SignedTx) : outcome fund_err PsbtIntent :=
  match rawTx with
  | None => Err ErrPsbtNil
  | Some rawTx =>
      if negb (bool_decide (State i = PsbtVerified)) then Err (ErrPsbtState (State i) PsbtVerified)
      else match PendingPsbt i with
      | None => Err ErrPsbtNotVerified
      | Some pending =>
          if negb (VerifyOutputsEqual (TxOuts (Tx (st_Tx rawTx))) (TxOuts (Tx (UnsignedTx pending)))) then Err ErrOutputsDiffer
          else if negb (VerifyInputPrevOutpointsEqual (TxIns (Tx (st_Tx rawTx))) (TxIns (Tx (UnsignedTx pending)))) then Err ErrInputsDiffer
          else
            _ <~ verifyInputsSigned (st_Scripts rawTx) ;
            let i := mkPsbt (psbt_Shim i) PsbtFinalized (PendingPsbt i) (Some rawTx) (PsbtReady i) (shouldPublish i) in
            Ok (signalPsbtReady i ReadyClosed PsbtFinalized)
      end
  end.

Definition PsbtIntent_Finalize (i : PsbtIntent) (packet : option Packet) : outcome fund_err PsbtIntent :=
  match packet with
  | None => Err ErrPsbtNil
  | Some packet =>
      if negb (bool_decide (State i = PsbtVerified)) then Err (ErrPsbtState (State i) PsbtVerified)
      else match MaybeFinalizeAll packet with
      | None => Err ErrPsbtFinalize
      | Some packet =>
          match Extract packet with
          | None => Err ErrPsbtExtract
          | Some rawTx => PsbtIntent_FinalizeRawTX i (Some rawTx)
          end
      end
  end.

Definition PsbtIntent_CompileFundingTx (TxHash : SignedTx -> list byte) (i : PsbtIntent) : outcome fund_err (PsbtIntent * SignedTx) :=
  if negb (bool_decide (State i = PsbtFinalized)) then Err (ErrPsbtState (State i) PsbtFinalized)
  else
    '(_, txOut) <~ ShimIntent_FundingOutput (psbt_Shim i) ;
    match FinalTX i with
    | None => Panic
    | Some final =>
        let '(found, idx) := FindScriptOutputIndex (Tx (st_Tx final)) (PkScript txOut) in
        if negb found then Err ErrFundingOutputNotFound
        else
          Ok (mkPsbt (set_chanPoint (psbt_Shim i) (mkOutPoint (TxHash final) idx)) PsbtFundingTxCompiled (PendingPsbt i) (FinalTX i)
                (PsbtReady i) (shouldPublish i), final)
    end.

(** ** Assemblers *)

Record Request := mkRequest {
  req_AssetId : Z;
  LocalAmt : Z;
  RemoteAmt : Z;
  SubtractFees : bool;
  FeeRate : Z;
}.

(** [WalletAssembler] with its dust limit, [CannedAssembler] and [PsbtAssembler]. *)
Inductive Assembler : Type :=
  | WalletAssembler (DustLimit : Z)
  | CannedAssembler (fundingAmt : Z) (localKey : KeyDescriptor) (remoteKey : point) (chanPoint : OutPoint) (initiator : bool) (thawHeight : Z)
  | PsbtAssembler (fundingAmt : Z) (shouldPublish : bool).

Definition checkAmounts (r : Request) (fundingAmt : Z) : outcome fund_err unit :=
  if bool_decide (i64 (LocalAmt r + RemoteAmt r) <> fundingAmt) then Err (ErrIntentMismatch (LocalAmt r) (RemoteAmt r) fundingAmt)
  else Ok tt.

Definition CannedAssembler_ProvisionChannel (fundingAmt : Z) (lk : KeyDescriptor) (rk : point) (cp : OutPoint) (initiator : bool) (thaw : Z)
    (r : Request) : outcome fund_err Intent :=
  if SubtractFees r then Err ErrSubtractFees
  else
    let intent := mkShim (if initiator then fundingAmt else 0) (if initiator then 0 else fundingAmt) 0 0 (Some lk) (Some rk) (Some cp) thaw in
    _ <~ checkAmounts r fundingAmt ;
    Ok (IntentShim intent).

Definition PsbtAssembler_ProvisionChannel (fundingAmt : Z) (publish : bool) (r : Request) : outcome fund_err Intent :=
  if SubtractFees r then Err ErrSubtractFees
  else
    let intent := mkPsbt (mkShim fundingAmt 0 0 0 None None None 0) PsbtShimRegistered None None None publish in
    _ <~ checkAmounts r fundingAmt ;
    Ok (IntentPsbt intent).

Context {TX : TxLib}.

(** The coins, the amount put into the channel and the change; [None] when coin selection
    does not end, for which one round per coin and one more are counted. *)
Definition selectCoins (dustLimit : Z) (r : Request) (coins : list Coin) : option (outcome fund_err (list Coin * Z * Z)) :=
  if bool_decide (LocalAmt r = 0) then Some (Ok ([], 0, 0))
  else if SubtractFees r then
    Some match CoinSelectSubtractFees (req_AssetId r) (FeeRate r) (LocalAmt r) dustLimit coins with
         | Ok s => Ok s | Err _ => Err ErrSelect | Panic => Panic end
  else
    match CoinSelect (S (S (length coins))) (req_AssetId r) (FeeRate r) (LocalAmt r) dustLimit coins with
    | Some (Ok (selected, change)) => Some (Ok (selected, LocalAmt r, change))
    | Some (Err _) => Some (Err ErrSelect)
    | Some Panic => Some Panic
    | None => None
    end.

(** The intent, and the outpoints that are locked for it. *)
Definition WalletAssembler_ProvisionChannel (dustLimit : Z) (ListCoins : option (list Coin)) (r : Request) :
    option (outcome fund_err (Intent * list OutPoint)) :=
  match ListCoins with
  | None => Some (Err ErrListCoins)
  | Some coins =>
      match selectCoins dustLimit r coins with
      | None => None
      | Some sel => Some (
          '(selectedCoins, localContributionAmt, changeAmt) <~ sel ;
          if negb (bool_decide (changeAmt = 0)) && bool_decide (changeAmt < dustLimit) then Err (ErrChangeDust changeAmt dustLimit)
          else
            changeOutputs <~
              (if bool_decide (changeAmt = 0) then Ok []
               else match selectedCoins with
                    | [] => Panic
                    | coin :: _ => Ok [mkTxOut changeAmt (CoinSelect.PkScript coin)]
                    end) ;
            let shim := mkShim localContributionAmt (RemoteAmt r) 0 0 None None None 0 in
            Ok (IntentFull (mkFull shim selectedCoins changeOutputs), map coinPoint selectedCoins))
      end
  end.

Definition ProvisionChannel (a : Assembler) (ListCoins : option (list Coin)) (r : Request) :
    option (outcome fund_err (Intent * list OutPoint)) :=
  let frozen intent := Some (i <~ intent ; Ok (i, [])) in
  match a with
  | WalletAssembler dustLimit => WalletAssembler_ProvisionChannel dustLimit ListCoins r
  | CannedAssembler fundingAmt lk rk cp initiator thaw => frozen (CannedAssembler_ProvisionChannel fundingAmt lk rk cp initiator thaw r)
  | PsbtAssembler fundingAmt publish => frozen (PsbtAssembler_ProvisionChannel fundingAmt publish r)
  end.

(** ** The interface [Intent] *)

Definition shim_of (i : Intent) : ShimIntent :=
  match i with IntentShim s => s | IntentFull f => full_Shim f | IntentPsbt p => psbt_Shim p end.

Definition FundingOutput (i : Intent) : outcome fund_err (list byte * TxOut) := ShimIntent_FundingOutput (shim_of i).
Definition ChanPoint (i : Intent) : outcome fund_err OutPoint := ShimIntent_ChanPoint (shim_of i).
Definition LocalFundingAmt (i : Intent) : Z := localFundingAmt (shim_of i).
Definition RemoteFundingAmt (i : Intent) : Z := remoteFundingAmt (shim_of i).

Definition Inputs (i : Intent) : outcome fund_err (list OutPoint) :=
  match i with IntentShim _ => Ok [] | IntentFull f => Ok (FullIntent_Inputs f) | IntentPsbt p => PsbtIntent_Inputs p end.
Definition Outputs (i : Intent) : outcome fund_err (list TxOut) :=
  match i with
  | IntentShim s => Ok (ShimIntent_Outputs s) | IntentFull f => Ok (FullIntent_Outputs f) | IntentPsbt p => PsbtIntent_Outputs p
  end.

(** The intent after [Cancel], and the outpoints that are unlocked. *)
Definition Cancel (i : Intent) : Intent * list OutPoint :=
  match i with
  | IntentShim _ => (i, [])
  | IntentFull f => (i, map coinPoint (InputCoins f))
  | IntentPsbt p => (IntentPsbt (PsbtIntent_Cancel p), [])
  end.
End intents.
