(* ===== verification/Reservation.v ===== *)
(** * lnwallet/reservation.go: reservations of channels

    A channel that is being opened: the balances its capacity is split into
    ([NewChannelReservation]), the constraints that are agreed on, and the first pair of
    commitment transactions (lnwallet/wallet.go, [CreateCommitmentTxns]). *)

From stdpp Require Import base list gmap sorting.
From Stdlib Require Import ZArith Lia Bool.
From S2P Require Import Prelude Wire Amounts CoinSelect OpReturn UpdateLog CommitTx KeyDerivation ScriptUtils.
From S2P Require Import WitnessGen Resolutions FundingIntents.

Local Open Scope Z_scope.
Local Open Scope go_scope.

(** ** Commitment types *)

Inductive CommitmentType : Type :=
  | CommitmentTypeLegacy | CommitmentTypeTweakless | CommitmentTypeAnchorsZeroFeeHtlcTx
  | CommitmentTypeScriptEnforcedLease | CommitmentTypeUnknown (n : Z).

Definition HasStaticRemoteKey (c : CommitmentType) : bool :=
  match c with
  | CommitmentTypeTweakless | CommitmentTypeAnchorsZeroFeeHtlcTx | CommitmentTypeScriptEnforcedLease => true
  | _ => false
  end.

Definition HasAnchors (c : CommitmentType) : bool :=
  match c with
  | CommitmentTypeAnchorsZeroFeeHtlcTx | CommitmentTypeScriptEnforcedLease => true
  | _ => false
  end.

Inductive resv_err : Type :=
  | ErrFunderBalanceDust (commitFee funderBalance minBalance : Z)
  | ErrDualFunder
  | ErrNoLeaseExpiration
  | ErrCsvDelayTooLarge (remoteDelay maxDelay : Z)
  | ErrChanReserveTooSmall (reserve dustLimit : Z)
  | ErrInvalidDustLimit (dustLimit : Z)
  | ErrChanReserveTooLarge (reserve maxReserve : Z)
  | ErrMinHtlcTooLarge (minHtlc maxMinHtlc : Z)
  | ErrMaxHtlcNumTooLarge (maxHtlc maxMaxHtlc : Z)
  | ErrMaxHtlcNumTooSmall (maxHtlc minMaxHtlc : Z)
  | ErrMaxValueInFlightTooSmall (maxValInFlight minMaxValInFlight : Z)
  | ErrCommit (e : chan_err)
  | ErrFund (e : fund_err)
  | ErrScripts (e : script_err)
  | ErrZeroCapacity
  | ErrChainMismatch
  | ErrIntentRegistered
  | ErrNoIntent
  | ErrIncompatibleIntent
  | ErrSkipFinalize
  | ErrNeitherPsbtNorTx
  | ErrReservedValueInvalidated (reserved : Z)
  | ErrListUnspent
  | ErrKeyRing
  | ErrNoReservation
  | ErrShutdownScript
  | ErrReserveBounds
  | ErrPsbtInProgress
  | ErrPsbtFundingRequired
  | ErrFundingInputs
  | ErrSignature
  | ErrCommitSigInvalid
  | ErrBestBlock
  | ErrMissAsset
  | ErrDatabase.

Section reservation.
Context `{TS : TxScript} {TG : TxSign} {FL : FundingLib}.

(** [DustLimitForSize] of lnwallet/parameters.go; errors of the scripts are dropped. *)
Definition UnknownWitnessSize : Z := 1 + 1 + 40.
Definition DustLimitForSize (scriptSize : Z) : outcome resv_err Z :=
  let threshold script := Ok (GetDustThreshold (mkTxOut 0 (match script with Ok s => s | _ => [] end))) in
  if bool_decide (scriptSize = P2SHSize) then threshold (GenerateP2SH [])
  else if bool_decide (scriptSize = P2PKHSize) then threshold (GenerateP2PKH [])
  else if bool_decide (scriptSize = UnknownWitnessSize) then threshold GenerateUnknownWitness
  else Panic.

(** ** The state of a reservation *)

(** [channeldb.ChannelConfig]: its constraints and its base keys, which are nil at first. *)
Record FundingConfig := mkFundingConfig {
  fc_Constraints : ChannelConstraints;
  fc_MultiSig : KeyDescriptor;
  fc_Revocation : KeyDescriptor;
  fc_Payment : KeyDescriptor;
  fc_Delay : KeyDescriptor;
  fc_Htlc : KeyDescriptor;
}.

Definition nil_key : KeyDescriptor := mkKeyDesc 0 0 None.
Definition empty_config : FundingConfig := mkFundingConfig (mkConstraints 0 0 0 0 0 0) nil_key nil_key nil_key nil_key nil_key.

(** The points of the keys, where none of them is nil. *)
Definition config_points {E} (c : FundingConfig) : outcome E ChannelConfig :=
  m <~ pub_of (fc_MultiSig c) ; r <~ pub_of (fc_Revocation c) ; p <~ pub_of (fc_Payment c) ;
  d <~ pub_of (fc_Delay c) ; h <~ pub_of (fc_Htlc c) ;
  Ok (mkChanConfig m r p d h).

Record ChannelContribution := mkContribution {
  FundingBtcAmount : Z;
  FundingAssetAmount : Z;
  contrib_AssetId : Z;
  contrib_Inputs : list TxIn;
  contrib_ChangeOutputs : list TxOut;
  FirstCommitmentPoint : option point;
  contrib_Config : FundingConfig;
  UpfrontShutdown : list byte;
}.

(** A commitment of [channeldb.OpenChannel] before any HTLC. *)
Record FirstCommitment := mkFirst {
  LocalBtcBalance : Z;
  RemoteBtcBalance : Z;
  LocalAssetBalance : Z;
  RemoteAssetBalance : Z;
  first_FeePerKw : Z;
  first_CommitFee : Z;
  CommitTx : option SweepTx;
  CommitSig : list byte;
}.

(** What a channel keeps from its creation on. *)
Record ChannelTerms := mkTerms {
  t_ChanType : Z;
  t_IsInitiator : bool;
  t_ChannelFlags : Z;
  t_BtcCapacity : Z;
  t_AssetCapacity : Z;
  t_AssetID : Z;
  t_ThawHeight : Z;
}.

(** What is filled in when the workflow ends. *)
Record FinalParts := mkFinal {
  f_LocalChanCfg : FundingConfig;
  f_RemoteChanCfg : FundingConfig;
  f_FundingTxn : option SignedTx;
  f_LocalShutdownScript : list byte;
  f_RemoteShutdownScript : list byte;
  f_RevocationKeyLocator : Z * Z;
  f_FundingBroadcastHeight : Z;
}.

Definition zero_outpoint : OutPoint := mkOutPoint (replicate 32 x00) 0.

(** [partialState]. *)
Record PendingChannel := mkPending {
  Terms : ChannelTerms;
  LocalCommitment : FirstCommitment;
  RemoteCommitment : FirstCommitment;
  pc_FundingOutpoint : OutPoint;
  RemoteCurrentRevocation : option point;
  NumConfsRequired : Z;
  Final : option FinalParts;
}.

Record ChannelReservation := mkReservation {
  ourContribution : ChannelContribution;
  theirContribution : ChannelContribution;
  partialState : PendingChannel;
  reservationID : Z;
  pendingChanID : list byte;
  pushMSat : Z;
  fundingIntent : option nat;
  fundingTx : option SignedTx;
  ourFundingInputScripts : list InputScript;
  theirFundingInputScripts : list InputScript;
  ourCommitmentSig : option ecSignature;
  theirCommitmentSig : option ecSignature;
  nextRevocationKeyLoc : Z * Z;
}.

(** The balances after fees and the push, and who opens the channel. *)
Definition initialBalances (capacity localFundingAmt commitFee : Z) (anchors : bool) (pushMSat defaultDust assetCapacity pushAsset : Z) :
    outcome resv_err (Z * Z * Z * Z * bool) :=
  let capacityMSat := NewMSatFromSatoshis capacity in
  let feeMSat := NewMSatFromSatoshis commitFee in
  let feeMSat := if anchors then u64 (feeMSat + u64 (2 * NewMSatFromSatoshis anchorSize)) else feeMSat in
  let funder := u64 (u64 (capacityMSat - feeMSat) - pushMSat) in
  let funderAsset := i64 (assetCapacity - pushAsset) in
  if bool_decide (localFundingAmt = 0) then
    if bool_decide (i64 funder < 0) then Err (ErrFunderBalanceDust commitFee (ToSatoshis funder) (i64 (2 * defaultDust)))
    else Ok (pushMSat, funder, pushAsset, funderAsset, false)
  else if bool_decide (capacity = localFundingAmt) then
    if bool_decide (i64 funder < 0) then Err (ErrFunderBalanceDust commitFee (i64 funder) (i64 (2 * defaultDust)))
    else Ok (funder, pushMSat, funderAsset, pushAsset, true)
  else Err ErrDualFunder.

(** The assembler decides whether the node has the funding transaction. *)
Definition fundingTxBit (a : Assembler) : Z :=
  match a with
  | PsbtAssembler _ publish => if publish then 0 else ChannelType.NoFundingTxBit
  | WalletAssembler _ => 0
  | CannedAssembler _ _ _ _ _ _ => ChannelType.NoFundingTxBit
  end.

Definition reservationChanType (commitType : CommitmentType) (a : Assembler) (thawHeight : Z) : outcome resv_err Z :=
  let chanType := if HasStaticRemoteKey commitType then ChannelType.SingleFunderTweaklessBit else 0 in
  let chanType := Z.lor chanType (fundingTxBit a) in
  let chanType :=
    if HasAnchors commitType then Z.lor (Z.lor chanType ChannelType.AnchorOutputsBit) ChannelType.ZeroHtlcTxFeeBit else chanType in
  match commitType with
  | CommitmentTypeScriptEnforcedLease =>
      if bool_decide (thawHeight = 0) then Err ErrNoLeaseExpiration else Ok (Z.lor chanType ChannelType.LeaseExpirationBit)
  | _ => Ok (if bool_decide (thawHeight > 0) then Z.lor chanType ChannelType.FrozenBit else chanType)
  end.

Definition NewChannelReservation (defaultDust capacity localFundingAmt commitFeePerKw id pushMSat flags : Z) (commitType : CommitmentType)
    (fundingAssembler : Assembler) (pendingChanID : list byte) (thawHeight assetCapacity localAssetFundingAmt pushAsset assetID : Z) :
    outcome resv_err ChannelReservation :=
  let commitWeight := if HasAnchors commitType then AnchorCommitWeight else CommitWeightPlain in
  let commitFee := SatPerKWeight.FeeForWeight commitFeePerKw commitWeight in
  '(ourBtc, theirBtc, ourAsset, theirAsset, initiator) <~
    initialBalances capacity localFundingAmt commitFee (HasAnchors commitType) pushMSat defaultDust assetCapacity pushAsset ;
  let minBalance := i64 (2 * defaultDust) in
  if initiator && bool_decide (ToSatoshis ourBtc <= minBalance) then Err (ErrFunderBalanceDust commitFee (ToSatoshis ourBtc) minBalance)
  else if negb initiator && bool_decide (ToSatoshis theirBtc <= minBalance)
  then Err (ErrFunderBalanceDust commitFee (ToSatoshis theirBtc) minBalance)
  else if negb (bool_decide (ourBtc = 0) || bool_decide (theirBtc = 0) || bool_decide (pushMSat <> 0)) then Err ErrDualFunder
  else
    chanType <~ reservationChanType commitType fundingAssembler thawHeight ;
    let commitment := mkFirst ourBtc theirBtc ourAsset theirAsset commitFeePerKw commitFee None [] in
    Ok (mkReservation
      (mkContribution (ToSatoshis ourBtc) ourAsset assetID [] [] None empty_config [])
      (mkContribution (ToSatoshis theirBtc) theirAsset assetID [] [] None empty_config [])
      (mkPending (mkTerms chanType initiator flags capacity assetCapacity assetID thawHeight) commitment commitment zero_outpoint None 0 None)
      id pendingChanID pushMSat None None [] [] None None (0, 0)).

(** ** Constraints *)

Definition set_constraints (c : ChannelContribution) (k : ChannelConstraints) : ChannelContribution :=
  let f := contrib_Config c in
  mkContribution (FundingBtcAmount c) (FundingAssetAmount c) (contrib_AssetId c) (contrib_Inputs c) (contrib_ChangeOutputs c)
    (FirstCommitmentPoint c) (mkFundingConfig k (fc_MultiSig f) (fc_Revocation f) (fc_Payment f) (fc_Delay f) (fc_Htlc f)) (UpfrontShutdown c).

Definition constraintsOf (c : ChannelContribution) : ChannelConstraints := fc_Constraints (contrib_Config c).

Definition set_our (r : ChannelReservation) (c : ChannelContribution) : ChannelReservation :=
  mkReservation c (theirContribution r) (partialState r) (reservationID r) (pendingChanID r) (pushMSat r) (fundingIntent r) (fundingTx r)
    (ourFundingInputScripts r) (theirFundingInputScripts r) (ourCommitmentSig r) (theirCommitmentSig r) (nextRevocationKeyLoc r).

Definition MaxHTLCNumber : Z := 966.
Definition minNumHtlc : Z := 5.

(** The checks that only a bitcoin channel makes. *)
Definition btcConstraints (btcCapacity : Z) (c : ChannelConstraints) : outcome resv_err unit :=
  let res := i64 (ChanReserve c) in
  if bool_decide (DustLimit c > res) then Err (ErrChanReserveTooSmall res (DustLimit c))
  else
    maxWitnessLimit <~ DustLimitForSize UnknownWitnessSize ;
    if bool_decide (DustLimit c < maxWitnessLimit) || bool_decide (DustLimit c > i64 (3 * maxWitnessLimit)) then Err (ErrInvalidDustLimit (DustLimit c))
    else
      let maxChanReserve := Z.quot btcCapacity 5 in
      if bool_decide (res > maxChanReserve) then Err (ErrChanReserveTooLarge res maxChanReserve) else Ok tt.

Definition CommitConstraints (r : ChannelReservation) (assetId : Z) (c : ChannelConstraints) (maxLocalCSVDelay : Z) (responder : bool) :
    outcome resv_err ChannelReservation :=
  if bool_decide (CsvDelay c > maxLocalCSVDelay) then Err (ErrCsvDelayTooLarge (CsvDelay c) maxLocalCSVDelay)
  else
    _ <~ (if bool_decide (t_AssetID (Terms (partialState r)) = BtcAssetId) then btcConstraints (t_BtcCapacity (Terms (partialState r))) c else Ok tt) ;
    let maxHtlcs := u16 (Z.quot MaxHTLCNumber 2) in
    if bool_decide (MinHTLC c > MaxPendingAmount c) then Err (ErrMinHtlcTooLarge (MinHTLC c) (MaxPendingAmount c))
    else if bool_decide (MaxAcceptedHtlcs c > maxHtlcs) then Err (ErrMaxHtlcNumTooLarge (MaxAcceptedHtlcs c) maxHtlcs)
    else if bool_decide (MaxAcceptedHtlcs c < minNumHtlc) then Err (ErrMaxHtlcNumTooSmall (MaxAcceptedHtlcs c) minNumHtlc)
    else if bool_decide (MaxPendingAmount c < u64 (minNumHtlc * MinHTLC c))
    then Err (ErrMaxValueInFlightTooSmall (MaxPendingAmount c) (u64 (minNumHtlc * MinHTLC c)))
    else
      let our := constraintsOf (ourContribution r) in
      let dustLimit :=
        if bool_decide (assetId = BtcAssetId) && responder && bool_decide (DustLimit our > i64 (ChanReserve c)) then i64 (ChanReserve c)
        else DustLimit our in
      Ok (set_our r (set_constraints (ourContribution r)
        (mkConstraints dustLimit (ChanReserve c) (MaxPendingAmount c) (MinHTLC c) (MaxAcceptedHtlcs c) (CsvDelay c)))).

Definition validateReserveBounds (r : ChannelReservation) (assetId : Z) : bool :=
  if bool_decide (assetId = BtcAssetId) then
    let our := constraintsOf (ourContribution r) in
    let their := constraintsOf (theirContribution r) in
    let minChanReserve := if bool_decide (ChanReserve our > ChanReserve their) then ChanReserve their else ChanReserve our in
    let maxDustLimit := if bool_decide (DustLimit our < DustLimit their) then DustLimit their else DustLimit our in
    bool_decide (i64 minChanReserve >= maxDustLimit)
  else true.

(** ** The first commitments *)

(** [CreateCommitTx] of CommitTx.v with the given input. *)
Definition commitTxFor (sane : MsgTx -> bool) (chanType : Z) (fundingTxIn : TxIn) (keys : CommitmentKeyRing) (localCfg remoteCfg : ChannelConstraints)
    (toLocal toRemote assetToLocal assetToRemote : Z) (initiator : bool) (leaseExpiry assetId : Z) (remoteShutdown : list byte) :
    outcome resv_err (MsgTx * PksAmounts) :=
  let cfg := mkChanCfg chanType assetId initiator 0 localCfg remoteCfg [] remoteShutdown leaseExpiry (PreviousOutPoint fundingTxIn) [] in
  match @CreateCommitTx (channel_scripts sane) cfg keys localCfg remoteCfg toLocal toRemote assetToLocal assetToRemote initiator leaseExpiry
          (NewPksAmounts assetId) remoteShutdown with
  | Ok (tx, opAmounts) => Ok ({| TxIns := [fundingTxIn]; TxOuts := TxOuts tx; LockTime := LockTime tx |}, opAmounts)
  | Err e => Err (ErrCommit e)
  | Panic => Panic
  end.

Definition lift_op_resv {A} (m : outcome op_err A) : outcome resv_err A :=
  match m with Ok a => Ok a | Err e => Err (ErrCommit (ErrOp e)) | Panic => Panic end.

Variable sane : MsgTx -> bool.

Definition checkSanity (tx : MsgTx) : outcome resv_err unit := if sane tx then Ok tt else Err (ErrCommit ErrTxSanity).

Definition CreateCommitmentTxns (localBalance remoteBalance localAssetBalance remoteAssetBalance : Z) (ourChanCfg theirChanCfg : FundingConfig)
    (localCommitPoint remoteCommitPoint : point) (fundingTxIn : TxIn) (chanType assetId : Z) (initiator : bool) (leaseExpiry : Z)
    (ourShutdownScript theirShutdownScript : list byte) : outcome resv_err (MsgTx * MsgTx) :=
  ourKeys <~ config_points ourChanCfg ;
  theirKeys <~ config_points theirChanCfg ;
  let localCommitmentKeys := DeriveCommitmentKeys localCommitPoint true chanType ourKeys theirKeys in
  let remoteCommitmentKeys := DeriveCommitmentKeys remoteCommitPoint false chanType ourKeys theirKeys in
  '(ourCommitTx, ourOpAmounts) <~
    commitTxFor sane chanType fundingTxIn localCommitmentKeys (fc_Constraints ourChanCfg) (fc_Constraints theirChanCfg)
      localBalance remoteBalance localAssetBalance remoteAssetBalance initiator leaseExpiry assetId theirShutdownScript ;
  _ <~ checkSanity ourCommitTx ;
  '(theirCommitTx, theirOpAmounts) <~
    commitTxFor sane chanType fundingTxIn remoteCommitmentKeys (fc_Constraints theirChanCfg) (fc_Constraints ourChanCfg)
      remoteBalance localBalance remoteAssetBalance localAssetBalance (negb initiator) leaseExpiry assetId ourShutdownScript ;
  _ <~ checkSanity theirCommitTx ;
  ourCommitTx <~ lift_op_resv (AddOpReturnToTx (InPlaceSort ourCommitTx) ourOpAmounts) ;
  theirCommitTx <~ lift_op_resv (AddOpReturnToTx (InPlaceSort theirCommitTx) theirOpAmounts) ;
  Ok (ourCommitTx, theirCommitTx).

(** Six bytes of a hash of the two keys. *)
Definition DeriveStateHintObfuscator (key1 key2 : point) : list byte :=
  take 6 (drop 26 (keySha256 (SerializeCompressed key1 ++ SerializeCompressed key2))).

Definition initStateHints (commit1 commit2 : MsgTx) (obfuscator : list byte) : outcome resv_err (MsgTx * MsgTx) :=
  match SetStateNumHint commit1 0 obfuscator with
  | Ok commit1 =>
      match SetStateNumHint commit2 0 obfuscator with
      | Ok commit2 => Ok (commit1, commit2)
      | Err e => Err (ErrCommit e)
      | Panic => Panic
      end
  | Err e => Err (ErrCommit e)
  | Panic => Panic
  end.

(** The balances of the first commitments: in an asset channel the initiator has all but
    the fee and what the other party needs to move its asset. *)
Definition openingBalances (ch : PendingChannel) : PendingChannel * Z * Z :=
  let t := Terms ch in
  let local := LocalCommitment ch in
  let localBalance := ToSatoshis (LocalBtcBalance local) in
  let remoteBalance := ToSatoshis (RemoteBtcBalance local) in
  if bool_decide (t_AssetID t > BtcAssetId) then
    let '(localBalance, remoteBalance) :=
      if t_IsInitiator t then
        let remoteBalance := if bool_decide (RemoteAssetBalance local > 0) then OmniGas else remoteBalance in
        (i64 (i64 (t_BtcCapacity t - remoteBalance) - first_CommitFee local), remoteBalance)
      else
        let localBalance := if bool_decide (LocalAssetBalance local > 0) then OmniGas else localBalance in
        (localBalance, i64 (i64 (t_BtcCapacity t - localBalance) - first_CommitFee local)) in
    let update c := mkFirst (NewMSatFromSatoshis localBalance) (NewMSatFromSatoshis remoteBalance) (LocalAssetBalance c) (RemoteAssetBalance c)
      (first_FeePerKw c) (first_CommitFee c) (CommitTx c) (CommitSig c) in
    (mkPending t (update local) (update (RemoteCommitment ch)) (pc_FundingOutpoint ch) (RemoteCurrentRevocation ch) (NumConfsRequired ch) (Final ch),
     localBalance, remoteBalance)
  else (ch, localBalance, remoteBalance).
End reservation.
