(* ===== verification/Wallet.v ===== *)
(** * lnwallet/wallet.go: the funding workflow

    The state of [LightningWallet]: the reservations in limbo, the intents behind pending
    channels, and the coins that are locked; and the handlers of its messages, one after the
    other as [requestHandler] runs them.  A reservation and the table of intents point to the
    same intent, so intents are kept in a store.  What handlers ask of the wallet backend, the
    key ring, the chain and the database are the answers of a [Backend]. *)

From stdpp Require Import base list gmap sorting.
From Stdlib Require Import ZArith Lia Bool.
From S2P Require Import Prelude Wire Amounts CoinSelect OpReturn UpdateLog CommitTx KeyDerivation ScriptUtils.
From S2P Require Import WitnessGen Resolutions FundingIntents Reservation.

Local Open Scope Z_scope.
Local Open Scope go_scope.

Section wallet.
Context `{TS : TxScript} {TG : TxSign} {FL : FundingLib} {SG : Signer} {PL : PsbtLib} {TX : TxLib}.
Variable sane : MsgTx -> bool.

(** ** The state *)

Record LightningWallet := mkWallet {
  nextFundingID : Z;
  fundingLimbo : gmap Z ChannelReservation;
  reservationIDs : gmap (list byte) Z;
  lockedOutPoints : list OutPoint;
  fundingIntents : gmap (list byte) nat;
  intentStore : list Intent;
  coinLocks : list OutPoint;
}.

Definition NewLightningWallet (locks : list OutPoint) : LightningWallet := mkWallet 0 ∅ ∅ [] ∅ [] locks.

Record Config := mkConfig { GenesisHash : list byte; DefaultConstraints : ChannelConstraints }.

(** The families of keys in the order of [initOurContribution]. *)
Inductive KeyFamily : Type :=
  | KeyFamilyMultiSig | KeyFamilyRevocationBase | KeyFamilyHtlcBase | KeyFamilyPaymentBase | KeyFamilyDelayBase
  | KeyFamilyRevocationRoot (attempt : nat).

(** The class of a script, as [ExtractPkScriptAddrs] finds it. *)
Inductive ScriptClass : Type := PubKeyHashTy | WitnessV0PubKeyHashTy | ScriptHashTy | WitnessV0ScriptHashTy | OtherTy.

(** Channels of the database, with their flags and types; a closed one may not be found. *)
Record Backend := mkBackend {
  ListUnspentP2pkh : option (list Coin);
  ListUnspentWitness : option (list (OutPoint * Z));
  paysWallet : list byte -> bool;
  FetchAllChannels : option (list (Z * Z));
  FetchClosedChannels : option (list (option (Z * Z)));
  DeriveNextKey : KeyFamily -> option KeyDescriptor;
  ECDH : KeyDescriptor -> option point -> option (list byte);
  producerAtIndex0 : list byte -> option (list byte);
  FetchInputInfo : OutPoint -> bool;
  SignTransaction : SweepTx -> list InputScript;
  SignedTxHash : SignedTx -> list byte;
  remoteInputOk : SignedTx -> nat -> InputScript -> bool;
  scriptClass : list byte -> ScriptClass;
  GetBestBlock : option Z;
  syncNewChannel : PendingChannel -> bool;
}.

(** ** Steps of the wallet

    A step may change the wallet and still return an error. *)

Definition W (A : Type) : Type := LightningWallet -> LightningWallet * outcome resv_err A.

Definition wret {A} (a : A) : W A := fun l => (l, Ok a).
Definition wthrow {A} (e : resv_err) : W A := fun l => (l, Err e).
Definition wlift {A} (o : outcome resv_err A) : W A := fun l => (l, o).
Definition wmodify (f : LightningWallet -> LightningWallet) : W unit := fun l => (f l, Ok tt).
Definition wget {A} (f : LightningWallet -> A) : W A := fun l => (l, Ok (f l)).
Definition wbind {A B} (m : W A) (k : A -> W B) : W B :=
  fun l => match m l with
           | (l, Ok a) => k a l
           | (l, Err e) => (l, Err e)
           | (l, Panic) => (l, Panic)
           end.

Notation "x <<- m ; k" := (wbind m (fun x => k)) (at level 20, m at level 100, k at level 200, only parsing).
Notation "' x <<- m ; k" := (wbind m (fun x => k)) (at level 20, x pattern, m at level 100, k at level 200, only parsing).
Notation "m >>; k" := (wbind m (fun _ => k)) (at level 100, k at level 200, right associativity, only parsing).

Definition wfund {A} (o : outcome fund_err A) : W A :=
  wlift match o with Ok a => Ok a | Err e => Err (ErrFund e) | Panic => Panic end.
Definition wscript {A} (o : outcome script_err A) : W A :=
  wlift match o with Ok a => Ok a | Err e => Err (ErrScripts e) | Panic => Panic end.
Definition wderef {A} (o : option A) : W A := wlift match o with Some a => Ok a | None => Panic end.
Definition wcheck {A} (o : option A) (e : resv_err) : W A := wlift match o with Some a => Ok a | None => Err e end.
Definition wguard (b : bool) (e : resv_err) : W unit := if b then wret tt else wthrow e.

Definition set_limbo (l : LightningWallet) (m : gmap Z ChannelReservation) : LightningWallet :=
  mkWallet (nextFundingID l) m (reservationIDs l) (lockedOutPoints l) (fundingIntents l) (intentStore l) (coinLocks l).
Definition set_ids (l : LightningWallet) (m : gmap (list byte) Z) : LightningWallet :=
  mkWallet (nextFundingID l) (fundingLimbo l) m (lockedOutPoints l) (fundingIntents l) (intentStore l) (coinLocks l).
Definition set_intents (l : LightningWallet) (m : gmap (list byte) nat) (s : list Intent) : LightningWallet :=
  mkWallet (nextFundingID l) (fundingLimbo l) (reservationIDs l) (lockedOutPoints l) m s (coinLocks l).
Definition set_locks (l : LightningWallet) (locked locks : list OutPoint) : LightningWallet :=
  mkWallet (nextFundingID l) (fundingLimbo l) (reservationIDs l) locked (fundingIntents l) (intentStore l) locks.

(** The reservation of a message, the change of its fields, and the intent it points to. *)
Definition reservation (id : Z) : W ChannelReservation := fun l => wcheck (fundingLimbo l !! id) ErrNoReservation l.
Definition putReservation (id : Z) (r : ChannelReservation) : W unit := wmodify (fun l => set_limbo l (<[id := r]> (fundingLimbo l))).
Definition intentAt (p : nat) : W Intent := fun l => wderef (intentStore l !! p) l.
Definition putIntent (p : nat) (i : Intent) : W unit := wmodify (fun l => set_intents l (fundingIntents l) (<[p := i]> (intentStore l))).

Definition unlock (ops : list OutPoint) (locks : list OutPoint) : list OutPoint := filter (fun o => o ∉ ops) locks.

(** [Cancel] of the intent [p]. *)
Definition cancelIntent (p : nat) : W unit :=
  i <<- intentAt p ;
  let '(i, unlocked) := Cancel i in
  putIntent p i >>; wmodify (fun l => set_locks l (lockedOutPoints l) (unlock unlocked (coinLocks l))).

(** ** Registering intents *)

(** A new intent gets a place of its own in the store. *)
Definition newIntent (i : Intent) : W nat :=
  fun l => (set_intents l (fundingIntents l) (intentStore l ++ [i]), Ok (length (intentStore l))).

Definition RegisterFundingIntent (expectedID : list byte) (p : nat) : W unit :=
  registered <<- wget (fun l => fundingIntents l !! expectedID) ;
  match registered with
  | Some _ => wthrow ErrIntentRegistered
  | None => wmodify (fun l => set_intents l (<[expectedID := p]> (fundingIntents l)) (intentStore l))
  end.

Definition CancelFundingIntent (pid : list byte) : W unit :=
  registered <<- wget (fun l => fundingIntents l !! pid) ;
  match registered with
  | None => wthrow ErrNoIntent
  | Some p => cancelIntent p >>; wmodify (fun l => set_intents l (delete pid (fundingIntents l)) (intentStore l))
  end.

Definition ResetReservations (l : LightningWallet) : LightningWallet :=
  mkWallet 0 ∅ ∅ [] (fundingIntents l) (intentStore l) (unlock (lockedOutPoints l) (coinLocks l)).

(** ** The reserve for anchors *)

Definition FFAnnounceChannel : Z := 1.
Definition anchorChanReservedValue : Z := 10000.
Definition maxAnchorChanReservedValue : Z := 10 * anchorChanReservedValue.

Definition announces (flags : Z) : bool := negb (bool_decide (Z.land flags FFAnnounceChannel = 0)).

Definition cntChannel (c : Z * Z) (numAnchors : Z) : Z :=
  if negb (announces c.1) then numAnchors else if ChannelType.HasAnchors c.2 then numAnchors + 1 else numAnchors.

Definition currentNumAnchorChans (B : Backend) : option Z :=
  match FetchAllChannels B, FetchClosedChannels B with
  | Some chans, Some closed => Some (foldl (fun n c => cntChannel c n) (foldl (fun n c => cntChannel c n) 0 chans) (omap id closed))
  | _, _ => None
  end.

(** The reserved value, and whether the balance covers it. *)
Definition CheckReservedValue (B : Backend) (ins : list OutPoint) (outs : list TxOut) (numAnchorChans : Z) : outcome resv_err (Z * bool) :=
  match ListUnspentWitness B with
  | None => Err ErrListUnspent
  | Some witnessOutputs =>
      let kept := filter (fun u => u.1 ∉ ins) witnessOutputs in
      let walletBalance := foldl (fun b u => i64 (b + u.2)) 0 kept in
      let walletBalance := foldl (fun b o => i64 (b + Value o)) walletBalance (filter (fun o => paysWallet B (PkScript o) = true) outs) in
      let reserved := i64 (numAnchorChans * anchorChanReservedValue) in
      let reserved := if bool_decide (reserved > maxAnchorChanReservedValue) then maxAnchorChanReservedValue else reserved in
      Ok (reserved, negb (bool_decide (walletBalance < reserved)))
  end.

(** A change output that the wallet does not watch may hold the reserve. *)
Definition CheckReservedValueTx (B : Backend) (tx : MsgTx) (ChangeIndex : option Z) : outcome resv_err Z :=
  match currentNumAnchorChans B with
  | None => Err ErrDatabase
  | Some numAnchors =>
      '(reservedVal, covered) <~ CheckReservedValue B (map PreviousOutPoint (TxIns tx)) (TxOuts tx) numAnchors ;
      if covered then Ok reservedVal
      else match ChangeIndex with
      | None => Err (ErrReservedValueInvalidated reservedVal)
      | Some chIdx =>
          if bool_decide (chIdx < 0) then Err (ErrReservedValueInvalidated reservedVal)
          else match TxOuts tx !! Z.to_nat chIdx with
          | None => Err (ErrReservedValueInvalidated reservedVal)
          | Some out => if bool_decide (Value out < reservedVal) then Err (ErrReservedValueInvalidated reservedVal) else Ok reservedVal
          end
      end
  end.

Definition enforceNewReservedValue (B : Backend) (i : Intent) (isPublic hasAnchors : bool) : W unit :=
  if negb isPublic || bool_decide (LocalFundingAmt i = 0) then wret tt
  else
    numAnchors <<- wcheck (currentNumAnchorChans B) ErrDatabase ;
    let numAnchors := if hasAnchors then numAnchors + 1 else numAnchors in
    ins <<- wfund (Inputs i) ;
    outs <<- wfund (Outputs i) ;
    '(reserved, covered) <<- wlift (CheckReservedValue B ins outs numAnchors) ;
    wguard covered (ErrReservedValueInvalidated reserved).

(** ** Reserving *)

Record InitFundingReserveMsg := mkInitMsg {
  ChainHash : list byte;
  PendingChanID : list byte;
  msg_SubtractFees : bool;
  LocalFundingBtcAmt : Z;
  RemoteFundingBtcAmt : Z;
  LocalFundingAssetAmt : Z;
  RemoteFundingAssetAmt : Z;
  AssetId : Z;
  PushAsset : Z;
  CommitFeePerKw : Z;
  FundingFeePerKw : Z;
  PushMSat : Z;
  Flags : Z;
  CommitType : CommitmentType;
  ChanFunder : option Assembler;
}.

(** The key ring of a reservation: a shim brings its own multi-signature key. *)
Definition ringKey (B : Backend) (i : Intent) (fam : KeyFamily) : W KeyDescriptor :=
  match fam, i with
  | KeyFamilyMultiSig, IntentShim s => keys <<- wfund (ShimIntent_MultiSigKeys s) ; wret keys.1
  | _, _ => wcheck (DeriveNextKey B fam) ErrKeyRing
  end.

(** The root of the revocation keys; a key of index 0 is not used. *)
Definition nextRevocationProducer (B : Backend) (i : Intent) (multiSigKey : KeyDescriptor) : W (list byte * (Z * Z)) :=
  d <<- ringKey B i (KeyFamilyRevocationRoot 0) ;
  d <<- (if bool_decide (kd_Index d = 0) then ringKey B i (KeyFamilyRevocationRoot 1) else wret d) ;
  root <<- wcheck (ECDH B d (kd_PubKey multiSigKey)) ErrKeyRing ;
  wret (root, (Family d, kd_Index d)).

Definition initOurContribution (B : Backend) (cfg : Config) (r : ChannelReservation) (p : nat) (i : Intent) : W ChannelReservation :=
  let c := ourContribution r in
  let '(ins, change) :=
    match i with
    | IntentFull f => (contrib_Inputs c ++ map (fun coin => mkTxIn (coinPoint coin) 0) (InputCoins f), ChangeOutputs f)
    | _ => (contrib_Inputs c, contrib_ChangeOutputs c)
    end in
  multiSig <<- ringKey B i KeyFamilyMultiSig ;
  revocation <<- ringKey B i KeyFamilyRevocationBase ;
  htlc <<- ringKey B i KeyFamilyHtlcBase ;
  payment <<- ringKey B i KeyFamilyPaymentBase ;
  delay <<- ringKey B i KeyFamilyDelayBase ;
  '(producer, loc) <<- nextRevocationProducer B i multiSig ;
  firstPreimage <<- wcheck (producerAtIndex0 B producer) ErrKeyRing ;
  let config := mkFundingConfig (DefaultConstraints cfg) multiSig revocation payment delay htlc in
  let c := mkContribution (FundingBtcAmount c) (FundingAssetAmount c) (contrib_AssetId c) ins change
             (Some (ComputeCommitmentPoint firstPreimage)) config (UpfrontShutdown c) in
  wret (mkReservation c (theirContribution r) (partialState r) (reservationID r) (pendingChanID r) (pushMSat r) (Some p) (fundingTx r)
    (ourFundingInputScripts r) (theirFundingInputScripts r) (ourCommitmentSig r) (theirCommitmentSig r) loc).

(** Runs a step; when it fails the intent is cancelled, and the error returned. *)
Definition orCancel {A} (p : nat) (m : W A) : W A :=
  fun l => match m l with
           | (l, Ok a) => (l, Ok a)
           | (l, Err e) => match cancelIntent p l with (l, Ok _) => (l, Err e) | (l, Err e') => (l, Err e') | (l, Panic) => (l, Panic) end
           | (l, Panic) => (l, Panic)
           end.

(** The coins are locked and the intent registered; the amounts may be those it chose. *)
Definition provision (B : Backend) (funder : Assembler) (req : InitFundingReserveMsg) : option (W (nat * Z * Z)) :=
  let fundingReq := mkRequest (AssetId req) (LocalFundingBtcAmt req) (RemoteFundingBtcAmt req) (msg_SubtractFees req) (FundingFeePerKw req) in
  provisioned ← ProvisionChannel funder (ListUnspentP2pkh B) fundingReq;
  Some (
    '(i, locked) <<- wfund provisioned ;
    wmodify (fun l => set_locks l (lockedOutPoints l) (locked ++ coinLocks l)) >>;
    p <<- newIntent i ;
    RegisterFundingIntent (PendingChanID req) p >>;
    wret (p, LocalFundingAmt i, RemoteFundingAmt i)).

(** The part of the handler behind the intent [p]. *)
Definition reserve (B : Backend) (cfg : Config) (req : InitFundingReserveMsg) (funder : Assembler) (enforce : bool) (p : nat)
    (localFundingAmt remoteFundingAmt : Z) : W ChannelReservation :=
  i <<- intentAt p ;
  let thaw := match i with IntentShim s => thawHeight s | _ => 0 end in
  let defaultDust := DustLimit (DefaultConstraints cfg) in
  orCancel p (
    if enforce then enforceNewReservedValue B i (announces (Flags req)) (Reservation.HasAnchors (CommitType req)) else wret tt) >>;
  let capacity := i64 (localFundingAmt + remoteFundingAmt) in
  let assetCapacity := i64 (LocalFundingAssetAmt req + RemoteFundingAssetAmt req) in
  wmodify (fun l => mkWallet (u64 (nextFundingID l + 1)) (fundingLimbo l) (reservationIDs l) (lockedOutPoints l) (fundingIntents l) (intentStore l) (coinLocks l)) >>;
  fid <<- wget nextFundingID ;
  r <<- orCancel p (
    r <<- wlift (NewChannelReservation defaultDust capacity localFundingAmt (CommitFeePerKw req) fid (PushMSat req) (Flags req) (CommitType req)
                   funder (PendingChanID req) thaw assetCapacity (LocalFundingAssetAmt req) (PushAsset req) (AssetId req)) ;
    initOurContribution B cfg r p i) ;
  putReservation fid r >>;
  wmodify (fun l => set_ids l (<[PendingChanID req := fid]> (reservationIDs l))) >>;
  wret r.

(** [None] when coin selection does not end. *)
Definition handleFundingReserveRequest (B : Backend) (cfg : Config) (req : InitFundingReserveMsg) (l : LightningWallet) :
    option (LightningWallet * outcome resv_err ChannelReservation) :=
  if bool_decide (i64 (LocalFundingBtcAmt req + RemoteFundingBtcAmt req) = 0) then Some (l, Err ErrZeroCapacity)
  else if negb (bool_decide (GenesisHash cfg = ChainHash req)) then Some (l, Err ErrChainMismatch)
  else
    match (match ChanFunder req with
           | Some a => Ok (a, match a with PsbtAssembler _ _ => false | _ => true end)
           | None => dust <~ DustLimitForSize P2PKHSize ; Ok (WalletAssembler dust, true)
           end) with
    | Err e => Some (l, Err e)
    | Panic => Some (l, Panic)
    | Ok (funder, enforce) =>
        match fundingIntents l !! PendingChanID req with
        | Some p => Some (reserve B cfg req funder enforce p (LocalFundingBtcAmt req) (RemoteFundingBtcAmt req) l)
        | None =>
            provisioned ← provision B funder req;
            Some (('(p, localAmt, remoteAmt) <<- provisioned ; reserve B cfg req funder enforce p localAmt remoteAmt) l)
        end
    end.

(** Unlocking goes through the wallet's own set and through the backend. *)
Definition handleFundingCancelRequest (fid : Z) : W unit :=
  r <<- reservation fid ;
  let unused := map PreviousOutPoint (contrib_Inputs (ourContribution r)) in
  wmodify (fun l => set_locks l (unlock unused (lockedOutPoints l)) (unlock unused (coinLocks l))) >>;
  wmodify (fun l => set_limbo l (delete fid (fundingLimbo l))) >>;
  wmodify (fun l => set_ids l (delete (pendingChanID r) (reservationIDs l))) >>;
  registered <<- wget (fun l => fundingIntents l !! pendingChanID r) ;
  match registered with
  | None => wret tt
  | Some p => cancelIntent p >>; wmodify (fun l => set_intents l (delete (pendingChanID r) (fundingIntents l)) (intentStore l))
  end.

(** ** Contributions *)

Definition set_their (r : ChannelReservation) (c : ChannelContribution) : ChannelReservation :=
  mkReservation (ourContribution r) c (partialState r) (reservationID r) (pendingChanID r) (pushMSat r) (fundingIntent r) (fundingTx r)
    (ourFundingInputScripts r) (theirFundingInputScripts r) (ourCommitmentSig r) (theirCommitmentSig r) (nextRevocationKeyLoc r).
Definition set_partial (r : ChannelReservation) (ch : PendingChannel) : ChannelReservation :=
  mkReservation (ourContribution r) (theirContribution r) ch (reservationID r) (pendingChanID r) (pushMSat r) (fundingIntent r) (fundingTx r)
    (ourFundingInputScripts r) (theirFundingInputScripts r) (ourCommitmentSig r) (theirCommitmentSig r) (nextRevocationKeyLoc r).
Definition set_funding (r : ChannelReservation) (tx : option SignedTx) (scripts : list InputScript) : ChannelReservation :=
  mkReservation (ourContribution r) (theirContribution r) (partialState r) (reservationID r) (pendingChanID r) (pushMSat r) (fundingIntent r) tx
    scripts (theirFundingInputScripts r) (ourCommitmentSig r) (theirCommitmentSig r) (nextRevocationKeyLoc r).
Definition set_sigs (r : ChannelReservation) (theirs : list InputScript) (our their : option ecSignature) : ChannelReservation :=
  mkReservation (ourContribution r) (theirContribution r) (partialState r) (reservationID r) (pendingChanID r) (pushMSat r) (fundingIntent r) (fundingTx r)
    (ourFundingInputScripts r) theirs our their (nextRevocationKeyLoc r).

Definition set_outpoint (ch : PendingChannel) (o : OutPoint) : PendingChannel :=
  mkPending (Terms ch) (LocalCommitment ch) (RemoteCommitment ch) o (RemoteCurrentRevocation ch) (NumConfsRequired ch) (Final ch).
Definition set_revocation (ch : PendingChannel) (p : option point) : PendingChannel :=
  mkPending (Terms ch) (LocalCommitment ch) (RemoteCommitment ch) (pc_FundingOutpoint ch) p (NumConfsRequired ch) (Final ch).
Definition set_txs (ch : PendingChannel) (our their : SweepTx) : PendingChannel :=
  let update c tx := mkFirst (LocalBtcBalance c) (RemoteBtcBalance c) (LocalAssetBalance c) (RemoteAssetBalance c) (first_FeePerKw c)
    (first_CommitFee c) (Some tx) (CommitSig c) in
  mkPending (Terms ch) (update (LocalCommitment ch) our) (update (RemoteCommitment ch) their) (pc_FundingOutpoint ch) (RemoteCurrentRevocation ch)
    (NumConfsRequired ch) (Final ch).
Definition set_commitSig (ch : PendingChannel) (sig : list byte) : PendingChannel :=
  let c := LocalCommitment ch in
  mkPending (Terms ch)
    (mkFirst (LocalBtcBalance c) (RemoteBtcBalance c) (LocalAssetBalance c) (RemoteAssetBalance c) (first_FeePerKw c) (first_CommitFee c) (CommitTx c) sig)
    (RemoteCommitment ch) (pc_FundingOutpoint ch) (RemoteCurrentRevocation ch) (NumConfsRequired ch) (Final ch).
Definition set_final (ch : PendingChannel) (f : FinalParts) : PendingChannel :=
  mkPending (Terms ch) (LocalCommitment ch) (RemoteCommitment ch) (pc_FundingOutpoint ch) (RemoteCurrentRevocation ch) (NumConfsRequired ch) (Some f).

Definition LeaseExpiry (ch : PendingChannel) : Z :=
  if ChannelType.HasLeaseExpiration (t_ChanType (Terms ch)) then t_ThawHeight (Terms ch) else 0.

(** The intent of a reservation: a nil one ends the handler. *)
Definition intentOf (r : ChannelReservation) : W (nat * Intent) :=
  p <<- wderef (fundingIntent r) ; i <<- intentAt p ; wret (p, i).

(** The pair of commitments at the input, with the state hints of the obfuscator. *)
Definition commitmentPair (r : ChannelReservation) (localBalance remoteBalance Sequence : Z)
    (obfuscator : ChannelReservation -> outcome resv_err (list byte)) : outcome resv_err (SweepTx * SweepTx) :=
  let ch := partialState r in
  let our := ourContribution r in
  let their := theirContribution r in
  match FirstCommitmentPoint our, FirstCommitmentPoint their with
  | Some ourPoint, Some theirPoint =>
      '(ourCommitTx, theirCommitTx) <~
        CreateCommitmentTxns sane localBalance remoteBalance (LocalAssetBalance (LocalCommitment ch)) (RemoteAssetBalance (LocalCommitment ch))
          (contrib_Config our) (contrib_Config their) ourPoint theirPoint (mkTxIn (pc_FundingOutpoint ch) Sequence)
          (t_ChanType (Terms ch)) (t_AssetID (Terms ch)) (t_IsInitiator (Terms ch)) (LeaseExpiry ch) (UpfrontShutdown our) (UpfrontShutdown their) ;
      stateObfuscator <~ obfuscator r ;
      '(ourCommitTx, theirCommitTx) <~ initStateHints ourCommitTx theirCommitTx stateObfuscator ;
      Ok (mkSweep 2 ourCommitTx, mkSweep 2 theirCommitTx)
  | _, _ => Panic
  end.

(** The opening balances and the commitments are recorded in the reservation. *)
Definition buildCommitments (fid : Z) (Sequence : Z) (obfuscator : ChannelReservation -> outcome resv_err (list byte)) : W (SweepTx * SweepTx) :=
  r <<- reservation fid ;
  let '(ch, localBalance, remoteBalance) := openingBalances (partialState r) in
  let r := set_partial r ch in
  putReservation fid r >>;
  '(ourCommitTx, theirCommitTx) <<- wlift (commitmentPair r localBalance remoteBalance Sequence obfuscator) ;
  putReservation fid (set_partial r (set_txs ch ourCommitTx theirCommitTx)) >>;
  wret (ourCommitTx, theirCommitTx).

Definition paymentBase (c : ChannelContribution) : outcome resv_err point := pub_of (fc_Payment (contrib_Config c)).

(** The initiator's key comes first, or the smaller one in a channel that both fund. *)
Definition fundingObfuscator (r : ChannelReservation) : outcome resv_err (list byte) :=
  our <~ paymentBase (ourContribution r) ;
  their <~ paymentBase (theirContribution r) ;
  Ok (
    if ChannelType.IsSingleFunder (t_ChanType (Terms (partialState r))) then DeriveStateHintObfuscator our their
    else match bytes_compare (SerializeCompressed our) (SerializeCompressed their) with
         | Lt => DeriveStateHintObfuscator our their
         | _ => DeriveStateHintObfuscator their our
         end).

Definition responderObfuscator (r : ChannelReservation) : outcome resv_err (list byte) :=
  their <~ paymentBase (theirContribution r) ;
  our <~ paymentBase (ourContribution r) ;
  Ok (DeriveStateHintObfuscator their our).

(** Signs their commitment with our multi-signature key, and keeps the signature. *)
Definition signTheirCommit (fid : Z) (theirCommitTx : SweepTx) (witnessScript : list byte) (output : TxOut) : W unit :=
  r <<- reservation fid ;
  let ourKey := fc_MultiSig (contrib_Config (ourContribution r)) in
  let signDesc := mkSignDesc ourKey None None witnessScript output 0 0 (byte_Z SigHashAll) 0 in
  sigTheirCommit <<- wcheck (SignOutputRaw theirCommitTx signDesc) ErrSignature ;
  putReservation fid (set_sigs r (theirFundingInputScripts r) (Some sigTheirCommit) (theirCommitmentSig r)).

Definition recordFunding (fid : Z) (o : OutPoint) (tx : option (SignedTx * list InputScript)) : W unit :=
  r <<- reservation fid ;
  let r := set_partial r (set_outpoint (partialState r) o) in
  putReservation fid match tx with Some (tx, scripts) => set_funding r (Some tx) scripts | None => r end.

Definition handleChanPointReady (B : Backend) (fid : Z) : W unit :=
  r <<- reservation fid ;
  '(p, i) <<- intentOf r ;
  match i with
  | IntentPsbt psbt =>
      '(psbt, tx) <<- wfund (PsbtIntent_CompileFundingTx (SignedTxHash B) psbt) ;
      putIntent p (IntentPsbt psbt) >>;
      o <<- wfund (ChanPoint (IntentPsbt psbt)) ;
      recordFunding fid o (if shouldPublish psbt then Some (tx, st_Scripts tx) else None)
  | _ => wret tt
  end >>;
  r <<- reservation fid ;
  putReservation fid (set_partial r (set_revocation (partialState r) (FirstCommitmentPoint (theirContribution r)))) >>;
  '(_, theirCommitTx) <<- buildCommitments fid 0 fundingObfuscator ;
  i <<- intentAt p ;
  '(fundingWitnessScript, fundingOutput) <<- wfund (FundingOutput i) ;
  signTheirCommit fid theirCommitTx fundingWitnessScript fundingOutput.

Definition validateUpfrontShutdown (B : Backend) (shutdown : list byte) : bool :=
  match scriptClass B shutdown with
  | PubKeyHashTy | WitnessV0PubKeyHashTy | ScriptHashTy | WitnessV0ScriptHashTy => true
  | OtherTy => false
  end.

Definition shutdownOk (B : Backend) (shutdown : list byte) : bool :=
  bool_decide (shutdown = []) || validateUpfrontShutdown B shutdown.

(** The scripts of the inputs that the wallet knows. *)
Definition ownScripts (B : Backend) (tx : SignedTx) : list InputScript :=
  (filter (fun x => FetchInputInfo B (PreviousOutPoint x.1) = true) (zip (TxIns (Tx (st_Tx tx))) (st_Scripts tx))).*2.

Definition handleContributionMsg (B : Backend) (fid : Z) (contribution : ChannelContribution) : W unit :=
  r <<- reservation fid ;
  wguard (shutdownOk B (UpfrontShutdown contribution)) ErrShutdownScript >>;
  let r := set_their r contribution in
  putReservation fid r >>;
  wguard (validateReserveBounds r (contrib_AssetId contribution)) ErrReserveBounds >>;
  let ourKey := fc_MultiSig (contrib_Config (ourContribution r)) in
  let theirKey := kd_PubKey (fc_MultiSig (contrib_Config contribution)) in
  '(p, i) <<- intentOf r ;
  match i with
  | IntentShim _ => o <<- wfund (ChanPoint i) ; recordFunding fid o None
  | IntentPsbt psbt =>
      match PendingPsbt psbt with
      | Some _ => wthrow ErrPsbtInProgress
      | None =>
          _ <<- wderef theirKey ;
          putIntent p (IntentPsbt (PsbtIntent_BindKeys psbt ourKey theirKey)) >>;
          wthrow ErrPsbtFundingRequired
      end
  | IntentFull f =>
      let f := FullIntent_BindKeys f ourKey theirKey in
      putIntent p (IntentFull f) >>;
      '(f, tx) <<- wfund (FullIntent_CompileFundingTx (SignTransaction B) (SignedTxHash B) f (contrib_Inputs contribution)
                            (contrib_ChangeOutputs contribution) (t_AssetID (Terms (partialState r))) (t_AssetCapacity (Terms (partialState r)))) ;
      putIntent p (IntentFull f) >>;
      o <<- wfund (ChanPoint (IntentFull f)) ;
      recordFunding fid o (Some (tx, ownScripts B tx))
  end >>;
  handleChanPointReady B fid.

Definition handleSingleContribution (B : Backend) (fid : Z) (contribution : ChannelContribution) : W unit :=
  r <<- reservation fid ;
  wguard (shutdownOk B (UpfrontShutdown contribution)) ErrShutdownScript >>;
  let r := set_their r contribution in
  putReservation fid r >>;
  wguard (validateReserveBounds r (contrib_AssetId contribution)) ErrReserveBounds >>;
  putReservation fid (set_partial r (set_revocation (partialState r) (FirstCommitmentPoint contribution))).

(** ** Signatures *)

(** The scripts of the peer are attached to the inputs without a witness; an input that
    fails ends the loop with the scripts attached so far. *)
Fixpoint verifyInputs (B : Backend) (tx : SweepTx) (scripts : list InputScript) (i sigIndex : nat) (done rest : list InputScript) :
    list InputScript * outcome resv_err unit :=
  match rest with
  | [] => (done, Ok tt)
  | s :: rest =>
      if bool_decide (scripts <> []) && bool_decide (Witness s = []) then
        match scripts !! sigIndex with
        | None => (done ++ s :: rest, Panic)
        | Some s' =>
            if remoteInputOk B (mkSigned tx (done ++ s' :: rest)) i s'
            then verifyInputs B tx scripts (S i) (S sigIndex) (done ++ [s']) rest
            else (done ++ s' :: rest, Err ErrFundingInputs)
        end
      else verifyInputs B tx scripts (S i) sigIndex (done ++ [s]) rest
  end.

Definition verifyFundingInputs (B : Backend) (fundingTx : SignedTx) (remoteInputScripts : list InputScript) : SignedTx * outcome resv_err unit :=
  let '(scripts, verdict) := verifyInputs B (st_Tx fundingTx) remoteInputScripts 0 0 [] (st_Scripts fundingTx) in
  (mkSigned (st_Tx fundingTx) scripts, verdict).

(** The script of the funding output, and the check of the peer's signature for our
    commitment. *)
Definition fundingScript (r : ChannelReservation) : W (list byte * TxOut) :=
  our <<- wlift (pub_of (fc_MultiSig (contrib_Config (ourContribution r)))) ;
  their <<- wlift (pub_of (fc_MultiSig (contrib_Config (theirContribution r)))) ;
  wscript (GenFundingPkScript (SerializeCompressed our) (SerializeCompressed their) (t_BtcCapacity (Terms (partialState r)))).

Definition verifyCommitSig (r : ChannelReservation) (witnessScript : list byte) (commitTx : SweepTx) (sig : ecSignature) : W unit :=
  sigHash <<- wcheck (CalcSignatureHash witnessScript (byte_Z SigHashAll) commitTx 0) ErrSignature ;
  their <<- wlift (pub_of (fc_MultiSig (contrib_Config (theirContribution r)))) ;
  wguard (sigVerify sig sigHash their) ErrCommitSigInvalid.

(** [SyncPending] of channeldb/channel.go; the bucket of the channel is Kvdb's. *)
Definition SyncPending (B : Backend) (ch : PendingChannel) : outcome resv_err unit :=
  if bool_decide (t_AssetCapacity (Terms ch) > 0) && bool_decide (t_AssetID (Terms ch) = BtcAssetId) then Err ErrMissAsset
  else if syncNewChannel B ch then Ok tt else Err ErrDatabase.

Definition finish (r : ChannelReservation) (ch : PendingChannel) (tx : option SignedTx) (bestHeight : Z) : PendingChannel :=
  set_final ch (mkFinal (contrib_Config (ourContribution r)) (contrib_Config (theirContribution r)) tx
    (UpfrontShutdown (ourContribution r)) (UpfrontShutdown (theirContribution r)) (nextRevocationKeyLoc r) (u32 bestHeight)).

Definition handleFundingCounterPartySigs (B : Backend) (fid : Z) (theirScripts : list InputScript) (theirSig : ecSignature) : W PendingChannel :=
  r <<- reservation fid ;
  let r := set_sigs r theirScripts (ourCommitmentSig r) (theirCommitmentSig r) in
  putReservation fid r >>;
  r <<- (if ChannelType.HasFundingTx (t_ChanType (Terms (partialState r))) then
           tx <<- wderef (fundingTx r) ;
           let '(tx, verdict) := verifyFundingInputs B tx theirScripts in
           let r := set_funding r (Some tx) (ourFundingInputScripts r) in
           putReservation fid r >>; wlift verdict >>; wret r
         else wret r) ;
  let r := set_sigs r theirScripts (ourCommitmentSig r) (Some theirSig) in
  putReservation fid r >>;
  '(witnessScript, _) <<- fundingScript r ;
  commitTx <<- wderef (CommitTx (LocalCommitment (partialState r))) ;
  verifyCommitSig r witnessScript commitTx theirSig >>;
  let ch := set_commitSig (partialState r) (sigSerialize theirSig) in
  wmodify (fun l => set_limbo l (delete (reservationID r) (fundingLimbo l))) >>;
  wmodify (fun l => set_ids l (delete (pendingChanID r) (reservationIDs l))) >>;
  wmodify (fun l => set_intents l (delete (pendingChanID r) (fundingIntents l)) (intentStore l)) >>;
  bestHeight <<- wcheck (GetBestBlock B) ErrBestBlock ;
  let ch := finish r ch (fundingTx r) bestHeight in
  wlift (SyncPending B ch) >>;
  wret ch.

(** The caller has a pointer to the reservation, from which it takes our signature. *)
Definition handleSingleFunderSigs (B : Backend) (fid : Z) (fundingOutpoint : OutPoint) (theirSig : ecSignature) : W (PendingChannel * ChannelReservation) :=
  r <<- reservation fid ;
  putReservation fid (set_partial r (set_outpoint (partialState r) fundingOutpoint)) >>;
  '(ourCommitTx, theirCommitTx) <<- buildCommitments fid MaxTxInSequenceNum responderObfuscator ;
  r <<- reservation fid ;
  '(witnessScript, fundOut) <<- fundingScript r ;
  verifyCommitSig r witnessScript ourCommitTx theirSig >>;
  let r := set_partial r (set_commitSig (partialState r) (sigSerialize theirSig)) in
  putReservation fid r >>;
  signTheirCommit fid theirCommitTx witnessScript fundOut >>;
  r <<- reservation fid ;
  bestHeight <<- wcheck (GetBestBlock B) ErrBestBlock ;
  let ch := finish r (partialState r) None bestHeight in
  let r := set_partial r ch in
  putReservation fid r >>;
  wlift (SyncPending B ch) >>;
  wmodify (fun l => set_limbo l (delete fid (fundingLimbo l))) >>;
  wmodify (fun l => set_intents l (delete (pendingChanID r) (fundingIntents l)) (intentStore l)) >>;
  wret (ch, r).

(** ** Partially signed transactions *)

Definition psbtOf (pid : list byte) : W (nat * PsbtIntent) :=
  registered <<- wget (fun l => fundingIntents l !! pid) ;
  p <<- wcheck registered ErrNoIntent ;
  i <<- intentAt p ;
  match i with IntentPsbt psbt => wret (p, psbt) | _ => wthrow ErrIncompatibleIntent end.

Definition PsbtFundingVerify (B : Backend) (pid : list byte) (packet : option Packet) (skipFinalize : bool) : W unit :=
  '(p, psbt) <<- psbtOf pid ;
  wguard (negb (skipFinalize && shouldPublish psbt)) ErrSkipFinalize >>;
  psbt <<- wfund (PsbtIntent_Verify psbt packet skipFinalize) ;
  putIntent p (IntentPsbt psbt) >>;
  found <<- wget (fun l => reservationIDs l !! pid) ;
  fid <<- wcheck found ErrNoReservation ;
  r <<- reservation fid ;
  let t := Terms (partialState r) in
  enforceNewReservedValue B (IntentPsbt psbt) (announces (t_ChannelFlags t)) (ChannelType.HasAnchors (t_ChanType t)).

Definition PsbtFundingFinalize (pid : list byte) (packet : option Packet) (rawTx : option SignedTx) : W unit :=
  '(p, psbt) <<- psbtOf pid ;
  match packet, rawTx with
  | Some _, None => psbt <<- wfund (PsbtIntent_Finalize psbt packet) ; putIntent p (IntentPsbt psbt)
  | None, Some _ => psbt <<- wfund (PsbtIntent_FinalizeRawTX psbt rawTx) ; putIntent p (IntentPsbt psbt)
  | _, _ => wthrow ErrNeitherPsbtNorTx
  end.

(** [RemoteCanceled] of a reservation. *)
Definition RemoteCanceled (fid : Z) : W unit :=
  r <<- reservation fid ;
  '(p, i) <<- intentOf r ;
  match i with IntentPsbt psbt => putIntent p (IntentPsbt (PsbtIntent_RemoteCanceled psbt)) | _ => wret tt end.

(** ** The handler loop *)

Inductive wallet_msg : Type :=
  | MsgReserve (req : InitFundingReserveMsg)
  | MsgCancel (fid : Z)
  | MsgSingleContribution (fid : Z) (c : ChannelContribution)
  | MsgContribution (fid : Z) (c : ChannelContribution)
  | MsgContinue (fid : Z)
  | MsgSingleFunderSigs (fid : Z) (fundingOutpoint : OutPoint) (sig : ecSignature)
  | MsgCounterPartySigs (fid : Z) (scripts : list InputScript) (sig : ecSignature).

Inductive wallet_reply : Type := ReplyReservation (r : ChannelReservation) | ReplyDone | ReplyChannel (ch : PendingChannel).

Definition reply {A} (f : A -> wallet_reply) (m : W A) : W wallet_reply := a <<- m ; wret (f a).

Definition requestHandler (B : Backend) (cfg : Config) (m : wallet_msg) (l : LightningWallet) : option (LightningWallet * outcome resv_err wallet_reply) :=
  match m with
  | MsgReserve req => '(l, r) ← handleFundingReserveRequest B cfg req l; Some (reply ReplyReservation (fun l' => (l', r)) l)
  | MsgCancel fid => Some (reply (fun _ => ReplyDone) (handleFundingCancelRequest fid) l)
  | MsgSingleContribution fid c => Some (reply (fun _ => ReplyDone) (handleSingleContribution B fid c) l)
  | MsgContribution fid c => Some (reply (fun _ => ReplyDone) (handleContributionMsg B fid c) l)
  | MsgContinue fid => Some (reply (fun _ => ReplyDone) (handleChanPointReady B fid) l)
  | MsgSingleFunderSigs fid o sig => Some (reply (fun x => ReplyChannel x.1) (handleSingleFunderSigs B fid o sig) l)
  | MsgCounterPartySigs fid scripts sig => Some (reply ReplyChannel (handleFundingCounterPartySigs B fid scripts sig) l)
  end.
End wallet.
