(* ===== verification/FundingTheorems.v ===== *)
(** * Opening a channel

    Two nodes that open a channel split its capacity in the same way, build the same pair of
    first commitments, and end the workflow with the peer's signature in hand. *)

From stdpp Require Import base list gmap sorting.
From Stdlib Require Import ZArith Lia Bool.
From S2P Require Import Prelude Wire Amounts CoinSelect OpReturn UpdateLog CommitTx KeyDerivation ScriptUtils.
From S2P Require Import WitnessGen Resolutions FundingIntents Reservation Wallet.

Local Open Scope Z_scope.
Local Open Scope go_scope.

(** ** Transactions that differ in the sequence of their input *)

Section transactions.
Context `{TS : TxScript} {TG : TxSign} {FL : FundingLib}.

Definition same_but_sequence (tx tx' : MsgTx) : Prop :=
  map PreviousOutPoint (TxIns tx) = map PreviousOutPoint (TxIns tx') /\ TxOuts tx = TxOuts tx' /\ LockTime tx = LockTime tx'.

Lemma AddOpReturnToTx_ins tx p r ins lt : AddOpReturnToTx tx p = Ok r ->
  TxIns r = TxIns tx /\ LockTime r = LockTime tx /\
  AddOpReturnToTx {| TxIns := ins; TxOuts := TxOuts tx; LockTime := lt |} p = Ok {| TxIns := ins; TxOuts := TxOuts r; LockTime := lt |}.
Proof.
  assert (forall l, opOutputs {| TxIns := ins; TxOuts := TxOuts tx; LockTime := lt |} l = opOutputs tx l) as Ho.
  { induction l as [|[pks amount] l IH]; [done|]. cbn [opOutputs]. unfold FindScriptOutputIndex at 1. cbn [TxOuts].
    unfold FindScriptOutputIndex. destruct (list_find _ _) as [[i o]|]; [|done]. by rewrite IH. }
  unfold AddOpReturnToTx. case_bool_decide; [by intros [= ->]|]. case_bool_decide; [by intros [= ->]|]. rewrite Ho.
  intros H1. do 2 obind_inv H1. injection H1 as <-. rewrite Hstep. cbn [obind]. rewrite Hstep0. done.
Qed.

(** Setting the hint overwrites the sequence. *)
Lemma SetStateNumHint_sequence tx n ob tx' i i' : SetStateNumHint tx n ob = Ok tx' -> TxIns tx = [i] -> PreviousOutPoint i = PreviousOutPoint i' ->
  SetStateNumHint {| TxIns := [i']; TxOuts := TxOuts tx; LockTime := LockTime tx |} n ob = Ok tx'.
Proof. unfold SetStateNumHint. case_bool_decide; [done|]. intros H1 Hi E. rewrite Hi in H1. cbn. by rewrite <- E. Qed.

Variable sane : MsgTx -> bool.
Hypothesis sane_sequence : forall tx tx', same_but_sequence tx tx' -> sane tx = sane tx'.

(** What a commitment takes from a party's constraints. *)
Definition same_limits (c c' : ChannelConstraints) : Prop := DustLimit c = DustLimit c' /\ CsvDelay c = CsvDelay c'.

Definition same_format (t t' : Z) : Prop :=
  ChannelType.IsTweakless t = ChannelType.IsTweakless t' /\ ChannelType.HasLeaseExpiration t = ChannelType.HasLeaseExpiration t'.

Lemma commitTxFor_same ct ct' txin txin' (keys keys' : CommitmentKeyRing) lc lc' rc rc' a b x y ini lease asset shut tx p :
  same_format ct ct' -> ToLocalKey keys = ToLocalKey keys' -> RevocationKey keys = RevocationKey keys' -> same_limits lc lc' ->
  commitTxFor sane ct txin keys lc rc a b x y ini lease asset shut = Ok (tx, p) ->
  TxIns tx = [txin] /\
  commitTxFor sane ct' txin' keys' lc' rc' a b x y ini lease asset shut = Ok ({| TxIns := [txin']; TxOuts := TxOuts tx; LockTime := LockTime tx |}, p).
Proof.
  intros [_ Hl] Hk Hr [Hd Hc]. unfold commitTxFor, CreateCommitTx. cbn [CommitTx.CommitScriptToSelf channel_scripts ChanType].
  unfold Commit_ToSelf. rewrite Hl, Hk, Hr, Hd, Hc.
  destruct (hashed _); [|done..].
  repeat match goal with |- context [if ?c then _ else _] => destruct c end; try done; intros [= <- <-]; done.
Qed.

(** The keys and limits of a party as the other one knows them. *)
Record seen_config (c c' : FundingConfig) : Prop := {
  seen_MultiSig : kd_PubKey (fc_MultiSig c) = kd_PubKey (fc_MultiSig c');
  seen_Revocation : kd_PubKey (fc_Revocation c) = kd_PubKey (fc_Revocation c');
  seen_Payment : kd_PubKey (fc_Payment c) = kd_PubKey (fc_Payment c');
  seen_Delay : kd_PubKey (fc_Delay c) = kd_PubKey (fc_Delay c');
  seen_Htlc : kd_PubKey (fc_Htlc c) = kd_PubKey (fc_Htlc c');
  seen_limits : same_limits (fc_Constraints c) (fc_Constraints c');
}.

Lemma config_points_seen {E} c c' : seen_config c c' -> config_points (E := E) c = config_points c'.
Proof. intros [H1 H2 H3 H4 H5 _]. unfold config_points, pub_of. by rewrite H1, H2, H3, H4, H5. Qed.

Lemma ring_swap point ct ct' (a b : ChannelConfig) : same_format ct ct' ->
  ToLocalKey (DeriveCommitmentKeys point true ct a b) = ToLocalKey (DeriveCommitmentKeys point false ct' b a) /\
  RevocationKey (DeriveCommitmentKeys point true ct a b) = RevocationKey (DeriveCommitmentKeys point false ct' b a).
Proof. intros [H _]. unfold DeriveCommitmentKeys. rewrite H. by destruct (ChannelType.IsTweakless ct'). Qed.

Lemma same_format_sym t t' : same_format t t' -> same_format t' t.
Proof. by intros [H1 H2]. Qed.

Context {SG : Signer} {FLL : FundingLibLaws}.

Lemma sortInputs_one i : sortInputs [i] = [i].
Proof. apply Permutation_singleton_r. apply sortInputs_perm. Qed.

(** An output list after sorting and the payload, whatever the input. *)
Lemma finish_tx_sequence ins ins' outs lt p r : lift_op_resv (AddOpReturnToTx (InPlaceSort {| TxIns := [ins]; TxOuts := outs; LockTime := lt |}) p) = Ok r ->
  TxIns r = [ins] /\
  lift_op_resv (AddOpReturnToTx (InPlaceSort {| TxIns := [ins']; TxOuts := outs; LockTime := lt |}) p) =
    Ok {| TxIns := [ins']; TxOuts := TxOuts r; LockTime := LockTime r |}.
Proof.
  unfold InPlaceSort. cbn [TxIns TxOuts LockTime]. rewrite !sortInputs_one. intros H.
  destruct (AddOpReturnToTx _ _) as [r'| |] eqn:E; [|done..]. injection H as <-.
  destruct (AddOpReturnToTx_ins _ _ _ [ins'] lt E) as (Hi & Hl & E'). cbn [TxIns TxOuts LockTime] in *. rewrite E'. by rewrite Hi, Hl.
Qed.

Lemma CreateCommitmentTxns_swap lb rb la ra cO cT cO' cT' pO pT txin txin' ct ct' asset ini lease shO shT o t :
  same_format ct ct' -> PreviousOutPoint txin = PreviousOutPoint txin' -> seen_config cO cT' -> seen_config cT cO' ->
  CreateCommitmentTxns sane lb rb la ra cO cT pO pT txin ct asset ini lease shO shT = Ok (o, t) ->
  TxIns o = [txin] /\ TxIns t = [txin] /\
  CreateCommitmentTxns sane rb lb ra la cO' cT' pT pO txin' ct' asset (negb ini) lease shT shO =
    Ok ({| TxIns := [txin']; TxOuts := TxOuts t; LockTime := LockTime t |}, {| TxIns := [txin']; TxOuts := TxOuts o; LockTime := LockTime o |}).
Proof.
  intros Hf Hp HO HT. unfold CreateCommitmentTxns. rewrite <- (config_points_seen _ _ HO), <- (config_points_seen _ _ HT). rewrite negb_involutive.
  intros H. obind_inv H. obind_inv H. obind_inv H. destruct a1 as [o1 po]. obind_inv H. obind_inv H. destruct a2 as [t1 pt].
  do 3 obind_inv H. injection H as <- <-. rewrite Hstep0. cbn [obind]. rewrite Hstep. cbn [obind].
  destruct (ring_swap pT _ _ a0 a (same_format_sym _ _ Hf)) as [Ht1 Ht2], (ring_swap pO _ _ a a0 Hf) as [Ho1 Ho2].
  destruct (commitTxFor_same _ _ _ txin' _ _ _ (fc_Constraints cT') _ (fc_Constraints cO') _ _ _ _ _ _ _ _ _ _ Hf Ho1 Ho2 (seen_limits _ _ HO) Hstep1) as [Eo Co].
  destruct (commitTxFor_same _ _ _ txin' _ _ _ (fc_Constraints cO') _ (fc_Constraints cT') _ _ _ _ _ _ _ _ _ _ Hf (eq_sym Ht1) (eq_sym Ht2) (seen_limits _ _ HT) Hstep3) as [Et Ct].
  rewrite Ct. cbn [obind]. unfold checkSanity in *.
  rewrite <- (sane_sequence t1) by (unfold same_but_sequence; rewrite Et; cbn; by rewrite Hp). destruct (sane t1); [|done]. cbn [obind].
  rewrite Co. cbn [obind]. rewrite <- (sane_sequence o1) by (unfold same_but_sequence; rewrite Eo; cbn; by rewrite Hp). destruct (sane o1); [|done]. cbn [obind].
  destruct o1 as [io oo lo], t1 as [it ot lt]. cbn [TxIns TxOuts LockTime] in *. subst io it.
  destruct (finish_tx_sequence txin txin' _ _ _ _ Hstep5) as [Io Fo], (finish_tx_sequence txin txin' _ _ _ _ Hstep6) as [It Ft].
  rewrite Ft. cbn [obind]. rewrite Fo. by cbn [obind].
Qed.

Lemma initStateHints_swap o t ob o' t' txin txin' : PreviousOutPoint txin = PreviousOutPoint txin' -> TxIns o = [txin] -> TxIns t = [txin] ->
  initStateHints o t ob = Ok (o', t') ->
  initStateHints {| TxIns := [txin']; TxOuts := TxOuts t; LockTime := LockTime t |} {| TxIns := [txin']; TxOuts := TxOuts o; LockTime := LockTime o |} ob =
    Ok (t', o').
Proof.
  intros Hp Ho Ht. unfold initStateHints. destruct (SetStateNumHint o 0 ob) as [o1| |] eqn:Eo; [|done..].
  destruct (SetStateNumHint t 0 ob) as [t1| |] eqn:Et; [|done..]. intros [= <- <-].
  by rewrite (SetStateNumHint_sequence _ _ _ _ _ _ Et Ht Hp), (SetStateNumHint_sequence _ _ _ _ _ _ Eo Ho Hp).
Qed.
End transactions.

(** ** Mirrored reservations *)

Section mirror.
Context `{TS : TxScript} {TG : TxSign} {FL : FundingLib} {SG : Signer} {PL : PsbtLib} {TX : TxLib}.

(** The same balances, seen from the two ends. *)
Definition mirrored_balances (c c' : FirstCommitment) : Prop :=
  LocalBtcBalance c = RemoteBtcBalance c' /\ RemoteBtcBalance c = LocalBtcBalance c' /\
  LocalAssetBalance c = RemoteAssetBalance c' /\ RemoteAssetBalance c = LocalAssetBalance c' /\ first_CommitFee c = first_CommitFee c'.

Record mirrored (ch ch' : PendingChannel) : Prop := {
  mir_initiator : t_IsInitiator (Terms ch) = negb (t_IsInitiator (Terms ch'));
  mir_capacity : t_BtcCapacity (Terms ch) = t_BtcCapacity (Terms ch');
  mir_asset : t_AssetID (Terms ch) = t_AssetID (Terms ch');
  mir_thaw : t_ThawHeight (Terms ch) = t_ThawHeight (Terms ch');
  mir_format : same_format (t_ChanType (Terms ch)) (t_ChanType (Terms ch'));
  mir_single : ChannelType.IsSingleFunder (t_ChanType (Terms ch)) = true;
  mir_local : mirrored_balances (LocalCommitment ch) (LocalCommitment ch');
  mir_remote : mirrored_balances (RemoteCommitment ch) (RemoteCommitment ch');
}.

(** A contribution as the other party receives it. *)
Definition received (c c' : ChannelContribution) : Prop :=
  seen_config (contrib_Config c) (contrib_Config c') /\ FirstCommitmentPoint c = FirstCommitmentPoint c' /\ UpfrontShutdown c = UpfrontShutdown c'.

(** *** The type of the channel *)

Lemma reservationChanType_agree ct a a' thaw t t' :
  reservationChanType ct a thaw = Ok t -> reservationChanType ct a' thaw = Ok t' ->
  same_format t t' /\ ChannelType.IsSingleFunder t = true.
Proof.
  unfold reservationChanType, same_format.
  assert (fundingTxBit a = 0 \/ fundingTxBit a = ChannelType.NoFundingTxBit) as Ha by (destruct a as [| |? []]; cbn; auto).
  assert (fundingTxBit a' = 0 \/ fundingTxBit a' = ChannelType.NoFundingTxBit) as Ha' by (destruct a' as [| |? []]; cbn; auto).
  destruct Ha as [-> | ->], Ha' as [-> | ->], ct; cbn [HasStaticRemoteKey HasAnchors]; case_bool_decide; try done; intros [= <-] [= <-]; done.
Qed.

(** Who opens the channel has all of its capacity but the push, after the fee. *)
Lemma NewChannelReservation_mirrored dI dR capI locI capR locR fee idI idR push fI fR ct aI aR pI pR thI thR acI acR laI laR pushAsset asI asR rI rR :
  NewChannelReservation dI capI locI fee idI push fI ct aI pI thI acI laI pushAsset asI = Ok rI ->
  NewChannelReservation dR capR locR fee idR push fR ct aR pR thR acR laR pushAsset asR = Ok rR ->
  t_IsInitiator (Terms (partialState rI)) = true -> t_IsInitiator (Terms (partialState rR)) = false ->
  capI = capR -> thI = thR -> acI = acR -> asI = asR ->
  mirrored (partialState rI) (partialState rR).
Proof.
  unfold NewChannelReservation, initialBalances. intros HI HR HiI HiR -> -> -> ->.
  destruct (bool_decide (locI = 0)).
  { destruct (bool_decide (i64 _ < 0)); [done|]. cbn [obind andb negb] in HI.
    repeat match type of HI with (if ?c then _ else _) = _ => destruct c; [done|] end. obind_inv HI. by injection HI as <-. }
  destruct (bool_decide (capR = locI)); [|done].
  destruct (bool_decide (locR = 0)).
  2:{ destruct (bool_decide (capR = locR)); [|done]. destruct (bool_decide (i64 _ < 0)); [done|]. cbn [obind andb negb] in HR.
    repeat match type of HR with (if ?c then _ else _) = _ => destruct c; [done|] end. obind_inv HR. by injection HR as <-. }
  destruct (bool_decide (i64 _ < 0)); [done|]. cbn [obind andb negb] in HI, HR.
  repeat match type of HI with (if ?c then _ else _) = _ => destruct c; [done|] end.
  repeat match type of HR with (if ?c then _ else _) = _ => destruct c; [done|] end.
  obind_inv HI. obind_inv HR. injection HI as <-. injection HR as <-. cbn [partialState].
  destruct (reservationChanType_agree _ _ _ _ _ _ Hstep Hstep0). by split.
Qed.

Lemma mirrored_sets ch ch' o o' p p' : mirrored ch ch' -> mirrored (set_revocation (set_outpoint ch o) p) (set_revocation (set_outpoint ch' o') p').
Proof. by intros []. Qed.

Lemma LeaseExpiry_mirrored ch ch' : mirrored ch ch' -> LeaseExpiry ch = LeaseExpiry ch'.
Proof. intros [? ? ? Ht [_ Hl] ? ? ?]. unfold LeaseExpiry. by rewrite Hl, Ht. Qed.

(** *** The opening balances *)

Lemma openingBalances_mirrored ch ch' : mirrored ch ch' ->
  match openingBalances ch, openingBalances ch' with
  | (c, l, r), (c', l', r') =>
      l = r' /\ r = l' /\ mirrored c c' /\ pc_FundingOutpoint c = pc_FundingOutpoint ch /\ pc_FundingOutpoint c' = pc_FundingOutpoint ch' /\
      Terms c = Terms ch /\ Terms c' = Terms ch' /\
      LocalAssetBalance (LocalCommitment c) = LocalAssetBalance (LocalCommitment ch) /\
      RemoteCurrentRevocation c = RemoteCurrentRevocation ch /\ Final c' = Final ch'
  end.
Proof.
  intros Hm. pose proof Hm as [Hi Hc Ha Ht Hf Hs Hl Hr]. unfold openingBalances. destruct Hl as (Hl1 & Hl2 & Hl3 & Hl4 & Hl5), Hr as (Hr1 & Hr2 & Hr3 & Hr4 & Hr5).
  rewrite Ha, Hi, Hc, Hl1, Hl2, Hl3, Hl4, Hl5. destruct (bool_decide (t_AssetID _ > _)) eqn:E; [|by split_and!].
  destruct (t_IsInitiator (Terms ch')) eqn:Ei; cbn [negb];
    (split_and!; [done..| |done|done|done|done|done|done|done]);
    (split; cbn [Terms LocalCommitment RemoteCommitment]; try done; first [by rewrite Ei|split_and!; cbn; congruence]).
Qed.
End mirror.

(** ** Steps of the wallet *)

Section steps.
Context `{TS : TxScript} {TG : TxSign} {FL : FundingLib} {SG : Signer} {PL : PsbtLib} {TX : TxLib}.

Lemma wbind_ok_inv {A B} (m : W A) (k : A -> W B) l l' b : wbind m k l = (l', Ok b) -> exists l1 a, m l = (l1, Ok a) /\ k a l1 = (l', Ok b).
Proof. unfold wbind. destruct (m l) as [l1 [a| |]]; naive_solver. Qed.

Lemma wbind_ok {A B} (m : W A) (k : A -> W B) l l1 a : m l = (l1, Ok a) -> wbind m k l = k a l1.
Proof. unfold wbind. by intros ->. Qed.

Lemma reservation_ok fid l r : fundingLimbo l !! fid = Some r -> reservation fid l = (l, Ok r).
Proof. unfold reservation, wcheck, wlift. by intros ->. Qed.

Lemma reservation_inv fid l l' r : reservation fid l = (l', Ok r) -> l' = l /\ fundingLimbo l !! fid = Some r.
Proof. unfold reservation, wcheck, wlift. destruct (fundingLimbo l !! fid); naive_solver. Qed.

Lemma limbo_put fid r l : fundingLimbo (set_limbo l (<[fid := r]> (fundingLimbo l))) !! fid = Some r.
Proof. cbn. by rewrite lookup_insert_eq. Qed.

Lemma sortKeys_comm (a b : list byte) : sortKeys a b = sortKeys b a.
Proof.
  unfold sortKeys. rewrite (CommitSort.bytes_compare_antisym a b). destruct (bytes_compare a b) eqn:E; cbn; try done.
  by apply CommitSort.bytes_compare_eq in E as ->.
Qed.

Lemma GenFundingPkScript_comm a b x y ws out : 0 < y -> GenFundingPkScript a b x = Ok (ws, out) ->
  GenFundingPkScript b a y = Ok (ws, mkTxOut y (PkScript out)).
Proof.
  intros Hy. unfold GenFundingPkScript, GenMultiSigScript, multisig. rewrite (sortKeys_comm b a), (orb_comm (bool_decide (length b <> _))).
  rewrite (bool_decide_eq_false_2 (y <= 0)) by lia. case_bool_decide; [done|]. intros H1. do 2 obind_inv H1. injection H1 as <- <-.
  rewrite Hstep. cbn [obind]. rewrite Hstep0. done.
Qed.

(** Splits a successful sequence of steps. *)
Ltac wstep H l a Hs := apply wbind_ok_inv in H as (l & a & Hs & H).

Variable sane : MsgTx -> bool.

Definition is_psbt (i : Intent) : bool := match i with IntentPsbt _ => true | _ => false end.

Definition their_commit_desc (r : ChannelReservation) (ws : list byte) (out : TxOut) : SignDescriptor :=
  mkSignDesc (fc_MultiSig (contrib_Config (ourContribution r))) None None ws out 0 0 (byte_Z SigHashAll) 0.

(** What [buildCommitments] leaves in the reservation. *)
Lemma buildCommitments_inv fid seq obf l l' r res : fundingLimbo l !! fid = Some r -> buildCommitments sane fid seq obf l = (l', Ok res) ->
  exists ch lb rb, openingBalances (partialState r) = (ch, lb, rb) /\ commitmentPair sane (set_partial r ch) lb rb seq obf = Ok res /\
    fundingLimbo l' !! fid = Some (set_partial r (set_txs ch res.1 res.2)) /\ intentStore l' = intentStore l.
Proof.
  intros Hl H. unfold buildCommitments in H. wstep H l1 a Hs. apply reservation_inv in Hs as [-> Hs]. rewrite Hl in Hs. injection Hs as <-.
  destruct (openingBalances (partialState r)) as [[ch lb] rb]. wstep H l2 u Hs. injection Hs as <- <-. wstep H l3 ot Hs.
  destruct ot as [o t]. injection Hs as <- Hs. wstep H l4 u Hs'. injection Hs' as <- <-. injection H as <- <-. exists ch, lb, rb. split_and!; [done..| |done].
  cbn. by rewrite lookup_insert_eq.
Qed.

Lemma signTheirCommit_inv fid tx ws out l l' r : fundingLimbo l !! fid = Some r -> signTheirCommit fid tx ws out l = (l', Ok tt) ->
  exists s, SignOutputRaw tx (their_commit_desc r ws out) = Some s /\
    fundingLimbo l' !! fid = Some (set_sigs r (theirFundingInputScripts r) (Some s) (theirCommitmentSig r)).
Proof.
  intros Hl H. unfold signTheirCommit in H. wstep H l1 a Hs. apply reservation_inv in Hs as [-> Hs]. rewrite Hl in Hs. injection Hs as <-.
  wstep H l2 sg Hs. unfold wcheck, wlift in Hs. destruct (SignOutputRaw _ _) as [s|] eqn:E; [|done]. injection Hs as <- <-. injection H as <-.
  exists s. split; [done|]. cbn. by rewrite lookup_insert_eq.
Qed.

Lemma handleChanPointReady_inv B fid l l' r p i : fundingLimbo l !! fid = Some r -> fundingIntent r = Some p -> intentStore l !! p = Some i ->
  is_psbt i = false -> handleChanPointReady sane B fid l = (l', Ok tt) ->
  let r1 := set_partial r (set_revocation (partialState r) (FirstCommitmentPoint (theirContribution r))) in
  exists ch lb rb o t ws out s, openingBalances (partialState r1) = (ch, lb, rb) /\
    commitmentPair sane (set_partial r1 ch) lb rb 0 fundingObfuscator = Ok (o, t) /\ FundingOutput i = Ok (ws, out) /\
    SignOutputRaw t (their_commit_desc r ws out) = Some s /\
    fundingLimbo l' !! fid = Some (set_sigs (set_partial r1 (set_txs ch o t)) (theirFundingInputScripts r) (Some s) (theirCommitmentSig r)).
Proof.
  intros Hl Hp Hi Hn H r1. unfold handleChanPointReady in H. wstep H l1 a Hs. apply reservation_inv in Hs as [-> Hs]. rewrite Hl in Hs. injection Hs as <-.
  wstep H l2 a Hs. unfold intentOf, intentAt, wbind, wderef, wlift in Hs. rewrite Hp, Hi in Hs. injection Hs as <- <-.
  wstep H l3 a Hs. assert (l3 = l) as -> by (destruct i; [by injection Hs..|done]). clear Hs.
  wstep H l4 r' Hs. apply reservation_inv in Hs as [-> Hs]. rewrite Hl in Hs. injection Hs as <-.
  wstep H l5 u Hs. injection Hs as <- _. wstep H l6 ot Hs. destruct ot as [o t].
  destruct (buildCommitments_inv _ _ _ _ _ _ _ (limbo_put _ _ _) Hs) as (ch & lb & rb & Ho & Hc & Hl' & Hst).
  wstep H l7 i' Hs0. unfold intentAt, wderef, wlift in Hs0. rewrite Hst in Hs0. cbn [set_limbo intentStore] in Hs0. rewrite Hi in Hs0. injection Hs0 as <- <-.
  wstep H l8 fo Hs0. destruct fo as [ws out]. unfold wfund, wlift in Hs0. destruct (FundingOutput i) as [[ws' out']| |] eqn:Ef; [|done..]. injection Hs0 as <- <- <-.
  destruct (signTheirCommit_inv _ _ _ _ _ _ _ Hl' H) as (s & Hsig & Hfin).
  exists ch, lb, rb, o, t, ws', out', s. split_and!; [done..|]. exact Hfin.
Qed.

(** Up to the funding transaction. *)
Lemma handleContributionMsg_inv B fid c l l' r p f : fundingLimbo l !! fid = Some r -> fundingIntent r = Some p ->
  intentStore l !! p = Some (IntentFull f) -> handleContributionMsg sane B fid c l = (l', Ok tt) ->
  exists l1 op tx scripts f', handleChanPointReady sane B fid l1 = (l', Ok tt) /\
    fundingLimbo l1 !! fid = Some (set_funding (set_partial (set_their r c) (set_outpoint (partialState r) op)) (Some tx) scripts) /\
    intentStore l1 !! p = Some (IntentFull f') /\ localKey (full_Shim f') = Some (fc_MultiSig (contrib_Config (ourContribution r))) /\
    remoteKey (full_Shim f') = kd_PubKey (fc_MultiSig (contrib_Config c)).
Proof.
  intros Hl Hp Hi H. unfold handleContributionMsg in H. wstep H l1 a Hs. apply reservation_inv in Hs as [-> Hs]. rewrite Hl in Hs. injection Hs as <-.
  wstep H l2 u Hs. unfold wguard in Hs. destruct (shutdownOk _ _); [|done]. injection Hs as <- _.
  wstep H l3 u' Hs. injection Hs as <- _. wstep H l4 u'' Hs. unfold wguard in Hs. destruct (validateReserveBounds _ _); [|done]. injection Hs as <- _.
  wstep H l5 pi Hs. unfold intentOf, intentAt, wbind, wderef, wlift in Hs. cbn [fundingIntent set_their intentStore set_limbo] in Hs. rewrite Hp, Hi in Hs.
  injection Hs as <- <-. cbv zeta in H. wstep H l6 v Hs. wstep Hs l7 v1 H1. injection H1 as <- _. wstep Hs l8 ft H1. destruct ft as [f' tx].
  unfold wfund, wlift in H1. destruct (FullIntent_CompileFundingTx _ _ _ _ _ _ _) as [[f2 tx2]| |] eqn:Ec; [|done..]. injection H1 as <- <- <-.
  unfold FullIntent_CompileFundingTx in Ec. obind_inv Ec. destruct a as [mtx fo]. destruct (FindScriptOutputIndex _ _) as [found idx]. injection Ec as <- <-.
  wstep Hs l9 v2 H1. injection H1 as <- _. wstep Hs l10 op H1. injection H1 as <- <-. unfold recordFunding in Hs.
  wstep Hs l11 r' H1. apply reservation_inv in H1 as [-> H1]. cbn [fundingLimbo set_intents set_limbo] in H1. rewrite lookup_insert_eq in H1. injection H1 as <-.
  injection Hs as <- _. eexists _, _, _, _, _. split_and!; [exact H| | | |].
  - cbn [fundingLimbo set_limbo set_intents]. rewrite lookup_insert_eq. reflexivity.
  - cbn [intentStore set_limbo set_intents]. rewrite list_lookup_insert_eq; [done|]. rewrite length_insert. by apply lookup_lt_Some in Hi.
  - done.
  - done.
Qed.

Lemma provision_inv B funder req m l l' x : provision B funder req = Some m -> m l = (l', Ok x) ->
  exists i, intentStore l' !! x.1.1 = Some i.
Proof.
  unfold provision. destruct (ProvisionChannel _ _ _) as [o|]; cbn [mbind option_bind]; [|done]. intros [= <-] H.
  wstep H l1 il Hs. destruct il as [i locked]. wstep H l2 u Hs'. injection Hs' as <- _. wstep H l3 p Hs'. injection Hs' as <- <-.
  wstep H l4 u' Hs'. injection H as <- <-. unfold RegisterFundingIntent in Hs'. wstep Hs' l5 reg H1. injection H1 as <- <-.
  cbn [fundingIntents set_intents set_locks] in Hs'. destruct (fundingIntents l1 !! _); [done|]. injection Hs' as <- _. exists i.
  cbn. rewrite lookup_app_r by done. by rewrite Nat.sub_diag.
Qed.
End steps.
